(* ===== verification/_CoqProject ===== *)
-Q . S2P
Prelude.v
Math.v
Pmm.v
PmmLists.v
PmmBlocks.v
PmmAlloc.v
PmmZone.v
PmmSpec.v
Frames.v
Pagemap.v
PagemapTree.v
PagemapSpec.v
LibC.v
LibCSpec.v
Objects.v
Vmm.v
VmmSpec.v
VmmFault.v
Vfs.v
VfsTables.v
VfsSpec.v
VfsInv.v
VfsBoot.v
Files.v
FilesSpec.v
SysVfs.v
SysSpec.v
SysFiles.v
SysBoot.v
Process.v
ProcessSpec.v
Sched.v
SchedInv.v
SchedSpec.v
SchedSteps.v
SchedReach.v
SchedRun.v
SchedSleep.v
SchedEnd.v
Lock.v
RwLock.v
Semaphore.v
SysProc.v
SysProcSpec.v
Rbtree.v
RbTrees.v
RbtreeRep.v
RbtreeFix.v
RbtreeIns.v
RbtreeDel.v
RbtreeSpec.v
Exec.v
ExecStack.v
ExecSpec.v
ExecLoad.v
Initramfs.v
InitramfsSpec.v
InitramfsFiles.v
Symbols.v
SymbolsSpec.v
SymbolsNames.v
Pci.v
PciSpec.v
PciBars.v
PciEnum.v
PciLegacy.v
PciBoot.v
PciMachine.v
Modules.v
ModulesSpec.v
Initgraph.v
InitgraphSpec.v
KernelTasks.v
Timers.v
TimersSpec.v
