(* ===== verification/Prelude.v ===== *)
(** * A verification development for the Ilobilix kernel

    Ilobilix is a small operating system kernel in C++ for x86_64 (and, in parts, aarch64).
    This library models its core, function by function, and proves what makes it correct.
    Definitions keep the names of the source; file names below are relative to src/kernel
    unless they say src/dependencies.

    ** How the code is modelled

    - Machine words are integers [Z] in their range; wrapping around is written out with
      [w64], [w32], [s64] and [s32], bit operations are those of [Z].
    - Code that can stop has the type [outcome] (this file): [Done] for a result, [Panic]
      for [lib::panic] and failing [lib::bug_on], [Crash] for undefined behaviour, [Hang] for
      code that waits for ever, [NoFuel] when a bound of the model is too small.
    - [std::expected] is [expected], [std::optional] is [option].  Code that threads much
      state runs in a state monad: the system calls on files in [M] of SysVfs.v, the others
      in [P] of SysProc.v, PCI in [pciM] of Pci.v, modules in [K] of Modules.v.
    - Shared objects live in stores ([gmap]) under identifiers or addresses; two pointers
      alias when they are the same identifier.  Intrusive lists of the buddy allocator, page
      tables and the red-black tree are modelled at the level of their pointers and entries.
    - Concurrency is interleaving: locks are modelled at the level of single memory accesses
      (Lock.v); everything that runs under a lock or with interrupts disabled on its own
      processor is one step.  Where that hides something there is a second definition with
      the parts and a theorem about what can come between them: [schedule_during] for the
      interrupt handler, which reads a status again after it has released the lock
      ([woken_in_two_queues]), and [mutex_pop] and [mutex_wake] for the halves of [signal]
      ([stale_wake_up]).

    ** Parts, and the files that model them

    - Integer helpers (interfaces/lib/math.cppm): Math.v.
    - Physical memory (source/system/memory/pmm.cpp): Pmm.v is the code of the buddy
      allocators.  PmmLists.v, PmmBlocks.v, PmmAlloc.v, PmmZone.v and PmmSpec.v relate its
      intrusive lists and page frame database to a partition of memory into blocks.
      Frames.v has the class [FrameAllocator], what the clients call, and the class
      [FrameAllocatorLaws], what they rely on, and shows that the buddy allocators and the
      boot-time allocator implement it.
    - Page tables (source/system/memory/pagemap.cpp and its x86_64 part): Pagemap.v,
      PagemapTree.v, PagemapSpec.v; their frames come from a [FrameAllocator].
    - Memory objects and address spaces (source/system/memory/vmm.cpp): Objects.v, Vmm.v,
      VmmSpec.v, VmmFault.v.  An address space uses its page map through [PageMapOps].
    - C library (source/libc): LibC.v, LibCSpec.v.
    - Virtual file system, tmpfs, devtmpfs and device files (source/system/vfs.cpp,
      source/drivers/fs, source/system/dev.cpp): Vfs.v, VfsTables.v, VfsSpec.v, VfsInv.v,
      VfsBoot.v; open files and their operations: Files.v, FilesSpec.v.
    - File system calls (source/system/syscall/vfs.cpp and the call table): SysVfs.v,
      SysSpec.v, SysFiles.v, SysBoot.v.
    - Processes, groups, sessions (source/system/scheduler.cpp): Process.v, ProcessSpec.v.
    - Scheduler (source/system/scheduler.cpp and its x86_64 part): Sched.v; its invariant is
      in SchedInv.v, SchedSpec.v (the interrupt handler), SchedSteps.v (all other operations) and
      SchedReach.v (start-up, the step relation, reachable states); SchedRun.v is about contexts,
      SchedSleep.v about the sleeper, SchedEnd.v about threads that are stopped, lost or
      doubled.
    - Locks (interfaces/lib/spinlock.cppm, source/lib/lock.cpp): Lock.v; the reader-writer lock
      (interfaces/lib/rwlock.cppm): RwLock.v; semaphores and mutexes
      (source/lib/semaphore.cpp, interfaces/lib/mutex.cppm): Semaphore.v.
    - System calls on processes, memory, time and the processor (source/system/syscall):
      SysProc.v, SysProcSpec.v.
    - Red-black tree (interfaces/lib/rbtree.cppm): Rbtree.v is the code on nodes and pointers,
      RbTrees.v the same on trees as values; RbtreeRep.v, RbtreeFix.v, RbtreeIns.v and
      RbtreeDel.v relate the two, RbtreeSpec.v refines the tree to an ordered list, which the
      queues of Sched.v are.
    - Program loading (source/system/bin/exec.cpp, script.cpp, elf/exec.cpp): Exec.v,
      ExecStack.v (the initial stack), ExecSpec.v (segments), ExecLoad.v.
    - Initial ramdisk (source/drivers/initramfs.cpp): Initramfs.v, InitramfsSpec.v,
      InitramfsFiles.v.
    - Symbols (source/system/bin/elf/symbols.cpp, and of the generator
      src/dependencies/kallsyms/kallsyms.c the writer [write_src] of the tables): Symbols.v,
      SymbolsSpec.v, SymbolsNames.v.
    - PCI (source/system/pci, source/arch/x86_64/system/pci.cpp): Pci.v; PciSpec.v states what
      configuration registers promise, PciBars.v, PciEnum.v and PciLegacy.v are on base
      addresses, enumeration and access through ports, PciBoot.v puts them together, and
      PciMachine.v is an example machine.
    - Kernel modules (source/system/bin/elf/module.cpp): Modules.v, ModulesSpec.v.
    - Start of the kernel: Initgraph.v has the engines that order it
      (interfaces/lib/initgraph.cppm), InitgraphSpec.v what they do to any graph, and
      KernelTasks.v the graph of all stages and tasks of the kernel (source/boot/kernel.cpp
      and the files that define tasks).
    - Timers and clocks (source/system/time.cpp, source/drivers/timers and
      source/arch/x86_64/drivers/timers): Timers.v, TimersSpec.v.
    ** How they interact

    System calls act on open files, these on inodes and memory objects, these on frames.
    The page fault handler goes from an address space to an object and enters the frame into the
    page map.  The scheduler switches between the threads of processes, whose address
    spaces it loads; creating a thread allocates from the heap and maps its stack.  Loading a
    program reads files, makes objects, maps them and makes a thread.  Where a part promises
    something to another this is a class: [FrameAllocator], [PageMapOps], [PathOps] and
    [ConfigIo] have the operations, [FrameAllocatorLaws], [PageMapLaws], [PathLaws] and
    [ConfigLaws] what is promised.  The client is proved against the class and the
    implementation is an instance: the buddy allocators, the page tables, the path functions
    of VfsBoot.v, and access through ports, which is in turn proved from [PortLaws].

    ** What the theorems show

    - Memory: allocation hands out free, aligned blocks and freeing restores the partition
      ([zone_alloc_correct], [zone_alloc_free], [zone_add_range_correct]); mapping, protecting and unmapping
      change exactly the translations of their range ([map_translate], [unmap_translate],
      [protect_keeps_addresses], [vm_map_correct], [vm_unmap_correct], [vm_protect_correct]),
      down to the entries of the page tables; large pages with some kinds of caching translate
      to an address that is too high, which [map_translate] says; a page fault makes the page
      of the object visible ([pfault_maps_page]), except for writes to shared private objects,
      which never return ([pfault_cow_deadlock]); objects are byte arrays
      ([object_read_correct], [object_write_correct]); mmap gives zeroed memory and munmap
      takes it away ([mmap_fault_zero], [mmap_munmap]).
    - Files: every reachable directory tree is well formed ([vfs_reachable_ok]), path names resolve
      to their places ([pathname_resolves]), tmpfs refines lists of bytes up to the first read
      behind the end of a file, which crashes ([tmpfs_refines]), errors are reported, apart from
      a confusion of F_GETFL ([vfs_syscall_errors]), what is written can be read back ([write_seek_read]); an
      archive unpacks to its files ([load_archive], [load_files]).
    - Scheduling: in every state that is reached by whole operations and whole runs of the
      interrupt handler each thread is at one place and none is lost but perhaps a reaper
      ([sched_reachable_ok], [reaper_lost]); the handler picks the right thread ([schedule_switches]) and a thread gets
      its context back ([context_restored]); the sleeper wakes those that are due
      ([sleeper_wakes_due]); the tables of processes agree ([procs_reachable_ok]) and setpgid
      changes them as it says ([setpgid_correct]).
    - The red-black tree is an ordered list under all operations ([rbtree_refines_list]) and
      stays balanced ([rbtree_search]).
    - Locks: the ticket lock serves the threads in the order in which they asked, under every
      interleaving ([ticket_lock_fifo]), the mutex excludes and loses no wake-up
      ([mutex_no_lost_wakeup]), a signal wakes the front of the list ([signal_wakes_front]), the
      reader-writer lock excludes ([rwlock_exclusive]).
    - Loading: a static executable is mapped as its headers say, with the stack of the ABI
      ([load_elf_correct]); modules are relocated to the addresses their symbols
      stand for in the tables of the kernel and the module ([relocate_correct]), which both searches find ([klookup_correct],
      [lookup_addr_correct]) in the tables the generator writes ([kallsyms_names]).
    - PCI: at boot the devices behind all bridges are found and nothing else ([pci_boot]), on
      machines that are set up as [topology_at] says: devices and PCI Express bridges, lists of
      capabilities that end, bus numbers that increase;
      base addresses are sized and restored ([read_bars_correct]); lists of capabilities end
      or are cyclic ([capabilities_end]).
    - Start: an engine runs what can be run, in order, or panics ([run_correct]); the tasks of
      the kernel have no circular needs ([kernel_boots]).
    - Timers: a short counter is extended exactly if one processor reads it often enough
      ([pm_time_exact]) and can be a round ahead in all later readings otherwise ([shared_counter_race]);
      a 64-bit HPET continues the reading of the old clock ([hpet_takes_over]); waiting ends, and not too early ([stall_ns_correct]).
    - Where the code does not do what it is meant to, a theorem says what it does
      instead ([pfault_cow_deadlock], [resolve_recursive_link], [open_creates], [device_files],
      [user_thread_not_destroyed], [reaper_lost], [irq_lock_race], [setpgid_never],
      [exec_truncated], [load_stuck], [devidx_collides], [addend_ignored], [hpet_missing], [leaf_freq_wraps] and smaller ones in
      the files of their parts).

    ** Bounds and fuel

    Loops whose end is not structural run on fuel, and there is a theorem that a stated
    amount is enough: the buddy allocator ([pmm_fuel], one unit per order and per block), page
    ranges ([loop_fuel], one per page), reading and writing objects ([chunk_fuel], one per byte
    touched), strings (their length), the fix-up loops of the red-black tree (the depth of the
    tree), the searches of symbols (26 rounds by name, 33 by address), lists of capabilities
    (64, the number of places in the registers), nested buses (one per bus number, 256), engines
    (one round per node) and waiting (one reading per nanosecond).
    Path resolution may recurse for ever; the theorems on it hold for every fuel that gives a
    result, and [resolve_recursive_link] shows a path for which none does.  Everything else is
    total.

    ** Parameters

    What is not in the repository is an argument: the path functions of the cwalk library
    ([PathOps], with an implementation in VfsBoot.v), the C++ library's random generator, names of enumerators,
    the slab heap of the frigg library ([KernelHeap]), the clock, the limits of user memory, the
    tables that the uACPI library reads ([Acpi]), the ports of the machine ([Ports]), the registers of
    the timers ([TimerHw]), frigg's heap of clocks ([ClockHeap]) and what a task does when it runs.

    ** Not modelled

    Hardware access (interrupt controllers, descriptor tables, the start of other
    processors), output and logging, the boot protocol, the glue to the uACPI, frigg and flanterm
    libraries and the aarch64 port.  Of the modelled parts: building the page frame database and the
    kernel page map at boot, invalidating translation buffers, floating-point parsing, mapping
    base addresses and memory-mapped configuration space of PCI, walking the directory of
    modules, the threads that read short counters once a second, [kmain] and [kthread] apart from
    the engines, and of the generator of symbols everything before the tables are written.
*)

From Stdlib Require Export ZArith Lia.
From stdpp Require Export base tactics option list list_numbers numbers gmap fin_maps sets strings.

(** Kernel words are integers [Z]; widths are written out where they matter. *)
Open Scope Z_scope.

(** * Outcomes of kernel code

    - [Done a]  the code returned [a];
    - [Panic]   [lib::panic], [lib::panic_if] or a failing [lib::bug_on]
                ([lib::bug_on] checks only in ILOBILIX_DEBUG builds; a theorem that
                excludes [Panic] therefore covers both kinds of build);
    - [Crash]   undefined behaviour of the C++ code: a null or unmapped pointer is
                dereferenced, [std::unreachable] is reached;
    - [Hang]    the code waits for ever, for example for a lock its caller holds;
    - [NoFuel]  the recursion bound of the model was too small.  It is an artefact
                of the model, and termination theorems exclude it. *)
Inductive outcome (A : Type) : Type :=
| Done (a : A)
| Panic
| Crash
| Hang
| NoFuel.
Arguments Done {A} a.
Arguments Panic {A}.
Arguments Crash {A}.
Arguments Hang {A}.
Arguments NoFuel {A}.

#[export] Instance outcome_ret : MRet outcome := @Done.
#[export] Instance outcome_bind : MBind outcome := λ A B f m,
  match m with
  | Done a => f a
  | Panic => Panic
  | Crash => Crash
  | Hang => Hang
  | NoFuel => NoFuel
  end.

(** [std::expected<A, E>]. *)
Inductive expected (E A : Type) : Type :=
| Value (a : A)
| Unexpected (e : E).
Arguments Value {E A} a.
Arguments Unexpected {E A} e.

#[export] Instance expected_ret E : MRet (expected E) := @Value E.
#[export] Instance expected_bind E : MBind (expected E) := λ A B f m,
  match m with
  | Value a => f a
  | Unexpected e => Unexpected e
  end.

#[export] Instance outcome_eq_dec {A} `{EqDecision A} : EqDecision (outcome A).
Proof. solve_decision. Defined.
#[export] Instance expected_eq_dec {E A} `{EqDecision E, EqDecision A} :
  EqDecision (expected E A).
Proof. solve_decision. Defined.

(** [lib::bug_on(c)] of a debug build, [lib::panic_if(c)]. *)
Definition bug_on (c : bool) : outcome unit := if c then Panic else Done ().

(** An operation that dereferences a pointer which may be null or unmapped. *)
Definition deref {A} (o : option A) : outcome A :=
  match o with Some a => Done a | None => Crash end.

(** Reduction of the outcome monad. *)
Lemma outcome_bind_Done {A B} (a : A) (f : A → outcome B) : (Done a ≫= f) = f a.
Proof. reflexivity. Qed.
Lemma bind_Done_inv {A B} (m : outcome A) (f : A → outcome B) (b : B) :
  (m ≫= f) = Done b → ∃ a, m = Done a ∧ f a = Done b.
Proof. destruct m; simpl; naive_solver. Qed.
Lemma bug_on_Done_inv (c : bool) u : bug_on c = Done u → c = false.
Proof. by destruct c. Qed.
Lemma deref_Done_inv {A} (o : option A) (a : A) : deref o = Done a → o = Some a.
Proof. destruct o; simpl; congruence. Qed.

(** * Machine words *)
Definition word_max : Z := 2 ^ 64 - 1.
(** Conversion to [std::uint64_t], [std::size_t], [std::uintptr_t]. *)
Definition w64 (x : Z) : Z := x mod 2 ^ 64.
Definition w32 (x : Z) : Z := x mod 2 ^ 32.
Definition w16 (x : Z) : Z := x mod 2 ^ 16.
Definition w8 (x : Z) : Z := x mod 2 ^ 8.
(** Conversion to a signed two's complement integer. *)
Definition s64 (x : Z) : Z := (x + 2 ^ 63) mod 2 ^ 64 - 2 ^ 63.
Definition s32 (x : Z) : Z := (x + 2 ^ 31) mod 2 ^ 32 - 2 ^ 31.
Definition s8 (x : Z) : Z := (x + 2 ^ 7) mod 2 ^ 8 - 2 ^ 7.
(** Bitwise complement of a 64-bit word. *)
Definition wnot64 (x : Z) : Z := word_max - x.

Abbreviation is_w64 x := (0 ≤ x < 2 ^ 64).

Lemma w64_small x : is_w64 x → w64 x = x.
Proof. intros. unfold w64. by apply Z.mod_small. Qed.
Lemma w64_range x : is_w64 (w64 x).
Proof. unfold w64. apply Z.mod_pos_bound. lia. Qed.
Lemma w32_small x : 0 ≤ x < 2 ^ 32 → w32 x = x.
Proof. intros. unfold w32. by apply Z.mod_small. Qed.
Lemma s64_small x : - 2 ^ 63 ≤ x < 2 ^ 63 → s64 x = x.
Proof. intros. unfold s64. rewrite Z.mod_small; lia. Qed.
Lemma s32_small x : - 2 ^ 31 ≤ x < 2 ^ 31 → s32 x = x.
Proof. intros Hx. unfold s32. rewrite Z.mod_small; lia. Qed.
Lemma s64_w64_small x : - 2 ^ 63 ≤ x < 2 ^ 63 → s64 (w64 x) = x.
Proof.
  intros. unfold s64, w64. rewrite Zplus_mod_idemp_l, Z.mod_small; lia.
Qed.

(** Powers of two that occur in the sources, for [lia]. *)
Lemma pow2_pos k : 0 ≤ k → 0 < 2 ^ k.
Proof. intros. by apply Z.pow_pos_nonneg. Qed.
Lemma pow2_succ k : 0 ≤ k → 2 ^ (k + 1) = 2 * 2 ^ k.
Proof. intros. rewrite Z.pow_add_r by lia. lia. Qed.
Lemma pow2_le a b : a ≤ b → 0 ≤ b → 2 ^ a ≤ 2 ^ b.
Proof. intros. by apply Z.pow_le_mono_r. Qed.

(** * Bits *)
Lemma testbit_land_lnot_pow2 n k i :
  0 ≤ k → 0 ≤ i →
  Z.testbit (Z.land n (Z.lnot (2 ^ k - 1))) i = (k <=? i) && Z.testbit n i.
Proof.
  intros Hk Hi. rewrite Z.land_spec, Z.lnot_spec by done.
  replace (2 ^ k - 1) with (Z.ones k) by (rewrite Z.ones_equiv; lia).
  rewrite Z.testbit_ones_nonneg by done.
  destruct (Z.ltb_spec i k), (Z.leb_spec k i); try lia;
    by rewrite ?andb_false_r, ?andb_true_r.
Qed.

(** Masking off the low [k] bits rounds down to a multiple of [2^k]. *)
Lemma land_lnot_pow2 n k :
  0 ≤ k → Z.land n (Z.lnot (2 ^ k - 1)) = 2 ^ k * (n / 2 ^ k).
Proof.
  intros Hk. apply Z.bits_inj'. intros i Hi.
  rewrite testbit_land_lnot_pow2 by done.
  rewrite Z.mul_comm, Z.mul_pow2_bits, <-Z.shiftr_div_pow2 by done.
  destruct (Z.leb_spec k i); simpl.
  - rewrite Z.shiftr_spec by lia. f_equal; lia.
  - symmetry. apply Z.testbit_neg_r. lia.
Qed.

(** The complement as a 64-bit word and the mathematical complement agree under a mask. *)
Lemma wnot64_lnot x : wnot64 x = w64 (Z.lnot x) ∨ ¬ is_w64 x.
Proof.
  destruct (decide (is_w64 x)) as [Hx|]; [left|by right].
  unfold wnot64, word_max, w64. rewrite <-(Z.mod_add (Z.lnot x) 1) by lia.
  unfold Z.lnot. rewrite Z.mod_small; lia.
Qed.
Lemma land_wnot64 n x :
  is_w64 n → is_w64 x → Z.land n (wnot64 x) = Z.land n (Z.lnot x).
Proof.
  intros Hn Hx. destruct (wnot64_lnot x) as [->|]; [|done].
  unfold w64. rewrite <-Z.land_ones, (Z.land_comm (Z.lnot x)), Z.land_assoc by lia.
  rewrite (Z.land_ones n), Z.mod_small; lia.
Qed.

(** * Tactics of the development *)

(** Decompose equations [m ≫= f = Done b] into the steps that produced [b]. *)
Ltac done_steps :=
  repeat match goal with
  | H : (_ ≫= _) = Done _ |- _ =>
      let a := fresh "a" in
      apply bind_Done_inv in H as (a & ? & H)
  | H : bug_on _ = Done _ |- _ => apply bug_on_Done_inv in H
  | H : deref _ = Done _ |- _ => apply deref_Done_inv in H
  | H : Done _ = Done _ |- _ => injection H as H
  | H : Panic = Done _ |- _ => discriminate H
  | H : Crash = Done _ |- _ => discriminate H
  | H : Hang = Done _ |- _ => discriminate H
  | H : NoFuel = Done _ |- _ => discriminate H
  end; simplify_eq/=.

(** Turn boolean comparisons on integers into propositions. *)
Ltac bool_to_prop :=
  repeat match goal with
  | H : _ && _ = true |- _ => apply andb_true_iff in H as [? ?]
  | H : _ || _ = false |- _ => apply orb_false_iff in H as [? ?]
  | H : (_ <? _) = true |- _ => apply Z.ltb_lt in H
  | H : (_ <? _) = false |- _ => apply Z.ltb_ge in H
  | H : (_ <=? _) = true |- _ => apply Z.leb_le in H
  | H : (_ <=? _) = false |- _ => apply Z.leb_gt in H
  | H : (_ =? _) = true |- _ => apply Z.eqb_eq in H
  | H : (_ =? _) = false |- _ => apply Z.eqb_neq in H
  | H : negb _ = true |- _ => apply negb_true_iff in H
  | H : negb _ = false |- _ => apply negb_false_iff in H
  end.

(** Examples run to the end: an equation that says otherwise is refuted by evaluation. *)
Definition is_panic {A} (o : outcome A) : bool := match o with Panic => true | _ => false end.
Ltac not_panic E :=
  match type of E with
  | ?l = Panic =>
      let Ho := fresh in
      assert (is_panic l = false) as Ho by (vm_compute; reflexivity); rewrite E in Ho; discriminate Ho
  end.

(** Case analysis on the outermost test of the goal, with its specification. *)
Ltac case_test :=
  match goal with
  | |- context [if (?a <? ?b) then _ else _] => destruct (Z.ltb_spec a b)
  | |- context [if (?a <=? ?b) then _ else _] => destruct (Z.leb_spec a b)
  | |- context [if (?a =? ?b) then _ else _] => destruct (Z.eqb_spec a b)
  end.

Create HintDb kernel discriminated.
#[export] Hint Resolve w64_range pow2_pos : kernel.

