(* ===== verification/Math.v ===== *)
(** lib:math (kernel/interfaces/lib/math.cppm): alignment, powers of two, ranges,
    frequency fractions and civil dates, on 64-bit words. *)

From S2P Require Import Prelude.

(** * Sizes and alignment *)
Definition kib (num : Z) : Z := w64 (num * 1024).
Definition mib (num : Z) : Z := w64 (kib num * 1024).
Definition gib (num : Z) : Z := w64 (mib num * 1024).

Definition align_down (n a : Z) : Z := Z.land n (wnot64 (w64 (a - 1))).
Definition align_up (n a : Z) : Z := align_down (w64 (w64 (n + a) - 1)) a.
Definition div_roundup (n a : Z) : Z := align_down (w64 (w64 (n + a) - 1)) a / a.
Definition div_rounddown (n a : Z) : Z := align_down n a / a.

Lemma align_down_pow2 n k :
  is_w64 n → 0 ≤ k < 64 → align_down n (2 ^ k) = 2 ^ k * (n / 2 ^ k).
Proof.
  intros Hn Hk. unfold align_down.
  assert (2 ^ k < 2 ^ 64) by (apply Z.pow_lt_mono_r; lia).
  pose proof (pow2_pos k ltac:(lia)).
  rewrite w64_small by lia. rewrite land_wnot64 by lia.
  apply land_lnot_pow2. lia.
Qed.

Lemma align_up_pow2 n k :
  0 ≤ n → 0 ≤ k < 64 → n + 2 ^ k ≤ 2 ^ 64 →
  align_up n (2 ^ k) = 2 ^ k * ((n + 2 ^ k - 1) / 2 ^ k).
Proof.
  intros Hn Hk Hov. pose proof (pow2_pos k ltac:(lia)). unfold align_up.
  assert (w64 (w64 (n + 2 ^ k) - 1) = n + 2 ^ k - 1) as ->.
  { unfold w64. rewrite Zminus_mod_idemp_l, Z.mod_small; lia. }
  apply align_down_pow2; lia.
Qed.

Lemma div_roundup_pow2 n k :
  0 ≤ n → 0 ≤ k < 64 → n + 2 ^ k ≤ 2 ^ 64 →
  div_roundup n (2 ^ k) = (n + 2 ^ k - 1) / 2 ^ k.
Proof.
  intros Hn Hk Hov. pose proof (pow2_pos k ltac:(lia)).
  unfold div_roundup. fold (align_up n (2 ^ k)).
  rewrite align_up_pow2 by lia. by rewrite Z.mul_comm, Z.div_mul by lia.
Qed.

(** * Ranges *)
Definition range_overlaps (start1 end1 start2 end2 : Z) : bool :=
  (start1 <? end2) && (start2 <? end1).

Definition range_intersection (start1 end1 start2 end2 : Z) : Z * Z :=
  if negb (range_overlaps start1 end1 start2 end2) then (0, 0)
  else (Z.max start1 start2, Z.min end1 end2).

Lemma range_intersection_spec s1 e1 s2 e2 x :
  s1 ≤ e1 → s2 ≤ e2 →
  fst (range_intersection s1 e1 s2 e2) ≤ x < snd (range_intersection s1 e1 s2 e2) ↔
  s1 ≤ x < e1 ∧ s2 ≤ x < e2.
Proof.
  intros. unfold range_intersection, range_overlaps.
  destruct (Z.ltb_spec s1 e2), (Z.ltb_spec s2 e1); simpl; lia.
Qed.

(** * Powers of two *)
Definition bit_width (v : Z) : Z := if v =? 0 then 0 else Z.log2 v + 1.
Definition log2 (val : Z) : Z := w64 (bit_width val - 1).
(** [1ull << val]; the C++ shift is defined for [val < 64]. *)
Definition pow2 (val : Z) : Z := w64 (Z.shiftl 1 val).
Definition is_pow2 (num : Z) : bool := Z.land num (w64 (num - 1)) =? 0.

Definition next_pow2 (val : Z) : Z :=
  let val := w64 (val - 1) in
  let val := Z.lor val (Z.shiftr val 1) in
  let val := Z.lor val (Z.shiftr val 2) in
  let val := Z.lor val (Z.shiftr val 4) in
  let val := Z.lor val (Z.shiftr val 8) in
  let val := Z.lor val (Z.shiftr val 16) in
  let val := Z.lor val (Z.shiftr val 32) in
  w64 (val + 1).

Definition pre_pow2 (val : Z) : Z :=
  let np2 := next_pow2 val in
  if np2 =? val then np2 else Z.shiftr np2 1.

Lemma pow2_spec k : 0 ≤ k < 64 → pow2 k = 2 ^ k.
Proof.
  intros. unfold pow2. rewrite Z.shiftl_1_l. apply w64_small.
  split; [lia|]. apply Z.pow_lt_mono_r; lia.
Qed.

Lemma log2_pow2 k : 0 ≤ k < 64 → log2 (2 ^ k) = k.
Proof.
  intros. unfold log2, bit_width. pose proof (pow2_pos k ltac:(lia)).
  destruct (Z.eqb_spec (2 ^ k) 0); [lia|].
  rewrite Z.log2_pow2, Z.add_simpl_r by lia. apply w64_small. lia.
Qed.

(** One smearing step: if the [s] bits below and including the top bit [h] are set,
    or-ing in a shift by [s] sets the [2s] topmost ones. *)
Definition smear (s v : Z) : Z := Z.lor v (Z.shiftr v s).

Definition smeared (h s v : Z) : Prop :=
  0 ≤ v ∧ (∀ i, h < i → Z.testbit v i = false) ∧
  (∀ i, 0 ≤ i → h - s < i ≤ h → Z.testbit v i = true).

Lemma smear_step h s v :
  0 ≤ h → 0 < s → smeared h s v → smeared h (2 * s) (smear s v).
Proof.
  intros Hh Hs (Hv & Hhi & Hlo). unfold smear. split_and!.
  - apply Z.lor_nonneg. by rewrite Z.shiftr_nonneg.
  - intros i Hi. rewrite Z.lor_spec, Z.shiftr_spec, !Hhi by lia. done.
  - intros i Hi Hi'. rewrite Z.lor_spec, Z.shiftr_spec by lia.
    destruct (decide (h - s < i)) as [?|?].
    + rewrite Hlo by lia. done.
    + rewrite (Hlo (i + s)) by lia. apply orb_true_r.
Qed.

Lemma smeared_init v : 0 < v → smeared (Z.log2 v) 1 v.
Proof.
  intros Hv. split_and!; [lia|..]; intros i Hi.
  - apply Z.bits_above_log2; lia.
  - intros Hi'. replace i with (Z.log2 v) by lia. by apply Z.bit_log2.
Qed.

Lemma smeared_full h s v : 0 ≤ h < s → smeared h s v → v = 2 ^ (h + 1) - 1.
Proof.
  intros Hh (Hv & Hhi & Hlo). rewrite <-Z.pred_succ at 1.
  change (2 ^ (h + 1) - 1) with (Z.pred (2 ^ (h + 1))). rewrite <-Z.ones_equiv, Z.pred_succ.
  apply Z.bits_inj'. intros i Hi. rewrite Z.testbit_ones_nonneg by lia.
  destruct (Z.ltb_spec i (h + 1)); [apply Hlo|apply Hhi]; lia.
Qed.

Lemma next_pow2_smear v :
  next_pow2 v = w64 (smear 32 (smear 16 (smear 8 (smear 4 (smear 2 (smear 1 (w64 (v - 1))))))) + 1).
Proof. reflexivity. Qed.

Lemma next_pow2_log2 v :
  1 < v ≤ 2 ^ 63 → next_pow2 v = 2 ^ (Z.log2 (v - 1) + 1).
Proof.
  intros Hv. rewrite next_pow2_smear, (w64_small (v - 1)) by lia.
  assert (Z.log2 (v - 1) < 63) as Hh by (apply Z.log2_lt_pow2; lia).
  pose proof (Z.log2_nonneg (v - 1)) as Hh0.
  pose proof (smeared_init (v - 1) ltac:(lia)) as S.
  generalize dependent (Z.log2 (v - 1)). intros h Hh Hh0 S.
  apply (smear_step h 1), (smear_step h 2), (smear_step h 4), (smear_step h 8),
    (smear_step h 16), (smear_step h 32) in S; [|lia..].
  apply (smeared_full h 64) in S; [|lia]. rewrite S, Z.sub_add. apply w64_small.
  assert (2 ^ (h + 1) ≤ 2 ^ 63) by (apply pow2_le; lia).
  pose proof (pow2_pos (h + 1) ltac:(lia)). lia.
Qed.

(** [next_pow2 v] is the least power of two that is at least [v]. *)
Lemma next_pow2_bounds v :
  1 ≤ v ≤ 2 ^ 63 →
  ∃ k, 0 ≤ k ≤ 63 ∧ next_pow2 v = 2 ^ k ∧ v ≤ 2 ^ k < 2 * v.
Proof.
  intros Hv. destruct (decide (v = 1)) as [->|Hne]; [by exists 0|].
  exists (Z.log2 (v - 1) + 1).
  pose proof (Z.log2_spec (v - 1) ltac:(lia)) as [Hlo Hup].
  rewrite <-Z.add_1_r in Hup. rewrite next_pow2_log2 by lia.
  pose proof (Z.log2_nonneg (v - 1)).
  assert (Z.log2 (v - 1) < 63) by (apply Z.log2_lt_pow2; lia).
  rewrite pow2_succ in * by lia. split_and!; lia.
Qed.

Lemma next_pow2_zero : next_pow2 0 = 0.
Proof. reflexivity. Qed.

Lemma pre_pow2_bounds v :
  1 ≤ v ≤ 2 ^ 63 →
  ∃ k, 0 ≤ k ≤ 63 ∧ pre_pow2 v = 2 ^ k ∧ 2 ^ k ≤ v < 2 * 2 ^ k.
Proof.
  intros Hv. destruct (next_pow2_bounds v Hv) as (k & Hk & Hn & Hb).
  unfold pre_pow2. rewrite Hn. destruct (Z.eqb_spec (2 ^ k) v) as [<-|Hne].
  - exists k. pose proof (pow2_pos k ltac:(lia)). split_and!; lia.
  - assert (k ≠ 0) by (intros ->; simpl in *; lia).
    exists (k - 1). rewrite Z.shiftr_div_pow2 by lia.
    replace k with (k - 1 + 1) in * by lia. rewrite Z.add_simpl_r in *.
    rewrite pow2_succ in * by lia. change (2 ^ 1) with 2.
    rewrite Z.mul_comm, Z.div_mul by lia. split_and!; lia.
Qed.

(** * Frequency fractions: ticks to nanoseconds *)
Record freqfrac := { ff_p : Z; ff_n : Z; ff_freq : Z }.

Definition freqfrac_init (freq : Z) : freqfrac :=
  let p := log2 freq in
  let n := w64 (Z.shiftl 1000000000 p) / freq in
  {| ff_p := p; ff_n := n; ff_freq := freq |}.

(** [ticks] is a 128-bit integer, the result saturates at the 64-bit maximum. *)
Definition nanos (f : freqfrac) (ticks : Z) : Z :=
  let res := Z.shiftr ((ticks * ff_n f) mod 2 ^ 128) (ff_p f) in
  if negb (Z.shiftr res 64 =? 0) then word_max else res.

Definition ticks (f : freqfrac) (ns : Z) : Z :=
  w64 (Z.shiftl ns (ff_p f)) / ff_n f.

(** * Civil dates *)
Definition days_from_civil (years months days : Z) : Z :=
  let years := years - (if months <=? 2 then 1 else 0) in
  let era := Z.quot (if 0 <=? years then years else years - 399) 400 in
  let yoe := w64 (years - era * 400) in
  let doy := w64 (w64 (w64 (w64 (153 * (if 2 <? months then w64 (months - 3) else w64 (months + 9)) + 2) / 5 + days) - 1)) in
  let doe := w64 (yoe * 365 + yoe / 4 - yoe / 100 + doy) in
  era * 146097 + s64 doe - 719468.

Definition timestamp (years months days hours minutes seconds : Z) : Z :=
  let value := w64 (days_from_civil years months days) in
  w64 (w64 (w64 (w64 (value * 86400) + hours * 3600) + minutes * 60) + seconds).

Definition epoch : Z := timestamp 1970 1 1 0 0 0.

Definition date_from (unix : Z) : Z * Z * Z :=
  let unix := unix / 86400 in
  let unix := w64 (unix + 719468) in
  let era := (if 0 <=? unix then unix else w64 (unix - 146096)) / 146097 in
  let doe := w64 (unix - era * 146097) in
  let yoe := w64 (w64 (w64 (doe - doe / 1460) + doe / 36524) - doe / 146096) / 365 in
  let year := w16 (yoe + era * 400) in
  let doy := w64 (doe - w64 (w64 (365 * yoe + yoe / 4) - yoe / 100)) in
  let mp := w64 (5 * doy + 2) / 153 in
  let day := w8 (w64 (w64 (doy - (153 * mp + 2) / 5) + 1)) in
  let month := w8 (if mp <? 10 then mp + 3 else w64 (mp - 9)) in
  (w16 (year + (if month <=? 2 then 1 else 0)), month, day).

Definition time_from (unix : Z) : Z * Z * Z :=
  let unix := unix mod 86400 in
  (w8 (unix / 3600), w8 (unix / 60 mod 60), w8 (unix mod 60)).

(** Gregorian calendar. *)
Definition leap_year (y : Z) : bool :=
  (y mod 4 =? 0) && (negb (y mod 100 =? 0) || (y mod 400 =? 0)).
Definition days_in_month (y m : Z) : Z :=
  if m =? 2 then (if leap_year y then 29 else 28)
  else if (m =? 4) || (m =? 6) || (m =? 9) || (m =? 11) then 30 else 31.
Definition valid_date (y m d : Z) : Prop :=
  1970 ≤ y ≤ 65535 ∧ 1 ≤ m ≤ 12 ∧ 1 ≤ d ≤ days_in_month y m.

(** Day of the year and day of the era counted from the first of March. *)
Definition civil_doy (m d : Z) : Z :=
  (153 * (if 2 <? m then m - 3 else m + 9) + 2) / 5 + d - 1.
Definition civil_doe (yoe m d : Z) : Z :=
  yoe * 365 + yoe / 4 - yoe / 100 + civil_doy m d.

(** The conversion is periodic with a period of 400 years (146097 days). *)
Definition era_year_of (doe : Z) : Z :=
  (doe - doe / 1460 + doe / 36524 - doe / 146096) / 365.

(** The day of an era determines the year of the era: [c] is the century, [q] the
    four-year cycle and [r] the year of the cycle; a day 365 exists in leap years only. *)
Lemma era_year_of_spec c q r doy :
  0 ≤ c < 4 → 0 ≤ q < 25 → 0 ≤ r < 4 → 0 ≤ doy ≤ 365 →
  (doy = 365 → r = 3 ∧ (q < 24 ∨ c = 3)) →
  era_year_of (36524 * c + 1461 * q + 365 * r + doy) = 100 * c + 4 * q + r.
Proof.
  intros Hc Hq Hr Hd Hl. unfold era_year_of.
  remember (36524 * c + 1461 * q + 365 * r + doy) as doe eqn:E.
  pose proof (Z.div_mod doe 1460 ltac:(lia)). pose proof (Z.mod_pos_bound doe 1460 ltac:(lia)).
  pose proof (Z.div_mod doe 36524 ltac:(lia)). pose proof (Z.mod_pos_bound doe 36524 ltac:(lia)).
  pose proof (Z.div_mod doe 146096 ltac:(lia)). pose proof (Z.mod_pos_bound doe 146096 ltac:(lia)).
  generalize dependent (doe mod 1460); intros ra; intros.
  generalize dependent (doe mod 36524); intros rb; intros.
  generalize dependent (doe mod 146096); intros re; intros.
  generalize dependent (doe / 1460); intros a; intros.
  generalize dependent (doe / 36524); intros b; intros.
  generalize dependent (doe / 146096); intros e; intros.
  assert (c = 0 ∨ c = 1 ∨ c = 2 ∨ c = 3) as Hcc by lia.
  assert (r = 0 ∨ r = 1 ∨ r = 2 ∨ r = 3) as Hrr by lia.
  assert (e = 0 ∧ b = c ∨
          e = 1 ∧ b = 4 ∧ c = 3 ∧ q = 24 ∧ r = 3 ∧ doy = 365) as Hb by lia.
  symmetry. apply Z.div_unique_pos
    with (r := doe - a + b - e - 365 * (100 * c + 4 * q + r)); [|lia].
  destruct Hb as [[-> ->]|(-> & -> & -> & -> & -> & ->)]; [|lia].
  assert (a = 25 * c + q ∨ a = 25 * c + q + 1) as [->| ->] by lia; lia.
Qed.

(** All integers of [lo, lo + n). *)
Definition range_forall (lo : Z) (n : nat) (P : Z → bool) : bool :=
  forallb P (seqZ lo (Z.of_nat n)).
Lemma range_forall_spec lo n P x :
  range_forall lo n P = true → lo ≤ x < lo + Z.of_nat n → P x = true.
Proof.
  unfold range_forall. rewrite forallb_forall. intros H Hx. apply H.
  apply list_elem_of_In, elem_of_seqZ. lia.
Qed.

(** The day of the year determines month and day: checked for the 366 days of a leap year. *)
Definition month_check (m d : Z) : bool :=
  let doy := civil_doy m d in
  let mp := (5 * doy + 2) / 153 in
  (0 <=? doy) && (if (m =? 2) && (d =? 29) then doy =? 365 else doy <? 365) &&
  (doy - (153 * mp + 2) / 5 + 1 =? d) && ((if mp <? 10 then mp + 3 else mp - 9) =? m).
Definition month_table : bool :=
  range_forall 1 12 (λ m, range_forall 1 31 (λ d,
    if days_in_month 2000 m <? d then true else month_check m d)).

Lemma days_in_month_2000 y m : days_in_month y m ≤ days_in_month 2000 m ≤ 31.
Proof.
  unfold days_in_month. change (leap_year 2000) with true. repeat case_match; lia.
Qed.

Lemma month_check_ok y m d :
  1 ≤ m ≤ 12 → 1 ≤ d ≤ days_in_month y m → month_check m d = true.
Proof.
  intros Hm Hd. pose proof (days_in_month_2000 y m).
  assert (month_table = true) as T by (vm_compute; reflexivity).
  apply (range_forall_spec _ _ _ m) in T; [|lia].
  apply (range_forall_spec _ _ _ d) in T; [|lia].
  cbv beta in T. destruct (days_in_month 2000 m <? d) eqn:E; [bool_to_prop; lia|exact T].
Qed.

(** Division of an era into centuries, cycles and years. *)
Lemma era_split yoe :
  0 ≤ yoe < 400 →
  ∃ c q r, yoe = 100 * c + 4 * q + r ∧ 0 ≤ c < 4 ∧ 0 ≤ q < 25 ∧ 0 ≤ r < 4 ∧
    yoe / 4 = 25 * c + q ∧ yoe / 100 = c.
Proof.
  intros H. exists (yoe / 100), ((yoe mod 100) / 4), (yoe mod 4).
  Z.to_euclidean_division_equations; lia.
Qed.

(** In a leap year the era year before it ends a cycle, and ends a century only if the
    century ends the era. *)
Lemma leap_split k c q r :
  0 ≤ c < 4 → 0 ≤ q < 25 → 0 ≤ r < 4 →
  (400 * k + (100 * c + 4 * q + r) + 1) mod 4 = 0 →
  (400 * k + (100 * c + 4 * q + r) + 1) mod 100 ≠ 0 ∨
  (400 * k + (100 * c + 4 * q + r) + 1) mod 400 = 0 →
  r = 3 ∧ (q < 24 ∨ c = 3).
Proof.
  intros Hc Hq Hr H4 H100.
  assert (r = 3) as ->.
  { clear H100. Z.to_euclidean_division_equations. lia. }
  split; [done|]. destruct (decide (q = 24)) as [->|]; [right|lia].
  replace (400 * k + (100 * c + 4 * 24 + 3) + 1) with ((4 * k + c + 1) * 100) in H100 at 1 by lia.
  rewrite Z.mod_mul in H100 by lia. destruct H100 as [|H400]; [done|].
  clear H4. Z.to_euclidean_division_equations. lia.
Qed.

Lemma era_check_ok y m d :
  let y' := y - (if m <=? 2 then 1 else 0) in
  let yoe := y' mod 400 in
  let doe := civil_doe yoe m d in
  valid_date y m d →
  0 ≤ doe < 146097 ∧ era_year_of doe = yoe ∧ 0 ≤ civil_doy m d ≤ 365.
Proof.
  intros y' yoe doe ((Hy1 & Hy2) & Hm & Hd).
  pose proof (month_check_ok y m d Hm Hd) as Hc. unfold month_check in Hc. bool_to_prop.
  pose proof (Z.mod_pos_bound y' 400 ltac:(lia)) as Hyoe. fold yoe in Hyoe.
  destruct (era_split yoe Hyoe) as (c & q & r & Ey & Hc & Hq & Hr & E4 & E100).
  assert (civil_doy m d ≤ 365 ∧
          (civil_doy m d = 365 → r = 3 ∧ (q < 24 ∨ c = 3))) as [Hdoy Hl].
  { destruct (m =? 2) eqn:Em, (d =? 29) eqn:Ed; simpl in *; bool_to_prop; try lia.
    split; [lia|]. intros _. subst m d.
    unfold days_in_month in Hd. simpl in Hd.
    destruct (leap_year y) eqn:Hleap; [|lia]. unfold leap_year in Hleap.
    assert (y = 400 * (y' / 400) + (100 * c + 4 * q + r) + 1) as Ey'.
    { rewrite <-Ey. unfold yoe. pose proof (Z.div_mod y' 400 ltac:(lia)). subst y'. simpl in *. lia. }
    apply andb_true_iff in Hleap as [H4 H100]. apply Z.eqb_eq in H4.
    rewrite Ey' in H4, H100. generalize (y' / 400), H4, H100. clear - Hc Hq Hr.
    intros k H4 H100. apply (leap_split k); [lia..|done|].
    apply orb_true_iff in H100 as [H100|H100]; bool_to_prop; auto. }
  assert (doe = 36524 * c + 1461 * q + 365 * r + civil_doy m d) as Edoe.
  { unfold doe, civil_doe. rewrite E4, E100. lia. }
  split; [|split; [|lia]].
  - rewrite Edoe. lia.
  - rewrite Edoe, era_year_of_spec; lia.
Qed.

(** Day number of a valid date, without the conversions between widths. *)
Lemma days_from_civil_eq y m d :
  valid_date y m d →
  let y' := y - (if m <=? 2 then 1 else 0) in
  days_from_civil y m d = (y' / 400) * 146097 + civil_doe (y' mod 400) m d - 719468.
Proof.
  intros Hv y'. pose proof (era_check_ok y m d Hv) as (Hdoe & _ & Hdoy).
  destruct Hv as ((Hy1 & Hy2) & Hm & Hd). fold y' in Hdoe.
  assert (1969 ≤ y') by (subst y'; case_test; lia).
  pose proof (Z.mod_pos_bound y' 400 ltac:(lia)) as Hyoe.
  unfold days_from_civil. fold y'.
  assert ((0 <=? y') = true) as -> by (apply Z.leb_le; lia).
  rewrite Z.quot_div_nonneg by lia.
  replace (y' - y' / 400 * 400) with (y' mod 400) by (rewrite Z.mod_eq; lia).
  rewrite (w64_small (y' mod 400)) by lia.
  assert (0 ≤ y' mod 400 / 4 ∧ y' mod 400 / 100 ≤ 4) by
    (clear Hdoe; Z.to_euclidean_division_equations; lia).
  unfold civil_doe, civil_doy in *.
  set (mm := if 2 <? m then m - 3 else m + 9) in *.
  assert ((if 2 <? m then w64 (m - 3) else w64 (m + 9)) = mm) as ->.
  { subst mm. case_test; apply w64_small; lia. }
  assert (0 ≤ mm ≤ 12) by (subst mm; case_test; lia).
  rewrite (w64_small (153 * mm + 2)) by lia.
  assert (0 ≤ (153 * mm + 2) / 5 ≤ 400) by (Z.to_euclidean_division_equations; lia).
  pose proof (days_in_month_2000 y m).
  rewrite (w64_small (_ / 5 + d)), (w64_small (_ / 5 + d - 1)) by lia.
  rewrite (w64_small (_ / 5 + d - 1)), w64_small, s64_small by lia. lia.
Qed.

(** [date_from] inverts the day number; [n] is the day number of the era, [e]. *)
Lemma date_from_day e yoe m d s :
  0 ≤ e ≤ 1000 → 0 ≤ yoe < 400 →
  1 ≤ m ≤ 12 → 1 ≤ d ≤ 31 → 0 ≤ s < 86400 →
  0 ≤ civil_doe yoe m d < 146097 → era_year_of (civil_doe yoe m d) = yoe →
  0 ≤ civil_doy m d ≤ 365 → month_check m d = true →
  719468 ≤ e * 146097 + civil_doe yoe m d →
  date_from ((e * 146097 + civil_doe yoe m d - 719468) * 86400 + s) =
    (w16 (w16 (yoe + e * 400) + (if m <=? 2 then 1 else 0)), m, d).
Proof.
  intros He Hyoe Hm Hd Hs Hdoe Hera Hdoy Hmc Hpos. unfold date_from.
  assert (((e * 146097 + civil_doe yoe m d - 719468) * 86400 + s) / 86400
          = e * 146097 + civil_doe yoe m d - 719468) as ->.
  { symmetry. apply Z.div_unique_pos with s; lia. }
  rewrite Z.sub_add. set (doe := civil_doe yoe m d) in *.
  rewrite (w64_small (_ + doe)) by lia.
  assert ((0 <=? e * 146097 + doe) = true) as -> by (apply Z.leb_le; lia).
  assert ((e * 146097 + doe) / 146097 = e) as ->.
  { symmetry. apply Z.div_unique_pos with doe; lia. }
  replace (e * 146097 + doe - e * 146097) with doe by lia.
  rewrite (w64_small doe) by lia.
  assert (doe / 1460 ≤ doe) by (apply Z.div_le_upper_bound; lia).
  assert (0 ≤ doe / 1460 ∧ 0 ≤ doe / 36524 ≤ 4 ∧ 0 ≤ doe / 146096 ≤ 1 ∧
          doe / 146096 ≤ doe - doe / 1460 + doe / 36524).
  { Z.to_euclidean_division_equations; lia. }
  assert (w64 (w64 (w64 (doe - doe / 1460) + doe / 36524) - doe / 146096) / 365 = yoe) as ->.
  { rewrite <-Hera. unfold era_year_of, w64. f_equal.
    rewrite Zminus_mod_idemp_l, <-Z.add_sub_assoc, Zplus_mod_idemp_l, Z.mod_small; lia. }
  assert (0 ≤ yoe / 4 ≤ 100 ∧ 0 ≤ yoe / 100 ≤ 4) by (Z.to_euclidean_division_equations; lia).
  assert (w64 (doe - w64 (w64 (365 * yoe + yoe / 4) - yoe / 100)) = civil_doy m d) as ->.
  { unfold w64. rewrite Zminus_mod_idemp_l, Zminus_mod_idemp_r. subst doe. unfold civil_doe.
    rewrite Z.mod_small; lia. }
  unfold month_check in Hmc. bool_to_prop.
  set (doy := civil_doy m d) in *.
  rewrite (w64_small (5 * doy + 2)) by lia.
  set (mp := (5 * doy + 2) / 153) in *.
  assert (0 ≤ mp ≤ 11) by (subst mp; Z.to_euclidean_division_equations; lia).
  assert ((if mp <? 10 then mp + 3 else w64 (mp - 9)) = m) as ->.
  { destruct (Z.ltb_spec mp 10); rewrite ?w64_small; lia. }
  rewrite (w64_small (doy - _)), w64_small by lia.
  assert (doy - (153 * mp + 2) / 5 + 1 = d) as -> by done.
  unfold w8. rewrite !(Z.mod_small _ (2 ^ 8)) by lia. done.
Qed.

(** The day number of a valid date, with its time of day, is not truncated. *)
Lemma timestamp_eq y m d h mi s :
  valid_date y m d → 0 ≤ h < 24 → 0 ≤ mi < 60 → 0 ≤ s < 60 →
  let y' := y - (if m <=? 2 then 1 else 0) in
  timestamp y m d h mi s =
    ((y' / 400) * 146097 + civil_doe (y' mod 400) m d - 719468) * 86400 +
      (h * 3600 + mi * 60 + s) ∧
  719468 ≤ (y' / 400) * 146097 + civil_doe (y' mod 400) m d.
Proof.
  intros Hv Hh Hmi Hs y'.
  destruct (era_check_ok y m d Hv) as (Hdoe & Hera & Hdoy).
  pose proof (days_from_civil_eq y m d Hv) as E. cbv zeta in E. fold y' in E, Hdoe, Hera.
  destruct Hv as ((Hy1 & Hy2) & Hm & Hd).
  assert (719468 ≤ (y' / 400) * 146097 + civil_doe (y' mod 400) m d) as Hpos.
  { unfold civil_doe, civil_doy in *. subst y'.
    destruct (Z.leb_spec m 2), (Z.ltb_spec 2 m); try lia; Z.to_euclidean_division_equations; lia. }
  split; [|done]. unfold timestamp. rewrite E.
  assert (0 ≤ y' / 400 ≤ 200) by (subst y'; case_test; Z.to_euclidean_division_equations; lia).
  rewrite (w64_small (_ - 719468)) by lia.
  rewrite (w64_small (_ * 86400)), (w64_small (_ * 86400 + _)), (w64_small (_ + mi * 60)), w64_small by lia. lia.
Qed.

(** Every valid date of the years 1970 to 65535 with a time of day survives the round
    trip through its Unix timestamp. *)
Theorem timestamp_date_roundtrip y m d h mi s :
  valid_date y m d → 0 ≤ h < 24 → 0 ≤ mi < 60 → 0 ≤ s < 60 →
  date_from (timestamp y m d h mi s) = (y, m, d) ∧
  time_from (timestamp y m d h mi s) = (h, mi, s).
Proof.
  intros Hv Hh Hmi Hs.
  destruct (timestamp_eq y m d h mi s Hv Hh Hmi Hs) as [-> Hpos].
  destruct (era_check_ok y m d Hv) as (Hdoe & Hera & Hdoy).
  destruct Hv as ((Hy1 & Hy2) & Hm & Hd). pose proof (days_in_month_2000 y m).
  pose proof (month_check_ok y m d Hm Hd) as Hmc.
  set (y' := y - (if m <=? 2 then 1 else 0)) in *.
  assert (1969 ≤ y' ≤ 65535) by (subst y'; case_test; lia).
  pose proof (Z.mod_pos_bound y' 400 ltac:(lia)) as Hyoe.
  pose proof (Z.div_mod y' 400 ltac:(lia)) as Hdm.
  split.
  - rewrite date_from_day by (lia || done). unfold w16.
    rewrite (Z.mod_small (y' mod 400 + y' / 400 * 400)) by lia.
    replace (y' mod 400 + y' / 400 * 400 + (if m <=? 2 then 1 else 0)) with y by (subst y'; lia).
    by rewrite Z.mod_small by lia.
  - unfold time_from. rewrite Z.add_comm, Z.mod_add, Z.mod_small by lia.
    unfold w8. rewrite !(Z.mod_small _ (2 ^ 8)) by (Z.to_euclidean_division_equations; lia).
    f_equal; [f_equal|]; Z.to_euclidean_division_equations; lia.
Qed.

Lemma timestamp_date_roundtrip_witness :
  date_from (timestamp 2024 2 29 23 59 58) = (2024, 2, 29) ∧
  time_from (timestamp 2024 2 29 23 59 58) = (23, 59, 58).
Proof.
  apply (timestamp_date_roundtrip 2024 2 29 23 59 58); [|lia..].
  split_and!; [lia..|vm_compute; congruence].
Defined.
