(* ===== verification/Pmm.v ===== *)
(** system.memory.phys (kernel/source/system/memory/pmm.cpp): the buddy allocator of
    physical pages.

    The intrusive free lists live in the free pages themselves, so the state keeps a
    store of list nodes indexed by virtual address; the page frame database keeps one
    [page] per frame.  Everything is at the level of pointers; [PmmSpec.v] relates it to
    an abstract partition of memory into blocks. *)

From S2P Require Import Prelude Math.

Definition page_size : Z := 4096.
Definition page_bits : Z := 12.
Definition max_order : Z := 15.

(** [struct page]; [next_paddr] is a 36-bit and [order] a 4-bit field. *)
Record page := mk_page { next_paddr : Z; order : Z; allocated : bool }.
Definition set_next_paddr (v : Z) (p : page) : page := mk_page (v mod 2 ^ 36) (order p) (allocated p).
Definition set_order (v : Z) (p : page) : page := mk_page (next_paddr p) (v mod 2 ^ 4) (allocated p).
Definition set_allocated (v : bool) (p : page) : page := mk_page (next_paddr p) (order p) v.

(** [struct list], the node stored at the start of a free block; 0 is the null pointer. *)
Record node := mk_node { prev : Z; next : Z }.

(** The three instances [allocator<Start, End>] and the enumeration [pmm::type]. *)
Inductive zone := Sub1mib | Sub4gib | Normal.
#[export] Instance zone_eq_dec : EqDecision zone.
Proof. solve_decision. Defined.
Definition zone_start (z : zone) : Z :=
  match z with Sub1mib => page_size | Sub4gib => mib 1 | Normal => gib 4 end.
Definition zone_end (z : zone) : Z :=
  match z with Sub1mib => mib 1 | Sub4gib => gib 4 | Normal => word_max end.

(** Memory the allocators work on: list heads ([lists[order].next] of each zone), list
    nodes and page frame database. *)
Record heap := mk_heap { heads : zone → Z → Z; nodes : gmap Z node; pages : gmap Z page }.
Definition set_head (z : zone) (k : Z) (v : Z) (h : heap) : heap :=
  mk_heap (λ z' k', if decide (z' = z ∧ k' = k) then v else heads h z' k') (nodes h) (pages h).
Definition set_node (a : Z) (n : node) (h : heap) : heap :=
  mk_heap (heads h) (<[a := n]> (nodes h)) (pages h).
Definition set_page (i : Z) (p : page) (h : heap) : heap :=
  mk_heap (heads h) (nodes h) (<[i := p]> (pages h)).

Definition next_order_from (size : Z) : Z :=
  if size <? page_size then -1 else s64 (w64 (log2 (next_pow2 size) - 12)).
Definition prev_order_from (size : Z) : Z :=
  if size <? page_size then -1 else s64 (w64 (log2 (pre_pow2 size) - 12)).

(** [page_size * lib::pow2(order)] *)
Definition block_size (k : Z) : Z := w64 (page_size * pow2 k).

Section allocator.
(** Offset of the higher-half direct map, chosen by the boot loader. *)
Context (hhdm : Z).

Definition tohh (val : Z) : Z := if hhdm <=? val then val else w64 (val + hhdm).
Definition fromhh (val : Z) : Z := if hhdm <=? val then w64 (val - hhdm) else val.

(** [page_for]: index of the page in the page frame database. *)
Definition page_for (addr : Z) : Z := fromhh addr / page_size.

Definition get_page (h : heap) (addr : Z) : outcome page := deref (pages h !! page_for addr).
Definition upd_page (f : page → page) (addr : Z) (h : heap) : outcome heap :=
  p ← get_page h addr; Done (set_page (page_for addr) (f p) h).
Definition get_node (h : heap) (addr : Z) : outcome node := deref (nodes h !! addr).
Definition upd_node (f : node → node) (addr : Z) (h : heap) : outcome heap :=
  n ← get_node h addr; Done (set_node addr (f n) h).

Definition with_prev (v : Z) (n : node) : node := mk_node v (next n).
Definition with_next (v : Z) (n : node) : node := mk_node (prev n) v.

Definition put (z : zone) (k : Z) (pg : Z) (h : heap) : outcome heap :=
  let head := heads h z k in
  let h := set_node pg (mk_node 0 head) h in
  h ← (if head =? 0 then Done h else upd_node (with_prev pg) head h);
  Done (set_head z k pg h).

Definition rem (z : zone) (k : Z) (h : heap) : outcome (Z * heap) :=
  let ret := heads h z k in
  n ← get_node h ret;
  let h := set_head z k (next n) h in
  h ← (if next n =? 0 then Done h else upd_node (with_prev 0) (next n) h);
  Done (ret, h).

Definition has_pages (z : zone) (k : Z) (h : heap) : bool := negb (heads h z k =? 0).

Definition in_range (z : zone) (ptr : Z) : bool :=
  let addr := fromhh ptr in (zone_start z <=? addr) && (addr <? zone_end z).

Definition zone_intersection (z : zone) (rstart rend : Z) : Z * Z :=
  range_intersection rstart rend (zone_start z) (zone_end z).

(** The largest order not above [k] whose blocks are aligned at [base]; [None] is the
    wrap-around of [order] below zero. *)
Fixpoint aligned_order (base : Z) (k : nat) : option Z :=
  if base mod block_size (Z.of_nat k) =? 0 then Some (Z.of_nat k)
  else match k with O => None | S k => aligned_order base k end.

Fixpoint add_range_loop (fuel : nat) (z : zone) (base size : Z) (h : heap) : outcome (Z * heap) :=
  match fuel with
  | O => NoFuel
  | S fuel =>
      if size <? page_size then Done (size, h) else
      let h := set_node base (mk_node 0 0) h in
      let sorder := prev_order_from size in
      if sorder <? 0 then Done (size, h) else
      match aligned_order base (Z.to_nat (Z.min sorder max_order)) with
      | None => Done (size, h)
      | Some k =>
          h ← upd_page (set_order k) base h;
          h ← put z k base h;
          let offset := block_size k in
          add_range_loop fuel z (w64 (base + offset)) (w64 (size - offset)) h
      end
  end.

(** [allocator::add_range] returns the size that was not added. *)
Definition zone_add_range (z : zone) (base size : Z) (h : heap) : outcome (Z * heap) :=
  if (base <? zone_start z) || (zone_end z <? w64 (base + size)) then Done (size, h)
  else add_range_loop (S (Z.to_nat (size / page_size))) z (tohh base) size h.

(** The first order from [current] on, up to [max_order], with a free block. *)
Fixpoint find_order (n : nat) (z : zone) (current : Z) (h : heap) : option Z :=
  if has_pages z current h then Some current
  else match n with
       | O => None
       | S n => if max_order <? current + 1 then None else find_order n z (current + 1) h
       end.

(** Body of the splitting loop; [current] has been decremented already. *)
Definition split_step (z : zone) (current : Z) (h : heap) : outcome heap :=
  '(pg, h) ← rem z (current + 1) h;
  let buddy := w64 (pg + block_size current) in
  pg_page ← get_page h pg;
  buddy_page ← get_page h buddy;
  _ ← bug_on (allocated pg_page);
  _ ← bug_on (allocated buddy_page);
  h ← upd_page (set_order current) pg h;
  h ← upd_page (set_order current) buddy h;
  pg_page ← get_page h pg;
  h ← upd_page (set_next_paddr (next_paddr pg_page)) buddy h;
  h ← upd_page (set_next_paddr (Z.shiftr (fromhh buddy) page_bits)) pg h;
  h ← put z current pg h;
  put z current buddy h.

(** [while (current > target)], [n] iterations are left. *)
Fixpoint split_loop (n : nat) (z : zone) (current : Z) (h : heap) : outcome heap :=
  match n with
  | O => Done h
  | S n => h ← split_step z (current - 1) h; split_loop n z (current - 1) h
  end.

Definition split_to (z : zone) (target : Z) (h : heap) : outcome heap :=
  match find_order 16 z (target + 1) h with
  | None => Done h
  | Some current => split_loop (Z.to_nat (current - target)) z current h
  end.

(** The lambda [remove] of [coalesce_to]. *)
Definition list_remove (z : zone) (k : Z) (pg : Z) (h : heap) : outcome heap :=
  n ← get_node h pg;
  h ← (if prev n =? 0 then Done (set_head z k (next n) h)
       else upd_node (with_next (next n)) (prev n) h);
  n ← get_node h pg;
  if next n =? 0 then Done h else upd_node (with_prev (prev n)) (next n) h.

(** The inner loop of [coalesce_to]: skip blocks without a right buddy. [None] is
    [goto end]. *)
Fixpoint skip_right (fuel : nat) (k : Z) (curr : Z) (h : heap) : outcome (option Z) :=
  match fuel with
  | O => NoFuel
  | S fuel =>
      p ← get_page h curr;
      if (next_paddr p =? 0) || negb (curr mod block_size (k + 1) =? 0) then
        n ← get_node h curr;
        if next n =? 0 then Done None else skip_right fuel k (next n) h
      else Done (Some curr)
  end.

(** Merge [curr] with its buddy. *)
Definition merge_step (z : zone) (k : Z) (curr buddy : Z) (h : heap) : outcome heap :=
  h ← list_remove z k curr h;
  h ← list_remove z k buddy h;
  h ← upd_page (set_order (k + 1)) curr h;
  buddy_page ← get_page h buddy;
  h ← upd_page (set_next_paddr (next_paddr buddy_page)) curr h;
  put z (k + 1) curr h.

Fixpoint coalesce_loop (fuel : nat) (z : zone) (k : Z) (curr : Z) (h : heap) : outcome heap :=
  match fuel with
  | O => NoFuel
  | S fuel' =>
      if negb (has_pages z k h) then Done h else
      oc ← skip_right fuel k curr h;
      match oc with
      | None => Done h
      | Some curr =>
          curr_page ← get_page h curr;
          _ ← bug_on (allocated curr_page);
          _ ← bug_on (negb (order curr_page =? k));
          let buddy := tohh (w64 (Z.shiftl (next_paddr curr_page) page_bits)) in
          buddy_page ← get_page h buddy;
          if allocated buddy_page || negb (order buddy_page =? k) then
            n ← get_node h curr;
            if next n =? 0 then Done h else coalesce_loop fuel' z k (next n) h
          else
            h ← merge_step z k curr buddy h;
            coalesce_loop fuel' z k (heads h z k) h
      end
  end.

Fixpoint coalesce_orders (fuel : nat) (n : nat) (z : zone) (k : Z) (h : heap) : outcome heap :=
  match n with
  | O => Done h
  | S n =>
      h ← coalesce_loop fuel z k (heads h z k) h;
      coalesce_orders fuel n z (k + 1) h
  end.

Definition coalesce_to (fuel : nat) (z : zone) (target : Z) (h : heap) : outcome heap :=
  if target =? 0 then Done h else
  let target := if max_order <? target then max_order else target in
  coalesce_orders fuel (Z.to_nat target) z 0 h.

(** [allocator::free] returns the number of bytes it accounts for. *)
Definition zone_free (z : zone) (ptr npages : Z) (h : heap) : outcome (Z * heap) :=
  let size := w64 (npages * page_size) in
  let k := next_order_from size in
  if (k <? 0) || (max_order <? w64 k) then Done (0, h) else
  pg ← get_page h ptr;
  _ ← bug_on (negb (allocated pg));
  _ ← bug_on (negb (order pg =? k));
  h ← upd_page (set_allocated false) ptr h;
  h ← put z k (tohh ptr) h;
  Done (size, h).

(** The common tail of [allocator::alloc]. *)
Definition take_block (z : zone) (k real_size : Z) (h : heap) : outcome (Z * Z * heap) :=
  '(ret, h) ← rem z k h;
  pg ← get_page h ret;
  _ ← bug_on (allocated pg);
  _ ← bug_on (negb (order pg =? k));
  h ← upd_page (set_allocated true) ret h;
  Done (ret, real_size, h).

(** [allocator::alloc]: block (0 if there is none) and its size. *)
Definition zone_alloc (fuel : nat) (z : zone) (npages : Z) (h : heap) : outcome (Z * Z * heap) :=
  let size := w64 (npages * page_size) in
  let k := next_order_from size in
  let real_size := block_size k in
  if (k <? 0) || (max_order <? w64 k) then Done (0, 0, h) else
  if has_pages z k h then take_block z k real_size h else
  if k =? max_order then
    h ← coalesce_to fuel z max_order h;
    if negb (has_pages z k h) then Done (0, 0, h) else take_block z k real_size h
  else
    h ← split_to z k h;
    if has_pages z k h then take_block z k real_size h else
    if k =? 0 then Done (0, 0, h) else
    h ← coalesce_to fuel z k h;
    if negb (has_pages z k h) then Done (0, 0, h) else take_block z k real_size h.
End allocator.

(** * The physical memory manager: [pmm::alloc], [pmm::free], [add_range] *)

(** [struct memory]. *)
Record memory := mk_memory
  { top : Z; usable_top : Z; pfndb_base : Z; pfndb_end : Z; usable : Z; used : Z }.
Definition add_used (d : Z) (m : memory) : memory :=
  mk_memory (top m) (usable_top m) (pfndb_base m) (pfndb_end m) (usable m) (w64 (used m + d)).
Definition add_usable (d : Z) (m : memory) : memory :=
  mk_memory (top m) (usable_top m) (pfndb_base m) (pfndb_end m) (w64 (usable m + d)) (used m).

(** An entry of the memory map passed by the boot loader. *)
Inductive memmap_type := MUsable | MBootloader | MKernelAndModules | MFramebuffer | MOther.
#[export] Instance memmap_type_eq_dec : EqDecision memmap_type.
Proof. solve_decision. Defined.
Record memmap := mk_memmap { mm_base : Z; mm_length : Z; mm_type : memmap_type }.

(** Variables of the file: the allocators, [mem], [initialised], the bootstrap allocator
    (whose [once] guard is [bs_once]) and the memory map. *)
Record pmm := mk_pmm
  { hp : heap; mem : memory; initialised : bool;
    bs_once : bool; bs_idx : Z; bs_map : memmap; memmaps : list memmap }.
Definition set_hp (h : heap) (s : pmm) : pmm :=
  mk_pmm h (mem s) (initialised s) (bs_once s) (bs_idx s) (bs_map s) (memmaps s).
Definition set_mem (m : memory) (s : pmm) : pmm :=
  mk_pmm (hp s) m (initialised s) (bs_once s) (bs_idx s) (bs_map s) (memmaps s).
Definition set_bs (once : bool) (idx : Z) (m : memmap) (s : pmm) : pmm :=
  mk_pmm (hp s) (mem s) (initialised s) once idx m (memmaps s).

Section pmm.
Context (hhdm : Z).

(** Index and size of the largest usable entry; -1 is the value of an unset index. *)
Fixpoint largest_usable (i : Z) (max_size idx : Z) (l : list memmap) : Z * Z :=
  match l with
  | [] => (max_size, idx)
  | m :: l =>
      if negb (bool_decide (mm_type m = MUsable)) then largest_usable (i + 1) max_size idx l
      else if max_size <? mm_length m then largest_usable (i + 1) (mm_length m) i l
      else largest_usable (i + 1) max_size idx l
  end.

Definition bootstrap_init (s : pmm) : outcome pmm :=
  if bs_once s then Done s else
  let '(max_size, idx) := largest_usable 0 0 word_max (memmaps s) in
  _ ← bug_on ((max_size =? 0) || (idx =? word_max));
  m ← deref (memmaps s !! Z.to_nat idx);
  Done (set_bs true idx (mk_memmap (mm_base m) (align_down (mm_length m) page_size) (mm_type m)) s).

(** The x86_64 build refuses bootstrap memory below 1 MiB. *)
Definition bootstrap_alloc (npages : Z) (s : pmm) : outcome (Z * pmm) :=
  _ ← bug_on (negb (npages =? 1));
  s ← bootstrap_init s;
  let m := bs_map s in
  if mm_length m <? w64 (npages * page_size) then Panic else
  let ret := w64 (w64 (mm_base m + mm_length m) - w64 (npages * page_size)) in
  if ret <? mib 1 then Panic else
  let m := mk_memmap (mm_base m) (w64 (mm_length m - npages * page_size)) (mm_type m) in
  Done (tohh hhdm ret, set_bs (bs_once s) (bs_idx s) m s).

Definition run_zone_alloc (fuel : nat) (z : zone) (npages : Z) (s : pmm) : outcome (Z * Z * pmm) :=
  '(ret, sz, h) ← zone_alloc hhdm fuel z npages (hp s); Done (ret, sz, set_hp h s).

Definition alloc_typed (fuel : nat) (npages : Z) (tp : zone) (s : pmm) : outcome (Z * Z * pmm) :=
  match tp with
  | Normal =>
      '(ret, sz, s) ← run_zone_alloc fuel Normal npages s;
      '(ret, sz, s) ←
        (if (ret =? 0) && negb (bs_idx s =? word_max)
         then '(p, s) ← bootstrap_alloc npages s; Done (p, w64 (npages * page_size), s)
         else Done (ret, sz, s));
      if ret =? 0 then run_zone_alloc fuel Sub4gib npages s else Done (ret, sz, s)
  | z => run_zone_alloc fuel z npages s
  end.

(** [pmm::alloc]. Clearing the block zeroes the list node at its start; the other bytes
    of the block are not part of the state. *)
Definition alloc (fuel : nat) (npages : Z) (clear : bool) (tp : zone) (s : pmm) : outcome (Z * pmm) :=
  if npages =? 0 then Done (0, s) else
  let size := w64 (npages * page_size) in
  '(ret, sz, s) ←
    (if initialised s then alloc_typed fuel npages tp s
     else '(p, s) ← bootstrap_alloc npages s; Done (p, size, s));
  if ret =? 0 then Panic else
  let s := if clear then set_hp (set_node ret (mk_node 0 0) (hp s)) s else s in
  Done (fromhh hhdm ret, set_mem (add_used sz (mem s)) s).

Definition free_in (z : zone) (ptr npages : Z) (s : pmm) : outcome pmm :=
  '(sz, h) ← zone_free hhdm z ptr npages (hp s);
  Done (set_mem (add_used (- sz) (mem s)) (set_hp h s)).

(** [pmm::free] *)
Definition free (ptr npages : Z) (s : pmm) : outcome pmm :=
  if (npages =? 0) || (ptr =? 0) then Done s else
  if negb (initialised s) then Panic else
  if in_range hhdm Sub1mib ptr then free_in Sub1mib ptr npages s
  else if in_range hhdm Sub4gib ptr then free_in Sub4gib ptr npages s
  else if in_range hhdm Normal ptr then free_in Normal ptr npages s
  else Panic.

(** The lambda [check_and_add]: new heap and new value of [wasted]. *)
Definition check_and_add (base size : Z) (z : zone) (wasted : Z) (h : heap) : outcome (Z * heap) :=
  let '(s, e) := zone_intersection z base (w64 (base + size)) in
  if s <? e then
    '(ret, h) ← zone_add_range hhdm z s (e - s) h;
    _ ← bug_on (ret =? e - s);
    Done (w64 (wasted + ret), h)
  else Done (wasted, h).

(** [add_range] of the namespace: the part before the lambda yields the range to add. *)
Definition add_range (base size : Z) (freeing : bool) (s : pmm) : outcome pmm :=
  if size =? 0 then Done s else
  let add base size m :=
    '(wasted, h) ← check_and_add base size Sub1mib 0 (hp s);
    '(wasted, h) ← check_and_add base size Sub4gib wasted h;
    '(wasted, h) ← check_and_add base size Normal wasted h;
    Done (set_hp h (set_mem (add_used (if freeing then - (size - wasted) else wasted) m) s)) in
  if negb freeing then
    let m := add_usable size (mem s) in
    if size <? page_size then Done (set_mem (add_used size m) s)
    else if base =? 0 then
      if size <? page_size * 2 then Done (set_mem m s)
      else add page_size (w64 (size - page_size)) (add_used page_size m)
    else add base size m
  else if base =? 0 then
    if size <? page_size * 2 then Done s
    else add page_size (w64 (size - page_size)) (mem s)
  else add base size (mem s).

Fixpoint reclaim_loop (l : list memmap) (s : pmm) : outcome pmm :=
  match l with
  | [] => Done s
  | m :: l =>
      if negb (bool_decide (mm_type m = MBootloader)) then reclaim_loop l s
      else s ← add_range (mm_base m) (mm_length m) true s; reclaim_loop l s
  end.
Definition reclaim_bootloader_memory (s : pmm) : outcome pmm := reclaim_loop (memmaps s) s.
End pmm.
