(* ===== verification/PmmLists.v ===== *)
(** The intrusive doubly linked free lists of the buddy allocator implement lists of
    block addresses: [put], [rem] and the removal of an inner element are pushing,
    popping and deleting. *)

From S2P Require Import Prelude Math Pmm.

(** [dseg ns p c xs q e]: the nodes [xs] are linked from [c] on, the first one has
    predecessor [p], the last one is [q] and has successor [e]. *)
Fixpoint dseg (ns : gmap Z node) (p c : Z) (xs : list Z) (q e : Z) : Prop :=
  match xs with
  | [] => p = q ∧ c = e
  | x :: xs => c = x ∧ x ≠ 0 ∧ ∃ n, ns !! x = Some (mk_node p n) ∧ dseg ns x n xs q e
  end.

Definition dll (ns : gmap Z node) (c : Z) (xs : list Z) : Prop := ∃ q, dseg ns 0 c xs q 0.

Lemma dseg_app ns p c l1 l2 q e :
  dseg ns p c (l1 ++ l2) q e ↔ ∃ q' e', dseg ns p c l1 q' e' ∧ dseg ns q' e' l2 q e.
Proof.
  revert p c. induction l1 as [|x l1 IH]; intros p c; simpl.
  - naive_solver.
  - setoid_rewrite IH. naive_solver.
Qed.

Lemma dseg_nonzero ns p c xs q e x : dseg ns p c xs q e → x ∈ xs → x ≠ 0.
Proof.
  revert p c. induction xs as [|y xs IH]; intros p c; simpl; [set_solver|].
  intros (-> & Hy & n & _ & Hd) Hx. apply elem_of_cons in Hx as [->|Hx]; eauto.
Qed.

Lemma dseg_frame ns p c xs q e y n :
  y ∉ xs → dseg ns p c xs q e → dseg (<[y := n]> ns) p c xs q e.
Proof.
  revert p c. induction xs as [|x xs IH]; intros p c Hy; simpl; [done|].
  apply not_elem_of_cons in Hy as [Hxy Hy].
  intros (-> & Hx & m & Hm & Hd). rewrite lookup_insert_ne by done. eauto 6.
Qed.

(** The first node of a segment can be given another predecessor. *)
Lemma dseg_set_first ns p c x xs q e p' :
  x ∉ xs → dseg ns p c (x :: xs) q e →
  ∃ n, ns !! x = Some (mk_node p n) ∧ dseg (<[x := mk_node p' n]> ns) p' c (x :: xs) q e.
Proof.
  simpl. intros Hx (-> & Hnz & n & Hn & Hd). exists n. split; [done|].
  split_and!; [done..|]. exists n. rewrite lookup_insert_eq. split; [done|].
  by apply dseg_frame.
Qed.

(** The last node of a segment can be given another successor. *)
Lemma dseg_set_last ns p c xs q e e' :
  NoDup xs → xs ≠ [] → dseg ns p c xs q e →
  ∃ p', ns !! q = Some (mk_node p' e) ∧ q ∈ xs ∧ dseg (<[q := mk_node p' e']> ns) p c xs q e'.
Proof.
  revert p c. induction xs as [|x xs IH]; intros p c Hnd Hne; simpl; [done|].
  apply NoDup_cons in Hnd as [Hx Hnd].
  intros (-> & Hnz & n & Hn & Hd). destruct xs as [|y xs].
  - simpl in Hd. destruct Hd as [-> ->]. exists p. split_and!; [done|set_solver|done..|].
    exists e'. by rewrite lookup_insert_eq.
  - destruct (IH x n) as (p' & Hp' & Hq & Hd'); [done..|].
    exists p'. split_and!; [done|set_solver|done..|].
    exists n. rewrite lookup_insert_ne by set_solver. done.
Qed.

Lemma dll_frame ns c xs y n : y ∉ xs → dll ns c xs → dll (<[y := n]> ns) c xs.
Proof. intros ? [q ?]. exists q. by apply dseg_frame. Qed.

Lemma dll_head ns c xs : dll ns c xs → c = match xs with [] => 0 | x :: _ => x end.
Proof. intros [q Hq]. destruct xs; simpl in Hq; naive_solver. Qed.

Lemma dll_nil_iff ns c xs : dll ns c xs → c = 0 ↔ xs = [].
Proof.
  intros H. pose proof (dll_head _ _ _ H) as ->. destruct H as [q H].
  destruct xs; simpl in *; naive_solver.
Qed.

(** ** All free lists of a heap *)
Definition flists := zone → Z → list Z.
Definition fl_upd (z : zone) (k : Z) (xs : list Z) (fl : flists) : flists :=
  λ z' k', if decide (z' = z ∧ k' = k) then xs else fl z' k'.

Lemma fl_upd_same z k xs fl : fl_upd z k xs fl z k = xs.
Proof. unfold fl_upd. by rewrite decide_True. Qed.
Lemma fl_upd_other z k xs fl z' k' : ¬ (z' = z ∧ k' = k) → fl_upd z k xs fl z' k' = fl z' k'.
Proof. intros. unfold fl_upd. by rewrite decide_False. Qed.

Record lists_rep (h : heap) (fl : flists) : Prop := {
  lr_dll z k : dll (nodes h) (heads h z k) (fl z k);
  lr_nodup z k : NoDup (fl z k);
  lr_disj z k z' k' a : a ∈ fl z k → a ∈ fl z' k' → z = z' ∧ k = k' }.

Lemma lists_rep_ext h fl fl' : (∀ z k, fl z k = fl' z k) → lists_rep h fl → lists_rep h fl'.
Proof.
  intros E [A B C]. split; intros; rewrite <-?E in *; eauto.
Qed.
Lemma not_in_fl_upd z k xs fl z' k' x :
  x ∉ xs → x ∉ fl z' k' → x ∉ fl_upd z k xs fl z' k'.
Proof. unfold fl_upd. by case_decide. Qed.

Lemma lr_head h fl z k :
  lists_rep h fl → heads h z k = match fl z k with [] => 0 | x :: _ => x end.
Proof. intros H. eapply dll_head, (lr_dll h fl H). Qed.

Lemma has_pages_spec h fl z k : lists_rep h fl → has_pages z k h = negb (bool_decide (fl z k = [])).
Proof.
  intros H. unfold has_pages. f_equal.
  pose proof (dll_nil_iff _ _ _ (lr_dll h fl H z k)).
  destruct (Z.eqb_spec (heads h z k) 0); symmetry; [apply bool_decide_eq_true|apply bool_decide_eq_false]; naive_solver.
Qed.

Lemma lr_node h fl z k l1 x l2 :
  lists_rep h fl → fl z k = l1 ++ x :: l2 →
  ∃ p, nodes h !! x = Some (mk_node p match l2 with [] => 0 | y :: _ => y end).
Proof.
  intros H E. destruct (lr_dll h fl H z k) as [q Hd]. rewrite E in Hd.
  apply dseg_app in Hd as (q' & e' & _ & Hd). simpl in Hd.
  destruct Hd as (_ & _ & n & Hn & Hd). exists q'. rewrite Hn. repeat f_equal.
  destruct l2; simpl in Hd; naive_solver.
Qed.

(** Pages do not matter for the lists. *)
Lemma lists_rep_set_page h fl i p : lists_rep h fl → lists_rep (set_page i p h) fl.
Proof. intros [? ? ?]. by split. Qed.

(** The new contents of one list, given that the nodes of all other lists are unchanged. *)
Lemma lists_rep_upd h h' fl z k xs :
  lists_rep h fl →
  (∀ z' k', ¬ (z' = z ∧ k' = k) → heads h' z' k' = heads h z' k') →
  (∀ z' k', ¬ (z' = z ∧ k' = k) → dll (nodes h) (heads h z' k') (fl z' k') →
            dll (nodes h') (heads h z' k') (fl z' k')) →
  dll (nodes h') (heads h' z k) xs → NoDup xs →
  (∀ z' k' a, ¬ (z' = z ∧ k' = k) → a ∈ xs → a ∉ fl z' k') →
  lists_rep h' (fl_upd z k xs fl).
Proof.
  intros H Hh Hd Hxs Hnd Hdisj. split.
  - intros z' k'. unfold fl_upd. case_decide as E; [by destruct E as [-> ->]|].
    rewrite Hh by done. apply Hd; [done|]. apply (lr_dll h fl H).
  - intros z' k'. unfold fl_upd. case_decide; [done|]. apply (lr_nodup h fl H).
  - intros z1 k1 z2 k2 a. unfold fl_upd.
    case_decide as E1; case_decide as E2; intros H1 H2; [by naive_solver|..].
    + exfalso. by eapply Hdisj.
    + exfalso. by eapply Hdisj.
    + by eapply (lr_disj h fl H).
Qed.

Lemma lr_not_in h fl z k z' k' a :
  lists_rep h fl → a ∈ fl z k → ¬ (z' = z ∧ k' = k) → a ∉ fl z' k'.
Proof. intros H Ha Hne Ha'. apply Hne. by eapply (lr_disj h fl H). Qed.

(** [put] pushes a block that is in no list. *)
Lemma put_spec h fl z k x :
  lists_rep h fl → x ≠ 0 → (∀ z' k', x ∉ fl z' k') →
  ∃ h', put z k x h = Done h' ∧ pages h' = pages h ∧ lists_rep h' (fl_upd z k (x :: fl z k) fl).
Proof.
  intros H Hx Hfresh. unfold put.
  pose proof (lr_dll h fl H z k) as Hd. pose proof (dll_head _ _ _ Hd) as Hh.
  pose proof (lr_nodup h fl H z k) as Hnd.
  assert (NoDup (x :: fl z k)) as Hnd' by (apply NoDup_cons; auto).
  destruct (fl z k) as [|y ys] eqn:E.
  - rewrite Hh, Z.eqb_refl. simpl. eexists. split_and!; [done..|].
    rewrite <-E. apply (lists_rep_upd h); simpl; try done.
    + intros z' k' Hne. by rewrite decide_False.
    + intros z' k' Hne. apply dll_frame, Hfresh.
    + rewrite decide_True by done. exists x. simpl. rewrite E. split_and!; [done..|].
      exists 0. rewrite lookup_insert_eq. simpl. naive_solver.
    + by rewrite E.
    + rewrite E. set_solver.
  - pose proof (lr_node h fl z k [] y ys H E) as [p Hy].
    assert (y ≠ 0) as Hy0 by (destruct Hd as [q Hd]; simpl in Hd; naive_solver).
    assert (y ≠ x) as Hyx by (intros ->; apply (Hfresh z k); rewrite E; set_solver).
    rewrite Hh. destruct (Z.eqb_spec y 0) as [|_]; [done|].
    unfold upd_node, get_node. simpl. rewrite lookup_insert_ne, Hy by done. simpl.
    eexists. split_and!; [done..|]. rewrite <-E. apply (lists_rep_upd h); simpl; try done.
    + intros z' k' Hne. by rewrite decide_False.
    + intros z' k' Hne Hd'. apply dll_frame, dll_frame; [|apply Hfresh|done].
      apply (lr_not_in h fl z k); [done| |done]. rewrite E. set_solver.
    + rewrite decide_True by done. rewrite E. destruct Hd as [q Hd]. exists q.
      apply NoDup_cons in Hnd as [Hyys Hnd].
      apply (dseg_set_first _ _ _ _ _ _ _ x Hyys) in Hd as (n & Hn & Hd).
      simpl. rewrite lookup_insert_ne, lookup_insert_eq by done.
      split_and!; [done..|]. exists y. split; [done|].
      rewrite Hy in Hn. injection Hn as -> Hn. rewrite insert_insert_ne by done.
      unfold with_prev. simpl. rewrite Hn. apply (dseg_frame _ x y (y :: ys)); [|by rewrite Hh in Hd].
      rewrite <-E. apply Hfresh.
    + by rewrite E.
    + intros z' k' a Hne Ha Ha'. rewrite E in Ha. apply elem_of_cons in Ha as [->|Ha].
      * by apply (Hfresh z' k').
      * revert Ha'. apply (lr_not_in h fl z k); [done| |done]. rewrite E. set_solver.
Qed.

(** [rem] pops the first block. *)
Lemma rem_spec h fl z k x xs :
  lists_rep h fl → fl z k = x :: xs →
  ∃ h', rem z k h = Done (x, h') ∧ pages h' = pages h ∧ lists_rep h' (fl_upd z k xs fl).
Proof.
  intros H E. unfold rem.
  pose proof (lr_head h fl z k H) as Hh. rewrite E in Hh.
  pose proof (lr_nodup h fl H z k) as Hnd. rewrite E in Hnd.
  destruct (lr_dll h fl H z k) as [q Hd]. rewrite E in Hd. simpl in Hd.
  destruct Hd as (_ & Hx & n & Hn & Hd). apply NoDup_cons in Hnd as [Hxs Hnd].
  unfold upd_node, get_node. rewrite Hh, Hn. simpl. destruct xs as [|y ys].
  - simpl in Hd. destruct Hd as [-> ->]. simpl. eexists. split_and!; [done..|].
    apply (lists_rep_upd h); simpl; try done.
    + intros z' k' Hne. by rewrite decide_False.
    + rewrite decide_True by done. by exists 0.
    + set_solver.
  - pose proof Hd as (-> & Hy & m & Hm & _). simpl.
    destruct (Z.eqb_spec y 0) as [|_]; [done|]. rewrite Hm. simpl.
    eexists. split_and!; [done..|]. apply (lists_rep_upd h); simpl; try done.
    + intros z' k' Hne. by rewrite decide_False.
    + intros z' k' Hne. apply dll_frame. apply (lr_not_in h fl z k); [done| |done]. rewrite E. set_solver.
    + rewrite decide_True by done. exists q.
      apply NoDup_cons in Hnd as [Hyys Hnd].
      apply (dseg_set_first _ _ _ _ _ _ _ 0 Hyys) in Hd as (n & Hn' & Hd).
      rewrite Hm in Hn'. injection Hn' as ->. done.
    + intros z' k' a Hne Ha. apply (lr_not_in h fl z k); [done| |done]. rewrite E. set_solver.
Qed.

(** Removal of an element, wherever it is. *)
Lemma list_remove_spec h fl z k l1 x l2 :
  lists_rep h fl → fl z k = l1 ++ x :: l2 →
  ∃ h', list_remove z k x h = Done h' ∧ pages h' = pages h ∧
        lists_rep h' (fl_upd z k (l1 ++ l2) fl).
Proof.
  intros H E. unfold list_remove.
  pose proof (lr_nodup h fl H z k) as Hnd. rewrite E in Hnd.
  apply NoDup_app in Hnd as (Hnd1 & Hl12 & Hnd2). apply NoDup_cons in Hnd2 as [Hx2 Hnd2].
  assert (x ∉ l1) as Hx1 by (intros Hx; apply (Hl12 _ Hx); set_solver).
  destruct (lr_dll h fl H z k) as [qe Hd]. rewrite E in Hd.
  apply dseg_app in Hd as (q & e & Hd1 & Hd2). pose proof Hd2 as Hd2'. simpl in Hd2'.
  destruct Hd2' as (-> & Hx & n & Hn & Hd3).
  assert (NoDup (l1 ++ l2)) as Hnd.
  { apply NoDup_app. split_and!; [done| |done]. intros a Ha Ha'. apply (Hl12 _ Ha). set_solver. }
  assert (∀ z' k' a, ¬ (z' = z ∧ k' = k) → a ∈ l1 ++ l2 → a ∉ fl z' k') as Hdj.
  { intros z' k' a Hne Ha. apply (lr_not_in h fl z k); [done| |done]. rewrite E. set_solver. }
  (* the nodes after the predecessor has been redirected *)
  set (h1 := if q =? 0 then set_head z k n h else set_node q (mk_node (prev (default (mk_node 0 0) (nodes h !! q))) n) h).
  assert (dseg (nodes h1) 0 (heads h1 z k) l1 q n ∧ nodes h1 !! x = Some (mk_node q n) ∧
          dseg (nodes h1) x n l2 qe 0 ∧ pages h1 = pages h ∧
          (∀ z' k', ¬ (z' = z ∧ k' = k) → heads h1 z' k' = heads h z' k') ∧
          (∀ z' k', ¬ (z' = z ∧ k' = k) → dll (nodes h) (heads h z' k') (fl z' k') →
            dll (nodes h1) (heads h z' k') (fl z' k')) ∧
          (get_node h x ≫= λ n0, (if prev n0 =? 0 then Done (set_head z k (next n0) h)
         else upd_node (with_next (next n0)) (prev n0) h)) = Done h1) as
    (Hs1 & Hsx & Hs2 & Hpg & Hhd & Hfr & Heq).
  { unfold get_node, upd_node. rewrite Hn. simpl. destruct l1 as [|y l1].
    - simpl in Hd1. destruct Hd1 as [<- Hhx]. subst h1. simpl.
      rewrite decide_True by done. split_and!; try done.
      intros z' k' Hne. by rewrite decide_False.
    - pose proof Hd1 as Hd1'.
      apply (dseg_set_last _ _ _ _ _ _ n) in Hd1 as (p' & Hp' & Hq & Hd1); [|done..].
      assert (q ≠ 0) as Hq0 by (eapply dseg_nonzero; eauto).
      subst h1. destruct (Z.eqb_spec q 0) as [|_]; [done|]. simpl.
      unfold get_node. rewrite Hp'. simpl.
      split; [exact Hd1|]. split; [|split; [|split; [done|split; [done|split; [|done]]]]].
      + rewrite lookup_insert_ne; [done|]. by intros ->.
      + apply dseg_frame; [|done]. intros Hq'. apply (Hl12 _ Hq). set_solver.
      + intros z' k' Hne. apply dll_frame. apply (lr_not_in h fl z k); [done| |done]. rewrite E. set_solver. }
  assert (∀ B (f : heap → outcome B),
    (n0 ← get_node h x; h0 ← (if prev n0 =? 0 then Done (set_head z k (next n0) h)
       else upd_node (with_next (next n0)) (prev n0) h); f h0) = f h1) as Hred.
  { intros B f. revert Heq. unfold get_node. rewrite Hn. simpl. by intros ->. }
  rewrite Hred. unfold upd_node, get_node. rewrite Hsx. simpl. destruct l2 as [|y l2].
  - simpl in Hs2. destruct Hs2 as [-> ->]. simpl. eexists. split_and!; [done..|].
    apply (lists_rep_upd h); try done. exists q. by rewrite app_nil_r.
  - pose proof Hs2 as (-> & Hy & m & Hm & _).
    destruct (Z.eqb_spec y 0) as [|_]; [done|]. rewrite Hm. simpl.
    eexists. split_and!; [done..|]. apply (lists_rep_upd h); simpl; try done.
    + intros z' k' Hne Hd'. apply dll_frame; [|by apply Hfr].
      apply (lr_not_in h fl z k); [done| |done]. rewrite E. set_solver.
    + exists qe. apply dseg_app. exists q, y. split.
      * apply dseg_frame; [|done]. intros Hy1. apply (Hl12 _ Hy1). set_solver.
      * apply NoDup_cons in Hnd2 as [Hyl2 Hnd2].
        apply (dseg_set_first _ _ _ _ _ _ _ q Hyl2) in Hs2 as (n & Hn' & Hs2).
        rewrite Hm in Hn'. injection Hn' as ->. done.
Qed.
