(* ===== verification/PmmBlocks.v ===== *)
(** The abstract state of the buddy allocators: a partition of the managed memory into
    blocks, and its relation to heads, nodes and page frame database.  The well-formedness
    of partitions is preserved by splitting, merging, taking and releasing blocks. *)

From S2P Require Import Prelude Math Pmm PmmLists.

(** A block, at the address it is stored under: zone, order, whether it is handed out,
    and the frame its page links to (0, or the frame after the block). *)
Record block := mk_block { b_zone : zone; b_order : Z; b_alloc : bool; b_next : Z }.

(** Size of a block of order [k]. *)
Definition bsize (k : Z) : Z := 4096 * 2 ^ k.

Lemma bsize_pos k : 0 ≤ k → 4096 ≤ bsize k.
Proof. intros. unfold bsize. pose proof (pow2_pos k). lia. Qed.
Lemma bsize_succ k : 0 ≤ k → bsize (k + 1) = 2 * bsize k.
Proof. intros. unfold bsize. rewrite pow2_succ by lia. lia. Qed.
Lemma bsize_le k k' : 0 ≤ k → k ≤ k' → bsize k ≤ bsize k'.
Proof. intros. unfold bsize. pose proof (pow2_le k k'). lia. Qed.
Lemma bsize_max k : 0 ≤ k ≤ 15 → bsize k ≤ 2 ^ 27.
Proof. intros. transitivity (bsize 15); [apply bsize_le; lia|vm_compute; congruence]. Qed.
Lemma block_size_eq k : 0 ≤ k ≤ 15 → block_size k = bsize k.
Proof.
  intros. unfold block_size. rewrite pow2_spec by lia. apply w64_small.
  pose proof (bsize_max k). pose proof (bsize_pos k). unfold bsize, page_size in *. lia.
Qed.
Lemma bsize_divide k k' : 0 ≤ k ≤ k' → (bsize k | bsize k').
Proof.
  intros. exists (2 ^ (k' - k)). unfold bsize.
  replace k' with (k' - k + k) at 1 by lia. rewrite Z.pow_add_r by lia. lia.
Qed.
Lemma page_divide_bsize k : 0 ≤ k → (4096 | bsize k).
Proof. intros. exists (2 ^ k). unfold bsize. lia. Qed.

Section blocks.
Context (hhdm : Z).
(** The direct map is aligned to the largest block and 46-bit addresses fit above it. *)
Record hhdm_ok : Prop := {
  hhdm_pos : 2 ^ 46 ≤ hhdm;
  hhdm_fits : hhdm + 2 ^ 46 < 2 ^ 64;
  hhdm_aligned : (bsize 15 | hhdm) }.

Definition frame_of (a : Z) : Z := (a - hhdm) / 4096.

Definition disjoint_blocks (L : gmap Z block) : Prop :=
  ∀ a1 b1 a2 b2, L !! a1 = Some b1 → L !! a2 = Some b2 → a1 ≠ a2 →
    a1 + bsize (b_order b1) ≤ a2 ∨ a2 + bsize (b_order b2) ≤ a1.

Definition block_ok (a : Z) (b : block) : Prop :=
  0 ≤ b_order b ≤ 15 ∧ (bsize (b_order b) | a) ∧
  hhdm + 4096 ≤ a ∧ a + bsize (b_order b) ≤ hhdm + 2 ^ 46.

(** The link of a page is unset, or it is the frame after the block and a block of the
    same zone starts there. *)
Definition link_ok (L : gmap Z block) (a : Z) (b : block) : Prop :=
  b_next b = 0 ∨
  b_next b = frame_of (a + bsize (b_order b)) ∧
  ∃ b', L !! (a + bsize (b_order b)) = Some b' ∧ b_zone b' = b_zone b.

Record blocks_wf (L : gmap Z block) : Prop := {
  wf_ok a b : L !! a = Some b → block_ok a b;
  wf_link a b : L !! a = Some b → link_ok L a b;
  wf_disj : disjoint_blocks L }.

(** Page frame database entry of a block, and of the pages inside it. *)
Definition page_of (b : block) : page := mk_page (b_next b) (b_order b) (b_alloc b).
Definition pages_ok (pgs : gmap Z page) (a : Z) (b : block) : Prop :=
  pgs !! frame_of a = Some (page_of b) ∧
  ∀ x, (4096 | x) → a < x < a + bsize (b_order b) →
    ∃ p, pgs !! frame_of x = Some p ∧ allocated p = false.

Record heap_rep (h : heap) (L : gmap Z block) (fl : flists) : Prop := {
  hr_wf : blocks_wf L;
  hr_lists : lists_rep h fl;
  hr_pages a b : L !! a = Some b → pages_ok (pages h) a b;
  hr_free z k a : a ∈ fl z k ↔ ∃ n, L !! a = Some (mk_block z k false n) }.

(** ** Addresses *)
Lemma page_for_hh a : hhdm_ok → hhdm ≤ a < 2 ^ 64 → page_for hhdm a = frame_of a.
Proof.
  intros [Hp Hf _] Ha. unfold page_for, fromhh, frame_of, page_size.
  destruct (Z.leb_spec hhdm a); [|lia]. rewrite w64_small; [done|lia].
Qed.
Lemma frame_of_inj a b :
  hhdm_ok → (4096 | a) → (4096 | b) → frame_of a = frame_of b → a = b.
Proof.
  intros Hh Ha Hb. unfold frame_of.
  assert (4096 | hhdm) as Hd.
  { etransitivity; [apply (page_divide_bsize 15); lia|apply Hh]. }
  destruct Ha as [x ->], Hb as [y ->], Hd as [w ->].
  rewrite <-!Z.mul_sub_distr_r, !Z.div_mul; lia.
Qed.
Lemma block_ok_bounds a b : hhdm_ok → block_ok a b → hhdm + 4096 ≤ a ∧ a + bsize (b_order b) ≤ 2 ^ 64 ∧ (4096 | a).
Proof.
  intros [Hp Hf _] (Hk & Hd & Hlo & Hhi). split_and!; [lia..|].
  etransitivity; [apply (page_divide_bsize (b_order b)); lia|done].
Qed.
Lemma block_page_for L a b :
  hhdm_ok → blocks_wf L → L !! a = Some b → page_for hhdm a = frame_of a.
Proof.
  intros Hh Hwf Hab. destruct (block_ok_bounds a b Hh (wf_ok _ Hwf _ _ Hab)) as (? & ? & ?).
  pose proof (bsize_pos (b_order b)). pose proof (wf_ok _ Hwf _ _ Hab) as (Hk & _).
  apply page_for_hh; [done|]. destruct Hh. lia.
Qed.

(** ** Partitions *)
Lemma disjoint_sub L L' :
  (∀ a b, L' !! a = Some b → ∃ b', L !! a = Some b' ∧ b_order b' = b_order b) →
  disjoint_blocks L → disjoint_blocks L'.
Proof.
  intros Hsub Hd a1 b1 a2 b2 H1 H2 Hne.
  apply Hsub in H1 as (c1 & H1 & <-), H2 as (c2 & H2 & <-). by eapply Hd.
Qed.

(** Changing the allocation flag of a block. *)
Lemma wf_set_alloc L a z k al al' n :
  blocks_wf L → L !! a = Some (mk_block z k al n) → blocks_wf (<[a := mk_block z k al' n]> L).
Proof.
  intros Hwf Ha. split.
  - intros x b [[<- <-]|[Hne Hx]]%lookup_insert_Some; [|by eapply wf_ok].
    apply (wf_ok _ Hwf) in Ha. done.
  - assert (∀ x b, link_ok L x b → link_ok (<[a:=mk_block z k al' n]> L) x b) as Hl.
    { intros x b [?|(? & b' & Hb' & Hz)]; [by left|right]. split; [done|].
      destruct (decide (a = x + bsize (b_order b))) as [->|].
      - eexists. rewrite lookup_insert_eq. split; [done|]. simplify_eq. done.
      - exists b'. by rewrite lookup_insert_ne. }
    intros x b [[<- <-]|[Hne Hx]]%lookup_insert_Some; apply Hl;
      [apply (wf_link _ Hwf) in Ha; exact Ha|by eapply wf_link].
  - eapply disjoint_sub; [|apply (wf_disj _ Hwf)].
    intros x b [[<- <-]|[Hne Hx]]%lookup_insert_Some; eauto.
Qed.

(** Splitting a free block in two. *)
Definition split_block (L : gmap Z block) (a : Z) (z : zone) (k n : Z) : gmap Z block :=
  <[a := mk_block z k false (frame_of (a + bsize k))]>
    (<[a + bsize k := mk_block z k false n]> L).

Lemma divide_half k a : 0 ≤ k → (bsize (k + 1) | a) → (bsize k | a) ∧ (bsize k | a + bsize k).
Proof.
  intros Hk Ha. assert (bsize k | a) by (etransitivity; [apply (bsize_divide k (k + 1)); lia|done]).
  split; [done|]. apply Z.divide_add_r; [done|apply Z.divide_refl].
Qed.

Lemma wf_split L a z k n :
  blocks_wf L → 0 ≤ k → L !! a = Some (mk_block z (k + 1) false n) → blocks_wf (split_block L a z k n).
Proof.
  intros Hwf Hk Ha. pose proof (bsize_pos k Hk) as Hb. pose proof (bsize_succ k Hk) as Hs.
  destruct (wf_ok _ Hwf _ _ Ha) as (Hk1 & Hda & Hlo & Hhi). simpl in *.
  destruct (divide_half k a Hk Hda) as [Hd1 Hd2].
  assert (∀ x b, L !! x = Some b → x ≠ a → x + bsize (b_order b) ≤ a ∨ a + bsize (k + 1) ≤ x) as Hdis.
  { intros x b Hx Hne. destruct (wf_disj _ Hwf _ _ _ _ Hx Ha Hne); simpl in *; auto. }
  assert (∀ x b, split_block L a z k n !! x = Some b →
    (x = a ∧ b = mk_block z k false (frame_of (a + bsize k))) ∨
    (x = a + bsize k ∧ b = mk_block z k false n) ∨
    (x ≠ a ∧ x ≠ a + bsize k ∧ L !! x = Some b)) as Hinv.
  { unfold split_block. intros x b [[<- <-]|[Hne [[<- <-]|[Hne' Hx]]%lookup_insert_Some]]%lookup_insert_Some;
      naive_solver. }
  split.
  - intros x b [[-> ->]|[[-> ->]|(_ & _ & Hx)]]%Hinv; [| |by eapply wf_ok];
      unfold block_ok; simpl; split_and!; try done; lia.
  - intros x b [[-> ->]|[[-> ->]|(Hne & _ & Hx)]]%Hinv; unfold link_ok; simpl.
    + right. split; [done|]. unfold split_block.
      rewrite lookup_insert_ne, lookup_insert_eq by lia. eauto.
    + pose proof (wf_link _ Hwf _ _ Ha) as Hl. unfold link_ok in Hl. simpl in Hl.
      destruct Hl as [->|(-> & b' & Hb' & Hz)]; [by left|right]. rewrite Hs in *. replace (a + bsize k + bsize k) with (a + 2 * bsize k) by lia.
      split; [done|]. exists b'. unfold split_block. rewrite !lookup_insert_ne by lia. done.
    + destruct (wf_link _ Hwf _ _ Hx) as [|(Hn & b' & Hb' & Hz)]; [by left|right].
      split; [done|]. unfold split_block.
      destruct (decide (x + bsize (b_order b) = a)) as [E|E].
      * rewrite E in *. rewrite lookup_insert_eq. eexists. split; [done|]. simplify_eq. done.
      * exists b'. rewrite lookup_insert_ne by congruence. rewrite lookup_insert_ne; [done|].
        intros E'. pose proof (wf_ok _ Hwf _ _ Hb') as (? & _).
        pose proof (bsize_pos (b_order b')). destruct (Hdis _ _ Hb' E); lia.
  - intros x1 b1 x2 b2 [[-> ->]|[[-> ->]|(Hn1 & _ & H1)]]%Hinv
      [[-> ->]|[[-> ->]|(Hn2 & _ & H2)]]%Hinv Hne; simpl; try lia;
      try (destruct (Hdis _ _ H1 Hn1); lia); try (destruct (Hdis _ _ H2 Hn2); lia).
    by eapply (wf_disj _ Hwf).
Qed.

(** Merging a free block with the free block after it. *)
Definition merge_block (L : gmap Z block) (a : Z) (z : zone) (k n : Z) : gmap Z block :=
  <[a := mk_block z (k + 1) false n]> (delete (a + bsize k) L).

Lemma wf_merge L a z k n n' :
  blocks_wf L → 0 ≤ k < 15 → (bsize (k + 1) | a) →
  L !! a = Some (mk_block z k false n) → L !! (a + bsize k) = Some (mk_block z k false n') →
  blocks_wf (merge_block L a z k n').
Proof.
  intros Hwf Hk Hda Ha Hb. pose proof (bsize_pos k ltac:(lia)) as Hpos.
  pose proof (bsize_succ k ltac:(lia)) as Hs.
  destruct (wf_ok _ Hwf _ _ Ha) as (_ & _ & Hlo & _).
  destruct (wf_ok _ Hwf _ _ Hb) as (_ & _ & _ & Hhi). simpl in *.
  assert (∀ x b, L !! x = Some b → x ≠ a → x ≠ a + bsize k →
    x + bsize (b_order b) ≤ a ∨ a + bsize (k + 1) ≤ x) as Hdis.
  { intros x b Hx Hne Hne'. pose proof (wf_ok _ Hwf _ _ Hx) as (? & _).
    pose proof (bsize_pos (b_order b)).
    destruct (wf_disj _ Hwf _ _ _ _ Hx Ha Hne), (wf_disj _ Hwf _ _ _ _ Hx Hb Hne');
      simpl in *; lia. }
  assert (∀ x b, merge_block L a z k n' !! x = Some b →
    (x = a ∧ b = mk_block z (k + 1) false n') ∨
    (x ≠ a ∧ x ≠ a + bsize k ∧ L !! x = Some b)) as Hinv.
  { unfold merge_block. intros x b [[<- <-]|[Hne [Hne' Hx]%lookup_delete_Some]]%lookup_insert_Some;
      naive_solver. }
  assert (∀ y b', L !! y = Some b' → y ≠ a → y ≠ a + bsize k →
    merge_block L a z k n' !! y = Some b') as Hout.
  { intros y b' Hy Hne Hne'. unfold merge_block. by rewrite lookup_insert_ne, lookup_delete_ne. }
  split.
  - intros x b [[-> ->]|(_ & _ & Hx)]%Hinv; [|by eapply wf_ok].
    unfold block_ok. simpl. split_and!; try done; lia.
  - intros x b [[-> ->]|(Hne & Hne' & Hx)]%Hinv; unfold link_ok; simpl.
    + pose proof (wf_link _ Hwf _ _ Hb) as Hl. unfold link_ok in Hl. simpl in Hl.
      replace (a + bsize k + bsize k) with (a + bsize (k + 1)) in Hl by lia.
      destruct Hl as [->|(-> & b' & Hb' & Hz)]; [by left|right]. split; [done|].
      exists b'. split; [|done]. apply Hout; [done|lia..].
    + destruct (wf_link _ Hwf _ _ Hx) as [|(Hn & b' & Hb' & Hz)]; [by left|right].
      split; [done|]. pose proof (wf_ok _ Hwf _ _ Hx) as (? & _).
      pose proof (bsize_pos (b_order b)).
      destruct (decide (x + bsize (b_order b) = a)) as [E|E].
      * rewrite E in *. unfold merge_block. rewrite lookup_insert_eq.
        eexists. split; [done|]. simplify_eq. done.
      * exists b'. split; [|done]. apply Hout; [done..|].
        destruct (Hdis _ _ Hx Hne Hne'); lia.
  - intros x1 b1 x2 b2 [[-> ->]|(Hn1 & Hn1' & H1)]%Hinv
      [[-> ->]|(Hn2 & Hn2' & H2)]%Hinv Hne; simpl; try lia.
    + destruct (Hdis _ _ H2 Hn2 Hn2'); lia.
    + destruct (Hdis _ _ H1 Hn1 Hn1'); lia.
    + by eapply (wf_disj _ Hwf).
Qed.

(** Adding a block to the partition. *)
Lemma wf_add L a z k :
  blocks_wf L → block_ok a (mk_block z k false 0) →
  (∀ x b, L !! x = Some b → x + bsize (b_order b) ≤ a ∨ a + bsize k ≤ x) →
  blocks_wf (<[a := mk_block z k false 0]> L).
Proof.
  intros Hwf Hok Hdis. pose proof Hok as (Hk & _). simpl in Hk. pose proof (bsize_pos k ltac:(lia)).
  assert (L !! a = None) as Ha.
  { destruct (L !! a) as [b|] eqn:E; [|done]. pose proof (wf_ok _ Hwf _ _ E) as (? & _).
    pose proof (bsize_pos (b_order b)). destruct (Hdis _ _ E); lia. }
  split.
  - intros x b [[<- <-]|[_ Hx]]%lookup_insert_Some; [done|by eapply wf_ok].
  - intros x b [[<- <-]|[Hne Hx]]%lookup_insert_Some; [by left|].
    destruct (wf_link _ Hwf _ _ Hx) as [|(Hn & b' & Hb' & Hz)]; [by left|right].
    split; [done|]. exists b'. rewrite lookup_insert_ne; [done|congruence].
  - intros x1 b1 x2 b2 [[<- <-]|[Hn1 H1]]%lookup_insert_Some
      [[<- <-]|[Hn2 H2]]%lookup_insert_Some Hne; simpl; try done.
    + destruct (Hdis _ _ H2); lia.
    + destruct (Hdis _ _ H1); lia.
    + by eapply (wf_disj _ Hwf).
Qed.

(** ** Pages *)
Lemma pages_ok_frame pgs a b x p :
  hhdm_ok → block_ok a b → (4096 | x) → ¬ (a ≤ x < a + bsize (b_order b)) →
  pages_ok pgs a b → pages_ok (<[frame_of x := p]> pgs) a b.
Proof.
  intros Hh Hok Hx Hout [Hhd Hin].
  destruct (block_ok_bounds a b Hh Hok) as (_ & _ & Hda). pose proof Hok as (Hk & _).
  pose proof (bsize_pos (b_order b) ltac:(lia)). split.
  - rewrite lookup_insert_ne; [done|]. intros E%frame_of_inj; [|done..]. lia.
  - intros y Hy Hay. rewrite lookup_insert_ne; [by apply Hin|].
    intros E%frame_of_inj; [|done..]. lia.
Qed.

(** Rewriting the page of the block itself, with the new contents of the block. *)
Lemma pages_ok_head pgs a b b' :
  hhdm_ok → block_ok a b → b_order b' = b_order b → pages_ok pgs a b →
  pages_ok (<[frame_of a := page_of b']> pgs) a b'.
Proof.
  intros Hh Hok Ho [Hhd Hin]. split; [by rewrite lookup_insert_eq|].
  rewrite Ho. intros y Hy Hay. rewrite lookup_insert_ne; [by apply Hin|].
  destruct (block_ok_bounds a b Hh Hok) as (_ & _ & Hda).
  intros E%frame_of_inj; [|done..]. lia.
Qed.

(** Blocks other than [a] do not see changes inside of [a]. *)
Lemma pages_ok_other L pgs a b x p a' b' :
  hhdm_ok → blocks_wf L → L !! a = Some b → L !! a' = Some b' → a' ≠ a →
  (4096 | x) → a ≤ x < a + bsize (b_order b) →
  pages_ok pgs a' b' → pages_ok (<[frame_of x := p]> pgs) a' b'.
Proof.
  intros Hh Hwf Ha Ha' Hne Hx Hin. apply pages_ok_frame; [done|by eapply wf_ok|done|].
  destruct (wf_disj _ Hwf _ _ _ _ Ha' Ha Hne); lia.
Qed.
End blocks.
