(* ===== verification/PmmAlloc.v ===== *)
(** The operations of the buddy allocators implement operations on the block partition:
    taking, splitting, merging and releasing blocks. *)

From S2P Require Import Prelude Math Pmm PmmLists PmmBlocks.

Section alloc.
Context (hhdm : Z) (Hh : hhdm_ok hhdm).
Abbreviation frame_of := (frame_of hhdm).
Abbreviation blocks_wf := (blocks_wf hhdm).
Abbreviation heap_rep := (heap_rep hhdm).
Abbreviation split_block := (split_block hhdm).

(** ** Pages of blocks *)
Lemma get_page_block h h' L fl a b :
  heap_rep h L fl → pages h' = pages h → L !! a = Some b →
  get_page hhdm h' a = Done (page_of b).
Proof.
  intros H Hp Ha. unfold get_page.
  rewrite (block_page_for hhdm L a b Hh (hr_wf _ _ _ _ H) Ha), Hp.
  destruct (hr_pages _ _ _ _ H _ _ Ha) as [-> _]. done.
Qed.

Lemma hr_in_free h L fl z k a :
  heap_rep h L fl → a ∈ fl z k → ∃ n, L !! a = Some (mk_block z k false n).
Proof. intros H. apply (hr_free _ _ _ _ H). Qed.

Lemma hr_not_in h L fl a b z k :
  heap_rep h L fl → L !! a = Some b → b_alloc b = true ∨ b_order b ≠ k → a ∉ fl z k.
Proof. intros H Ha Hb Hin. destruct (hr_in_free _ _ _ _ _ _ H Hin). simplify_eq. naive_solver. Qed.

Lemma hr_nonzero h L fl a b : heap_rep h L fl → L !! a = Some b → a ≠ 0.
Proof.
  intros H Ha. destruct (wf_ok _ _ (hr_wf _ _ _ _ H) _ _ Ha) as (_ & _ & Hlo & _).
  destruct Hh. lia.
Qed.

(** ** Taking the first block of a list *)
Lemma take_block_spec h L fl z k a xs n rs :
  heap_rep h L fl → fl z k = a :: xs → L !! a = Some (mk_block z k false n) →
  ∃ h', take_block hhdm z k rs h = Done (a, rs, h') ∧
        heap_rep h' (<[a := mk_block z k true n]> L) (fl_upd z k xs fl).
Proof.
  intros H E Ha. destruct (rem_spec h fl z k a xs (hr_lists _ _ _ _ H) E) as (h1 & Hr & Hp & Hl).
  pose proof (hr_wf _ _ _ _ H) as Hwf.
  unfold take_block. rewrite Hr. simpl.
  rewrite (get_page_block h h1 L fl a _ H Hp Ha). simpl. rewrite Z.eqb_refl. simpl.
  unfold upd_page. rewrite (get_page_block h h1 L fl a _ H Hp Ha). simpl.
  rewrite (block_page_for hhdm L a _ Hh Hwf Ha).
  eexists. split; [done|]. split.
  - by eapply wf_set_alloc.
  - by apply lists_rep_set_page.
  - unfold set_page. simpl. rewrite Hp.
    intros x b [[<- <-]|[Hne Hx]]%lookup_insert_Some.
    + apply (pages_ok_head hhdm (pages h) a (mk_block z k false n) (mk_block z k true n));
        try done; [by eapply wf_ok|by eapply hr_pages].
    + destruct (wf_ok _ _ Hwf _ _ Ha) as (Hk & _). simpl in Hk.
      pose proof (bsize_pos k ltac:(lia)).
      eapply (pages_ok_other hhdm L _ a); eauto using hr_pages; simpl; [|lia].
      by apply (block_ok_bounds hhdm a _ Hh (wf_ok _ _ Hwf _ _ Ha)).
  - intros z' k' x. destruct (decide (z' = z ∧ k' = k)) as [[-> ->]|Hne].
    + rewrite fl_upd_same. pose proof (lr_nodup _ _ (hr_lists _ _ _ _ H) z k) as Hnd.
      rewrite E in Hnd. apply NoDup_cons in Hnd as [Hax _].
      pose proof (hr_free _ _ _ _ H z k x) as Hfr. rewrite E, elem_of_cons in Hfr.
      destruct (decide (x = a)) as [->|Hxa].
      * rewrite lookup_insert_eq. naive_solver.
      * rewrite lookup_insert_ne by done. naive_solver.
    + rewrite fl_upd_other, (hr_free _ _ _ _ H) by done.
      destruct (decide (x = a)) as [->|Hxa]; [rewrite lookup_insert_eq|by rewrite lookup_insert_ne].
      naive_solver.
Qed.

(** ** Splitting the first block of a list *)
Lemma block_next_small L a b : blocks_wf L → L !! a = Some b → 0 ≤ b_next b < 2 ^ 36.
Proof.
  intros Hwf Ha. destruct (wf_link _ _ Hwf _ _ Ha) as [->|(-> & b' & Hb' & _)]; [lia|].
  destruct (wf_ok _ _ Hwf _ _ Hb') as (Hk & _ & Hlo & Hhi).
  pose proof (bsize_pos (b_order b') ltac:(lia)). unfold PmmBlocks.frame_of.
  Z.to_euclidean_division_equations. lia.
Qed.

Lemma set_order_small k p : 0 ≤ k ≤ 15 → set_order k p = mk_page (next_paddr p) k (allocated p).
Proof. intros. unfold set_order. by rewrite Z.mod_small by lia. Qed.
Lemma set_next_small n p : 0 ≤ n < 2 ^ 36 → set_next_paddr n p = mk_page n (order p) (allocated p).
Proof. intros. unfold set_next_paddr. by rewrite Z.mod_small by lia. Qed.

Lemma frame_shift a :
  hhdm ≤ a < 2 ^ 64 → Z.shiftr (fromhh hhdm a) page_bits = frame_of a.
Proof.
  intros Ha. unfold fromhh, page_bits. rewrite Z.shiftr_div_pow2 by lia.
  destruct (Z.leb_spec hhdm a); [|lia]. destruct Hh. rewrite w64_small by lia. done.
Qed.

Lemma frame_of_range a : hhdm ≤ a < hhdm + 2 ^ 46 → 0 ≤ frame_of a < 2 ^ 36.
Proof. intros. unfold PmmBlocks.frame_of. Z.to_euclidean_division_equations. lia. Qed.

(** Pages after a split: only the pages of the two halves have changed. *)
Lemma split_pages L pgs pgs' a z k n :
  blocks_wf L → 0 ≤ k → L !! a = Some (mk_block z (k + 1) false n) →
  (∀ x b, L !! x = Some b → pages_ok hhdm pgs x b) →
  pgs' !! frame_of a = Some (mk_page (frame_of (a + bsize k)) k false) →
  pgs' !! frame_of (a + bsize k) = Some (mk_page n k false) →
  (∀ i, i ≠ frame_of a → i ≠ frame_of (a + bsize k) → pgs' !! i = pgs !! i) →
  ∀ x b, split_block L a z k n !! x = Some b → pages_ok hhdm pgs' x b.
Proof.
  intros Hwf Hk Ha Hpg Hl Hr Hother x b.
  destruct (wf_ok _ _ Hwf _ _ Ha) as (Hk1 & Hda & Hlo & Hhi). simpl in *.
  pose proof (bsize_pos k Hk). pose proof (bsize_succ k Hk).
  assert (4096 | a) as Hpa by (apply (block_ok_bounds hhdm a _ Hh (wf_ok _ _ Hwf _ _ Ha))).
  assert (4096 | a + bsize k) as Hpb by (apply Z.divide_add_r; [done|by apply page_divide_bsize]).
  assert (∀ y, (4096 | y) → y ≠ a → y ≠ a + bsize k → pgs' !! frame_of y = pgs !! frame_of y) as Ho.
  { intros y Hy Hya Hyb. apply Hother; intros E%frame_of_inj; done. }
  assert (∀ y, (4096 | y) → a < y < a + bsize (k + 1) → y ≠ a + bsize k →
    ∃ p, pgs' !! frame_of y = Some p ∧ allocated p = false) as Hin.
  { intros y Hy Hay Hyb. rewrite Ho by (done || lia).
    destruct (Hpg _ _ Ha) as [_ Hi]. apply Hi; simpl; [done|lia]. }
  unfold PmmBlocks.split_block.
  intros [[<- <-]|[Hxa [[<- <-]|[Hxb Hx]]%lookup_insert_Some]]%lookup_insert_Some;
    unfold pages_ok; simpl.
  - split; [done|]. intros y Hy Hay. apply Hin; [done|lia..].
  - split; [done|]. intros y Hy Hay. apply Hin; [done|lia..].
  - destruct (block_ok_bounds hhdm x b Hh (wf_ok _ _ Hwf _ _ Hx)) as (_ & _ & Hpx).
    assert (a + bsize k ≤ x ∨ x + bsize (b_order b) ≤ a) as Hd.
    { destruct (wf_disj _ _ Hwf _ _ _ _ Ha Hx Hxa); simpl in *; lia. }
    pose proof (wf_ok _ _ Hwf _ _ Hx) as (Hkx & _). pose proof (bsize_pos (b_order b) ltac:(lia)).
    destruct (Hpg _ _ Hx) as [Hhd Hi]. split; [by rewrite Ho|].
    intros y Hy Hay. rewrite Ho; [by apply Hi|done|lia|].
    destruct (wf_disj _ _ Hwf _ _ _ _ Ha Hx Hxa); simpl in *; lia.
Qed.

Lemma split_step_spec h L fl z k a xs n :
  heap_rep h L fl → 0 ≤ k → fl z (k + 1) = a :: xs →
  L !! a = Some (mk_block z (k + 1) false n) →
  ∃ h', split_step hhdm z k h = Done h' ∧
    heap_rep h' (split_block L a z k n)
      (fl_upd z k (a + bsize k :: a :: fl z k) (fl_upd z (k + 1) xs fl)).
Proof.
  intros H Hk E Ha. pose proof (hr_wf _ _ _ _ H) as Hwf.
  destruct (wf_ok _ _ Hwf _ _ Ha) as (Hk1 & Hda & Hlo & Hhi). simpl in *.
  pose proof (bsize_pos k Hk). pose proof (bsize_succ k Hk). pose proof Hh as [Hh1 Hh2 Hh3].
  pose proof (hr_lists _ _ _ _ H) as Hl0.
  destruct (rem_spec h fl z (k + 1) a xs Hl0 E) as (h1 & Hr & Hp1 & Hl1).
  assert (4096 | a + bsize k) as Hpb.
  { apply Z.divide_add_r; [|by apply page_divide_bsize].
    apply (block_ok_bounds hhdm a _ Hh (wf_ok _ _ Hwf _ _ Ha)). }
  destruct (proj2 (hr_pages _ _ _ _ H _ _ Ha) (a + bsize k)) as (p0 & Hp0 & Hal0); [done|simpl; lia|].
  pose proof (proj1 (hr_pages _ _ _ _ H _ _ Ha)) as Hpa. simpl in Hpa.
  pose proof (block_next_small _ _ _ Hwf Ha) as Hn. simpl in Hn.
  assert (frame_of a ≠ frame_of (a + bsize k)) as Hne.
  { intros Ef%frame_of_inj; [lia|done|apply (block_ok_bounds hhdm a _ Hh (wf_ok _ _ Hwf _ _ Ha))|done]. }
  pose proof (not_eq_sym Hne) as Hne'.
  assert (page_for hhdm a = frame_of a) as Hfa by (apply page_for_hh; [done|lia]).
  assert (page_for hhdm (a + bsize k) = frame_of (a + bsize k)) as Hfb by (apply page_for_hh; [done|lia]).
  assert (∀ z' k', a + bsize k ∉ fl z' k') as Hfresh.
  { intros z' k' Hin. destruct (hr_in_free _ _ _ _ _ _ H Hin) as [n' Hb].
    pose proof (wf_ok _ _ Hwf _ _ Hb) as (Hk' & _). simpl in Hk'. pose proof (bsize_pos k' ltac:(lia)).
    destruct (wf_disj _ _ Hwf _ _ _ _ Ha Hb); simpl in *; lia. }
  assert (∀ z' k', a ∉ fl_upd z (k + 1) xs fl z' k') as Hfra.
  { intros z' k'. unfold fl_upd. case_decide as Ed.
    - pose proof (lr_nodup _ _ Hl0 z (k + 1)) as Hnd. rewrite E in Hnd. by apply NoDup_cons in Hnd as [? _].
    - apply (lr_not_in h fl z (k + 1)); [done|rewrite E; set_solver|done]. }
  unfold split_step. rewrite Hr. simpl. rewrite block_size_eq by lia.
  rewrite w64_small by lia. unfold upd_page, get_page. simpl. rewrite Hfa, Hfb, Hp1, Hpa. simpl.
  rewrite Hp0. simpl. rewrite Hal0. simpl.
  rewrite lookup_insert_ne, Hp1, Hp0 by done. simpl.
  repeat (rewrite lookup_insert_eq || rewrite lookup_insert_ne by done; simpl).
  rewrite frame_shift by lia. rewrite !set_order_small, !set_next_small by (lia || apply frame_of_range; lia). simpl.
  match goal with |- context [put z k a ?h2] => set (h2' := h2) end.
  assert (lists_rep h2' (fl_upd z (k + 1) xs fl)) as Hl2 by (by do 4 apply lists_rep_set_page).
  destruct (put_spec h2' _ z k a Hl2) as (h3 & Hput & Hp3 & Hl3); [by eapply hr_nonzero|done|].
  rewrite Hput. simpl. rewrite fl_upd_other in Hl3 by lia.
  destruct (put_spec h3 _ z k (a + bsize k) Hl3) as (h4 & Hput' & Hp4 & Hl4); [lia| |].
  { intros z' k'. apply not_in_fl_upd; [|apply not_in_fl_upd; [|done]].
    - intros [?|Hin]%elem_of_cons; [lia|]. by apply (Hfresh z k).
    - intros Hin. apply (Hfresh z (k + 1)). rewrite E. by right. }
  rewrite Hput'. exists h4. split; [done|].
  assert (lists_rep h4 (fl_upd z k (a + bsize k :: a :: fl z k) (fl_upd z (k + 1) xs fl))) as Hl5.
  { rewrite fl_upd_same in Hl4. eapply lists_rep_ext; [|done].
    intros z' k'. unfold fl_upd. by repeat case_decide. }
  split; [by apply wf_split|done| |].
  - rewrite Hp4, Hp3. subst h2'. simpl. rewrite Hp1.
    apply (split_pages L (pages h)); try done; [by apply (hr_pages _ _ _ _ H)|..].
    + by rewrite lookup_insert_eq, Hal0 || rewrite lookup_insert_eq.
    + rewrite lookup_insert_ne, lookup_insert_eq by done. by rewrite Hal0.
    + intros i Hi1 Hi2. by rewrite !lookup_insert_ne by done.
  - intros z' k' x. pose proof (hr_free _ _ _ _ H z' k' x) as Hfr. unfold PmmBlocks.split_block.
    pose proof (lr_nodup _ _ Hl0 z (k + 1)) as Hnd. rewrite E in Hnd. apply NoDup_cons in Hnd as [Hax _].
    unfold fl_upd. destruct (decide (x = a)) as [->|Hxa].
    { rewrite lookup_insert_eq. repeat case_decide; [set_solver|naive_solver lia|].
      split; [intros Hin; apply Hfr in Hin as [? ?]; simplify_eq; naive_solver|naive_solver]. }
    rewrite lookup_insert_ne by done. destruct (decide (x = a + bsize k)) as [->|Hxb].
    { rewrite lookup_insert_eq. repeat case_decide; [set_solver|..].
      - split; [|naive_solver lia]. intros Hin. destruct (Hfresh z (k + 1)). rewrite E. set_solver.
      - split; [|naive_solver]. intros Hin. by destruct (Hfresh z' k'). }
    rewrite lookup_insert_ne by done. repeat case_decide; [| |done].
    + destruct_and!. subst. rewrite !elem_of_cons. naive_solver.
    + destruct_and!. subst. rewrite <-Hfr, E, elem_of_cons. naive_solver.
Qed.

(** ** Merging a block with its right buddy *)
Lemma merge_pages L pgs a z k n n' :
  blocks_wf L → 0 ≤ k → (∀ x b, L !! x = Some b → pages_ok hhdm pgs x b) →
  L !! a = Some (mk_block z k false n) → L !! (a + bsize k) = Some (mk_block z k false n') →
  ∀ x b, merge_block L a z k n' !! x = Some b →
    pages_ok hhdm (<[frame_of a := mk_page n' (k + 1) false]> pgs) x b.
Proof.
  intros Hwf Hk Hpg Ha Hb x b.
  pose proof (bsize_pos k Hk). pose proof (bsize_succ k Hk).
  destruct (block_ok_bounds hhdm _ _ Hh (wf_ok _ _ Hwf _ _ Ha)) as (_ & _ & Hpa).
  destruct (block_ok_bounds hhdm _ _ Hh (wf_ok _ _ Hwf _ _ Hb)) as (_ & _ & Hpb).
  unfold merge_block.
  intros [[<- <-]|[Hxa [Hxb Hx]%lookup_delete_Some]]%lookup_insert_Some.
  - split; simpl; [by rewrite lookup_insert_eq|]. intros y Hy Hay.
    rewrite lookup_insert_ne by (intros E%frame_of_inj; [lia|done..]).
    destruct (Hpg _ _ Ha) as [_ Hia], (Hpg _ _ Hb) as [Hhb Hib]. simpl in *.
    destruct (decide (y = a + bsize k)) as [->|Hne].
    + rewrite Hhb. by eexists.
    + destruct (decide (y < a + bsize k)); [apply Hia|apply Hib]; done || lia.
  - eapply (pages_ok_other hhdm L _ a); eauto; simpl; lia.
Qed.

Lemma merge_step_spec h L fl z k a n n' :
  heap_rep h L fl → 0 ≤ k < 15 → (bsize (k + 1) | a) →
  L !! a = Some (mk_block z k false n) → L !! (a + bsize k) = Some (mk_block z k false n') →
  ∃ h' fl', merge_step hhdm z k a (a + bsize k) h = Done h' ∧
    heap_rep h' (merge_block L a z k n') fl' ∧
    (length (fl' z k) < length (fl z k))%nat ∧
    (∀ j, j ≠ k → j ≠ k + 1 → fl' z j = fl z j).
Proof.
  intros H Hk Hda Ha Hb. pose proof (hr_wf _ _ _ _ H) as Hwf.
  pose proof (bsize_pos k ltac:(lia)). pose proof (bsize_succ k ltac:(lia)).
  pose proof (hr_lists _ _ _ _ H) as Hl0.
  assert (a ∈ fl z k) as Hin by (apply (hr_free _ _ _ _ H); eauto).
  assert (a + bsize k ∈ fl z k) as Hinb by (apply (hr_free _ _ _ _ H); eauto).
  pose proof (lr_nodup _ _ Hl0 z k) as Hnd.
  apply list_elem_of_split in Hin as (l1 & l2 & E).
  destruct (list_remove_spec h fl z k l1 a l2 Hl0 E) as (h1 & Hr1 & Hp1 & Hl1).
  assert (a + bsize k ∈ l1 ++ l2) as Hinb'.
  { rewrite E, elem_of_app, elem_of_cons in Hinb. rewrite elem_of_app.
    destruct Hinb as [?|[?|?]]; [auto|lia|auto]. }
  apply list_elem_of_split in Hinb' as (m1 & m2 & Em).
  destruct (list_remove_spec h1 _ z k m1 (a + bsize k) m2 Hl1) as (h2 & Hr2 & Hp2 & Hl2);
    [by rewrite fl_upd_same|].
  assert (∀ x, x ∈ m1 ++ m2 ↔ x ∈ fl z k ∧ x ≠ a ∧ x ≠ a + bsize k) as Hrest.
  { rewrite E in Hnd.
    rewrite (Permutation_app_comm l1), <-app_comm_cons in Hnd.
    rewrite (Permutation_app_comm l2), Em in Hnd.
    rewrite (Permutation_app_comm m1), <-app_comm_cons in Hnd.
    apply NoDup_cons in Hnd as [Ha2 Hnd]. apply NoDup_cons in Hnd as [Hb2 Hnd].
    intros x. rewrite E.
    assert (x ∈ l1 ++ l2 ↔ x ∈ m1 ++ a + bsize k :: m2) as Hx by (by rewrite Em).
    set_solver. }
  unfold merge_step. rewrite Hr1. simpl. rewrite Hr2. simpl.
  unfold upd_page. rewrite (get_page_block h h2 L fl a _ H) by (by rewrite ?Hp2, ?Hp1 || done). simpl.
  unfold get_page. rewrite !(block_page_for hhdm L a _ Hh Hwf Ha).
  rewrite (block_page_for hhdm L _ _ Hh Hwf Hb). simpl. rewrite Hp2, Hp1.
  destruct (block_ok_bounds hhdm _ _ Hh (wf_ok _ _ Hwf _ _ Ha)) as (_ & _ & Hpa).
  destruct (block_ok_bounds hhdm _ _ Hh (wf_ok _ _ Hwf _ _ Hb)) as (_ & _ & Hpb).
  assert (frame_of a ≠ frame_of (a + bsize k)) as Hnf by (intros Ef%frame_of_inj; [lia|done..]).
  rewrite (lookup_insert_ne _ _ _ _ Hnf).
  rewrite (proj1 (hr_pages _ _ _ _ H _ _ Hb)). simpl.
  rewrite lookup_insert_eq. simpl.
  pose proof (block_next_small _ _ _ Hwf Hb) as Hn'. simpl in Hn'.
  rewrite set_order_small, set_next_small by lia. simpl.
  match goal with |- context [put z (k + 1) a ?h3] => set (h3' := h3) end.
  assert (lists_rep h3' (fl_upd z k (m1 ++ m2) fl)) as Hl3.
  { do 2 apply lists_rep_set_page. eapply lists_rep_ext; [|exact Hl2].
    intros z' k'. unfold fl_upd. by repeat case_decide. }
  assert (∀ z' k', a ∉ fl_upd z k (m1 ++ m2) fl z' k') as Hfra.
  { intros z' k'. unfold fl_upd. case_decide; [rewrite Hrest; naive_solver|].
    apply (lr_not_in h fl z k); [done|rewrite E; set_solver|done]. }
  destruct (put_spec h3' _ z (k + 1) a Hl3) as (h4 & Hput & Hp4 & Hl4); [by eapply hr_nonzero|done|].
  rewrite Hput. rewrite fl_upd_other in Hl4 by lia.
  exists h4, (fl_upd z (k + 1) (a :: fl z (k + 1)) (fl_upd z k (m1 ++ m2) fl)).
  split; [done|]. split; [split|split].
  - by eapply wf_merge.
  - done.
  - rewrite Hp4. subst h3'. simpl. rewrite Hp2, Hp1, insert_insert_eq.
    apply (merge_pages L (pages h) a z k n n'); try done; [lia|by apply (hr_pages _ _ _ _ H)].
  - intros z' k' x. pose proof (hr_free _ _ _ _ H z' k' x) as Hfr. unfold merge_block, fl_upd.
    destruct (decide (x = a)) as [->|Hxa].
    { rewrite lookup_insert_eq. repeat case_decide; [set_solver|..].
      - rewrite Hrest. naive_solver lia.
      - rewrite Hfr. naive_solver. }
    rewrite lookup_insert_ne by done.
    destruct (decide (x = a + bsize k)) as [->|Hxb].
    { rewrite lookup_delete_eq. repeat case_decide; [|rewrite Hrest; naive_solver|].
      - rewrite elem_of_cons. split; [|naive_solver]. intros [?|Hin]; [lia|].
        apply (hr_free _ _ _ _ H) in Hin as [? Hin]. simplify_eq. lia.
      - rewrite Hfr. naive_solver. }
    rewrite lookup_delete_ne by done. repeat case_decide; [| |done].
    + destruct_and!. subst. rewrite elem_of_cons. naive_solver.
    + destruct_and!. subst. rewrite Hrest. naive_solver.
  - rewrite fl_upd_other, fl_upd_same by lia. rewrite E.
    pose proof (f_equal length Em) as Elen. rewrite !length_app in *. simpl in *. lia.
  - intros j Hj Hj'. rewrite !fl_upd_other by lia. done.
Qed.

(** ** Releasing a block *)
Lemma release_spec h L fl z k a n :
  heap_rep h L fl → L !! a = Some (mk_block z k true n) →
  ∃ h', (h1 ← upd_page hhdm (set_allocated false) a h; put z k a h1) = Done h' ∧
    heap_rep h' (<[a := mk_block z k false n]> L) (fl_upd z k (a :: fl z k) fl).
Proof.
  intros H Ha. pose proof (hr_wf _ _ _ _ H) as Hwf. pose proof (hr_lists _ _ _ _ H) as Hl0.
  assert (∀ z' k', a ∉ fl z' k') as Hfra by (intros; by eapply hr_not_in; eauto).
  unfold upd_page. rewrite (get_page_block h h L fl a _ H eq_refl Ha). simpl.
  rewrite (block_page_for hhdm L a _ Hh Hwf Ha).
  destruct (put_spec (set_page (frame_of a) (page_of (mk_block z k false n)) h) fl z k a)
    as (h2 & Hput & Hp2 & Hl2); [by apply lists_rep_set_page|by eapply hr_nonzero|done|].
  exists h2. split; [done|]. split.
  - by eapply wf_set_alloc.
  - done.
  - rewrite Hp2. simpl. intros x b [[<- <-]|[Hne Hx]]%lookup_insert_Some.
    + apply (pages_ok_head hhdm (pages h) a (mk_block z k true n)); try done;
        [by eapply wf_ok|by eapply hr_pages].
    + destruct (wf_ok _ _ Hwf _ _ Ha) as (Hk & _). simpl in Hk. pose proof (bsize_pos k ltac:(lia)).
      eapply (pages_ok_other hhdm L _ a); eauto using hr_pages; simpl; [|lia].
      by apply (block_ok_bounds hhdm a _ Hh (wf_ok _ _ Hwf _ _ Ha)).
  - intros z' k' x. pose proof (hr_free _ _ _ _ H z' k' x) as Hfr. unfold fl_upd.
    destruct (decide (x = a)) as [->|Hxa].
    + rewrite lookup_insert_eq. case_decide; [set_solver|]. split; [|naive_solver].
      intros Hin. by destruct (Hfra z' k').
    + rewrite lookup_insert_ne by done. case_decide; [|done]. destruct_and!. subst.
      rewrite elem_of_cons. naive_solver.
Qed.
End alloc.
