(* ===== verification/PmmZone.v ===== *)
(** The loops of the buddy allocators: splitting down to an order, coalescing up to an
    order, allocating from and freeing to a zone.  The abstract specification of a zone
    speaks of the memory that is free in it and of the blocks that are handed out. *)

From S2P Require Import Prelude Math Pmm PmmLists PmmBlocks PmmAlloc.

(** Byte [x] belongs to a free block of zone [z]. *)
Definition free_at (L : gmap Z block) (z : zone) (x : Z) : Prop :=
  ∃ a k n, L !! a = Some (mk_block z k false n) ∧ a ≤ x < a + bsize k.

(** Two partitions hand out the same blocks and have the same free memory. *)
Record same_memory (L L' : gmap Z block) : Prop := {
  sm_alloc a b : b_alloc b = true → L !! a = Some b ↔ L' !! a = Some b;
  sm_free z x : free_at L z x ↔ free_at L' z x }.

#[export] Instance same_memory_equivalence : Equivalence same_memory.
Proof.
  split.
  - intros L. by split.
  - intros L L' [A F]. split; intros; symmetry; auto.
  - intros L1 L2 L3 [A F] [A' F']. split.
    + intros a b Hb. by rewrite (A a b Hb), (A' a b Hb).
    + intros z x. by rewrite F, F'.
Qed.

#[export] Instance free_at_proper : Proper (same_memory ==> eq ==> eq ==> iff) free_at.
Proof. intros L L' [_ F] z ? <- x ? <-. apply F. Qed.

Section zone.
Context (hhdm : Z) (Hh : hhdm_ok hhdm).
Abbreviation frame_of := (frame_of hhdm).
Abbreviation blocks_wf := (blocks_wf hhdm).
Abbreviation heap_rep := (heap_rep hhdm).
Abbreviation split_block := (split_block hhdm).

Lemma same_split L a z k n :
  blocks_wf L → 0 ≤ k → L !! a = Some (mk_block z (k + 1) false n) →
  same_memory L (split_block L a z k n).
Proof.
  intros Hwf Hk Ha. pose proof (bsize_succ k Hk). pose proof (bsize_pos k Hk).
  assert (∀ b, L !! (a + bsize k) = Some b → False) as Hno.
  { intros b Hb. pose proof (wf_ok _ _ Hwf _ _ Hb) as (? & _). pose proof (bsize_pos (b_order b)).
    destruct (wf_disj _ _ Hwf _ _ _ _ Ha Hb); simpl in *; lia. }
  split.
  - intros x b Hb. unfold PmmBlocks.split_block.
    rewrite !lookup_insert_Some. split; [|naive_solver].
    intros Hx. right. split; [naive_solver|]. right. split; [|done]. intros <-. by eapply Hno.
  - intros z' x. unfold free_at, PmmBlocks.split_block. split.
    + intros (y & k' & n' & Hy & Hx). destruct (decide (y = a)) as [->|Hya].
      * simplify_eq. destruct (decide (x < a + bsize k)).
        -- exists a, k, (frame_of (a + bsize k)). rewrite lookup_insert_eq. split; [done|lia].
        -- exists (a + bsize k), k, n. rewrite lookup_insert_ne, lookup_insert_eq by lia. split; [done|lia].
      * exists y, k', n'. rewrite !lookup_insert_ne; [done| |done]. intros <-. by eapply Hno.
    + intros (y & k' & n' & [[<- ?]|[Hne [[<- ?]|[Hne' Hy]]%lookup_insert_Some]]%lookup_insert_Some & Hx);
        [simplify_eq; eexists _, _, _; split; [exact Ha|lia]..|by eauto].
Qed.

Lemma same_merge L a z k n n' :
  0 ≤ k → L !! a = Some (mk_block z k false n) → L !! (a + bsize k) = Some (mk_block z k false n') →
  same_memory L (merge_block L a z k n').
Proof.
  intros Hk Ha Hb. pose proof (bsize_succ k Hk). pose proof (bsize_pos k Hk). split.
  - intros x b Hx. unfold merge_block. rewrite lookup_insert_Some, lookup_delete_Some. naive_solver.
  - intros z' x. unfold free_at, merge_block. split.
    + intros (y & k' & n1 & Hy & Hx).
      destruct (decide (y = a)) as [->|Hya]; [|destruct (decide (y = a + bsize k)) as [->|Hyb]].
      1, 2: simplify_eq; exists a, (k + 1), n'; rewrite lookup_insert_eq; split; [done|lia].
      exists y, k', n1. by rewrite lookup_insert_ne, lookup_delete_ne.
    + intros (y & k' & n1 & [[<- ?]|[Hne [Hne' Hy]%lookup_delete_Some]]%lookup_insert_Some & Hx); [|by eauto].
      simplify_eq. destruct (decide (x < a + bsize k)); [exists a|exists (a + bsize k)];
        eexists _, _; (split; [done|lia]).
Qed.

(** ** Bounds on the free lists *)
Lemma length_fl h L fl z k : heap_rep h L fl → (length (fl z k) ≤ size L)%nat.
Proof.
  intros H. rewrite <-(size_list_to_set (C := gset Z)) by apply (lr_nodup _ _ (hr_lists _ _ _ _ H)).
  rewrite <-(size_dom (D := gset Z)). apply subseteq_size. intros x.
  rewrite elem_of_list_to_set, elem_of_dom. intros Hx.
  destruct (hr_in_free _ _ _ _ _ _ _ H Hx) as [n ->]. eauto.
Qed.
Lemma size_merge L a z k n b :
  a ≠ a + bsize k → is_Some (L !! a) → L !! (a + bsize k) = Some b →
  (size (merge_block L a z k n) < size L)%nat.
Proof.
  intros Hne Ha Hb. unfold merge_block. rewrite map_size_insert_Some.
  - rewrite map_size_delete_Some by eauto.
    destruct (decide (size L = 0%nat)) as [E|]; [|lia].
    apply map_size_empty_inv in E. subst. by rewrite lookup_empty in Hb.
  - by rewrite lookup_delete_ne.
Qed.

(** ** Splitting *)
(** No free block of [z] has an order from [k] to [j - 1]. *)
Definition no_free (L : gmap Z block) (z : zone) (k j : Z) : Prop :=
  ∀ a k' n, L !! a = Some (mk_block z k' false n) → ¬ k ≤ k' < j.

Lemma fl_nil_iff h L fl z k : heap_rep h L fl →
  fl z k = [] ↔ ∀ a n, L !! a ≠ Some (mk_block z k false n).
Proof.
  intros H. split.
  - intros E a n Ha. assert (a ∈ fl z k) as Hin by (apply (hr_free _ _ _ _ H); eauto).
    rewrite E in Hin. by apply not_elem_of_nil in Hin.
  - intros Hno. destruct (fl z k) as [|a xs] eqn:E; [done|].
    destruct (hr_in_free _ _ _ fl z k a H) as [n Hn]; [rewrite E; set_solver|]. by edestruct Hno.
Qed.

Lemma find_order_spec h L fl z n k :
  heap_rep h L fl → 0 ≤ k ≤ 16 → 16 ≤ k + Z.of_nat n →
  match find_order n z k h with
  | Some j => k ≤ j ∧ fl z j ≠ []
  | None => no_free L z k 16
  end.
Proof.
  intros H. revert k. induction n as [|n IH]; intros k Hk Hn; simpl;
    rewrite (has_pages_spec h fl) by apply (hr_lists _ _ _ _ H); case_bool_decide as E; simpl.
  1: intros a k' m _; lia.
  1, 3: by split.
  case_test.
  - intros a k' m Ha Hk'. pose proof (proj1 (fl_nil_iff _ _ _ _ _ H) E a m) as Hno.
    unfold max_order in *. assert (k' = k) as -> by lia. done.
  - unfold max_order in *. specialize (IH (k + 1) ltac:(lia) ltac:(lia)).
    destruct (find_order n z (k + 1) h) as [j|]; [split; [lia|apply IH]|].
    intros a k' m Ha Hk'. destruct (decide (k' = k)) as [->|].
    + by apply (proj1 (fl_nil_iff _ _ _ _ _ H) E a m).
    + apply (IH _ _ _ Ha). lia.
Qed.

Lemma split_loop_spec h L fl z j n :
  heap_rep h L fl → Z.of_nat n ≤ j → fl z j ≠ [] →
  ∃ h' L' fl', split_loop hhdm n z j h = Done h' ∧ heap_rep h' L' fl' ∧
    same_memory L L' ∧ fl' z (j - Z.of_nat n) ≠ [].
Proof.
  revert h L fl j. induction n as [|n IH]; intros h L fl j H Hn Hj; simpl.
  { rewrite Z.sub_0_r. by exists h, L, fl. }
  destruct (fl z j) as [|a xs] eqn:E; [done|].
  destruct (hr_in_free _ _ _ fl z j a H) as [m Ha]; [rewrite E; set_solver|].
  replace j with (j - 1 + 1) in E, Ha by lia.
  destruct (split_step_spec hhdm Hh h L fl z (j - 1) a xs m) as (h1 & Hs & H1); [done|lia|done..|].
  rewrite Hs. simpl.
  destruct (IH _ _ _ (j - 1) H1) as (h' & L' & fl' & Hl & H' & Hsm & Hne).
  { lia. }
  { by rewrite fl_upd_same. }
  exists h', L', fl'. split_and!; [done|done| |by replace (j - Z.of_nat (S n)) with (j - 1 - Z.of_nat n) by lia].
  etransitivity; [|exact Hsm]. apply same_split; [apply H|lia|done].
Qed.

Lemma split_to_spec h L fl z k :
  heap_rep h L fl → 0 ≤ k < 15 →
  ∃ h' L' fl', split_to hhdm z k h = Done h' ∧ heap_rep h' L' fl' ∧ same_memory L L' ∧
    (fl' z k = [] → fl' z k = fl z k ∧ L' = L ∧ no_free L z (k + 1) 16).
Proof.
  intros H Hk. unfold split_to.
  pose proof (find_order_spec h L fl z 16 (k + 1) H ltac:(lia) ltac:(lia)) as Hf.
  destruct (find_order 16 z (k + 1) h) as [j|].
  - destruct Hf as [Hkj Hj].
    destruct (split_loop_spec h L fl z j (Z.to_nat (j - k)) H) as (h' & L' & fl' & Hs & H' & Hsm & Hne);
      [lia|done|].
    replace (j - Z.of_nat (Z.to_nat (j - k))) with k in Hne by lia.
    exists h', L', fl'. by split_and!.
  - exists h, L, fl. by split_and!.
Qed.

(** ** Coalescing *)
Lemma get_node_in h L fl z k l1 a l2 :
  heap_rep h L fl → fl z k = l1 ++ a :: l2 →
  ∃ p, get_node h a = Done (mk_node p match l2 with [] => 0 | y :: _ => y end).
Proof.
  intros H E. destruct (lr_node h fl z k l1 a l2 (hr_lists _ _ _ _ H) E) as [p Hp].
  exists p. unfold get_node. by rewrite Hp.
Qed.
Lemma hr_member h L fl z k l1 a l2 :
  heap_rep h L fl → fl z k = l1 ++ a :: l2 → ∃ n, L !! a = Some (mk_block z k false n).
Proof. intros H E. apply (hr_in_free hhdm h L fl); [done|]. rewrite E. set_solver. Qed.

Lemma skip_right_spec h L fl z k fuel l1 a l2 :
  heap_rep h L fl → 0 ≤ k → fl z k = l1 ++ a :: l2 → (length l2 < fuel)%nat →
  skip_right hhdm fuel k a h = Done None ∨
  ∃ l1' c l2' n, skip_right hhdm fuel k a h = Done (Some c) ∧
    fl z k = l1' ++ c :: l2' ∧ (length l2' ≤ length l2)%nat ∧
    L !! c = Some (mk_block z k false n) ∧ n ≠ 0 ∧ c mod block_size (k + 1) = 0.
Proof.
  intros H Hk. revert l1 a l2. induction fuel as [|fuel IH]; intros l1 a l2 E Hf; simpl; [lia|].
  destruct (hr_member _ _ _ _ _ _ _ _ H E) as [n Hn].
  rewrite (get_page_block hhdm Hh h h L fl a _ H eq_refl Hn). simpl.
  destruct (get_node_in _ _ _ _ _ _ _ _ H E) as [p Hp].
  destruct (Z.eqb_spec n 0), (Z.eqb_spec (a mod block_size (k + 1)) 0); simpl;
    [| |right; exists l1, a, l2, n; split_and!; (done || lia)|].
  all: rewrite Hp; simpl; destruct l2 as [|y l2]; [by left|].
  all: assert (y ≠ 0) as Hy by
    (destruct (hr_member h L fl z k (l1 ++ [a]) y l2 H) as [? Hy]; [by rewrite <-app_assoc|];
     by eapply hr_nonzero).
  all: destruct (Z.eqb_spec y 0); [done|].
  all: destruct (IH (l1 ++ [a]) y l2) as [?|(l1' & c & l2' & n' & ? & ? & ? & ? & ? & ?)];
    [by rewrite <-app_assoc|simpl in *; lia|by left|right].
  all: exists l1', c, l2', n'; split_and!; try done; simpl; lia.
Qed.

(** The right buddy found through the page link. *)
Lemma buddy_of L a z k n :
  blocks_wf L → L !! a = Some (mk_block z k false n) → n ≠ 0 →
  tohh hhdm (w64 (Z.shiftl n page_bits)) = a + bsize k ∧
  ∃ b, L !! (a + bsize k) = Some b ∧ b_zone b = z.
Proof.
  intros Hwf Ha Hn. destruct (wf_link _ _ Hwf _ _ Ha) as [|(Hl & Hb)]; [done|]. simpl in *.
  split; [|done]. destruct Hb as (b & Hb & _).
  destruct (block_ok_bounds hhdm _ _ Hh (wf_ok _ _ Hwf _ _ Hb)) as (_ & _ & Hd).
  destruct (wf_ok _ _ Hwf _ _ Hb) as (Hk & _ & Hlo & Hhi). pose proof (bsize_pos (b_order b) ltac:(lia)).
  destruct Hh as [Hp Hfit Hal].
  assert (4096 | hhdm) as Hd' by (etransitivity; [apply (page_divide_bsize 15); lia|done]).
  assert (n * 4096 = a + bsize k - hhdm) as Hn4.
  { rewrite Hl. unfold PmmBlocks.frame_of. symmetry. rewrite (Z.mul_comm _ 4096).
    apply Z_div_exact_full_2; [lia|]. apply Z.mod_divide; [lia|]. by apply Z.divide_sub_r. }
  unfold tohh, page_bits. rewrite Z.shiftl_mul_pow2 by lia. change (2 ^ 12) with 4096.
  rewrite Hn4, w64_small by lia. destruct (Z.leb_spec hhdm (a + bsize k - hhdm)); [lia|].
  rewrite w64_small by lia. lia.
Qed.

Definition coalesce_fuel (n : nat) : nat := (n * (n + 2) + 2)%nat.

Lemma coalesce_loop_spec h L fl z k fuel l1 a l2 :
  heap_rep h L fl → 0 ≤ k < 15 → fl z k = l1 ++ a :: l2 →
  (length (fl z k) * (length (fl z k) + 1) + length l2 + 1 ≤ fuel)%nat →
  ∃ h' L' fl', coalesce_loop hhdm fuel z k a h = Done h' ∧ heap_rep h' L' fl' ∧
    same_memory L L' ∧ (size L' ≤ size L)%nat.
Proof.
  revert h L fl l1 a l2. induction fuel as [|fuel IH]; intros h L fl l1 a l2 H Hk E Hf; [lia|].
  simpl. rewrite (has_pages_spec h fl), bool_decide_false
    by (apply (hr_lists _ _ _ _ H) || rewrite E; by destruct l1). simpl.
  destruct (skip_right_spec h L fl z k (S fuel) l1 a l2 H) as [Hs|(m1 & c & m2 & n & Hs & E' & Hlen & Hc & Hn & Hal)];
    [lia|done|lia|simpl in Hs..]; rewrite Hs; simpl; [by exists h, L, fl|].
  rewrite (get_page_block hhdm Hh h h L fl c _ H eq_refl Hc). simpl. rewrite Z.eqb_refl. simpl.
  destruct (buddy_of L c z k n) as [-> (b & Hb & Hbz)]; [apply H|done|done|].
  rewrite (get_page_block hhdm Hh h h L fl _ _ H eq_refl Hb). simpl.
  destruct (b_alloc b || negb (b_order b =? k)) eqn:Hskip.
  - destruct (get_node_in _ _ _ _ _ _ _ _ H E') as [p ->]. simpl. destruct m2 as [|y m2].
    + simpl. by exists h, L, fl.
    + assert (y ≠ 0) as Hy.
      { destruct (hr_member h L fl z k (m1 ++ [c]) y m2 H) as [? Hy]; [by rewrite <-app_assoc|].
        by eapply hr_nonzero. }
      destruct (Z.eqb_spec y 0); [done|].
      destruct (IH h L fl (m1 ++ [c]) y m2 H Hk) as (h' & L' & fl' & ?);
        [by rewrite <-app_assoc|simpl in *; lia|by exists h', L', fl'].
  - apply orb_false_iff in Hskip as [Hba Hbo]. apply negb_false_iff, Z.eqb_eq in Hbo.
    destruct b as [zb kb ab nb]. simpl in *. subst.
    rewrite block_size_eq in Hal by lia.
    pose proof (bsize_pos k ltac:(lia)) as Hp1. pose proof (bsize_pos (k + 1) ltac:(lia)) as Hp2.
    destruct (merge_step_spec hhdm Hh h L fl z k c n nb H) as (h1 & fl1 & -> & H1 & Hl1 & _);
      [lia|by apply Z.mod_divide; [lia|]|done|done|]. simpl.
    assert (same_memory L (merge_block L c z k nb)) as Hsm by (eapply same_merge; [lia|done..]).
    pose proof (size_merge L c z k nb _ ltac:(lia) ltac:(eauto) Hb) as Hsz.
    pose proof (lr_head _ _ z k (hr_lists _ _ _ _ H1)) as Hhd.
    destruct (fl1 z k) as [|y ys] eqn:E1.
    + destruct fuel as [|fuel]; [destruct l1; rewrite E in Hf; simpl in Hf; lia|].
      simpl. unfold has_pages. rewrite Hhd. simpl.
      exists h1, (merge_block L c z k nb), fl1. split_and!; [done..|lia].
    + rewrite Hhd. destruct (IH h1 _ fl1 [] y ys H1 Hk E1) as (h' & L' & fl' & ? & ? & ? & ?).
      { simpl in *. rewrite E1. simpl. nia. }
      exists h', L', fl'. split_and!; [done|done|by etransitivity|lia].
Qed.

Lemma coalesce_orders_spec h L fl z k n fuel :
  heap_rep h L fl → 0 ≤ k → k + Z.of_nat n ≤ 15 → (coalesce_fuel (size L) ≤ fuel)%nat →
  ∃ h' L' fl', coalesce_orders hhdm fuel n z k h = Done h' ∧ heap_rep h' L' fl' ∧
    same_memory L L' ∧ (size L' ≤ size L)%nat.
Proof.
  revert h L fl k. induction n as [|n IH]; intros h L fl k H Hk Hn Hf; simpl; [by exists h, L, fl|].
  assert (∃ h' L' fl', coalesce_loop hhdm fuel z k (heads h z k) h = Done h' ∧ heap_rep h' L' fl' ∧
    same_memory L L' ∧ (size L' ≤ size L)%nat) as (h1 & L1 & fl1 & -> & H1 & Hsm & Hsz).
  { pose proof (lr_head _ _ z k (hr_lists _ _ _ _ H)) as Hhd. unfold coalesce_fuel in Hf.
    pose proof (length_fl h L fl z k H) as Hlen.
    destruct (fl z k) as [|y ys] eqn:E.
    - destruct fuel; [lia|]. simpl. unfold has_pages. rewrite Hhd. simpl. by exists h, L, fl.
    - rewrite Hhd. apply (coalesce_loop_spec h L fl z k fuel [] y ys); [done|lia|done|].
      rewrite E. simpl in *. nia. }
  simpl. destruct (IH h1 L1 fl1 (k + 1) H1) as (h' & L' & fl' & ? & ? & ? & ?); [lia|lia| |].
  { unfold coalesce_fuel in *. nia. }
  exists h', L', fl'. split_and!; [done|done|by etransitivity|lia].
Qed.

(** The loops terminate within [coalesce_fuel] of the number of blocks. *)
Lemma coalesce_to_spec h L fl z k fuel :
  heap_rep h L fl → 0 ≤ k ≤ 15 → (coalesce_fuel (size L) ≤ fuel)%nat →
  ∃ h' L' fl', coalesce_to hhdm fuel z k h = Done h' ∧ heap_rep h' L' fl' ∧ same_memory L L' ∧
    (size L' ≤ size L)%nat.
Proof.
  intros H Hk Hf. unfold coalesce_to, max_order. destruct (Z.eqb_spec k 0); [by exists h, L, fl|].
  destruct (Z.ltb_spec 15 k); [lia|].
  destruct (coalesce_orders_spec h L fl z 0 (Z.to_nat k) fuel H) as (h' & L' & fl' & ? & ? & ? & ?);
    [lia|lia|done|]. by exists h', L', fl'.
Qed.
End zone.
