(* ===== verification/PmmSpec.v ===== *)
(** What the buddy allocators promise: [zone_alloc] hands out free memory of the zone,
    [zone_free] gives it back, [zone_add_range] adds exactly the memory it is given; and
    how far the accounting of [pmm::alloc] and [pmm::free] agrees. *)

From S2P Require Import Prelude Math Pmm PmmLists PmmBlocks PmmAlloc PmmZone.

(** [next_order_from] is the order of the smallest block that holds [size] bytes. *)
Lemma next_order_spec npages :
  0 < npages ≤ 2 ^ 50 →
  0 ≤ next_order_from (w64 (npages * page_size)) ≤ 51 ∧
  npages * 4096 ≤ bsize (next_order_from (w64 (npages * page_size))) < 2 * (npages * 4096).
Proof.
  intros Hn. unfold page_size. rewrite w64_small by lia. unfold next_order_from, page_size.
  destruct (Z.ltb_spec (npages * 4096) 4096); [lia|].
  destruct (next_pow2_bounds (npages * 4096)) as (k & Hk & -> & Hlo & Hhi); [lia|].
  rewrite log2_pow2 by lia.
  assert (12 ≤ k).
  { destruct (decide (12 ≤ k)); [done|]. pose proof (pow2_le k 11 ltac:(lia) ltac:(lia)). lia. }
  rewrite s64_w64_small by lia. unfold bsize.
  replace (2 ^ k) with (4096 * 2 ^ (k - 12)) in *.
  - split; [|lia]. split; [lia|]. destruct (decide (k - 12 ≤ 51)); [done|].
    pose proof (pow2_le 52 (k - 12) ltac:(lia) ltac:(lia)). lia.
  - change 4096 with (2 ^ 12). rewrite <-Z.pow_add_r by lia. f_equal. lia.
Qed.

(** The order as the code computes it, and whether a zone can serve it. *)
Definition order_for (npages : Z) : Z := next_order_from (w64 (npages * page_size)).

Lemma order_test npages :
  0 < npages ≤ 2 ^ 50 →
  (order_for npages <? 0) || (max_order <? w64 (order_for npages)) = (15 <? order_for npages).
Proof.
  intros Hn. pose proof (next_order_spec npages Hn) as [Ho _]. fold (order_for npages) in Ho.
  unfold max_order. rewrite w64_small by lia.
  by destruct (Z.ltb_spec (order_for npages) 0); [lia|].
Qed.

Section spec.
Context (hhdm : Z) (Hh : hhdm_ok hhdm).
Abbreviation heap_rep := (heap_rep hhdm).

(** The block [a] has been taken out of the free memory of [L]; [L'] is the result. *)
Definition handed_out (L L' : gmap Z block) (z : zone) (k a : Z) : Prop :=
  ∃ L1 n, same_memory L L1 ∧ L1 !! a = Some (mk_block z k false n) ∧
    L' = <[a := mk_block z k true n]> L1.

(** What follows from a hand-out: the memory was free, the block is aligned and disjoint
    from all blocks that are in use; nothing else has changed. *)
Lemma handed_out_spec L L' z k a :
  blocks_wf hhdm L' → handed_out L L' z k a →
  (bsize k | a) ∧ (∀ x, a ≤ x < a + bsize k → free_at L z x) ∧
  (∀ x z', free_at L' z' x ↔ free_at L z' x ∧ ¬ (z' = z ∧ a ≤ x < a + bsize k)) ∧
  (∀ a' b, b_alloc b = true → L !! a' = Some b →
     L' !! a' = Some b ∧ (a' + bsize (b_order b) ≤ a ∨ a + bsize k ≤ a')) ∧
  (∀ a' b, b_alloc b = true → L' !! a' = Some b → a' ≠ a → L !! a' = Some b).
Proof.
  intros Hwf (L1 & n & Hsm & Ha & ->).
  assert (<[a:=mk_block z k true n]> L1 !! a = Some (mk_block z k true n)) as Ha' by apply lookup_insert_eq.
  destruct (wf_ok _ _ Hwf _ _ Ha') as (Hk & Hd & _). simpl in *.
  assert (∀ x, a ≤ x < a + bsize k → free_at L1 z x) as Hin by (intros x Hx; by exists a, k, n).
  split_and!.
  - done.
  - intros x Hx. rewrite Hsm. by apply Hin.
  - intros x z'. rewrite Hsm. split.
    + intros (y & k' & n' & [[<- ?]|[Hne Hy]]%lookup_insert_Some & Hx); [simplify_eq|].
      split; [by exists y, k', n'|]. intros [-> Hx'].
      assert (<[a:=mk_block z k true n]> L1 !! y = Some (mk_block z k' false n')) as Hy'
        by by rewrite lookup_insert_ne.
      destruct (wf_disj _ _ Hwf _ _ _ _ Ha' Hy' Hne); simpl in *; lia.
    + intros [(y & k' & n' & Hy & Hx) Hno]. destruct (decide (y = a)) as [->|Hne].
      * simplify_eq. by destruct Hno.
      * exists y, k', n'. by rewrite lookup_insert_ne.
  - intros a' b Hb Hl. apply (sm_alloc _ _ Hsm) in Hl; [|done].
    assert (a' ≠ a) as Hne by (intros ->; by simplify_eq).
    rewrite lookup_insert_ne by done. split; [done|].
    assert (<[a:=mk_block z k true n]> L1 !! a' = Some b) as Hl' by by rewrite lookup_insert_ne.
    destruct (wf_disj _ _ Hwf _ _ _ _ Ha' Hl' ltac:(done)); simpl in *; lia.
  - intros a' b Hb. rewrite lookup_insert_Some. intros [[<- ?]|[_ Hl]] Hne; [done|].
    by apply (sm_alloc _ _ Hsm).
Qed.

(** Taking from a list that is known not to be empty. *)
Lemma take_first h L fl z k rs :
  heap_rep h L fl → fl z k ≠ [] →
  ∃ a n xs h', take_block hhdm z k rs h = Done (a, rs, h') ∧ L !! a = Some (mk_block z k false n) ∧
    heap_rep h' (<[a := mk_block z k true n]> L) (fl_upd z k xs fl).
Proof.
  intros H Hne. destruct (fl z k) as [|a xs] eqn:E; [done|].
  destruct (hr_in_free hhdm h L fl z k a H) as [n Ha]; [rewrite E; set_solver|].
  destruct (take_block_spec hhdm Hh h L fl z k a xs n rs H E Ha) as (h' & ? & ?).
  by exists a, n, xs, h'.
Qed.

Lemma take_handed_out h L L1 fl z k rs :
  heap_rep h L1 fl → same_memory L L1 → fl z k ≠ [] →
  ∃ a h' L' fl', take_block hhdm z k rs h = Done (a, rs, h') ∧ heap_rep h' L' fl' ∧
    handed_out L L' z k a.
Proof.
  intros H Hsm Hne. destruct (take_first h L1 fl z k rs H Hne) as (a & n & xs & h' & Ht & Ha & H').
  exists a, h', (<[a := mk_block z k true n]> L1), (fl_upd z k xs fl).
  split_and!; [done..|]. by exists L1, n.
Qed.

Lemma zone_alloc_outcome h L fl z npages fuel :
  heap_rep h L fl → 0 < npages ≤ 2 ^ 50 → (coalesce_fuel (size L) ≤ fuel)%nat →
  ∃ a sz h' L' fl', zone_alloc hhdm fuel z npages h = Done (a, sz, h') ∧ heap_rep h' L' fl' ∧
    (a = 0 ∧ sz = 0 ∧ same_memory L L' ∧ (size L' ≤ size L)%nat ∧ no_free L z (order_for npages) 16 ∨
     sz = bsize (order_for npages) ∧ order_for npages ≤ 15 ∧
     handed_out L L' z (order_for npages) a).
Proof.
  intros H Hn Hf. pose proof (order_test npages Hn) as Ht.
  pose proof (next_order_spec npages Hn) as [Ho _]. fold (order_for npages) in Ho.
  unfold zone_alloc. fold (order_for npages). rewrite Ht. set (k := order_for npages) in *. clearbody k.
  destruct (Z.ltb_spec 15 k) as [Hk|Hk].
  { exists 0, 0, h, L, fl. split_and!; [done..|left]. split_and!; try done. intros a k' n _. lia. }
  rewrite block_size_eq by lia.
  assert (∀ h1 L1 fl1, heap_rep h1 L1 fl1 → same_memory L L1 → fl1 z k ≠ [] →
    ∃ a sz h' L' fl', take_block hhdm z k (bsize k) h1 = Done (a, sz, h') ∧ heap_rep h' L' fl' ∧
      (a = 0 ∧ sz = 0 ∧ same_memory L L' ∧ (size L' ≤ size L)%nat ∧ no_free L z k 16 ∨
       sz = bsize k ∧ k ≤ 15 ∧ handed_out L L' z k a)) as Htake.
  { intros h1 L1 fl1 H1 Hsm Hne.
    destruct (take_handed_out h1 L L1 fl1 z k (bsize k) H1 Hsm Hne) as (a & h' & L' & fl' & ? & ? & ?).
    exists a, (bsize k), h', L', fl'. auto 6. }
  assert (fl z k = [] → no_free L z (k + 1) 16 → no_free L z k 16) as Hnf.
  { intros E Hno a k' n Ha Hk'. destruct (decide (k' = k)) as [->|].
    - by apply (proj1 (fl_nil_iff hhdm Hh h L fl z k H) E a n).
    - apply (Hno _ _ _ Ha). lia. }
  rewrite (has_pages_spec h fl) by apply (hr_lists _ _ _ _ H).
  case_bool_decide as E; simpl; [|by apply (Htake h L fl)].
  destruct (Z.eqb_spec k max_order) as [Hmax|Hmax]; unfold max_order in *.
  - destruct (coalesce_to_spec hhdm Hh h L fl z 15 fuel H) as (h1 & L1 & fl1 & -> & H1 & Hsm & Hsz); [lia|done|].
    simpl. rewrite (has_pages_spec h1 fl1) by apply (hr_lists _ _ _ _ H1).
    case_bool_decide as E1; simpl; [|by apply (Htake h1 L1 fl1)].
    exists 0, 0, h1, L1, fl1. split_and!; [done..|left]. split_and!; try done.
    apply Hnf; [done|]. intros a k' n _. lia.
  - destruct (split_to_spec hhdm Hh h L fl z k H) as (h1 & L1 & fl1 & -> & H1 & Hsm & Hnil); [lia|].
    simpl. rewrite (has_pages_spec h1 fl1) by apply (hr_lists _ _ _ _ H1).
    case_bool_decide as E1; simpl; [|by apply (Htake h1 L1 fl1)].
    destruct (Hnil E1) as (_ & -> & Hno). destruct (Z.eqb_spec k 0).
    + exists 0, 0, h1, L, fl1. split_and!; [done..|left]. split_and!; try done. by apply Hnf.
    + destruct (coalesce_to_spec hhdm Hh h1 L fl1 z k fuel H1) as (h2 & L2 & fl2 & -> & H2 & Hsm2 & Hsz2); [lia|done|].
      simpl. rewrite (has_pages_spec h2 fl2) by apply (hr_lists _ _ _ _ H2).
      case_bool_decide as E2; simpl; [|by apply (Htake h2 L2 fl2)].
      exists 0, 0, h2, L2, fl2. split_and!; [done..|left]. split_and!; try done. by apply Hnf.
Qed.

(** ** Releasing *)
Lemma in_hhdm L a b : blocks_wf hhdm L → L !! a = Some b → hhdm + 4096 ≤ a < hhdm + 2 ^ 46.
Proof.
  intros Hwf Ha. destruct (wf_ok _ _ Hwf _ _ Ha) as (? & _ & ? & ?). pose proof (bsize_pos (b_order b)). lia.
Qed.

(** The pointer given to [zone_free] is a physical address, or one in the direct map. *)
Lemma page_for_fromhh a : hhdm ≤ a < hhdm + 2 ^ 46 → page_for hhdm (fromhh hhdm a) = page_for hhdm a.
Proof.
  intros Ha. destruct Hh as [Hp Hf _]. unfold page_for, fromhh. destruct (Z.leb_spec hhdm a); [|lia].
  rewrite w64_small by lia. destruct (Z.leb_spec hhdm (a - hhdm)); [lia|done].
Qed.
Lemma tohh_fromhh a : hhdm ≤ a < hhdm + 2 ^ 46 → tohh hhdm (fromhh hhdm a) = a.
Proof.
  intros Ha. destruct Hh as [Hp Hf _]. unfold tohh, fromhh. destruct (Z.leb_spec hhdm a); [|lia].
  rewrite w64_small by lia. destruct (Z.leb_spec hhdm (a - hhdm)); [lia|]. rewrite w64_small; lia.
Qed.

Lemma zone_free_outcome h L fl z a k n npages :
  heap_rep h L fl → 0 < npages ≤ 2 ^ 50 → L !! a = Some (mk_block z k true n) →
  order_for npages = k →
  ∃ h' fl', zone_free hhdm z (fromhh hhdm a) npages h = Done (npages * page_size, h') ∧
    heap_rep h' (<[a := mk_block z k false n]> L) fl'.
Proof.
  intros H Hn Ha Hk. pose proof (hr_wf _ _ _ _ H) as Hwf. pose proof (in_hhdm _ _ _ Hwf Ha) as Hr.
  destruct (wf_ok _ _ Hwf _ _ Ha) as (Hok & _ & _ & Hhi). simpl in *. pose proof (bsize_pos k ltac:(lia)).
  unfold zone_free. fold (order_for npages). rewrite order_test, Hk by done.
  destruct (Z.ltb_spec 15 k); [lia|].
  destruct (release_spec hhdm Hh h L fl z k a n H Ha) as (h' & Hrel & H').
  pose proof (get_page_block hhdm Hh h h L fl a _ H eq_refl Ha) as Hg.
  unfold upd_page, get_page in *. rewrite page_for_fromhh, tohh_fromhh by lia. rewrite Hg in *. simpl in *.
  rewrite Z.eqb_refl. simpl. rewrite Hrel. simpl. exists h', (fl_upd z k (a :: fl z k) fl).
  unfold page_size. rewrite w64_small by lia. done.
Qed.

(** A block that is not in use is not accepted: a double free panics. *)
Lemma zone_free_free h L fl z z' a k n npages :
  heap_rep h L fl → 0 < npages ≤ 2 ^ 50 → L !! a = Some (mk_block z' k false n) →
  order_for npages ≤ 15 → zone_free hhdm z (fromhh hhdm a) npages h = Panic.
Proof.
  intros H Hn Ha Hk. pose proof (hr_wf _ _ _ _ H) as Hwf. pose proof (in_hhdm _ _ _ Hwf Ha) as Hr.
  unfold zone_free. fold (order_for npages). rewrite order_test by done.
  destruct (Z.ltb_spec 15 (order_for npages)); [lia|].
  pose proof (get_page_block hhdm Hh h h L fl a _ H eq_refl Ha) as Hg.
  unfold get_page in *. rewrite page_for_fromhh by lia. rewrite Hg. done.
Qed.

(** ** Adding memory *)
(** No block touches [a .. a + size). *)
Definition unmanaged (L : gmap Z block) (a size : Z) : Prop :=
  ∀ x b, L !! x = Some b → x + bsize (b_order b) ≤ a ∨ a + size ≤ x.
(** The pages of [a .. a + size) have been zeroed. *)
Definition fresh_pages (pgs : gmap Z page) (a size : Z) : Prop :=
  ∀ x, (4096 | x) → a ≤ x < a + size →
    ∃ k, pgs !! PmmBlocks.frame_of hhdm x = Some (mk_page 0 k false).

Lemma unmanaged_not_in h L fl a size z k :
  heap_rep h L fl → unmanaged L a size → 0 < size → a ∉ fl z k.
Proof.
  intros H Hu Hs Hin. destruct (hr_in_free hhdm h L fl z k a H Hin) as [n Ha].
  destruct (wf_ok _ _ (hr_wf _ _ _ _ H) _ _ Ha) as (? & _). simpl in *.
  pose proof (bsize_pos k ltac:(lia)). destruct (Hu _ _ Ha); simpl in *; lia.
Qed.

Lemma lists_rep_set_node h fl a n :
  lists_rep h fl → (∀ z k, a ∉ fl z k) → lists_rep (set_node a n h) fl.
Proof. intros [Hd ? ?] Hn. split; [|done..]. intros z k. apply dll_frame; [apply Hn|apply Hd]. Qed.

Lemma add_block_spec h L fl z k a :
  heap_rep h L fl → block_ok hhdm a (mk_block z k false 0) → unmanaged L a (bsize k) →
  fresh_pages (pages h) a (bsize k) →
  ∃ h' fl', (h1 ← upd_page hhdm (set_order k) a (set_node a (mk_node 0 0) h); put z k a h1) = Done h' ∧
    heap_rep h' (<[a := mk_block z k false 0]> L) fl' ∧
    (∀ i, i ≠ PmmBlocks.frame_of hhdm a → pages h' !! i = pages h !! i).
Proof.
  intros H Hok Hu Hf. pose proof Hok as (Hk & _ & Hlo & Hhi). simpl in *.
  pose proof (bsize_pos k ltac:(lia)) as Hpos. destruct (block_ok_bounds hhdm a _ Hh Hok) as (_ & Hb64 & Hd).
  simpl in Hb64. destruct (Hf a) as [k0 Hk0]; [done|lia|].
  assert (page_for hhdm a = PmmBlocks.frame_of hhdm a) as Hfa by (apply page_for_hh; [done|destruct Hh; lia]).
  assert (∀ z k, a ∉ fl z k) as Hni by (intros; apply (unmanaged_not_in h L fl a (bsize k)); [done|done|lia]).
  unfold upd_page, get_page. simpl. rewrite Hfa, Hk0. simpl. rewrite set_order_small by lia. simpl.
  match goal with |- context [put z k a ?h1] => set (h1' := h1) end.
  destruct (put_spec h1' fl z k a) as (h' & -> & Hp & Hl).
  { apply lists_rep_set_page, lists_rep_set_node; [apply (hr_lists _ _ _ _ H)|done]. }
  { destruct Hh. lia. }
  { done. }
  exists h', (fl_upd z k (a :: fl z k) fl). split; [done|]. split.
  - split.
    + by apply wf_add; [apply H|..].
    + done.
    + rewrite Hp. subst h1'. simpl. intros x b [[<- <-]|[Hne Hx]]%lookup_insert_Some.
      * split; simpl; [by rewrite lookup_insert_eq|]. intros y Hy Hay.
        rewrite lookup_insert_ne by (intros E%frame_of_inj; [lia|done..]).
        destruct (Hf y) as [k1 Hk1]; [done|lia|]. eauto.
      * apply pages_ok_frame; [done|by apply (wf_ok _ _ (hr_wf _ _ _ _ H))|done| |by apply (hr_pages _ _ _ _ H)].
        destruct (Hu _ _ Hx); lia.
    + intros z' k' x. pose proof (hr_free _ _ _ _ H z' k' x) as Hfr. unfold fl_upd.
      destruct (decide (x = a)) as [->|Hxa].
      * rewrite lookup_insert_eq. case_decide; [set_solver|]. split; [|naive_solver].
        intros Hin. by destruct (Hni z' k').
      * rewrite lookup_insert_ne by done. case_decide; [|done]. destruct_and!. subst.
        rewrite elem_of_cons. naive_solver.
  - intros i Hi. rewrite Hp. subst h1'. simpl. by rewrite lookup_insert_ne.
Qed.

Lemma aligned_order_spec base k :
  (4096 | base) → (k ≤ 15)%nat →
  ∃ k', aligned_order base k = Some k' ∧ 0 ≤ k' ≤ Z.of_nat k ∧ (bsize k' | base).
Proof.
  intros Hb. induction k as [|k IH]; intros Hk; cbn [aligned_order]; rewrite block_size_eq by lia.
  - change (bsize (Z.of_nat 0)) with 4096. apply Z.mod_divide in Hb as E; [|done].
    rewrite E. exists 0. by split_and!.
  - pose proof (bsize_pos (Z.of_nat (S k)) ltac:(lia)) as Hp.
    destruct (Z.eqb_spec (base mod bsize (Z.of_nat (S k))) 0) as [E|_].
    + eexists. split; [done|]. split; [lia|]. by apply Z.mod_divide; [lia|].
    + destruct IH as (k' & -> & ? & ?); [lia|]. exists k'. split_and!; (done || lia).
Qed.

Lemma prev_order_spec size :
  4096 ≤ size ≤ 2 ^ 63 → 0 ≤ prev_order_from size ∧ bsize (prev_order_from size) ≤ size.
Proof.
  intros Hs. unfold prev_order_from, page_size. destruct (Z.ltb_spec size 4096); [lia|].
  destruct (pre_pow2_bounds size) as (k & Hk & -> & Hlo & Hhi); [lia|].
  assert (12 ≤ k).
  { destruct (decide (12 ≤ k)); [done|]. pose proof (pow2_le k 11 ltac:(lia) ltac:(lia)). lia. }
  rewrite log2_pow2, s64_w64_small by lia. split; [lia|]. unfold bsize. change 4096 with (2 ^ 12).
  rewrite <-Z.pow_add_r by lia. by replace (12 + (k - 12)) with k by lia.
Qed.

(** The free memory after [added] bytes have been added to zone [z]. *)
Definition extends (L L' : gmap Z block) (z : zone) (base added : Z) : Prop :=
  (∀ a b, b_alloc b = true → L !! a = Some b ↔ L' !! a = Some b) ∧
  ∀ z' x, free_at L' z' x ↔ free_at L z' x ∨ z' = z ∧ base ≤ x < base + added.

Lemma extends_add L a z k s :
  L !! a = None → 0 ≤ k → 0 ≤ s → ∀ L', extends (<[a := mk_block z k false 0]> L) L' z (a + bsize k) s →
  extends L L' z a (bsize k + s).
Proof.
  intros Ha Hk Hs L' [He Hf]. pose proof (bsize_pos k Hk). split.
  - intros x b Hb. rewrite <-He, lookup_insert_Some by done. split; [|naive_solver].
    intros Hx. right. split; [|done]. intros <-. congruence.
  - intros z' x. rewrite Hf. unfold free_at at 1. split.
    + intros [(y & k' & n & [[<- ?]|[Hne Hy]]%lookup_insert_Some & Hx)|[-> Hx]].
      * simplify_eq. right. split; [done|lia].
      * left. by exists y, k', n.
      * right. split; [done|lia].
    + intros [(y & k' & n & Hy & Hx)|[-> Hx]].
      * left. exists y, k', n. rewrite lookup_insert_ne by congruence. done.
      * destruct (decide (x < a + bsize k)); [left|right; split; [done|lia]].
        exists a, k, 0. rewrite lookup_insert_eq. split; [done|lia].
Qed.

Lemma add_range_loop_spec fuel h L fl z base size :
  heap_rep h L fl → (4096 | base) → 0 ≤ size → hhdm + 4096 ≤ base → base + size ≤ hhdm + 2 ^ 46 →
  unmanaged L base size → fresh_pages (pages h) base size → size / 4096 < Z.of_nat fuel →
  ∃ rest h' L' fl', add_range_loop hhdm fuel z base size h = Done (rest, h') ∧ heap_rep h' L' fl' ∧
    rest = size mod 4096 ∧ extends L L' z base (size - rest).
Proof.
  revert h L fl base size. induction fuel as [|fuel IH]; intros h L fl base size H Hb Hs Hlo Hhi Hu Hf Hfu.
  { Z.to_euclidean_division_equations; lia. }
  cbn [add_range_loop]. unfold page_size at 1. destruct (Z.ltb_spec size 4096) as [Hsm|Hsm].
  { exists size, h, L, fl. split_and!; [done..|by rewrite Z.mod_small|].
    split; [done|]. intros. rewrite Z.sub_diag. split; [auto|intros [?|?]; [done|lia]]. }
  destruct (prev_order_spec size) as [Hp0 Hp]; [lia|]. destruct (Z.ltb_spec (prev_order_from size) 0) as [|_]; [lia|].
  destruct (aligned_order_spec base (Z.to_nat (Z.min (prev_order_from size) max_order)) Hb)
    as (k & -> & Hk & Hdk); [unfold max_order; lia|]. unfold max_order in *.
  assert (bsize k ≤ size) as Hbk by (transitivity (bsize (prev_order_from size)); [apply bsize_le; lia|done]).
  pose proof (bsize_pos k ltac:(lia)) as Hbp. pose proof Hh as [Hh1 Hh2 _].
  assert (4096 | bsize k) as Hdb by (apply page_divide_bsize; lia).
  destruct (add_block_spec h L fl z k base H) as (h1 & fl1 & Hadd & H1 & Hpg).
  { unfold block_ok. simpl. split_and!; (done || lia). }
  { intros x b Hx. destruct (Hu x b Hx); lia. }
  { intros x Hx Hin. apply Hf; [done|lia]. }
  apply bind_Done_inv in Hadd as (h0 & -> & Hput). cbn [mbind outcome_bind]. rewrite Hput. cbn [mbind outcome_bind].
  rewrite block_size_eq, !w64_small by lia.
  assert (L !! base = None) as HbN.
  { destruct (L !! base) as [b|] eqn:E; [|done]. destruct (wf_ok _ _ (hr_wf _ _ _ _ H) _ _ E) as (? & _).
    pose proof (bsize_pos (b_order b)). destruct (Hu _ _ E); lia. }
  destruct (IH h1 _ fl1 (base + bsize k) (size - bsize k) H1) as (rest & h' & L' & fl' & -> & H' & Hr & Hext).
  - by apply Z.divide_add_r.
  - lia.
  - lia.
  - lia.
  - intros x b [[<- <-]|[Hne Hx]]%lookup_insert_Some; [simpl; lia|]. destruct (Hu x b Hx); lia.
  - intros x Hx Hin. rewrite Hpg by (intros E%frame_of_inj; [lia|done..]). apply Hf; [done|lia].
  - Z.to_euclidean_division_equations; lia.
  - exists rest, h', L', fl'. split_and!; [done..| |].
    + rewrite Hr. destruct Hdb as [q ->]. rewrite <-(Z.mod_add (size - q * 4096) q) by lia. f_equal. lia.
    + replace (size - rest) with (bsize k + (size - bsize k - rest)) by lia.
      pose proof (Z.mod_pos_bound (size - bsize k) 4096 ltac:(lia)).
      pose proof (Z.mod_le (size - bsize k) 4096 ltac:(lia) ltac:(lia)).
      apply extends_add; [done|lia|lia|done].
Qed.
End spec.

(** ** Properties *)

(** C2: [allocator::alloc] never panics or crashes on a well-formed heap and terminates; it
    returns null only when no free block is large enough, and otherwise an aligned block of
    the next power of two that was free, is disjoint from everything in use, and is the only
    memory that stops being free. *)
Theorem zone_alloc_correct hhdm h L fl z npages fuel :
  hhdm_ok hhdm → heap_rep hhdm h L fl → 0 < npages ≤ 2 ^ 50 →
  (coalesce_fuel (size L) ≤ fuel)%nat →
  ∃ a sz h' L' fl', zone_alloc hhdm fuel z npages h = Done (a, sz, h') ∧ heap_rep hhdm h' L' fl' ∧
    (a = 0 ∧ same_memory L L' ∧ no_free L z (order_for npages) 16 ∨
     a ≠ 0 ∧ npages * page_size ≤ sz < 2 * (npages * page_size) ∧ (sz | a) ∧
     (∀ x, a ≤ x < a + sz → free_at L z x) ∧
     (∀ x z', free_at L' z' x ↔ free_at L z' x ∧ ¬ (z' = z ∧ a ≤ x < a + sz)) ∧
     (∀ a' b, b_alloc b = true → L !! a' = Some b →
        L' !! a' = Some b ∧ (a' + bsize (b_order b) ≤ a ∨ a + sz ≤ a'))).
Proof.
  intros Hh H Hn Hf.
  destruct (zone_alloc_outcome hhdm Hh h L fl z npages fuel H Hn Hf)
    as (a & sz & h' & L' & fl' & Ha & H' & [(-> & -> & Hsm & _ & Hno)|(-> & Hk & Hho)]);
    eexists _, _, h', L', fl'; (split; [exact Ha|]); (split; [done|]); [by left|right].
  pose proof (handed_out_spec hhdm L L' z _ a (hr_wf _ _ _ _ H') Hho) as (Hd & Hfree & Hfree' & Hal & _).
  split; [|split; [apply next_order_spec; lia|by split_and!]].
  destruct Hho as (L1 & n & _ & _ & ->).
  eapply (hr_nonzero hhdm Hh); [done|apply lookup_insert_eq].
Qed.

(** Freeing what was allocated succeeds and restores the free memory and the blocks in
    use; freeing it once more panics. *)
Theorem zone_alloc_free hhdm h L fl z npages fuel a sz h1 :
  hhdm_ok hhdm → heap_rep hhdm h L fl → 0 < npages ≤ 2 ^ 50 →
  (coalesce_fuel (size L) ≤ fuel)%nat →
  zone_alloc hhdm fuel z npages h = Done (a, sz, h1) → a ≠ 0 →
  ∃ h2 L2 fl2, zone_free hhdm z (fromhh hhdm a) npages h1 = Done (npages * page_size, h2) ∧
    heap_rep hhdm h2 L2 fl2 ∧ same_memory L L2 ∧
    zone_free hhdm z (fromhh hhdm a) npages h2 = Panic.
Proof.
  intros Hh H Hn Hf Hz Ha.
  destruct (zone_alloc_outcome hhdm Hh h L fl z npages fuel H Hn Hf)
    as (? & ? & ? & L' & fl' & Hz' & H' & Hcase).
  rewrite Hz in Hz'. injection Hz' as <- <- <-. destruct Hcase as [(-> & _)|(-> & Hk & L1 & n & Hsm & Hl & ->)]; [done|].
  destruct (zone_free_outcome hhdm Hh _ _ _ z a (order_for npages) n npages H' Hn) as (h2 & fl2 & Hfr & H2);
    [apply lookup_insert_eq|done|].
  exists h2, (<[a:=mk_block z (order_for npages) false n]> (<[a:=mk_block z (order_for npages) true n]> L1)), fl2.
  split_and!; [done..| |].
  - by rewrite insert_insert_eq, insert_id.
  - eapply (zone_free_free hhdm Hh); [done|done|apply lookup_insert_eq|done].
Qed.

(** [allocator::add_range] adds exactly the whole pages of the range it is given, when
    they are unmanaged and their page structures are zeroed, and returns the rest. *)
Theorem zone_add_range_correct hhdm h L fl z base size :
  hhdm_ok hhdm → heap_rep hhdm h L fl → zone_start z ≤ base → 0 < size → base + size ≤ zone_end z →
  (4096 | base) → base + size ≤ 2 ^ 46 →
  unmanaged L (hhdm + base) size → fresh_pages hhdm (pages h) (hhdm + base) size →
  ∃ h' L' fl', zone_add_range hhdm z base size h = Done (size mod page_size, h') ∧
    heap_rep hhdm h' L' fl' ∧ extends L L' z (hhdm + base) (size - size mod page_size).
Proof.
  intros Hh H Hs Hsz He Hd Hhi Hu Hf. pose proof Hh as [Hp Hfit Hal].
  assert (4096 ≤ zone_start z) by (by destruct z).
  unfold zone_add_range. rewrite w64_small by lia.
  destruct (Z.ltb_spec base (zone_start z)); [lia|]. destruct (Z.ltb_spec (zone_end z) (base + size)); [lia|].
  simpl. unfold tohh. destruct (Z.leb_spec hhdm base); [lia|]. rewrite w64_small by lia.
  rewrite (Z.add_comm base hhdm).
  destruct (add_range_loop_spec hhdm Hh (S (Z.to_nat (size / page_size))) h L fl z (hhdm + base) size H)
    as (? & h' & L' & fl' & Ha & H' & -> & Hext); try done; try lia.
  - apply Z.divide_add_r; [|done]. etransitivity; [apply (page_divide_bsize 15); lia|done].
  - unfold page_size. rewrite Nat2Z.inj_succ, Z2Nat.id; [lia|]. apply Z.div_pos; lia.
  - by exists h', L', fl'.
Qed.

(** [pmm::free] dispatches to the zone the pointer lies in. *)
Lemma free_in_zone hhdm tp p npages s :
  p ≠ 0 → npages ≠ 0 → initialised s = true → (∀ z, in_range hhdm z p = bool_decide (z = tp)) →
  free hhdm p npages s = free_in hhdm tp p npages s.
Proof.
  intros Hp Hn Hi Hr. unfold free. rewrite Hi, !Hr.
  destruct (Z.eqb_spec npages 0), (Z.eqb_spec p 0); try done. by destruct tp.
Qed.

(** The statistics drift: [pmm::alloc] accounts for the whole power-of-two block, but
    [pmm::free] only for the pages that were asked for, so after an allocation has been
    freed [used] has grown by the difference. *)
Theorem alloc_free_used_drift hhdm s L fl fuel npages clear tp p s1 :
  hhdm_ok hhdm → heap_rep hhdm (hp s) L fl → initialised s = true → tp ≠ Normal →
  0 < npages ≤ 2 ^ 50 → (coalesce_fuel (size L) ≤ fuel)%nat →
  alloc hhdm fuel npages clear tp s = Done (p, s1) →
  (∀ z, in_range hhdm z p = bool_decide (z = tp)) →
  ∃ s2, free hhdm p npages s1 = Done s2 ∧
    used (mem s2) = w64 (used (mem s) + (bsize (order_for npages) - npages * page_size)).
Proof.
  intros Hh H Hi Htp Hn Hf Hal Hr. unfold alloc in Hal. rewrite Hi in Hal.
  destruct (Z.eqb_spec npages 0) as [|_]; [lia|].
  assert (alloc_typed hhdm fuel npages tp s = run_zone_alloc hhdm fuel tp npages s) as Htyp by by destruct tp.
  rewrite Htyp in Hal. unfold run_zone_alloc in Hal. clear Htyp.
  destruct (zone_alloc_outcome hhdm Hh _ L fl tp npages fuel H Hn Hf)
    as (a & ? & h1 & L' & fl' & Hz' & H1 & [(-> & _)|(-> & Hk & L1 & n & Hsm & Hl & ->)]);
    rewrite Hz' in Hal; simpl in Hal; [done|].
  destruct (Z.eqb_spec a 0) as [|Ha]; [done|]. simplify_eq.
  set (k := order_for npages) in *. set (La := <[a:=mk_block tp k true n]> L1) in *.
  assert (La !! a = Some (mk_block tp k true n)) as HLa by apply lookup_insert_eq.
  set (h2 := if clear then set_node a (mk_node 0 0) h1 else h1).
  assert (heap_rep hhdm h2 La fl') as H2.
  { subst h2. destruct clear; [|done]. destruct H1 as [A B C D]. split; [done| |done..].
    apply lists_rep_set_node; [done|]. intros z j Hin. apply D in Hin as [m Hm]. congruence. }
  destruct (zone_free_outcome hhdm Hh h2 La fl' tp a k n npages H2 Hn HLa) as (h3 & fl3 & Hfr & H3); [done|].
  assert (fromhh hhdm a ≠ 0) as Ha0.
  { destruct (in_hhdm hhdm La a _ (hr_wf _ _ _ _ H2) HLa). destruct Hh. unfold fromhh.
    destruct (Z.leb_spec hhdm a); [|lia]. rewrite w64_small; lia. }
  match goal with |- context [free hhdm _ npages ?s'] => set (s1 := s') end.
  assert (hp s1 = h2 ∧ initialised s1 = true ∧
          used (mem s1) = w64 (used (mem s) + bsize k)) as (Hs1 & Hs2 & Hs3) by by destruct clear.
  rewrite (free_in_zone hhdm tp) by (done || lia). unfold free_in. rewrite Hs1, Hfr. simpl.
  eexists. split; [done|]. transitivity (w64 (used (mem s1) + - (npages * page_size))); [done|].
  rewrite Hs3. unfold w64. rewrite Zplus_mod_idemp_l. f_equal. unfold k, page_size. lia.
Qed.

(** ** Witnesses: a heap with one free block of four pages *)
Definition ex_hhdm : Z := 2 ^ 63.
Definition ex_addr : Z := ex_hhdm + 0x4000.
Definition ex_lists : flists := λ z k, if decide (z = Sub1mib ∧ k = 2) then [ex_addr] else [].
Definition ex_heap : heap := mk_heap
  (λ z k, if decide (z = Sub1mib ∧ k = 2) then ex_addr else 0)
  {[ ex_addr := mk_node 0 0 ]}
  (list_to_map [(4, mk_page 0 2 false); (5, mk_page 0 0 false); (6, mk_page 0 0 false);
                (7, mk_page 0 0 false); (8, mk_page 0 0 false); (9, mk_page 0 0 false);
                (10, mk_page 0 0 false)]).
Definition ex_blocks : gmap Z block := {[ ex_addr := mk_block Sub1mib 2 false 0 ]}.

Lemma ex_hhdm_ok : hhdm_ok ex_hhdm.
Proof. split; [vm_compute; congruence|vm_compute; congruence|]. exists (2 ^ 36). reflexivity. Qed.

Lemma ex_page_cases x n :
  (4096 | x) → ex_addr ≤ x < ex_addr + n * 4096 → 0 ≤ n → ∃ i, x = ex_hhdm + 4096 * i ∧ 4 ≤ i < 4 + n.
Proof.
  unfold ex_addr. intros [q ->] Hx Hn. exists (q - 2 ^ 51). unfold ex_hhdm in *. lia.
Qed.
Lemma ex_frame i : PmmBlocks.frame_of ex_hhdm (ex_hhdm + 4096 * i) = i.
Proof.
  unfold PmmBlocks.frame_of. replace (ex_hhdm + 4096 * i - ex_hhdm) with (i * 4096) by lia.
  by rewrite Z.div_mul.
Qed.

Lemma ex_rep : heap_rep ex_hhdm ex_heap ex_blocks ex_lists.
Proof.
  assert (∀ a b, ex_blocks !! a = Some b → a = ex_addr ∧ b = mk_block Sub1mib 2 false 0) as Hinv
    by (unfold ex_blocks; intros a b [<- <-]%lookup_singleton_Some; done).
  split.
  - split.
    + intros a b [-> ->]%Hinv. unfold block_ok. simpl.
      split_and!; try (vm_compute; congruence). exists (2 ^ 49 + 1). reflexivity.
    + intros a b [-> ->]%Hinv. by left.
    + intros a1 b1 a2 b2 [-> _]%Hinv [-> _]%Hinv. done.
  - split; unfold ex_lists.
    + intros z k. unfold ex_heap. simpl. case_decide; [|by exists 0]. exists ex_addr. simpl.
      split_and!; try done. exists 0. split; [|done]. reflexivity.
    + intros z k. case_decide; [apply NoDup_singleton|apply NoDup_nil_2].
    + intros z k z' k' a. repeat case_decide; set_solver.
  - intros a b [-> ->]%Hinv. split; [reflexivity|]. intros x Hx Hr. simpl in Hr.
    destruct (ex_page_cases x 4 Hx) as (i & -> & Hi); [change (bsize 2) with (4 * 4096) in Hr; lia|lia|].
    rewrite ex_frame. assert (i = 4 ∨ i = 5 ∨ i = 6 ∨ i = 7) as [->|[->|[->| ->]]] by lia; by eexists.
  - intros z k a. unfold ex_lists, ex_blocks.
    case_decide as E.
    + destruct E as [-> ->]. rewrite list_elem_of_singleton. split.
      * intros ->. exists 0. apply lookup_singleton_eq.
      * by intros [n [<- _]%lookup_singleton_Some].
    + split; [by intros ?%not_elem_of_nil|]. intros [n [_ [= <- <-]]%lookup_singleton_Some]. naive_solver.
Qed.

Lemma ex_fuel : (coalesce_fuel (size ex_blocks) ≤ 5)%nat.
Proof. unfold ex_blocks. rewrite map_size_singleton. done. Qed.
Lemma ex_alloc_computes : ∃ h', zone_alloc ex_hhdm 5 Sub1mib 3 ex_heap = Done (ex_addr, 16384, h').
Proof. eexists. vm_compute. reflexivity. Qed.

Lemma zone_alloc_correct_witness :
  ∃ h' L' fl', zone_alloc ex_hhdm 5 Sub1mib 3 ex_heap = Done (ex_addr, 16384, h') ∧
    heap_rep ex_hhdm h' L' fl' ∧ (∀ x, ex_addr ≤ x < ex_addr + 16384 → free_at ex_blocks Sub1mib x).
Proof.
  destruct ex_alloc_computes as [h1 E].
  destruct (zone_alloc_correct ex_hhdm ex_heap ex_blocks ex_lists Sub1mib 3 5)
    as (a & sz & h' & L' & fl' & Ha & H' & Hcase); [exact ex_hhdm_ok|exact ex_rep|lia|exact ex_fuel|].
  rewrite E in Ha. injection Ha as <- <- <-. exists h1, L', fl'. split; [exact E|]. split; [exact H'|].
  destruct Hcase as [[Hz _]|(_ & _ & _ & Hfree & _)]; [discriminate Hz|exact Hfree].
Defined.

Lemma zone_alloc_free_witness :
  ∃ h1 h2 L2 fl2, zone_alloc ex_hhdm 5 Sub1mib 3 ex_heap = Done (ex_addr, 16384, h1) ∧
    zone_free ex_hhdm Sub1mib 0x4000 3 h1 = Done (12288, h2) ∧ heap_rep ex_hhdm h2 L2 fl2 ∧
    same_memory ex_blocks L2 ∧ zone_free ex_hhdm Sub1mib 0x4000 3 h2 = Panic.
Proof.
  destruct ex_alloc_computes as [h1 E].
  destruct (zone_alloc_free ex_hhdm ex_heap ex_blocks ex_lists Sub1mib 3 5 ex_addr 16384 h1)
    as (h2 & L2 & fl2 & Hf & H2 & Hsm & Hp);
    [exact ex_hhdm_ok|exact ex_rep|lia|exact ex_fuel|exact E|discriminate|].
  exists h1, h2, L2, fl2. split_and!; [exact E|exact Hf|exact H2|exact Hsm|exact Hp].
Defined.

Lemma zone_add_range_correct_witness :
  ∃ h' L' fl', zone_add_range ex_hhdm Sub1mib 0x8000 0x2001 ex_heap = Done (1, h') ∧
    heap_rep ex_hhdm h' L' fl' ∧ extends ex_blocks L' Sub1mib (ex_hhdm + 0x8000) 0x2000.
Proof.
  apply (zone_add_range_correct ex_hhdm ex_heap ex_blocks ex_lists Sub1mib 0x8000 0x2001);
    [exact ex_hhdm_ok|exact ex_rep|vm_compute; congruence|lia|vm_compute; congruence|by exists 8|lia| |].
  - unfold ex_blocks. intros a b [<- <-]%lookup_singleton_Some. left. vm_compute. congruence.
  - intros x Hx Hr. destruct (ex_page_cases x 7 Hx) as (i & -> & Hi); [unfold ex_addr; lia|lia|].
    unfold ex_hhdm in Hr.
    rewrite ex_frame. assert (i = 8 ∨ i = 9 ∨ i = 10) as [->|[->| ->]] by lia; by eexists.
Defined.

Definition ex_pmm : pmm :=
  mk_pmm ex_heap (mk_memory 0x10000 0x10000 0 0 0x10000 0) true true word_max (mk_memmap 0 0 MUsable) [].
Lemma ex_pmm_alloc : ∃ s1, alloc ex_hhdm 5 3 true Sub1mib ex_pmm = Done (0x4000, s1).
Proof. eexists. vm_compute. reflexivity. Qed.

Lemma alloc_free_used_drift_witness :
  ∃ s1 s2, alloc ex_hhdm 5 3 true Sub1mib ex_pmm = Done (0x4000, s1) ∧
    free ex_hhdm 0x4000 3 s1 = Done s2 ∧ used (mem ex_pmm) = 0 ∧ used (mem s2) = 4096.
Proof.
  destruct ex_pmm_alloc as [s1 E].
  destruct (alloc_free_used_drift ex_hhdm ex_pmm ex_blocks ex_lists 5 3 true Sub1mib 0x4000 s1)
    as (s2 & Hf & Hu); [exact ex_hhdm_ok|exact ex_rep|done|done|lia|exact ex_fuel|exact E|by intros []|].
  exists s1, s2. split_and!; [exact E|exact Hf|done|exact Hu].
Defined.
