(* ===== verification/Frames.v ===== *)
(** The interface between the physical memory manager and its clients (page tables,
    memory objects): frames that are handed out are aligned, non-null and not in use.
    The buddy allocators of [Pmm.v] implement it once they are initialised. *)

From S2P Require Import Prelude Math Pmm PmmLists PmmBlocks PmmAlloc PmmZone PmmSpec.

(** [pmm::alloc(npages, clear, type)] and [pmm::free(ptr, npages)]. *)
Class FrameAllocator (St : Type) := {
  fa_alloc : zone → Z → bool → St → outcome (Z * St);
  fa_free : Z → Z → St → outcome St }.

(** [fa_inv s U]: a state in which the physical addresses [U] are in use. *)
Class FrameAllocatorLaws (St : Type) `{FrameAllocator St} := {
  fa_inv : St → (Z → Prop) → Prop;
  fa_alloc_spec s U tp n c :
    fa_inv s U → 0 < n ≤ 2 ^ 15 →
    fa_alloc tp n c s = Panic ∨
    ∃ p s' U', fa_alloc tp n c s = Done (p, s') ∧ fa_inv s' U' ∧
      0 < p ∧ p + n * 4096 ≤ 2 ^ 46 ∧ (4096 | p) ∧
      (∀ x, U x → U' x) ∧ (∀ x, p ≤ x < p + n * 4096 → ¬ U x ∧ U' x) }.

(** ** The physical memory manager *)
Section instance.
Context (hhdm : Z) (Hh : hhdm_ok hhdm).

Definition pmm_fuel (s : pmm) : nat := coalesce_fuel (size (pages (hp s))).

Definition pmm_alloc_fueled (tp : zone) (n : Z) (c : bool) (s : pmm) : outcome (Z * pmm) :=
  alloc hhdm (pmm_fuel s) n c tp s.
Definition pmm_free (p n : Z) (s : pmm) : outcome pmm := free hhdm p n s.

(** Physical addresses inside blocks that are handed out. *)
Definition used_at (L : gmap Z block) (x : Z) : Prop :=
  ∃ a b, L !! a = Some b ∧ b_alloc b = true ∧ a ≤ hhdm + x < a + bsize (b_order b).

Definition pmm_inv (s : pmm) (U : Z → Prop) : Prop :=
  ∃ L fl, heap_rep hhdm (hp s) L fl ∧ initialised s = true ∧ bs_idx s = word_max ∧
    ∀ x, U x ↔ used_at L x.

Lemma size_blocks h L fl : heap_rep hhdm h L fl → (size L ≤ size (pages h))%nat.
Proof.
  intros H. rewrite <-!(size_dom (D := gset Z)).
  assert (NoDup (PmmBlocks.frame_of hhdm <$> elements (dom L))) as Hnd.
  { apply NoDup_fmap_2_strong; [|apply NoDup_elements]. intros a a'.
    rewrite !elem_of_elements, !elem_of_dom. intros [b Hb] [b' Hb'].
    apply frame_of_inj; [done|..];
      eapply (block_ok_bounds hhdm _ _ Hh), (wf_ok _ _ (hr_wf _ _ _ _ H)); eauto. }
  pose proof (size_list_to_set (C := gset Z) _ Hnd) as Hs.
  rewrite length_fmap in Hs. unfold size at 1, set_size. simpl. rewrite <-Hs.
  apply subseteq_size. intros i. rewrite elem_of_list_to_set, list_elem_of_fmap, elem_of_dom.
  intros (a & -> & [b Hb]%elem_of_elements%elem_of_dom).
  destruct (hr_pages _ _ _ _ H _ _ Hb) as [-> _]. eauto.
Qed.

Lemma heap_rep_clear h L fl a b :
  heap_rep hhdm h L fl → L !! a = Some b → b_alloc b = true →
  heap_rep hhdm (set_node a (mk_node 0 0) h) L fl.
Proof.
  intros H Hb Hal. pose proof H as [A B C D]. split; [done| |done..].
  apply lists_rep_set_node; [done|]. intros z k Hin. apply D in Hin as [n Hn]. by simplify_eq.
Qed.

(** A block handed out by one of the zones satisfies the interface. *)
Lemma handed_out_used L L' h' fl' z n a :
  heap_rep hhdm h' L' fl' → 0 < n ≤ 2 ^ 15 → handed_out L L' z (order_for n) a →
  L' !! a = Some (mk_block z (order_for n) true (b_next (default (mk_block z 0 true 0) (L' !! a)))) ∧
  let p := fromhh hhdm a in
  0 < p ∧ p + n * 4096 ≤ 2 ^ 46 ∧ (4096 | p) ∧
  (∀ x, used_at L x → used_at L' x) ∧ (∀ x, p ≤ x < p + n * 4096 → ¬ used_at L x ∧ used_at L' x).
Proof.
  intros H' Hn Hho. pose proof (hr_wf _ _ _ _ H') as Hwf.
  destruct (handed_out_spec hhdm L L' z _ a Hwf Hho) as (_ & _ & _ & Hal & _).
  destruct Hho as (L1 & m & Hsm & Ha & ->).
  set (k := order_for n) in *. rewrite lookup_insert_eq. split; [done|].
  set (b := mk_block z k true m) in *. set (L' := <[a:=b]> L1) in *.
  assert (L' !! a = Some b) as Hb by apply lookup_insert_eq.
  pose proof (next_order_spec n ltac:(lia)) as [_ Hsz]. fold (order_for n) in Hsz. fold k in Hsz.
  destruct (block_ok_bounds hhdm a b Hh (wf_ok _ _ Hwf _ _ Hb)) as (_ & _ & Hd).
  destruct (wf_ok _ _ Hwf _ _ Hb) as (Hk & _ & Hlo & Hhi). simpl in *. pose proof Hh as [Hp Hf Hhd].
  assert (fromhh hhdm a = a - hhdm) as ->.
  { unfold fromhh. destruct (Z.leb_spec hhdm a); [|lia]. rewrite w64_small; lia. }
  assert (4096 | hhdm) by (etransitivity; [apply (page_divide_bsize 15); lia|done]).
  split_and!; [lia|lia|by apply Z.divide_sub_r| |].
  - intros x (a' & b' & Hl & Hb' & Hx). destruct (Hal _ _ Hb' Hl) as [Hl' _]. by exists a', b'.
  - intros x Hx. split; [|exists a, b; split_and!; simpl; done || lia].
    intros (a' & b' & Hl & Hb' & Hx'). destruct (Hal _ _ Hb' Hl) as [_ [?|?]]; lia.
Qed.

Lemma run_zone_alloc_spec s L fl z n fuel :
  heap_rep hhdm (hp s) L fl → 0 < n ≤ 2 ^ 15 → (coalesce_fuel (size L) ≤ fuel)%nat →
  ∃ a sz h' L' fl', run_zone_alloc hhdm fuel z n s = Done (a, sz, set_hp h' s) ∧
    heap_rep hhdm h' L' fl' ∧
    (a = 0 ∧ same_memory L L' ∧ (size L' ≤ size L)%nat ∨
     a ≠ 0 ∧ handed_out L L' z (order_for n) a).
Proof.
  intros H Hn Hf.
  destruct (zone_alloc_outcome hhdm Hh (hp s) L fl z n fuel H) as
    (a & sz & h' & L' & fl' & Hz & H' & Hcase); [lia|done|].
  unfold run_zone_alloc. rewrite Hz. simpl. exists a, sz, h', L', fl'. split_and!; [done..|].
  destruct Hcase as [(-> & -> & Hsm & Hsz & _)|(-> & Hk & Hho)]; [by left|right].
  split; [|done]. pose proof Hho as (L1 & m & _ & _ & ->).
  eapply (hr_nonzero hhdm Hh); [done|apply lookup_insert_eq].
Qed.

(** With the bootstrap allocator retired, [alloc_typed] tries one or two zones. *)
Lemma alloc_typed_spec s L fl tp n fuel :
  heap_rep hhdm (hp s) L fl → 0 < n ≤ 2 ^ 15 → (coalesce_fuel (size L) ≤ fuel)%nat →
  bs_idx s = word_max →
  ∃ a sz h' L' fl' z, alloc_typed hhdm fuel n tp s = Done (a, sz, set_hp h' s) ∧
    heap_rep hhdm h' L' fl' ∧ (a = 0 ∨ a ≠ 0 ∧ handed_out L L' z (order_for n) a).
Proof.
  intros H Hn Hf Hbs.
  assert (∀ z, ∃ a sz h' L' fl' z', run_zone_alloc hhdm fuel z n s = Done (a, sz, set_hp h' s) ∧
    heap_rep hhdm h' L' fl' ∧ (a = 0 ∨ a ≠ 0 ∧ handed_out L L' z' (order_for n) a)) as Hone.
  { intros z. destruct (run_zone_alloc_spec s L fl z n fuel H Hn Hf) as
      (a & sz & h' & L' & fl' & Hz & H' & Hcase).
    exists a, sz, h', L', fl', z. split_and!; [done..|]. naive_solver. }
  destruct tp; simpl; [apply Hone..|].
  destruct (run_zone_alloc_spec s L fl Normal n fuel H Hn Hf) as
    (a & sz & h' & L' & fl' & -> & H' & [(-> & Hsm & Hsz)|[Ha Hho]]); simpl.
  - rewrite Hbs. simpl.
    destruct (run_zone_alloc_spec (set_hp h' s) L' fl' Sub4gib n fuel H' Hn) as
      (a & sz2 & h2 & L2 & fl2 & Hz2 & H2 & Hcase); [unfold coalesce_fuel in *; nia|].
    rewrite Hz2. exists a, sz2, h2, L2, fl2, Sub4gib. split_and!; [done..|].
    destruct Hcase as [(-> & _)|(Ha & L3 & m & Hsm3 & ? & ?)]; [by left|right].
    split; [done|]. exists L3, m. split_and!; [by etransitivity|done..].
  - destruct (Z.eqb_spec a 0); [done|]. simpl. destruct (Z.eqb_spec a 0); [done|].
    exists a, sz, h', L', fl', Normal. split_and!; [done..|by right].
Qed.

Lemma pmm_alloc_spec s U tp n c :
  pmm_inv s U → 0 < n ≤ 2 ^ 15 →
  pmm_alloc_fueled tp n c s = Panic ∨
  ∃ p s' U', pmm_alloc_fueled tp n c s = Done (p, s') ∧ pmm_inv s' U' ∧
    0 < p ∧ p + n * 4096 ≤ 2 ^ 46 ∧ (4096 | p) ∧
    (∀ x, U x → U' x) ∧ (∀ x, p ≤ x < p + n * 4096 → ¬ U x ∧ U' x).
Proof.
  intros (L & fl & H & Hi & Hbs & HU) Hn. pose proof (size_blocks _ _ _ H) as Hsz.
  unfold pmm_alloc_fueled, alloc. destruct (Z.eqb_spec n 0) as [|_]; [lia|]. rewrite Hi.
  destruct (alloc_typed_spec s L fl tp n (pmm_fuel s)) as
    (a & sz & h' & L' & fl' & z & -> & H' & Hcase); [done|done|unfold pmm_fuel, coalesce_fuel; nia|done|].
  simpl. destruct (Z.eqb_spec a 0) as [|Ha]; [by left|right].
  destruct Hcase as [?|[_ Hho]]; [done|].
  destruct (handed_out_used L L' h' fl' z n a H' Hn Hho) as (Hl & Hp & Hhi & Hd & Hmono & Hnew).
  set (h2 := if c then set_node a (mk_node 0 0) h' else h').
  assert (heap_rep hhdm h2 L' fl') as H2 by (subst h2; destruct c; [by eapply heap_rep_clear|done]).
  eexists _, _, (used_at L'). split; [done|]. split_and!; try done.
  - exists L', fl'. destruct c; by split_and!.
  - intros x Hx. by apply Hmono, HU.
  - intros x Hx. rewrite HU. by apply Hnew.
Qed.
End instance.

(** The instance for a fixed direct map. *)
Definition pmm_allocator (hhdm : Z) : FrameAllocator pmm :=
  {| fa_alloc := pmm_alloc_fueled hhdm; fa_free := pmm_free hhdm |}.
Definition pmm_laws (hhdm : Z) (Hh : hhdm_ok hhdm) : @FrameAllocatorLaws pmm (pmm_allocator hhdm) :=
  @Build_FrameAllocatorLaws pmm (pmm_allocator hhdm) (pmm_inv hhdm) (pmm_alloc_spec hhdm Hh).

(** ** A bump allocator, the instance examples are run with *)
Definition bump_alloc (tp : zone) (n : Z) (c : bool) (s : Z) : outcome (Z * Z) :=
  if s + n * 4096 <=? 2 ^ 46 then Done (s, s + n * 4096) else Panic.
#[export] Instance bump_allocator : FrameAllocator Z :=
  {| fa_alloc := bump_alloc; fa_free _ _ s := Done s |}.
Definition bump_inv (s : Z) (U : Z → Prop) : Prop := 0 < s ∧ (4096 | s) ∧ ∀ x, U x ↔ x < s.
Lemma bump_alloc_spec s U tp n c :
  bump_inv s U → 0 < n ≤ 2 ^ 15 →
  bump_alloc tp n c s = Panic ∨
  ∃ p s' U', bump_alloc tp n c s = Done (p, s') ∧ bump_inv s' U' ∧
    0 < p ∧ p + n * 4096 ≤ 2 ^ 46 ∧ (4096 | p) ∧
    (∀ x, U x → U' x) ∧ (∀ x, p ≤ x < p + n * 4096 → ¬ U x ∧ U' x).
Proof.
  intros (Hs & Hd & HU) Hn. unfold bump_alloc. destruct (Z.leb_spec (s + n * 4096) (2 ^ 46)); [right|by left].
  exists s, (s + n * 4096), (λ x, x < s + n * 4096). split; [done|]. split.
  - split; [lia|]. split; [|done]. apply Z.divide_add_r; [done|]. by exists n.
  - split_and!; try done; intros x; rewrite HU; lia.
Qed.
#[export] Instance bump_laws : FrameAllocatorLaws Z :=
  {| fa_inv := bump_inv; fa_alloc_spec := bump_alloc_spec |}.
