(* ===== verification/Pagemap.v ===== *)
(** system.memory.virt:pagemap (kernel/source/system/memory/pagemap.cpp, the x86_64 part
    in kernel/source/arch/x86_64/system/pagemap.cpp and the entry accessor of
    pagemap.cppm): four-level page tables.

    Tables are stored under their address in the direct map; an entry is referenced by its
    table and index.  New tables come from a [FrameAllocator]. *)

From S2P Require Import Prelude Math Pmm Frames.

Inductive caching :=
| uncacheable | uncacheable_strong | write_through | write_protected | write_combining
| write_back | device.
#[export] Instance caching_eq_dec : EqDecision caching.
Proof. solve_decision. Defined.

(** [enum class pflag]: a set of bits. *)
Definition pf_none : Z := 0.
Definition pf_read : Z := 1.
Definition pf_write : Z := 2.
Definition pf_exec : Z := 4.
Definition pf_user : Z := 8.
Definition pf_global : Z := 16.

Inductive psize := small | medium | large.
#[export] Instance psize_eq_dec : EqDecision psize.
Proof. solve_decision. Defined.
(** [std::to_underlying] *)
Definition psize_num (p : psize) : Z := match p with small => 0 | medium => 1 | large => 2 end.

Inductive error := addr_not_aligned | addr_in_use | not_mapped | invalid_entry.
#[export] Instance error_eq_dec : EqDecision error.
Proof. solve_decision. Defined.

(** ** The entry accessor *)
Definition pa_mask : Z := 0x000FFFFFFFFFF000.
Definition getaddr (v : Z) : Z := Z.land v pa_mask.
Definition setaddr (paddr v : Z) : Z := Z.lor (Z.land v (wnot64 pa_mask)) (Z.land paddr pa_mask).
Definition setflags (aflags : Z) (enabled : bool) (v : Z) : Z :=
  if enabled then Z.lor v aflags else Z.land v (wnot64 aflags).
Definition hasflags (aflags v : Z) : bool := Z.land v aflags =? aflags.
Definition getflags (v : Z) : Z := Z.land v (wnot64 pa_mask).
Definition clearflags (v : Z) : Z := Z.land v pa_mask.

(** ** Architecture *)
Definition f_present : Z := Z.shiftl 1 0.
Definition f_write : Z := Z.shiftl 1 1.
Definition f_user : Z := Z.shiftl 1 2.
Definition f_pwt : Z := Z.shiftl 1 3.
Definition f_pcd : Z := Z.shiftl 1 4.
Definition f_lpages : Z := Z.shiftl 1 7.
Definition f_pat : Z := Z.shiftl 1 7.
Definition f_global : Z := Z.shiftl 1 8.
Definition f_lpat : Z := Z.shiftl 1 12.
Definition f_no_exec : Z := Z.shiftl 1 63.

Definition valid_table_flags : Z := f_present.
Definition new_table_flags : Z := Z.lor (Z.lor f_present f_write) f_user.

Definition is_canonical (addr : Z) : bool := (addr <? 0x0000800000000000) || (0xFFFF800000000000 <=? addr).

Definition page_sizes (p : psize) : Z :=
  match p with small => kib 4 | medium => mib 2 | large => gib 1 end.
Definition from_page_size : psize → Z := page_sizes.
Definition max_page_size (size : Z) : psize :=
  if page_sizes large <? size then large else if page_sizes medium <? size then medium else small.

(** The overload with an address reduces the size until it divides the address. *)
Fixpoint reduce_page_size (n : nat) (addr : Z) (ret : psize) : psize :=
  match n with
  | O => ret
  | S n =>
      match ret with
      | small => small
      | large => if addr mod from_page_size large =? 0 then large else reduce_page_size n addr medium
      | medium => if addr mod from_page_size medium =? 0 then medium else reduce_page_size n addr small
      end
  end.
Definition max_page_size_at (addr size : Z) : psize := reduce_page_size 3 addr (max_page_size size).

Definition flag_if (c : bool) (f ret : Z) : Z := if c then Z.lor ret f else ret.
Definition to_arch (flags : Z) (cache : caching) (ps : psize) : Z :=
  let ret := flag_if (negb (Z.land flags pf_read =? pf_none)) f_present 0 in
  let ret := flag_if (negb (Z.land flags pf_write =? pf_none)) f_write ret in
  let ret := flag_if (negb (Z.land flags pf_user =? pf_none)) f_user ret in
  let ret := flag_if (negb (Z.land flags pf_global =? pf_none)) f_global ret in
  let ret := flag_if (Z.land flags pf_exec =? pf_none) f_no_exec ret in
  let ret := flag_if (negb (bool_decide (ps = small))) f_lpages ret in
  let pat := if bool_decide (ps = small) then f_pat else f_lpat in
  match cache with
  | uncacheable => Z.lor ret f_pcd
  | uncacheable_strong | device => Z.lor ret (Z.lor f_pcd f_pwt)
  | write_through => Z.lor ret f_pwt
  | write_protected => Z.lor ret pat
  | write_combining => Z.lor ret (Z.lor pat f_pwt)
  | write_back => ret
  end.

Definition bit_of (flags f : Z) : bool := negb (Z.land flags f =? 0).
Definition from_arch (flags : Z) (ps : psize) : Z * caching :=
  let ret := pf_exec in
  let ret := flag_if (bit_of flags f_present) pf_read ret in
  let ret := flag_if (bit_of flags f_write) pf_write ret in
  let ret := flag_if (bit_of flags f_user) pf_user ret in
  let ret := flag_if (bit_of flags f_global) pf_global ret in
  let ret := if bit_of flags f_no_exec then Z.land ret (Z.lnot pf_exec) else ret in
  let is_pat := if bool_decide (ps = small) then bit_of flags f_pat else bit_of flags f_lpat in
  let is_pcd := bit_of flags f_pcd in
  let is_pwt := bit_of flags f_pwt in
  (ret,
   if negb is_pat && negb is_pcd && negb is_pwt then write_back
   else if negb is_pat && negb is_pcd && is_pwt then write_through
   else if negb is_pat && is_pcd && negb is_pwt then uncacheable
   else if negb is_pat && is_pcd && is_pwt then uncacheable_strong
   else if is_pat && negb is_pcd && negb is_pwt then write_protected
   else if is_pat && negb is_pcd && is_pwt then write_combining
   else write_back).

#[global] Arguments setflags : simpl never.
#[global] Arguments setaddr : simpl never.

(** ** Page maps *)
(** A [table] that has been cleared. *)
Definition empty_table : list Z := replicate 512 0.
#[global] Arguments empty_table : simpl never.
Record entry_ref := mk_ref { er_table : Z; er_idx : Z }.

Section pagemap.
Context `{FrameAllocator St} (hhdm : Z).
(** [arch::large_pages] (1 GiB pages are supported) and [pagemap_use_lowmem]. *)
Context (large_pages use_lowmem : bool).

Record pagemaps := mk_pagemaps { tables : gmap Z (list Z); frames : St }.

Definition rd (r : entry_ref) (s : pagemaps) : outcome Z :=
  deref (tables s !! er_table r ≫= λ es, es !! Z.to_nat (er_idx r)).
Definition wr (r : entry_ref) (v : Z) (s : pagemaps) : outcome pagemaps :=
  es ← deref (tables s !! er_table r);
  if er_idx r <? Z.of_nat (length es) then
    Done (mk_pagemaps (<[er_table r := <[Z.to_nat (er_idx r) := v]> es]> (tables s)) (frames s))
  else Crash.

Definition new_table (s : pagemaps) : outcome (Z * pagemaps) :=
  '(p, f) ← fa_alloc (if use_lowmem then Sub4gib else Normal) 1 true (frames s);
  Done (p, mk_pagemaps (<[tohh hhdm p := empty_table]> (tables s)) f).
Definition free_table (ptr : Z) (s : pagemaps) : outcome pagemaps :=
  f ← fa_free ptr 1 (frames s); Done (mk_pagemaps (delete (tohh hhdm ptr) (tables s)) f).

Definition fixpsize (ps : psize) : psize :=
  if bool_decide (ps = large) && negb large_pages then medium else ps.

(** The null pointer is 0. *)
Definition getlvl (r : entry_ref) (allocate : bool) (s : pagemaps) : outcome (Z * pagemaps) :=
  v ← rd r s;
  let addr := getaddr v in
  if hasflags valid_table_flags v && is_canonical addr then Done (tohh hhdm addr, s)
  else if negb allocate then Done (0, s)
  else
    '(ret, s) ← new_table s;
    s ← wr r (setflags new_table_flags true (setaddr ret 0)) s;
    Done (tohh hhdm ret, s).

Definition levels : Z := 4.
Definition shift_start : Z := 12 + (levels - 1) * 9.
Definition pt_index (vaddr shift : Z) : Z := Z.land (Z.shiftr vaddr shift) 511.

(** The loop of [getpte] with [n] iterations left; leaving it is [std::unreachable]. *)
Fixpoint getpte_loop (n : nat) (i retidx shift pml vaddr : Z) (allocate : bool) (s : pagemaps)
    : outcome (expected error entry_ref * pagemaps) :=
  match n with
  | O => Crash
  | S n =>
      let entry := mk_ref pml (pt_index vaddr shift) in
      if i =? retidx then Done (Value entry, s) else
      '(pml, s) ← getlvl entry allocate s;
      if pml =? 0 then Done (Unexpected invalid_entry, s)
      else getpte_loop n (i + 1) retidx (shift - 9) pml vaddr allocate s
  end.

(** [table] is the member [_table], a physical address. *)
Definition getpte (table vaddr : Z) (ps : psize) (allocate : bool) (s : pagemaps)
    : outcome (expected error entry_ref * pagemaps) :=
  getpte_loop 4 0 (levels - psize_num ps - 1) shift_start (tohh hhdm table) vaddr allocate s.

(** A loop [for (i = 0; i < length; i += npsize)] whose body may return an error; the counter
    has 64 bits. *)
Fixpoint page_loop (fuel : nat) (i length npsize : Z)
    (body : Z → pagemaps → outcome (expected error unit * pagemaps)) (s : pagemaps)
    : outcome (expected error unit * pagemaps) :=
  match fuel with
  | O => NoFuel
  | S fuel =>
      if length <=? i then Done (Value (), s) else
      '(r, s) ← body i s;
      match r with
      | Unexpected e => Done (Unexpected e, s)
      | Value _ => page_loop fuel (w64 (i + npsize)) length npsize body s
      end
  end.
Definition loop_fuel (length npsize : Z) : nat := S (S (Z.to_nat (length / npsize))).

(** Body of the loop that undoes a failed [map]. *)
Definition rollback_step (table vaddr : Z) (ps : psize) (ii : Z) (s : pagemaps)
    : outcome (expected error unit * pagemaps) :=
  '(ret1, s) ← getpte table (w64 (vaddr + ii)) ps true s;
  match ret1 with
  | Unexpected e => Done (Unexpected e, s)
  | Value pte => s ← wr pte 0 s; Done (Value (), s)
  end.

Definition map_step (table vaddr paddr npsize aflags : Z) (ps : psize) (i : Z) (s : pagemaps)
    : outcome (expected error unit * pagemaps) :=
  '(ret, s) ← getpte table (w64 (vaddr + i)) ps true s;
  match ret with
  | Unexpected e =>
      '(r, s) ← page_loop (loop_fuel i npsize) 0 i npsize (rollback_step table vaddr ps) s;
      Done (Unexpected (match r with Unexpected e1 => e1 | Value _ => e end), s)
  | Value pte =>
      s ← wr pte (setflags aflags true (setaddr (w64 (paddr + i)) 0)) s; Done (Value (), s)
  end.

Definition map (table vaddr paddr length flags : Z) (ps : psize) (cache : caching) (s : pagemaps)
    : outcome (expected error unit * pagemaps) :=
  let ps := fixpsize ps in
  let npsize := from_page_size ps in
  if negb (vaddr mod npsize =? 0) then Done (Unexpected addr_not_aligned, s) else
  let aflags := to_arch flags cache ps in
  page_loop (loop_fuel length npsize) 0 length npsize (map_step table vaddr paddr npsize aflags ps) s.

Definition protect_step (table vaddr aflags : Z) (ps : psize) (i : Z) (s : pagemaps)
    : outcome (expected error unit * pagemaps) :=
  '(ret, s) ← getpte table (w64 (vaddr + i)) ps false s;
  match ret with
  | Unexpected e => Done (Unexpected e, s)
  | Value pte => v ← rd pte s; s ← wr pte (setflags aflags true (clearflags v)) s; Done (Value (), s)
  end.

Definition protect (table vaddr length flags : Z) (ps : psize) (cache : caching) (s : pagemaps)
    : outcome (expected error unit * pagemaps) :=
  let ps := fixpsize ps in
  let npsize := from_page_size ps in
  if negb (vaddr mod npsize =? 0) then Done (Unexpected addr_not_aligned, s) else
  let aflags := to_arch flags cache ps in
  page_loop (loop_fuel length npsize) 0 length npsize (protect_step table vaddr aflags ps) s.

Definition unmap_step (table vaddr : Z) (ps : psize) (i : Z) (s : pagemaps)
    : outcome (expected error unit * pagemaps) :=
  '(ret, s) ← getpte table (w64 (vaddr + i)) ps false s;
  match ret with
  | Unexpected _ => Done (Value (), s)
  | Value pte => s ← wr pte 0 s; Done (Value (), s)
  end.

Definition unmap (table vaddr length : Z) (ps : psize) (s : pagemaps)
    : outcome (expected error unit * pagemaps) :=
  let ps := fixpsize ps in
  let npsize := from_page_size ps in
  if negb (vaddr mod npsize =? 0) then Done (Unexpected addr_not_aligned, s) else
  page_loop (loop_fuel length npsize) 0 length npsize (unmap_step table vaddr ps) s.

Definition translate (table vaddr : Z) (ps : psize) (s : pagemaps)
    : outcome (expected error Z * pagemaps) :=
  let ps := fixpsize ps in
  if negb (vaddr mod from_page_size ps =? 0) then Done (Unexpected addr_not_aligned, s) else
  '(ret, s) ← getpte table vaddr ps false s;
  match ret with
  | Unexpected e => Done (Unexpected e, s)
  | Value pte =>
      v ← rd pte s;
      let addr := getaddr v in
      if negb (is_canonical addr) then Done (Unexpected invalid_entry, s) else Done (Value addr, s)
  end.

Definition unmap_dealloc_step (table vaddr npsize : Z) (ps : psize) (i : Z) (s : pagemaps)
    : outcome (expected error unit * pagemaps) :=
  '(rett, s) ← translate table (w64 (vaddr + i)) ps s;
  match rett with
  | Unexpected e => Done (Unexpected e, s)
  | Value paddr =>
      '(retu, s) ← unmap table (w64 (vaddr + i)) npsize ps s;
      match retu with
      | Unexpected e => Done (Unexpected e, s)
      | Value _ => f ← fa_free paddr 1 (frames s); Done (Value (), mk_pagemaps (tables s) f)
      end
  end.

Definition unmap_dealloc (table vaddr length : Z) (ps : psize) (s : pagemaps)
    : outcome (expected error unit * pagemaps) :=
  let ps := fixpsize ps in
  let npsize := from_page_size ps in
  page_loop (loop_fuel length npsize) 0 length npsize (unmap_dealloc_step table vaddr npsize ps) s.

(** The constructor of the kernel page map: allocate the tables of the higher half. *)
Fixpoint prealloc (n : nat) (i table : Z) (s : pagemaps) : outcome pagemaps :=
  match n with
  | O => Done s
  | S n => '(_, s) ← getlvl (mk_ref table i) true s; prealloc n (i + 1) table s
  end.
Definition new_kernel_pagemap (s : pagemaps) : outcome (Z * pagemaps) :=
  '(t, s) ← new_table s; s ← prealloc 256 256 (tohh hhdm t) s; Done (t, s).

(** The constructor of the other page maps: share the higher half of the kernel's. *)
Definition new_user_pagemap (kernel : Z) (s : pagemaps) : outcome (Z * pagemaps) :=
  '(t, s) ← new_table s;
  es ← deref (tables s !! tohh hhdm t);
  ks ← deref (tables s !! tohh hhdm kernel);
  Done (t, mk_pagemaps (<[tohh hhdm t := take 256 es ++ drop 256 ks]> (tables s)) (frames s)).

(** The destructor: free the tables below the entries [start .. end). *)
Fixpoint destroy (level : nat) (ptr start fin : Z) (s : pagemaps) : outcome pagemaps :=
  match level with
  | O => Done s
  | S level =>
      let fix entries (n : nat) (i : Z) (s : pagemaps) : outcome pagemaps :=
        match n with
        | O => Done s
        | S n =>
            '(lvl, s) ← getlvl (mk_ref ptr i) false s;
            s ← (if lvl =? 0 then Done s else destroy level lvl 0 512 s);
            entries n (i + 1) s
        end in
      s ← entries (Z.to_nat (fin - start)) start s;
      free_table (fromhh hhdm ptr) s
  end.
Definition destroy_pagemap (table : Z) (s : pagemaps) : outcome pagemaps :=
  destroy 4 (tohh hhdm table) 0 256 s.

(** [max_page_size]-sized address space reservation: [alloc_vspace] of the file. *)
Definition alloc_vspace (npages vspace_base : Z) : Z * Z :=
  (vspace_base, w64 (vspace_base + npages * page_size)).
End pagemap.
Arguments pagemaps St : clear implicits.
Arguments mk_pagemaps {St} _ _.
Arguments tables {St} _.
Arguments frames {St} _.
