(* ===== verification/PagemapTree.v ===== *)
(** The shape of a page table tree and what walking it does: [getpte] finds the entry of
    an address, allocating tables changes no translation. *)

From S2P Require Import Prelude Math Pmm PmmBlocks Frames Pagemap.

(** ** Entries *)
Lemma pa_mask_bits i : 0 ≤ i → Z.testbit pa_mask i = (12 <=? i) && (i <? 52).
Proof.
  intros Hi. replace pa_mask with (Z.shiftl (Z.ones 40) 12) by reflexivity.
  rewrite Z.shiftl_spec by done.
  destruct (Z.leb_spec 12 i); [|by rewrite Z.testbit_neg_r by lia].
  rewrite Z.testbit_ones_nonneg by lia. simpl.
  destruct (Z.ltb_spec (i - 12) 40), (Z.ltb_spec i 52); lia || done.
Qed.

Lemma wnot64_bits x i : is_w64 x → 0 ≤ i < 64 → Z.testbit (wnot64 x) i = negb (Z.testbit x i).
Proof.
  intros Hx Hi. destruct (wnot64_lnot x) as [->|]; [|done].
  unfold w64. rewrite Z.mod_pow2_bits_low, Z.lnot_spec by lia. done.
Qed.
Lemma w64_high_bits v i : is_w64 v → 64 ≤ i → Z.testbit v i = false.
Proof.
  intros Hv Hi. destruct (decide (v = 0)) as [->|]; [apply Z.bits_0|].
  apply Z.bits_above_log2; [lia|]. apply (Z.lt_le_trans _ 64); [|done]. apply Z.log2_lt_pow2; lia.
Qed.

(** Writing an entry: the address comes from the frame, everything else from the flags. *)
Lemma getaddr_pte paddr aflags :
  is_w64 paddr → Z.land aflags pa_mask = 0 →
  getaddr (setflags aflags true (setaddr paddr 0)) = Z.land paddr pa_mask.
Proof.
  intros Hp Hf. unfold getaddr, setflags, setaddr. rewrite Z.land_0_l, Z.lor_0_l.
  rewrite Z.land_lor_distr_l, Hf, Z.lor_0_r, <-Z.land_assoc, Z.land_diag. done.
Qed.
Lemma land_pa_mask p : 0 ≤ p < 2 ^ 52 → (4096 | p) → Z.land p pa_mask = p.
Proof.
  intros Hp [q ->]. apply Z.bits_inj'. intros i Hi. rewrite Z.land_spec, pa_mask_bits by done.
  change 4096 with (2 ^ 12). destruct (Z.leb_spec 12 i).
  - destruct (Z.ltb_spec i 52); [by rewrite andb_true_r|]. rewrite andb_false_r. symmetry.
    destruct (decide (q = 0)) as [->|]; [by rewrite Z.mul_0_l, Z.bits_0|].
    apply Z.bits_above_log2; [lia|]. apply (Z.lt_le_trans _ 52); [|done]. apply Z.log2_lt_pow2; lia.
  - rewrite andb_false_r. symmetry. apply Z.mul_pow2_bits_low. lia.
Qed.

Definition is_table (v : Z) : bool := hasflags valid_table_flags v && is_canonical (getaddr v).

Lemma is_table_zero : is_table 0 = false.
Proof. reflexivity. Qed.
Lemma is_table_new p :
  0 < p < 2 ^ 46 → (4096 | p) →
  is_table (setflags new_table_flags true (setaddr p 0)) = true ∧
  getaddr (setflags new_table_flags true (setaddr p 0)) = p.
Proof.
  intros Hp Hd. assert (getaddr (setflags new_table_flags true (setaddr p 0)) = p) as E.
  { rewrite getaddr_pte by (lia || done). apply land_pa_mask; [lia|done]. }
  split; [|done]. unfold is_table. rewrite E. apply andb_true_intro. split.
  - unfold hasflags, setflags, setaddr. rewrite Z.land_0_l, Z.lor_0_l, land_pa_mask by (lia || done).
    apply Z.eqb_eq. unfold valid_table_flags, new_table_flags, f_present, f_write, f_user.
    apply Z.bits_inj'. intros i Hi. change (Z.shiftl 1 0) with (2 ^ 0).
    rewrite Z.land_spec, Z.lor_spec, !Z.pow2_bits_eqb by done.
    destruct (Z.eqb_spec 0 i) as [<-|]; [|by rewrite andb_false_r]. by rewrite orb_true_r.
  - unfold is_canonical. apply orb_true_intro. left. apply Z.ltb_lt. lia.
Qed.

(** ** Paths *)
(** Index of [va] at depth [j] of the tree, and the indices down to depth [n]. *)
Definition vidx (va : Z) (j : nat) : Z := pt_index va (shift_start - 9 * Z.of_nat j).
Fixpoint path (va : Z) (n : nat) : list Z :=
  match n with O => [] | S n => path va n ++ [vidx va n] end.

Lemma vidx_range va j : 0 ≤ vidx va j < 512.
Proof.
  unfold vidx, pt_index. change 511 with (Z.ones 9). rewrite Z.land_ones by lia.
  apply Z.mod_pos_bound. lia.
Qed.
Lemma length_path va n : length (path va n) = n.
Proof. induction n; simpl; [done|]. rewrite length_app. simpl. lia. Qed.

Section tree.
Context `{FrameAllocatorLaws St} (hhdm : Z) (Hh : hhdm_ok hhdm).
Context (large_pages use_lowmem : bool).
Abbreviation getlvl := (getlvl hhdm use_lowmem).
Abbreviation getpte_loop := (getpte_loop hhdm use_lowmem).
Abbreviation getpte := (getpte hhdm use_lowmem).
Abbreviation pagemaps := (pagemaps St).

(** Entries of the leaf tables are at depth [d]: 3 for 4 KiB pages, 2 for 2 MiB pages, 1
    for 1 GiB pages.  [T] maps the path of each table of one page map to its address. *)
Record pm_rep (s : pagemaps) (root : Z) (d : nat) (T : gmap (list Z) Z) : Prop := {
  pr_root : T !! [] = Some root;
  pr_table p t : T !! p = Some t →
    (length p ≤ d)%nat ∧ t ≠ 0 ∧ ∃ es, tables s !! t = Some es ∧ length es = 512%nat;
  pr_inj p p' t : T !! p = Some t → T !! p' = Some t → p = p';
  pr_entry p i t es v : T !! p = Some t → (length p < d)%nat → tables s !! t = Some es →
    es !! i = Some v →
    match T !! (p ++ [Z.of_nat i]) with
    | Some t' => is_table v = true ∧ tohh hhdm (getaddr v) = t'
    | None => is_table v = false
    end;
  pr_closed p i t : T !! (p ++ [i]) = Some t → is_Some (T !! p);
  pr_frames : ∃ U, fa_inv (frames s) U ∧
    ∀ t, is_Some (tables s !! t) → ∃ f, t = tohh hhdm f ∧ 0 < f < 2 ^ 46 ∧ U f }.

(** The entry of an address; entries of missing tables count as empty. *)
Definition pte_of (s : pagemaps) (d : nat) (T : gmap (list Z) Z) (va : Z) : Z :=
  default 0 (t ← T !! path va d; es ← tables s !! t; es !! Z.to_nat (vidx va d)).

Lemma pr_lookup s root d T p t i :
  pm_rep s root d T → T !! p = Some t → 0 ≤ i < 512 →
  ∃ es v, tables s !! t = Some es ∧ length es = 512%nat ∧ es !! Z.to_nat i = Some v.
Proof.
  intros Hr Hp Hi. destruct (pr_table _ _ _ _ Hr _ _ Hp) as (_ & _ & es & Hes & Hlen).
  destruct (lookup_lt_is_Some_2 es (Z.to_nat i)) as [v Hv]; [lia|]. eauto 6.
Qed.

Lemma rd_spec (s : pagemaps) t i es v :
  tables s !! t = Some es → es !! Z.to_nat i = Some v → rd (mk_ref t i) s = Done v.
Proof. intros Hes Hv. unfold rd. simpl. rewrite Hes. simpl. by rewrite Hv. Qed.
Lemma wr_spec (s : pagemaps) t i es v :
  tables s !! t = Some es → 0 ≤ i < Z.of_nat (length es) →
  wr (mk_ref t i) v s = Done (mk_pagemaps (<[t := <[Z.to_nat i := v]> es]> (tables s)) (frames s)).
Proof.
  intros Hes Hi. unfold wr. simpl. rewrite Hes. simpl. destruct (Z.ltb_spec i (Z.of_nat (length es))); [done|lia].
Qed.

(** Following an existing table. *)
Lemma getlvl_existing s root d T p t i t' al :
  pm_rep s root d T → T !! p = Some t → (length p < d)%nat → 0 ≤ i < 512 →
  T !! (p ++ [i]) = Some t' → getlvl (mk_ref t i) al s = Done (t', s).
Proof.
  intros Hr Hp Hl Hi Hc. destruct (pr_lookup _ _ _ _ _ _ i Hr Hp Hi) as (es & v & Hes & Hlen & Hv).
  unfold Pagemap.getlvl. rewrite (rd_spec _ _ _ _ _ Hes Hv). simpl.
  pose proof (pr_entry _ _ _ _ Hr _ _ _ _ _ Hp Hl Hes Hv) as He.
  rewrite Z2Nat.id, Hc in He by lia. destruct He as [Hv1 Hv2]. unfold is_table in Hv1. by rewrite Hv1, Hv2.
Qed.
Lemma getlvl_missing s root d T p t i :
  pm_rep s root d T → T !! p = Some t → (length p < d)%nat → 0 ≤ i < 512 →
  T !! (p ++ [i]) = None → getlvl (mk_ref t i) false s = Done (0, s).
Proof.
  intros Hr Hp Hl Hi Hc. destruct (pr_lookup _ _ _ _ _ _ i Hr Hp Hi) as (es & v & Hes & Hlen & Hv).
  unfold Pagemap.getlvl. rewrite (rd_spec _ _ _ _ _ Hes Hv). simpl.
  pose proof (pr_entry _ _ _ _ Hr _ _ _ _ _ Hp Hl Hes Hv) as He.
  rewrite Z2Nat.id, Hc in He by lia. unfold is_table in He. by rewrite He.
Qed.

(** Allocating a missing table. *)
Lemma getlvl_alloc s root d T p t i :
  pm_rep s root d T → T !! p = Some t → (length p < d)%nat → 0 ≤ i < 512 →
  T !! (p ++ [i]) = None →
  getlvl (mk_ref t i) true s = Panic ∨
  ∃ t' s', getlvl (mk_ref t i) true s = Done (t', s') ∧ t' ≠ 0 ∧ tables s !! t' = None ∧
    pm_rep s' root d (<[p ++ [i] := t']> T) ∧
    ∀ va, pte_of s' d (<[p ++ [i] := t']> T) va = pte_of s d T va.
Proof.
  intros Hr Hp Hl Hi Hc. destruct (pr_lookup _ _ _ _ _ _ i Hr Hp Hi) as (es & v & Hes & Hlen & Hv).
  pose proof (pr_entry _ _ _ _ Hr _ _ _ _ _ Hp Hl Hes Hv) as He.
  rewrite Z2Nat.id, Hc in He by lia. unfold Pagemap.getlvl.
  rewrite (rd_spec _ _ _ _ _ Hes Hv). simpl. unfold is_table in He. rewrite He. simpl.
  destruct (pr_frames _ _ _ _ Hr) as (U & HU & Hfr).
  unfold new_table.
  destruct (fa_alloc_spec (frames s) U (if use_lowmem then Sub4gib else Normal) 1 true HU ltac:(lia))
    as [->|(f & fs & U' & -> & HU' & Hf0 & Hfhi & Hfd & Hmono & Hnew)]; [by left|right]. simpl.
  set (t' := tohh hhdm f).
  assert (∀ g, 0 < g < 2 ^ 46 → tohh hhdm g = hhdm + g) as Htohh.
  { intros g Hg. destruct Hh. unfold tohh. destruct (Z.leb_spec hhdm g); [lia|]. rewrite w64_small; lia. }
  assert (tables s !! t' = None) as Hfresh.
  { destruct (tables s !! t') as [es'|] eqn:E; [|done]. destruct (Hfr t') as (g & Hg & Hgr & HUg); [eauto|].
    unfold t' in Hg. rewrite !Htohh in Hg by lia. assert (f = g) as <- by lia.
    destruct (Hnew f) as [Hno _]; [lia|]. done. }
  assert (t ≠ t') as Htt by congruence.
  rewrite (wr_spec _ t i es) by (simpl; rewrite ?lookup_insert_ne by done; done || lia).
  simpl. destruct (is_table_new f) as [Hv1 Hv2]; [lia|done|].
  set (v' := setflags new_table_flags true (setaddr f 0)) in *. clearbody v'.
  eexists t', _. split; [done|].
  assert (t' ≠ 0) as Ht0 by (unfold t'; rewrite Htohh by lia; destruct Hh; lia).
  split; [done|]. split; [done|].
  assert (∀ q u, T !! q = Some u → u ≠ t') as HTt'.
  { intros q u Hq ->. destruct (pr_table _ _ _ _ Hr _ _ Hq) as (_ & _ & ? & ? & _). congruence. }
  assert (p ≠ p ++ [i]) as Hpp by (intros E%(f_equal length); rewrite length_app in E; simpl in E; lia).
  split; [split|].
  - rewrite lookup_insert_ne; [apply Hr|]. by destruct p.
  - intros q u [[<- <-]|[Hne Hq]]%lookup_insert_Some; simpl.
    + rewrite length_app. simpl. split_and!; [lia|done|]. exists empty_table.
      rewrite lookup_insert_ne, lookup_insert_eq by done. done.
    + destruct (pr_table _ _ _ _ Hr _ _ Hq) as (Hq1 & Hq2 & es' & Hes' & Hlen').
      split_and!; [done..|]. destruct (decide (u = t)) as [->|].
      * rewrite lookup_insert_eq. eexists. split; [done|]. by rewrite length_insert.
      * rewrite !lookup_insert_ne by naive_solver. eauto.
  - intros q q' u [[<- <-]|[Hne Hq]]%lookup_insert_Some [[<- ?]|[Hne' Hq']]%lookup_insert_Some; try done.
    + by apply HTt' in Hq'.
    + subst u. by apply HTt' in Hq.
    + by eapply (pr_inj _ _ _ _ Hr).
  - intros q j u es' w [[<- <-]|[Hne Hq]]%lookup_insert_Some Hlq; simpl.
    + rewrite lookup_insert_ne, lookup_insert_eq by done. intros [= <-] [-> _]%lookup_replicate_1.
      rewrite lookup_insert_ne.
      * destruct (T !! ((p ++ [i]) ++ [Z.of_nat j])) eqn:E; [|done].
        apply (pr_closed _ _ _ _ Hr) in E as [? ?]. congruence.
      * intros E%(f_equal length). rewrite !length_app in E. simpl in E. lia.
    + destruct (decide (u = t)) as [->|Hut].
      * assert (q = p) as -> by by eapply (pr_inj _ _ _ _ Hr).
        rewrite lookup_insert_eq. intros [= <-] Hw. destruct (decide (j = Z.to_nat i)) as [->|Hji].
        -- rewrite list_lookup_insert_eq in Hw by lia. injection Hw as <-.
           rewrite Z2Nat.id, lookup_insert_eq, Hv2 by lia. done.
        -- rewrite list_lookup_insert_ne in Hw by done. rewrite lookup_insert_ne.
           ++ by eapply (pr_entry _ _ _ _ Hr).
           ++ intros [_ [= E]]%app_inj_tail. lia.
      * rewrite !lookup_insert_ne by (done || (apply not_eq_sym; by eapply HTt')). intros Hes' Hw.
        rewrite lookup_insert_ne; [by eapply (pr_entry _ _ _ _ Hr)|].
        intros [-> _]%app_inj_tail. congruence.
  - intros q j u [[[-> ->]%app_inj_tail <-]|[Hne Hq]]%lookup_insert_Some.
    + rewrite lookup_insert_ne by done. eauto.
    + destruct (decide (q = p ++ [i])) as [->|]; [rewrite lookup_insert_eq; eauto|].
      rewrite lookup_insert_ne by done. by eapply (pr_closed _ _ _ _ Hr).
  - exists U'. split; [done|]. simpl. intros u Hu. destruct (decide (u = t')) as [->|Hut'].
    + exists f. split_and!; [done|lia|lia|]. apply Hnew. lia.
    + destruct (Hfr u) as (g & ? & ? & ?).
      { destruct Hu as [es' Hu]. apply lookup_insert_Some in Hu as [[<- _]|[_ Hu]]; [eauto|].
        rewrite lookup_insert_ne in Hu by done. eauto. }
      exists g. auto.
  - intros va. unfold pte_of. simpl. destruct (decide (path va d = p ++ [i])) as [E|E].
    + rewrite E, lookup_insert_eq, Hc. simpl. rewrite lookup_insert_ne, lookup_insert_eq by done. simpl.
      pose proof (vidx_range va d). unfold empty_table. rewrite lookup_replicate_2 by lia. done.
    + rewrite lookup_insert_ne by done. destruct (T !! path va d) as [u|] eqn:Hu; [|done]. simpl.
      destruct (decide (u = t)) as [->|Hut].
      * assert (path va d = p) as Ep by by eapply (pr_inj _ _ _ _ Hr).
        pose proof (length_path va d). rewrite Ep in *. lia.
      * rewrite !lookup_insert_ne by (done || (apply not_eq_sym; by eapply HTt')). done.
Qed.

(** Walking without allocation: the entry, if the tables down to the leaf exist. *)
Definition leaf_ref (d : nat) (T : gmap (list Z) Z) (va : Z) : option entry_ref :=
  t ← T !! path va d; Some (mk_ref t (vidx va d)).

Lemma path_missing s root d T va j n :
  pm_rep s root d T → T !! path va j = None → T !! path va (j + n) = None.
Proof.
  intros Hr Hj. induction n as [|n IH]; [by rewrite Nat.add_0_r|].
  rewrite Nat.add_succ_r. simpl. destruct (T !! (path va (j + n) ++ _)) eqn:E; [|done].
  apply (pr_closed _ _ _ _ Hr) in E as [? ?]. congruence.
Qed.

Lemma shift_pred j : shift_start - 9 * Z.of_nat j - 9 = shift_start - 9 * Z.of_nat (S j).
Proof. lia. Qed.

Lemma getpte_loop_find s root d T va n j t :
  pm_rep s root d T → T !! path va j = Some t → (j + n = S d)%nat →
  getpte_loop n (Z.of_nat j) (Z.of_nat d) (shift_start - 9 * Z.of_nat j) t va false s =
    Done (match leaf_ref d T va with Some r => Value r | None => Unexpected invalid_entry end, s).
Proof.
  intros Hr. revert j t. induction n as [|n IH]; intros j t Ht Hn.
  { destruct (pr_table _ _ _ _ Hr _ _ Ht) as (Hl & _). rewrite length_path in Hl. lia. }
  simpl. fold (vidx va j). destruct (Z.eqb_spec (Z.of_nat j) (Z.of_nat d)) as [E|E].
  { apply Nat2Z.inj in E. subst j. unfold leaf_ref. by rewrite Ht. }
  pose proof (vidx_range va j).
  destruct (T !! path va (S j)) as [t'|] eqn:Et; simpl in Et.
  - rewrite (getlvl_existing s root d T (path va j) t _ t') by (rewrite ?length_path; done || lia).
    simpl. destruct (pr_table _ _ _ _ Hr _ _ Et) as (_ & Hnz & _). destruct (Z.eqb_spec t' 0); [done|].
    rewrite shift_pred. replace (Z.of_nat j + 1) with (Z.of_nat (S j)) by lia. by apply IH; [|lia].
  - rewrite (getlvl_missing s root d T (path va j) t) by (rewrite ?length_path; done || lia). simpl.
    unfold leaf_ref. pose proof (path_missing s root d T va (S j) (d - S j) Hr Et) as Hm.
    replace (S j + (d - S j))%nat with d in Hm by lia. by rewrite Hm.
Qed.

Lemma getpte_loop_alloc s root d T va n j t :
  pm_rep s root d T → T !! path va j = Some t → (j + n = S d)%nat →
  getpte_loop n (Z.of_nat j) (Z.of_nat d) (shift_start - 9 * Z.of_nat j) t va true s = Panic ∨
  ∃ s' T' r, getpte_loop n (Z.of_nat j) (Z.of_nat d) (shift_start - 9 * Z.of_nat j) t va true s =
      Done (Value r, s') ∧ pm_rep s' root d T' ∧ leaf_ref d T' va = Some r ∧
      T ⊆ T' ∧ ∀ va', pte_of s' d T' va' = pte_of s d T va'.
Proof.
  revert s T j t. induction n as [|n IH]; intros s T j t Hr Ht Hn.
  { destruct (pr_table _ _ _ _ Hr _ _ Ht) as (Hl & _). rewrite length_path in Hl. lia. }
  simpl. fold (vidx va j). destruct (Z.eqb_spec (Z.of_nat j) (Z.of_nat d)) as [E|E].
  { apply Nat2Z.inj in E. subst j. right. eexists s, T, _. split_and!; [done..| |done|done].
    unfold leaf_ref. by rewrite Ht. }
  pose proof (vidx_range va j).
  rewrite shift_pred. replace (Z.of_nat j + 1) with (Z.of_nat (S j)) by lia.
  destruct (T !! path va (S j)) as [t'|] eqn:Et; simpl in Et.
  - rewrite (getlvl_existing s root d T (path va j) t _ t') by (rewrite ?length_path; done || lia).
    simpl. destruct (pr_table _ _ _ _ Hr _ _ Et) as (_ & Hnz & _). destruct (Z.eqb_spec t' 0); [done|].
    by apply IH; [..|lia].
  - destruct (getlvl_alloc s root d T (path va j) t (vidx va j)) as [->|(t' & s' & -> & Hnz & _ & Hr' & Heq)];
      [done|done|rewrite length_path; lia|done|done|by left|]. simpl.
    destruct (Z.eqb_spec t' 0); [done|].
    destruct (IH s' _ (S j) t' Hr') as [->|(s2 & T2 & r & -> & Hr2 & Hl2 & Hsub & Heq2)];
      [simpl; apply lookup_insert_eq|lia|by left|right].
    exists s2, T2, r. split_and!; [done..| |].
    + etransitivity; [by apply insert_subseteq|done].
    + intros va'. by rewrite Heq2.
Qed.

Lemma leaf_ref_mono d T T' va : T ⊆ T' → is_Some (leaf_ref d T va) → is_Some (leaf_ref d T' va).
Proof.
  unfold leaf_ref. intros Hsub. destruct (T !! path va d) as [t|] eqn:E; [|by intros [? ?]].
  rewrite (lookup_weaken _ _ _ _ E Hsub). eauto.
Qed.
(** ** [getpte] *)
Definition leaf_depth (ps : psize) : nat := Z.to_nat (levels - psize_num ps - 1).

Lemma getpte_loop_more n m i d shift t va al s r s' :
  getpte_loop n i d shift t va al s = Done (r, s') →
  getpte_loop (n + m) i d shift t va al s = Done (r, s').
Proof.
  revert i shift t s. induction n as [|n IH]; intros i shift t s; simpl; [done|].
  case_test; [done|]. destruct (getlvl _ _ _) as [[pml s1]| | | |]; simpl; try done.
  case_test; [done|]. apply IH.
Qed.
Lemma getpte_loop_more_panic n m i d shift t va al s :
  getpte_loop n i d shift t va al s = Panic → getpte_loop (n + m) i d shift t va al s = Panic.
Proof.
  revert i shift t s. induction n as [|n IH]; intros i shift t s; simpl; [done|].
  case_test; [done|]. destruct (getlvl _ _ _) as [[pml s1]| | | |]; simpl; try done.
  case_test; [done|]. apply IH.
Qed.

Lemma getpte_find s table T va ps :
  pm_rep s (tohh hhdm table) (leaf_depth ps) T →
  getpte table va ps false s =
    Done (match leaf_ref (leaf_depth ps) T va with Some r => Value r | None => Unexpected invalid_entry end, s).
Proof.
  intros Hr. unfold Pagemap.getpte.
  pose proof (getpte_loop_find s _ _ T va (S (leaf_depth ps)) 0 _ Hr (pr_root _ _ _ _ Hr) ltac:(lia)) as E.
  apply (getpte_loop_more _ (3 - leaf_depth ps)) in E.
  replace (S (leaf_depth ps) + (3 - leaf_depth ps))%nat with 4%nat in E by by destruct ps.
  rewrite <-E. by destruct ps.
Qed.
Lemma getpte_alloc s table T va ps :
  pm_rep s (tohh hhdm table) (leaf_depth ps) T →
  getpte table va ps true s = Panic ∨
  ∃ s' T' r, getpte table va ps true s = Done (Value r, s') ∧
    pm_rep s' (tohh hhdm table) (leaf_depth ps) T' ∧ leaf_ref (leaf_depth ps) T' va = Some r ∧
    T ⊆ T' ∧ ∀ va', pte_of s' (leaf_depth ps) T' va' = pte_of s (leaf_depth ps) T va'.
Proof.
  intros Hr. unfold Pagemap.getpte.
  destruct (getpte_loop_alloc s _ _ T va (S (leaf_depth ps)) 0 _ Hr (pr_root _ _ _ _ Hr) ltac:(lia))
    as [E|(s' & T' & r & E & Hr' & Hl & Hsub & Heq)].
  - left. apply (getpte_loop_more_panic _ (3 - leaf_depth ps)) in E. by destruct ps.
  - right. apply (getpte_loop_more _ (3 - leaf_depth ps)) in E. exists s', T', r.
    split_and!; [by destruct ps|done..].
Qed.

(** ** Writing the entry of an address *)
Definition same_slot (d : nat) (va va' : Z) : Prop := path va (S d) = path va' (S d).
#[global] Instance same_slot_dec d va va' : Decision (same_slot d va va').
Proof. unfold same_slot. apply _. Defined.

Lemma leaf_ref_slot d T va va' :
  same_slot d va va' → is_Some (leaf_ref d T va) → is_Some (leaf_ref d T va').
Proof.
  unfold leaf_ref. intros [E _]%app_inj_tail. fold path in E. rewrite E.
  destruct (T !! path va' d); simpl; [eauto|by intros [? ?]].
Qed.

Lemma leaf_rd s root d T va r :
  pm_rep s root d T → leaf_ref d T va = Some r → rd r s = Done (pte_of s d T va).
Proof.
  unfold leaf_ref, pte_of. intros Hr. destruct (T !! path va d) as [t|] eqn:Et; [|done]. intros [= <-].
  destruct (pr_lookup _ _ _ _ _ _ (vidx va d) Hr Et (vidx_range va d)) as (es & v & Hes & Hlen & Hv).
  rewrite (rd_spec _ _ _ _ _ Hes Hv). simpl. rewrite Hes. simpl. by rewrite Hv.
Qed.

Lemma pte_of_slot s d T va va' : same_slot d va va' → pte_of s d T va = pte_of s d T va'.
Proof. unfold pte_of. intros [E E']%app_inj_tail. fold path in E. by rewrite E, E'. Qed.

Lemma leaf_wr s root d T va r v :
  pm_rep s root d T → leaf_ref d T va = Some r →
  ∃ s', wr r v s = Done s' ∧ pm_rep s' root d T ∧
    ∀ va', pte_of s' d T va' = if decide (same_slot d va va') then v else pte_of s d T va'.
Proof.
  unfold leaf_ref. intros Hr. destruct (T !! path va d) as [t|] eqn:Et; [|done]. intros [= <-].
  pose proof (vidx_range va d) as Hi.
  destruct (pr_lookup _ _ _ _ _ _ (vidx va d) Hr Et Hi) as (es & w & Hes & Hlen & Hw).
  rewrite (wr_spec _ _ _ _ _ Hes) by lia. eexists. split; [done|]. split; [split|]; simpl.
  - apply Hr.
  - intros q u Hq. destruct (pr_table _ _ _ _ Hr _ _ Hq) as (? & ? & es' & Hes' & ?).
    split_and!; [done..|]. destruct (decide (u = t)) as [->|].
    + rewrite lookup_insert_eq. eexists. split; [done|]. by rewrite length_insert.
    + rewrite lookup_insert_ne by done. eauto.
  - apply (pr_inj _ _ _ _ Hr).
  - intros q j u es' x Hq Hlq. destruct (decide (u = t)) as [->|].
    + assert (q = path va d) as -> by by eapply (pr_inj _ _ _ _ Hr). rewrite length_path in Hlq. lia.
    + rewrite lookup_insert_ne by done. by apply (pr_entry _ _ _ _ Hr).
  - apply (pr_closed _ _ _ _ Hr).
  - destruct (pr_frames _ _ _ _ Hr) as (U & HU & Hfr). exists U. split; [done|]. intros u Hu. apply Hfr.
    destruct Hu as [es' Hu]. apply lookup_insert_Some in Hu as [[<- _]|[_ Hu]]; eauto.
  - intros va'. unfold pte_of. simpl. destruct (T !! path va' d) as [u|] eqn:Eu; simpl.
    + destruct (decide (u = t)) as [->|Hut].
      * assert (path va' d = path va d) as Ep by by eapply (pr_inj _ _ _ _ Hr).
        rewrite lookup_insert_eq, Hes. simpl.
        pose proof (vidx_range va' d). destruct (decide (vidx va d = vidx va' d)) as [E|E].
        -- rewrite decide_True by (unfold same_slot; simpl; by rewrite Ep, E). rewrite E, list_lookup_insert_eq by lia. done.
        -- rewrite decide_False by (intros [_ [= ?]]%app_inj_tail; done).
           rewrite list_lookup_insert_ne by lia. done.
      * rewrite lookup_insert_ne by done. rewrite decide_False; [done|].
        intros [E _]%app_inj_tail. fold path in E. congruence.
    + rewrite decide_False; [done|]. intros [E _]%app_inj_tail. fold path in E. congruence.
Qed.
End tree.
