(* ===== verification/PagemapSpec.v ===== *)
(** What the operations on page maps do to translations: [map], [protect] and [unmap]
    change exactly the entries of their range, [translate] reads them back; and the cases
    in which the entry format gets in the way. *)

From S2P Require Import Prelude Math Pmm PmmLists PmmBlocks PmmSpec Frames Pagemap PagemapTree.

(** ** Addresses *)
Lemma from_page_size_eq ps : from_page_size ps = 2 ^ (39 - 9 * Z.of_nat (leaf_depth ps)).
Proof. by destruct ps. Qed.
Lemma leaf_depth_range ps : (1 ≤ leaf_depth ps ≤ 3)%nat.
Proof. destruct ps; vm_compute; lia. Qed.

Lemma vidx_div va j : (j ≤ 3)%nat → vidx va j = (va / 2 ^ (39 - 9 * Z.of_nat j)) mod 2 ^ 9.
Proof.
  intros Hj. unfold vidx, pt_index. change 511 with (Z.ones 9). rewrite Z.land_ones by lia.
  rewrite Z.shiftr_div_pow2 by (unfold shift_start, levels; lia). done.
Qed.

Lemma path_eq va va' j :
  (j ≤ 3)%nat →
  path va (S j) = path va' (S j) ↔
  (va / 2 ^ (39 - 9 * Z.of_nat j)) mod 2 ^ (9 * (Z.of_nat j + 1)) =
  (va' / 2 ^ (39 - 9 * Z.of_nat j)) mod 2 ^ (9 * (Z.of_nat j + 1)).
Proof.
  induction j as [|j IH]; intros Hj.
  { change (path va 1) with [vidx va 0]. change (path va' 1) with [vidx va' 0].
    rewrite !vidx_div by lia. change (9 * (Z.of_nat 0 + 1)) with 9.
    split; [intros [= E]; exact E|intros E; by rewrite E]. }
  assert (∀ x, path x (S (S j)) = path x (S j) ++ [vidx x (S j)]) as Hp by done.
  rewrite !Hp, !vidx_div by lia. set (m := 39 - 9 * Z.of_nat (S j)). replace (39 - 9 * Z.of_nat j) with (m + 9) in IH by lia.
  assert (∀ x, x / 2 ^ (m + 9) = x / 2 ^ m / 2 ^ 9) as Hdiv.
  { intros x. rewrite Z.pow_add_r, Z.div_div by lia. done. }
  replace (9 * (Z.of_nat (S j) + 1)) with (9 + 9 * (Z.of_nat j + 1)) by lia.
  rewrite Z.pow_add_r, !Z.rem_mul_r by lia. rewrite !Hdiv in IH.
  set (x := va / 2 ^ m) in *. set (x' := va' / 2 ^ m) in *.
  pose proof (Z.mod_pos_bound x (2 ^ 9) ltac:(lia)). pose proof (Z.mod_pos_bound x' (2 ^ 9) ltac:(lia)).
  split.
  - intros [E1 [= E2]]%app_inj_tail. apply IH in E1; [|lia]. congruence.
  - intros E.
    assert (x mod 2 ^ 9 = x' mod 2 ^ 9 ∧
      x / 2 ^ 9 mod 2 ^ (9 * (Z.of_nat j + 1)) = x' / 2 ^ 9 mod 2 ^ (9 * (Z.of_nat j + 1))) as [E1 E2]
      by (change (2 ^ 9) with 512 in *; lia).
    rewrite E1. f_equal. apply IH; [lia|done].
Qed.

Lemma div_mod_aligned a b x : 0 < a → 0 < b → (a | x) → x / a mod b = x mod (a * b) / a.
Proof.
  intros Ha Hb [q ->]. rewrite Z.div_mul, (Z.mul_comm a b), Z.mul_mod_distr_r, Z.div_mul by lia. done.
Qed.

(** Aligned addresses share an entry iff they agree on the 48 translated bits. *)
Lemma same_slot_iff ps va va' :
  (from_page_size ps | va) → (from_page_size ps | va') →
  same_slot (leaf_depth ps) va va' ↔ va mod 2 ^ 48 = va' mod 2 ^ 48.
Proof.
  pose proof (leaf_depth_range ps) as Hd. unfold same_slot. rewrite path_eq by lia. rewrite from_page_size_eq.
  set (d := Z.of_nat (leaf_depth ps)) in *. intros Hva Hva'.
  rewrite !(div_mod_aligned (2 ^ (39 - 9 * d))) by (done || apply pow2_pos; lia).
  rewrite <-Z.pow_add_r by lia. replace (39 - 9 * d + 9 * (d + 1)) with 48 by lia.
  split; [|by intros ->]. intros E.
  assert (∀ x, (2 ^ (39 - 9 * d) | x) → 2 ^ (39 - 9 * d) * (x mod 2 ^ 48 / 2 ^ (39 - 9 * d)) = x mod 2 ^ 48) as Hx.
  { intros x Hx. symmetry. apply Z_div_exact_full_2; [pose proof (pow2_pos (39 - 9 * d)); lia|].
    apply Z.mod_divide; [pose proof (pow2_pos (39 - 9 * d)); lia|].
    rewrite Z.mod_eq by lia. apply Z.divide_sub_r; [done|]. apply Z.divide_mul_l.
    exists (2 ^ (9 * (d + 1))). rewrite <-Z.pow_add_r by lia. f_equal. lia. }
  rewrite <-(Hx va Hva), <-(Hx va' Hva'). by rewrite E.
Qed.

(** Offset of an address from the start of a range, in the translated address space. *)
Definition voff (vaddr va : Z) : Z := (va - vaddr) mod 2 ^ 48.

Lemma page_size_bound ps : from_page_size ps ≤ 2 ^ 30.
Proof. by destruct ps. Qed.
Lemma page_size_facts ps : 0 < from_page_size ps ∧ (from_page_size ps | 2 ^ 48) ∧ (from_page_size ps | 2 ^ 64).
Proof.
  destruct ps; (split; [done|split]);
    [by exists (2 ^ 36)|by exists (2 ^ 52)|by exists (2 ^ 27)|by exists (2 ^ 43)|by exists (2 ^ 18)|by exists (2 ^ 34)].
Qed.

Lemma slot_voff ps vaddr va i :
  (from_page_size ps | vaddr) → (from_page_size ps | va) → (from_page_size ps | i) → 0 ≤ i < 2 ^ 48 →
  same_slot (leaf_depth ps) (w64 (vaddr + i)) va ↔ voff vaddr va = i.
Proof.
  intros Hv Hva Hi Hr. destruct (page_size_facts ps) as (Hp & Hp48 & Hp64).
  rewrite same_slot_iff; [|unfold w64; rewrite Z.mod_eq by lia; apply Z.divide_sub_r;
    [by apply Z.divide_add_r|by apply Z.divide_mul_l]|done].
  unfold voff, w64. split; intros E.
  - assert ((vaddr + i) mod 2 ^ 48 = va mod 2 ^ 48) as E'.
    { rewrite <-E. symmetry. apply Z.mod_mod_divide. by exists (2 ^ 16). }
    rewrite Zminus_mod, <-E', <-Zminus_mod. rewrite Z.mod_small; lia.
  - rewrite Z.mod_mod_divide by by exists (2 ^ 16). rewrite <-E, Zplus_mod_idemp_r. f_equal. lia.
Qed.

(** ** Loops over pages *)
Section loops.
Context {St : Type}.
Lemma page_loop_rule (P : Z → pagemaps St → Prop) (Q : error → pagemaps St → Prop) (R : Prop) length np body :
  0 < np → length + np ≤ 2 ^ 64 → (∀ i s, (np | i) → 0 ≤ i < length → P i s → body i s = Panic ∧ R ∨
    (∃ s', body i s = Done (Value (), s') ∧ P (i + np) s') ∨
    (∃ e s', body i s = Done (Unexpected e, s') ∧ Q e s')) →
  ∀ fuel i s, (np | i) → 0 ≤ i → length ≤ i + (Z.of_nat fuel - 1) * np → P i s → (0 < fuel)%nat →
  page_loop fuel i length np body s = Panic ∧ R ∨
  (∃ i' s', page_loop fuel i length np body s = Done (Value (), s') ∧ P i' s' ∧ length ≤ i') ∨
  (∃ e s', page_loop fuel i length np body s = Done (Unexpected e, s') ∧ Q e s').
Proof.
  intros Hnp Hlim Hbody fuel. induction fuel as [|fuel IH]; intros i s Hi Hi0 Hf HP Hpos; [lia|].
  simpl. destruct (Z.leb_spec length i); [right; left; by exists i, s|].
  destruct (Hbody i s Hi ltac:(lia) HP) as [[-> HR]|[(s' & -> & HP')|(e & s' & -> & HQ)]]; simpl.
  - by left.
  - rewrite w64_small by lia. apply IH; [|lia|lia|done|].
    + apply Z.divide_add_r; [done|apply Z.divide_refl].
    + destruct fuel; [lia|lia].
  - right; right. by exists e, s'.
Qed.

Lemma loop_fuel_enough length np : 0 < np → length ≤ 0 + (Z.of_nat (loop_fuel length np) - 1) * np.
Proof.
  intros Hnp. unfold loop_fuel. destruct (decide (0 ≤ length)) as [Hl|]; [|nia].
  pose proof (Z.div_pos length np Hl Hnp). rewrite !Nat2Z.inj_succ, Z2Nat.id by done.
  pose proof (Z.mul_succ_div_gt length np Hnp). lia.
Qed.
End loops.

(** ** The operations *)
Section operations.
Context `{FrameAllocatorLaws St} (hhdm : Z) (Hh : hhdm_ok hhdm).
Context (large_pages use_lowmem : bool).
Abbreviation pagemaps := (pagemaps St).
Abbreviation pm_rep := (pm_rep hhdm).
Abbreviation fixpsize := (fixpsize large_pages).

(** The entry [map] writes for the page at offset [off]. *)
Definition mk_pte (paddr off aflags : Z) : Z := setflags aflags true (setaddr (w64 (paddr + off)) 0).

Lemma voff_range vaddr va : 0 ≤ voff vaddr va < 2 ^ 48.
Proof. apply Z.mod_pos_bound. lia. Qed.
Lemma voff_divide ps vaddr va :
  (from_page_size ps | vaddr) → (from_page_size ps | va) → (from_page_size ps | voff vaddr va).
Proof.
  intros Hv Hva. destruct (page_size_facts ps) as (Hp & Hp48 & _). unfold voff.
  rewrite Z.mod_eq by lia. apply Z.divide_sub_r; [by apply Z.divide_sub_r|by apply Z.divide_mul_l].
Qed.

(** No multiple of the page size lies strictly between two consecutive ones. *)
Lemma next_multiple np a i : 0 < np → (np | a) → (np | i) → i < a + np → i ≤ a.
Proof.
  intros Hnp [x ->] [y ->] Hlt. assert (y < x + 1) by (apply (Z.mul_lt_mono_pos_r np); lia).
  apply Z.mul_le_mono_nonneg_r; lia.
Qed.

(** What a prefix of a page loop that rewrites entries with [f] has done. *)
Definition progress (d : nat) (np vaddr : Z) (f : Z → Z → Z) (s0 : pagemaps) T0 (i : Z) (s : pagemaps) T : Prop :=
  ∀ va, (np | va) → pte_of s d T va =
    if voff vaddr va <? i then f (voff vaddr va) (pte_of s0 d T0 va) else pte_of s0 d T0 va.

Lemma progress_step ps vaddr f s0 T0 i s T s' T' :
  let np := from_page_size ps in let d := leaf_depth ps in
  (np | vaddr) → (np | i) → 0 ≤ i < 2 ^ 48 →
  progress d np vaddr f s0 T0 i s T →
  (∀ va, (np | va) → pte_of s' d T' va =
     if decide (same_slot d (w64 (vaddr + i)) va) then f i (pte_of s d T va) else pte_of s d T va) →
  progress d np vaddr f s0 T0 (i + np) s' T'.
Proof.
  intros np d Hv Hi Hr HP Hs va Hva. destruct (page_size_facts ps) as (Hp & _ & _).
  rewrite Hs by done. pose proof (voff_divide ps vaddr va Hv Hva) as Hd.
  pose proof (slot_voff ps vaddr va i Hv Hva Hi Hr) as Hslot. fold d in Hslot.
  pose proof (HP va Hva) as HPv. rewrite HPv.
  destruct (decide (same_slot d (w64 (vaddr + i)) va)) as [E|E].
  - apply Hslot in E. rewrite E. destruct (Z.ltb_spec i i); [lia|]. destruct (Z.ltb_spec i (i + np)); [done|lia].
  - assert (voff vaddr va ≠ i) as Hne by (intros ?; by apply E, Hslot).
    destruct (Z.ltb_spec (voff vaddr va) i), (Z.ltb_spec (voff vaddr va) (i + np)); try done; try lia.
    pose proof (next_multiple np i (voff vaddr va) Hp Hi Hd ltac:(lia)). lia.
Qed.

Lemma aligned_test vaddr np : 0 < np → (np | vaddr) → negb (vaddr mod np =? 0) = false.
Proof. intros Hnp Hv. apply Z.mod_divide in Hv; [|lia]. by rewrite Hv. Qed.

(** The final state of a loop over [length] bytes. *)
Definition ranged (ps : psize) (vaddr length : Z) (f : Z → Z → Z) (s0 : pagemaps) T0 (s : pagemaps) T : Prop :=
  ∀ va, (from_page_size ps | va) → pte_of s (leaf_depth ps) T va =
    if voff vaddr va <? length then f (voff vaddr va) (pte_of s0 (leaf_depth ps) T0 va)
    else pte_of s0 (leaf_depth ps) T0 va.

Lemma progress_ranged ps vaddr length f s0 T0 i s T :
  (from_page_size ps | vaddr) → (from_page_size ps | i) → length ≤ i < length + from_page_size ps →
  progress (leaf_depth ps) (from_page_size ps) vaddr f s0 T0 i s T →
  ranged ps vaddr length f s0 T0 s T.
Proof.
  intros Hv Hi Hr HP va Hva. rewrite HP by done. pose proof (voff_divide ps vaddr va Hv Hva).
  destruct (page_size_facts ps) as (Hp & _ & _).
  destruct (Z.ltb_spec (voff vaddr va) i), (Z.ltb_spec (voff vaddr va) length); try done; try lia.
  assert (i ≤ voff vaddr va) by (apply (next_multiple (from_page_size ps)); (done || lia)). lia.
Qed.

(** Bounds of the loop counter. *)
Definition counter (np length i : Z) : Prop := (np | i) ∧ 0 ≤ i < length + np.
Lemma counter_step np length i : 0 < np → (np | i) → 0 ≤ i < length → counter np length (i + np).
Proof. intros Hnp Hi Hr. split; [apply Z.divide_add_r; [done|apply Z.divide_refl]|lia]. Qed.
Lemma counter_start np length : 0 < np → 0 ≤ length → counter np length 0.
Proof. intros. split; [apply Z.divide_0_r|lia]. Qed.

Lemma map_spec s table T vaddr paddr length flags ps0 cache :
  let ps := fixpsize ps0 in let d := leaf_depth ps in
  pm_rep s (tohh hhdm table) d T → (from_page_size ps | vaddr) → 0 ≤ length ≤ 2 ^ 48 →
  map hhdm large_pages use_lowmem table vaddr paddr length flags ps0 cache s = Panic ∨
  ∃ s' T', map hhdm large_pages use_lowmem table vaddr paddr length flags ps0 cache s = Done (Value (), s') ∧
    pm_rep s' (tohh hhdm table) d T' ∧
    ranged ps vaddr length (λ off _, mk_pte paddr off (to_arch flags cache ps)) s T s' T' ∧ T ⊆ T' ∧
    (∀ va, (from_page_size ps | va) → voff vaddr va < length → is_Some (leaf_ref d T' va)).
Proof.
  intros ps d Hr Hv Hlen. destruct (page_size_facts ps) as (Hp & _ & _).
  unfold map. fold ps. rewrite aligned_test by done.
  assert (length + from_page_size ps ≤ 2 ^ 64) as Hlim by (pose proof (page_size_bound ps); lia). set (np := from_page_size ps) in *.
  set (f := λ off _ : Z, mk_pte paddr off (to_arch flags cache ps)).
  set (P := λ i s', counter np length i ∧ ∃ T', pm_rep s' (tohh hhdm table) d T' ∧
    progress d np vaddr f s T i s' T' ∧ T ⊆ T' ∧
    ∀ va, (np | va) → voff vaddr va < i → is_Some (leaf_ref d T' va)).
  destruct (page_loop_rule P (λ _ _, False) True length np
    (map_step hhdm use_lowmem table vaddr paddr np (to_arch flags cache ps) ps) Hp Hlim) with (i := 0) (s := s)
    (fuel := loop_fuel length np) as [[-> _]|[(i' & s' & -> & ([Hi' Hr'] & T' & Hrep & Hpr & Hsub & Hsome) & Hle)|(? & ? & _ & [])]].
  - intros i s1 Hi Hir (_ & T1 & Hr1 & Hp1 & Hs1 & Hl1). unfold map_step.
    destruct (getpte_alloc hhdm Hh use_lowmem s1 table T1 (w64 (vaddr + i)) ps Hr1)
      as [->|(s2 & T2 & r & -> & Hr2 & Hlr & Hsub2 & Heq)]; [by left|right; left]. simpl.
    destruct (leaf_wr hhdm s2 _ d T2 _ r (mk_pte paddr i (to_arch flags cache ps)) Hr2 Hlr)
      as (s3 & Hw & Hr3 & Heq3). unfold mk_pte in Hw. rewrite Hw. simpl.
    exists s3. split; [done|]. split; [by apply counter_step|]. exists T2. split_and!; [done| |by etransitivity|].
    + eapply progress_step; [done|done|lia|exact Hp1|]. intros va Hva. rewrite Heq3, Heq. done.
    + intros va Hva Hoff. destruct (decide (voff vaddr va = i)) as [E|E].
      * apply (slot_voff ps) in E; [|done|done|done|lia]. eapply leaf_ref_slot; [exact E|]. by exists r.
      * eapply leaf_ref_mono; [done|]. apply Hl1; [done|].
        pose proof (next_multiple np i (voff vaddr va) Hp Hi (voff_divide ps vaddr va Hv Hva) Hoff). lia.
  - apply Z.divide_0_r.
  - lia.
  - by apply loop_fuel_enough.
  - split; [apply counter_start; lia|]. exists T. split_and!; [done| |done|].
    + intros va Hva. pose proof (voff_range vaddr va). by destruct (Z.ltb_spec (voff vaddr va) 0); [lia|].
    + intros va _. pose proof (voff_range vaddr va). lia.
  - unfold loop_fuel. lia.
  - by left.
  - right. exists s', T'. split_and!; [done..| |done|].
    + by eapply progress_ranged; [|exact Hi'|lia|].
    + intros va Hva Ho. apply Hsome; [done|lia].
Qed.

Lemma protect_spec s table T vaddr length flags ps0 cache :
  let ps := fixpsize ps0 in let d := leaf_depth ps in
  pm_rep s (tohh hhdm table) d T → (from_page_size ps | vaddr) → 0 ≤ length ≤ 2 ^ 48 →
  (∀ va, (from_page_size ps | va) → voff vaddr va < length → is_Some (leaf_ref d T va)) →
  ∃ s', protect hhdm large_pages use_lowmem table vaddr length flags ps0 cache s = Done (Value (), s') ∧
    pm_rep s' (tohh hhdm table) d T ∧
    ranged ps vaddr length (λ _ v, setflags (to_arch flags cache ps) true (clearflags v)) s T s' T.
Proof.
  intros ps d Hr Hv Hlen Hall. destruct (page_size_facts ps) as (Hp & _ & Hp64).
  unfold protect. fold ps. rewrite aligned_test by done.
  assert (length + from_page_size ps ≤ 2 ^ 64) as Hlim by (pose proof (page_size_bound ps); lia). set (np := from_page_size ps) in *.
  set (f := λ _ v, setflags (to_arch flags cache ps) true (clearflags v)).
  set (P := λ i s', counter np length i ∧ pm_rep s' (tohh hhdm table) d T ∧ progress d np vaddr f s T i s' T).
  assert (∀ i, (np | i) → 0 ≤ i < length → ∃ r, leaf_ref d T (w64 (vaddr + i)) = Some r) as Href.
  { intros i Hi Hir. apply Hall.
    - unfold w64. rewrite Z.mod_eq by lia. apply Z.divide_sub_r; [by apply Z.divide_add_r|by apply Z.divide_mul_l].
    - assert (voff vaddr (w64 (vaddr + i)) = i) as ->; [|lia]. apply (slot_voff ps); [done| |done|lia|done].
      unfold w64. rewrite Z.mod_eq by lia. apply Z.divide_sub_r; [by apply Z.divide_add_r|by apply Z.divide_mul_l]. }
  destruct (page_loop_rule P (λ _ _, False) False length np
    (protect_step hhdm use_lowmem table vaddr (to_arch flags cache ps) ps) Hp Hlim) with (i := 0) (s := s)
    (fuel := loop_fuel length np) as [[_ []]|[(i' & s' & -> & ([Hi' Hr'] & Hrep & Hpr) & Hle)|(? & ? & _ & [])]].
  - intros i s1 Hi Hir (_ & Hr1 & Hp1). right. left. unfold protect_step.
    rewrite (getpte_find hhdm use_lowmem s1 table T (w64 (vaddr + i)) ps Hr1). fold d.
    destruct (Href i Hi Hir) as [r Hlr]. rewrite Hlr. simpl.
    rewrite (leaf_rd hhdm s1 _ d T _ r Hr1 Hlr). simpl.
    destruct (leaf_wr hhdm s1 _ d T _ r (f 0 (pte_of s1 d T (w64 (vaddr + i)))) Hr1 Hlr) as (s3 & Hw & Hr3 & Heq3).
    unfold f in Hw. rewrite Hw. simpl. exists s3. split; [done|]. split; [by apply counter_step|].
    split; [done|]. eapply progress_step; [done|done|lia|exact Hp1|]. intros va Hva. rewrite Heq3.
    fold d. case_decide as E; [|done]. by rewrite (pte_of_slot _ _ _ _ _ E).
  - apply Z.divide_0_r.
  - lia.
  - by apply loop_fuel_enough.
  - split; [apply counter_start; lia|]. split; [done|].
    intros va Hva. pose proof (voff_range vaddr va). by destruct (Z.ltb_spec (voff vaddr va) 0); [lia|].
  - unfold loop_fuel. lia.
  - exists s'. split_and!; [done..|]. by eapply progress_ranged; [|exact Hi'|lia|].
Qed.

(** Without the hypothesis that every page has its tables, [protect] may stop early. *)
Lemma protect_total s table T vaddr length flags ps0 cache :
  let ps := fixpsize ps0 in let d := leaf_depth ps in
  pm_rep s (tohh hhdm table) d T → (from_page_size ps | vaddr) → 0 ≤ length ≤ 2 ^ 48 →
  ∃ r s', protect hhdm large_pages use_lowmem table vaddr length flags ps0 cache s = Done (r, s') ∧
    pm_rep s' (tohh hhdm table) d T.
Proof.
  intros ps d Hr Hv Hlen. destruct (page_size_facts ps) as (Hp & _ & _).
  unfold protect. fold ps. rewrite aligned_test by done.
  assert (length + from_page_size ps ≤ 2 ^ 64) as Hlim by (pose proof (page_size_bound ps); lia). set (np := from_page_size ps) in *.
  set (P := λ (_ : Z) s', pm_rep s' (tohh hhdm table) d T).
  destruct (page_loop_rule P (λ _ s', pm_rep s' (tohh hhdm table) d T) False length np
    (protect_step hhdm use_lowmem table vaddr (to_arch flags cache ps) ps) Hp Hlim) with (i := 0) (s := s)
    (fuel := loop_fuel length np) as [[_ []]|[(i' & s' & -> & Hr' & _)|(e & s' & -> & Hr')]].
  - intros i s1 Hi Hir Hr1. right. unfold protect_step.
    rewrite (getpte_find hhdm use_lowmem s1 table T (w64 (vaddr + i)) ps Hr1). fold d.
    destruct (leaf_ref d T (w64 (vaddr + i))) as [r|] eqn:Hlr; simpl; [left|right; by eexists _, s1].
    rewrite (leaf_rd hhdm s1 _ d T _ r Hr1 Hlr). simpl.
    destruct (leaf_wr hhdm s1 _ d T _ r (setflags (to_arch flags cache ps) true
      (clearflags (pte_of s1 d T (w64 (vaddr + i))))) Hr1 Hlr) as (s3 & -> & Hr3 & _).
    simpl. by exists s3.
  - apply Z.divide_0_r.
  - lia.
  - by apply loop_fuel_enough.
  - done.
  - unfold loop_fuel. lia.
  - by eexists _, s'.
  - by eexists _, s'.
Qed.

(** A page whose table does not exist makes [protect] fail at the start of the range. *)
Lemma protect_missing s table T vaddr length flags ps0 cache :
  let ps := fixpsize ps0 in let d := leaf_depth ps in
  pm_rep s (tohh hhdm table) d T → (from_page_size ps | vaddr) → is_w64 vaddr → 0 < length →
  leaf_ref d T vaddr = None →
  protect hhdm large_pages use_lowmem table vaddr length flags ps0 cache s = Done (Unexpected invalid_entry, s).
Proof.
  intros ps d Hr Hv H64 Hlen Hnone. destruct (page_size_facts ps) as (Hp & _ & _).
  unfold protect. fold ps. rewrite aligned_test by done. unfold loop_fuel. cbn [page_loop].
  destruct (Z.leb_spec length 0); [lia|].
  assert (protect_step hhdm use_lowmem table vaddr (to_arch flags cache ps) ps 0 s = Done (Unexpected invalid_entry, s)) as ->.
  { unfold protect_step. rewrite Z.add_0_r, w64_small by done.
    rewrite (getpte_find hhdm use_lowmem s table T vaddr ps Hr). fold d. by rewrite Hnone. }
  done.
Qed.

Lemma unmap_spec s table T vaddr length ps0 :
  let ps := fixpsize ps0 in let d := leaf_depth ps in
  pm_rep s (tohh hhdm table) d T → (from_page_size ps | vaddr) → 0 ≤ length ≤ 2 ^ 48 →
  ∃ s', unmap hhdm large_pages use_lowmem table vaddr length ps0 s = Done (Value (), s') ∧
    pm_rep s' (tohh hhdm table) d T ∧ ranged ps vaddr length (λ _ _, 0) s T s' T.
Proof.
  intros ps d Hr Hv Hlen. destruct (page_size_facts ps) as (Hp & _ & Hp64).
  unfold unmap. fold ps. rewrite aligned_test by done.
  assert (length + from_page_size ps ≤ 2 ^ 64) as Hlim by (pose proof (page_size_bound ps); lia). set (np := from_page_size ps) in *.
  set (f := λ _ _ : Z, 0).
  set (P := λ i s', counter np length i ∧ pm_rep s' (tohh hhdm table) d T ∧ progress d np vaddr f s T i s' T).
  destruct (page_loop_rule P (λ _ _, False) False length np
    (unmap_step hhdm use_lowmem table vaddr ps) Hp Hlim) with (i := 0) (s := s)
    (fuel := loop_fuel length np) as [[_ []]|[(i' & s' & -> & ([Hi' Hr'] & Hrep & Hpr) & Hle)|(? & ? & _ & [])]].
  - intros i s1 Hi Hir (_ & Hr1 & Hp1). right. left. unfold unmap_step.
    rewrite (getpte_find hhdm use_lowmem s1 table T (w64 (vaddr + i)) ps Hr1). fold d.
    destruct (leaf_ref d T (w64 (vaddr + i))) as [r|] eqn:Hlr; simpl.
    + destruct (leaf_wr hhdm s1 _ d T _ r 0 Hr1 Hlr) as (s3 & -> & Hr3 & Heq3).
      simpl. exists s3. split; [done|]. split; [by apply counter_step|].
      split; [done|]. eapply progress_step; [done|done|lia|exact Hp1|]. intros va Hva. by rewrite Heq3.
    + exists s1. split; [done|]. split; [by apply counter_step|]. split; [done|].
      eapply progress_step; [done|done|lia|exact Hp1|]. intros va Hva. fold d. case_decide as E; [|done].
      rewrite <-(pte_of_slot _ _ _ _ _ E). unfold leaf_ref in Hlr. unfold pte_of.
      by destruct (T !! path (w64 (vaddr + i)) d).
  - apply Z.divide_0_r.
  - lia.
  - by apply loop_fuel_enough.
  - split; [apply counter_start; lia|]. split; [done|].
    intros va Hva. pose proof (voff_range vaddr va). by destruct (Z.ltb_spec (voff vaddr va) 0); [lia|].
  - unfold loop_fuel. lia.
  - exists s'. split_and!; [done..|]. by eapply progress_ranged; [|exact Hi'|lia|].
Qed.

Lemma translate_spec s table T va ps0 :
  let ps := fixpsize ps0 in let d := leaf_depth ps in
  pm_rep s (tohh hhdm table) d T → (from_page_size ps | va) →
  translate hhdm large_pages use_lowmem table va ps0 s = Done (
    match leaf_ref d T va with
    | Some _ =>
        let addr := getaddr (pte_of s d T va) in
        if is_canonical addr then Value addr else Unexpected invalid_entry
    | None => Unexpected invalid_entry
    end, s).
Proof.
  intros ps d Hr Hva. destruct (page_size_facts ps) as (Hp & _ & _).
  unfold translate. fold ps. rewrite aligned_test by done.
  rewrite (getpte_find hhdm use_lowmem s table T va ps Hr). fold d. simpl.
  destruct (leaf_ref d T va) as [r|] eqn:Hlr; simpl; [|done].
  rewrite (leaf_rd hhdm s _ d T _ r Hr Hlr). simpl. by destruct (is_canonical _).
Qed.
End operations.

(** ** Architecture flags *)
Lemma land_flag_if c f ret m : Z.land (flag_if c f ret) m = if c then Z.lor (Z.land ret m) (Z.land f m) else Z.land ret m.
Proof. destruct c; simpl; [apply Z.land_lor_distr_l|done]. Qed.

(** Bits of [to_arch] inside the address field. *)
Lemma to_arch_mask flags cache ps :
  Z.land (to_arch flags cache ps) pa_mask =
  if bool_decide (ps ≠ small ∧ (cache = write_protected ∨ cache = write_combining)) then f_lpat else 0.
Proof.
  unfold to_arch.
  destruct cache; rewrite ?Z.land_lor_distr_l, !land_flag_if; destruct ps;
    repeat (match goal with |- context [if negb (Z.land ?a ?b =? ?c) then _ else _] => destruct (Z.land a b =? c) end);
    repeat (match goal with |- context [if Z.land ?a ?b =? ?c then _ else _] => destruct (Z.land a b =? c) end);
    reflexivity.
Qed.

Definition addressable (ps : psize) (cache : caching) : Prop :=
  ps = small ∨ cache ≠ write_protected ∧ cache ≠ write_combining.
Lemma to_arch_addressable flags cache ps : addressable ps cache → Z.land (to_arch flags cache ps) pa_mask = 0.
Proof. intros Ha. rewrite to_arch_mask, bool_decide_eq_false_2; [done|]. unfold addressable in Ha. naive_solver. Qed.

Lemma getaddr_mk_pte paddr off flags cache ps :
  0 ≤ paddr → 0 ≤ off → paddr + off < 2 ^ 46 → (4096 | paddr) → (4096 | off) → addressable ps cache →
  getaddr (mk_pte paddr off (to_arch flags cache ps)) = paddr + off.
Proof.
  intros Hp Ho Hr Hd1 Hd2 Ha. unfold mk_pte. rewrite w64_small by lia.
  rewrite getaddr_pte; [|lia|by apply to_arch_addressable]. apply land_pa_mask; [lia|by apply Z.divide_add_r].
Qed.
Lemma page_divides ps : (4096 | from_page_size ps).
Proof. destruct ps; [by exists 1|by exists 512|by exists (512 * 512)]. Qed.
(** Where the PAT bit of a large page ends up: it is a bit of the address mask. *)
Definition pat_shift (ps : psize) (cache : caching) : Z :=
  if bool_decide (ps ≠ small ∧ (cache = write_protected ∨ cache = write_combining)) then 0x1000 else 0.
Lemma getaddr_pat x flags cache ps : 0 ≤ x < 2 ^ 46 → (from_page_size ps | x) →
  getaddr (setflags (to_arch flags cache ps) true (setaddr x 0)) = x + pat_shift ps cache ∧ x + pat_shift ps cache < 2 ^ 46.
Proof.
  intros Hx Hd. unfold getaddr, setflags, setaddr, pat_shift. rewrite Z.land_0_l, Z.lor_0_l, Z.land_lor_distr_l, to_arch_mask.
  rewrite <-Z.land_assoc, Z.land_diag, land_pa_mask; [|lia|by etransitivity; [apply page_divides|]].
  case_bool_decide as Hc; [|rewrite Z.lor_0_r; lia]. change f_lpat with 0x1000.
  assert (2 ^ 21 | x) as Hd21 by (etransitivity; [|exact Hd]; destruct ps; [by destruct Hc|by exists 1|by exists 512]).
  destruct Hd21 as [q ->]. split; [|lia]. rewrite Z.add_nocarry_lxor, Z.lxor_lor; [done|..].
  all: change 0x1000 with (2 ^ 12); apply Z.bits_inj'; intros i Hi; rewrite Z.land_spec, Z.bits_0, Z.pow2_bits_eqb by lia.
  all: destruct (Z.eqb_spec 12 i) as [<-|]; [|apply andb_false_r]; rewrite Z.mul_pow2_bits_low by lia; done.
Qed.
Lemma small_canonical a : a < 2 ^ 46 → is_canonical a = true.
Proof. intros Ha. unfold is_canonical. apply orb_true_intro. left. apply Z.ltb_lt. lia. Qed.

(** ** Properties *)

(** C16: after [map] has succeeded, [translate] finds the physical address of every page of
    the range, except that it is 4096 too high for large pages whose caching is
    write-combining or write-protected: the PAT bit of a large page lies in the mask of the
    address.  Every translation outside of the range is what it was.  Or [map] panics, as it
    does when no frame is left for a table. *)
Theorem map_translate `{FrameAllocatorLaws St} hhdm large_pages use_lowmem
    (s : pagemaps St) table T vaddr paddr length flags ps0 cache :
  let ps := fixpsize large_pages ps0 in
  hhdm_ok hhdm → pm_rep hhdm s (tohh hhdm table) (leaf_depth ps) T →
  (from_page_size ps | vaddr) → (from_page_size ps | paddr) → 0 ≤ paddr → 0 ≤ length →
  paddr + length ≤ 2 ^ 46 →
  map hhdm large_pages use_lowmem table vaddr paddr length flags ps0 cache s = Panic ∨
  ∃ s', map hhdm large_pages use_lowmem table vaddr paddr length flags ps0 cache s = Done (Value (), s') ∧
    (∃ T', pm_rep hhdm s' (tohh hhdm table) (leaf_depth ps) T') ∧
    ∀ va, (from_page_size ps | va) →
      (voff vaddr va < length → translate hhdm large_pages use_lowmem table va ps0 s' = Done (Value (paddr + voff vaddr va +
         if bool_decide (ps ≠ small ∧ (cache = write_protected ∨ cache = write_combining)) then 4096 else 0), s')) ∧
      (length ≤ voff vaddr va → ∀ a, translate hhdm large_pages use_lowmem table va ps0 s = Done (Value a, s) →
       translate hhdm large_pages use_lowmem table va ps0 s' = Done (Value a, s')).
Proof.
  intros ps Hh Hr Hv Hpa Hp0 Hl Hhi.
  destruct (map_spec hhdm Hh large_pages use_lowmem s table T vaddr paddr length flags ps0 cache Hr Hv ltac:(lia))
    as [->|(s' & T' & -> & Hr' & Hrng & Hsub & Hsome)]; [by left|right].
  fold ps in Hr', Hrng, Hsome.
  exists s'. split; [done|]. split; [by exists T'|]. intros va Hva. split.
  - intros Ho. rewrite (translate_spec hhdm large_pages use_lowmem s' table T' va ps0 Hr' Hva). fold ps.
    destruct (Hsome va Hva Ho) as [r ->]. rewrite (Hrng va Hva).
    destruct (Z.ltb_spec (voff vaddr va) length); [|lia].
    pose proof (voff_range vaddr va). pose proof (voff_divide ps vaddr va Hv Hva) as Hvd.
    destruct (getaddr_pat (paddr + voff vaddr va) flags cache ps) as [Eg Hlt]; [lia|by apply Z.divide_add_r|].
    cbn zeta. unfold mk_pte. rewrite w64_small, Eg, small_canonical by lia. done.
  - intros Ho a. rewrite (translate_spec hhdm large_pages use_lowmem s table T va ps0 Hr Hva).
    rewrite (translate_spec hhdm large_pages use_lowmem s' table T' va ps0 Hr' Hva). fold ps.
    destruct (leaf_ref (leaf_depth ps) T va) as [r|] eqn:E; [|done].
    destruct (leaf_ref_mono (leaf_depth ps) T T' va Hsub) as [r' ->]; [by exists r|].
    rewrite (Hrng va Hva). destruct (Z.ltb_spec (voff vaddr va) length); [lia|].
    simpl. destruct (is_canonical _); [|done]. by intros [= ->].
Qed.

(** [protect] replaces the flags of the pages of a mapped range and keeps their
    addresses; it does not touch other pages. *)
Theorem protect_keeps_addresses `{FrameAllocatorLaws St} hhdm large_pages use_lowmem
    (s : pagemaps St) table T vaddr length flags ps0 cache :
  let ps := fixpsize large_pages ps0 in let d := leaf_depth ps in
  hhdm_ok hhdm → pm_rep hhdm s (tohh hhdm table) d T →
  (from_page_size ps | vaddr) → 0 ≤ length ≤ 2 ^ 48 → addressable ps cache →
  (∀ va, (from_page_size ps | va) → voff vaddr va < length → is_Some (leaf_ref d T va)) →
  ∃ s', protect hhdm large_pages use_lowmem table vaddr length flags ps0 cache s = Done (Value (), s') ∧
    pm_rep hhdm s' (tohh hhdm table) d T ∧
    ∀ va, (from_page_size ps | va) →
      getaddr (pte_of s' d T va) = getaddr (pte_of s d T va) ∧
      (voff vaddr va < length → pte_of s' d T va = Z.lor (getaddr (pte_of s d T va)) (to_arch flags cache ps)) ∧
      (length ≤ voff vaddr va → pte_of s' d T va = pte_of s d T va).
Proof.
  intros ps d Hh Hr Hv Hl Ha Hall.
  destruct (protect_spec hhdm large_pages use_lowmem s table T vaddr length flags ps0 cache Hr Hv Hl Hall)
    as (s' & -> & Hr' & Hrng).
  exists s'. split; [done|]. split; [done|]. intros va Hva. specialize (Hrng va Hva). fold ps d in Hrng.
  rewrite Hrng. destruct (Z.ltb_spec (voff vaddr va) length); (split; [|split]); try done; try lia.
  unfold getaddr, setflags, clearflags. rewrite Z.land_lor_distr_l, to_arch_addressable, Z.lor_0_r by done.
  by rewrite <-Z.land_assoc, Z.land_diag.
Qed.

(** [unmap] never fails, clears exactly the entries of its range and skips holes; an
    address whose tables remain then translates to 0, not to an error. *)
Theorem unmap_translate `{FrameAllocatorLaws St} hhdm large_pages use_lowmem
    (s : pagemaps St) table T vaddr length ps0 :
  let ps := fixpsize large_pages ps0 in let d := leaf_depth ps in
  hhdm_ok hhdm → pm_rep hhdm s (tohh hhdm table) d T →
  (from_page_size ps | vaddr) → 0 ≤ length ≤ 2 ^ 48 →
  ∃ s', unmap hhdm large_pages use_lowmem table vaddr length ps0 s = Done (Value (), s') ∧
    pm_rep hhdm s' (tohh hhdm table) d T ∧
    ∀ va, (from_page_size ps | va) →
      (voff vaddr va < length → translate hhdm large_pages use_lowmem table va ps0 s' =
         Done (match leaf_ref d T va with Some _ => Value 0 | None => Unexpected invalid_entry end, s')) ∧
      (length ≤ voff vaddr va → ∀ r, translate hhdm large_pages use_lowmem table va ps0 s = Done (r, s) →
         translate hhdm large_pages use_lowmem table va ps0 s' = Done (r, s')).
Proof.
  intros ps d Hh Hr Hv Hl.
  destruct (unmap_spec hhdm large_pages use_lowmem s table T vaddr length ps0 Hr Hv Hl) as (s' & -> & Hr' & Hrng).
  exists s'. split; [done|]. split; [done|]. intros va Hva. specialize (Hrng va Hva). fold ps d in Hrng.
  rewrite (translate_spec hhdm large_pages use_lowmem s table T va ps0 Hr Hva).
  rewrite (translate_spec hhdm large_pages use_lowmem s' table T va ps0 Hr' Hva). fold ps d. rewrite Hrng.
  destruct (Z.ltb_spec (voff vaddr va) length); split; try lia.
  - intros _. by destruct (leaf_ref d T va).
  - intros _ r [= <-]. done.
Qed.

(** The flags of an entry determine the [pflag]s and the caching mode that were asked
    for, except that [device] is read back as [uncacheable_strong]. *)
Theorem arch_flags_roundtrip flags cache ps :
  0 ≤ flags < 32 →
  from_arch (to_arch flags cache ps) ps =
  (flags, if bool_decide (cache = device) then uncacheable_strong else cache).
Proof.
  intros Hf.
  assert (range_forall 0 32 (λ fl, forallb (λ c, forallb (λ p,
    bool_decide (from_arch (to_arch fl c p) p = (fl, if bool_decide (c = device) then uncacheable_strong else c)))
    [small; medium; large])
    [uncacheable; uncacheable_strong; write_through; write_protected; write_combining; write_back; device]) = true) as Hall
    by (vm_compute; reflexivity).
  apply (range_forall_spec 0 32 _ flags) in Hall; [|lia].
  rewrite forallb_forall in Hall. specialize (Hall cache ltac:(destruct cache; simpl; tauto)).
  rewrite forallb_forall in Hall. specialize (Hall ps ltac:(destruct ps; simpl; tauto)).
  by apply bool_decide_eq_true in Hall.
Qed.

(** ** Witnesses: a page map without mappings *)
Definition ex_root : Z := 0x1000.
Definition ex_maps : pagemaps Z := mk_pagemaps {[ tohh ex_hhdm ex_root := empty_table ]} 0x2000.
Lemma ex_maps_rep d : pm_rep ex_hhdm ex_maps (tohh ex_hhdm ex_root) d {[ [] := tohh ex_hhdm ex_root ]}.
Proof.
  split.
  - apply lookup_singleton_eq.
  - intros p t [<- <-]%lookup_singleton_Some. split; [simpl; lia|]. split; [done|].
    exists empty_table. split; [apply lookup_singleton_eq|done].
  - intros p p' t [<- _]%lookup_singleton_Some [<- _]%lookup_singleton_Some. done.
  - intros p i t es v [<- <-]%lookup_singleton_Some _ Hes Hv.
    rewrite lookup_singleton_ne by done. simpl in Hes. rewrite lookup_singleton_eq in Hes.
    injection Hes as <-. unfold empty_table in Hv. by apply lookup_replicate_1 in Hv as [-> _].
  - intros p i t [E _]%lookup_singleton_Some. by destruct p.
  - exists (λ x, x < 0x2000). split; [split; [done|]; split; [by exists 2|done]|].
    intros t [es Hes]. simpl in Hes. apply lookup_singleton_Some in Hes as [<- _].
    exists ex_root. split; [done|]. by vm_compute.
Qed.

(** The operations on the example do not run out of frames. *)
Definition ex_map (ps : psize) (cache : caching) :=
  map ex_hhdm true false ex_root 0x40000000 0x200000 0x200000 (Z.lor pf_read pf_write) ps cache ex_maps.
Lemma ex_map_ok : is_panic (ex_map small write_back) = false ∧ is_panic (ex_map medium write_combining) = false.
Proof. split; vm_compute; reflexivity. Qed.

(** Small pages, and a large page that is write-combining. *)
Lemma map_translate_witness :
  (∃ s', ex_map small write_back = Done (Value (), s') ∧
    translate ex_hhdm true false ex_root 0x40001000 small s' = Done (Value 0x201000, s')) ∧
  ∃ s', ex_map medium write_combining = Done (Value (), s') ∧
    translate ex_hhdm true false ex_root 0x40000000 medium s' = Done (Value 0x201000, s').
Proof.
  split.
  - destruct (map_translate ex_hhdm true false ex_maps ex_root _ 0x40000000 0x200000 0x200000
      (Z.lor pf_read pf_write) small write_back ex_hhdm_ok (ex_maps_rep _)) as [E|(s' & E & _ & Ht)];
      [by exists 0x40000|by exists 0x200|lia|lia|lia| |].
    + pose proof (proj1 ex_map_ok) as Ho. unfold ex_map in Ho. rewrite E in Ho. discriminate Ho.
    + exists s'. split; [exact E|].
      destruct (Ht 0x40001000 ltac:(by exists 0x40001)) as [Hin _]. exact (Hin eq_refl).
  - destruct (map_translate ex_hhdm true false ex_maps ex_root _ 0x40000000 0x200000 0x200000
      (Z.lor pf_read pf_write) medium write_combining ex_hhdm_ok (ex_maps_rep _)) as [E|(s' & E & _ & Ht)];
      [by exists 0x200|by exists 1|lia|lia|lia| |].
    + pose proof (proj2 ex_map_ok) as Ho. unfold ex_map in Ho. rewrite E in Ho. discriminate Ho.
    + exists s'. split; [exact E|].
      destruct (Ht 0x40000000 ltac:(by exists 0x200)) as [Hin _]. exact (Hin eq_refl).
Defined.

(** The state after the mapping. *)
Lemma ex_mapped :
  ∃ s' T', ex_map small write_back = Done (Value (), s') ∧ pm_rep ex_hhdm s' (tohh ex_hhdm ex_root) 3 T' ∧
    ∀ va, (4096 | va) → voff 0x40000000 va < 0x200000 → is_Some (leaf_ref 3 T' va).
Proof.
  destruct (map_spec ex_hhdm ex_hhdm_ok true false ex_maps ex_root _ 0x40000000 0x200000 0x200000
    (Z.lor pf_read pf_write) small write_back (ex_maps_rep _)) as [E|(s' & T' & E & Hr & _ & _ & Hs)];
    [by exists 0x40000|lia| |].
  - pose proof (proj1 ex_map_ok) as Ho. unfold ex_map in Ho. rewrite E in Ho. discriminate Ho.
  - exists s', T'. split; [exact E|]. split; [exact Hr|exact Hs].
Qed.

Lemma unmap_translate_witness :
  ∃ s1 s', ex_map small write_back = Done (Value (), s1) ∧
    unmap ex_hhdm true false ex_root 0x40000000 0x3000 small s1 = Done (Value (), s') ∧
    translate ex_hhdm true false ex_root 0x40001000 small s' = Done (Value 0, s').
Proof.
  destruct ex_mapped as (s1 & T1 & E1 & Hr1 & Hs1).
  destruct (unmap_translate ex_hhdm true false s1 ex_root T1 0x40000000 0x3000 small ex_hhdm_ok Hr1)
    as (s' & E & _ & Ht); [by exists 0x40000|lia|].
  exists s1, s'. split; [exact E1|]. split; [exact E|].
  destruct (Hs1 0x40001000 ltac:(by exists 0x40001) eq_refl) as [r Hlr].
  destruct (Ht 0x40001000 ltac:(by exists 0x40001)) as [Hin _]. rewrite (Hin eq_refl).
  change (leaf_depth (fixpsize true small)) with 3%nat. by rewrite Hlr.
Defined.

Lemma protect_keeps_addresses_witness :
  ∃ s1 T1 s', ex_map small write_back = Done (Value (), s1) ∧
    protect ex_hhdm true false ex_root 0x40000000 0x3000 pf_read small write_back s1 = Done (Value (), s') ∧
    getaddr (pte_of s' 3 T1 0x40001000) = getaddr (pte_of s1 3 T1 0x40001000).
Proof.
  destruct ex_mapped as (s1 & T1 & E1 & Hr1 & Hs1).
  destruct (protect_keeps_addresses ex_hhdm true false s1 ex_root T1 0x40000000 0x3000 pf_read small write_back
    ex_hhdm_ok Hr1) as (s' & E & _ & Ht).
  - by exists 0x40000.
  - lia.
  - by left.
  - intros va Hva Hv. apply Hs1; [exact Hva|lia].
  - exists s1, T1, s'. split; [exact E1|]. split; [exact E|]. apply (Ht 0x40001000). by exists 0x40001.
Defined.

Lemma arch_flags_roundtrip_witness :
  from_arch (to_arch 11 device medium) medium = (11, uncacheable_strong).
Proof. apply (arch_flags_roundtrip 11 device medium). lia. Defined.
