(* ===== verification/LibC.v ===== *)
(** The freestanding C library (kernel/source/libc/string.cpp, ctype.cpp, wchar.cpp and
    [lib::str2int] of kernel/interfaces/lib/string.cppm): definitions over a byte memory in
    which unmapped addresses fault. *)

From S2P Require Import Prelude.

Abbreviation bytemem := (gmap Z Z).
Definition ld (p : Z) (m : bytemem) : outcome Z := deref (m !! p).
Definition st (p v : Z) (m : bytemem) : outcome bytemem :=
  _ ← ld p m; Done (<[p := v mod 256]> m).

(** ** Memory functions *)
Fixpoint memcpy_loop (n : nat) (i dest src : Z) (m : bytemem) : outcome bytemem :=
  match n with
  | O => Done m
  | S n => x ← ld (src + i) m; m ← st (dest + i) x m; memcpy_loop n (i + 1) dest src m
  end.
Definition memcpy (dest src : Z) (len : nat) (m : bytemem) : outcome bytemem := memcpy_loop len 0 dest src m.

Fixpoint memset_loop (n : nat) (i ptr ch : Z) (m : bytemem) : outcome bytemem :=
  match n with
  | O => Done m
  | S n => m ← st (ptr + i) (w8 ch) m; memset_loop n (i + 1) ptr ch m
  end.
Definition memset (dest ch : Z) (len : nat) (m : bytemem) : outcome bytemem := memset_loop len 0 dest ch m.

(** The downwards loop of [memmove]; [i] counts down to 0. *)
Fixpoint memmove_down (i : nat) (dest src : Z) (m : bytemem) : outcome bytemem :=
  match i with
  | O => Done m
  | S i => x ← ld (src + Z.of_nat i) m; m ← st (dest + Z.of_nat i) x m; memmove_down i dest src m
  end.
Definition memmove (dest src : Z) (len : nat) (m : bytemem) : outcome bytemem :=
  if dest <? src then memcpy_loop len 0 dest src m
  else if src <? dest then memmove_down len dest src m
  else Done m.

Fixpoint memcmp_loop (n : nat) (i p1 p2 : Z) (m : bytemem) : outcome Z :=
  match n with
  | O => Done 0
  | S n =>
      a ← ld (p1 + i) m; b ← ld (p2 + i) m;
      if negb (a =? b) then Done (if a <? b then -1 else 1) else memcmp_loop n (i + 1) p1 p2 m
  end.
Definition memcmp (p1 p2 : Z) (len : nat) (m : bytemem) : outcome Z := memcmp_loop len 0 p1 p2 m.

(** [memchr]; the null pointer is 0. [ch] is compared as an [int]. *)
Fixpoint memchr (psrc ch : Z) (len : nat) (m : bytemem) : outcome Z :=
  match len with
  | O => Done 0
  | S len => a ← ld psrc m; if a =? ch then Done psrc else memchr (psrc + 1) ch len m
  end.

(** *** The word-at-a-time versions of ILOBILIX_MAX_UACPI_POINTS *)
Fixpoint alias_load (w : nat) (p : Z) (m : bytemem) : outcome Z :=
  match w with
  | O => Done 0
  | S w => b ← ld p m; r ← alias_load w (p + 1) m; Done (b + 256 * r)
  end.
Fixpoint alias_store (w : nat) (p v : Z) (m : bytemem) : outcome bytemem :=
  match w with
  | O => Done m
  | S w => m ← st p (v mod 256) m; alias_store w (p + 1) (v / 256) m
  end.

(** Load [k] words of [w] bytes one after the other, then store them. *)
Fixpoint load_words (k w : nat) (p : Z) (m : bytemem) : outcome (list Z) :=
  match k with
  | O => Done []
  | S k => v ← alias_load w p m; vs ← load_words k w (p + Z.of_nat w) m; Done (v :: vs)
  end.
Fixpoint store_words (w : nat) (p : Z) (vs : list Z) (m : bytemem) : outcome bytemem :=
  match vs with
  | [] => Done m
  | v :: vs => m ← alias_store w p v m; store_words w (p + Z.of_nat w) vs m
  end.
Definition copy_words (k w : nat) (dest src : Z) (m : bytemem) : outcome bytemem :=
  vs ← load_words k w src m; store_words w dest vs m.

(** [if (n >= k * w) { ... n -= k * w; }], with the rest of the function as continuation. *)
Definition copy_if (k w : nat) (rest : Z → Z → nat → bytemem → outcome bytemem)
    (dest src : Z) (n : nat) (m : bytemem) : outcome bytemem :=
  if (k * w <=? n)%nat then
    m ← copy_words k w dest src m;
    rest (dest + Z.of_nat (k * w)) (src + Z.of_nat (k * w)) (n - k * w)%nat m
  else rest dest src n m.
Definition copy_tail : Z → Z → nat → bytemem → outcome bytemem :=
  copy_if 4 8 (copy_if 2 8 (copy_if 1 8 (copy_if 1 4 (copy_if 1 2
    (copy_if 1 1 (λ _ _ _ m, Done m)))))).
Fixpoint memcpy_words_loop (fuel : nat) (dest src : Z) (n : nat) (m : bytemem) : outcome bytemem :=
  match fuel with
  | O => NoFuel
  | S fuel => if (64 <=? n)%nat then copy_if 8 8 (memcpy_words_loop fuel) dest src n m else copy_tail dest src n m
  end.
Definition memcpy_words (dest src : Z) (n : nat) (m : bytemem) : outcome bytemem :=
  memcpy_words_loop (S n) dest src n m.

(** The pattern of [k] equal bytes. *)
Definition pattern (k : nat) (byte : Z) : Z :=
  foldr (λ i acc, Z.lor (Z.shiftl byte (8 * i)) acc) 0 (seqZ 0 (Z.of_nat k)).
Definition set_if (k w : nat) (byte : Z) (rest : Z → nat → bytemem → outcome bytemem)
    (dest : Z) (n : nat) (m : bytemem) : outcome bytemem :=
  if (k * w <=? n)%nat then
    m ← store_words w dest (replicate k (pattern w byte)) m;
    rest (dest + Z.of_nat (k * w)) (n - k * w)%nat m
  else rest dest n m.
Definition set_tail (byte : Z) : Z → nat → bytemem → outcome bytemem :=
  set_if 4 8 byte (set_if 2 8 byte (set_if 1 8 byte (set_if 1 4 byte (set_if 1 2 byte
    (set_if 1 1 byte (λ _ _ m, Done m)))))).
Fixpoint memset_words_loop (fuel : nat) (byte dest : Z) (n : nat) (m : bytemem) : outcome bytemem :=
  match fuel with
  | O => NoFuel
  | S fuel => if (64 <=? n)%nat then set_if 8 8 byte (memset_words_loop fuel byte) dest n m else set_tail byte dest n m
  end.
(** The prologue stores single bytes up to an 8-byte boundary. *)
Fixpoint memset_align (byte dest : Z) (n : nat) (m : bytemem) : outcome bytemem :=
  match n with
  | O => memset_words_loop 1 byte dest 0 m
  | S n' =>
      if Z.land dest 7 =? 0 then memset_words_loop (S n) byte dest n m
      else m ← st dest byte m; memset_align byte (dest + 1) n' m
  end.
Definition memset_words (dest val : Z) (n : nat) (m : bytemem) : outcome bytemem :=
  memset_align (w8 val) dest n m.

(** ** Strings *)
(** [char] is signed; a byte of bytemem is read as one where it is compared. *)
Definition ch8 (x : Z) : Z := s8 x.

Fixpoint strlen_loop (fuel : nat) (str length : Z) (m : bytemem) : outcome Z :=
  match fuel with
  | O => NoFuel
  | S fuel => c ← ld (str + length) m; if c =? 0 then Done length else strlen_loop fuel str (length + 1) m
  end.
Definition strlen (fuel : nat) (str : Z) (m : bytemem) : outcome Z := strlen_loop fuel str 0 m.

Fixpoint strnlen_loop (n : nat) (str length : Z) (m : bytemem) : outcome Z :=
  match n with
  | O => Done length
  | S n => c ← ld (str + length) m; if c =? 0 then Done length else strnlen_loop n str (length + 1) m
  end.
Definition strnlen (str : Z) (len : nat) (m : bytemem) : outcome Z := strnlen_loop len str 0 m.

(** The copying loop shared by [strcat] and [strcpy]. *)
Fixpoint str_copy (fuel : nat) (dest src : Z) (m : bytemem) : outcome bytemem :=
  match fuel with
  | O => NoFuel
  | S fuel =>
      c ← ld src m;
      if c =? 0 then st dest 0 m else m ← st dest c m; str_copy fuel (dest + 1) (src + 1) m
  end.
(** The same loop with [&& len--], of [strncat] and [strncpy]. *)
Fixpoint str_ncopy (fuel : nat) (dest src : Z) (len : Z) (m : bytemem) : outcome bytemem :=
  match fuel with
  | O => NoFuel
  | S fuel =>
      c ← ld src m;
      if (c =? 0) || (len =? 0) then st dest 0 m
      else m ← st dest c m; str_ncopy fuel (dest + 1) (src + 1) (len - 1) m
  end.
Definition strcpy (fuel : nat) (dest src : Z) (m : bytemem) : outcome bytemem := str_copy fuel dest src m.
Definition strncpy (fuel : nat) (dest src len : Z) (m : bytemem) : outcome bytemem := str_ncopy fuel dest src len m.
Definition strcat (fuel : nat) (dest src : Z) (m : bytemem) : outcome bytemem :=
  l ← strlen fuel dest m; str_copy fuel (dest + l) src m.
Definition strncat (fuel : nat) (dest src len : Z) (m : bytemem) : outcome bytemem :=
  l ← strlen fuel dest m; str_ncopy fuel (dest + l) src len m.

Fixpoint strchr (fuel : nat) (str ch : Z) (m : bytemem) : outcome Z :=
  match fuel with
  | O => NoFuel
  | S fuel =>
      c ← ld str m;
      if negb (c =? 0) && negb (ch8 c =? ch) then strchr fuel (str + 1) ch m
      else Done (if ch =? ch8 c then str else 0)
  end.

Fixpoint strcmp (fuel : nat) (s1 s2 : Z) (m : bytemem) : outcome Z :=
  match fuel with
  | O => NoFuel
  | S fuel =>
      a ← ld s1 m; b ← ld s2 m;
      if negb (a =? 0) && negb (b =? 0) && (a =? b) then strcmp fuel (s1 + 1) (s2 + 1) m
      else Done (ch8 a - ch8 b)
  end.

(** [len] wraps around when [len--] is evaluated at 0. *)
Fixpoint strncmp (fuel : nat) (s1 s2 len : Z) (m : bytemem) : outcome Z :=
  match fuel with
  | O => NoFuel
  | S fuel =>
      a ← ld s1 m; b ← ld s2 m;
      if negb (a =? 0) && negb (b =? 0) && (a =? b) then
        let len' := w64 (len - 1) in
        if negb (len =? 0) then strncmp fuel (s1 + 1) (s2 + 1) len' m
        else Done (if len' =? 0 then 0 else ch8 a - ch8 b)
      else Done (if len =? 0 then 0 else ch8 a - ch8 b)
  end.

Fixpoint strstr_loop (fuel : nat) (str substr a b : Z) (m : bytemem) : outcome Z :=
  match fuel with
  | O => NoFuel
  | S fuel =>
      vb ← ld b m;
      if vb =? 0 then Done str else
      va ← ld a m;
      if va =? 0 then Done 0 else
      if negb (va =? vb) then strstr_loop fuel (str + 1) substr (str + 1) substr m
      else strstr_loop fuel str substr (a + 1) (b + 1) m
  end.
Definition strstr (fuel : nat) (str substr : Z) (m : bytemem) : outcome Z := strstr_loop fuel str substr str substr m.

(** [i] and [j] are [std::size_t]; addresses wrap around. *)
Fixpoint strrev_loop (fuel : nat) (str i j : Z) (m : bytemem) : outcome bytemem :=
  match fuel with
  | O => NoFuel
  | S fuel =>
      if i <? j then
        a ← ld (w64 (str + i)) m;
        b ← ld (w64 (str + j)) m;
        m ← st (w64 (str + i)) b m;
        m ← st (w64 (str + j)) a m;
        strrev_loop fuel str (i + 1) (w64 (j - 1)) m
      else Done m
  end.
Definition strrev (fuel : nat) (str : Z) (m : bytemem) : outcome bytemem :=
  len ← strlen fuel str m; strrev_loop fuel str 0 (w64 (len - 1)) m.

(** ** Wide characters: elements of four bytes at consecutive indices *)
Definition wmemcpy (dest src : Z) (count : nat) (m : bytemem) : outcome bytemem := memcpy dest src (count * 4) m.
Definition wmemmove (dest src : Z) (count : nat) (m : bytemem) : outcome bytemem := memmove dest src (count * 4) m.
Definition ld32 (p : Z) (m : bytemem) : outcome Z := v ← alias_load 4 p m; Done (s32 v).
Fixpoint wmemset (dest ch : Z) (count : nat) (m : bytemem) : outcome bytemem :=
  match count with
  | O => Done m
  | S count => m ← alias_store 4 dest (w32 ch) m; wmemset (dest + 4) ch count m
  end.
Fixpoint wmemchr (ptr ch : Z) (count : nat) (m : bytemem) : outcome Z :=
  match count with
  | O => Done 0
  | S count => c ← ld32 ptr m; if c =? ch then Done ptr else wmemchr (ptr + 4) ch count m
  end.
Fixpoint wmemcmp (lhs rhs : Z) (count : nat) (m : bytemem) : outcome Z :=
  match count with
  | O => Done 0
  | S count =>
      a ← ld32 lhs m; b ← ld32 rhs m;
      if a =? b then wmemcmp (lhs + 4) (rhs + 4) count m else Done (s32 (a - b))
  end.
Fixpoint wcslen (fuel : nat) (start fin : Z) (m : bytemem) : outcome Z :=
  match fuel with
  | O => NoFuel
  | S fuel => c ← ld32 fin m; if c =? 0 then Done ((fin - start) / 4) else wcslen fuel start (fin + 4) m
  end.

(** ** Character classes *)
Definition within (lo hi c : Z) : bool := (lo <=? c) && (c <=? hi).
Definition isdigit (c : Z) : bool := within 48 57 c.
Definition islower (c : Z) : bool := within 97 122 c.
Definition isupper (c : Z) : bool := within 65 90 c.
Definition isalpha (c : Z) : bool := within 97 122 c || within 65 90 c.
Definition isalnum (c : Z) : bool := within 48 57 c || within 97 122 c || within 65 90 c.
Definition isxdigit (c : Z) : bool := within 48 57 c || within 97 102 c || within 65 70 c.
Definition iscntrl (c : Z) : bool := within 0 31 c || (c =? 127).
Definition isgraph (c : Z) : bool := within 33 126 c.
Definition isspace (c : Z) : bool :=
  (c =? 32) || (c =? 12) || (c =? 10) || (c =? 13) || (c =? 9) || (c =? 11).
Definition isblank (c : Z) : bool := (c =? 32) || (c =? 9).
Definition isprint (c : Z) : bool := within 33 126 c || (c =? 32).
Definition ispunct (c : Z) : bool := within 33 47 c || within 58 64 c || within 91 96 c || within 123 126 c.
Definition toupper (c : Z) : Z := if within 97 122 c then c - 32 else c.
Definition tolower (c : Z) : Z := if within 65 90 c then c + 32 else c.

(** ** [lib::str2int] for a 64-bit [Ret] *)
Section str2int.
(** [std::is_unsigned_v<Ret>] *)
Context (unsigned : bool).
Definition ret_max : Z := if unsigned then 2 ^ 64 - 1 else 2 ^ 63 - 1.
Definition ret_min : Z := if unsigned then 0 else - 2 ^ 63.
Definition to_ret (x : Z) : Z := if unsigned then w64 x else s64 x.

Fixpoint skip_space (fuel : nat) (str : Z) (m : bytemem) : outcome Z :=
  match fuel with
  | O => NoFuel
  | S fuel => c ← ld str m; if isspace (ch8 c) then skip_space fuel (str + 1) m else Done str
  end.

(** [URet digit]; [None] is [break]. *)
Definition digit_of (c : Z) : option Z :=
  if isdigit c then Some (c - 48)
  else if isupper c then Some (c - 65 + 0x10)
  else if islower c then Some (c - 97 + 0x10)
  else None.

(** End of the digits, value, whether a digit was converted, whether it overflowed. *)
Fixpoint digits_loop (fuel : nat) (str base cutoff cutlim total : Z) (converted oor : bool) (m : bytemem)
    : outcome (Z * Z * bool * bool) :=
  match fuel with
  | O => NoFuel
  | S fuel =>
      c ← ld str m;
      let c := ch8 c in
      if c =? 0 then Done (str, total, converted, oor) else
      match digit_of c with
      | None => Done (str, total, converted, oor)
      | Some digit =>
          if base <=? digit then Done (str, total, converted, oor) else
          if oor then digits_loop fuel (str + 1) base cutoff cutlim total converted oor m else
          if (cutoff <=? total) || ((total =? cutoff) && (cutlim <? digit)) then
            digits_loop fuel (str + 1) base cutoff cutlim total converted true m
          else digits_loop fuel (str + 1) base cutoff cutlim (w64 (total * base + digit)) true oor m
      end
  end.

(** [cutoff] and [cutlim]; for an unsigned type [cutoff] is assigned twice. *)
Definition cut (negative : bool) (base : Z) : Z * Z :=
  if unsigned then (ret_max mod base, 0)
  else
    let co := if negative then ret_min else ret_max in
    let cutlim := if negative then - Z.rem co base else Z.rem co base in
    (w64 (Z.quot co (if negative then - base else base)), w64 cutlim).

(** The result, the value of [*endptr] and whether [errno] is set to [ERANGE]. *)
Definition str2int (fuel : nat) (nptr base : Z) (m : bytemem) : outcome (Z * Z * bool) :=
  if (if unsigned then false else base <? 0) || (base =? 1) then Done (0, nptr, false) else
  str ← skip_space fuel nptr m;
  c ← ld str m;
  let negative := c =? 45 in
  let str := if negative then str + 1 else if c =? 43 then str + 1 else str in
  c0 ← ld str m;
  let octal := c0 =? 48 in
  hex ← (if octal then c1 ← ld (str + 1) m; Done ((c1 =? 120) || (c1 =? 88)) else Done false);
  xd ← (if ((base =? 0) || (base =? 16)) && hex then c2 ← ld (str + 2) m; Done (isxdigit (ch8 c2)) else Done false);
  let '(str, base) :=
    if (xd : bool) then (str + 2, 16)
    else if ((base =? 0) || (base =? 8)) && octal then (str, 8)
    else if base =? 0 then (str, 10)
    else (str, base) in
  let '(cutoff, cutlim) := cut negative base in
  '(fin, total, converted, oor) ← digits_loop fuel str base cutoff cutlim 0 false false m;
  let endptr := if (converted : bool) then fin else nptr in
  if (oor : bool) then Done (if unsigned then ret_max else if negative then ret_min else ret_max, endptr, true)
  else Done (to_ret (if negative then - total else total), endptr, false).
End str2int.

Definition atoi (fuel : nat) (str : Z) (m : bytemem) : outcome Z :=
  '(v, _, _) ← str2int false fuel str 10 m; Done (s32 v).
Definition strtol (fuel : nat) (str base : Z) (m : bytemem) := str2int false fuel str base m.
Definition strtoul (fuel : nat) (str base : Z) (m : bytemem) := str2int true fuel str (w64 base) m.
