(* ===== verification/LibCSpec.v ===== *)
(** Correctness of the C library: the memory functions against the reference "the bytes of
    a list are written at an address", the string functions against lists of characters. *)

From S2P Require Import Prelude Math LibC.

(** ** Bytes in memory *)
Definition bytes_at (m : bytemem) (p : Z) (l : list Z) : Prop :=
  ∀ i x, l !! i = Some x → m !! (p + Z.of_nat i) = Some x.
Definition are_bytes (l : list Z) : Prop := Forall (λ x, 0 ≤ x < 256) l.
Definition mapped (m : bytemem) (p : Z) (n : nat) : Prop :=
  ∀ i, (i < n)%nat → is_Some (m !! (p + Z.of_nat i)).

Fixpoint write_bytes (m : bytemem) (p : Z) (l : list Z) : bytemem :=
  match l with [] => m | x :: l => write_bytes (<[p := x]> m) (p + 1) l end.

Lemma write_bytes_lookup m p l q :
  write_bytes m p l !! q =
  if decide (p ≤ q < p + Z.of_nat (length l)) then l !! Z.to_nat (q - p) else m !! q.
Proof.
  revert m p. induction l as [|x l IH]; intros m p; simpl.
  { by rewrite decide_False by lia. }
  rewrite IH. destruct (decide (q = p)) as [->|Hne].
  - rewrite decide_False, decide_True by lia. rewrite lookup_insert_eq. by rewrite Z.sub_diag.
  - rewrite lookup_insert_ne by done. destruct (decide (p + 1 ≤ q < p + 1 + Z.of_nat (length l))).
    + rewrite decide_True by lia. by replace (Z.to_nat (q - p)) with (S (Z.to_nat (q - (p + 1)))) by lia.
    + by rewrite decide_False by lia.
Qed.

Lemma write_bytes_app m p l1 l2 :
  write_bytes m p (l1 ++ l2) = write_bytes (write_bytes m p l1) (p + Z.of_nat (length l1)) l2.
Proof.
  revert m p. induction l1 as [|x l1 IH]; intros m p; simpl; [by rewrite Z.add_0_r|].
  rewrite IH. f_equal. lia.
Qed.
Lemma write_bytes_is_Some m p l q : is_Some (m !! q) → is_Some (write_bytes m p l !! q).
Proof.
  intros Hq. rewrite write_bytes_lookup. case_decide; [|done]. apply lookup_lt_is_Some_2. lia.
Qed.
Lemma mapped_write m p n q l : mapped m p n → mapped (write_bytes m q l) p n.
Proof. intros Hm i Hi. by apply write_bytes_is_Some, Hm. Qed.
Lemma mapped_app m p n1 n2 : mapped m p (n1 + n2) → mapped m p n1 ∧ mapped m (p + Z.of_nat n1) n2.
Proof.
  intros Hm. split; intros i Hi; [apply Hm; lia|].
  replace (p + Z.of_nat n1 + Z.of_nat i) with (p + Z.of_nat (n1 + i)) by lia. apply Hm. lia.
Qed.
Lemma mapped_le m p n n' : (n' ≤ n)%nat → mapped m p n → mapped m p n'.
Proof. intros Hn Hm i Hi. apply Hm. lia. Qed.
Lemma bytes_at_mapped m p l : bytes_at m p l → mapped m p (length l).
Proof. intros Hb i Hi. destruct (lookup_lt_is_Some_2 l i Hi) as [x Hx]. rewrite (Hb i x Hx). eauto. Qed.
Lemma bytes_at_app m p l1 l2 :
  bytes_at m p (l1 ++ l2) ↔ bytes_at m p l1 ∧ bytes_at m (p + Z.of_nat (length l1)) l2.
Proof.
  split.
  - intros Hb. split; intros i x Hx.
    + apply Hb. rewrite lookup_app_l; [done|]. by eapply lookup_lt_Some.
    + replace (p + Z.of_nat (length l1) + Z.of_nat i) with (p + Z.of_nat (length l1 + i)) by lia.
      apply Hb. rewrite lookup_app_r by lia. by replace (length l1 + i - length l1)%nat with i by lia.
  - intros [H1 H2] i x [Hx|[Hi Hx]]%lookup_app_Some; [by apply H1|].
    apply H2 in Hx. by replace (p + Z.of_nat i) with (p + Z.of_nat (length l1) + Z.of_nat (i - length l1)) by lia.
Qed.
Lemma bytes_at_cons m p x l : bytes_at m p (x :: l) ↔ m !! p = Some x ∧ bytes_at m (p + 1) l.
Proof.
  change (x :: l) with ([x] ++ l). rewrite bytes_at_app. simpl. split; intros [H1 H2]; (split; [|done]).
  - rewrite <-(Z.add_0_r p). by apply (H1 0%nat).
  - intros [|i] y Hy; simpl in Hy; [|done]. injection Hy as <-. by rewrite Z.add_0_r.
Qed.

(** The range [q, q + n) lies outside of [p, p + k). *)
Definition apart (p : Z) (k : nat) (q : Z) (n : nat) : Prop :=
  p + Z.of_nat k ≤ q ∨ q + Z.of_nat n ≤ p.
Lemma bytes_at_write m p l q k :
  apart q (length k) p (length l) → bytes_at m p l → bytes_at (write_bytes m q k) p l.
Proof.
  intros Ha Hb i x Hx. pose proof (lookup_lt_Some _ _ _ Hx). rewrite write_bytes_lookup.
  rewrite decide_False by (unfold apart in Ha; lia). by apply Hb.
Qed.

Lemma ld_spec m p x : m !! p = Some x → ld p m = Done x.
Proof. unfold ld. by intros ->. Qed.
Lemma st_spec m p x : is_Some (m !! p) → 0 ≤ x < 256 → st p x m = Done (<[p := x]> m).
Proof. intros [y Hy] Hx. unfold st, ld. rewrite Hy. simpl. by rewrite Z.mod_small. Qed.

(** ** Byte loops *)
(** Copying upwards is right unless the source is overwritten before it is read. *)
Lemma memcpy_loop_spec l m i dest src :
  are_bytes l → bytes_at m (src + i) l → mapped m (dest + i) (length l) →
  dest ≤ src ∨ apart (dest + i) (length l) (src + i) (length l) →
  memcpy_loop (length l) i dest src m = Done (write_bytes m (dest + i) l).
Proof.
  revert m i. induction l as [|x l IH]; intros m i Hl Hb Hm Ho; simpl; [done|].
  apply bytes_at_cons in Hb as [Hx Hb]. apply Forall_cons in Hl as [Hx256 Hl].
  rewrite (ld_spec _ _ _ Hx). simpl.
  rewrite st_spec; [|rewrite <-(Z.add_0_r (dest + i)); apply (Hm 0%nat); simpl; lia|done]. simpl.
  rewrite <-Z.add_assoc. apply IH; [done|..].
  - intros j y Hy. pose proof (lookup_lt_Some _ _ _ Hy). apply Hb in Hy.
    rewrite lookup_insert_ne; [|unfold apart in Ho; simpl in Ho; lia].
    rewrite <-Hy. f_equal. lia.
  - intros j Hj. rewrite lookup_insert_is_Some'. right.
    replace (dest + (i + 1) + Z.of_nat j) with (dest + i + Z.of_nat (S j)) by lia. apply Hm. simpl. lia.
  - unfold apart in *. simpl in *. lia.
Qed.

Lemma memmove_down_spec l m dest src k :
  are_bytes l → bytes_at m src l → mapped m dest (length l) → src < dest → (k ≤ length l)%nat →
  memmove_down k dest src (write_bytes m (dest + Z.of_nat k) (drop k l)) = Done (write_bytes m dest l).
Proof.
  intros Hl Hb Hm Hlt. induction k as [|k IH]; intros Hk; simpl.
  { by rewrite Z.add_0_r. }
  destruct (lookup_lt_is_Some_2 l k) as [x Hx]; [lia|].
  rewrite (ld_spec _ _ x).
  - simpl. rewrite st_spec; [|apply write_bytes_is_Some, Hm; lia|by eapply Forall_lookup_1 in Hx; [|done]].
    simpl. rewrite <-IH by lia. f_equal.
    rewrite (drop_S _ _ _ Hx). simpl.
    replace (dest + Z.of_nat k + 1) with (dest + Z.of_nat (S k)) by lia.
    apply map_eq. intros q. rewrite !write_bytes_lookup, length_drop.
    destruct (decide (q = dest + Z.of_nat k)) as [->|Hne].
    + rewrite lookup_insert_eq, decide_False by lia. by rewrite lookup_insert_eq.
    + rewrite !lookup_insert_ne by done. by rewrite write_bytes_lookup, length_drop.
  - rewrite write_bytes_lookup, decide_False by lia. by apply Hb.
Qed.

Lemma memset_loop_spec n m i ptr ch :
  mapped m (ptr + i) n → memset_loop n i ptr ch m = Done (write_bytes m (ptr + i) (replicate n (w8 ch))).
Proof.
  revert m i. induction n as [|n IH]; intros m i Hm; simpl; [done|].
  rewrite st_spec; [|rewrite <-(Z.add_0_r (ptr + i)); apply (Hm 0%nat); lia|].
  - simpl. rewrite IH; [by rewrite Z.add_assoc|]. intros j Hj. rewrite lookup_insert_is_Some'. right.
    replace (ptr + (i + 1) + Z.of_nat j) with (ptr + i + Z.of_nat (S j)) by lia. apply Hm. lia.
  - unfold w8. apply Z.mod_pos_bound. lia.
Qed.

(** ** Words *)
Fixpoint le_value (l : list Z) : Z := match l with [] => 0 | b :: l => b + 256 * le_value l end.

Lemma alias_load_spec m p l : bytes_at m p l → alias_load (length l) p m = Done (le_value l).
Proof.
  revert p. induction l as [|x l IH]; intros p Hb; simpl; [done|].
  apply bytes_at_cons in Hb as [Hx Hb]. rewrite (ld_spec _ _ _ Hx). simpl. by rewrite IH.
Qed.
Lemma alias_store_spec m p l :
  are_bytes l → mapped m p (length l) → alias_store (length l) p (le_value l) m = Done (write_bytes m p l).
Proof.
  revert m p. induction l as [|x l IH]; intros m p Hl Hm; simpl; [done|].
  apply Forall_cons in Hl as [Hx Hl].
  assert ((x + 256 * le_value l) mod 256 = x) as E1 by (rewrite Z.mul_comm, Z_mod_plus_full; apply Z.mod_small; lia).
  assert ((x + 256 * le_value l) / 256 = le_value l) as E2
    by (rewrite Z.mul_comm, Z_div_plus_full by lia; rewrite Z.div_small; lia).
  rewrite E1, E2, st_spec; [|rewrite <-(Z.add_0_r p); apply (Hm 0%nat); simpl; lia|done]. simpl.
  apply IH; [done|]. intros j Hj. rewrite lookup_insert_is_Some'. right.
  replace (p + 1 + Z.of_nat j) with (p + Z.of_nat (S j)) by lia. apply Hm. simpl. lia.
Qed.

(** Words [ls] of [w] bytes each. *)
Lemma load_words_spec w ls m p :
  Forall (λ l, length l = w) ls → bytes_at m p (concat ls) →
  load_words (length ls) w p m = Done (le_value <$> ls).
Proof.
  revert p. induction ls as [|l ls IH]; intros p Hw Hb; simpl; [done|].
  apply Forall_cons in Hw as [<- Hw]. simpl in Hb. apply bytes_at_app in Hb as [Hb1 Hb2].
  rewrite alias_load_spec by done. simpl. by rewrite IH.
Qed.
Lemma store_words_spec w ls m p :
  Forall (λ l, length l = w) ls → are_bytes (concat ls) → mapped m p (length (concat ls)) →
  store_words w p (le_value <$> ls) m = Done (write_bytes m p (concat ls)).
Proof.
  revert m p. induction ls as [|l ls IH]; intros m p Hw Hl Hm; simpl; [done|].
  apply Forall_cons in Hw as [<- Hw]. simpl in *. apply Forall_app in Hl as [Hl1 Hl2].
  rewrite length_app in Hm. apply mapped_app in Hm as [Hm1 Hm2].
  rewrite alias_store_spec by done. simpl. rewrite IH; [by rewrite write_bytes_app|done|done|].
  by apply mapped_write.
Qed.

(** Cutting a list into [k] pieces of length [w]. *)
Fixpoint pieces (k w : nat) (l : list Z) : list (list Z) :=
  match k with O => [] | S k => take w l :: pieces k w (drop w l) end.
Lemma pieces_spec k w l :
  length l = (k * w)%nat →
  concat (pieces k w l) = l ∧ length (pieces k w l) = k ∧ Forall (λ x, length x = w) (pieces k w l).
Proof.
  revert l. induction k as [|k IH]; intros l Hl; simpl in *.
  { by apply nil_length_inv in Hl as ->. }
  destruct (IH (drop w l)) as (H1 & H2 & H3); [rewrite length_drop; lia|].
  rewrite H1, take_drop, H2. split_and!; [done..|]. constructor; [|done]. rewrite length_take. lia.
Qed.

Lemma copy_words_spec k w l m dest src :
  length l = (k * w)%nat → are_bytes l → bytes_at m src l → mapped m dest (length l) →
  copy_words k w dest src m = Done (write_bytes m dest l).
Proof.
  intros Hl Hb Hs Hd. destruct (pieces_spec k w l Hl) as (H1 & H2 & H3). unfold copy_words.
  rewrite <-H2 at 1. rewrite (load_words_spec w (pieces k w l)); [|done|by rewrite H1]. simpl.
  rewrite store_words_spec by (rewrite ?H1; done). by rewrite H1.
Qed.

(** What the rest of a chunked copy has to do. *)
Definition copies (f : Z → Z → nat → bytemem → outcome bytemem) (P : nat → Prop) : Prop :=
  ∀ dest src l m, P (length l) → are_bytes l → bytes_at m src l → mapped m dest (length l) →
    apart dest (length l) src (length l) → f dest src (length l) m = Done (write_bytes m dest l).

Lemma copy_if_spec k w rest (P Q : nat → Prop) :
  (∀ n, P n → if decide (k * w ≤ n)%nat then Q (n - k * w)%nat else Q n) →
  copies rest Q → copies (copy_if k w rest) P.
Proof.
  intros HPQ Hrest dest src l m HP Hl Hs Hd Ha. unfold copy_if. specialize (HPQ _ HP).
  destruct (Nat.leb_spec (k * w) (length l)) as [Hle|Hlt].
  - rewrite decide_True in HPQ by done. rewrite <-(take_drop (k * w) l) in Hl, Hs.
    apply Forall_app in Hl as [Hl1 Hl2]. apply bytes_at_app in Hs as [Hs1 Hs2].
    assert (length (take (k * w) l) = (k * w)%nat) as Hlt by (rewrite length_take; lia).
    assert (length (drop (k * w) l) = (length l - k * w)%nat) as Hld by apply length_drop.
    rewrite (copy_words_spec k w (take (k * w) l)); [|done|done|done|by eapply mapped_le; [|done]; lia].
    simpl. rewrite <-Hld, Hrest.
    + rewrite <-(take_drop (k * w) l) at 3. rewrite write_bytes_app, Hlt. done.
    + by rewrite Hld.
    + done.
    + apply bytes_at_write; [|by rewrite Hlt in Hs2]. unfold apart in *. lia.
    + apply mapped_write. rewrite Hld. replace (length l) with (k * w + (length l - k * w))%nat in Hd by lia.
      by apply mapped_app in Hd as [_ Hd].
    + unfold apart in *. lia.
  - rewrite decide_False in HPQ by lia. by apply Hrest.
Qed.

Lemma copy_tail_spec : copies copy_tail (λ n, (n < 64)%nat).
Proof.
  unfold copy_tail.
  apply (copy_if_spec 4 8 _ _ (λ n, (n < 32)%nat)); [intros; case_decide; lia|].
  apply (copy_if_spec 2 8 _ _ (λ n, (n < 16)%nat)); [intros; case_decide; lia|].
  apply (copy_if_spec 1 8 _ _ (λ n, (n < 8)%nat)); [intros; case_decide; lia|].
  apply (copy_if_spec 1 4 _ _ (λ n, (n < 4)%nat)); [intros; case_decide; lia|].
  apply (copy_if_spec 1 2 _ _ (λ n, (n < 2)%nat)); [intros; case_decide; lia|].
  apply (copy_if_spec 1 1 _ _ (λ n, n = 0%nat)); [intros; case_decide; lia|].
  intros dest src l m Hl _ _ _ _. by apply nil_length_inv in Hl as ->.
Qed.

Lemma memcpy_words_loop_spec fuel : copies (memcpy_words_loop fuel) (λ n, (n < fuel)%nat).
Proof.
  induction fuel as [|fuel IH]; intros dest src l m Hf Hl Hs Hd Ha; [lia|].
  cbn [memcpy_words_loop]. destruct (Nat.leb_spec 64 (length l)).
  - apply (copy_if_spec 8 8 _ (λ n, (64 ≤ n < S fuel)%nat) (λ n, (n < fuel)%nat)); try done.
    intros n Hn. case_decide; lia.
  - by apply copy_tail_spec.
Qed.

(** ** [memset] by words *)
Lemma pattern_le byte : 0 ≤ byte < 256 → ∀ w, w ∈ [8; 4; 2; 1]%nat → pattern w byte = le_value (replicate w byte).
Proof.
  intros Hb w Hw.
  assert (range_forall 0 256 (λ b, forallb (λ w, pattern w b =? le_value (replicate w b)) [8; 4; 2; 1]%nat) = true) as Hall
    by (vm_compute; reflexivity).
  apply (range_forall_spec 0 256 _ byte) in Hall; [|lia]. rewrite forallb_forall in Hall.
  apply Z.eqb_eq, Hall. by apply list_elem_of_In.
Qed.

Lemma replicate_words k w (b : Z) : concat (replicate k (replicate w b)) = replicate (k * w) b.
Proof. induction k as [|k IH]; simpl; [done|]. by rewrite IH, replicate_add. Qed.

Definition sets (byte : Z) (f : Z → nat → bytemem → outcome bytemem) (P : nat → Prop) : Prop :=
  ∀ dest n m, P n → mapped m dest n → f dest n m = Done (write_bytes m dest (replicate n byte)).

Lemma set_if_spec byte k w rest (P Q : nat → Prop) :
  0 ≤ byte < 256 → w ∈ [8; 4; 2; 1]%nat →
  (∀ n, P n → if decide (k * w ≤ n)%nat then Q (n - k * w)%nat else Q n) →
  sets byte rest Q → sets byte (set_if k w byte rest) P.
Proof.
  intros Hb Hw HPQ Hrest dest n m HP Hm. unfold set_if. specialize (HPQ _ HP).
  destruct (Nat.leb_spec (k * w) n) as [Hle|Hlt].
  - rewrite decide_True in HPQ by done. rewrite pattern_le by done.
    replace (replicate k (le_value (replicate w byte))) with (le_value <$> replicate k (replicate w byte))
      by apply fmap_replicate.
    replace n with (k * w + (n - k * w))%nat in Hm by lia. apply mapped_app in Hm as [Hm1 Hm2].
    rewrite store_words_spec; rewrite ?replicate_words, ?length_replicate.
    + simpl. rewrite Hrest by (done || by apply mapped_write).
      replace n with (k * w + (n - k * w))%nat at 2 by lia.
      rewrite replicate_add, write_bytes_app, length_replicate. done.
    + apply Forall_replicate. apply length_replicate.
    + by apply Forall_replicate.
    + done.
  - rewrite decide_False in HPQ by lia. by apply Hrest.
Qed.

Lemma set_tail_spec byte : 0 ≤ byte < 256 → sets byte (set_tail byte) (λ n, (n < 64)%nat).
Proof.
  intros Hb. unfold set_tail.
  apply (set_if_spec byte 4 8 _ _ (λ n, (n < 32)%nat)); [done|set_solver|intros; case_decide; lia|].
  apply (set_if_spec byte 2 8 _ _ (λ n, (n < 16)%nat)); [done|set_solver|intros; case_decide; lia|].
  apply (set_if_spec byte 1 8 _ _ (λ n, (n < 8)%nat)); [done|set_solver|intros; case_decide; lia|].
  apply (set_if_spec byte 1 4 _ _ (λ n, (n < 4)%nat)); [done|set_solver|intros; case_decide; lia|].
  apply (set_if_spec byte 1 2 _ _ (λ n, (n < 2)%nat)); [done|set_solver|intros; case_decide; lia|].
  apply (set_if_spec byte 1 1 _ _ (λ n, n = 0%nat)); [done|set_solver|intros; case_decide; lia|].
  by intros dest n m -> _.
Qed.

Lemma memset_words_loop_spec byte fuel : 0 ≤ byte < 256 → sets byte (memset_words_loop fuel byte) (λ n, (n < fuel)%nat).
Proof.
  intros Hb. induction fuel as [|fuel IH]; intros dest n m Hf Hm; [lia|].
  cbn [memset_words_loop]. destruct (Nat.leb_spec 64 n).
  - apply (set_if_spec byte 8 8 _ (λ n, (64 ≤ n < S fuel)%nat) (λ n, (n < fuel)%nat)); try done; [set_solver|].
    intros k Hk. case_decide; lia.
  - by apply set_tail_spec.
Qed.

Lemma memset_align_spec byte n m dest :
  0 ≤ byte < 256 → mapped m dest n → memset_align byte dest n m = Done (write_bytes m dest (replicate n byte)).
Proof.
  intros Hb. revert m dest. induction n as [|n IH]; intros m dest Hm.
  - cbn [memset_align]. apply (memset_words_loop_spec byte 1 Hb); [lia|done].
  - cbn [memset_align]. case_test; [apply (memset_words_loop_spec byte (S (S n)) Hb); [lia|done]|].
    rewrite st_spec; [|rewrite <-(Z.add_0_r dest); apply (Hm 0%nat); lia|done]. simpl. apply IH.
    intros j Hj. rewrite lookup_insert_is_Some'. right.
    replace (dest + 1 + Z.of_nat j) with (dest + Z.of_nat (S j)) by lia. apply Hm. lia.
Qed.

(** ** Strings *)
Definition cstr (m : bytemem) (p : Z) (l : list Z) : Prop :=
  bytes_at m p (l ++ [0]) ∧ Forall (λ x, 0 < x < 256) l.

Lemma cstr_nil m p : cstr m p [] ↔ m !! p = Some 0.
Proof.
  unfold cstr. simpl. rewrite bytes_at_cons. split; [by intros [[? _] _]|]. intros Hp. split; [|done].
  split; [done|]. by intros i x ?%lookup_nil_Some || intros i x; rewrite lookup_nil.
Qed.
Lemma cstr_cons m p x l : cstr m p (x :: l) ↔ m !! p = Some x ∧ 0 < x < 256 ∧ cstr m (p + 1) l.
Proof. unfold cstr. simpl. rewrite bytes_at_cons, Forall_cons. naive_solver. Qed.
Lemma cstr_app m p l1 l2 : cstr m p (l1 ++ l2) → cstr m (p + Z.of_nat (length l1)) l2.
Proof.
  unfold cstr. rewrite <-app_assoc, Forall_app. intros [Hb [_ Hl]].
  by apply bytes_at_app in Hb as [_ Hb].
Qed.
Lemma s8_byte x : 0 ≤ x < 256 → ch8 x = if x <? 128 then x else x - 256.
Proof.
  intros Hx. unfold ch8, s8. change (2 ^ 7) with 128. change (2 ^ 8) with 256.
  destruct (Z.ltb_spec x 128); [rewrite Z.mod_small; lia|].
  rewrite <-(Z_mod_plus_full _ (-1)), Z.mod_small; lia.
Qed.
Lemma ch8_inj x y : 0 ≤ x < 256 → 0 ≤ y < 256 → ch8 x - ch8 y = 0 → x = y.
Proof. intros Hx Hy. rewrite !s8_byte by done. repeat case_test; lia. Qed.

Lemma strlen_loop_spec l m str k fuel :
  cstr m (str + k) l → (length l < fuel)%nat → strlen_loop fuel str k m = Done (k + Z.of_nat (length l)).
Proof.
  revert k fuel. induction l as [|x l IH]; intros k [|fuel] Hc Hf; simpl in *; try lia.
  - apply cstr_nil in Hc. rewrite (ld_spec _ _ _ Hc). simpl. f_equal. lia.
  - apply cstr_cons in Hc as (Hx & Hx0 & Hc). rewrite (ld_spec _ _ _ Hx). simpl.
    destruct (Z.eqb_spec x 0); [lia|]. rewrite IH; [f_equal; lia|by rewrite Z.add_assoc|lia].
Qed.

(** Copying a string, where the destination lies outside of the source. *)
Lemma str_copy_spec l m dest src fuel :
  cstr m src l → mapped m dest (S (length l)) → apart dest (S (length l)) src (S (length l)) →
  (length l < fuel)%nat → str_copy fuel dest src m = Done (write_bytes m dest (l ++ [0])).
Proof.
  revert m dest src fuel. induction l as [|x l IH]; intros m dest src [|fuel] Hc Hm Ha Hf; simpl in *; try lia.
  - apply cstr_nil in Hc. rewrite (ld_spec _ _ _ Hc). simpl. apply st_spec; [|done].
    rewrite <-(Z.add_0_r dest). apply (Hm 0%nat). lia.
  - apply cstr_cons in Hc as (Hx & Hx0 & Hc). rewrite (ld_spec _ _ _ Hx). simpl.
    destruct (Z.eqb_spec x 0); [lia|].
    rewrite st_spec; [|rewrite <-(Z.add_0_r dest); apply (Hm 0%nat); lia|lia]. simpl. apply IH; [..|lia].
    + destruct Hc as [Hb Hl]. split; [|done]. intros i y Hy. pose proof (lookup_lt_Some _ _ _ Hy) as Hi.
      rewrite length_app in Hi. simpl in Hi. rewrite lookup_insert_ne; [by apply Hb|]. unfold apart in Ha. lia.
    + intros j Hj. rewrite lookup_insert_is_Some'. right.
      replace (dest + 1 + Z.of_nat j) with (dest + Z.of_nat (S j)) by lia. apply Hm. lia.
    + unfold apart in *. lia.
Qed.

Lemma cstr_head m p l :
  cstr m p l → ∃ c, ld p m = Done c ∧ 0 ≤ c < 256 ∧
    match l with [] => c = 0 | x :: l' => c = x ∧ c ≠ 0 ∧ cstr m (p + 1) l' end.
Proof.
  destruct l as [|x l]; [intros Hc%cstr_nil|intros (Hx & ? & Hc)%cstr_cons];
    eexists; (split; [by apply ld_spec|]); (split; [lia|]); [done|].
  split_and!; [done|lia|done].
Qed.

Lemma strcmp_spec l1 l2 m s1 s2 fuel :
  cstr m s1 l1 → cstr m s2 l2 → (length l1 < fuel)%nat →
  ∃ r, strcmp fuel s1 s2 m = Done r ∧ (r = 0 ↔ l1 = l2).
Proof.
  revert l2 s1 s2 fuel. induction l1 as [|x l1 IH]; intros l2 s1 s2 [|fuel] H1 H2 Hf; simpl in *; try lia;
    apply cstr_head in H1 as (a & -> & Ha & H1); apply cstr_head in H2 as (b & -> & Hb & H2); simpl.
  - subst a. simpl. eexists. split; [done|]. split; [intros ?%ch8_inj; [|lia|lia]|]; destruct l2; naive_solver.
  - destruct H1 as (<- & Ha0 & H1). destruct (Z.eqb_spec a 0); [done|]. simpl. destruct l2 as [|y l2].
    + subst b. simpl. eexists. split; [done|]. split; [intros ?%ch8_inj; [done|lia|lia]|done].
    + destruct H2 as (<- & Hb0 & H2). destruct (Z.eqb_spec b 0); [done|]. simpl.
      destruct (Z.eqb_spec a b) as [->|Hne].
      * destruct (IH l2 (s1 + 1) (s2 + 1) fuel) as (r & -> & Hr); [done|done|lia|]. exists r. split; [done|].
        rewrite Hr. naive_solver.
      * eexists. split; [done|]. split; [intros ?%ch8_inj; [done|lia|lia]|congruence].
Qed.

(** [needle] occurs in [hay] at its start. *)
Fixpoint prefixb (needle hay : list Z) : bool :=
  match needle, hay with
  | [], _ => true
  | _, [] => false
  | x :: needle, y :: hay => (x =? y) && prefixb needle hay
  end.
(** Offset of the first occurrence. *)
Fixpoint find_sub (needle hay : list Z) : option Z :=
  if prefixb needle hay then Some 0
  else match hay with [] => None | _ :: hay => (Z.add 1) <$> find_sub needle hay end.

Lemma prefixb_spec needle hay : prefixb needle hay = true ↔ take (length needle) hay = needle.
Proof.
  revert hay. induction needle as [|x needle IH]; intros [|y hay]; simpl; [done..|].
  rewrite andb_true_iff, IH, Z.eqb_eq. split; [by intros [-> ->]|by intros [= -> E]].
Qed.
Lemma find_sub_short needle hay : (length hay < length needle)%nat → find_sub needle hay = None.
Proof.
  induction hay as [|y hay IH]; intros Hl; simpl in *.
  - destruct needle; simpl in *; [lia|done].
  - destruct (prefixb needle (y :: hay)) eqn:E; [|by rewrite IH by lia].
    apply prefixb_spec in E. apply (f_equal length) in E. rewrite length_take in E. simpl in E. lia.
Qed.
Lemma prefixb_mismatch needle hay n x y :
  needle !! n = Some x → hay !! n = Some y → x ≠ y → prefixb needle hay = false.
Proof.
  revert hay n. induction needle as [|a needle IH]; intros [|b hay] [|n]; simpl; try done; intros Hx Hy Hne.
  - simplify_eq. by destruct (Z.eqb_spec x y).
  - rewrite (IH hay n) by done. apply andb_false_r.
Qed.

(** Byte [n] of a string, or its terminator. *)
Lemma cstr_nth m p l n :
  cstr m p l → (n ≤ length l)%nat →
  ∃ c, ld (p + Z.of_nat n) m = Done c ∧
    match l !! n with Some x => c = x ∧ c ≠ 0 | None => c = 0 ∧ n = length l end.
Proof.
  intros [Hb Hl] Hn. destruct (lookup_lt_is_Some_2 (l ++ [0]) n) as [c Hc]; [rewrite length_app; simpl; lia|].
  exists c. split; [by apply ld_spec, Hb|]. destruct (l !! n) as [x|] eqn:E.
  - rewrite (lookup_app_l_Some _ _ _ _ E) in Hc. simplify_eq. split; [done|].
    eapply Forall_lookup_1 in E; [|done]. simpl in E. lia.
  - apply lookup_ge_None in E. assert (n = length l) as -> by lia.
    rewrite lookup_app_r, Nat.sub_diag in Hc by lia. naive_solver.
Qed.

(** The search after [n] characters of the needle have matched at the start of [h]. *)
Lemma strstr_loop_spec needle m substr fuel h str n :
  cstr m substr needle → cstr m str h → (n ≤ length needle)%nat → (n ≤ length h)%nat →
  take n needle = take n h → (length h * S (length needle) + (length needle - n) < fuel)%nat →
  strstr_loop fuel str substr (str + Z.of_nat n) (substr + Z.of_nat n) m =
    Done (match find_sub needle h with Some i => str + i | None => 0 end).
Proof.
  intros Hs. revert h str n. induction fuel as [|fuel IH]; intros h str n Hh Hn Hnh Hpre Hf; [lia|].
  cbn [strstr_loop]. destruct (cstr_nth _ _ _ n Hs Hn) as (vb & -> & Hb). cbn [mbind outcome_bind].
  destruct (needle !! n) as [x|] eqn:Ex.
  - destruct Hb as [-> Hb]. destruct (Z.eqb_spec x 0); [done|]. pose proof (lookup_lt_Some _ _ _ Ex) as Hln.
    destruct (cstr_nth _ _ _ n Hh Hnh) as (va & -> & Ha). cbn [mbind outcome_bind].
    destruct (h !! n) as [y|] eqn:Ey.
    + destruct Ha as [-> Ha]. destruct (Z.eqb_spec y 0); [done|].
      pose proof (lookup_lt_Some _ _ _ Ey). destruct (Z.eqb_spec y x) as [->|Hne]; cbn [negb].
      * replace (str + Z.of_nat n + 1) with (str + Z.of_nat (S n)) by lia.
        replace (substr + Z.of_nat n + 1) with (substr + Z.of_nat (S n)) by lia.
        apply IH; try (done || lia).
        by rewrite (take_S_r _ _ _ Ex), (take_S_r _ _ _ Ey), Hpre.
      * destruct h as [|z h]; [done|]. pose proof Hh as Hh0. apply cstr_cons in Hh as (_ & _ & Hh).
        rewrite <-(Z.add_0_r (str + 1)), <-(Z.add_0_r substr) at 1.
        rewrite <-(Z.add_0_r substr) at 2.
        pose proof (IH h (str + 1) 0%nat Hh) as IH'. rewrite !Z.add_0_r in *. rewrite IH'; [|lia|lia|done|simpl in Hf; nia].
        simpl. rewrite (prefixb_mismatch needle (z :: h) n x y) by done.
        destruct (find_sub needle h); simpl; by rewrite ?Z.add_assoc.
    + destruct Ha as [-> ->]. simpl. rewrite find_sub_short by lia. done.
  - destruct Hb as [-> ->]. simpl. rewrite firstn_all in Hpre.
    assert (prefixb needle h = true) as Hp by by apply prefixb_spec.
    destruct h; simpl; rewrite Hp; by rewrite Z.add_0_r.
Qed.

(** ** [strrev] *)
(** The first and last [i] characters have been exchanged. *)
Definition rev_state (l : list Z) (i t : nat) : option Z :=
  if decide ((t < i)%nat ∨ (length l - 1 - i < t)%nat) then l !! (length l - 1 - t)%nat else l !! t.
Definition strrev_inv (m m' : bytemem) (str : Z) (l : list Z) (i : nat) : Prop :=
  (∀ t, (t < length l)%nat → m' !! (str + Z.of_nat t) = rev_state l i t) ∧
  (∀ q, ¬ (str ≤ q < str + Z.of_nat (length l)) → m' !! q = m !! q).

Lemma strrev_swap m m' str l i a b :
  strrev_inv m m' str l i → (2 * i < length l - 1)%nat →
  l !! i = Some a → l !! (length l - 1 - i)%nat = Some b →
  strrev_inv m (<[str + Z.of_nat (length l - 1 - i) := a]> (<[str + Z.of_nat i := b]> m')) str l (S i).
Proof.
  intros [Hin Hout] Hi Ha Hb. split.
  - intros t Ht. unfold rev_state.
    destruct (decide (t = length l - 1 - i)%nat) as [->|Hne1].
    { rewrite lookup_insert_eq, decide_True by lia. rewrite <-Ha. f_equal. lia. }
    rewrite lookup_insert_ne by lia. destruct (decide (t = i)) as [->|Hne2].
    { rewrite lookup_insert_eq, decide_True by lia. by rewrite Hb. }
    rewrite lookup_insert_ne, Hin by lia. unfold rev_state.
    destruct (decide (t < i ∨ length l - 1 - i < t)%nat), (decide (t < S i ∨ length l - 1 - S i < t)%nat); try done; lia.
  - intros q Hq. rewrite !lookup_insert_ne by lia. by apply Hout.
Qed.

Lemma strrev_loop_spec m l str fuel m' i :
  Forall (λ x, 0 < x < 256) l → (0 < length l)%nat → 0 ≤ str → str + Z.of_nat (length l) < 2 ^ 64 →
  strrev_inv m m' str l i → (2 * i ≤ length l)%nat → (length l - 2 * i < fuel)%nat →
  ∃ m2, strrev_loop fuel str (Z.of_nat i) (w64 (Z.of_nat (length l) - 1 - Z.of_nat i)) m' = Done m2 ∧
    bytes_at m2 str (reverse l) ∧ ∀ q, ¬ (str ≤ q < str + Z.of_nat (length l)) → m2 !! q = m !! q.
Proof.
  intros Hl Hpos Hs0 Hs. revert m' i. induction fuel as [|fuel IH]; intros m' i Hinv Hi Hf; [lia|].
  simpl. rewrite (w64_small (Z.of_nat (length l) - 1 - Z.of_nat i)) by lia.
  destruct (Z.ltb_spec (Z.of_nat i) (Z.of_nat (length l) - 1 - Z.of_nat i)) as [Hlt|Hge].
  - destruct (lookup_lt_is_Some_2 l i) as [a Ha]; [lia|].
    destruct (lookup_lt_is_Some_2 l (length l - 1 - i)) as [b Hb]; [lia|].
    pose proof Hinv as [Hin _]. rewrite !w64_small by lia.
    replace (str + (Z.of_nat (length l) - 1 - Z.of_nat i)) with (str + Z.of_nat (length l - 1 - i)) by lia.
    pose proof (Hin i ltac:(lia)) as Hmi. unfold rev_state in Hmi. rewrite decide_False, Ha in Hmi by lia.
    pose proof (Hin (length l - 1 - i)%nat ltac:(lia)) as Hmj. unfold rev_state in Hmj.
    rewrite decide_False, Hb in Hmj by lia.
    rewrite (ld_spec _ _ _ Hmi). simpl. rewrite (ld_spec _ _ _ Hmj). simpl.
    pose proof (Forall_lookup_1 _ _ _ _ Hl Ha) as Hab. pose proof (Forall_lookup_1 _ _ _ _ Hl Hb) as Hbb. simpl in *.
    rewrite st_spec by (eauto || lia). simpl.
    rewrite st_spec by (lia || (rewrite lookup_insert_is_Some'; eauto)). simpl.
    replace (Z.of_nat i + 1) with (Z.of_nat (S i)) by lia.
    replace (Z.of_nat (length l) - 1 - Z.of_nat i - 1) with (Z.of_nat (length l) - 1 - Z.of_nat (S i)) by lia.
    rewrite <-(w64_small (Z.of_nat (length l) - 1 - Z.of_nat (S i))) by lia.
    apply IH; [|lia|lia]. apply strrev_swap; (done || lia).
  - exists m'. split; [done|]. split; [|apply Hinv]. intros t x Hx.
    pose proof (lookup_lt_Some _ _ _ Hx) as Ht. rewrite length_reverse in Ht.
    rewrite reverse_lookup in Hx by done. rewrite (proj1 Hinv t Ht), <-Hx. unfold rev_state.
    case_decide; f_equal; lia.
Qed.

(** ** Numbers *)
Definition is_digits (l : list Z) : Prop := Forall (λ c, 48 ≤ c ≤ 57) l.
Definition dec_value (l : list Z) (acc : Z) : Z := foldl (λ a c, a * 10 + (c - 48)) acc l.

Lemma dec_value_bound l acc :
  is_digits l → 0 ≤ acc → 0 ≤ dec_value l acc < (acc + 1) * 10 ^ Z.of_nat (length l).
Proof.
  revert acc. induction l as [|c l IH]; intros acc Hl Ha; simpl; [lia|].
  apply Forall_cons in Hl as [Hc Hl]. destruct (IH (acc * 10 + (c - 48)) Hl) as [H1 H2]; [lia|].
  split; [done|]. rewrite Nat2Z.inj_succ, Z.pow_succ_r by lia. pose proof (Z.pow_pos_nonneg 10 (Z.of_nat (length l))). nia.
Qed.

Lemma digits_loop_spec l m str fuel cutoff cutlim acc conv :
  cstr m str l → is_digits l → (length l < fuel)%nat → 0 ≤ acc → 10 ^ 17 ≤ cutoff → cutoff < 2 ^ 63 →
  (acc + 1) * 10 ^ Z.of_nat (length l) ≤ 10 ^ 18 →
  digits_loop fuel str 10 cutoff cutlim acc conv false m =
    Done (str + Z.of_nat (length l), dec_value l acc, conv || negb (bool_decide (l = [])), false).
Proof.
  revert str fuel acc conv. induction l as [|c l IH]; intros str [|fuel] acc conv Hc Hd Hf Ha Hcut Hcut2 Hb; try (simpl in *; lia);
    cbn [digits_loop].
  - apply cstr_nil in Hc. rewrite (ld_spec _ _ _ Hc). simpl. by rewrite orb_false_r, Z.add_0_r.
  - apply cstr_cons in Hc as (Hx & _ & Hc). apply Forall_cons in Hd as [Hc48 Hd].
    rewrite (ld_spec _ _ _ Hx). cbn [mbind outcome_bind]. rewrite s8_byte by lia.
    destruct (Z.ltb_spec c 128); [|lia]. destruct (Z.eqb_spec c 0); [lia|].
    unfold digit_of, isdigit, within. destruct (Z.leb_spec 48 c), (Z.leb_spec c 57); try lia. cbn [andb].
    destruct (Z.leb_spec 10 (c - 48)); [lia|].
    simpl in Hb. rewrite Nat2Z.inj_succ, Z.pow_succ_r in Hb by lia.
    pose proof (Z.pow_pos_nonneg 10 (Z.of_nat (length l)) ltac:(lia) ltac:(lia)) as Hpow.
    set (P := 10 ^ Z.of_nat (length l)) in *. change (10 ^ 18) with (10 * 10 ^ 17) in Hb.
    assert (acc + 1 ≤ 10 ^ 17) by nia.
    destruct (Z.leb_spec cutoff acc); [lia|]. destruct (Z.eqb_spec acc cutoff); [lia|]. cbn [andb orb].
    rewrite w64_small by lia. rewrite IH; [|done|done|simpl in Hf; lia|lia|done|done|change (10 ^ 18) with (10 * 10 ^ 17); fold P; nia].
    replace (str + 1 + Z.of_nat (length l)) with (str + Z.of_nat (length (c :: l))) by (cbn [length]; lia).
    simpl. by rewrite orb_true_r.
Qed.

(** A number that starts with a digit has neither leading space nor sign. *)
Lemma skip_digit m str c fuel :
  m !! str = Some c → 48 ≤ c ≤ 57 → (0 < fuel)%nat → skip_space fuel str m = Done str.
Proof.
  intros Hx Hc Hf. destruct fuel; [lia|]. simpl. rewrite (ld_spec _ _ _ Hx). simpl. rewrite s8_byte by lia.
  destruct (Z.ltb_spec c 128); [|lia]. unfold isspace.
  by repeat match goal with |- context [c =? ?k] => destruct (Z.eqb_spec c k); [lia|] end.
Qed.

(** Parsing a decimal number whose first byte is a digit. *)
Lemma str2int_digit unsigned m str c fuel base :
  base = 10 → m !! str = Some c → 48 ≤ c ≤ 57 → is_Some (m !! (str + 1)) → (0 < fuel)%nat →
  str2int unsigned fuel str base m =
    let '(cutoff, cutlim) := cut unsigned false 10 in
    '(fin, total, converted, oor) ← digits_loop fuel str 10 cutoff cutlim 0 false false m;
    let endptr := if (converted : bool) then fin else str in
    if (oor : bool) then Done (ret_max unsigned, endptr, true) else Done (to_ret unsigned total, endptr, false).
Proof.
  intros -> Hx Hc [d Hd] Hf. unfold str2int.
  replace ((if unsigned then false else 10 <? 0) || (10 =? 1)) with false by by destruct unsigned.
  rewrite (skip_digit m str c) by done. cbn [mbind outcome_bind]. rewrite (ld_spec _ _ _ Hx). cbn [mbind outcome_bind].
  destruct (Z.eqb_spec c 45); [lia|]. destruct (Z.eqb_spec c 43); [lia|]. cbv zeta.
  rewrite (ld_spec _ _ _ Hx). cbn [mbind outcome_bind].
  change (10 =? 0) with false. change (10 =? 16) with false. change (10 =? 8) with false. cbn [orb andb].
  assert (∃ hex, (if c =? 48 then c1 ← ld (str + 1) m; Done ((c1 =? 120) || (c1 =? 88)) else Done false) = Done hex) as [hex ->].
  { case_test; [|by eexists]. rewrite (ld_spec _ _ _ Hd). by eexists. }
  cbn [mbind outcome_bind]. destruct (cut unsigned false 10). destruct (digits_loop _ _ _ _ _ _ _ _ _) as [[[[? ?] ?] ?]| | | |]; simpl; try done.
  by destruct unsigned.
Qed.

(** ** Properties *)

(** The word-at-a-time [memcpy] of the fast build writes the bytes the byte loop writes. *)
Theorem memcpy_words_equiv dest src l m :
  are_bytes l → bytes_at m src l → mapped m dest (length l) → apart dest (length l) src (length l) →
  memcpy_words dest src (length l) m = memcpy dest src (length l) m ∧
  memcpy dest src (length l) m = Done (write_bytes m dest l).
Proof.
  intros Hl Hs Hd Ha. unfold memcpy.
  rewrite memcpy_loop_spec by (rewrite ?Z.add_0_r; auto). rewrite Z.add_0_r. split; [|done].
  apply memcpy_words_loop_spec; [lia|done..].
Qed.

(** The word-at-a-time [memset] of the fast build writes the bytes the byte loop writes,
    whatever the alignment of the destination. *)
Theorem memset_words_equiv dest ch n m :
  mapped m dest n →
  memset_words dest ch n m = memset dest ch n m ∧
  memset dest ch n m = Done (write_bytes m dest (replicate n (w8 ch))).
Proof.
  intros Hm. unfold memset, memset_words.
  rewrite memset_loop_spec by by rewrite Z.add_0_r. rewrite Z.add_0_r. split; [|done].
  apply memset_align_spec; [|done]. unfold w8. apply Z.mod_pos_bound. lia.
Qed.

(** [memmove] writes the original bytes of the source, however the regions overlap. *)
Theorem memmove_correct dest src l m :
  are_bytes l → bytes_at m src l → mapped m dest (length l) →
  memmove dest src (length l) m = Done (write_bytes m dest l).
Proof.
  intros Hl Hs Hd. unfold memmove. case_test.
  - rewrite memcpy_loop_spec by (rewrite ?Z.add_0_r; auto || (left; lia)). by rewrite Z.add_0_r.
  - case_test.
    + pose proof (memmove_down_spec l m dest src (length l) Hl Hs Hd ltac:(lia) ltac:(lia)) as E.
      by rewrite drop_all in E.
    + assert (src = dest) as -> by lia. f_equal. apply map_eq. intros q. rewrite write_bytes_lookup.
      case_decide as Hq; [|done]. destruct (lookup_lt_is_Some_2 l (Z.to_nat (q - dest))) as [x Hx]; [lia|].
      rewrite Hx. replace q with (dest + Z.of_nat (Z.to_nat (q - dest))) by lia. by apply Hs.
Qed.

(** [strstr] terminates and returns the first occurrence of the needle, or null. *)
Theorem strstr_correct str substr hay needle m fuel :
  cstr m str hay → cstr m substr needle →
  (length hay * S (length needle) + length needle < fuel)%nat →
  strstr fuel str substr m = Done (match find_sub needle hay with Some i => str + i | None => 0 end).
Proof.
  intros Hh Hn Hf. pose proof (strstr_loop_spec needle m substr fuel hay str 0 Hn Hh) as E.
  rewrite !Z.add_0_r in E. apply E; [lia|lia|done|lia].
Qed.

(** [strrev] reverses a string that is not empty and changes nothing else. *)
Theorem strrev_correct str l m fuel :
  cstr m str l → l ≠ [] → 0 ≤ str → str + Z.of_nat (length l) < 2 ^ 64 → (S (length l) < fuel)%nat →
  ∃ m', strrev fuel str m = Done m' ∧ cstr m' str (reverse l) ∧
    ∀ q, ¬ (str ≤ q < str + Z.of_nat (length l)) → m' !! q = m !! q.
Proof.
  intros Hc Hne Hs0 Hs Hf. destruct l as [|x l']; [done|]. set (l := x :: l') in *.
  pose proof Hc as [Hb Hl]. unfold strrev, strlen.
  rewrite (strlen_loop_spec l) by (rewrite ?Z.add_0_r; done || lia). cbn [mbind outcome_bind].
  destruct (strrev_loop_spec m l str fuel m 0 Hl) as (m' & E & Hr & Hout); try done; try lia; try (simpl; lia).
  { split; [|done]. intros t Ht. unfold rev_state. rewrite decide_False by lia.
    destruct (lookup_lt_is_Some_2 l t Ht) as [y Hy]. rewrite Hy. apply Hb. by apply lookup_app_l_Some. }
  exists m'. replace (0 + Z.of_nat (length l) - 1) with (Z.of_nat (length l) - 1 - Z.of_nat 0) by lia.
  split; [exact E|]. split; [|done]. split; [|by apply Forall_reverse].
  apply bytes_at_app. split; [done|]. rewrite length_reverse. apply bytes_at_cons. split; [|by intros ? ? ?%lookup_nil_Some || (intros ? ?; by rewrite lookup_nil)].
  rewrite Hout by lia. apply bytes_at_app in Hb as [_ Hb]. by apply bytes_at_cons in Hb as [? _].
Qed.

(** On the empty string [strrev] computes [len - 1] below zero and touches the byte
    before the string. *)
Theorem strrev_empty_underflow str m fuel :
  cstr m str [] → 0 < str < 2 ^ 64 → m !! (str - 1) = None → (0 < fuel)%nat →
  strrev fuel str m = Crash.
Proof.
  intros Hc Hs Hm Hf. destruct fuel as [|fuel]; [lia|]. apply cstr_nil in Hc.
  unfold strrev, strlen. simpl. rewrite Z.add_0_r, (ld_spec _ _ _ Hc). simpl.
  rewrite (w64_small str) by lia. rewrite (ld_spec _ _ _ Hc). simpl.
  assert (w64 (str + w64 (0 - 1)) = str - 1) as ->.
  { change (0 - 1) with (-1). unfold w64. rewrite Zplus_mod_idemp_r. replace (str + -1) with (str - 1) by lia. apply Z.mod_small. lia. }
  unfold ld at 1. by rewrite Hm.
Qed.

(** [strtol] with base 10 is exact on strings of up to 18 digits. *)
Theorem strtol_decimal l m str fuel :
  cstr m str l → l ≠ [] → is_digits l → (length l ≤ 18)%nat → (length l < fuel)%nat →
  strtol fuel str 10 m = Done (dec_value l 0, str + Z.of_nat (length l), false).
Proof.
  intros Hc Hne Hd Hlen Hf. destruct l as [|c l']; [done|]. set (l := c :: l') in *.
  pose proof Hc as Hc0. apply cstr_cons in Hc0 as (Hx & _ & _).
  pose proof Hd as Hd0. apply Forall_cons in Hd0 as [Hc48 _].
  destruct (cstr_nth m str l 1 Hc) as (d & E & _); [simpl; lia|]. apply deref_Done_inv in E. simpl in E.
  unfold strtol. rewrite (str2int_digit false m str c) by (done || lia || by exists d). unfold cut.
  rewrite (digits_loop_spec l m str fuel _ _ 0 false); [|done|done|lia|lia|by vm_compute|by vm_compute|].
  - cbn [mbind outcome_bind]. simpl. unfold to_ret. do 2 f_equal. f_equal.
    pose proof (dec_value_bound l 0 Hd ltac:(lia)) as Hb.
    pose proof (Z.pow_le_mono_r 10 (Z.of_nat (length l)) 18 ltac:(lia) ltac:(lia)).
    change (dec_value l' (0 * 10 + (c - 48))) with (dec_value l 0). apply s64_small. lia.
  - rewrite Z.mul_1_l. apply Z.pow_le_mono_r; lia.
Qed.

(** [strtoul] gives up far too early: its [cutoff] is the remainder [max % base], so
    already two decimal digits starting with 5 or more are reported as out of range. *)
Theorem strtoul_spurious_erange d1 d2 m str fuel :
  cstr m str [d1; d2] → 53 ≤ d1 ≤ 57 → 48 ≤ d2 ≤ 57 → (2 < fuel)%nat →
  strtoul fuel str 10 m = Done (2 ^ 64 - 1, str + 2, true).
Proof.
  intros Hc H1 H2 Hf. do 3 (destruct fuel as [|fuel]; [lia|]).
  apply cstr_cons in Hc as (Hx & _ & Hc). apply cstr_cons in Hc as (Hy & _ & Hc). apply cstr_nil in Hc.
  unfold strtoul. rewrite (str2int_digit true m str d1) by (done || lia || by exists d2).
  change (cut true false 10) with (5, 0). cbn [digits_loop].
  rewrite (ld_spec _ _ _ Hx). cbn [mbind outcome_bind]. rewrite s8_byte by lia.
  destruct (Z.ltb_spec d1 128); [|lia]. destruct (Z.eqb_spec d1 0); [lia|].
  unfold digit_of, isdigit, within. destruct (Z.leb_spec 48 d1), (Z.leb_spec d1 57); try lia. cbn [andb].
  destruct (Z.leb_spec 10 (d1 - 48)); [lia|]. change (5 <=? 0) with false. change (0 =? 5) with false. cbn [orb andb].
  rewrite (ld_spec _ _ _ Hy). cbn [mbind outcome_bind]. rewrite s8_byte by lia.
  destruct (Z.ltb_spec d2 128); [|lia]. destruct (Z.eqb_spec d2 0); [lia|].
  destruct (Z.leb_spec 48 d2), (Z.leb_spec d2 57); try lia. cbn [andb].
  destruct (Z.leb_spec 10 (d2 - 48)); [lia|]. rewrite w64_small by lia.
  destruct (Z.leb_spec 5 (0 * 10 + (d1 - 48))); [|lia]. cbn [orb].
  rewrite (ld_spec _ _ _ Hc). replace (str + 2) with (str + 1 + 1) by lia. reflexivity.
Qed.

(** ** Witnesses *)
(** "hello" at address 16, "lo" at 32, digits at 48, an empty string at 64, and some room. *)
Definition ex_mem : bytemem :=
  write_bytes (write_bytes (write_bytes (write_bytes (write_bytes ∅ 100 (replicate 16 7)) 16 [104; 101; 108; 108; 111; 0])
    32 [108; 111; 0]) 48 [54; 48; 0]) 64 [0].

(** Deciding facts about concrete memory. *)
Definition bytes_atb (m : bytemem) (p : Z) (l : list Z) : bool :=
  forallb (λ i, bool_decide (m !! (p + Z.of_nat i) = l !! i)) (seq 0 (length l)).
Lemma bytes_atb_ok m p l : bytes_atb m p l = true → bytes_at m p l.
Proof.
  unfold bytes_atb. rewrite forallb_forall. intros H i x Hx. rewrite <-Hx. eapply bool_decide_eq_true_1, H.
  apply in_seq. apply lookup_lt_Some in Hx. lia.
Qed.
Definition cstrb (m : bytemem) (p : Z) (l : list Z) : bool :=
  bytes_atb m p (l ++ [0]) && forallb (λ x, (0 <? x) && (x <? 256)) l.
Lemma cstrb_ok m p l : cstrb m p l = true → cstr m p l.
Proof.
  unfold cstrb. rewrite andb_true_iff. intros [Hb Hl]. split; [by apply bytes_atb_ok|].
  apply Forall_forall. intros x Hx%list_elem_of_In. rewrite forallb_forall in Hl.
  apply Hl in Hx. lia.
Qed.
Lemma bytes_atb_mapped m p l : bytes_atb m p l = true → mapped m p (length l).
Proof. intros H. by apply bytes_at_mapped, bytes_atb_ok. Qed.

Lemma memcpy_words_equiv_witness :
  memcpy_words 100 16 6 ex_mem = memcpy 100 16 6 ex_mem ∧
  memcpy 100 16 6 ex_mem = Done (write_bytes ex_mem 100 [104; 101; 108; 108; 111; 0]).
Proof.
  apply (memcpy_words_equiv 100 16 [104; 101; 108; 108; 111; 0] ex_mem).
  - repeat (constructor; [lia|]). constructor.
  - by apply bytes_atb_ok.
  - by apply (bytes_atb_mapped ex_mem 100 (replicate 6 7)).
  - right. simpl. lia.
Defined.

Lemma memset_words_equiv_witness :
  memset_words 103 (-1) 12 ex_mem = memset 103 (-1) 12 ex_mem ∧
  memset 103 (-1) 12 ex_mem = Done (write_bytes ex_mem 103 (replicate 12 255)).
Proof.
  apply (memset_words_equiv 103 (-1) 12 ex_mem). by apply (bytes_atb_mapped ex_mem 103 (replicate 12 7)).
Defined.

Lemma memmove_correct_witness :
  memmove 17 16 5 ex_mem = Done (write_bytes ex_mem 17 [104; 101; 108; 108; 111]).
Proof.
  apply (memmove_correct 17 16 [104; 101; 108; 108; 111] ex_mem).
  - repeat (constructor; [lia|]). constructor.
  - by apply bytes_atb_ok.
  - by apply (bytes_atb_mapped ex_mem 17 [101; 108; 108; 111; 0]).
Defined.

Lemma strstr_correct_witness : strstr 20 16 32 ex_mem = Done 19.
Proof.
  apply (strstr_correct 16 32 [104; 101; 108; 108; 111] [108; 111] ex_mem 20);
    [by apply cstrb_ok|by apply cstrb_ok|simpl; lia].
Defined.

Lemma strrev_correct_witness :
  ∃ m', strrev 10 16 ex_mem = Done m' ∧ cstr m' 16 [111; 108; 108; 101; 104].
Proof.
  destruct (strrev_correct 16 [104; 101; 108; 108; 111] ex_mem 10) as (m' & E & Hc & _);
    [by apply cstrb_ok|done|lia|simpl; lia|simpl; lia|].
  exists m'. split; [exact E|exact Hc].
Defined.

Lemma strrev_empty_underflow_witness : strrev 1 64 ex_mem = Crash.
Proof. apply strrev_empty_underflow; [by apply cstrb_ok|lia|reflexivity|lia]. Defined.

Lemma strtol_decimal_witness : strtol 3 48 10 ex_mem = Done (60, 50, false).
Proof.
  apply (strtol_decimal [54; 48] ex_mem 48 3); [by apply cstrb_ok|done| |simpl; lia|simpl; lia].
  repeat (constructor; [lia|]). constructor.
Defined.

(** [strtoul("60")] is 60 with [strtol] but ULONG_MAX with ERANGE here. *)
Lemma strtoul_spurious_erange_witness : strtoul 3 48 10 ex_mem = Done (2 ^ 64 - 1, 50, true).
Proof. apply (strtoul_spurious_erange 54 48); [by apply cstrb_ok|lia|lia|lia]. Defined.
