(* ===== verification/Objects.v ===== *)
(** Memory objects ([vmm::object] and [vmm::memobject] of
    kernel/source/system/memory/vmm.cpp): demand-allocated pages behind a byte interface.

    The abstract state of an object is a function from offsets to bytes, and [read],
    [write], [clear] and [copy_to] are specified on it. *)

From S2P Require Import Prelude Math Pmm Frames.

Section objects.
Context `{FrameAllocator St}.

(** All objects (page index to frame), the contents of frames, the frame allocator. *)
Record objstore := mk_objstore { objects : gmap Z (gmap Z Z); phys : gmap Z (list Z); oframes : St }.

Definition zero_page : list Z := replicate 4096 0.

(** [memobject::request_page] *)
Definition request_page (s : objstore) : outcome (Z * objstore) :=
  '(p, f) ← fa_alloc Normal 1 true (oframes s);
  Done (p, mk_objstore (objects s) (<[p := zero_page]> (phys s)) f).

Definition get_page (o idx : Z) (s : objstore) : outcome (Z * objstore) :=
  pages ← deref (objects s !! o);
  match pages !! idx with
  | Some page => Done (page, s)
  | None =>
      '(page, s) ← request_page s;
      if page =? 0 then Done (0, s) else
      pages ← deref (objects s !! o);
      Done (page, mk_objstore (<[o := <[idx := page]> pages]> (objects s)) (phys s) (oframes s))
  end.

(** [memcpy] from and to a frame. *)
Definition read_frame (page misalign csize : Z) (s : objstore) : outcome (list Z) :=
  bs ← deref (phys s !! page);
  if Z.of_nat (length bs) <? misalign + csize then Crash
  else Done (take (Z.to_nat csize) (drop (Z.to_nat misalign) bs)).
Definition write_frame (page misalign : Z) (l : list Z) (s : objstore) : outcome objstore :=
  bs ← deref (phys s !! page);
  if Z.of_nat (length bs) <? misalign + Z.of_nat (length l) then Crash
  else Done (mk_objstore (objects s)
    (<[page := take (Z.to_nat misalign) bs ++ l ++ drop (Z.to_nat misalign + length l) bs]> (phys s)) (oframes s)).

(** The loop shared by the operations: [body] handles [csize] bytes of the page with index
    [idx] and says whether a page was available. *)
Fixpoint chunk_loop (fuel : nat) (offset length progress : Z)
    (body : Z → Z → Z → Z → objstore → outcome (bool * objstore)) (s : objstore) : outcome (Z * objstore) :=
  match fuel with
  | O => NoFuel
  | S fuel =>
      if length <=? progress then Done (progress, s) else
      let misalign := w64 (progress + offset) mod page_size in
      let idx := w64 (progress + offset) / page_size in
      let csize := Z.min (page_size - misalign) (length - progress) in
      '(ok, s) ← body progress idx misalign csize s;
      if negb ok then Done (progress, s) else chunk_loop fuel offset length (progress + csize) body s
  end.
Definition chunk_fuel (length : Z) : nat := S (Z.to_nat length).

(** [object::write] *)
Definition write_body (o : Z) (buffer : list Z) (progress idx misalign csize : Z) (s : objstore)
    : outcome (bool * objstore) :=
  '(page, s) ← get_page o idx s;
  if page =? 0 then Done (false, s) else
  s ← write_frame page misalign (take (Z.to_nat csize) (drop (Z.to_nat progress) buffer)) s;
  Done (true, s).
Definition write (o offset : Z) (buffer : list Z) (s : objstore) : outcome (Z * objstore) :=
  let length := Z.of_nat (length buffer) in
  chunk_loop (chunk_fuel length) offset length 0 (write_body o buffer) s.

(** [object::clear] *)
Definition clear_body (o value : Z) (progress idx misalign csize : Z) (s : objstore)
    : outcome (bool * objstore) :=
  '(page, s) ← get_page o idx s;
  if page =? 0 then Done (false, s) else
  s ← write_frame page misalign (replicate (Z.to_nat csize) value) s;
  Done (true, s).
Definition clear (o offset value length : Z) (s : objstore) : outcome (Z * objstore) :=
  chunk_loop (chunk_fuel length) offset length 0 (clear_body o value) s.

(** [object::copy_to] *)
Definition copy_body (o other : Z) (progress idx misalign csize : Z) (s : objstore)
    : outcome (bool * objstore) :=
  '(our_page, s) ← get_page o idx s;
  if our_page =? 0 then Done (false, s) else
  '(their_page, s) ← get_page other idx s;
  if their_page =? 0 then Done (false, s) else
  l ← read_frame our_page misalign csize s;
  s ← write_frame their_page misalign l s;
  Done (true, s).
Definition copy_to (o other offset length : Z) (s : objstore) : outcome (Z * objstore) :=
  chunk_loop (chunk_fuel length) offset length 0 (copy_body o other) s.

(** [object::read]; the buffer that is filled is threaded through the loop. *)
Fixpoint read_loop (fuel : nat) (o offset length progress : Z) (buffer : list Z) (s : objstore)
    : outcome (Z * list Z * objstore) :=
  match fuel with
  | O => NoFuel
  | S fuel =>
      if length <=? progress then Done (progress, buffer, s) else
      let misalign := w64 (progress + offset) mod page_size in
      let idx := w64 (progress + offset) / page_size in
      let csize := Z.min (page_size - misalign) (length - progress) in
      '(page, s) ← get_page o idx s;
      if page =? 0 then Done (progress, buffer, s) else
      l ← read_frame page misalign csize s;
      let buffer := take (Z.to_nat progress) buffer ++ l ++ drop (Z.to_nat (progress + csize)) buffer in
      read_loop fuel o offset length (progress + csize) buffer s
  end.
Definition read (o offset : Z) (buffer : list Z) (s : objstore) : outcome (Z * list Z * objstore) :=
  let len := Z.of_nat (length buffer) in
  read_loop (chunk_fuel len) o offset len 0 buffer s.

(** [memobject::~memobject] *)
Fixpoint free_pages (l : list (Z * Z)) (s : objstore) : outcome objstore :=
  match l with
  | [] => Done s
  | (idx, page) :: l =>
      f ← fa_free page 1 (oframes s);
      free_pages l (mk_objstore (objects s) (delete page (phys s)) f)
  end.
Definition destroy_object (o : Z) (s : objstore) : outcome objstore :=
  pages ← deref (objects s !! o);
  s ← free_pages (map_to_list pages) s;
  Done (mk_objstore (delete o (objects s)) (phys s) (oframes s)).
End objects.
Arguments objstore St : clear implicits.
Arguments mk_objstore {St} _ _ _.
Arguments objects {St} _.
Arguments phys {St} _.
Arguments oframes {St} _.
#[global] Arguments zero_page : simpl never.

(** ** Contents *)
Section contents.
Context `{FrameAllocatorLaws St}.
Abbreviation objstore := (objstore St).

Record obj_inv (s : objstore) : Prop := {
  oi_frame o pages idx p : objects s !! o = Some pages → pages !! idx = Some p →
    p ≠ 0 ∧ ((4096 | p) ∧ 0 < p ∧ p + 4096 ≤ 2 ^ 46) ∧ ∃ bs, phys s !! p = Some bs ∧ length bs = 4096%nat;
  oi_inj o1 pages1 o2 pages2 i1 i2 p :
    objects s !! o1 = Some pages1 → objects s !! o2 = Some pages2 →
    pages1 !! i1 = Some p → pages2 !! i2 = Some p → o1 = o2 ∧ i1 = i2;
  oi_used : ∃ U, fa_inv (oframes s) U ∧ ∀ p, is_Some (phys s !! p) → U p }.

(** The byte at offset [off] of an object; pages that do not exist yet are zero. *)
Definition byte_at (s : objstore) (o off : Z) : Z :=
  default 0 (pages ← objects s !! o; p ← pages !! (off / 4096); bs ← phys s !! p;
             bs !! Z.to_nat (off mod 4096)).

(** Requesting a page changes no byte. *)
Lemma get_page_spec s o pages idx :
  obj_inv s → objects s !! o = Some pages →
  get_page o idx s = Panic ∨
  ∃ p s' pages', get_page o idx s = Done (p, s') ∧ p ≠ 0 ∧ obj_inv s' ∧
    objects s' !! o = Some pages' ∧ pages' !! idx = Some p ∧
    (∀ o' pg, o' ≠ o → objects s !! o' = Some pg → objects s' !! o' = Some pg) ∧
    (∀ i q, pages !! i = Some q → pages' !! i = Some q) ∧
    (∀ o' off, byte_at s' o' off = byte_at s o' off).
Proof.
  intros Hi Ho. unfold get_page. rewrite Ho. simpl. destruct (pages !! idx) as [p|] eqn:Ep.
  { right. exists p, s, pages. destruct (oi_frame _ Hi _ _ _ _ Ho Ep) as [Hp _]. by split_and!. }
  destruct (oi_used _ Hi) as (U & HU & Hused). unfold request_page.
  destruct (fa_alloc_spec (oframes s) U Normal 1 true HU ltac:(lia))
    as [->|(p & f & U' & -> & HU' & Hp0 & Hphi & Hpd & Hmono & Hnew)]; [by left|right]. simpl.
  destruct (Z.eqb_spec p 0); [lia|]. rewrite Ho. simpl.
  assert (phys s !! p = None) as Hfresh.
  { destruct (phys s !! p) eqn:E; [|done]. destruct (Hnew p) as [Hno _]; [lia|]. destruct Hno. apply Hused. eauto. }
  assert (∀ o' pg i q, objects s !! o' = Some pg → pg !! i = Some q → q ≠ p) as Hqp.
  { intros o' pg i q Ho' Hq ->. destruct (oi_frame _ Hi _ _ _ _ Ho' Hq) as (_ & _ & bs & Hbs & _). congruence. }
  eexists p, _, (<[idx := p]> pages). split; [done|]. split; [done|]. split; [split|split; [|split; [|split; [|split]]]]; simpl.
  - intros o' pg i q [[<- <-]|[Hne Ho']]%lookup_insert_Some Hq.
    + apply lookup_insert_Some in Hq as [[<- <-]|[_ Hq]].
      * split; [done|]. split; [split_and!; (done || lia)|]. exists zero_page. rewrite lookup_insert_eq. done.
      * rewrite lookup_insert_ne by (apply not_eq_sym; by eapply Hqp). by eapply (oi_frame _ Hi).
    + rewrite lookup_insert_ne by (apply not_eq_sym; by eapply Hqp). by eapply (oi_frame _ Hi).
  - intros o1 pg1 o2 pg2 i1 i2 q
      [[<- <-]|[Hne1 H1]]%lookup_insert_Some [[<- <-]|[Hne2 H2]]%lookup_insert_Some.
    + intros [[<- <-]|[_ Hq1]]%lookup_insert_Some [[<- ?]|[_ Hq2]]%lookup_insert_Some; try done.
      * by eapply Hqp in Hq2.
      * subst. by eapply Hqp in Hq1.
      * by eapply (oi_inj _ Hi o pages o pages).
    + intros [[<- <-]|[_ Hq1]]%lookup_insert_Some Hq2; [by eapply Hqp in Hq2|].
      by eapply (oi_inj _ Hi o pages o2 pg2).
    + intros Hq1 [[<- ?]|[_ Hq2]]%lookup_insert_Some; [subst; by eapply Hqp in Hq1|].
      by eapply (oi_inj _ Hi o1 pg1 o pages).
    + by eapply (oi_inj _ Hi o1 pg1 o2 pg2).
  - exists U'. split; [done|]. intros q [bs [[<- _]|[_ Hq]]%lookup_insert_Some]; [apply Hnew; lia|].
    apply Hmono, Hused. eauto.
  - by rewrite lookup_insert_eq.
  - by rewrite lookup_insert_eq.
  - intros o' pg Hne Ho'. by rewrite lookup_insert_ne.
  - intros i q Hq. rewrite lookup_insert_ne by congruence. done.
  - intros o' off. unfold byte_at. simpl. destruct (decide (o' = o)) as [->|Hne].
    + rewrite lookup_insert_eq, Ho. simpl. destruct (decide (idx = off / 4096)) as [->|Hno].
      * rewrite lookup_insert_eq, Ep. simpl. rewrite lookup_insert_eq. simpl. unfold zero_page.
        rewrite lookup_replicate_2; [done|]. pose proof (Z.mod_pos_bound off 4096). lia.
      * rewrite lookup_insert_ne by done. destruct (pages !! (off / 4096)) as [q|] eqn:Eq; [|done]. simpl.
        rewrite lookup_insert_ne by (apply not_eq_sym; by eapply Hqp). done.
    + rewrite lookup_insert_ne by done. destruct (objects s !! o') as [pg|] eqn:Eo'; [|done]. simpl.
      destruct (pg !! (off / 4096)) as [q|] eqn:Eq; [|done]. simpl.
      rewrite lookup_insert_ne by (apply not_eq_sym; by eapply Hqp). done.
Qed.

(** Reading and writing part of a frame. *)
Lemma read_frame_spec s o pages idx p misalign csize :
  obj_inv s → objects s !! o = Some pages → pages !! idx = Some p →
  0 ≤ misalign → 0 ≤ csize → misalign + csize ≤ 4096 →
  ∃ l, read_frame p misalign csize s = Done l ∧ length l = Z.to_nat csize ∧
    ∀ i, (i < Z.to_nat csize)%nat → l !! i = Some (byte_at s o (idx * 4096 + misalign + Z.of_nat i)).
Proof.
  intros Hi Ho Hp Hm Hc Hb. destruct (oi_frame _ Hi _ _ _ _ Ho Hp) as (_ & _ & bs & Hbs & Hlen).
  unfold read_frame. rewrite Hbs. simpl. destruct (Z.ltb_spec (Z.of_nat (length bs)) (misalign + csize)); [lia|].
  eexists. split; [done|]. split; [rewrite length_take, length_drop; lia|]. intros i Hic.
  rewrite lookup_take_lt, lookup_drop by lia. unfold byte_at. rewrite Ho. simpl.
  assert ((idx * 4096 + misalign + Z.of_nat i) / 4096 = idx) as -> by (Z.to_euclidean_division_equations; lia).
  assert ((idx * 4096 + misalign + Z.of_nat i) mod 4096 = misalign + Z.of_nat i) as -> by (Z.to_euclidean_division_equations; lia).
  rewrite Hp. simpl. rewrite Hbs. simpl.
  replace (Z.to_nat (misalign + Z.of_nat i)) with (Z.to_nat misalign + i)%nat by lia.
  destruct (lookup_lt_is_Some_2 bs (Z.to_nat misalign + i)) as [x ->]; [lia|done].
Qed.

Lemma write_frame_spec s o pages idx p misalign l :
  obj_inv s → objects s !! o = Some pages → pages !! idx = Some p →
  0 ≤ misalign → misalign + Z.of_nat (length l) ≤ 4096 →
  ∃ s', write_frame p misalign l s = Done s' ∧ obj_inv s' ∧ objects s' = objects s ∧
    ∀ o' off, byte_at s' o' off =
      if decide (o' = o ∧ idx * 4096 + misalign ≤ off < idx * 4096 + misalign + Z.of_nat (length l))
      then default 0 (l !! Z.to_nat (off - (idx * 4096 + misalign))) else byte_at s o' off.
Proof.
  intros Hi Ho Hp Hm Hb. destruct (oi_frame _ Hi _ _ _ _ Ho Hp) as (Hp0 & _ & bs & Hbs & Hlen).
  unfold write_frame. rewrite Hbs. simpl. destruct (Z.ltb_spec (Z.of_nat (length bs)) (misalign + Z.of_nat (length l))); [lia|].
  set (bs' := take (Z.to_nat misalign) bs ++ l ++ drop (Z.to_nat misalign + length l) bs).
  assert (length bs' = 4096%nat) as Hlen'.
  { unfold bs'. rewrite !length_app, length_take, length_drop. lia. }
  eexists. split; [done|]. split; [split|split; [done|]]; simpl.
  - intros o' pg i q Ho' Hq. destruct (oi_frame _ Hi _ _ _ _ Ho' Hq) as (Hq0 & Hqr & bq & Hbq & Hlq). split; [done|]. split; [done|].
    destruct (decide (q = p)) as [->|]; [rewrite lookup_insert_eq; eauto|rewrite lookup_insert_ne by done; eauto].
  - apply (oi_inj _ Hi).
  - destruct (oi_used _ Hi) as (U & HU & Hused). exists U. split; [done|]. intros q [bq Hq]. apply Hused.
    apply lookup_insert_Some in Hq as [[<- _]|[_ Hq]]; eauto.
  - intros o' off. unfold byte_at. simpl.
    destruct (decide (o' = o ∧ off / 4096 = idx)) as [[-> <-]|Hne].
    + rewrite Ho. simpl. rewrite Hp. simpl. rewrite lookup_insert_eq, Hbs. simpl. unfold bs'.
      pose proof (Z.mod_pos_bound off 4096 ltac:(lia)) as Hmb. pose proof (Z.div_mod off 4096 ltac:(lia)) as Hdm.
      set (r := off mod 4096) in *. case_decide as Hin.
      * rewrite lookup_app_r by (rewrite length_take; lia). rewrite length_take.
        rewrite lookup_app_l by lia. do 2 f_equal. lia.
      * destruct (decide (r < misalign)).
        -- rewrite lookup_app_l by (rewrite length_take; lia). by rewrite lookup_take_lt by lia.
        -- rewrite lookup_app_r by (rewrite length_take; lia). rewrite length_take.
           rewrite lookup_app_r by lia. rewrite lookup_drop. do 2 f_equal. lia.
    + rewrite decide_False.
      2: { intros [-> Hr]. apply Hne. split; [done|]. Z.to_euclidean_division_equations; lia. }
      destruct (objects s !! o') as [pg|] eqn:Eo'; [|done]. simpl.
      destruct (pg !! (off / 4096)) as [q|] eqn:Eq; [|done]. simpl.
      destruct (decide (q = p)) as [->|]; [|by rewrite lookup_insert_ne].
      destruct Hne. destruct (oi_inj _ Hi _ _ _ _ _ _ _ Ho Eo' Hp Eq). by subst.
Qed.

(** ** The loops *)
(** The chunk at [progress]. *)
Lemma chunk_facts offset length progress :
  0 ≤ offset → offset + length < 2 ^ 64 → 0 ≤ progress < length →
  let misalign := w64 (progress + offset) mod page_size in
  let idx := w64 (progress + offset) / page_size in
  let csize := Z.min (page_size - misalign) (length - progress) in
  0 ≤ misalign ∧ 0 < csize ∧ progress + csize ≤ length ∧ misalign + csize ≤ 4096 ∧
  idx * 4096 + misalign = offset + progress.
Proof.
  intros Ho Hl Hp. cbv zeta. rewrite w64_small by lia. unfold page_size.
  pose proof (Z.mod_pos_bound (progress + offset) 4096 ltac:(lia)).
  pose proof (Z.div_mod (progress + offset) 4096 ltac:(lia)). lia.
Qed.

Lemma chunk_loop_rule (P : Z → objstore → Prop) offset length body :
  0 ≤ offset → offset + length < 2 ^ 64 →
  (∀ progress idx misalign csize s, 0 ≤ progress → 0 ≤ misalign → 0 < csize → progress + csize ≤ length →
    misalign + csize ≤ 4096 → idx * 4096 + misalign = offset + progress → P progress s →
    body progress idx misalign csize s = Panic ∨
    ∃ s', body progress idx misalign csize s = Done (true, s') ∧ P (progress + csize) s') →
  ∀ fuel progress s, 0 ≤ progress ≤ length → length - progress < Z.of_nat fuel → P progress s →
  chunk_loop fuel offset length progress body s = Panic ∨
  ∃ s', chunk_loop fuel offset length progress body s = Done (length, s') ∧ P length s'.
Proof.
  intros Ho Hl Hbody fuel. induction fuel as [|fuel IH]; intros progress s Hp Hf HP; [lia|].
  cbn [chunk_loop]. destruct (Z.leb_spec length progress).
  { right. assert (progress = length) as -> by lia. by exists s. }
  pose proof (chunk_facts offset length progress Ho Hl ltac:(lia)) as Hc. cbv zeta in *.
  set (misalign := w64 (progress + offset) mod page_size) in *.
  set (idx := w64 (progress + offset) / page_size) in *.
  set (csize := Z.min (page_size - misalign) (length - progress)) in *.
  destruct Hc as (Hc1 & Hc2 & Hc3 & Hc4 & Hc5).
  destruct (Hbody progress idx misalign csize s) as [->|(s' & -> & HP')]; [lia|done..|by left|].
  cbn [mbind outcome_bind negb]. apply IH; [lia|lia|done].
Qed.

(** States that differ from [s] by [f] at the bytes [offset .. offset + n) of object [o]. *)
Definition updated (s : objstore) (o offset n : Z) (f : Z → Z) (s' : objstore) : Prop :=
  obj_inv s' ∧ (∀ o', is_Some (objects s !! o') → is_Some (objects s' !! o')) ∧
  ∀ o' off, byte_at s' o' off =
    if decide (o' = o ∧ offset ≤ off < offset + n) then f off else byte_at s o' off.

Lemma updated_refl s o offset f : obj_inv s → updated s o offset 0 f s.
Proof. intros Hi. split; [done|]. split; [done|]. intros o' off. by rewrite decide_False by lia. Qed.

(** One chunk of an update. *)
Lemma updated_step s o offset n f s1 idx p misalign l s2 pages2 :
  updated s o offset n f s1 → 0 ≤ n → 0 ≤ misalign → misalign + Z.of_nat (length l) ≤ 4096 →
  idx * 4096 + misalign = offset + n →
  obj_inv s2 → (∀ o', is_Some (objects s1 !! o') → is_Some (objects s2 !! o')) →
  (∀ o' off, byte_at s2 o' off = byte_at s1 o' off) →
  objects s2 !! o = Some pages2 → pages2 !! idx = Some p →
  (∀ i, (i < length l)%nat → l !! i = Some (f (offset + n + Z.of_nat i))) →
  ∃ s3, write_frame p misalign l s2 = Done s3 ∧ updated s o offset (n + Z.of_nat (length l)) f s3.
Proof.
  intros (Hi1 & Hs1 & Hb1) Hn Hm Hml Hidx Hi2 Hs2 Hb2 Ho Hp Hf.
  destruct (write_frame_spec s2 o pages2 idx p misalign l Hi2 Ho Hp Hm Hml) as (s3 & -> & Hi3 & Hobj & Hb3).
  exists s3. split; [done|]. split; [done|]. split.
  { intros o' Ho'. rewrite Hobj. auto. }
  intros o' off. rewrite Hb3, Hb2, Hb1, Hidx.
  destruct (decide (o' = o ∧ offset + n ≤ off < offset + n + Z.of_nat (length l))) as [[-> Hin]|Hout].
  - rewrite decide_True by lia. rewrite (Hf (Z.to_nat (off - (offset + n)))) by lia. simpl. f_equal. lia.
  - destruct (decide (o' = o ∧ offset ≤ off < offset + n)); [by rewrite decide_True by lia|].
    by rewrite decide_False by lia.
Qed.

Lemma write_spec s o offset buffer :
  obj_inv s → is_Some (objects s !! o) → 0 ≤ offset → offset + Z.of_nat (length buffer) < 2 ^ 64 →
  write o offset buffer s = Panic ∨
  ∃ s', write o offset buffer s = Done (Z.of_nat (length buffer), s') ∧
    updated s o offset (Z.of_nat (length buffer)) (λ off, default 0 (buffer !! Z.to_nat (off - offset))) s'.
Proof.
  intros Hi Ho Hoff Hlen. unfold write.
  apply (chunk_loop_rule (λ n s', updated s o offset n (λ off, default 0 (buffer !! Z.to_nat (off - offset))) s'));
    [lia|lia| |lia|unfold chunk_fuel; lia|by apply updated_refl].
  intros n idx misalign csize s1 Hn Hm Hc Hnc Hmc Hidx Hup. unfold write_body.
  destruct Hup as (Hi1 & Hs1 & Hb1). destruct (Hs1 o Ho) as [pages1 Ho1].
  destruct (get_page_spec s1 o pages1 idx Hi1 Ho1) as [->|(p & s2 & pages2 & -> & Hp0 & Hi2 & Ho2 & Hp2 & Hoth & _ & Hb2)];
    [by left|right]. cbn [mbind outcome_bind].
  destruct (Z.eqb_spec p 0); [done|].
  set (l := take (Z.to_nat csize) (drop (Z.to_nat n) buffer)).
  assert (length l = Z.to_nat csize) as Hl by (unfold l; rewrite length_take, length_drop; lia).
  destruct (updated_step s o offset n (λ off, default 0 (buffer !! Z.to_nat (off - offset))) s1 idx p misalign l s2 pages2)
    as (s3 & -> & Hup3); try done; try lia.
  - intros o' [pg Ho']. destruct (decide (o' = o)) as [->|]; [by exists pages2|]. exists pg. by apply Hoth.
  - intros i Hil. unfold l. rewrite lookup_take_lt, lookup_drop by lia.
    replace (Z.to_nat (offset + n + Z.of_nat i - offset)) with (Z.to_nat n + i)%nat by lia.
    destruct (lookup_lt_is_Some_2 buffer (Z.to_nat n + i)) as [x ->]; [lia|done].
  - exists s3. split; [done|]. replace csize with (Z.of_nat (length l)) by lia. done.
Qed.

Lemma clear_spec s o offset value length :
  obj_inv s → is_Some (objects s !! o) → 0 ≤ offset → 0 ≤ length → offset + length < 2 ^ 64 →
  clear o offset value length s = Panic ∨
  ∃ s', clear o offset value length s = Done (length, s') ∧ updated s o offset length (λ _, value) s'.
Proof.
  intros Hi Ho Hoff Hl0 Hlen. unfold clear.
  apply (chunk_loop_rule (λ n s', updated s o offset n (λ _, value) s'));
    [lia|lia| |lia|unfold chunk_fuel; lia|by apply updated_refl].
  intros n idx misalign csize s1 Hn Hm Hc Hnc Hmc Hidx Hup. unfold clear_body.
  destruct Hup as (Hi1 & Hs1 & Hb1). destruct (Hs1 o Ho) as [pages1 Ho1].
  destruct (get_page_spec s1 o pages1 idx Hi1 Ho1) as [->|(p & s2 & pages2 & -> & Hp0 & Hi2 & Ho2 & Hp2 & Hoth & _ & Hb2)];
    [by left|right]. cbn [mbind outcome_bind].
  destruct (Z.eqb_spec p 0); [done|].
  set (l := replicate (Z.to_nat csize) value).
  assert (List.length l = Z.to_nat csize) as Hl by apply length_replicate.
  destruct (updated_step s o offset n (λ _, value) s1 idx p misalign l s2 pages2) as (s3 & -> & Hup3); try done; try lia.
  - intros o' [pg Ho']. destruct (decide (o' = o)) as [->|]; [by exists pages2|]. exists pg. by apply Hoth.
  - intros i Hil. unfold l. apply lookup_replicate_2. lia.
  - exists s3. split; [done|]. replace csize with (Z.of_nat (List.length l)) by lia. done.
Qed.

Lemma copy_to_spec s o other offset length :
  obj_inv s → is_Some (objects s !! o) → is_Some (objects s !! other) → o ≠ other →
  0 ≤ offset → 0 ≤ length → offset + length < 2 ^ 64 →
  copy_to o other offset length s = Panic ∨
  ∃ s', copy_to o other offset length s = Done (length, s') ∧ updated s other offset length (byte_at s o) s'.
Proof.
  intros Hi Ho Hot Hne Hoff Hl0 Hlen. unfold copy_to.
  apply (chunk_loop_rule (λ n s', updated s other offset n (byte_at s o) s'));
    [lia|lia| |lia|unfold chunk_fuel; lia|by apply updated_refl].
  intros n idx misalign csize s1 Hn Hm Hc Hnc Hmc Hidx Hup. unfold copy_body.
  destruct Hup as (Hi1 & Hs1 & Hb1). destruct (Hs1 o Ho) as [pages1 Ho1].
  destruct (get_page_spec s1 o pages1 idx Hi1 Ho1) as [->|(p & s2 & pages2 & -> & Hp0 & Hi2 & Ho2 & Hp2 & Hoth & _ & Hb2)];
    [by left|]. cbn [mbind outcome_bind]. destruct (Z.eqb_spec p 0); [done|].
  destruct (Hs1 other Hot) as [pgo1 Hoo1]. pose proof (Hoth other pgo1 (not_eq_sym Hne) Hoo1) as Hoo2.
  destruct (get_page_spec s2 other pgo1 idx Hi2 Hoo2) as [->|(q & s3 & pages3 & -> & Hq0 & Hi3 & Ho3 & Hq3 & Hoth3 & _ & Hb3)];
    [by left|right]. cbn [mbind outcome_bind]. destruct (Z.eqb_spec q 0); [done|].
  pose proof (Hoth3 o pages2 Hne Ho2) as Ho23.
  destruct (read_frame_spec s3 o pages2 idx p misalign csize Hi3 Ho23 Hp2 Hm ltac:(lia) Hmc) as (l & -> & Hl & Hlb).
  cbn [mbind outcome_bind].
  destruct (updated_step s other offset n (byte_at s o) s1 idx q misalign l s3 pages3) as (s4 & -> & Hup4);
    try done; try lia.
  - intros o' [pg Ho']. destruct (decide (o' = other)) as [->|]; [by exists pages3|].
    destruct (decide (o' = o)) as [->|]; [by exists pages2|].
    exists pg. apply Hoth3; [done|]. by apply Hoth.
  - intros o' off. by rewrite Hb3, Hb2.
  - intros i Hil. rewrite Hlb, Hidx by lia. f_equal. rewrite Hb3, Hb2, Hb1, decide_False by naive_solver. done.
  - exists s4. split; [done|]. replace csize with (Z.of_nat (List.length l)) by lia. done.
Qed.

Lemma read_loop_spec s o offset length fuel s1 n buffer :
  0 ≤ offset → offset + length < 2 ^ 64 → Z.of_nat (List.length buffer) = length →
  obj_inv s1 → is_Some (objects s1 !! o) → (∀ o' off, byte_at s1 o' off = byte_at s o' off) →
  0 ≤ n ≤ length → length - n < Z.of_nat fuel →
  (∀ i, (i < Z.to_nat n)%nat → buffer !! i = Some (byte_at s o (offset + Z.of_nat i))) →
  read_loop fuel o offset length n buffer s1 = Panic ∨
  ∃ buffer' s', read_loop fuel o offset length n buffer s1 = Done (length, buffer', s') ∧ obj_inv s' ∧
    (∀ o', is_Some (objects s1 !! o') → is_Some (objects s' !! o')) ∧
    (∀ o' off, byte_at s' o' off = byte_at s o' off) ∧ Z.of_nat (List.length buffer') = length ∧
    ∀ i, (i < Z.to_nat length)%nat → buffer' !! i = Some (byte_at s o (offset + Z.of_nat i)).
Proof.
  intros Hoff Hlen. revert s1 n buffer.
  induction fuel as [|fuel IH]; intros s1 n buffer Hbl Hi1 Ho1 Hb1 Hn Hf Hbuf; [lia|].
  cbn [read_loop]. destruct (Z.leb_spec length n).
  { right. assert (n = length) as -> by lia. by exists buffer, s1. }
  pose proof (chunk_facts offset length n Hoff Hlen ltac:(lia)) as Hc. cbv zeta in *.
  set (misalign := w64 (n + offset) mod page_size) in *.
  set (idx := w64 (n + offset) / page_size) in *.
  set (csize := Z.min (page_size - misalign) (length - n)) in *.
  destruct Hc as (Hm & Hc & Hnc & Hmc & Hidx). destruct Ho1 as [pages1 Ho1].
  destruct (get_page_spec s1 o pages1 idx Hi1 Ho1) as [->|(p & s2 & pages2 & -> & Hp0 & Hi2 & Ho2 & Hp2 & Hoth & _ & Hb2)];
    [by left|]. cbn [mbind outcome_bind]. destruct (Z.eqb_spec p 0); [done|].
  destruct (read_frame_spec s2 o pages2 idx p misalign csize Hi2 Ho2 Hp2 Hm ltac:(lia) Hmc) as (l & -> & Hl & Hlb).
  cbn [mbind outcome_bind].
  assert (∀ o', is_Some (objects s1 !! o') → is_Some (objects s2 !! o')) as Hex.
  { intros o' [pg Hpg]. destruct (decide (o' = o)) as [->|]; [by rewrite Ho2|]. exists pg. by apply Hoth. }
  match goal with |- ?x = Panic ∨ _ => enough (x = Panic ∨ ∃ buffer' s', x = Done (length, buffer', s') ∧ obj_inv s' ∧
    (∀ o', is_Some (objects s2 !! o') → is_Some (objects s' !! o')) ∧
    (∀ o' off, byte_at s' o' off = byte_at s o' off) ∧ Z.of_nat (List.length buffer') = length ∧
    ∀ i, (i < Z.to_nat length)%nat → buffer' !! i = Some (byte_at s o (offset + Z.of_nat i))) by naive_solver end.
  apply IH; [|done|by rewrite Ho2| |lia|lia|].
  - rewrite !length_app, length_take, length_drop. lia.
  - intros o' off. by rewrite Hb2.
  - intros i Hi. destruct (decide (i < Z.to_nat n)%nat).
    + rewrite lookup_app_l by (rewrite length_take; lia). rewrite lookup_take_lt by lia. by apply Hbuf.
    + rewrite lookup_app_r by (rewrite length_take; lia). rewrite length_take.
      rewrite lookup_app_l by lia. rewrite Hlb by lia. f_equal. rewrite Hidx, Hb2, Hb1. f_equal. lia.
Qed.

Lemma read_spec s o offset buffer :
  obj_inv s → is_Some (objects s !! o) → 0 ≤ offset → offset + Z.of_nat (length buffer) < 2 ^ 64 →
  read o offset buffer s = Panic ∨
  ∃ s', read o offset buffer s = Done (Z.of_nat (length buffer),
      (λ i, byte_at s o (offset + Z.of_nat i)) <$> seq 0 (length buffer), s') ∧ obj_inv s' ∧
    (∀ o', is_Some (objects s !! o') → is_Some (objects s' !! o')) ∧ ∀ o' off, byte_at s' o' off = byte_at s o' off.
Proof.
  intros Hi Ho Hoff Hl. unfold read.
  destruct (read_loop_spec s o offset (Z.of_nat (length buffer)) (chunk_fuel (Z.of_nat (length buffer))) s 0 buffer)
    as [->|(b & s' & -> & Hi' & Hex & Hb & Hlen & Hbuf)]; try done; try (simpl; lia); [unfold chunk_fuel; lia|by left|right].
  exists s'. split; [|done]. do 3 f_equal. apply list_eq. intros i. rewrite list_lookup_fmap.
  destruct (decide (i < length buffer)%nat) as [Hin|Hin].
  - rewrite Hbuf by lia. rewrite lookup_seq_lt by done. done.
  - rewrite lookup_ge_None_2 by lia. rewrite lookup_seq_ge by lia. done.
Qed.
End contents.

(** ** Properties *)

(** [object::write] stores the whole buffer at its offset and changes no other byte of
    any object; it panics only when no frame is left. *)
Theorem object_write_correct `{FrameAllocatorLaws St} (s : objstore St) o offset buffer :
  obj_inv s → is_Some (objects s !! o) → 0 ≤ offset → offset + Z.of_nat (length buffer) < 2 ^ 64 →
  write o offset buffer s = Panic ∨
  ∃ s', write o offset buffer s = Done (Z.of_nat (length buffer), s') ∧ obj_inv s' ∧
    ∀ o' off, byte_at s' o' off =
      if decide (o' = o ∧ offset ≤ off < offset + Z.of_nat (length buffer))
      then default 0 (buffer !! Z.to_nat (off - offset)) else byte_at s o' off.
Proof.
  intros Hi Ho Hoff Hl. destruct (write_spec s o offset buffer Hi Ho Hoff Hl) as [->|(s' & -> & Hi' & _ & Hb)];
    [by left|right]. by exists s'.
Qed.

(** [object::read] fills the whole buffer with the bytes of the object from its offset
    on and changes no byte of any object, although it may allocate pages. *)
Theorem object_read_correct `{FrameAllocatorLaws St} (s : objstore St) o offset buffer :
  obj_inv s → is_Some (objects s !! o) → 0 ≤ offset → offset + Z.of_nat (length buffer) < 2 ^ 64 →
  read o offset buffer s = Panic ∨
  ∃ s', read o offset buffer s = Done (Z.of_nat (length buffer),
      (λ i, byte_at s o (offset + Z.of_nat i)) <$> seq 0 (length buffer), s') ∧ obj_inv s' ∧
    ∀ o' off, byte_at s' o' off = byte_at s o' off.
Proof.
  intros Hi Ho Hoff Hl. destruct (read_spec s o offset buffer Hi Ho Hoff Hl) as [->|(s' & -> & Hi' & _ & Hb)];
    [by left|right]. by exists s'.
Qed.

(** [object::copy_to] makes a range of the other object equal to the same range of this
    one and changes nothing else. *)
Theorem object_copy_correct `{FrameAllocatorLaws St} (s : objstore St) o other offset length :
  obj_inv s → is_Some (objects s !! o) → is_Some (objects s !! other) → o ≠ other →
  0 ≤ offset → 0 ≤ length → offset + length < 2 ^ 64 →
  copy_to o other offset length s = Panic ∨
  ∃ s', copy_to o other offset length s = Done (length, s') ∧ obj_inv s' ∧
    ∀ o' off, byte_at s' o' off =
      if decide (o' = other ∧ offset ≤ off < offset + length) then byte_at s o off else byte_at s o' off.
Proof.
  intros Hi Ho Hot Hne Hoff Hl0 Hl.
  destruct (copy_to_spec s o other offset length Hi Ho Hot Hne Hoff Hl0 Hl) as [->|(s' & -> & Hi' & _ & Hb)];
    [by left|right]. by exists s'.
Qed.

(** ** Witnesses: two empty objects *)
Definition ex_store : objstore Z := mk_objstore {[ 1 := ∅; 2 := ∅ ]} ∅ 0x1000.
Lemma ex_store_inv : obj_inv ex_store.
Proof.
  assert (∀ o pages idx, objects ex_store !! o = Some pages → pages !! idx = None) as He.
  { intros o pages idx. simpl. intros [[_ <-]|[_ [_ <-]%lookup_singleton_Some]]%lookup_insert_Some; apply lookup_empty. }
  split.
  - intros o pages idx p Ho Hp. by rewrite (He _ _ _ Ho) in Hp.
  - intros o1 p1 o2 p2 i1 i2 p H1 H2 Hp. by rewrite (He _ _ _ H1) in Hp.
  - exists (λ x, x < 0x1000). split; [split; [done|]; split; [by exists 1|done]|].
    intros p [bs Hp]. simpl in Hp. by rewrite lookup_empty in Hp.
Qed.
Lemma ex_store_objects o : o = 1 ∨ o = 2 → is_Some (objects ex_store !! o).
Proof. intros [->| ->]; by eexists. Qed.

Lemma object_write_correct_witness :
  ∃ s', write 1 4095 [7; 8] ex_store = Done (2, s') ∧ byte_at s' 1 4096 = 8 ∧ byte_at s' 2 4096 = 0.
Proof.
  destruct (object_write_correct ex_store 1 4095 [7; 8] ex_store_inv (ex_store_objects 1 (or_introl eq_refl)))
    as [E|(s' & E & _ & Hb)]; [lia|simpl; lia| |].
  - not_panic E.
  - exists s'. split; [exact E|]. split; rewrite Hb; reflexivity.
Defined.

Lemma object_read_correct_witness :
  ∃ s', read 1 4095 [1; 1; 1] ex_store = Done (3, [0; 0; 0], s') ∧ obj_inv s'.
Proof.
  destruct (object_read_correct ex_store 1 4095 [1; 1; 1] ex_store_inv (ex_store_objects 1 (or_introl eq_refl)))
    as [E|(s' & E & Hi & _)]; [lia|simpl; lia| |].
  - not_panic E.
  - exists s'. split; [exact E|exact Hi].
Defined.

Lemma object_copy_correct_witness :
  ∃ s', copy_to 1 2 4000 200 ex_store = Done (200, s') ∧ obj_inv s'.
Proof.
  destruct (object_copy_correct ex_store 1 2 4000 200 ex_store_inv (ex_store_objects 1 (or_introl eq_refl))
    (ex_store_objects 2 (or_intror eq_refl))) as [E|(s' & E & Hi & _)]; [done|lia|lia|lia| |].
  - not_panic E.
  - exists s'. split; [exact E|exact Hi].
Defined.
