(* ===== verification/Vmm.v ===== *)
(** Address spaces ([vmm::vmspace] and [handle_pfault] of
    kernel/source/system/memory/vmm.cpp): an ordered multiset of mappings in front of a page
    map.  The page map is used through the interface [PageMapOps]. *)

From S2P Require Import Prelude Math Pmm PmmBlocks Frames Pagemap PagemapTree PagemapSpec Objects.

(** What an address space needs of its page map (4 KiB pages). *)
Class PageMapOps (PM : Type) := {
  pm_map : Z → Z → Z → Z → PM → outcome (expected error unit * PM);
  pm_unmap : Z → Z → PM → outcome (expected error unit * PM);
  pm_protect : Z → Z → Z → PM → outcome (expected error unit * PM);
  pm_translate : Z → PM → outcome (expected error Z * PM) }.

(** On aligned ranges of the 48-bit address space [unmap] does not fail, and [protect]
    returns.  [pm_entry] is the entry of a page in the tables of the processor, zero where
    there is none: [unmap] clears exactly those of the range. *)
Class PageMapLaws (PM : Type) `{PageMapOps PM} := {
  pm_inv : PM → Prop;
  pm_entry : Z → PM → Z;
  pm_unmap_ok vaddr length m : pm_inv m → (4096 | vaddr) → 0 ≤ length ≤ 2 ^ 48 →
    ∃ m', pm_unmap vaddr length m = Done (Value (), m') ∧ pm_inv m' ∧
      ∀ va, (4096 | va) → pm_entry va m' = if voff vaddr va <? length then 0 else pm_entry va m;
  pm_protect_ok vaddr length fl m : pm_inv m → (4096 | vaddr) → 0 ≤ length ≤ 2 ^ 48 →
    ∃ r m', pm_protect vaddr length fl m = Done (r, m') ∧ pm_inv m' }.

(** The page map with root [table]. *)
Definition pagemap_ops `{FrameAllocator St} (hhdm : Z) (large_pages use_lowmem : bool) (table : Z)
    : PageMapOps (pagemaps St) :=
  {| pm_map vaddr paddr length flags := map hhdm large_pages use_lowmem table vaddr paddr length flags small write_back;
     pm_unmap vaddr length := unmap hhdm large_pages use_lowmem table vaddr length small;
     pm_protect vaddr length flags := protect hhdm large_pages use_lowmem table vaddr length flags small write_back;
     pm_translate vaddr := translate hhdm large_pages use_lowmem table vaddr small |}.

(** The entry that [getpte] finds for a page of 4096 bytes. *)
Definition page_entry `{FrameAllocator St} (hhdm : Z) (use_lowmem : bool) (table va : Z) (m : pagemaps St) : Z :=
  match getpte hhdm use_lowmem table va small false m with
  | Done (Value r, m') => match rd r m' with Done v => v | _ => 0 end
  | _ => 0
  end.
Lemma page_entry_spec `{FrameAllocatorLaws St} hhdm use_lowmem table va (m : pagemaps St) T :
  pm_rep hhdm m (tohh hhdm table) 3 T → page_entry hhdm use_lowmem table va m = pte_of m 3 T va.
Proof.
  intros Hr. unfold page_entry. rewrite (getpte_find hhdm use_lowmem m table T va small Hr). change (leaf_depth small) with 3%nat.
  destruct (leaf_ref 3 T va) as [r|] eqn:Hl; [by rewrite (leaf_rd hhdm m _ 3 T va r Hr Hl)|].
  unfold leaf_ref in Hl. unfold pte_of. by destruct (T !! path va 3).
Qed.

Lemma pagemap_unmap_ok `{FrameAllocatorLaws St} (hhdm : Z) (large_pages use_lowmem : bool) (table : Z) vaddr length m :
  (∃ T, pm_rep hhdm m (tohh hhdm table) 3 T) → (4096 | vaddr) → 0 ≤ length ≤ 2 ^ 48 →
  ∃ m', unmap hhdm large_pages use_lowmem table vaddr length small m = Done (Value (), m') ∧
    (∃ T, pm_rep hhdm m' (tohh hhdm table) 3 T) ∧
    ∀ va, (4096 | va) → page_entry hhdm use_lowmem table va m' = if voff vaddr va <? length then 0 else page_entry hhdm use_lowmem table va m.
Proof.
  intros [T HT] Hv Hl. pose proof (unmap_spec hhdm large_pages use_lowmem m table T vaddr length small) as Hu. cbv zeta in Hu.
  assert (fixpsize large_pages small = small) as Hs by by destruct large_pages. rewrite Hs in Hu.
  destruct (Hu HT Hv Hl) as (m' & E & Hr & Hrng). exists m'. split; [exact E|]. split; [by exists T|].
  intros va Hva. rewrite (page_entry_spec _ _ _ _ _ _ Hr), (page_entry_spec _ _ _ _ _ _ HT). by apply (Hrng va Hva).
Qed.
Lemma pagemap_protect_ok `{FrameAllocatorLaws St} (hhdm : Z) (large_pages use_lowmem : bool) (table : Z) vaddr length fl m :
  (∃ T, pm_rep hhdm m (tohh hhdm table) 3 T) → (4096 | vaddr) → 0 ≤ length ≤ 2 ^ 48 →
  ∃ r m', protect hhdm large_pages use_lowmem table vaddr length fl small write_back m = Done (r, m') ∧
    ∃ T, pm_rep hhdm m' (tohh hhdm table) 3 T.
Proof.
  intros [T HT] Hv Hl.
  destruct (protect_total hhdm large_pages use_lowmem m table T vaddr length fl small write_back HT Hv Hl)
    as (r & m' & E & Hr).
  exists r, m'. split; [exact E|]. by exists T.
Qed.
Definition pagemap_laws `{FrameAllocatorLaws St} (hhdm : Z) (large_pages use_lowmem : bool) (table : Z)
    : @PageMapLaws (pagemaps St) (pagemap_ops hhdm large_pages use_lowmem table) :=
  @Build_PageMapLaws (pagemaps St) (pagemap_ops hhdm large_pages use_lowmem table)
    (λ m, ∃ T, pm_rep hhdm m (tohh hhdm table) 3 T) (page_entry hhdm use_lowmem table) (pagemap_unmap_ok hhdm large_pages use_lowmem table)
    (pagemap_protect_ok hhdm large_pages use_lowmem table).

(** [enum prot] and [enum flag]. *)
Definition prot_read : Z := 1.
Definition prot_write : Z := 2.
Definition prot_exec : Z := 4.
Definition fl_shared : Z := 1.
Definition fl_private : Z := 2.
Definition fl_fixed : Z := 16.
Definition fl_anonymous : Z := 32.
Definition fl_untouchable : Z := 64.

(** An object is named by its identifier; a null pointer has none, so that
    [bug_on(obj == nullptr)] of [map] and [unmap] can not fail. *)
Record mapping := mk_mapping
  { startp : Z; endp : Z; obj : Z; offsetp : Z; prot : Z; flags : Z }.
#[export] Instance mapping_eq_dec : EqDecision mapping.
Proof. solve_decision. Defined.

(** [btree::multiset<mapping>], ordered by [startp]: [erase] of a value removes all
    elements with an equal key, [emplace] inserts after the elements with a key not above. *)
Definition erase_key (k : Z) (t : list mapping) : list mapping := filter (λ e, startp e ≠ k) t.
Fixpoint emplace (e : mapping) (t : list mapping) : list mapping :=
  match t with
  | [] => [e]
  | e' :: t => if startp e <? startp e' then e :: e' :: t else e' :: emplace e t
  end.

Definition overlaps (s f : Z) (e : mapping) : bool := (s <? endp e) && (startp e <? f).
Definition untouchable (e : mapping) : bool := negb (Z.land (flags e) fl_untouchable =? 0).
Definition overlapping (s f : Z) (t : list mapping) : list mapping :=
  filter (λ e, overlaps s f e = true) t.
Definition overlapping_touchable (s f : Z) (t : list mapping) : list mapping :=
  filter (λ e, overlaps s f e && negb (untouchable e) = true) t.

(** The page flags of a protection. *)
Definition pflags_of (pr : Z) : Z :=
  let ret := pf_user in
  let ret := flag_if (bit_of pr prot_read) pf_read ret in
  let ret := flag_if (bit_of pr prot_write) pf_write ret in
  flag_if (bit_of pr prot_exec) pf_exec ret.

Section vmspace.
Context `{PageMapOps PM}.

(** [locked]: the write lock of the tree is held. *)
Record vmspace := mk_vmspace { tree : list mapping; pmap : PM; locked : bool }.
Definition set_tree (t : list mapping) (v : vmspace) : vmspace := mk_vmspace t (pmap v) (locked v).
Definition set_pmap (m : PM) (v : vmspace) : vmspace := mk_vmspace (tree v) m (locked v).
Definition set_locked (b : bool) (v : vmspace) : vmspace := mk_vmspace (tree v) (pmap v) b.

(** [tree.write_lock()], which is not recursive. *)
Definition write_lock (v : vmspace) : outcome unit := if locked v then Hang else Done ().

Definition erase (e : mapping) (v : vmspace) : vmspace := set_tree (erase_key (startp e) (tree v)) v.
Definition insert_mapping (e : mapping) (v : vmspace) : vmspace := set_tree (emplace e (tree v)) v.
Definition insert_if (c : bool) (e : mapping) (v : vmspace) : vmspace := if c then insert_mapping e v else v.

Definition pmap_unmap (addr sz : Z) (v : vmspace) : outcome vmspace :=
  '(r, m) ← pm_unmap addr sz (pmap v);
  match r with Value _ => Done (set_pmap m v) | Unexpected _ => Panic end.
Definition pmap_protect (addr sz fl : Z) (v : vmspace) : outcome vmspace :=
  '(r, m) ← pm_protect addr sz fl (pmap v);
  match r with Value _ => Done (set_pmap m v) | Unexpected _ => Panic end.

Definition to_page_range (address len : Z) : Z * Z :=
  (address / page_size, div_roundup (w64 (address + len)) page_size).

(** Body of the loop of [map] for one overlapping entry. *)
Definition map_entry (s f : Z) (entry : mapping) (v : vmspace) : outcome vmspace :=
  let v := erase entry v in
  if (s <=? startp entry) && (endp entry <=? f) then
    let addr := w64 (startp entry * page_size) in
    pmap_unmap addr (w64 (w64 (endp entry * page_size) - addr)) v
  else
    let addr := w64 (Z.max s (startp entry) * page_size) in
    let sz := w64 (w64 (Z.min f (endp entry) * page_size) - addr) in
    v ← pmap_unmap addr sz v;
    let headp := if s <? startp entry then 0 else s - startp entry in
    let tailp := if endp entry <=? f then 0 else endp entry - f in
    let v := insert_if (negb (headp =? 0))
      (mk_mapping (startp entry) (startp entry + headp) (obj entry) (offsetp entry) (prot entry) (flags entry)) v in
    Done (insert_if (negb (f =? 0))
      (mk_mapping (endp entry - tailp) (endp entry) (obj entry) (offsetp entry + headp + (f - s))
         (prot entry) (flags entry)) v).

Fixpoint map_loop (s f : Z) (l : list mapping) (v : vmspace) : outcome (expected error unit * vmspace) :=
  match l with
  | [] => Done (Value (), v)
  | e :: l =>
      if untouchable e then Done (Unexpected addr_in_use, v)
      else v ← map_entry s f e v; map_loop s f l v
  end.

(** [vmspace::map] *)
Definition vm_map (address length pr fl o offset : Z) (v : vmspace) : outcome (expected error unit * vmspace) :=
  if negb (address mod page_size =? 0) then Done (Unexpected addr_not_aligned, v) else
  if negb (w64 offset mod page_size =? 0) then Done (Unexpected addr_not_aligned, v) else
  let offp := w64 offset / page_size in
  let '(s, f) := to_page_range address length in
  _ ← write_lock v;
  '(r, v) ← map_loop s f (overlapping s f (tree v)) v;
  match r with
  | Unexpected e => Done (Unexpected e, v)
  | Value _ => Done (Value (), insert_mapping (mk_mapping s f o offp pr fl) v)
  end.

(** Body of the loop of [unmap(address, length)]. *)
Definition unmap_entry (s f : Z) (entry : mapping) (v : vmspace) : outcome vmspace :=
  let v := erase entry v in
  if (s <=? startp entry) && (endp entry <=? f) then
    let addr := w64 (startp entry * page_size) in
    pmap_unmap addr (w64 (w64 (endp entry * page_size) - addr)) v
  else
    let headp := if startp entry <? s then s - startp entry else 0 in
    let tailp := if f <? endp entry then endp entry - f else 0 in
    let v := insert_if (negb (headp =? 0))
      (mk_mapping (startp entry) (startp entry + headp) (obj entry) (offsetp entry) (prot entry) (flags entry)) v in
    let v := insert_if (negb (tailp =? 0))
      (mk_mapping (endp entry - tailp) (endp entry) (obj entry)
         (offsetp entry + (endp entry - startp entry) - tailp) (prot entry) (flags entry)) v in
    let addr := w64 (Z.max s (startp entry) * page_size) in
    pmap_unmap addr (w64 (w64 (Z.min f (endp entry) * page_size) - addr)) v.

Fixpoint entry_loop (body : mapping → vmspace → outcome vmspace) (l : list mapping) (v : vmspace) : outcome vmspace :=
  match l with
  | [] => Done v
  | e :: l => v ← body e v; entry_loop body l v
  end.

(** [vmspace::unmap(address, length)] *)
Definition vm_unmap (address length : Z) (v : vmspace) : outcome (expected error unit * vmspace) :=
  if negb (address mod page_size =? 0) then Done (Unexpected addr_not_aligned, v) else
  let '(s, f) := to_page_range address length in
  _ ← write_lock v;
  v ← entry_loop (unmap_entry s f) (overlapping_touchable s f (tree v)) v;
  Done (Value (), v).

(** [vmspace::unmap(obj)] *)
Definition unmap_obj_entry (entry : mapping) (v : vmspace) : outcome vmspace :=
  let v := erase entry v in
  pmap_unmap (w64 (startp entry * page_size)) (w64 ((endp entry - startp entry) * page_size)) v.
Definition vm_unmap_obj (o : Z) (v : vmspace) : outcome (expected error unit * vmspace) :=
  _ ← write_lock v;
  v ← entry_loop unmap_obj_entry (filter (λ e, obj e = o ∧ untouchable e = false) (tree v)) v;
  Done (Value (), v).

(** Body of the loop of [protect]. *)
Definition protect_entry (s f pr : Z) (entry : mapping) (v : vmspace) : outcome vmspace :=
  let v := erase entry v in
  if (s <=? startp entry) && (endp entry <=? f) then
    let v := insert_mapping
      (mk_mapping (startp entry) (endp entry) (obj entry) (offsetp entry) pr (flags entry)) v in
    pmap_protect (w64 (startp entry * page_size)) (w64 ((endp entry - startp entry) * page_size)) (pflags_of pr) v
  else
    let headp := if startp entry <? s then s - startp entry else 0 in
    let tailp := if f <? endp entry then endp entry - f else 0 in
    let v := insert_if (negb (headp =? 0))
      (mk_mapping (startp entry) (startp entry + headp) (obj entry) (offsetp entry) (prot entry) (flags entry)) v in
    let v := insert_if (negb (tailp =? 0))
      (mk_mapping (endp entry - tailp) (endp entry) (obj entry)
         (offsetp entry + (endp entry - startp entry) - tailp) (prot entry) (flags entry)) v in
    let v := insert_mapping
      (mk_mapping (Z.max s (startp entry)) (Z.min f (endp entry)) (obj entry) (offsetp entry + headp) pr (flags entry)) v in
    let addr := w64 (Z.max s (startp entry) * page_size) in
    pmap_protect addr (w64 (w64 (Z.min f (endp entry) * page_size) - addr)) (pflags_of pr) v.

(** [vmspace::protect] *)
Definition vm_protect (address length pr : Z) (v : vmspace) : outcome (expected error unit * vmspace) :=
  if negb (address mod page_size =? 0) then Done (Unexpected addr_not_aligned, v) else
  let s := address / page_size in
  let f := w64 (s + div_roundup length page_size) in
  _ ← write_lock v;
  v ← entry_loop (protect_entry s f pr) (overlapping_touchable s f (tree v)) v;
  Done (Value (), v).

(** [vmspace::is_mapped]; [covered] starts at 0. *)
Fixpoint covered_loop (f covered : Z) (l : list mapping) : bool :=
  match l with
  | [] => f <=? covered
  | e :: l =>
      if endp e <? covered then covered_loop f covered l
      else if covered <? startp e then false
      else let covered := Z.max covered (Z.min f (endp e)) in
           if f <=? covered then true else covered_loop f covered l
  end.
Definition is_mapped (addr length : Z) (v : vmspace) : bool :=
  if length =? 0 then false else
  let s := addr / page_size in
  let f := w64 (s + div_roundup length page_size) in
  covered_loop f 0 (overlapping s f (tree v)).

(** [vmspace::find_free_region] *)
Fixpoint free_region_loop (pages last_endp : Z) (l : list mapping) : Z :=
  match l with
  | [] => w64 (last_endp * page_size)
  | e :: l =>
      if pages <=? w64 (startp e - last_endp) then w64 (last_endp * page_size)
      else free_region_loop pages (endp e) l
  end.
Definition find_free_region (length : Z) (v : vmspace) : Z :=
  free_region_loop (div_roundup length page_size) 0 (tree v).

(** [handle_pfault]: [shared_obj o] says whether [use_count() > 1] (the counts of shared
    pointers are not part of the state, the handler only reads them); a fresh object has an
    identifier that is not in use.  The frames of the page tables and those of the objects
    come from two instances of the interface of the frame allocator; the theorems hold for
    any two.  In the kernel both are the one allocator, which gives out a frame only once
    ([PmmSpec.v]). *)
Definition new_memobject `{FrameAllocator St} (s : objstore St) : Z * objstore St :=
  let o := fresh (dom (objects s)) in (o, mk_objstore (<[o := ∅]> (objects s)) (phys s) (oframes s)).

Definition covers (page : Z) (e : mapping) : bool := (startp e <=? page) && (page <? endp e).
Definition find_entry (page : Z) (t : list mapping) : option mapping :=
  head (filter (λ e, covers page e = true) t).

Definition pfault_object `{FrameAllocator St} (entry : mapping) (on_write shared_obj : bool)
    (v : vmspace) (s : objstore St) : outcome (Z * vmspace * objstore St) :=
  if on_write && bit_of (flags entry) fl_private && shared_obj then
    let '(o, s) := new_memobject s in
    '(_, s) ← copy_to (obj entry) o (w64 ((startp entry + offsetp entry) * page_size))
                (w64 ((endp entry - startp entry) * page_size)) s;
    '(r, v) ← vm_map (w64 (startp entry * page_size)) (w64 ((endp entry - startp entry) * page_size))
                (prot entry) (flags entry) o (offsetp entry * page_size) v;
    match r with Unexpected _ => Panic | Value _ => Done (o, v, s) end
  else Done (obj entry, v, s).

Definition handle_pfault `{FrameAllocator St} (addr : Z) (on_write : bool) (shared_obj : Z → bool)
    (v : vmspace) (s : objstore St) : outcome (bool * vmspace * objstore St) :=
  let page := addr / page_size in
  _ ← write_lock v;
  let v := set_locked true v in
  match find_entry page (tree v) with
  | None => Done (false, set_locked false v, s)
  | Some entry =>
      '(o, v, s) ← pfault_object entry on_write (shared_obj (obj entry)) v s;
      let pidx := page - startp entry + offsetp entry in
      let pfl := pflags_of (prot entry) in
      '(pg, s) ← get_page o pidx s;
      if pg =? 0 then Done (false, set_locked false v, s) else
      '(ret, m) ← pm_translate (w64 (page * page_size)) (pmap v);
      let v := set_pmap m v in
      if match ret with Value a => a =? pg | Unexpected _ => false end then Done (false, set_locked false v, s) else
      '(r, m) ← pm_map (w64 (page * page_size)) pg page_size pfl (pmap v);
      let v := set_pmap m v in
      Done (match r with Value _ => true | Unexpected _ => false end, set_locked false v, s)
  end.
End vmspace.
Arguments vmspace PM : clear implicits.
Arguments mk_vmspace {PM} _ _ _.
Arguments tree {PM} _.
Arguments pmap {PM} _.
Arguments locked {PM} _.
