(* ===== verification/VmmSpec.v ===== *)
(** Address spaces against the relation "page [p] shows page [i] of object [o] with
    protection [pr]": what [unmap], [protect] and [map] do to it, where [map] goes wrong,
    and that [find_free_region] finds free space. *)

From Stdlib Require Import Sorting.Sorted.
From S2P Require Import Prelude Math Pmm PmmBlocks PmmSpec Frames Pagemap PagemapTree PagemapSpec Objects Vmm.

(** ** Trees *)
Lemma elem_erase e k t : e ∈ erase_key k t ↔ e ∈ t ∧ startp e ≠ k.
Proof. unfold erase_key. rewrite list_elem_of_filter. naive_solver. Qed.
Lemma elem_emplace e e' t : e' ∈ emplace e t ↔ e' = e ∨ e' ∈ t.
Proof.
  induction t as [|x t IH]; simpl; [set_solver|]. case_match; [set_solver|].
  rewrite !elem_of_cons, IH. naive_solver.
Qed.

(** Non-empty, pairwise disjoint mappings inside the 48-bit address space. *)
Definition entry_ok (e : mapping) : Prop := 0 ≤ startp e < endp e ∧ endp e ≤ 2 ^ 36.
Definition disjoint_entries (e1 e2 : mapping) : Prop := endp e1 ≤ startp e2 ∨ endp e2 ≤ startp e1.
Record tree_ok (t : list mapping) : Prop := {
  to_entry e : e ∈ t → entry_ok e;
  to_disj e1 e2 : e1 ∈ t → e2 ∈ t → e1 ≠ e2 → disjoint_entries e1 e2 }.

Lemma tree_key t e1 e2 : tree_ok t → e1 ∈ t → e2 ∈ t → startp e1 = startp e2 → e1 = e2.
Proof.
  intros Ht H1 H2 E. destruct (decide (e1 = e2)) as [|Hne]; [done|].
  destruct (to_entry _ Ht _ H1), (to_entry _ Ht _ H2), (to_disj _ Ht _ _ H1 H2 Hne); lia.
Qed.
Lemma tree_ok_erase t k : tree_ok t → tree_ok (erase_key k t).
Proof.
  intros [He Hd]. split.
  - intros e [H _]%elem_erase. auto.
  - intros e1 e2 [H1 _]%elem_erase [H2 _]%elem_erase. auto.
Qed.
Lemma tree_ok_emplace t e :
  tree_ok t → entry_ok e → (∀ e', e' ∈ t → disjoint_entries e e') → tree_ok (emplace e t).
Proof.
  intros [He Hd] Hok Hdis. split.
  - intros e' [->|H]%elem_emplace; auto.
  - intros e1 e2 [->|H1]%elem_emplace [->|H2]%elem_emplace Hne; [done|auto| |auto].
    specialize (Hdis _ H1). unfold disjoint_entries in *. tauto.
Qed.
Lemma elem_insert_if `{PageMapOps PM} (c : bool) (e e' : mapping) (v : vmspace PM) :
  e' ∈ tree (insert_if c e v) ↔ (c = true ∧ e' = e) ∨ e' ∈ tree v.
Proof. destruct c; simpl; [rewrite elem_emplace|]; naive_solver. Qed.

(** Ordered by strictly increasing start. *)
Definition tree_sorted (t : list mapping) : Prop := StronglySorted (λ e1 e2, startp e1 < startp e2) t.
Lemma sorted_erase k t : tree_sorted t → tree_sorted (erase_key k t).
Proof.
  induction 1 as [|e t Hs IH Hf]; [constructor|]. unfold erase_key. rewrite filter_cons. case_decide; [|done].
  constructor; [done|]. rewrite Forall_forall in *. intros e' [_ He']%list_elem_of_filter. auto.
Qed.
Lemma sorted_emplace e t : tree_sorted t → (∀ e', e' ∈ t → startp e' ≠ startp e) → tree_sorted (emplace e t).
Proof.
  induction 1 as [|x t Hs IH Hf]; intros Hne; simpl; [repeat constructor|]. rewrite Forall_forall in Hf.
  destruct (Z.ltb_spec (startp e) (startp x)) as [Hlt|Hge].
  - constructor; [constructor; [done|by rewrite Forall_forall]|]. constructor; [done|].
    rewrite Forall_forall. intros e' He'. specialize (Hf _ He'). lia.
  - constructor; [apply IH; intros; apply Hne; by right|]. rewrite Forall_forall. intros e' [->|He']%elem_emplace.
    + specialize (Hne x ltac:(by left)). lia.
    + by apply Hf.
Qed.
Lemma sorted_NoDup t : tree_sorted t → NoDup t.
Proof.
  induction 1 as [|e t Hs IH Hf]; constructor; [|done]. rewrite Forall_forall in Hf. intros He. specialize (Hf _ He). lia.
Qed.
Lemma sorted_insert_if `{PageMapOps PM} (c : bool) e (v : vmspace PM) :
  tree_sorted (tree v) → (c = true → ∀ e', e' ∈ tree v → startp e' ≠ startp e) → tree_sorted (tree (insert_if c e v)).
Proof. intros Hs Hne. destruct c; simpl; [apply sorted_emplace; auto|done]. Qed.

(** What a page shows: object, page of the object, protection and flags. *)
Definition shows (t : list mapping) (p : Z) (x : Z * Z * Z * Z) : Prop :=
  ∃ e, e ∈ t ∧ startp e ≤ p < endp e ∧ x = (obj e, offsetp e + (p - startp e), prot e, flags e).

Lemma shows_functional t p x y : tree_ok t → shows t p x → shows t p y → x = y.
Proof.
  intros Ht (e & He & Hp & ->) (e' & He' & Hp' & ->).
  destruct (decide (e = e')) as [->|Hne]; [done|]. destruct (to_disj _ Ht _ _ He He' Hne); lia.
Qed.

Section operations.
Context `{PageMapLaws PM}.
Abbreviation vmspace := (vmspace PM).

Record vm_ok (v : vmspace) : Prop := {
  vo_tree : tree_ok (tree v);
  vo_sorted : tree_sorted (tree v);
  vo_pmap : pm_inv (pmap v) }.

Lemma voff_pages a p : 0 ≤ a ≤ 2 ^ 36 → 0 ≤ p < 2 ^ 36 → voff (a * 4096) (p * 4096) = (if a <=? p then p - a else p - a + 2 ^ 36) * 4096.
Proof.
  intros Ha Hp. unfold voff. replace (p * 4096 - a * 4096) with ((p - a) * 4096) by lia. change (2 ^ 48) with (2 ^ 36 * 4096).
  rewrite Z.mul_mod_distr_r by lia. f_equal. destruct (Z.leb_spec a p); [apply Z.mod_small; lia|].
  symmetry. apply (Z.mod_unique _ _ (-1)); lia.
Qed.
(** The entry of page [p] in the tables of the processor. *)
Definition hw_entry (v : vmspace) (p : Z) : Z := pm_entry (p * page_size) (pmap v).
Lemma pmap_unmap_pages (v : vmspace) a b :
  pm_inv (pmap v) → 0 ≤ a ≤ b → b ≤ 2 ^ 36 →
  ∃ m, pmap_unmap (w64 (a * page_size)) (w64 (w64 (b * page_size) - w64 (a * page_size))) v = Done (set_pmap m v) ∧
    pm_inv m ∧ ∀ p, 0 ≤ p < 2 ^ 36 → hw_entry (set_pmap m v) p = if decide (a ≤ p < b) then 0 else hw_entry v p.
Proof.
  intros Hi Ha Hb. unfold hw_entry, page_size. rewrite (w64_small (a * 4096)), (w64_small (b * 4096)) by lia.
  rewrite w64_small by lia. unfold pmap_unmap.
  destruct (pm_unmap_ok (a * 4096) (b * 4096 - a * 4096) (pmap v)) as (m & -> & Hm & He);
    [done|by exists a|lia|]. exists m. split; [done|]. split; [done|]. intros p Hp. simpl.
  rewrite He by by exists p. rewrite voff_pages by lia.
  destruct (Z.leb_spec a p).
  - destruct (Z.ltb_spec ((p - a) * 4096) (b * 4096 - a * 4096)), (decide (a ≤ p < b)); (done || lia).
  - destruct (Z.ltb_spec ((p - a + 2 ^ 36) * 4096) (b * 4096 - a * 4096)), (decide (a ≤ p < b)); (done || lia).
Qed.

(** Cutting the pages [s .. f) out of an entry: the pieces that remain. *)
Definition head_of (s : Z) (e : mapping) : mapping :=
  mk_mapping (startp e) s (obj e) (offsetp e) (prot e) (flags e).
Definition tail_of (f : Z) (e : mapping) : mapping :=
  mk_mapping f (endp e) (obj e) (offsetp e + (f - startp e)) (prot e) (flags e).
Definition cut_tree (s f : Z) (e : mapping) (t t' : list mapping) : Prop :=
  ∀ e', e' ∈ t' ↔ (e' ∈ t ∧ e' ≠ e) ∨ (startp e < s ∧ e' = head_of s e) ∨ (f < endp e ∧ e' = tail_of f e).

Lemma cut_shows s f e t t' p x :
  tree_ok t → e ∈ t → s < endp e → startp e < f → cut_tree s f e t t' →
  shows t' p x ↔ shows t p x ∧ ¬ (s ≤ p < f ∧ startp e ≤ p < endp e).
Proof.
  intros Ht He Hs Hf Hcut. split.
  - intros (e' & He' & Hp & ->). apply Hcut in He' as [[He' Hne]|[[Hlt ->]|[Hlt ->]]]; simpl in *.
    + split; [by exists e'|]. intros [_ Hp']. destruct (to_disj _ Ht _ _ He' He Hne); lia.
    + split; [|lia]. exists e. split_and!; [done|lia|lia|done].
    + split; [|lia]. exists e. split_and!; [done|lia|lia|]. do 3 f_equal. lia.
  - intros [(e' & He' & Hp & ->) Hno]. destruct (decide (e' = e)) as [->|Hne].
    + destruct (decide (p < s)).
      * exists (head_of s e). split; [apply Hcut; right; left; split; [lia|done]|]. simpl. split; [lia|done].
      * exists (tail_of f e). split; [apply Hcut; right; right; split; [lia|done]|]. simpl. split; [lia|].
        do 3 f_equal. lia.
    + exists e'. split; [apply Hcut; by left|done].
Qed.

Lemma cut_ok s f e t t' :
  tree_ok t → e ∈ t → s < endp e → startp e < f → s ≤ f → cut_tree s f e t t' → tree_ok t'.
Proof.
  intros Ht He Hs Hf Hsf Hcut. destruct (to_entry _ Ht _ He) as [He1 He2].
  assert (∀ e', e' ∈ t → e' ≠ e → disjoint_entries e e') as Hd by (intros; apply (to_disj _ Ht); auto).
  split.
  - intros e' [[He' _]|[[Hlt ->]|[Hlt ->]]]%Hcut; [by apply (to_entry _ Ht)|unfold entry_ok; simpl; lia..].
  - intros e1 e2 [[H1 Hn1]|[[Hlt1 ->]|[Hlt1 ->]]]%Hcut [[H2 Hn2]|[[Hlt2 ->]|[Hlt2 ->]]]%Hcut Hne;
      unfold disjoint_entries in *; simpl; try done; try lia.
    + by apply (to_disj _ Ht).
    + destruct (Hd _ H1 Hn1); lia.
    + destruct (Hd _ H1 Hn1); lia.
    + destruct (Hd _ H2 Hn2); lia.
    + destruct (Hd _ H2 Hn2); lia.
Qed.

Lemma erase_entry t e e' : tree_ok t → e ∈ t → e' ∈ erase_key (startp e) t ↔ e' ∈ t ∧ e' ≠ e.
Proof.
  intros Ht He. rewrite elem_erase. split; intros [H1 H2]; (split; [done|]); [by intros ->|].
  intros E. apply H2. by eapply tree_key.
Qed.

(** ** [unmap] *)
Lemma unmap_entry_spec (v : vmspace) s f e :
  vm_ok v → e ∈ tree v → s < endp e → startp e < f → 0 ≤ s ≤ f → f ≤ 2 ^ 36 →
  ∃ v', unmap_entry s f e v = Done v' ∧ vm_ok v' ∧ locked v' = locked v ∧ cut_tree s f e (tree v) (tree v') ∧
    ∀ p, 0 ≤ p < 2 ^ 36 → hw_entry v' p = if decide (s ≤ p < f ∧ startp e ≤ p < endp e) then 0 else hw_entry v p.
Proof.
  intros [Ht Hso Hm] He Hs Hf Hsf Hf36. destruct (to_entry _ Ht _ He) as [He1 He2]. unfold unmap_entry.
  destruct ((s <=? startp e) && (endp e <=? f)) eqn:Hin.
  - bool_to_prop. destruct (pmap_unmap_pages (erase e v) (startp e) (endp e)) as (m & -> & Hm' & Hent); [done|lia|lia|].
    eexists. split; [done|].
    assert (cut_tree s f e (tree v) (erase_key (startp e) (tree v))) as Hcut.
    { intros e'. rewrite erase_entry by done. split; [auto|]. intros [?|[[? _]|[? _]]]; [done|lia..]. }
    split; [split; [apply (cut_ok s f e (tree v)); (done || lia)|by apply sorted_erase|done]|]. split; [done|]. split; [done|].
    intros p Hp. rewrite Hent by done. repeat case_decide; (done || lia).
  - set (headp := if startp e <? s then s - startp e else 0).
    set (tailp := if f <? endp e then endp e - f else 0).
    match goal with |- context [pmap_unmap _ _ ?v1] => set (v1' := v1) end.
    destruct (pmap_unmap_pages v1' (Z.max s (startp e)) (Z.min f (endp e))) as (m & -> & Hm' & Hent).
    { subst v1'. by destruct (negb (headp =? 0)), (negb (tailp =? 0)). }
    { lia. }
    { lia. }
    eexists. split; [done|].
    assert (locked v1' = locked v) as Hlk by (subst v1'; by destruct (negb (headp =? 0)), (negb (tailp =? 0))).
    assert (cut_tree s f e (tree v) (tree v1')) as Hcut.
    { assert (mk_mapping (startp e) (startp e + (s - startp e)) (obj e) (offsetp e) (prot e) (flags e) = head_of s e) as Eh
        by (unfold head_of; f_equal; lia).
      assert (mk_mapping (endp e - (endp e - f)) (endp e) (obj e) (offsetp e + (endp e - startp e) - (endp e - f)) (prot e) (flags e)
        = tail_of f e) as Et by (unfold tail_of; f_equal; lia).
      intros e'. subst v1'. rewrite !elem_insert_if. simpl. rewrite erase_entry by done. unfold headp, tailp.
      destruct (Z.ltb_spec (startp e) s), (Z.ltb_spec f (endp e)); rewrite ?negb_true_iff, ?Z.eqb_neq.
      all: rewrite ?Eh, ?Et.
      all: intuition (try lia). }
    split; [|split; [done|split; [done|]]]; [|intros p Hp; rewrite Hent by done; unfold hw_entry; subst v1'; destruct (negb (headp =? 0)), (negb (tailp =? 0)); repeat case_decide; (done || lia)].
    split; [apply (cut_ok s f e (tree v)); (done || lia)| |done].
    subst v1'. simpl. apply sorted_insert_if; [apply sorted_insert_if|].
    + by apply sorted_erase.
    + intros _ e' [_ He']%elem_erase. done.
    + intros Htl e' He'. apply elem_insert_if in He'. simpl in *. unfold tailp in *.
      destruct (Z.ltb_spec f (endp e)); [|done]. destruct He' as [[Hhd ->]|He']; simpl; [lia|].
      apply erase_entry in He' as [He' Hne]; [|done..]. destruct (to_disj _ Ht _ _ He' He Hne), (to_entry _ Ht _ He'); lia.
Qed.

(** Cutting several entries one after the other. *)
Lemma cut_keeps s f e t t' e' : cut_tree s f e t t' → e' ∈ t → e' ≠ e → e' ∈ t'.
Proof. intros Hc He Hne. apply Hc. by left. Qed.

Definition hits (s f : Z) (l : list mapping) (p : Z) : Prop :=
  s ≤ p < f ∧ ∃ e, e ∈ l ∧ startp e ≤ p < endp e.

Lemma unmap_loop_spec s f l (v : vmspace) :
  vm_ok v → NoDup l → (∀ e, e ∈ l → e ∈ tree v ∧ s < endp e ∧ startp e < f) → 0 ≤ s ≤ f → f ≤ 2 ^ 36 →
  ∃ v', entry_loop (unmap_entry s f) l v = Done v' ∧ vm_ok v' ∧ locked v' = locked v ∧
    (∀ p x, shows (tree v') p x ↔ shows (tree v) p x ∧ ¬ hits s f l p) ∧
    ∀ p, 0 ≤ p < 2 ^ 36 → (hits s f l p → hw_entry v' p = 0) ∧ (¬ hits s f l p → hw_entry v' p = hw_entry v p).
Proof.
  revert v. induction l as [|e l IH]; intros v Hv Hnd Hl Hsf Hf36; simpl.
  { exists v. split; [done|]. split; [done|]. split; [done|]. split; [intros p x; unfold hits; set_solver|]. intros p _. split; [|done]. unfold hits. set_solver. }
  apply NoDup_cons in Hnd as [Hel Hnd]. destruct (Hl e ltac:(by left)) as (He & Hs & Hf).
  destruct (unmap_entry_spec v s f e Hv He Hs Hf Hsf Hf36) as (v1 & -> & Hv1 & Hlk1 & Hcut & Hent). simpl.
  destruct (IH v1 Hv1 Hnd) as (v' & -> & Hv' & Hlk & Hsh & Hhw); [|done|done|].
  { intros e' He'. destruct (Hl e' ltac:(by right)) as (He1 & ? & ?). split_and!; [|done..].
    eapply cut_keeps; [done..|]. by intros ->. }
  exists v'. split; [done|]. split; [done|]. split; [congruence|]. split.
  - intros p x. rewrite Hsh, (cut_shows s f e (tree v) (tree v1) p x (vo_tree _ Hv) He Hs Hf Hcut). unfold hits. set_solver.
  - intros p Hp. destruct (Hhw p Hp) as [Hyes Hno]. specialize (Hent p Hp). split.
    + intros [Hr (e' & [->|He']%elem_of_cons & Hin)]; [|apply Hyes; split; [done|by exists e']].
      destruct (decide (Exists (λ e', startp e' ≤ p < endp e') l)) as [Hx|Hx].
      * apply Hyes. split; [done|]. apply Exists_exists in Hx as (e2 & ? & ?). by exists e2.
      * rewrite Hno; [rewrite Hent; by rewrite decide_True|]. intros [_ (e2 & ? & ?)]. apply Hx, Exists_exists. by exists e2.
    + intros Hnh. rewrite Hno by (intros [? (e2 & ? & ?)]; apply Hnh; split; [done|]; exists e2; split; [by right|done]).
      rewrite Hent, decide_False; [done|]. intros [? ?]. apply Hnh. split; [done|]. exists e. split; [by left|done].
Qed.

Lemma page_range address length :
  0 ≤ address → 0 ≤ length → address + length ≤ 2 ^ 48 → address mod page_size = 0 →
  ∃ s f, to_page_range address length = (s, f) ∧ address = s * 4096 ∧ 0 ≤ s ≤ f ∧ f ≤ 2 ^ 36 ∧
    s * 4096 + length ≤ f * 4096 < s * 4096 + length + 4096.
Proof.
  intros Ha Hl Hb Hm. unfold to_page_range, page_size in *. rewrite w64_small by lia.
  change 4096 with (2 ^ 12) at 2. rewrite div_roundup_pow2 by lia. change (2 ^ 12) with 4096.
  exists (address / 4096), ((address + length + 4096 - 1) / 4096). split; [done|].
  Z.to_euclidean_division_equations; lia.
Qed.

(** ** [protect] *)
Definition mid_of (s f pr : Z) (e : mapping) : mapping :=
  mk_mapping (Z.max s (startp e)) (Z.min f (endp e)) (obj e) (offsetp e + (Z.max s (startp e) - startp e)) pr (flags e).
Definition protect_tree (s f pr : Z) (e : mapping) (t t' : list mapping) : Prop :=
  ∀ e', e' ∈ t' ↔ (e' ∈ t ∧ e' ≠ e) ∨ (startp e < s ∧ e' = head_of s e) ∨ (f < endp e ∧ e' = tail_of f e) ∨
    e' = mid_of s f pr e.

Lemma protect_shows s f pr e t t' p x :
  tree_ok t → e ∈ t → s < endp e → startp e < f → protect_tree s f pr e t t' →
  shows t' p x ↔
    if decide (s ≤ p < f ∧ startp e ≤ p < endp e)
    then x = (obj e, offsetp e + (p - startp e), pr, flags e) else shows t p x.
Proof.
  intros Ht He Hs Hf Hcut. case_decide as Hin.
  - split.
    + intros (e' & He' & Hp & ->). apply Hcut in He' as [[He' Hne]|[[Hlt ->]|[[Hlt ->]| ->]]]; simpl in *; try lia.
      * destruct (to_disj _ Ht _ _ He' He Hne); lia.
      * do 3 f_equal. lia.
    + intros ->. exists (mid_of s f pr e). split; [apply Hcut; auto|]. simpl. split; [lia|]. do 3 f_equal. lia.
  - split.
    + intros (e' & He' & Hp & ->). apply Hcut in He' as [[He' Hne]|[[Hlt ->]|[[Hlt ->]| ->]]]; simpl in *.
      * by exists e'.
      * exists e. split_and!; [done|lia|lia|done].
      * exists e. split_and!; [done|lia|lia|]. do 3 f_equal. lia.
      * destruct Hin. lia.
    + intros (e' & He' & Hp & ->). destruct (decide (e' = e)) as [->|Hne].
      * destruct (decide (p < s)).
        -- exists (head_of s e). split; [apply Hcut; right; left; split; [lia|done]|]. simpl. split; [lia|done].
        -- exists (tail_of f e). split; [apply Hcut; right; right; left; split; [lia|done]|]. simpl. split; [lia|].
           do 3 f_equal. lia.
      * exists e'. split; [apply Hcut; by left|done].
Qed.

Lemma protect_tree_ok s f pr e t t' :
  tree_ok t → e ∈ t → s < endp e → startp e < f → s < f → protect_tree s f pr e t t' → tree_ok t'.
Proof.
  intros Ht He Hs Hf Hsf Hcut. destruct (to_entry _ Ht _ He) as [He1 He2].
  assert (∀ e', e' ∈ t → e' ≠ e → disjoint_entries e e') as Hd by (intros; apply (to_disj _ Ht); auto).
  split.
  - intros e' [[He' _]|[[Hlt ->]|[[Hlt ->]| ->]]]%Hcut; [by apply (to_entry _ Ht)|unfold entry_ok; simpl; lia..].
  - intros e1 e2 [[H1 Hn1]|[[Hlt1 ->]|[[Hlt1 ->]| ->]]]%Hcut [[H2 Hn2]|[[Hlt2 ->]|[[Hlt2 ->]| ->]]]%Hcut Hne;
      unfold disjoint_entries in *; simpl; try done; try lia;
      [by apply (to_disj _ Ht)|destruct (Hd _ H1 Hn1); lia..|destruct (Hd _ H2 Hn2); lia|
       destruct (Hd _ H2 Hn2); lia|destruct (Hd _ H2 Hn2); lia].
Qed.

Lemma pmap_protect_pages (v : vmspace) a len fl :
  pm_inv (pmap v) → 0 ≤ a → 0 ≤ len ≤ 2 ^ 48 → a < 2 ^ 36 →
  pmap_protect (w64 (a * page_size)) len fl v = Panic ∨
  ∃ m, pmap_protect (w64 (a * page_size)) len fl v = Done (set_pmap m v) ∧ pm_inv m.
Proof.
  intros Hi Ha Hlen Hb. unfold page_size. rewrite (w64_small (a * 4096)) by lia. unfold pmap_protect.
  destruct (pm_protect_ok (a * 4096) len fl (pmap v)) as (r & m & -> & Hm); [done|by exists a|lia|].
  simpl. destruct r; [right|by left]. by exists m.
Qed.

Lemma protect_entry_spec (v : vmspace) s f pr e :
  vm_ok v → e ∈ tree v → s < endp e → startp e < f → 0 ≤ s < f → f ≤ 2 ^ 36 →
  protect_entry s f pr e v = Panic ∨
  ∃ v', protect_entry s f pr e v = Done v' ∧ vm_ok v' ∧ locked v' = locked v ∧
    protect_tree s f pr e (tree v) (tree v').
Proof.
  intros [Ht Hso Hm] He Hs Hf Hsf Hf36. destruct (to_entry _ Ht _ He) as [He1 He2].
  assert (∀ e', e' ∈ tree v → e' ≠ e → disjoint_entries e e') as Hdis by (intros; apply (to_disj _ Ht); auto).
  unfold protect_entry. destruct ((s <=? startp e) && (endp e <=? f)) eqn:Hin.
  - bool_to_prop. match goal with |- context [pmap_protect _ _ _ ?v1] => set (v1' := v1) end.
    destruct (pmap_protect_pages v1' (startp e) (w64 ((endp e - startp e) * page_size)) (pflags_of pr))
      as [->|(m & -> & Hm')]; [done|lia|unfold page_size; rewrite w64_small by lia; lia|lia|by left|right].
    eexists. split; [done|].
    assert (protect_tree s f pr e (tree v) (tree v1')) as Hcut.
    { assert (mk_mapping (startp e) (endp e) (obj e) (offsetp e) pr (flags e) = mid_of s f pr e) as Em
        by (unfold mid_of; f_equal; lia).
      intros e'. subst v1'. simpl. rewrite elem_emplace, erase_entry by done. rewrite Em.
      intuition (try lia). }
    split; [|by split]. split; [apply (protect_tree_ok s f pr e (tree v)); (done || lia)| |done].
    subst v1'. simpl. apply sorted_emplace; [by apply sorted_erase|]. intros e' [_ He']%elem_erase. done.
  - set (headp := if startp e <? s then s - startp e else 0).
    set (tailp := if f <? endp e then endp e - f else 0).
    match goal with |- context [pmap_protect _ _ _ ?v1] => set (v1' := v1) end.
    destruct (pmap_protect_pages v1' (Z.max s (startp e))
      (w64 (w64 (Z.min f (endp e) * page_size) - w64 (Z.max s (startp e) * page_size))) (pflags_of pr))
      as [->|(m & -> & Hm')].
    { subst v1'. by destruct (negb (headp =? 0)), (negb (tailp =? 0)). }
    { lia. }
    { unfold page_size. rewrite (w64_small (Z.min f (endp e) * 4096)), (w64_small (Z.max s (startp e) * 4096)) by lia.
      rewrite w64_small by lia. lia. }
    { lia. }
    { by left. }
    right. eexists. split; [done|].
    assert (locked v1' = locked v) as Hlk by (subst v1'; by destruct (negb (headp =? 0)), (negb (tailp =? 0))).
    assert (protect_tree s f pr e (tree v) (tree v1')) as Hcut.
    { assert (mk_mapping (startp e) (startp e + (s - startp e)) (obj e) (offsetp e) (prot e) (flags e) = head_of s e) as Eh
        by (unfold head_of; f_equal; lia).
      assert (mk_mapping (endp e - (endp e - f)) (endp e) (obj e) (offsetp e + (endp e - startp e) - (endp e - f)) (prot e) (flags e)
        = tail_of f e) as Et by (unfold tail_of; f_equal; lia).
      assert (mk_mapping (Z.max s (startp e)) (Z.min f (endp e)) (obj e) (offsetp e + headp) pr (flags e) = mid_of s f pr e) as Em
        by (unfold mid_of, headp; f_equal; destruct (Z.ltb_spec (startp e) s); lia).
      intros e'. subst v1'. simpl. rewrite elem_emplace, Em, !elem_insert_if. simpl. rewrite erase_entry by done.
      unfold headp, tailp.
      destruct (Z.ltb_spec (startp e) s), (Z.ltb_spec f (endp e)); rewrite ?negb_true_iff, ?Z.eqb_neq, ?Eh, ?Et;
        intuition (try lia). }
    split; [|by split]. split; [apply (protect_tree_ok s f pr e (tree v)); (done || lia)| |done].
    assert (∀ e', e' ∈ erase_key (startp e) (tree v) → startp e' < startp e ∨ endp e ≤ startp e') as Hkeys.
    { intros e' [He' Hne]%erase_entry; [|done..]. destruct (Hdis _ He' Hne), (to_entry _ Ht _ He'); lia. }
    subst v1'. simpl. apply sorted_emplace; [apply sorted_insert_if; [apply sorted_insert_if|]|].
    + by apply sorted_erase.
    + intros _ e' [_ He']%elem_erase. done.
    + intros Htl e' He'. apply elem_insert_if in He'. simpl in *. unfold tailp in *.
      destruct (Z.ltb_spec f (endp e)); [|done].
      destruct He' as [[Hhd ->]|He']; simpl; [lia|]. specialize (Hkeys _ He'). lia.
    + intros e' He'. rewrite !elem_insert_if in He'. simpl in *. unfold headp, tailp in He'.
      destruct He' as [[Htl ->]|[[Hhd ->]|He']]; simpl.
      * destruct (Z.ltb_spec f (endp e)); [lia|done].
      * destruct (Z.ltb_spec (startp e) s); [lia|done].
      * specialize (Hkeys _ He'). lia.
Qed.

Lemma protect_loop_spec s f pr l (v : vmspace) :
  vm_ok v → NoDup l → (∀ e, e ∈ l → e ∈ tree v ∧ s < endp e ∧ startp e < f) → 0 ≤ s < f → f ≤ 2 ^ 36 →
  entry_loop (protect_entry s f pr) l v = Panic ∨
  ∃ v', entry_loop (protect_entry s f pr) l v = Done v' ∧ vm_ok v' ∧ locked v' = locked v ∧
    (∀ p, ¬ hits s f l p → ∀ x, shows (tree v') p x ↔ shows (tree v) p x) ∧
    (∀ p, hits s f l p → ∀ x, shows (tree v') p x ↔ ∃ o i pr0 fl, shows (tree v) p (o, i, pr0, fl) ∧ x = (o, i, pr, fl)).
Proof.
  revert v. induction l as [|e l IH]; intros v Hv Hnd Hl Hsf Hf36; simpl.
  { right. exists v. split_and!; [done..|]. intros p [_ (e & He & _)]. set_solver. }
  apply NoDup_cons in Hnd as [Hel Hnd]. destruct (Hl e ltac:(by left)) as (He & Hs & Hf).
  destruct (protect_entry_spec v s f pr e Hv He Hs Hf Hsf Hf36) as [->|(v1 & -> & Hv1 & Hlk1 & Hcut)]; [by left|]. simpl.
  destruct (IH v1 Hv1 Hnd) as [->|(v' & -> & Hv' & Hlk & Hno & Hyes)]; [|done|done|by left|right].
  { intros e' He'. destruct (Hl e' ltac:(by right)) as (He1 & ? & ?). split_and!; [|done..].
    apply Hcut. left. split; [done|]. by intros ->. }
  exists v'. split; [done|]. split; [done|]. split; [congruence|].
  assert (∀ p x, shows (tree v1) p x ↔ if decide (s ≤ p < f ∧ startp e ≤ p < endp e)
    then x = (obj e, offsetp e + (p - startp e), pr, flags e) else shows (tree v) p x) as Hsh
    by (intros; by apply protect_shows, Hcut || eapply protect_shows; eauto using vo_tree).
  assert (∀ p, startp e ≤ p < endp e → ∀ e', e' ∈ l → ¬ startp e' ≤ p < endp e') as Hother.
  { intros p Hp e' He' Hp'. destruct (Hl e' ltac:(by right)) as (He1 & _).
    assert (e' ≠ e) as Hne by (by intros ->). destruct (to_disj _ (vo_tree _ Hv) _ _ He1 He Hne); lia. }
  split.
  - intros p Hp x. rewrite Hno by (intros [? (e' & ? & ?)]; apply Hp; split; [done|]; exists e'; split; [by right|done]).
    rewrite Hsh, decide_False; [done|]. intros [? ?]. apply Hp. split; [done|]. exists e. split; [by left|done].
  - intros p [Hp (e' & He' & Hpe')] x. apply elem_of_cons in He' as [->|He'].
    + rewrite Hno by (intros [_ (e2 & He2 & Hpe2)]; by apply (Hother p Hpe' e2)).
      rewrite Hsh, decide_True by done. split.
      * intros ->. exists (obj e), (offsetp e + (p - startp e)), (prot e), (flags e). split; [|done]. by exists e.
      * intros (o & i & pr0 & fl & Hshow & ->).
        assert (shows (tree v) p (obj e, offsetp e + (p - startp e), prot e, flags e)) as Hshow' by by exists e.
        pose proof (shows_functional _ _ _ _ (vo_tree _ Hv) Hshow Hshow') as E. by simplify_eq.
    + rewrite Hyes by (split; [done|]; by exists e').
      assert (∀ y, shows (tree v1) p y ↔ shows (tree v) p y) as Hsame.
      { intros y. rewrite Hsh, decide_False; [done|]. intros [_ Hpe]. by apply (Hother p Hpe e'). }
      by setoid_rewrite Hsame.
Qed.
End operations.

(** ** Properties *)
Lemma overlapping_touchable_spec s f t e :
  e ∈ overlapping_touchable s f t ↔ e ∈ t ∧ s < endp e ∧ startp e < f ∧ untouchable e = false.
Proof.
  unfold overlapping_touchable, overlaps. rewrite list_elem_of_filter, !andb_true_iff, negb_true_iff, !Z.ltb_lt. tauto.
Qed.

(** The pages that [vm_unmap] removes. *)
Lemma touchable_hits s f t p o i pr fl : tree_ok t → shows t p (o, i, pr, fl) →
  hits s f (overlapping_touchable s f t) p ↔ s ≤ p < f ∧ Z.land fl fl_untouchable = 0.
Proof.
  intros Ht Hx. split.
  - intros [Hp (e & He & Hpe)]. split; [done|]. apply overlapping_touchable_spec in He as (He & _ & _ & Hut).
    assert (shows t p (obj e, offsetp e + (p - startp e), prot e, flags e)) as Hshow by by exists e.
    pose proof (shows_functional _ _ _ _ Ht Hx Hshow) as E. injection E as -> -> -> ->.
    unfold untouchable in Hut. by apply negb_false_iff, Z.eqb_eq in Hut.
  - intros [Hp Hfl]. split; [done|]. destruct Hx as (e & He & Hpe & [= -> -> -> ->]).
    exists e. split; [|done]. apply overlapping_touchable_spec. split_and!; [done|lia|lia|].
    unfold untouchable. by rewrite Hfl.
Qed.

(** The specification of [vm_unmap]. *)
Lemma vm_unmap_spec `{PageMapLaws PM} (v : vmspace PM) address length :
  vm_ok v → locked v = false → address mod page_size = 0 → 0 ≤ address → 0 ≤ length → address + length ≤ 2 ^ 48 →
  ∃ v', vm_unmap address length v = Done (Value (), v') ∧ vm_ok v' ∧
    (∀ p o i pr fl, shows (tree v') p (o, i, pr, fl) ↔
      shows (tree v) p (o, i, pr, fl) ∧
      ¬ (address / page_size ≤ p < (address + length + 4095) / page_size ∧ Z.land fl fl_untouchable = 0)) ∧
    (∀ p o i pr fl, shows (tree v) p (o, i, pr, fl) →
      address / page_size ≤ p < (address + length + 4095) / page_size → Z.land fl fl_untouchable = 0 → hw_entry v' p = 0) ∧
    ∀ p, 0 ≤ p < 2 ^ 36 → (∀ o i pr fl, shows (tree v) p (o, i, pr, fl) →
      ¬ (address / page_size ≤ p < (address + length + 4095) / page_size ∧ Z.land fl fl_untouchable = 0)) → hw_entry v' p = hw_entry v p.
Proof.
  intros Hv Hlk Hm Ha Hl Hb. unfold vm_unmap. rewrite Hm. change (negb (0 =? 0)) with false. cbv iota.
  destruct (page_range address length Ha Hl Hb Hm) as (s & f & -> & Hs & Hsf & Hf & Hlen).
  unfold write_lock. rewrite Hlk. cbn [mbind outcome_bind].
  destruct (unmap_loop_spec s f (overlapping_touchable s f (tree v)) v Hv) as (v' & -> & Hv' & _ & Hsh & Hhw); [| |done|done|].
  { apply NoDup_filter, sorted_NoDup, (vo_sorted _ Hv). }
  { intros e (? & ? & ? & _)%overlapping_touchable_spec. done. }
  assert (address / page_size = s) as -> by (unfold page_size; subst; by rewrite Z.div_mul).
  assert ((address + length + 4095) / page_size = f) as -> by (unfold page_size; Z.to_euclidean_division_equations; lia).
  assert (∀ p o i pr fl, shows (tree v) p (o, i, pr, fl) → hits s f (overlapping_touchable s f (tree v)) p ↔ s ≤ p < f ∧ Z.land fl fl_untouchable = 0) as Hhit
    by (intros; eapply touchable_hits; [apply (vo_tree _ Hv)|done]).
  exists v'. split; [done|]. split; [done|]. split; [|split].
  - intros p o i pr fl. rewrite Hsh. split; intros [Hx Hno]; (split; [done|]); intros Hin; by apply Hno, (Hhit p o i pr fl).
  - intros p o i pr fl Hx Hp Hfl. apply Hhw; [|by apply (Hhit p o i pr fl)].
    destruct Hx as (e & He & Hpe & _). destruct (to_entry _ (vo_tree _ Hv) _ He). lia.
  - intros p Hp Hno. apply Hhw; [done|]. intros Hh. pose proof Hh as [_ (e & He & Hpe)].
    apply overlapping_touchable_spec in He as (He & _).
    assert (shows (tree v) p (obj e, offsetp e + (p - startp e), prot e, flags e)) as Hx by by exists e.
    by apply (Hno _ _ _ _ Hx), (Hhit _ _ _ _ _ Hx).
Qed.

(** C17: [vmspace::unmap] removes exactly the pages of the range from the address space,
    except those of untouchable mappings: they show nothing any more and their entries in the
    page tables of the processor are cleared; every other page shows what it showed before and
    its entry is untouched; and the mappings stay non-empty, disjoint and ordered. *)
Theorem vm_unmap_correct `{PageMapLaws PM} (v : vmspace PM) address length :
  vm_ok v → locked v = false → address mod page_size = 0 → 0 ≤ address → 0 ≤ length → address + length ≤ 2 ^ 48 →
  ∃ v', vm_unmap address length v = Done (Value (), v') ∧ vm_ok v' ∧
    (∀ p o i pr fl, shows (tree v') p (o, i, pr, fl) ↔
      shows (tree v) p (o, i, pr, fl) ∧
      ¬ (address / page_size ≤ p < (address + length + 4095) / page_size ∧ Z.land fl fl_untouchable = 0)) ∧
    (∀ p o i pr fl, shows (tree v) p (o, i, pr, fl) →
      address / page_size ≤ p < (address + length + 4095) / page_size → Z.land fl fl_untouchable = 0 → hw_entry v' p = 0) ∧
    ∀ p, 0 ≤ p < 2 ^ 36 → (∀ o i pr fl, shows (tree v) p (o, i, pr, fl) →
      ¬ (address / page_size ≤ p < (address + length + 4095) / page_size ∧ Z.land fl fl_untouchable = 0)) → hw_entry v' p = hw_entry v p.
Proof. apply vm_unmap_spec. Qed.

(** If [vmspace::protect] does not panic, it gives exactly the touchable pages of the
    range the new protection and keeps what they show; all other pages are unchanged. *)
Theorem vm_protect_correct `{PageMapLaws PM} (v : vmspace PM) address length pr :
  vm_ok v → locked v = false → address mod page_size = 0 → 0 ≤ address → 0 < length → address + length ≤ 2 ^ 47 →
  vm_protect address length pr v = Panic ∨
  ∃ v', vm_protect address length pr v = Done (Value (), v') ∧ vm_ok v' ∧
    ∀ p o i pr' fl, shows (tree v') p (o, i, pr', fl) ↔
      ∃ pr0, shows (tree v) p (o, i, pr0, fl) ∧
        pr' = if decide (address / page_size ≤ p < (address + length + 4095) / page_size ∧ Z.land fl fl_untouchable = 0)
              then pr else pr0.
Proof.
  intros Hv Hlk Hm Ha Hl Hb. unfold vm_protect. rewrite Hm. change (negb (0 =? 0)) with false. cbv iota.
  assert (div_roundup length page_size = (length + 4095) / 4096) as ->.
  { unfold page_size. change 4096 with (2 ^ 12). rewrite div_roundup_pow2 by lia. f_equal. lia. }
  assert (address = address / page_size * 4096) as Haddr.
  { unfold page_size in *. rewrite (Z.div_mod address 4096) at 1 by lia. lia. }
  assert ((address + length + 4095) / page_size = address / page_size + (length + 4095) / 4096) as ->.
  { unfold page_size in *. rewrite Haddr at 1. replace (address / 4096 * 4096 + length + 4095) with (length + 4095 + address / 4096 * 4096) by lia.
    rewrite Z.div_add by lia. lia. }
  set (s := address / page_size) in *.
  assert (1 ≤ (length + 4095) / 4096 ∧ s + (length + 4095) / 4096 ≤ 2 ^ 36) as [Hn Hn36]
    by (Z.to_euclidean_division_equations; lia).
  rewrite w64_small by lia. set (f := s + (length + 4095) / 4096) in *.
  unfold write_lock. rewrite Hlk. cbn [mbind outcome_bind].
  destruct (protect_loop_spec s f pr (overlapping_touchable s f (tree v)) v Hv) as [->|(v' & -> & Hv' & _ & Hno & Hyes)];
    [| |lia|done|by left|right].
  { apply NoDup_filter, sorted_NoDup, (vo_sorted _ Hv). }
  { intros e (? & ? & ? & _)%overlapping_touchable_spec. done. }
  exists v'. split; [done|]. split; [done|]. intros p o i pr' fl.
  assert (∀ pr0, shows (tree v) p (o, i, pr0, fl) →
    hits s f (overlapping_touchable s f (tree v)) p ↔ s ≤ p < f ∧ Z.land fl fl_untouchable = 0) as Hhit
    by (intros; eapply touchable_hits; [apply (vo_tree _ Hv)|done]).
  assert (Decision (hits s f (overlapping_touchable s f (tree v)) p)) as Hdec.
  { unfold hits. apply and_dec; [apply _|]. 
    destruct (decide (Exists (λ e, startp e ≤ p < endp e) (overlapping_touchable s f (tree v)))) as [E|E];
      rewrite Exists_exists in E; [by left|by right]. }
  destruct (decide (hits s f (overlapping_touchable s f (tree v)) p)) as [Hh|Hh].
  - rewrite Hyes by done. split.
    + intros (o' & i' & pr0 & fl' & Hx & [= <- <- -> <-]). exists pr0. split; [done|].
      by rewrite decide_True by (by apply (Hhit pr0)).
    + intros (pr0 & Hx & ->). exists o, i, pr0, fl. split; [done|]. by rewrite decide_True by (by apply (Hhit pr0)).
  - rewrite Hno by done. split.
    + intros Hx. exists pr'. split; [done|]. rewrite decide_False; [done|]. intros Hin. by apply Hh, (Hhit pr').
    + intros (pr0 & Hx & ->). rewrite decide_False; [done|]. intros Hin. by apply Hh, (Hhit pr0).
Qed.

(** ** [map] *)
Section map.
Context `{PageMapLaws PM}.

(** An entry inside of the new range is simply removed. *)
Lemma map_loop_contained s f l (v : vmspace PM) :
  (∀ e, e ∈ l → s ≤ startp e ∧ endp e ≤ f ∧ untouchable e = false) →
  map_loop s f l v = (v' ← entry_loop (unmap_entry s f) l v; Done (Value (), v')).
Proof.
  revert v. induction l as [|e l IH]; intros v Hl; simpl; [done|].
  destruct (Hl e ltac:(by left)) as (Hs1 & Hs2 & ->).
  assert (map_entry s f e v = unmap_entry s f e v) as ->.
  { unfold map_entry, unmap_entry. destruct (Z.leb_spec s (startp e)), (Z.leb_spec (endp e) f); try lia. done. }
  destruct (unmap_entry s f e v); simpl; try done. apply IH. intros e' He'. apply Hl. by right.
Qed.

Lemma overlapping_spec s f t e : e ∈ overlapping s f t ↔ e ∈ t ∧ s < endp e ∧ startp e < f.
Proof. unfold overlapping, overlaps. rewrite list_elem_of_filter, andb_true_iff, !Z.ltb_lt. tauto. Qed.

Lemma page_offset offset : 0 ≤ offset < 2 ^ 63 → offset mod page_size = 0 → w64 offset = offset.
Proof. intros. apply w64_small. lia. Qed.
End map.

(** The specification of [vm_map] over mappings that the range contains. *)
Lemma vm_map_spec `{PageMapLaws PM} (v : vmspace PM) address length pr fl o offset :
  vm_ok v → locked v = false → address mod page_size = 0 → 0 ≤ address → 0 < length → address + length ≤ 2 ^ 48 →
  0 ≤ offset < 2 ^ 63 → offset mod page_size = 0 →
  (∀ e, e ∈ tree v → address / page_size < endp e → startp e < (address + length + 4095) / page_size →
     address / page_size ≤ startp e ∧ endp e ≤ (address + length + 4095) / page_size ∧ untouchable e = false) →
  ∃ v', vm_map address length pr fl o offset v = Done (Value (), v') ∧ vm_ok v' ∧
    ∀ p x, shows (tree v') p x ↔
      if decide (address / page_size ≤ p < (address + length + 4095) / page_size)
      then x = (o, offset / page_size + (p - address / page_size), pr, fl) else shows (tree v) p x.
Proof.
  intros Hv Hlk Hm Ha Hl Hb Ho Hom Hin. unfold vm_map. rewrite Hm, (page_offset offset Ho Hom), Hom.
  change (negb (0 =? 0)) with false. cbv iota zeta.
  destruct (page_range address length Ha ltac:(lia) Hb Hm) as (s & f & -> & Hs & Hsf & Hf & Hlen).
  unfold write_lock. rewrite Hlk. cbn [mbind outcome_bind].
  assert (address / page_size = s) as Es by (unfold page_size; subst; by rewrite Z.div_mul).
  assert ((address + length + 4095) / page_size = f) as Ef by (unfold page_size; Z.to_euclidean_division_equations; lia).
  rewrite Es, Ef in *.
  rewrite map_loop_contained by (intros e (He & H1 & H2)%overlapping_spec; auto).
  destruct (unmap_loop_spec s f (overlapping s f (tree v)) v Hv) as (v' & -> & Hv' & Hlk' & Hsh & _); [| |lia|done|].
  { apply NoDup_filter, sorted_NoDup, (vo_sorted _ Hv). }
  { by intros e (? & ? & ?)%overlapping_spec. }
  cbn [mbind outcome_bind]. eexists. split; [done|].
  set (n := mk_mapping s f o (offset / page_size) pr fl).
  assert (∀ e', e' ∈ tree v' → disjoint_entries n e') as Hdis.
  { intros e' He'. unfold disjoint_entries, n. simpl. destruct (to_entry _ (vo_tree _ Hv') _ He') as [He1 He2].
    destruct (decide (f ≤ startp e')); [by left|]. destruct (decide (endp e' ≤ s)); [by right|]. exfalso.
    (* a page of both would be shown by the old tree, and removed *)
    set (p := Z.max s (startp e')).
    assert (shows (tree v') p (obj e', offsetp e' + (p - startp e'), prot e', flags e')) as Hx
      by (exists e'; split_and!; [done|lia|lia|done]).
    apply Hsh in Hx as [(e & He & Hpe & _) Hno]. apply Hno. split; [lia|]. exists e. split; [|done].
    apply overlapping_spec. split_and!; [done|lia|lia]. }
  split; [split; simpl|].
  - apply tree_ok_emplace; [apply Hv'|unfold entry_ok; simpl; lia|done].
  - apply sorted_emplace; [apply Hv'|]. intros e' He'. destruct (to_entry _ (vo_tree _ Hv') _ He') as [He1 He2].
    destruct (Hdis _ He'); simpl in *; lia.
  - apply (vo_pmap _ Hv').
  - intros p x. simpl. split.
    + intros (e & [->|He]%elem_emplace & Hp & ->).
      * simpl in Hp. rewrite decide_True by done. done.
      * rewrite decide_False by (destruct (Hdis _ He); simpl in *; lia).
        apply (Hsh p). by exists e.
    + case_decide as Hp.
      * intros ->. exists n. split; [apply elem_emplace; by left|done].
      * intros Hx. destruct (proj2 (Hsh p x)) as (e & He & Hpe & ->).
        { split; [done|]. by intros [? _]. }
        exists e. split; [apply elem_emplace; by right|done].
Qed.

(** When every mapping that overlaps the new range lies inside of it and may be touched,
    [vmspace::map] replaces them: the range shows the object, all else is unchanged. *)
Theorem vm_map_correct `{PageMapLaws PM} (v : vmspace PM) address length pr fl o offset :
  vm_ok v → locked v = false → address mod page_size = 0 → 0 ≤ address → 0 < length → address + length ≤ 2 ^ 48 →
  0 ≤ offset < 2 ^ 63 → offset mod page_size = 0 →
  (∀ e, e ∈ tree v → address / page_size < endp e → startp e < (address + length + 4095) / page_size →
     address / page_size ≤ startp e ∧ endp e ≤ (address + length + 4095) / page_size ∧ untouchable e = false) →
  ∃ v', vm_map address length pr fl o offset v = Done (Value (), v') ∧ vm_ok v' ∧
    ∀ p x, shows (tree v') p x ↔
      if decide (address / page_size ≤ p < (address + length + 4095) / page_size)
      then x = (o, offset / page_size + (p - address / page_size), pr, fl) else shows (tree v) p x.
Proof. apply vm_map_spec. Qed.

(** A mapping whose end is overwritten leaves an empty mapping behind: the code tests
    [endp != 0] where it means [tailp != 0]. *)
Theorem vm_map_empty_mapping `{PageMapLaws PM} (v : vmspace PM) address length pr fl o offset e :
  vm_ok v → locked v = false → address mod page_size = 0 → 0 ≤ address → 0 < length → address + length ≤ 2 ^ 48 →
  0 ≤ offset < 2 ^ 63 → offset mod page_size = 0 → untouchable e = false →
  tree v = [e] → startp e < address / page_size < endp e → endp e ≤ (address + length + 4095) / page_size →
  ∃ v' e', vm_map address length pr fl o offset v = Done (Value (), v') ∧
    e' ∈ tree v' ∧ startp e' = endp e ∧ endp e' = endp e ∧ obj e' = obj e.
Proof.
  intros Hv Hlk Hm Ha Hl Hb Ho Hom Hut Ht He1 He2. unfold vm_map. rewrite Hm, (page_offset offset Ho Hom), Hom.
  change (negb (0 =? 0)) with false. cbv iota zeta.
  destruct (page_range address length Ha ltac:(lia) Hb Hm) as (s & f & -> & Hs & Hsf & Hf & Hlen).
  unfold write_lock. rewrite Hlk. cbn [mbind outcome_bind].
  assert (address / page_size = s) as Es by (unfold page_size; subst; by rewrite Z.div_mul).
  assert ((address + length + 4095) / page_size = f) as Ef by (unfold page_size; Z.to_euclidean_division_equations; lia).
  rewrite Es, Ef in *.
  destruct (to_entry _ (vo_tree _ Hv) e ltac:(rewrite Ht; by left)) as [Hee1 Hee2].
  assert (overlapping s f (tree v) = [e]) as ->.
  { rewrite Ht. unfold overlapping. rewrite filter_cons_True, filter_nil; [done|].
    unfold overlaps. apply andb_true_intro. rewrite !Z.ltb_lt. lia. }
  simpl. rewrite Hut. unfold map_entry.
  destruct (Z.leb_spec s (startp e)); [lia|]. simpl. destruct (Z.leb_spec (endp e) f); [|lia].
  destruct (pmap_unmap_pages (erase e v) (Z.max s (startp e)) (Z.min f (endp e))) as (m & -> & Hm' & _);
    [apply Hv|lia|lia|]. simpl.
  destruct (Z.eqb_spec f 0); [lia|]. destruct (Z.ltb_spec s (startp e)); [lia|]. simpl.
  eexists _, _. split; [done|]. split.
  - apply elem_emplace. right. simpl. apply elem_emplace. left. done.
  - simpl. split_and!; [lia|done|done].
Qed.

(** When the new range ends inside of a mapping and starts before it, the rest of that
    mapping shows the wrong pages: they are shifted by the distance between the starts. *)
Theorem vm_map_tail_shifted `{PageMapLaws PM} (v : vmspace PM) address length pr fl o offset e p :
  vm_ok v → locked v = false → address mod page_size = 0 → 0 ≤ address → 0 < length → address + length ≤ 2 ^ 48 →
  0 ≤ offset < 2 ^ 63 → offset mod page_size = 0 → untouchable e = false →
  tree v = [e] → address / page_size < startp e < (address + length + 4095) / page_size →
  (address + length + 4095) / page_size ≤ p < endp e →
  ∃ v', vm_map address length pr fl o offset v = Done (Value (), v') ∧
    shows (tree v) p (obj e, offsetp e + (p - startp e), prot e, flags e) ∧
    shows (tree v') p (obj e, offsetp e + (p - startp e) + (startp e - address / page_size), prot e, flags e).
Proof.
  intros Hv Hlk Hm Ha Hl Hb Ho Hom Hut Ht He1 Hp. unfold vm_map. rewrite Hm, (page_offset offset Ho Hom), Hom.
  change (negb (0 =? 0)) with false. cbv iota zeta.
  destruct (page_range address length Ha ltac:(lia) Hb Hm) as (s & f & -> & Hs & Hsf & Hf & Hlen).
  unfold write_lock. rewrite Hlk. cbn [mbind outcome_bind].
  assert (address / page_size = s) as Es by (unfold page_size; subst; by rewrite Z.div_mul).
  assert ((address + length + 4095) / page_size = f) as Ef by (unfold page_size; Z.to_euclidean_division_equations; lia).
  rewrite Es, Ef in *.
  destruct (to_entry _ (vo_tree _ Hv) e ltac:(rewrite Ht; by left)) as [Hee1 Hee2].
  assert (overlapping s f (tree v) = [e]) as ->.
  { rewrite Ht. unfold overlapping. rewrite filter_cons_True, filter_nil; [done|].
    unfold overlaps. apply andb_true_intro. rewrite !Z.ltb_lt. lia. }
  simpl. rewrite Hut. unfold map_entry.
  destruct (Z.leb_spec s (startp e)); [|lia]. destruct (Z.leb_spec (endp e) f); [lia|]. simpl.
  destruct (pmap_unmap_pages (erase e v) (Z.max s (startp e)) (Z.min f (endp e))) as (m & -> & Hm' & _);
    [apply Hv|lia|lia|]. simpl.
  destruct (Z.eqb_spec f 0); [lia|]. destruct (Z.ltb_spec s (startp e)); [|lia]. simpl.
  eexists. split; [done|]. split; [exists e; rewrite Ht; split_and!; [by left|lia|lia|done]|].
  eexists. split; [apply elem_emplace; right; simpl; apply elem_emplace; left; reflexivity|]. simpl.
  split; [lia|]. do 3 f_equal. lia.
Qed.

(** [vmspace::is_mapped] starts counting covered pages at page 0 instead of the first
    page of the range: it is false for every range unless something is mapped at page 0. *)
Theorem is_mapped_always_false `{PageMapOps PM} (v : vmspace PM) addr length :
  (∀ e, e ∈ tree v → 0 < startp e) → 0 < addr / page_size → 0 < length → addr + length ≤ 2 ^ 48 → 0 ≤ addr →
  is_mapped addr length v = false.
Proof.
  intros Hpos Ha Hl Hb H0. unfold is_mapped. destruct (Z.eqb_spec length 0); [lia|].
  assert (div_roundup length page_size = (length + 4095) / 4096) as ->.
  { unfold page_size. change 4096 with (2 ^ 12). rewrite div_roundup_pow2 by lia. f_equal. lia. }
  unfold page_size in *.
  rewrite w64_small by (Z.to_euclidean_division_equations; lia).
  set (s := addr / 4096) in *. set (f := s + (length + 4095) / 4096).
  assert (s < f) by (unfold f; Z.to_euclidean_division_equations; lia).
  destruct (overlapping s f (tree v)) as [|e l] eqn:E; simpl; [destruct (Z.leb_spec f 0); [lia|done]|].
  assert (e ∈ overlapping s f (tree v)) as He by (rewrite E; by left).
  apply overlapping_spec in He as (He & Ho1 & Ho2). specialize (Hpos _ He).
  destruct (Z.ltb_spec (endp e) 0); [lia|]. by destruct (Z.ltb_spec 0 (startp e)); [|lia].
Qed.

(** [find_free_region] returns the start of a gap that is large enough. *)
Theorem find_free_region_correct `{PageMapLaws PM} (v : vmspace PM) length :
  vm_ok v → 0 < length ≤ 2 ^ 47 →
  ∃ p, find_free_region length v = p * page_size ∧ 0 ≤ p ∧
    (∀ e, e ∈ tree v → endp e ≤ p ∨ p + (length + 4095) / page_size ≤ startp e) ∧
    (p = 0 ∨ ∃ e, e ∈ tree v ∧ p = endp e) ∧
    ((∀ e, e ∈ tree v → (length + 4095) / page_size ≤ startp e) → p = 0).
Proof.
  intros Hv Hl. unfold find_free_region.
  assert (div_roundup length page_size = (length + 4095) / 4096) as ->.
  { unfold page_size. change 4096 with (2 ^ 12). rewrite div_roundup_pow2 by lia. f_equal. lia. }
  unfold page_size. set (n := (length + 4095) / 4096).
  assert (∀ t last, tree_ok t → tree_sorted t → 0 ≤ last ≤ 2 ^ 36 → (∀ e, e ∈ t → last ≤ startp e) →
    ∃ p, free_region_loop n last t = p * 4096 ∧ last ≤ p ∧ (∀ e, e ∈ t → endp e ≤ p ∨ p + n ≤ startp e) ∧
      (p = last ∨ ∃ e, e ∈ t ∧ p = endp e) ∧ ((∀ e, e ∈ t → last + n ≤ startp e) → p = last)) as Hloop.
  { induction t as [|e t IH]; intros last Ht Hs Hlast Hle; simpl; unfold page_size; rewrite (w64_small (last * 4096)) by lia.
    { exists last. split_and!; [done|lia|set_solver|by left|done]. }
    destruct (to_entry _ Ht e ltac:(by left)) as [He1 He2]. pose proof (Hle e ltac:(by left)).
    apply StronglySorted_inv in Hs as [Hs Hf]. rewrite Forall_forall in Hf.
    assert (∀ e', e' ∈ t → endp e ≤ startp e') as Hnext.
    { intros e' He'. specialize (Hf _ He'). destruct (to_entry _ Ht e' ltac:(by right)).
      destruct (to_disj _ Ht e e' ltac:(by left) ltac:(by right)) as [?|?]; [by intros ->; lia|lia|lia]. }
    rewrite w64_small by lia. destruct (Z.leb_spec n (startp e - last)).
    - exists last. split_and!; [done|lia| |by left|done]. intros e' [->|He']%elem_of_cons; right; [lia|].
      specialize (Hnext _ He'). lia.
    - destruct (IH (endp e)) as (p & -> & Hp & Hfree & Hend & _); [|done|lia|done|].
      { split; [intros; apply (to_entry _ Ht); by right|].
        intros e1 e2 He1' He2'. apply (to_disj _ Ht); by right. }
      exists p. split_and!; [done|lia| | |].
      + intros e' [->|He']%elem_of_cons; [left; lia|auto].
      + right. destruct Hend as [->|(e' & ? & ->)]; [exists e|exists e']; split; [by left|done|by right|done].
      + intros Hlow. specialize (Hlow e ltac:(by left)). lia. }
  destruct (Hloop (tree v) 0 (vo_tree _ Hv) (vo_sorted _ Hv)) as (p & Hp & Hp0 & Hfree); [lia| |by exists p].
  intros e He. apply (to_entry _ (vo_tree _ Hv) _ He).
Qed.
