(* ===== verification/VmmFault.v ===== *)
(** Page faults ([handle_pfault] of kernel/source/system/memory/vmm.cpp) over the page
    maps of [Pagemap.v], and examples for the properties of address spaces. *)

From Stdlib Require Import Sorting.Sorted.
From S2P Require Import Prelude Math Pmm PmmBlocks PmmSpec Frames Pagemap PagemapTree PagemapSpec Objects Vmm VmmSpec.

Lemma find_entry_spec page t e :
  tree_ok t → e ∈ t → startp e ≤ page < endp e → find_entry page t = Some e.
Proof.
  intros Ht He Hp. unfold find_entry.
  assert (∀ e', e' ∈ filter (λ e, covers page e = true) t → e' = e) as Huniq.
  { intros e' [Hc He']%list_elem_of_filter. unfold covers in Hc. bool_to_prop.
    destruct (decide (e' = e)) as [|Hne]; [done|]. destruct (to_disj _ Ht _ _ He' He Hne); lia. }
  assert (e ∈ filter (λ e, covers page e = true) t) as Hin.
  { apply list_elem_of_filter. split; [|done]. unfold covers. apply andb_true_intro.
    rewrite Z.leb_le, Z.ltb_lt. lia. }
  destruct (filter _ t) as [|e' l]; [set_solver|]. simpl. f_equal. apply Huniq. by left.
Qed.

Lemma small_is_small large_pages : fixpsize large_pages small = small.
Proof. by unfold fixpsize; destruct large_pages. Qed.

Section fault.
Context `{FrameAllocatorLaws St} {OSt} {OF : FrameAllocator OSt} {OL : FrameAllocatorLaws OSt}.
Context (hhdm : Z) (Hh : hhdm_ok hhdm) (large_pages use_lowmem : bool) (table : Z).
#[local] Instance fault_ops : PageMapOps (pagemaps St) := pagemap_ops hhdm large_pages use_lowmem table.
#[local] Instance fault_laws : PageMapLaws (pagemaps St) := pagemap_laws hhdm large_pages use_lowmem table.

(** One page: after [map] it translates to the frame. *)
Lemma map_one_page (m : pagemaps St) T va pa fl :
  pm_rep hhdm m (tohh hhdm table) 3 T → (4096 | va) → (4096 | pa) → 0 ≤ pa → pa + 4096 ≤ 2 ^ 46 →
  map hhdm large_pages use_lowmem table va pa page_size fl small write_back m = Panic ∨
  ∃ m', map hhdm large_pages use_lowmem table va pa page_size fl small write_back m = Done (Value (), m') ∧
    (∃ T', pm_rep hhdm m' (tohh hhdm table) 3 T') ∧
    translate hhdm large_pages use_lowmem table va small m' = Done (Value pa, m').
Proof.
  intros Hr Hva Hpa Hp0 Hhi.
  pose proof (map_spec hhdm Hh large_pages use_lowmem m table T va pa page_size fl small write_back) as Hm.
  cbv zeta in Hm. rewrite small_is_small in Hm. change (leaf_depth small) with 3%nat in Hm.
  change (from_page_size small) with 4096 in Hm.
  destruct Hm as [->|(m' & T' & -> & Hr' & Hrng & _ & Hsome)]; [done|done|unfold page_size; lia|by left|right].
  exists m'. split; [done|]. split; [by exists T'|].
  pose proof (translate_spec hhdm large_pages use_lowmem m' table T' va small) as Ht.
  cbv zeta in Ht. rewrite small_is_small in Ht. change (leaf_depth small) with 3%nat in Ht.
  change (from_page_size small) with 4096 in Ht. rewrite Ht by done.
  assert (voff va va = 0) as Ev by (unfold voff; by rewrite Z.sub_diag).
  destruct (Hsome va Hva) as [r ->]; [rewrite Ev; unfold page_size; lia|].
  pose proof (Hrng va Hva) as Epte. change (leaf_depth small) with 3%nat in Epte. rewrite Epte, Ev. change (0 <? page_size) with true. cbv iota.
  rewrite getaddr_mk_pte; [|lia|lia|lia|done|by apply Z.divide_0_r|by left].
  rewrite Z.add_0_r, small_canonical by lia. done.
Qed.

Lemma translate_total (m : pagemaps St) va :
  (∃ T, pm_rep hhdm m (tohh hhdm table) 3 T) → (4096 | va) →
  ∃ r, translate hhdm large_pages use_lowmem table va small m = Done (r, m).
Proof.
  intros [T Hr] Hva. pose proof (translate_spec hhdm large_pages use_lowmem m table T va small) as Ht.
  cbv zeta in Ht. rewrite small_is_small in Ht. change (leaf_depth small) with 3%nat in Ht.
  change (from_page_size small) with 4096 in Ht. rewrite Ht by done. eauto.
Qed.

(** The part of the handler after the object has been chosen. *)
Lemma fault_page o pidx page pfl (v : vmspace (pagemaps St)) (s : objstore OSt) :
  obj_inv s → is_Some (objects s !! o) → pm_inv (pmap v) → 0 ≤ page < 2 ^ 36 →
  get_page o pidx s = Panic ∨
  ∃ p s' r, get_page o pidx s = Done (p, s') ∧ p ≠ 0 ∧ obj_inv s' ∧
    (∃ pages, objects s' !! o = Some pages ∧ pages !! pidx = Some p) ∧
    (∀ o' off, byte_at s' o' off = byte_at s o' off) ∧
    pm_translate (w64 (page * page_size)) (pmap v) = Done (r, pmap v) ∧
    (r ≠ Value p → pm_map (w64 (page * page_size)) p page_size pfl (pmap v) = Panic ∨
      ∃ m, pm_map (w64 (page * page_size)) p page_size pfl (pmap v) = Done (Value (), m) ∧ pm_inv m ∧
        pm_translate (page * page_size) m = Done (Value p, m)).
Proof.
  intros Hi [pages Ho] [T HT] Hpage.
  destruct (get_page_spec s o pages pidx Hi Ho) as [->|(p & s' & pages' & -> & Hp0 & Hi' & Ho' & Hp & _ & _ & Hb)];
    [by left|right].
  destruct (oi_frame _ Hi' _ _ _ _ Ho' Hp) as (_ & (Hd & Hpos & Hhi) & _).
  assert (w64 (page * page_size) = page * 4096) as -> by (unfold page_size; rewrite w64_small; lia).
  assert (4096 | page * 4096) as Hva by by exists page.
  destruct (translate_total (pmap v) (page * 4096)) as [r Hr]; [by exists T|done|].
  exists p, s', r. split_and!; [done|done|done|by exists pages'|done|exact Hr|]. intros _.
  destruct (map_one_page (pmap v) T (page * 4096) p pfl HT Hva Hd ltac:(lia) Hhi) as [Hm|(m & Hm & HT' & Ht)];
    [left; exact Hm|right]. exists m. split; [exact Hm|]. split; [exact HT'|exact Ht].
Qed.
End fault.

(** The specification of [handle_pfault]. *)
Lemma pfault_spec `{FrameAllocatorLaws St} `{FrameAllocatorLaws OSt} hhdm large_pages use_lowmem table
    (v : vmspace (pagemaps St)) (s : objstore OSt) addr on_write shared_obj e :
  let ops := pagemap_ops hhdm large_pages use_lowmem table in
  let laws := pagemap_laws hhdm large_pages use_lowmem table in
  hhdm_ok hhdm → vm_ok v → locked v = false → obj_inv s → 0 ≤ addr < 2 ^ 48 →
  e ∈ tree v → startp e ≤ addr / page_size < endp e → is_Some (objects s !! obj e) →
  on_write && bit_of (flags e) fl_private && shared_obj (obj e) = false →
  handle_pfault addr on_write shared_obj v s = Panic ∨
  ∃ r v' s' pages p, handle_pfault addr on_write shared_obj v s = Done (r, v', s') ∧
    vm_ok v' ∧ tree v' = tree v ∧ locked v' = false ∧ obj_inv s' ∧
    (∀ o off, byte_at s' o off = byte_at s o off) ∧
    objects s' !! obj e = Some pages ∧ pages !! (addr / page_size - startp e + offsetp e) = Some p ∧
    pm_translate (addr / page_size * page_size) (pmap v') = Done (Value p, pmap v').
Proof.
  intros ops laws Hh Hv Hlk Hi Ha He Hp Ho Hcow. unfold handle_pfault, write_lock. rewrite Hlk. cbn [mbind outcome_bind].
  change (tree (set_locked true v)) with (tree v).
  rewrite (find_entry_spec _ _ _ (vo_tree _ Hv) He Hp). unfold pfault_object. rewrite Hcow. cbn [mbind outcome_bind].
  set (page := addr / page_size) in *.
  assert (0 ≤ page < 2 ^ 36) as Hpage by (unfold page, page_size; Z.to_euclidean_division_equations; lia).
  destruct (fault_page hhdm Hh large_pages use_lowmem table (obj e) (page - startp e + offsetp e) page
    (pflags_of (prot e)) (set_locked true v) s Hi Ho (vo_pmap _ Hv) Hpage)
    as [->|(p & s' & r & -> & Hp0 & Hi' & (pages & Hpg & Hpi) & Hb & Htr & Hmap)]; [by left|].
  cbn [mbind outcome_bind]. destruct (Z.eqb_spec p 0); [done|]. 
  unfold ops. unfold fault_ops in Htr, Hmap. rewrite Htr. cbn [mbind outcome_bind].
  destruct (match r with Value a => a =? p | Unexpected _ => false end) eqn:Er.
  - destruct r as [a|]; [|done]. apply Z.eqb_eq in Er as ->. right.
    eexists _, _, s', pages, p. split; [done|]. split_and!; try done; [by destruct Hv; split|].
    simpl in Htr. unfold page_size in *. rewrite w64_small in Htr by lia. exact Htr.
  - change (pmap (set_pmap _ (set_locked true v))) with (pmap (set_locked true v)).
    destruct Hmap as [->|(m & -> & Hm & Ht)]; [intros ->; by rewrite Z.eqb_refl in Er|by left|right].
    cbn [mbind outcome_bind]. eexists _, _, s', pages, p. split; [done|]. split_and!; try done.
    destruct Hv; by split.
Qed.

(** C21: a fault on a page that shows page [i] of an object makes the page translate to the
    frame of that page; no byte of an object and no mapping changes, and the lock of the tree
    is released.  (Or the handler panics, as it does when no frame is left.)  This is for all faults but
    those of writes to a private mapping whose object is shared, which never return
    (C40). *)
Theorem pfault_maps_page `{FrameAllocatorLaws St} `{FrameAllocatorLaws OSt} hhdm large_pages use_lowmem table
    (v : vmspace (pagemaps St)) (s : objstore OSt) addr on_write shared_obj e :
  let ops := pagemap_ops hhdm large_pages use_lowmem table in
  let laws := pagemap_laws hhdm large_pages use_lowmem table in
  hhdm_ok hhdm → vm_ok v → locked v = false → obj_inv s → 0 ≤ addr < 2 ^ 48 →
  e ∈ tree v → startp e ≤ addr / page_size < endp e → is_Some (objects s !! obj e) →
  on_write && bit_of (flags e) fl_private && shared_obj (obj e) = false →
  handle_pfault addr on_write shared_obj v s = Panic ∨
  ∃ r v' s' pages p, handle_pfault addr on_write shared_obj v s = Done (r, v', s') ∧
    vm_ok v' ∧ tree v' = tree v ∧ locked v' = false ∧ obj_inv s' ∧
    (∀ o off, byte_at s' o off = byte_at s o off) ∧
    objects s' !! obj e = Some pages ∧ pages !! (addr / page_size - startp e + offsetp e) = Some p ∧
    pm_translate (addr / page_size * page_size) (pmap v') = Done (Value p, pmap v').
Proof. apply pfault_spec. Qed.

Lemma w64_page_mod a : w64 (a * page_size) mod page_size = 0.
Proof.
  unfold w64, page_size. rewrite Z.mod_mod_divide by (by exists (2 ^ 52)). by rewrite Z.mod_mul.
Qed.

(** With the lock of the tree held, [map] does not return. *)
Lemma vm_map_locked `{PageMapOps PM} (v : vmspace PM) a length pr fl o b :
  locked v = true → vm_map (w64 (a * page_size)) length pr fl o (b * page_size) v = Hang.
Proof.
  intros Hlk. unfold vm_map. rewrite !w64_page_mod. change (negb (0 =? 0)) with false. cbv iota zeta.
  destruct (to_page_range _ _). unfold write_lock. by rewrite Hlk.
Qed.

(** The object made by [new_memobject] is new. *)
Lemma new_memobject_spec `{FrameAllocatorLaws St} (s : objstore St) o s' :
  obj_inv s → new_memobject s = (o, s') →
  objects s !! o = None ∧ obj_inv s' ∧ objects s' = <[o := ∅]> (objects s).
Proof.
  unfold new_memobject. intros Hi [= <- <-]. set (o := fresh (dom (objects s))).
  assert (objects s !! o = None) as Hnew by (apply not_elem_of_dom, is_fresh).
  split; [done|]. split; [|done]. split; simpl.
  - intros o' pages idx p [[<- <-]|[_ Ho']]%lookup_insert_Some Hp; [by rewrite lookup_empty in Hp|].
    by eapply (oi_frame _ Hi).
  - intros o1 p1 o2 p2 i1 i2 p [[<- <-]|[_ H1']]%lookup_insert_Some [[<- <-]|[_ H2']]%lookup_insert_Some Hp1 Hp2;
      [by rewrite lookup_empty in Hp1|by rewrite lookup_empty in Hp1|by rewrite lookup_empty in Hp2|].
    by eapply (oi_inj _ Hi).
  - apply (oi_used _ Hi).
Qed.

(** C40: a write fault on a private mapping whose object is shared never returns: the handler
    holds the lock of the tree while it calls [vmspace::map], which takes the same lock. *)
Theorem pfault_cow_deadlock `{PageMapLaws PM} `{FrameAllocatorLaws OSt} (v : vmspace PM) (s : objstore OSt)
    addr shared_obj e :
  vm_ok v → locked v = false → obj_inv s →
  e ∈ tree v → startp e ≤ addr / page_size < endp e → is_Some (objects s !! obj e) →
  0 ≤ offsetp e < 2 ^ 50 → bit_of (flags e) fl_private = true → shared_obj (obj e) = true →
  handle_pfault addr true shared_obj v s = Panic ∨ handle_pfault addr true shared_obj v s = Hang.
Proof.
  intros Hv Hlk Hi He Hp [pg Ho] Hoff Hpriv Hsh. unfold handle_pfault, write_lock. rewrite Hlk. cbn [mbind outcome_bind].
  change (tree (set_locked true v)) with (tree v).
  rewrite (find_entry_spec _ _ _ (vo_tree _ Hv) He Hp). unfold pfault_object. rewrite Hpriv, Hsh.
  change (true && true && true) with true. cbv iota.
  destruct (to_entry _ (vo_tree _ Hv) _ He) as [He1 He2].
  destruct (new_memobject s) as [o s'] eqn:En. destruct (new_memobject_spec s o s' Hi En) as (Hnew & Hi' & Hobj).
  assert (obj e ≠ o) as Hne by congruence.
  destruct (copy_to_spec s' (obj e) o (w64 ((startp e + offsetp e) * page_size)) (w64 ((endp e - startp e) * page_size)))
    as [->|(s2 & -> & _)]; try done.
  - rewrite Hobj, lookup_insert_ne by done. eauto.
  - rewrite Hobj, lookup_insert_eq. eauto.
  - unfold page_size. rewrite w64_small by lia. lia.
  - unfold page_size. rewrite w64_small by lia. lia.
  - unfold page_size. rewrite !w64_small by lia. lia.
  - by left.
  - right. cbn [mbind outcome_bind]. by rewrite vm_map_locked.
Qed.

(** [vmspace::protect] panics on a mapping none of whose pages has been touched, when no
    table of the page map covers its start: the error of the page map is not expected. *)
Theorem vm_protect_untouched_panics `{FrameAllocatorLaws St} hhdm large_pages use_lowmem table
    (v : vmspace (pagemaps St)) T address length pr e :
  let ops := pagemap_ops hhdm large_pages use_lowmem table in
  let laws := pagemap_laws hhdm large_pages use_lowmem table in
  vm_ok v → locked v = false → tree v = [e] → untouchable e = false →
  address = startp e * page_size → length = (endp e - startp e) * page_size → endp e ≤ 2 ^ 35 →
  pm_rep hhdm (pmap v) (tohh hhdm table) 3 T → leaf_ref 3 T address = None →
  vm_protect address length pr v = Panic.
Proof.
  intros ops laws Hv Hlk Ht Hut -> -> Hend HT Hnone. destruct (to_entry _ (vo_tree _ Hv) e) as [He1 He2]; [rewrite Ht; by left|].
  unfold vm_protect. unfold page_size in *. rewrite Z.mod_mul, Z.div_mul by done. change (negb (0 =? 0)) with false. cbv iota zeta.
  assert (div_roundup ((endp e - startp e) * 4096) 4096 = endp e - startp e) as ->.
  { change 4096 with (2 ^ 12). rewrite div_roundup_pow2 by lia. Z.to_euclidean_division_equations; lia. }
  replace (startp e + (endp e - startp e)) with (endp e) by lia. rewrite w64_small by lia.
  unfold write_lock. rewrite Hlk. cbn [mbind outcome_bind].
  assert (overlapping_touchable (startp e) (endp e) (tree v) = [e]) as ->.
  { rewrite Ht. unfold overlapping_touchable. rewrite filter_cons_True, filter_nil; [done|].
    unfold overlaps. rewrite Hut. apply andb_true_intro. split; [|done]. apply andb_true_intro. rewrite !Z.ltb_lt. lia. }
  simpl entry_loop. unfold protect_entry. rewrite !Z.leb_refl. change (true && true) with true. cbv iota. unfold pmap_protect.
  unfold page_size. rewrite !w64_small by lia. simpl pmap.
  pose proof (protect_missing hhdm large_pages use_lowmem (pmap v) table T (startp e * 4096) ((endp e - startp e) * 4096)
    (pflags_of pr) small write_back) as Hm. cbv zeta in Hm. rewrite small_is_small in Hm.
  change (leaf_depth small) with 3%nat in Hm.
  unfold ops. cbn [pm_protect pagemap_ops]. rewrite Hm; [done|done|by exists (startp e)|lia|lia|done].
Qed.

(** ** Witnesses: one private mapping of sixteen pages, with and without populated tables *)
Definition ex_entry : mapping := mk_mapping 0x40000 0x40010 1 0 3 fl_private.
Definition ex_space : vmspace (pagemaps Z) := mk_vmspace [ex_entry] ex_maps false.
#[local] Instance ex_ops : PageMapOps (pagemaps Z) := pagemap_ops ex_hhdm true false ex_root.
#[local] Instance ex_laws : PageMapLaws (pagemaps Z) := pagemap_laws ex_hhdm true false ex_root.

Lemma ex_tree_ok : tree_ok [ex_entry].
Proof.
  split.
  - intros e ->%list_elem_of_singleton. unfold entry_ok. simpl. lia.
  - intros e1 e2 ->%list_elem_of_singleton ->%list_elem_of_singleton []. done.
Qed.
Lemma ex_space_ok : vm_ok ex_space.
Proof.
  split; [exact ex_tree_ok|by repeat constructor|].
  exists {[ [] := tohh ex_hhdm ex_root ]}. apply ex_maps_rep.
Qed.

(** The page map of [ex_populated] maps the range of the entry. *)
Definition ex_populated : vmspace (pagemaps Z) :=
  mk_vmspace [ex_entry] (match ex_map small write_back with Done (_, m) => m | _ => ex_maps end) false.
Lemma ex_populated_ok : vm_ok ex_populated.
Proof.
  split; [exact ex_tree_ok|by repeat constructor|].
  destruct ex_mapped as (m & T & E & HT & _). unfold ex_populated. rewrite E. by exists T.
Qed.
Lemma ex_in : ex_entry ∈ [ex_entry].
Proof. by left. Qed.
Lemma ex_shows p : 0x40000 ≤ p < 0x40010 → shows [ex_entry] p (1, p - 0x40000, 3, fl_private).
Proof. intros Hp. exists ex_entry. split; [exact ex_in|]. split; [exact Hp|reflexivity]. Qed.

Lemma vm_unmap_correct_witness :
  ∃ v', vm_unmap 0x40004000 0x1000 ex_populated = Done (Value (), v') ∧
    shows (tree v') 0x40005 (1, 5, 3, fl_private) ∧ ¬ shows (tree v') 0x40004 (1, 4, 3, fl_private) ∧
    hw_entry ex_populated 0x40004 ≠ 0 ∧ hw_entry v' 0x40004 = 0 ∧ hw_entry v' 0x40005 = hw_entry ex_populated 0x40005.
Proof.
  destruct (vm_unmap_correct ex_populated 0x40004000 0x1000 ex_populated_ok eq_refl eq_refl) as (v' & E & _ & Hs & Hgone & Hkept); [lia|lia|lia|].
  change (tree ex_populated) with [ex_entry] in *. change ((0x40004000 + 0x1000 + 4095) / page_size) with 0x40005 in *.
  exists v'. split; [exact E|]. split; [|split; [|split; [|split]]].
  - apply Hs. split; [apply (ex_shows 0x40005); lia|]. intros [[_ Hc] _]. lia.
  - intros [_ Hn]%Hs. apply Hn. split; [split; reflexivity|reflexivity].
  - vm_compute. discriminate.
  - apply (Hgone _ _ _ _ _ (ex_shows 0x40004 ltac:(lia))); [split; reflexivity|reflexivity].
  - apply Hkept; [lia|]. intros o i pr fl _ [[_ Hc] _]. lia.
Defined.

Lemma vm_protect_correct_witness :
  ∃ v', vm_protect 0x40004000 0x1000 prot_read ex_populated = Done (Value (), v') ∧
    shows (tree v') 0x40004 (1, 4, prot_read, fl_private) ∧ shows (tree v') 0x40005 (1, 5, 3, fl_private).
Proof.
  destruct (vm_protect_correct ex_populated 0x40004000 0x1000 prot_read ex_populated_ok eq_refl eq_refl)
    as [E|(v' & E & _ & Hs)]; [lia|lia|lia| |].
  - not_panic E.
  - exists v'. split; [exact E|]. change (tree ex_populated) with [ex_entry] in Hs.
    split; apply Hs; exists 3; (split; [|reflexivity]); [apply (ex_shows 0x40004)|apply (ex_shows 0x40005)]; lia.
Defined.

Lemma vm_map_correct_witness :
  ∃ v', vm_map 0x40000000 0x10000 1 fl_shared 2 0x3000 ex_space = Done (Value (), v') ∧
    shows (tree v') 0x40002 (2, 5, 1, fl_shared).
Proof.
  destruct (vm_map_correct ex_space 0x40000000 0x10000 1 fl_shared 2 0x3000 ex_space_ok eq_refl eq_refl)
    as (v' & E & _ & Hs); [lia|lia|lia|lia|reflexivity| |].
  - intros e ->%list_elem_of_singleton _ _. by vm_compute.
  - exists v'. split; [exact E|]. apply Hs. by vm_compute.
Defined.

Lemma vm_map_empty_mapping_witness :
  ∃ v' e', vm_map 0x40008000 0x10000 1 fl_shared 2 0 ex_space = Done (Value (), v') ∧
    e' ∈ tree v' ∧ startp e' = 0x40010 ∧ endp e' = 0x40010 ∧ obj e' = 1.
Proof.
  apply (vm_map_empty_mapping ex_space 0x40008000 0x10000 1 fl_shared 2 0 ex_entry ex_space_ok eq_refl eq_refl);
    [lia|lia|lia|lia|reflexivity|reflexivity|reflexivity|by split|by vm_compute].
Defined.

Lemma vm_map_tail_shifted_witness :
  ∃ v', vm_map 0x3FFFE000 0x4000 1 fl_shared 2 0 ex_space = Done (Value (), v') ∧
    shows (tree ex_space) 0x40002 (1, 2, 3, fl_private) ∧ shows (tree v') 0x40002 (1, 4, 3, fl_private).
Proof.
  apply (vm_map_tail_shifted ex_space 0x3FFFE000 0x4000 1 fl_shared 2 0 ex_entry 0x40002 ex_space_ok eq_refl eq_refl);
    [lia|lia|lia|lia|reflexivity|reflexivity|reflexivity|by split|by split].
Defined.

Lemma is_mapped_always_false_witness :
  shows (tree ex_space) 0x40000 (1, 0, 3, fl_private) ∧ is_mapped 0x40000000 0x1000 ex_space = false.
Proof.
  split; [by apply (ex_shows 0x40000)|]. apply is_mapped_always_false; [|reflexivity|lia|lia|lia].
  intros e ->%list_elem_of_singleton. reflexivity.
Defined.

Lemma find_free_region_correct_witness :
  ∃ p, find_free_region 0x2000 ex_space = p * page_size ∧ 0 ≤ p ∧
    (∀ e, e ∈ tree ex_space → endp e ≤ p ∨ p + (0x2000 + 4095) / page_size ≤ startp e) ∧
    (p = 0 ∨ ∃ e, e ∈ tree ex_space ∧ p = endp e) ∧
    ((∀ e, e ∈ tree ex_space → (0x2000 + 4095) / page_size ≤ startp e) → p = 0).
Proof. apply (find_free_region_correct ex_space 0x2000 ex_space_ok). lia. Defined.

Lemma pfault_maps_page_witness :
  ∃ r v' s' p, handle_pfault 0x40003123 false (λ _, false) ex_space ex_store = Done (r, v', s') ∧
    pm_translate 0x40003000 (pmap v') = Done (Value p, pmap v').
Proof.
  destruct (pfault_maps_page ex_hhdm true false ex_root ex_space ex_store 0x40003123 false (λ _, false) ex_entry
    ex_hhdm_ok ex_space_ok eq_refl ex_store_inv) as [E|(r & v' & s' & pages & p & E & _ & _ & _ & _ & _ & _ & _ & Ht)];
    [lia|exact ex_in|by split|by apply ex_store_objects; left|reflexivity| |].
  - not_panic E.
  - exists r, v', s', p. split; [exact E|exact Ht].
Defined.

Lemma pfault_cow_deadlock_witness : handle_pfault 0x40003123 true (λ _, true) ex_space ex_store = Hang.
Proof.
  destruct (pfault_cow_deadlock ex_space ex_store 0x40003123 (λ _, true) ex_entry ex_space_ok eq_refl ex_store_inv)
    as [E|E]; [exact ex_in|by split|by apply ex_store_objects; left|by split|reflexivity|reflexivity| |exact E].
  not_panic E.
Defined.

Lemma vm_protect_untouched_panics_witness : vm_protect 0x40000000 0x10000 prot_read ex_space = Panic.
Proof.
  apply (vm_protect_untouched_panics ex_hhdm true false ex_root ex_space {[ [] := tohh ex_hhdm ex_root ]}
    0x40000000 0x10000 prot_read ex_entry ex_space_ok eq_refl eq_refl eq_refl eq_refl eq_refl);
    [by vm_compute|apply ex_maps_rep|by vm_compute].
Defined.
