(* ===== verification/Vfs.v ===== *)
(** The virtual file system (kernel/source/system/vfs.cpp and vfs.cppm), the file system
    instances of kernel/source/drivers/fs/tmpfs.cpp and devtmpfs.cpp and the device table of
    kernel/source/system/dev.cpp.

    Shared objects (dentries, inodes, mounts, instances) live in stores and are referenced
    by identifiers; nothing is ever freed from the stores.  Path strings are handled by the
    cwalk library, which is the parameter [PathOps]. *)

From Stdlib Require Import Strings.Ascii.
From S2P Require Import Prelude Math Pmm Frames Objects.
#[local] Open Scope string_scope.
#[local] Open Scope Z_scope.

(** [lib::path]: [cwk_path_normalize], [cwk_path_get_basename], [cwk_path_get_dirname] and
    [cwk_path_is_absolute]. *)
Class PathOps := {
  normalise : string → string;
  basename : string → string;
  dirname : string → string;
  is_absolute : string → bool }.

Inductive error :=
| todo | already_exists | not_found | not_a_dir | not_a_block | symloop_max_exceeded
| target_is_a_dir | target_is_busy | dir_not_empty | different_filesystem
| invalid_filesystem | invalid_mount | invalid_symlink | invalid_device | invalid_type.
#[export] Instance error_eq_dec : EqDecision error.
Proof. solve_decision. Defined.

Definition symloop_max : nat := 40.
Definition path_max : Z := 4096.

(** ** [struct stat] (lib/stat.cppm); the time stamps are in nanoseconds *)
Record stat := mk_stat
  { st_dev : Z; st_ino : Z; st_mode : Z; st_nlink : Z; st_uid : Z; st_gid : Z; st_rdev : Z;
    st_size : Z; st_blksize : Z; st_blocks : Z; st_atim : Z; st_mtim : Z; st_ctim : Z }.

Definition s_ifmt : Z := 0xF000.
Definition s_ifsock : Z := 0xC000.
Definition s_iflnk : Z := 0xA000.
Definition s_ifreg : Z := 0x8000.
Definition s_ifblk : Z := 0x6000.
Definition s_ifdir : Z := 0x4000.
Definition s_ifchr : Z := 0x2000.
Definition s_ififo : Z := 0x1000.

Definition s_irusr : Z := 0x100.
Definition s_iwusr : Z := 0x80.
Definition s_ixusr : Z := 0x40.
Definition s_irgrp : Z := 0x20.
Definition s_iwgrp : Z := 0x10.
Definition s_ixgrp : Z := 0x8.
Definition s_iroth : Z := 0x4.
Definition s_iwoth : Z := 0x2.
Definition s_ixoth : Z := 0x1.
Definition s_isgid : Z := 0x400.

Definition type_of_mode (m : Z) : Z := Z.land m s_ifmt.
Definition st_type (st : stat) : Z := type_of_mode (st_mode st).
Definition mode_of (st : stat) : Z := Z.ldiff (st_mode st) s_ifmt.

Definition time_access : Z := 1.
Definition time_modify : Z := 2.
Definition time_status : Z := 4.
(** [stat::update_time]; [now] is the value of the clock. *)
Definition update_time (now flags : Z) (st : stat) : stat :=
  mk_stat (st_dev st) (st_ino st) (st_mode st) (st_nlink st) (st_uid st) (st_gid st) (st_rdev st)
    (st_size st) (st_blksize st) (st_blocks st)
    (if Z.land flags time_access =? 0 then st_atim st else now)
    (if Z.land flags time_modify =? 0 then st_mtim st else now)
    (if Z.land flags time_status =? 0 then st_ctim st else now).
Definition set_nlink (n : Z) (st : stat) : stat :=
  mk_stat (st_dev st) (st_ino st) (st_mode st) n (st_uid st) (st_gid st) (st_rdev st)
    (st_size st) (st_blksize st) (st_blocks st) (st_atim st) (st_mtim st) (st_ctim st).
Definition set_size (size blocks : Z) (st : stat) : stat :=
  mk_stat (st_dev st) (st_ino st) (st_mode st) (st_nlink st) (st_uid st) (st_gid st) (st_rdev st)
    size (st_blksize st) blocks (st_atim st) (st_mtim st) (st_ctim st).
Definition set_owner (uid gid : Z) (st : stat) : stat :=
  mk_stat (st_dev st) (st_ino st) (st_mode st) (st_nlink st) uid gid (st_rdev st)
    (st_size st) (st_blksize st) (st_blocks st) (st_atim st) (st_mtim st) (st_ctim st).

(** ** Permission checks *)
Definition f_ok : Z := 0.
Definition x_ok : Z := 1.
Definition w_ok : Z := 2.
Definition r_ok : Z := 4.
Definition has (bits m : Z) : bool := negb (Z.land m bits =? 0).

Definition check_access (uid gid : Z) (st : stat) (mode : Z) : bool :=
  if mode =? f_ok then true else
  if uid =? 0 then
    if negb (has x_ok mode) then true
    else if st_type st =? s_ifdir then true
    else has (Z.lor s_ixusr (Z.lor s_ixgrp s_ixoth)) (st_mode st)
  else
    let '(rbit, wbit, xbit) :=
      if uid =? st_uid st then (s_irusr, s_iwusr, s_ixusr)
      else if gid =? st_gid st then (s_irgrp, s_iwgrp, s_ixgrp)
      else (s_iroth, s_iwoth, s_ixoth) in
    if has r_ok mode && negb (has rbit (st_mode st)) then false
    else if has w_ok mode && negb (has wbit (st_mode st)) then false
    else if has x_ok mode && negb (has xbit (st_mode st)) then false
    else true.

(** ** Device numbers (dev.cppm) *)
Definition major (dev : Z) : Z :=
  w32 (Z.lor (Z.shiftr (Z.land dev 0x00000000000FFF00) 8) (Z.shiftr (Z.land dev 0xFFFFF00000000000) 32)).
Definition minor (dev : Z) : Z :=
  w32 (Z.lor (Z.land dev 0x00000000000000FF) (Z.shiftr (Z.land dev 0x00000FFFFFF00000) 12)).
Definition makedev (maj min : Z) : Z :=
  w64 (Z.lor (Z.lor (Z.lor (Z.shiftl (Z.land maj 0x00000FFF) 8) (Z.shiftl (Z.land maj 0xFFFFF000) 32))
    (Z.land min 0x000000FF)) (Z.shiftl (Z.land min 0xFFFFFF00) 12)).

(** ** Objects of the file system *)
(** The implementations of [vfs::ops]. *)
Inductive fops := TmpfsOps | NullOps | ZeroOps | FullOps | RandomOps | TtyOps.
#[export] Instance fops_eq_dec : EqDecision fops.
Proof. solve_decision. Defined.

Record path := mk_path { mnt : option Z; dent : Z }.
#[export] Instance path_eq_dec : EqDecision path.
Proof. solve_decision. Defined.

(** [tmpfs::inode] has a memory object; the inode of the initial root has none and no
    operations. *)
Record inode := mk_inode { i_op : option fops; i_stat : stat; i_mem : option Z }.
Record dentry := mk_dentry
  { d_name : string; d_symlink : string; d_inode : Z; d_parent : option Z;
    d_children : gmap string Z; d_mounts : list Z }.
Record instance := mk_instance { dev_id : Z; next_inode : Z }.
Record mount := mk_mount { m_fs : Z; m_root : Z; m_on : option path }.

(** Registered file systems: tmpfs makes an instance per mount, devtmpfs has one tmpfs
    instance and root. *)
Inductive fskind := FsTmpfs | FsDevtmpfs (inst root : Z).

(** [vfs::root] and its inode. *)
Definition root_dentry : Z := 0.
Definition root_inode : Z := 0.

Section vfs.
Context `{PathOps} `{FrameAllocator St}.

(** [clock] is what [time::now()] returns, [junk] what an uninitialised field holds. *)
Record vfs := mk_vfs
  { dentries : gmap Z dentry; inodes : gmap Z inode; mounts : gmap Z mount; instances : gmap Z instance;
    filesystems : gmap string fskind; next_dev : Z; cdevs : gmap Z fops; clock : Z; junk : Z;
    mem : objstore St }.
Definition put_dentry (i : Z) (d : dentry) (s : vfs) : vfs :=
  mk_vfs (<[i := d]> (dentries s)) (inodes s) (mounts s) (instances s) (filesystems s) (next_dev s)
    (cdevs s) (clock s) (junk s) (mem s).
Definition put_inode (i : Z) (n : inode) (s : vfs) : vfs :=
  mk_vfs (dentries s) (<[i := n]> (inodes s)) (mounts s) (instances s) (filesystems s) (next_dev s)
    (cdevs s) (clock s) (junk s) (mem s).
Definition put_mount (i : Z) (m : mount) (s : vfs) : vfs :=
  mk_vfs (dentries s) (inodes s) (<[i := m]> (mounts s)) (instances s) (filesystems s) (next_dev s)
    (cdevs s) (clock s) (junk s) (mem s).
Definition put_instance (i : Z) (n : instance) (s : vfs) : vfs :=
  mk_vfs (dentries s) (inodes s) (mounts s) (<[i := n]> (instances s)) (filesystems s) (next_dev s)
    (cdevs s) (clock s) (junk s) (mem s).
Definition put_fs (n : string) (k : fskind) (s : vfs) : vfs :=
  mk_vfs (dentries s) (inodes s) (mounts s) (instances s) (<[n := k]> (filesystems s)) (next_dev s)
    (cdevs s) (clock s) (junk s) (mem s).
Definition put_cdev (dev : Z) (op : fops) (s : vfs) : vfs :=
  mk_vfs (dentries s) (inodes s) (mounts s) (instances s) (filesystems s) (next_dev s)
    (<[dev := op]> (cdevs s)) (clock s) (junk s) (mem s).
Definition set_next_dev (n : Z) (s : vfs) : vfs :=
  mk_vfs (dentries s) (inodes s) (mounts s) (instances s) (filesystems s) n (cdevs s) (clock s) (junk s) (mem s).
Definition set_mem (m : objstore St) (s : vfs) : vfs :=
  mk_vfs (dentries s) (inodes s) (mounts s) (instances s) (filesystems s) (next_dev s) (cdevs s) (clock s) (junk s) m.

(** What the code uses of the calling process: its root directory once the scheduler is
    initialised, and its effective ids. *)
Record caller := mk_caller { c_root : option path; c_euid : Z; c_egid : Z }.

Definition dentry_of (d : Z) (s : vfs) : outcome dentry := deref (dentries s !! d).
Definition inode_of (d : Z) (s : vfs) : outcome inode := de ← dentry_of d s; deref (inodes s !! d_inode de).
Definition mount_of (m : option Z) (s : vfs) : outcome mount := m ← deref m; deref (mounts s !! m).
Definition type_of (d : Z) (s : vfs) : outcome Z := i ← inode_of d s; Done (st_type (i_stat i)).

(** [real_parent.dentry->children.write_lock().value()[dentry->name] = dentry] for a new
    dentry; the result is its identifier. *)
Definition add_dentry (parent : Z) (name symlink : string) (ino : Z) (s : vfs) : outcome (Z * vfs) :=
  p ← dentry_of parent s;
  let d := fresh (dom (dentries s)) in
  let s := put_dentry d (mk_dentry name symlink ino (Some parent) ∅ []) s in
  Done (d, put_dentry parent (mk_dentry (d_name p) (d_symlink p) (d_inode p) (d_parent p)
    (<[name := d]> (d_children p)) (d_mounts p)) s).
(** ** tmpfs: the instance of every mount *)
(** The constructor of [tmpfs::inode], with a new [memobject]. *)
Definition new_tmpfs_inode (me : caller) (dev ino mode : Z) (op : fops) (s : vfs) : Z * vfs :=
  let o := fresh (dom (objects (mem s))) in
  let s := set_mem (mk_objstore (<[o := ∅]> (objects (mem s))) (phys (mem s)) (oframes (mem s))) s in
  let st := mk_stat dev ino mode 1 (c_euid me) (c_egid me) (junk s) 0 512 0 0 0 0 in
  let st := update_time (clock s) (Z.lor time_access (Z.lor time_modify time_status)) st in
  let i := fresh (dom (inodes s)) in
  (i, put_inode i (mk_inode (Some op) st (Some o)) s).

(** [next_inode++] *)
Definition take_ino (fs : Z) (s : vfs) : outcome (Z * Z * vfs) :=
  n ← deref (instances s !! fs);
  Done (dev_id n, next_inode n, put_instance fs (mk_instance (dev_id n) (w64 (next_inode n + 1))) s).

Definition fs_create (me : caller) (fs mode : Z) (op : option fops) (s : vfs) : outcome (expected error Z * vfs) :=
  '(dev, ino, s) ← take_ino fs s;
  let '(i, s) := new_tmpfs_inode me dev ino mode (default TmpfsOps op) s in
  Done (Value i, s).
Definition fs_symlink (me : caller) (fs : Z) (s : vfs) : outcome (expected error Z * vfs) :=
  fs_create me fs s_iflnk None s.
Definition fs_link (target : Z) (s : vfs) : outcome (expected error Z * vfs) :=
  n ← deref (inodes s !! target);
  Done (Value target, put_inode target (mk_inode (i_op n) (set_nlink (w64 (st_nlink (i_stat n) + 1)) (i_stat n)) (i_mem n)) s).
Definition fs_unlink (node : Z) (s : vfs) : outcome (expected error unit * vfs) :=
  n ← deref (inodes s !! node);
  Done (Value (), put_inode node (mk_inode (i_op n) (set_nlink (w64 (st_nlink (i_stat n) - 1)) (i_stat n)) (i_mem n)) s).
Definition fs_populate (node : Z) (name : string) (s : vfs) : outcome (expected error (list (string * Z)) * vfs) :=
  Done (Unexpected todo, s).

(** [allocate_dev] and the constructor of [filesystem::instance]. *)
Definition new_instance (s : vfs) : Z * vfs :=
  let i := fresh (dom (instances s)) in
  (i, set_next_dev (w64 (next_dev s + 1)) (put_instance i (mk_instance (next_dev s) 1) s)).

(** The root dentry of a new instance, which has no parent. *)
Definition new_root (me : caller) (name : string) (fs : Z) (s : vfs) : outcome (Z * vfs) :=
  '(dev, ino, s) ← take_ino fs s;
  let '(i, s) := new_tmpfs_inode me dev ino s_ifdir TmpfsOps s in
  let d := fresh (dom (dentries s)) in
  Done (d, put_dentry d (mk_dentry name EmptyString i None ∅ []) s).
Definition new_mount (fs root : Z) (s : vfs) : Z * vfs :=
  let m := fresh (dom (mounts s)) in (m, put_mount m (mk_mount fs root None) s).

Definition fs_mount (me : caller) (k : fskind) (s : vfs) : outcome (expected error Z * vfs) :=
  match k with
  | FsTmpfs =>
      let '(fs, s) := new_instance s in
      '(root, s) ← new_root me "tmpfs root. this shouldn't be visible anywhere" fs s;
      let '(m, s) := new_mount fs root s in Done (Value m, s)
  | FsDevtmpfs inst root => let '(m, s) := new_mount inst root s in Done (Value m, s)
  end.
(** The constructor of [devtmpfs::fs]. *)
Definition new_devtmpfs (me : caller) (s : vfs) : outcome (fskind * vfs) :=
  let '(fs, s) := new_instance s in
  '(root, s) ← new_root me "devtmpfs root. this shouldn't be visible anywhere" fs s;
  Done (FsDevtmpfs fs root, s).

(** ** Registered file systems and devices *)
Definition register_fs (name : string) (k : fskind) (s : vfs) : bool * vfs :=
  match filesystems s !! name with Some _ => (false, s) | None => (true, put_fs name k s) end.
Definition find_fs (name : string) (s : vfs) : expected error fskind :=
  match filesystems s !! name with Some k => Value k | None => Unexpected invalid_filesystem end.
Definition register_cdev (op : fops) (dev : Z) (s : vfs) : bool * vfs :=
  match cdevs s !! dev with Some _ => (false, s) | None => (true, put_cdev dev op s) end.
Definition get_cdev_ops (dev : Z) (s : vfs) : option fops := cdevs s !! dev.

(** ** Paths *)
Record resolve_res := mk_res { r_parent : path; r_target : path }.

Definition get_root (me : caller) (absolute : bool) (s : vfs) : outcome path :=
  match (if absolute then None else c_root me) with
  | Some p => Done p
  | None => d ← dentry_of root_dentry s; Done (mk_path (head (d_mounts d)) root_dentry)
  end.

(** [while (path.dentry == path.mnt->root) path = path.mnt->mounted_on.value()] *)
Fixpoint resolve_mounts (fuel : nat) (p : path) (s : vfs) : outcome path :=
  match fuel with
  | O => NoFuel
  | S fuel =>
      m ← mount_of (mnt p) s;
      if dent p =? m_root m then
        match m_on m with Some p => resolve_mounts fuel p s | None => Panic end
      else Done p
  end.

Fixpoint pathname_loop (fuel : nat) (p : path) (segments : list string) (s : vfs) : outcome (list string) :=
  match fuel with
  | O => NoFuel
  | S fuel =>
      p ← resolve_mounts (S fuel) p s;
      if dent p =? root_dentry then Done segments else
      d ← dentry_of (dent p) s;
      parent ← deref (d_parent d);
      pathname_loop fuel (mk_path (mnt p) parent) (d_name d :: segments) s
  end.
(** [pathname_from]; the segments are collected in reverse. *)
Definition pathname_from (fuel : nat) (p : path) (s : vfs) : outcome string :=
  segments ← pathname_loop fuel p [] s;
  let result := fold_left (λ r n, r +:+ "/" +:+ n)%string segments EmptyString in
  Done (if bool_decide (result = EmptyString) then "/"%string else result).

(** The loop at [again]: enter the mounts on a dentry. *)
Fixpoint find_mount (m : option Z) (l : list Z) (s : vfs) : outcome (option (Z * Z)) :=
  match l with
  | [] => Done None
  | c :: l =>
      locked ← deref (mounts s !! c);
      on ← deref (m_on locked);
      if bool_decide (m = mnt on) then Done (Some (c, m_root locked)) else find_mount m l s
  end.
Fixpoint enter_mounts (fuel : nat) (m : option Z) (d : Z) (s : vfs) : outcome path :=
  match fuel with
  | O => NoFuel
  | S fuel =>
      de ← dentry_of d s;
      o ← find_mount m (d_mounts de) s;
      match o with
      | Some (m, root) => enter_mounts fuel (Some m) root s
      | None => Done (mk_path m d)
      end
  end.

Fixpoint add_all (parent : Z) (l : list (string * Z)) (s : vfs) : outcome vfs :=
  match l with
  | [] => Done s
  | (name, ino) :: l => '(_, s) ← add_dentry parent name EmptyString ino s; add_all parent l s
  end.
Definition populate (parent : path) (name : string) (s : vfs) : outcome (bool * vfs) :=
  m ← mount_of (mnt parent) s;
  d ← dentry_of (dent parent) s;
  '(r, s) ← fs_populate (d_inode d) name s;
  match r with
  | Unexpected _ => Done (false, s)
  | Value [] => Done (false, s)
  | Value l => s ← add_all (dent parent) l s; Done (true, s)
  end.

(** The part at [try_again]: the child of [current], if there is one. *)
Fixpoint find_child (fuel : nat) (current : path) (segment : string) (s : vfs) : outcome (option Z * vfs) :=
  match fuel with
  | O => NoFuel
  | S fuel =>
      d ← dentry_of (dent current) s;
      match d_children d !! segment with
      | Some c => Done (Some c, s)
      | None =>
          '(b, s) ← populate current segment s;
          if (b : bool) then find_child fuel current segment s else Done (None, s)
      end
  end.

(** [std::views::split(str, '/')] *)
Fixpoint split_slash (p : string) : list string :=
  match p with
  | EmptyString => [EmptyString]
  | String c p =>
      if bool_decide (c = "/"%char) then EmptyString :: split_slash p
      else match split_slash p with [] => [String c EmptyString] | x :: l => String c x :: l end
  end.

Definition is_symlink (d : Z) (s : vfs) : outcome bool :=
  de ← dentry_of d s;
  t ← type_of d s;
  Done ((t =? s_iflnk) && negb (bool_decide (d_symlink de = EmptyString))).

Abbreviation resolver := (path → string → vfs → outcome (expected error resolve_res * vfs)).

Fixpoint reduce_loop (resolve : resolver) (depth : nat) (parent src : path) (s : vfs)
    : outcome (expected error path * vfs) :=
  b ← is_symlink (dent src) s;
  match depth with
  | O => Done (if (b : bool) then Unexpected symloop_max_exceeded else Value src, s)
  | S depth =>
      if negb b then Done (Value src, s) else
      de ← dentry_of (dent src) s;
      '(ret, s) ← resolve parent (d_symlink de) s;
      match ret with
      | Unexpected _ => Done (Unexpected invalid_symlink, s)
      | Value ret =>
          if dent (r_target ret) =? dent src then Done (Unexpected invalid_symlink, s)
          else reduce_loop resolve depth (r_parent ret) (r_target ret) s
      end
  end.
Definition reduce_with (resolve : resolver) (depth : nat) (parent src : path) (s : vfs)
    : outcome (expected error path * vfs) :=
  match depth with O => Done (Value src, s) | _ => reduce_loop resolve depth parent src s end.

(** The loop of [resolve] over the segments; [last] is that no segment follows. *)
Fixpoint walk (fuel : nat) (resolve : resolver) (segments : list string) (current : path) (s : vfs)
    : outcome (expected error resolve_res * vfs) :=
  match segments with
  | [] => Done (Unexpected not_found, s)
  | segment :: rest =>
      let last := bool_decide (rest = []) in
      if bool_decide (segment = EmptyString) then walk fuel resolve rest current s
      else if bool_decide (segment = ".."%string) then
        current ← resolve_mounts fuel current s;
        d ← dentry_of (dent current) s;
        up ← deref (d_parent d);
        current ← resolve_mounts fuel (mk_path (mnt current) up) s;
        if last then
          parent ← resolve_mounts fuel current s;
          d ← dentry_of (dent parent) s;
          up ← deref (d_parent d);
          parent ← resolve_mounts fuel (mk_path (mnt parent) up) s;
          Done (Value (mk_res parent current), s)
        else walk fuel resolve rest current s
      else
        '(c, s) ← find_child fuel current segment s;
        match c with
        | None => Done (Unexpected not_found, s)
        | Some c =>
            next ← enter_mounts fuel (mnt current) c s;
            if last then Done (Value (mk_res current next), s) else
            t ← type_of (dent next) s;
            '(r, s) ← (if t =? s_iflnk then reduce_with resolve symloop_max current next s
                       else Done (Value next, s));
            match r with
            | Unexpected e => Done (Unexpected e, s)
            | Value next =>
                t ← type_of (dent next) s;
                if negb (t =? s_ifdir) then Done (Unexpected not_a_dir, s)
                else walk fuel resolve rest next s
            end
        end
  end.

Definition is_trivial (p : string) : bool :=
  bool_decide (p = "/"%string) || bool_decide (p = EmptyString) || bool_decide (p = "."%string).

(** [resolve]; the fuel bounds the recursion through symbolic links. *)
Fixpoint resolve (fuel : nat) (me : caller) (parent : option path) (p : string) (s : vfs)
    : outcome (expected error resolve_res * vfs) :=
  match fuel with
  | O => NoFuel
  | S fuel' =>
      let p := normalise p in
      parent ← match parent with
               | Some q => if is_absolute p then get_root me false s else Done q
               | None => get_root me false s
               end;
      if is_trivial p then Done (Value (mk_res parent parent), s) else
      _ ← bug_on (bool_decide (mnt parent = None));
      walk fuel (λ parent, resolve fuel' me (Some parent)) (split_slash p) parent s
  end.

Definition reduce (fuel : nat) (me : caller) (parent src : path) (depth : nat) (s : vfs)
    : outcome (expected error path * vfs) :=
  reduce_with (λ parent, resolve fuel me (Some parent)) depth parent src s.

Definition path_for (fuel : nat) (me : caller) (p : string) (s : vfs) : outcome (expected error path * vfs) :=
  '(r, s) ← resolve fuel me (c_root me) (normalise p) s;
  Done (match r with Value r => Value (r_target r) | Unexpected e => Unexpected e end, s).
(** ** Operations *)
(** [vfs::mount] *)
Definition vfs_mount (fuel : nat) (me : caller) (source target fstype : string) (s : vfs)
    : outcome (expected error unit * vfs) :=
  let source := normalise source in
  let target := normalise target in
  match find_fs fstype s with
  | Unexpected e => Done (Unexpected e, s)
  | Value fs =>
      '(src, s) ←
        (if bool_decide (source = EmptyString) then Done (Value (), s) else
         '(ret, s) ← path_for fuel me source s;
         match ret with
         | Unexpected e => Done (Unexpected e, s)
         | Value p => t ← type_of (dent p) s;
                      Done (if t =? s_ifblk then Value () else Unexpected not_a_block, s)
         end);
      match src with
      | Unexpected e => Done (Unexpected e, s)
      | Value _ =>
          '(ret, s) ← path_for fuel me target s;
          match ret with
          | Unexpected e => Done (Unexpected e, s)
          | Value target =>
              t ← type_of (dent target) s;
              if negb (t =? s_ifdir) then Done (Unexpected not_a_dir, s) else
              '(mnt, s) ← fs_mount me fs s;
              match mnt with
              | Unexpected e => Done (Unexpected e, s)
              | Value i =>
                  m ← deref (mounts s !! i);
                  let s := put_mount i (mk_mount (m_fs m) (m_root m) (Some target)) s in
                  d ← dentry_of (dent target) s;
                  Done (Value (), put_dentry (dent target) (mk_dentry (d_name d) (d_symlink d) (d_inode d)
                    (d_parent d) (d_children d) (d_mounts d ++ [i])) s)
              end
          end
      end
  end.

Definition unmount (target : string) (s : vfs) : outcome (expected error unit * vfs) := Done (Unexpected todo, s).

(** The common part of [create], [symlink] and [link]: the new name must not resolve, and
    its directory must. *)
Definition new_place (fuel : nat) (me : caller) (parent : option path) (p : string) (s : vfs)
    : outcome (expected error path * vfs) :=
  '(res, s) ← resolve fuel me parent p s;
  match res with
  | Value _ => Done (Unexpected already_exists, s)
  | Unexpected _ =>
      '(res, s) ← resolve fuel me parent (normalise (dirname p)) s;
      Done (match res with Value r => Value (r_target r) | Unexpected e => Unexpected e end, s)
  end.

(** The inode made by the instance of [real_parent] gets a dentry. *)
Definition finish (real_parent : path) (name symlink : string) (ret : expected error Z) (s : vfs)
    : outcome (expected error path * vfs) :=
  match ret with
  | Unexpected e => Done (Unexpected e, s)
  | Value ino =>
      '(d, s) ← add_dentry (dent real_parent) name symlink ino s;
      Done (Value (mk_path (mnt real_parent) d), s)
  end.

Definition create (fuel : nat) (me : caller) (parent : option path) (p : string) (mode dev : Z) (s : vfs)
    : outcome (expected error path * vfs) :=
  let p := normalise p in
  let ops : expected error (option fops) :=
    if dev =? 0 then Value None else
    let t := type_of_mode mode in
    if negb (t =? s_ifchr) && negb (t =? s_ifblk) then Unexpected invalid_type else
    match get_cdev_ops dev s with None => Unexpected invalid_device | Some op => Value (Some op) end in
  match ops with
  | Unexpected e => Done (Unexpected e, s)
  | Value ops =>
      '(place, s) ← new_place fuel me parent p s;
      match place with
      | Unexpected e => Done (Unexpected e, s)
      | Value real_parent =>
          let name := normalise (basename p) in
          m ← mount_of (mnt real_parent) s;
          _ ← dentry_of (dent real_parent) s;
          '(ret, s) ← fs_create me (m_fs m) mode ops s;
          finish real_parent name EmptyString ret s
      end
  end.

Definition symlink (fuel : nat) (me : caller) (parent : option path) (src target : string) (s : vfs)
    : outcome (expected error path * vfs) :=
  let src := normalise src in
  let target := normalise target in
  '(place, s) ← new_place fuel me parent src s;
  match place with
  | Unexpected e => Done (Unexpected e, s)
  | Value real_parent =>
      let name := normalise (basename src) in
      m ← mount_of (mnt real_parent) s;
      _ ← dentry_of (dent real_parent) s;
      '(ret, s) ← fs_symlink me (m_fs m) s;
      finish real_parent name target ret s
  end.

(** [link]: [tgt] is a copy of the target made before links are followed. *)
Definition link (fuel : nat) (me : caller) (parent : option path) (src : string) (tgtparent : option path)
    (target : string) (follow_links : bool) (s : vfs) : outcome (expected error path * vfs) :=
  let src := normalise src in
  let target := normalise target in
  '(place, s) ← new_place fuel me parent src s;
  match place with
  | Unexpected e => Done (Unexpected e, s)
  | Value real_parent =>
      let name := normalise (basename src) in
      '(res, s) ← resolve fuel me tgtparent target s;
      match res with
      | Unexpected e => Done (Unexpected e, s)
      | Value res =>
          let tgt := r_target res in
          t ← type_of (dent tgt) s;
          '(reduced, s) ← (if follow_links && (t =? s_iflnk)
                           then reduce fuel me (r_parent res) (r_target res) symloop_max s
                           else Done (Value (r_target res), s));
          match reduced with
          | Unexpected e => Done (Unexpected e, s)
          | Value _ =>
              t ← type_of (dent tgt) s;
              if t =? s_ifdir then Done (Unexpected target_is_a_dir, s) else
              if negb (bool_decide (mnt real_parent = mnt tgt)) then Done (Unexpected different_filesystem, s) else
              _ ← mount_of (mnt real_parent) s;
              d ← dentry_of (dent tgt) s;
              '(ret, s) ← fs_link (d_inode d) s;
              finish real_parent name EmptyString ret s
          end
      end
  end.

(** The end of [unlink]: the file system drops a link, the directory its entry. *)
Definition remove_entry (target : path) (real_parent : Z) (name : string) (s : vfs)
    : outcome (expected error unit * vfs) :=
  _ ← mount_of (mnt target) s;
  d ← dentry_of (dent target) s;
  '(ret, s) ← fs_unlink (d_inode d) s;
  match ret with
  | Unexpected e => Done (Unexpected e, s)
  | Value _ =>
      rp ← dentry_of real_parent s;
      _ ← bug_on (bool_decide (d_children rp !! name = None));
      Done (Value (), put_dentry real_parent (mk_dentry (d_name rp) (d_symlink rp) (d_inode rp)
        (d_parent rp) (delete name (d_children rp)) (d_mounts rp)) s)
  end.

Definition unlink (fuel : nat) (me : caller) (parent : option path) (p : string) (s : vfs)
    : outcome (expected error unit * vfs) :=
  let p := normalise p in
  '(res, s) ← resolve fuel me parent p s;
  match res with
  | Unexpected e => Done (Unexpected e, s)
  | Value res =>
      let real_parent := dent (r_parent res) in
      let target := r_target res in
      let name := normalise (basename p) in
      t ← type_of (dent target) s;
      '(busy, s) ←
        (if negb (t =? s_ifdir) then Done (None, s) else
         m ← mount_of (mnt target) s;
         if dent target =? m_root m then Done (Some target_is_busy, s) else
         d ← dentry_of (dent target) s;
         if negb (bool_decide (d_children d = ∅)) then Done (Some dir_not_empty, s) else
         '(_, s) ← populate target EmptyString s;
         d ← dentry_of (dent target) s;
         Done (if negb (bool_decide (d_children d = ∅)) then Some dir_not_empty else None, s));
      match busy with
      | Some e => Done (Unexpected e, s)
      | None => remove_entry target real_parent name s
    end
  end.

(** [vfs::stat] *)
Definition vfs_stat (fuel : nat) (me : caller) (parent : option path) (p : string) (s : vfs)
    : outcome (expected error stat * vfs) :=
  '(res, s) ← resolve fuel me parent (normalise p) s;
  match res with
  | Unexpected e => Done (Unexpected e, s)
  | Value res => i ← inode_of (dent (r_target res)) s; Done (Value (i_stat i), s)
  end.

(** ** Start-up: [vfs.tmpfs.register], [vfs.devtmpfs.register], [vfs.mount-root],
    [vfs.devtmpfs.mount], the memory devices and [vfs.dev.populate] *)
Definition no_error {A} (r : expected error A) : bool := match r with Value _ => true | Unexpected _ => false end.
Definition exists_or_done {A} (r : expected error A) : bool :=
  match r with Value _ => true | Unexpected e => bool_decide (e = already_exists) end.

Definition register_filesystems (me : caller) (s : vfs) : outcome vfs :=
  let '(ok, s) := register_fs "tmpfs" FsTmpfs s in
  _ ← bug_on (negb ok);
  '(k, s) ← new_devtmpfs me s;
  let '(ok, s) := register_fs "devtmpfs" k s in
  _ ← bug_on (negb ok);
  Done s.
(** [root_task]: the root and working directory of process 0 is the result. *)
Definition mount_root (fuel : nat) (me : caller) (s : vfs) : outcome (path * vfs) :=
  '(r, s) ← vfs_mount fuel me EmptyString "/" "tmpfs" s;
  _ ← bug_on (negb (no_error r));
  p ← get_root me true s;
  Done (p, s).
Definition mount_devtmpfs (fuel : nat) (me : caller) (s : vfs) : outcome vfs :=
  '(cerr, s) ← create fuel me None "/dev" s_ifdir 0 s;
  _ ← (if exists_or_done cerr then Done () else Panic);
  '(merr, s) ← vfs_mount fuel me EmptyString "/dev" "devtmpfs" s;
  if no_error merr then Done s else Panic.
Definition register_memfiles (s : vfs) : vfs :=
  let '(_, s) := register_cdev NullOps (makedev 1 3) s in
  let '(_, s) := register_cdev ZeroOps (makedev 1 5) s in
  let '(_, s) := register_cdev FullOps (makedev 1 7) s in
  let '(_, s) := register_cdev RandomOps (makedev 1 8) s in
  let '(_, s) := register_cdev RandomOps (makedev 1 9) s in
  s.
Definition register_tty (s : vfs) : vfs := snd (register_cdev TtyOps (makedev 5 1) s).
Definition populate_one (fuel : nat) (me : caller) (p : string) (mode dev : Z) (s : vfs) : outcome vfs :=
  '(ret, s) ← create fuel me None p mode dev s;
  if exists_or_done ret then Done s else Panic.
Definition populate_dev (fuel : nat) (me : caller) (s : vfs) : outcome vfs :=
  let mode := Z.lor s_ifchr 0x1B6 in
  s ← populate_one fuel me "/dev/null" mode (makedev 1 3) s;
  s ← populate_one fuel me "/dev/zero" mode (makedev 1 5) s;
  s ← populate_one fuel me "/dev/full" mode (makedev 1 7) s;
  s ← populate_one fuel me "/dev/random" mode (makedev 1 8) s;
  populate_one fuel me "/dev/urandom" mode (makedev 1 9) s.
End vfs.
Arguments vfs St : clear implicits.
Arguments mk_vfs {St} _ _ _ _ _ _ _ _ _ _.
Arguments dentries {St} _.
Arguments inodes {St} _.
Arguments mounts {St} _.
Arguments instances {St} _.
Arguments filesystems {St} _.
Arguments next_dev {St} _.
Arguments cdevs {St} _.
Arguments clock {St} _.
Arguments junk {St} _.
Arguments mem {St} _.

(** ** Descriptor tables *)
Record filedesc := mk_filedesc { fd_file : Z; closexec : bool }.
(** Descriptors are shared objects, so a table holds their identifiers. *)
Record fdtable := mk_fdtable { fds : gmap Z Z; next_fd : Z }.

(** [fdtable::close] *)
Definition fd_close (fd : Z) (t : fdtable) : bool * fdtable :=
  (bool_decide (is_Some (fds t !! fd)), mk_fdtable (delete fd (fds t)) (next_fd t)).
Definition fd_get (fd : Z) (t : fdtable) : option Z := fds t !! fd.

(** [while (wlocked->contains(fd)) fd++] *)
Fixpoint free_fd (fuel : nat) (fd : Z) (t : gmap Z Z) : outcome Z :=
  match fuel with
  | O => NoFuel
  | S fuel => match t !! fd with Some _ => free_fd fuel (s32 (fd + 1)) t | None => Done fd end
  end.
(** [fdtable::allocate_fd] *)
Definition allocate_fd (desc fd : Z) (force : bool) (t : fdtable) : outcome (Z * fdtable) :=
  match fds t !! fd with
  | None => Done (fd, mk_fdtable (<[fd := desc]> (fds t)) (next_fd t))
  | Some _ =>
      if force then Done (fd, mk_fdtable (<[fd := desc]> (delete fd (fds t))) (next_fd t))
      else
        fd ← free_fd (S (size (fds t))) (next_fd t) (fds t);
        Done (fd, mk_fdtable (<[fd := desc]> (fds t)) (s32 (next_fd t + 1)))
  end.
