(* ===== verification/VfsTables.v ===== *)
(** Device numbers and descriptor tables ([dev.cppm] and [fdtable] of vfs.cpp). *)

From Stdlib Require Import Strings.Ascii.
From S2P Require Import Prelude Math Pmm Frames Objects Vfs.
#[local] Open Scope string_scope.
#[local] Open Scope Z_scope.

(** ** Device numbers *)
Lemma w64_bits x n : 0 ≤ n < 64 → Z.testbit (w64 x) n = Z.testbit x n.
Proof. intros Hn. unfold w64. change (2 ^ 64) with (2 ^ 64). by rewrite Z.mod_pow2_bits_low by lia. Qed.
Lemma w32_bits x n : 0 ≤ n < 32 → Z.testbit (w32 x) n = Z.testbit x n.
Proof. intros Hn. unfold w32. by rewrite Z.mod_pow2_bits_low by lia. Qed.
Lemma w32_bits_high x n : 32 ≤ n → Z.testbit (w32 x) n = false.
Proof. intros Hn. unfold w32. by rewrite Z.mod_pow2_bits_high by lia. Qed.
Lemma testbit_above x n k : 0 ≤ x < 2 ^ k → 0 ≤ k ≤ n → Z.testbit x n = false.
Proof.
  intros Hx Hn. destruct (decide (x = 0)) as [->|]; [apply Z.testbit_0_l|].
  apply Z.bits_above_log2; [lia|]. apply Z.log2_lt_pow2; [lia|].
  pose proof (Z.pow_le_mono_r 2 k n). lia.
Qed.

(** Evaluate the bits of a masked and shifted word at a literal position. *)
Ltac word_bits :=
  repeat first
    [ rewrite Z.lor_spec | rewrite Z.land_spec
    | rewrite Z.shiftr_spec by lia | rewrite Z.shiftl_spec by lia
    | rewrite w32_bits by lia | rewrite w64_bits by lia ];
  cbn [Z.add Z.sub Z.opp Z.pos_sub Pos.add Pos.succ Pos.add_carry];
  repeat match goal with
  | |- context [Z.testbit (Zpos ?p) ?n] =>
      let b := eval vm_compute in (Z.testbit (Zpos p) n) in change (Z.testbit (Zpos p) n) with b
  end.

Lemma bits_cases (P : Z → Prop) (n : nat) :
  (fix all k := match k with O => True | S k => P (Z.of_nat k) ∧ all k end) n →
  ∀ i, 0 ≤ i < Z.of_nat n → P i.
Proof.
  induction n as [|n IH]; intros Hall i Hi; [lia|]. destruct Hall as [Hn Hall].
  destruct (decide (i = Z.of_nat n)) as [->|]; [done|]. apply IH; [done|lia].
Qed.

(** Every pair of 32-bit numbers is recovered from its device number. *)
Theorem makedev_roundtrip maj min :
  0 ≤ maj < 2 ^ 32 → 0 ≤ min < 2 ^ 32 →
  major (makedev maj min) = maj ∧ minor (makedev maj min) = min ∧ 0 ≤ makedev maj min < 2 ^ 64.
Proof.
  intros Hmaj Hmin. split; [|split].
  - apply Z.bits_inj'. intros n Hn. unfold major, makedev. destruct (decide (n < 32)) as [Hlt|Hge].
    + revert n Hn Hlt. assert (∀ i, 0 ≤ i < Z.of_nat 32 → Z.testbit (major (makedev maj min)) i = Z.testbit maj i) as Hall.
      { apply bits_cases. unfold major, makedev. repeat split; word_bits;
          rewrite ?andb_false_r, ?andb_true_r, ?orb_false_l, ?orb_false_r; reflexivity. }
      intros n Hn Hlt. apply Hall. lia.
    + rewrite w32_bits_high by lia. symmetry. by apply (testbit_above maj n 32); [lia|lia].
  - apply Z.bits_inj'. intros n Hn. destruct (decide (n < 32)) as [Hlt|Hge].
    + revert n Hn Hlt. assert (∀ i, 0 ≤ i < Z.of_nat 32 → Z.testbit (minor (makedev maj min)) i = Z.testbit min i) as Hall.
      { apply bits_cases. unfold minor, makedev. repeat split; word_bits;
          rewrite ?andb_false_r, ?andb_true_r, ?orb_false_l, ?orb_false_r; reflexivity. }
      intros n Hn Hlt. apply Hall. lia.
    + unfold minor. rewrite w32_bits_high by lia. symmetry. by apply (testbit_above min n 32); [lia|lia].
  - apply w64_range.
Qed.

(** ** Descriptor tables *)

(** Among more numbers than a table has entries one is free. *)
Lemma range_not_free (t : gmap Z Z) fd n :
  (∀ i, (i < n)%nat → is_Some (t !! (fd + Z.of_nat i))) → (n ≤ size t)%nat.
Proof.
  intros Hall. rewrite <-size_dom.
  transitivity (size (list_to_set ((λ i, fd + Z.of_nat i) <$> seq 0 n) : gset Z)).
  - rewrite size_list_to_set; [by rewrite length_fmap, length_seq|]. apply NoDup_fmap_2; [|apply NoDup_seq].
    intros i j E. lia.
  - apply subseteq_size. intros x Hx. apply elem_of_list_to_set, list_elem_of_fmap in Hx as (i & -> & Hi%elem_of_seq).
    apply elem_of_dom, Hall. lia.
Qed.
Lemma free_fd_spec (t : gmap Z Z) fuel fd n :
  0 ≤ fd → (∀ i, (i < n)%nat → is_Some (t !! (fd - Z.of_nat n + Z.of_nat i))) →
  (size t < n + fuel)%nat → fd + Z.of_nat fuel < 2 ^ 31 →
  ∃ fd', free_fd fuel fd t = Done fd' ∧ t !! fd' = None ∧ fd ≤ fd'.
Proof.
  revert fd n. induction fuel as [|fuel IH]; intros fd n H0 Hall Hf Hb.
  { exfalso. pose proof (range_not_free t _ n Hall). lia. }
  simpl. destruct (t !! fd) as [x|] eqn:E; [|by exists fd].
  rewrite s32_small by lia. destruct (IH (fd + 1) (S n)) as (fd' & -> & Hfree & Hle); [lia| |lia|lia|].
  - intros i Hi. destruct (decide (i = n)) as [->|].
    + replace (fd + 1 - Z.of_nat (S n) + Z.of_nat n) with fd by lia. by eexists.
    + replace (fd + 1 - Z.of_nat (S n) + Z.of_nat i) with (fd - Z.of_nat n + Z.of_nat i) by lia. apply Hall. lia.
  - exists fd'. split_and!; [done..|lia].
Qed.

(** [fdtable::allocate_fd] stores the descriptor and changes no other slot; it returns
    the requested slot if that is free or may be replaced, and a free one otherwise. *)
Theorem allocate_fd_correct desc fd force t :
  0 ≤ next_fd t → next_fd t + Z.of_nat (size (fds t)) < 2 ^ 31 - 1 →
  ∃ fd' t', allocate_fd desc fd force t = Done (fd', t') ∧
    fd_get fd' t' = Some desc ∧ (∀ i, i ≠ fd' → fd_get i t' = fd_get i t) ∧
    (fd_get fd t = None ∨ force = true → fd' = fd) ∧ (force = false → fd_get fd' t = None).
Proof.
  intros H0 Hb. unfold allocate_fd, fd_get. destruct (fds t !! fd) as [x|] eqn:E.
  - destruct force.
    + eexists _, _. split; [done|]. simpl. rewrite lookup_insert_eq. split; [done|]. split; [|naive_solver].
      intros i Hi. by rewrite lookup_insert_ne, lookup_delete_ne.
    + destruct (free_fd_spec (fds t) (S (size (fds t))) (next_fd t) 0) as (fd' & -> & Hfree & _);
        [done|lia|lia|lia|]. simpl.
      eexists _, _. split; [done|]. simpl. rewrite lookup_insert_eq. split; [done|]. split; [|naive_solver].
      intros i Hi. by rewrite lookup_insert_ne.
  - eexists _, _. split; [done|]. simpl. rewrite lookup_insert_eq. split; [done|]. split; [|naive_solver].
    intros i Hi. by rewrite lookup_insert_ne.
Qed.

(** ** Witnesses *)
Lemma makedev_roundtrip_witness :
  major (makedev 0xABCDE 0x12345678) = 0xABCDE ∧ minor (makedev 0xABCDE 0x12345678) = 0x12345678 ∧
  0 ≤ makedev 0xABCDE 0x12345678 < 2 ^ 64.
Proof. apply (makedev_roundtrip 0xABCDE 0x12345678); lia. Defined.
Lemma allocate_fd_correct_witness :
  ∃ fd' t', allocate_fd 7 0 false (mk_fdtable {[ 0 := 5; 1 := 6 ]} 1) = Done (fd', t') ∧
    fd_get fd' t' = Some 7 ∧ (∀ i, i ≠ fd' → fd_get i t' = fd_get i (mk_fdtable {[ 0 := 5; 1 := 6 ]} 1)) ∧
    (fd_get 0 (mk_fdtable {[ 0 := 5; 1 := 6 ]} 1) = None ∨ false = true → fd' = 0) ∧
    (false = false → fd_get fd' (mk_fdtable {[ 0 := 5; 1 := 6 ]} 1) = None).
Proof.
  apply (allocate_fd_correct 7 0 false (mk_fdtable {[ 0 := 5; 1 := 6 ]} 1)).
  - simpl. lia.
  - vm_compute. reflexivity.
Defined.
