(* ===== verification/VfsSpec.v ===== *)
(** Path resolution against the tree of dentries and mounts: the path name of a place
    resolves to it, and what [create], [unlink], [link] and symbolic links do to it. *)

From Stdlib Require Import Strings.Ascii.
From S2P Require Import Prelude Math Pmm Frames Objects Vfs.
#[local] Open Scope string_scope.
#[local] Open Scope Z_scope.

(** A name of a directory entry. *)
Fixpoint no_slash (p : string) : bool :=
  match p with EmptyString => true | String c p => negb (bool_decide (c = "/"%char)) && no_slash p end.
Definition plain (n : string) : Prop :=
  n ≠ EmptyString ∧ n ≠ "." ∧ n ≠ ".." ∧ no_slash n = true.
(** An absolute path made of names. *)
Definition join_names (names : list string) : string :=
  match names with [] => "/" | _ => fold_left (λ r n, r +:+ "/" +:+ n) names EmptyString end.

(** Documented behaviour of cwalk on paths in normal form. *)
Class PathLaws `{PathOps} : Prop := {
  normalise_idem p : normalise (normalise p) = normalise p;
  normalise_nil : is_trivial (normalise EmptyString) = true ∧ is_absolute (normalise EmptyString) = false;
  normalise_name n : plain n → normalise n = n ∧ is_absolute n = false;
  split_name n : plain n → basename n = n ∧ dirname n = EmptyString;
  normalise_pair a b : plain a → plain b →
    normalise (a +:+ "/" +:+ b) = a +:+ "/" +:+ b ∧ is_absolute (a +:+ "/" +:+ b) = false;
  split_pair a b : plain a → plain b →
    basename (a +:+ "/" +:+ b) = b ∧ normalise (dirname (a +:+ "/" +:+ b)) = a;
  normalise_names names : Forall plain names →
    normalise (join_names names) = join_names names ∧ is_absolute (join_names names) = true }.

(** *** Splitting *)
Lemma split_slash_plain n : no_slash n = true → split_slash n = [n].
Proof.
  induction n as [|c n IH]; simpl; [done|]. intros [Hc Hn]%andb_true_iff.
  rewrite bool_decide_eq_false_2 by (by apply negb_true_iff, bool_decide_eq_false in Hc). by rewrite IH.
Qed.
Lemma split_slash_app a b : no_slash a = true → split_slash (a +:+ "/" +:+ b) = a :: split_slash b.
Proof.
  induction a as [|c a IH]; simpl; [done|]. intros [Hc Hn]%andb_true_iff.
  rewrite bool_decide_eq_false_2 by (by apply negb_true_iff, bool_decide_eq_false in Hc).
  change (a +:+ String "/"%char b) with (a +:+ "/" +:+ b). by rewrite IH.
Qed.
Lemma app_nil_string (p : string) : p +:+ EmptyString = p.
Proof. induction p as [|c p IH]; [done|]. change (String c (p +:+ EmptyString) = String c p). by rewrite IH. Qed.
Lemma app_assoc_string (p q r : string) : (p +:+ q) +:+ r = p +:+ (q +:+ r).
Proof. induction p as [|c p IH]; [done|]. change (String c ((p +:+ q) +:+ r) = String c (p +:+ (q +:+ r))). by rewrite IH. Qed.
Lemma fold_names names r :
  fold_left (λ r n, r +:+ "/" +:+ n) names r = r +:+ fold_left (λ r n, r +:+ "/" +:+ n) names EmptyString.
Proof.
  revert r. induction names as [|n names IH]; intros r; simpl; [by rewrite app_nil_string|].
  rewrite (IH (r +:+ _)), (IH (EmptyString +:+ _)). by rewrite app_assoc_string.
Qed.
Lemma fold_names_cons n names :
  fold_left (λ r n, r +:+ "/" +:+ n) (n :: names) EmptyString =
  String "/" (n +:+ fold_left (λ r n, r +:+ "/" +:+ n) names EmptyString).
Proof. change (fold_left (λ r n, r +:+ "/" +:+ n) (n :: names) EmptyString) with
         (fold_left (λ r n, r +:+ "/" +:+ n) names (String "/" n)). by rewrite fold_names. Qed.
Lemma split_slash_names names :
  names ≠ [] → Forall plain names → split_slash (join_names names) = EmptyString :: names.
Proof.
  intros Hne Hp. destruct names as [|n names]; [done|]. clear Hne. unfold join_names. rewrite fold_names_cons.
  simpl. f_equal. revert n Hp. induction names as [|m names IH]; intros n Hp; apply Forall_cons in Hp as [Hn Hp].
  { simpl. rewrite app_nil_string. apply split_slash_plain. apply Hn. }
  rewrite fold_names_cons.
  match goal with |- context [String _ (m +:+ ?r)] =>
    change (n +:+ String "/" (m +:+ r)) with (n +:+ "/" +:+ (m +:+ r)) end.
  rewrite split_slash_app by apply Hn. f_equal. by apply IH.
Qed.
Lemma join_names_nontrivial names : names ≠ [] → Forall plain names → is_trivial (join_names names) = false.
Proof.
  intros Hne Hp. pose proof (split_slash_names names Hne Hp) as Hs. unfold is_trivial.
  destruct names as [|n names]; [done|]. apply Forall_inv in Hp as (Hn & _).
  rewrite !bool_decide_eq_false_2; [done|..]; intros E; rewrite E in Hs; simpl in Hs; [discriminate Hs..|].
  injection Hs as <- _. by destruct Hn.
Qed.

Lemma dentry_of_eq `{FrameAllocator St} (s : vfs St) d de : dentries s !! d = Some de → dentry_of d s = Done de.
Proof. intros Hd. unfold dentry_of. by rewrite Hd. Qed.

(** ** The tree *)
Section tree.
Context `{PathLaws} `{FrameAllocator St}.
Abbreviation vfs := (vfs St).

(** Children know their parent and name, mounts know the dentry they cover, and roots of
    mounts are no children. *)
Record vfs_ok (s : vfs) : Prop := {
  vk_child d de n c : dentries s !! d = Some de → d_children de !! n = Some c →
    c ≠ root_dentry ∧ ∃ ce, dentries s !! c = Some ce ∧ d_parent ce = Some d ∧ d_name ce = n;
  vk_covers d de m : dentries s !! d = Some de → m ∈ d_mounts de →
    ∃ mo on, mounts s !! m = Some mo ∧ m_on mo = Some on ∧ dent on = d;
  vk_mroot m mo : mounts s !! m = Some mo → ∃ de, dentries s !! m_root mo = Some de ∧ d_parent de = None;
  vk_root : ∃ de, dentries s !! root_dentry = Some de ∧ d_parent de = Some root_dentry;
  vk_inode d de : dentries s !! d = Some de → is_Some (inodes s !! d_inode de) }.

(** A path whose mount exists. *)
Definition path_ok (s : vfs) (p : path) : Prop := ∃ m mo, mnt p = Some m ∧ mounts s !! m = Some mo.
(** The entry [n] of directory [p], seen through the mounts on it, is [q]. *)
Definition step (fuel : nat) (s : vfs) (p : path) (n : string) (q : path) : Prop :=
  ∃ d c, dentries s !! dent p = Some d ∧ d_children d !! n = Some c ∧ enter_mounts fuel (mnt p) c s = Done q.
Definition is_dir (s : vfs) (d : Z) : Prop := type_of d s = Done s_ifdir.
(** [q] is reached from [p] by the entries [names], all but the last being directories. *)
Fixpoint descends (fuel : nat) (s : vfs) (p : path) (names : list string) (q : path) : Prop :=
  match names with
  | [] => q = p
  | [n] => step fuel s p n q
  | n :: names => ∃ x, step fuel s p n x ∧ is_dir s (dent x) ∧ descends fuel s x names q
  end.

(** *** Going up through mounts *)
Inductive climbs (s : vfs) : nat → path → path → Prop :=
| climbs_refl p : climbs s 0 p p
| climbs_step k p m mo on q : mnt p = Some m → mounts s !! m = Some mo → dent p = m_root mo →
    m_on mo = Some on → climbs s k on q → climbs s (S k) p q.

Lemma climbs_snoc (s : vfs) k p q m mo r :
  climbs s k p q → mnt q = Some m → mounts s !! m = Some mo → dent q = m_root mo → m_on mo = Some r →
  climbs s (S k) p r.
Proof.
  induction 1 as [p|k p m' mo' on q Hm Hmo Hd Hon Hc IH]; intros ? ? ? ?.
  - eapply climbs_step; eauto using climbs.
  - eapply climbs_step; eauto.
Qed.

(** [p] is not the root of its mount. *)
Definition inner (s : vfs) (p : path) : Prop := ∃ m mo, mnt p = Some m ∧ mounts s !! m = Some mo ∧ dent p ≠ m_root mo.
Lemma resolve_mounts_climbs (s : vfs) k p q fuel :
  climbs s k p q → inner s q → (k < fuel)%nat → resolve_mounts fuel p s = Done q.
Proof.
  intros Hc (m & mo & Hm & Hmo & Hne). revert fuel.
  induction Hc as [p|k p m' mo' on q Hm' Hmo' Hd Hon Hc IH]; intros [|fuel] Hf; try lia; cbn [resolve_mounts];
    unfold mount_of.
  - rewrite Hm. simpl. rewrite Hmo. simpl. destruct (Z.eqb_spec (dent p) (m_root mo)); done.
  - rewrite Hm'. simpl. rewrite Hmo'. simpl. destruct (Z.eqb_spec (dent p) (m_root mo')); [|done].
    rewrite Hon. apply IH; [done..|lia].
Qed.

Lemma find_mount_spec (s : vfs) m l r :
  find_mount m l s = Done r →
  match r with
  | Some (c, root) => c ∈ l ∧ ∃ mo on, mounts s !! c = Some mo ∧ m_root mo = root ∧ m_on mo = Some on ∧ mnt on = m
  | None => True
  end.
Proof.
  induction l as [|c l IH]; simpl; [by intros [= <-]|].
  destruct (mounts s !! c) as [mo|] eqn:Hc; simpl; [|done].
  destruct (m_on mo) as [on|] eqn:Hon; simpl; [|done].
  case_bool_decide as Hm.
  - intros [= <-]. split; [by left|]. by exists mo, on.
  - intros Hr%IH. destruct r as [[c' root]|]; [|done]. destruct Hr as [? ?]. split; [by right|done].
Qed.

(** Entering the mounts of [d] can be undone. *)
Lemma enter_mounts_climbs (s : vfs) fuel m d q :
  vfs_ok s → enter_mounts fuel m d s = Done q → (∃ mo, m = Some mo ∧ is_Some (mounts s !! mo)) →
  ∃ k, (k < fuel)%nat ∧ climbs s k q (mk_path m d) ∧ path_ok s q ∧ is_Some (dentries s !! dent q).
Proof.
  intros Hs. revert m d. induction fuel as [|fuel IH]; intros m d; [done|]. cbn [enter_mounts]. unfold dentry_of.
  destruct (dentries s !! d) as [de|] eqn:Hd; simpl; [|done].
  destruct (find_mount m (d_mounts de) s) as [r| | | |] eqn:Hf; simpl; try done.
  pose proof (find_mount_spec s m _ r Hf) as Hr. destruct r as [[c root]|].
  - intros He Hm. destruct Hr as (Hc & mo & on & Hmo & Hroot & Hon & Hmm).
    destruct (IH _ _ He) as (k & Hk & Hcl & Hq & Hdq); [by exists c; eauto|].
    exists (S k). split; [lia|]. split; [|done].
    destruct (vk_covers _ Hs d de c Hd Hc) as (mo' & on' & Hmo' & Hon' & Hd').
    assert (on = mk_path m d) as <-.
    { simplify_eq. destruct on as [x y]. simpl in *. by subst. }
    eapply climbs_snoc; [exact Hcl|reflexivity|exact Hmo|by rewrite Hroot|exact Hon].
  - intros [= <-] (mo & -> & [mo' Hmo]). exists 0%nat. split; [lia|]. split; [constructor|].
    split; [by exists mo, mo'|simpl; rewrite Hd; by eexists].
Qed.

Lemma child_inner (s : vfs) p d n c :
  vfs_ok s → path_ok s p → dentries s !! d = Some n → d_parent n ≠ None → c = mk_path (mnt p) d → inner s c.
Proof.
  intros Hs (m & mo & Hm & Hmo) Hd Hpar ->. exists m, mo. split; [done|]. split; [done|]. simpl. intros ->.
  destruct (vk_mroot _ Hs m mo Hmo) as (de & Hde & Hnone). congruence.
Qed.

Lemma step_up (s : vfs) fuel p n q :
  vfs_ok s → path_ok s p → step fuel s p n q →
  ∃ c ce, resolve_mounts fuel q s = Done (mk_path (mnt p) c) ∧ c ≠ root_dentry ∧ dentries s !! c = Some ce ∧
    d_parent ce = Some (dent p) ∧ d_name ce = n ∧ path_ok s q ∧ is_Some (dentries s !! dent q).
Proof.
  intros Hs Hp (d & c & Hd & Hc & He). destruct (vk_child _ Hs _ _ _ _ Hd Hc) as (Hnr & ce & Hce & Hpar & Hn).
  destruct (enter_mounts_climbs s fuel (mnt p) c q Hs He) as (k & Hk & Hcl & Hq & Hdq).
  { destruct Hp as (m & mo & -> & Hmo). eauto. }
  exists c, ce. split; [|done]. eapply resolve_mounts_climbs; [done| |done].
  eapply child_inner; [done|exact Hp|exact Hce|congruence|done].
Qed.

Lemma resolve_mounts_mono (s : vfs) fuel fuel' p q :
  resolve_mounts fuel p s = Done q → (fuel ≤ fuel')%nat → resolve_mounts fuel' p s = Done q.
Proof.
  revert fuel' p. induction fuel as [|fuel IH]; intros [|fuel'] p Hr Hle; try done; [lia|].
  cbn [resolve_mounts] in *. destruct (mount_of (mnt p) s) as [mo| | | |]; simpl in *; try done.
  destruct (dent p =? m_root mo); [|done]. destruct (m_on mo); [|done]. apply IH; [done|lia].
Qed.

Lemma descends_cons fuel (s : vfs) p n names q :
  descends fuel s p (n :: names) q →
  ∃ x, step fuel s p n x ∧ descends fuel s x names q ∧ (names ≠ [] → is_dir s (dent x)).
Proof. destruct names as [|m names]; simpl; [by exists q|]. intros (x & ? & ? & ?). by exists x. Qed.

Lemma pathname_descends (s : vfs) fuel0 names p q fuel segs :
  vfs_ok s → path_ok s p → descends fuel0 s p names q → (fuel0 ≤ S fuel)%nat →
  pathname_loop (length names + S fuel) q segs s = pathname_loop (S fuel) p (names ++ segs) s.
Proof.
  intros Hs. revert p fuel. induction names as [|n names IH]; intros p fuel Hp Hd Hf.
  { simpl in Hd. by subst. }
  apply descends_cons in Hd as (x & Hst & Hd & _).
  destruct (step_up s fuel0 p n x Hs Hp Hst) as (c & ce & Hup & Hc & Hce & Hpar & Hn & Hx & _).
  replace (length (n :: names) + S fuel)%nat with (length names + S (S fuel))%nat by (simpl; lia).
  rewrite (IH x (S fuel) Hx Hd) by lia. cbn [pathname_loop].
  rewrite (resolve_mounts_mono s fuel0 _ _ _ Hup) by lia. cbn [mbind outcome_bind].
  simpl dent. destruct (Z.eqb_spec c root_dentry); [done|]. unfold dentry_of. rewrite Hce. simpl. rewrite Hpar. simpl.
  rewrite Hn. by destruct p.
Qed.

(** The path that [get_root] yields, when the root of the process is the initial root. *)
Definition at_root (s : vfs) (p : path) : Prop := dent p = root_dentry ∧ path_ok s p.
Lemma pathname_root (s : vfs) p fuel segs :
  vfs_ok s → at_root s p → pathname_loop (S fuel) p segs s = Done segs.
Proof.
  intros Hs (Hd & m & mo & Hm & Hmo). cbn [pathname_loop resolve_mounts]. unfold mount_of. rewrite Hm. simpl. rewrite Hmo. simpl.
  destruct (Z.eqb_spec (dent p) (m_root mo)) as [E|]; simpl; [|by rewrite Hd].
  destruct (vk_root _ Hs) as (de & Hde & Hpar). destruct (vk_mroot _ Hs _ _ Hmo) as (de' & Hde' & Hnone). congruence.
Qed.

(** *** Going down *)
Lemma find_child_found fuel (s : vfs) p n d c :
  dentries s !! dent p = Some d → d_children d !! n = Some c → find_child (S fuel) p n s = Done (Some c, s).
Proof. intros Hd Hc. cbn [find_child]. unfold dentry_of. rewrite Hd. simpl. by rewrite Hc. Qed.
Lemma find_child_missing fuel (s : vfs) p n d :
  path_ok s p → dentries s !! dent p = Some d → d_children d !! n = None → find_child (S fuel) p n s = Done (None, s).
Proof.
  intros (m & mo & Hm & Hmo) Hd Hc. cbn [find_child]. unfold dentry_of. rewrite Hd. simpl. rewrite Hc.
  unfold populate, mount_of, dentry_of. rewrite Hm. simpl. rewrite Hmo. simpl. by rewrite Hd.
Qed.

Lemma plain_neq n : plain n → bool_decide (n = EmptyString) = false ∧ bool_decide (n = "..") = false.
Proof. intros (? & ? & ? & ?). by rewrite !bool_decide_eq_false_2. Qed.

(** The first segment of several, when it is a directory and not a link. *)
Lemma walk_step fuel rs (s : vfs) p n rest x :
  plain n → rest ≠ [] → step (S fuel) s p n x → is_dir s (dent x) →
  walk (S fuel) rs (n :: rest) p s = walk (S fuel) rs rest x s.
Proof.
  intros Hn Hr (d & c & Hd & Hc & He) Hdir. destruct (plain_neq n Hn) as [E1 E2]. cbn [walk]. rewrite E1, E2.
  rewrite (find_child_found fuel s p n d c Hd Hc). cbn [mbind outcome_bind]. rewrite He. cbn [mbind outcome_bind].
  rewrite bool_decide_eq_false_2 by done. unfold is_dir in Hdir. rewrite Hdir. cbn [mbind outcome_bind].
  change (s_ifdir =? s_iflnk) with false. cbv iota. cbn [mbind outcome_bind]. rewrite Hdir. by cbn [mbind outcome_bind].
Qed.
Lemma walk_last fuel rs (s : vfs) p n q :
  plain n → step (S fuel) s p n q → walk (S fuel) rs [n] p s = Done (Value (mk_res p q), s).
Proof.
  intros Hn (d & c & Hd & Hc & He). destruct (plain_neq n Hn) as [E1 E2]. cbn [walk]. rewrite E1, E2.
  rewrite (find_child_found fuel s p n d c Hd Hc). cbn [mbind outcome_bind]. rewrite He. by cbn [mbind outcome_bind].
Qed.
Lemma walk_missing fuel rs (s : vfs) p n rest d :
  plain n → path_ok s p → dentries s !! dent p = Some d → d_children d !! n = None →
  walk (S fuel) rs (n :: rest) p s = Done (Unexpected not_found, s).
Proof.
  intros Hn Hp Hd Hc. destruct (plain_neq n Hn) as [E1 E2]. cbn [walk]. rewrite E1, E2.
  by rewrite (find_child_missing fuel s p n d Hp Hd Hc).
Qed.
Lemma walk_descends fuel rs (s : vfs) names p q :
  Forall plain names → names ≠ [] → descends (S fuel) s p names q →
  ∃ parent, walk (S fuel) rs names p s = Done (Value (mk_res parent q), s).
Proof.
  revert p. induction names as [|n names IH]; intros p Hpl Hne Hd; [done|].
  apply Forall_cons in Hpl as [Hn Hpl]. apply descends_cons in Hd as (x & Hst & Hd & Hdir).
  destruct (decide (names = [])) as [->|Hne'].
  - simpl in Hd. subst. exists p. by apply walk_last.
  - rewrite (walk_step fuel rs s p n names x) by auto. by apply IH.
Qed.

(** [resolve] on a path of one name. *)
Lemma resolve_name fuel me (s : vfs) p n :
  plain n → path_ok s p →
  resolve (S fuel) me (Some p) n s = walk (S fuel) (λ parent, resolve fuel me (Some parent)) [n] p s.
Proof.
  intros Hn (m & mo & Hm & _). destruct (normalise_name n Hn) as [En Ea]. cbn [resolve]. rewrite En, Ea. cbn [mbind outcome_bind].
  assert (is_trivial n = false) as ->.
  { destruct Hn as (? & ? & ? & Hsl). unfold is_trivial. rewrite !bool_decide_eq_false_2; [done|done|done|]. by intros ->. }
  rewrite Hm. simpl bug_on. cbn [mbind outcome_bind]. destruct Hn as (? & ? & ? & ?). by rewrite split_slash_plain.
Qed.
End tree.

(** C19: the path name that the kernel computes for a place resolves to that place, through
    any directories and mount points on the way. *)
Theorem pathname_resolves `{PathLaws} `{FrameAllocator St} (s : vfs St) me root names q fuel :
  vfs_ok s → get_root me false s = Done root → at_root s root → Forall plain names →
  descends (S fuel) s root names q →
  pathname_from (length names + S fuel) q s = Done (join_names names) ∧
  ∃ r, resolve (S fuel) me None (join_names names) s = Done (Value r, s) ∧ r_target r = q.
Proof.
  intros Hs Hroot Hat Hpl Hd. split.
  - unfold pathname_from. rewrite (pathname_descends s (S fuel) names root q fuel []) by (done || apply Hat).
    rewrite (pathname_root s root fuel) by done. cbn [mbind outcome_bind]. rewrite app_nil_r. unfold join_names.
    destruct names as [|n names]; [done|]. rewrite bool_decide_eq_false_2; [done|]. by rewrite fold_names_cons.
  - destruct (normalise_names names Hpl) as [En Ea]. cbn [resolve]. rewrite En, Hroot. cbn [mbind outcome_bind].
    destruct (decide (names = [])) as [->|Hne].
    + simpl in Hd. subst. by exists (mk_res root root).
    + rewrite join_names_nontrivial by done. destruct Hat as (_ & m & mo & Hm & Hmo).
      rewrite Hm. simpl bug_on. cbn [mbind outcome_bind]. rewrite split_slash_names by done.
      cbn [walk]. destruct (walk_descends fuel (λ parent, resolve fuel me (Some parent)) s names root q Hpl Hne Hd) as (parent & Hw).
      exists (mk_res parent q). split; [exact Hw|done].
Qed.

(** ** New entries *)
Section entries.
Context `{PathLaws} `{FrameAllocator St}.
Abbreviation vfs := (vfs St).

(** [s'] is [s] with a new dentry [d] named [n] in directory [p]. *)
Definition entry_added (s : vfs) (p : Z) (n symlink : string) (ino d : Z) (s' : vfs) : Prop :=
  ∃ de, dentries s !! p = Some de ∧ dentries s !! d = None ∧
    dentries s' = <[p := mk_dentry (d_name de) (d_symlink de) (d_inode de) (d_parent de) (<[n := d]> (d_children de)) (d_mounts de)]>
      (<[d := mk_dentry n symlink ino (Some p) ∅ []]> (dentries s)) ∧
    mounts s' = mounts s ∧ is_Some (inodes s' !! ino) ∧ ∀ i, is_Some (inodes s !! i) → is_Some (inodes s' !! i).

Lemma entry_added_ok (s : vfs) p n symlink ino d s' :
  vfs_ok s → d ≠ root_dentry → entry_added s p n symlink ino d s' → vfs_ok s'.
Proof.
  clear dependent H.
  intros Hs Hd0 (de & Hde & Hd & E & Em & Hino & Hinos).
  assert (p ≠ d) as Hpd by congruence.
  set (nd := mk_dentry n symlink ino (Some p) ∅ []) in *.
  set (pd := mk_dentry (d_name de) (d_symlink de) (d_inode de) (d_parent de) (<[n := d]> (d_children de)) (d_mounts de)) in *.
  assert (∀ x xe, dentries s' !! x = Some xe →
    (x = p ∧ xe = pd) ∨ (x = d ∧ xe = nd) ∨ (x ≠ p ∧ x ≠ d ∧ dentries s !! x = Some xe)) as Hinv.
  { intros x xe. rewrite E. intros [[<- <-]|[Hx [[<- <-]|[Hx' ?]]%lookup_insert_Some]]%lookup_insert_Some; auto 6. }
  assert (∀ x xe, dentries s !! x = Some xe →
    ∃ xe', dentries s' !! x = Some xe' ∧ d_parent xe' = d_parent xe ∧ d_name xe' = d_name xe) as Hold.
  { intros x xe Hx. rewrite E. destruct (decide (x = p)) as [->|].
    - rewrite lookup_insert_eq. simplify_eq. by exists pd.
    - rewrite lookup_insert_ne, lookup_insert_ne by congruence. by exists xe. }
  split.
  - intros x xe m c Hx Hc. apply Hinv in Hx as [[-> ->]|[[-> ->]|(Hxp & Hxd & Hx)]].
    + simpl in Hc. apply lookup_insert_Some in Hc as [[<- <-]|[Hm Hc]].
      * split; [done|]. exists nd. rewrite E, lookup_insert_ne, lookup_insert_eq by done. done.
      * destruct (vk_child _ Hs _ _ _ _ Hde Hc) as (Hc0 & ce & Hce & Hpar & Hname). split; [done|].
        destruct (Hold _ _ Hce) as (ce' & Hce' & Hp' & Hn'). exists ce'. by rewrite Hp', Hn'.
    + simpl in Hc. by rewrite lookup_empty in Hc.
    + destruct (vk_child _ Hs _ _ _ _ Hx Hc) as (Hc0 & ce & Hce & Hpar & Hname). split; [done|].
      destruct (Hold _ _ Hce) as (ce' & Hce' & Hp' & Hn'). exists ce'. by rewrite Hp', Hn'.
  - rewrite Em. intros x xe m Hx Hm. apply Hinv in Hx as [[-> ->]|[[-> ->]|(Hxp & Hxd & Hx)]].
    + by apply (vk_covers _ Hs p de).
    + set_solver.
    + by apply (vk_covers _ Hs x xe).
  - rewrite Em. intros m mo Hm. destruct (vk_mroot _ Hs m mo Hm) as (re & Hre & Hnone).
    destruct (Hold _ _ Hre) as (re' & Hre' & Hp' & _). exists re'. by rewrite Hp'.
  - destruct (vk_root _ Hs) as (re & Hre & Hpar). destruct (Hold _ _ Hre) as (re' & Hre' & Hp' & _).
    exists re'. by rewrite Hp'.
  - intros x xe Hx. apply Hinv in Hx as [[-> ->]|[[-> ->]|(Hxp & Hxd & Hx)]]; [|done|].
    + apply Hinos. by apply (vk_inode _ Hs p de).
    + apply Hinos. by apply (vk_inode _ Hs x xe).
Qed.

(** The new entry is found, the others are what they were. *)
Lemma entry_added_step (s : vfs) p n symlink ino d s' fuel P :
  dent P = p → entry_added s p n symlink ino d s' → step (S fuel) s' P n (mk_path (mnt P) d).
Proof.
  intros <- (de & Hde & Hd & E & _). assert (dent P ≠ d) as Hpd by congruence.
  eexists _, d. rewrite E, lookup_insert_eq. split; [done|]. simpl. rewrite lookup_insert_eq. split; [done|].
  cbn [enter_mounts]. unfold dentry_of. rewrite E, lookup_insert_ne, lookup_insert_eq by done. done.
Qed.

Lemma add_dentry_spec (s : vfs) p n symlink ino :
  is_Some (dentries s !! p) → is_Some (inodes s !! ino) →
  ∃ d s', add_dentry p n symlink ino s = Done (d, s') ∧ entry_added s p n symlink ino d s' ∧
    inodes s' = inodes s ∧ mem s' = mem s.
Proof.
  intros [de Hde] Hino. unfold add_dentry, dentry_of. rewrite Hde. simpl. eexists _, _. split; [done|].
  assert (dentries s !! fresh (dom (dentries s)) = None) by (apply not_elem_of_dom, is_fresh).
  split; [|done]. exists de. by split_and!.
Qed.

(** The directory of a new name is the given one. *)
Lemma new_place_name fuel me (s : vfs) P n d :
  plain n → path_ok s P → dentries s !! dent P = Some d → d_children d !! n = None →
  new_place (S fuel) me (Some P) n s = Done (Value P, s).
Proof.
  intros Hn HP Hd Hc. unfold new_place. rewrite resolve_name by done.
  rewrite (walk_missing fuel _ s P n [] d) by done. cbn [mbind outcome_bind].
  rewrite (proj2 (split_name n Hn)). cbn [resolve].
  destruct normalise_nil as [Ht Ha].
  by rewrite normalise_idem, Ht, Ha.
Qed.

(** A fresh inode of a tmpfs instance. *)
Definition fresh_inode (me : caller) (s : vfs) (fs mode : Z) (op : option fops) (n : inode) : Prop :=
  i_op n = Some (default TmpfsOps op) ∧ st_mode (i_stat n) = mode ∧ st_nlink (i_stat n) = 1 ∧ st_size (i_stat n) = 0 ∧
  st_uid (i_stat n) = c_euid me ∧ st_gid (i_stat n) = c_egid me ∧
  (∃ inst, instances s !! fs = Some inst ∧ st_dev (i_stat n) = dev_id inst ∧ st_ino (i_stat n) = next_inode inst) ∧
  ∃ o, i_mem n = Some o ∧ objects (mem s) !! o = None.
Lemma fs_create_spec me fs mode op (s : vfs) :
  is_Some (instances s !! fs) →
  ∃ i n s', fs_create me fs mode op s = Done (Value i, s') ∧ dentries s' = dentries s ∧ mounts s' = mounts s ∧
    inodes s !! i = None ∧ inodes s' = <[i := n]> (inodes s) ∧ fresh_inode me s fs mode op n.
Proof.
  intros [inst Hinst]. unfold fs_create, take_ino. rewrite Hinst. simpl. eexists _, _, _. split; [done|].
  split_and!; try done; simpl.
  - apply not_elem_of_dom, is_fresh.
  - split_and!; try done; [by exists inst|]. eexists. split; [done|]. apply not_elem_of_dom, is_fresh.
Qed.

(** [finish] puts an existing inode under a name. *)
Lemma finish_spec (s : vfs) P n symlink ino :
  vfs_ok s → is_Some (dentries s !! dent P) → is_Some (inodes s !! ino) →
  ∃ d s', finish P n symlink (Value ino) s = Done (Value (mk_path (mnt P) d), s') ∧
    vfs_ok s' ∧ entry_added s (dent P) n symlink ino d s' ∧ inodes s' = inodes s.
Proof.
  intros Hs HP Hino. unfold finish.
  destruct (add_dentry_spec s (dent P) n symlink ino HP Hino) as (d & s' & -> & Hadd & Ei & _). simpl.
  exists d, s'. split; [done|]. split; [|done]. eapply entry_added_ok; [done| |done].
  destruct Hadd as (_ & _ & Hd & _). destruct (vk_root _ Hs) as (re & Hre & _). congruence.
Qed.

Lemma vfs_ok_inodes (s s' : vfs) :
  vfs_ok s → dentries s' = dentries s → mounts s' = mounts s → (∀ i, is_Some (inodes s !! i) → is_Some (inodes s' !! i)) →
  vfs_ok s'.
Proof.
  intros [H1' H2' H3' H4' H5'] Ed Em Hi. split; rewrite ?Ed, ?Em; try done.
  - intros d de Hd. apply Hi. by apply (H5' d de).
Qed.

(** What a new entry changes of the directory tree. *)
Lemma entry_added_frame (s : vfs) p n symlink ino d s' x xe :
  entry_added s p n symlink ino d s' → dentries s !! x = Some xe → x ≠ p → dentries s' !! x = Some xe.
Proof.
  intros (de & Hde & Hd & E & _) Hx Hne. rewrite E, lookup_insert_ne, lookup_insert_ne by congruence. done.
Qed.

Lemma resolve_found fuel me (s : vfs) P n q :
  plain n → path_ok s P → step (S fuel) s P n q → resolve (S fuel) me (Some P) n s = Done (Value (mk_res P q), s).
Proof. intros Hn HP Hst. rewrite resolve_name by done. by apply walk_last. Qed.
Lemma resolve_missing fuel me (s : vfs) P n d :
  plain n → path_ok s P → dentries s !! dent P = Some d → d_children d !! n = None →
  resolve (S fuel) me (Some P) n s = Done (Unexpected not_found, s).
Proof. intros Hn HP Hd Hc. rewrite resolve_name by done. by eapply walk_missing. Qed.
End entries.

(** Looking up an entry depends on the dentries and mounts only. *)
Lemma find_mount_ext `{PathOps} `{FrameAllocator St} (s s' : vfs St) m l :
  mounts s = mounts s' → find_mount m l s = find_mount m l s'.
Proof. intros E. induction l as [|c l IH]; [done|]. simpl. by rewrite E, IH. Qed.
Lemma enter_mounts_ext `{PathOps} `{FrameAllocator St} (s s' : vfs St) fuel m d :
  dentries s = dentries s' → mounts s = mounts s' → enter_mounts fuel m d s = enter_mounts fuel m d s'.
Proof.
  intros Ed Em. revert m d. induction fuel as [|fuel IH]; intros m d; [done|]. cbn [enter_mounts]. unfold dentry_of.
  rewrite Ed. destruct (dentries s' !! d) as [de|]; [|done]. cbn [deref mbind outcome_bind].
  rewrite (find_mount_ext s s') by done. destruct (find_mount m (d_mounts de) s') as [[[c root]|]| | | |]; try done.
  cbn [mbind outcome_bind]. apply IH.
Qed.
Lemma step_ext `{PathOps} `{FrameAllocator St} (s s' : vfs St) fuel P n q :
  dentries s = dentries s' → mounts s = mounts s' → step fuel s P n q → step fuel s' P n q.
Proof.
  intros Ed Em (d & c & Hd & Hc & He). exists d, c. rewrite <-Ed. split; [done|]. split; [done|].
  by rewrite <-(enter_mounts_ext s s').
Qed.

(** Creating a file under a free name. *)
Lemma create_new `{PathLaws} `{FrameAllocator St} (s : vfs St) me fuel P n mode m mo de :
  vfs_ok s → plain n → mnt P = Some m → mounts s !! m = Some mo → is_Some (instances s !! m_fs mo) →
  dentries s !! dent P = Some de → d_children de !! n = None →
  ∃ q i node s', create (S fuel) me (Some P) n mode 0 s = Done (Value q, s') ∧ vfs_ok s' ∧
    resolve (S fuel) me (Some P) n s' = Done (Value (mk_res P q), s') ∧
    inodes s !! i = None ∧ inode_of (dent q) s' = Done node ∧ inodes s' = <[i := node]> (inodes s) ∧
    fresh_inode me s (m_fs mo) mode None node ∧
    (∀ x xe, dentries s !! x = Some xe → x ≠ dent P → dentries s' !! x = Some xe) ∧
    (∀ n', n' ≠ n → d_children (default de (dentries s' !! dent P)) !! n' = d_children de !! n') ∧
    (∃ de', dentries s' !! dent P = Some de' ∧ d_inode de' = d_inode de) ∧ mounts s' = mounts s ∧
    step (S fuel) s' P n q.
Proof.
  intros Hs Hn Hm Hmo Hinst Hde Hc. assert (path_ok s P) as HP by by exists m, mo.
  unfold create. rewrite (proj1 (normalise_name n Hn)). cbn [Z.eqb].
  rewrite (new_place_name fuel me s P n de) by done. cbn [mbind outcome_bind]. unfold mount_of. rewrite Hm.
  cbn [deref mbind outcome_bind]. rewrite Hmo. cbn [deref mbind outcome_bind]. unfold dentry_of at 1. rewrite Hde.
  cbn [deref mbind outcome_bind].
  destruct (fs_create_spec me (m_fs mo) mode None s Hinst) as (i & node & s1 & -> & Ed & Em & Hi & Ei & Hnode).
  cbn [mbind outcome_bind]. rewrite (proj1 (split_name n Hn)), (proj1 (normalise_name n Hn)).
  assert (vfs_ok s1) as Hs1.
  { apply (vfs_ok_inodes s); [done..|]. intros j Hj. rewrite Ei. apply lookup_insert_is_Some'. by right. }
  destruct (finish_spec s1 P n EmptyString i Hs1) as (d & s' & -> & Hs' & Hadd & Ei').
  { rewrite Ed. by eexists. }
  { rewrite Ei, lookup_insert_eq. by eexists. }
  pose proof Hadd as (de' & Hde' & Hd & E & Em' & _). rewrite Ed in Hde', Hd. simplify_eq.
  exists (mk_path (mnt P) d), i, node, s'. split; [done|]. split; [done|]. split_and!.
  - apply resolve_found; [done|exists m, mo; by rewrite Em', Em|]. by eapply entry_added_step.
  - done.
  - unfold inode_of, dentry_of. simpl. rewrite E, lookup_insert_ne by congruence. rewrite lookup_insert_eq. simpl.
    by rewrite Ei', Ei, lookup_insert_eq.
  - by rewrite Ei', Ei.
  - done.
  - intros x xe Hx Hne. eapply entry_added_frame; [done|by rewrite Ed|done].
  - intros n' Hn'. rewrite E, lookup_insert_eq. simpl. by rewrite lookup_insert_ne.
  - rewrite E, lookup_insert_eq. by eexists.
  - by rewrite Em', Em.
  - by eapply entry_added_step.
Qed.

(** C38: [create] makes an entry that resolves to a fresh inode of the file system of the
    directory, keeps the tree well formed and touches no other directory; a name that
    exists already is refused. *)
Theorem create_correct `{PathLaws} `{FrameAllocator St} (s : vfs St) me fuel P n mode m mo de :
  vfs_ok s → plain n → mnt P = Some m → mounts s !! m = Some mo → is_Some (instances s !! m_fs mo) →
  dentries s !! dent P = Some de →
  match d_children de !! n with
  | Some _ => ∀ q, step (S fuel) s P n q → create (S fuel) me (Some P) n mode 0 s = Done (Unexpected already_exists, s)
  | None => ∃ q i node s', create (S fuel) me (Some P) n mode 0 s = Done (Value q, s') ∧ vfs_ok s' ∧
      resolve (S fuel) me (Some P) n s' = Done (Value (mk_res P q), s') ∧
      inodes s !! i = None ∧ inode_of (dent q) s' = Done node ∧ inodes s' = <[i := node]> (inodes s) ∧
      fresh_inode me s (m_fs mo) mode None node ∧
      (∀ x xe, dentries s !! x = Some xe → x ≠ dent P → dentries s' !! x = Some xe) ∧
      (∀ n', n' ≠ n → d_children (default de (dentries s' !! dent P)) !! n' = d_children de !! n')
  end.
Proof.
  intros Hs Hn Hm Hmo Hinst Hde. assert (path_ok s P) as HP by by exists m, mo.
  destruct (d_children de !! n) as [c|] eqn:Hc.
  - intros q Hq. unfold create. rewrite (proj1 (normalise_name n Hn)). cbn [Z.eqb]. unfold new_place.
    by rewrite (resolve_found fuel me s P n q).
  - destruct (create_new s me fuel P n mode m mo de) as (q & i & node & s' & Hcr); try done.
    exists q, i, node, s'. naive_solver.
Qed.

(** Removing an entry keeps the tree well formed. *)
Lemma entry_removed_ok `{PathOps} `{FrameAllocator St} (s s' : vfs St) p de n :
  vfs_ok s → dentries s !! p = Some de → mounts s' = mounts s →
  dentries s' = <[p := mk_dentry (d_name de) (d_symlink de) (d_inode de) (d_parent de) (delete n (d_children de)) (d_mounts de)]> (dentries s) →
  (∀ i, is_Some (inodes s !! i) → is_Some (inodes s' !! i)) → vfs_ok s'.
Proof.
  intros Hs Hde Em E Hi. set (pd := mk_dentry _ _ _ _ (delete n _) _) in E.
  assert (∀ x xe, dentries s' !! x = Some xe → ∃ xe', dentries s !! x = Some xe' ∧ d_parent xe = d_parent xe' ∧
    d_mounts xe = d_mounts xe' ∧ d_inode xe = d_inode xe' ∧ ∀ m c, d_children xe !! m = Some c → d_children xe' !! m = Some c) as Hinv.
  { intros x xe. rewrite E. intros [[<- <-]|[Hx Hxe]]%lookup_insert_Some; [|by exists xe].
    exists de. split_and!; try done. simpl. intros m c [_ Hc]%lookup_delete_Some. done. }
  assert (∀ x xe, dentries s !! x = Some xe →
    ∃ xe', dentries s' !! x = Some xe' ∧ d_parent xe' = d_parent xe ∧ d_name xe' = d_name xe) as Hold.
  { intros x xe Hx. rewrite E. destruct (decide (x = p)) as [->|].
    - rewrite lookup_insert_eq. simplify_eq. by exists pd.
    - rewrite lookup_insert_ne by done. by exists xe. }
  split.
  - intros x xe m c Hx Hc. destruct (Hinv _ _ Hx) as (xe' & Hx' & _ & _ & _ & Hch).
    destruct (vk_child _ Hs _ _ _ _ Hx' (Hch _ _ Hc)) as (Hc0 & ce & Hce & Hpar & Hname). split; [done|].
    destruct (Hold _ _ Hce) as (ce' & Hce' & Hp' & Hn'). exists ce'. by rewrite Hp', Hn'.
  - rewrite Em. intros x xe m Hx Hm. destruct (Hinv _ _ Hx) as (xe' & Hx' & _ & Hmm & _).
    apply (vk_covers _ Hs x xe' m Hx'). by rewrite <-Hmm.
  - rewrite Em. intros m mo Hm. destruct (vk_mroot _ Hs m mo Hm) as (re & Hre & Hnone).
    destruct (Hold _ _ Hre) as (re' & Hre' & Hp' & _). exists re'. by rewrite Hp'.
  - destruct (vk_root _ Hs) as (re & Hre & Hpar). destruct (Hold _ _ Hre) as (re' & Hre' & Hp' & _).
    exists re'. by rewrite Hp'.
  - intros x xe Hx. destruct (Hinv _ _ Hx) as (xe' & Hx' & _ & _ & Hin & _). rewrite Hin. apply Hi. by apply (vk_inode _ Hs x xe').
Qed.

(** Why an entry may not be removed. *)
Definition unlink_refused (q : path) (mo : mount) (dq : dentry) (node : inode) : option error :=
  if st_type (i_stat node) =? s_ifdir then
    if dent q =? m_root mo then Some target_is_busy
    else if bool_decide (d_children dq = ∅) then None else Some dir_not_empty
  else None.

Lemma remove_entry_spec `{PathLaws} `{FrameAllocator St} (s : vfs St) me fuel P n q de c moq dq node :
  vfs_ok s → plain n → path_ok s P → dentries s !! dent P = Some de → d_children de !! n = Some c →
  mount_of (mnt q) s = Done moq → dentries s !! dent q = Some dq → inodes s !! d_inode dq = Some node →
  ∃ node' s', remove_entry q (dent P) n s = Done (Value (), s') ∧ vfs_ok s' ∧
    resolve (S fuel) me (Some P) n s' = Done (Unexpected not_found, s') ∧
    inodes s' = <[d_inode dq := node']> (inodes s) ∧
    node' = mk_inode (i_op node) (set_nlink (w64 (st_nlink (i_stat node) - 1)) (i_stat node)) (i_mem node) ∧
    (∀ x, x ≠ dent P → dentries s' !! x = dentries s !! x) ∧
    (∀ n', n' ≠ n → d_children (default de (dentries s' !! dent P)) !! n' = d_children de !! n').
Proof.
  intros Hs Hn HP Hde Hc Hmount Hdq Hnode. unfold remove_entry, dentry_of. rewrite Hmount, Hdq.
  cbn [deref mbind outcome_bind]. unfold fs_unlink. rewrite Hnode. cbn [deref mbind outcome_bind].
  cbn [dentries put_inode]. rewrite Hde. cbn [deref mbind outcome_bind]. rewrite Hc. cbn [bug_on bool_decide].
  eexists _, _. split; [done|]. set (s' := put_dentry _ _ _).
  assert (dentries s' !! dent P = Some (mk_dentry (d_name de) (d_symlink de) (d_inode de) (d_parent de) (delete n (d_children de)) (d_mounts de)))
    as Hde' by apply lookup_insert_eq.
  split; [|split; [|split; [done|split; [done|split]]]].
  - apply (entry_removed_ok s s' (dent P) de n); try done. intros i Hi. simpl. apply lookup_insert_is_Some'. by right.
  - eapply resolve_missing; [done| |exact Hde'|simpl; by rewrite lookup_delete_eq].
    destruct HP as (m & mo & ? & ?). by exists m, mo.
  - intros x Hx. simpl. by rewrite lookup_insert_ne.
  - intros n' Hn'. rewrite Hde'. simpl. by rewrite lookup_delete_ne.
Qed.

(** C39: [unlink] refuses roots of mounts and directories with entries; otherwise it removes
    exactly the named entry, takes one from the link count of its inode and keeps the tree
    well formed. *)
Theorem unlink_correct `{PathLaws} `{FrameAllocator St} (s : vfs St) me fuel P n q de mq moq dq node :
  vfs_ok s → plain n → path_ok s P → dentries s !! dent P = Some de → step (S fuel) s P n q →
  mnt q = Some mq → mounts s !! mq = Some moq → dentries s !! dent q = Some dq → inodes s !! d_inode dq = Some node →
  match unlink_refused q moq dq node with
  | Some e => unlink (S fuel) me (Some P) n s = Done (Unexpected e, s)
  | None => ∃ node' s', unlink (S fuel) me (Some P) n s = Done (Value (), s') ∧ vfs_ok s' ∧
      resolve (S fuel) me (Some P) n s' = Done (Unexpected not_found, s') ∧
      inodes s' = <[d_inode dq := node']> (inodes s) ∧
      node' = mk_inode (i_op node) (set_nlink (w64 (st_nlink (i_stat node) - 1)) (i_stat node)) (i_mem node) ∧
      (∀ x, x ≠ dent P → dentries s' !! x = dentries s !! x) ∧
      (∀ n', n' ≠ n → d_children (default de (dentries s' !! dent P)) !! n' = d_children de !! n')
  end.
Proof.
  intros Hs Hn HP Hde Hst Hmq Hmoq Hdq Hnode.
  assert (type_of (dent q) s = Done (st_type (i_stat node))) as Htype
    by (unfold type_of, inode_of, dentry_of; rewrite Hdq; simpl; by rewrite Hnode).
  assert (mount_of (mnt q) s = Done moq) as Hmount by (unfold mount_of; rewrite Hmq; simpl; by rewrite Hmoq).
  assert (dentry_of (dent q) s = Done dq) as Hdentry by (unfold dentry_of; by rewrite Hdq).
  assert (∃ c, d_children de !! n = Some c) as [c Hc] by (destruct Hst as (d & c & Hd & Hc & _); simplify_eq; by exists c).
  unfold unlink. rewrite (proj1 (normalise_name n Hn)), (resolve_found fuel me s P n q) by done.
  cbn [mbind outcome_bind r_target r_parent]. rewrite Htype, Hmount, Hdentry. unfold unlink_refused. cbn [mbind outcome_bind].
  destruct (remove_entry_spec s me fuel P n q de c moq dq node) as (node' & s' & Hok); try done.
  rewrite (proj1 (split_name n Hn)), (proj1 (normalise_name n Hn)).
  destruct (st_type (i_stat node) =? s_ifdir); simpl negb; cbv iota; cbn [mbind outcome_bind]; [|by exists node', s'].
  destruct (dent q =? m_root moq); cbn [mbind outcome_bind]; [done|].
  case_bool_decide as Hemp; simpl negb; cbv iota; cbn [mbind outcome_bind]; [|done].
  unfold populate. rewrite Hmount, Hdentry. cbn [mbind outcome_bind fs_populate]. rewrite Hdentry. cbn [mbind outcome_bind].
  rewrite bool_decide_eq_true_2 by done. simpl negb. cbv iota. cbn [mbind outcome_bind]. by exists node', s'.
Qed.

(** ** Symbolic links *)
Section links.
Context `{PathLaws} `{FrameAllocator St}.
Abbreviation vfs := (vfs St).

(** [l] in directory [P] is a link to [target], not covered by a mount. *)
Definition link_in (s : vfs) (P : path) (l target : string) (c : Z) : Prop :=
  ∃ de ce i, dentries s !! dent P = Some de ∧ d_children de !! l = Some c ∧ dentries s !! c = Some ce ∧
    d_mounts ce = [] ∧ d_symlink ce = target ∧ inodes s !! d_inode ce = Some i ∧ st_type (i_stat i) = s_iflnk.
Lemma link_step (s : vfs) P l target c fuel :
  link_in s P l target c → step (S fuel) s P l (mk_path (mnt P) c) ∧ type_of c s = Done s_iflnk ∧
    (target ≠ EmptyString → is_symlink c s = Done true).
Proof.
  intros (de & ce & i & Hde & Hc & Hce & Hm & Hsym & Hi & Ht). split; [|split].
  - exists de, c. split; [done|]. split; [done|]. cbn [enter_mounts]. unfold dentry_of. rewrite Hce. simpl. by rewrite Hm.
  - unfold type_of, inode_of, dentry_of. rewrite Hce. simpl. rewrite Hi. simpl. by rewrite Ht.
  - intros Hne. unfold is_symlink, type_of, inode_of, dentry_of. rewrite Hce. simpl. rewrite Hi. simpl.
    rewrite Ht, Hsym. by rewrite bool_decide_eq_false_2.
Qed.

(** A path of two names. *)
Lemma resolve_pair fuel me (s : vfs) p a b :
  plain a → plain b → path_ok s p →
  resolve (S fuel) me (Some p) (a +:+ "/" +:+ b) s = walk (S fuel) (λ parent, resolve fuel me (Some parent)) [a; b] p s.
Proof.
  intros Ha Hb (m & mo & Hm & _). destruct (normalise_pair a b Ha Hb) as [En Ea].
  change (String "/" b) with ("/" +:+ b) in *.
  cbn [resolve]. change ("/" +:+ b) with (String "/" b) in *. rewrite En, Ea. cbn [mbind outcome_bind].
  assert (split_slash (a +:+ String "/" b) = [a; b]) as Hsplit.
  { change (String "/" b) with ("/" +:+ b). rewrite split_slash_app by apply Ha. by rewrite split_slash_plain by apply Hb. }
  assert (is_trivial (a +:+ String "/" b) = false) as ->.
  { destruct Ha as (Ha & _), Hb as (Hb & _). unfold is_trivial.
    rewrite !bool_decide_eq_false_2; [done|..]; intros E; rewrite E in Hsplit; simpl in Hsplit; [done..|].
    by injection Hsplit as <-. }
  rewrite Hm. simpl bug_on. cbn [mbind outcome_bind]. by rewrite Hsplit.
Qed.

(** The first of two names is a link: the path is reduced before the second is looked up. *)
Lemma walk_link fuel rs (s : vfs) P l target c b :
  plain l → link_in s P l target c →
  walk (S fuel) rs [l; b] P s =
    ('(r, s) ← reduce_with rs symloop_max P (mk_path (mnt P) c) s;
     match r with
     | Unexpected e => Done (Unexpected e, s)
     | Value next =>
         t ← type_of (dent next) s;
         if negb (t =? s_ifdir) then Done (Unexpected not_a_dir, s) else walk (S fuel) rs [b] next s
     end).
Proof.
  intros Hl Hlink. destruct (link_step s P l target c fuel Hlink) as ((d & c' & Hd & Hc & He) & Ht & _).
  assert (c' = c) as ->.
  { destruct Hlink as (de & ce & i & Hde & Hc' & _). congruence. }
  destruct (plain_neq l Hl) as [E1 E2]. cbn [walk]. rewrite E1, E2.
  rewrite (find_child_found fuel s P l d c Hd Hc). cbn [mbind outcome_bind]. rewrite He. cbn [mbind outcome_bind dent].
  change (bool_decide ([b] = [])) with false. cbv iota. rewrite Ht. cbn [mbind outcome_bind].
  change (s_iflnk =? s_iflnk) with true. cbv iota. done.
Qed.
End links.

(** The first step of the reduction of a link. *)
Lemma reduce_link `{PathOps} `{FrameAllocator St} rs (s : vfs St) P l target c :
  link_in s P l target c → target ≠ EmptyString →
  reduce_with rs symloop_max P (mk_path (mnt P) c) s =
    ('(ret, s) ← rs P target s;
     match ret with
     | Unexpected _ => Done (Unexpected invalid_symlink, s)
     | Value ret =>
         if dent (r_target ret) =? c then Done (Unexpected invalid_symlink, s)
         else reduce_loop rs 39 (r_parent ret) (r_target ret) s
     end).
Proof.
  intros Hlink Hne. destruct (link_step s P l target c O Hlink) as (_ & _ & Hsym).
  destruct Hlink as (de & ce & i & _ & _ & Hce & _ & Etgt & _).
  assert (dentry_of c s = Done ce) as Hd by (unfold dentry_of; by rewrite Hce).
  transitivity (b ← is_symlink c s;
    if negb b then Done (Value (mk_path (mnt P) c), s) else
    de ← dentry_of c s;
    '(ret, s) ← rs P (d_symlink de) s;
    match ret with
    | Unexpected _ => Done (Unexpected invalid_symlink, s)
    | Value ret =>
        if dent (r_target ret) =? c then Done (Unexpected invalid_symlink, s)
        else reduce_loop rs 39 (r_parent ret) (r_target ret) s
    end); [done|].
  rewrite Hsym by done. cbn [mbind outcome_bind negb]. rewrite Hd. cbn [mbind outcome_bind]. by rewrite Etgt.
Qed.

(** A link [a] whose target starts with [a/] makes the resolution of any path through it
    recurse for ever: there is no fuel with which it ends, and the limit on the number of
    links does not apply. *)
Theorem resolve_recursive_link `{PathLaws} `{FrameAllocator St} (s : vfs St) me P a y x c fuel :
  path_ok s P → plain a → plain y → plain x → link_in s P a (a +:+ "/" +:+ y) c →
  resolve fuel me (Some P) (a +:+ "/" +:+ x) s = NoFuel.
Proof.
  intros HP Ha Hy Hx Hlink. revert x Hx. induction fuel as [|fuel IH]; intros x Hx; [done|].
  rewrite resolve_pair by done. rewrite (walk_link fuel _ s P a _ c x) by done.
  by rewrite (reduce_link _ s P a _ c Hlink), (IH y Hy) by (by destruct a).
Qed.

(** [l] in [P] is a link to the directory [t] next to it, which has no entry [x]. *)
Definition linked_dir `{PathOps} `{FrameAllocator St} (s : vfs St) (P : path) (l t x : string) (c d : Z) : Prop :=
  link_in s P l t c ∧ path_ok s P ∧ c ≠ d ∧
  ∃ de te i, dentries s !! dent P = Some de ∧ d_children de !! t = Some d ∧ dentries s !! d = Some te ∧
    d_mounts te = [] ∧ d_children te !! x = None ∧ inodes s !! d_inode te = Some i ∧ st_type (i_stat i) = s_ifdir.

(** An absent entry of the directory is absent through the link. *)
Lemma linked_missing `{PathLaws} `{FrameAllocator St} (s : vfs St) me fuel P l t x c d :
  plain l → plain t → plain x → linked_dir s P l t x c d →
  resolve (S (S fuel)) me (Some P) (l +:+ "/" +:+ x) s = Done (Unexpected not_found, s).
Proof.
  intros Hl Ht Hx (Hlink & HP & Hne & de & te & i & Hde & Hd & Hte & Hm & Hno & Hi & Hty).
  assert (type_of d s = Done s_ifdir) as Htype.
  { unfold type_of, inode_of, dentry_of. rewrite Hte. simpl. rewrite Hi. simpl. by rewrite Hty. }
  rewrite resolve_pair, (walk_link _ _ s P l t c x) by done.
  rewrite (reduce_link _ s P l t c) by (done || apply Ht).
  rewrite (resolve_found fuel me s P t (mk_path (mnt P) d)); [|done|done|].
  - cbn [mbind outcome_bind r_target r_parent dent]. destruct (Z.eqb_spec d c); [done|]. cbn [reduce_loop dent].
    unfold is_symlink. rewrite Htype. unfold dentry_of. rewrite Hte. cbn [deref mbind outcome_bind].
    change (s_ifdir =? s_iflnk) with false. cbn [negb andb]. cbn [mbind outcome_bind dent]. rewrite Htype.
    cbn [mbind outcome_bind]. change (negb (s_ifdir =? s_ifdir)) with false. cbv iota.
    by rewrite (walk_missing _ _ s (mk_path (mnt P) d) x [] te).
  - exists de, d. split; [done|]. split; [done|]. cbn [enter_mounts]. unfold dentry_of. rewrite Hte. simpl. by rewrite Hm.
Qed.

(** Creating a file through a link to a directory succeeds and puts the entry into the
    dentry of the link itself, where no path finds it; the directory stays without it. *)
Theorem create_through_link `{PathLaws} `{FrameAllocator St} (s : vfs St) me fuel P l t x c d mode m mo ce :
  vfs_ok s → plain l → plain t → plain x → linked_dir s P l t x c d →
  mnt P = Some m → mounts s !! m = Some mo → is_Some (instances s !! m_fs mo) →
  dentries s !! c = Some ce → d_children ce !! x = None → dent P ≠ c →
  ∃ q s', create (S (S fuel)) me (Some P) (l +:+ "/" +:+ x) mode 0 s = Done (Value q, s') ∧
    resolve (S (S fuel)) me (Some P) (l +:+ "/" +:+ x) s' = Done (Unexpected not_found, s').
Proof.
  intros Hs Hl Ht Hx Hlinked Hm Hmo Hinst Hce Hno HPc. destruct (split_pair l x Hl Hx) as [Hbase Hdir].
  pose proof (linked_missing s me fuel P l t x c d Hl Ht Hx Hlinked) as Hmissing.
  destruct Hlinked as (Hlink & HP & Hne & de & te & i & Hde & Hd & Hte & Hmt & Hnox & Hi & Hty).
  destruct (link_step s P l t c (S fuel) Hlink) as (Hst & _ & _).
  unfold create. rewrite (proj1 (normalise_pair l x Hl Hx)). cbn [Z.eqb]. unfold new_place. rewrite Hmissing.
  cbn [mbind outcome_bind]. rewrite Hdir, (resolve_found (S fuel) me s P l (mk_path (mnt P) c)) by done.
  cbn [mbind outcome_bind r_target mnt dent]. unfold mount_of. rewrite Hm. cbn [deref mbind outcome_bind]. rewrite Hmo.
  cbn [deref mbind outcome_bind]. unfold dentry_of at 1. rewrite Hce. cbn [deref mbind outcome_bind].
  destruct (fs_create_spec me (m_fs mo) mode None s Hinst) as (i' & node & s1 & -> & Ed & Em & Hi' & Ei & Hnode).
  cbn [mbind outcome_bind]. rewrite Hbase, (proj1 (normalise_name x Hx)).
  assert (vfs_ok s1) as Hs1.
  { apply (vfs_ok_inodes s); [done..|]. intros j Hj. rewrite Ei. apply lookup_insert_is_Some'. by right. }
  destruct (finish_spec s1 (mk_path (Some m) c) x EmptyString i' Hs1) as (e & s' & -> & Hs' & Hadd & Ei').
  { simpl. rewrite Ed, Hce. by eexists. }
  { rewrite Ei, lookup_insert_eq. by eexists. }
  eexists _, s'. split; [done|]. apply (linked_missing s' me fuel P l t x c d); try done.
  assert (∀ j n, inodes s !! j = Some n → inodes s' !! j = Some n) as Hinodes.
  { intros j n Hj. rewrite Ei', Ei, lookup_insert_ne by congruence. done. }
  assert (∀ y ye, dentries s !! y = Some ye → y ≠ c → dentries s' !! y = Some ye) as Hframe.
  { intros y ye Hy Hyc. eapply entry_added_frame; [exact Hadd|by rewrite Ed|done]. }
  pose proof Hadd as (ce' & Hce' & _ & E & Em' & _). simpl in Hce', E. rewrite Ed in Hce'. simplify_eq.
  split; [|split; [by exists m, mo; rewrite Em', Em|split; [done|]]].
  - destruct Hlink as (de2 & ce2 & i2 & Hde2 & Hc2 & Hce2 & Hm2 & Hsym2 & Hi2 & Hty2). simplify_eq.
    eexists _, _, _. split; [by apply Hframe|]. split; [done|]. split; [by rewrite E, lookup_insert_eq|]. simpl. eauto 6.
  - exists de, te, i. split_and!; try done; [by apply Hframe|by apply Hframe|by apply Hinodes].
Qed.

(** [link] with [follow_links] does not follow: the new name gets the inode of the
    symbolic link, although the link has been resolved. *)
Theorem link_follow_ignored `{PathLaws} `{FrameAllocator St} (s : vfs St) me fuel P n l t x c d m mo de ce i :
  vfs_ok s → plain n → plain l → plain t → linked_dir s P l t x c d →
  mnt P = Some m → mounts s !! m = Some mo → dentries s !! dent P = Some de → d_children de !! n = None →
  dentries s !! c = Some ce → inodes s !! d_inode ce = Some i →
  ∃ q s' qe, link (S (S fuel)) me (Some P) n (Some P) l true s = Done (Value q, s') ∧
    dentries s' !! dent q = Some qe ∧ d_inode qe = d_inode ce ∧ st_type (i_stat i) = s_iflnk.
Proof.
  intros Hs Hn Hl Ht (Hlink & HP & Hne & de' & te & i' & Hde' & Hd & Hte & Hmt & Hnox & Hi' & Hty) Hm Hmo Hde Hno Hce Hi.
  assert (de' = de) as -> by congruence. destruct (link_step s P l t c (S fuel) Hlink) as (Hst & Htype & _).
  assert (type_of d s = Done s_ifdir) as Htd.
  { unfold type_of, inode_of, dentry_of. rewrite Hte. simpl. rewrite Hi'. simpl. by rewrite Hty. }
  unfold link. rewrite (proj1 (normalise_name n Hn)), (proj1 (normalise_name l Hl)).
  rewrite (new_place_name (S fuel) me s P n de) by done. cbn [mbind outcome_bind].
  rewrite (proj1 (split_name n Hn)), (proj1 (normalise_name n Hn)).
  rewrite (resolve_found (S fuel) me s P l (mk_path (mnt P) c)) by done.
  cbn [mbind outcome_bind r_target r_parent dent]. rewrite Htype. cbn [mbind outcome_bind].
  change (true && (s_iflnk =? s_iflnk)) with true. cbv iota. unfold reduce.
  rewrite (reduce_link _ s P l t c) by (done || apply Ht).
  rewrite (resolve_found (S fuel) me s P t (mk_path (mnt P) d)); [|done|done|].
  2: { exists de, d. split; [done|]. split; [done|]. cbn [enter_mounts]. unfold dentry_of. rewrite Hte. simpl. by rewrite Hmt. }
  cbn [mbind outcome_bind r_target r_parent dent]. destruct (Z.eqb_spec d c); [done|]. cbn [reduce_loop dent].
  unfold is_symlink. rewrite Htd. rewrite (dentry_of_eq s d te Hte). cbn [mbind outcome_bind].
  change (s_ifdir =? s_iflnk) with false. cbn [negb andb]. cbn [mbind outcome_bind]. rewrite Htype. cbn [mbind outcome_bind].
  change (s_iflnk =? s_ifdir) with false. cbv iota. cbn [mnt]. rewrite bool_decide_eq_true_2 by done. simpl negb. cbv iota.
  unfold mount_of. rewrite Hm. cbn [deref mbind outcome_bind]. rewrite Hmo. cbn [deref mbind outcome_bind].
  rewrite (dentry_of_eq s c ce Hce). cbn [mbind outcome_bind]. unfold fs_link. rewrite Hi. cbn [deref mbind outcome_bind].
  set (s1 := put_inode _ _ s). destruct (finish_spec s1 P n EmptyString (d_inode ce)) as (e & s' & -> & _ & Hadd & _).
  { apply (vfs_ok_inodes s); [done..|]. intros j Hj. simpl. apply lookup_insert_is_Some'. by right. }
  { simpl. rewrite Hde. by eexists. }
  { simpl. rewrite lookup_insert_eq. by eexists. }
  destruct Hadd as (de2 & Hde2 & He & E & _). simpl in *. simplify_eq.
  eexists _, s', _. split; [done|]. cbn [dent]. rewrite E, lookup_insert_ne, lookup_insert_eq by congruence.
  split; [done|]. split; [done|]. destruct Hlink as (? & ce2 & i2 & _ & _ & Hce2 & _ & _ & Hi2 & Hty2). by simplify_eq.
Qed.
