(* ===== verification/VfsInv.v ===== *)
(** The invariant of the directory tree: every state that the operations of the virtual file
    system reach is well formed, whatever the paths, modes and links they are given. *)

From Stdlib Require Import Strings.Ascii.
From S2P Require Import Prelude Math Pmm Frames Objects Vfs VfsSpec.
#[local] Open Scope string_scope.
#[local] Open Scope Z_scope.

(** ** Looking up does not change anything *)
Section pure.
Context `{PathOps} `{FrameAllocator St}.
Abbreviation vfs := (vfs St).

(** Take an operation apart that has returned. *)
Ltac undo H :=
  repeat match type of H with
  | (_ ≫= _) = Done _ =>
      let a := fresh "a" in let Ha := fresh "Ha" in apply bind_Done_inv in H as (a & Ha & H)
  | (let '(_, _) := ?p in _) = Done _ => destruct p
  | Done _ = Done _ => injection H as H
  end.

Lemma populate_state p n (s s' : vfs) b : populate p n s = Done (b, s') → b = false ∧ s' = s.
Proof. unfold populate. intros E. undo E. unfold fs_populate in *. by simplify_eq. Qed.
Lemma find_child_state fuel p n (s s' : vfs) c : find_child fuel p n s = Done (c, s') → s' = s.
Proof.
  revert s. induction fuel as [|fuel IH]; intros s; [done|]. cbn [find_child]. intros E.
  apply bind_Done_inv in E as (d & Hd & E). destruct (d_children d !! n); [by simplify_eq|].
  apply bind_Done_inv in E as ([b s1] & Hp & E). apply populate_state in Hp as [-> ->]. by simplify_eq.
Qed.

Definition pure_resolver (rs : path → string → vfs → outcome (expected error resolve_res * vfs)) : Prop :=
  ∀ p n s r s', rs p n s = Done (r, s') → s' = s.
Lemma reduce_loop_state rs depth p q (s s' : vfs) r :
  pure_resolver rs → reduce_loop rs depth p q s = Done (r, s') → s' = s.
Proof.
  intros Hrs. revert p q s. induction depth as [|depth IH]; intros p q s; cbn [reduce_loop]; intros E;
    apply bind_Done_inv in E as (b & Hb & E); [by simplify_eq|].
  destruct b; cbn [negb] in E; [|by simplify_eq]. apply bind_Done_inv in E as (de & Hd & E).
  apply bind_Done_inv in E as ([ret s1] & Hret & E). apply Hrs in Hret as ->.
  destruct ret as [ret|]; [|by simplify_eq]. destruct (_ =? _); [by simplify_eq|]. by eapply IH.
Qed.
Lemma reduce_with_state rs depth p q (s s' : vfs) r :
  pure_resolver rs → reduce_with rs depth p q s = Done (r, s') → s' = s.
Proof. intros Hrs. destruct depth; [by intros [= <- <-]|]. by apply reduce_loop_state. Qed.
Lemma walk_state fuel rs l p (s s' : vfs) r : pure_resolver rs → walk fuel rs l p s = Done (r, s') → s' = s.
Proof.
  intros Hrs. revert p s. induction l as [|n l IH]; intros p s; cbn [walk]; [by intros [= <- <-]|].
  destruct (bool_decide (n = EmptyString)); [apply IH|]. destruct (bool_decide (n = "..")); intros E.
  - do 4 (apply bind_Done_inv in E as (? & _ & E)). destruct (bool_decide (l = [])); [|by eapply IH].
    do 4 (apply bind_Done_inv in E as (? & _ & E)). by simplify_eq.
  - apply bind_Done_inv in E as ([c s1] & Hc & E). apply find_child_state in Hc as ->.
    destruct c as [c|]; [|by simplify_eq]. apply bind_Done_inv in E as (next & _ & E).
    destruct (bool_decide (l = [])); [by simplify_eq|]. apply bind_Done_inv in E as (t & _ & E).
    apply bind_Done_inv in E as ([r1 s1] & Hr & E).
    assert (s1 = s) as ->.
    { destruct (t =? s_iflnk); [by eapply reduce_with_state|by simplify_eq]. }
    destruct r1 as [q|]; [|by simplify_eq]. apply bind_Done_inv in E as (t' & _ & E).
    destruct (negb _); [by simplify_eq|]. by eapply IH.
Qed.
Lemma resolve_state fuel me parent p (s s' : vfs) r : resolve fuel me parent p s = Done (r, s') → s' = s.
Proof.
  revert parent p s r s'. induction fuel as [|fuel IH]; intros parent p s r s'; [done|]. cbn [resolve]. intros E.
  apply bind_Done_inv in E as (q & _ & E). destruct (is_trivial _); [by simplify_eq|].
  apply bind_Done_inv in E as (? & _ & E). eapply walk_state; [|exact E]. intros p' n s1 r1 s2. apply IH.
Qed.
Lemma reduce_state fuel me p q depth (s s' : vfs) r : reduce fuel me p q depth s = Done (r, s') → s' = s.
Proof. apply reduce_with_state. intros p' n s1 r1 s2. apply resolve_state. Qed.
Lemma path_for_state fuel me p (s s' : vfs) r : path_for fuel me p s = Done (r, s') → s' = s.
Proof. unfold path_for. intros E. apply bind_Done_inv in E as ([r1 s1] & Hr & E). apply resolve_state in Hr as ->. by simplify_eq. Qed.
Lemma new_place_state fuel me parent p (s s' : vfs) r : new_place fuel me parent p s = Done (r, s') → s' = s.
Proof.
  unfold new_place. intros E. apply bind_Done_inv in E as ([r1 s1] & Hr & E). apply resolve_state in Hr as ->.
  destruct r1; [by simplify_eq|]. apply bind_Done_inv in E as ([r2 s2] & Hr & E). apply resolve_state in Hr as ->. by simplify_eq.
Qed.
End pure.

(** ** The invariant *)
Section invariant.
Context `{PathOps} `{FrameAllocator St}.
Abbreviation vfs := (vfs St).

(** Well-formed, and the registered devtmpfs has its root, which is nobody's child. *)
Definition vfs_inv (s : vfs) : Prop :=
  vfs_ok s ∧ ∀ n inst root, filesystems s !! n = Some (FsDevtmpfs inst root) →
    ∃ de, dentries s !! root = Some de ∧ d_parent de = None.

(** The dentries keep their parents. *)
Definition same_parents (s s' : vfs) : Prop :=
  ∀ x xe, dentries s !! x = Some xe → ∃ xe', dentries s' !! x = Some xe' ∧ d_parent xe' = d_parent xe.
Lemma vfs_inv_next (s s' : vfs) :
  vfs_inv s → vfs_ok s' → same_parents s s' → filesystems s' = filesystems s → vfs_inv s'.
Proof.
  intros [_ Hfs] Hok Hp E. split; [done|]. intros n inst root. rewrite E. intros Hn.
  destruct (Hfs n inst root Hn) as (de & Hde & Hnone). destruct (Hp _ _ Hde) as (de' & ? & E'). exists de'. by rewrite E'.
Qed.
Lemma same_parents_eq (s s' : vfs) : dentries s' = dentries s → same_parents s s'.
Proof. intros E x xe Hx. exists xe. by rewrite E. Qed.
Lemma same_parents_insert (s s' : vfs) d de de' :
  dentries s' = <[d := de']> (dentries s) → dentries s !! d = Some de → d_parent de' = d_parent de → same_parents s s'.
Proof.
  intros E Hd Hp x xe Hx. rewrite E. destruct (decide (x = d)) as [->|].
  - rewrite lookup_insert_eq. simplify_eq. by exists de'.
  - rewrite lookup_insert_ne by done. by exists xe.
Qed.

(** Inodes and instances only grow. *)
Definition grows (s s' : vfs) : Prop :=
  dentries s' = dentries s ∧ mounts s' = mounts s ∧ filesystems s' = filesystems s ∧
  ∀ i, is_Some (inodes s !! i) → is_Some (inodes s' !! i).
Lemma grows_inv (s s' : vfs) : vfs_inv s → grows s s' → vfs_inv s'.
Proof.
  intros Hs (Ed & Em & Ef & Hi). apply (vfs_inv_next s); [done| |by apply same_parents_eq|done].
  apply (vfs_ok_inodes s); [apply Hs|done..].
Qed.
Lemma grows_inode (s : vfs) i n : grows s (put_inode i n s).
Proof. split_and!; try done. intros j Hj. simpl. apply lookup_insert_is_Some'. by right. Qed.
Lemma grows_trans (s1 s2 s3 : vfs) : grows s1 s2 → grows s2 s3 → grows s1 s3.
Proof. intros (? & ? & ? & ?) (? & ? & ? & ?). split_and!; try congruence. auto. Qed.
Lemma grows_refl (s : vfs) : grows s s.
Proof. by split_and!. Qed.

Lemma take_ino_grows fs (s s' : vfs) dev ino : take_ino fs s = Done (dev, ino, s') → grows s s'.
Proof. unfold take_ino. intros E. apply bind_Done_inv in E as (n & _ & E). simplify_eq. by split_and!. Qed.
Lemma new_tmpfs_inode_grows me dev ino mode op (s s' : vfs) i :
  new_tmpfs_inode me dev ino mode op s = (i, s') → grows s s' ∧ is_Some (inodes s' !! i).
Proof.
  unfold new_tmpfs_inode. intros [= <- <-]. split.
  - split_and!; try done. simpl. intros j Hj. apply lookup_insert_is_Some'. by right.
  - simpl. rewrite lookup_insert_eq. by eexists.
Qed.
Lemma fs_create_grows me fs mode op (s s' : vfs) r :
  fs_create me fs mode op s = Done (r, s') → grows s s' ∧ ∀ i, r = Value i → is_Some (inodes s' !! i).
Proof.
  unfold fs_create. intros E. apply bind_Done_inv in E as ([[dev ino] s1] & Ht & E). apply take_ino_grows in Ht.
  destruct (new_tmpfs_inode _ _ _ _ _ s1) as [i s2] eqn:En. apply new_tmpfs_inode_grows in En as [Hg Hi]. simplify_eq.
  split; [by eapply grows_trans|]. by intros j [= <-].
Qed.
Lemma fs_link_grows t (s s' : vfs) r :
  fs_link t s = Done (r, s') → grows s s' ∧ ∀ i, r = Value i → is_Some (inodes s' !! i).
Proof.
  unfold fs_link. intros E. apply bind_Done_inv in E as (n & Hn & E). simplify_eq. split; [apply grows_inode|].
  intros i [= <-]. simpl. rewrite lookup_insert_eq. by eexists.
Qed.
Lemma fs_unlink_grows t (s s' : vfs) r : fs_unlink t s = Done (r, s') → grows s s'.
Proof. unfold fs_unlink. intros E. apply bind_Done_inv in E as (n & Hn & E). simplify_eq. apply grows_inode. Qed.

(** A new name. *)
Lemma finish_inv P n symlink ret (s s' : vfs) r :
  vfs_inv s → (∀ i, ret = Value i → is_Some (inodes s !! i)) → finish P n symlink ret s = Done (r, s') → vfs_inv s'.
Proof.
  intros Hs Hret E. destruct ret as [ino|]; [|by simplify_eq/=]. pose proof E as E'. unfold finish, add_dentry in E'.
  destruct (dentry_of (dent P) s) as [de| | | |] eqn:Hde; cbn [mbind outcome_bind] in E'; try done.
  unfold dentry_of in Hde. apply deref_Done_inv in Hde. injection E' as _ Hs'.
  destruct (finish_spec s P n symlink ino) as (d & s2 & E2 & Hok & Hadd & _); [apply Hs|by eexists|by apply Hret|].
  rewrite E2 in E. injection E as _ ->. apply (vfs_inv_next s); [done|done| |].
  - destruct Hadd as (de2 & Hde2 & Hd & Ed & _). simplify_eq. intros x xe Hx. rewrite Ed.
    destruct (decide (x = dent P)) as [->|]; [rewrite lookup_insert_eq; simplify_eq; by eexists|].
    rewrite lookup_insert_ne, lookup_insert_ne by congruence. by exists xe.
  - by rewrite <-Hs'.
Qed.
Lemma create_inv fuel me parent p mode dev (s s' : vfs) r :
  vfs_inv s → create fuel me parent p mode dev s = Done (r, s') → vfs_inv s'.
Proof.
  intros Hs. unfold create. cbv zeta. set (ops := if dev =? 0 then _ else _). destruct ops as [ops|e]; [|by intros [= _ <-]].
  intros E. apply bind_Done_inv in E as ([place s1] & Hp & E). apply new_place_state in Hp as ->.
  destruct place as [rp|]; [|by simplify_eq]. apply bind_Done_inv in E as (m & _ & E). apply bind_Done_inv in E as (de & _ & E).
  apply bind_Done_inv in E as ([ret s1] & Hc & E). apply fs_create_grows in Hc as [Hg Hi].
  eapply finish_inv; [by eapply grows_inv|exact Hi|exact E].
Qed.
Lemma symlink_inv fuel me parent src target (s s' : vfs) r :
  vfs_inv s → symlink fuel me parent src target s = Done (r, s') → vfs_inv s'.
Proof.
  intros Hs. unfold symlink. intros E. apply bind_Done_inv in E as ([place s1] & Hp & E). apply new_place_state in Hp as ->.
  destruct place as [rp|]; [|by simplify_eq]. apply bind_Done_inv in E as (m & _ & E). apply bind_Done_inv in E as (de & _ & E).
  apply bind_Done_inv in E as ([ret s1] & Hc & E). apply fs_create_grows in Hc as [Hg Hi].
  eapply finish_inv; [by eapply grows_inv|exact Hi|exact E].
Qed.
Lemma link_inv fuel me parent src tp target fl (s s' : vfs) r :
  vfs_inv s → link fuel me parent src tp target fl s = Done (r, s') → vfs_inv s'.
Proof.
  intros Hs. unfold link. intros E. apply bind_Done_inv in E as ([place s1] & Hp & E). apply new_place_state in Hp as ->.
  destruct place as [rp|]; [|by simplify_eq]. apply bind_Done_inv in E as ([res s1] & Hr & E). apply resolve_state in Hr as ->.
  destruct res as [res|]; [|by simplify_eq]. apply bind_Done_inv in E as (t & _ & E).
  apply bind_Done_inv in E as ([red s1] & Hr & E).
  assert (s1 = s) as -> by (destruct (fl && _); [by eapply reduce_state|by simplify_eq]).
  destruct red as [q|]; [|by simplify_eq]. apply bind_Done_inv in E as (t' & _ & E).
  destruct (t' =? s_ifdir); [by simplify_eq|]. destruct (negb _); [by simplify_eq|].
  apply bind_Done_inv in E as (m & _ & E). apply bind_Done_inv in E as (de & _ & E).
  apply bind_Done_inv in E as ([ret s1] & Hc & E). apply fs_link_grows in Hc as [Hg Hi].
  eapply finish_inv; [by eapply grows_inv|exact Hi|exact E].
Qed.

(** Removing a name. *)
Lemma remove_entry_inv q P n (s s' : vfs) r : vfs_inv s → remove_entry q P n s = Done (r, s') → vfs_inv s'.
Proof.
  intros Hs. unfold remove_entry. intros E. apply bind_Done_inv in E as (m & _ & E). apply bind_Done_inv in E as (d & _ & E).
  apply bind_Done_inv in E as ([ret s1] & Hu & E). apply fs_unlink_grows in Hu. pose proof (grows_inv _ _ Hs Hu) as Hs1.
  destruct ret as [[]|]; [|by simplify_eq]. apply bind_Done_inv in E as (rp & Hrp & E).
  apply bind_Done_inv in E as (? & _ & E). unfold dentry_of in Hrp. apply deref_Done_inv in Hrp. simplify_eq.
  apply (vfs_inv_next s1); [done| |by eapply same_parents_insert|done].
  by apply (entry_removed_ok s1 _ P rp n); [apply Hs1|..].
Qed.
Lemma unlink_inv fuel me parent p (s s' : vfs) r : vfs_inv s → unlink fuel me parent p s = Done (r, s') → vfs_inv s'.
Proof.
  intros Hs. unfold unlink. intros E. apply bind_Done_inv in E as ([res s1] & Hr & E). apply resolve_state in Hr as ->.
  destruct res as [res|]; [|by simplify_eq]. apply bind_Done_inv in E as (t & _ & E).
  apply bind_Done_inv in E as ([busy s1] & Hb & E).
  assert (s1 = s) as ->.
  { destruct (negb (t =? s_ifdir)); [by simplify_eq|]. apply bind_Done_inv in Hb as (m & _ & Hb).
    destruct (_ =? m_root m); [by simplify_eq|]. apply bind_Done_inv in Hb as (d & _ & Hb).
    destruct (negb _); [by simplify_eq|]. apply bind_Done_inv in Hb as ([b s2] & Hp & Hb).
    apply populate_state in Hp as [_ ->]. apply bind_Done_inv in Hb as (d' & _ & Hb). by simplify_eq. }
  destruct busy; [by simplify_eq|]. by eapply remove_entry_inv.
Qed.

(** A new root of a file system. *)
Lemma root_added_ok (s s' : vfs) d name i :
  vfs_ok s → dentries s !! d = None → dentries s' = <[d := mk_dentry name EmptyString i None ∅ []]> (dentries s) →
  mounts s' = mounts s → (∀ j, is_Some (inodes s !! j) → is_Some (inodes s' !! j)) → is_Some (inodes s' !! i) →
  vfs_ok s' ∧ same_parents s s'.
Proof.
  intros Hs Hd E Em Hino Hi. set (nd := mk_dentry _ _ _ _ _ _) in E.
  assert (∀ x xe, dentries s' !! x = Some xe → x = d ∧ xe = nd ∨ x ≠ d ∧ dentries s !! x = Some xe) as Hinv.
  { intros x xe. rewrite E. intros [[<- <-]|[? ?]]%lookup_insert_Some; auto. }
  assert (∀ x xe, dentries s !! x = Some xe → dentries s' !! x = Some xe) as Hold.
  { intros x xe Hx. rewrite E, lookup_insert_ne by congruence. done. }
  split; [split|].
  - intros x xe n c Hx Hc. apply Hinv in Hx as [[-> ->]|[_ Hx]]; [unfold nd in Hc; simpl in Hc; by rewrite lookup_empty in Hc|].
    destruct (vk_child _ Hs _ _ _ _ Hx Hc) as (Hc0 & ce & Hce & ?). split; [done|]. exists ce. auto.
  - rewrite Em. intros x xe m Hx Hm. apply Hinv in Hx as [[-> ->]|[_ Hx]]; [by apply not_elem_of_nil in Hm|]. by apply (vk_covers _ Hs x xe).
  - rewrite Em. intros m mo Hm. destruct (vk_mroot _ Hs m mo Hm) as (de & Hde & Hnone). exists de. auto.
  - destruct (vk_root _ Hs) as (de & Hde & Hp). exists de. auto.
  - intros x xe Hx. apply Hinv in Hx as [[-> ->]|[_ Hx]]; [done|]. apply Hino. by apply (vk_inode _ Hs x xe).
  - intros x xe Hx. exists xe. auto.
Qed.
Lemma new_root_inv me name fs (s s' : vfs) d :
  vfs_inv s → new_root me name fs s = Done (d, s') →
  vfs_inv s' ∧ mounts s' = mounts s ∧ filesystems s' = filesystems s ∧
  ∃ de, dentries s' !! d = Some de ∧ d_parent de = None.
Proof.
  intros Hs. unfold new_root. intros E. apply bind_Done_inv in E as ([[dev ino] s1] & Ht & E). apply take_ino_grows in Ht.
  destruct (new_tmpfs_inode _ _ _ _ _ s1) as [i s2] eqn:En. apply new_tmpfs_inode_grows in En as [Hg Hi].
  pose proof (grows_trans _ _ _ Ht Hg) as Hg2. pose proof (grows_inv _ _ Hs Hg2) as Hs2. injection E as <- <-.
  set (d := fresh _). assert (dentries s2 !! d = None) as Hd by apply not_elem_of_dom, is_fresh.
  destruct Hg2 as (_ & Em & Ef & _).
  destruct (root_added_ok s2 (put_dentry d (mk_dentry name EmptyString i None ∅ []) s2) d name i) as [Hok Hp];
    try done; [apply Hs2|].
  split; [|split; [done|split; [done|]]].
  - by apply (vfs_inv_next s2).
  - eexists. simpl. rewrite lookup_insert_eq. done.
Qed.

(** A new mount on a directory. *)
Lemma attach_inv (s s' : vfs) m fs root target d :
  vfs_inv s → mounts s !! m = None → (∃ de, dentries s !! root = Some de ∧ d_parent de = None) →
  dentries s !! dent target = Some d →
  dentries s' = <[dent target := mk_dentry (d_name d) (d_symlink d) (d_inode d) (d_parent d) (d_children d) (d_mounts d ++ [m])]> (dentries s) →
  mounts s' = <[m := mk_mount fs root (Some target)]> (mounts s) → inodes s' = inodes s → filesystems s' = filesystems s →
  vfs_inv s'.
Proof.
  intros Hs Hm (re & Hre & Hnone) Hd E Em Ei Ef. set (td := mk_dentry _ _ _ _ _ _) in E.
  pose proof (same_parents_insert s s' (dent target) d td E Hd eq_refl) as Hpar.
  apply (vfs_inv_next s); [done| |done|done]. destruct Hs as [Hs _].
  assert (∀ x xe, dentries s' !! x = Some xe → ∃ xe', dentries s !! x = Some xe' ∧ d_children xe = d_children xe' ∧
    d_inode xe = d_inode xe' ∧ (d_mounts xe = d_mounts xe' ∨ x = dent target ∧ d_mounts xe = (d_mounts xe' ++ [m])%list)) as Hinv.
  { intros x xe. rewrite E. intros [[<- <-]|[? ?]]%lookup_insert_Some; [exists d|exists xe]; split_and!; auto. }
  assert (∀ x xe, dentries s !! x = Some xe → ∃ xe', dentries s' !! x = Some xe' ∧ d_parent xe' = d_parent xe ∧ d_name xe' = d_name xe) as Hold.
  { intros x xe Hx. rewrite E. destruct (decide (x = dent target)) as [->|].
    - rewrite lookup_insert_eq. simplify_eq. by exists td.
    - rewrite lookup_insert_ne by done. by exists xe. }
  split.
  - intros x xe n c Hx Hc. destruct (Hinv _ _ Hx) as (xe' & Hx' & Hch & _). rewrite Hch in Hc.
    destruct (vk_child _ Hs _ _ _ _ Hx' Hc) as (Hc0 & ce & Hce & Hp & Hn). split; [done|].
    destruct (Hold _ _ Hce) as (ce' & Hce' & Hp' & Hn'). exists ce'. by rewrite Hp', Hn'.
  - intros x xe k Hx Hk. rewrite Em. destruct (Hinv _ _ Hx) as (xe' & Hx' & _ & _ & Hmm).
    assert (k ∈ d_mounts xe' ∨ x = dent target ∧ k = m) as [Hold'|[-> ->]].
    { destruct Hmm as [<-|[-> Hmm]]; [by left|]. rewrite Hmm in Hk. apply elem_of_app in Hk as [?|?%list_elem_of_singleton]; auto. }
    + destruct (vk_covers _ Hs x xe' k Hx' Hold') as (mo & on & Hmo & ?). exists mo, on.
      rewrite lookup_insert_ne by congruence. done.
    + eexists _, target. rewrite lookup_insert_eq. done.
  - rewrite Em. intros k mo [[<- <-]|[_ Hk]]%lookup_insert_Some.
    + destruct (Hpar _ _ Hre) as (re' & Hre' & Hp). exists re'. simpl. by rewrite Hp.
    + destruct (vk_mroot _ Hs k mo Hk) as (ke & Hke & Hkn). destruct (Hpar _ _ Hke) as (ke' & Hke' & Hp).
      exists ke'. by rewrite Hp.
  - destruct (vk_root _ Hs) as (ke & Hke & Hkp). destruct (Hpar _ _ Hke) as (ke' & Hke' & Hp). exists ke'. by rewrite Hp.
  - intros x xe Hx. rewrite Ei. destruct (Hinv _ _ Hx) as (xe' & Hx' & _ & -> & _). by apply (vk_inode _ Hs x xe').
Qed.

(** The mount that a file system makes is not attached yet. *)
Lemma fs_mount_inv me n k (s s' : vfs) i :
  vfs_inv s → filesystems s !! n = Some k → fs_mount me k s = Done (Value i, s') →
  ∃ s0 fs root, vfs_inv s0 ∧ mounts s0 !! i = None ∧ s' = put_mount i (mk_mount fs root None) s0 ∧
    ∃ de, dentries s0 !! root = Some de ∧ d_parent de = None.
Proof.
  intros Hs Hn. destruct k as [|inst root]; unfold fs_mount, new_mount.
  - destruct (new_instance s) as [fs s1] eqn:Ei. intros E. apply bind_Done_inv in E as ([root s2] & Hr & E).
    assert (grows s s1) as Hg by (unfold new_instance in Ei; injection Ei as <- <-; by split_and!).
    pose proof (grows_inv _ _ Hs Hg) as Hs1. destruct (new_root_inv _ _ _ _ _ _ Hs1 Hr) as (Hs2 & _ & _ & Hde).
    injection E as <- <-. exists s2, fs, root. split; [done|]. split; [apply not_elem_of_dom, is_fresh|]. done.
  - intros E. injection E as <- <-. exists s, inst, root. split; [done|]. split; [apply not_elem_of_dom, is_fresh|].
    split; [done|]. destruct Hs as [_ Hfs]. by eapply Hfs.
Qed.
Lemma mount_inv fuel me source target fstype (s s' : vfs) r :
  vfs_inv s → vfs_mount fuel me source target fstype s = Done (r, s') → vfs_inv s'.
Proof.
  intros Hs. unfold vfs_mount. unfold find_fs. destruct (filesystems s !! fstype) as [k|] eqn:Hk; [|by intros [= _ <-]].
  intros E. apply bind_Done_inv in E as ([src s1] & Hsrc & E).
  assert (s1 = s) as ->.
  { destruct (bool_decide _); [by simplify_eq|]. apply bind_Done_inv in Hsrc as ([ret s2] & Hp & Hsrc).
    apply path_for_state in Hp as ->. destruct ret; [|by simplify_eq]. apply bind_Done_inv in Hsrc as (t & _ & Hsrc). by simplify_eq. }
  destruct src; [|by simplify_eq]. apply bind_Done_inv in E as ([ret s1] & Hp & E). apply path_for_state in Hp as ->.
  destruct ret as [tgt|]; [|by simplify_eq]. apply bind_Done_inv in E as (t & _ & E). destruct (negb _); [by simplify_eq|].
  apply bind_Done_inv in E as ([mnt s1] & Hm & E). destruct mnt as [i|e].
  - destruct (fs_mount_inv _ _ _ _ _ _ Hs Hk Hm) as (s0 & fs & root & Hs0 & Hi & -> & Hroot).
    apply bind_Done_inv in E as (m & Hmo & E). apply deref_Done_inv in Hmo. simpl in Hmo. rewrite lookup_insert_eq in Hmo.
    injection Hmo as <-. apply bind_Done_inv in E as (d & Hd & E). unfold dentry_of in Hd. apply deref_Done_inv in Hd.
    injection E as _ <-. simpl in Hd.
    apply (attach_inv s0 _ i fs root tgt d); try done. simpl. by rewrite insert_insert_eq.
  - injection E as _ <-. destruct k; unfold fs_mount, new_mount in Hm; [|done].
    destruct (new_instance s) as [? ?]. apply bind_Done_inv in Hm as ([? ?] & _ & Hm). by simplify_eq.
Qed.
Lemma register_fs_inv n k (s s' : vfs) b :
  vfs_inv s → (∀ inst root, k = FsDevtmpfs inst root → ∃ de, dentries s !! root = Some de ∧ d_parent de = None) →
  register_fs n k s = (b, s') → vfs_inv s'.
Proof.
  intros [Hs Hfs] Hk. unfold register_fs. destruct (filesystems s !! n) as [k'|]; intros E; injection E as <- <-; [by split|].
  split; [by destruct Hs|]. simpl. intros n' inst root [[_ Ek]|[_ ?]]%lookup_insert_Some; [by eapply Hk|by eapply Hfs].
Qed.
Lemma new_devtmpfs_inv me n (s s1 s' : vfs) k b :
  vfs_inv s → new_devtmpfs me s = Done (k, s1) → register_fs n k s1 = (b, s') → vfs_inv s'.
Proof.
  intros Hs. unfold new_devtmpfs. destruct (new_instance s) as [fs s0] eqn:Ei.
  assert (grows s s0) as Hg by (unfold new_instance in Ei; injection Ei as <- <-; by split_and!).
  pose proof (grows_inv _ _ Hs Hg) as Hs0. intros E. apply bind_Done_inv in E as ([root s2] & Hr & E). injection E as <- <-.
  destruct (new_root_inv _ _ _ _ _ _ Hs0 Hr) as (Hs2 & _ & _ & Hde). apply register_fs_inv; [done|].
  by intros inst root' [= <- <-].
Qed.

(** ** The operations as steps *)
Inductive vfs_step : vfs → vfs → Prop :=
| op_create fuel me parent p mode dev r s s' :
    create fuel me parent p mode dev s = Done (r, s') → vfs_step s s'
| op_symlink fuel me parent src target r s s' :
    symlink fuel me parent src target s = Done (r, s') → vfs_step s s'
| op_link fuel me parent src tgtparent target follow r s s' :
    link fuel me parent src tgtparent target follow s = Done (r, s') → vfs_step s s'
| op_unlink fuel me parent p r s s' :
    unlink fuel me parent p s = Done (r, s') → vfs_step s s'
| op_mount fuel me source target fstype r s s' :
    vfs_mount fuel me source target fstype s = Done (r, s') → vfs_step s s'
| op_register_tmpfs n b s s' : register_fs n FsTmpfs s = (b, s') → vfs_step s s'
| op_register_devtmpfs me n k b s s1 s' :
    new_devtmpfs me s = Done (k, s1) → register_fs n k s1 = (b, s') → vfs_step s s'
| op_register_cdev op dev b s s' : register_cdev op dev s = (b, s') → vfs_step s s'.

Lemma vfs_step_inv s s' : vfs_step s s' → vfs_inv s → vfs_inv s'.
Proof.
  intros Hst Hs. destruct Hst;
    eauto 2 using create_inv, symlink_inv, link_inv, unlink_inv, mount_inv, new_devtmpfs_inv.
  - eapply register_fs_inv; [exact Hs| |eassumption]. by intros ? ? ?.
  - match goal with E : register_cdev _ _ _ = _ |- _ => unfold register_cdev in E; destruct (cdevs s !! dev); injection E as <- <- end;
      [done|]. destruct Hs as [Hok ?]. split; [by destruct Hok|done].
Qed.
End invariant.

(** C15: whatever sequence of operations runs, with any paths, modes, devices and users, the
    directory tree stays well formed: children know their parent and name, mounts know the
    directory they cover, roots of mounts are nobody's child, and every entry has an inode. *)
Theorem vfs_reachable_ok `{PathOps} `{FrameAllocator St} (s s' : vfs St) :
  vfs_inv s → rtc vfs_step s s' → vfs_inv s'.
Proof. induction 2 as [|s1 s2 s3 Hst _ IH]; [done|]. apply IH. by eapply vfs_step_inv. Qed.
