(* ===== verification/VfsBoot.v ===== *)
(** Start-up of the file system, with a simple implementation of the path functions, and
    examples for the properties of [VfsSpec.v]. *)

From Stdlib Require Import Strings.Ascii.
From S2P Require Import Prelude Math Pmm Frames Objects Vfs VfsTables VfsSpec VfsInv.
#[local] Open Scope string_scope.
#[local] Open Scope Z_scope.

(** Paths that are in normal form already. *)
#[export] Instance simple_paths : PathOps :=
  {| normalise p := p;
     basename p := default EmptyString (last (split_slash p));
     dirname p := match take (length (split_slash p) - 1) (split_slash p) with
                  | [] => EmptyString
                  | [EmptyString] => "/"
                  | l => String.concat "/" l
                  end;
     is_absolute p := match p with String c _ => bool_decide (c = "/"%char) | EmptyString => false end |}.
Lemma simple_relative a b : no_slash a = true → a ≠ EmptyString → is_absolute (a +:+ b) = false.
Proof.
  destruct a as [|c a]; [done|]. intros [Hc _]%andb_true_iff _. simpl. by apply negb_true_iff, bool_decide_eq_false in Hc;
    apply bool_decide_eq_false_2.
Qed.
#[export] Instance simple_laws : PathLaws.
Proof.
  split.
  - done.
  - done.
  - intros n (Hne & _ & _ & Hn). split; [done|]. rewrite <-(app_nil_string n). by apply simple_relative.
  - intros n (Hne & _ & _ & Hn). simpl. by rewrite split_slash_plain.
  - intros a b (Hne & _ & _ & Ha) _. split; [done|]. by apply simple_relative.
  - intros a b (Hne & _ & _ & Ha) (_ & _ & _ & Hb). simpl dirname. simpl basename.
    change (String "/" b) with ("/" +:+ b). rewrite split_slash_app, split_slash_plain by done. simpl. split; [done|].
    by destruct a.
  - intros names _. split; [done|]. destruct names as [|n names]; [done|]. unfold join_names. by rewrite fold_names_cons.
Qed.

(** Process 0 before and after the root is mounted, and the initial state. *)
Definition kernel_proc (root : path) : caller := mk_caller (Some root) 0 0.
Definition vfs_start : vfs Z :=
  mk_vfs {[ root_dentry := mk_dentry "/" EmptyString root_inode (Some root_dentry) ∅ [] ]}
    {[ root_inode := mk_inode None (mk_stat 0 0 s_ifdir 0 0 0 0 0 0 0 0 0 0) None ]}
    ∅ ∅ ∅ 1 ∅ 0 0 (mk_objstore ∅ ∅ 0x1000).

(** The tasks in the order of the init graph. *)
Definition vfs_boot : outcome (path * vfs Z) :=
  let me := kernel_proc (mk_path None root_dentry) in
  s ← register_filesystems me vfs_start;
  '(root, s) ← mount_root 9 me s;
  let me := kernel_proc root in
  s ← mount_devtmpfs 9 me s;
  s ← populate_dev 9 me (register_tty (register_memfiles s));
  Done (root, s).

(** What a path names: mode, device operations. *)
Definition lookup_path (root : path) (p : string) (s : vfs Z) : outcome (expected error (Z * option fops)) :=
  '(r, s) ← resolve 9 (kernel_proc root) None p s;
  match r with
  | Unexpected e => Done (Unexpected e)
  | Value r => i ← inode_of (dent (r_target r)) s; Done (Value (st_mode (i_stat i), i_op i))
  end.
Definition name_of (root : path) (p : string) (s : vfs Z) : outcome (expected error string) :=
  '(r, s) ← resolve 9 (kernel_proc root) None p s;
  match r with
  | Unexpected e => Done (Unexpected e)
  | Value r => n ← pathname_from 9 (r_target r) s; Done (Value n)
  end.

(** After start-up the memory devices exist below the devtmpfs mounted on /dev, each with
    its operations, and their names lead back across the mount. *)
Theorem boot_devices :
  match vfs_boot with
  | Done (root, s) =>
      lookup_path root "/dev/null" s = Done (Value (Z.lor s_ifchr 0x1B6, Some NullOps)) ∧
      lookup_path root "/dev/zero" s = Done (Value (Z.lor s_ifchr 0x1B6, Some ZeroOps)) ∧
      lookup_path root "/dev/full" s = Done (Value (Z.lor s_ifchr 0x1B6, Some FullOps)) ∧
      lookup_path root "/dev/urandom" s = Done (Value (Z.lor s_ifchr 0x1B6, Some RandomOps)) ∧
      lookup_path root "/dev/none" s = Done (Unexpected not_found) ∧
      lookup_path root "/dev/null/x" s = Done (Unexpected not_a_dir) ∧
      name_of root "/dev/null" s = Done (Value "/dev/null") ∧ name_of root "/dev/.." s = Done (Value "/")
  | _ => False
  end.
Proof. vm_compute. repeat split. Qed.

(** ** Well-formedness is decidable *)
Definition ok_child (s : vfs Z) (d : Z) (n : string) (c : Z) : Prop :=
  c ≠ root_dentry ∧ match dentries s !! c with Some ce => d_parent ce = Some d ∧ d_name ce = n | None => False end.
Definition ok_cover (s : vfs Z) (d m : Z) : Prop :=
  match mounts s !! m with Some mo => match m_on mo with Some on => dent on = d | None => False end | None => False end.
Definition ok_mroot (s : vfs Z) (mo : mount) : Prop :=
  match dentries s !! m_root mo with Some de => d_parent de = None | None => False end.
#[local] Instance ok_child_dec s d n c : Decision (ok_child s d n c).
Proof. unfold ok_child. apply and_dec; [apply _|]. case_match; apply _. Defined.
#[local] Instance ok_cover_dec s d m : Decision (ok_cover s d m).
Proof. unfold ok_cover. repeat case_match; apply _. Defined.
#[local] Instance ok_mroot_dec s mo : Decision (ok_mroot s mo).
Proof. unfold ok_mroot. case_match; apply _. Defined.
Definition vfs_okb (s : vfs Z) : bool :=
  bool_decide (map_Forall (λ d de, map_Forall (ok_child s d) (d_children de)) (dentries s)) &&
  bool_decide (map_Forall (λ d de, Forall (ok_cover s d) (d_mounts de)) (dentries s)) &&
  bool_decide (map_Forall (λ _ mo, ok_mroot s mo) (mounts s)) &&
  bool_decide ((dentries s !! root_dentry ≫= d_parent) = Some root_dentry) &&
  bool_decide (map_Forall (λ _ de, is_Some (inodes s !! d_inode de)) (dentries s)).
Lemma vfs_okb_ok s : vfs_okb s = true → vfs_ok s.
Proof.
  unfold vfs_okb. rewrite !andb_true_iff, !bool_decide_eq_true. intros [[[[Hc Hm] Hr] H0] Hi]. split.
  - intros d de n c Hd Hn. destruct (Hc d de Hd n c Hn) as [? Hce]. split; [done|].
    destruct (dentries s !! c) as [ce|]; [|done]. by exists ce.
  - intros d de m Hd He. specialize (Hm d de Hd). simpl in Hm. rewrite Forall_forall in Hm. specialize (Hm m He).
    unfold ok_cover in Hm. destruct (mounts s !! m) as [mo|]; [|done]. destruct (m_on mo) as [on|] eqn:E; [|done].
    by exists mo, on.
  - intros m mo Hmo. specialize (Hr m mo Hmo). simpl in Hr. unfold ok_mroot in Hr.
    destruct (dentries s !! m_root mo) as [de|]; [|done]. by exists de.
  - destruct (dentries s !! root_dentry) as [de|] eqn:E; [|done]. by exists de.
  - intros d de Hd. by apply (Hi d de Hd).
Qed.

(** ** Witnesses: a root file system with a directory [d], a file [f], a link [l] to [d] and
    a link [a] into itself *)
Definition ex_fs : option (path * vfs Z) :=
  match
    (let me := kernel_proc (mk_path None root_dentry) in
     s ← register_filesystems me vfs_start;
     '(root, s) ← mount_root 9 me s;
     let me := kernel_proc root in
     '(_, s) ← create 9 me None "/d" s_ifdir 0 s;
     '(_, s) ← create 9 me None "/f" s_ifreg 0 s;
     '(_, s) ← symlink 9 me None "/l" "d" s;
     '(_, s) ← symlink 9 me None "/a" "a/y" s;
     Done (root, s))
  with Done r => Some r | _ => None end.
Definition ex_root : path := match ex_fs with Some (p, _) => p | None => mk_path None 0 end.
Definition ex_vfs : vfs Z := match ex_fs with Some (_, s) => s | None => vfs_start end.
Definition ex_me : caller := kernel_proc ex_root.
Lemma ex_vfs_ok : vfs_ok ex_vfs.
Proof. apply vfs_okb_ok. vm_compute. reflexivity. Qed.
Definition child_of (p : path) (n : string) (s : vfs Z) : Z :=
  default (-1) (dentries s !! dent p ≫= λ d, d_children d !! n).

Lemma ex_plain n : bool_decide (n ≠ EmptyString) && bool_decide (n ≠ ".") && bool_decide (n ≠ "..") && no_slash n = true → plain n.
Proof. rewrite !andb_true_iff, !bool_decide_eq_true. by intros [[[? ?] ?] ?]. Qed.
Ltac ex_plain := apply ex_plain; vm_compute; reflexivity.
Lemma ex_root_ok : path_ok ex_vfs ex_root.
Proof. exists 0, (mk_mount 1 2 (Some (mk_path None 0))). split; vm_compute; reflexivity. Qed.
(** The entry [n] of the root directory. *)
Definition ex_entry (n : string) : path := mk_path (Some 0) (child_of ex_root n ex_vfs).
Definition ex_dentry (d : Z) : dentry := default (mk_dentry EmptyString EmptyString 0 None ∅ []) (dentries ex_vfs !! d).
Definition inode_at (s : vfs Z) (i : Z) : inode := default (mk_inode None (mk_stat 0 0 0 0 0 0 0 0 0 0 0 0 0) None) (inodes s !! i).
Definition ex_inode (i : Z) : inode := inode_at ex_vfs i.

Lemma pathname_resolves_witness :
  pathname_from 10 (ex_entry "d") ex_vfs = Done "/d" ∧
  ∃ r, resolve 9 ex_me None "/d" ex_vfs = Done (Value r, ex_vfs) ∧ r_target r = ex_entry "d".
Proof.
  apply (pathname_resolves ex_vfs ex_me ex_root ["d"] (ex_entry "d") 8).
  - exact ex_vfs_ok.
  - vm_compute; reflexivity.
  - split; [vm_compute; reflexivity|exact ex_root_ok].
  - constructor; [ex_plain|constructor].
  - eexists _, _. split; [vm_compute; reflexivity|]. split; vm_compute; reflexivity.
Defined.

Lemma create_correct_witness :
  ∃ q i node s', create 9 ex_me (Some ex_root) "x" s_ifreg 0 ex_vfs = Done (Value q, s') ∧ vfs_ok s' ∧
    resolve 9 ex_me (Some ex_root) "x" s' = Done (Value (mk_res ex_root q), s') ∧
    inodes ex_vfs !! i = None ∧ inode_of (dent q) s' = Done node ∧ inodes s' = <[i := node]> (inodes ex_vfs) ∧
    fresh_inode ex_me ex_vfs 1 s_ifreg None node ∧
    (∀ x xe, dentries ex_vfs !! x = Some xe → x ≠ dent ex_root → dentries s' !! x = Some xe) ∧
    (∀ n', n' ≠ "x" → d_children (default (ex_dentry 0) (dentries s' !! dent ex_root)) !! n' = d_children (ex_dentry 0) !! n').
Proof.
  apply (create_correct ex_vfs ex_me 8 ex_root "x" s_ifreg 0 (mk_mount 1 2 (Some (mk_path None 0))) (ex_dentry 0)).
  - exact ex_vfs_ok.
  - ex_plain.
  - vm_compute; reflexivity.
  - vm_compute; reflexivity.
  - eexists; vm_compute; reflexivity.
  - vm_compute; reflexivity.
Defined.

Lemma unlink_correct_witness :
  unlink 9 ex_me (Some ex_root) "d" (snd (default (ex_root, ex_vfs) ex_fs)) ≠ NoFuel ∧
  ∃ node' s', unlink 9 ex_me (Some ex_root) "f" ex_vfs = Done (Value (), s') ∧ vfs_ok s' ∧
    resolve 9 ex_me (Some ex_root) "f" s' = Done (Unexpected not_found, s') ∧
    inodes s' = <[d_inode (ex_dentry (dent (ex_entry "f"))) := node']> (inodes ex_vfs) ∧
    node' = mk_inode (Some TmpfsOps) (set_nlink 0 (i_stat (ex_inode 4))) (i_mem (ex_inode 4)) ∧
    (∀ x, x ≠ 0 → dentries s' !! x = dentries ex_vfs !! x) ∧
    (∀ n', n' ≠ "f" → d_children (default (ex_dentry 0) (dentries s' !! 0)) !! n' = d_children (ex_dentry 0) !! n').
Proof.
  split; [vm_compute; done|].
  apply (unlink_correct ex_vfs ex_me 8 ex_root "f" (ex_entry "f") (ex_dentry 0) 0 (mk_mount 1 2 (Some (mk_path None 0)))
    (ex_dentry (dent (ex_entry "f"))) (ex_inode 4)).
  - exact ex_vfs_ok.
  - ex_plain.
  - exact ex_root_ok.
  - vm_compute; reflexivity.
  - eexists _, _. split; [vm_compute; reflexivity|]. split; vm_compute; reflexivity.
  - reflexivity.
  - vm_compute; reflexivity.
  - vm_compute; reflexivity.
  - vm_compute; reflexivity.
Defined.

Lemma ex_link (s : vfs Z) P l target c :
  match dentries s !! dent P with
  | Some de => d_children de !! l = Some c ∧
      match dentries s !! c with
      | Some ce => d_mounts ce = [] ∧ d_symlink ce = target ∧ st_type (i_stat (inode_at s (d_inode ce))) = s_iflnk ∧
          is_Some (inodes s !! d_inode ce)
      | None => False
      end
  | None => False
  end → link_in s P l target c.
Proof.
  unfold link_in, inode_at. destruct (dentries s !! dent P) as [de|]; [|done]. intros [Hc H].
  destruct (dentries s !! c) as [ce|] eqn:Hce; [|done]. destruct H as (? & ? & Ht & i & Hi). rewrite Hi in Ht.
  exists de, ce, i. by split_and!.
Qed.
Ltac ex_link := apply ex_link; vm_compute; repeat split; eauto.

Lemma resolve_recursive_link_witness : resolve 40 ex_me (Some ex_root) "a/x" ex_vfs = NoFuel.
Proof.
  apply (resolve_recursive_link ex_vfs ex_me ex_root "a" "y" "x" (dent (ex_entry "a")) 40).
  - exact ex_root_ok.
  - ex_plain.
  - ex_plain.
  - ex_plain.
  - ex_link.
Defined.

Lemma ex_linked n : bool_decide (n = "x") = true → linked_dir ex_vfs ex_root "l" "d" n (dent (ex_entry "l")) (dent (ex_entry "d")).
Proof.
  intros ->%bool_decide_eq_true. split; [ex_link|]. split; [exact ex_root_ok|]. split; [vm_compute; done|].
  eexists _, _, (ex_inode 3). split_and!; [vm_compute; reflexivity..|].
  vm_compute. reflexivity.
Qed.

Lemma create_through_link_witness :
  ∃ q s', create 9 ex_me (Some ex_root) "l/x" s_ifreg 0 ex_vfs = Done (Value q, s') ∧
    resolve 9 ex_me (Some ex_root) "l/x" s' = Done (Unexpected not_found, s').
Proof.
  apply (create_through_link ex_vfs ex_me 7 ex_root "l" "d" "x" (dent (ex_entry "l")) (dent (ex_entry "d")) s_ifreg 0
    (mk_mount 1 2 (Some (mk_path None 0))) (ex_dentry (dent (ex_entry "l")))).
  - exact ex_vfs_ok.
  - ex_plain.
  - ex_plain.
  - ex_plain.
  - apply ex_linked; reflexivity.
  - vm_compute; reflexivity.
  - vm_compute; reflexivity.
  - eexists; vm_compute; reflexivity.
  - vm_compute; reflexivity.
  - vm_compute; reflexivity.
  - vm_compute; done.
Defined.

Lemma link_follow_ignored_witness :
  ∃ q s' qe, link 9 ex_me (Some ex_root) "n" (Some ex_root) "l" true ex_vfs = Done (Value q, s') ∧
    dentries s' !! dent q = Some qe ∧ d_inode qe = d_inode (ex_dentry (dent (ex_entry "l"))) ∧
    st_type (i_stat (ex_inode 5)) = s_iflnk.
Proof.
  apply (link_follow_ignored ex_vfs ex_me 7 ex_root "n" "l" "d" "x" (dent (ex_entry "l")) (dent (ex_entry "d")) 0
    (mk_mount 1 2 (Some (mk_path None 0))) (ex_dentry 0) (ex_dentry (dent (ex_entry "l"))) (ex_inode 5)).
  - exact ex_vfs_ok.
  - ex_plain.
  - ex_plain.
  - ex_plain.
  - apply ex_linked; reflexivity.
  - vm_compute; reflexivity.
  - vm_compute; reflexivity.
  - vm_compute; reflexivity.
  - vm_compute; reflexivity.
  - vm_compute; reflexivity.
  - vm_compute; reflexivity.
Defined.

Definition ok_fskind (s : vfs Z) (k : fskind) : Prop :=
  match k with FsDevtmpfs _ root => (dentries s !! root ≫= λ de, Some (d_parent de)) = Some None | FsTmpfs => True end.
#[local] Instance ok_fskind_dec s k : Decision (ok_fskind s k).
Proof. unfold ok_fskind. case_match; apply _. Defined.
Lemma vfs_invb_ok s :
  vfs_okb s = true → bool_decide (map_Forall (λ _ k, ok_fskind s k) (filesystems s)) = true → vfs_inv s.
Proof.
  intros Hok Hfs%bool_decide_eq_true. split; [by apply vfs_okb_ok|]. intros n inst root Hn.
  specialize (Hfs n _ Hn). simpl in Hfs. destruct (dentries s !! root) as [de|]; [|done]. simpl in Hfs. exists de. naive_solver.
Qed.
Definition ex_after (o : outcome (expected error path * vfs Z)) : vfs Z := match o with Done (_, s) => s | _ => ex_vfs end.
Definition ex_created : vfs Z := ex_after (create 9 ex_me None "/l/x" s_ifreg 0 ex_vfs).
Definition ex_linked2 : vfs Z := ex_after (link 9 ex_me None "/d/g" None "/f" false ex_created).
Lemma vfs_reachable_ok_witness : vfs_inv ex_vfs ∧ vfs_inv ex_linked2.
Proof.
  assert (vfs_inv ex_vfs) as Hs by (apply vfs_invb_ok; vm_compute; reflexivity).
  split; [exact Hs|]. apply (vfs_reachable_ok ex_vfs ex_linked2 Hs).
  apply (rtc_l _ _ ex_created); [|apply rtc_once].
  - apply (op_create 9 ex_me None "/l/x" s_ifreg 0 (Value (mk_path (Some 0) 7))). vm_compute. reflexivity.
  - apply (op_link 9 ex_me None "/d/g" None "/f" false (Value (mk_path (Some 0) 8))). vm_compute. reflexivity.
Defined.
