(* ===== verification/Files.v ===== *)
(** Open files: [vfs::file] and [vfs::filedesc] of kernel/interfaces/system/vfs.cppm, the
    operations of tmpfs (kernel/source/drivers/fs/tmpfs.cpp) and of the memory and terminal
    devices (kernel/source/drivers/fs/dev/mem.cpp and tty.cpp).

    The bytes of a tmpfs file are those of its memory object ([Objects.v]).  The properties
    are in [FilesSpec.v]. *)

From S2P Require Import Prelude Math Pmm Frames Objects Vfs.

(** ** Flags of [open] (x86_64) *)
Definition o_direct : Z := 0x4000.
Definition o_largefile : Z := 0x8000.
Definition o_directory : Z := 0x10000.
Definition o_nofollow : Z := 0x20000.
Definition o_path : Z := 0x200000.
Definition o_accmode : Z := Z.lor 3 o_path.
Definition o_rdonly : Z := 0.
Definition o_wronly : Z := 1.
Definition o_rdwr : Z := 2.
Definition o_creat : Z := 0x40.
Definition o_excl : Z := 0x80.
Definition o_noctty : Z := 0x100.
Definition o_trunc : Z := 0x200.
Definition o_closexec : Z := 0x80000.
Definition o_tmpfile : Z := Z.lor 0x400000 o_directory.
Definition o_append : Z := 0x400.
Definition o_async : Z := 0x2000.
Definition o_noatime : Z := 0x40000.
Definition o_nonblock : Z := 0x800.
Definition creation_flags : Z :=
  Z.lor o_creat (Z.lor o_excl (Z.lor o_noctty (Z.lor o_trunc (Z.lor o_directory
    (Z.lor o_nofollow (Z.lor o_closexec o_tmpfile)))))).
Definition changeable_status_flags : Z :=
  Z.lor o_append (Z.lor o_async (Z.lor o_direct (Z.lor o_noatime o_nonblock))).
Definition is_read (flags : Z) : bool :=
  (Z.land flags o_accmode =? o_rdonly) || (Z.land flags o_accmode =? o_rdwr).
Definition is_write (flags : Z) : bool :=
  (Z.land flags o_accmode =? o_wronly) || (Z.land flags o_accmode =? o_rdwr).

(** The error numbers that the operations of files set. *)
Definition enotty : Z := 25.
Definition enospc : Z := 28.

(** ** Files *)
Record file := mk_file { f_path : path; f_offset : Z; f_flags : Z }.

(** The generator behind /dev/random: [dist(rng)] of the C++ library. *)
Class RandomSource := { rnd_next : Z → Z * Z }.

Section files.
Context `{FrameAllocator St} `{RandomSource}.

(** The file systems, the shared file and descriptor objects, [errno] of the thread, the
    state of the random device and what has been printed. *)
Record fsys := mk_fsys
  { fvfs : vfs St; files : gmap Z file; descs : gmap Z filedesc; errno : Z; rng : Z; console : list Z }.
Definition set_vfs (v : vfs St) (s : fsys) : fsys :=
  mk_fsys v (files s) (descs s) (errno s) (rng s) (console s).
Definition put_file (i : Z) (f : file) (s : fsys) : fsys :=
  mk_fsys (fvfs s) (<[i := f]> (files s)) (descs s) (errno s) (rng s) (console s).
Definition put_desc (i : Z) (d : filedesc) (s : fsys) : fsys :=
  mk_fsys (fvfs s) (files s) (<[i := d]> (descs s)) (errno s) (rng s) (console s).
Definition set_errno (e : Z) (s : fsys) : fsys :=
  mk_fsys (fvfs s) (files s) (descs s) e (rng s) (console s).
Definition set_rng (r : Z) (s : fsys) : fsys :=
  mk_fsys (fvfs s) (files s) (descs s) (errno s) r (console s).
Definition print (l : list Z) (s : fsys) : fsys :=
  mk_fsys (fvfs s) (files s) (descs s) (errno s) (rng s) (console s ++ l).

Definition inode_ref (p : path) (s : fsys) : outcome (Z * inode) :=
  d ← dentry_of (dent p) (fvfs s);
  n ← deref (inodes (fvfs s) !! d_inode d);
  Done (d_inode d, n).
Definition put_stat (i : Z) (n : inode) (st : stat) (s : fsys) : fsys :=
  set_vfs (put_inode i (mk_inode (i_op n) st (i_mem n)) (fvfs s)) s.
Definition set_objects (m : objstore St) (s : fsys) : fsys := set_vfs (set_mem m (fvfs s)) s.

(** ** tmpfs *)
Definition tmpfs_read (p : path) (offset : Z) (buffer : list Z) (s : fsys) : outcome (Z * list Z * fsys) :=
  '(_, inod) ← inode_ref p s;
  let size := Z.of_nat (length buffer) in
  let real_size :=
    if w64 (st_size (i_stat inod)) <=? w64 (offset + size)
    then w64 (size - w64 (w64 (offset + size) - w64 (st_size (i_stat inod)))) else size in
  if real_size =? 0 then Done (0, buffer, s) else
  memory ← deref (i_mem inod);
  (* [buffer.subspan(0, real_size)] *)
  if size <? real_size then Crash else
  '(_, part, m) ← Objects.read memory offset (take (Z.to_nat real_size) buffer) (mem (fvfs s));
  Done (s64 real_size, part ++ drop (Z.to_nat real_size) buffer, set_objects m s).

Definition set_length (size : Z) (st : stat) : stat :=
  set_size (s64 size) (s64 (div_roundup size (w64 (st_blksize st)))) st.
Definition tmpfs_write (p : path) (offset : Z) (buffer : list Z) (s : fsys) : outcome (Z * fsys) :=
  '(i, inod) ← inode_ref p s;
  let size := Z.of_nat (length buffer) in
  memory ← deref (i_mem inod);
  '(_, m) ← Objects.write memory offset buffer (mem (fvfs s));
  let s := set_objects m s in
  let end_ := w64 (offset + size) in
  Done (s64 size, if w64 (st_size (i_stat inod)) <=? end_
                  then put_stat i inod (set_length end_ (i_stat inod)) s else s).

Definition tmpfs_trunc (p : path) (size : Z) (s : fsys) : outcome (bool * fsys) :=
  '(i, inod) ← inode_ref p s;
  let current_size := w64 (st_size (i_stat inod)) in
  if size =? current_size then Done (true, s) else
  memory ← deref (i_mem inod);
  '(_, m) ← (if size <? current_size then clear memory size 0 (w64 (current_size - size)) (mem (fvfs s))
             else clear memory current_size 0 (w64 (size - current_size)) (mem (fvfs s)));
  Done (true, put_stat i inod (set_length size (i_stat inod)) (set_objects m s)).

(** The object that a mapping of the file shows. *)
Definition tmpfs_map (p : path) (priv : bool) (s : fsys) : outcome (option Z * fsys) :=
  '(_, inod) ← inode_ref p s;
  if priv then
    own ← deref (i_mem inod);
    let m := mem (fvfs s) in
    let memory := fresh (dom (objects m)) in
    let m := mk_objstore (<[memory := ∅]> (objects m)) (phys m) (oframes m) in
    '(_, m) ← copy_to own memory 0 (w64 (st_size (i_stat inod))) m;
    Done (Some memory, set_objects m s)
  else Done (i_mem inod, s).

(** ** Devices *)
Definition null_read (buffer : list Z) (s : fsys) : outcome (Z * list Z * fsys) := Done (0, buffer, s).
Definition null_write (buffer : list Z) (s : fsys) : outcome (Z * fsys) := Done (s64 (Z.of_nat (length buffer)), s).
Definition zero_read (buffer : list Z) (s : fsys) : outcome (Z * list Z * fsys) :=
  Done (s64 (Z.of_nat (length buffer)), replicate (length buffer) 0, s).
Definition zero_write (buffer : list Z) (s : fsys) : outcome (Z * fsys) := Done (s64 (Z.of_nat (length buffer)), s).
Definition full_read (buffer : list Z) (s : fsys) : outcome (Z * list Z * fsys) :=
  Done (s64 (Z.of_nat (length buffer)), replicate (length buffer) 0, s).
Definition full_write (buffer : list Z) (s : fsys) : outcome (Z * fsys) := Done (-1, set_errno enospc s).
Fixpoint random_bytes (n : nat) (r : Z) : list Z * Z :=
  match n with
  | O => ([], r)
  | S n => let '(x, r) := rnd_next r in let '(l, r) := random_bytes n r in (w8 x :: l, r)
  end.
Definition random_read (buffer : list Z) (s : fsys) : outcome (Z * list Z * fsys) :=
  let '(l, r) := random_bytes (length buffer) (rng s) in
  Done (s64 (Z.of_nat (length buffer)), l, set_rng r s).
Definition random_write (buffer : list Z) (s : fsys) : outcome (Z * fsys) := Done (s64 (Z.of_nat (length buffer)), s).
(** The terminal device halts the processor when it is read. *)
Definition tty_read (buffer : list Z) (s : fsys) : outcome (Z * list Z * fsys) := Hang.
Definition tty_write (buffer : list Z) (s : fsys) : outcome (Z * fsys) :=
  Done (s64 (Z.of_nat (length buffer)), print buffer s).
(** [trunc] and [map] of the devices, [ioctl] of the terminal and of all others. *)
Definition dev_trunc (s : fsys) : outcome (bool * fsys) := Done (true, s).
Definition dev_map (s : fsys) : outcome (option Z * fsys) := Done (None, s).
Definition tty_ioctl (s : fsys) : outcome (Z * fsys) := Done (0, s).
Definition no_ioctl (s : fsys) : outcome (Z * fsys) := Done (-1, set_errno enotty s).

(** The virtual calls. *)
Definition ops_read (op : fops) (p : path) (offset : Z) (buffer : list Z) (s : fsys) : outcome (Z * list Z * fsys) :=
  match op with
  | TmpfsOps => tmpfs_read p offset buffer s
  | NullOps => null_read buffer s
  | ZeroOps => zero_read buffer s
  | FullOps => full_read buffer s
  | RandomOps => random_read buffer s
  | TtyOps => tty_read buffer s
  end.
Definition ops_write (op : fops) (p : path) (offset : Z) (buffer : list Z) (s : fsys) : outcome (Z * fsys) :=
  match op with
  | TmpfsOps => tmpfs_write p offset buffer s
  | NullOps => null_write buffer s
  | ZeroOps => zero_write buffer s
  | FullOps => full_write buffer s
  | RandomOps => random_write buffer s
  | TtyOps => tty_write buffer s
  end.
Definition ops_trunc (op : fops) (p : path) (size : Z) (s : fsys) : outcome (bool * fsys) :=
  match op with TmpfsOps => tmpfs_trunc p size s | _ => dev_trunc s end.
Definition ops_map (op : fops) (p : path) (priv : bool) (s : fsys) : outcome (option Z * fsys) :=
  match op with TmpfsOps => tmpfs_map p priv s | _ => dev_map s end.
Definition ops_ioctl (op : fops) (s : fsys) : outcome (Z * fsys) :=
  match op with TtyOps => tty_ioctl s | _ => no_ioctl s end.

(** ** [vfs::file] *)
Definition get_ops (f : file) (s : fsys) : outcome fops :=
  '(_, n) ← inode_ref (f_path f) s;
  _ ← bug_on (bool_decide (i_op n = None));
  deref (i_op n).
Definition file_of (i : Z) (s : fsys) : outcome file := deref (files s !! i).
(** [offset += ret] when [ret > 0] *)
Definition advance (i : Z) (ret : Z) (s : fsys) : outcome fsys :=
  f ← file_of i s;
  Done (if 0 <? ret then put_file i (mk_file (f_path f) (w64 (f_offset f + ret)) (f_flags f)) s else s).
Definition file_read (i : Z) (buffer : list Z) (s : fsys) : outcome (Z * list Z * fsys) :=
  f ← file_of i s;
  op ← get_ops f s;
  '(ret, buffer, s) ← ops_read op (f_path f) (f_offset f) buffer s;
  s ← advance i ret s;
  Done (ret, buffer, s).
Definition file_write (i : Z) (buffer : list Z) (s : fsys) : outcome (Z * fsys) :=
  f ← file_of i s;
  op ← get_ops f s;
  '(ret, s) ← ops_write op (f_path f) (f_offset f) buffer s;
  s ← advance i ret s;
  Done (ret, s).
Definition file_pread (i offset : Z) (buffer : list Z) (s : fsys) : outcome (Z * list Z * fsys) :=
  f ← file_of i s;
  op ← get_ops f s;
  ops_read op (f_path f) offset buffer s.
Definition file_pwrite (i offset : Z) (buffer : list Z) (s : fsys) : outcome (Z * fsys) :=
  f ← file_of i s;
  op ← get_ops f s;
  ops_write op (f_path f) offset buffer s.
Definition file_trunc (i size : Z) (s : fsys) : outcome (bool * fsys) :=
  f ← file_of i s;
  op ← get_ops f s;
  ops_trunc op (f_path f) size s.
Definition file_ioctl (i : Z) (s : fsys) : outcome (Z * fsys) :=
  f ← file_of i s;
  op ← get_ops f s;
  ops_ioctl op s.
Definition file_map (i : Z) (priv : bool) (s : fsys) : outcome (option Z * fsys) :=
  f ← file_of i s;
  op ← get_ops f s;
  ops_map op (f_path f) priv s.
(** [open] and [close]: no implementation overrides the defaults of [vfs::ops]. *)
Definition file_open (i : Z) (s : fsys) : outcome bool :=
  f ← file_of i s;
  _ ← get_ops f s;
  Done true.
Definition file_close (i : Z) (s : fsys) : outcome bool :=
  f ← file_of i s;
  _ ← get_ops f s;
  Done true.

(** [file::create] and [filedesc::create] *)
Definition file_create (p : path) (offset flags : Z) (s : fsys) : Z * fsys :=
  let i := fresh (dom (files s)) in (i, put_file i (mk_file p offset flags) s).
Definition new_desc (f : Z) (closexec : bool) (s : fsys) : Z * fsys :=
  let d := fresh (dom (descs s)) in (d, put_desc d (mk_filedesc f closexec) s).
Definition filedesc_create (p : path) (flags : Z) (s : fsys) : Z * fsys :=
  let '(f, s) := file_create p 0 (Z.ldiff flags creation_flags) s in
  new_desc f (negb (Z.land flags o_closexec =? 0)) s.
End files.
Arguments fsys St : clear implicits.
Arguments mk_fsys {St} _ _ _ _ _ _.
Arguments fvfs {St} _.
Arguments files {St} _.
Arguments descs {St} _.
Arguments errno {St} _.
Arguments rng {St} _.
Arguments console {St} _.
