(* ===== verification/FilesSpec.v ===== *)
(** What a tmpfs file promises: it is a list of bytes, and [read], [write] and [trunc]
    refine the operations on lists. *)

From S2P Require Import Prelude Math Pmm Frames Objects Vfs VfsSpec Files.

(** ** The abstract file *)
(** Writing past the end fills the gap with zeros. *)
Definition splice (off : nat) (l c : list Z) : list Z :=
  take off (c ++ replicate (off - length c) 0) ++ l ++ drop (off + length l) c.
Definition resize_to (n : nat) (c : list Z) : list Z := take n c ++ replicate (n - length c) 0.

Inductive fileop := Read (off : nat) (buffer : list Z) | Write (off : nat) (l : list Z) | Trunc (n : nat).
(** What an operation returns and leaves behind; reading starts inside the file. *)
Definition spec_op (op : fileop) (c : list Z) : option (list Z * list Z) :=
  match op with
  | Read off buffer => if decide (off ≤ length c)%nat then Some (take (length buffer) (drop off c), c) else None
  | Write off l => Some ([], splice off l c)
  | Trunc n => Some ([], resize_to n c)
  end.
Fixpoint spec_run (ops : list fileop) (c : list Z) : option (list (list Z) * list Z) :=
  match ops with
  | [] => Some ([], c)
  | op :: ops => '(out, c) ← spec_op op c; '(outs, c) ← spec_run ops c; Some (out :: outs, c)
  end.
(** No offset reaches 2 ^ 62. *)
Definition op_small (op : fileop) : Prop :=
  match op with
  | Read off buffer => Z.of_nat off + Z.of_nat (length buffer) < 2 ^ 62
  | Write off l => Z.of_nat off + Z.of_nat (length l) < 2 ^ 62
  | Trunc n => Z.of_nat n < 2 ^ 62
  end.

Lemma length_splice off l c : length (splice off l c) = ((off + length l) `max` length c)%nat.
Proof. unfold splice. rewrite !length_app, length_take, length_app, length_replicate, length_drop. lia. Qed.
Lemma length_resize_to n c : length (resize_to n c) = n.
Proof. unfold resize_to. rewrite length_app, length_take, length_replicate. lia. Qed.
Lemma zeros_lookup n (x : nat) : default 0 (replicate n 0 !! x) = 0.
Proof. destruct (replicate n 0 !! x) eqn:E; [|done]. apply lookup_replicate in E as [-> _]. done. Qed.
Lemma splice_lookup off l c (x : nat) :
  default 0 (splice off l c !! x) =
  if decide (off ≤ x < off + length l)%nat then default 0 (l !! (x - off)%nat) else default 0 (c !! x).
Proof.
  unfold splice. set (pre := take off _).
  assert (length pre = off) as Hpre by (unfold pre; rewrite length_take, length_app, length_replicate; lia).
  destruct (decide (x < off)%nat).
  - rewrite lookup_app_l by lia. rewrite decide_False by lia. unfold pre. rewrite lookup_take_lt by lia.
    destruct (decide (x < length c)%nat); [by rewrite lookup_app_l by lia|].
    rewrite lookup_app_r, zeros_lookup by lia. by rewrite lookup_ge_None_2 by lia.
  - rewrite lookup_app_r by lia. rewrite Hpre. destruct (decide (x < off + length l)%nat).
    + rewrite lookup_app_l by lia. by rewrite decide_True by lia.
    + rewrite lookup_app_r by lia. rewrite decide_False, lookup_drop by lia. do 2 f_equal. lia.
Qed.
Lemma resize_to_lookup n c (x : nat) :
  default 0 (resize_to n c !! x) = if decide (x < n)%nat then default 0 (c !! x) else 0.
Proof.
  unfold resize_to. destruct (decide (x < length (take n c))%nat) as [Hx|Hx]; rewrite length_take in Hx.
  - rewrite lookup_app_l, lookup_take_lt by (rewrite ?length_take; lia). by rewrite decide_True by lia.
  - rewrite lookup_app_r by (rewrite length_take; lia). rewrite zeros_lookup.
    destruct (decide (x < n)%nat); [|done]. by rewrite lookup_ge_None_2 by lia.
Qed.

(** ** The file *)
Section rep.
Context `{FrameAllocatorLaws St} `{RandomSource}.
Abbreviation fsys := (fsys St).

(** The code of an operation; what is read is what the buffer holds up to the result. *)
Definition exec_op (p : path) (op : fileop) (s : fsys) : outcome (list Z * fsys) :=
  match op with
  | Read off buffer =>
      '(ret, buffer, s) ← tmpfs_read p (Z.of_nat off) buffer s; Done (take (Z.to_nat ret) buffer, s)
  | Write off l => '(_, s) ← tmpfs_write p (Z.of_nat off) l s; Done ([], s)
  | Trunc n => '(_, s) ← tmpfs_trunc p (Z.of_nat n) s; Done ([], s)
  end.
Fixpoint exec_run (p : path) (ops : list fileop) (s : fsys) : outcome (list (list Z) * fsys) :=
  match ops with
  | [] => Done ([], s)
  | op :: ops => '(out, s) ← exec_op p op s; '(outs, s) ← exec_run p ops s; Done (out :: outs, s)
  end.

(** File [p] with inode [i] and memory object [o] holds the bytes [c]; beyond its end the
    object is zero. *)
Record file_rep (s : fsys) (p : path) (i o : Z) (c : list Z) : Prop := {
  fr_inode : ∃ n, inode_ref p s = Done (i, n) ∧ i_mem n = Some o ∧ st_size (i_stat n) = Z.of_nat (length c);
  fr_mem : obj_inv (mem (fvfs s));
  fr_obj : is_Some (objects (mem (fvfs s)) !! o);
  fr_bytes off : 0 ≤ off → byte_at (mem (fvfs s)) o off = default 0 (c !! Z.to_nat off);
  fr_size : Z.of_nat (length c) < 2 ^ 62 }.

(** Only object [o] and inode [i] have changed, and the inode is still of the same kind. *)
Definition only_file (i o : Z) (s s' : fsys) : Prop :=
  dentries (fvfs s') = dentries (fvfs s) ∧ mounts (fvfs s') = mounts (fvfs s) ∧
  (∀ j, j ≠ i → inodes (fvfs s') !! j = inodes (fvfs s) !! j) ∧
  (∀ n, inodes (fvfs s) !! i = Some n → ∃ n', inodes (fvfs s') !! i = Some n' ∧ i_op n' = i_op n ∧
     st_mode (i_stat n') = st_mode (i_stat n)) ∧
  (∀ o' off, o' ≠ o → byte_at (mem (fvfs s')) o' off = byte_at (mem (fvfs s)) o' off).
Lemma only_file_trans i o s1 s2 s3 : only_file i o s1 s2 → only_file i o s2 s3 → only_file i o s1 s3.
Proof.
  intros (Hd & Hm & Hi & Hn & Ho) (Hd' & Hm' & Hi' & Hn' & Ho'). split_and!; try congruence.
  - intros j Hj. by rewrite Hi', Hi.
  - intros n Hin. destruct (Hn n Hin) as (n1 & Hin1 & <- & <-). apply (Hn' n1 Hin1).
  - intros o' off Hne. by rewrite Ho', Ho.
Qed.
Lemma only_file_refl i o s : only_file i o s s.
Proof. split_and!; try done. intros n Hn. by exists n. Qed.

Lemma inode_ref_inv p (s : fsys) i n :
  inode_ref p s = Done (i, n) → ∃ d, dentries (fvfs s) !! dent p = Some d ∧ d_inode d = i ∧ inodes (fvfs s) !! i = Some n.
Proof.
  unfold inode_ref, dentry_of. destruct (dentries (fvfs s) !! dent p) as [d|]; simpl; [|done].
  destruct (inodes (fvfs s) !! d_inode d) as [m|] eqn:E; simpl; [|done]. intros [= <- <-]. by exists d.
Qed.
Lemma inode_ref_eq p (s : fsys) d n :
  dentries (fvfs s) !! dent p = Some d → inodes (fvfs s) !! d_inode d = Some n → inode_ref p s = Done (d_inode d, n).
Proof. intros Hd Hn. unfold inode_ref, dentry_of. rewrite Hd. simpl. by rewrite Hn. Qed.

(** A new size and new contents of the object. *)
Lemma file_rep_update s p i n o c c' m st :
  file_rep s p i o c → inode_ref p s = Done (i, n) → obj_inv m →
  (∀ o', is_Some (objects (mem (fvfs s)) !! o') → is_Some (objects m !! o')) →
  (∀ o' off, o' ≠ o → byte_at m o' off = byte_at (mem (fvfs s)) o' off) →
  (∀ off, 0 ≤ off → byte_at m o off = default 0 (c' !! Z.to_nat off)) →
  st_size st = Z.of_nat (length c') → st_mode st = st_mode (i_stat n) → Z.of_nat (length c') < 2 ^ 62 →
  file_rep (put_stat i n st (set_objects m s)) p i o c' ∧ only_file i o s (put_stat i n st (set_objects m s)).
Proof.
  intros [(n' & Hn' & Ho & Hsz) Hmem Hobj Hbytes Hsize] Hn Hm Hex Hoth Hb Hst Hmode Hlt.
  assert (n' = n) as -> by congruence. destruct (inode_ref_inv _ _ _ _ Hn) as (d & Hd & <- & Hi). split.
  - split; simpl; [|done|by apply Hex|done|done].
    exists (mk_inode (i_op n) st (i_mem n)). split; [|done]. apply inode_ref_eq; [done|]. simpl. by rewrite lookup_insert_eq.
  - split_and!; try done; simpl; [intros j Hj; by rewrite lookup_insert_ne|].
    intros n1 Hn1. assert (n1 = n) as -> by congruence. eexists. rewrite lookup_insert_eq. by split_and!.
Qed.
Lemma file_rep_same_size s p i o c c' m :
  file_rep s p i o c → obj_inv m → length c' = length c →
  (∀ o', is_Some (objects (mem (fvfs s)) !! o') → is_Some (objects m !! o')) →
  (∀ o' off, o' ≠ o → byte_at m o' off = byte_at (mem (fvfs s)) o' off) →
  (∀ off, 0 ≤ off → byte_at m o off = default 0 (c' !! Z.to_nat off)) →
  file_rep (set_objects m s) p i o c' ∧ only_file i o s (set_objects m s).
Proof.
  intros [(n & Hn & Ho & Hsz) Hmem Hobj Hbytes Hsize] Hm Hl Hex Hoth Hb. split; [|split_and!; try done; intros n' Hn'; by exists n'].
  split; simpl; [|done|by apply Hex|done|lia]. exists n. split; [exact Hn|]. by rewrite Hl.
Qed.

(** [div_roundup] aside, the stored size is the size. *)
Lemma set_length_size n st : 0 ≤ n < 2 ^ 62 → st_size (set_length n st) = n.
Proof. intros. simpl. apply s64_small. lia. Qed.

Lemma tmpfs_read_spec s p i o c (off : nat) buffer :
  file_rep s p i o c → (off ≤ length c)%nat → Z.of_nat off + Z.of_nat (length buffer) < 2 ^ 62 →
  tmpfs_read p (Z.of_nat off) buffer s = Panic ∨
  ∃ ret l rest s', tmpfs_read p (Z.of_nat off) buffer s = Done (ret, l ++ rest, s') ∧
    l = take (length buffer) (drop off c) ∧ ret = Z.of_nat (length l) ∧ length (l ++ rest) = length buffer ∧
    file_rep s' p i o c ∧ only_file i o s s' ∧
    (files s', descs s', errno s', rng s', console s') = (files s, descs s, errno s, rng s, console s).
Proof.
  intros Hr Hoff Hlt. pose proof Hr as [(n & Hn & Ho & Hsz) Hmem Hobj Hbytes Hsize].
  unfold tmpfs_read. rewrite Hn. cbn [mbind outcome_bind]. rewrite Hsz.
  rewrite (w64_small (Z.of_nat (length c))), (w64_small (Z.of_nat off + Z.of_nat (length buffer))) by lia.
  set (l := take (length buffer) (drop off c)).
  assert (length l = (length buffer `min` (length c - off))%nat) as Hl
    by (unfold l; rewrite length_take, length_drop; lia).
  set (real_size := if Z.of_nat (length c) <=? _ then _ else _).
  assert (real_size = Z.of_nat (length l)) as ->.
  { unfold real_size. case_test; [|lia]. rewrite (w64_small (Z.of_nat off + _ - _)) by lia. rewrite w64_small by lia. lia. }
  destruct (Z.eqb_spec (Z.of_nat (length l)) 0).
  { right. exists 0, l, buffer, s. assert (l = []) as -> by (apply length_zero_iff_nil; lia). simpl.
    split_and!; try done; apply only_file_refl. }
  rewrite Ho. cbn [deref mbind outcome_bind]. case_test; [lia|]. rewrite Nat2Z.id.
  destruct (read_spec (mem (fvfs s)) o (Z.of_nat off) (take (length l) buffer) Hmem Hobj)
    as [->|(m & -> & Hm & Hex & Hb)]; [lia|rewrite length_take; lia|by left|right]. cbn [mbind outcome_bind].
  rewrite length_take, Nat.min_l by lia. eexists _, _, _, _. split; [reflexivity|].
  assert ((λ j : nat, byte_at (mem (fvfs s)) o (Z.of_nat off + Z.of_nat j)) <$> seq 0 (length l) = l) as E.
  { apply list_eq. intros j. rewrite list_lookup_fmap. destruct (decide (j < length l)%nat).
    - rewrite lookup_seq_lt by done. simpl. rewrite Hbytes by lia. unfold l.
      rewrite lookup_take_lt, lookup_drop by lia.
      replace (Z.to_nat (Z.of_nat off + Z.of_nat j)) with (off + j)%nat by lia.
      destruct (lookup_lt_is_Some_2 c (off + j)) as [x ->]; [lia|done].
    - by rewrite lookup_seq_ge, lookup_ge_None_2 by lia. }
  split; [exact E|]. rewrite E. split; [apply s64_small; lia|].
  split; [rewrite length_app, length_drop; lia|].
  destruct (file_rep_same_size s p i o c c m Hr Hm eq_refl Hex) as [Hr' Ho']; [intros; apply Hb| |done].
  intros x Hx. by rewrite Hb, Hbytes.
Qed.

Lemma tmpfs_write_spec s p i o c (off : nat) l :
  file_rep s p i o c → Z.of_nat off + Z.of_nat (length l) < 2 ^ 62 →
  tmpfs_write p (Z.of_nat off) l s = Panic ∨
  ∃ s', tmpfs_write p (Z.of_nat off) l s = Done (Z.of_nat (length l), s') ∧
    file_rep s' p i o (splice off l c) ∧ only_file i o s s' ∧
    (files s', descs s', errno s', rng s', console s') = (files s, descs s, errno s, rng s, console s).
Proof.
  intros Hr Hlt. pose proof Hr as [(n & Hn & Ho & Hsz) Hmem Hobj Hbytes Hsize].
  unfold tmpfs_write. rewrite Hn. cbn [mbind outcome_bind]. rewrite Hsz, Ho. cbn [deref mbind outcome_bind].
  destruct (write_spec (mem (fvfs s)) o (Z.of_nat off) l Hmem Hobj) as [->|(m & -> & Hm & Hex & Hb)];
    [lia|lia|by left|right]. cbn [mbind outcome_bind].
  rewrite (w64_small (Z.of_nat (length c))), (w64_small (_ + _)), s64_small by lia.
  assert (∀ o' x, o' ≠ o → byte_at m o' x = byte_at (mem (fvfs s)) o' x) as Hoth
    by (intros o' x Hne; rewrite Hb, decide_False by naive_solver; done).
  assert (∀ x, 0 ≤ x → byte_at m o x = default 0 (splice off l c !! Z.to_nat x)) as Hbytes'.
  { intros x Hx. rewrite Hb, splice_lookup. destruct (decide (o = o ∧ Z.of_nat off ≤ x < Z.of_nat off + Z.of_nat (length l))).
    - rewrite decide_True by lia. do 2 f_equal. lia.
    - rewrite decide_False by (intros ?; naive_solver lia). by apply Hbytes. }
  pose proof (length_splice off l c) as Hls. case_test; (eexists; split; [reflexivity|]).
  - destruct (file_rep_update s p i n o c (splice off l c) m (set_length (Z.of_nat off + Z.of_nat (length l)) (i_stat n)))
      as [Hr' Ho']; try done; try lia. rewrite set_length_size; lia.
  - destruct (file_rep_same_size s p i o c (splice off l c) m) as [Hr' Ho']; try done. lia.
Qed.

Lemma tmpfs_trunc_spec s p i o c (k : nat) :
  file_rep s p i o c → Z.of_nat k < 2 ^ 62 →
  tmpfs_trunc p (Z.of_nat k) s = Panic ∨
  ∃ s', tmpfs_trunc p (Z.of_nat k) s = Done (true, s') ∧
    file_rep s' p i o (resize_to k c) ∧ only_file i o s s' ∧
    (files s', descs s', errno s', rng s', console s') = (files s, descs s, errno s, rng s, console s).
Proof.
  intros Hr Hlt. pose proof Hr as [(n & Hn & Ho & Hsz) Hmem Hobj Hbytes Hsize].
  unfold tmpfs_trunc. rewrite Hn. cbn [mbind outcome_bind]. rewrite Hsz, Ho. cbn [deref mbind outcome_bind].
  rewrite (w64_small (Z.of_nat (length c))) by lia. destruct (Z.eqb_spec (Z.of_nat k) (Z.of_nat (length c))).
  { right. exists s. split; [done|]. split; [|split; [apply only_file_refl|done]].
    replace (resize_to k c) with c; [done|].
    unfold resize_to. assert (k = length c) as -> by lia. by rewrite Nat.sub_diag, firstn_all, app_nil_r. }
  assert (∀ a len, 0 ≤ a → 0 ≤ len → a + len < 2 ^ 62 →
    (∀ x, 0 ≤ x → ¬ (a ≤ x < a + len) → default 0 (c !! Z.to_nat x) = default 0 (resize_to k c !! Z.to_nat x)) →
    (∀ x, a ≤ x < a + len → default 0 (resize_to k c !! Z.to_nat x) = 0) →
    let r := ('(_, m) ← clear o a 0 len (mem (fvfs s));
      Done (true, put_stat i n (set_length (Z.of_nat k) (i_stat n)) (set_objects m s))) in
    r = Panic ∨ ∃ s', r = Done (true, s') ∧ file_rep s' p i o (resize_to k c) ∧ only_file i o s s' ∧
    (files s', descs s', errno s', rng s', console s') = (files s, descs s, errno s, rng s, console s)) as Hclear.
  { intros a len Ha Hlen Hal Hout Hin r. unfold r.
    destruct (clear_spec (mem (fvfs s)) o a 0 len Hmem Hobj Ha Hlen ltac:(lia)) as [->|(m & -> & Hm & Hex & Hb)];
      [by left|right]. cbn [mbind outcome_bind]. eexists. split; [reflexivity|].
    destruct (file_rep_update s p i n o c (resize_to k c) m (set_length (Z.of_nat k) (i_stat n))) as [Hr' Ho']; try done.
    - intros o' x Hne. rewrite Hb, decide_False by naive_solver. done.
    - intros x Hx. rewrite Hb. destruct (decide (o = o ∧ a ≤ x < a + len)) as [[_ Hr']|Hno].
      + by rewrite Hin.
      + rewrite <-Hout by naive_solver. by apply Hbytes.
    - rewrite set_length_size, length_resize_to by lia. done.
    - by rewrite length_resize_to. }
  case_test; rewrite w64_small by lia; apply Hclear; try lia; intros x Hx.
  - intros Hno. rewrite resize_to_lookup. destruct (decide (Z.to_nat x < k)%nat); [done|].
    by rewrite lookup_ge_None_2 by lia.
  - rewrite resize_to_lookup, decide_False by lia. done.
  - intros Hno. rewrite resize_to_lookup. destruct (decide (Z.to_nat x < k)%nat); [done|].
    by rewrite lookup_ge_None_2 by lia.
  - rewrite resize_to_lookup. destruct (decide (Z.to_nat x < k)%nat); [|done]. by rewrite lookup_ge_None_2 by lia.
Qed.
End rep.

(** ** Properties *)
Section steps.
Context `{FrameAllocatorLaws St} `{RandomSource}.
Abbreviation fsys := (fsys St).

Lemma exec_op_spec (s : fsys) p i o c op out c' :
  file_rep s p i o c → op_small op → spec_op op c = Some (out, c') →
  exec_op p op s = Panic ∨
  ∃ s', exec_op p op s = Done (out, s') ∧ file_rep s' p i o c' ∧ only_file i o s s'.
Proof.
  intros Hr Hs Hspec. destruct op as [off buffer|off l|k]; simpl in Hspec, Hs |- *.
  - case_decide as Hoff; [|done]. injection Hspec as <- <-.
    destruct (tmpfs_read_spec s p i o c off buffer Hr Hoff Hs) as [->|(ret & l & rest & s' & -> & El & -> & _ & Hr' & Ho & _)];
      [by left|right]. cbn [mbind outcome_bind]. exists s'. split; [|done]. by rewrite Nat2Z.id, take_app_length, El.
  - injection Hspec as <- <-. destruct (tmpfs_write_spec s p i o c off l Hr Hs) as [->|(s' & -> & Hr' & Ho & _)];
      [by left|right]. by exists s'.
  - injection Hspec as <- <-. destruct (tmpfs_trunc_spec s p i o c k Hr Hs) as [->|(s' & -> & Hr' & Ho & _)];
      [by left|right]. by exists s'.
Qed.

(** A new empty object. *)
Definition with_object (m : objstore St) : objstore St :=
  mk_objstore (<[fresh (dom (objects m)) := ∅]> (objects m)) (phys m) (oframes m).
Lemma fresh_object (m : objstore St) : objects m !! fresh (dom (objects m)) = None.
Proof. apply not_elem_of_dom, is_fresh. Qed.
Lemma with_object_inv m : obj_inv m → obj_inv (with_object m).
Proof.
  intros [Hf Hi Hu]. unfold with_object. set (n := fresh _).
  assert (∀ o pages j q, <[n := ∅]> (objects m) !! o = Some pages → pages !! j = Some q → objects m !! o = Some pages) as Hold.
  { intros o pages j q [[<- <-]|[_ Ho]]%lookup_insert_Some Hq; [|done]. by rewrite lookup_empty in Hq. }
  split; simpl; [|intros o1 p1 o2 p2 i1 i2 q H1' H2' Hq1 Hq2; eapply Hi; eauto|done].
  intros o pages j q Ho Hq. by eapply Hf; eauto.
Qed.
Lemma with_object_bytes m o off : byte_at (with_object m) o off = byte_at m o off.
Proof.
  unfold with_object, byte_at. simpl. destruct (decide (o = fresh (dom (objects m)))) as [->|Hne].
  - by rewrite lookup_insert_eq, fresh_object.
  - by rewrite lookup_insert_ne.
Qed.
End steps.

(** Reading behind the end of a file: the number of bytes to read wraps around and the
    buffer is cut to a length it does not have. *)
Lemma tmpfs_read_past_end `{FrameAllocatorLaws St} `{RandomSource} (s : fsys St) p i o c (off : nat) buffer :
  file_rep s p i o c → (length c < off)%nat → Z.of_nat off + Z.of_nat (length buffer) < 2 ^ 62 →
  tmpfs_read p (Z.of_nat off) buffer s = Crash.
Proof.
  intros [(n & Hn & Ho & Hsz) Hmem Hobj Hbytes Hsize] Hoff Hlt. unfold tmpfs_read. rewrite Hn.
  cbn [mbind outcome_bind]. rewrite Hsz, Ho. cbn [deref mbind outcome_bind].
  rewrite (w64_small (Z.of_nat (length c))), (w64_small (Z.of_nat off + Z.of_nat (length buffer))) by lia.
  assert ((Z.of_nat (length c) <=? Z.of_nat off + Z.of_nat (length buffer)) = true) as -> by (apply Z.leb_le; lia).
  rewrite (w64_small (Z.of_nat off + _ - _)) by lia.
  assert (w64 (Z.of_nat (length buffer) - (Z.of_nat off + Z.of_nat (length buffer) - Z.of_nat (length c))) =
    2 ^ 64 - (Z.of_nat off - Z.of_nat (length c))) as ->.
  { unfold w64. symmetry. apply (Z.mod_unique_pos _ _ (- 1)); lia. }
  destruct (Z.eqb_spec (2 ^ 64 - (Z.of_nat off - Z.of_nat (length c))) 0); [lia|].
  destruct (Z.ltb_spec (Z.of_nat (length buffer)) (2 ^ 64 - (Z.of_nat off - Z.of_nat (length c)))); [done|lia].
Qed.

(** The operations on lists do not say what reading behind the end gives. *)
Lemma exec_op_none `{FrameAllocatorLaws St} `{RandomSource} (s : fsys St) p i o c op :
  file_rep s p i o c → op_small op → spec_op op c = None → exec_op p op s = Crash.
Proof.
  intros Hr Hs Hspec. destruct op as [off buffer|off l|k]; simpl in *; try done. case_decide; [done|].
  by rewrite (tmpfs_read_past_end s p i o c off buffer Hr ltac:(lia) Hs).
Qed.

(** C3: a tmpfs file refines a list of bytes: every sequence of reads, writes and truncations in
    which no read starts behind the end of the file returns what the list operations return
    and leaves the file with the resulting list, with zeros beyond its end; no other inode and
    no other object changes.  In every other sequence the first read that starts behind the
    end crashes: the number of bytes to read wraps around.  (Or the kernel panics, as it does
    when no frame is left.) *)
Theorem tmpfs_refines `{FrameAllocatorLaws St} `{RandomSource} (s : fsys St) p i o c ops :
  file_rep s p i o c → Forall op_small ops →
  exec_run p ops s = Panic ∨
  match spec_run ops c with
  | Some (outs, c') => ∃ s', exec_run p ops s = Done (outs, s') ∧ file_rep s' p i o c' ∧ only_file i o s s'
  | None => exec_run p ops s = Crash
  end.
Proof.
  revert s c. induction ops as [|op ops IH]; intros s c Hr Hs.
  { right. exists s. split; [done|]. split; [done|apply only_file_refl]. }
  apply Forall_cons in Hs as [Hop Hs]. cbn [spec_run exec_run].
  destruct (spec_op op c) as [[out c1]|] eqn:E1; cbn [mbind option_bind]; [|right; by rewrite (exec_op_none s p i o c op Hr Hop E1)].
  destruct (exec_op_spec s p i o c op out c1 Hr Hop E1) as [->|(s1 & -> & Hr1 & Ho1)]; [by left|]. cbn [mbind outcome_bind].
  destruct (IH s1 c1 Hr1 Hs) as [->|IH1]; [by left|right].
  destruct (spec_run ops c1) as [[outs1 c2]|]; cbn [mbind option_bind]; [|by rewrite IH1].
  destruct IH1 as (s2 & -> & Hr2 & Ho2). exists s2. split; [done|]. split; [done|]. by eapply only_file_trans.
Qed.

(** A private mapping of a file gets an object of its own with the bytes of the file and
    zeros beyond its end; the file is untouched. *)
Theorem tmpfs_map_private `{FrameAllocatorLaws St} `{RandomSource} (s : fsys St) p i o c :
  file_rep s p i o c →
  tmpfs_map p true s = Panic ∨
  ∃ m s', tmpfs_map p true s = Done (Some m, s') ∧ m ≠ o ∧ objects (mem (fvfs s)) !! m = None ∧
    file_rep s' p i o c ∧ is_Some (objects (mem (fvfs s')) !! m) ∧
    (∀ x, 0 ≤ x → byte_at (mem (fvfs s')) m x = default 0 (c !! Z.to_nat x)) ∧
    (∀ o' x, o' ≠ m → byte_at (mem (fvfs s')) o' x = byte_at (mem (fvfs s)) o' x).
Proof.
  intros Hr. pose proof Hr as [(n & Hn & Ho & Hsz) Hmem Hobj Hbytes Hsize].
  unfold tmpfs_map. rewrite Hn. cbn [mbind outcome_bind]. rewrite Hsz, Ho. cbn [deref mbind outcome_bind].
  rewrite w64_small by lia. set (m := fresh _). pose proof (fresh_object (mem (fvfs s))) as Hm. fold m in Hm.
  assert (o ≠ m) as Hne by (intros ->; destruct Hobj; congruence).
  destruct (copy_to_spec (with_object (mem (fvfs s))) o m 0 (Z.of_nat (length c)))
    as [Hp|(m' & Hp & Hi & Hex & Hb)]; try done; try lia.
  - by apply with_object_inv.
  - unfold with_object. fold m. simpl. by rewrite lookup_insert_ne.
  - unfold with_object. fold m. simpl. rewrite lookup_insert_eq. by eexists.
  - left. unfold with_object in Hp. fold m in Hp. by rewrite Hp.
  - right. unfold with_object in Hp. fold m in Hp. rewrite Hp. cbn [mbind outcome_bind].
    eexists m, _. split; [reflexivity|]. split; [done|]. split; [done|].
    assert (∀ x, byte_at (mem (fvfs s)) m x = 0) as Hzero by (intros x; unfold byte_at; by rewrite Hm).
    assert (∀ o' x, o' ≠ m → byte_at m' o' x = byte_at (mem (fvfs s)) o' x) as Hoth.
    { intros o' x Hno. rewrite Hb, decide_False by naive_solver. apply with_object_bytes. }
    split; [|split; [|split; [|done]]].
    + split; simpl; [by exists n|done| | |done].
      * apply Hex. unfold with_object. fold m. simpl. by rewrite lookup_insert_ne.
      * intros x Hx. rewrite Hoth by done. by apply Hbytes.
    + simpl. apply Hex. unfold with_object. fold m. simpl. rewrite lookup_insert_eq. by eexists.
    + intros x Hx. simpl. rewrite Hb, !with_object_bytes, Hzero, Hbytes by done.
      destruct (decide (m = m ∧ 0 ≤ x < 0 + Z.of_nat (length c))); [done|].
      rewrite lookup_ge_None_2; [done|]. naive_solver lia.
Qed.

