(* ===== verification/SysVfs.v ===== *)
(** The file system calls (kernel/source/system/syscall/vfs.cpp), their table
    (kernel/source/arch/x86_64/system/syscall.cpp) and the wrapper that turns their results
    into what user space sees (kernel/interfaces/lib/syscall.cppm).

    The calls run in a state monad over the file systems, the calling process and its memory.
    A call that fails sets [errno] and returns -1 (or null). *)

From Stdlib Require Import Strings.Ascii.
From S2P Require Import Prelude Math Pmm Frames Objects LibC Vfs Files.
#[local] Open Scope Z_scope.

Definition EPERM : Z := 1.
Definition ENOENT : Z := 2.
Definition EIO : Z := 5.
Definition EBADF : Z := 9.
Definition EACCES : Z := 13.
Definition EFAULT : Z := 14.
Definition ENOTBLK : Z := 15.
Definition EBUSY : Z := 16.
Definition EEXIST : Z := 17.
Definition EXDEV : Z := 18.
Definition ENODEV : Z := 19.
Definition ENOTDIR : Z := 20.
Definition EISDIR : Z := 21.
Definition EINVAL : Z := 22.
Definition EMFILE : Z := 24.
Definition ENOTTY : Z := 25.
Definition ESPIPE : Z := 29.
Definition ERANGE : Z := 34.
Definition ENAMETOOLONG : Z := 36.
Definition ENOSYS : Z := 38.
Definition ENOTEMPTY : Z := 39.
Definition ELOOP : Z := 40.
Definition EOVERFLOW : Z := 75.

Definition at_fdcwd : Z := -100.
Definition at_symlink_nofollow : Z := 0x100.
Definition at_eaccess : Z := 0x200.
Definition at_empty_path : Z := 0x1000.
Definition seek_set : Z := 0.
Definition seek_cur : Z := 1.
Definition seek_end : Z := 2.

(** How the kernel was built, the largest buffer the heap provides, and the error numbers
    that [magic_enum::enum_cast<errnos>] knows. *)
Class SysParams := { debug : bool; alloc_max : Z; errno_known : Z → bool }.

(** What the calls use of [sched::process]. *)
Record process := mk_process
  { p_root : path; p_cwd : path; p_umask : Z; p_ruid : Z; p_rgid : Z; p_euid : Z; p_egid : Z; p_fdt : fdtable }.
Definition set_fdt (t : fdtable) (p : process) : process :=
  mk_process (p_root p) (p_cwd p) (p_umask p) (p_ruid p) (p_rgid p) (p_euid p) (p_egid p) t.

Definition string_of_bytes (l : list Z) : string :=
  foldr (λ c s, String (ascii_of_N (Z.to_N c)) s) EmptyString l.
Fixpoint bytes_of_string (s : string) : list Z :=
  match s with EmptyString => [] | String c s => Z.of_N (N_of_ascii c) :: bytes_of_string s end.

(** The bytes of an integer in memory, and back. *)
Fixpoint le_bytes (n : nat) (x : Z) : list Z :=
  match n with O => [] | S n => x mod 256 :: le_bytes n (x / 256) end.
Fixpoint of_le (l : list Z) : Z := match l with [] => 0 | x :: l => x + 256 * of_le l end.

Section calls.
Context `{PathOps} `{FrameAllocator St} `{RandomSource} `{SysParams}.
(** The bound on the recursion of path resolution. *)
Context (fuel : nat).

Record sys := mk_sys { sfs : fsys St; proc : process; umem : bytemem }.
Definition M (A : Type) : Type := sys → outcome (A * sys).
#[export] Instance M_ret : MRet M := λ A a s, Done (a, s).
#[export] Instance M_bind : MBind M := λ A B f m s, '(a, s) ← m s; f a s.

Definition get_proc : M process := λ s, Done (proc s, s).
Definition put_fdt (t : fdtable) : M unit := λ s, Done ((), mk_sys (sfs s) (set_fdt t (proc s)) (umem s)).
Definition with_fs {A} (f : fsys St → outcome (A * fsys St)) : M A :=
  λ s, '(a, fs) ← f (sfs s); Done (a, mk_sys fs (proc s) (umem s)).
Definition read_fs {A} (f : fsys St → outcome A) : M A := λ s, a ← f (sfs s); Done (a, s).
Definition with_vfs {A} (f : vfs St → outcome (A * vfs St)) : M A :=
  with_fs (λ s, '(a, v) ← f (fvfs s); Done (a, set_vfs v s)).
(** [return (errno = e, r)] *)
Definition fail {A} (e : Z) (r : A) : M A := with_fs (λ s, Done (r, set_errno e s)).
Definition bug_on_debug (c : bool) : M unit := λ s, if debug && c then Panic else Done ((), s).

(** The process as the file systems see it. *)
Definition me (p : process) : caller := mk_caller (Some (p_root p)) (p_euid p) (p_egid p).

(** ** User memory *)
Fixpoint load_bytes (n : nat) (p : Z) (m : bytemem) : outcome (list Z) :=
  match n with O => Done [] | S n => x ← ld p m; l ← load_bytes n (p + 1) m; Done (x :: l) end.
Fixpoint store_bytes (p : Z) (l : list Z) (m : bytemem) : outcome bytemem :=
  match l with [] => Done m | x :: l => m ← st p x m; store_bytes (p + 1) l m end.
Definition copy_from_user (src len : Z) : M (list Z) :=
  λ s, l ← load_bytes (Z.to_nat len) src (umem s); Done (l, s).
Definition copy_to_user (dest : Z) (l : list Z) : M unit :=
  λ s, m ← store_bytes dest l (umem s); Done ((), mk_sys (sfs s) (proc s) m).
Definition strnlen_user (str len : Z) : M Z := λ s, n ← strnlen str (Z.to_nat len) (umem s); Done (n, s).
(** [lib::membuffer { count }]: not initialised; the heap panics when it is exhausted. *)
Definition membuffer (count : Z) : M (list Z) :=
  λ s, if alloc_max <? count then Panic else Done (replicate (Z.to_nat count) (w8 (junk (fvfs (sfs s)))), s).

(** ** Descriptors and paths *)
Definition get_fd (fdnum : Z) : M (option Z) :=
  if fdnum <? 0 then fail EBADF None else
  p ← get_proc;
  match fd_get fdnum (p_fdt p) with Some d => mret (Some d) | None => fail EBADF None end.
Definition desc_of (d : Z) : M filedesc := read_fs (λ s, deref (descs s !! d)).
(** [fd->file] *)
Definition file_at (d : Z) : M (Z * file) :=
  fd ← desc_of d;
  f ← read_fs (file_of (fd_file fd));
  mret (fd_file fd, f).
(** [path.dentry->inode->stat] *)
Definition stat_of (p : path) : M stat := read_fs (λ s, '(_, n) ← inode_ref p s; Done (i_stat n)).
Definition change_stat (p : path) (f : fsys St → stat → stat) : M unit :=
  with_fs (λ s, '(i, n) ← inode_ref p s; Done ((), put_stat i n (f s (i_stat n)) s)).
Definition touch (p : path) (flags : Z) : M unit := change_stat p (λ s, update_time (clock (fvfs s)) flags).

Definition get_parent (dirfd : Z) (p : string) : M (option path) :=
  pr ← get_proc;
  if is_absolute p then r ← read_fs (λ s, get_root (me pr) true (fvfs s)); mret (Some r) else
  if dirfd =? at_fdcwd then mret (Some (p_cwd pr)) else
  fd ← get_fd dirfd;
  match fd with
  | None => mret None
  | Some d =>
      '(_, f) ← file_at d;
      st ← stat_of (f_path f);
      if negb (st_type st =? s_ifdir) then fail ENOTDIR None else mret (Some (f_path f))
  end.

Definition map_error (err : error) : outcome Z :=
  match err with
  | todo => Done ENOSYS
  | already_exists => Done EEXIST
  | not_found => Done ENOENT
  | not_a_dir => Done ENOTDIR
  | not_a_block => Done ENOTBLK
  | symloop_max_exceeded => Done ELOOP
  | target_is_a_dir => Done EISDIR
  | target_is_busy => Done EBUSY
  | dir_not_empty => Done ENOTEMPTY
  | different_filesystem => Done EXDEV
  | invalid_filesystem => Done ENODEV
  | invalid_mount => Done EINVAL
  | invalid_symlink => Done EINVAL
  | invalid_device => Panic
  | invalid_type => Panic
  end.
(** [return (errno = map_error(err), r)] *)
Definition fail_with {A} (err : error) (r : A) : M A := e ← read_fs (λ _, map_error err); fail e r.

Definition resolve_from (dirfd : Z) (p : string) : M (option resolve_res) :=
  parent ← get_parent dirfd p;
  match parent with
  | None => mret None
  | Some q =>
      pr ← get_proc;
      res ← with_vfs (resolve fuel (me pr) (Some q) p);
      match res with Unexpected e => fail_with e None | Value r => mret (Some r) end
  end.

Definition get_path (pathname : Z) : M (option string) :=
  if pathname =? 0 then fail EFAULT None else
  pathname_len ← strnlen_user pathname path_max;
  if pathname_len =? 0 then fail EINVAL None else
  if pathname_len =? path_max then fail ENAMETOOLONG None else
  l ← copy_from_user pathname pathname_len;
  mret (Some (normalise (string_of_bytes l))).

Definition get_target (dirfd pathname : Z) (follow_links empty_path : bool) : M (option path) :=
  pr ← get_proc;
  if empty_path then
    if dirfd =? at_fdcwd then mret (Some (p_cwd pr)) else
    fd ← get_fd dirfd;
    match fd with
    | None => mret None
    | Some d => '(_, f) ← file_at d; mret (Some (f_path f))
    end
  else
    val ← get_path pathname;
    match val with
    | None => mret None
    | Some p =>
        res ← resolve_from dirfd p;
        match res with
        | None => mret None
        | Some res =>
            if negb follow_links then mret (Some (r_target res)) else
            reduced ← with_vfs (reduce fuel (me pr) (r_parent res) (r_target res) symloop_max);
            match reduced with Unexpected e => fail_with e None | Value q => mret (Some q) end
        end
    end.

(** ** [openat] *)
(** The file to open: [None] when the call fails. *)
Definition create_target (dirfd : Z) (p : string) (mode : Z) : M (option path) :=
  pr ← get_proc;
  parent ← resolve_from dirfd (normalise (dirname p));
  match parent with
  | None => mret None
  | Some parent =>
      st ← stat_of (r_target parent);
      if negb (st_type st =? s_ifdir) then fail ENOTDIR None else
      created ← with_vfs (create fuel (me pr) (Some (r_target parent)) (normalise (basename p))
                           (Z.ldiff mode (p_umask pr)) 0);
      match created with
      | Unexpected e => fail_with e None
      | Value created =>
          (* [lib::bug_on(!created->dentry || created->dentry->inode)] *)
          _ ← bug_on_debug true;
          parent_stat ← stat_of (r_target parent);
          let gid := if has s_isgid (mode_of parent_stat) then st_gid parent_stat else p_egid pr in
          _ ← change_stat created (λ _, set_owner (p_euid pr) gid);
          mret (Some created)
      end
  end.
Definition open_target (dirfd : Z) (p : string) (flags mode : Z) : M (option path) :=
  pr ← get_proc;
  res ← resolve_from dirfd p;
  match res with
  | None => if negb (has o_creat flags) then mret None else create_target dirfd p mode
  | Some res =>
      if has o_excl flags && has o_creat flags then fail EEXIST None else
      if negb (Z.land flags o_nofollow =? 0) then mret (Some (r_target res)) else
      reduced ← with_vfs (reduce fuel (me pr) (r_parent res) (r_target res) symloop_max);
      match reduced with Unexpected e => fail_with e None | Value q => mret (Some q) end
  end.
(** The descriptor for the file. *)
Definition allocate (d fd : Z) (force : bool) : M Z :=
  pr ← get_proc;
  '(fd, t) ← (λ s, r ← allocate_fd d fd force (p_fdt pr); Done (r, s));
  _ ← put_fdt t;
  mret fd.
Definition open_file (target : path) (flags : Z) : M Z :=
  st ← stat_of target;
  if (st_type st =? s_ifdir) && is_write flags then fail EISDIR (-1) else
  if negb (st_type st =? s_ifdir) && has o_directory flags then fail ENOTDIR (-1) else
  fdesc ← with_fs (λ s, Done (filedesc_create target flags s));
  fd ← allocate fdesc 0 false;
  if fd <? 0 then fail EMFILE (-1) else
  '(file, _) ← file_at fdesc;
  opened ← read_fs (file_open file);
  if negb opened then
    pr ← get_proc;
    _ ← put_fdt (snd (fd_close fd (p_fdt pr)));
    fail EIO (-1)
  else if has o_trunc flags then
    ok ← with_fs (file_trunc file 0);
    if negb ok then fail EINVAL (-1) else
    _ ← touch target (Z.lor time_modify time_status);
    mret fd
  else mret fd.

Definition openat (dirfd pathname flags mode : Z) : M Z :=
  if has o_tmpfile flags && negb (is_write flags) then fail EINVAL (-1) else
  if has o_directory flags && has o_creat flags then fail EINVAL (-1) else
  let mode := Z.land mode 0xFFF in
  val ← get_path pathname;
  match val with
  | None => mret (-1)
  | Some p =>
      target ← open_target dirfd p flags mode;
      match target with None => mret (-1) | Some target => open_file target flags end
  end.
Definition open (pathname flags mode : Z) : M Z := openat at_fdcwd pathname flags mode.
Definition creat (pathname mode : Z) : M Z :=
  openat at_fdcwd pathname (Z.lor o_creat (Z.lor o_wronly o_trunc)) mode.

Definition close (fd : Z) : M Z :=
  fdesc ← get_fd fd;
  match fdesc with
  | None => mret (-1)
  | Some d =>
      '(file, _) ← file_at d;
      closed ← read_fs (file_close file);
      if negb closed then fail EIO (-1) else
      pr ← get_proc;
      let '(ok, t) := fd_close fd (p_fdt pr) in
      _ ← put_fdt t;
      _ ← bug_on_debug (negb ok);
      mret 0
  end.

(** ** Input and output *)
(** The tests at the start of the calls that read or write. *)
Definition open_for (fd : Z) (may : Z → bool) : M (option (Z * file)) :=
  fdesc ← get_fd fd;
  match fdesc with
  | None => mret None
  | Some d =>
      '(i, f) ← file_at d;
      if negb (may (f_flags f)) then fail EBADF None else mret (Some (i, f))
  end.
(** [read] and [pread], which differ in the call on the file. *)
Definition read_from (fd buf count : Z) (op : Z → list Z → fsys St → outcome (Z * list Z * fsys St)) : M Z :=
  o ← open_for fd is_read;
  match o with
  | None => mret (-1)
  | Some (i, f) =>
      st ← stat_of (f_path f);
      if st_type st =? s_ifdir then fail EISDIR (-1) else
      buffer ← membuffer count;
      '(ret, buffer) ← with_fs (op i buffer);
      if ret <? 0 then fail (s32 (- ret)) (-1) else
      _ ← (if 0 <? ret then copy_to_user buf (take (Z.to_nat ret) buffer) else mret ());
      _ ← touch (f_path f) time_access;
      mret ret
  end.
Definition read (fd buf count : Z) : M Z := read_from fd buf count file_read.
Definition pread (fd buf count offset : Z) : M Z := read_from fd buf count (λ i, file_pread i (w64 offset)).

Definition write_to (fd buf count : Z) (op : Z → list Z → fsys St → outcome (Z * fsys St)) : M Z :=
  o ← open_for fd is_write;
  match o with
  | None => mret (-1)
  | Some (i, f) =>
      _ ← membuffer count;
      buffer ← copy_from_user buf count;
      ret ← with_fs (op i buffer);
      if ret <? 0 then fail (s32 (- ret)) (-1) else
      _ ← touch (f_path f) (Z.lor time_modify time_status);
      mret ret
  end.
Definition write (fd buf count : Z) : M Z := write_to fd buf count file_write.
Definition pwrite (fd buf count offset : Z) : M Z := write_to fd buf count (λ i, file_pwrite i (w64 offset)).

(** Element [i] of an array of [struct iovec]. *)
Definition load_iovec (iov i : Z) : M (Z * Z) :=
  l ← copy_from_user (iov + 16 * i) 16;
  mret (of_le (take 8 l), of_le (drop 8 l)).
(** The loops over the vectors; [n] is the number of elements that are left, [None] a call
    that fails.  [op] is the call on the file with the bytes handled so far. *)
Fixpoint readv_loop (n : nat) (i iov total : Z)
    (op : Z → list Z → fsys St → outcome (Z * list Z * fsys St)) : M (option Z) :=
  match n with
  | O => mret (Some total)
  | S n =>
      '(base, len) ← load_iovec iov i;
      buffer ← membuffer len;
      '(ret, buffer) ← with_fs (op total buffer);
      if ret <? 0 then fail (s32 (- ret)) None else
      if ret =? 0 then mret (Some total) else
      _ ← copy_to_user base (take (Z.to_nat ret) buffer);
      readv_loop n (i + 1) iov (w64 (total + ret)) op
  end.
Fixpoint writev_loop (n : nat) (i iov total : Z)
    (op : Z → list Z → fsys St → outcome (Z * fsys St)) : M (option Z) :=
  match n with
  | O => mret (Some total)
  | S n =>
      '(base, len) ← load_iovec iov i;
      _ ← membuffer len;
      buffer ← copy_from_user base len;
      ret ← with_fs (op total buffer);
      if ret <? 0 then fail (s32 (- ret)) None else
      writev_loop n (i + 1) iov (w64 (total + ret)) op
  end.
Definition readv_from (fd iov iovcnt : Z)
    (op : Z → Z → list Z → fsys St → outcome (Z * list Z * fsys St)) : M Z :=
  o ← open_for fd is_read;
  match o with
  | None => mret (-1)
  | Some (i, f) =>
      total ← readv_loop (Z.to_nat iovcnt) 0 iov 0 (op i);
      match total with
      | None => mret (-1)
      | Some total => _ ← touch (f_path f) time_access; mret (s64 total)
      end
  end.
Definition writev_to (fd iov iovcnt : Z)
    (op : Z → Z → list Z → fsys St → outcome (Z * fsys St)) : M Z :=
  o ← open_for fd is_write;
  match o with
  | None => mret (-1)
  | Some (i, f) =>
      total ← writev_loop (Z.to_nat iovcnt) 0 iov 0 (op i);
      match total with
      | None => mret (-1)
      | Some total => _ ← touch (f_path f) (Z.lor time_modify time_status); mret (s64 total)
      end
  end.
Definition readv (fd iov iovcnt : Z) : M Z := readv_from fd iov iovcnt (λ i _, file_read i).
Definition writev (fd iov iovcnt : Z) : M Z := writev_to fd iov iovcnt (λ i _, file_write i).
Definition preadv (fd iov iovcnt offset : Z) : M Z :=
  readv_from fd iov iovcnt (λ i total, file_pread i (w64 (offset + total))).
Definition pwritev (fd iov iovcnt offset : Z) : M Z :=
  writev_to fd iov iovcnt (λ i total, file_pwrite i (w64 (offset + total))).

Definition off_max : Z := 2 ^ 63 - 1.
(** The offset that [lseek] computes, or its error. *)
Definition seek_offset (cur size offset whence : Z) : expected Z Z :=
  if whence =? seek_set then Value (w64 offset)
  else if whence =? seek_cur then
    if off_max <? w64 (cur + offset) then Unexpected EOVERFLOW else Value (w64 (cur + offset))
  else if whence =? seek_end then
    if off_max <? w64 (size + offset) then Unexpected EOVERFLOW else Value (w64 (size + offset))
  else Unexpected EINVAL.
Definition lseek (fd offset whence : Z) : M Z :=
  fdesc ← get_fd fd;
  match fdesc with
  | None => mret (-1)
  | Some d =>
      '(i, f) ← file_at d;
      st ← stat_of (f_path f);
      if (st_type st =? s_ifsock) || (st_type st =? s_ififo) then fail ESPIPE (-1) else
      match seek_offset (f_offset f) (w64 (st_size st)) offset whence with
      | Unexpected e => fail e (-1)
      | Value new_offset =>
          if s64 new_offset <? 0 then fail EOVERFLOW (-1) else
          _ ← with_fs (λ s, Done ((), put_file i (mk_file (f_path f) new_offset (f_flags f)) s));
          mret (s64 new_offset)
      end
  end.

(** ** Information about files *)
Definition timespec_bytes (t : Z) : list Z := le_bytes 8 (t / 1000000000) ++ le_bytes 8 (t mod 1000000000).
(** [struct stat] in memory; the four bytes after [st_mode] are padding. *)
Definition stat_bytes (pad : Z) (st : stat) : list Z :=
  le_bytes 8 (st_dev st) ++ le_bytes 8 (st_ino st) ++ le_bytes 4 (st_mode st) ++ replicate 4 pad ++
  le_bytes 8 (st_nlink st) ++ le_bytes 4 (st_uid st) ++ le_bytes 4 (st_gid st) ++ le_bytes 8 (st_rdev st) ++
  le_bytes 8 (st_size st) ++ le_bytes 8 (st_blksize st) ++ le_bytes 8 (st_blocks st) ++
  timespec_bytes (st_atim st) ++ timespec_bytes (st_mtim st) ++ timespec_bytes (st_ctim st).

Definition fstatat (dirfd pathname statbuf flags : Z) : M Z :=
  let follow_links := Z.land flags at_symlink_nofollow =? 0 in
  let empty_path := has at_empty_path flags in
  target ← get_target dirfd pathname follow_links empty_path;
  match target with
  | None => mret (-1)
  | Some target =>
      st ← stat_of target;
      pad ← read_fs (λ s, Done (w8 (junk (fvfs s))));
      _ ← copy_to_user statbuf (stat_bytes pad st);
      mret 0
  end.
Definition sys_stat (pathname statbuf : Z) : M Z := fstatat at_fdcwd pathname statbuf 0.
Definition fstat (fd statbuf : Z) : M Z := fstatat fd 0 statbuf at_empty_path.
Definition lstat (pathname statbuf : Z) : M Z := fstatat at_fdcwd pathname statbuf at_symlink_nofollow.

Definition faccessat (dirfd pathname mode flags : Z) : M Z :=
  pr ← get_proc;
  let follow_links := Z.land flags at_symlink_nofollow =? 0 in
  let empty_path := has at_empty_path flags in
  let eaccess := has at_eaccess flags in
  target ← get_target dirfd pathname follow_links empty_path;
  match target with
  | None => mret (-1)
  | Some target =>
      if mode =? f_ok then mret 0 else
      let uid := if eaccess then p_euid pr else p_ruid pr in
      let gid := if eaccess then p_egid pr else p_rgid pr in
      if Z.land mode (Z.lor x_ok (Z.lor w_ok r_ok)) =? 0 then fail EINVAL (-1) else
      st ← stat_of target;
      if negb (check_access uid gid st mode) then fail EACCES (-1) else mret 0
  end.
Definition access (pathname mode : Z) : M Z := faccessat at_fdcwd pathname mode 0.

(** ** Descriptors *)
Definition ioctl (fd : Z) : M Z :=
  fdesc ← get_fd fd;
  match fdesc with
  | None => mret (-1)
  | Some d =>
      '(i, f) ← file_at d;
      st ← stat_of (f_path f);
      if negb (st_type st =? s_ifchr) then fail ENOTTY (-1) else with_fs (file_ioctl i)
  end.

Definition dup (oldfd : Z) : M Z :=
  fdesc ← get_fd oldfd;
  match fdesc with
  | None => mret (-1)
  | Some d =>
      fd ← desc_of d;
      newfdesc ← with_fs (λ s, Done (new_desc (fd_file fd) false s));
      new_fd ← allocate newfdesc 0 false;
      if new_fd <? 0 then fail EMFILE (-1) else mret new_fd
  end.
(** [dup2], and [dup3] after its first test. *)
Definition dup_to (oldfd newfd : Z) (cloexec : bool) : M Z :=
  if (oldfd <? 0) || (newfd <? 0) then fail EBADF (-1) else
  pr ← get_proc;
  match fd_get oldfd (p_fdt pr) with
  | None => fail EBADF (-1)
  | Some d =>
      fdesc ← desc_of d;
      newfdesc ← with_fs (λ s, Done (new_desc (fd_file fdesc) cloexec s));
      fd ← allocate newfdesc newfd true;
      if fd <? 0 then fail EMFILE (-1) else mret fd
  end.
Definition dup2 (oldfd newfd : Z) : M Z := dup_to oldfd newfd false.
Definition dup3 (oldfd newfd flags : Z) : M Z :=
  if (oldfd =? newfd) || negb (Z.ldiff flags o_closexec =? 0) then fail EINVAL (-1)
  else dup_to oldfd newfd (has o_closexec flags).

Definition set_closexec (d : Z) (b : bool) : M unit :=
  fd ← desc_of d;
  with_fs (λ s, Done ((), put_desc d (mk_filedesc (fd_file fd) b) s)).
Definition fcntl (fd cmd arg : Z) : M Z :=
  fdesc ← get_fd fd;
  match fdesc with
  | None => mret (-1)
  | Some d =>
      if cmd =? 0 (* F_DUPFD *) then dup (s32 arg)
      else if cmd =? 1030 (* F_DUPFD_CLOEXEC *) then
        newfd ← dup (s32 arg);
        if newfd <? 0 then mret (-1) else
        pr ← get_proc;
        match fd_get newfd (p_fdt pr) with
        | None => λ s, Panic
        | Some d => _ ← set_closexec d true; mret newfd
        end
      else if cmd =? 1 (* F_GETFD *) then
        fd ← desc_of d; mret (if closexec fd then o_closexec else 0)
      else if cmd =? 2 (* F_SETFD *) then
        _ ← set_closexec d (has o_closexec arg); mret 0
      else if cmd =? 3 (* F_GETFL *) then
        '(_, f) ← file_at d; mret (f_flags f)
      else if cmd =? 4 (* F_SETFL *) then
        '(i, f) ← file_at d;
        let new_flags := Z.land (s32 arg) changeable_status_flags in
        _ ← with_fs (λ s, Done ((), put_file i (mk_file (f_path f) (f_offset f)
              (Z.lor (Z.ldiff (f_flags f) changeable_status_flags) new_flags)) s));
        mret 0
      else fail EINVAL (-1)
  end.

Definition getcwd (buf size : Z) : M Z :=
  pr ← get_proc;
  path_str ← read_fs (λ s, pathname_from fuel (p_cwd pr) (fvfs s));
  let l := bytes_of_string path_str in
  if size <? Z.of_nat (length l) + 1 then fail ERANGE 0 else
  _ ← copy_to_user buf (l ++ [0]);
  mret buf.

(** ** The table of system calls *)
Definition default_checker (val : Z) : bool := s64 val <? 0.
Definition getcwd_checker (val : Z) : bool := val =? 0.
(** [entry::invoke]: [errno] is cleared, and a result that the checker calls a failure is
    replaced by the negated error number. *)
Definition invoke (check : Z → bool) (handler : M Z) : M Z :=
  _ ← with_fs (λ s, Done ((), set_errno 0 s));
  ret ← handler;
  let uptr_ret := w64 ret in
  e ← read_fs (λ s, Done (errno s));
  mret (if errno_known e && check uptr_ret then w64 (- e) else uptr_ret).

(** Conversion of a register to [int]. *)
Definition to_int (r : Z) : Z := s32 r.
(** The calls of this file; the arguments are the registers rdi, rsi, rdx and r10. *)
Definition vfs_call (idx a b c d : Z) : option (M Z) :=
  match idx with
  | 0 => Some (read (to_int a) b c)
  | 1 => Some (write (to_int a) b c)
  | 2 => Some (open a (to_int b) (w32 c))
  | 3 => Some (close (to_int a))
  | 4 => Some (sys_stat a b)
  | 5 => Some (fstat (to_int a) b)
  | 6 => Some (lstat a b)
  | 8 => Some (lseek (to_int a) (s64 b) (to_int c))
  | 16 => Some (ioctl (to_int a))
  | 17 => Some (pread (to_int a) b c (s64 d))
  | 18 => Some (pwrite (to_int a) b c (s64 d))
  | 19 => Some (readv (to_int a) b (to_int c))
  | 20 => Some (writev (to_int a) b (to_int c))
  | 21 => Some (access a (to_int b))
  | 32 => Some (dup (to_int a))
  | 33 => Some (dup2 (to_int a) (to_int b))
  | 72 => Some (fcntl (to_int a) (to_int b) c)
  | 79 => Some (getcwd a b)
  | 85 => Some (creat a (w32 b))
  | 257 => Some (openat (to_int a) b (to_int c) (w32 d))
  | 262 => Some (fstatat (to_int a) b c (to_int d))
  | 269 => Some (faccessat (to_int a) b (to_int c) (to_int d))
  | 292 => Some (dup3 (to_int a) (to_int b) (to_int c))
  | 295 => Some (preadv (to_int a) b (to_int c) (s64 d))
  | 296 => Some (pwritev (to_int a) b (to_int c) (s64 d))
  | _ => None
  end.
Definition checker_of (idx : Z) : Z → bool := if idx =? 79 then getcwd_checker else default_checker.
(** [syscall_handler]: what it leaves in rax. *)
Definition vfs_syscall (idx a b c d : Z) : option (M Z) := invoke (checker_of idx) <$> vfs_call idx a b c d.
End calls.
Arguments sys St : clear implicits.
Arguments mk_sys {St} _ _ _.
Arguments sfs {St} _.
Arguments proc {St} _.
Arguments umem {St} _.
