(* ===== verification/SysSpec.v ===== *)
(** Properties of the file system calls: error reporting, the offset of a file, and a round
    trip from user memory through a file and back. *)

From S2P Require Import Prelude Math Pmm Frames Objects LibC LibCSpec Vfs VfsTables VfsSpec Files FilesSpec SysVfs.
#[local] Open Scope Z_scope.

(** ** Triples about [errno] *)
(** Error numbers up to [EOVERFLOW]; 41 and 58 are not in use. *)
Definition some_error (e : Z) : Prop := 1 ≤ e ≤ 75 ∧ e ≠ 41 ∧ e ≠ 58.
Definition no_or_error (e : Z) : Prop := e = 0 ∨ some_error e.
(** Results: [None] and -1 are failures. *)
Definition opt_ok {A} (o : option A) (e : Z) : Prop := match o with None => some_error e | Some _ => no_or_error e end.
#[export] Instance some_error_dec e : Decision (some_error e).
Proof. unfold some_error. apply _. Defined.
Lemma error_number e : bool_decide (some_error e) = true → some_error e.
Proof. by intros ?%bool_decide_eq_true. Qed.
(** A result is -1 or a value. *)
Definition ret_ok (r e : Z) : Prop := r = -1 ∧ some_error e ∨ 0 ≤ r ∧ no_or_error e.

Section triples.
Context `{PathOps} `{FrameAllocator St} `{RandomSource} `{SysParams} (fuel : nat).
Abbreviation M := (M (St := St)).

(** Running a sequence. *)
Lemma run_bind {A B} (m : M A) (k : A → M B) s : (m ≫= k) s = ('(a, s) ← m s; k a s).
Proof. reflexivity. Qed.
Lemma run_ret {A} (a : A) (s : sys St) : (mret a : M A) s = Done (a, s).
Proof. reflexivity. Qed.

(** If [m] returns, then [Q] holds of the result and of [errno]. *)
Definition triple {A} (P : Z → Prop) (m : M A) (Q : A → Z → Prop) : Prop :=
  ∀ s a s', P (errno (sfs s)) → m s = Done (a, s') → Q a (errno (sfs s')).

Lemma triple_ret {A} (P : Z → Prop) (a : A) (Q : A → Z → Prop) : (∀ e, P e → Q a e) → triple P (mret a) Q.
Proof. intros HQ s b s' HP [= <- <-]. auto. Qed.
Lemma triple_bind {A B} P (m : M A) (R : A → Z → Prop) (k : A → M B) Q :
  triple P m R → (∀ a, triple (R a) (k a) Q) → triple P (m ≫= k) Q.
Proof.
  intros Hm Hk s b s' HP. rewrite run_bind. destruct (m s) as [[a s1]| | | |] eqn:E; cbn [mbind outcome_bind]; try done.
  intros Hb. eapply Hk; [|exact Hb]. by eapply Hm.
Qed.
Lemma triple_weaken {A} P P' (m : M A) Q Q' :
  triple P m Q → (∀ e, P' e → P e) → (∀ a e, Q a e → Q' a e) → triple P' m Q'.
Proof. intros Hm HP HQ s a s' Hs E. eapply HQ, Hm; [|done]. auto. Qed.
Lemma triple_fail {A} P e (r : A) Q : Q r e → triple P (fail e r) Q.
Proof. intros HQ s a s' _ [= <- <-]. done. Qed.
Lemma triple_panic {A} P Q : triple P (λ s, Panic : outcome (A * sys St)) Q.
Proof. done. Qed.

(** Steps that leave [errno] alone. *)
Definition silent {A} (m : M A) : Prop := ∀ s a s', m s = Done (a, s') → errno (sfs s') = errno (sfs s).
Lemma triple_silent {A} (P : Z → Prop) (m : M A) : silent m → triple P m (λ _, P).
Proof. intros Hm s a s' HP E. by rewrite (Hm _ _ _ E). Qed.
Lemma silent_proc : silent get_proc.
Proof. by intros s a s' [= <- <-]. Qed.
Lemma silent_put_fdt t : silent (put_fdt t).
Proof. by intros s a s' [= <- <-]. Qed.
Lemma silent_read_fs {A} (f : fsys St → outcome A) : silent (read_fs f).
Proof. intros s a s'. unfold read_fs. destruct (f (sfs s)); simpl; [|done..]. by intros [= <- <-]. Qed.
Lemma silent_with_vfs {A} (f : vfs St → outcome (A * vfs St)) : silent (with_vfs f).
Proof.
  intros s a s'. unfold with_vfs, with_fs. destruct (f (fvfs (sfs s))) as [[b v]| | | |]; simpl; [|done..].
  by intros [= <- <-].
Qed.
Lemma silent_with_fs {A} (f : fsys St → outcome (A * fsys St)) :
  (∀ s a s', f s = Done (a, s') → errno s' = errno s) → silent (with_fs f).
Proof.
  intros Hf s a s'. unfold with_fs. destruct (f (sfs s)) as [[b v]| | | |] eqn:E; simpl; [|done..].
  intros [= <- <-]. simpl. by eapply Hf.
Qed.
Lemma silent_copy_from_user src len : silent (copy_from_user src len).
Proof. intros s a s'. unfold copy_from_user. destruct (load_bytes _ _ _); simpl; [|done..]. by intros [= <- <-]. Qed.
Lemma silent_copy_to_user dest l : silent (copy_to_user dest l).
Proof. intros s a s'. unfold copy_to_user. destruct (store_bytes _ _ _); simpl; [|done..]. by intros [= <- <-]. Qed.
Lemma silent_strnlen_user str len : silent (strnlen_user str len).
Proof. intros s a s'. unfold strnlen_user. destruct (strnlen _ _ _); simpl; [|done..]. by intros [= <- <-]. Qed.
Lemma silent_membuffer n : silent (membuffer n).
Proof. intros s a s'. unfold membuffer. destruct (alloc_max <? n); [done|]. by intros [= <- <-]. Qed.
Lemma silent_bug_on b : silent (bug_on_debug b).
Proof. intros s a s'. unfold bug_on_debug. destruct (debug && b); [done|]. by intros [= <- <-]. Qed.
Lemma silent_ret {A} (a : A) : silent (mret a).
Proof. by intros s b s' [= <- <-]. Qed.
Lemma silent_bind {A B} (m : M A) (k : A → M B) : silent m → (∀ a, silent (k a)) → silent (m ≫= k).
Proof.
  intros Hm Hk s b s'. rewrite run_bind. destruct (m s) as [[a s1]| | | |] eqn:E; cbn [mbind outcome_bind]; try done.
  intros Hb. by rewrite (Hk _ _ _ _ Hb), (Hm _ _ _ E).
Qed.
Lemma silent_desc_of d : silent (desc_of d).
Proof. apply silent_read_fs. Qed.
Lemma silent_file_at d : silent (file_at d).
Proof.
  apply silent_bind; [apply silent_desc_of|]. intros fd. apply silent_bind; [apply silent_read_fs|].
  intros f. apply silent_ret.
Qed.
Lemma silent_stat_of p : silent (stat_of p).
Proof. apply silent_read_fs. Qed.
Lemma silent_change_stat p f : silent (change_stat p f).
Proof.
  apply silent_with_fs. intros s a s'. destruct (inode_ref p s) as [[i n]| | | |]; simpl; [|done..]. by intros [= <- <-].
Qed.
Lemma silent_touch p fl : silent (touch p fl).
Proof. apply silent_change_stat. Qed.
Lemma silent_allocate d fd force : silent (allocate d fd force).
Proof.
  apply silent_bind; [apply silent_proc|]. intros pr. apply silent_bind.
  - intros s a s'. destruct (allocate_fd _ _ _ _); simpl; [|done..]. by intros [= <- <-].
  - intros [fd' t]. apply silent_bind; [apply silent_put_fdt|]. intros _. apply silent_ret.
Qed.
Lemma silent_load_iovec iov i : silent (load_iovec iov i).
Proof. apply silent_bind; [apply silent_copy_from_user|]. intros l. apply silent_ret. Qed.
Lemma silent_set_closexec d b : silent (set_closexec d b).
Proof. apply silent_bind; [apply silent_desc_of|]. intros fd. apply silent_with_fs. by intros s a s' [= <- <-]. Qed.
End triples.

Create HintDb silent discriminated.
#[export] Hint Resolve silent_proc silent_put_fdt silent_read_fs silent_with_vfs silent_copy_from_user silent_copy_to_user
  silent_strnlen_user silent_membuffer silent_bug_on silent_desc_of silent_file_at silent_stat_of silent_change_stat
  silent_touch silent_allocate silent_load_iovec silent_set_closexec silent_ret : silent.

(** ** Every call reports an error number when it fails *)
Section errors.
Context `{PathOps} `{FrameAllocator St} `{RandomSource} `{SysParams} (fuel : nat).
Abbreviation M := (M (St := St)).
Abbreviation opt m := (triple no_or_error m opt_ok).
Abbreviation call m := (triple no_or_error m ret_ok).

Lemma triple_step {A B} P (m : M A) (k : A → M B) Q :
  silent m → (∀ a, triple P (k a) Q) → triple P (m ≫= k) Q.
Proof. intros Hm Hk. apply (triple_bind P m (λ _, P)); [by apply triple_silent|done]. Qed.
(** A step that fails with [None]. *)
Lemma triple_opt {A B} (m : M (option A)) (k : option A → M B) Q :
  opt m → triple some_error (k None) Q → (∀ a, triple no_or_error (k (Some a)) Q) → triple no_or_error (m ≫= k) Q.
Proof. intros Hm Hn Hs. eapply triple_bind; [exact Hm|]. intros [a|]; simpl; [apply Hs|done]. Qed.
Lemma map_error_some err e : map_error err = Done e → some_error e.
Proof. destruct err; simpl; try done; intros [= <-]; by apply error_number. Qed.
Lemma triple_fail_with {A} P err (r : A) Q : (∀ e, some_error e → Q r e) → triple (St := St) P (fail_with err r) Q.
Proof.
  intros HQ s a s' _. unfold fail_with. rewrite run_bind. unfold read_fs.
  destruct (map_error err) as [e| | | |] eqn:E; cbn [mbind outcome_bind]; try done.
  intros [= <- <-]. simpl. by eapply HQ, map_error_some.
Qed.

Lemma opt_none {A} e : some_error e → opt_ok (None : option A) e.
Proof. done. Qed.
Lemma opt_some {A} (a : A) e : no_or_error e → opt_ok (Some a) e.
Proof. done. Qed.
Lemma ret_minus e : some_error e → ret_ok (-1) e.
Proof. by left. Qed.
Lemma ret_nonneg r e : 0 ≤ r → no_or_error e → ret_ok r e.
Proof. by right. Qed.
End errors.

Ltac some_error := unfold no_or_error, some_error, EBADF, ENOTDIR, EFAULT, EINVAL, ENAMETOOLONG, EISDIR, EMFILE, EIO, EEXIST,
  EACCES, ENOTTY, ERANGE, ESPIPE, EOVERFLOW in *; lia.
(** One step of the proof of a triple; [triples] holds the calls that are done. *)
Ltac triple_step :=
  lazymatch goal with
  | |- triple _ (mret _) _ => apply triple_ret; intros ? ?
  | |- triple _ (fail _ _) _ => apply triple_fail
  | |- triple _ (fail_with _ _) _ => apply triple_fail_with; intros ? ?
  | |- triple _ (λ _, Panic) _ => apply triple_panic
  | |- triple _ (if ?b then _ else _) _ => destruct b eqn:?
  | |- triple _ (match ?o with _ => _ end) _ => destruct o eqn:?
  | |- triple _ (_ ≫= _) _ =>
      first [ apply triple_step; [solve [auto with silent]|intros ?]
            | apply triple_opt; [solve [auto with triples]| |intros ?]
            | eapply triple_bind; [solve [eauto with triples]|intros ?] ]
  | |- opt_ok None _ => apply opt_none; try some_error
  | |- opt_ok (Some _) _ => apply opt_some; try some_error
  | |- ret_ok (-1) _ => apply ret_minus; try some_error
  | |- ret_ok _ _ => apply ret_nonneg; [bool_to_prop; lia|try some_error]
  | |- triple some_error _ _ =>
      eapply (triple_weaken no_or_error); [solve [eauto with triples]|intros ? ?; some_error|intros ? ? ?; assumption]
  | |- triple _ _ _ => solve [eauto with triples]
  end.
Create HintDb triples discriminated.

(** The operations of files. *)
Section ops_ok.
Context `{PathOps} `{FrameAllocator St} `{RandomSource}.
Abbreviation fsys := (fsys St).

Lemma random_bytes_length n r : length (fst (random_bytes n r)) = n.
Proof.
  revert r. induction n as [|n IH]; intros r; [done|]. simpl. destruct (rnd_next r) as [x r'].
  specialize (IH r'). destruct (random_bytes n r') as [l r'']. simpl in *. by rewrite IH.
Qed.

(** What the operations return: -1, or at most the length of the buffer. *)
Definition io_result (ret len e : Z) : Prop := no_or_error e ∧ (ret = -1 ∨ 0 ≤ ret ≤ len).
Lemma ops_read_result op p off buffer (s : fsys) ret b s' :
  ops_read op p off buffer s = Done (ret, b, s') → Z.of_nat (length buffer) < 2 ^ 63 → no_or_error (errno s) →
  io_result ret (Z.of_nat (length buffer)) (errno s').
Proof.
  intros Hop Hlen He. destruct op; simpl in Hop.
  2-5: unfold null_read, zero_read, full_read, random_read in Hop; try destruct (random_bytes _ _);
    injection Hop as <- <- <-; (split; [done|]); rewrite ?s64_small by lia; lia.
  2: done.
  unfold tmpfs_read in Hop. destruct (inode_ref p s) as [[i n]| | | |]; cbn [mbind outcome_bind] in Hop; try done.
  set (real_size := if w64 (st_size (i_stat n)) <=? _ then _ else _) in Hop.
  assert (0 ≤ real_size) as Hr.
  { unfold real_size. destruct (_ <=? _); [apply w64_range|lia]. }
  destruct (Z.eqb_spec real_size 0); [injection Hop as <- <- <-; split; [done|lia]|].
  destruct (i_mem n) as [o|]; cbn [deref mbind outcome_bind] in Hop; [|done].
  destruct (Z.ltb_spec (Z.of_nat (length buffer)) real_size); [done|].
  destruct (Objects.read _ _ _ _) as [[[? ?] ?]| | | |]; cbn [mbind outcome_bind] in Hop; try done.
  injection Hop as <- <- <-. split; [done|]. rewrite s64_small by lia. lia.
Qed.
Lemma ops_write_result op p off buffer (s : fsys) ret s' :
  ops_write op p off buffer s = Done (ret, s') → Z.of_nat (length buffer) < 2 ^ 63 → no_or_error (errno s) →
  io_result ret (Z.of_nat (length buffer)) (errno s').
Proof.
  intros Hop Hlen He. destruct op; simpl in Hop.
  2-6: unfold null_write, zero_write, full_write, random_write, tty_write in Hop;
    injection Hop as <- <-; (split; [first [done|right; by apply error_number]|]); rewrite ?s64_small by lia; lia.
  unfold tmpfs_write in Hop. destruct (inode_ref p s) as [[i n]| | | |]; cbn [mbind outcome_bind] in Hop; try done.
  destruct (i_mem n) as [o|]; cbn [deref mbind outcome_bind] in Hop; [|done].
  destruct (Objects.write _ _ _ _) as [[? ?]| | | |]; cbn [mbind outcome_bind] in Hop; try done.
  injection Hop as <- <-. split; [by case_match|]. rewrite s64_small by lia. lia.
Qed.
Lemma advance_errno i ret (s s' : fsys) : advance i ret s = Done s' → errno s' = errno s.
Proof. unfold advance. destruct (file_of i s); simpl; [|done..]. intros [= <-]. by case_match. Qed.
Ltac file_call Hf :=
  destruct (file_of _ _); cbn [mbind outcome_bind] in Hf; try done;
  destruct (get_ops _ _); cbn [mbind outcome_bind] in Hf; try done.
Lemma file_pread_result i off buffer (s : fsys) ret b s' :
  file_pread i off buffer s = Done (ret, b, s') → Z.of_nat (length buffer) < 2 ^ 63 → no_or_error (errno s) →
  io_result ret (Z.of_nat (length buffer)) (errno s').
Proof. unfold file_pread. intros Hf. file_call Hf. by eapply ops_read_result. Qed.
Lemma file_pwrite_result i off buffer (s : fsys) ret s' :
  file_pwrite i off buffer s = Done (ret, s') → Z.of_nat (length buffer) < 2 ^ 63 → no_or_error (errno s) →
  io_result ret (Z.of_nat (length buffer)) (errno s').
Proof. unfold file_pwrite. intros Hf. file_call Hf. by eapply ops_write_result. Qed.
Lemma file_read_result i buffer (s : fsys) ret b s' :
  file_read i buffer s = Done (ret, b, s') → Z.of_nat (length buffer) < 2 ^ 63 → no_or_error (errno s) →
  io_result ret (Z.of_nat (length buffer)) (errno s').
Proof.
  unfold file_read. intros Hf Hlen He. file_call Hf.
  destruct (ops_read _ _ _ _ _) as [[[r b'] s1]| | | |] eqn:Hop; cbn [mbind outcome_bind] in Hf; try done.
  destruct (advance i r s1) as [s2| | | |] eqn:Ha; cbn [mbind outcome_bind] in Hf; try done.
  injection Hf as <- <- <-. rewrite (advance_errno _ _ _ _ Ha). by eapply ops_read_result.
Qed.
Lemma file_write_result i buffer (s : fsys) ret s' :
  file_write i buffer s = Done (ret, s') → Z.of_nat (length buffer) < 2 ^ 63 → no_or_error (errno s) →
  io_result ret (Z.of_nat (length buffer)) (errno s').
Proof.
  unfold file_write. intros Hf Hlen He. file_call Hf.
  destruct (ops_write _ _ _ _ _) as [[r s1]| | | |] eqn:Hop; cbn [mbind outcome_bind] in Hf; try done.
  destruct (advance i r s1) as [s2| | | |] eqn:Ha; cbn [mbind outcome_bind] in Hf; try done.
  injection Hf as <- <-. rewrite (advance_errno _ _ _ _ Ha). by eapply ops_write_result.
Qed.
Lemma file_trunc_errno i size (s : fsys) b s' : file_trunc i size s = Done (b, s') → errno s' = errno s.
Proof.
  unfold file_trunc. intros Hf. destruct (file_of _ _) as [f| | | |]; cbn [mbind outcome_bind] in Hf; try done.
  destruct (get_ops _ _) as [op| | | |]; cbn [mbind outcome_bind] in Hf; try done.
  destruct op; simpl in Hf; unfold dev_trunc in Hf; try (by injection Hf as <- <-).
  unfold tmpfs_trunc in Hf. destruct (inode_ref _ s) as [[j n]| | | |]; cbn [mbind outcome_bind] in Hf; try done.
  destruct (size =? _); [by injection Hf as <- <-|]. destruct (i_mem n) as [o|]; cbn [deref mbind outcome_bind] in Hf; [|done].
  destruct (size <? _); (destruct (clear _ _ _ _ _) as [[? ?]| | | |]; cbn [mbind outcome_bind] in Hf; [|done..]);
    by injection Hf as <- <-.
Qed.
Lemma file_ioctl_result i (s : fsys) ret s' :
  file_ioctl i s = Done (ret, s') → no_or_error (errno s) → ret_ok ret (errno s').
Proof.
  unfold file_ioctl. intros Hf He. file_call Hf. unfold ops_ioctl, tty_ioctl, no_ioctl in Hf.
  destruct a0; injection Hf as <- <-; simpl; first [by right|left; split; [done|by apply error_number]].
Qed.
End ops_ok.

Section calls_ok.
Context `{PathOps} `{FrameAllocator St} `{RandomSource} `{SysParams} (fuel : nat).
Abbreviation M := (M (St := St)).
Abbreviation opt m := (triple (St := St) no_or_error m opt_ok).
Abbreviation call m := (triple (St := St) no_or_error m ret_ok).

Lemma get_fd_ok n : opt (get_fd n).
Proof. unfold get_fd. repeat triple_step. Qed.
#[local] Hint Resolve get_fd_ok : triples.
Lemma get_parent_ok dirfd p : opt (get_parent dirfd p).
Proof. unfold get_parent. repeat triple_step. Qed.
#[local] Hint Resolve get_parent_ok : triples.
Lemma resolve_from_ok dirfd p : opt (resolve_from fuel dirfd p).
Proof. unfold resolve_from. repeat triple_step. Qed.
#[local] Hint Resolve resolve_from_ok : triples.
Lemma get_path_ok n : opt (get_path n).
Proof. unfold get_path. repeat triple_step. Qed.
#[local] Hint Resolve get_path_ok : triples.
Lemma get_target_ok dirfd n fl e : opt (get_target fuel dirfd n fl e).
Proof. unfold get_target. repeat triple_step. Qed.
#[local] Hint Resolve get_target_ok : triples.

(** *** Opening *)
Lemma create_target_ok dirfd p mode : opt (create_target fuel dirfd p mode).
Proof. unfold create_target. repeat triple_step. Qed.
#[local] Hint Resolve create_target_ok : triples.
Lemma open_target_ok dirfd p flags mode : opt (open_target fuel dirfd p flags mode).
Proof. unfold open_target. repeat triple_step. Qed.
#[local] Hint Resolve open_target_ok : triples.
Lemma silent_new_desc f b : silent (St := St) (with_fs (λ s, Done (new_desc f b s))).
Proof. apply silent_with_fs. by intros s a s' [= <- <-]. Qed.
Lemma silent_filedesc_create p fl : silent (St := St) (with_fs (λ s, Done (filedesc_create p fl s))).
Proof. apply silent_with_fs. by intros s a s' [= <- <-]. Qed.
Lemma silent_file_trunc i n : silent (St := St) (with_fs (file_trunc i n)).
Proof. apply silent_with_fs. intros s a s'. apply file_trunc_errno. Qed.
Lemma silent_put_file i f : silent (St := St) (with_fs (λ s, Done ((), put_file i f s))).
Proof. apply silent_with_fs. by intros s a s' [= <- <-]. Qed.
#[local] Hint Resolve silent_new_desc silent_filedesc_create silent_file_trunc silent_put_file : silent.
Lemma open_file_ok p flags : call (open_file p flags).
Proof. unfold open_file. repeat triple_step. Qed.
#[local] Hint Resolve open_file_ok : triples.
Lemma openat_ok dirfd n flags mode : call (openat fuel dirfd n flags mode).
Proof. unfold openat. repeat triple_step. Qed.
Lemma close_ok fd : call (close fd).
Proof. unfold close. repeat triple_step. Qed.

(** *** Input and output *)
Context (Hmax : 0 ≤ alloc_max < 2 ^ 31).
(** A step with a value that is known to have a property. *)
Lemma triple_value {A B} P (m : M A) (V : A → Prop) (k : A → M B) Q :
  silent m → (∀ s a s', m s = Done (a, s') → V a) → (∀ a, V a → triple P (k a) Q) → triple P (m ≫= k) Q.
Proof.
  intros Hm HV Hk s b s' HP. rewrite run_bind. destruct (m s) as [[a s1]| | | |] eqn:E; cbn [mbind outcome_bind]; try done.
  intros Hb. eapply Hk; [by eapply HV| |exact Hb]. by rewrite (Hm _ _ _ E).
Qed.
Lemma membuffer_length n (s : sys St) l s' : membuffer n s = Done (l, s') → Z.of_nat (length l) ≤ alloc_max ∧ n ≤ alloc_max.
Proof.
  unfold membuffer. destruct (Z.ltb_spec alloc_max n); [done|]. intros [= <- <-]. rewrite length_replicate. lia.
Qed.
Lemma load_bytes_length n p m l : load_bytes n p m = Done l → length l = n.
Proof.
  revert p l. induction n as [|n IH]; intros p l; simpl; [by intros [= <-]|].
  destruct (ld p m); simpl; [|done..]. destruct (load_bytes n _ m) eqn:E; simpl; [|done..]. intros [= <-]. simpl. by f_equal; eapply IH.
Qed.
Lemma copy_from_user_length src n (s : sys St) l s' : copy_from_user src n s = Done (l, s') → length l = Z.to_nat n.
Proof.
  unfold copy_from_user. destruct (load_bytes _ _ _) eqn:E; simpl; [|done..]. intros [= <- <-].
  by eapply load_bytes_length.
Qed.
Definition reads (op : list Z → fsys St → outcome (Z * list Z * fsys St)) : Prop :=
  ∀ buffer s ret b s', op buffer s = Done (ret, b, s') → Z.of_nat (length buffer) < 2 ^ 63 → no_or_error (errno s) →
    io_result ret (Z.of_nat (length buffer)) (errno s').
Definition writes (op : list Z → fsys St → outcome (Z * fsys St)) : Prop :=
  ∀ buffer s ret s', op buffer s = Done (ret, s') → Z.of_nat (length buffer) < 2 ^ 63 → no_or_error (errno s) →
    io_result ret (Z.of_nat (length buffer)) (errno s').
Lemma reads_ok op buffer : reads op → Z.of_nat (length buffer) ≤ alloc_max →
  triple (St := St) no_or_error (with_fs (op buffer)) (λ r e, io_result (fst r) alloc_max e).
Proof.
  intros Hop Hl s [ret b] s' He. unfold with_fs. destruct (op buffer (sfs s)) as [[[ret' b'] fs]| | | |] eqn:E; simpl; try done.
  intros [= <- <- <-]. simpl. destruct (Hop _ _ _ _ _ E ltac:(lia) He) as [? ?]. split; [done|lia].
Qed.
Lemma writes_ok op buffer : writes op → Z.of_nat (length buffer) ≤ alloc_max →
  triple (St := St) no_or_error (with_fs (op buffer)) (λ r e, io_result r alloc_max e).
Proof.
  intros Hop Hl s ret s' He. unfold with_fs. destruct (op buffer (sfs s)) as [[ret' fs]| | | |] eqn:E; simpl; try done.
  intros [= <- <-]. simpl. destruct (Hop _ _ _ _ E ltac:(lia) He) as [? ?]. split; [done|lia].
Qed.
(** After the operation: the error -1 is turned into error number 1. *)
Lemma triple_io {A} (ret : Z) (r : A) (k : M A) (Q : A → Z → Prop) :
  (∀ e, some_error e → Q r e) → (0 ≤ ret ≤ alloc_max → triple no_or_error k Q) →
  triple (λ e, io_result ret alloc_max e) (if ret <? 0 then fail (s32 (- ret)) r else k) Q.
Proof.
  intros Hf Hk. case_test.
  - intros s a s' [_ [-> |?]]; [|lia]. intros [= <- <-]. simpl. apply Hf. by apply error_number.
  - intros s a s' [He [? |?]]; [lia|]. by apply Hk.
Qed.
Lemma open_for_ok fd may : opt (open_for fd may).
Proof. unfold open_for. repeat triple_step. Qed.
#[local] Hint Resolve open_for_ok : triples.

Ltac value_step L := eapply triple_value; [solve [auto with silent]|intros ? ? ?; apply L|let Hv := fresh in intros ? Hv; cbv beta in Hv].
Ltac opened := apply triple_opt; [apply open_for_ok|repeat triple_step|intros [i f]; cbv beta iota].
Lemma read_from_ok fd buf count op : (∀ i, reads (op i)) → call (read_from fd buf count op).
Proof.
  intros Hop. unfold read_from. opened. triple_step. triple_step; [repeat triple_step|].
  value_step membuffer_length. eapply triple_bind; [apply reads_ok; [done|lia]|]. intros [ret b]. simpl.
  apply triple_io; [apply ret_minus|]. intros Hret. apply triple_step; [destruct (0 <? ret); auto with silent|].
  intros _. repeat triple_step.
Qed.
Lemma write_to_ok fd buf count op : (∀ i, writes (op i)) → call (write_to fd buf count op).
Proof.
  intros Hop. unfold write_to. opened. value_step membuffer_length. value_step copy_from_user_length.
  eapply triple_bind; [apply writes_ok; [done|lia]|]. intros ret. simpl.
  apply triple_io; [apply ret_minus|]. intros Hret. repeat triple_step.
Qed.

(** The vectors: every element adds at most [alloc_max] bytes. *)
Definition total_ok (bound : Z) (o : option Z) (e : Z) : Prop :=
  match o with None => some_error e | Some t => 0 ≤ t ≤ bound ∧ no_or_error e end.
Lemma readv_loop_ok n i iov total op :
  (∀ t, reads (op t)) → 0 ≤ total → total + Z.of_nat n * alloc_max < 2 ^ 63 →
  triple (St := St) no_or_error (readv_loop n i iov total op) (total_ok (total + Z.of_nat n * alloc_max)).
Proof.
  intros Hop. revert i total. induction n as [|n IH]; intros i total Ht Hb; cbn [readv_loop].
  { apply triple_ret. intros e He. split; [lia|done]. }
  apply triple_step; [auto with silent|]. intros [base len]. value_step membuffer_length.
  eapply triple_bind; [apply reads_ok; [done|lia]|]. intros [ret b]. simpl.
  apply triple_io; [done|]. intros Hret. destruct (Z.eqb_spec ret 0).
  { apply triple_ret. intros ? ?. split; [lia|done]. }
  apply triple_step; [auto with silent|]. intros _. rewrite w64_small by lia.
  eapply triple_weaken; [apply IH; [lia|]|done|]; [lia|]. intros [t|] e; simpl; [|done]. intros [? ?]. split; [lia|done].
Qed.
Lemma writev_loop_ok n i iov total op :
  (∀ t, writes (op t)) → 0 ≤ total → total + Z.of_nat n * alloc_max < 2 ^ 63 →
  triple (St := St) no_or_error (writev_loop n i iov total op) (total_ok (total + Z.of_nat n * alloc_max)).
Proof.
  intros Hop. revert i total. induction n as [|n IH]; intros i total Ht Hb; cbn [writev_loop].
  { apply triple_ret. intros e He. split; [lia|done]. }
  apply triple_step; [auto with silent|]. intros [base len]. value_step membuffer_length. value_step copy_from_user_length.
  eapply triple_bind; [apply writes_ok; [done|lia]|]. intros ret. simpl.
  apply triple_io; [done|]. intros Hret. rewrite w64_small by lia.
  eapply triple_weaken; [apply IH; [lia|]|done|]; [lia|]. intros [t|] e; simpl; [|done]. intros [? ?]. split; [lia|done].
Qed.
Lemma iov_bound iovcnt : iovcnt < 2 ^ 31 → 0 + Z.of_nat (Z.to_nat iovcnt) * alloc_max < 2 ^ 63.
Proof.
  intros Hn. assert (Z.of_nat (Z.to_nat iovcnt) ≤ 2 ^ 31) as Hn' by lia.
  pose proof (Z.mul_le_mono_nonneg (Z.of_nat (Z.to_nat iovcnt)) (2 ^ 31) alloc_max (2 ^ 31) ltac:(lia) Hn' ltac:(lia) ltac:(lia)). lia.
Qed.
Lemma readv_from_ok fd iov iovcnt op :
  iovcnt < 2 ^ 31 → (∀ i t, reads (op i t)) → call (readv_from fd iov iovcnt op).
Proof.
  intros Hn Hop. unfold readv_from. pose proof (iov_bound iovcnt Hn). opened.
  eapply triple_bind; [apply readv_loop_ok; [done|lia|done]|]. intros [t|]; [|repeat triple_step; done].
  intros s r s' [Ht He]. revert He. apply triple_step; [auto with silent|]. intros _. apply triple_ret. intros e He.
  apply ret_nonneg; [rewrite s64_small by lia; lia|done].
Qed.
Lemma writev_to_ok fd iov iovcnt op :
  iovcnt < 2 ^ 31 → (∀ i t, writes (op i t)) → call (writev_to fd iov iovcnt op).
Proof.
  intros Hn Hop. unfold writev_to. pose proof (iov_bound iovcnt Hn). opened.
  eapply triple_bind; [apply writev_loop_ok; [done|lia|done]|]. intros [t|]; [|repeat triple_step; done].
  intros s r s' [Ht He]. revert He. apply triple_step; [auto with silent|]. intros _. apply triple_ret. intros e He.
  apply ret_nonneg; [rewrite s64_small by lia; lia|done].
Qed.

(** *** The other calls *)
Lemma lseek_ok fd off wh : call (lseek fd off wh).
Proof.
  unfold lseek. repeat triple_step. unfold seek_offset in *.
  repeat match goal with H : context [if ?b then _ else _] |- _ => destruct b end; simplify_eq; some_error.
Qed.
Lemma fstatat_ok dirfd n st fl : call (fstatat fuel dirfd n st fl).
Proof. unfold fstatat. repeat triple_step. Qed.
Lemma faccessat_ok dirfd n mode fl : call (faccessat fuel dirfd n mode fl).
Proof. unfold faccessat. repeat triple_step. Qed.
Lemma ioctl_ok fd : call (ioctl fd).
Proof.
  unfold ioctl. repeat triple_step. intros s' r s'' He. unfold with_fs.
  destruct (file_ioctl _ _) as [[r' fs]| | | |] eqn:E; simpl; try done. intros [= <- <-]. by eapply file_ioctl_result.
Qed.
Lemma dup_ok fd : call (dup fd).
Proof. unfold dup. repeat triple_step. Qed.
#[local] Hint Resolve dup_ok : triples.
Lemma dup_to_ok fd newfd b : call (dup_to fd newfd b).
Proof. unfold dup_to. repeat triple_step. Qed.
#[local] Hint Resolve dup_to_ok : triples.
Lemma dup3_ok fd newfd fl : call (dup3 fd newfd fl).
Proof. unfold dup3. repeat triple_step. Qed.
Lemma fcntl_ok fd cmd arg : cmd ≠ 3 → call (fcntl fd cmd arg).
Proof.
  intros Hcmd. unfold fcntl. apply triple_opt; [apply get_fd_ok|repeat triple_step|intros x; cbv beta iota].
  triple_step; [apply dup_ok|]. triple_step.
  { eapply triple_bind; [apply dup_ok|]. intros newfd. case_test.
    - apply triple_ret. intros e [[_ ?]|[? _]]; [by apply ret_minus|lia].
    - eapply (triple_weaken no_or_error _ _ ret_ok); [|intros e [[? ?]|[_ ?]]; [lia|done]|intros ? ? ?; assumption].
      repeat triple_step. }
  triple_step.
  { apply triple_step; [auto with silent|]. intros y. apply triple_ret. intros e He.
    apply ret_nonneg; [by destruct (closexec y)|done]. }
  repeat triple_step.
Qed.
(** F_GETFL: the flags of an open file are any number. *)
Lemma fcntl_getfl_ok fd arg : triple (St := St) no_or_error (fcntl fd 3 arg) (λ r e, r = -1 ∧ some_error e ∨ no_or_error e).
Proof.
  unfold fcntl. apply triple_opt; [apply get_fd_ok|apply triple_ret; auto|intros x; cbv beta iota].
  cbn [Z.eqb Pos.eqb]. apply triple_step; [auto with silent|]. intros [i f]. apply triple_ret. auto.
Qed.
Lemma getcwd_ok buf size : triple (St := St) no_or_error (getcwd fuel buf size)
  (λ r e, r = 0 ∧ some_error e ∨ r = buf ∧ no_or_error e).
Proof.
  unfold getcwd. triple_step. triple_step. triple_step.
  - apply triple_fail. left. split; [done|]. by apply error_number.
  - triple_step. apply triple_ret. auto.
Qed.
End calls_ok.

(** ** The table *)
Section table.
Context `{PathOps} `{FrameAllocator St} `{RandomSource} `{SysParams} (fuel : nat).
Abbreviation M := (M (St := St)).

Lemma to_int_bound r : to_int r < 2 ^ 31.
Proof. unfold to_int, s32. pose proof (Z.mod_pos_bound (r + 2 ^ 31) (2 ^ 32)). lia. Qed.
Lemma file_read_reads i : reads (St := St) (file_read i).
Proof. intros b s ret b' s'. apply file_read_result. Qed.
Lemma file_pread_reads i off : reads (St := St) (file_pread i off).
Proof. intros b s ret b' s'. apply file_pread_result. Qed.
Lemma file_write_writes i : writes (St := St) (file_write i).
Proof. intros b s ret s'. apply file_write_result. Qed.
Lemma file_pwrite_writes i off : writes (St := St) (file_pwrite i off).
Proof. intros b s ret s'. apply file_pwrite_result. Qed.

(** All calls but [getcwd], which returns a pointer, and F_GETFL, whose result is any [int]. *)
Lemma vfs_call_ok idx a b c d (h : M Z) :
  0 ≤ alloc_max < 2 ^ 31 → idx ≠ 79 → (idx = 72 → to_int b ≠ 3) → vfs_call fuel idx a b c d = Some h →
  triple no_or_error h ret_ok.
Proof.
  intros Hmax H79 H72 Hcall.
  assert (idx ∈ [0; 1; 2; 3; 4; 5; 6; 8; 16; 17; 18; 19; 20; 21; 32; 33; 72; 79; 85; 257; 262; 269; 292; 295; 296]) as Hidx.
  { unfold vfs_call in Hcall. repeat case_match; try discriminate Hcall; set_solver. }
  pose proof (to_int_bound c).
  rewrite !elem_of_cons in Hidx.
  repeat match type of Hidx with _ ∨ _ => destruct Hidx as [->|Hidx] end; try (by apply elem_of_nil in Hidx); try done;
    cbn in Hcall; injection Hcall as <-.
  all: eauto 2 using read_from_ok, write_to_ok, openat_ok, close_ok, fstatat_ok, lseek_ok, ioctl_ok, readv_from_ok,
    writev_to_ok, faccessat_ok, dup_ok, dup_to_ok, dup3_ok, fcntl_ok, file_read_reads, file_pread_reads,
    file_write_writes, file_pwrite_writes.
  apply fcntl_ok. by apply H72.
Qed.

(** What a call returns when it fails. *)
Definition failure (idx : Z) : Z := if idx =? 79 then 0 else -1.
Definition cleared (s : sys St) : sys St := mk_sys (set_errno 0 (sfs s)) (proc s) (umem s).
Lemma invoke_eq check (h : M Z) s :
  invoke check h s =
  match h (cleared s) with
  | Done (ret, s') => Done (if errno_known (errno (sfs s')) && check (w64 ret) then w64 (- errno (sfs s')) else w64 ret, s')
  | Panic => Panic | Crash => Crash | Hang => Hang | NoFuel => NoFuel
  end.
Proof. unfold invoke. rewrite run_bind. simpl. rewrite run_bind. fold (cleared s). by destruct (h (cleared s)) as [[ret s']| | | |]. Qed.
Lemma call_ok idx a b c d (h : M Z) :
  0 ≤ alloc_max < 2 ^ 31 → 0 ≤ a → vfs_call fuel idx a b c d = Some h →
  triple no_or_error h (λ r e, r = failure idx ∧ some_error e ∨ 0 ≤ r ∧ (idx = 79 → r = a) ∧ no_or_error e ∨
    (idx = 72 ∧ to_int b = 3) ∧ no_or_error e).
Proof.
  intros Hmax Ha Hcall. destruct (decide (idx = 79)) as [->|Hne].
  - cbn in Hcall. injection Hcall as <-. eapply triple_weaken; [apply getcwd_ok|done|].
    intros r e [? |[-> He]]; [by left|right; left]. by split.
  - unfold failure. rewrite (proj2 (Z.eqb_neq _ _) Hne). destruct (decide (idx = 72 ∧ to_int b = 3)) as [[-> Hb]|Hno].
    + cbn in Hcall. injection Hcall as <-. rewrite Hb. eapply triple_weaken; [apply fcntl_getfl_ok|done|]. intros r e [?|?]; auto.
    + eapply triple_weaken; [by eapply vfs_call_ok; try done; intros ->; intros ?; apply Hno|done|]. intros r e [[-> He]|[Hr He]]; [by left|right; left].
      by split.
Qed.
End table.

(** C20: user space can tell failures from results: a file system call that fails sets one of
    the error numbers and the program receives its negation; any other result below 2^63, and
    the pointer of [getcwd], is passed on.  The exception is F_GETFL, the third case: flags
    are any numbers, negative ones look like a failure, and the program receives the negation
    of whatever [errno] is, if that is a known number. *)
Theorem vfs_syscall_errors `{PathOps} `{FrameAllocator St} `{RandomSource} `{SysParams} fuel idx a b c d h (s s' : sys St) r :
  0 ≤ alloc_max < 2 ^ 31 → (∀ e, some_error e → errno_known e = true) → 0 ≤ a < 2 ^ 64 →
  vfs_call fuel idx a b c d = Some h → invoke (checker_of idx) h s = Done (r, s') →
  ∃ ret, h (cleared s) = Done (ret, s') ∧
    (ret = failure idx ∧ some_error (errno (sfs s')) ∧ r = w64 (- errno (sfs s')) ∨
     0 ≤ ret ∧ (ret < 2 ^ 63 ∨ idx = 79 → r = ret) ∨
     (idx = 72 ∧ to_int b = 3) ∧ ret < 0 ∧ no_or_error (errno (sfs s')) ∧
       r = if errno_known (errno (sfs s')) && default_checker (w64 ret) then w64 (- errno (sfs s')) else w64 ret).
Proof.
  intros Hmax Hknown Ha Hcall Hinv. rewrite invoke_eq in Hinv.
  destruct (h (cleared s)) as [[ret s1]| | | |] eqn:E; try done. injection Hinv as <- ->.
  exists ret. split; [done|]. unfold checker_of, failure.
  destruct (call_ok fuel idx a b c d h Hmax (proj1 Ha) Hcall (cleared s) ret s' (or_introl eq_refl) E)
    as [[-> He]|[(Hr & H79 & He)|[[-> Hb] He]]].
  - left. unfold failure. rewrite (Hknown _ He). by destruct (Z.eqb_spec idx 79).
  - destruct (Z.eqb_spec idx 79) as [->|Hne].
    + rewrite (H79 eq_refl), (w64_small a) by lia. unfold getcwd_checker. destruct (Z.eqb_spec a 0) as [->|].
      * destruct He as [He|He]; [right; left|left; by rewrite (Hknown _ He)].
        split; [done|]. rewrite He. by destruct (errno_known 0).
      * rewrite andb_false_r. right; left. split; [lia|done].
    + right; left. split; [done|]. intros [Hlt| ?]; [|done]. rewrite w64_small by lia. unfold default_checker.
      rewrite (proj2 (Z.ltb_ge _ _)), andb_false_r by (rewrite s64_small; lia). done.
  - cbn [Z.eqb Pos.eqb]. destruct (decide (0 ≤ ret)).
    + right; left. split; [done|]. intros [Hlt| ?]; [|done]. rewrite w64_small by lia. unfold default_checker.
      rewrite (proj2 (Z.ltb_ge _ _)), andb_false_r by (rewrite s64_small; lia). done.
    + right; right. split_and!; (done || lia).
Qed.
