(* ===== verification/SysFiles.v ===== *)
(** The calls on an open tmpfs file: the offset, a round trip from user memory through the
    file and back, and opening and creating files. *)

From S2P Require Import Prelude Math Pmm Frames Objects LibC LibCSpec Vfs VfsTables VfsSpec Files FilesSpec SysVfs SysSpec.
#[local] Open Scope Z_scope.

(** ** User memory *)
Lemma load_bytes_spec m p l : bytes_at m p l → load_bytes (length l) p m = Done l.
Proof.
  revert p. induction l as [|x l IH]; intros p Hb; [done|]. apply bytes_at_cons in Hb as [Hx Hb].
  simpl. unfold ld. rewrite Hx. simpl. by rewrite IH.
Qed.
Lemma store_bytes_spec m p l : are_bytes l → mapped m p (length l) → store_bytes p l m = Done (write_bytes m p l).
Proof.
  revert p m. induction l as [|x l IH]; intros p m Hl Hm; [done|]. apply Forall_cons in Hl as [Hx Hl]. simpl.
  rewrite st_spec; [|rewrite <-(Z.add_0_r p); apply (Hm 0%nat); simpl; lia|done]. simpl. apply IH; [done|].
  intros i Hi. destruct (Hm (S i)) as [z Hz]; [simpl; lia|].
  replace (p + Z.of_nat (S i)) with (p + 1 + Z.of_nat i) in Hz by lia.
  rewrite lookup_insert_is_Some'. right. by exists z.
Qed.

(** ** Open files *)
Section opened.
Context `{PathOps} `{FrameAllocatorLaws St} `{RandomSource} `{SysParams}.
Abbreviation sys := (sys St).

(** Descriptor [fd] of the process stands for the open file [i], a regular tmpfs file with
    inode [ino] and memory object [o] that holds [c]. *)
Record opened (s : sys) (fd d i : Z) (f : file) (ino o : Z) (c : list Z) : Prop := {
  op_fd : 0 ≤ fd ∧ fd_get fd (p_fdt (proc s)) = Some d;
  op_desc : ∃ b, descs (sfs s) !! d = Some (mk_filedesc i b);
  op_file : files (sfs s) !! i = Some f;
  op_rep : file_rep (sfs s) (f_path f) ino o c;
  op_kind : ∃ n, inode_ref (f_path f) (sfs s) = Done (ino, n) ∧ i_op n = Some TmpfsOps ∧ st_type (i_stat n) = s_ifreg }.

Lemma run_with_fs {A} (f : fsys St → outcome (A * fsys St)) (s : sys) a fs :
  f (sfs s) = Done (a, fs) → with_fs f s = Done (a, mk_sys fs (proc s) (umem s)).
Proof. intros E. unfold with_fs. by rewrite E. Qed.
Lemma run_fd (s : sys) fd d i f ino o c :
  opened s fd d i f ino o c → get_fd fd s = Done (Some d, s) ∧ file_at d s = Done ((i, f), s).
Proof.
  intros [[H0' Hfd] [b Hd] Hf _ _]. split.
  - unfold get_fd. destruct (Z.ltb_spec fd 0); [lia|]. rewrite run_bind. simpl. by rewrite Hfd.
  - unfold file_at, desc_of. rewrite run_bind. unfold read_fs. rewrite Hd. simpl. rewrite run_bind. unfold file_of.
    by rewrite Hf.
Qed.
Lemma run_stat (s : sys) fd d i f ino o c :
  opened s fd d i f ino o c → ∃ st, stat_of (f_path f) s = Done (st, s) ∧ st_type st = s_ifreg ∧
    st_size st = Z.of_nat (length c) ∧ Z.of_nat (length c) < 2 ^ 62.
Proof.
  intros [_ _ _ Hr (n & Hn & _ & Ht)]. destruct Hr as [(n' & Hn' & _ & Hsz) _ _ _ Hlt].
  assert (n' = n) as -> by congruence. exists (i_stat n). split; [|done]. unfold stat_of, read_fs. by rewrite Hn.
Qed.

(** What keeps a file open: only its contents and offset change. *)
Lemma opened_step (s : sys) fd d i f f' ino o c c' fs :
  opened s fd d i f ino o c → file_rep fs (f_path f) ino o c' → only_file ino o (sfs s) fs →
  descs fs = descs (sfs s) → files fs !! i = Some f' → f_path f' = f_path f →
  opened (mk_sys fs (proc s) (umem s)) fd d i f' ino o c'.
Proof.
  intros [Hfd Hd Hf Hr (n & Hn & Hop & Ht)] Hr' (Hde & _ & _ & Hino & _) Hdesc Hf' Hp.
  split; simpl; [done|by rewrite Hdesc|done|by rewrite Hp|]. rewrite Hp.
  destruct (inode_ref_inv _ _ _ _ Hn) as (de & Hdentry & <- & Hi). destruct (Hino n Hi) as (n' & Hi' & Hop' & Hm').
  exists n'. split; [|split; [congruence|]].
  - apply inode_ref_eq; [by rewrite Hde|done].
  - unfold st_type in *. by rewrite Hm'.
Qed.
(** Time stamps do not matter. *)
Lemma opened_touch (s : sys) fd d i f ino o c fl :
  opened s fd d i f ino o c → ∃ s', touch (f_path f) fl s = Done ((), s') ∧ opened s' fd d i f ino o c ∧
    umem s' = umem s ∧ proc s' = proc s.
Proof.
  intros Ho. pose proof Ho as [Hfd Hd Hf Hr (n & Hn & Hop & Ht)].
  destruct (inode_ref_inv _ _ _ _ Hn) as (de & Hde & <- & Hi).
  unfold touch, change_stat, with_fs. rewrite Hn. cbn [mbind outcome_bind]. eexists. split; [reflexivity|].
  split; [|done]. eapply opened_step; [exact Ho| | |done|done|done].
  - destruct Hr as [(n' & Hn' & Hm & Hsz) Hmem Hobj Hb Hlt]. assert (n' = n) as -> by congruence.
    split; simpl; [|done..]. eexists. split; [|split].
    + apply inode_ref_eq; [exact Hde|]. simpl. by rewrite lookup_insert_eq.
    + done.
    + done.
  - split_and!; try done; simpl; [intros j Hj; by rewrite lookup_insert_ne|].
    intros n' Hn'. assert (n' = n) as -> by congruence. eexists. rewrite lookup_insert_eq. by split_and!.
Qed.
Lemma opened_umem (s : sys) fd d i f ino o c m :
  opened s fd d i f ino o c → opened (mk_sys (sfs s) (proc s) m) fd d i f ino o c.
Proof. by intros []. Qed.

Lemma run_open_for (s : sys) fd d i f ino o c may :
  opened s fd d i f ino o c → may (f_flags f) = true → open_for fd may s = Done (Some (i, f), s).
Proof.
  intros Ho Hm. destruct (run_fd _ _ _ _ _ _ _ _ Ho) as [Hfd Hat]. unfold open_for. rewrite run_bind, Hfd.
  cbn [mbind outcome_bind]. rewrite run_bind, Hat. cbn [mbind outcome_bind]. by rewrite Hm.
Qed.
Lemma run_get_ops (s : sys) fd d i f ino o c : opened s fd d i f ino o c → get_ops f (sfs s) = Done TmpfsOps.
Proof.
  intros [_ _ _ _ (n & Hn & Hop & _)]. unfold get_ops. rewrite Hn. cbn [mbind outcome_bind]. by rewrite Hop.
Qed.

Lemma run_membuffer n (s : sys) :
  n ≤ alloc_max → membuffer n s = Done (replicate (Z.to_nat n) (w8 (junk (fvfs (sfs s)))), s).
Proof. intros Hn. unfold membuffer. by case_test; [lia|]. Qed.

(** [write] *)
Lemma file_write_run (s : sys) fd d i p (off : nat) fl ino o c l :
  opened s fd d i (mk_file p (Z.of_nat off) fl) ino o c → Z.of_nat off + Z.of_nat (length l) < 2 ^ 62 →
  file_write i l (sfs s) = Panic ∨
  ∃ fs, file_write i l (sfs s) = Done (Z.of_nat (length l), fs) ∧
    opened (mk_sys fs (proc s) (umem s)) fd d i (mk_file p (Z.of_nat (off + length l)) fl) ino o (splice off l c).
Proof.
  intros Ho Hlt. unfold file_write, file_of. rewrite (op_file _ _ _ _ _ _ _ _ Ho). cbn [deref mbind outcome_bind].
  rewrite (run_get_ops _ _ _ _ _ _ _ _ Ho). cbn [mbind outcome_bind ops_write f_path f_offset].
  destruct (tmpfs_write_spec (sfs s) p ino o c off l (op_rep _ _ _ _ _ _ _ _ Ho) Hlt)
    as [->|(fs & -> & Hr & Honly & Heq)]; [by left|right]. injection Heq as Hfiles Hdescs _ _ _.
  cbn [mbind outcome_bind]. unfold advance, file_of. rewrite Hfiles, (op_file _ _ _ _ _ _ _ _ Ho).
  cbn [deref mbind outcome_bind]. eexists. split; [reflexivity|].
  eapply opened_step; [exact Ho|..]; [destruct (0 <? _); [by destruct Hr|exact Hr]|by destruct (0 <? _)..| |done].
  case_test; simpl.
  - rewrite lookup_insert_eq, w64_small by lia. do 2 f_equal. lia.
  - rewrite Hfiles, (op_file _ _ _ _ _ _ _ _ Ho). do 2 f_equal. lia.
Qed.
Lemma write_eq (s : sys) fd d i f ino o c buf l :
  opened s fd d i f ino o c → is_write (f_flags f) = true → bytes_at (umem s) buf l → Z.of_nat (length l) ≤ alloc_max →
  write fd buf (Z.of_nat (length l)) s =
  (ret ← with_fs (file_write i l);
   if ret <? 0 then fail (s32 (- ret)) (-1) else
   _ ← touch (f_path f) (Z.lor time_modify time_status); mret ret) s.
Proof.
  intros Ho Hw Hb Hmax. unfold write, write_to. rewrite run_bind, (run_open_for _ _ _ _ _ _ _ _ _ Ho Hw).
  cbn [mbind outcome_bind]. rewrite run_bind, run_membuffer by done. cbn [mbind outcome_bind].
  rewrite run_bind. unfold copy_from_user. rewrite Nat2Z.id, (load_bytes_spec _ _ _ Hb). reflexivity.
Qed.
Lemma write_run (s : sys) fd d i p (off : nat) fl ino o c buf l :
  opened s fd d i (mk_file p (Z.of_nat off) fl) ino o c → is_write fl = true → bytes_at (umem s) buf l →
  Z.of_nat (length l) ≤ alloc_max → Z.of_nat off + Z.of_nat (length l) < 2 ^ 62 →
  write fd buf (Z.of_nat (length l)) s = Panic ∨
  ∃ s', write fd buf (Z.of_nat (length l)) s = Done (Z.of_nat (length l), s') ∧
    opened s' fd d i (mk_file p (Z.of_nat (off + length l)) fl) ino o (splice off l c) ∧ umem s' = umem s.
Proof.
  intros Ho Hw Hb Hmax Hlt. rewrite (write_eq _ _ _ _ _ _ _ _ _ _ Ho Hw Hb Hmax), run_bind. unfold with_fs.
  destruct (file_write_run _ _ _ _ _ _ _ _ _ _ l Ho Hlt) as [->|(fs & -> & Ho')]; [by left|right].
  cbn [mbind outcome_bind]. case_test; [lia|]. rewrite run_bind. cbn [f_path].
  destruct (opened_touch _ _ _ _ _ _ _ _ (Z.lor time_modify time_status) Ho') as (s2 & Ht & Ho2 & Hu & Hp).
  simpl f_path in Ht. rewrite Ht. cbn [mbind outcome_bind]. by exists s2.
Qed.

(** [read] *)
Lemma file_read_run (s : sys) fd d i p (off : nat) fl ino o c buffer :
  opened s fd d i (mk_file p (Z.of_nat off) fl) ino o c → (off ≤ length c)%nat →
  Z.of_nat off + Z.of_nat (length buffer) < 2 ^ 62 →
  file_read i buffer (sfs s) = Panic ∨
  let l := take (length buffer) (drop off c) in
  ∃ rest fs, file_read i buffer (sfs s) = Done (Z.of_nat (length l), l ++ rest, fs) ∧
    opened (mk_sys fs (proc s) (umem s)) fd d i (mk_file p (Z.of_nat (off + length l)) fl) ino o c.
Proof.
  intros Ho Hoff Hlt. unfold file_read, file_of. rewrite (op_file _ _ _ _ _ _ _ _ Ho). cbn [deref mbind outcome_bind].
  rewrite (run_get_ops _ _ _ _ _ _ _ _ Ho). cbn [mbind outcome_bind ops_read f_path f_offset].
  destruct (tmpfs_read_spec (sfs s) p ino o c off buffer (op_rep _ _ _ _ _ _ _ _ Ho) Hoff Hlt)
    as [->|(ret & l & rest & fs & -> & -> & -> & Hlen & Hr & Honly & Heq)]; [by left|right].
  set (l := take _ _) in *. injection Heq as Hfiles Hdescs _ _ _.
  cbn [mbind outcome_bind]. unfold advance, file_of. rewrite Hfiles, (op_file _ _ _ _ _ _ _ _ Ho).
  cbn [deref mbind outcome_bind]. eexists rest, _. split; [reflexivity|].
  rewrite length_app in Hlen.
  eapply opened_step; [exact Ho|..]; [destruct (0 <? _); [by destruct Hr|exact Hr]|by destruct (0 <? _)..| |done].
  case_test; simpl.
  - rewrite lookup_insert_eq, w64_small by lia. do 2 f_equal. lia.
  - rewrite Hfiles, (op_file _ _ _ _ _ _ _ _ Ho). do 2 f_equal. lia.
Qed.
Lemma read_run (s : sys) fd d i p (off : nat) fl ino o c buf n :
  opened s fd d i (mk_file p (Z.of_nat off) fl) ino o c → is_read fl = true → (off ≤ length c)%nat →
  Z.of_nat n ≤ alloc_max → Z.of_nat off + Z.of_nat n < 2 ^ 62 →
  let l := take n (drop off c) in
  are_bytes l → mapped (umem s) buf (length l) →
  read fd buf (Z.of_nat n) s = Panic ∨
  ∃ s', read fd buf (Z.of_nat n) s = Done (Z.of_nat (length l), s') ∧
    opened s' fd d i (mk_file p (Z.of_nat (off + length l)) fl) ino o c ∧ umem s' = write_bytes (umem s) buf l.
Proof.
  intros Ho Hrd Hoff Hmax Hlt l Hl Hm. unfold read, read_from. rewrite run_bind, (run_open_for _ _ _ _ _ _ _ _ _ Ho Hrd).
  cbn [mbind outcome_bind]. rewrite run_bind. destruct (run_stat _ _ _ _ _ _ _ _ Ho) as (st & -> & Ht & _).
  cbn [mbind outcome_bind]. rewrite Ht. change (s_ifreg =? s_ifdir) with false. cbv iota.
  rewrite run_bind, run_membuffer by done. cbn [mbind outcome_bind]. rewrite run_bind, Nat2Z.id. unfold with_fs at 1 2.
  destruct (file_read_run s fd d i p off fl ino o c (replicate n (w8 (junk (fvfs (sfs s))))) Ho Hoff)
    as [->|(rest & fs & -> & Ho')]; [rewrite length_replicate; lia|by left|right].
  rewrite length_replicate in *. fold l in Ho' |- *. cbn [mbind outcome_bind]. case_test; [lia|].
  rewrite Nat2Z.id, take_app_length.
  assert ((if 0 <? Z.of_nat (length l) then copy_to_user buf l else mret ()) (mk_sys fs (proc s) (umem s)) =
    Done ((), mk_sys fs (proc s) (write_bytes (umem s) buf l))) as Hcopy.
  { case_test; [|destruct l; simpl in *; [done|lia]]. unfold copy_to_user. by rewrite store_bytes_spec. }
  rewrite run_bind, Hcopy. cbn [mbind outcome_bind]. rewrite run_bind. cbn [f_path].
  apply (opened_umem _ _ _ _ _ _ _ _ (write_bytes (umem s) buf l)) in Ho'.
  destruct (opened_touch _ _ _ _ _ _ _ _ time_access Ho') as (s2 & Htouch & Ho2 & Hu & _).
  simpl f_path in Htouch. simpl in Htouch. rewrite Htouch. cbn [mbind outcome_bind]. by exists s2.
Qed.

(** [lseek] *)
(** The offset that is asked for, as an integer. *)
Definition seek_target (off size offset whence : Z) : option Z :=
  if decide (whence = seek_set) then Some offset
  else if decide (whence = seek_cur) then Some (off + offset)
  else if decide (whence = seek_end) then Some (size + offset) else None.
Lemma seek_offset_spec off size offset whence :
  0 ≤ off < 2 ^ 63 → 0 ≤ size < 2 ^ 63 → - 2 ^ 63 ≤ offset < 2 ^ 63 →
  match seek_target off size offset whence with
  | None => seek_offset off size offset whence = Unexpected EINVAL
  | Some t => 0 ≤ t < 2 ^ 63 ∧ seek_offset off size offset whence = Value t ∨
      ¬ 0 ≤ t < 2 ^ 63 ∧ (seek_offset off size offset whence = Unexpected EOVERFLOW ∨
        ∃ v, seek_offset off size offset whence = Value v ∧ s64 v < 0)
  end.
Proof.
  intros Ho Hs Hoff.
  assert (∀ t, - 2 ^ 63 ≤ t < 2 ^ 64 - 1 →
    0 ≤ t < 2 ^ 63 ∧ w64 t = t ∨ ¬ 0 ≤ t < 2 ^ 63 ∧ 2 ^ 63 ≤ w64 t < 2 ^ 64) as Hw.
  { intros t Ht. destruct (decide (0 ≤ t < 2 ^ 64)); [rewrite w64_small by lia; lia|]. right. split; [lia|].
    assert (w64 t = t + 2 ^ 64) as -> by (unfold w64; symmetry; apply (Z.mod_unique_pos _ _ (- 1)); lia). lia. }
  assert (∀ v, 2 ^ 63 ≤ v < 2 ^ 64 → s64 v < 0) as Hneg.
  { intros v Hv. unfold s64. assert ((v + 2 ^ 63) mod 2 ^ 64 = v - 2 ^ 63) as ->; [|lia].
    symmetry. apply (Z.mod_unique_pos _ _ 1); lia. }
  unfold seek_target, seek_offset, off_max.
  repeat case_decide; simplify_eq; cbn -[Z.pow Z.leb Z.ltb].
  - destruct (Hw offset) as [[? ->]|[? ?]]; [lia|by left|right]. split; [done|]. right. eauto.
  - destruct (Hw (off + offset)) as [[? ->]|[? ?]]; [lia|..].
    + left. split; [done|]. by case_test; [lia|].
    + right. split; [done|]. left. by case_test; [|lia].
  - destruct (Hw (size + offset)) as [[? ->]|[? ?]]; [lia|..].
    + left. split; [done|]. by case_test; [lia|].
    + right. split; [done|]. left. by case_test; [|lia].
  - repeat case_test; done.
Qed.
Lemma lseek_run (s : sys) fd d i p off fl ino o c offset whence :
  opened s fd d i (mk_file p off fl) ino o c → 0 ≤ off < 2 ^ 63 → - 2 ^ 63 ≤ offset < 2 ^ 63 →
  match seek_target off (Z.of_nat (length c)) offset whence with
  | None => lseek fd offset whence s = fail EINVAL (-1) s
  | Some t =>
      if decide (0 ≤ t < 2 ^ 63)
      then ∃ s', lseek fd offset whence s = Done (t, s') ∧ opened s' fd d i (mk_file p t fl) ino o c ∧ umem s' = umem s
      else lseek fd offset whence s = fail EOVERFLOW (-1) s
  end.
Proof.
  intros Ho Hoff Hrange. destruct (run_fd _ _ _ _ _ _ _ _ Ho) as [Hfd Hat].
  destruct (run_stat _ _ _ _ _ _ _ _ Ho) as (st & Hst & Ht & Hsz & Hlt).
  assert (lseek fd offset whence s =
    match seek_offset off (Z.of_nat (length c)) offset whence with
    | Unexpected e => fail e (-1) s
    | Value v => if s64 v <? 0 then fail EOVERFLOW (-1) s
                 else Done (s64 v, mk_sys (put_file i (mk_file p v fl) (sfs s)) (proc s) (umem s))
    end) as ->.
  { unfold lseek. rewrite run_bind, Hfd. cbn [mbind outcome_bind]. rewrite run_bind, Hat. cbn [mbind outcome_bind].
    rewrite run_bind. cbn [f_path] in *. rewrite Hst. cbn [mbind outcome_bind]. rewrite Ht.
    change ((s_ifreg =? s_ifsock) || (s_ifreg =? s_ififo)) with false. cbv iota. cbn [f_offset f_flags].
    rewrite Hsz, w64_small by lia. destruct (seek_offset _ _ _ _) as [v|e]; [|done]. by destruct (s64 v <? 0). }
  pose proof (seek_offset_spec off (Z.of_nat (length c)) offset whence Hoff ltac:(lia) Hrange) as Hseek.
  destruct (seek_target _ _ _ _) as [t|]; [|by rewrite Hseek].
  destruct Hseek as [[Htr ->]|[Htr [-> |(v & -> & Hv)]]].
  - rewrite decide_True by done. rewrite s64_small by lia. case_test; [lia|]. eexists. split; [reflexivity|].
    split; [|done]. eapply opened_step; [exact Ho|..]; try done.
    + by destruct (op_rep _ _ _ _ _ _ _ _ Ho).
    + split_and!; try done. intros n Hn. by exists n.
    + simpl. by rewrite lookup_insert_eq.
  - by rewrite decide_False.
  - rewrite decide_False by done. case_test; [done|lia].
Qed.

Lemma drop_splice off l c : take (length l) (drop off (splice off l c)) = l.
Proof.
  unfold splice. rewrite drop_app_length'; [by rewrite take_app_length|].
  rewrite length_take, length_app, length_replicate. lia.
Qed.
End opened.

(** [lseek] on a regular file moves the offset to exactly the position asked for, relative to
    the start, the current offset or the end, when it is a position of a file, and otherwise
    fails and moves nothing; no position wraps around. *)
Theorem lseek_correct `{PathOps} `{FrameAllocatorLaws St} `{RandomSource} `{SysParams} (s : sys St)
    fd d i p off fl ino o c offset whence :
  opened s fd d i (mk_file p off fl) ino o c → 0 ≤ off < 2 ^ 63 → - 2 ^ 63 ≤ offset < 2 ^ 63 →
  match seek_target off (Z.of_nat (length c)) offset whence with
  | None => lseek fd offset whence s = fail EINVAL (-1) s
  | Some t =>
      if decide (0 ≤ t < 2 ^ 63)
      then ∃ s', lseek fd offset whence s = Done (t, s') ∧ opened s' fd d i (mk_file p t fl) ino o c ∧ umem s' = umem s
      else lseek fd offset whence s = fail EOVERFLOW (-1) s
  end.
Proof. apply lseek_run. Qed.

(** C18: what is written from user memory is read back: [write], [lseek] back and [read] of the
    same descriptor of a tmpfs file return the same bytes, the file holds them at the old
    offset and everything else that it held before; or the kernel panics, as it does when it
    is out of memory. *)
Theorem write_seek_read `{PathOps} `{FrameAllocatorLaws St} `{RandomSource} `{SysParams} (s : sys St)
    fd d i p (off : nat) fl ino o c src dst l :
  opened s fd d i (mk_file p (Z.of_nat off) fl) ino o c → is_read fl = true → is_write fl = true →
  are_bytes l → bytes_at (umem s) src l → mapped (umem s) dst (length l) →
  Z.of_nat (length l) ≤ alloc_max → Z.of_nat off + Z.of_nat (length l) < 2 ^ 62 →
  let n := Z.of_nat (length l) in
  let run := (r1 ← write fd src n; r2 ← lseek fd (- n) seek_cur; r3 ← read fd dst n; mret (r1, r2, r3)) s in
  run = Panic ∨
  ∃ s', run = Done (n, Z.of_nat off, n, s') ∧ bytes_at (umem s') dst l ∧
    opened s' fd d i (mk_file p (Z.of_nat off + n) fl) ino o (splice off l c).
Proof.
  intros Ho Hr Hw Hl Hsrc Hdst Hmax Hlt n run. unfold run. rewrite run_bind.
  destruct (write_run s fd d i p off fl ino o c src l Ho Hw Hsrc Hmax Hlt) as [E|(s1 & E & Ho1 & Hu1)];
    fold n in E; rewrite E; [by left|].
  cbn [mbind outcome_bind]. rewrite run_bind.
  pose proof (lseek_run s1 fd d i p _ fl ino o _ (- n) seek_cur Ho1 ltac:(lia) ltac:(lia)) as Hseek.
  change (seek_target ?a ?b ?c seek_cur) with (Some (a + c)) in Hseek. cbv iota beta in Hseek.
  rewrite decide_True in Hseek by lia. destruct Hseek as (s2 & -> & Ho2 & Hu2).
  cbn [mbind outcome_bind]. rewrite run_bind.
  replace (Z.of_nat (off + length l) + - n) with (Z.of_nat off) in * by lia.
  destruct (read_run s2 fd d i p off fl ino o _ dst (length l) Ho2 Hr) as [E'|(s3 & E' & Ho3 & Hu3)].
  - rewrite length_splice. lia.
  - done.
  - done.
  - by rewrite drop_splice.
  - rewrite drop_splice, Hu2, Hu1. done.
  - left. fold n in E'. by rewrite E'.
  - right. rewrite drop_splice in E', Ho3, Hu3. fold n in E'. rewrite E'. exists s3. split; [done|].
    split; [|by rewrite Nat2Z.inj_add in Ho3].
    intros j x Hj. rewrite Hu3, write_bytes_lookup. pose proof (lookup_lt_Some _ _ _ Hj).
    rewrite decide_True by lia. rewrite <-Hj. f_equal. lia.
Qed.

(** ** Opening *)
Section opening.
Context `{PathLaws} `{FrameAllocator St} `{RandomSource} `{SysParams} (fuel : nat).

Lemma triple_any {A} (m : M (St := St) A) : triple (λ _, True) m (λ _ _, True).
Proof. done. Qed.
Lemma tmpfile_has_directory flags : has o_directory flags = true → has o_tmpfile flags = true.
Proof.
  unfold has. rewrite !negb_true_iff, !Z.eqb_neq. intros Hd Ht. apply Hd.
  assert (o_directory = Z.land o_tmpfile o_directory) as -> by reflexivity. by rewrite Z.land_assoc, Ht.
Qed.

(** The mask leaves no bit of the type. *)
Lemma masked_type mode umask : type_of_mode (Z.ldiff (Z.land mode 0xFFF) umask) = 0.
Proof.
  unfold type_of_mode, s_ifmt. apply Z.bits_inj'. intros n Hn. rewrite Z.land_spec, Z.ldiff_spec, Z.land_spec, Z.bits_0.
  assert (Z.testbit 0xFFF n && Z.testbit 0xF000 n = false) as E by (rewrite <-Z.land_spec; apply Z.bits_0).
  destruct (Z.testbit mode n), (Z.testbit umask n), (Z.testbit 0xFFF n), (Z.testbit 0xF000 n); simpl in *; congruence.
Qed.

(** The directory of a path that is a single name is the working directory. *)
Lemma resolve_from_dirname (s : sys St) n :
  plain n → resolve_from (S fuel) at_fdcwd (normalise (dirname n)) s =
    Done (Some (mk_res (p_cwd (proc s)) (p_cwd (proc s))), s).
Proof.
  intros Hn. rewrite (proj2 (split_name n Hn)). destruct normalise_nil as [Ht Ha].
  unfold resolve_from. rewrite run_bind.
  assert (get_parent at_fdcwd (normalise EmptyString) s = Done (Some (p_cwd (proc s)), s)) as ->.
  { unfold get_parent. rewrite run_bind. simpl. by rewrite Ha. }
  cbn [mbind outcome_bind]. rewrite run_bind. simpl proc. cbn [mbind outcome_bind get_proc]. rewrite run_bind.
  unfold with_vfs, with_fs. cbn [resolve]. rewrite normalise_idem, Ha. cbn [mbind outcome_bind]. rewrite Ht.
  cbn [mbind outcome_bind]. unfold set_vfs. by destruct s as [[] ? ?].
Qed.
End opening.

(** [openat] with O_DIRECTORY never opens anything: O_TMPFILE contains the bit of
    O_DIRECTORY, so reading is refused as for O_TMPFILE, and writing to a directory or
    O_DIRECTORY on a file always is. *)
Theorem open_directory_fails `{PathOps} `{FrameAllocator St} `{RandomSource} `{SysParams} fuel
    dirfd pathname flags mode (s s' : sys St) r :
  has o_directory flags = true → openat fuel dirfd pathname flags mode s = Done (r, s') → r = -1.
Proof.
  intros Hd. revert s r s'. enough (triple (λ _, True) (openat (St := St) fuel dirfd pathname flags mode) (λ r _, r = -1)) as Ht.
  { intros s r s'. by apply Ht. }
  unfold openat. rewrite (tmpfile_has_directory _ Hd), Hd. destruct (is_write flags) eqn:Hw; cbn [negb andb];
    [|by apply triple_fail]. destruct (has o_creat flags); [by apply triple_fail|].
  eapply triple_bind; [apply triple_any|]. intros [p|]; [|by apply triple_ret].
  eapply triple_bind; [apply triple_any|]. intros [target|]; [|by apply triple_ret].
  unfold open_file. eapply triple_bind; [apply triple_any|]. intros st. rewrite Hw, Hd.
  destruct (st_type st =? s_ifdir); by apply triple_fail.
Qed.

(** Opening a missing name in the working directory with O_CREAT makes a file there with
    the permissions that the mask leaves and the owner of the process (the group of a
    set-group-id directory).  The file has no type, not even that of a regular file, because the
    bits of the type are masked off; and a kernel with assertions panics instead, because the
    assertion after the creation says the opposite of what it should. *)
Theorem open_creates `{PathLaws} `{FrameAllocator St} `{RandomSource} `{SysParams} fuel (s : sys St) n mode m mo de dn :
  let pr := proc s in let P := p_cwd pr in let v := fvfs (sfs s) in
  vfs_ok v → plain n → mnt P = Some m → mounts v !! m = Some mo → is_Some (instances v !! m_fs mo) →
  dentries v !! dent P = Some de → inodes v !! d_inode de = Some dn → st_type (i_stat dn) = s_ifdir →
  d_children de !! n = None →
  if debug then create_target (S fuel) at_fdcwd n (Z.land mode 0xFFF) s = Panic
  else ∃ q node s', create_target (S fuel) at_fdcwd n (Z.land mode 0xFFF) s = Done (Some q, s') ∧
    step (S fuel) (fvfs (sfs s')) P n q ∧ inode_of (dent q) (fvfs (sfs s')) = Done node ∧
    st_mode (i_stat node) = Z.ldiff (Z.land mode 0xFFF) (p_umask pr) ∧ st_type (i_stat node) = 0 ∧ st_size (i_stat node) = 0 ∧ i_op node = Some TmpfsOps ∧
    st_uid (i_stat node) = p_euid pr ∧
    st_gid (i_stat node) = (if has s_isgid (mode_of (i_stat dn)) then st_gid (i_stat dn) else p_egid pr).
Proof.
  intros pr P v Hv Hn Hm Hmo Hinst Hde Hdn Hdir Hc. pose proof (masked_type mode (p_umask pr)) as Htype.
  set (md := Z.land mode 0xFFF) in *.
  destruct (create_new v (me pr) fuel P n (Z.ldiff md (p_umask pr)) m mo de Hv Hn Hm Hmo Hinst Hde Hc)
    as (q & i & node & v' & Hcr & _ & _ & Hi & Hnode & Hinodes & Hfresh & _ & _ & (de' & Hde' & Hino) & Hmounts & Hstep).
  set (s1 := mk_sys (set_vfs v' (sfs s)) pr (umem s)).
  assert (create_target (S fuel) at_fdcwd n md s =
    (_ ← bug_on_debug true;
     parent_stat ← stat_of P;
     let gid := if has s_isgid (mode_of parent_stat) then st_gid parent_stat else p_egid pr in
     _ ← change_stat q (λ _, set_owner (p_euid pr) gid);
     mret (Some q)) s1) as ->.
  { unfold create_target. rewrite run_bind. cbn [get_proc mbind outcome_bind]. rewrite run_bind, resolve_from_dirname by done.
    cbn [mbind outcome_bind r_target]. rewrite run_bind. fold pr P.
    assert (stat_of P s = Done (i_stat dn, s)) as ->.
    { unfold stat_of, read_fs. by rewrite (inode_ref_eq P (sfs s) de dn). }
    cbn [mbind outcome_bind]. rewrite Hdir. change (negb (s_ifdir =? s_ifdir)) with false. cbv iota.
    rewrite run_bind. rewrite (proj1 (split_name n Hn)), (proj1 (normalise_name n Hn)).
    assert (with_vfs (create (S fuel) (me pr) (Some P) n (Z.ldiff md (p_umask pr)) 0) s = Done (Value q, s1)) as ->.
    { unfold with_vfs, with_fs. fold v. by rewrite Hcr. }
    done. }
  rewrite run_bind. unfold bug_on_debug. destruct debug; [done|]. cbn [andb mbind outcome_bind].
  assert (i ≠ d_inode de) as Hne by congruence. rewrite run_bind.
  assert (stat_of P s1 = Done (i_stat dn, s1)) as ->.
  { unfold stat_of, read_fs. rewrite (inode_ref_eq P (sfs s1) de' dn); [done|done|].
    rewrite Hino. simpl. by rewrite Hinodes, lookup_insert_ne. }
  cbn [mbind outcome_bind]. rewrite run_bind. unfold change_stat, with_fs.
  unfold inode_of in Hnode. destruct (dentry_of (dent q) v') as [qe| | | |] eqn:Hqe; try done. simpl in Hnode.
  assert (dentries v' !! dent q = Some qe) as Hq.
  { unfold dentry_of in Hqe. by apply deref_Done_inv. }
  apply deref_Done_inv in Hnode. rewrite (inode_ref_eq q (sfs s1) qe node) by done. cbn [mbind outcome_bind].
  eexists q, _, _. split; [reflexivity|]. simpl. split; [by eapply step_ext; [| |exact Hstep]|].
  unfold inode_of, dentry_of. simpl. rewrite Hq. simpl. rewrite lookup_insert_eq. simpl. split; [done|].
  destruct Hfresh as (? & Hmode & _ & ? & _). split_and!; try done. unfold st_type. simpl. by rewrite Hmode.
Qed.
