(* ===== verification/SysBoot.v ===== *)
(** Sessions on the running system: system calls after start-up, and examples for the
    properties of [FilesSpec.v], [SysSpec.v] and [SysFiles.v]. *)

From Stdlib Require Import Strings.Ascii.
From S2P Require Import Prelude Math Pmm Frames Objects LibC LibCSpec Vfs VfsTables VfsSpec VfsBoot Files FilesSpec.
From S2P Require Import SysVfs SysSpec SysFiles.
#[local] Open Scope string_scope.
#[local] Open Scope Z_scope.

(** A release build with a linear congruential generator behind /dev/random. *)
#[export] Instance simple_random : RandomSource := {| rnd_next r := let r := w64 (r * 6364136223846793005 + 1) in (r / 2 ^ 32, r) |}.
#[export] Instance release_build : SysParams :=
  {| debug := false; alloc_max := 4096; errno_known e := (0 <=? e) && (e <=? 127) && negb (e =? 41) && negb (e =? 58) |}.

(** A process in the root directory whose memory holds strings, zero-terminated, and free space. *)
Definition user_proc (root : path) : process := mk_process root root 0x12 0 0 0 0 (mk_fdtable ∅ 0).
Definition user_strings (l : list (Z * string)) : bytemem :=
  foldr (λ '(p, n) m, write_bytes m p (bytes_of_string n ++ [0])) ∅ l.
Definition user_sys (root : path) (v : vfs Z) (m : bytemem) : sys Z := mk_sys (mk_fsys v ∅ ∅ 0 1 []) (user_proc root) m.

(** A system call from user space. *)
Definition syscall (idx a b c d : Z) : M (St := Z) Z :=
  match vfs_syscall 9 idx a b c d with Some m => m | None => λ _, Panic end.
(** The results of a session, as signed integers. *)
Fixpoint session (l : list (Z * Z * Z * Z)) (s : sys Z) : outcome (list Z * sys Z) :=
  match l with
  | [] => Done ([], s)
  | (idx, a, b, c) :: l => '(r, s) ← syscall idx a b c 0 s; '(rs, s) ← session l s; Done (s64 r :: rs, s)
  end.

Definition device_session : outcome (list Z * list Z) :=
  '(root, v) ← vfs_boot;
  let s := user_sys root v (user_strings [(0x100, "/dev/zero"); (0x200, "/dev/full"); (0x300, "/dev/none"); (0x400, "abcd")]) in
  '(rs, s) ← session [(2, 0x100, o_rdwr, 0); (0, 0, 0x400, 2); (1, 0, 0x400, 4); (8, 0, 0, seek_cur);
                      (2, 0x200, o_rdwr, 0); (1, 1, 0x400, 4); (0, 1, 0x403, 1);
                      (2, 0x300, o_rdonly, 0); (32, 0, 0, 0); (3, 0, 0, 0); (0, 0, 0x400, 1)] s;
  Done (rs, (λ i, default 0 (umem s !! i)) <$> [0x400; 0x401; 0x402; 0x403]).

(** After start-up a program opens /dev/zero and /dev/full, reads zeros from both, writes to
    /dev/zero and moves its offset; a missing device and a closed descriptor are reported as
    such, but a write to /dev/full is reported as EPERM: the call takes the result -1 for a
    negated error number and overwrites the ENOSPC of the device. *)
Theorem device_files :
  device_session = Done ([0; 2; 4; 6; 1; - EPERM; 1; - ENOENT; 2; 0; - EBADF], [0; 0; 99; 0]) ∧
  full_write (St := Z) [1] (mk_fsys ex_vfs ∅ ∅ 0 1 []) = Done (-1, mk_fsys ex_vfs ∅ ∅ enospc 1 []).
Proof. split; vm_compute; reflexivity. Qed.

(** ** Witnesses: the file [f] of [ex_vfs], opened for reading and writing *)
Definition ex_memory : bytemem := user_strings [(0x100, "/f"); (0x200, "abcd"); (0x300, "efghijk"); (0x400, "new"); (0x500, "/d")].
Definition ex_sys : sys Z :=
  match syscall 2 0x100 o_rdwr 0 0 (user_sys ex_root ex_vfs ex_memory) with Done (_, s) => s | _ => user_sys ex_root ex_vfs ∅ end.
Definition ex_file : file := mk_file (ex_entry "f") 0 o_rdwr.

Lemma empty_objects_inv (m : objstore Z) :
  bool_decide (map_Forall (λ _ pages, pages = ∅) (objects m)) && bool_decide (phys m = ∅) && bool_decide (oframes m = 0x1000) = true →
  obj_inv m.
Proof.
  rewrite !andb_true_iff, !bool_decide_eq_true. intros [[Ho Hp] Hf].
  assert (∀ o pages idx, objects m !! o = Some pages → pages !! idx = None) as He.
  { intros o pages idx Hl. rewrite (Ho _ _ Hl). apply lookup_empty. }
  split.
  - intros o pages idx p Hl Hq. by rewrite (He _ _ _ Hl) in Hq.
  - intros o1 p1 o2 p2 i1 i2 p Hl1 _ Hq. by rewrite (He _ _ _ Hl1) in Hq.
  - exists (λ x, x < 0x1000). rewrite Hf, Hp. split; [split; [done|]; split; [by exists 1|done]|].
    intros p [bs Hb]. by rewrite lookup_empty in Hb.
Qed.
Lemma ex_file_rep : file_rep (sfs ex_sys) (ex_entry "f") 4 3 [].
Proof.
  split.
  - eexists. split; [vm_compute; reflexivity|]. split; reflexivity.
  - apply empty_objects_inv. vm_compute. reflexivity.
  - eexists. vm_compute. reflexivity.
  - intros off Hoff. unfold byte_at.
    assert (objects (mem (fvfs (sfs ex_sys))) !! 3 = Some ∅) as -> by (vm_compute; reflexivity).
    cbn [mbind option_bind]. by rewrite lookup_empty.
  - simpl. lia.
Qed.
Lemma ex_opened : opened ex_sys 0 0 0 ex_file 4 3 [].
Proof.
  split.
  - split; [done|]. vm_compute. reflexivity.
  - eexists. vm_compute. reflexivity.
  - vm_compute. reflexivity.
  - exact ex_file_rep.
  - eexists. split; [vm_compute; reflexivity|]. split; reflexivity.
Qed.

(** Runs that are evaluated to the end. *)
Definition is_done {A} (o : outcome A) : bool := match o with Done _ => true | _ => false end.

Lemma tmpfs_refines_witness :
  (∃ s', exec_run (ex_entry "f") [Write 2 [7; 8]; Read 1 [0; 0; 0; 0]; Trunc 3; Write 5 []; Read 0 [1; 1; 1; 1; 1; 1]] (sfs ex_sys) =
      Done ([[]; [0; 7; 8]; []; []; [0; 0; 7; 0; 0]], s') ∧
    file_rep s' (ex_entry "f") 4 3 [0; 0; 7; 0; 0] ∧ only_file 4 3 (sfs ex_sys) s') ∧
  exec_run (ex_entry "f") [Write 2 [7; 8]; Read 5 [0]; Trunc 3] (sfs ex_sys) = Crash.
Proof.
  split.
  - destruct (tmpfs_refines (sfs ex_sys) (ex_entry "f") 4 3 []
      [Write 2 [7; 8]; Read 1 [0; 0; 0; 0]; Trunc 3; Write 5 []; Read 0 [1; 1; 1; 1; 1; 1]]) as [E|H].
    + exact ex_file_rep.
    + repeat constructor; simpl; lia.
    + not_panic E.
    + exact H.
  - destruct (tmpfs_refines (sfs ex_sys) (ex_entry "f") 4 3 [] [Write 2 [7; 8]; Read 5 [0]; Trunc 3]) as [E|H].
    + exact ex_file_rep.
    + repeat constructor; simpl; lia.
    + not_panic E.
    + exact H.
Defined.

Lemma tmpfs_map_private_witness :
  ∃ m s', tmpfs_map (ex_entry "f") true (sfs ex_sys) = Done (Some m, s') ∧ m ≠ 3.
Proof.
  destruct (tmpfs_map_private (sfs ex_sys) (ex_entry "f") 4 3 [] ex_file_rep) as [E|(m & s' & E & Hne & _)].
  - not_panic E.
  - exists m, s'. split; [exact E|exact Hne].
Defined.

Lemma tmpfs_read_past_end_witness : tmpfs_read (ex_entry "f") 1 [0; 0] (sfs ex_sys) = Crash.
Proof. apply (tmpfs_read_past_end (sfs ex_sys) (ex_entry "f") 4 3 [] 1 [0; 0] ex_file_rep); simpl; lia. Defined.

Lemma vfs_syscall_errors_witness :
  ∃ ret s', close 7 (cleared ex_sys) = Done (ret, s') ∧
    (ret = -1 ∧ some_error (errno (sfs s')) ∧ w64 (- EBADF) = w64 (- errno (sfs s')) ∨
     0 ≤ ret ∧ (ret < 2 ^ 63 ∨ 3 = 79 → w64 (- EBADF) = ret)).
Proof.
  destruct (invoke (checker_of 3) (close 7) ex_sys) as [[r s']| | | |] eqn:E; [|vm_compute in E; discriminate E..].
  destruct (vfs_syscall_errors 9 3 7 0 0 0 (close 7) ex_sys s' r) as (ret & E' & Hr).
  - simpl. lia.
  - intros e [He [H41 H58]]. simpl. rewrite !andb_true_iff, !negb_true_iff, !Z.leb_le, !Z.eqb_neq. lia.
  - lia.
  - reflexivity.
  - exact E.
  - exists ret, s'. split; [exact E'|].
    assert (r = w64 (- EBADF)) as <- by (vm_compute in E; injection E as <- _; reflexivity).
    destruct Hr as [Hr|[Hr|[[Hc _] _]]]; [left; exact Hr|right; exact Hr|discriminate Hc].
Defined.

Lemma lseek_correct_witness :
  ∃ s', lseek 0 5 seek_end ex_sys = Done (5, s') ∧ opened s' 0 0 0 (mk_file (ex_entry "f") 5 o_rdwr) 4 3 [] ∧ umem s' = umem ex_sys.
Proof. apply (lseek_correct ex_sys 0 0 0 (ex_entry "f") 0 o_rdwr 4 3 [] 5 seek_end ex_opened); lia. Defined.

Lemma write_seek_read_witness :
  ∃ s', (r1 ← write 0 0x200 4; r2 ← lseek 0 (- 4) seek_cur; r3 ← read 0 0x300 4; mret (r1, r2, r3)) ex_sys = Done (4, 0, 4, s') ∧
    bytes_at (umem s') 0x300 [97; 98; 99; 100] ∧
    opened s' 0 0 0 (mk_file (ex_entry "f") (0 + 4) o_rdwr) 4 3 (splice 0 [97; 98; 99; 100] []).
Proof.
  destruct (write_seek_read ex_sys 0 0 0 (ex_entry "f") 0 o_rdwr 4 3 [] 0x200 0x300 [97; 98; 99; 100]) as [E|H].
  - exact ex_opened.
  - reflexivity.
  - reflexivity.
  - repeat constructor; lia.
  - apply bytes_atb_ok. vm_compute. reflexivity.
  - apply (bytes_at_mapped _ _ [101; 102; 103; 104]), bytes_atb_ok. vm_compute. reflexivity.
  - simpl. lia.
  - simpl. lia.
  - not_panic E.
  - exact H.
Defined.

Lemma open_directory_fails_witness :
  ∃ s', openat 9 at_fdcwd 0x500 (Z.lor o_rdonly o_directory) 0 ex_sys = Done (-1, s').
Proof.
  destruct (openat 9 at_fdcwd 0x500 (Z.lor o_rdonly o_directory) 0 ex_sys) as [[r s']| | | |] eqn:E;
    [|vm_compute in E; discriminate E..].
  exists s'. assert (has o_directory (Z.lor o_rdonly o_directory) = true) as Hd by reflexivity.
  rewrite (open_directory_fails 9 at_fdcwd 0x500 _ 0 ex_sys s' r Hd E). reflexivity.
Defined.

Lemma open_creates_witness :
  ∃ q node s', create_target 9 at_fdcwd "new" (Z.land 0x1B6 0xFFF) ex_sys = Done (Some q, s') ∧
    step 9 (fvfs (sfs s')) (p_cwd (proc ex_sys)) "new" q ∧ inode_of (dent q) (fvfs (sfs s')) = Done node ∧
    st_mode (i_stat node) = Z.ldiff (Z.land 0x1B6 0xFFF) (p_umask (proc ex_sys)) ∧ st_type (i_stat node) = 0 ∧
    st_size (i_stat node) = 0 ∧ i_op node = Some TmpfsOps ∧
    st_uid (i_stat node) = p_euid (proc ex_sys) ∧
    st_gid (i_stat node) = (if has s_isgid (mode_of (i_stat (ex_inode 0))) then st_gid (i_stat (ex_inode 0)) else p_egid (proc ex_sys)).
Proof.
  pose proof (open_creates 8 ex_sys "new" 0x1B6 0 (mk_mount 1 2 (Some (mk_path None 0))) (ex_dentry 0) (ex_inode 0)) as Ho.
  cbv zeta in Ho. change debug with false in Ho. cbv iota in Ho. apply Ho.
  - apply vfs_okb_ok. vm_compute. reflexivity.
  - ex_plain.
  - vm_compute. reflexivity.
  - vm_compute. reflexivity.
  - eexists. vm_compute. reflexivity.
  - vm_compute. reflexivity.
  - vm_compute. reflexivity.
  - vm_compute. reflexivity.
  - vm_compute. reflexivity.
Defined.
