(* ===== verification/Process.v ===== *)
(** Processes, process groups and sessions (kernel/source/system/scheduler.cpp, the tables
    [processes], [groups] and [sessions] and the functions on them; the records are those of
    kernel/interfaces/system/scheduler.cppm).

    Pointers are identifiers of objects: processes, groups, sessions and address spaces each
    have a table from identifiers to objects.  A function that finds its own lock taken, by
    itself, hangs. *)

From S2P Require Import Prelude Math Pmm PmmBlocks Frames Pagemap PagemapTree PagemapSpec Objects Vmm Vfs.

(** [pid_t] is 32 bits wide and signed; the keys of the tables are of type [std::size_t]. *)
Definition pid_of (x : Z) : Z := s32 x.
Definition initial_stck_top : Z := 0x7FFFFFFF000.

Record creds := mk_creds { ruid : Z; euid : Z; suid : Z; rgid : Z; egid : Z; sgid : Z }.
Definition root_creds : creds := mk_creds 0 0 0 0 0 0.

(** [struct process]; the table of descriptors is in [SysVfs.v]. *)
Record process := mk_process
  { pid : Z; pgid : Z; sid : Z; ids : creds; vspace : option Z; proot : path; pcwd : path;
    has_execved : bool; pparent : option Z; children : gmap Z Z; pthreads : gmap Z Z;
    next_tid : Z; next_stack_top : Z }.
Definition set_pgid (g : Z) (p : process) : process :=
  mk_process (pid p) g (sid p) (ids p) (vspace p) (proot p) (pcwd p) (has_execved p) (pparent p)
    (children p) (pthreads p) (next_tid p) (next_stack_top p).
Definition set_sid (x : Z) (p : process) : process :=
  mk_process (pid p) (pgid p) x (ids p) (vspace p) (proot p) (pcwd p) (has_execved p) (pparent p)
    (children p) (pthreads p) (next_tid p) (next_stack_top p).
Definition set_place (vs : option Z) (r c : path) (par : option Z) (p : process) : process :=
  mk_process (pid p) (pgid p) (sid p) (ids p) vs r c (has_execved p) par
    (children p) (pthreads p) (next_tid p) (next_stack_top p).
Definition set_children (ch : gmap Z Z) (p : process) : process :=
  mk_process (pid p) (pgid p) (sid p) (ids p) (vspace p) (proot p) (pcwd p) (has_execved p) (pparent p)
    ch (pthreads p) (next_tid p) (next_stack_top p).
Definition set_threads (th : gmap Z Z) (tid stack : Z) (p : process) : process :=
  mk_process (pid p) (pgid p) (sid p) (ids p) (vspace p) (proot p) (pcwd p) (has_execved p) (pparent p)
    (children p) th tid stack.

(** [new process { }] *)
Definition no_path : path := mk_path None (-1).
Definition blank_process (n : Z) : process :=
  mk_process n 0 0 root_creds None no_path no_path false None ∅ ∅ 1 initial_stck_top.

(** [struct group] and [struct session], their members by number. *)
Record group := mk_group { g_pgid : Z; g_sid : Z; g_members : gmap Z Z }.
Record session := mk_session { s_sid : Z; s_members : gmap Z Z }.

Section process.
Context {PM : Type}.

(** The tables; [ptab], [gtab], [stab] and [spaces] hold the objects. *)
Record procs := mk_procs
  { ptab : gmap Z process; processes : gmap Z Z; gtab : gmap Z group; groups : gmap Z Z;
    stab : gmap Z session; sessions : gmap Z Z; next_pid : Z; spaces : gmap Z (vmspace PM) }.
Definition put_proc (i : Z) (p : process) (s : procs) : procs :=
  mk_procs (<[i := p]> (ptab s)) (processes s) (gtab s) (groups s) (stab s) (sessions s) (next_pid s) (spaces s).
Definition put_group (i : Z) (g : group) (s : procs) : procs :=
  mk_procs (ptab s) (processes s) (<[i := g]> (gtab s)) (groups s) (stab s) (sessions s) (next_pid s) (spaces s).
Definition put_session (i : Z) (x : session) (s : procs) : procs :=
  mk_procs (ptab s) (processes s) (gtab s) (groups s) (<[i := x]> (stab s)) (sessions s) (next_pid s) (spaces s).
Definition put_space (i : Z) (v : vmspace PM) (s : procs) : procs :=
  mk_procs (ptab s) (processes s) (gtab s) (groups s) (stab s) (sessions s) (next_pid s) (<[i := v]> (spaces s)).
Definition get_process (i : Z) (s : procs) : outcome process := deref (ptab s !! i).
Definition get_group (i : Z) (s : procs) : outcome group := deref (gtab s !! i).
Definition get_session (i : Z) (s : procs) : outcome session := deref (stab s !! i).

(** [alloc_pid] *)
Definition alloc_pid (i : Z) (s : procs) : Z * procs :=
  let n := next_pid s in
  (n, mk_procs (ptab s) (<[n := i]> (processes s)) (gtab s) (groups s) (stab s) (sessions s) (w64 (n + 1)) (spaces s)).

Definition create_group (i : Z) (s : procs) : outcome (Z * procs) :=
  p ← get_process i s;
  let n := pid p in
  let g := fresh (dom (gtab s)) in
  let s := put_proc i (set_pgid n p) s in
  let s := put_group g (mk_group n 0 {[n := i]}) s in
  Done (g, mk_procs (ptab s) (processes s) (gtab s) (<[w64 n := g]> (groups s)) (stab s) (sessions s)
    (next_pid s) (spaces s)).

Definition create_session (g : Z) (s : procs) : outcome (Z * procs) :=
  grp ← get_group g s;
  let n := g_pgid grp in
  let x := fresh (dom (stab s)) in
  let s := put_session x (mk_session n {[n := g]}) s in
  Done (x, mk_procs (ptab s) (processes s) (gtab s) (groups s) (stab s) (<[w64 n := x]> (sessions s))
    (next_pid s) (spaces s)).

(** [proc_for]: [idle] is the idle process of the processor. *)
Definition proc_for (idle : option Z) (n : Z) (s : procs) : option Z :=
  if n =? -1 then idle else processes s !! w64 n.
Definition group_for (n : Z) (s : procs) : option Z := groups s !! w64 n.
Definition session_for (n : Z) (s : procs) : option Z := sessions s !! w64 n.

(** The lock of the members of [g] is held when those of the old group are locked. *)
Definition leave_group (i : Z) (p : process) (g : Z) (s : procs) : outcome procs :=
  match group_for (pgid p) s with
  | None => Done s
  | Some old =>
      if old =? g then Hang else
      og ← get_group old s;
      _ ← bug_on (bool_decide (g_members og !! pid p = None));
      Done (put_group old (mk_group (g_pgid og) (g_sid og) (delete (pid p) (g_members og))) s)
  end.
Definition change_group (i g : Z) (s : procs) : outcome (bool * procs) :=
  p ← get_process i s;
  grp ← get_group g s;
  if decide (is_Some (g_members grp !! pid p)) then Done (false, s) else
  let s := put_group g (mk_group (g_pgid grp) (g_sid grp) (<[pid p := i]> (g_members grp))) s in
  s ← leave_group i p g s;
  Done (true, put_proc i (set_sid (g_sid grp) (set_pgid (g_pgid grp) p)) s).

Definition leave_session (g : Z) (grp : group) (x : Z) (s : procs) : outcome procs :=
  match session_for (g_sid grp) s with
  | None => Done s
  | Some old =>
      if old =? x then Hang else
      os ← get_session old s;
      _ ← bug_on (bool_decide (s_members os !! g_pgid grp = None));
      Done (put_session old (mk_session (s_sid os) (delete (g_pgid grp) (s_members os))) s)
  end.
Fixpoint set_sids (l : list (Z * Z)) (x : Z) (s : procs) : outcome procs :=
  match l with
  | [] => Done s
  | (_, i) :: l => p ← get_process i s; set_sids l x (put_proc i (set_sid x p) s)
  end.
Definition change_session (g x : Z) (s : procs) : outcome (bool * procs) :=
  grp ← get_group g s;
  sess ← get_session x s;
  if decide (is_Some (s_members sess !! g_pgid grp)) then Done (false, s) else
  let s := put_session x (mk_session (s_sid sess) (<[g_pgid grp := g]> (s_members sess))) s in
  s ← leave_session g grp x s;
  let s := put_group g (mk_group (g_pgid grp) (s_sid sess) (g_members grp)) s in
  s ← set_sids (map_to_list (g_members grp)) (s_sid sess) s;
  Done (true, s).

(** The group and session of a new process [i] with number [n], not 0. *)
Definition join_parent (i n par : Z) (s : procs) : outcome procs :=
  pp ← get_process par s;
  p ← get_process i s;
  let s := put_proc i (set_sid (sid pp) (set_pgid (pgid pp) p)) s in
  g ← deref (group_for (pgid pp) s);
  grp ← get_group g s;
  _ ← bug_on (bool_decide (is_Some (g_members grp !! n)));
  Done (put_group g (mk_group (g_pgid grp) (g_sid grp) (<[n := i]> (g_members grp))) s).
Definition lead_session (i : Z) (s : procs) : outcome procs :=
  '(g, s) ← create_group i s;
  '(x, s) ← create_session g s;
  sess ← get_session x s;
  grp ← get_group g s;
  p ← get_process i s;
  Done (put_group g (mk_group (g_pgid grp) (s_sid sess) (g_members grp)) (put_proc i (set_sid (s_sid sess) p) s)).
Definition enrol (i n : Z) (parent : option Z) (s : procs) : outcome procs :=
  if n =? 0 then Done s else
  if n =? 1 then _ ← bug_on (bool_decide (is_Some parent)); lead_session i s else
  match parent with
  | Some par => join_parent i n par s
  | None => Panic
  end.

(** [process::create]: [pm] is the page map, [root] is [vfs::get_root(true)]. *)
Definition process_finish (parent : option Z) (pm : PM) (root : path) (i n : Z) (s : procs) : outcome (Z * procs) :=
  p ← get_process i s;
  let v := fresh (dom (spaces s)) in
  let s := put_space v (mk_vmspace [] pm false) s in
  match parent with
  | Some par =>
      pp ← get_process par s;
      let s := put_proc i (set_place (Some v) (proot pp) (pcwd pp) (Some par) p) s in
      pp ← get_process par s;
      Done (i, put_proc par (set_children (<[n := i]> (children pp)) pp) s)
  | None => Done (i, put_proc i (set_place (Some v) root root None p) s)
  end.
Definition process_create (parent : option Z) (pm : PM) (root : path) (s : procs) : outcome (Z * procs) :=
  let i := fresh (dom (ptab s)) in
  let s := put_proc i (blank_process 0) s in
  let '(n, s) := alloc_pid i s in
  let n := pid_of n in
  let s := put_proc i (blank_process n) s in
  s ← enrol i n parent s;
  process_finish parent pm root i n s.
End process.
Arguments procs PM : clear implicits.

(** Before the first process. *)
Definition no_procs {PM} : procs PM := mk_procs ∅ ∅ ∅ ∅ ∅ ∅ 0 ∅.
