(* ===== verification/ProcessSpec.v ===== *)
(** Correctness of the process tables: processes, groups and sessions refer to each other
    consistently in every state that the kernel can reach. *)

From S2P Require Import Prelude Math Pmm PmmBlocks Frames Pagemap PagemapTree PagemapSpec Objects Vmm Vfs Process.

Section process.
Context {PM : Type}.
Implicit Types s : procs PM.

(** Process [n], group [n], session [n]: the object and its contents. *)
Definition proc_at s (n i : Z) (p : process) : Prop := processes s !! n = Some i ∧ ptab s !! i = Some p.
Definition group_at s (n g : Z) (grp : group) : Prop := groups s !! n = Some g ∧ gtab s !! g = Some grp.
Definition session_at s (n x : Z) (sess : session) : Prop := sessions s !! n = Some x ∧ stab s !! x = Some sess.

Record procs_ok s : Prop := {
  po_next : 0 ≤ next_pid s ≤ 2 ^ 31;
  po_proc n i : processes s !! n = Some i → ∃ p, ptab s !! i = Some p ∧ pid p = n ∧ 0 ≤ n < next_pid s;
  po_group n g : groups s !! n = Some g → ∃ grp, gtab s !! g = Some grp ∧ g_pgid grp = n ∧ 0 < n < next_pid s;
  po_session n x : sessions s !! n = Some x → ∃ sess, stab s !! x = Some sess ∧ s_sid sess = n ∧ 0 < n < next_pid s;
  (** the members of a group are the processes with its number *)
  po_members n g grp m i : group_at s n g grp →
    (g_members grp !! m = Some i ↔ ∃ p, proc_at s m i p ∧ pgid p = n);
  (** the members of a session are the groups with its number *)
  po_smembers n x sess m g : session_at s n x sess →
    (s_members sess !! m = Some g ↔ ∃ grp, group_at s m g grp ∧ g_sid grp = n);
  (** every process but the first has a group, of its own session *)
  po_in_group n i p : proc_at s n i p →
    (n = 0 ∧ pgid p = 0) ∨ ∃ g grp, group_at s (pgid p) g grp ∧ sid p = g_sid grp;
  po_in_session n g grp : group_at s n g grp → ∃ x sess, session_at s (g_sid grp) x sess;
  (** the children of a process are the processes it is the parent of *)
  po_children n i p m j : proc_at s n i p →
    (children p !! m = Some j ↔ ∃ q, proc_at s m j q ∧ pparent q = Some i);
  po_parent n i p j : proc_at s n i p → pparent p = Some j → ∃ m q, proc_at s m j q;
  po_space n i p : proc_at s n i p → ∃ v, vspace p = Some v ∧ is_Some (spaces s !! v) }.

Lemma no_procs_ok : procs_ok (no_procs (PM := PM)).
Proof. split; unfold proc_at, group_at, session_at; simpl; try lia; repeat (intros [? ?] || intro); by simplify_map_eq. Qed.

(** Objects are told apart by their numbers. *)
Lemma proc_at_inj s n m i p q : procs_ok s → proc_at s n i p → proc_at s m i q → n = m ∧ p = q.
Proof.
  intros Hok [Hn Hp] [Hm Hq]. destruct (po_proc s Hok n i Hn) as (? & ? & <- & _).
  destruct (po_proc s Hok m i Hm) as (? & ? & <- & _). by simplify_eq.
Qed.
Lemma group_at_inj s n m g a b : procs_ok s → group_at s n g a → group_at s m g b → n = m ∧ a = b.
Proof.
  intros Hok [Hn Hp] [Hm Hq]. destruct (po_group s Hok n g Hn) as (? & ? & <- & _).
  destruct (po_group s Hok m g Hm) as (? & ? & <- & _). by simplify_eq.
Qed.
Lemma session_at_inj s n m x a b : procs_ok s → session_at s n x a → session_at s m x b → n = m ∧ a = b.
Proof.
  intros Hok [Hn Hp] [Hm Hq]. destruct (po_session s Hok n x Hn) as (? & ? & <- & _).
  destruct (po_session s Hok m x Hm) as (? & ? & <- & _). by simplify_eq.
Qed.
Lemma proc_pid s n i p : procs_ok s → proc_at s n i p → pid p = n ∧ 0 ≤ n < 2 ^ 31.
Proof.
  intros Hok [Hn Hp]. destruct (po_proc s Hok n i Hn) as (? & ? & <- & ?). simplify_eq.
  pose proof (po_next s Hok). split; [done|lia].
Qed.
Lemma group_pgid s n g grp : procs_ok s → group_at s n g grp → g_pgid grp = n ∧ 0 < n < 2 ^ 31.
Proof.
  intros Hok [Hn Hp]. destruct (po_group s Hok n g Hn) as (? & ? & <- & ?). simplify_eq.
  pose proof (po_next s Hok). split; [done|lia].
Qed.
Lemma session_sid s n x sess : procs_ok s → session_at s n x sess → s_sid sess = n ∧ 0 < n < 2 ^ 31.
Proof.
  intros Hok [Hn Hp]. destruct (po_session s Hok n x Hn) as (? & ? & <- & ?). simplify_eq.
  pose proof (po_next s Hok). split; [done|lia].
Qed.
Lemma proc_pgid s n i p : procs_ok s → proc_at s n i p → 0 ≤ pgid p < 2 ^ 31.
Proof.
  intros Hok Hp. destruct (po_in_group s Hok n i p Hp) as [[_ ->]|(g & grp & Hg & _)]; [lia|].
  apply group_pgid in Hg; [|done]. lia.
Qed.
Lemma group_for_at s n g : procs_ok s → 0 ≤ n < 2 ^ 31 →
  group_for n s = Some g → ∃ grp, group_at s n g grp.
Proof.
  intros Hok Hn. unfold group_for. rewrite w64_small by lia. intros Hg.
  destruct (po_group s Hok n g Hg) as (grp & ? & _). by exists grp.
Qed.
Lemma group_for_of s n g grp : procs_ok s → group_at s n g grp → group_for n s = Some g.
Proof.
  intros Hok Hg. pose proof (group_pgid s n g grp Hok Hg) as [_ ?]. unfold group_for.
  rewrite w64_small by lia. apply Hg.
Qed.
Lemma session_for_of s n x sess : procs_ok s → session_at s n x sess → session_for n s = Some x.
Proof.
  intros Hok Hg. pose proof (session_sid s n x sess Hok Hg) as [_ ?]. unfold session_for.
  rewrite w64_small by lia. apply Hg.
Qed.

(** A process is a member of its own group only. *)
Lemma not_member s m i p a b g0 :
  procs_ok s → proc_at s m i p → group_at s a b g0 → a ≠ pgid p → g_members g0 !! m = None.
Proof.
  intros Hok Hp Hb Ha. destruct (g_members g0 !! m) as [j|] eqn:Hj; [|done].
  destruct (proj1 (po_members s Hok a b g0 m j Hb) Hj) as (q & Hq & Hqn).
  assert (i = j) as -> by (destruct Hp, Hq; congruence).
  destruct (proc_at_inj s m m j p q Hok Hp Hq) as [_ ->]. done.
Qed.

(** [moved s s' m i n]: the number [m], bound to [i], is a member of group [n] of [s'] and of
    no other; nothing else about the groups has changed. *)
Definition moved s s' (m i n : Z) : Prop :=
  groups s' = groups s ∧ ∀ a b g0, group_at s a b g0 → ∃ g1, gtab s' !! b = Some g1 ∧
    g_pgid g1 = a ∧ g_sid g1 = g_sid g0 ∧
    ∀ k, g_members g1 !! k = if decide (k = m) then (if decide (a = n) then Some i else None) else g_members g0 !! k.

(** A registered process [m] gets the contents [p1]. *)
Definition replaced s s' (i : Z) (p1 : process) : Prop :=
  ptab s' = <[i := p1]> (ptab s) ∧ processes s' = processes s ∧ next_pid s' = next_pid s ∧ spaces s' = spaces s.

(** What [change_group] does for a registered process and group. *)
Lemma change_group_spec s m i p n g grp :
  procs_ok s → proc_at s m i p → group_at s n g grp →
  if decide (pgid p = n) then change_group i g s = Done (false, s)
  else ∃ s', change_group i g s = Done (true, s') ∧ moved s s' m i n ∧
    replaced s s' i (set_sid (g_sid grp) (set_pgid n p)) ∧ stab s' = stab s ∧ sessions s' = sessions s.
Proof.
  intros Hok Hp Hg. unfold change_group, get_process, get_group.
  rewrite (proj2 Hp), (proj2 Hg). cbn [deref mbind outcome_bind].
  pose proof (proc_pid s m i p Hok Hp) as [-> Hm]. pose proof (group_pgid s n g grp Hok Hg) as [Hn1 Hn].
  pose proof (po_members s Hok n g grp m i Hg) as Hmem.
  destruct (decide (pgid p = n)) as [Hpn|Hpn].
  { rewrite (proj2 Hmem) by eauto. by rewrite decide_True by eauto. }
  assert (g_members grp !! m = None) as Hnone.
  { apply (not_member s m i p n g grp Hok Hp Hg). by intros ->. }
  rewrite Hnone, decide_False by (intros []; discriminate). unfold leave_group.
  rewrite Hn1. set (s1 := put_group g _ s).
  destruct (po_in_group s Hok m i p Hp) as [[Hm0 Hp0]|(old & og & Hold & Hsid)].
  - assert (group_for (pgid p) s1 = None) as ->.
    { rewrite Hp0. unfold group_for. simpl. destruct (groups s !! w64 0) eqn:E; [|done].
      destruct (po_group s Hok _ _ E) as (? & _ & _ & ?). change (w64 0) with 0 in *. lia. }
    cbn [mbind outcome_bind]. eexists. split; [done|]. split_and!; try done.
    split; [done|]. intros a b g0 Hb. simpl. destruct (decide (b = g)) as [->|].
    + destruct (group_at_inj s a n g g0 grp Hok Hb Hg) as [-> ->]. rewrite lookup_insert_eq.
      eexists. split; [done|]. simpl. split_and!; [done|done|]. intros k.
      rewrite lookup_insert, (decide_True (P := n = n)) by done. by destruct (decide (m = k)), (decide (k = m)).
    + rewrite lookup_insert_ne by done. exists g0. destruct Hb as [Hb1 Hb2].
      destruct (group_pgid s a b g0 Hok (conj Hb1 Hb2)) as [Ha ?]. split_and!; [done..|]. intros k.
      assert (a ≠ n) by (intros ->; destruct Hg; congruence).
      destruct (decide (k = m)) as [->|]; [|done]. rewrite decide_False by done.
      apply (not_member s m i p a b g0 Hok Hp (conj Hb1 Hb2)). lia.
  - assert (group_for (pgid p) s1 = Some old) as -> by (apply (group_for_of s _ old og); done).
    assert (old ≠ g) by (intros ->; destruct (group_at_inj s _ _ g og grp Hok Hold Hg); lia).
    rewrite (proj2 (Z.eqb_neq old g)) by done. unfold get_group. simpl. rewrite lookup_insert_ne by done.
    rewrite (proj2 Hold). cbn [deref mbind outcome_bind].
    pose proof (proc_pid s m i p Hok Hp) as [Hpid _]. rewrite Hpid.
    rewrite (proj2 (po_members s Hok (pgid p) old og m i Hold)) by eauto. rewrite bool_decide_false by done.
    cbn [bug_on mbind outcome_bind]. eexists. split; [done|]. split_and!; try done.
    split; [done|]. intros a b g0 Hb. simpl.
    assert (a = pgid p → b = old ∧ g0 = og) as Hao.
    { intros ->. destruct Hb as [Hb1 Hb2], Hold as [Ho1 Ho2]. simplify_eq. done. }
    destruct (decide (b = old)) as [->|Hbo]; [|destruct (decide (b = g)) as [->|]].
    + destruct (group_at_inj s a _ old g0 og Hok Hb Hold) as [-> ->]. rewrite lookup_insert_eq.
      pose proof (group_pgid s _ old og Hok Hold) as [? _].
      eexists. split; [done|]. simpl. split_and!; [done|done|]. intros k.
      rewrite lookup_delete, (decide_False (P := pgid p = n)) by done. by destruct (decide (m = k)), (decide (k = m)).
    + rewrite lookup_insert_ne by done. destruct (group_at_inj s a n g g0 grp Hok Hb Hg) as [-> ->]. rewrite lookup_insert_eq.
      eexists. split; [done|]. simpl. split_and!; [done|done|]. intros k.
      rewrite lookup_insert, (decide_True (P := n = n)) by done. by destruct (decide (m = k)), (decide (k = m)).
    + rewrite !lookup_insert_ne by done. exists g0. destruct Hb as [Hb1 Hb2].
      destruct (group_pgid s a b g0 Hok (conj Hb1 Hb2)) as [Ha ?]. split_and!; [done..|]. intros k.
      assert (a ≠ n) by (intros ->; destruct Hg; congruence).
      destruct (decide (k = m)) as [->|]; [|done]. rewrite decide_False by done.
      apply (not_member s m i p a b g0 Hok Hp (conj Hb1 Hb2)). naive_solver.
Qed.

(** Membership in the state after a move. *)
Lemma moved_group s s' m i n : procs_ok s → moved s s' m i n → ∀ a b g1, group_at s' a b g1 ↔
  ∃ g0, group_at s a b g0 ∧ gtab s' !! b = Some g1.
Proof.
  intros Hok [Hk Hv] a b g1. split.
  - intros [Ha Hb]. rewrite Hk in Ha. destruct (po_group s Hok a b Ha) as (g0 & Hg0 & _).
    exists g0. done.
  - intros (g0 & [Ha Hb] & Hg1). split; [by rewrite Hk|done].
Qed.

Lemma replaced_at s s' m i p p1 : procs_ok s → proc_at s m i p → replaced s s' i p1 →
  ∀ a j q, proc_at s' a j q ↔ (j = i ∧ a = m ∧ q = p1) ∨ (j ≠ i ∧ proc_at s a j q).
Proof.
  intros Hok Hp (Ept & Epr & _ & _) a j q. unfold proc_at. rewrite Epr, Ept. destruct (decide (j = i)) as [->|].
  - rewrite lookup_insert_eq. split.
    + intros [Ha ?]. simplify_eq. left. split_and!; [done| |done].
      by destruct (proc_at_inj s a m i p p Hok (conj Ha (proj2 Hp)) Hp) as [-> _].
    + intros [(_ & -> & ->)|[? _]]; [|done]. split; [apply Hp|done].
  - rewrite lookup_insert_ne by done. naive_solver.
Qed.

(** The conditions on processes alone. *)
Lemma replaced_proc s s' m i p p1 : procs_ok s → proc_at s m i p → replaced s s' i p1 → pid p1 = pid p →
  ∀ n j, processes s' !! n = Some j → ∃ q, ptab s' !! j = Some q ∧ pid q = n ∧ 0 ≤ n < next_pid s'.
Proof.
  intros Hok Hp (Ept & Epr & Enp & _) Hpid n j Hn. rewrite Epr in Hn.
  destruct (po_proc s Hok n j Hn) as (q & Hq & Hqa & Hr). rewrite Enp, Ept.
  destruct (decide (j = i)) as [->|]; [|rewrite lookup_insert_ne by done; eauto].
  rewrite lookup_insert_eq. exists p1. split; [done|]. destruct Hp as [_ Hp]. simplify_eq. done.
Qed.
Lemma replaced_children s s' m i p p1 : procs_ok s → proc_at s m i p → replaced s s' i p1 →
  children p1 = children p → pparent p1 = pparent p →
  ∀ n j q k l, proc_at s' n j q → (children q !! k = Some l ↔ ∃ r, proc_at s' k l r ∧ pparent r = Some j).
Proof.
  intros Hok Hp Hr Hch Hpa n j q k l Hq. pose proof (replaced_at s s' m i p p1 Hok Hp Hr) as Hat.
  transitivity (∃ r, proc_at s k l r ∧ pparent r = Some j).
  { apply Hat in Hq as [(-> & -> & ->)|[_ Hq]]; [rewrite Hch; apply (po_children s Hok m i p k l Hp)|by apply (po_children s Hok n)]. }
  split; intros (r & Hr1 & Hpr).
  - destruct (decide (l = i)) as [->|].
    + exists p1. destruct (proc_at_inj s k m i r p Hok Hr1 Hp) as [-> ->]. split; [apply Hat; by left|by rewrite Hpa].
    + exists r. split; [apply Hat; by right|done].
  - apply Hat in Hr1 as [(-> & -> & ->)|[_ Hr1]]; [exists p; by rewrite <-Hpa|by exists r].
Qed.
Lemma replaced_parent s s' m i p p1 : procs_ok s → proc_at s m i p → replaced s s' i p1 → pparent p1 = pparent p →
  ∀ n j q k, proc_at s' n j q → pparent q = Some k → ∃ l r, proc_at s' l k r.
Proof.
  intros Hok Hp Hr Hpa n j q k Hq Hk. pose proof (replaced_at s s' m i p p1 Hok Hp Hr) as Hat.
  assert (∃ l r, proc_at s l k r) as (l & r & Hl).
  { apply Hat in Hq as [(-> & -> & ->)|[_ Hq]]; [rewrite Hpa in Hk|]; by eapply po_parent. }
  destruct (decide (k = i)) as [->|].
  - exists m, p1. apply Hat. by left.
  - exists l, r. apply Hat. by right.
Qed.
Lemma replaced_space s s' m i p p1 : procs_ok s → proc_at s m i p → replaced s s' i p1 → vspace p1 = vspace p →
  ∀ n j q, proc_at s' n j q → ∃ v, vspace q = Some v ∧ is_Some (spaces s' !! v).
Proof.
  intros Hok Hp Hr Hv n j q Hq. pose proof (replaced_at s s' m i p p1 Hok Hp Hr) as Hat.
  destruct Hr as (_ & _ & _ & ->). apply Hat in Hq as [(-> & -> & ->)|[_ Hq]];
    [rewrite Hv; apply (po_space s Hok m i p Hp)|by apply (po_space s Hok n j q)].
Qed.

(** The condition on groups and their members. *)
Lemma moved_members s s' m i p n p1 :
  procs_ok s → proc_at s m i p → moved s s' m i n → replaced s s' i p1 → pgid p1 = n →
  ∀ a b g1 k j, group_at s' a b g1 → (g_members g1 !! k = Some j ↔ ∃ q, proc_at s' k j q ∧ pgid q = a).
Proof.
  intros Hok Hp Hmv Hr Hpg a b g1 k j Hg. pose proof (replaced_at s s' m i p p1 Hok Hp Hr) as Hat.
  apply (moved_group s s' m i n Hok Hmv) in Hg as (g0 & Hg0 & Hg1). destruct Hmv as [_ Hgt].
  destruct (Hgt a b g0 Hg0) as (g2 & Hg2 & _ & _ & Hmem). simplify_eq. rewrite Hmem.
  destruct (decide (k = m)) as [->|Hkm].
  - transitivity (j = i ∧ a = pgid p1); [case_decide; naive_solver|]. split.
    + intros [-> ->]. exists p1. split; [apply Hat; by left|done].
    + intros (q & [(-> & _ & ->)|[Hji [Hj1 _]]]%Hat & ?); [done|]. destruct Hp as [Hp1 _]. simplify_eq.
  - rewrite (po_members s Hok a b g0 k j Hg0). split; intros (q & Hq & Hqa).
    + exists q. split; [|done]. apply Hat. right. split; [|done].
      intros ->. by destruct (proc_at_inj s k m i q p Hok Hq Hp).
    + apply Hat in Hq as [(_ & ? & _)|[_ Hq]]; [done|eauto].
Qed.

Lemma change_group_ok s s' m i p n g grp :
  procs_ok s → proc_at s m i p → group_at s n g grp → moved s s' m i n →
  replaced s s' i (set_sid (g_sid grp) (set_pgid n p)) → stab s' = stab s → sessions s' = sessions s → procs_ok s'.
Proof.
  intros Hok Hp Hg Hmv Hr Est Ess. pose proof (moved_group s s' m i n Hok Hmv) as Hgat.
  pose proof (replaced_at s s' m i p _ Hok Hp Hr) as Hpat.
  assert (∀ a x, session_at s' a x = session_at s a x) as Hses by (intros; unfold session_at; by rewrite Est, Ess).
  split.
  - destruct Hr as (_ & _ & -> & _). apply po_next, Hok.
  - by apply (replaced_proc s s' m i p _ Hok Hp Hr).
  - destruct Hr as (_ & _ & -> & _). intros a b Hb. rewrite (proj1 Hmv) in Hb. destruct (po_group s Hok a b Hb) as (g0 & Hg0 & _ & ?).
    destruct (proj2 Hmv a b g0 (conj Hb Hg0)) as (g1 & ? & ? & _). eauto.
  - destruct Hr as (_ & _ & -> & _). intros a x Ha. rewrite Ess in Ha. rewrite Est. by apply po_session.
  - by apply (moved_members s s' m i p n _ Hok Hp Hmv Hr).
  - intros a x sess k b Hx. rewrite Hses in Hx. rewrite (po_smembers s Hok a x sess k b Hx). split.
    + intros (g0 & Hg0 & Hs). destruct (proj2 Hmv k b g0 Hg0) as (g1 & Hg1 & _ & Hs1 & _).
      exists g1. split; [apply Hgat; eauto|by rewrite Hs1].
    + intros (g1 & (g0 & Hg0 & Hg1)%Hgat & Hs). destruct (proj2 Hmv k b g0 Hg0) as (g2 & Hg2 & _ & Hs1 & _). simplify_eq. eauto.
  - intros a j q [(-> & -> & ->)|[Hji Hq]]%Hpat.
    + right. destruct (proj2 Hmv n g grp Hg) as (g1 & Hg1 & _ & Hs & _). exists g, g1. split; [apply Hgat; eauto|]. by rewrite Hs.
    + destruct (po_in_group s Hok a j q Hq) as [?|(b & g0 & Hb & Hs)]; [by left|right].
      destruct (proj2 Hmv _ b g0 Hb) as (g1 & Hg1 & _ & Hs1 & _). exists b, g1. split; [apply Hgat; eauto|]. by rewrite Hs1.
  - intros a b g1 (g0 & Hg0 & Hg1)%Hgat. destruct (proj2 Hmv a b g0 Hg0) as (g2 & Hg2 & _ & Hs2 & _). simplify_eq. rewrite Hs2.
    destruct (po_in_session s Hok a b g0 Hg0) as (x & sess & ?). exists x, sess. by rewrite Hses.
  - by apply (replaced_children s s' m i p _ Hok Hp Hr).
  - by apply (replaced_parent s s' m i p _ Hok Hp Hr).
  - by apply (replaced_space s s' m i p _ Hok Hp Hr).
Qed.

(** * Sessions *)

(** [set_sids] changes the session of the listed processes and nothing else. *)
Definition tables_kept s s' : Prop :=
  processes s' = processes s ∧ gtab s' = gtab s ∧ groups s' = groups s ∧ stab s' = stab s ∧
  sessions s' = sessions s ∧ next_pid s' = next_pid s ∧ spaces s' = spaces s.
Lemma set_sids_spec l x : ∀ s, (∀ k i, (k, i) ∈ l → is_Some (ptab s !! i)) →
  ∃ s', set_sids l x s = Done s' ∧ tables_kept s s' ∧
    ∀ j, ptab s' !! j = (if decide (j ∈ l.*2) then set_sid x <$> ptab s !! j else ptab s !! j).
Proof.
  induction l as [|[k i] l IH]; intros s Hl; cbn [set_sids].
  { exists s. split; [done|]. by repeat split. }
  destruct (Hl k i) as [p Hp]; [by left|]. unfold get_process. rewrite Hp. cbn [deref mbind outcome_bind].
  destruct (IH (put_proc i (set_sid x p) s)) as (s' & -> & Hk & Hpt).
  { intros k' i' Hin. simpl. destruct (decide (i = i')) as [->|]; [by rewrite lookup_insert_eq|].
    rewrite lookup_insert_ne by done. apply (Hl k' i'). by right. }
  exists s'. split; [done|]. split; [done|]. intros j. rewrite Hpt, fmap_cons. cbn [snd put_proc ptab].
  destruct (decide (i = j)) as [->|Hij].
  - rewrite lookup_insert_eq, Hp, (decide_True (P := j ∈ j :: l.*2)) by left. simpl. by case_decide.
  - rewrite lookup_insert_ne by done. destruct (decide (j ∈ l.*2)).
    + by rewrite decide_True by by right.
    + rewrite decide_False; [done|]. rewrite elem_of_cons. naive_solver.
Qed.

Definition moved_session s s' (m g n : Z) : Prop :=
  sessions s' = sessions s ∧ ∀ a x e0, session_at s a x e0 → ∃ e1, stab s' !! x = Some e1 ∧ s_sid e1 = a ∧
    ∀ k, s_members e1 !! k = if decide (k = m) then (if decide (a = n) then Some g else None) else s_members e0 !! k.

(** A group is a member of its own session only. *)
Lemma not_smember s m g grp a x e0 :
  procs_ok s → group_at s m g grp → session_at s a x e0 → a ≠ g_sid grp → s_members e0 !! m = None.
Proof.
  intros Hok Hg Hx Ha. destruct (s_members e0 !! m) as [j|] eqn:Hj; [|done].
  destruct (proj1 (po_smembers s Hok a x e0 m j Hx) Hj) as (q & Hq & Hqn).
  assert (g = j) as -> by (destruct Hg, Hq; congruence).
  destruct (group_at_inj s m m j grp q Hok Hg Hq) as [_ ->]. done.
Qed.

(** The group [g] and its members get the session [n]. *)
Definition resessioned s s' (g n : Z) (grp : group) : Prop :=
  gtab s' = <[g := mk_group (g_pgid grp) n (g_members grp)]> (gtab s) ∧ groups s' = groups s ∧
  processes s' = processes s ∧ next_pid s' = next_pid s ∧ spaces s' = spaces s ∧
  ∀ j, ptab s' !! j = (if decide (j ∈ (map_to_list (g_members grp)).*2) then set_sid n <$> ptab s !! j else ptab s !! j).

(** The session after a move: its members. *)
Lemma session_moved s m g grp n x sess s1 :
  procs_ok s → group_at s m g grp → session_at s n x sess → g_sid grp ≠ n →
  s1 = put_session x (mk_session n (<[m := g]> (s_members sess))) s →
  ∃ s2, leave_session g grp x s1 = Done s2 ∧ moved_session s s2 m g n ∧ ptab s2 = ptab s ∧ gtab s2 = gtab s ∧
    groups s2 = groups s ∧ processes s2 = processes s ∧ next_pid s2 = next_pid s ∧ spaces s2 = spaces s.
Proof.
  intros Hok Hg Hx Hn. unfold leave_session. pose proof (group_pgid s m g grp Hok Hg) as [-> _].
  destruct (po_in_session s Hok m g grp Hg) as (old & os & Hold).
  intros ->. set (s0 := put_session x _ s).
  assert (session_for (g_sid grp) s0 = Some old) as -> by (apply (session_for_of s _ old os); done).
  assert (old ≠ x) as Hox by (intros ->; destruct (session_at_inj s _ _ x os sess Hok Hold Hx); lia).
  rewrite (proj2 (Z.eqb_neq old x)) by done. unfold get_session. simpl. rewrite lookup_insert_ne by done.
  rewrite (proj2 Hold). cbn [deref mbind outcome_bind].
  rewrite (proj2 (po_smembers s Hok _ old os m g Hold)) by eauto. rewrite bool_decide_false by done.
  cbn [bug_on mbind outcome_bind]. eexists. split; [done|]. split; [|by split_and!].
  split; [done|]. intros a y e0 Hy. simpl.
  destruct (decide (y = old)) as [->|Hyo]; [|destruct (decide (y = x)) as [->|]].
  - destruct (session_at_inj s a _ old e0 os Hok Hy Hold) as [-> ->]. rewrite lookup_insert_eq.
    pose proof (session_sid s _ old os Hok Hold) as [? _]. eexists. split; [done|]. simpl. split; [done|]. intros k.
    rewrite lookup_delete, (decide_False (P := g_sid grp = n)) by done. by destruct (decide (m = k)), (decide (k = m)).
  - rewrite lookup_insert_ne by done. destruct (session_at_inj s a n x e0 sess Hok Hy Hx) as [-> ->]. rewrite lookup_insert_eq.
    eexists. split; [done|]. simpl. split; [done|]. intros k.
    rewrite lookup_insert, (decide_True (P := n = n)) by done. by destruct (decide (m = k)), (decide (k = m)).
  - rewrite !lookup_insert_ne by done. exists e0. destruct (session_sid s a y e0 Hok Hy) as [Ha _].
    split; [apply Hy|]. split; [done|]. intros k. destruct (decide (k = m)) as [->|]; [|done].
    rewrite decide_False by (intros ->; destruct Hy, Hx; congruence).
    apply (not_smember s m g grp a y e0 Hok Hg Hy). intros ->. destruct Hy, Hold. congruence.
Qed.

Lemma change_session_spec s m g grp n x sess :
  procs_ok s → group_at s m g grp → session_at s n x sess →
  if decide (g_sid grp = n) then change_session g x s = Done (false, s)
  else ∃ s', change_session g x s = Done (true, s') ∧ moved_session s s' m g n ∧ resessioned s s' g n grp.
Proof.
  intros Hok Hg Hx. unfold change_session, get_group, get_session.
  rewrite (proj2 Hg), (proj2 Hx). cbn [deref mbind outcome_bind].
  pose proof (group_pgid s m g grp Hok Hg) as [Hm _]. pose proof (session_sid s n x sess Hok Hx) as [Hn _]. rewrite Hm, Hn.
  destruct (decide (g_sid grp = n)) as [Hgn|Hgn].
  { rewrite (proj2 (po_smembers s Hok n x sess m g Hx)) by eauto. by rewrite decide_True by eauto. }
  rewrite (not_smember s m g grp n x sess Hok Hg Hx) by (by intros ->).
  rewrite decide_False by (intros []; discriminate).
  destruct (session_moved s m g grp n x sess _ Hok Hg Hx Hgn eq_refl) as (s2 & -> & Hmv & Ep & Egt & Egr & Epr & Enp & Esp).
  cbn [mbind outcome_bind]. set (s3 := put_group g _ s2).
  destruct (set_sids_spec (map_to_list (g_members grp)) n s3) as (s4 & -> & (K1 & K2 & K3 & K4 & K5 & K6 & K7) & Hpt).
  { intros k i Hki%elem_of_map_to_list. simpl. rewrite Ep.
    destruct (proj1 (po_members s Hok m g grp k i Hg) Hki) as (q & [_ Hq] & _). eauto. }
  cbn [mbind outcome_bind]. exists s4. split; [done|]. split.
  - destruct Hmv as [E1 E2]. split; [by rewrite K5|]. by rewrite K4.
  - unfold resessioned. rewrite Hm, K1, K2, K3, K6, K7. simpl. rewrite Egt. split_and!; try done.
    intros j. rewrite Hpt. simpl. by rewrite Ep.
Qed.

(** Processes after the change: those of the group have the new session. *)
Lemma resessioned_at s s' m g grp n : procs_ok s → group_at s m g grp → resessioned s s' g n grp →
  ∀ a j q', proc_at s' a j q' ↔ ∃ q, proc_at s a j q ∧ q' = if decide (pgid q = m) then set_sid n q else q.
Proof.
  intros Hok Hg (_ & _ & Epr & _ & _ & Hpt) a j q'. unfold proc_at. rewrite Epr, Hpt.
  assert (∀ q, proc_at s a j q → (j ∈ (map_to_list (g_members grp)).*2 ↔ pgid q = m)) as Hmem.
  { intros q Hq. rewrite list_elem_of_fmap. split.
    - intros ([k i] & -> & Hki%elem_of_map_to_list). simpl in *.
      destruct (proj1 (po_members s Hok m g grp k i Hg) Hki) as (q1 & Hq1 & Hpg).
      by destruct (proc_at_inj s a k i q q1 Hok Hq Hq1) as [_ ->].
    - intros Hpg. exists (a, j). split; [done|]. apply elem_of_map_to_list.
      apply (po_members s Hok m g grp a j Hg). eauto. }
  split.
  - intros [Ha Hq']. destruct (po_proc s Hok a j Ha) as (q & Hq & _). exists q. split; [done|].
    rewrite Hq in Hq'. pose proof (Hmem q (conj Ha Hq)). repeat case_decide; naive_solver.
  - intros (q & Hq & ->). split; [apply Hq|]. pose proof (Hmem q Hq). rewrite (proj2 Hq).
    repeat case_decide; naive_solver.
Qed.
Lemma resessioned_group s s' m g grp n : procs_ok s → group_at s m g grp → resessioned s s' g n grp →
  ∀ a b g1, group_at s' a b g1 ↔ ∃ g0, group_at s a b g0 ∧
    g1 = if decide (b = g) then mk_group m n (g_members grp) else g0.
Proof.
  intros Hok Hg (Egt & Egr & _) a b g1. pose proof (group_pgid s m g grp Hok Hg) as [Hm _].
  unfold group_at. rewrite Egt, Egr, Hm. case_decide as Hb.
  - subst b. rewrite lookup_insert_eq. split.
    + intros [Ha ?]. simplify_eq. exists grp. split; [|done]. split; [done|apply Hg].
    + intros (g0 & [Ha _] & ->). done.
  - rewrite lookup_insert_ne by done. naive_solver.
Qed.

Lemma moved_session_at s s' m g n : procs_ok s → moved_session s s' m g n →
  ∀ a y e1, session_at s' a y e1 ↔ ∃ e0, session_at s a y e0 ∧ stab s' !! y = Some e1.
Proof.
  intros Hok [Ek _] a y e1. unfold session_at. rewrite Ek. split; [|naive_solver].
  intros [Ha Hy]. destruct (po_session s Hok a y Ha) as (e0 & ? & _). eauto.
Qed.

(** The conditions that the change concerns, one by one. *)
Section resessioned.
Context (s s' : procs PM) (m g : Z) (grp : group) (n : Z) (Hok : procs_ok s) (Hg : group_at s m g grp).
Context (Hmv : moved_session s s' m g n) (Hr : resessioned s s' g n grp).
Let Hpat := resessioned_at s s' m g grp n Hok Hg Hr.
Let Hgat := resessioned_group s s' m g grp n Hok Hg Hr.
Let Hsat := moved_session_at s s' m g n Hok Hmv.

Lemma resessioned_members a b g1 k j : group_at s' a b g1 →
  (g_members g1 !! k = Some j ↔ ∃ p, proc_at s' k j p ∧ pgid p = a).
Proof using All.
  intros (g0 & Hg0 & ->)%Hgat. transitivity (g_members g0 !! k = Some j).
  { case_decide; [|done]. subst b. by destruct (group_at_inj s m a g grp g0 Hok Hg Hg0) as [_ <-]. }
  rewrite (po_members s Hok a b g0 k j Hg0). split.
  - intros (q & Hq & Hqa). exists (if decide (pgid q = m) then set_sid n q else q).
    split; [apply Hpat; eauto|]. by case_decide.
  - intros (q' & (q & Hq & ->)%Hpat & Hqa). exists q. split; [done|]. by case_decide.
Qed.
Lemma resessioned_smembers a y e1 k b : session_at s' a y e1 →
  (s_members e1 !! k = Some b ↔ ∃ g1, group_at s' k b g1 ∧ g_sid g1 = a).
Proof using All.
  intros (e0 & He0 & He1)%Hsat. destruct (proj2 Hmv a y e0 He0) as (e2 & He2 & _ & Hmem). simplify_eq.
  rewrite Hmem. transitivity (∃ g0, group_at s k b g0 ∧ (if decide (b = g) then n else g_sid g0) = a).
  2:{ split; intros (g0 & Hg0 & Hs).
      - eexists. split; [apply Hgat; eauto|]. by case_decide.
      - apply Hgat in Hg0 as (g2 & Hg2 & ->). exists g2. split; [done|]. by case_decide. }
  destruct (decide (k = m)) as [->|Hkm].
  - split.
    + intros. case_decide; simplify_eq. exists grp. split; [done|]. by rewrite decide_True.
    + intros (g0 & Hg0 & Hs). assert (b = g) as -> by (destruct Hg, Hg0; congruence).
      rewrite decide_True in Hs by done. by rewrite decide_True.
  - rewrite (po_smembers s Hok a y e0 k b He0). split; intros (g0 & Hg0 & Hs); exists g0; (split; [done|]).
    all: rewrite decide_False in *; [done|]; intros ->; by destruct (group_at_inj s k m g g0 grp Hok Hg0 Hg).
Qed.
Lemma resessioned_in_group a j p : proc_at s' a j p →
  (a = 0 ∧ pgid p = 0) ∨ ∃ b g1, group_at s' (pgid p) b g1 ∧ sid p = g_sid g1.
Proof using All.
  intros (q & Hq & ->)%Hpat. destruct (po_in_group s Hok a j q Hq) as [[? ?]|(b & g0 & Hb & Hs)].
  { left. split; [done|]. by case_decide. }
  right. pose proof (proj2 (Hgat _ b _) (ex_intro _ g0 (conj Hb eq_refl))) as Hb1.
  assert (pgid (if decide (pgid q = m) then set_sid n q else q) = pgid q) as -> by (by destruct (decide (pgid q = m))).
  eexists b, _. split; [exact Hb1|]. destruct (decide (pgid q = m)) as [Hqm|Hqm]; simpl.
  - assert (b = g) as -> by (destruct Hb, Hg; congruence). by rewrite decide_True.
  - rewrite decide_False; [done|]. intros ->. by destruct (group_at_inj s _ m g g0 grp Hok Hb Hg).
Qed.
Lemma resessioned_in_session a b g1 : (∃ x sess, session_at s n x sess) → group_at s' a b g1 →
  ∃ x sess, session_at s' (g_sid g1) x sess.
Proof using All.
  intros (x & sess & Hx) (g0 & Hg0 & ->)%Hgat.
  assert (∀ c y e0, session_at s c y e0 → ∃ x sess, session_at s' c x sess) as Hk.
  { intros c y e0 Hy. destruct (proj2 Hmv c y e0 Hy) as (e1 & He1 & _). exists y, e1. apply Hsat. eauto. }
  case_decide; simpl; [by eapply Hk|]. destruct (po_in_session s Hok a b g0 Hg0) as (y & e0 & Hy). by eapply Hk.
Qed.
Lemma resessioned_children a j p k l : proc_at s' a j p →
  (children p !! k = Some l ↔ ∃ q, proc_at s' k l q ∧ pparent q = Some j).
Proof using All.
  intros (q & Hq & ->)%Hpat. transitivity (children q !! k = Some l); [by case_decide|].
  rewrite (po_children s Hok a j q k l Hq). split.
  - intros (r & Hr1 & Hpr). eexists. split; [apply Hpat; eauto|]. by case_decide.
  - intros (r' & (r & Hr1 & ->)%Hpat & Hpr). exists r. split; [done|]. by case_decide.
Qed.
End resessioned.

Lemma change_session_ok s s' m g grp n x sess :
  procs_ok s → group_at s m g grp → session_at s n x sess →
  moved_session s s' m g n → resessioned s s' g n grp → procs_ok s'.
Proof.
  intros Hok Hg Hx Hmv Hr. pose proof Hr as (Egt & Egr & Epr & Enp & Esp & Hpt).
  split.
  - rewrite Enp. apply po_next, Hok.
  - intros a j Ha. rewrite Epr in Ha. destruct (po_proc s Hok a j Ha) as (q & Hq & Hqa & Hb).
    rewrite Enp, Hpt, Hq. case_decide; eexists; (split; [reflexivity|done]).
  - intros a b Hb. rewrite Egr in Hb. destruct (po_group s Hok a b Hb) as (g0 & Hg0 & Ha & Hn).
    destruct (proj2 (resessioned_group s s' m g grp n Hok Hg Hr a b _) (ex_intro _ g0 (conj (conj Hb Hg0) eq_refl))) as [_ Hg1].
    eexists. split; [exact Hg1|]. rewrite Enp. split; [|done]. case_decide; [|done]. subst b. simpl.
    by destruct (group_at_inj s m a g grp g0 Hok Hg (conj Hb Hg0)).
  - rewrite Enp. intros a y Ha. rewrite (proj1 Hmv) in Ha. destruct (po_session s Hok a y Ha) as (e0 & He0 & _ & ?).
    destruct (proj2 Hmv a y e0 (conj Ha He0)) as (e1 & ? & ? & _). eauto.
  - by eapply resessioned_members.
  - by eapply resessioned_smembers.
  - by eapply resessioned_in_group.
  - intros. eapply resessioned_in_session; eauto.
  - by eapply resessioned_children.
  - intros a j q' k (q & Hq & ->)%(resessioned_at s s' m g grp n Hok Hg Hr) Hk.
    assert (pparent q = Some k) as Hk1 by by case_decide.
    destruct (po_parent s Hok a j q k Hq Hk1) as (l & r & Hlr).
    eexists l, _. apply (resessioned_at s s' m g grp n Hok Hg Hr). eauto.
  - rewrite Esp. intros a j q' (q & Hq & ->)%(resessioned_at s s' m g grp n Hok Hg Hr).
    destruct (po_space s Hok a j q Hq) as (v & ? & ?). exists v. by case_decide.
Qed.

(** * Creation *)

(** [s'] has a new process [i] with number [n] and contents [p1], a child of [parent]. *)
Definition adopt (parent : option Z) (n i j : Z) (q : process) : process :=
  if decide (parent = Some j) then set_children (<[n := i]> (children q)) q else q.
Record created s s' (n i : Z) (p1 : process) (parent : option Z) : Prop := {
  cr_pid : pid p1 = n ∧ n = next_pid s ∧ next_pid s' = n + 1 ∧ 0 ≤ n < 2 ^ 31;
  cr_new : children p1 = ∅ ∧ pparent p1 = parent ∧ ptab s !! i = None;
  cr_processes : processes s' = <[n := i]> (processes s);
  cr_i : ptab s' !! i = Some p1;
  cr_other j : j ≠ i → ptab s' !! j = adopt parent n i j <$> ptab s !! j;
  cr_space : ∃ v, vspace p1 = Some v ∧ spaces s !! v = None ∧ is_Some (spaces s' !! v) ∧
    ∀ w, is_Some (spaces s !! w) → is_Some (spaces s' !! w) }.

Lemma created_at s s' n i p1 parent : procs_ok s → created s s' n i p1 parent →
  ∀ a j q, proc_at s' a j q ↔
    (a = n ∧ j = i ∧ q = p1) ∨ ∃ q0, proc_at s a j q0 ∧ q = adopt parent n i j q0.
Proof.
  intros Hok [(Hp & Hn & Hn' & Hr) (_ & _ & Hi) Epr Ei Eo _] a j q. unfold proc_at. rewrite Epr.
  assert (processes s !! n = None) as Hnone.
  { destruct (processes s !! n) as [k|] eqn:E; [|done]. destruct (po_proc s Hok n k E) as (? & _ & _ & ?). lia. }
  destruct (decide (a = n)) as [->|Han].
  - rewrite lookup_insert_eq. split; [naive_solver|]. intros [(_ & -> & ->)|(q0 & [? _] & _)]; [done|congruence].
  - rewrite lookup_insert_ne by done. split.
    + intros [Ha Hj]. right. assert (j ≠ i).
      { intros ->. destruct (po_proc s Hok a i Ha) as (? & ? & _). congruence. }
      rewrite Eo in Hj by done. destruct (ptab s !! j) as [q0|]; simplify_eq/=. eauto.
    + intros [(? & _)|(q0 & [Ha Hj] & ->)]; [done|]. split; [done|].
      rewrite Eo by (intros ->; congruence). by rewrite Hj.
Qed.

Lemma adopt_keeps parent n i j q : pid (adopt parent n i j q) = pid q ∧ pgid (adopt parent n i j q) = pgid q ∧
  sid (adopt parent n i j q) = sid q ∧ pparent (adopt parent n i j q) = pparent q ∧ vspace (adopt parent n i j q) = vspace q.
Proof. unfold adopt. by case_decide. Qed.

Section created.
Context (s s' : procs PM) (n i : Z) (p1 : process) (parent : option Z).
Context (Hok : procs_ok s) (Hc : created s s' n i p1 parent).
Context (Hpar : ∀ par, parent = Some par → ∃ a q, proc_at s a par q).
Let Hat := created_at s s' n i p1 parent Hok Hc.

Lemma created_fresh a j q : proc_at s a j q → a ≠ n ∧ j ≠ i.
Proof using Hok Hc.
  clear Hat Hpar. intros [Ha Hj]. pose proof (cr_pid _ _ _ _ _ _ Hc) as (_ & Hn & _).
  pose proof (cr_new _ _ _ _ _ _ Hc) as (_ & _ & Hi). split; [|intros ->; congruence].
  destruct (po_proc s Hok a j Ha) as (? & _ & _ & ?). lia.
Qed.
Lemma created_proc a j : processes s' !! a = Some j →
  ∃ q, ptab s' !! j = Some q ∧ pid q = a ∧ 0 ≤ a < next_pid s'.
Proof using All.
  intros Ha. pose proof (cr_pid _ _ _ _ _ _ Hc) as (Hp1 & Hn & -> & Hr). rewrite (cr_processes _ _ _ _ _ _ Hc) in Ha.
  destruct (decide (a = n)) as [->|].
  - rewrite lookup_insert_eq in Ha. simplify_eq. exists p1. split; [apply (cr_i _ _ _ _ _ _ Hc)|]. split; [done|lia].
  - rewrite lookup_insert_ne in Ha by done. destruct (po_proc s Hok a j Ha) as (q & Hq & Hqa & ?).
    destruct (proj2 (Hat a j _) (or_intror (ex_intro _ q (conj (conj Ha Hq) eq_refl)))) as [_ Hq'].
    eexists. split; [exact Hq'|]. split; [|lia]. by rewrite (proj1 (adopt_keeps parent n i j q)).
Qed.
Lemma created_children a j p k l : proc_at s' a j p →
  (children p !! k = Some l ↔ ∃ q, proc_at s' k l q ∧ pparent q = Some j).
Proof using All.
  pose proof (cr_new _ _ _ _ _ _ Hc) as (Hch & Hpp & Hi).
  assert (∀ r0 o, pparent (adopt parent n i o r0) = pparent r0) as Hpa by (intros; apply adopt_keeps).
  transitivity ((k = n ∧ l = i ∧ parent = Some j) ∨ ∃ r0, proc_at s k l r0 ∧ pparent r0 = Some j).
  - apply Hat in H as [(-> & -> & ->)|(q & Hq & ->)].
    + rewrite Hch, lookup_empty. split; [done|]. intros [(_ & _ & Hp)|(r0 & Hr0 & Hp)]; exfalso.
      * destruct (Hpar i Hp) as (b & r & Hr). by destruct (created_fresh b i r Hr).
      * destruct (po_parent s Hok k l r0 i Hr0 Hp) as (b & r & Hr). by destruct (created_fresh b i r Hr).
    + rewrite <-(po_children s Hok a j q k l Hq). unfold adopt. case_decide as Hp; [|naive_solver].
      simpl. destruct (decide (k = n)) as [->|]; [|rewrite lookup_insert_ne by done; naive_solver].
      rewrite lookup_insert_eq. split; [naive_solver|]. intros [(_ & -> & _)|E]; [done|].
      destruct (proj1 (po_children s Hok a j q n l Hq) E) as (r & Hr & _). by destruct (created_fresh n l r Hr).
  - split.
    + intros [(-> & -> & Hp)|(r0 & Hr0 & Hp)]; [exists p1|eexists]; (split; [apply Hat; eauto|by rewrite ?Hpp, ?Hpa]).
    + intros (r & [(-> & -> & ->)|(r0 & Hr0 & ->)]%Hat & Hp); [left; by rewrite <-Hpp|right; rewrite Hpa in Hp; eauto].
Qed.
Lemma created_parent a j p k : proc_at s' a j p → pparent p = Some k → ∃ m q, proc_at s' m k q.
Proof using All.
  pose proof (cr_new _ _ _ _ _ _ Hc) as (Hch & Hpp & Hi).
  intros [(-> & -> & ->)|(q & Hq & ->)]%Hat Hp.
  - rewrite Hpp in Hp. destruct (Hpar k Hp) as (m & q & Hm). eexists m, _. apply Hat. eauto.
  - destruct (adopt_keeps parent n i j q) as (_ & _ & _ & Hq1 & _). rewrite Hq1 in Hp.
    destruct (po_parent s Hok a j q k Hq Hp) as (m & r & Hm). eexists m, _. apply Hat. eauto.
Qed.
Lemma created_space a j p : proc_at s' a j p → ∃ v, vspace p = Some v ∧ is_Some (spaces s' !! v).
Proof using All.
  destruct (cr_space _ _ _ _ _ _ Hc) as (v & Hv & _ & Hv1 & Hmono). intros [(-> & -> & ->)|(q & Hq & ->)]%Hat; [eauto|].
  destruct (po_space s Hok a j q Hq) as (w & ? & ?). exists w. destruct (adopt_keeps parent n i j q) as (_ & _ & _ & _ & ->). eauto.
Qed.

(** The condition on members when the new process joins group [pgid p1]. *)
Lemma created_members a b g1 k j : moved s s' n i (pgid p1) → group_at s' a b g1 →
  (g_members g1 !! k = Some j ↔ ∃ q, proc_at s' k j q ∧ pgid q = a).
Proof using All.
  intros Hmv (g0 & Hg0 & Hg1)%(moved_group s s' n i (pgid p1) Hok Hmv).
  destruct (proj2 Hmv a b g0 Hg0) as (g2 & Hg2 & _ & _ & Hmem). simplify_eq. rewrite Hmem.
  assert (∀ r0 o, pgid (adopt parent n i o r0) = pgid r0) as Hpa by (intros; apply adopt_keeps).
  destruct (decide (k = n)) as [->|Hk].
  - transitivity (j = i ∧ a = pgid p1); [case_decide; naive_solver|]. split.
    + intros [-> ->]. exists p1. split; [apply Hat; by left|done].
    + intros (q & [(_ & -> & ->)|(q0 & Hq0 & _)]%Hat & ?); [done|]. by destruct (created_fresh n j q0 Hq0).
  - rewrite (po_members s Hok a b g0 k j Hg0). split.
    + intros (q & Hq & Hqa). eexists. split; [apply Hat; eauto|]. by rewrite Hpa.
    + intros (q & [(-> & _)|(q0 & Hq0 & ->)]%Hat & Hqa); [done|]. rewrite Hpa in Hqa. eauto.
Qed.
(** The new process joins the group of its parent, or is the first and has none. *)
Lemma join_ok : moved s s' n i (pgid p1) → stab s' = stab s → sessions s' = sessions s →
  (n = 0 ∧ pgid p1 = 0) ∨ (∃ g grp, group_at s (pgid p1) g grp ∧ sid p1 = g_sid grp) → procs_ok s'.
Proof using All.
  intros Hmv Est Ess Hp1. pose proof (cr_pid _ _ _ _ _ _ Hc) as (_ & Hn & Hn' & Hr).
  pose proof (moved_group s s' n i _ Hok Hmv) as Hgat.
  assert (∀ a x, session_at s' a x = session_at s a x) as Hses by (intros; unfold session_at; by rewrite Est, Ess).
  assert (∀ a b g0, group_at s a b g0 → ∃ g1, group_at s' a b g1 ∧ g_sid g1 = g_sid g0) as Hkeep.
  { intros a b g0 Hg0. destruct (proj2 Hmv a b g0 Hg0) as (g1 & Hg1 & _ & Hs & _). exists g1. split; [apply Hgat; eauto|done]. }
  split.
  - lia.
  - apply created_proc.
  - intros a b Hb. rewrite (proj1 Hmv) in Hb. destruct (po_group s Hok a b Hb) as (g0 & Hg0 & _ & ?).
    destruct (proj2 Hmv a b g0 (conj Hb Hg0)) as (g1 & ? & ? & _). exists g1. split_and!; [done..|lia|lia].
  - intros a x Ha. rewrite Ess in Ha. rewrite Est. destruct (po_session s Hok a x Ha) as (e & ? & ? & ?).
    exists e. split_and!; [done..|lia|lia].
  - intros a b g1 k j. by apply created_members.
  - intros a x sess k b Hx. rewrite Hses in Hx. rewrite (po_smembers s Hok a x sess k b Hx). split.
    + intros (g0 & Hg0 & Hs). destruct (Hkeep k b g0 Hg0) as (g1 & Hg1 & Hs1). exists g1. by rewrite Hs1.
    + intros (g1 & (g0 & Hg0 & Hg1)%Hgat & Hs). destruct (proj2 Hmv k b g0 Hg0) as (g2 & Hg2 & _ & Hs1 & _). simplify_eq. eauto.
  - intros a j q [(-> & -> & ->)|(q0 & Hq0 & ->)]%Hat.
    + destruct Hp1 as [?|(g & grp & Hg & ->)]; [by left|right]. destruct (Hkeep _ g grp Hg) as (g1 & ? & ?). eauto.
    + destruct (adopt_keeps parent n i j q0) as (_ & -> & -> & _).
      destruct (po_in_group s Hok a j q0 Hq0) as [?|(b & g0 & Hb & ->)]; [by left|right].
      destruct (Hkeep _ b g0 Hb) as (g1 & ? & ?). eauto.
  - intros a b g1 (g0 & Hg0 & Hg1)%Hgat. destruct (proj2 Hmv a b g0 Hg0) as (g2 & Hg2 & _ & Hs2 & _). simplify_eq. rewrite Hs2.
    destruct (po_in_session s Hok a b g0 Hg0) as (x & sess & ?). exists x, sess. by rewrite Hses.
  - apply created_children.
  - apply created_parent.
  - apply created_space.
Qed.

(** The second process leads the first group of the first session. *)
Lemma lead_ok g x : n = 1 → pgid p1 = 1 → sid p1 = 1 →
  groups s' = <[1 := g]> (groups s) → gtab s' !! g = Some (mk_group 1 1 {[1 := i]}) →
  sessions s' = <[1 := x]> (sessions s) → stab s' !! x = Some (mk_session 1 {[1 := g]}) → procs_ok s'.
Proof using All.
  intros H1 Hp1 Hs1 Egr Egt Ess Est. pose proof (cr_pid _ _ _ _ _ _ Hc) as (_ & Hn & Hn' & Hr).
  assert (∀ a b, groups s' !! a = Some b → a = 1 ∧ b = g) as Hgr.
  { intros a b. rewrite Egr. intros [[<- <-]|[_ E]]%lookup_insert_Some; [done|].
    destruct (po_group s Hok a b E) as (_ & _ & _ & ?). lia. }
  assert (∀ a y, sessions s' !! a = Some y → a = 1 ∧ y = x) as Hse.
  { intros a y. rewrite Ess. intros [[<- <-]|[_ E]]%lookup_insert_Some; [done|].
    destruct (po_session s Hok a y E) as (_ & _ & _ & ?). lia. }
  assert (group_at s' 1 g (mk_group 1 1 {[1 := i]})) as Hg1 by (split; [rewrite Egr; apply lookup_insert_eq|done]).
  assert (session_at s' 1 x (mk_session 1 {[1 := g]})) as Hx1 by (split; [rewrite Ess; apply lookup_insert_eq|done]).
  split.
  - lia.
  - apply created_proc.
  - intros a b [-> ->]%Hgr. eexists. split; [exact Egt|]. simpl. split; [done|lia].
  - intros a y [-> ->]%Hse. eexists. split; [exact Est|]. simpl. split; [done|lia].
  - intros a b g1 k j [[-> ->]%Hgr Hb]. simplify_eq/=. rewrite lookup_singleton_Some. split.
    + intros [<- <-]. exists p1. split; [apply Hat; by left|done].
    + intros (q & [(-> & -> & ->)|(q0 & Hq0 & ->)]%Hat & Hq); [done|].
      rewrite (proj1 (proj2 (adopt_keeps parent 1 i j q0))) in Hq.
      destruct (po_in_group s Hok k j q0 Hq0) as [[_ ?]|(b & g0 & [Hb1 _] & _)]; [lia|].
      destruct (po_group s Hok _ b Hb1) as (_ & _ & _ & ?). lia.
  - intros a y e k b [[-> ->]%Hse Hy]. simplify_eq/=. rewrite lookup_singleton_Some. split.
    + intros [<- <-]. by exists (mk_group 1 1 {[1 := i]}).
    + by intros (g1 & [[-> ->]%Hgr _] & _).
  - intros a j q [(-> & -> & ->)|(q0 & Hq0 & ->)]%Hat.
    + right. rewrite Hp1, Hs1. eauto.
    + left. destruct (adopt_keeps parent n i j q0) as (_ & -> & _).
      destruct (po_in_group s Hok a j q0 Hq0) as [?|(b & g0 & [Hb1 _] & _)]; [done|].
      destruct (po_group s Hok _ b Hb1) as (_ & _ & _ & ?). lia.
  - intros a b g1 [[-> ->]%Hgr Hb]. simplify_eq/=. eauto.
  - apply created_children.
  - apply created_parent.
  - apply created_space.
Qed.
End created.

(** When [process::create] is called: for the first two processes without a parent, then
    with a registered parent that has a group. *)
Definition may_create (parent : option Z) s : Prop :=
  next_pid s < 2 ^ 31 ∧
  match parent with
  | None => next_pid s ≤ 1
  | Some par => 1 < next_pid s ∧ ∃ a pp, proc_at s a par pp ∧ pgid pp ≠ 0
  end.

(** What the new process looks like. *)
Definition child_of s (parent : option Z) (root : path) (n : Z) (p1 : process) : Prop :=
  pid p1 = n ∧ pparent p1 = parent ∧ children p1 = ∅ ∧
  match parent with
  | None => pgid p1 = n ∧ sid p1 = n ∧ proot p1 = root ∧ pcwd p1 = root
  | Some par => ∃ pp, ptab s !! par = Some pp ∧ pgid p1 = pgid pp ∧ sid p1 = sid pp ∧ proot p1 = proot pp ∧ pcwd p1 = pcwd pp
  end.

(** The steps of creation. *)
Lemma lead_session_eq s i p : ptab s !! i = Some p →
  ∃ g x s', lead_session i s = Done s' ∧ ptab s' = <[i := set_sid (pid p) (set_pgid (pid p) p)]> (ptab s) ∧
    processes s' = processes s ∧ next_pid s' = next_pid s ∧ spaces s' = spaces s ∧
    groups s' = <[w64 (pid p) := g]> (groups s) ∧ gtab s' !! g = Some (mk_group (pid p) (pid p) {[pid p := i]}) ∧
    sessions s' = <[w64 (pid p) := x]> (sessions s) ∧ stab s' !! x = Some (mk_session (pid p) {[pid p := g]}).
Proof.
  intros Hi. unfold lead_session, create_group, create_session, get_process, get_group, get_session.
  rewrite Hi. cbn [deref mbind outcome_bind put_proc put_group gtab ptab]. rewrite lookup_insert_eq.
  cbn [deref mbind outcome_bind put_session stab gtab ptab g_pgid g_sid g_members s_sid].
  rewrite !lookup_insert_eq. cbn [deref mbind outcome_bind s_sid g_pgid g_members].
  eexists _, _, _. split; [reflexivity|]. simpl. rewrite insert_insert_eq, !lookup_insert_eq. by split_and!.
Qed.

Lemma join_parent_eq s i n par pp p g grp :
  ptab s !! par = Some pp → ptab s !! i = Some p → group_for (pgid pp) s = Some g → gtab s !! g = Some grp →
  g_members grp !! n = None →
  join_parent i n par s = Done (put_group g (mk_group (g_pgid grp) (g_sid grp) (<[n := i]> (g_members grp)))
                                  (put_proc i (set_sid (sid pp) (set_pgid (pgid pp) p)) s)).
Proof.
  intros Hpar Hi Hg Hgrp Hn. unfold join_parent, get_process, get_group. rewrite Hpar, Hi.
  cbn [deref mbind outcome_bind]. change (group_for (pgid pp) (put_proc _ _ s)) with (group_for (pgid pp) s).
  rewrite Hg. cbn [deref mbind outcome_bind]. change (gtab (put_proc _ _ s)) with (gtab s). rewrite Hgrp.
  cbn [deref mbind outcome_bind]. rewrite Hn. by rewrite bool_decide_false by (intros []; discriminate).
Qed.

(** The last part: the address space and the parent. *)
Lemma finish_root s i n p pm root : ptab s !! i = Some p →
  ∃ v s', process_finish None pm root i n s = Done (i, s') ∧ spaces s !! v = None ∧
    ptab s' = <[i := set_place (Some v) root root None p]> (ptab s) ∧ spaces s' = <[v := mk_vmspace [] pm false]> (spaces s) ∧
    processes s' = processes s ∧ next_pid s' = next_pid s ∧ groups s' = groups s ∧ gtab s' = gtab s ∧
    sessions s' = sessions s ∧ stab s' = stab s.
Proof.
  intros Hi. unfold process_finish, get_process. rewrite Hi. cbn [deref mbind outcome_bind].
  eexists _, _. split; [reflexivity|]. split; [apply not_elem_of_dom, is_fresh|]. by split_and!.
Qed.
Lemma finish_child s i n p par pp pm root : ptab s !! i = Some p → ptab s !! par = Some pp → par ≠ i →
  ∃ v s', process_finish (Some par) pm root i n s = Done (i, s') ∧ spaces s !! v = None ∧
    ptab s' = <[par := set_children (<[n := i]> (children pp)) pp]>
                (<[i := set_place (Some v) (proot pp) (pcwd pp) (Some par) p]> (ptab s)) ∧
    spaces s' = <[v := mk_vmspace [] pm false]> (spaces s) ∧
    processes s' = processes s ∧ next_pid s' = next_pid s ∧ groups s' = groups s ∧ gtab s' = gtab s ∧
    sessions s' = sessions s ∧ stab s' = stab s.
Proof.
  intros Hi Hpar Hne. unfold process_finish, get_process. rewrite Hi. cbn [deref mbind outcome_bind ptab put_space].
  rewrite Hpar. cbn [deref mbind outcome_bind ptab put_proc put_space]. rewrite lookup_insert_ne by done. rewrite Hpar.
  cbn [deref mbind outcome_bind]. eexists _, _. split; [reflexivity|]. split; [apply not_elem_of_dom, is_fresh|]. by split_and!.
Qed.

(** The state in which the new process is given its group. *)
Definition numbered s (i n : Z) : procs PM :=
  mk_procs (<[i := blank_process n]> (ptab s)) (<[n := i]> (processes s)) (gtab s) (groups s) (stab s) (sessions s)
    (n + 1) (spaces s).
Lemma process_create_eq s parent pm root n : n = next_pid s → 0 ≤ n < 2 ^ 31 →
  ∃ i, ptab s !! i = None ∧ process_create parent pm root s =
    (s ← enrol i n parent (numbered s i n); process_finish parent pm root i n s).
Proof.
  intros -> Hn. exists (fresh (dom (ptab s))). split; [apply not_elem_of_dom, is_fresh|].
  unfold process_create, alloc_pid, numbered, pid_of. set (i := fresh (dom (ptab s))). simpl.
  rewrite s32_small, w64_small by lia. unfold put_proc. simpl. by rewrite insert_insert_eq.
Qed.

Lemma create_root_ok pm root s : procs_ok s → next_pid s ≤ 1 →
  ∃ i s' p1, process_create None pm root s = Done (i, s') ∧ procs_ok s' ∧
    created s s' (next_pid s) i p1 None ∧ child_of s None root (next_pid s) p1.
Proof.
  intros Hok H01. pose proof (po_next s Hok) as Hn.
  destruct (process_create_eq s None pm root (next_pid s) eq_refl) as (i & Hi & ->); [lia|].
  destruct (Z.eq_dec (next_pid s) 0) as [E0|]; [|assert (next_pid s = 1) as E1 by lia].
  - rewrite E0. cbn [enrol Z.eqb mbind outcome_bind].
    destruct (finish_root (numbered s i 0) i 0 (blank_process 0) pm root) as (v & s' & -> & Hv & Ep & Es & Epr & En & Egr & Egt & Ess & Est).
    { apply lookup_insert_eq. }
    assert (created s s' 0 i (set_place (Some v) root root None (blank_process 0)) None) as Hc.
    { split; rewrite ?Ep, ?Es, ?Epr, ?En; simpl; try done; [by rewrite lookup_insert_eq| |].
      + intros j Hj. rewrite !lookup_insert_ne by done. by destruct (ptab s !! j).
      + exists v. split_and!; [done..|by rewrite lookup_insert_eq|]. intros w Hw. rewrite lookup_insert_is_Some'. by right. }
    eexists i, s', _. split; [done|]. split; [|split; [exact Hc|by split_and!]].
    apply (join_ok s s' 0 i _ None Hok Hc); try done; [|by left].
    split; [done|]. intros a b g0 [Ha _]. destruct (po_group s Hok a b Ha) as (_ & _ & _ & ?). lia.
  - rewrite E1. cbn [enrol Z.eqb Pos.eqb mbind outcome_bind].
    rewrite bool_decide_false by (intros []; discriminate). cbn [bug_on mbind outcome_bind].
    destruct (lead_session_eq (numbered s i 1) i (blank_process 1)) as (g & x & s1 & -> & Fp & Fpr & Fn & Fs & Fgr & Fgt & Fss & Fst).
    { apply lookup_insert_eq. }
    cbn [mbind outcome_bind].
    destruct (finish_root s1 i 1 (set_sid 1 (set_pgid 1 (blank_process 1))) pm root) as (v & s' & -> & Hv & Ep & Es & Epr & En & Egr & Egt & Ess & Est).
    { rewrite Fp. apply lookup_insert_eq. }
    assert (created s s' 1 i (set_place (Some v) root root None (set_sid 1 (set_pgid 1 (blank_process 1)))) None) as Hc.
    { split; rewrite ?Ep, ?Es, ?Epr, ?En, ?Fp, ?Fpr, ?Fn, ?Fs; simpl; try done; [by rewrite lookup_insert_eq| |].
      + intros j Hj. rewrite !lookup_insert_ne by done. by destruct (ptab s !! j).
      + rewrite Fs in Hv. exists v. split_and!; [done..|by rewrite lookup_insert_eq|].
        intros w Hw. rewrite lookup_insert_is_Some'. by right. }
    eexists i, s', _. split; [done|]. split; [|split; [exact Hc|by split_and!]].
    apply (lead_ok s s' 1 i _ None Hok Hc) with (g := g) (x := x); try done;
      rewrite ?Egr, ?Egt, ?Ess, ?Est, ?Fgr, ?Fgt, ?Fss, ?Fst; done.
Qed.

(** A number that is in no group is added to one. *)
Lemma added_member s s' n i a g grp : procs_ok s → group_at s a g grp →
  (∀ b c g0, group_at s b c g0 → g_members g0 !! n = None) → groups s' = groups s →
  gtab s' = <[g := mk_group (g_pgid grp) (g_sid grp) (<[n := i]> (g_members grp))]> (gtab s) → moved s s' n i a.
Proof.
  intros Hok Hg Hnone Egr Egt. split; [done|]. intros b c g0 Hc. rewrite Egt.
  destruct (group_pgid s b c g0 Hok Hc) as [Hb _]. destruct (decide (c = g)) as [->|].
  - destruct (group_at_inj s b a g g0 grp Hok Hc Hg) as [-> ->]. rewrite lookup_insert_eq.
    eexists. split; [done|]. split_and!; [done..|]. intros k. simpl.
    rewrite lookup_insert, (decide_True (P := a = a)) by done. by destruct (decide (n = k)), (decide (k = n)).
  - rewrite lookup_insert_ne by done. exists g0. split; [apply Hc|]. split_and!; [done..|]. intros k.
    destruct (decide (k = n)) as [->|]; [|done]. rewrite (Hnone b c g0 Hc).
    rewrite decide_False; [done|]. intros ->. destruct Hc, Hg. congruence.
Qed.
(** A number that has not been given away is in no group. *)
Lemma unused_member s b c g0 : procs_ok s → group_at s b c g0 → g_members g0 !! next_pid s = None.
Proof.
  intros Hok Hc. destruct (g_members g0 !! next_pid s) as [j|] eqn:E; [|done].
  destruct (proj1 (po_members s Hok b c g0 _ j Hc) E) as (q & [Hq _] & _).
  destruct (po_proc s Hok _ j Hq) as (_ & _ & _ & ?). lia.
Qed.

Lemma create_child_ok pm root s par a pp : procs_ok s → 1 < next_pid s < 2 ^ 31 → proc_at s a par pp → pgid pp ≠ 0 →
  ∃ i s' p1, process_create (Some par) pm root s = Done (i, s') ∧ procs_ok s' ∧
    created s s' (next_pid s) i p1 (Some par) ∧ child_of s (Some par) root (next_pid s) p1.
Proof.
  intros Hok Hn Hpar Hpg.
  destruct (process_create_eq s (Some par) pm root (next_pid s) eq_refl) as (i & Hi & ->); [lia|].
  set (n := next_pid s) in *. assert (par ≠ i) as Hne by (destruct Hpar; congruence).
  unfold enrol. rewrite (proj2 (Z.eqb_neq n 0)), (proj2 (Z.eqb_neq n 1)) by lia.
  destruct (po_in_group s Hok a par pp Hpar) as [[_ ?]|(g & grp & Hg & Hsid)]; [done|].
  rewrite (join_parent_eq (numbered s i n) i n par pp (blank_process n) g grp).
  2: by simpl; rewrite lookup_insert_ne by done; apply Hpar.
  2: by apply lookup_insert_eq.
  2: by apply (group_for_of s _ g grp).
  2: by apply Hg.
  2: by apply (unused_member s (pgid pp) g grp).
  cbn [mbind outcome_bind]. set (s1 := put_group g _ _).
  destruct (finish_child s1 i n (set_sid (sid pp) (set_pgid (pgid pp) (blank_process n))) par pp pm root)
    as (v & s' & -> & Hv & Ep & Es & Epr & En & Egr & Egt & Ess & Est); [by apply lookup_insert_eq| |done|].
  { simpl. rewrite !lookup_insert_ne by done. apply Hpar. }
  assert (created s s' n i (set_place (Some v) (proot pp) (pcwd pp) (Some par)
            (set_sid (sid pp) (set_pgid (pgid pp) (blank_process n)))) (Some par)) as Hc.
  { split; rewrite ?Ep, ?Es, ?Epr, ?En; simpl; try done.
    + split_and!; [done..|lia|lia].
    + by rewrite lookup_insert_ne, lookup_insert_eq.
    + intros j Hj. destruct (decide (j = par)) as [->|].
      * rewrite lookup_insert_eq, (proj2 Hpar). simpl. unfold adopt. by rewrite decide_True.
      * rewrite !lookup_insert_ne by done. destruct (ptab s !! j); [|done]. simpl. unfold adopt.
        rewrite decide_False; [done|]. by intros [=].
    + exists v. split_and!; [done..|by rewrite lookup_insert_eq|]. intros w Hw. rewrite lookup_insert_is_Some'. by right. }
  eexists i, s', _. split; [done|]. split; [|split; [exact Hc|split_and!; try done; exists pp; by split_and!; [apply Hpar|..]]].
  apply (join_ok s s' n i _ (Some par) Hok Hc); try done.
  - intros ? [= <-]. eauto.
  - apply (added_member s s' n i (pgid pp) g grp Hok Hg); [|by rewrite Egr|by rewrite Egt].
    intros b c g0. by apply unused_member.
  - right. simpl. eauto.
Qed.

(** * Reachable states *)

(** The operations on the tables, called with processes, groups and sessions that are
    registered. *)
Inductive procs_step : procs PM → procs PM → Prop :=
| step_create s parent pm root i s' :
    may_create parent s → process_create parent pm root s = Done (i, s') → procs_step s s'
| step_group s m i p n g grp b s' :
    proc_at s m i p → group_at s n g grp → change_group i g s = Done (b, s') → procs_step s s'
| step_session s m g grp n x sess b s' :
    group_at s m g grp → session_at s n x sess → change_session g x s = Done (b, s') → procs_step s s'.
#[local] Hint Constructors procs_step : core.

Lemma process_create_ok parent pm root s : procs_ok s → may_create parent s →
  ∃ i s' p1, process_create parent pm root s = Done (i, s') ∧ procs_ok s' ∧
    created s s' (next_pid s) i p1 parent ∧ child_of s parent root (next_pid s) p1.
Proof.
  intros Hok [Hn Hp]. destruct parent as [par|].
  - destruct Hp as (H1 & a & pp & Hpp & Hpg). by apply (create_child_ok pm root s par a pp).
  - by apply create_root_ok.
Qed.

Lemma change_group_total s m i p n g grp : procs_ok s → proc_at s m i p → group_at s n g grp →
  ∃ b s', change_group i g s = Done (b, s') ∧ procs_ok s' ∧ b = bool_decide (pgid p ≠ n).
Proof.
  intros Hok Hp Hg. pose proof (change_group_spec s m i p n g grp Hok Hp Hg) as Hc.
  destruct (decide (pgid p = n)) as [Hpn|Hpn].
  - exists false, s. split_and!; [done..|]. symmetry. apply bool_decide_eq_false. naive_solver.
  - destruct Hc as (s' & Hc & Hmv & Hr & Est & Ess). exists true, s'. split; [done|].
    split; [by apply (change_group_ok s s' m i p n g grp)|]. symmetry. by apply bool_decide_eq_true.
Qed.
Lemma change_session_total s m g grp n x sess : procs_ok s → group_at s m g grp → session_at s n x sess →
  ∃ b s', change_session g x s = Done (b, s') ∧ procs_ok s' ∧ b = bool_decide (g_sid grp ≠ n).
Proof.
  intros Hok Hg Hx. pose proof (change_session_spec s m g grp n x sess Hok Hg Hx) as Hc.
  destruct (decide (g_sid grp = n)) as [Hpn|Hpn].
  - exists false, s. split_and!; [done..|]. symmetry. apply bool_decide_eq_false. naive_solver.
  - destruct Hc as (s' & Hc & Hmv & Hr). exists true, s'. split; [done|].
    split; [by apply (change_session_ok s s' m g grp n x sess)|]. symmetry. by apply bool_decide_eq_true.
Qed.

Lemma procs_reachable_sound s : rtc procs_step no_procs s → procs_ok s.
Proof.
  revert s. apply (rtc_ind_r procs_ok no_procs no_procs_ok). intros s s' _ Hstep Hok. destruct Hstep as
    [s parent pm root i s' Hm E|s m i p n g grp b s' Hp Hg E|s m g grp n x sess b s' Hg Hx E].
  - destruct (process_create_ok parent pm root s Hok Hm) as (? & ? & ? & E' & ? & _). rewrite E in E'. by simplify_eq.
  - destruct (change_group_total s m i p n g grp Hok Hp Hg) as (? & ? & E' & ? & _). rewrite E in E'. by simplify_eq.
  - destruct (change_session_total s m g grp n x sess Hok Hg Hx) as (? & ? & E' & ? & _). rewrite E in E'. by simplify_eq.
Qed.

(** C7: in every state reached by creating processes and by moving processes between groups
    and groups between sessions the tables agree with each other: numbers are unique, the
    members of a group or session are those that carry its number, every process but the
    first has a group, and parents and children correspond.  In such a state none of the
    operations panics, hangs or follows a null pointer. *)
Theorem procs_reachable_ok s : rtc procs_step no_procs s →
  procs_ok s ∧
  (∀ parent pm root, may_create parent s → ∃ i s', process_create parent pm root s = Done (i, s')) ∧
  (∀ m i p n g grp, proc_at s m i p → group_at s n g grp → ∃ b s', change_group i g s = Done (b, s')) ∧
  (∀ m g grp n x sess, group_at s m g grp → session_at s n x sess → ∃ b s', change_session g x s = Done (b, s')).
Proof.
  intros Hs. pose proof (procs_reachable_sound s Hs) as Hok.
  split_and!; [done|..].
  - intros parent pm root Hm. destruct (process_create_ok parent pm root s Hok Hm) as (? & ? & ? & ? & _). eauto.
  - intros m i p n g grp Hp Hg. destruct (change_group_total s m i p n g grp Hok Hp Hg) as (? & ? & ? & _). eauto.
  - intros m g grp n x sess Hg Hx. destruct (change_session_total s m g grp n x sess Hok Hg Hx) as (? & ? & ? & _). eauto.
Qed.
End process.

(** * Example: the kernel process, init and a child of init *)
Definition made {PM} (o : outcome (Z * procs PM)) : procs PM :=
  match o with Done (_, s) => s | _ => no_procs end.
Definition ex_kernel : procs Z := made (process_create None 100 no_path no_procs).
Definition ex_init : procs Z := made (process_create None 101 no_path ex_kernel).
Definition ex_child : procs Z := made (process_create (Some 1) 102 no_path ex_init).

Definition ex_at (s : procs Z) (n i : Z) : process := default (blank_process n) (ptab s !! i).
Lemma ex_child_reachable : rtc procs_step no_procs ex_child.
Proof.
  apply (rtc_l _ _ ex_kernel).
  { apply (step_create _ None 100 no_path 0); [|vm_compute; reflexivity]. split; simpl; lia. }
  apply (rtc_l _ _ ex_init).
  { apply (step_create _ None 101 no_path 1); [|vm_compute; reflexivity]. split; vm_compute; intuition discriminate. }
  apply (rtc_l _ _ ex_child); [|apply rtc_refl].
  apply (step_create _ (Some 1) 102 no_path 2); [|vm_compute; reflexivity].
  split; [vm_compute; reflexivity|]. split; [vm_compute; reflexivity|].
  exists 1, (ex_at ex_init 1 1). split; [split; vm_compute; reflexivity|vm_compute; discriminate].
Defined.

Lemma procs_reachable_ok_witness :
  ∃ i s', process_create (Some 2) 103 no_path ex_child = Done (i, s').
Proof.
  apply (proj1 (proj2 (procs_reachable_ok ex_child ex_child_reachable))).
  split; [vm_compute; reflexivity|]. split; [vm_compute; reflexivity|].
  exists 2, (ex_at ex_child 2 2). split; [split; vm_compute; reflexivity|vm_compute; discriminate].
Defined.
