(* ===== verification/Sched.v ===== *)
(** The scheduler (kernel/source/system/scheduler.cpp, with the processor-specific half of
    kernel/source/arch/x86_64/system/scheduler.cpp and the records of
    kernel/interfaces/system/scheduler.cppm).

    A queue of type [lib::rbtree] is the list of its elements in order.  The lock of a run
    queue is taken and released inside one operation of the model; taking it disables
    preemption and releasing it enables it again, so that the counter does not change.  The
    readings of the clock are arguments.  An operation that would wait for a [sleep_lock]
    hangs: as a step of the system it is not possible then. *)

From S2P Require Import Prelude Math Pmm PmmBlocks Frames Pagemap PagemapTree PagemapSpec Objects Vmm Vfs Process.

Definition timeslice : Z := 6.
Definition kstack_size : Z := 0x4000.
Definition ustack_size : Z := 0x200000.

(** [nice_t] *)
Definition nice (x : Z) : outcome Z := if (x <? -20) || (19 <? x) then Panic else Done x.
Definition prio_table : list Z :=
  [88761; 71755; 56483; 46273; 36291; 29154; 23254; 18705; 14949; 11916;
   9548; 7620; 6100; 4904; 3906; 3121; 2501; 1991; 1586; 1277;
   1024; 820; 655; 526; 423; 335; 272; 215; 172; 137;
   110; 87; 70; 56; 45; 36; 29; 23; 18; 15].
Definition prio_to_weight (prio : Z) : Z := nth (Z.to_nat (prio + 20)) prio_table 0.

Inductive status := NotReady | Ready | Running | Sleeping | Killed.
#[export] Instance status_eq_dec : EqDecision status.
Proof. solve_decision. Defined.
Definition wake_success : Z := 0.

(** [cpu::registers]; [gprs] are the general-purpose registers. *)
Record registers := mk_regs { rip : Z; rsp : Z; rflags : Z; cs : Z; ss : Z; gprs : list Z }.
Definition zero_regs : registers := mk_regs 0 0 0 0 0 (replicate 15 0).
(** The state of the floating-point unit. *)
Record fpstate := mk_fp { fcw : Z; mxcsr : Z; fdata : Z }.
Definition zero_fp : fpstate := mk_fp 0 0 0.

(** What is restored when a thread runs again: [regs], [gs_base], [fs_base] and the buffer
    [fpu]. *)
Record context := mk_context { regs : registers; gs_base : Z; fs_base : Z; fpu : fpstate }.
(** [priority], [vruntime], [schedule_time] *)
Record account := mk_account { priority : Z; vruntime : Z; schedule_time : Z }.
(** [sleep_lock], [sleep_ints], [wake_reason], [sleep_for], [sleep_until] *)
Record slumber := mk_slumber
  { sleep_lock : bool; sleep_ints : bool; wake_reason : Z; sleep_dur : option Z; sleep_until : option Z }.
(** The stacks and the buffer for the floating-point unit. *)
Record stacks := mk_stacks { kstack_top : Z; ustack_top : Z; ustack_obj : option Z; fpu_buf : Z }.

Record thread := mk_thread
  { tid : Z; parent : Z; state : status; is_user : bool; acct : account; slp : slumber; ctx : context;
    stk : stacks; running_on : option nat }.
Definition set_state (x : status) (t : thread) : thread :=
  mk_thread (tid t) (parent t) x (is_user t) (acct t) (slp t) (ctx t) (stk t) (running_on t).
Definition set_acct (x : account) (t : thread) : thread :=
  mk_thread (tid t) (parent t) (state t) (is_user t) x (slp t) (ctx t) (stk t) (running_on t).
Definition set_slp (x : slumber) (t : thread) : thread :=
  mk_thread (tid t) (parent t) (state t) (is_user t) (acct t) x (ctx t) (stk t) (running_on t).
Definition set_ctx (x : context) (t : thread) : thread :=
  mk_thread (tid t) (parent t) (state t) (is_user t) (acct t) (slp t) x (stk t) (running_on t).
Definition set_running_on (c : nat) (t : thread) : thread :=
  mk_thread (tid t) (parent t) (state t) (is_user t) (acct t) (slp t) (ctx t) (stk t) (Some c).

Definition set_vruntime (x : Z) (t : thread) : thread :=
  set_acct (mk_account (priority (acct t)) x (schedule_time (acct t))) t.
Definition set_schedule_time (x : Z) (t : thread) : thread :=
  set_acct (mk_account (priority (acct t)) (vruntime (acct t)) x) t.
Definition set_priority (x : Z) (t : thread) : thread :=
  set_acct (mk_account x (vruntime (acct t)) (schedule_time (acct t))) t.
Definition set_sleep_lock (b : bool) (t : thread) : thread :=
  set_slp (mk_slumber b (sleep_ints (slp t)) (wake_reason (slp t)) (sleep_dur (slp t)) (sleep_until (slp t))) t.
Definition set_sleep_until (dur til : option Z) (t : thread) : thread :=
  set_slp (mk_slumber (sleep_lock (slp t)) (sleep_ints (slp t)) (wake_reason (slp t)) dur til) t.
Definition set_wake_reason (r : Z) (t : thread) : thread :=
  set_slp (mk_slumber (sleep_lock (slp t)) (sleep_ints (slp t)) r (sleep_dur (slp t)) (sleep_until (slp t))) t.

(** [lib::rbtree] as the list of its elements in order, which [RbtreeSpec.rbtree_refines_list]
    shows it to be: a new element comes after those that are not greater; [remove] of an
    element that is not in the tree follows the wrong pointers. *)
Fixpoint rb_insert (less : Z → Z → bool) (x : Z) (l : list Z) : list Z :=
  match l with
  | [] => [x]
  | y :: l => if less x y then x :: y :: l else y :: rb_insert less x l
  end.
Definition rb_remove (x : Z) (l : list Z) : outcome (list Z) :=
  if decide (x ∈ l) then Done (filter (λ y, y ≠ x) l) else Crash.

(** [operator<] of [std::optional]. *)
Definition opt_less (a b : option Z) : bool :=
  match b with
  | None => false
  | Some b => match a with None => true | Some a => a <? b end
  end.

(** The processor: segment bases, floating-point unit, page map and kernel stack. *)
Record cpuhw := mk_hw { h_gs_user : Z; h_gs_kernel : Z; h_fs : Z; h_fpu : fpstate; h_pmap : option Z; h_rsp0 : Z }.

(** [class percpu]; [ints] is the interrupt flag, [ipi] says that an interrupt has been sent
    to the processor itself, [timer] is the interval its timer is armed with. *)
Record percpu := mk_percpu
  { queue : list Z; sleep_queue : list Z; dead_threads : list Z; running_thread : option Z;
    idle_proc : option Z; idle_thread : option Z; reaper_thread : option Z;
    preemption : Z; in_scheduler : bool; ints : bool; ipi : bool; timer : option Z; hw : cpuhw }.
Definition set_queues (q sl d : list Z) (p : percpu) : percpu :=
  mk_percpu q sl d (running_thread p) (idle_proc p) (idle_thread p) (reaper_thread p)
    (preemption p) (in_scheduler p) (ints p) (ipi p) (timer p) (hw p).
Definition set_queue (q : list Z) (p : percpu) : percpu := set_queues q (sleep_queue p) (dead_threads p) p.
Definition set_sleepers (q : list Z) (p : percpu) : percpu := set_queues (queue p) q (dead_threads p) p.
Definition set_dead (q : list Z) (p : percpu) : percpu := set_queues (queue p) (sleep_queue p) q p.
Definition set_running (t : option Z) (p : percpu) : percpu :=
  mk_percpu (queue p) (sleep_queue p) (dead_threads p) t (idle_proc p) (idle_thread p) (reaper_thread p)
    (preemption p) (in_scheduler p) (ints p) (ipi p) (timer p) (hw p).
Definition set_service (ip it rt : option Z) (p : percpu) : percpu :=
  mk_percpu (queue p) (sleep_queue p) (dead_threads p) (running_thread p) ip it rt
    (preemption p) (in_scheduler p) (ints p) (ipi p) (timer p) (hw p).
Definition set_preemption (n : Z) (p : percpu) : percpu :=
  mk_percpu (queue p) (sleep_queue p) (dead_threads p) (running_thread p) (idle_proc p) (idle_thread p) (reaper_thread p)
    n (in_scheduler p) (ints p) (ipi p) (timer p) (hw p).
Definition set_in_scheduler (b : bool) (p : percpu) : percpu :=
  mk_percpu (queue p) (sleep_queue p) (dead_threads p) (running_thread p) (idle_proc p) (idle_thread p) (reaper_thread p)
    (preemption p) b (ints p) (ipi p) (timer p) (hw p).
(** [arch::int_switch] *)
Definition int_switch (b : bool) (p : percpu) : percpu :=
  mk_percpu (queue p) (sleep_queue p) (dead_threads p) (running_thread p) (idle_proc p) (idle_thread p) (reaper_thread p)
    (preemption p) (in_scheduler p) b (ipi p) (timer p) (hw p).
(** [arch::reschedule] *)
Definition reschedule (ms : Z) (p : percpu) : percpu :=
  mk_percpu (queue p) (sleep_queue p) (dead_threads p) (running_thread p) (idle_proc p) (idle_thread p) (reaper_thread p)
    (preemption p) (in_scheduler p) (ints p) (if ms =? 0 then true else ipi p)
    (if ms =? 0 then timer p else Some (w64 (ms * 1000000))) (hw p).
Definition set_hw (h : cpuhw) (p : percpu) : percpu :=
  mk_percpu (queue p) (sleep_queue p) (dead_threads p) (running_thread p) (idle_proc p) (idle_thread p) (reaper_thread p)
    (preemption p) (in_scheduler p) (ints p) (ipi p) (timer p) h.

(** The kernel's heap ([lib::alloc], a slab allocator of the frigg library) and the size of
    the buffer for the floating-point unit. *)
Class KernelHeap (H : Type) := { k_alloc : Z → H → outcome (Z * H); k_free : Z → H → outcome H; fpu_size : Z }.

Section sched.
Context {St PM H : Type} `{FrameAllocator St, PageMapOps PM, KernelHeap H}.

Record sched := mk_sched
  { cpus : list percpu; threads : gmap Z thread; tables : procs PM; memory : objstore St; heap : H;
    initialised : bool }.
Definition put_cpus (l : list percpu) (s : sched) : sched :=
  mk_sched l (threads s) (tables s) (memory s) (heap s) (initialised s).
Definition put_threads (m : gmap Z thread) (s : sched) : sched :=
  mk_sched (cpus s) m (tables s) (memory s) (heap s) (initialised s).
Definition put_tables (x : procs PM) (s : sched) : sched :=
  mk_sched (cpus s) (threads s) x (memory s) (heap s) (initialised s).
Definition put_memory (x : objstore St) (s : sched) : sched :=
  mk_sched (cpus s) (threads s) (tables s) x (heap s) (initialised s).
Definition put_heap (x : H) (s : sched) : sched :=
  mk_sched (cpus s) (threads s) (tables s) (memory s) x (initialised s).
Definition set_initialised (b : bool) (s : sched) : sched :=
  mk_sched (cpus s) (threads s) (tables s) (memory s) (heap s) b.

Definition get_thread (t : Z) (s : sched) : outcome thread := deref (threads s !! t).
Definition put_thread (t : Z) (th : thread) (s : sched) : sched := put_threads (<[t := th]> (threads s)) s.
Definition upd_thread (t : Z) (f : thread → thread) (s : sched) : outcome sched :=
  th ← get_thread t s; Done (put_thread t (f th) s).
Definition get_cpu (c : nat) (s : sched) : outcome percpu := deref (cpus s !! c).
Definition put_cpu (c : nat) (p : percpu) (s : sched) : sched := put_cpus (<[c := p]> (cpus s)) s.
Definition upd_cpu (c : nat) (f : percpu → percpu) (s : sched) : outcome sched :=
  p ← get_cpu c s; Done (put_cpu c (f p) s).

(** [compare<&thread::vruntime>] and [compare<&thread::sleep_until>] *)
Definition vruntime_of (s : sched) (t : Z) : Z :=
  match threads s !! t with Some th => vruntime (acct th) | None => 0 end.
Definition until_of (s : sched) (t : Z) : option Z :=
  match threads s !! t with Some th => sleep_until (slp th) | None => None end.
Definition run_before (s : sched) (a b : Z) : bool := vruntime_of s a <? vruntime_of s b.
Definition wake_before (s : sched) (a b : Z) : bool := opt_less (until_of s a) (until_of s b).

Definition queue_insert (c : nat) (t : Z) (s : sched) : outcome sched :=
  upd_cpu c (λ p, set_queue (rb_insert (run_before s) t (queue p)) p) s.
Definition queue_remove (c : nat) (t : Z) (s : sched) : outcome sched :=
  p ← get_cpu c s; q ← rb_remove t (queue p); Done (put_cpu c (set_queue q p) s).
Definition sleep_insert (c : nat) (t : Z) (s : sched) : outcome sched :=
  upd_cpu c (λ p, set_sleepers (rb_insert (wake_before s) t (sleep_queue p)) p) s.
Definition sleep_remove (c : nat) (t : Z) (s : sched) : outcome sched :=
  p ← get_cpu c s; q ← rb_remove t (sleep_queue p); Done (put_cpu c (set_sleepers q p) s).
Definition dead_push (c : nat) (t : Z) (s : sched) : outcome sched :=
  upd_cpu c (λ p, set_dead (dead_threads p ++ [t]) p) s.

(** * The processor *)

(** [save] with [arch::save] *)
Definition save_ctx (h : cpuhw) (r : registers) (th : thread) : context :=
  if is_user th then mk_context r (h_gs_kernel h) (h_fs h) (h_fpu h)
  else mk_context r (gs_base (ctx th)) (fs_base (ctx th)) (fpu (ctx th)).
Definition save (c : nat) (t : Z) (r : registers) (s : sched) : outcome sched :=
  p ← get_cpu c s; upd_thread t (λ th, set_ctx (save_ctx (hw p) r th) th) s.

(** [load] with [arch::load] *)
Definition load_hw (t : Z) (th : thread) (pm : option Z) (h : cpuhw) : cpuhw :=
  if is_user th
  then mk_hw t (gs_base (ctx th)) (fs_base (ctx th)) (fpu (ctx th)) pm (kstack_top (stk th))
  else mk_hw t (h_gs_kernel h) (h_fs h) (h_fpu h) pm (h_rsp0 h).
Definition load (c : nat) (same_pid : bool) (t : Z) (s : sched) : outcome (registers * sched) :=
  th ← get_thread t s;
  p ← get_cpu c s;
  pm ← (if same_pid then Done (h_pmap (hw p))
        else pr ← get_process (parent th) (tables s); v ← deref (vspace pr); Done (Some v));
  Done (regs (ctx th), put_cpu c (set_hw (load_hw t th pm (hw p)) p) s).

(** [arch::finalise]: a new user thread gets its floating-point state by way of the unit of
    the processor that creates it. *)
Definition default_fp (f : fpstate) : fpstate := mk_fp 0x33F 0x1F80 (fdata f).
Definition first_regs (user : bool) (ip kstack ustack : Z) : registers :=
  if user then mk_regs ip ustack 0x202 0x2B 0x23 (gprs zero_regs)
  else mk_regs ip kstack 0x202 0x08 0x10 (gprs zero_regs).
Definition finalise_hw (user : bool) (h : cpuhw) : cpuhw :=
  if user then mk_hw (h_gs_user h) (h_gs_kernel h) (h_fs h) (default_fp zero_fp) (h_pmap h) (h_rsp0 h) else h.

(** * Threads *)

(** [thread::prepare_sleep]; the lock is released by [schedule]. *)
Definition prepare_sleep (c : nat) (t ms : Z) (s : sched) : outcome sched :=
  p ← get_cpu c s;
  let old := ints p in
  let s := put_cpu c (int_switch false p) s in
  th ← get_thread t s;
  if sleep_lock (slp th) then Hang else
  let dur := if ms =? 0 then None else Some (w64 (ms * 1000000)) in
  Done (put_thread t (set_slp (mk_slumber true old (wake_reason (slp th)) dur (sleep_until (slp th)))
    (set_state Sleeping th)) s).

(** [thread::update_ustack] with [arch::update_stack] *)
Definition update_ustack (t addr : Z) (s : sched) : outcome sched :=
  th ← get_thread t s;
  _ ← bug_on (negb (is_user th));
  let r := regs (ctx th) in
  Done (put_thread t (set_ctx (mk_context (mk_regs (rip r) addr (rflags r) (cs r) (ss r) (gprs r))
    (gs_base (ctx th)) (fs_base (ctx th)) (fpu (ctx th))) th) s).

(** [thread::wake_up] *)
Definition wake_up (t reason : Z) (s : sched) : outcome (bool * sched) :=
  th ← get_thread t s;
  if sleep_lock (slp th) then Hang else
  if negb (bool_decide (state th = Sleeping)) then Done (false, s) else
  Done (true, put_thread t (set_wake_reason reason (set_state Ready th)) s).

(** The stack of a new user thread: an anonymous object mapped below the last stack. *)
Definition map_stack (par : Z) (s : sched) : outcome (Z * Z * sched) :=
  pr ← get_process par (tables s);
  let vaddr := w64 (next_stack_top pr - ustack_size) in
  let s := put_tables (put_proc par (set_threads (pthreads pr) (next_tid pr) vaddr pr) (tables s)) s in
  let '(o, m) := new_memobject (memory s) in
  let s := put_memory m s in
  v ← deref (vspace pr);
  sp ← deref (spaces (tables s) !! v);
  '(r, sp) ← vm_map vaddr ustack_size (Z.lor prot_read prot_write) (Z.lor fl_private fl_untouchable) o 0 sp;
  match r with
  | Unexpected _ => Panic
  | Value _ => Done (o, w64 (vaddr + ustack_size), put_tables (put_space v sp (tables s)) s)
  end.

(** [thread::create] on processor [c] *)
Definition thread_create (c : nat) (par ip : Z) (user : bool) (s : sched) : outcome (Z * sched) :=
  pr ← get_process par (tables s);
  let t := fresh (dom (threads s)) in
  let n := next_tid pr in
  let s := put_tables (put_proc par (set_threads (pthreads pr) (s32 (n + 1)) (next_stack_top pr) pr) (tables s)) s in
  '(a, hp) ← k_alloc kstack_size (heap s);
  let ktop := w64 (a + kstack_size) in
  let s := put_heap hp s in
  '(o, utop, s) ← (if user then '(o, utop, s) ← map_stack par s; Done (Some o, utop, s) else Done (None, ktop, s));
  '(b, hp) ← k_alloc fpu_size (heap s);
  let s := put_heap hp s in
  s ← upd_cpu c (λ p, set_hw (finalise_hw user (hw p)) p) s;
  let th := mk_thread n par NotReady user (mk_account 0 0 0) (mk_slumber false false 0 None None)
    (mk_context (first_regs user ip ktop utop) 0 0 (if user then default_fp zero_fp else zero_fp))
    (mk_stacks ktop utop o b) None in
  pr ← get_process par (tables s);
  let s := put_tables (put_proc par (set_threads (<[n := t]> (pthreads pr)) (next_tid pr) (next_stack_top pr) pr) (tables s)) s in
  Done (t, put_thread t th s).

(** [use_count] of the object of a stack: the mappings that refer to it. *)
Definition use_count (o : Z) (s : sched) : Z :=
  map_fold (λ _ v n, n + Z.of_nat (length (filter (λ e, obj e = o) (tree v)))) 0 (spaces (tables s)).

(** [thread::~thread] *)
Definition unmap_stack (th : thread) (s : sched) : outcome sched :=
  o ← deref (ustack_obj (stk th));
  let obj_ref := use_count o s in
  pr ← get_process (parent th) (tables s);
  v ← deref (vspace pr);
  sp ← deref (spaces (tables s) !! v);
  '(r, sp) ← vm_unmap_obj o sp;
  let s := put_tables (put_space v sp (tables s)) s in
  match r with
  | Unexpected _ => Panic
  | Value _ => if use_count o s =? w64 (obj_ref - 1) then Done s else Panic
  end.
Definition thread_destroy (t : Z) (s : sched) : outcome sched :=
  th ← get_thread t s;
  hp ← k_free (w64 (kstack_top (stk th) - kstack_size)) (heap s);
  let s := put_heap hp s in
  s ← (if is_user th then unmap_stack th s else Done s);
  hp ← k_free (fpu_buf (stk th)) (heap s);
  Done (put_threads (delete t (threads s)) (put_heap hp s)).

(** * Preemption *)

Definition disable (c : nat) (s : sched) : outcome sched :=
  if negb (initialised s) then Done s else
  p ← get_cpu c s;
  if in_scheduler p then Done s else Done (put_cpu c (set_preemption (w64 (preemption p + 1)) p) s).
Definition enable (c : nat) (s : sched) : outcome sched :=
  if negb (initialised s) then Done s else
  p ← get_cpu c s;
  if in_scheduler p then Done s else
  Done (if 0 <? preemption p then put_cpu c (set_preemption (preemption p - 1) p) s else s).

(** * Queues *)

(** [allocate_cpu]: the first processor with the shortest queue. *)
Fixpoint shortest (l : list percpu) (i idx : nat) (min : Z) : nat :=
  match l with
  | [] => idx
  | p :: l =>
      let n := Z.of_nat (length (queue p)) in
      if n <? min then shortest l (S i) i n else shortest l (S i) idx min
  end.
Definition allocate_cpu (s : sched) : nat := shortest (cpus s) 0 0 word_max.

Definition enqueue (t : Z) (c : nat) (s : sched) : outcome sched :=
  th ← get_thread t s;
  match state th with
  | Killed | NotReady | Sleeping => Panic
  | Running => queue_insert c t (put_thread t (set_state Ready th) s)
  | Ready => queue_insert c t s
  end.

(** [spawn_on], called on processor [here] *)
Definition spawn_on (here c : nat) (n ip prio : Z) (s : sched) : outcome (Z * sched) :=
  prio ← nice prio;
  match processes (tables s) !! w64 n with
  | None => Panic
  | Some par =>
      '(t, s) ← thread_create here par ip false s;
      s ← upd_thread t (λ th, set_state Ready (set_priority prio th)) s;
      s ← enqueue t c s;
      Done (t, s)
  end.
Definition spawn (here : nat) (n ip prio : Z) (s : sched) : outcome (Z * sched) :=
  spawn_on here (allocate_cpu s) n ip prio s.

(** [yield] up to the interrupt, and after it. *)
Definition yield_enter (c : nat) (now : Z) (s : sched) : outcome (bool * bool * sched) :=
  p ← get_cpu c s;
  t ← deref (running_thread p);
  th ← get_thread t s;
  let eeping := bool_decide (state th = Sleeping) in
  let old := if eeping then sleep_ints (slp th) else ints p in
  s ← (if eeping then
         let s := match sleep_dur (slp th) with
                  | Some d => put_thread t (set_sleep_until None (Some (w64 (now + d))) th) s
                  | None => s
                  end in
         sleep_insert c t s
       else upd_cpu c (int_switch false) s);
  s ← upd_cpu c (λ p, reschedule 0 (int_switch true p)) s;
  Done (eeping, old, s).
Definition this_thread (c : nat) (s : sched) : outcome Z := p ← get_cpu c s; deref (running_thread p).
(** [sleep_for] up to the interrupt; [yield_leave] follows it. *)
Definition sleep_for (c : nat) (ms now : Z) (s : sched) : outcome (bool * bool * sched) :=
  t ← this_thread c s;
  s ← prepare_sleep c t ms s;
  yield_enter c now s.
Definition yield_leave (c : nat) (eeping old : bool) (s : sched) : outcome (Z * sched) :=
  p ← get_cpu c s;
  let s := put_cpu c (int_switch old p) s in
  if eeping then t ← deref (running_thread p); th ← get_thread t s; Done (wake_reason (slp th), s)
  else Done (wake_success, s).

(** * The interrupt handler *)

(** The first loop: the first thread that is ready leaves the queue; killed threads in
    front of it are put aside. *)
Fixpoint pick_loop (c : nat) (l : list Z) (found_dead : bool) (s : sched) : outcome (option Z * bool * sched) :=
  match l with
  | [] => Done (None, found_dead, s)
  | t :: l =>
      th ← get_thread t s;
      match state th with
      | Ready => s ← queue_remove c t s; Done (Some t, found_dead, s)
      | Sleeping | Running => Panic
      | Killed => s ← queue_remove c t s; s ← dead_push c t s; pick_loop c l true s
      | NotReady => pick_loop c l found_dead s
      end
  end.

(** [exec_time], [weight] and [vtime] *)
Definition charge (time : Z) (th : thread) : thread :=
  let exec_time := w64 (time - schedule_time (acct th)) in
  let vtime := w64 (exec_time * prio_to_weight 0) / prio_to_weight (priority (acct th)) in
  set_vruntime (w64 (vruntime (acct th) + vtime)) th.

(** The thread that was running, if it is not the idle thread and not killed.  Its status is
    read again after its [sleep_lock] has been released; [window] is what the other
    processors do in between. *)
Definition leave_current (window : sched → outcome sched) (c : nat) (time : Z) (r : registers) (cur : Z) (th : thread) (next : option Z) (s : sched)
    : outcome (option Z * sched) :=
  let stay := bool_decide (next = None) && bool_decide (state th = Running) in
  let next := if stay then Some cur else next in
  s ← (if negb stay && bool_decide (state th = Sleeping) then s ← upd_thread cur (set_sleep_lock false) s; window s else Done s);
  s ← upd_thread cur (charge time) s;
  s ← (if bool_decide (next = Some cur) then Done s else
       s ← save c cur r s;
       th ← get_thread cur s;
       if bool_decide (state th = Sleeping) then Done s else enqueue cur c s);
  Done (next, s).
Definition retire (window : sched → outcome sched) (c : nat) (time : Z) (r : registers) (next : option Z) (found_dead : bool) (s : sched)
    : outcome (option Z * option Z * bool * sched) :=
  p ← get_cpu c s;
  match running_thread p with
  | None => Done (next, None, found_dead, s)
  | Some cur =>
      th ← get_thread cur s;
      if bool_decide (state th = Killed) then s ← dead_push c cur s; Done (next, None, true, s) else
      pr ← get_process (parent th) (tables s);
      if bool_decide (idle_thread p = Some cur) then s ← save c cur r s; Done (next, Some (pid pr), found_dead, s) else
      '(next, s) ← leave_current window c time r cur th next s;
      Done (next, Some (pid pr), found_dead, s)
  end.

Definition wake_reaper (c : nat) (s : sched) : outcome sched :=
  p ← get_cpu c s;
  rt ← deref (reaper_thread p);
  th ← get_thread rt s;
  Done (if bool_decide (state th = Sleeping) && bool_decide (sleep_until (slp th) = None)
        then put_thread rt (set_state Ready th) s else s).

(** The switch to [next]; [r] are the registers of the interrupted thread. *)
Definition switch_to (c : nat) (prev_pid : option Z) (next : Z) (s : sched) : outcome (registers * sched) :=
  s ← upd_thread next (λ th, set_state Running (set_running_on c th)) s;
  s ← upd_cpu c (set_running (Some next)) s;
  th ← get_thread next s;
  pr ← get_process (parent th) (tables s);
  load c (bool_decide (prev_pid = Some (pid pr))) next s.

(** [schedule]: [time] and [time'] are the two readings of the clock. *)
Definition schedule_during (window : sched → outcome sched) (c : nat) (time time' : Z) (r : registers) (s : sched) : outcome (registers * sched) :=
  p ← get_cpu c s;
  if 0 <? preemption p then Done (r, put_cpu c (reschedule timeslice p) s) else
  let s := put_cpu c (set_in_scheduler true p) s in
  '(next, found_dead, s) ← pick_loop c (queue p) false s;
  '(next, prev_pid, found_dead, s) ← retire window c time r next found_dead s;
  s ← (if (found_dead : bool) then wake_reaper c s else Done s);
  next ← match next with Some t => Done t | None => deref (idle_thread p) end;
  '(r, s) ← (if bool_decide (running_thread p = Some next) then Done (r, s) else switch_to c prev_pid next s);
  let is_current_idle := bool_decide (running_thread p = idle_thread p) in
  s ← (if is_current_idle then Done s else upd_thread next (set_schedule_time time') s);
  s ← upd_cpu c (λ p, set_in_scheduler false (reschedule timeslice p)) s;
  Done (r, s).

(** The handler as one step of the system: no other processor comes in between. *)
Definition schedule : nat → Z → Z → registers → sched → outcome (registers * sched) := schedule_during Done.

(** * The service threads *)

(** One pass of [sleeper] over a queue that is not empty; [first] is [begin]. *)
Definition sleeper_wake (c : nat) (first t : Z) (th : thread) (s : sched) : outcome sched :=
  s ← sleep_remove c t s;
  let s := put_thread t (set_wake_reason wake_success (set_state Ready (set_sleep_until (sleep_dur (slp th)) None th))) s in
  b ← get_thread first s;
  s ← upd_thread t (set_vruntime (vruntime (acct b))) s;
  queue_insert c t s.
Fixpoint sleeper_loop (c : nat) (first time : Z) (l : list Z) (s : sched) : outcome sched :=
  match l with
  | [] => Done s
  | t :: l =>
      th ← get_thread t s;
      match sleep_until (slp th) with
      | None =>
          match state th with
          | Ready => s ← sleep_remove c t s; s ← queue_insert c t s; sleeper_loop c first time l s
          | Killed => s ← sleep_remove c t s; s ← dead_push c t s; sleeper_loop c first time l s
          | NotReady | Sleeping => sleeper_loop c first time l s
          | Running => Panic
          end
      | Some til =>
          if time <? til then Done s else
          s ← sleeper_wake c first t th s; sleeper_loop c first time l s
      end
  end.
Definition sleeper_pass (c : nat) (time : Z) (s : sched) : outcome sched :=
  p ← get_cpu c s;
  match sleep_queue p with
  | [] => Done s
  | first :: _ =>
      s ← disable c s;
      s ← sleeper_loop c first time (sleep_queue p) s;
      enable c s
  end.

(** [reaper]: going to sleep while there is nothing to do, ... *)
Definition reaper_idle (c : nat) (s : sched) : outcome sched :=
  p ← get_cpu c s;
  if bool_decide (dead_threads p = []) then
    rt ← deref (reaper_thread p);
    s ← upd_thread rt (set_state Sleeping) s;
    th ← get_thread rt s;
    _ ← bug_on (bool_decide (sleep_until (slp th) ≠ None));
    Done s
  else Done s.
(** ... and the work after the pause for batches. *)
Fixpoint reap_loop (l : list Z) (s : sched) : outcome sched :=
  match l with
  | [] => Done s
  | t :: l =>
      th ← get_thread t s;
      pr ← get_process (parent th) (tables s);
      _ ← bug_on (bool_decide (pthreads pr !! tid th = None));
      let pr := set_threads (delete (tid th) (pthreads pr)) (next_tid pr) (next_stack_top pr) pr in
      let s := put_tables (put_proc (parent th) pr (tables s)) s in
      s ← thread_destroy t s;
      if bool_decide (pthreads pr = ∅) then Panic else reap_loop l s
  end.
Definition reap (c : nat) (s : sched) : outcome sched :=
  s ← disable c s;
  p ← get_cpu c s;
  s ← upd_cpu c (set_dead []) s;
  s ← enable c s;
  reap_loop (dead_threads p) s.

(** * Start *)

Definition first_hw : cpuhw := mk_hw 0 0 0 zero_fp None 0.
Definition blank_cpu : percpu := mk_percpu [] [] [] None None None None 0 false false false None first_hw.

(** [start] on processor [c]: [vs] is the address space of the idle processes, [ip] the
    address of [idle]. *)
Definition start_idle (c : nat) (vs ip : Z) (s : sched) : outcome sched :=
  let i := fresh (dom (ptab (tables s))) in
  let s := put_tables (put_proc i (set_place (Some vs) no_path no_path None (blank_process (-1))) (tables s)) s in
  '(t, s) ← thread_create c i ip false s;
  s ← upd_thread t (set_state Ready) s;
  upd_cpu c (λ p, int_switch true (set_service (Some i) (Some t) (reaper_thread p) p)) s.
(** The part of the first processor: [reaper] and [sleeper] on every processor. *)
Fixpoint start_services (here : nat) (idxs : list nat) (reaper_ip sleeper_ip : Z) (s : sched) : outcome sched :=
  match idxs with
  | [] => Done (set_initialised true s)
  | c :: idxs =>
      '(t, s) ← spawn_on here c 0 reaper_ip 19 s;
      s ← upd_cpu c (λ p, set_service (idle_proc p) (idle_thread p) (Some t) p) s;
      '(_, s) ← spawn_on here c 0 sleeper_ip (-5) s;
      start_services here idxs reaper_ip sleeper_ip s
  end.
End sched.
Arguments sched St PM H : clear implicits.
