(* ===== verification/SchedInv.v ===== *)
(** The invariant of the scheduler: every thread is at one place.

    [where_ : Z → loc] is ghost state that says where each thread is; queues and processors
    agree with it.  While the interrupt handler of processor [C] runs that processor runs
    nothing, and the threads [X] are in its hands. *)

From Stdlib Require Import Sorting.Sorted.
From S2P Require Import Prelude Math Pmm PmmBlocks Frames Pagemap PagemapTree PagemapSpec Objects Vmm Vfs Process Sched.

Inductive loc := Nowhere | InQueue (c : nat) | InSleep (c : nat) | InDead (c : nat) | OnCpu (c : nat) | Idle (c : nat).
#[export] Instance loc_eq_dec : EqDecision loc.
Proof. solve_decision. Defined.

Definition moved_to (w : Z → loc) (t : Z) (x : loc) : Z → loc := λ u, if decide (u = t) then x else w u.
Lemma moved_same w t x : moved_to w t x t = x.
Proof. unfold moved_to. by rewrite decide_True. Qed.
Lemma moved_other w t x u : u ≠ t → moved_to w t x u = w u.
Proof. intros. unfold moved_to. by rewrite decide_False. Qed.

(** * Ordered lists *)
Section ordered.
Context (less : Z → Z → bool).
Definition ordered : list Z → Prop := StronglySorted (λ a b, less b a = false).

(** [less] compares keys of a totally ordered type. *)
Definition weak_order : Prop :=
  (∀ a b c, less a b = false → less b c = false → less a c = false) ∧ ∀ a b, less a b = true → less b a = false.

Lemma rb_insert_elem x l y : y ∈ rb_insert less x l ↔ y = x ∨ y ∈ l.
Proof.
  induction l as [|z l IH]; simpl; [set_solver|]. case_match; set_solver.
Qed.
Lemma rb_insert_NoDup x l : x ∉ l → NoDup l → NoDup (rb_insert less x l).
Proof.
  induction l as [|z l IH]; simpl; intros Hx Hl.
  - constructor; [set_solver|constructor].
  - apply NoDup_cons in Hl as [Hz Hl]. case_match; [constructor; [done|by constructor]|].
    constructor; [|apply IH; set_solver]. rewrite rb_insert_elem. set_solver.
Qed.
Lemma rb_insert_ordered x l : weak_order → ordered l → ordered (rb_insert less x l).
Proof.
  intros [Htr Has] Hl. induction Hl as [|z l Hl IH Hz]; simpl; [constructor; constructor|].
  destruct (less x z) eqn:E.
  - constructor; [by constructor|]. constructor; [by apply Has|].
    eapply Forall_impl; [exact Hz|]. intros y Hy. simpl in *. eapply Htr; [exact Hy|]. by apply Has.
  - constructor; [done|]. apply Forall_forall. intros y. rewrite rb_insert_elem.
    intros [->|Hy]; [done|]. rewrite Forall_forall in Hz. by apply Hz.
Qed.
End ordered.

Lemma rb_remove_spec x l : x ∈ l → rb_remove x l = Done (filter (λ y, y ≠ x) l).
Proof. intros. unfold rb_remove. by rewrite decide_True. Qed.
Lemma filter_ordered (less : Z → Z → bool) x l : ordered less l → ordered less (filter (λ y, y ≠ x) l).
Proof.
  induction 1 as [|y l Hl IH Hy]; [constructor|]. rewrite filter_cons. case_decide; [|done].
  constructor; [done|]. apply Forall_forall. intros z Hz%list_elem_of_filter.
  rewrite Forall_forall in Hy. apply Hy, Hz.
Qed.
Lemma ordered_ext (f g : Z → Z → bool) l :
  (∀ a b, a ∈ l → b ∈ l → f a b = g a b) → ordered f l → ordered g l.
Proof.
  intros Hfg Hl. induction Hl as [|y l Hl IH Hy]; constructor.
  - apply IH. set_solver.
  - apply Forall_forall. intros z Hz. rewrite Forall_forall in Hy. rewrite <-Hfg; [by apply Hy|by right|by left].
Qed.

Lemma ltb_weak_order (key : Z → Z) : weak_order (λ a b, key a <? key b).
Proof. split; intros *; rewrite ?Z.ltb_ge, ?Z.ltb_lt; lia. Qed.
Lemma opt_weak_order (key : Z → option Z) : weak_order (λ a b, opt_less (key a) (key b)).
Proof.
  split; intros *; unfold opt_less; repeat case_match; rewrite ?Z.ltb_ge, ?Z.ltb_lt; try done; lia.
Qed.

Section inv.
Context {St PM H : Type} `{FrameAllocator St, PageMapOps PM, KernelHeap H}.
Implicit Types s : sched St PM H.

(** Thread [t] is the one processor [c] runs; processor [C] is in the handler. *)
Definition on_cpu (C : option nat) s (c : nat) (t : Z) : Prop :=
  C ≠ Some c ∧ ∃ p, cpus s !! c = Some p ∧ running_thread p = Some t.

(** Thread [t] is the reaper of a processor, which falls asleep without its [sleep_lock]. *)
Definition reaps s (t : Z) : Prop := ∃ c p, cpus s !! c = Some p ∧ reaper_thread p = Some t.

(** The state of a thread fits its place.  A reaper that was interrupted while it fell
    asleep is nowhere. *)
Definition thread_ok (w : Z → loc) (C : option nat) s (t : Z) (th : thread) : Prop :=
  match w t with
  | Nowhere => (state th = NotReady ∨ (state th = Ready ∨ state th = Sleeping) ∧ reaps s t) ∧ sleep_lock (slp th) = false
  | InQueue _ => (state th = Ready ∨ state th = Killed) ∧ sleep_lock (slp th) = false
  | InSleep c =>
      (on_cpu C s c t ∧ state th = Sleeping ∧ (sleep_lock (slp th) = true ∨ reaps s t)) ∨
      (¬ on_cpu C s c t ∧ (state th = Ready ∨ state th = Sleeping ∨ state th = Killed) ∧ sleep_lock (slp th) = false)
  | InDead _ => state th = Killed ∧ sleep_lock (slp th) = false
  | OnCpu c =>
      on_cpu C s c t ∧
      ((state th = Running ∨ state th = Killed) ∧ sleep_lock (slp th) = false ∨
       state th = Sleeping ∧ (sleep_lock (slp th) = true ∧ (∃ p, cpus s !! c = Some p ∧ ints p = false) ∨
                              sleep_lock (slp th) = false ∧ reaps s t))
  | Idle c =>
      (state th = Ready ∨ state th = Running) ∧ sleep_lock (slp th) = false ∧
      ∃ p, cpus s !! c = Some p ∧ idle_thread p = Some t
  end.

(** The processor of a place. *)
Definition home (c : nat) (x : loc) : Prop :=
  match x with Nowhere => False | InQueue c' | InSleep c' | InDead c' | OnCpu c' | Idle c' => c' = c end.

Definition parent_ok s (th : thread) : Prop :=
  ∃ pr, ptab (tables s) !! parent th = Some pr ∧ is_Some (vspace pr).

(** [hm] is the processor a thread belongs to. *)
Record sched_rep (w : Z → loc) (hm : Z → nat) (X : list Z) (C : option nat) s : Prop := {
  sr_queue c p t : cpus s !! c = Some p → (t ∈ queue p ↔ w t = InQueue c);
  sr_sleep c p t : cpus s !! c = Some p → (t ∈ sleep_queue p ↔ w t = InSleep c);
  sr_dead c p t : cpus s !! c = Some p → (t ∈ dead_threads p ↔ w t = InDead c);
  sr_nodup c p : cpus s !! c = Some p → NoDup (queue p) ∧ NoDup (sleep_queue p) ∧ NoDup (dead_threads p);
  sr_ordered c p : cpus s !! c = Some p → ordered (run_before s) (queue p);
  sr_asleep c p : cpus s !! c = Some p → ordered (wake_before s) (sleep_queue p);
  sr_thread t th : threads s !! t = Some th → parent_ok s th ∧ (t ∉ X → thread_ok w C s t th);
  sr_place t : w t ≠ Nowhere ∨ t ∈ X → is_Some (threads s !! t);
  sr_running c p t : C ≠ Some c → cpus s !! c = Some p → running_thread p = Some t →
    w t = OnCpu c ∨ w t = InSleep c ∨ w t = Idle c;
  sr_idle c p t : cpus s !! c = Some p → idle_thread p = Some t → w t = Idle c;
  sr_reaper c p t : cpus s !! c = Some p → reaper_thread p = Some t →
    ∃ th, threads s !! t = Some th ∧ state th ≠ Killed ∧ hm t = c ∧ w t ≠ Idle c;
  sr_home t c : home c (w t) → hm t = c;
  sr_started c p : cpus s !! c = Some p → initialised s = true → is_Some (reaper_thread p);
  sr_cpu c p : cpus s !! c = Some p → 0 ≤ preemption p ∧ (C ≠ Some c → in_scheduler p = false);
  sr_there t c : home c (w t) → is_Some (cpus s !! c) }.

Lemma run_weak s : weak_order (run_before s).
Proof. apply (ltb_weak_order (vruntime_of s)). Qed.
Lemma wake_weak s : weak_order (wake_before s).
Proof. apply (opt_weak_order (until_of s)). Qed.

Lemma cpus_put s c p p' c' p0 : cpus s !! c = Some p' → cpus (put_cpu c p s) !! c' = Some p0 →
  (c' = c ∧ p0 = p) ∨ (c' ≠ c ∧ cpus s !! c' = Some p0).
Proof.
  simpl. intros Hc. destruct (decide (c' = c)) as [->|].
  - rewrite list_lookup_insert_eq by by eapply lookup_lt_Some. intros [= <-]. by left.
  - rewrite list_lookup_insert_ne by done. by right.
Qed.
Lemma put_same_cpu s c p p' : cpus s !! c = Some p' → cpus (put_cpu c p s) !! c = Some p.
Proof. simpl. intros. rewrite list_lookup_insert_eq; [done|by eapply lookup_lt_Some]. Qed.
Lemma put_some_cpu s c p c' : is_Some (cpus s !! c') → is_Some (cpus (put_cpu c p s) !! c').
Proof. simpl. rewrite !lookup_lt_is_Some. by rewrite length_insert. Qed.
Lemma put_other_cpu s c p c' : c ≠ c' → cpus (put_cpu c p s) !! c' = cpus s !! c'.
Proof. simpl. intros. by rewrite list_lookup_insert_ne. Qed.

Lemma reaps_put s c p p' t : cpus s !! c = Some p → reaper_thread p' = reaper_thread p ∨ reaper_thread p = None →
  reaps s t → reaps (put_cpu c p' s) t.
Proof.
  intros Hc Hrt (c' & q & Hq & Ht). destruct (decide (c' = c)) as [->|].
  - simplify_eq. exists c, p'. split; [by apply (put_same_cpu s c p' p)|]. destruct Hrt; congruence.
  - exists c', q. by rewrite put_other_cpu.
Qed.

(** Changes of the exempted threads. *)
Lemma rep_exempt w hm X Y C s : sched_rep w hm X C s → (∀ t, t ∈ X → t ∈ Y) → (∀ t, t ∈ Y → is_Some (threads s !! t)) →
  sched_rep w hm Y C s.
Proof.
  intros [] HXY HY. split; try done.
  - intros t th Ht. destruct (sr_thread0 t th Ht) as [? Hok]. split; [done|]. intros Hn. apply Hok. set_solver.
  - intros t [?|?]; [apply sr_place0; by left|by apply HY].
Qed.
Lemma rep_settle w hm X C s t : sched_rep w hm (t :: X) C s →
  (∀ th, threads s !! t = Some th → thread_ok w C s t th) → sched_rep w hm X C s.
Proof.
  intros [] Ht. split; try done.
  - intros u th Hu. destruct (sr_thread0 u th Hu) as [? Hok]. split; [done|]. intros Hn.
    destruct (decide (u = t)) as [->|]; [by apply Ht|]. apply Hok. set_solver.
  - intros u [?|?]; apply sr_place0; [by left|right; set_solver].
Qed.

(** A thread gets new contents that fit its place. *)
Lemma rep_thread w hm X C s t th th' : sched_rep w hm X C s → threads s !! t = Some th →
  parent th' = parent th → (∀ c, w t = InQueue c → vruntime (acct th') = vruntime (acct th)) →
  (∀ c, w t = InSleep c → sleep_until (slp th') = sleep_until (slp th)) →
  (state th' = Killed → state th = Killed ∨ ∀ c p, cpus s !! c = Some p → reaper_thread p ≠ Some t) →
  (t ∉ X → thread_ok w C s t th') → sched_rep w hm X C (put_thread t th' s).
Proof.
  intros Hr Ht Hpar Hv Hu Hk Hok. pose proof Hr as []. split; try done.
  - intros c p Hc. apply (ordered_ext (run_before s)); [|by eapply sr_ordered0].
    assert (∀ a, a ∈ queue p → vruntime_of (put_thread t th' s) a = vruntime_of s a) as E.
    { intros a Ha. unfold vruntime_of. simpl. destruct (decide (a = t)) as [->|]; [|by rewrite lookup_insert_ne].
      rewrite lookup_insert_eq, Ht. apply (Hv c). by apply (sr_queue0 c p). }
    intros a b Ha Hb. unfold run_before. by rewrite !E.
  - intros c p Hc. apply (ordered_ext (wake_before s)); [|by eapply sr_asleep0].
    assert (∀ a, a ∈ sleep_queue p → until_of (put_thread t th' s) a = until_of s a) as E.
    { intros a Ha. unfold until_of. simpl. destruct (decide (a = t)) as [->|]; [|by rewrite lookup_insert_ne].
      rewrite lookup_insert_eq, Ht. apply (Hu c). by apply (sr_sleep0 c p). }
    intros a b Ha Hb. unfold wake_before. by rewrite !E.
  - intros u thu. simpl. intros [[<- <-]|[Hne Hth]]%lookup_insert_Some.
    + destruct (sr_thread0 t th Ht) as [Hp _]. split; [|done]. unfold parent_ok. by rewrite Hpar.
    + by apply sr_thread0.
  - intros u Hu1. simpl. rewrite lookup_insert_is_Some'. right. by apply sr_place0.
  - intros c p u Hc Hrt. simpl. destruct (sr_reaper0 c p u Hc Hrt) as (thr & Hthr & Hnk & Hhm). destruct (decide (u = t)) as [->|].
    + exists th'. rewrite lookup_insert_eq. split_and!; [done| |apply Hhm..]. intros [?|Hno]%Hk; [congruence|by apply (Hno c p Hc)].
    + exists thr. by rewrite lookup_insert_ne.
Qed.

(** A processor gets new contents; threads stay where they are. *)
Lemma rep_cpu w hm X C s c p p' : sched_rep w hm X C s → cpus s !! c = Some p →
  queue p' = queue p → sleep_queue p' = sleep_queue p → dead_threads p' = dead_threads p →
  idle_thread p' = idle_thread p →
  (reaper_thread p' = reaper_thread p ∨
    reaper_thread p = None ∧ ∃ t th, reaper_thread p' = Some t ∧ threads s !! t = Some th ∧ state th ≠ Killed ∧ hm t = c ∧ w t ≠ Idle c) →
  (C ≠ Some c → running_thread p' = running_thread p ∧ in_scheduler p' = false) → 0 ≤ preemption p' →
  (∀ t th, w t = OnCpu c → t ∉ X → threads s !! t = Some th → sleep_lock (slp th) = true → ints p' = false) →
  sched_rep w hm X C (put_cpu c p' s).
Proof.
  intros Hr Hc Hq Hs Hd Hi Hrt Hrun Hpre Hints. pose proof Hr as [].
  assert (∀ c' t, on_cpu C (put_cpu c p' s) c' t ↔ on_cpu C s c' t) as Hon.
  { intros c' t. unfold on_cpu. destruct (decide (c' = c)) as [->|].
    - rewrite (put_same_cpu s c p' p Hc), Hc. split; intros [Hn (q & [= <-] & ?)]; (split; [done|]); eexists; (split; [done|]);
        destruct (Hrun Hn) as [E _]; congruence.
    - by rewrite put_other_cpu. }
  assert (∀ t, reaps s t → reaps (put_cpu c p' s) t) as Hrp.
  { intros t. apply (reaps_put s c p p'); [done|]. destruct Hrt as [?|[? _]]; auto. }
  split.
  - intros c' p0 t [[-> ->]|[_ ?]]%(cpus_put s c p' p c' p0 Hc); [rewrite Hq|]; by eapply sr_queue0.
  - intros c' p0 t [[-> ->]|[_ ?]]%(cpus_put s c p' p c' p0 Hc); [rewrite Hs|]; by eapply sr_sleep0.
  - intros c' p0 t [[-> ->]|[_ ?]]%(cpus_put s c p' p c' p0 Hc); [rewrite Hd|]; by eapply sr_dead0.
  - intros c' p0 [[-> ->]|[_ ?]]%(cpus_put s c p' p c' p0 Hc); [rewrite Hq, Hs, Hd|]; by eapply sr_nodup0.
  - intros c' p0 [[-> ->]|[_ ?]]%(cpus_put s c p' p c' p0 Hc); [rewrite Hq|]; by eapply sr_ordered0.
  - intros c' p0 [[-> ->]|[_ ?]]%(cpus_put s c p' p c' p0 Hc); [rewrite Hs|]; by eapply sr_asleep0.
  - intros t th Ht. destruct (sr_thread0 t th Ht) as [Hp Hok]. split; [done|]. intros Hn. specialize (Hok Hn).
    unfold thread_ok in *. destruct (w t) as [|c'|c'|c'|c'|c'] eqn:E; try done.
    + destruct Hok as [[?|[? ?%Hrp]] ?]; auto.
    + rewrite Hon. destruct Hok as [(? & ? & [?|?%Hrp])|?]; auto.
    + rewrite Hon. destruct Hok as [? [?|[? [(? & q & Hq' & Hi')|[? ?]]]]]; (split; [done|]); [by left|right..]; (split; [done|]); [left|right; auto].
      split; [done|]. destruct (decide (c' = c)) as [->|].
      * exists p'. split; [by apply (put_same_cpu s c p' p)|]. by eapply Hints.
      * exists q. by rewrite put_other_cpu.
    + destruct Hok as (? & ? & q & Hq' & Hi'). split_and!; [done..|]. destruct (decide (c' = c)) as [->|].
      * exists p'. split; [by apply (put_same_cpu s c p' p)|]. congruence.
      * exists q. by rewrite put_other_cpu.
  - done.
  - intros c' p0 t HC [[-> ->]|[_ ?]]%(cpus_put s c p' p c' p0 Hc); [|by eapply sr_running0].
    destruct (Hrun HC) as [-> _]. by eapply sr_running0.
  - intros c' p0 t [[-> ->]|[_ ?]]%(cpus_put s c p' p c' p0 Hc); [rewrite Hi|]; by eapply sr_idle0.
  - intros c' p0 t [[-> ->]|[_ ?]]%(cpus_put s c p' p c' p0 Hc); [|by eapply sr_reaper0].
    destruct Hrt as [->|(_ & r & thr & -> & Hr')]; [by eapply sr_reaper0|]. intros [= <-]. by exists thr.
  - done.
  - intros c' p0 Hc' Hin. apply (cpus_put s c p' p c' p0 Hc) in Hc' as [[-> ->]|[_ Hc']]; [|exact (sr_started0 c' p0 Hc' Hin)].
    destruct Hrt as [->|(_ & r & thr & -> & _)]; [exact (sr_started0 c p Hc Hin)|done].
  - intros c' p0 [[-> ->]|[_ ?]]%(cpus_put s c p' p c' p0 Hc); [|by eapply sr_cpu0]. split; [done|]. intros HC. by apply Hrun.
  - intros t c' Ht. by apply put_some_cpu, (sr_there0 t).
Qed.

(** An exempted thread moves to or from the lists of processor [c]. *)
Definition near (c : nat) (x : loc) : Prop :=
  match x with Idle _ => False | Nowhere => True | OnCpu c' | InQueue c' | InSleep c' | InDead c' => c' = c end.
Lemma rep_move w hm X C s c p t x q sl d : sched_rep w hm X C s → cpus s !! c = Some p → t ∈ X → C = Some c ∨ running_thread p ≠ Some t →
  near c (w t) → near c x → hm t = c → (∀ c', C ≠ Some c' → w t ≠ OnCpu c') →
  (∀ u, u ∈ q ↔ (if decide (u = t) then x = InQueue c else u ∈ queue p)) → NoDup q → ordered (run_before s) q →
  (∀ u, u ∈ sl ↔ (if decide (u = t) then x = InSleep c else u ∈ sleep_queue p)) → NoDup sl → ordered (wake_before s) sl →
  (∀ u, u ∈ d ↔ (if decide (u = t) then x = InDead c else u ∈ dead_threads p)) → NoDup d →
  sched_rep (moved_to w t x) hm X C (put_cpu c (set_queues q sl d p) s).
Proof.
  intros Hr Hc Ht Hrun Hw Hx Hhm Hon Hq Nq Oq Hs Ns Os Hd Nd. pose proof Hr as [].
  set (p' := set_queues q sl d p) in *.
  assert (∀ c' u, on_cpu C (put_cpu c p' s) c' u ↔ on_cpu C s c' u) as Hon'.
  { intros c' u. unfold on_cpu. destruct (decide (c' = c)) as [->|].
    - rewrite (put_same_cpu s c p' p Hc), Hc. split; intros [Hn (? & [= <-] & ?)]; eauto.
    - by rewrite put_other_cpu. }
  assert (∀ u, reaps s u → reaps (put_cpu c p' s) u) as Hrp by (intros u; apply (reaps_put s c p p'); [done|by left]).
  assert (∀ c' p0, cpus s !! c' = Some p0 → c' ≠ c → (t ∉ queue p0) ∧ (t ∉ sleep_queue p0) ∧ (t ∉ dead_threads p0)) as Hfar.
  { intros c' p0 Hc' Hne. rewrite (sr_queue0 c' p0 t Hc'), (sr_sleep0 c' p0 t Hc'), (sr_dead0 c' p0 t Hc').
    unfold near in *. destruct (w t); naive_solver. }
  split.
  - intros c' p0 u [[-> ->]|[Hne Hc']]%(cpus_put s c p' p c' p0 Hc).
    + simpl. rewrite Hq. unfold moved_to. case_decide; [done|]. by apply sr_queue0.
    + unfold moved_to. case_decide; [subst u|by apply sr_queue0]. split; [by intros ?%(proj1 (Hfar c' p0 Hc' Hne))|].
      intros ->. unfold near in Hx. done.
  - intros c' p0 u [[-> ->]|[Hne Hc']]%(cpus_put s c p' p c' p0 Hc).
    + simpl. rewrite Hs. unfold moved_to. case_decide; [done|]. by apply sr_sleep0.
    + unfold moved_to. case_decide; [subst u|by apply sr_sleep0]. split; [by intros ?%(proj1 (proj2 (Hfar c' p0 Hc' Hne)))|].
      intros ->. unfold near in Hx. done.
  - intros c' p0 u [[-> ->]|[Hne Hc']]%(cpus_put s c p' p c' p0 Hc).
    + simpl. rewrite Hd. unfold moved_to. case_decide; [done|]. by apply sr_dead0.
    + unfold moved_to. case_decide; [subst u|by apply sr_dead0]. split; [by intros ?%(proj2 (proj2 (Hfar c' p0 Hc' Hne)))|].
      intros ->. unfold near in Hx. done.
  - intros c' p0 [[-> ->]|[_ ?]]%(cpus_put s c p' p c' p0 Hc); [done|by eapply sr_nodup0].
  - intros c' p0 [[-> ->]|[_ ?]]%(cpus_put s c p' p c' p0 Hc); [done|by eapply sr_ordered0].
  - intros c' p0 [[-> ->]|[_ ?]]%(cpus_put s c p' p c' p0 Hc); [done|by eapply sr_asleep0].
  - intros u th Hu. destruct (sr_thread0 u th Hu) as [Hp Hok]. split; [done|]. intros Hn. specialize (Hok Hn).
    assert (u ≠ t) by (by intros ->). unfold thread_ok in *. rewrite moved_other by done.
    assert (∀ c' P, (∃ q0, cpus s !! c' = Some q0 ∧ P (ints q0) (idle_thread q0)) →
              ∃ q0, cpus (put_cpu c p' s) !! c' = Some q0 ∧ P (ints q0) (idle_thread q0)) as Hput.
    { intros c' P (q0 & Hq0 & ?). destruct (decide (c' = c)) as [->|].
      - exists p'. rewrite (put_same_cpu s c p' p Hc). simplify_eq. done.
      - exists q0. by rewrite put_other_cpu. }
    destruct (w u) as [|c'|c'|c'|c'|c'] eqn:E; try done.
    + destruct Hok as [[?|[? ?%Hrp]] ?]; auto.
    + rewrite Hon'. destruct Hok as [(? & ? & [?|?%Hrp])|?]; auto.
    + rewrite Hon'. destruct Hok as [? [?|[? [[? Hq0]|[? ?]]]]]; (split; [done|]); [by left|right..]; (split; [done|]); [left|right; auto].
      split; [done|]. by apply (Hput c' (λ a _, a = false)).
    + destruct Hok as (? & ? & Hq0). split_and!; [done..|]. by apply (Hput c' (λ _ b, b = Some u)).
  - intros u Hu. simpl. apply sr_place0. unfold moved_to in Hu. case_decide; [subst; by right|done].
  - intros c' p0 u HC [[-> ->]|[Hne Hc']]%(cpus_put s c p' p c' p0 Hc) Hu.
    + simpl in Hu. rewrite moved_other; [by eapply sr_running0|]. intros ->. destruct Hrun; congruence.
    + rewrite moved_other; [by eapply sr_running0|]. intros ->.
      destruct (sr_running0 c' p0 t HC Hc' Hu) as [E|[E|E]]; [by apply (Hon c' HC)| |]; rewrite E in Hw; unfold near in Hw; congruence.
  - intros c' p0 u [[-> ->]|[_ Hc']]%(cpus_put s c p' p c' p0 Hc) Hu.
    + rewrite moved_other; [by eapply (sr_idle0 c p)|]. intros ->. simpl in Hu. rewrite (sr_idle0 c p t Hc Hu) in Hw. done.
    + rewrite moved_other; [by eapply sr_idle0|]. intros ->. rewrite (sr_idle0 c' p0 t Hc' Hu) in Hw. done.
  - intros c' p0 u [[-> ->]|[_ Hc']]%(cpus_put s c p' p c' p0 Hc) Hu.
    + destruct (sr_reaper0 c p u Hc Hu) as (th & ? & ? & ? & ?). exists th. split_and!; [done..|]. unfold moved_to.
      case_decide; [|done]. by destruct x.
    + destruct (sr_reaper0 c' p0 u Hc' Hu) as (th & ? & ? & ? & ?). exists th. split_and!; [done..|]. unfold moved_to.
      case_decide; [|done]. by destruct x.
  - intros u c'. unfold moved_to. case_decide; [subst u|apply sr_home0]. destruct x; simpl in *; congruence || done.
  - intros c' p0 Hc' Hin. apply (cpus_put s c p' p c' p0 Hc) in Hc' as [[-> ->]|[_ Hc']];
      [exact (sr_started0 c p Hc Hin)|exact (sr_started0 c' p0 Hc' Hin)].
  - intros c' p0 [[-> ->]|[_ ?]]%(cpus_put s c p' p c' p0 Hc); [|by eapply sr_cpu0]. simpl. by eapply sr_cpu0.
  - intros u c'. unfold moved_to. intros Hu. apply put_some_cpu. case_decide; [subst u|by apply (sr_there0 u)].
    destruct x; simpl in *; try done; subst; by eexists.
Qed.

(** * The handler takes a processor over and gives it back *)
Lemma on_cpu_some s c c' t : on_cpu (Some c) s c' t ↔ c' ≠ c ∧ on_cpu None s c' t.
Proof.
  unfold on_cpu. split; [intros [Hn Hp]; split; [congruence|done]|].
  intros [Hn [_ Hp]]. split; [congruence|done].
Qed.
Lemma on_cpu_running s c p t : cpus s !! c = Some p → on_cpu None s c t ↔ running_thread p = Some t.
Proof. intros Hc. unfold on_cpu. rewrite Hc. split; [intros [_ (? & [= <-] & ?)]; done|eauto]. Qed.

Lemma rep_stop w hm s c p : sched_rep w hm [] None s → cpus s !! c = Some p →
  sched_rep w hm (option_list (running_thread p)) (Some c) s.
Proof.
  intros Hr Hc. pose proof Hr as []. split; try done.
  - intros t th Ht. destruct (sr_thread0 t th Ht) as [Hp Hok]. split; [done|]. intros Hn.
    specialize (Hok ltac:(set_solver)). assert (running_thread p ≠ Some t) as Hnt.
    { intros E. rewrite E in Hn. simpl in Hn. set_solver. }
    assert (∀ c', on_cpu (Some c) s c' t ↔ on_cpu None s c' t) as Hon.
    { intros c'. rewrite on_cpu_some. split; [naive_solver|]. intros Ht'. split; [|done].
      intros ->. by apply (on_cpu_running s c p t Hc) in Ht'. }
    unfold thread_ok in *. destruct (w t); rewrite ?Hon; done.
  - intros t [?|Ht]; [apply sr_place0; by left|]. destruct (running_thread p) as [cur|] eqn:E; [|set_solver].
    simpl in Ht. apply list_elem_of_singleton in Ht as ->. apply sr_place0. left.
    destruct (sr_running0 c p cur ltac:(done) Hc E) as [->|[->| ->]]; done.
  - intros c' p' t _ Hc' Hrt. by apply (sr_running0 c' p').
  - intros c' p' Hc'. destruct (sr_cpu0 c' p' Hc') as [? Hs]. split; [done|]. intros _. by apply Hs.
Qed.

Lemma rep_resume w hm s c p t : sched_rep w hm [t] (Some c) s → cpus s !! c = Some p →
  running_thread p = Some t → in_scheduler p = false → w t = OnCpu c ∨ w t = InSleep c ∨ w t = Idle c →
  (∀ th, threads s !! t = Some th → thread_ok w None s t th) → sched_rep w hm [] None s.
Proof.
  intros Hr Hc Hrun Hin Hw Ht. pose proof Hr as []. split; try done.
  - intros u th Hu. destruct (sr_thread0 u th Hu) as [Hp Hok]. split; [done|]. intros _.
    destruct (decide (u = t)) as [->|Hut]; [by apply Ht|]. specialize (Hok ltac:(set_solver)).
    assert (∀ c', on_cpu None s c' u ↔ on_cpu (Some c) s c' u) as Hon.
    { intros c'. rewrite on_cpu_some. split; [|naive_solver]. intros Hu'. split; [|done]. intros ->.
      apply (on_cpu_running s c p u Hc) in Hu'. congruence. }
    unfold thread_ok in *. destruct (w u); rewrite ?Hon; done.
  - intros u [?|Hu]; [apply sr_place0; by left|set_solver].
  - intros c' p' u _ Hc' Hu. destruct (decide (c' = c)) as [->|].
    + assert (u = t) as -> by congruence. done.
    + apply (sr_running0 c' p'); [congruence|done..].
  - intros c' p' Hc'. destruct (sr_cpu0 c' p' Hc') as [? Hs]. split; [done|]. intros _.
    destruct (decide (c' = c)) as [->|]; [congruence|]. apply Hs. congruence.
Qed.

(** While the handler runs no thread is on the processor. *)
Lemma handler_alone w hm X c s t th : sched_rep w hm X (Some c) s → w t = OnCpu c → t ∉ X →
  threads s !! t = Some th → False.
Proof.
  intros Hr Hw Hn Ht. destruct (sr_thread _ _ _ _ _ Hr t th Ht) as [_ Hok]. specialize (Hok Hn).
  unfold thread_ok in Hok. rewrite Hw in Hok. destruct Hok as [[Hc _] _]. congruence.
Qed.
Lemma rep_handler w hm X s c p p' : sched_rep w hm X (Some c) s → cpus s !! c = Some p →
  queue p' = queue p → sleep_queue p' = sleep_queue p → dead_threads p' = dead_threads p →
  idle_thread p' = idle_thread p → reaper_thread p' = reaper_thread p → preemption p' = preemption p →
  sched_rep w hm X (Some c) (put_cpu c p' s).
Proof.
  intros Hr Hc Hq Hs Hd Hi Hrt Hpre. apply (rep_cpu w hm X (Some c) s c p p' Hr Hc); try done.
  - by left.
  - rewrite Hpre. by apply (sr_cpu _ _ _ _ _ Hr c p).
  - intros t th Hw Hn Ht. by destruct (handler_alone w hm X c s t th Hr Hw Hn Ht).
Qed.
(** The handler has a thread in its hands that is in no list. *)
Lemma rep_take w hm X s c p t x : sched_rep w hm X (Some c) s → cpus s !! c = Some p → t ∈ X →
  w t = Nowhere ∨ w t = OnCpu c → x = Nowhere ∨ x = OnCpu c → hm t = c →
  sched_rep (moved_to w t x) hm X (Some c) s.
Proof.
  intros Hr Hc Ht Hw Hx Hhm.
  destruct (sr_nodup _ _ _ _ _ Hr c p Hc) as (N1 & N2 & N3).
  pose proof (sr_ordered _ _ _ _ _ Hr c p Hc) as O1. pose proof (sr_asleep _ _ _ _ _ Hr c p Hc) as O2.
  assert (put_cpu c (set_queues (queue p) (sleep_queue p) (dead_threads p) p) s = s) as E.
  { unfold put_cpu, put_cpus. destruct p, s; simpl in *. by rewrite list_insert_id. }
  rewrite <-E. apply (rep_move w hm X (Some c) s c p t); try done.
  - by left.
  - destruct Hw as [->| ->]; done.
  - destruct Hx as [->| ->]; done.
  - intros c' Hc'. destruct Hw as [->| ->]; congruence.
  - intros u. case_decide; [subst u|done]. rewrite (sr_queue _ _ _ _ _ Hr c p t Hc). destruct Hw, Hx; split; congruence.
  - intros u. case_decide; [subst u|done]. rewrite (sr_sleep _ _ _ _ _ Hr c p t Hc). destruct Hw, Hx; split; congruence.
  - intros u. case_decide; [subst u|done]. rewrite (sr_dead _ _ _ _ _ Hr c p t Hc). destruct Hw, Hx; split; congruence.
Qed.

(** * Changes outside of the queues *)
Lemma rep_tables w hm X C s x : sched_rep w hm X C s →
  (∀ i pr, ptab (tables s) !! i = Some pr → is_Some (vspace pr) → ∃ pr', ptab x !! i = Some pr' ∧ is_Some (vspace pr')) →
  sched_rep w hm X C (put_tables x s).
Proof.
  intros [] Hx. split; try done. intros t th Ht. destruct (sr_thread0 t th Ht) as [(pr & Hpr & Hv) Hok]. split; [|done].
  by apply (Hx _ pr).
Qed.
Lemma rep_memory w hm X C s m : sched_rep w hm X C s → sched_rep w hm X C (put_memory m s).
Proof. by intros []. Qed.
Lemma rep_heap w hm X C s h : sched_rep w hm X C s → sched_rep w hm X C (put_heap h s).
Proof. by intros []. Qed.

(** A new thread, in no queue yet. *)
Lemma unknown_nowhere w hm X C s t : sched_rep w hm X C s → threads s !! t = None → w t = Nowhere ∧ t ∉ X.
Proof.
  intros Hr Ht. split.
  - destruct (decide (w t = Nowhere)); [done|]. destruct (sr_place _ _ _ _ _ Hr t) as [? ?]; [by left|congruence].
  - intros HX. destruct (sr_place _ _ _ _ _ Hr t) as [? ?]; [by right|congruence].
Qed.
Lemma rep_new w hm X C s t th : sched_rep w hm X C s → threads s !! t = None → parent_ok s th →
  state th = NotReady → sleep_lock (slp th) = false → sched_rep w hm X C (put_thread t th s).
Proof.
  intros Hr Ht Hp Hst Hlk. destruct (unknown_nowhere w hm X C s t Hr Ht) as [Hw HX]. pose proof Hr as [].
  assert (∀ c p u, cpus s !! c = Some p → u ∈ queue p ∨ u ∈ sleep_queue p → u ≠ t) as Hother.
  { intros c p u Hc Hu ->. rewrite (sr_queue0 c p t Hc), (sr_sleep0 c p t Hc), Hw in Hu. by destruct Hu. }
  split; try done.
  - intros c p Hc. apply (ordered_ext (run_before s)); [|by eapply sr_ordered0]. intros a b Ha Hb.
    unfold run_before, vruntime_of. simpl. by rewrite !lookup_insert_ne by (apply not_eq_sym; eapply Hother; eauto).
  - intros c p Hc. apply (ordered_ext (wake_before s)); [|by eapply sr_asleep0]. intros a b Ha Hb.
    unfold wake_before, until_of. simpl. by rewrite !lookup_insert_ne by (apply not_eq_sym; eapply Hother; eauto).
  - intros u thu. simpl. intros [[<- <-]|[Hne Hu]]%lookup_insert_Some; [|by apply sr_thread0].
    split; [done|]. intros _. unfold thread_ok. rewrite Hw. split; [by left|done].
  - intros u Hu. simpl. rewrite lookup_insert_is_Some'. right. by apply sr_place0.
  - intros c p u Hc Hu. destruct (sr_reaper0 c p u Hc Hu) as (thr & ? & ?). exists thr. simpl.
    rewrite lookup_insert_ne; [done|]. congruence.
Qed.

(** A thread that is gone. *)
Lemma rep_delete w hm X C s t th : sched_rep w hm (t :: X) C s → threads s !! t = Some th → w t = Nowhere → t ∉ X →
  state th = Killed → sched_rep w hm X C (put_threads (delete t (threads s)) s).
Proof.
  intros Hr Ht Hw HX Hk. pose proof Hr as [].
  assert (∀ c p u, cpus s !! c = Some p → u ∈ queue p ∨ u ∈ sleep_queue p → u ≠ t) as Hother.
  { intros c p u Hc Hu ->. rewrite (sr_queue0 c p t Hc), (sr_sleep0 c p t Hc), Hw in Hu. by destruct Hu. }
  split; try done.
  - intros c p Hc. apply (ordered_ext (run_before s)); [|by eapply sr_ordered0]. intros a b Ha Hb.
    unfold run_before, vruntime_of. simpl. by rewrite !lookup_delete_ne by (apply not_eq_sym; eapply Hother; eauto).
  - intros c p Hc. apply (ordered_ext (wake_before s)); [|by eapply sr_asleep0]. intros a b Ha Hb.
    unfold wake_before, until_of. simpl. by rewrite !lookup_delete_ne by (apply not_eq_sym; eapply Hother; eauto).
  - intros u thu. simpl. intros [Hne Hu]%lookup_delete_Some. destruct (sr_thread0 u thu Hu) as [? Hok].
    split; [done|]. intros Hn. apply Hok. set_solver.
  - intros u Hu. simpl. rewrite lookup_delete_ne; [|intros ->; destruct Hu; done].
    apply sr_place0. destruct Hu; [by left|right; set_solver].
  - intros c p u Hc Hu. destruct (sr_reaper0 c p u Hc Hu) as (thr & ? & ? & ?). exists thr. simpl.
    rewrite lookup_delete_ne; [done|]. intros ->. congruence.
Qed.

(** A thread that is nowhere and serves no processor is given to processor [c]. *)
Lemma rep_adopt w hm X C s t c : sched_rep w hm X C s → w t = Nowhere →
  (∀ c p, cpus s !! c = Some p → reaper_thread p ≠ Some t) →
  sched_rep w (λ u, if decide (u = t) then c else hm u) X C s.
Proof.
  intros [] Hw Hrt. split; try done.
  - intros c' p u Hc Hu. case_decide; [subst; by destruct (Hrt c' p Hc)|by eapply sr_reaper0].
  - intros u c'. case_decide; [subst; by rewrite Hw|apply sr_home0].
Qed.
End inv.
