(* ===== verification/SchedSpec.v ===== *)
(** The operations of the scheduler keep its invariant. *)

From Stdlib Require Import Sorting.Sorted.
From S2P Require Import Prelude Math Pmm PmmBlocks Frames Pagemap PagemapTree PagemapSpec Objects Vmm Vfs Process Sched SchedInv.

Section spec.
Context {St PM H : Type} `{FrameAllocator St, PageMapOps PM, KernelHeap H}.
Implicit Types s : sched St PM H.

(** * Queues *)

(** A thread in the hands of processor [c] is in no list. *)
Definition held (w : Z → loc) (C : option nat) (c : nat) (t : Z) : Prop :=
  w t = Nowhere ∨ (C = Some c ∧ w t = OnCpu c).
Lemma held_near w C c t : held w C c t → near c (w t) ∧ ∀ c', C ≠ Some c' → w t ≠ OnCpu c'.
Proof. intros [->|[-> ->]]; simpl; split; congruence || done. Qed.
Lemma held_unlisted w hm X C s c p t : sched_rep w hm X C s → cpus s !! c = Some p → held w C c t →
  (t ∉ queue p) ∧ (t ∉ sleep_queue p) ∧ (t ∉ dead_threads p).
Proof.
  intros Hr Hc Hw. rewrite (sr_queue _ _ _ _ _ Hr c p t Hc), (sr_sleep _ _ _ _ _ Hr c p t Hc), (sr_dead _ _ _ _ _ Hr c p t Hc).
  destruct Hw as [->|[_ ->]]; split_and!; discriminate.
Qed.

(** Which list the thread is added to. *)
Definition enlist (s : sched St PM H) (x : loc) (t : Z) (p : percpu) : percpu :=
  match x with
  | InQueue _ => set_queue (rb_insert (run_before s) t (queue p)) p
  | InSleep _ => set_sleepers (rb_insert (wake_before s) t (sleep_queue p)) p
  | InDead _ => set_dead (dead_threads p ++ [t]) p
  | _ => p
  end.
Definition listed (c : nat) (x : loc) : Prop := x = InQueue c ∨ x = InSleep c ∨ x = InDead c.

Lemma enlist_spec w hm X C s c p t x : sched_rep w hm X C s → cpus s !! c = Some p → t ∈ X →
  C = Some c ∨ running_thread p ≠ Some t → held w C c t → hm t = c → listed c x →
  sched_rep (moved_to w t x) hm X C (put_cpu c (enlist s x t p) s).
Proof.
  intros Hr Hc Ht Hrun Hw Hhm Hx. destruct (held_near w C c t Hw) as [Hn1 Hn2].
  destruct (held_unlisted w hm X C s c p t Hr Hc Hw) as (Hq & Hs & Hd).
  destruct (sr_nodup _ _ _ _ _ Hr c p Hc) as (N1 & N2 & N3).
  pose proof (sr_ordered _ _ _ _ _ Hr c p Hc) as O1. pose proof (sr_asleep _ _ _ _ _ Hr c p Hc) as O2.
  pose proof (run_weak s) as W1. pose proof (wake_weak s) as W2.
  assert (∀ (l : list Z) u (Q : Prop), ¬ Q → t ∉ l → u ∈ l ↔ (if decide (u = t) then Q else u ∈ l)) as Hsame.
  { intros l u Q HQ Hl. case_decide; [subst u|done]. by split. }
  destruct Hx as [->|[->| ->]].
  all: apply (rep_move w hm X C s c p t); try done; try (intros u; by apply Hsame).
  - intros u. rewrite rb_insert_elem. case_decide; [by split; auto|naive_solver].
  - by apply rb_insert_NoDup.
  - by apply rb_insert_ordered.
  - intros u. rewrite rb_insert_elem. case_decide; [by split; auto|naive_solver].
  - by apply rb_insert_NoDup.
  - by apply rb_insert_ordered.
  - intros u. rewrite elem_of_app, list_elem_of_singleton. case_decide; [by split; auto|naive_solver].
  - apply NoDup_app. split; [done|]. split; [set_solver|]. apply NoDup_singleton.
Qed.

(** A thread leaves the list it is in. *)
Definition unlist (x : loc) (t : Z) (p : percpu) : percpu :=
  let rem l := filter (λ y, y ≠ t) l in
  match x with
  | InQueue _ => set_queue (rem (queue p)) p
  | InSleep _ => set_sleepers (rem (sleep_queue p)) p
  | InDead _ => set_dead (rem (dead_threads p)) p
  | _ => p
  end.
Lemma unlist_spec w hm X C s c p t : sched_rep w hm X C s → cpus s !! c = Some p → t ∈ X →
  C = Some c ∨ running_thread p ≠ Some t → listed c (w t) →
  sched_rep (moved_to w t Nowhere) hm X C (put_cpu c (unlist (w t) t p) s).
Proof.
  intros Hr Hc Ht Hrun Hw. assert (hm t = c) as Hhm.
  { apply (sr_home _ _ _ _ _ Hr). destruct Hw as [->|[->| ->]]; done. }
  destruct (sr_nodup _ _ _ _ _ Hr c p Hc) as (N1 & N2 & N3).
  pose proof (sr_ordered _ _ _ _ _ Hr c p Hc) as O1. pose proof (sr_asleep _ _ _ _ _ Hr c p Hc) as O2.
  pose proof (sr_queue _ _ _ _ _ Hr c p t Hc) as E1. pose proof (sr_sleep _ _ _ _ _ Hr c p t Hc) as E2.
  pose proof (sr_dead _ _ _ _ _ Hr c p t Hc) as E3.
  assert (∀ (l : list Z) u (Q : Prop), ¬ Q → t ∉ l → u ∈ l ↔ (if decide (u = t) then Q else u ∈ l)) as Hsame.
  { intros l u Q HQ Hl. case_decide; [subst u|done]. by split. }
  assert (∀ (l : list Z) u (Q : Prop), ¬ Q → u ∈ filter (λ y, y ≠ t) l ↔ (if decide (u = t) then Q else u ∈ l)) as Hrem.
  { intros l u Q HQ. rewrite list_elem_of_filter. case_decide; [subst u|]; naive_solver. }
  destruct Hw as [E|[E|E]]; rewrite E in *.
  all: apply (rep_move w hm X C s c p t); rewrite ?E; try done; try (intros u; apply Hsame; [done|by rewrite ?E1, ?E2, ?E3]).
  all: first [by intros u; apply Hrem|by apply NoDup_filter|by apply filter_ordered].
Qed.

Lemma queue_remove_spec w hm X C s c p t : sched_rep w hm X C s → cpus s !! c = Some p → t ∈ X →
  C = Some c ∨ running_thread p ≠ Some t → w t = InQueue c →
  queue_remove c t s = Done (put_cpu c (unlist (InQueue c) t p) s) ∧
  sched_rep (moved_to w t Nowhere) hm X C (put_cpu c (unlist (InQueue c) t p) s).
Proof.
  intros Hr Hc Ht Hrun Hw. split.
  - unfold queue_remove, get_cpu. rewrite Hc. cbn [deref mbind outcome_bind].
    by rewrite rb_remove_spec by by apply (sr_queue _ _ _ _ _ Hr c p t Hc).
  - rewrite <-Hw. apply (unlist_spec w hm X C s c p t); try done. by left.
Qed.
Lemma sleep_remove_spec w hm X C s c p t : sched_rep w hm X C s → cpus s !! c = Some p → t ∈ X →
  C = Some c ∨ running_thread p ≠ Some t → w t = InSleep c →
  sleep_remove c t s = Done (put_cpu c (unlist (InSleep c) t p) s) ∧
  sched_rep (moved_to w t Nowhere) hm X C (put_cpu c (unlist (InSleep c) t p) s).
Proof.
  intros Hr Hc Ht Hrun Hw. split.
  - unfold sleep_remove, get_cpu. rewrite Hc. cbn [deref mbind outcome_bind].
    by rewrite rb_remove_spec by by apply (sr_sleep _ _ _ _ _ Hr c p t Hc).
  - rewrite <-Hw. apply (unlist_spec w hm X C s c p t); try done. right. by left.
Qed.

Lemma filter_head (t : Z) l : NoDup (t :: l) → filter (λ y, y ≠ t) (t :: l) = l.
Proof.
  intros [Ht Hl]%NoDup_cons. rewrite filter_cons, decide_False by naive_solver. clear Hl.
  induction l as [|x l IH]; [done|]. apply not_elem_of_cons in Ht as [Hx Ht].
  rewrite filter_cons, decide_True by done. by rewrite IH.
Qed.

Lemma put_cpu_id s c p : cpus s !! c = Some p → put_cpu c p s = s.
Proof. intros. unfold put_cpu, put_cpus. rewrite list_insert_id by done. by destruct s. Qed.
Lemma put_cpu_put s c p q : put_cpu c p (put_cpu c q s) = put_cpu c p s.
Proof. unfold put_cpu, put_cpus. simpl. by rewrite list_insert_insert_eq. Qed.
Lemma set_queues_id p : set_queues (queue p) (sleep_queue p) (dead_threads p) p = p.
Proof. by destruct p. Qed.

Lemma dead_push_eq s c p t : cpus s !! c = Some p → dead_push c t s = Done (put_cpu c (enlist s (InDead c) t p) s).
Proof. intros Hc. unfold dead_push, upd_cpu, get_cpu. by rewrite Hc. Qed.

(** The choice of [pick_loop]: [k] are the killed threads in front of the first that is ready. *)
Lemma pick_loop_spec c l : ∀ s w hm p X fd, sched_rep w hm X (Some c) s → cpus s !! c = Some p → queue p = l →
  (∀ u, u ∈ X → w u ≠ InQueue c) →
  ∃ k next q w', l = k ++ option_list next ++ q ∧ (next = None → q = []) ∧
    let p' := set_queues q (sleep_queue p) (dead_threads p ++ k) p in
    pick_loop c l fd s = Done (next, fd || negb (bool_decide (k = [])), put_cpu c p' s) ∧
    sched_rep w' hm (option_list next ++ X) (Some c) (put_cpu c p' s) ∧
    (∀ u, w u ≠ InQueue c → w' u = w u) ∧
    ∀ t, next = Some t → w t = InQueue c ∧ w' t = Nowhere ∧
      ∃ th, threads s !! t = Some th ∧ state th = Ready ∧ sleep_lock (slp th) = false.
Proof.
  induction l as [|t l IH]; intros s w hm p X fd Hr Hc Hl HX; cbn [pick_loop].
  { exists [], None, [], w. simpl. split_and!; [done..| | |done|done].
    all: rewrite ?orb_false_r, app_nil_r, <-Hl, set_queues_id, put_cpu_id; done. }
  assert (w t = InQueue c) as Hwt by (apply (sr_queue _ _ _ _ _ Hr c p t Hc); rewrite Hl; by left).
  destruct (sr_place _ _ _ _ _ Hr t) as [th Hth]; [left; by rewrite Hwt|].
  assert (t ∉ X) as HtX by (intros ?; by apply (HX t)).
  destruct (sr_thread _ _ _ _ _ Hr t th Hth) as [_ Hok]. specialize (Hok HtX). unfold thread_ok in Hok. rewrite Hwt in Hok.
  assert (sched_rep w hm (t :: X) (Some c) s) as Hr1.
  { apply (rep_exempt w hm X); [done|set_solver|]. intros u [->|Hu]%elem_of_cons; [eauto|].
    apply (sr_place _ _ _ _ _ Hr). by right. }
  destruct (queue_remove_spec w hm (t :: X) (Some c) s c p t Hr1 Hc) as [Erm Hr2]; [by left|by left|done|].
  destruct (sr_nodup _ _ _ _ _ Hr c p Hc) as (Nq & _). rewrite Hl in Nq.
  assert (unlist (InQueue c) t p = set_queue l p) as Eun.
  { unfold unlist. by rewrite Hl, filter_head. }
  rewrite Eun in *. unfold get_thread. rewrite Hth. cbn [deref mbind outcome_bind].
  destruct Hok as [[Hst|Hst] Hlk]; rewrite Hst.
  - rewrite Erm. cbn [mbind outcome_bind]. exists [], (Some t), l, (moved_to w t Nowhere). simpl.
    rewrite app_nil_r, orb_false_r. split_and!; [done..| |].
    { intros u Hu. rewrite moved_other; [done|]. by intros ->. }
    intros ? [= <-]. rewrite moved_same. split_and!; [done..|eauto].
  - rewrite Erm. cbn [mbind outcome_bind]. set (p1 := set_queue l p) in *. set (s1 := put_cpu c p1 s) in *.
    assert (cpus s1 !! c = Some p1) as Hc1 by by apply (put_same_cpu s c p1 p).
    assert (held (moved_to w t Nowhere) (Some c) c t) as Hheld by (left; apply moved_same).
    assert (hm t = c) as Hhm by (apply (sr_home _ _ _ _ _ Hr); by rewrite Hwt).
    pose proof (enlist_spec _ hm _ _ s1 c p1 t (InDead c) Hr2 Hc1 ltac:(by left) ltac:(by left) Hheld Hhm
                  ltac:(by right; right)) as Hr3.
    set (w3 := moved_to _ t (InDead c)) in *. set (p3 := enlist s1 (InDead c) t p1) in *.
    assert (dead_push c t s1 = Done (put_cpu c p3 s1)) as ->.
    { by apply dead_push_eq. }
    cbn [mbind outcome_bind].
    assert (cpus (put_cpu c p3 s1) !! c = Some p3) as Hc3 by by apply (put_same_cpu s1 c p3 p1).
    assert (∀ u, w u ≠ InQueue c → w3 u = w u) as Hw3.
    { intros u Hu. unfold w3. rewrite !moved_other; [done|..]; by intros ->. }
    destruct (IH (put_cpu c p3 s1) w3 hm p3 X true) as (k & next & q & w' & El & Hn & Epk & Hr' & Hw' & Hnext).
    + apply (rep_settle _ _ _ _ _ t); [done|]. intros th1. simpl. intros Hth1. simplify_eq.
      unfold thread_ok, w3. by rewrite moved_same.
    + done.
    + done.
    + intros u Hu. by rewrite Hw3; [apply HX|apply HX].
    + exists (t :: k), next, q, w'. simpl. split; [by rewrite El|]. split; [done|].
      change (dead_threads p3) with (dead_threads p ++ [t]) in *. rewrite <-app_assoc in *. simpl in *.
      unfold s1 at 2 in Epk. unfold s1 in Hr'. rewrite !put_cpu_put in Epk, Hr'.
      rewrite Epk. split; [by destruct fd|]. split; [done|]. split.
      * intros u Hu. by rewrite Hw', Hw3 by by rewrite ?Hw3.
      * intros u Hu. destruct (Hnext u Hu) as (E1 & E2 & E3). split_and!; [|done..].
        destruct (decide (u = t)) as [->|Hut]; [done|]. unfold w3 in E1. by rewrite !moved_other in E1 by done.
Qed.

(** * The handler *)

Lemma put_thread_put s t th th' : put_thread t th (put_thread t th' s) = put_thread t th s.
Proof. unfold put_thread, put_threads. simpl. by rewrite insert_insert_eq. Qed.
Lemma get_put_thread s t th : get_thread t (put_thread t th s) = Done th.
Proof. unfold get_thread. simpl. by rewrite lookup_insert_eq. Qed.
Lemma upd_thread_eq s t f th : threads s !! t = Some th → upd_thread t f s = Done (put_thread t (f th) s).
Proof. intros Ht. unfold upd_thread, get_thread. by rewrite Ht. Qed.
Lemma upd_put_thread s t f th : upd_thread t f (put_thread t th s) = Done (put_thread t (f th) s).
Proof. rewrite (upd_thread_eq _ _ _ th); [by rewrite put_thread_put|]. apply lookup_insert_eq. Qed.
Lemma save_eq s c p t r th : cpus s !! c = Some p → threads s !! t = Some th →
  save c t r s = Done (put_thread t (set_ctx (save_ctx (hw p) r th) th) s).
Proof. intros Hc Ht. unfold save, get_cpu. rewrite Hc. cbn [deref mbind outcome_bind]. by rewrite (upd_thread_eq _ _ _ th). Qed.

(** Threads in the hands of the handler may change as long as their process, and the queue
    keys of those that still are in a queue, do not. *)
Lemma rep_edit w hm X C s t th th' : sched_rep w hm X C s → threads s !! t = Some th → t ∈ X →
  parent th' = parent th → (∀ c, w t ≠ InQueue c) → (∀ c, w t = InSleep c → sleep_until (slp th') = sleep_until (slp th)) →
  (state th' = Killed → state th = Killed) → sched_rep w hm X C (put_thread t th' s).
Proof.
  intros Hr Ht HX Hp Hq Hs Hk. apply (rep_thread w hm X C s t th th' Hr Ht Hp); try done.
  - intros c E. by destruct (Hq c).
  - intros Hk'. left. by apply Hk.
Qed.

(** The thread to run next, out of all queues. *)
Definition in_hand (w : Z → loc) (hm : Z → nat) (c : nat) (rt : option Z) s (next : option Z) : Prop :=
  ∀ t, next = Some t → w t = Nowhere ∧ hm t = c ∧
    ∃ th, threads s !! t = Some th ∧ (state th = Ready ∧ rt ≠ Some t ∨ state th = Running) ∧ sleep_lock (slp th) = false.
(** The thread that was interrupted. *)
Definition was_running (w : Z → loc) (hm : Z → nat) (c : nat) s (p : percpu) (cur : Z) (th : thread) : Prop :=
  threads s !! cur = Some th ∧ hm cur = c ∧
  ((idle_thread p = Some cur ∧ w cur = Idle c ∧ (state th = Ready ∨ state th = Running) ∧ sleep_lock (slp th) = false) ∨
   (idle_thread p ≠ Some cur ∧ w cur = OnCpu c ∧ (state th = Running ∨ state th = Killed) ∧ sleep_lock (slp th) = false) ∨
   (idle_thread p ≠ Some cur ∧ (w cur = InSleep c ∨ w cur = OnCpu c ∧ reaps s cur) ∧ state th = Sleeping)).

Lemma was_running_place w hm c s p cur th : was_running w hm c s p cur th → w cur ≠ InQueue c ∧ w cur ≠ Nowhere.
Proof. intros (_ & _ & [(_ & -> & _)|[(_ & -> & _)|(_ & [-> |[-> _]] & _)]]); done. Qed.

(** What the handler does not touch of its processor. *)
Definition same_cpu (p p' : percpu) : Prop :=
  running_thread p' = running_thread p ∧ idle_thread p' = idle_thread p ∧ reaper_thread p' = reaper_thread p ∧
  preemption p' = preemption p ∧ in_scheduler p' = in_scheduler p ∧ hw p' = hw p ∧ ints p' = ints p.

(** What a part of the handler leaves behind. *)
Definition handled (c : nat) (p : percpu) (hm : Z → nat) (next : option Z) s s' : Prop :=
  ∃ w' p', sched_rep w' hm (option_list next) (Some c) s' ∧ cpus s' !! c = Some p' ∧ same_cpu p p' ∧
    in_hand w' hm c (running_thread p) s' next ∧ tables s' = tables s.

Lemma rep_last w hm l t C s : sched_rep w hm (l ++ [t]) C s → sched_rep w hm (t :: l) C s.
Proof.
  intros Hr. apply (rep_exempt w hm (l ++ [t])); [done|set_solver|]. intros u Hu.
  apply (sr_place _ _ _ _ _ Hr). right. set_solver.
Qed.
Lemma in_hand_put w hm c rt s next t th : in_hand w hm c rt s next → next ≠ Some t → in_hand w hm c rt (put_thread t th s) next.
Proof.
  intros Hn Ht u E. destruct (Hn u E) as (? & ? & thu & ? & ?). split_and!; [done..|]. exists thu.
  simpl. rewrite lookup_insert_ne; [done|]. congruence.
Qed.
Lemma in_hand_other w w' hm c rt s next : in_hand w hm c rt s next → (∀ t, next = Some t → w' t = w t) → in_hand w' hm c rt s next.
Proof. intros Hn Hw t E. rewrite (Hw t E). by apply Hn. Qed.

(** The three ways in which a running thread is left: it sleeps, ... *)
Lemma leave_sleeping w hm c time r cur th next s p :
  sched_rep w hm (option_list next ++ [cur]) (Some c) s → cpus s !! c = Some p → in_hand w hm c (running_thread p) s next →
  threads s !! cur = Some th → w cur = InSleep c ∨ w cur = OnCpu c ∧ reaps s cur → hm cur = c → state th = Sleeping → next ≠ Some cur →
  ∃ s', leave_current Done c time r cur th next s = Done (next, s') ∧ handled c p hm next s s'.
Proof.
  intros Hr Hc Hnext Hth Hw Hhm Hst Hne. unfold leave_current. rewrite Hst.
  rewrite (bool_decide_false (Sleeping = Running)), andb_false_r, (bool_decide_true (Sleeping = Sleeping)) by done.
  cbn [andb negb]. rewrite (upd_thread_eq _ _ _ th Hth). cbn [mbind outcome_bind].
  rewrite upd_put_thread. cbn [mbind outcome_bind]. rewrite bool_decide_false by done.
  erewrite save_eq; [|exact Hc|apply lookup_insert_eq]. cbn [mbind outcome_bind]. rewrite !put_thread_put.
  rewrite get_put_thread. cbn [mbind outcome_bind]. set (th1 := set_ctx _ _).
  rewrite (bool_decide_true (state th1 = Sleeping)) by done. cbn [mbind outcome_bind].
  eexists. split; [reflexivity|]. apply rep_last in Hr.
  assert (sched_rep w hm (cur :: option_list next) (Some c) (put_thread cur th1 s)) as Hr1.
  { eapply rep_edit; [exact Hr|exact Hth|by left|done| |done|by intros]. intros c'. by destruct Hw as [->|[-> _]]. }
  destruct Hw as [Hw|[Hw Hrp]].
  - exists w, p. split; [|split; [done|split; [done|split; [by apply in_hand_put|done]]]].
    apply (rep_settle _ _ _ _ _ cur); [done|].
    intros th'. simpl. rewrite lookup_insert_eq. intros [= <-]. unfold thread_ok. rewrite Hw. right.
    simpl. split; [|split; [by right; left|done]]. by intros [? _]%on_cpu_some.
  - exists (moved_to w cur Nowhere), p. split; [|split; [done|split; [done|split; [|done]]]].
    + apply (rep_settle _ _ _ _ _ cur).
      * apply (rep_take w hm _ _ c p cur); [done|done|by left|by right|by left|done].
      * intros th'. simpl. rewrite lookup_insert_eq. intros [= <-]. unfold thread_ok. rewrite moved_same. split; [|done].
        right. split; [by right|done].
    + apply (in_hand_other w); [by apply in_hand_put|]. intros t ->. apply moved_other. congruence.
Qed.
(** ... it is the only one that is ready, ... *)
Lemma leave_staying w hm c time r cur th s p :
  sched_rep w hm [cur] (Some c) s → cpus s !! c = Some p →
  threads s !! cur = Some th → w cur = OnCpu c → hm cur = c → state th = Running → sleep_lock (slp th) = false →
  ∃ s', leave_current Done c time r cur th None s = Done (Some cur, s') ∧ handled c p hm (Some cur) s s'.
Proof.
  intros Hr Hc Hth Hw Hhm Hst Hlk. unfold leave_current. rewrite Hst.
  rewrite !bool_decide_true by done. cbn [andb negb mbind outcome_bind].
  rewrite (upd_thread_eq _ _ _ th Hth). cbn [mbind outcome_bind].
  eexists. split; [reflexivity|]. exists (moved_to w cur Nowhere), p. split.
  - apply (rep_take w hm [cur] _ c p cur); [|done|by left|by right|by left|done].
    eapply rep_edit; [exact Hr|exact Hth|by left|done|by rewrite Hw|by rewrite Hw|by intros].
  - split; [done|]. split; [done|]. split; [|done]. intros t [= <-]. rewrite moved_same. split_and!; [done..|].
    exists (charge time th). simpl. rewrite lookup_insert_eq. split_and!; [done|by right|done].
Qed.
(** ... or another thread is to run. *)
Lemma leave_preempted w hm c time r cur th t s p :
  sched_rep w hm [t; cur] (Some c) s → cpus s !! c = Some p → in_hand w hm c (running_thread p) s (Some t) →
  threads s !! cur = Some th → w cur = OnCpu c → hm cur = c → state th = Running → sleep_lock (slp th) = false →
  ∃ s', leave_current Done c time r cur th (Some t) s = Done (Some t, s') ∧ handled c p hm (Some t) s s'.
Proof.
  intros Hr Hc Hnext Hth Hw Hhm Hst Hlk. unfold leave_current. rewrite Hst.
  assert (t ≠ cur) as Hne. { intros ->. destruct (Hnext cur eq_refl) as (E & _). congruence. }
  rewrite (bool_decide_false (Some t = None)), (bool_decide_false (Running = Sleeping)) by done. cbn [andb negb mbind outcome_bind].
  rewrite (upd_thread_eq _ _ _ th Hth). cbn [mbind outcome_bind]. rewrite bool_decide_false by congruence.
  erewrite save_eq; [|exact Hc|apply lookup_insert_eq]. cbn [mbind outcome_bind]. rewrite !put_thread_put.
  set (th1 := set_ctx _ _). rewrite get_put_thread. cbn [mbind outcome_bind].
  rewrite (bool_decide_false (state th1 = Sleeping)) by (change (state th1) with (state th); congruence). unfold enqueue. rewrite get_put_thread. cbn [mbind outcome_bind].
  assert (state th1 = Running) as -> by done. rewrite put_thread_put. set (s1 := put_thread cur _ s).
  assert (sched_rep w hm [t; cur] (Some c) s1) as Hr1.
  { eapply rep_edit; [exact Hr|exact Hth|set_solver|done|by rewrite Hw|by rewrite Hw|done]. }
  unfold queue_insert, upd_cpu, get_cpu. change (cpus s1) with (cpus s). rewrite Hc. cbn [deref mbind outcome_bind].
  eexists. split; [reflexivity|]. exists (moved_to w cur (InQueue c)). eexists. split; [|split; [by apply (put_same_cpu s1 c _ p)|]].
  - apply (rep_settle _ _ _ _ _ cur).
    + apply (rep_last _ _ [t]). apply (enlist_spec w hm _ _ s1 c p cur (InQueue c)); try done; [set_solver|by left|by right|by left].
    + intros th'. simpl. rewrite lookup_insert_eq. intros [= <-]. unfold thread_ok. rewrite moved_same. split; [by left|done].
  - split; [done|]. split; [|done]. apply (in_hand_other w); [|intros u [= <-]; by apply moved_other].
    apply (in_hand_put w hm c _ s (Some t) cur); [done|congruence].
Qed.

Lemma leave_current_spec w hm c time r cur th next s p :
  sched_rep w hm (option_list next ++ [cur]) (Some c) s → cpus s !! c = Some p → in_hand w hm c (running_thread p) s next →
  was_running w hm c s p cur th → idle_thread p ≠ Some cur → state th ≠ Killed →
  ∃ s', let next' := (if bool_decide (next = None) && bool_decide (state th = Running) then Some cur else next) in
    leave_current Done c time r cur th next s = Done (next', s') ∧ handled c p hm next' s s'.
Proof.
  intros Hr Hc Hnext (Hcur & Hhm & [(? & _)|[(_ & Hw & Hst & Hlk)|(_ & Hw & Hst)]]) Hid Hnk; [done| |].
  - destruct Hst as [Hst|]; [|done]. rewrite Hst. destruct next as [t|].
    + by apply (leave_preempted w).
    + by apply (leave_staying w).
  - rewrite Hst, (bool_decide_false (Sleeping = Running)), andb_false_r by done. apply (leave_sleeping w); try done.
    intros ->. destruct (Hnext cur eq_refl) as (E & _). destruct Hw as [?|[? _]]; congruence.
Qed.

Lemma parent_of w hm X C s t th : sched_rep w hm X C s → threads s !! t = Some th →
  ∃ pr v, ptab (tables s) !! parent th = Some pr ∧ vspace pr = Some v.
Proof. intros Hr Ht. destruct (sr_thread _ _ _ _ _ Hr t th Ht) as [(pr & ? & v & ?) _]. eauto. Qed.

Lemma retire_spec w hm c time r next fd s p :
  sched_rep w hm (option_list next ++ option_list (running_thread p)) (Some c) s → cpus s !! c = Some p →
  in_hand w hm c (running_thread p) s next → (∀ cur, running_thread p = Some cur → ∃ th, was_running w hm c s p cur th) →
  ∃ next' prev fd' s', retire Done c time r next fd s = Done (next', prev, fd', s') ∧ handled c p hm next' s s' ∧
    next' = match next, running_thread p with
            | None, Some cur =>
                match threads s !! cur with
                | Some th => if bool_decide (state th = Running) && bool_decide (idle_thread p ≠ Some cur) then Some cur else None
                | None => None
                end
            | _, _ => next
            end.
Proof.
  intros Hr Hc Hnext Hcur. unfold retire, get_cpu. rewrite Hc. cbn [deref mbind outcome_bind].
  destruct (running_thread p) as [cur|] eqn:Erun; rewrite <-Erun in Hnext.
  2:{ rewrite app_nil_r in Hr. eexists _, _, _, _. split; [reflexivity|]. split; [by exists w, p|by destruct next]. }
  destruct (Hcur cur eq_refl) as (th & Hth & Hwas). assert (next ≠ Some cur) as Hne.
  { intros ->. destruct (Hnext cur eq_refl) as (E & _). by destruct (was_running_place _ _ _ _ _ _ _ (conj Hth Hwas)). }
  unfold get_thread. rewrite Hth. cbn [deref mbind outcome_bind].
  destruct (parent_of _ _ _ _ _ _ _ Hr Hth) as (pr & v & Hpr & Hv).
  destruct (decide (state th = Killed)) as [Hk|Hk].
  - rewrite bool_decide_true by done.
    assert (w cur = OnCpu c ∧ sleep_lock (slp th) = false) as [Hw Hlk].
    { destruct Hwas as (_ & [(_ & _ & [?|?] & _)|[(_ & ? & _ & ?)|(_ & _ & ?)]]); [congruence..|done|congruence]. }
    rewrite (dead_push_eq s c p cur Hc). cbn [mbind outcome_bind].
    eexists _, _, _, _. split; [reflexivity|]. split.
    + exists (moved_to w cur (InDead c)), (enlist s (InDead c) cur p).
      split; [|split; [by apply (put_same_cpu s c _ p)|]].
      * apply (rep_settle _ _ _ _ _ cur).
        -- apply rep_last. apply (enlist_spec w hm _ _ s c p cur (InDead c)); try done; [set_solver|by left|by right|apply Hwas|by right; right].
        -- intros th'. simpl. intros Hth'. simplify_eq. unfold thread_ok. by rewrite moved_same.
      * split; [done|]. split; [|done]. apply (in_hand_other w); [|intros u Hu; apply moved_other; congruence]. done.
    + destruct next; [done|]. rewrite Hk. done.
  - rewrite bool_decide_false by done. unfold get_process. rewrite Hpr. cbn [deref mbind outcome_bind].
    destruct (decide (idle_thread p = Some cur)) as [Hid|Hid].
    + rewrite bool_decide_true by done. rewrite (save_eq s c p cur r th Hc Hth). cbn [mbind outcome_bind].
      destruct Hwas as (Hhm & [(_ & Hw & Hst & Hlk)|[[? _]|[? _]]]); [|done..].
      eexists _, _, _, _. split; [reflexivity|]. split.
      * exists w, p. split; [|split; [done|split; [done|split; [by apply in_hand_put|done]]]].
        apply (rep_settle _ _ _ _ _ cur).
        -- eapply rep_edit; [by apply rep_last|exact Hth|by left|done|by rewrite Hw|by rewrite Hw|done].
        -- intros th'. simpl. rewrite lookup_insert_eq. intros [= <-]. unfold thread_ok. rewrite Hw.
           split; [done|]. split; [done|]. by exists p.
      * destruct next; [done|]. rewrite (bool_decide_false (idle_thread p ≠ Some cur)), andb_false_r by tauto. done.
    + rewrite bool_decide_false by done.
      destruct (leave_current_spec w hm c time r cur th next s p Hr Hc Hnext (conj Hth Hwas) Hid Hk) as (s' & -> & Hh).
      cbn [mbind outcome_bind]. eexists _, _, _, _. split; [reflexivity|]. split; [done|].
      destruct next; [done|]. rewrite (bool_decide_true (idle_thread p ≠ Some cur)), andb_true_r by done. by rewrite (bool_decide_true (None = None)).
Qed.

Lemma wake_reaper_spec w hm c next s p rt :
  sched_rep w hm (option_list next) (Some c) s → cpus s !! c = Some p → in_hand w hm c (running_thread p) s next → reaper_thread p = Some rt →
  ∃ s', wake_reaper c s = Done s' ∧ sched_rep w hm (option_list next) (Some c) s' ∧ cpus s' = cpus s ∧
    in_hand w hm c (running_thread p) s' next ∧ tables s' = tables s.
Proof.
  intros Hr Hc Hnext Hrt. unfold wake_reaper, get_cpu. rewrite Hc. cbn [deref mbind outcome_bind]. rewrite Hrt.
  destruct (sr_reaper _ _ _ _ _ Hr c p rt Hc Hrt) as (th & Hth & Hnk & Hhm & Hni).
  unfold get_thread. cbn [deref mbind outcome_bind]. rewrite Hth. cbn [deref mbind outcome_bind].
  eexists. split; [reflexivity|]. destruct (decide (state th = Sleeping)) as [Hst|Hst].
  2:{ by rewrite bool_decide_false. }
  rewrite bool_decide_true by done. cbn [andb]. case_match; [|done].
  assert (next ≠ Some rt) as Hne.
  { intros ->. destruct (Hnext rt eq_refl) as (_ & _ & th' & ? & [[? _]|?] & _); congruence. }
  split; [|split; [done|split; [by apply in_hand_put|done]]].
  apply (rep_thread w hm _ _ s rt th); try done. intros Hn.
  destruct (sr_thread _ _ _ _ _ Hr rt th Hth) as [_ Hok]. specialize (Hok Hn). unfold thread_ok in *.
  destruct (w rt) as [|c'|c'|c'|c'|c'] eqn:E.
  - destruct Hok as [[?|[_ ?]] ?]; [congruence|]. split; [|done]. right. split; [by left|done].
  - destruct Hok as [[?|?] _]; congruence.
  - assert (hm rt = c') by (apply (sr_home _ _ _ _ _ Hr); by rewrite E). subst c'. rewrite Hhm in *. right.
    assert (¬ on_cpu (Some c) s c rt) as Hnc by by intros [? _]%on_cpu_some.
    destruct Hok as [[? _]|(_ & _ & ?)]; [done|]. split; [done|]. split; [by left|done].
  - destruct Hok. congruence.
  - assert (hm rt = c') by (apply (sr_home _ _ _ _ _ Hr); by rewrite E). subst c'. rewrite Hhm in *.
    by destruct Hok as [[? _]%on_cpu_some _].
  - assert (hm rt = c') by (apply (sr_home _ _ _ _ _ Hr); by rewrite E). congruence.
Qed.

Lemma if_bind_done {A B} (b : bool) (x y : A) (f : A → outcome B) :
  ((if b then Done x else Done y) ≫= f) = f (if b then x else y).
Proof. by destruct b. Qed.

(** The thread that runs when the handler is done. *)
Definition chosen (w : Z → loc) (hm : Z → nat) (c : nat) (p : percpu) (t : Z) (th : thread) : Prop :=
  sleep_lock (slp th) = false ∧
  ((w t = Nowhere ∧ hm t = c ∧ state th = Running) ∨
   (w t = Idle c ∧ idle_thread p = Some t ∧ (state th = Ready ∨ state th = Running))).

Lemma settle_chosen w hm c s p t th : sched_rep w hm [t] (Some c) s → cpus s !! c = Some p →
  threads s !! t = Some th → chosen w hm c p t th → running_thread p = Some t →
  ∃ w', sched_rep w' hm [] None (put_cpu c (set_in_scheduler false (reschedule timeslice p)) s).
Proof.
  intros Hr Hc Hth [Hlk Hch] Hrun. set (p' := set_in_scheduler false _).
  assert (cpus (put_cpu c p' s) !! c = Some p') as Hc' by by apply (put_same_cpu s c p' p).
  assert (sched_rep w hm [t] (Some c) (put_cpu c p' s)) as Hr' by by apply (rep_handler w hm [t] s c p p').
  assert (on_cpu None (put_cpu c p' s) c t) as Hon by by apply (on_cpu_running _ c p').
  destruct Hch as [(Hw & Hhm & Hst)|(Hw & Hid & Hst)].
  - exists (moved_to w t (OnCpu c)). apply (rep_resume _ hm _ c p' t); try done.
    + apply (rep_take w hm [t] _ c p' t); try done; [by left|by left|by right].
    + left. apply moved_same.
    + intros th'. simpl. intros Hth'. simplify_eq. unfold thread_ok. rewrite moved_same. split; [done|]. left. split; [by left|done].
  - exists w. apply (rep_resume _ hm _ c p' t); try done; [by right; right|].
    intros th'. simpl. intros Hth'. simplify_eq. unfold thread_ok. rewrite Hw. split; [done|]. split; [done|]. by exists p'.
Qed.

(** [next] after the fallback to the idle thread. *)
Lemma choose_next w hm c s p next i : sched_rep w hm (option_list next) (Some c) s → cpus s !! c = Some p →
  in_hand w hm c (running_thread p) s next → idle_thread p = Some i →
  let t := default i next in
  sched_rep w hm [t] (Some c) s ∧ ∃ th, threads s !! t = Some th ∧ sleep_lock (slp th) = false ∧
    ((next = Some t ∧ w t = Nowhere ∧ hm t = c ∧ (state th = Ready ∧ running_thread p ≠ Some t ∨ state th = Running)) ∨
     (next = None ∧ w t = Idle c ∧ t = i ∧ (state th = Ready ∨ state th = Running))).
Proof.
  intros Hr Hc Hnext Hi. destruct next as [t|]; simpl.
  - split; [done|]. destruct (Hnext t eq_refl) as (? & ? & th & ? & ? & ?). exists th. split_and!; [done..|]. by left.
  - pose proof (sr_idle _ _ _ _ _ Hr c p i Hc Hi) as Hw.
    destruct (sr_place _ _ _ _ _ Hr i) as [th Hth]; [left; by rewrite Hw|].
    destruct (sr_thread _ _ _ _ _ Hr i th Hth) as [_ Hok]. specialize (Hok ltac:(set_solver)).
    unfold thread_ok in Hok. rewrite Hw in Hok. destruct Hok as (? & ? & _). split.
    + apply (rep_exempt w hm []); [done|set_solver|]. intros u ->%list_elem_of_singleton. eauto.
    + exists th. split_and!; [done..|]. by right.
Qed.

Lemma switch_to_spec w hm c prev t th s p : sched_rep w hm [t] (Some c) s → cpus s !! c = Some p →
  threads s !! t = Some th → (∀ c', w t ≠ InQueue c' ∧ w t ≠ InSleep c') →
  ∃ h, let p' := set_hw h (set_running (Some t) p) in let th' := set_state Running (set_running_on c th) in
    switch_to c prev t s = Done (regs (ctx th), put_cpu c p' (put_thread t th' s)) ∧
    sched_rep w hm [t] (Some c) (put_cpu c p' (put_thread t th' s)).
Proof.
  intros Hr Hc Hth Hw. unfold switch_to. rewrite (upd_thread_eq _ _ _ th Hth). cbn [mbind outcome_bind].
  set (th' := set_state Running _). destruct (parent_of _ _ _ _ _ _ _ Hr Hth) as (pr & v & Hpr & Hv).
  unfold upd_cpu, get_cpu at 1. change (cpus (put_thread t th' s)) with (cpus s). rewrite Hc. cbn [deref mbind outcome_bind].
  set (s1 := put_cpu c _ _). assert (threads s1 !! t = Some th') as Hth1 by apply lookup_insert_eq.
  unfold get_thread. rewrite Hth1. cbn [deref mbind outcome_bind]. unfold get_process.
  change (tables s1) with (tables s). change (parent th') with (parent th). rewrite Hpr. cbn [deref mbind outcome_bind].
  unfold load, get_thread, get_cpu, get_process. rewrite Hth1. cbn [deref mbind outcome_bind].
  assert (cpus s1 !! c = Some (set_running (Some t) p)) as Hc1 by by apply (put_same_cpu (put_thread t th' s) c _ p).
  rewrite Hc1. cbn [deref mbind outcome_bind]. change (tables s1) with (tables s). change (parent th') with (parent th). rewrite Hpr.
  cbn [deref mbind outcome_bind]. rewrite Hv. cbn [deref mbind outcome_bind].
  eexists. cbv zeta. split.
  { rewrite if_bind_done. unfold s1. rewrite put_cpu_put. reflexivity. }
  apply (rep_handler w hm [t] _ c p); try done.
  eapply rep_edit; [exact Hr|exact Hth|by left|done|intros c'; apply Hw|intros c' E; by destruct (Hw c')|done].
Qed.

Lemma interrupted w hm s c p cur : sched_rep w hm [] None s → cpus s !! c = Some p → ints p = true →
  running_thread p = Some cur → ∃ th, was_running w hm c s p cur th.
Proof.
  intros Hr Hc Hints Hrun. pose proof (sr_running _ _ _ _ _ Hr c p cur ltac:(done) Hc Hrun) as Hw.
  destruct (sr_place _ _ _ _ _ Hr cur) as [th Hth]; [left; by destruct Hw as [->|[->| ->]]|].
  destruct (sr_thread _ _ _ _ _ Hr cur th Hth) as [_ Hok]. specialize (Hok ltac:(set_solver)). unfold thread_ok in Hok.
  exists th. split; [done|]. split; [apply (sr_home _ _ _ _ _ Hr); by destruct Hw as [->|[->| ->]]|].
  pose proof (on_cpu_running s c p cur Hc) as Hon.
  assert (w cur ≠ Idle c → idle_thread p ≠ Some cur) as Hid by (intros Hn E; apply Hn; by apply (sr_idle _ _ _ _ _ Hr c p)).
  destruct Hw as [E|[E|E]]; rewrite E in *.
  - destruct Hok as [_ [[? ?]|(? & [(_ & q & Hq & Hqi)|[_ ?]])]]; [right; left|congruence|right; right];
      (split; [by apply Hid|]); [done|]. split; [by right|done].
  - right; right. destruct Hok as [(_ & ? & ?)|[Hn _]]; [|destruct Hn; by apply Hon]. split; [by apply Hid|]. split; [by left|done].
  - left. destruct Hok as (? & ? & q & Hq & ?). split_and!; [congruence|done..].
Qed.

(** A processor changes neither its lists nor what it runs. *)
Lemma rep_plain w hm s c p p' : sched_rep w hm [] None s → cpus s !! c = Some p →
  queue p' = queue p → sleep_queue p' = sleep_queue p → dead_threads p' = dead_threads p →
  idle_thread p' = idle_thread p → reaper_thread p' = reaper_thread p → running_thread p' = running_thread p →
  in_scheduler p' = in_scheduler p → ints p' = ints p → 0 ≤ preemption p' →
  sched_rep w hm [] None (put_cpu c p' s).
Proof.
  intros Hr Hc Hq Hs Hd Hi Hrt Hrun Hin Hints Hpre. apply (rep_cpu w hm [] None s c p p' Hr Hc); try done.
  - by left.
  - intros _. split; [done|]. rewrite Hin. by apply (sr_cpu _ _ _ _ _ Hr c p).
  - intros t th Hw _ Hth Hst. destruct (sr_thread _ _ _ _ _ Hr t th Hth) as [_ Hok]. specialize (Hok ltac:(set_solver)).
    unfold thread_ok in Hok. rewrite Hw in Hok. destruct Hok as [_ [[_ ?]|(_ & [(_ & q & ? & ?)|[? _]])]]; congruence.
Qed.

Lemma schedule_end w hm c (r : registers) (is_idle : bool) time' s p t th : sched_rep w hm [t] (Some c) s → cpus s !! c = Some p →
  threads s !! t = Some th → chosen w hm c p t th → running_thread p = Some t →
  ∃ r' s', (s ← (if is_idle then Done s else upd_thread t (set_schedule_time time') s);
            s ← upd_cpu c (λ p, set_in_scheduler false (reschedule timeslice p)) s; Done (r, s)) = Done (r', s') ∧
    ∃ w', sched_rep w' hm [] None s'.
Proof.
  intros Hr Hc Hth Hch Hrun.
  assert (∃ s1 th1, (if is_idle then Done s else upd_thread t (set_schedule_time time') s) = Done s1 ∧
            sched_rep w hm [t] (Some c) s1 ∧ cpus s1 = cpus s ∧ threads s1 !! t = Some th1 ∧ chosen w hm c p t th1)
    as (s1 & th1 & -> & Hr1 & Hc1 & Hth1 & Hch1).
  { destruct is_idle; [by exists s, th|]. rewrite (upd_thread_eq _ _ _ th Hth).
    eexists _, _. split; [reflexivity|]. split; [|split; [done|split; [apply lookup_insert_eq|done]]].
    eapply rep_edit; [exact Hr|exact Hth|by left|done| |done|done].
    intros c'. destruct Hch as [_ [(-> & _)|(-> & _)]]; done. }
  cbn [mbind outcome_bind]. unfold upd_cpu, get_cpu. rewrite Hc1, Hc. cbn [deref mbind outcome_bind].
  eexists _, _. split; [reflexivity|]. eapply settle_chosen; try done. by rewrite Hc1.
Qed.

Lemma schedule_spec w hm c time time' r s p i :
  sched_rep w hm [] None s → cpus s !! c = Some p → ints p = true → idle_thread p = Some i → initialised s = true →
  ∃ r' s', schedule c time time' r s = Done (r', s') ∧ (∃ w', sched_rep w' hm [] None s').
Proof.
  intros Hr Hc Hints Hi Hini. destruct (sr_started _ _ _ _ _ Hr c p Hc Hini) as [rt Hrt]. unfold schedule, schedule_during, get_cpu at 1. rewrite Hc. cbn [deref mbind outcome_bind].
  destruct (0 <? preemption p).
  { eexists _, _. split; [reflexivity|]. exists w. apply (rep_plain w hm s c p); try done. by apply (sr_cpu _ _ _ _ _ Hr c p). }
  pose proof (rep_stop w hm s c p Hr Hc) as Hr0.
  assert (∀ cur, running_thread p = Some cur → ∃ th, was_running w hm c s p cur th) as Hcur by (intros; by apply interrupted).
  set (p0 := set_in_scheduler true p). set (s0 := put_cpu c p0 s).
  assert (cpus s0 !! c = Some p0) as Hc0 by by apply (put_same_cpu s c p0 p).
  assert (sched_rep w hm (option_list (running_thread p)) (Some c) s0) as Hr1 by by apply (rep_handler w hm _ s c p p0).
  destruct (pick_loop_spec c (queue p) s0 w hm p0 (option_list (running_thread p)) false Hr1 Hc0 eq_refl)
    as (k & next & q & w1 & Ek & Hq & Epk & Hr2 & Hw1 & Hnext).
  { intros u Hu E. destruct (running_thread p) as [cur|] eqn:Erun; [|set_solver]. apply list_elem_of_singleton in Hu as ->.
    destruct (Hcur cur eq_refl) as (th & Hwas). by destruct (was_running_place _ _ _ _ _ _ _ Hwas). }
  rewrite Epk. cbn [mbind outcome_bind]. set (p1 := set_queues q _ _ p0) in *. set (s1 := put_cpu c p1 s0) in *.
  assert (cpus s1 !! c = Some p1) as Hc1 by by apply (put_same_cpu s0 c p1 p0).
  destruct (retire_spec w1 hm c time r next (false || negb (bool_decide (k = []))) s1 p1 Hr2 Hc1)
    as (next' & prev & fd' & s2 & Ert & (w2 & p2 & Hr3 & Hc2 & Hsame & Hhand & _) & _).
  { intros t Ht. destruct (Hnext t Ht) as (E1 & E2 & th & ? & ? & ?). split; [done|]. split.
    - apply (sr_home _ _ _ _ _ Hr). by rewrite E1.
    - exists th. split_and!; [done| |done]. left. split; [done|]. intros Hrun. destruct (Hcur t Hrun) as (? & Hwas).
      by destruct (was_running_place _ _ _ _ _ _ _ Hwas). }
  { intros cur Hrun. destruct (Hcur cur Hrun) as (th & Hwas). exists th.
    destruct (was_running_place _ _ _ _ _ _ _ Hwas) as [Hnq _]. destruct Hwas as (Hth & Hhm & Hcase).
    split; [done|]. split; [done|]. rewrite Hw1 by done.
    destruct Hcase as [?|[?|(? & [?|[? ?]] & ?)]]; [by left|by right; left|right; right..]; (split; [done|]); (split; [|done]); [by left|right].
    split; [done|]. apply (reaps_put s0 c p0 p1); [done|by left|]. by apply (reaps_put s c p p0); [|left|]. }
  rewrite Ert. cbn [mbind outcome_bind]. destruct Hsame as (S1 & S2 & S3 & S4 & S5 & S6 & S7). rewrite <-S1 in Hhand.
  assert (∃ s3, (if fd' then wake_reaper c s2 else Done s2) = Done s3 ∧ sched_rep w2 hm (option_list next') (Some c) s3 ∧
            cpus s3 !! c = Some p2 ∧ in_hand w2 hm c (running_thread p2) s3 next') as (s3 & -> & Hr4 & Hc3 & Hhand3).
  { destruct fd'; [|by exists s2]. destruct (wake_reaper_spec w2 hm c next' s2 p2 rt Hr3 Hc2 Hhand) as (s3 & E & ? & Ec & ? & _).
    - by rewrite S3.
    - exists s3. rewrite Ec. done. }
  cbn [mbind outcome_bind].
  assert (idle_thread p2 = Some i) as Hi2 by by rewrite S2.
  destruct (choose_next w2 hm c s3 p2 next' i Hr4 Hc3 Hhand3 Hi2) as (Hr5 & th & Hth & Hlk & Hch).
  assert (match next' with Some t => Done t | None => deref (idle_thread p) end = Done (default i next')) as ->.
  { destruct next'; [done|]. by rewrite Hi. }
  cbn [mbind outcome_bind]. set (t := default i next') in *.
  destruct (decide (running_thread p = Some t)) as [Hrt1|Hrt1].
  - rewrite (bool_decide_true (running_thread p = Some t)) by done. cbn [mbind outcome_bind].
    apply (schedule_end w2 hm c r (bool_decide (running_thread p = idle_thread p)) time' s3 p2 t th Hr5 Hc3 Hth); [|by rewrite S1].
    split; [done|]. destruct Hch as [(_ & ? & ? & [[_ Hne]|?])|(_ & ? & Hti & ?)]; [|by left|right; by rewrite Hti in *].
    destruct Hne. by rewrite S1.
  - rewrite (bool_decide_false (running_thread p = Some t)) by done.
    destruct (switch_to_spec w2 hm c prev t th s3 p2 Hr5 Hc3 Hth) as (h & Esw & Hr6).
    { intros c'. destruct Hch as [(_ & -> & _)|(_ & -> & _)]; done. }
    cbv zeta in Esw, Hr6. rewrite Esw. cbn [mbind outcome_bind].
    eapply (schedule_end w2 hm c _ _ time' _ _ t _ Hr6); [by apply (put_same_cpu (put_thread t _ s3) c _ p2)|apply lookup_insert_eq| |done].
    split; [done|]. destruct Hch as [(_ & ? & ? & _)|(_ & ? & Hti & ?)]; [by left|right]. split; [done|]. split; [by rewrite Hti|by right].
Qed.
End spec.
