(* ===== verification/SchedSteps.v ===== *)
(** Sleeping, waking, starting and ending threads keep the invariant of the scheduler. *)

From Stdlib Require Import Sorting.Sorted.
From S2P Require Import Prelude Math Pmm PmmBlocks Frames Pagemap PagemapTree PagemapSpec Objects Vmm Vfs Process Sched SchedInv SchedSpec.

Section steps.
Context {St PM H : Type} `{FrameAllocator St, PageMapOps PM, KernelHeap H}.
Implicit Types s : sched St PM H.

Lemma rep_add w hm X C s t : sched_rep w hm X C s → is_Some (threads s !! t) → sched_rep w hm (t :: X) C s.
Proof.
  intros Hr Ht. apply (rep_exempt w hm X); [done|set_solver|]. intros u [->|Hu]%elem_of_cons; [done|].
  apply (sr_place _ _ _ _ _ Hr). by right.
Qed.

(** Where the running thread is. *)
Lemma running_place w hm s c p t th : sched_rep w hm [] None s → cpus s !! c = Some p → running_thread p = Some t →
  threads s !! t = Some th → idle_thread p ≠ Some t →
  (w t = OnCpu c ∧ ((state th = Running ∨ state th = Killed) ∧ sleep_lock (slp th) = false ∨
                    state th = Sleeping ∧ (sleep_lock (slp th) = true ∧ ints p = false ∨ sleep_lock (slp th) = false ∧ reaps s t))) ∨
  (w t = InSleep c ∧ state th = Sleeping ∧ (sleep_lock (slp th) = true ∨ reaps s t)).
Proof.
  intros Hr Hc Hrun Hth Hid. destruct (sr_thread _ _ _ _ _ Hr t th Hth) as [_ Hok]. specialize (Hok ltac:(set_solver)).
  unfold thread_ok in Hok. pose proof (on_cpu_running s c p t Hc) as Hon.
  destruct (sr_running _ _ _ _ _ Hr c p t ltac:(done) Hc Hrun) as [E|[E|E]]; rewrite E in Hok.
  - left. split; [done|]. destruct Hok as [_ [?|(? & [(? & q & ? & ?)|?])]]; [by left|right; split; [done|]..]; [left|by right].
    split; [done|congruence].
  - right. split; [done|]. destruct Hok as [(_ & ?)|[Hn _]]; [done|]. destruct Hn. by apply Hon.
  - destruct Hok as (_ & _ & q & ? & ?). congruence.
Qed.
(** No other thread is on the processor. *)
Lemma only_running w hm s c p t u th : sched_rep w hm [] None s → cpus s !! c = Some p → running_thread p = Some t →
  w u = OnCpu c → threads s !! u = Some th → u = t.
Proof.
  intros Hr Hc Hrun Hw Hu. destruct (sr_thread _ _ _ _ _ Hr u th Hu) as [_ Hok]. specialize (Hok ltac:(set_solver)).
  unfold thread_ok in Hok. rewrite Hw in Hok. destruct Hok as [Hon _]. apply (on_cpu_running s c p u Hc) in Hon. congruence.
Qed.

(** * Sleeping *)
Lemma prepare_sleep_ok w hm s c p t th ms : sched_rep w hm [] None s → cpus s !! c = Some p → running_thread p = Some t →
  threads s !! t = Some th → idle_thread p ≠ Some t → state th ≠ Sleeping →
  ∃ s', prepare_sleep c t ms s = Done s' ∧ sched_rep w hm [] None s'.
Proof.
  intros Hr Hc Hrun Hth Hid Hst.
  destruct (running_place w hm s c p t th Hr Hc Hrun Hth Hid) as [[Hw [[Hrs Hlk]|(? & _)]]|(_ & ? & _)]; [|done..].
  unfold prepare_sleep, get_cpu. rewrite Hc. cbn [deref mbind outcome_bind]. unfold get_thread. simpl. rewrite Hth.
  cbn [deref mbind outcome_bind]. rewrite Hlk. eexists. split; [reflexivity|].
  set (p' := int_switch false p). assert (sched_rep w hm [t] None (put_cpu c p' s)) as Hr1.
  { apply rep_add; [|by eexists]. apply (rep_cpu w hm [] None s c p p'); try done; [by left| |by apply (sr_cpu _ _ _ _ _ Hr c p)].
    intros _. split; [done|]. by apply (sr_cpu _ _ _ _ _ Hr c p). }
  apply (rep_settle _ _ _ _ _ t).
  - eapply rep_edit; [exact Hr1|exact Hth|by left|done|by rewrite Hw|by rewrite Hw|done].
  - simpl. intros th'. rewrite lookup_insert_eq. intros [= <-]. unfold thread_ok. rewrite Hw.
    assert (cpus (put_cpu c p' s) !! c = Some p') as Hc' by by apply (put_same_cpu s c p' p).
    split; [by apply (on_cpu_running _ c p' t)|]. right. split; [done|]. left. split; [done|]. by exists p'.
Qed.

(** Thread [t] is asleep on a processor and does not hold its [sleep_lock], as only a reaper
    is that has nothing to do. *)
Definition dozing s (t : Z) : Prop :=
  ∃ c p th, cpus s !! c = Some p ∧ running_thread p = Some t ∧ threads s !! t = Some th ∧
    state th = Sleeping ∧ sleep_lock (slp th) = false.

Lemma wake_up_ok w hm s t reason b s' : sched_rep w hm [] None s → ¬ dozing s t → wake_up t reason s = Done (b, s') →
  sched_rep w hm [] None s'.
Proof.
  intros Hr Hdz. unfold wake_up, get_thread. destruct (threads s !! t) as [th|] eqn:Hth; [|done]. cbn [deref mbind outcome_bind].
  destruct (sleep_lock (slp th)) eqn:Hlk; [done|]. destruct (decide (state th = Sleeping)) as [Hst|Hst].
  2:{ rewrite bool_decide_false by done. by intros [= _ <-]. }
  rewrite bool_decide_true by done. intros [= _ <-].
  destruct (sr_thread _ _ _ _ _ Hr t th Hth) as [_ Hok]. specialize (Hok ltac:(set_solver)).
  apply (rep_thread w hm _ _ s t th); try done. intros _. unfold thread_ok in *.
  assert (∀ c', ¬ on_cpu None s c' t) as Hoff.
  { intros c' (_ & p & Hc & Hrun). apply Hdz. by exists c', p, th. }
  destruct (w t) as [|c'|c'|c'|c'|c'] eqn:E.
  - destruct Hok as [[?|[_ ?]] ?]; [congruence|]. split; [|done]. right. split; [by left|done].
  - destruct Hok as [[?|?] _]; congruence.
  - right. split; [apply (Hoff c')|]. split; [by left|done].
  - destruct Hok. congruence.
  - destruct Hok as [Hon _]. by destruct (Hoff c').
  - destruct Hok as ([?|?] & _); congruence.
Qed.

(** The thread that sleeps enters the queue. *)
Lemma yield_sleeping w hm s c p t th now : sched_rep w hm [] None s → cpus s !! c = Some p → running_thread p = Some t →
  threads s !! t = Some th → w t = OnCpu c → state th = Sleeping → sleep_lock (slp th) = true ∨ reaps s t →
  ∃ e old s' w', yield_enter c now s = Done (e, old, s') ∧ sched_rep w' hm [] None s'.
Proof.
  intros Hr Hc Hrun Hth Hw Hst Hlk. unfold yield_enter, get_cpu at 1. rewrite Hc. cbn [deref mbind outcome_bind].
  rewrite Hrun. cbn [deref mbind outcome_bind]. unfold get_thread. rewrite Hth. cbn [deref mbind outcome_bind].
  rewrite bool_decide_true by done.
  assert (hm t = c) as Hhm by (apply (sr_home _ _ _ _ _ Hr); by rewrite Hw).
  pose proof (rep_stop w hm s c p Hr Hc) as Hr0. rewrite Hrun in Hr0. simpl in Hr0.
  set (s1 := match sleep_dur (slp th) with Some d => _ | None => _ end).
  assert (sched_rep w hm [t] (Some c) s1 ∧ cpus s1 = cpus s ∧
          ∃ th1, threads s1 !! t = Some th1 ∧ state th1 = Sleeping ∧ (sleep_lock (slp th1) = true ∨ reaps s t)) as (Hr1 & Ec1 & th1 & Hth1 & Hst1 & Hlk1).
  { unfold s1. destruct (sleep_dur (slp th)) as [d|].
    - split; [|split; [done|eexists; split; [apply lookup_insert_eq|done]]].
      eapply rep_edit; [exact Hr0|exact Hth|by left|done|by rewrite Hw|by rewrite Hw|done].
    - split; [done|]. split; [done|]. by exists th. }
  clearbody s1. unfold sleep_insert, upd_cpu, get_cpu. rewrite Ec1, Hc. cbn [deref mbind outcome_bind].
  pose proof (enlist_spec w hm [t] (Some c) s1 c p t (InSleep c)) as Hen. simpl in Hen.
  set (p1 := set_sleepers _ p) in *. set (s2 := put_cpu c p1 s1) in *.
  assert (cpus s2 !! c = Some p1) as Hc2 by (apply (put_same_cpu s1 c p1 p); by rewrite Ec1). rewrite Hc2.
  cbn [deref mbind outcome_bind]. eexists _, _, _, (moved_to w t (InSleep c)). split; [reflexivity|].
  assert (sched_rep (moved_to w t (InSleep c)) hm [t] (Some c) s2) as Hr2.
  { apply Hen; [done|by rewrite Ec1|by left|by left|by right|done|right; by left]. }
  set (p2 := reschedule 0 (int_switch true p1)).
  assert (cpus (put_cpu c p2 s2) !! c = Some p2) as Hc3 by by apply (put_same_cpu s2 c p2 p1).
  apply (rep_resume _ hm _ c p2 t); try done.
  - by apply (rep_handler _ hm [t] s2 c p1 p2).
  - by apply (sr_cpu _ _ _ _ _ Hr c p).
  - right. left. apply moved_same.
  - intros th' Hth'. simpl in Hth'. assert (th' = th1) as -> by congruence. unfold thread_ok. rewrite moved_same. left.
    split; [by apply (on_cpu_running _ c p2 t)|]. split; [done|]. destruct Hlk1 as [?|Hrp]; [by left|right].
    apply (reaps_put s2 c p1 p2); [done|by left|]. apply (reaps_put s1 c p p1); [by rewrite Ec1|by left|].
    unfold reaps. by rewrite Ec1.
Qed.
(** A thread that does not sleep only asks for the interrupt. *)
Lemma ints_ok w hm s c p p' t th : sched_rep w hm [] None s → cpus s !! c = Some p → running_thread p = Some t →
  threads s !! t = Some th → state th ≠ Sleeping →
  queue p' = queue p → sleep_queue p' = sleep_queue p → dead_threads p' = dead_threads p →
  idle_thread p' = idle_thread p → reaper_thread p' = reaper_thread p → running_thread p' = running_thread p →
  in_scheduler p' = in_scheduler p → preemption p' = preemption p →
  sched_rep w hm [] None (put_cpu c p' s).
Proof.
  intros Hr Hc Hrun Hth Hst Hq Hs Hd Hi Hrt Hrn Hin Hpre. apply (rep_cpu w hm [] None s c p p' Hr Hc); try done.
  - by left.
  - intros _. split; [done|]. rewrite Hin. by apply (sr_cpu _ _ _ _ _ Hr c p).
  - rewrite Hpre. by apply (sr_cpu _ _ _ _ _ Hr c p).
  - intros u thu Hu _ Hthu Hlk. pose proof (only_running w hm s c p t u thu Hr Hc Hrun Hu Hthu) as ->. simplify_eq.
    destruct (sr_thread _ _ _ _ _ Hr t th Hth) as [_ Hok]. specialize (Hok ltac:(set_solver)).
    unfold thread_ok in Hok. rewrite Hu in Hok. destruct Hok as [_ [[_ ?]|[? _]]]; congruence.
Qed.
Lemma yield_enter_ok w hm s c p t th now : sched_rep w hm [] None s → cpus s !! c = Some p → running_thread p = Some t →
  threads s !! t = Some th → idle_thread p ≠ Some t → t ∉ sleep_queue p →
  ∃ e old s' w', yield_enter c now s = Done (e, old, s') ∧ sched_rep w' hm [] None s'.
Proof.
  intros Hr Hc Hrun Hth Hid Hq. rewrite (sr_sleep _ _ _ _ _ Hr c p t Hc) in Hq.
  destruct (running_place w hm s c p t th Hr Hc Hrun Hth Hid) as [[Hw [[Hrs Hlk]|(? & Hlk)]]|(? & _)]; [| |done].
  2: { apply (yield_sleeping w hm s c p t th); try done. destruct Hlk as [[? _]|[_ ?]]; [by left|by right]. }
  unfold yield_enter, get_cpu at 1. rewrite Hc. cbn [deref mbind outcome_bind].
  rewrite Hrun. cbn [deref mbind outcome_bind]. unfold get_thread. rewrite Hth. cbn [deref mbind outcome_bind].
  assert (state th ≠ Sleeping) as Hst by (destruct Hrs; congruence). rewrite bool_decide_false by done.
  unfold upd_cpu, get_cpu. rewrite Hc. cbn [deref mbind outcome_bind].
  set (p1 := int_switch false p). rewrite (put_same_cpu s c p1 p Hc). cbn [deref mbind outcome_bind].
  eexists _, _, _, w. split; [reflexivity|]. rewrite put_cpu_put. by apply (ints_ok w hm s c p _ t th).
Qed.
Lemma yield_leave_ok w hm s c p t th e old : sched_rep w hm [] None s → cpus s !! c = Some p → running_thread p = Some t →
  threads s !! t = Some th → state th ≠ Sleeping →
  ∃ r s', yield_leave c e old s = Done (r, s') ∧ sched_rep w hm [] None s'.
Proof.
  intros Hr Hc Hrun Hth Hst. unfold yield_leave, get_cpu. rewrite Hc. cbn [deref mbind outcome_bind].
  assert (sched_rep w hm [] None (put_cpu c (int_switch old p) s)) as Hr1 by by apply (ints_ok w hm s c p _ t th).
  destruct e; [|by eexists _, _]. rewrite Hrun. unfold get_thread. cbn [deref mbind outcome_bind]. simpl. rewrite Hth.
  by eexists _, _.
Qed.

(** * Preemption *)
Lemma preempt_ok w hm s c (f : nat → sched St PM H → outcome (sched St PM H)) s' : f = disable ∨ f = enable →
  sched_rep w hm [] None s → f c s = Done s' → sched_rep w hm [] None s' ∧ threads s' = threads s ∧
    tables s' = tables s ∧
    ∀ c' p', cpus s' !! c' = Some p' → ∃ p, cpus s !! c' = Some p ∧ queue p' = queue p ∧ sleep_queue p' = sleep_queue p ∧
      dead_threads p' = dead_threads p ∧ running_thread p' = running_thread p.
Proof.
  intros Hf Hr. assert (∀ p n, cpus s !! c = Some p → 0 ≤ n → let s' := put_cpu c (set_preemption n p) s in
    sched_rep w hm [] None s' ∧ threads s' = threads s ∧ tables s' = tables s ∧
    ∀ c' p', cpus s' !! c' = Some p' → ∃ p, cpus s !! c' = Some p ∧ queue p' = queue p ∧ sleep_queue p' = sleep_queue p ∧
      dead_threads p' = dead_threads p ∧ running_thread p' = running_thread p) as Hput.
  { intros p n Hc Hn. split; [by apply (rep_plain w hm s c p)|]. split; [done|]. split; [done|].
    intros c' p' Hc'. apply (cpus_put s c _ p c' p' Hc) in Hc' as [[-> ->]|[_ ?]]; [by exists p|]. exists p'. by split_and!. }
  destruct Hf as [-> | ->]; unfold disable, enable, get_cpu.
  all: destruct (negb (initialised s)); [intros [= <-]; split_and!; [done..|]; intros c' p' ?; exists p'; by split_and!|].
  all: destruct (cpus s !! c) as [p|] eqn:Hc; [|done]; cbn [deref mbind outcome_bind].
  all: destruct (in_scheduler p); [intros [= <-]; split_and!; [done..|]; intros c' p' ?; exists p'; by split_and!|].
  - intros [= <-]. apply (Hput p); [done|apply w64_range].
  - destruct (Z.ltb_spec 0 (preemption p)); intros [= <-]; [apply (Hput p); [done|lia]|split_and!; [done..|]; intros c' p' ?; exists p'; by split_and!].
Qed.

(** * New threads *)
Definition keeps_spaces (x y : procs PM) : Prop :=
  ∀ i pr, ptab x !! i = Some pr → is_Some (vspace pr) → ∃ pr', ptab y !! i = Some pr' ∧ is_Some (vspace pr').
Lemma keeps_threads x par pr m n a : ptab x !! par = Some pr → keeps_spaces x (put_proc par (set_threads m n a pr) x).
Proof.
  intros Hp i q Hi Hv. simpl. destruct (decide (i = par)) as [->|].
  - rewrite lookup_insert_eq. eexists. split; [done|]. simpl. congruence.
  - rewrite lookup_insert_ne by done. by exists q.
Qed.
Lemma keeps_trans x y z : keeps_spaces x y → keeps_spaces y z → keeps_spaces x z.
Proof. intros Hxy Hyz i pr Hi Hv. destruct (Hxy i pr Hi Hv) as (pr' & ? & ?). by apply (Hyz i pr'). Qed.

Definition keeps_tables (x y : procs PM) : Prop := processes y = processes x ∧ keeps_spaces x y.
Lemma keeps_tables_trans x y z : keeps_tables x y → keeps_tables y z → keeps_tables x z.
Proof. intros [? ?] [? ?]. split; [congruence|by eapply keeps_trans]. Qed.
Lemma keeps_tables_threads x par pr m n a : ptab x !! par = Some pr → keeps_tables x (put_proc par (set_threads m n a pr) x).
Proof. split; [done|by apply keeps_threads]. Qed.

(** The part of the state that matters to the invariant: processors up to the hardware,
    threads, and the address spaces of processes. *)
Definition same_but_hw s s' : Prop :=
  threads s' = threads s ∧ initialised s' = initialised s ∧ keeps_tables (tables s) (tables s') ∧
  ∃ c h, match cpus s !! c with Some p => cpus s' = <[c := set_hw h p]> (cpus s) | None => cpus s' = cpus s end.
Lemma rep_same_but_hw w hm X s s' : sched_rep w hm X None s → X = [] → same_but_hw s s' → sched_rep w hm X None s'.
Proof.
  intros Hr -> (Et & Ei & [_ Ht] & c & h & Hc). 
  assert (s' = put_memory (memory s') (put_heap (heap s') (put_tables (tables s')
            (put_cpus (cpus s') s)))) as ->.
  { destruct s, s'; simpl in *. by subst. }
  apply rep_memory, rep_heap, rep_tables; [|done].
  destruct (cpus s !! c) as [p|] eqn:Hp; rewrite Hc.
  - change (put_cpus _ s) with (put_cpu c (set_hw h p) s). apply (rep_plain w hm s c p); try done. by apply (sr_cpu _ _ _ _ _ Hr c p).
  - by destruct s.
Qed.

(** The service threads of every processor. *)
Definition same_services s s' : Prop := ∀ c,
  (∀ p', cpus s' !! c = Some p' → ∃ p, cpus s !! c = Some p ∧ idle_thread p' = idle_thread p ∧
     reaper_thread p' = reaper_thread p ∧ running_thread p' = running_thread p) ∧
  (is_Some (cpus s !! c) → is_Some (cpus s' !! c)).
Lemma same_services_trans s1 s2 s3 : same_services s1 s2 → same_services s2 s3 → same_services s1 s3.
Proof.
  intros H12 H23 c. split; [|intros Hc; apply H23, H12, Hc]. intros p3 Hp3.
  destruct (proj1 (H23 c) p3 Hp3) as (p2 & Hp2 & ? & ? & ?). destruct (proj1 (H12 c) p2 Hp2) as (p1 & Hp1 & ? & ? & ?).
  exists p1. split_and!; congruence.
Qed.
Lemma same_but_hw_services s s' : same_but_hw s s' → same_services s s'.
Proof.
  intros (_ & _ & _ & c & h & Hc) c'. destruct (cpus s !! c) as [p|] eqn:Hp; rewrite Hc; [|split; [eauto|done]].
  destruct (decide (c' = c)) as [->|].
  - rewrite list_lookup_insert_eq by by eapply lookup_lt_Some. split; [|done]. intros p' [= <-]. by exists p.
  - rewrite list_lookup_insert_ne by done. split; [eauto|done].
Qed.

Lemma map_stack_same par s o u s' : map_stack par s = Done (o, u, s') →
  cpus s' = cpus s ∧ threads s' = threads s ∧ initialised s' = initialised s ∧ keeps_tables (tables s) (tables s').
Proof.
  unfold map_stack, get_process. destruct (ptab (tables s) !! par) as [pr|] eqn:Hp; [|done]. cbn [deref mbind outcome_bind].
  destruct (new_memobject _) as [o' m]. destruct (vspace pr) as [v|]; [|done]. cbn [deref mbind outcome_bind].
  destruct (spaces _ !! v) as [sp|]; [|done]. cbn [deref mbind outcome_bind].
  intros E. apply bind_Done_inv in E as ([r sp'] & _ & E). destruct r; [|done]. injection E as <- <- <-.
  split_and!; [done..|]. simpl. by apply keeps_tables_threads.
Qed.

Lemma thread_create_spec c par ip user s t s' pr : thread_create c par ip user s = Done (t, s') →
  ptab (tables s) !! par = Some pr → is_Some (vspace pr) →
  threads s !! t = None ∧ ∃ th s1, s' = put_thread t th s1 ∧ same_but_hw s s1 ∧ parent_ok s1 th ∧
    parent th = par ∧ state th = NotReady ∧ sleep_lock (slp th) = false.
Proof.
  intros E Hp Hv. unfold thread_create, get_process in E. rewrite Hp in E. cbn [deref mbind outcome_bind] in E.
  apply bind_Done_inv in E as ([a hp] & _ & E). apply bind_Done_inv in E as ([[o utop] s1] & Es1 & E).
  assert (cpus s1 = cpus s ∧ threads s1 = threads s ∧ initialised s1 = initialised s ∧ keeps_tables (tables s) (tables s1)) as (Ec & Et & Ei & Hk).
  { pose proof (keeps_tables_threads (tables s) par pr (pthreads pr) (s32 (next_tid pr + 1)) (next_stack_top pr) Hp) as Hk.
    destruct user; [|injection Es1 as _ _ <-; by split_and!].
    apply bind_Done_inv in Es1 as ([[o' u'] s2] & Es2 & Es1). injection Es1 as _ _ <-.
    apply map_stack_same in Es2 as (? & ? & ? & ?). split_and!; [done..|]. by eapply keeps_tables_trans. }
  clear Es1. apply bind_Done_inv in E as ([b hp'] & _ & E). apply bind_Done_inv in E as (s2 & Es2 & E).
  unfold upd_cpu, get_cpu in Es2. apply bind_Done_inv in Es2 as (q & Hq & Es2). apply deref_Done_inv in Hq. injection Es2 as <-.
  simpl in E, Hq. destruct (ptab (tables s1) !! par) as [pr1|] eqn:Hp1; [|done]. cbn [deref mbind outcome_bind] in E.
  injection E as <- <-. split; [apply not_elem_of_dom, is_fresh|].
  eexists _, _. split; [reflexivity|]. split.
  - split; [done|]. split; [done|]. split; [eapply keeps_tables_trans; [exact Hk|by apply keeps_tables_threads]|].
    exists c. eexists. rewrite Ec in Hq. rewrite Hq. simpl. by rewrite Ec.
  - split; [|done]. unfold parent_ok. simpl. rewrite lookup_insert_eq. eexists. split; [done|]. simpl.
    destruct (proj2 Hk par pr Hp Hv) as (pr' & ? & ?). by simplify_eq.
Qed.

(** The thread is in no queue and not ready. *)
Lemma thread_create_ok w hm c par ip user s t s' pr : sched_rep w hm [] None s →
  ptab (tables s) !! par = Some pr → is_Some (vspace pr) → thread_create c par ip user s = Done (t, s') →
  sched_rep w hm [] None s' ∧ w t = Nowhere ∧ (∀ c' p', cpus s' !! c' = Some p' → reaper_thread p' ≠ Some t) ∧
  ∃ th, threads s' !! t = Some th ∧ state th = NotReady ∧ sleep_lock (slp th) = false.
Proof.
  intros Hr Hp Hv E. destruct (thread_create_spec c par ip user s t s' pr E Hp Hv) as (Ht & th & s1 & -> & Hs & Hpar & _ & Hst & Hlk).
  pose proof (rep_same_but_hw w hm [] s s1 Hr eq_refl Hs) as Hr1. destruct Hs as (Et & _). rewrite <-Et in Ht.
  split; [by apply rep_new|]. split; [by apply (unknown_nowhere w hm [] None s1)|]. split.
  - intros c' p' Hc' Hrt. destruct (sr_reaper _ _ _ _ _ Hr1 c' p' t Hc' Hrt) as (? & ? & _). congruence.
  - exists th. split_and!; [apply lookup_insert_eq|done..].
Qed.

(** A thread that is in no queue is made ready and enqueued on processor [c]. *)
Lemma launch_ok w hm s c p t th th' : sched_rep w hm [] None s → cpus s !! c = Some p → threads s !! t = Some th →
  w t = Nowhere → (∀ c' p', cpus s !! c' = Some p' → reaper_thread p' ≠ Some t) →
  parent th' = parent th → state th' = Ready → sleep_lock (slp th') = false →
  ∃ s' w' hm', enqueue t c (put_thread t th' s) = Done s' ∧ sched_rep w' hm' [] None s' ∧ w' t = InQueue c ∧ hm' t = c ∧
    (∀ u, u ≠ t → w' u = w u ∧ hm' u = hm u) ∧ threads s' = <[t := th']> (threads s) ∧
    tables s' = tables s ∧ ∃ q, cpus s' = <[c := set_queue q p]> (cpus s).
Proof.
  intros Hr Hc Hth Hw Hrt Hpar Hst Hlk. unfold enqueue. rewrite get_put_thread. cbn [mbind outcome_bind]. rewrite Hst.
  unfold queue_insert, upd_cpu, get_cpu. simpl. rewrite Hc. cbn [deref mbind outcome_bind].
  set (s1 := put_thread t th' s). eexists _, (moved_to w t (InQueue c)), (λ u, if decide (u = t) then c else hm u). split; [reflexivity|].
  assert (running_thread p ≠ Some t) as Hrun.
  { intros Hrun. destruct (sr_running _ _ _ _ _ Hr c p t ltac:(done) Hc Hrun) as [?|[?|?]]; congruence. }
  assert (sched_rep w (λ u, if decide (u = t) then c else hm u) [t] None s1) as Hr1.
  { apply rep_adopt; [|done|done]. eapply rep_edit; [apply rep_add; [exact Hr|by eexists]|exact Hth|by left|done|by rewrite Hw|by rewrite Hw|congruence]. }
  split; [|split; [apply moved_same|split; [by case_decide|split; [|split; [done|split; [done|by eexists]]]]]].
  - apply (rep_settle _ _ _ _ _ t).
    + apply (enlist_spec w _ [t] None s1 c p t (InQueue c)); try done; [by left|by right|by left|by case_decide|by left].
    + simpl. intros th1. rewrite lookup_insert_eq. intros [= <-]. unfold thread_ok. rewrite moved_same. split; [by left|done].
  - intros u Hu. rewrite moved_other by done. by case_decide.
Qed.

Lemma spawn_on_ok w hm here c p n par pr ip prio s t s' : sched_rep w hm [] None s → cpus s !! c = Some p →
  processes (tables s) !! w64 n = Some par → ptab (tables s) !! par = Some pr → is_Some (vspace pr) →
  spawn_on here c n ip prio s = Done (t, s') →
  ∃ w' hm', sched_rep w' hm' [] None s' ∧ w' t = InQueue c ∧ hm' t = c ∧ (∃ th, threads s' !! t = Some th ∧ state th = Ready) ∧
    keeps_tables (tables s) (tables s') ∧ initialised s' = initialised s ∧ same_services s s'.
Proof.
  intros Hr Hc Hpid Hp Hv E. unfold spawn_on in E. apply bind_Done_inv in E as (prio' & _ & E). rewrite Hpid in E.
  apply bind_Done_inv in E as ([t' s1] & Ecr & E).
  destruct (thread_create_ok w hm here par ip false s t' s1 pr Hr Hp Hv Ecr) as (Hr1 & Hw & Hrt & th & Hth & _ & Hlk).
  rewrite (upd_thread_eq _ _ _ th Hth) in E. cbn [mbind outcome_bind] in E.
  assert (same_services s s1 ∧ keeps_tables (tables s) (tables s1) ∧ initialised s1 = initialised s) as (Hsv & Hk & Hin).
  { destruct (thread_create_spec here par ip false s t' s1 pr Ecr Hp Hv) as (_ & ? & s2 & -> & Hsame & _).
    split; [by apply same_but_hw_services in Hsame|]. by destruct Hsame as (_ & ? & ? & _). }
  destruct (proj2 (Hsv c) (ex_intro _ p Hc)) as [p1 Hc1].
  destruct (launch_ok w hm s1 c p1 t' th (set_state Ready (set_priority prio' th)) Hr1 Hc1 Hth Hw Hrt eq_refl eq_refl Hlk)
    as (s3 & w' & hm' & Eq & Hr3 & Hw' & Hhm' & _ & Eth & Etb & q & Ecp).
  rewrite Eq in E. cbn [mbind outcome_bind] in E. injection E as <- <-. exists w', hm'. split_and!; [done..| |by rewrite Etb| |].
  - rewrite Eth, lookup_insert_eq. eauto.
  - rewrite <-Hin. unfold enqueue, queue_insert, upd_cpu, get_cpu in Eq. rewrite get_put_thread in Eq. simpl in Eq.
    rewrite Hc1 in Eq. by injection Eq as <-.
  - eapply same_services_trans; [exact Hsv|]. intros c'. rewrite Ecp. destruct (decide (c' = c)) as [->|].
    + rewrite list_lookup_insert_eq by by eapply lookup_lt_Some. rewrite Hc1. split; [|done].
      intros p' [= <-]. by exists p1.
    + rewrite list_lookup_insert_ne by done. split; [eauto|done].
Qed.

(** * The sleeper *)

(** A thread moves from the sleepers to another list, with new contents. *)
Lemma requeue w hm s c p t th th' x : sched_rep w hm [] None s → cpus s !! c = Some p → w t = InSleep c →
  running_thread p ≠ Some t → threads s !! t = Some th → parent th' = parent th →
  x = InQueue c ∧ state th' = Ready ∨ x = InDead c ∧ state th' = Killed ∧ state th = Killed →
  sleep_lock (slp th') = false →
  let p1 := unlist (InSleep c) t p in let s1 := put_thread t th' (put_cpu c p1 s) in
  sleep_remove c t s = Done (put_cpu c p1 s) ∧
  sched_rep (moved_to (moved_to w t Nowhere) t x) hm [] None (put_cpu c (enlist s1 x t p1) s1).
Proof.
  intros Hr Hc Hw Hrun Hth Hpar Hx Hlk p1 s1.
  assert (hm t = c) as Hhm by (apply (sr_home _ _ _ _ _ Hr); by rewrite Hw).
  assert (sched_rep w hm [t] None s) as Hr0 by (apply rep_add; [done|by eexists]).
  destruct (sleep_remove_spec w hm [t] None s c p t Hr0 Hc) as [Erm Hr1]; [by left|by right|done|]. split; [done|].
  assert (sched_rep (moved_to w t Nowhere) hm [t] None s1) as Hr2.
  { eapply rep_edit; [exact Hr1|exact Hth|by left|done| | |].
    - intros c'. by rewrite moved_same.
    - intros c'. by rewrite moved_same.
    - destruct Hx as [[_ E]|(_ & _ & E)]; [congruence|done]. }
  assert (cpus s1 !! c = Some p1) as Hc1 by by apply (put_same_cpu s c p1 p).
  apply (rep_settle _ _ _ _ _ t).
  - apply (enlist_spec _ hm [t] None s1 c p1 t x Hr2 Hc1); [by left|by right|left; apply moved_same|done|].
    destruct Hx as [[-> _]|[-> _]]; [by left|by right; right].
  - simpl. intros th1. rewrite lookup_insert_eq. intros [= <-]. unfold thread_ok. rewrite moved_same.
    destruct Hx as [[-> E]|(-> & E & _)]; [split; [by left|done]|done].
Qed.

(** What the loop needs: its own thread does not sleep, and [begin] points to a thread. *)
Definition sleeper_runs (c : nat) (me : Z) (first : Z) (l : list Z) s : Prop :=
  is_Some (threads s !! first) ∧ NoDup l ∧ (me ∉ l) ∧ ∃ p, cpus s !! c = Some p ∧ running_thread p = Some me ∧
    ∀ u, u ∈ l → u ∈ sleep_queue p.

Lemma sleeper_keeps c me first t l s s1 p1 p2 th' : sleeper_runs c me first (t :: l) s →
  cpus s !! c = Some p1 → s1 = put_cpu c p2 (put_thread t th' (put_cpu c (unlist (InSleep c) t p1) s)) →
  running_thread p2 = running_thread p1 → sleep_queue p2 = filter (λ y, y ≠ t) (sleep_queue p1) →
  sleeper_runs c me first l s1.
Proof.
  intros (Hf & [Ht Hl]%NoDup_cons & Hme & p & Hc & Hrun & Hin) Hc1 -> Hrn Hsq. simplify_eq. split_and!.
  - simpl. rewrite lookup_insert_is_Some'. by right.
  - done.
  - set_solver.
  - exists p2. split; [apply (put_same_cpu _ c p2 (unlist (InSleep c) t p)); by apply (put_same_cpu s c _ p)|].
    split; [congruence|]. intros u Hu. rewrite Hsq, list_elem_of_filter. split; [|apply Hin; by right]. intros ->. done.
Qed.

Lemma sleeper_loop_ok c me first time l : ∀ s w hm, sched_rep w hm [] None s → sleeper_runs c me first l s →
  ∃ s' w', sleeper_loop c first time l s = Done s' ∧ sched_rep w' hm [] None s'.
Proof.
  induction l as [|t l IH]; intros s w hm Hr Hs; cbn [sleeper_loop]; [by exists s, w|].
  pose proof Hs as (Hf & Hnd & Hme & p & Hc & Hrun & Hin).
  assert (w t = InSleep c) as Hw by (apply (sr_sleep _ _ _ _ _ Hr c p t Hc), Hin; by left).
  assert (running_thread p ≠ Some t) as Hnt by (intros E; set_solver).
  destruct (sr_place _ _ _ _ _ Hr t) as [th Hth]; [left; by rewrite Hw|].
  destruct (sr_thread _ _ _ _ _ Hr t th Hth) as [_ Hok]. specialize (Hok ltac:(set_solver)). unfold thread_ok in Hok. rewrite Hw in Hok.
  destruct Hok as [[Hon _]|(_ & Hst & Hlk)]; [by apply (on_cpu_running s c p t Hc) in Hon|].
  assert (sleeper_runs c me first l s) as Hs1.
  { split_and!; [done|by apply NoDup_cons in Hnd as [_ ?]|set_solver|]. exists p. split_and!; [done..|set_solver]. }
  unfold get_thread at 1. rewrite Hth. cbn [deref mbind outcome_bind].
  assert (∀ th' x, parent th' = parent th → x = InQueue c ∧ state th' = Ready ∨ x = InDead c ∧ state th' = Killed ∧ state th = Killed →
    sleep_lock (slp th') = false → let p1 := unlist (InSleep c) t p in let s1 := put_thread t th' (put_cpu c p1 s) in
    sleep_remove c t s = Done (put_cpu c p1 s) ∧ cpus s1 !! c = Some p1 ∧
    ∃ s' w', sleeper_loop c first time l (put_cpu c (enlist s1 x t p1) s1) = Done s' ∧ sched_rep w' hm [] None s') as Hmove.
  { intros th' x Hpar Hx Hlk' p1 s1. destruct (requeue w hm s c p t th th' x Hr Hc Hw Hnt Hth Hpar Hx Hlk') as [Erm Hr1].
    split; [done|]. split; [by apply (put_same_cpu s c p1 p)|]. apply (IH _ _ hm Hr1).
    eapply (sleeper_keeps c me first t l s _ p (enlist s1 x t p1) th' Hs Hc eq_refl).
    - by destruct Hx as [[-> _]|[-> _]].
    - by destruct Hx as [[-> _]|[-> _]]. }
  assert (∀ s0, put_thread t th (put_cpu c (unlist (InSleep c) t p) s) = s0 → s0 = put_cpu c (unlist (InSleep c) t p) s) as Hsame.
  { intros s0 <-. unfold put_thread, put_threads, put_cpu, put_cpus. simpl. by rewrite insert_id. }
  destruct (sleep_until (slp th)) as [til|] eqn:Etil.
  - destruct (time <? til); [by exists s, w|]. unfold sleeper_wake.
    destruct Hf as [b Hb].
    set (th1 := set_wake_reason wake_success (set_state Ready (set_sleep_until (sleep_dur (slp th)) None th))).
    assert (∃ v, (let s1 := put_thread t th1 (put_cpu c (unlist (InSleep c) t p) s) in
              b ← get_thread first s1; upd_thread t (set_vruntime (vruntime (acct b))) s1) =
              Done (put_thread t (set_vruntime v th1) (put_cpu c (unlist (InSleep c) t p) s))) as [v Ev].
    { cbv zeta. unfold get_thread. simpl. destruct (decide (first = t)) as [->|].
      - rewrite lookup_insert_eq. cbn [deref mbind outcome_bind]. rewrite upd_put_thread. by eexists.
      - rewrite lookup_insert_ne, Hb by done. cbn [deref mbind outcome_bind]. rewrite upd_put_thread. by eexists. }
    destruct (Hmove (set_vruntime v th1) (InQueue c) eq_refl) as (Erm & Hc1 & Hgo); [by left|done|].
    rewrite Erm. cbn [mbind outcome_bind]. cbv zeta in Ev.
    apply bind_Done_inv in Ev as (b' & Eb & Ev). rewrite Eb. cbn [mbind outcome_bind]. rewrite Ev. cbn [mbind outcome_bind].
    unfold queue_insert, upd_cpu, get_cpu. rewrite Hc1. cbn [deref mbind outcome_bind]. exact Hgo.
  - destruct (state th) eqn:Est; try (by apply (IH s w hm)).
    + destruct (Hmove th (InQueue c) eq_refl) as (Erm & Hc1 & Hgo); [by left|done|].
      rewrite Erm. cbn [mbind outcome_bind]. rewrite (Hsame _ eq_refl) in Hc1, Hgo.
      unfold queue_insert, upd_cpu, get_cpu. rewrite Hc1. cbn [deref mbind outcome_bind]. exact Hgo.
    + destruct Hst as [?|[?|?]]; congruence.
    + destruct (Hmove th (InDead c) eq_refl) as (Erm & Hc1 & Hgo); [by right|done|].
      rewrite Erm. cbn [mbind outcome_bind]. rewrite (Hsame _ eq_refl) in Hc1, Hgo.
      rewrite (dead_push_eq _ c _ t Hc1). cbn [mbind outcome_bind]. exact Hgo.
Qed.

Lemma sleeper_pass_ok w hm s c p me th time s' : sched_rep w hm [] None s → cpus s !! c = Some p →
  running_thread p = Some me → threads s !! me = Some th → state th ≠ Sleeping → sleeper_pass c time s = Done s' →
  ∃ w', sched_rep w' hm [] None s'.
Proof.
  intros Hr Hc Hrun Hth Hst. unfold sleeper_pass, get_cpu. rewrite Hc. cbn [deref mbind outcome_bind].
  destruct (sleep_queue p) as [|first l] eqn:El; [intros [= <-]; eauto|]. intros E.
  apply bind_Done_inv in E as (s1 & E1 & E). apply bind_Done_inv in E as (s2 & E2 & E).
  destruct (preempt_ok w hm s c disable s1 ltac:(by left) Hr E1) as (Hr1 & Et1 & _ & Hk1).
  assert (sleeper_runs c me first (first :: l) s1) as Hs.
  { assert (w first = InSleep c) as Hw by (apply (sr_sleep _ _ _ _ _ Hr c p first Hc); rewrite El; by left).
    split; [rewrite Et1; apply (sr_place _ _ _ _ _ Hr); left; by rewrite Hw|].
    destruct (sr_nodup _ _ _ _ _ Hr c p Hc) as (_ & N & _). rewrite El in N. split; [done|]. split.
    - rewrite <-El, (sr_sleep _ _ _ _ _ Hr c p me Hc). intros Hme.
      destruct (sr_thread _ _ _ _ _ Hr me th Hth) as [_ Hok]. specialize (Hok ltac:(set_solver)). unfold thread_ok in Hok.
      rewrite Hme in Hok. destruct Hok as [(_ & ? & _)|[Hn _]]; [done|]. destruct Hn. by apply (on_cpu_running s c p me Hc).
    - destruct (cpus s1 !! c) as [p1|] eqn:Hc1.
      + destruct (Hk1 c p1 Hc1) as (p0 & ? & _ & Hsq & _ & Hrn). simplify_eq. exists p1.
        split; [done|]. split; [congruence|]. intros u. by rewrite Hsq, El.
      + exfalso. unfold disable, get_cpu in E1. destruct (negb (initialised s)); [congruence|]. rewrite Hc in E1.
        cbn [deref mbind outcome_bind] in E1. destruct (in_scheduler p); [congruence|]. injection E1 as <-.
        by rewrite (put_same_cpu s c _ p Hc) in Hc1. }
  destruct (sleeper_loop_ok c me first time (first :: l) s1 w hm Hr1 Hs) as (s2' & w2 & E2' & Hr2). rewrite E2 in E2'. simplify_eq.
  exists w2. by eapply (preempt_ok w2 hm s2' c enable s'); [by right| |].
Qed.

(** * Ending threads *)

(** [status::killed] for a thread that is not just going to sleep. *)
Lemma kill_ok w hm s t th : sched_rep w hm [] None s → threads s !! t = Some th → state th ≠ NotReady →
  sleep_lock (slp th) = false → (∀ c p, cpus s !! c = Some p → idle_thread p ≠ Some t ∧ reaper_thread p ≠ Some t) →
  sched_rep w hm [] None (put_thread t (set_state Killed th) s).
Proof.
  intros Hr Hth Hst Hlk Hsv. destruct (sr_thread _ _ _ _ _ Hr t th Hth) as [_ Hok]. specialize (Hok ltac:(set_solver)).
  apply (rep_thread w hm _ _ s t th); try done.
  - intros _. right. intros c p Hc. apply (Hsv c p Hc).
  - assert (¬ reaps s t) as Hnr by (intros (c & p & Hc & Hrt); by destruct (Hsv c p Hc)).
    intros _. unfold thread_ok in *. destruct (w t) as [|c|c|c|c|c].
    + by destruct Hok as [[?|[_ ?]] _].
    + destruct Hok. split; [by right|done].
    + destruct Hok as [(_ & _ & [?|?])|(Hn & _)]; [congruence|done|]. right. split; [done|]. split; [by right; right|done].
    + done.
    + destruct Hok as [Hon [_|(_ & [[? _]|[_ ?]])]]; [|congruence|done]. split; [done|]. left. split; [by right|done].
    + destruct Hok as (_ & _ & p & Hc & Hi). by destruct (Hsv c p Hc).
Qed.

(** The reaper finds nothing to do. *)
Lemma reaper_idle_ok w hm s c p t th s' : sched_rep w hm [] None s → cpus s !! c = Some p → running_thread p = Some t →
  reaper_thread p = Some t → idle_thread p ≠ Some t → threads s !! t = Some th → state th ≠ Sleeping →
  reaper_idle c s = Done s' → sched_rep w hm [] None s'.
Proof.
  intros Hr Hc Hrun Hrt Hid Hth Hst. unfold reaper_idle, get_cpu. rewrite Hc. cbn [deref mbind outcome_bind].
  case_bool_decide; [|by intros [= <-]]. rewrite Hrt. cbn [deref mbind outcome_bind].
  rewrite (upd_thread_eq _ _ _ th Hth). cbn [mbind outcome_bind]. rewrite get_put_thread. cbn [mbind outcome_bind].
  intros (u & _ & [= <-])%bind_Done_inv.
  destruct (running_place w hm s c p t th Hr Hc Hrun Hth Hid) as [[Hw [[_ Hlk]|[? _]]]|(_ & ? & _)]; [|done..].
  apply (rep_thread w hm _ _ s t th); try done. intros _. unfold thread_ok. rewrite Hw.
  split; [by apply (on_cpu_running s c p t Hc)|]. right. split; [done|]. right. split; [done|]. by exists c, p.
Qed.

Lemma clear_dead w hm s c l : ∀ p, sched_rep w hm [] None s → cpus s !! c = Some p → dead_threads p = l →
  ∃ w', sched_rep w' hm l None (put_cpu c (set_dead [] p) s) ∧ (∀ t, t ∈ l → w' t = Nowhere).
Proof.
  intros p Hr Hc Hl.
  assert (∀ k w0 X p0, sched_rep w0 hm X None (put_cpu c p0 s) → dead_threads p0 = k → (∀ t, t ∈ X → w0 t = Nowhere) →
    running_thread p0 = running_thread p → (∀ t, t ∈ k → running_thread p ≠ Some t ∧ is_Some (threads s !! t)) →
    ∃ w', sched_rep w' hm (k ++ X) None (put_cpu c (set_dead [] p0) s) ∧ ∀ t, t ∈ k ++ X → w' t = Nowhere) as Hgo.
  { induction k as [|t k IH]; intros w0 X p0 Hr0 Hk HX Hrn Hthr.
    - exists w0. assert (set_dead [] p0 = p0) as -> by (destruct p0; simpl in *; by subst). done.
    - assert (cpus (put_cpu c p0 s) !! c = Some p0) as Hc0 by by apply (put_same_cpu s c p0 p).
      assert (w0 t = InDead c) as Hw0 by (apply (sr_dead _ _ _ _ _ Hr0 c p0 t Hc0); rewrite Hk; by left).
      destruct (Hthr t) as [Hnr Hsome]; [by left|].
      assert (sched_rep (moved_to w0 t Nowhere) hm (t :: X) None (put_cpu c (unlist (w0 t) t p0) (put_cpu c p0 s))) as Hr1.
      { apply (unlist_spec w0 hm (t :: X) None _ c p0 t); [by apply rep_add|done|by left|right; congruence|right; by right]. }
      rewrite Hw0, put_cpu_put in Hr1. destruct (sr_nodup _ _ _ _ _ Hr0 c p0 Hc0) as (_ & _ & N). rewrite Hk in N.
      destruct (IH (moved_to w0 t Nowhere) (t :: X) (unlist (InDead c) t p0) Hr1) as (w' & Hr' & Hw').
      + simpl. by rewrite Hk, filter_head.
      + intros u [->|Hu]%elem_of_cons; [apply moved_same|]. unfold moved_to. case_decide; [done|by apply HX].
      + done.
      + intros u Hu. apply Hthr. by right.
      + exists w'. split; [|intros u Hu; apply Hw'; set_solver]. apply (rep_exempt w' hm (k ++ t :: X)); [exact Hr'|set_solver|].
        intros u Hu. apply (sr_place _ _ _ _ _ Hr'). right. set_solver. }
  destruct (Hgo l w [] p) as (w' & Hr' & Hw').
  - by rewrite put_cpu_id.
  - done.
  - set_solver.
  - done.
  - intros t Ht. rewrite <-Hl, (sr_dead _ _ _ _ _ Hr c p t Hc) in Ht. split.
    + intros Hrun. destruct (sr_running _ _ _ _ _ Hr c p t ltac:(done) Hc Hrun) as [?|[?|?]]; congruence.
    + apply (sr_place _ _ _ _ _ Hr). left. congruence.
  - rewrite app_nil_r in *. by exists w'.
Qed.

Lemma thread_destroy_spec s t th s' : thread_destroy t s = Done s' → threads s !! t = Some th →
  ∃ s1, s' = put_threads (delete t (threads s1)) s1 ∧ threads s1 = threads s ∧ cpus s1 = cpus s ∧
    initialised s1 = initialised s ∧ ptab (tables s1) = ptab (tables s).
Proof.
  intros E Hth. unfold thread_destroy, get_thread in E. rewrite Hth in E. cbn [deref mbind outcome_bind] in E.
  apply bind_Done_inv in E as (hp & _ & E). apply bind_Done_inv in E as (s1 & Es1 & E).
  apply bind_Done_inv in E as (hp' & _ & E). injection E as <-. exists (put_heap hp' s1).
  assert (threads s1 = threads s ∧ cpus s1 = cpus s ∧ initialised s1 = initialised s ∧ ptab (tables s1) = ptab (tables s)) as (? & ? & ? & ?).
  2:{ by split_and!. }
  destruct (is_user th); [|by injection Es1 as <-]. unfold unmap_stack in Es1.
  apply bind_Done_inv in Es1 as (o & _ & Es1). apply bind_Done_inv in Es1 as (pr & _ & Es1).
  apply bind_Done_inv in Es1 as (v & _ & Es1). apply bind_Done_inv in Es1 as (sp & _ & Es1).
  apply bind_Done_inv in Es1 as ([r sp'] & _ & Es1). destruct r; [|done].
  destruct (_ =? _) in Es1; [|done]. by injection Es1 as <-.
Qed.

Lemma reap_loop_ok w hm l : ∀ s s', sched_rep w hm l None s → NoDup l →
  (∀ t, t ∈ l → w t = Nowhere ∧ ∃ th, threads s !! t = Some th ∧ state th = Killed) →
  reap_loop l s = Done s' → sched_rep w hm [] None s'.
Proof.
  induction l as [|t l IH]; intros s s' Hr Hnd Hl E; cbn [reap_loop] in E; [by injection E as <-|].
  apply NoDup_cons in Hnd as [Htl Hnd]. destruct (Hl t) as [Hw (th & Hth & Hk)]; [by left|].
  unfold get_thread in E. rewrite Hth in E. cbn [deref mbind outcome_bind] in E.
  apply bind_Done_inv in E as (pr & Hpr & E). apply deref_Done_inv in Hpr. apply bind_Done_inv in E as (u & _ & E).
  apply bind_Done_inv in E as (s1 & Es1 & E).
  set (pr' := set_threads _ _ _ pr) in *. set (s0 := put_tables _ s) in *.
  assert (sched_rep w hm (t :: l) None s0) as Hr0 by (apply rep_tables; [done|]; by apply keeps_threads).
  destruct (thread_destroy_spec s0 t th s1 Es1 Hth) as (s2 & -> & Et & Ec & Ei & Ep).
  case_match; [done|]. refine (IH _ s' _ Hnd _ E).
  - apply (rep_delete w hm l None s2 t th); [|by rewrite Et|done..].
    assert (s2 = put_memory (memory s2) (put_heap (heap s2) (put_tables (tables s2) s0))) as ->.
    { destruct s0, s2; simpl in *. by subst. }
    apply rep_memory, rep_heap, rep_tables; [done|]. intros i q Hi Hv. exists q. by rewrite Ep.
  - intros v Hv. destruct (Hl v) as [? (thv & Hthv & ?)]; [by right|]. split; [done|]. exists thv. split; [|done].
    simpl. rewrite Et. rewrite lookup_delete_ne; [done|]. by intros ->.
Qed.

Lemma reap_ok w hm s c s' : sched_rep w hm [] None s → reap c s = Done s' → ∃ w', sched_rep w' hm [] None s'.
Proof.
  intros Hr E. unfold reap in E. apply bind_Done_inv in E as (s1 & E1 & E).
  destruct (preempt_ok w hm s c disable s1 ltac:(by left) Hr E1) as (Hr1 & Et1 & _).
  apply bind_Done_inv in E as (p & Hc & E). apply deref_Done_inv in Hc.
  apply bind_Done_inv in E as (s2 & E2 & E). unfold upd_cpu, get_cpu in E2. rewrite Hc in E2. injection E2 as <-.
  apply bind_Done_inv in E as (s3 & E3 & E).
  destruct (clear_dead w hm s1 c (dead_threads p) p Hr1 Hc eq_refl) as (w' & Hr2 & Hw').
  assert (∀ t, t ∈ dead_threads p → ∃ th, threads s1 !! t = Some th ∧ state th = Killed) as Hk.
  { intros t Ht. apply (sr_dead _ _ _ _ _ Hr1 c p t Hc) in Ht.
    destruct (sr_place _ _ _ _ _ Hr1 t) as [th Hth]; [left; congruence|]. exists th. split; [done|].
    destruct (sr_thread _ _ _ _ _ Hr1 t th Hth) as [_ Hok]. specialize (Hok ltac:(set_solver)). unfold thread_ok in Hok.
    rewrite Ht in Hok. apply Hok. }
  destruct (sr_nodup _ _ _ _ _ Hr1 c p Hc) as (_ & _ & N).
  assert (sched_rep w' hm (dead_threads p) None s3 ∧ threads s3 = threads s1) as [Hr3 Et3].
  { clear E. unfold enable, get_cpu in E3. destruct (negb (initialised _)); [by injection E3 as <-|].
    rewrite (put_same_cpu s1 c _ p Hc) in E3. cbn [deref mbind outcome_bind] in E3.
    destruct (in_scheduler _); [by injection E3 as <-|]. injection E3 as <-. case_match eqn:Hpos; [|done].
    split; [|done]. apply (rep_cpu w' hm _ None _ c (set_dead [] p)); try done.
    - by apply (put_same_cpu s1 c _ p).
    - by left.
    - intros _. split; [done|]. by apply (sr_cpu _ _ _ _ _ Hr1 c p).
    - apply Z.ltb_lt in Hpos. simpl in *. lia.
    - intros t th Ht Hn Hth Hlk. destruct (sr_thread _ _ _ _ _ Hr2 t th Hth) as [_ Hok]. specialize (Hok Hn).
      unfold thread_ok in Hok. rewrite Ht in Hok.
      destruct Hok as [_ [[_ ?]|(_ & [(_ & q & Hq & ?)|[? _]])]]; [congruence| |congruence].
      rewrite (put_same_cpu s1 c _ p Hc) in Hq. by injection Hq as <-. }
  exists w'. apply (reap_loop_ok w' hm (dead_threads p) s3 s' Hr3 N); [|done].
  intros t Ht. split; [by apply Hw'|]. rewrite Et3. by apply Hk.
Qed.

(** * Start *)
Lemma rep_set_idle w hm s c p t th ip : sched_rep w hm [t] None s → cpus s !! c = Some p → threads s !! t = Some th →
  w t = Nowhere → hm t = c → state th = Ready → sleep_lock (slp th) = false → idle_thread p = None → running_thread p = None →
  (∀ c' p', cpus s !! c' = Some p' → reaper_thread p' ≠ Some t) →
  sched_rep (moved_to w t (Idle c)) hm [] None (put_cpu c (int_switch true (set_service ip (Some t) (reaper_thread p) p)) s).
Proof.
  intros Hr Hc Hth Hw Hhm Hst Hlk Hid Hrun Hrt. set (p' := int_switch true _). pose proof Hr as [].
  assert (∀ u, w u ≠ OnCpu c ∨ u = t) as Hno.
  { intros u. destruct (decide (u = t)); [by right|left]. intros E.
    destruct (sr_place u) as [thu Hu]; [left; by rewrite E|]. destruct (sr_thread u thu Hu) as [_ Hok].
    specialize (Hok ltac:(set_solver)). unfold thread_ok in Hok. rewrite E in Hok. destruct Hok as [Hon _].
    apply (on_cpu_running s c p u Hc) in Hon. congruence. }
  assert (∀ c' u, on_cpu None (put_cpu c p' s) c' u ↔ on_cpu None s c' u) as Hon.
  { intros c' u. unfold on_cpu. destruct (decide (c' = c)) as [->|].
    - rewrite (put_same_cpu s c p' p Hc), Hc. split; intros [Hn (? & [= <-] & ?)]; eauto.
    - by rewrite put_other_cpu. }
  assert (∀ u, reaps s u → reaps (put_cpu c p' s) u) as Hrp by (intros u; apply (reaps_put s c p p'); [done|by left]).
  assert (∀ u x, x ≠ Idle c → x ≠ Nowhere → w u = x ↔ moved_to w t (Idle c) u = x) as Hmv.
  { intros u x Hx1 Hx2. unfold moved_to. case_decide; [|done]. subst u. rewrite Hw. split; congruence. }
  split.
  - intros c' p0 u [[-> ->]|[_ ?]]%(cpus_put s c p' p c' p0 Hc); rewrite <-Hmv by done; [by apply (sr_queue c p)|by apply sr_queue].
  - intros c' p0 u [[-> ->]|[_ ?]]%(cpus_put s c p' p c' p0 Hc); rewrite <-Hmv by done; [by apply (sr_sleep c p)|by apply sr_sleep].
  - intros c' p0 u [[-> ->]|[_ ?]]%(cpus_put s c p' p c' p0 Hc); rewrite <-Hmv by done; [by apply (sr_dead c p)|by apply sr_dead].
  - intros c' p0 [[-> ->]|[_ ?]]%(cpus_put s c p' p c' p0 Hc); [by apply (sr_nodup c p)|by eapply sr_nodup].
  - intros c' p0 [[-> ->]|[_ ?]]%(cpus_put s c p' p c' p0 Hc); [by apply (sr_ordered c p)|by eapply sr_ordered].
  - intros c' p0 [[-> ->]|[_ ?]]%(cpus_put s c p' p c' p0 Hc); [by apply (sr_asleep c p)|by eapply sr_asleep].
  - intros u thu Hu. destruct (sr_thread u thu Hu) as [Hp Hok]. split; [done|]. intros _.
    unfold thread_ok. destruct (decide (u = t)) as [->|Hut].
    + rewrite moved_same. simpl in Hu. simplify_eq. split; [by left|]. split; [done|]. exists p'.
      split; [by eapply put_same_cpu|done].
    + rewrite moved_other by done. specialize (Hok ltac:(set_solver)). unfold thread_ok in Hok.
      destruct (w u) as [|c'|c'|c'|c'|c'] eqn:E; try done.
      * destruct Hok as [[?|[? ?%Hrp]] ?]; auto.
      * rewrite Hon. destruct Hok as [(? & ? & [?|?%Hrp])|?]; auto.
      * rewrite Hon. assert (c' ≠ c) by (intros ->; by destruct (Hno u)).
        destruct Hok as [? [?|(? & [(? & q & Hq & ?)|[? ?%Hrp]])]]; (split; [done|]); [by left|right..]; (split; [done|]); [left|by right].
        split; [done|]. exists q. by rewrite put_other_cpu.
      * destruct Hok as (? & ? & q & Hq & ?). split_and!; [done..|]. assert (c' ≠ c) by (intros ->; congruence).
        exists q. by rewrite put_other_cpu.
  - intros u [Hu|Hu]; [|set_solver]. simpl. unfold moved_to in Hu. case_decide; [subst; eauto|]. apply sr_place. by left.
  - intros c' p0 u _ [[-> ->]|[Hne Hc']]%(cpus_put s c p' p c' p0 Hc) Hu; [simpl in Hu; congruence|].
    destruct (sr_running c' p0 u ltac:(done) Hc' Hu) as [E|[E|E]]; rewrite moved_other by (intros ->; congruence); auto.
  - intros c' p0 u [[-> ->]|[Hne Hc']]%(cpus_put s c p' p c' p0 Hc) Hu.
    + injection Hu as ->. apply moved_same.
    + pose proof (sr_idle c' p0 u Hc' Hu). rewrite moved_other; [done|]. intros ->. congruence.
  - intros c' p0 u Hc' Hu. assert (∃ p1, cpus s !! c' = Some p1 ∧ reaper_thread p1 = Some u) as (p1 & Hp1 & Hu1).
    { apply (cpus_put s c p' p c' p0 Hc) in Hc' as [[-> ->]|[_ ?]]; eauto. }
    destruct (sr_reaper c' p1 u Hp1 Hu1) as (thu & ? & ? & ? & ?). exists thu. split_and!; [done..|].
    rewrite moved_other; [done|]. intros ->. by apply (Hrt c' p1).
  - intros u c'. unfold moved_to. case_decide; [subst u; simpl; congruence|apply sr_home].
  - intros c' p0 Hc' Hin. apply (cpus_put s c p' p c' p0 Hc) in Hc' as [[-> ->]|[_ Hc']];
      [exact (sr_started c p Hc Hin)|exact (sr_started c' p0 Hc' Hin)].
  - intros c' p0 [[-> ->]|[_ ?]]%(cpus_put s c p' p c' p0 Hc); [exact (sr_cpu _ p Hc)|by eapply sr_cpu].
  - intros u c'. unfold moved_to. intros Hu. apply put_some_cpu. case_decide; [simpl in Hu; subst; by eexists|by apply (sr_there u)].
Qed.
End steps.
