(* ===== verification/SchedReach.v ===== *)
(** Start-up of the scheduler, the steps of the running system and what holds in every state
    they reach. *)

From Stdlib Require Import Sorting.Sorted.
From S2P Require Import Prelude Math Pmm PmmBlocks Frames Pagemap PagemapTree PagemapSpec Objects Vmm Vfs Process ProcessSpec Sched SchedInv SchedSpec SchedSteps.

Section reach.
Context {St PM H : Type} `{FrameAllocator St, PageMapOps PM, KernelHeap H}.
Implicit Types s : sched St PM H.

Definition sched_ok s : Prop := ∃ w hm, sched_rep w hm [] None s.

(** [start] has not been called on any processor yet. *)
Definition unstarted s : Prop :=
  threads s = ∅ ∧ initialised s = false ∧ ∀ c p, cpus s !! c = Some p → p = blank_cpu.
Lemma unstarted_ok s : unstarted s → sched_ok s.
Proof.
  intros (Ht & Hi & Hc). exists (λ _, Nowhere), (λ _, 0%nat).
  split; try (intros c p Hp; rewrite (Hc c p Hp)); simpl; try done.
  all: try (intros; set_solver).
  all: try (intros c p t Hp; rewrite (Hc c p Hp); simpl; try done; set_solver).
  - split_and!; constructor.
  - constructor.
  - constructor.
  - intros t th. by rewrite Ht.
  - congruence.
Qed.

Lemma start_idle_ok s c p vs ip s' : sched_ok s → cpus s !! c = Some p → idle_thread p = None → running_thread p = None →
  start_idle c vs ip s = Done s' → sched_ok s'.
Proof.
  intros (w & hm & Hr) Hc Hid Hrun E. unfold start_idle in E.
  set (i := fresh (dom (ptab (tables s)))) in *. set (pr := set_place _ _ _ _ _) in *. set (s0 := put_tables _ s) in *.
  assert (sched_rep w hm [] None s0) as Hr0.
  { apply rep_tables; [done|]. intros j q Hj Hv. exists q. split; [|done]. simpl. rewrite lookup_insert_ne; [done|].
    intros <-. assert (ptab (tables s) !! i = None) by (apply not_elem_of_dom, is_fresh). congruence. }
  assert (ptab (tables s0) !! i = Some pr) as Hp by apply lookup_insert_eq.
  apply bind_Done_inv in E as ([t s1] & Ecr & E).
  destruct (thread_create_ok w hm c i ip false s0 t s1 pr Hr0 Hp ltac:(by eexists) Ecr) as (Hr1 & Hw & Hrt & th & Hth & _ & Hlk).
  destruct (thread_create_spec c i ip false s0 t s1 pr Ecr Hp ltac:(by eexists)) as (_ & th' & s2 & -> & Hsame & _).
  apply same_but_hw_services in Hsame. destruct (proj2 (Hsame c) (ex_intro _ p Hc)) as [p1 Hc1].
  destruct (proj1 (Hsame c) p1 Hc1) as (p0 & Hp0 & Ei & Ert & Ern). change (cpus s0) with (cpus s) in Hp0. simplify_eq.
  rewrite (upd_thread_eq _ _ _ th Hth) in E. cbn [mbind outcome_bind] in E. unfold upd_cpu, get_cpu in E.
  simpl in E. rewrite Hc1 in E. injection E as <-.
  set (s3 := put_thread t (set_state Ready th) (put_thread t th' s2)).
  exists (moved_to w t (Idle c)), (λ u, if decide (u = t) then c else hm u).
  change (sched_rep (moved_to w t (Idle c)) (λ u, if decide (u = t) then c else hm u) [] None
    (put_cpu c (int_switch true (set_service (Some i) (Some t) (reaper_thread p1) p1)) s3)).
  apply (rep_set_idle w _ s3 c p1 t (set_state Ready th) (Some i)); try done.
  - apply rep_adopt; [|done|done]. eapply rep_edit; [apply rep_add; [exact Hr1|by eexists]|exact Hth|by left|done|by rewrite Hw|by rewrite Hw|done].
  - apply lookup_insert_eq.
  - by case_decide.
  - congruence.
  - congruence.
Qed.

(** A thread becomes the reaper of its processor. *)
Lemma rep_set_reaper w hm s c p t th : sched_rep w hm [] None s → cpus s !! c = Some p → reaper_thread p = None →
  threads s !! t = Some th → state th ≠ Killed → hm t = c → w t ≠ Idle c →
  sched_rep w hm [] None (put_cpu c (set_service (idle_proc p) (idle_thread p) (Some t) p) s).
Proof.
  intros Hr Hc Hno Hth Hnk Hhm Hw. apply (rep_cpu w hm [] None s c p); try done.
  - right. split; [done|]. by exists t, th.
  - intros _. split; [done|]. by apply (sr_cpu _ _ _ _ _ Hr c p).
  - by apply (sr_cpu _ _ _ _ _ Hr c p).
  - intros u thu Hu _ Hthu Hlk. destruct (sr_thread _ _ _ _ _ Hr u thu Hthu) as [_ Hok]. specialize (Hok ltac:(set_solver)).
    unfold thread_ok in Hok. rewrite Hu in Hok. destruct Hok as [_ [[_ ?]|(_ & [(_ & q & ? & ?)|[? _]])]]; [congruence| |congruence].
    by simplify_eq.
Qed.

(** The service threads of the processors in [idxs] are started, those of the others run. *)
Lemma start_services_ok here rip sip par pr idxs : ∀ s s', sched_ok s → initialised s = false →
  processes (tables s) !! 0 = Some par → ptab (tables s) !! par = Some pr → is_Some (vspace pr) →
  NoDup idxs → (∀ c, c ∈ idxs → ∃ p, cpus s !! c = Some p ∧ reaper_thread p = None) → (∀ c p, cpus s !! c = Some p → c ∈ idxs ∨ is_Some (reaper_thread p)) →
  start_services here idxs rip sip s = Done s' → sched_ok s'.
Proof.
  revert pr. induction idxs as [|c idxs IH]; intros pr s s' (w & hm & Hr) Hini Hpid Hpr Hv Hnd Hex Hall E; cbn [start_services] in E.
  - injection E as <-. exists w, hm. destruct Hr. split; try done. intros c p Hc _.
    destruct (Hall c p Hc) as [?|?]; [set_solver|done].
  - apply bind_Done_inv in E as ([t s1] & E1 & E). apply bind_Done_inv in E as (s2 & E2 & E).
    apply bind_Done_inv in E as ([t' s3] & E3 & E).
    unfold upd_cpu, get_cpu in E2. apply bind_Done_inv in E2 as (p1 & Hc1 & E2). apply deref_Done_inv in Hc1. injection E2 as <-.
    apply NoDup_cons in Hnd as [Hnc Hnd]. destruct (Hex c) as (p & Hc & Hno); [by left|].
    destruct (spawn_on_ok w hm here c p 0 par pr rip 19 s t s1 Hr Hc Hpid Hpr Hv E1)
      as (w1 & hm1 & Hr1 & Hw1 & Hhm1 & (th & Hth & Hst) & [Hk1 Hs1] & Hin1 & Hsv1).
    set (s2 := put_cpu c _ s1) in *.
    assert (sched_rep w1 hm1 [] None s2) as Hr2.
    { destruct (proj1 (Hsv1 c) p1 Hc1) as (p0 & Hp0 & _ & Ert & _).
      apply (rep_set_reaper w1 hm1 s1 c p1 t th); try done; congruence. }
    destruct (Hs1 par pr Hpr Hv) as (pr1 & Hpr1 & Hv1).
    assert (is_Some (cpus s2 !! c)) as [p2 Hc2] by (eexists; by apply (put_same_cpu s1 c _ p1)).
    destruct (spawn_on_ok w1 hm1 here c p2 0 par pr1 sip (-5) s2 t' s3 Hr2 Hc2 ltac:(simpl; by rewrite Hk1) Hpr1 Hv1 E3)
      as (w3 & hm3 & Hr3 & _ & _ & _ & [Hk3 Hs3] & Hin3 & Hsv3).
    destruct (Hs3 par pr1 Hpr1 Hv1) as (pr3 & Hpr3 & Hv3). simpl in Hk3, Hin3.
    apply (IH pr3 s3 s'); try done.
    + by exists w3, hm3.
    + congruence.
    + by rewrite Hk3, Hk1.
    + intros c' Hc'. assert (c' ≠ c) by congruence. destruct (Hex c') as (q & Hq & Hqn); [by right|].
      destruct (proj2 (Hsv1 c') (ex_intro _ q Hq)) as [q1 Hq1].
      assert (cpus s2 !! c' = Some q1) as Hq2 by (unfold s2; by rewrite put_other_cpu).
      destruct (proj2 (Hsv3 c') (ex_intro _ q1 Hq2)) as [q3 Hq3]. exists q3. split; [done|].
      destruct (proj1 (Hsv3 c') q3 Hq3) as (? & ? & _ & -> & _). destruct (proj1 (Hsv1 c') q1 Hq1) as (? & ? & _ & ? & _). congruence.
    + intros c' p3 Hp3. destruct (proj1 (Hsv3 c') p3 Hp3) as (q & Hq & _ & Ert & _).
      apply (cpus_put s1 c _ p1 c' q Hc1) in Hq as [[-> ->]|[Hne Hq]]; [right; rewrite Ert; by eexists|].
      destruct (proj1 (Hsv1 c') q Hq) as (q0 & Hq0 & _ & Ert0 & _).
      destruct (Hall c' q0 Hq0) as [Hin|?]; [|right; congruence]. apply elem_of_cons in Hin as [?|?]; [done|by left].
Qed.

(** * The running system *)

(** Thread [t], which is not an idle thread and not asleep, executes on processor [c]. *)
Definition executes s (c : nat) (t : Z) : Prop :=
  ∃ p th, cpus s !! c = Some p ∧ running_thread p = Some t ∧ idle_thread p ≠ Some t ∧
    threads s !! t = Some th ∧ state th ≠ Sleeping.
(** Thread [t] serves no processor. *)
Definition ordinary s (t : Z) : Prop :=
  ∀ c p, cpus s !! c = Some p → idle_thread p ≠ Some t ∧ reaper_thread p ≠ Some t.
(** Process [par] can have threads. *)
Definition inhabitable s (par : Z) : Prop := ∃ pr, ptab (tables s) !! par = Some pr ∧ is_Some (vspace pr).

(** No processor has its reaper yet. *)
Definition unserved s : Prop := ∀ c p, cpus s !! c = Some p → reaper_thread p = None.

(** One step of the system: an operation of the scheduler on some processor, as one step.
    That holds for the interrupt handler, too: it reads the status of the thread it leaves
    again after it has released its [sleep_lock], and [SchedEnd.woken_in_two_queues] shows
    what comes of a [wake_up] on another processor in between.  Nobody wakes a reaper that
    is just falling asleep ([dozing]): it waits for nothing then that another thread could
    signal, and its own processor's handler leaves it first.  [update_ustack], which only
    changes the saved registers of a thread, is not a step. *)
Inductive sched_step s : sched St PM H → Prop :=
  | step_start_idle c p vs ip s' : cpus s !! c = Some p → idle_thread p = None → running_thread p = None →
      start_idle c vs ip s = Done s' → sched_step s s'
  | step_start_services here rip sip par s' : initialised s = false → unserved s → processes (tables s) !! 0 = Some par →
      inhabitable s par → start_services here (seq 0 (length (cpus s))) rip sip s = Done s' → sched_step s s'
  | step_interrupt c p i time time' r r' s' : cpus s !! c = Some p → ints p = true → idle_thread p = Some i →
      initialised s = true → schedule c time time' r s = Done (r', s') → sched_step s s'
  | step_prepare_sleep c t ms s' : executes s c t → prepare_sleep c t ms s = Done s' → sched_step s s'
  | step_yield_enter c p t now e old s' : cpus s !! c = Some p → running_thread p = Some t → idle_thread p ≠ Some t →
      t ∉ sleep_queue p → yield_enter c now s = Done (e, old, s') → sched_step s s'
  | step_yield_leave c t e old r s' : executes s c t → yield_leave c e old s = Done (r, s') → sched_step s s'
  | step_wake_up t reason b s' : ¬ dozing s t → wake_up t reason s = Done (b, s') → sched_step s s'
  | step_disable c s' : disable c s = Done s' → sched_step s s'
  | step_enable c s' : enable c s = Done s' → sched_step s s'
  | step_new_thread c par ip user t s' : inhabitable s par → thread_create c par ip user s = Done (t, s') → sched_step s s'
  | step_launch t th s' : threads s !! t = Some th → state th = NotReady → ordinary s t → is_Some (cpus s !! allocate_cpu s) →
      enqueue t (allocate_cpu s) (put_thread t (set_state Ready th) s) = Done s' → sched_step s s'
  | step_spawn_on here c n par ip prio t s' : is_Some (cpus s !! c) → processes (tables s) !! w64 n = Some par →
      inhabitable s par → spawn_on here c n ip prio s = Done (t, s') → sched_step s s'
  | step_sleeper c t time s' : executes s c t → sleeper_pass c time s = Done s' → sched_step s s'
  | step_reaper_idle c p t s' : executes s c t → cpus s !! c = Some p → reaper_thread p = Some t →
      reaper_idle c s = Done s' → sched_step s s'
  | step_reap c s' : reap c s = Done s' → sched_step s s'
  | step_kill t th : threads s !! t = Some th → state th ≠ NotReady → sleep_lock (slp th) = false → ordinary s t →
      sched_step s (put_thread t (set_state Killed th) s)
  | step_elsewhere x m h : keeps_spaces (tables s) x → sched_step s (put_tables x (put_memory m (put_heap h s))).

Lemma running_exists s c p t : sched_ok s → cpus s !! c = Some p → running_thread p = Some t → is_Some (threads s !! t).
Proof.
  intros (w & hm & Hr) Hc Hrun. apply (sr_place _ _ _ _ _ Hr). left.
  destruct (sr_running _ _ _ _ _ Hr c p t ltac:(done) Hc Hrun) as [->|[->| ->]]; done.
Qed.

Lemma sched_step_ok s s' : sched_ok s → sched_step s s' → sched_ok s'.
Proof.
  intros Hok [c p vs ip s1 Hc Hi Hrun E|here rip sip par s1 Hini Hno Hpid (pr & Hpr & Hv) E|c p i time time' r r' s1 Hc Hints Hi Hini E
    |c t ms s1 (p & th & Hc & Hrun & Hid & Hth & Hst) E|c p t now e old s1 Hc Hrun Hid Hq E
    |c t e old r s1 (p & th & Hc & Hrun & Hid & Hth & Hst) E|t reason b s1 Hdz E|c s1 E|c s1 E
    |c par ip user t s1 (pr & Hpr & Hv) E|t th s1 Hth Hst Hord [p Hc] E|here c n par ip prio t s1 [p Hc] Hpid (pr & Hpr & Hv) E
    |c t time s1 (p & th & Hc & Hrun & Hid & Hth & Hst) E|c p0 t s1 (p & th & Hc & Hrun & Hid & Hth & Hst) Hc0 Hrt E|c s1 E|t th Hth Hst Hlk Hord|x m h Hx].
  - by eapply start_idle_ok.
  - eapply start_services_ok; try done.
    + apply NoDup_seq.
    + intros c [_ Hc]%elem_of_seq. apply lookup_lt_is_Some in Hc as [p Hc]. exists p. split; [done|]. by apply (Hno c).
    + intros c p Hc. left. apply elem_of_seq. apply lookup_lt_Some in Hc. lia.
  - destruct Hok as (w & hm & Hr). destruct (schedule_spec w hm c time time' r s p i Hr Hc Hints Hi Hini) as (r1 & s2 & E2 & w' & Hr').
    rewrite E in E2. simplify_eq. by exists w', hm.
  - destruct Hok as (w & hm & Hr). destruct (prepare_sleep_ok w hm s c p t th ms Hr Hc Hrun Hth Hid Hst) as (s2 & E2 & Hr').
    rewrite E in E2. simplify_eq. by exists w, hm.
  - destruct (running_exists s c p t Hok Hc Hrun) as [th Hth]. destruct Hok as (w & hm & Hr).
    destruct (yield_enter_ok w hm s c p t th now Hr Hc Hrun Hth Hid Hq) as (e2 & o2 & s2 & w' & E2 & Hr').
    rewrite E in E2. simplify_eq. by exists w', hm.
  - destruct Hok as (w & hm & Hr). destruct (yield_leave_ok w hm s c p t th e old Hr Hc Hrun Hth Hst) as (r2 & s2 & E2 & Hr').
    rewrite E in E2. simplify_eq. by exists w, hm.
  - destruct Hok as (w & hm & Hr). exists w, hm. by eapply wake_up_ok.
  - destruct Hok as (w & hm & Hr). exists w, hm. eapply (preempt_ok w hm s c disable); [by left|done..].
  - destruct Hok as (w & hm & Hr). exists w, hm. eapply (preempt_ok w hm s c enable); [by right|done..].
  - destruct Hok as (w & hm & Hr). exists w, hm. by apply (thread_create_ok w hm c par ip user s t s1 pr).
  - destruct Hok as (w & hm & Hr). destruct (sr_thread _ _ _ _ _ Hr t th Hth) as [_ Hok]. specialize (Hok ltac:(set_solver)).
    assert (w t = Nowhere ∧ sleep_lock (slp th) = false) as [Hw Hlk].
    { unfold thread_ok in Hok. destruct (w t); rewrite Hst in Hok; [by destruct Hok|naive_solver..]. }
    destruct (launch_ok w hm s _ p t th (set_state Ready th) Hr Hc Hth Hw) as (s2 & w' & hm' & E2 & Hr' & _); try done.
    + intros c' p' Hc'. apply (Hord c' p' Hc').
    + rewrite E in E2. simplify_eq. by exists w', hm'.
  - destruct Hok as (w & hm & Hr). destruct (spawn_on_ok w hm here c p n par pr ip prio s t s1 Hr Hc Hpid Hpr Hv E) as (w' & hm' & Hr' & _).
    by exists w', hm'.
  - destruct Hok as (w & hm & Hr). destruct (sleeper_pass_ok w hm s c p t th time s1 Hr Hc Hrun Hth Hst E) as (w' & Hr'). by exists w', hm.
  - destruct Hok as (w & hm & Hr). exists w, hm. assert (p0 = p) as -> by congruence. by eapply (reaper_idle_ok w hm s c p t th).
  - destruct Hok as (w & hm & Hr). destruct (reap_ok w hm s c s1 Hr E) as (w' & Hr'). by exists w', hm.
  - destruct Hok as (w & hm & Hr). exists w, hm. by apply kill_ok.
  - destruct Hok as (w & hm & Hr). exists w, hm. by apply rep_tables; [apply rep_memory, rep_heap|].
Qed.

Lemma idle_not_dozing s t : forallb (λ p, bool_decide (running_thread p ≠ Some t)) (cpus s) = true → ¬ dozing s t.
Proof.
  intros Hl (c & p & th & Hc & Hrun & _). rewrite forallb_forall in Hl. apply list_elem_of_lookup_2, list_elem_of_In, Hl in Hc.
  by apply bool_decide_eq_true in Hc.
Qed.

(** * What holds in every state *)

(** The lists of a processor. *)
Definition members (p : percpu) : list Z := queue p ++ sleep_queue p ++ dead_threads p.
(** A thread is in one list, once, and the handler finds the thread it runs in no queue to
    run from. *)
Definition one_place s : Prop :=
  (∀ c p, cpus s !! c = Some p → NoDup (members p)) ∧
  (∀ c c' p p' t, cpus s !! c = Some p → cpus s !! c' = Some p' → t ∈ members p → t ∈ members p' → c = c') ∧
  ∀ c c' p p' t, cpus s !! c = Some p → cpus s !! c' = Some p' → running_thread p = Some t →
    (t ∉ queue p') ∧ (t ∉ dead_threads p') ∧ (running_thread p' = Some t → c = c').
(** A thread that can run waits in a list or is a processor's idle thread; a thread that
    sleeps is in a sleep queue or still on its way there; except for the reapers, which can
    be lost ([SchedEnd.reaper_lost]). *)
Definition none_lost s : Prop :=
  ∀ t th, threads s !! t = Some th →
    (state th = Ready → reaps s t ∨ ∃ c p, cpus s !! c = Some p ∧ (t ∈ queue p ∨ t ∈ sleep_queue p ∨ idle_thread p = Some t)) ∧
    (state th = Running → ∃ c p, cpus s !! c = Some p ∧ (running_thread p = Some t ∨ idle_thread p = Some t)) ∧
    (state th = Sleeping → reaps s t ∨ ∃ c p, cpus s !! c = Some p ∧ (t ∈ sleep_queue p ∨ running_thread p = Some t ∧ ints p = false)).
(** The queues are in order. *)
Definition in_order s : Prop :=
  ∀ c p, cpus s !! c = Some p →
    StronglySorted (λ a b, vruntime_of s a ≤ vruntime_of s b) (queue p) ∧
    StronglySorted (λ a b, opt_less (until_of s b) (until_of s a) = false) (sleep_queue p).
(** The interrupt handler neither panics nor waits. *)
Definition tick_returns s : Prop :=
  ∀ c p time time' r, cpus s !! c = Some p → ints p = true → is_Some (idle_thread p) → initialised s = true →
    ∃ r' s', schedule c time time' r s = Done (r', s').

Lemma sched_ok_one_place s : sched_ok s → one_place s.
Proof.
  intros (w & hm & Hr). assert (∀ c p t, cpus s !! c = Some p → t ∈ members p → home c (w t)) as Hhome.
  { intros c p t Hc. unfold members. rewrite !elem_of_app, (sr_queue _ _ _ _ _ Hr c p t Hc), (sr_sleep _ _ _ _ _ Hr c p t Hc),
      (sr_dead _ _ _ _ _ Hr c p t Hc). by intros [->|[->| ->]]. }
  split_and!.
  - intros c p Hc. destruct (sr_nodup _ _ _ _ _ Hr c p Hc) as (N1 & N2 & N3). unfold members. rewrite !NoDup_app.
    split_and!; [done| |done| |done]; intros t.
    + rewrite elem_of_app, (sr_queue _ _ _ _ _ Hr c p t Hc), (sr_sleep _ _ _ _ _ Hr c p t Hc), (sr_dead _ _ _ _ _ Hr c p t Hc).
      intros ->. by intros [?|?].
    + rewrite (sr_sleep _ _ _ _ _ Hr c p t Hc), (sr_dead _ _ _ _ _ Hr c p t Hc). by intros ->.
  - intros c c' p p' t Hc Hc' Hm Hm'. pose proof (Hhome c p t Hc Hm) as E. pose proof (Hhome c' p' t Hc' Hm') as E'.
    destruct (w t); simpl in *; congruence || done.
  - intros c c' p p' t Hc Hc' Hrun. pose proof (sr_running _ _ _ _ _ Hr c p t ltac:(done) Hc Hrun) as Hw.
    rewrite (sr_queue _ _ _ _ _ Hr c' p' t Hc'), (sr_dead _ _ _ _ _ Hr c' p' t Hc').
    split_and!; [by destruct Hw as [->|[->| ->]]..|]. intros Hrun'.
    destruct (sr_running _ _ _ _ _ Hr c' p' t ltac:(done) Hc' Hrun') as [E|[E|E]]; rewrite E in Hw; destruct Hw as [?|[?|?]]; congruence.
Qed.

Lemma sched_ok_none_lost s : sched_ok s → none_lost s.
Proof.
  intros (w & hm & Hr) t th Hth. destruct (sr_thread _ _ _ _ _ Hr t th Hth) as [_ Hok]. specialize (Hok ltac:(set_solver)).
  unfold thread_ok in Hok. pose proof (sr_there _ _ _ _ _ Hr t) as Hp.
  destruct (w t) as [|c|c|c|c|c] eqn:Hw; [|destruct (Hp c eq_refl) as [p Hc]..].
  - destruct Hok as [[?|[Hst ?]] _]; [split_and!; congruence|].
    split_and!; [by left|destruct Hst; congruence|by left].
  - destruct Hok as [Hst _]. split_and!; [|destruct Hst; congruence..]. intros _. right. exists c, p. split; [done|].
    left. by apply (sr_queue _ _ _ _ _ Hr c p t Hc).
  - assert (t ∈ sleep_queue p) by by apply (sr_sleep _ _ _ _ _ Hr c p t Hc).
    split_and!; [|destruct Hok as [(_ & ? & _)|(_ & [?|[?|?]] & _)]; congruence|]; intros _; eauto 8.
  - destruct Hok. split_and!; congruence.
  - destruct Hok as [Hon Hst]. apply (on_cpu_running s c p t Hc) in Hon. split_and!; intros E.
    + destruct Hst as [[[?|?] _]|(? & _)]; congruence.
    + exists c, p. eauto.
    + destruct Hst as [[[?|?] _]|(_ & [(_ & q & ? & ?)|[_ ?]])]; [congruence..| |by left].
      assert (q = p) as -> by congruence. eauto 8.
  - destruct Hok as (Hst & _ & q & ? & ?). simplify_eq. split_and!; [| |destruct Hst; congruence]; intros _; eauto 8.
Qed.
Lemma sched_ok_in_order s : sched_ok s → in_order s.
Proof.
  intros (w & hm & Hr) c p Hc. split; [|apply (sr_asleep _ _ _ _ _ Hr c p Hc)].
  pose proof (sr_ordered _ _ _ _ _ Hr c p Hc) as Ho. induction Ho as [|t l Ho IH Hl]; constructor; [done|].
  eapply Forall_impl; [exact Hl|]. unfold run_before. intros u Hu%Z.ltb_ge. done.
Qed.
Lemma sched_ok_tick s : sched_ok s → tick_returns s.
Proof.
  intros (w & hm & Hr) c p time time' r Hc Hints [i Hi] Hini.
  destruct (schedule_spec w hm c time time' r s p i Hr Hc Hints Hi Hini) as (r' & s' & E & _). by exists r', s'.
Qed.

Lemma sched_ok_steps s s' : sched_ok s → rtc sched_step s s' → sched_ok s'.
Proof. intros Hok Hs. induction Hs as [|s1 s2 s3 Hstep _ IH]; [done|]. by apply IH, (sched_step_ok s1). Qed.

(** C1: in every state that is reached from start-up by steps of the scheduler, on any
    number of processors and with any clock, where each operation and each run of the
    interrupt handler is one step, a thread is in at most one list and runs on at most one
    processor; no thread that is ready, running or asleep is lost, except for the reapers of
    the processors, which an interrupt can lose while they fall asleep
    ([SchedEnd.reaper_lost]); the queues are ordered by virtual run time and by time to wake
    up; and the next timer interrupt returns. *)
Theorem sched_reachable_ok s0 s : unstarted s0 → rtc sched_step s0 s →
  one_place s ∧ none_lost s ∧ in_order s ∧ tick_returns s.
Proof.
  intros H0' Hs. assert (sched_ok s) as Hok.
  { by apply (sched_ok_steps s0), Hs; apply unstarted_ok. }
  split_and!; [by apply sched_ok_one_place|by apply sched_ok_none_lost|by apply sched_ok_in_order|by apply sched_ok_tick].
Qed.
End reach.

(** * An example: two processors start and take their first interrupts *)
Section example.
#[local] Instance idle_pages : PageMapOps Z :=
  {| pm_map _ _ _ _ m := Done (Value tt, m); pm_unmap _ _ m := Done (Value tt, m); pm_protect _ _ _ m := Done (Value tt, m);
     pm_translate _ m := Done (Unexpected not_mapped, m) |}.
#[local] Instance bump_heap : KernelHeap Z :=
  {| k_alloc n h := Done (h, h + n); k_free _ h := Done h; fpu_size := 512 |}.

Definition ex_power_on : sched Z Z Z := mk_sched [blank_cpu; blank_cpu] ∅ ex_kernel (mk_objstore ∅ ∅ 4096) 4096 false.
Definition ex_step (f : sched Z Z Z → outcome (sched Z Z Z)) (s : sched Z Z Z) : sched Z Z Z :=
  match f s with Done s' => s' | _ => s end.
Definition ex_idle0 : sched Z Z Z := ex_step (start_idle 0 0 111) ex_power_on.
Definition ex_idle1 : sched Z Z Z := ex_step (start_idle 1 0 111) ex_idle0.
Definition ex_booted : sched Z Z Z := ex_step (start_services 0 [0; 1]%nat 222 333) ex_idle1.
Definition ex_ticked : sched Z Z Z := ex_step (λ s, '(_, s) ← schedule 0 1000 1001 zero_regs s; Done s) ex_booted.

Definition ex_cpu (c : nat) (s : sched Z Z Z) : percpu := nth c (cpus s) blank_cpu.
Definition ex_thread (t : Z) (s : sched Z Z Z) : thread :=
  default (mk_thread 0 0 NotReady false (mk_account 0 0 0) (mk_slumber false false 0 None None)
    (mk_context zero_regs 0 0 zero_fp) (mk_stacks 0 0 None 0) None) (threads s !! t).

Lemma ex_power_on_unstarted : unstarted ex_power_on.
Proof. split; [done|]. split; [done|]. intros [|[|c]] p; simpl; [by intros [= <-]..|]. by destruct c. Defined.
Lemma ex_unserved : unserved ex_idle1.
Proof.
  assert (forallb (λ p, bool_decide (reaper_thread p = None)) (cpus ex_idle1) = true) as E by (vm_compute; reflexivity).
  intros c p Hc. rewrite forallb_forall in E. apply (bool_decide_eq_true (reaper_thread p = None)), E, list_elem_of_In.
  by eapply list_elem_of_lookup_2.
Defined.
Lemma ex_ticked_reachable : rtc sched_step ex_power_on ex_ticked.
Proof.
  apply (rtc_l _ _ ex_idle0).
  { apply (step_start_idle _ 0 blank_cpu 0 111); [reflexivity..|vm_compute; reflexivity]. }
  apply (rtc_l _ _ ex_idle1).
  { apply (step_start_idle _ 1 blank_cpu 0 111); [reflexivity..|vm_compute; reflexivity]. }
  apply (rtc_l _ _ ex_booted).
  { apply (step_start_services _ 0 222 333 0); [reflexivity|by apply ex_unserved|reflexivity| |vm_compute; reflexivity].
    eexists. split; [vm_compute; reflexivity|]. vm_compute. eauto. }
  apply (rtc_l _ _ ex_ticked); [|apply rtc_refl].
  eapply (step_interrupt _ 0 (ex_cpu 0 ex_booted) (default 0 (idle_thread (ex_cpu 0 ex_booted))) 1000 1001 zero_regs);
    vm_compute; reflexivity.
Defined.

Lemma ex_ticked_ok : sched_ok ex_ticked.
Proof. by apply (sched_ok_steps ex_power_on), ex_ticked_reachable; apply unstarted_ok, ex_power_on_unstarted. Qed.

Lemma sched_reachable_ok_witness : ∃ r s, schedule 1 2000 2001 zero_regs ex_ticked = Done (r, s).
Proof.
  apply (proj2 (proj2 (proj2 (sched_reachable_ok ex_power_on ex_ticked ltac:(apply ex_power_on_unstarted) ex_ticked_reachable)))
           1%nat (ex_cpu 1 ex_ticked)); [vm_compute; reflexivity..| |vm_compute; reflexivity]. vm_compute. eauto.
Defined.
End example.
