(* ===== verification/SchedRun.v ===== *)
(** Which thread the interrupt handler runs next, and what it does to the saved state of
    threads. *)

From Stdlib Require Import Sorting.Sorted.
From S2P Require Import Prelude Math Pmm PmmBlocks Frames Pagemap PagemapTree PagemapSpec Objects Vmm Vfs Process ProcessSpec Sched SchedInv SchedSpec SchedSteps SchedReach.

Section run.
Context {St PM H : Type} `{FrameAllocator St, PageMapOps PM, KernelHeap H}.
Implicit Types s : sched St PM H.

(** The first thread of the queue that is ready. *)
Fixpoint first_ready s (l : list Z) : option Z :=
  match l with
  | [] => None
  | t :: l => if bool_decide (state <$> threads s !! t = Some Ready) then Some t else first_ready s l
  end.

(** The rule: the first ready thread; if there is none, the interrupted thread if it still
    wants to run; otherwise the idle thread. *)
Definition next_thread s (p : percpu) : option Z :=
  match first_ready s (queue p) with
  | Some t => Some t
  | None =>
      match running_thread p with
      | Some cur =>
          if bool_decide (state <$> threads s !! cur = Some Running) && bool_decide (idle_thread p ≠ Some cur)
          then Some cur else idle_thread p
      | None => idle_thread p
      end
  end.

(** The part of a processor that no list operation touches. *)
Definition same_hw (p p' : percpu) : Prop :=
  running_thread p' = running_thread p ∧ idle_thread p' = idle_thread p ∧ hw p' = hw p ∧ reaper_thread p' = reaper_thread p.
Definition hw_kept (c : nat) s s' : Prop := tables s' = tables s ∧ ∀ p, cpus s !! c = Some p → ∃ p', cpus s' !! c = Some p' ∧ same_hw p p'.
#[export] Instance hw_kept_preorder c : PreOrder (hw_kept c).
Proof.
  split; [intros s; split; [done|]; intros p Hp; by exists p|]. intros s1 s2 s3 [E12 H12] [E23 H23]. split; [congruence|].
  intros p Hp. destruct (H12 p Hp) as (p2 & Hp2 & ? & ? & ? & ?).
  destruct (H23 p2 Hp2) as (p3 & Hp3 & ? & ? & ? & ?). exists p3. split; [done|]. split_and!; congruence.
Qed.
Lemma hw_kept_put c c' p p' s : cpus s !! c' = Some p → same_hw p p' → hw_kept c s (put_cpu c' p' s).
Proof.
  intros Hp Hs. split; [done|]. intros q Hq. destruct (decide (c = c')) as [->|].
  - exists p'. split; [by apply (put_same_cpu s c' p' p)|]. by simplify_eq.
  - exists q. by rewrite put_other_cpu.
Qed.
Lemma upd_cpu_hw c c' f s s' : upd_cpu c' f s = Done s' → (∀ p, same_hw p (f p)) → hw_kept c s s' ∧ threads s' = threads s.
Proof.
  unfold upd_cpu, get_cpu. intros E Hf. done_steps. split; [|done]. by eapply hw_kept_put.
Qed.
Lemma queue_remove_hw c c' t s s' : queue_remove c' t s = Done s' → hw_kept c s s' ∧ threads s' = threads s.
Proof. unfold queue_remove, get_cpu. intros E. done_steps. split; [|done]. by eapply hw_kept_put. Qed.
Lemma sleep_remove_hw c c' t s s' : sleep_remove c' t s = Done s' → hw_kept c s s' ∧ threads s' = threads s.
Proof. unfold sleep_remove, get_cpu. intros E. done_steps. split; [|done]. by eapply hw_kept_put. Qed.
Lemma queue_insert_hw c c' t s s' : queue_insert c' t s = Done s' → hw_kept c s s' ∧ threads s' = threads s.
Proof. intros E. by eapply upd_cpu_hw. Qed.
Lemma dead_push_hw c c' t s s' : dead_push c' t s = Done s' → hw_kept c s s' ∧ threads s' = threads s.
Proof. intros E. by eapply upd_cpu_hw. Qed.

Lemma first_ready_threads s s' l : threads s' = threads s → first_ready s' l = first_ready s l.
Proof. intros E. induction l as [|t l IH]; simpl; [done|]. by rewrite E, IH. Qed.

Lemma pick_loop_first c l : ∀ fd s next fd' s', pick_loop c l fd s = Done (next, fd', s') →
  next = first_ready s l ∧ threads s' = threads s ∧ hw_kept c s s'.
Proof.
  induction l as [|t l IH]; intros fd s next fd' s' E; cbn [pick_loop] in E; [by done_steps|].
  unfold get_thread in E. apply bind_Done_inv in E as (th & Hth & E). apply deref_Done_inv in Hth.
  cbn [first_ready]. rewrite Hth. cbn [fmap option_fmap option_map].
  destruct (state th) eqn:Hst; rewrite ?(bool_decide_true (Some Ready = Some Ready)), ?(bool_decide_false (Some _ = Some Ready)) by done.
  - by apply IH in E.
  - apply bind_Done_inv in E as (s1 & E1 & E). injection E as <- <- <-. by apply (queue_remove_hw c) in E1 as [? ?].
  - done.
  - done.
  - apply bind_Done_inv in E as (s1 & E1 & E). apply bind_Done_inv in E as (s2 & E2 & E).
    apply (queue_remove_hw c) in E1 as [K1 T1]. apply (dead_push_hw c) in E2 as [K2 T2].
    apply IH in E as (-> & ? & K3). split_and!; [by apply first_ready_threads; congruence|congruence|].
    by etrans; [|etrans].
Qed.

(** What belongs to a thread whatever its state. *)
Definition same_thread (th th' : thread) : Prop :=
  is_user th' = is_user th ∧ stk th' = stk th ∧ parent th' = parent th.
Definition saved_as (s : sched St PM H) (t : Z) (th : thread) (x : context) : Prop :=
  ∃ th', threads s !! t = Some th' ∧ same_thread th th' ∧ ctx th' = x.

Lemma enqueue_image c c' t s s' : enqueue t c' s = Done s' →
  hw_kept c s s' ∧ (∀ u, u ≠ t → threads s' !! u = threads s !! u) ∧
  ∀ th, threads s !! t = Some th → saved_as s' t th (ctx th).
Proof.
  intros E. unfold enqueue in E. apply bind_Done_inv in E as (th & Hth & E). apply deref_Done_inv in Hth.
  destruct (state th); try done.
  - apply (queue_insert_hw c) in E as [K T]. split; [done|]. rewrite T. split; [done|]. intros th0 Hth0.
    assert (th0 = th) as -> by congruence. exists th. by rewrite T.
  - apply (queue_insert_hw c) in E as [K T]. split; [done|]. simpl in T. split; [intros u Hu; by rewrite T, lookup_insert_ne|].
    intros th0 Hth0. simplify_eq. eexists. rewrite T, lookup_insert_eq. by split.
Qed.

Lemma upd_thread_inv t f s s' : upd_thread t f s = Done s' → ∃ th, threads s !! t = Some th ∧ s' = put_thread t (f th) s.
Proof. unfold upd_thread, get_thread. intros E. done_steps. eauto. Qed.
Lemma put_thread_hw c t th s : hw_kept c s (put_thread t th s).
Proof. split; [done|]. intros p Hp. by exists p. Qed.

(** The interrupted thread [cur] does not run on. *)
Lemma leave_current_image c time r cur th next s p next' s' : cpus s !! c = Some p → threads s !! cur = Some th → next ≠ Some cur →
  leave_current Done c time r cur th next s = Done (next', s') →
  next' = (if bool_decide (next = None) && bool_decide (state th = Running) then Some cur else next) ∧
  hw_kept c s s' ∧ (∀ t, t ≠ cur → threads s' !! t = threads s !! t) ∧
  saved_as s' cur th (if bool_decide (next' = Some cur) then ctx th else save_ctx (hw p) r th).
Proof.
  intros Hc Hth Hne E. unfold leave_current in E. set (nx := if _ && _ then Some cur else next) in *.
  apply bind_Done_inv in E as (s1 & E1 & E).
  assert (∃ th1, s1 = put_thread cur th1 s ∧ same_thread th th1 ∧ ctx th1 = ctx th) as (th1 & -> & Hs1 & Hx1).
  { destruct (_ && _) in E1.
    - apply bind_Done_inv in E1 as (s0 & E1 & [= <-]). apply upd_thread_inv in E1 as (th0 & Hth0 & ->). simplify_eq. by eexists.
    - assert (s1 = s) as -> by congruence. exists th. split; [|done]. unfold put_thread, put_threads. rewrite insert_id by done. by destruct s. }
  apply bind_Done_inv in E as (s2 & E2 & E). rewrite upd_put_thread in E2. injection E2 as <-.
  apply bind_Done_inv in E as (s3 & E3 & E). injection E as <- <-. split; [done|].
  destruct (decide (nx = Some cur)) as [Hnx|Hnx].
  - rewrite bool_decide_true in E3 |- * by done. injection E3 as <-. split; [apply put_thread_hw|].
    split; [intros t Ht; simpl; by rewrite lookup_insert_ne|]. eexists. simpl. by rewrite lookup_insert_eq.
  - rewrite bool_decide_false in E3 |- * by done. apply bind_Done_inv in E3 as (s4 & E4 & E3).
    erewrite save_eq in E4; [|exact Hc|apply lookup_insert_eq]. rewrite put_thread_put in E4. injection E4 as <-.
    set (th2 := set_ctx _ _) in *. set (s4 := put_thread cur th2 s) in *.
    assert (same_thread th th2 ∧ ctx th2 = save_ctx (hw p) r th) as [Hs2 Hx2].
    { destruct Hs1 as (Eu & Ek & Ep). split; [done|]. unfold th2, save_ctx. simpl. rewrite Eu, Hx1. done. }
    assert (get_thread cur s4 = Done th2) as Hg by apply get_put_thread. rewrite Hg in E3. cbn [mbind outcome_bind] in E3.
    destruct (bool_decide (state th2 = Sleeping)).
    + injection E3 as <-. split; [apply put_thread_hw|]. split; [intros t Ht; simpl; by rewrite lookup_insert_ne|].
      exists th2. simpl. by rewrite lookup_insert_eq.
    + apply (enqueue_image c) in E3 as (K & Hoth & Hcur). split; [by etrans; [apply put_thread_hw|exact K]|].
      split; [intros t Ht; rewrite Hoth by done; simpl; by rewrite lookup_insert_ne|].
      destruct (Hcur th2) as (th3 & Hth3 & (? & ? & ?) & ?); [apply lookup_insert_eq|]. exists th3.
      destruct Hs2 as (? & ? & ?). split; [done|]. split; [split_and!; congruence|congruence].
Qed.

(** The pid that [schedule] remembers of the interrupted thread. *)
Definition previous_pid s (p : percpu) : option Z :=
  cur ← running_thread p; th ← threads s !! cur;
  if bool_decide (state th = Killed) then None else pid <$> ptab (tables s) !! parent th.

Lemma retire_image c time r next fd s p next' prev fd' s' : cpus s !! c = Some p →
  (∀ cur, running_thread p = Some cur → next ≠ Some cur) → retire Done c time r next fd s = Done (next', prev, fd', s') →
  hw_kept c s s' ∧ prev = previous_pid s p ∧
  next' = match next, running_thread p with
          | None, Some cur =>
              if bool_decide (state <$> threads s !! cur = Some Running) && bool_decide (idle_thread p ≠ Some cur) then Some cur else None
          | _, _ => next
          end ∧
  (∀ t, running_thread p ≠ Some t → threads s' !! t = threads s !! t) ∧
  ∀ cur th, running_thread p = Some cur → threads s !! cur = Some th →
    saved_as s' cur th (if bool_decide (next' = Some cur) || bool_decide (state th = Killed) then ctx th else save_ctx (hw p) r th).
Proof.
  intros Hc Hne E. unfold retire, get_cpu in E. rewrite Hc in E. unfold previous_pid. cbn [deref mbind outcome_bind] in E.
  destruct (running_thread p) as [cur|] eqn:Hrun.
  2:{ injection E as <- <- _ <-. split; [done|]. split; [done|]. split; [by destruct next|]. split; done. }
  specialize (Hne cur eq_refl). unfold get_thread in E. apply bind_Done_inv in E as (th & Hth & E). apply deref_Done_inv in Hth.
  cbn [mbind option_bind]. rewrite Hth. cbn [mbind option_bind fmap option_fmap option_map].
  assert (∀ P : thread → Prop, P th → ∀ cur0 th0, Some cur = Some cur0 → threads s !! cur0 = Some th0 → P th0) as Hone by congruence.
  destruct (decide (state th = Killed)) as [Hk|Hk].
  - rewrite bool_decide_true in E by done. apply bind_Done_inv in E as (s1 & E1 & E). injection E as <- <- _ <-.
    apply (dead_push_hw c) in E1 as [K T]. split; [done|]. split; [by rewrite bool_decide_true|].
    rewrite (bool_decide_false (Some (state th) = Some Running)) by congruence. split; [by destruct next|]. rewrite T. split; [done|].
    intros cur0 th0 [= <-] Hth0. assert (th0 = th) as -> by congruence. rewrite (bool_decide_true (state th = Killed)), orb_true_r by done.
    exists th. by rewrite T.
  - rewrite bool_decide_false in E by done. apply bind_Done_inv in E as (pr & Hpr & E). apply deref_Done_inv in Hpr.
    rewrite (bool_decide_false (state th = Killed)), Hpr by done. cbn [fmap option_fmap option_map].
    destruct (decide (idle_thread p = Some cur)) as [Hi|Hi].
    + rewrite (bool_decide_true (idle_thread p = Some cur)) in E by done. apply bind_Done_inv in E as (s1 & E1 & E).
      injection E as <- <- _ <-. erewrite save_eq in E1; [|done..]. injection E1 as <-.
      split; [apply put_thread_hw|]. split; [done|]. rewrite (bool_decide_false (idle_thread p ≠ Some cur)), andb_false_r by naive_solver.
      split; [by destruct next|]. split; [intros t Ht; simpl; rewrite lookup_insert_ne; congruence|].
      intros cur0 th0 [= <-] Hth0. assert (th0 = th) as -> by congruence. rewrite !bool_decide_false by done. simpl.
      eexists. simpl. by rewrite lookup_insert_eq.
    + rewrite (bool_decide_false (idle_thread p = Some cur)) in E by done. apply bind_Done_inv in E as ([nx s1] & E1 & E).
      injection E as <- <- _ <-. destruct (leave_current_image c time r cur th next s p nx s1 Hc Hth Hne E1) as (-> & K & Hoth & Hcur).
      split; [done|]. split; [done|]. rewrite (bool_decide_true (idle_thread p ≠ Some cur)), andb_true_r by done. split.
      { destruct next; [by rewrite bool_decide_false|]. rewrite bool_decide_true by done. simpl.
        destruct (decide (state th = Running)); [by rewrite !bool_decide_true by congruence|by rewrite !bool_decide_false by congruence]. }
      split; [intros t Ht; apply Hoth; congruence|]. intros cur0 th0 [= <-] Hth0. assert (th0 = th) as -> by congruence.
      by rewrite (bool_decide_false (state th = Killed)), orb_false_r.
Qed.

Lemma wake_reaper_image c s s' : wake_reaper c s = Done s' → hw_kept c s s' ∧
  ∀ t th, threads s !! t = Some th → saved_as s' t th (ctx th).
Proof.
  intros E. unfold wake_reaper in E. apply bind_Done_inv in E as (p & _ & E). apply bind_Done_inv in E as (rt & _ & E).
  apply bind_Done_inv in E as (th & Hth & E). apply deref_Done_inv in Hth. injection E as <-.
  destruct (_ && _); [|split; [done|]; intros t th0 ?; by exists th0]. split; [apply put_thread_hw|].
  intros t th0 Hth0. destruct (decide (t = rt)) as [->|Hne].
  - simplify_eq. eexists. simpl. by rewrite lookup_insert_eq.
  - exists th0. simpl. by rewrite lookup_insert_ne.
Qed.

(** The registers and the processor's state that belong to [t]. *)
Lemma switch_to_image c prev t s p r s' : cpus s !! c = Some p → switch_to c prev t s = Done (r, s') →
  ∃ th pr p' pm, threads s !! t = Some th ∧ ptab (tables s) !! parent th = Some pr ∧
    (if bool_decide (prev = Some (pid pr)) then pm = h_pmap (hw p) else vspace pr = pm) ∧
    r = regs (ctx th) ∧ cpus s' !! c = Some p' ∧ running_thread p' = Some t ∧ idle_thread p' = idle_thread p ∧
    hw p' = load_hw t th pm (hw p) ∧ saved_as s' t th (ctx th) ∧
    (state <$> threads s' !! t = Some Running) ∧ (∀ u, u ≠ t → threads s' !! u = threads s !! u) ∧ tables s' = tables s.
Proof.
  intros Hc E. unfold switch_to in E. apply bind_Done_inv in E as (s1 & E1 & E).
  apply upd_thread_inv in E1 as (th & Hth & ->). apply bind_Done_inv in E as (s2 & E2 & E).
  unfold upd_cpu, get_cpu in E2. simpl in E2. rewrite Hc in E2. injection E2 as <-.
  set (th' := set_state Running _) in *. set (s2 := put_cpu c _ _) in *.
  assert (threads s2 !! t = Some th') as Ht2 by apply lookup_insert_eq.
  assert (cpus s2 !! c = Some (set_running (Some t) p)) as Hc2 by by apply (put_same_cpu (put_thread t th' s) c _ p).
  unfold get_thread, get_process in E. rewrite Ht2 in E. cbn [deref mbind outcome_bind] in E.
  apply bind_Done_inv in E as (pr & Hpr & E). apply deref_Done_inv in Hpr. unfold load, get_thread, get_cpu, get_process in E.
  rewrite Ht2, Hc2 in E. cbn [deref mbind outcome_bind] in E. rewrite Hpr in E. apply bind_Done_inv in E as (pm & Hpm & E).
  injection E as <- <-. eexists th, pr, _, pm. split; [done|]. split; [done|]. split.
  { destruct (bool_decide _); [by injection Hpm as <-|]. cbn [deref mbind outcome_bind] in Hpm.
    apply bind_Done_inv in Hpm as (v & Hv & Hpm). apply deref_Done_inv in Hv. by injection Hpm as <-. }
  split; [done|]. split; [by apply (put_same_cpu s2 c _ (set_running (Some t) p))|]. split; [done|]. split; [done|]. split; [done|].
  split; [by exists th'|]. split; [simpl; by rewrite lookup_insert_eq|].
  split; [|done]. intros u Hu. simpl. by rewrite lookup_insert_ne.
Qed.

Lemma saved_trans s' t th th1 x : same_thread th th1 → saved_as s' t th1 x → saved_as s' t th x.
Proof. intros (? & ? & ?) (th2 & ? & (? & ? & ?) & ?). exists th2. split; [done|]. split; [split_and!; congruence|done]. Qed.
Lemma first_ready_elem s l t : first_ready s l = Some t → t ∈ l ∧ state <$> threads s !! t = Some Ready.
Proof. induction l as [|u l IH]; simpl; [done|]. case_bool_decide; [intros [= ->]; by split; [left|]|]. intros [? ?]%IH. by split; [right|]. Qed.

(** The end of the handler. *)
Lemma finish_image c (b : bool) t time' s s' p :
  (s ← (if b then Done s else upd_thread t (set_schedule_time time') s);
   upd_cpu c (λ p, set_in_scheduler false (reschedule timeslice p)) s) = Done s' → cpus s !! c = Some p →
  (∃ p', cpus s' !! c = Some p' ∧ same_hw p p') ∧ (∀ u th, threads s !! u = Some th → saved_as s' u th (ctx th)) ∧
  (∀ u, state <$> threads s' !! u = state <$> threads s !! u) ∧ tables s' = tables s.
Proof.
  intros E Hc. apply bind_Done_inv in E as (s1 & E1 & E). apply (upd_cpu_hw c) in E as [K T]; [|done]. destruct K as [Kt K].
  destruct b.
  - assert (s1 = s) as -> by congruence. rewrite T. split; [by apply K|]. split; [|done]. intros u th Hu. exists th. by rewrite T.
  - apply upd_thread_inv in E1 as (th1 & Hth1 & ->). split; [by apply K|]. split.
    + intros u th Hu. destruct (decide (u = t)) as [->|].
      * assert (th = th1) as -> by congruence. eexists. rewrite T. simpl. by rewrite lookup_insert_eq.
      * exists th. rewrite T. simpl. by rewrite lookup_insert_ne.
    + split; [|done]. intros u. rewrite T. simpl. destruct (decide (u = t)) as [->|]; [by rewrite lookup_insert_eq, Hth1|by rewrite lookup_insert_ne].
Qed.

(** What the interrupt does when preemption is not disabled: [t] is the thread to run, [th]
    and [pr] are its record and its process. *)
Record switched (c : nat) (r : registers) s (p : percpu) (r' : registers) s' (t : Z) (th : thread) (p' : percpu) : Prop := {
  sw_next : next_thread s p = Some t;
  sw_thread : threads s !! t = Some th;
  sw_cpu : cpus s' !! c = Some p' ∧ running_thread p' = Some t ∧ idle_thread p' = idle_thread p;
  sw_stays : running_thread p = Some t → r' = r ∧ hw p' = hw p;
  sw_loads : running_thread p ≠ Some t → state <$> threads s' !! t = Some Running ∧ r' = regs (ctx th) ∧
    ∃ pr, ptab (tables s) !! parent th = Some pr ∧
      hw p' = load_hw t th (if bool_decide (previous_pid s p = Some (pid pr)) then h_pmap (hw p) else vspace pr) (hw p);
  sw_saves cur thc : running_thread p = Some cur → cur ≠ t → threads s !! cur = Some thc → state thc ≠ Killed →
    saved_as s' cur thc (save_ctx (hw p) r thc);
  sw_keeps u thu : running_thread p ≠ Some u → threads s !! u = Some thu → saved_as s' u thu (ctx thu);
  sw_tables : tables s' = tables s }.

Lemma schedule_switched s c p time time' r r' s' : one_place s → cpus s !! c = Some p → preemption p = 0 →
  (∀ u, running_thread p = Some u ∨ idle_thread p = Some u → is_Some (threads s !! u)) →
  schedule c time time' r s = Done (r', s') → ∃ t th p', switched c r s p r' s' t th p'.
Proof.
  intros (_ & _ & Hone) Hc Hpre Hex E. unfold schedule, schedule_during, get_cpu at 1 in E. rewrite Hc in E. cbn [deref mbind outcome_bind] in E.
  rewrite Hpre in E. change (0 <? 0) with false in E. cbv iota in E.
  set (s0 := put_cpu c (set_in_scheduler true p) s) in *.
  assert (cpus s0 !! c = Some (set_in_scheduler true p)) as Hc0 by by apply (put_same_cpu s c _ p).
  apply bind_Done_inv in E as ([[nx fd] s1] & E1 & E). apply pick_loop_first in E1 as (-> & T1 & Kt1 & K1).
  destruct (K1 _ Hc0) as (p1 & Hc1 & Hr1 & Hi1 & Hh1 & _). simpl in Hr1, Hi1, Hh1.
  rewrite (first_ready_threads s s0) in E by done. set (nx := first_ready s (queue p)) in *.
  assert (∀ cur, running_thread p = Some cur → nx ≠ Some cur) as Hnx.
  { intros cur Hcur Hn. apply first_ready_elem in Hn as [Hn _]. by destruct (Hone c c p p cur Hc Hc Hcur). }
  apply bind_Done_inv in E as ([[[nx' prev] fd'] s2] & E2 & E).
  apply (retire_image _ _ _ _ _ _ p1) in E2 as ([Kt2 K2] & -> & Enx & Hoth2 & Hcur2); [|done|by rewrite Hr1].
  destruct (K2 p1 Hc1) as (p2 & Hc2 & Hr2 & Hi2 & Hh2 & _).
  apply bind_Done_inv in E as (s3 & E3 & E).
  assert (hw_kept c s2 s3 ∧ ∀ t th, threads s2 !! t = Some th → saved_as s3 t th (ctx th)) as [[Kt3 K3] H3].
  { destruct fd'; [by apply wake_reaper_image|]. assert (s3 = s2) as -> by congruence. split; [done|]. intros t th ?. by exists th. }
  clear E3. destruct (K3 p2 Hc2) as (p3 & Hc3 & Hr3 & Hi3 & Hh3 & _).
  apply bind_Done_inv in E as (t & Et & E).
  assert (previous_pid s1 p1 = previous_pid s p) as Epp.
  { unfold previous_pid. rewrite Hr1, T1, Kt1. done. }
  rewrite Epp in E.
  assert (next_thread s p = Some t) as Ht.
  { unfold next_thread. fold nx. rewrite Hr1, T1, Hi1 in Enx. simpl in Enx. subst nx'. destruct nx as [u|]; [by injection Et as ->|].
    destruct (running_thread p) as [cur|]; [|by apply deref_Done_inv in Et].
    destruct (_ && _); [by injection Et as ->|by apply deref_Done_inv in Et]. }
  assert (∀ u thu, running_thread p ≠ Some u → threads s !! u = Some thu → saved_as s3 u thu (ctx thu)) as Hkeep.
  { intros u thu Hu Hthu. apply H3. rewrite Hoth2 by by rewrite Hr1. by rewrite T1. }
  assert (∀ cur thc, running_thread p = Some cur → cur ≠ t → threads s !! cur = Some thc → state thc ≠ Killed →
    saved_as s3 cur thc (save_ctx (hw p) r thc)) as Hsave.
  { intros cur thc Hcur Hct Hthc Hk. destruct (Hcur2 cur thc) as (th2 & Hth2 & Hs2 & Hx2); [by rewrite Hr1|by rewrite T1|].
    rewrite (bool_decide_false (state thc = Killed)), orb_false_r, bool_decide_false in Hx2; [|by intros Hn; rewrite Hn in Et; injection Et as ->|done].
    rewrite Hh1 in Hx2. rewrite <-Hx2. eapply saved_trans; [exact Hs2|]. by apply H3. }
  assert (is_Some (threads s !! t)) as [th Hth].
  { unfold next_thread in Ht. destruct (first_ready s (queue p)) as [u|] eqn:Ef.
    - injection Ht as ->. apply first_ready_elem in Ef as [_ Ef]. destruct (threads s !! t); [by eexists|done].
    - apply Hex. destruct (running_thread p) as [cur|]; [|by right]. destruct (_ && _); [by left|by right]. }
  apply bind_Done_inv in E as ([r1 s4] & E4 & E). apply bind_Done_inv in E as (s5 & E5 & E). apply bind_Done_inv in E as (s6 & E6 & E).
  injection E as <- <-.
  assert (∀ s4 p4, (if bool_decide (running_thread p = idle_thread p) then Done s4 else upd_thread t (set_schedule_time time') s4) = Done s5 →
     cpus s4 !! c = Some p4 → (∃ p6, cpus s6 !! c = Some p6 ∧ same_hw p4 p6) ∧ (∀ u th, threads s4 !! u = Some th → saved_as s6 u th (ctx th)) ∧
     (∀ u, state <$> threads s6 !! u = state <$> threads s4 !! u) ∧ tables s6 = tables s4) as Hfin.
  { intros s4' p4 E5' Hc4. by apply (finish_image c (bool_decide (running_thread p = idle_thread p)) t time' s4' s6 p4); [rewrite E5'|]. }
  assert (∀ s4 u thu x, (∀ th, threads s4 !! u = Some th → saved_as s6 u th (ctx th)) → saved_as s4 u thu x → saved_as s6 u thu x) as Hto.
  { intros s4' u thu x Hu (th4 & Hth4 & Hs4 & <-). eapply saved_trans; [exact Hs4|]. by apply Hu. }
  exists t, th. destruct (decide (running_thread p = Some t)) as [Hrt|Hrt].
  - rewrite bool_decide_true in E4 by done. injection E4 as <- <-.
    destruct (Hfin s3 p3 E5 Hc3) as ((p6 & Hc6 & Hr6 & Hi6 & Hh6 & _) & Hfs & _ & Kt6). exists p6. split; try done.
    + split; [done|]. split; congruence.
    + intros _. split; [done|]. congruence.
    + intros cur thc Hcur Hct. congruence.
    + intros u thu Hu Hthu. apply (Hto s3); [apply Hfs|by apply Hkeep].
    + by rewrite Kt6, Kt3, Kt2, Kt1.
  - rewrite bool_decide_false in E4 by done. apply (switch_to_image _ _ _ _ p3) in E4 as
      (th3 & pr & p4 & pm & Hth3 & Hpr & Hpm & -> & Hc4 & Hr4 & Hi4 & Hh4 & Hsv & Hst4 & Hoth4 & Kt4); [|done].
    destruct (Hfin s4 p4 E5 Hc4) as ((p6 & Hc6 & Hr6 & Hi6 & Hh6 & _) & Hfs & Hst6 & Kt6). exists p6.
    destruct (Hkeep t th Hrt Hth) as (th3' & Hth3' & (Su & Sk & Sp) & Sx). assert (th3' = th3) as -> by congruence.
    assert (∀ u thu x, saved_as s3 u thu x → saved_as s6 u thu x) as Hto3.
    { intros u thu x Hu. apply (Hto s4); [apply Hfs|]. destruct (decide (u = t)) as [->|].
      - destruct Hu as (th3'' & Hth3'' & Hs3 & <-). assert (th3'' = th3) as -> by congruence. by eapply saved_trans.
      - destruct Hu as (thu3 & ? & ?). exists thu3. by rewrite Hoth4. }
    split; try done.
    + split; [done|]. split; congruence.
    + intros _. split; [by rewrite Hst6|]. split; [congruence|]. exists pr. split.
      { rewrite <-Sp. by rewrite <-Hpr, Kt3, Kt2, Kt1. }
      rewrite Hh6, Hh4, Hh3, Hh2, Hh1. unfold load_hw. rewrite Su, Sk, Sx. 
      assert (pm = if bool_decide (previous_pid s p = Some (pid pr)) then h_pmap (hw p) else vspace pr) as <-; [|done].
      destruct (bool_decide _); [by rewrite Hpm, Hh3, Hh2, Hh1|done].
    + intros cur thc Hcur Hct Hthc Hk. apply Hto3. by apply Hsave.
    + intros u thu Hu Hthu. apply Hto3. by apply Hkeep.
    + by rewrite Kt6, Kt4, Kt3, Kt2, Kt1.
Qed.

Lemma in_order_first s p t u : in_order s → (∃ c, cpus s !! c = Some p) → first_ready s (queue p) = Some t →
  u ∈ queue p → state <$> threads s !! u = Some Ready → vruntime_of s t ≤ vruntime_of s u.
Proof.
  intros Ho [c Hc] Hf Hu Hst. destruct (Ho c p Hc) as [Hs _]. induction Hs as [|x l Hs IH Hx]; [set_solver|].
  simpl in Hf. rewrite Forall_forall in Hx. apply elem_of_cons in Hu as [->|Hu].
  - rewrite bool_decide_true in Hf by done. by injection Hf as ->.
  - case_bool_decide; [injection Hf as ->; by apply Hx|by apply IH].
Qed.
Lemma first_ready_None s l u : first_ready s l = None → u ∈ l → state <$> threads s !! u ≠ Some Ready.
Proof. induction l as [|x l IH]; simpl; [set_solver|]. case_bool_decide; [done|]. intros Hf [->|Hu]%elem_of_cons; [done|by apply IH]. Qed.

Lemma schedule_spec_full s c p time time' r r' s' : sched_ok s → cpus s !! c = Some p → preemption p = 0 →
  schedule c time time' r s = Done (r', s') →
  ∃ t th p', switched c r s p r' s' t th p' ∧
    ∀ u, u ∈ queue p → state <$> threads s !! u = Some Ready → t ∈ queue p ∧ vruntime_of s t ≤ vruntime_of s u.
Proof.
  intros Hok Hc Hpre E. pose proof (sched_ok_one_place s Hok) as Hone. pose proof (sched_ok_in_order s Hok) as Ho.
  destruct (schedule_switched s c p time time' r r' s' Hone Hc Hpre) as (t & th & p' & Hsw); [|done|].
  - intros u [Hu|Hu]; [by apply (running_exists s c p u)|]. destruct Hok as (w & hm & Hr). apply (sr_place _ _ _ _ _ Hr). left.
    by rewrite (sr_idle _ _ _ _ _ Hr c p u Hc Hu).
  - exists t, th, p'. split; [done|]. intros u Hu Hst. pose proof (sw_next _ _ _ _ _ _ _ _ _ Hsw) as Hn. unfold next_thread in Hn.
    destruct (first_ready s (queue p)) as [t'|] eqn:Ef; [|by destruct (first_ready_None s (queue p) u Ef Hu)].
    injection Hn as ->. split; [by apply first_ready_elem in Ef as [? _]|]. apply (in_order_first s p); [done|by exists c|done..].
Qed.

(** C5: the interrupt handler runs the first ready thread of the queue, which has the least
    virtual run time of all that are ready; if there is none it lets the interrupted thread
    run on, or runs the idle thread.  It saves the registers, segment bases and floating-point
    state of the interrupted thread, restores those of the next one, switches to the address
    space of its process if that has another pid, and leaves what is saved for all other
    threads as it is. *)
Theorem schedule_switches s c p time time' r r' s' : sched_ok s → cpus s !! c = Some p → preemption p = 0 →
  schedule c time time' r s = Done (r', s') →
  ∃ t th p', switched c r s p r' s' t th p' ∧
    ∀ u, u ∈ queue p → state <$> threads s !! u = Some Ready → t ∈ queue p ∧ vruntime_of s t ≤ vruntime_of s u.
Proof. apply schedule_spec_full. Qed.

(** * Threads that are not running keep what is saved *)
Definition kept (t : Z) s s' : Prop := ∀ th, threads s !! t = Some th → saved_as s' t th (ctx th).
#[export] Instance kept_preorder t : PreOrder (kept t).
Proof.
  split; [intros s th Hth; by exists th|]. intros s1 s2 s3 H12 H23 th Hth. destruct (H12 th Hth) as (th2 & Hth2 & Hs & <-).
  eapply saved_trans; [exact Hs|]. by apply H23.
Qed.
Lemma kept_same t s s' : threads s' = threads s → kept t s s'.
Proof. intros E th Hth. exists th. by rewrite E. Qed.
Lemma kept_upd t u f s s' : upd_thread u f s = Done s' →
  (∀ th, threads s !! u = Some th → same_thread th (f th) ∧ ctx (f th) = ctx th) → kept t s s'.
Proof.
  intros (thu & Hu & ->)%upd_thread_inv Hf th Hth. destruct (decide (t = u)) as [->|].
  - assert (thu = th) as -> by congruence. exists (f th). simpl. rewrite lookup_insert_eq. split; [done|]. by apply Hf.
  - exists th. simpl. by rewrite lookup_insert_ne.
Qed.
Lemma kept_enqueue t u c s s' : enqueue u c s = Done s' → kept t s s'.
Proof.
  intros E. apply (enqueue_image c) in E as (_ & Hoth & Hu). intros th Hth. destruct (decide (t = u)) as [->|]; [by apply Hu|].
  exists th. by rewrite Hoth.
Qed.
Lemma kept_upd_cpu t c f s s' : upd_cpu c f s = Done s' → kept t s s'.
Proof. unfold upd_cpu, get_cpu. intros E. done_steps. by apply kept_same. Qed.
Lemma kept_create t c par ip user s u s' : thread_create c par ip user s = Done (u, s') → kept t s s'.
Proof.
  intros E th Hth. assert (threads s !! u = None ∧ ∃ thu, threads s' = <[u := thu]> (threads s)) as [Hu [thu E']].
  2:{ exists th. rewrite E', lookup_insert_ne; [done|congruence]. }
  unfold thread_create in E. apply bind_Done_inv in E as (pr & _ & E).
  apply bind_Done_inv in E as ([a hp] & _ & E). apply bind_Done_inv in E as ([[o utop] s1] & Es1 & E).
  assert (threads s1 = threads s) as Et.
  { destruct user; [|by injection Es1 as _ _ <-]. apply bind_Done_inv in Es1 as ([[o' u'] s2] & Es2 & Es1). injection Es1 as _ _ <-.
    by apply map_stack_same in Es2 as (_ & ? & _). }
  apply bind_Done_inv in E as ([b hp'] & _ & E). apply bind_Done_inv in E as (s2 & Es2 & E).
  unfold upd_cpu in Es2. apply bind_Done_inv in Es2 as (q & _ & Es2). injection Es2 as <-. apply bind_Done_inv in E as (pr' & _ & E). injection E as <- <-.
  split; [apply not_elem_of_dom, is_fresh|]. eexists. simpl. by rewrite Et.
Qed.
Lemma kept_spawn_on t here c n ip prio s u s' : spawn_on here c n ip prio s = Done (u, s') → kept t s s'.
Proof.
  unfold spawn_on. intros E. apply bind_Done_inv in E as (pr & _ & E). destruct (processes _ !! _); [|done].
  apply bind_Done_inv in E as ([v s1] & E1 & E). apply bind_Done_inv in E as (s2 & E2 & E). apply bind_Done_inv in E as (s3 & E3 & E).
  injection E as <- <-. apply (kept_create t) in E1. apply (kept_upd t) in E2; [|done]. apply (kept_enqueue t) in E3.
  by etrans; [|etrans].
Qed.
Lemma kept_services t here rip sip idxs : ∀ s s', start_services here idxs rip sip s = Done s' → kept t s s'.
Proof.
  induction idxs as [|c idxs IH]; intros s s' E; cbn [start_services] in E; [injection E as <-; by apply kept_same|].
  apply bind_Done_inv in E as ([v s1] & E1 & E). apply bind_Done_inv in E as (s2 & E2 & E).
  apply bind_Done_inv in E as ([v' s3] & E3 & E). apply (kept_spawn_on t) in E1, E3. apply (kept_upd_cpu t) in E2. apply IH in E.
  by etrans; [|etrans; [|etrans]].
Qed.
Lemma kept_prepare_sleep t c u ms s s' : prepare_sleep c u ms s = Done s' → kept t s s'.
Proof.
  unfold prepare_sleep. intros E. apply bind_Done_inv in E as (p & _ & E). apply bind_Done_inv in E as (thu & Hu & E).
  apply deref_Done_inv in Hu. destruct (sleep_lock _); [done|]. injection E as <-. intros th Hth.
  simpl in Hu. destruct (decide (t = u)) as [->|].
  - simplify_eq. eexists. simpl. by rewrite lookup_insert_eq.
  - exists th. simpl. by rewrite lookup_insert_ne.
Qed.
Lemma kept_wake_up t u reason s b s' : wake_up u reason s = Done (b, s') → kept t s s'.
Proof.
  unfold wake_up. intros E. apply bind_Done_inv in E as (thu & Hu & E). apply deref_Done_inv in Hu.
  destruct (sleep_lock _); [done|]. destruct (negb _); injection E as _ <-; [done|].
  apply (kept_upd t u (λ th, set_wake_reason reason (set_state Ready th))); [|done].
  unfold upd_thread, get_thread. by rewrite Hu.
Qed.
Lemma kept_yield_enter t c now s e old s' : yield_enter c now s = Done (e, old, s') → kept t s s'.
Proof.
  unfold yield_enter. intros E. apply bind_Done_inv in E as (p & _ & E). apply bind_Done_inv in E as (u & _ & E).
  apply bind_Done_inv in E as (thu & Hu & E). apply deref_Done_inv in Hu. apply bind_Done_inv in E as (s1 & E1 & E).
  apply bind_Done_inv in E as (s2 & E2 & E). injection E as _ _ <-. apply (kept_upd_cpu t) in E2. etrans; [|exact E2].
  destruct (bool_decide _); [|by apply (kept_upd_cpu t) in E1]. apply (kept_upd_cpu t) in E1. etrans; [|exact E1].
  destruct (sleep_dur (slp thu)) as [d|]; [|done].
  apply (kept_upd t u (set_sleep_until None (Some (w64 (now + d))))); [|done]. unfold upd_thread, get_thread. by rewrite Hu.
Qed.
Lemma kept_yield_leave t c e old s r s' : yield_leave c e old s = Done (r, s') → kept t s s'.
Proof.
  unfold yield_leave. intros E. apply bind_Done_inv in E as (p & _ & E). destruct e.
  - apply bind_Done_inv in E as (u & _ & E). apply bind_Done_inv in E as (thu & _ & E). injection E as _ <-. by apply kept_same.
  - injection E as _ <-. by apply kept_same.
Qed.
Lemma kept_preempt t c (f : nat → sched St PM H → outcome (sched St PM H)) s s' : f = disable ∨ f = enable →
  f c s = Done s' → kept t s s' ∧ threads s' = threads s.
Proof.
  intros Hf E. assert (threads s' = threads s) as Et; [|by split; [apply kept_same|]].
  destruct Hf as [-> | ->]; unfold disable, enable in E; destruct (negb _); try (by injection E as <-).
  all: apply bind_Done_inv in E as (p & _ & E); destruct (in_scheduler p); [by injection E as <-|].
  - by injection E as <-.
  - injection E as <-. by destruct (0 <? _).
Qed.
Lemma kept_sleeper_loop t c first time l : ∀ s s', sleeper_loop c first time l s = Done s' → kept t s s'.
Proof.
  induction l as [|u l IH]; intros s s' E; cbn [sleeper_loop] in E; [by injection E as <-|].
  apply bind_Done_inv in E as (thu & Hu & E). apply deref_Done_inv in Hu.
  assert (∀ s1 s2, sleep_remove c u s = Done s1 → kept t s1 s2 → sleeper_loop c first time l s2 = Done s' → kept t s s') as Hgo.
  { intros s1 s2 [_ T1]%(sleep_remove_hw c) K12 K2%IH. etrans; [by apply (kept_same t s s1)|]. by etrans. }
  destruct (sleep_until (slp thu)).
  - destruct (_ <? _); [by injection E as <-|]. apply bind_Done_inv in E as (s2 & E2 & E). unfold sleeper_wake in E2.
    apply bind_Done_inv in E2 as (s1 & E1 & E2). apply (Hgo s1 s2 E1); [|done].
    apply bind_Done_inv in E2 as (b & _ & E2). apply bind_Done_inv in E2 as (s3 & E3 & E2).
    set (th1 := set_wake_reason _ _) in *. apply (kept_upd t) in E3; [|done]. apply (kept_upd_cpu t) in E2.
    trans (put_thread u th1 s1); [|by trans s3]. apply (sleep_remove_hw c) in E1 as [_ T]. apply (kept_upd t u (λ _, th1)).
    + unfold upd_thread, get_thread. by rewrite T, Hu.
    + rewrite T. intros th Hth. by assert (thu = th) as <- by congruence.
  - destruct (state thu); [by apply IH in E| |done|by apply IH in E|].
    + apply bind_Done_inv in E as (s1 & E1 & E). apply bind_Done_inv in E as (s2 & E2 & E). apply (Hgo s1 s2 E1); [|done].
      by apply (kept_upd_cpu t) in E2.
    + apply bind_Done_inv in E as (s1 & E1 & E). apply bind_Done_inv in E as (s2 & E2 & E). apply (Hgo s1 s2 E1); [|done].
      by apply (kept_upd_cpu t) in E2.
Qed.
Lemma kept_sleeper t c time s s' : sleeper_pass c time s = Done s' → kept t s s'.
Proof.
  unfold sleeper_pass. intros E. apply bind_Done_inv in E as (p & _ & E). destruct (sleep_queue p); [by injection E as <-|].
  apply bind_Done_inv in E as (s1 & E1 & E). apply bind_Done_inv in E as (s2 & E2 & E).
  apply (kept_preempt t c disable) in E1 as [? _]; [|by left]. apply (kept_preempt t c enable) in E as [? _]; [|by right].
  apply (kept_sleeper_loop t) in E2. by trans s1; [|trans s2].
Qed.
Lemma kept_reaper_idle t c s s' : reaper_idle c s = Done s' → kept t s s'.
Proof.
  unfold reaper_idle. intros E. apply bind_Done_inv in E as (p & _ & E). case_bool_decide; [|injection E as <-; by apply kept_same].
  apply bind_Done_inv in E as (rt & _ & E). apply bind_Done_inv in E as (s1 & E1 & E).
  apply bind_Done_inv in E as (th & _ & E). apply bind_Done_inv in E as (u & _ & E). injection E as <-.
  by apply (kept_upd t) in E1.
Qed.
Lemma reap_loop_shrinks l : ∀ s s' t th, reap_loop l s = Done s' → threads s' !! t = Some th → threads s !! t = Some th.
Proof.
  induction l as [|u l IH]; intros s s' t th E Ht; cbn [reap_loop] in E; [by injection E as <-|].
  apply bind_Done_inv in E as (thu & Hu & E). apply deref_Done_inv in Hu. apply bind_Done_inv in E as (pr & _ & E).
  apply bind_Done_inv in E as ([] & _ & E). apply bind_Done_inv in E as (s1 & E1 & E). destruct (bool_decide _); [done|].
  apply (IH _ _ t th) in E; [|done]. apply (thread_destroy_spec _ _ thu) in E1 as (s2 & -> & T & _); [|done].
  simpl in E. rewrite T in E. by apply lookup_delete_Some in E as [_ ?].
Qed.
Lemma reap_shrinks c s s' t th : reap c s = Done s' → threads s' !! t = Some th → threads s !! t = Some th.
Proof.
  unfold reap. intros E Ht. apply bind_Done_inv in E as (s1 & E1 & E). apply bind_Done_inv in E as (p & _ & E).
  apply bind_Done_inv in E as (s2 & E2 & E). apply bind_Done_inv in E as (s3 & E3 & E).
  apply (kept_preempt t c disable) in E1 as [_ <-]; [|by left]. apply (kept_preempt t c enable) in E3 as [_ T3]; [|by right].
  apply (upd_cpu_hw c) in E2 as [_ <-]; [|done]. rewrite <-T3. by eapply reap_loop_shrinks.
Qed.

(** No processor runs [t]. *)
Definition away (t : Z) s : Prop := ∀ c p, cpus s !! c = Some p → running_thread p ≠ Some t.

Lemma schedule_kept t c p time time' r r' s s' : sched_ok s → cpus s !! c = Some p → running_thread p ≠ Some t →
  schedule c time time' r s = Done (r', s') → kept t s s'.
Proof.
  intros Hok Hc Hrun E. destruct (decide (preemption p = 0)) as [Hpre|Hpre].
  - destruct (schedule_spec_full s c p time time' r r' s' Hok Hc Hpre E) as (u & thu & p' & Hsw & _).
    intros th Hth. by apply (sw_keeps _ _ _ _ _ _ _ _ _ Hsw).
  - unfold schedule, schedule_during, get_cpu in E. rewrite Hc in E. cbn [deref mbind outcome_bind] in E.
    destruct Hok as (w & hm & Hr). destruct (sr_cpu _ _ _ _ _ Hr c p Hc) as [Hpos _].
    destruct (Z.ltb_spec 0 (preemption p)); [|lia]. injection E as _ <-. by apply kept_same.
Qed.

Lemma step_kept t s s' : sched_ok s → sched_step s s' → away t s → is_Some (threads s' !! t) → is_Some (threads s !! t) → kept t s s'.
Proof.
  intros Hok Hstep Haway Hex' Hex. destruct Hstep as [c p vs ip s1 Hc Hi Hrun E|here rip sip par s1 _ _ _ _ E|c p i time time' r r' s1 Hc _ _ _ E
    |c u ms s1 _ E|c p u now e old s1 _ _ _ _ E|c u e old r s1 _ E|u reason b s1 _ E|c s1 E|c s1 E
    |c par ip user u s1 _ E|u th s1 Hth Hst _ _ E|here c n par ip prio u s1 _ _ _ E
    |c u time s1 _ E|c p u s1 _ _ _ E|c s1 E|u th Hth Hst Hlk Hord|x m h Hx].
  - unfold start_idle in E. apply bind_Done_inv in E as ([v s2] & E2 & E). apply bind_Done_inv in E as (s3 & E3 & E).
    apply (kept_create t) in E2. apply (kept_upd t) in E3; [|done]. apply (kept_upd_cpu t) in E. by trans s2; [|trans s3].
  - by eapply kept_services.
  - by eapply schedule_kept; [| |by apply (Haway c p)|].
  - by eapply kept_prepare_sleep.
  - by eapply kept_yield_enter.
  - by eapply kept_yield_leave.
  - by eapply kept_wake_up.
  - by apply (kept_preempt t c disable); [left|].
  - by apply (kept_preempt t c enable); [right|].
  - by eapply kept_create.
  - apply (kept_enqueue t) in E. etrans; [|exact E]. apply (kept_upd t u (set_state Ready)); [|done]. by apply upd_thread_eq.
  - by eapply kept_spawn_on.
  - by eapply kept_sleeper.
  - by eapply kept_reaper_idle.
  - destruct Hex' as [th' Hth']. intros th Hth. pose proof (reap_shrinks c s s1 t th' E Hth') as Hth2.
    assert (th' = th) as -> by congruence. by exists th.
  - apply (kept_upd t u (set_state Killed)); [|done]. by apply upd_thread_eq.
  - by apply kept_same.
Qed.

(** A step of the system while [t] waits and does not end. *)
Definition waiting_step (t : Z) s s' : Prop := sched_step s s' ∧ away t s ∧ is_Some (threads s' !! t).
Lemma waiting_kept t s s' : rtc (waiting_step t) s s' → sched_ok s → is_Some (threads s !! t) → kept t s s' ∧ sched_ok s'.
Proof.
  induction 1 as [s|s1 s2 s3 (Hstep & Haway & Hex) _ IH]; intros Hok Ht; [by split|].
  pose proof (sched_step_ok s1 s2 Hok Hstep) as Hok2. destruct (IH Hok2 Hex) as [Hk Hok3]. split; [|done].
  trans s2; [by apply step_kept|done].
Qed.

(** C4: a thread that is interrupted with registers [r] and, after any steps of any
    processors, is picked again by the handler of some processor gets [r] back there,
    and a user thread its segment bases and floating-point state as well. *)
Theorem context_restored s1 s2 s3 s4 c c' p1 p3 p4 t th time time' tm tm' r r2 r3 r4 :
  sched_ok s1 → cpus s1 !! c = Some p1 → ints p1 = true → is_Some (idle_thread p1) → initialised s1 = true → preemption p1 = 0 →
  running_thread p1 = Some t → threads s1 !! t = Some th → state th ≠ Killed →
  schedule c time time' r s1 = Done (r2, s2) → away t s2 → rtc (waiting_step t) s2 s3 → away t s3 →
  cpus s3 !! c' = Some p3 → preemption p3 = 0 → schedule c' tm tm' r3 s3 = Done (r4, s4) →
  cpus s4 !! c' = Some p4 → running_thread p4 = Some t →
  r4 = r ∧ (is_user th = true → h_fs (hw p4) = h_fs (hw p1) ∧ h_fpu (hw p4) = h_fpu (hw p1) ∧
                                h_gs_kernel (hw p4) = h_gs_kernel (hw p1)).
Proof.
  intros Hok Hc Hints [i Hi] Hini Hpre Hrun Hth Hk E1 Haw2 Hw Haw3 Hc3 Hpre3 E3 Hc4 Hrun4.
  destruct (schedule_spec_full s1 c p1 time time' r r2 s2 Hok Hc Hpre E1) as (u & thu & p2 & Hsw & _).
  destruct (sw_cpu _ _ _ _ _ _ _ _ _ Hsw) as (Hc2 & Hrun2 & _).
  destruct (sw_saves _ _ _ _ _ _ _ _ _ Hsw t th Hrun) as (th2 & Hth2 & (Eu2 & _) & Ex2); [|done..|].
  { intros ->. by apply (Haw2 c p2). }
  assert (sched_ok s2) as Hok2 by by eapply (sched_step_ok s1), step_interrupt.
  destruct (waiting_kept t s2 s3 Hw Hok2) as [Hk3 Hok3]; [by eexists|].
  destruct (Hk3 th2 Hth2) as (th3 & Hth3 & (Eu3 & _) & Ex3).
  destruct (schedule_spec_full s3 c' p3 tm tm' r3 r4 s4 Hok3 Hc3 Hpre3 E3) as (v & thv & p4' & Hsw' & _).
  destruct (sw_cpu _ _ _ _ _ _ _ _ _ Hsw') as (Hc4' & Hrun4' & _). assert (p4' = p4) as -> by congruence.
  assert (v = t) as -> by congruence. pose proof (sw_thread _ _ _ _ _ _ _ _ _ Hsw') as Hthv.
  assert (thv = th3) as -> by congruence.
  destruct (sw_loads _ _ _ _ _ _ _ _ _ Hsw') as (_ & -> & pr & _ & ->); [by apply (Haw3 c' p3)|].
  unfold load_hw. rewrite Ex3, Ex2, Eu3, Eu2. unfold save_ctx. split; [by destruct (is_user th)|].
  by intros ->.
Qed.
End run.

(** * Example: the first two threads of a processor take turns *)
Section example.
#[local] Existing Instances idle_pages bump_heap.
Definition ex_regs (n : Z) : registers := mk_regs n (n + 1) 0x202 0x08 0x10 (replicate 15 n).
Definition ex_away : sched Z Z Z := ex_step (λ s, '(_, s) ← schedule 0 1002 1003 (ex_regs 50) s; Done s) ex_ticked.
Definition ex_back : registers * sched Z Z Z :=
  match schedule 0 2000000 2000001 (ex_regs 60) ex_away with Done x => x | _ => (zero_regs, ex_away) end.
Definition ex_reaper : Z := default 0 (reaper_thread (ex_cpu 0 ex_booted)).

Lemma ex_away_away : away ex_reaper ex_away.
Proof. intros [|[|c]] p; [vm_compute; by intros [= <-]..|]. change (cpus ex_away) with (cpus ex_away). vm_compute. by destruct c. Qed.

Lemma schedule_switches_witness : ∃ t th p',
  switched 0 (ex_regs 50) ex_ticked (ex_cpu 0 ex_ticked)
    (fst (match schedule 0 1002 1003 (ex_regs 50) ex_ticked with Done x => x | _ => (zero_regs, ex_ticked) end)) ex_away t th p'.
Proof.
  destruct (schedule_switches ex_ticked 0 (ex_cpu 0 ex_ticked) 1002 1003 (ex_regs 50)
    (fst (match schedule 0 1002 1003 (ex_regs 50) ex_ticked with Done x => x | _ => (zero_regs, ex_ticked) end)) ex_away
    ex_ticked_ok) as (t & th & p' & Hsw & _); [vm_compute; reflexivity..|]. by exists t, th, p'.
Defined.

Lemma context_restored_witness : fst ex_back = ex_regs 50.
Proof.
  apply (context_restored ex_ticked ex_away ex_away (snd ex_back) 0 0 (ex_cpu 0 ex_ticked) (ex_cpu 0 ex_away) (ex_cpu 0 (snd ex_back))
    ex_reaper (ex_thread ex_reaper ex_ticked) 1002 1003 2000000 2000001 (ex_regs 50)
    (fst (match schedule 0 1002 1003 (ex_regs 50) ex_ticked with Done x => x | _ => (zero_regs, ex_ticked) end)) (ex_regs 60));
    try exact ex_ticked_ok; try exact ex_away_away; try apply rtc_refl; vm_compute; (reflexivity || discriminate || eauto).
Defined.
End example.
