(* ===== verification/SchedSleep.v ===== *)
(** What one pass of the sleeper does to every thread of the sleep queue. *)

From Stdlib Require Import Sorting.Sorted.
From S2P Require Import Prelude Math Pmm PmmBlocks Frames Pagemap PagemapTree PagemapSpec Objects Vmm Vfs Process ProcessSpec Sched SchedInv SchedSpec SchedSteps SchedReach.

Section sleep.
Context {St PM H : Type} `{FrameAllocator St, PageMapOps PM, KernelHeap H}.
Implicit Types s : sched St PM H.

(** The record of a thread that is woken at its time: ready, with the reason [success] and
    the virtual run time [vr]. *)
Definition woken (vr : Z) (th : thread) : thread :=
  set_vruntime vr (set_wake_reason wake_success (set_state Ready (set_sleep_until (sleep_dur (slp th)) None th))).
(** Where the pass leaves thread [t] of the sleep queue, [th] being its record before. *)
Definition after_pass (time vr : Z) (s' : sched St PM H) (p' : percpu) (t : Z) (th : thread) : Prop :=
  let stays := t ∈ sleep_queue p' ∧ threads s' !! t = Some th in
  match sleep_until (slp th), state th with
  | Some til, _ => if time <? til then stays else (t ∉ sleep_queue p') ∧ t ∈ queue p' ∧ threads s' !! t = Some (woken vr th)
  | None, Ready => (t ∉ sleep_queue p') ∧ t ∈ queue p' ∧ threads s' !! t = Some th
  | None, Killed => (t ∉ sleep_queue p') ∧ t ∈ dead_threads p' ∧ threads s' !! t = Some th
  | None, _ => stays
  end.

(** One thread [u] leaves the sleep queue for a list. *)
Record moves (u : Z) (thu : thread) s (p : percpu) s' (p' : percpu) : Prop := {
  mv_threads : threads s' = <[u := thu]> (threads s);
  mv_sleep t : t ∈ sleep_queue p' ↔ t ≠ u ∧ t ∈ sleep_queue p;
  mv_queue t : t ∈ queue p → t ∈ queue p';
  mv_dead t : t ∈ dead_threads p → t ∈ dead_threads p' }.
Lemma sleep_remove_inv c u s s' p : cpus s !! c = Some p → sleep_remove c u s = Done s' →
  s' = put_cpu c (unlist (InSleep c) u p) s.
Proof.
  unfold sleep_remove, get_cpu. intros -> E. cbn [deref mbind outcome_bind] in E. unfold rb_remove in E.
  destruct (decide _); [|done]. by injection E as <-.
Qed.
Lemma filter_ne (u t : Z) (l : list Z) : t ∈ filter (λ y, y ≠ u) l ↔ t ≠ u ∧ t ∈ l.
Proof. by rewrite list_elem_of_filter. Qed.

(** ... to the run queue, ... *)
Lemma to_queue c u thu s s1 s2 p s0 : cpus s !! c = Some p → threads s !! u = Some thu → sleep_remove c u s = Done s1 →
  cpus s0 = cpus s1 → queue_insert c u s0 = Done s2 → ∀ thu', threads s0 = <[u := thu']> (threads s) →
  ∃ p2, cpus s2 !! c = Some p2 ∧ moves u thu' s p s2 p2 ∧ u ∈ queue p2.
Proof.
  intros Hc Hu Er Ec Ei thu' Et. apply (sleep_remove_inv _ _ _ _ p) in Er as ->; [|done].
  assert (cpus s0 !! c = Some (unlist (InSleep c) u p)) as Hc0 by (rewrite Ec; by apply (put_same_cpu s c _ p)).
  unfold queue_insert, upd_cpu, get_cpu in Ei. rewrite Hc0 in Ei. injection Ei as <-.
  eexists. split; [by apply (put_same_cpu s0 c _ (unlist (InSleep c) u p))|]. split; [split|].
  - exact Et.
  - intros t. simpl. apply filter_ne.
  - intros t Ht. simpl. rewrite rb_insert_elem. by right.
  - done.
  - simpl. rewrite rb_insert_elem. by left.
Qed.
(** ... or to the dead threads. *)
Lemma to_dead c u thu s s1 s2 p : cpus s !! c = Some p → threads s !! u = Some thu → sleep_remove c u s = Done s1 →
  dead_push c u s1 = Done s2 → ∃ p2, cpus s2 !! c = Some p2 ∧ moves u thu s p s2 p2 ∧ u ∈ dead_threads p2.
Proof.
  intros Hc Hu Er Ei. apply (sleep_remove_inv _ _ _ _ p) in Er as ->; [|done].
  rewrite (dead_push_eq _ _ (unlist (InSleep c) u p)) in Ei by by apply (put_same_cpu s c _ p). injection Ei as <-.
  eexists. split; [apply (put_same_cpu _ c _ (unlist (InSleep c) u p)); by apply (put_same_cpu s c _ p)|]. split; [split|].
  - simpl. by rewrite insert_id.
  - intros t. simpl. apply filter_ne.
  - done.
  - intros t Ht. simpl. set_solver.
  - simpl. set_solver.
Qed.

Lemma wakes c first u thu s s2 p : cpus s !! c = Some p → threads s !! u = Some thu →
  sleeper_wake c first u thu s = Done s2 →
  ∃ p2, cpus s2 !! c = Some p2 ∧ moves u (woken (vruntime_of s first) thu) s p s2 p2 ∧ u ∈ queue p2.
Proof.
  intros Hc Hu E. unfold sleeper_wake in E. apply bind_Done_inv in E as (s1 & E1 & E). pose proof E1 as E1'.
  apply (sleep_remove_inv _ _ _ _ p) in E1' as Es1; [|done].
  apply bind_Done_inv in E as (b & Eb & E). apply deref_Done_inv in Eb. rewrite upd_put_thread in E. cbn [mbind outcome_bind] in E.
  assert (vruntime (acct b) = vruntime_of s first) as Ev.
  { unfold vruntime_of. subst s1. simpl in Eb. apply lookup_insert_Some in Eb as [[-> <-]|[_ ->]]; [by rewrite Hu|done]. }
  rewrite Ev in E. eapply to_queue; [exact Hc|exact Hu|exact E1| |exact E|]; by subst s1.
Qed.

(** A suffix of the queue that is still to be looked at. *)
Record pending (l : list Z) s (p : percpu) : Prop := {
  pd_nodup : NoDup l;
  pd_asleep t : t ∈ l → t ∈ sleep_queue p;
  pd_known t : t ∈ l → is_Some (threads s !! t);
  pd_ordered : ordered (wake_before s) l }.
Definition untouched (l : list Z) s (p : percpu) s' (p' : percpu) : Prop :=
  ∀ t, t ∉ l → threads s' !! t = threads s !! t ∧ (t ∈ sleep_queue p' ↔ t ∈ sleep_queue p) ∧
    (t ∈ queue p → t ∈ queue p') ∧ (t ∈ dead_threads p → t ∈ dead_threads p').

Lemma pending_tail u l s p s' p' thu : pending (u :: l) s p → moves u thu s p s' p' → pending l s' p'.
Proof.
  intros [[Hu Hl]%NoDup_cons Ha Hk Ho] [Ht Hs _ _]. apply StronglySorted_inv in Ho as [Ho _]. split; [done| | |].
  - intros t Htl. apply Hs. split; [by intros ->|]. apply Ha. by right.
  - intros t Htl. rewrite Ht, lookup_insert_ne by by intros ->. apply Hk. by right.
  - apply (ordered_ext (wake_before s)); [|done]. intros a b Hal Hbl. unfold wake_before, until_of. rewrite Ht.
    rewrite !lookup_insert_ne; [done|by intros ->..].
Qed.
Lemma pending_skip u l s p : pending (u :: l) s p → pending l s p.
Proof.
  intros [[Hu Hl]%NoDup_cons Ha Hk Ho]. apply StronglySorted_inv in Ho as [Ho _].
  split; [done|intros t Ht; apply Ha; by right|intros t Ht; apply Hk; by right|done].
Qed.
(** Nobody after a thread whose time has not come is due. *)
Lemma pending_later u l s p thu til time : pending (u :: l) s p → threads s !! u = Some thu → sleep_until (slp thu) = Some til →
  time < til → ∀ vr t th, t ∈ u :: l → threads s !! t = Some th → after_pass time vr s p t th.
Proof.
  intros [_ Ha _ Ho] Hu Htil Hlt vr t th Ht Hth. apply StronglySorted_inv in Ho as [_ Ho]. rewrite Forall_forall in Ho.
  assert (∃ til', sleep_until (slp th) = Some til' ∧ time < til') as (til' & E & Hlt').
  { apply elem_of_cons in Ht as [->|Ht]; [exists til; by simplify_eq|]. specialize (Ho t Ht).
    unfold wake_before, until_of in Ho. rewrite Hth, Hu, Htil in Ho. simpl in Ho. destruct (sleep_until (slp th)) as [til'|]; [|done].
    apply Z.ltb_ge in Ho. exists til'. split; [done|lia]. }
  unfold after_pass. rewrite E. destruct (Z.ltb_spec time til'); [|lia]. split; [by apply Ha|done].
Qed.

(** A thread that was dealt with stays as it is while the rest is. *)
Lemma after_rest time vr l s1 p1 s' p' t th : untouched l s1 p1 s' p' → t ∉ l → after_pass time vr s1 p1 t th → after_pass time vr s' p' t th.
Proof.
  intros Hun Htl. destruct (Hun t Htl) as (Et & Es & Eq & Ed). unfold after_pass.
  destruct (sleep_until (slp th)); [destruct (_ <? _)|destruct (state th)]; rewrite Et, Es; tauto.
Qed.

Lemma sleeper_loop_spec c first time vr l : ∀ s p s', cpus s !! c = Some p → pending l s p → vruntime_of s first = vr →
  sleeper_loop c first time l s = Done s' →
  ∃ p', cpus s' !! c = Some p' ∧ untouched l s p s' p' ∧
    ∀ t th, t ∈ l → threads s !! t = Some th → after_pass time vr s' p' t th.
Proof.
  induction l as [|u l IH]; intros s p s' Hc Hp Hvr E; cbn [sleeper_loop] in E.
  { injection E as <-. exists p. split; [done|]. split; [done|]. intros t th Ht. set_solver. }
  apply bind_Done_inv in E as (thu & Hu & E). apply deref_Done_inv in Hu.
  pose proof (pd_nodup _ _ _ Hp) as [Hul _]%NoDup_cons.
  assert (∀ s1 p1 thu', cpus s1 !! c = Some p1 → moves u thu' s p s1 p1 → vruntime_of s1 first = vr → after_pass time vr s1 p1 u thu →
    sleeper_loop c first time l s1 = Done s' → ∃ p', cpus s' !! c = Some p' ∧ untouched (u :: l) s p s' p' ∧
    ∀ t th, t ∈ u :: l → threads s !! t = Some th → after_pass time vr s' p' t th) as Hmove.
  { intros s1 p1 thu' Hc1 Hm Hvr1 Hau E1. destruct (IH s1 p1 s' Hc1 (pending_tail u l s p s1 p1 thu' Hp Hm) Hvr1 E1) as (p' & Hc' & Hun & Hall).
    destruct Hm as [Ht Hs Hq Hd]. exists p'. split; [done|]. split.
    - intros t [Htu Htl]%not_elem_of_cons. destruct (Hun t Htl) as (Et & Es & Eq & Ed). rewrite Et, Ht, lookup_insert_ne by done.
      split; [done|]. split; [rewrite Es, Hs; tauto|]. split; auto.
    - intros t th [->|Htl]%elem_of_cons Hth.
      + assert (th = thu) as -> by congruence. by eapply after_rest.
      + apply Hall; [done|]. rewrite Ht, lookup_insert_ne; [done|]. by intros ->. }
  assert (after_pass time vr s p u thu → sleeper_loop c first time l s = Done s' → ∃ p', cpus s' !! c = Some p' ∧ untouched (u :: l) s p s' p' ∧
    ∀ t th, t ∈ u :: l → threads s !! t = Some th → after_pass time vr s' p' t th) as Hskip.
  { intros Hau E1. destruct (IH s p s' Hc (pending_skip u l s p Hp) Hvr E1) as (p' & Hc' & Hun & Hall). exists p'. split; [done|]. split.
    - intros t [Htu Htl]%not_elem_of_cons. by apply Hun.
    - intros t th [->|Htl]%elem_of_cons Hth; [assert (th = thu) as -> by congruence; by eapply after_rest|by apply Hall]. }
  assert (u ∈ sleep_queue p) as Hus by (apply (pd_asleep _ _ _ Hp); by left).
  destruct (sleep_until (slp thu)) as [til|] eqn:Etil.
  - destruct (Z.ltb_spec time til).
    + injection E as <-. exists p. split; [done|]. split; [done|]. intros t th Ht Hth. by eapply pending_later.
    + apply bind_Done_inv in E as (s1 & E1 & E). destruct (wakes c first u thu s s1 p Hc Hu E1) as (p1 & Hc1 & Hm & Hq).
      apply (Hmove s1 p1 _ Hc1 Hm); [| |done]; destruct Hm as [Ht Hs _ _].
      * unfold vruntime_of at 1. rewrite Ht. destruct (decide (first = u)) as [->|]; [by rewrite lookup_insert_eq|].
        rewrite lookup_insert_ne by done. exact Hvr.
      * unfold after_pass. rewrite Etil. destruct (Z.ltb_spec time til); [lia|]. rewrite Hs, Ht, lookup_insert_eq, Hvr. naive_solver.
  - assert (∀ s1 p1, moves u thu s p s1 p1 → vruntime_of s1 first = vr) as Hsame.
    { intros s1 p1 [Ht _ _ _]. unfold vruntime_of. rewrite Ht, insert_id by done. exact Hvr. }
    destruct (state thu) eqn:Est.
    + apply Hskip; [|done]. unfold after_pass. by rewrite Etil, Est.
    + apply bind_Done_inv in E as (s1 & E1 & E). apply bind_Done_inv in E as (s2 & E2 & E).
      assert (threads s1 = <[u := thu]> (threads s)) as Et1 by (apply (sleep_remove_inv _ _ _ _ p) in E1 as ->; [by simpl; rewrite insert_id|done]).
      destruct (to_queue c u thu s s1 s2 p s1 Hc Hu E1 eq_refl E2 thu Et1) as (p2 & Hc2 & Hm & Hq).
      apply (Hmove s2 p2 thu Hc2 Hm); [by eapply Hsame| |done]. destruct Hm as [Ht Hs _ _].
      unfold after_pass. rewrite Etil, Est, Hs, Ht, lookup_insert_eq. naive_solver.
    + done.
    + apply Hskip; [|done]. unfold after_pass. by rewrite Etil, Est.
    + apply bind_Done_inv in E as (s1 & E1 & E). apply bind_Done_inv in E as (s2 & E2 & E).
      destruct (to_dead c u thu s s1 s2 p Hc Hu E1 E2) as (p2 & Hc2 & Hm & Hq).
      apply (Hmove s2 p2 thu Hc2 Hm); [by eapply Hsame| |done]. destruct Hm as [Ht Hs _ _].
      unfold after_pass. rewrite Etil, Est, Hs, Ht, lookup_insert_eq. naive_solver.
Qed.

Lemma preempt_lists c (f : nat → sched St PM H → outcome (sched St PM H)) s s' p : f = disable ∨ f = enable →
  f c s = Done s' → cpus s !! c = Some p → threads s' = threads s ∧ ∃ p', cpus s' !! c = Some p' ∧
    queue p' = queue p ∧ sleep_queue p' = sleep_queue p ∧ dead_threads p' = dead_threads p.
Proof.
  intros Hf E Hc. destruct Hf as [-> | ->]; unfold disable, enable, get_cpu in E; rewrite Hc in E.
  all: destruct (negb _); [injection E as <-; split; [done|by exists p]|]; cbn [deref mbind outcome_bind] in E.
  all: destruct (in_scheduler p); [injection E as <-; split; [done|by exists p]|].
  - injection E as <-. split; [done|]. eexists. split; [by apply (put_same_cpu s c _ p)|done].
  - destruct (0 <? _); injection E as <-; [|split; [done|by exists p]]. split; [done|].
    eexists. split; [by apply (put_same_cpu s c _ p)|done].
Qed.

Lemma sleeper_pass_spec s c p time first l s' : sched_ok s → cpus s !! c = Some p → sleep_queue p = first :: l →
  sleeper_pass c time s = Done s' →
  ∃ p', cpus s' !! c = Some p' ∧
    (∀ t th, t ∈ sleep_queue p → threads s !! t = Some th → after_pass time (vruntime_of s first) s' p' t th) ∧
    ∀ t, t ∉ sleep_queue p → threads s' !! t = threads s !! t.
Proof.
  intros (w & hm & Hr) Hc Hq E. unfold sleeper_pass, get_cpu in E. rewrite Hc in E. cbn [deref mbind outcome_bind] in E.
  rewrite Hq in E. cbv iota in E. rewrite <-Hq in E. apply bind_Done_inv in E as (s1 & E1 & E). apply bind_Done_inv in E as (s2 & E2 & E).
  destruct (preempt_lists c disable s s1 p ltac:(by left) E1 Hc) as (T1 & p1 & Hc1 & Q1 & S1 & D1).
  destruct (sr_nodup _ _ _ _ _ Hr c p Hc) as (_ & N & _).
  assert (pending (sleep_queue p) s1 p1) as Hp.
  { split; [done|by intros t; rewrite S1| |].
    - intros t Ht. rewrite T1. apply (sr_place _ _ _ _ _ Hr). left. apply (sr_sleep _ _ _ _ _ Hr c p t Hc) in Ht. congruence.
    - apply (ordered_ext (wake_before s)); [|apply (sr_asleep _ _ _ _ _ Hr c p Hc)]. intros a b _ _. unfold wake_before, until_of. by rewrite T1. }
  assert (vruntime_of s1 first = vruntime_of s first) as Hv by (unfold vruntime_of; by rewrite T1).
  destruct (sleeper_loop_spec c first time _ (sleep_queue p) s1 p1 s2 Hc1 Hp Hv E2) as (p2 & Hc2 & Hun & Hall).
  destruct (preempt_lists c enable s2 s' p2 ltac:(by right) E Hc2) as (T3 & p3 & Hc3 & Q3 & S3 & D3).
  exists p3. split; [done|]. split.
  - intros t th Ht Hth. rewrite <-T1 in Hth. specialize (Hall t th Ht Hth). unfold after_pass in *. by rewrite T3, Q3, S3, D3.
  - intros t Ht. rewrite T3. destruct (Hun t Ht) as [-> _]. by rewrite T1.
Qed.

(** C22: one pass of the sleeper wakes exactly the threads of its sleep queue whose time has
    come, and moves those that were woken or killed without a time to the run queue or to the
    dead threads; every other sleeper, and every other thread, stays as it is.  That it stops
    at the first thread whose time has not come loses none, because the queue is ordered. *)
Theorem sleeper_wakes_due s c p time first l s' : sched_ok s → cpus s !! c = Some p → sleep_queue p = first :: l →
  sleeper_pass c time s = Done s' →
  ∃ p', cpus s' !! c = Some p' ∧
    (∀ t th, t ∈ sleep_queue p → threads s !! t = Some th → after_pass time (vruntime_of s first) s' p' t th) ∧
    ∀ t, t ∉ sleep_queue p → threads s' !! t = threads s !! t.
Proof. apply sleeper_pass_spec. Qed.

Lemma due_queued time vr s' p' t th til : after_pass time vr s' p' t th → sleep_until (slp th) = Some til → til ≤ time → t ∈ queue p'.
Proof. unfold after_pass. intros Ha E Hle. rewrite E in Ha. destruct (Z.ltb_spec time til); [lia|]. apply Ha. Qed.

(** The first sleeper that is woken keeps its own virtual run time, however far it is behind
    those of the run queue. *)
Theorem woken_first_unadjusted s c p time first l s' th til : sched_ok s → cpus s !! c = Some p → sleep_queue p = first :: l →
  threads s !! first = Some th → sleep_until (slp th) = Some til → til ≤ time →
  sleeper_pass c time s = Done s' → vruntime_of s' first = vruntime_of s first.
Proof.
  intros Hok Hc Hq Hth Htil Hle E. destruct (sleeper_pass_spec s c p time first l s' Hok Hc Hq E) as (p' & _ & Hall & _).
  specialize (Hall first th ltac:(rewrite Hq; by left) Hth). unfold after_pass in Hall. rewrite Htil in Hall.
  destruct (Z.ltb_spec time til); [lia|]. destruct Hall as (_ & _ & E'). unfold vruntime_of at 1. by rewrite E'.
Qed.
(** A thread that is woken before its time has come is not put into the run queue until then. *)
Theorem early_wake_waits s c me p time s' t th til : sched_ok s → executes s c me → cpus s !! c = Some p → t ∈ sleep_queue p →
  threads s !! t = Some th → state th = Ready → sleep_until (slp th) = Some til → time < til →
  sleeper_pass c time s = Done s' → ∃ p', cpus s' !! c = Some p' ∧ t ∈ sleep_queue p' ∧ t ∉ queue p'.
Proof.
  intros Hok Hme Hc Ht Hth Hst Htil Hlt E.
  destruct (sched_ok_one_place s' (sched_step_ok s s' Hok (step_sleeper s c me time s' Hme E))) as (Hnd & _).
  destruct (sleep_queue p) as [|first l] eqn:Hq; [set_solver|].
  destruct (sleeper_pass_spec s c p time first l s' Hok Hc Hq E) as (p' & Hc' & Hall & _). exists p'. split; [done|].
  rewrite Hq in Hall. specialize (Hall t th Ht Hth). unfold after_pass in Hall. rewrite Htil in Hall.
  destruct (Z.ltb_spec time til); [|lia]. split; [apply Hall|]. specialize (Hnd c p' Hc'). unfold members in Hnd.
  apply NoDup_app in Hnd as (_ & Hd & _). intros Hin. apply (Hd t Hin). apply elem_of_app. left. apply Hall.
Qed.
End sleep.

(** * Example: a thread sleeps for five milliseconds *)
Section example.
#[local] Existing Instances idle_pages bump_heap.
Definition ex_sleeping : sched Z Z Z :=
  ex_step (λ s, s ← prepare_sleep 0 2 5 s; '(_, _, s) ← yield_enter 0 2000 s; '(_, s) ← schedule 0 2000 2001 zero_regs s; Done s) ex_ticked.
Definition ex_early : sched Z Z Z := ex_step (λ s, '(_, s) ← wake_up 2 7 s; Done s) ex_sleeping.
Definition ex_pass (time : Z) (s : sched Z Z Z) : sched Z Z Z := ex_step (sleeper_pass 0 time) s.

(** [sched_step] on the example, for an operation that returns a state. *)
Lemma ex_sleeping_ok : sched_ok ex_sleeping.
Proof.
  set (s1 := ex_step (prepare_sleep 0 2 5) ex_ticked).
  set (s2 := ex_step (λ s, '(_, _, s) ← yield_enter 0 2000 s; Done s) s1).
  assert (sched_ok s1) as H1.
  { apply (sched_step_ok ex_ticked); [exact ex_ticked_ok|].
    apply (step_prepare_sleep _ 0 2 5); [|vm_compute; reflexivity]. eexists _, _. vm_compute. by repeat split. }
  assert (sched_ok s2) as H2.
  { apply (sched_step_ok s1); [exact H1|]. eapply (step_yield_enter _ 0 (ex_cpu 0 s1) 2 2000 true); vm_compute; (reflexivity || (intros ?; by simplify_eq) || idtac).
    all: intros Hin; inversion Hin. }
  apply (sched_step_ok s2); [exact H2|]. eapply (step_interrupt _ 0 (ex_cpu 0 s2) 0 2000 2001 zero_regs); vm_compute; reflexivity.
Qed.
Lemma ex_early_ok : sched_ok ex_early.
Proof.
  apply (sched_step_ok ex_sleeping); [exact ex_sleeping_ok|]. apply (step_wake_up _ 2 7 true); [|vm_compute; reflexivity].
  apply idle_not_dozing. vm_compute. reflexivity.
Qed.

Lemma sleeper_wakes_due_witness : ∃ p', cpus (ex_pass 6000000 ex_sleeping) !! 0%nat = Some p' ∧ 2 ∈ queue p'.
Proof.
  destruct (sleeper_wakes_due ex_sleeping 0 (ex_cpu 0 ex_sleeping) 6000000 2 [] (ex_pass 6000000 ex_sleeping)) as (p' & Hc & Hall & _);
    [exact ex_sleeping_ok|vm_compute; reflexivity..|].
  exists p'. split; [exact Hc|]. eapply (due_queued _ _ _ _ 2 (ex_thread 2 ex_sleeping) 5002000).
  - apply Hall; [vm_compute; by left|vm_compute; reflexivity].
  - vm_compute. reflexivity.
  - vm_compute. discriminate.
Defined.
Lemma woken_first_unadjusted_witness : vruntime_of (ex_pass 6000000 ex_sleeping) 2 = vruntime_of ex_sleeping 2.
Proof.
  apply (woken_first_unadjusted ex_sleeping 0 (ex_cpu 0 ex_sleeping) 6000000 2 [] _ (ex_thread 2 ex_sleeping) 5002000);
    [exact ex_sleeping_ok|vm_compute; (reflexivity || discriminate)..].
Defined.
Lemma early_wake_waits_witness : ∃ p', cpus (ex_pass 3000000 ex_early) !! 0%nat = Some p' ∧ 2 ∈ sleep_queue p' ∧ 2 ∉ queue p'.
Proof.
  apply (early_wake_waits ex_early 0 3 (ex_cpu 0 ex_early) 3000000 (ex_pass 3000000 ex_early) 2 (ex_thread 2 ex_early) 5002000);
    [exact ex_early_ok|eexists _, _; vm_compute; by repeat split|vm_compute; reflexivity|vm_compute; by left|vm_compute; reflexivity..].
Defined.
End example.
