(* ===== verification/SchedEnd.v ===== *)
(** Where the kernel stops, loses or doubles a thread: a user thread is never destroyed, a
    reaper can fall asleep for good, and a thread that is woken while the interrupt handler
    leaves it is in two queues. *)

From S2P Require Import Prelude Math Pmm PmmBlocks Frames Pagemap PagemapTree PagemapSpec Objects Vmm Vfs Process ProcessSpec Sched SchedInv SchedSpec SchedSteps SchedReach.

Section ends.
Context {St PM H : Type} `{FrameAllocator St, PageMapOps PM, KernelHeap H}.
Implicit Types s : sched St PM H.

Lemma unmap_untouchable o v r v' : (∀ e, e ∈ tree v → obj e = o → untouchable e = true) →
  vm_unmap_obj o v = Done (r, v') → v' = v.
Proof.
  intros Hu E. unfold vm_unmap_obj in E. apply bind_Done_inv in E as (u & _ & E).
  assert (filter (λ e, obj e = o ∧ untouchable e = false) (tree v) = []) as Ef.
  { destruct (filter _ _) as [|e l] eqn:Ef; [done|]. assert (e ∈ filter (λ e, obj e = o ∧ untouchable e = false) (tree v)) as He by (rewrite Ef; by left).
    apply list_elem_of_filter in He as [[Ho Hn] He]. by rewrite (Hu e He Ho) in Hn. }
  rewrite Ef in E. by injection E as _ ->.
Qed.

(** No user thread is ever destroyed: its stack is mapped as not to be touched, which
    [vmspace::unmap] respects, so that the number of references to the stack does not go
    down, and the destructor panics when it checks that. *)
Theorem user_thread_not_destroyed s t th o pr v sp : threads s !! t = Some th → is_user th = true →
  ustack_obj (stk th) = Some o → ptab (tables s) !! parent th = Some pr → vspace pr = Some v →
  spaces (tables s) !! v = Some sp → (∀ e, e ∈ tree sp → obj e = o → untouchable e = true) →
  0 ≤ use_count o s < 2 ^ 64 → ∀ s', thread_destroy t s ≠ Done s'.
Proof.
  intros Ht Hus Ho Hp Hv Hsp Hun Hn s' E. unfold thread_destroy, get_thread in E. rewrite Ht in E. cbn [deref mbind outcome_bind] in E.
  apply bind_Done_inv in E as (hp & _ & E). rewrite Hus in E. apply bind_Done_inv in E as (s1 & E & _).
  unfold unmap_stack in E. rewrite Ho in E. cbn [deref mbind outcome_bind] in E. unfold get_process in E.
  change (tables (put_heap hp s)) with (tables s) in E. rewrite Hp in E. cbn [deref mbind outcome_bind] in E.
  rewrite Hv in E. cbn [deref mbind outcome_bind] in E. rewrite Hsp in E. cbn [deref mbind outcome_bind] in E.
  apply bind_Done_inv in E as ([r sp'] & E1 & E). apply unmap_untouchable in E1 as ->; [|done].
  destruct r; [|done]. assert (use_count o (put_tables (put_space v sp (tables s)) (put_heap hp s)) = use_count o s) as Eu.
  { unfold use_count. simpl. by rewrite insert_id. }
  assert (use_count o (put_heap hp s) = use_count o s) as Eu' by done.
  rewrite Eu, Eu' in E. destruct (Z.eqb_spec (use_count o s) (w64 (use_count o s - 1))) as [Heq|]; [|done].
  unfold w64 in Heq. destruct (decide (use_count o s = 0)) as [Hz|]; [by rewrite Hz in Heq|].
  rewrite Z.mod_small in Heq; lia.
Qed.

(** What another processor does that wakes thread [t]. *)
Definition wakes (t reason : Z) s : outcome (sched St PM H) := '(_, s) ← wake_up t reason s; Done s.

(** The handler releases the [sleep_lock] of the thread it leaves, which is in the sleep
    queue, and then reads its status again.  Another processor that wakes the thread in
    between has it inserted in the run queue, too. *)
Theorem woken_while_left c time r t th next reason s p next' s' : cpus s !! c = Some p → threads s !! t = Some th →
  state th = Sleeping → next ≠ Some t → leave_current (wakes t reason) c time r t th next s = Done (next', s') →
  ∃ p', cpus s' !! c = Some p' ∧ t ∈ queue p' ∧ sleep_queue p' = sleep_queue p.
Proof.
  intros Hc Hth Hst Hne E. unfold leave_current in E. rewrite Hst in E.
  rewrite (bool_decide_false (Sleeping = Running)), andb_false_r, (bool_decide_true (Sleeping = Sleeping)) in E by done.
  cbn [andb negb] in E. rewrite (upd_thread_eq _ _ _ th Hth) in E. cbn [mbind outcome_bind] in E.
  unfold wakes, wake_up in E. rewrite get_put_thread in E. cbn [mbind outcome_bind] in E. simpl in E.
  rewrite Hst in E. rewrite (bool_decide_true (Sleeping = Sleeping)) in E by done. simpl in E. rewrite put_thread_put, upd_put_thread in E.
  cbn [mbind outcome_bind] in E. rewrite bool_decide_false in E by done.
  erewrite save_eq in E; [|exact Hc|apply lookup_insert_eq]. cbn [mbind outcome_bind] in E. rewrite put_thread_put, get_put_thread in E.
  simpl in E. unfold enqueue in E. rewrite get_put_thread in E. simpl in E.
  unfold queue_insert, upd_cpu, get_cpu in E. simpl in E. rewrite Hc in E. simpl in E. injection E as <- <-.
  eexists. split; [apply list_lookup_insert_eq; by eapply lookup_lt_Some|]. split; [|done]. simpl. rewrite rb_insert_elem. by left.
Qed.
End ends.

(** * Examples *)
Section example.
#[local] Existing Instances idle_pages bump_heap.

(** A user thread of the kernel process. *)
Definition ex_user : sched Z Z Z := ex_step (λ s, '(_, s) ← thread_create 0 0 0x1000 true s; Done s) ex_power_on.
Definition ex_space : vmspace Z := default (mk_vmspace [] 100 false) (spaces (tables ex_user) !! 0).

Lemma user_thread_not_destroyed_witness : thread_destroy 0 ex_user ≠ Done ex_user.
Proof.
  apply (user_thread_not_destroyed ex_user 0 (ex_thread 0 ex_user) 0
    (default (blank_process 0) (ptab (tables ex_user) !! 0)) 0 ex_space); try (vm_compute; reflexivity).
  - intros e He. assert (tree ex_space = [mk_mapping 2147483135 2147483647 0 0 3 66]) as E by (vm_compute; reflexivity).
    rewrite E in He. apply list_elem_of_singleton in He as ->. vm_compute. reflexivity.
  - vm_compute. split; [discriminate|reflexivity].
Defined.

(** The reaper goes to sleep by setting its status with interrupts enabled.  A timer interrupt
    before it has entered the sleep queue takes the processor away from a thread that is in no
    queue; whoever wakes it later only sets its status. *)
Definition ex_reaper_sleeps : sched Z Z Z := ex_step (reaper_idle 0) ex_ticked.
Definition ex_reaper_lost : sched Z Z Z := ex_step (λ s, '(_, s) ← schedule 0 3000 3001 zero_regs s; Done s) ex_reaper_sleeps.

(** Thread [t] is in no list and runs nowhere, as a test. *)
Definition nowhere (t : Z) (l : list percpu) : bool :=
  forallb (λ p, bool_decide (t ∉ members p) && bool_decide (running_thread p ≠ Some t)) l.
Lemma nowhere_check (t : Z) (l : list percpu) : nowhere t l = true → ∀ c p, l !! c = Some p → (t ∉ members p) ∧ running_thread p ≠ Some t.
Proof.
  unfold nowhere. rewrite forallb_forall. intros Hl c p Hc. specialize (Hl p).
  apply list_elem_of_lookup_2, list_elem_of_In, Hl in Hc. apply andb_true_iff in Hc as [H1%bool_decide_eq_true H2%bool_decide_eq_true]. done.
Qed.

Lemma ex_reaper_runs : executes ex_ticked 0 2.
Proof.
  exists (ex_cpu 0 ex_ticked), (ex_thread 2 ex_ticked).
  refine (conj _ (conj _ (conj _ (conj _ _)))); vm_compute; congruence.
Defined.
(** The reaper of the first processor sets its status, and the interrupt comes. *)
Lemma ex_reaper_lost_reachable : rtc sched_step ex_power_on ex_reaper_lost.
Proof.
  etrans; [exact ex_ticked_reachable|]. eapply rtc_l; [|apply rtc_once].
  - apply (step_reaper_idle _ 0 (ex_cpu 0 ex_ticked) 2); [exact ex_reaper_runs|vm_compute; reflexivity..].
  - eapply (step_interrupt _ 0 (ex_cpu 0 ex_reaper_sleeps) (default 0 (idle_thread (ex_cpu 0 ex_ticked))) 3000 3001 zero_regs);
      vm_compute; reflexivity.
Defined.

(** An interrupt that comes after the reaper has set its status and before it has entered
    the sleep queue loses the reaper: it is in no list and on no processor, also after it is
    made ready. *)
Theorem reaper_lost :
  rtc sched_step ex_power_on ex_reaper_lost ∧ reaper_idle 0 ex_ticked = Done ex_reaper_sleeps ∧
  (∃ r, schedule 0 3000 3001 zero_regs ex_reaper_sleeps = Done (r, ex_reaper_lost)) ∧
  state <$> threads ex_reaper_lost !! 2 = Some Sleeping ∧
  (∀ c p, cpus ex_reaper_lost !! c = Some p → (2 ∉ members p) ∧ running_thread p ≠ Some 2) ∧
  ∃ s', wake_reaper 0 ex_reaper_lost = Done s' ∧ state <$> threads s' !! 2 = Some Ready ∧ cpus s' = cpus ex_reaper_lost.
Proof.
  split; [exact ex_reaper_lost_reachable|]. split; [vm_compute; reflexivity|]. split; [eexists; vm_compute; reflexivity|]. split; [vm_compute; reflexivity|]. split.
  - apply nowhere_check. vm_compute. reflexivity.
  - eexists. split; [vm_compute; reflexivity|]. split; vm_compute; reflexivity.
Qed.

(** The reaper pauses for a batch: it prepares to sleep and enters the sleep queue; while the
    handler leaves it the other processor wakes it. *)
Definition ex_pausing : sched Z Z Z :=
  ex_step (λ s, s ← prepare_sleep 0 2 30 s; '(_, s) ← yield_enter 0 2000 s; Done s) ex_ticked.
Definition ex_doubled : sched Z Z Z :=
  ex_step (λ s, '(_, s) ← schedule_during (wakes 2 1) 0 3000 3001 zero_regs s; Done s) ex_pausing.
Lemma ex_pausing_ok : sched_ok ex_pausing.
Proof.
  assert (sched_ok (ex_step (prepare_sleep 0 2 30) ex_ticked)) as Hok.
  { apply (sched_step_ok ex_ticked); [exact ex_ticked_ok|]. apply (step_prepare_sleep _ 0 2 30 _ ex_reaper_runs).
    vm_compute. reflexivity. }
  apply (sched_step_ok _ _ Hok).
  refine (step_yield_enter _ 0 (ex_cpu 0 (ex_step (prepare_sleep 0 2 30) ex_ticked)) 2 2000 true true ex_pausing _ _ _ _ _);
    [vm_compute; reflexivity..| | |vm_compute; reflexivity].
  - vm_compute. congruence.
  - apply (bool_decide_eq_true (2 ∉ _)). vm_compute. reflexivity.
Qed.
Lemma ex_doubled_cpu : cpus ex_doubled !! 0%nat = Some (ex_cpu 0 ex_doubled).
Proof. vm_compute. reflexivity. Qed.
Lemma ex_doubled_lists : 2 ∈ queue (ex_cpu 0 ex_doubled) ∧ 2 ∈ sleep_queue (ex_cpu 0 ex_doubled).
Proof. split; [apply (bool_decide_eq_true (2 ∈ queue _))|apply (bool_decide_eq_true (2 ∈ sleep_queue _))]; vm_compute; reflexivity. Qed.
Lemma doubled_not_one_place (s : sched Z Z Z) c p t : cpus s !! c = Some p → t ∈ queue p → t ∈ sleep_queue p → ¬ one_place s.
Proof.
  intros Hc Hq Hs [Hnd _]. specialize (Hnd c p Hc). unfold members in Hnd. apply NoDup_app in Hnd as (_ & Hnd & _).
  apply (Hnd t Hq). apply elem_of_app. by left.
Qed.
Theorem woken_in_two_queues :
  sched_ok ex_pausing ∧ (∃ r, schedule_during (wakes 2 1) 0 3000 3001 zero_regs ex_pausing = Done (r, ex_doubled)) ∧
  2 ∈ queue (ex_cpu 0 ex_doubled) ∧ 2 ∈ sleep_queue (ex_cpu 0 ex_doubled) ∧ ¬ one_place ex_doubled.
Proof.
  destruct ex_doubled_lists as [Hq Hs]. split; [exact ex_pausing_ok|]. split; [eexists; vm_compute; reflexivity|].
  split; [exact Hq|]. split; [exact Hs|]. exact (doubled_not_one_place _ _ _ 2 ex_doubled_cpu Hq Hs).
Qed.
End example.
