(* ===== verification/Lock.v ===== *)
(** The ticket lock (kernel/interfaces/lib/spinlock.cppm) and the interrupt flag that
    [spinlock_irq] saves (kernel/source/lib/lock.cpp).

    Threads take turns at single accesses to the two counters; [pc] says where in [lock],
    [unlock] or [try_lock] a thread is.  The counters have 64 bits and wrap around. *)

From S2P Require Import Prelude Math.

(** * [spinlock_base<lock_type::none>] *)
Inductive pc :=
  | Out
  | Spin (ticket : Z)
  | Held
  | UnlockTest (current : Z)
  | UnlockLoad
  | UnlockStore (current : Z)
  | TryTest (current : Z)
  | TryGo.
#[export] Instance pc_eq_dec : EqDecision pc.
Proof. solve_decision. Defined.

Record spinlock := mk_spinlock { next_ticket : Z; serving_ticket : Z; pcs : gmap nat pc }.
Definition new_spinlock : spinlock := mk_spinlock 0 0 ∅.
Definition pc_of (s : spinlock) (t : nat) : pc := default Out (pcs s !! t).
Definition set_pc (t : nat) (x : pc) (s : spinlock) : spinlock :=
  mk_spinlock (next_ticket s) (serving_ticket s) (<[t := x]> (pcs s)).

(** [_next_ticket.fetch_add(1)], the first access of [lock] *)
Definition take_ticket (t : nat) (s : spinlock) : spinlock :=
  mk_spinlock (w64 (next_ticket s + 1)) (serving_ticket s) (<[t := Spin (next_ticket s)]> (pcs s)).

(** The first access of a call. *)
Inductive call := Lock | Unlock | TryLock.
Definition begin_call (c : call) (t : nat) (s : spinlock) : option spinlock :=
  match c, pc_of s t with
  | Lock, Out => Some (take_ticket t s)
  | Unlock, Held => Some (set_pc t (UnlockTest (serving_ticket s)) s)
  | TryLock, Out => Some (set_pc t (TryTest (serving_ticket s)) s)
  | _, _ => None
  end.
(** The next access of a call; the booleans of [unlock] and [try_lock] are not used here, a
    refused call just ends. *)
Definition continue_call (t : nat) (s : spinlock) : option spinlock :=
  match pc_of s t with
  | Spin k => Some (if serving_ticket s =? k then set_pc t Held s else s)
  | UnlockTest cur => Some (set_pc t (if cur =? next_ticket s then Out else UnlockLoad) s)
  | UnlockLoad => Some (set_pc t (UnlockStore (serving_ticket s)) s)
  | UnlockStore cur => Some (set_pc t Out (mk_spinlock (next_ticket s) (w64 (cur + 1)) (pcs s)))
  | TryTest cur => Some (set_pc t (if cur =? next_ticket s then TryGo else Out) s)
  | TryGo => Some (take_ticket t s)
  | Out | Held => None
  end.

(** What a thread does with the lock as its callers see it: a call takes its turn, [lock]
    returns, [unlock] returns. *)
Inductive event := Asks (t : nat) | Enters (t : nat) | Leaves (t : nat).
(** The event of an access that takes thread [t] from [x] to [y]. *)
Definition event_of (t : nat) (x y : pc) : list event :=
  match x, y with
  | (Out | TryGo), Spin _ => [Asks t]
  | Spin _, Held => [Enters t]
  | (UnlockTest _ | UnlockStore _), Out => [Leaves t]
  | _, _ => []
  end.

(** An access of one of the threads below [n], with its event. *)
Inductive lock_step (n : nat) (s : spinlock) : list event → spinlock → Prop :=
  | step_begin c t s' : (t < n)%nat → begin_call c t s = Some s' → lock_step n s (event_of t (pc_of s t) (pc_of s' t)) s'
  | step_continue t s' : (t < n)%nat → continue_call t s = Some s' → lock_step n s (event_of t (pc_of s t) (pc_of s' t)) s'.
(** The histories of the lock: the events of all accesses so far, in their order. *)
Inductive lock_trace (n : nat) : list event → spinlock → Prop :=
  | trace_new : lock_trace n [] new_spinlock
  | trace_step h s e s' : lock_trace n h s → lock_step n s e s' → lock_trace n (h ++ e) s'.

(** Who has asked for the lock, entered and left, in the order of the events. *)
Definition asked : list event → list nat := omap (λ e, match e with Asks t => Some t | _ => None end).
Definition entered : list event → list nat := omap (λ e, match e with Enters t => Some t | _ => None end).
Definition left_by : list event → list nat := omap (λ e, match e with Leaves t => Some t | _ => None end).

(** * The specification: a queue of threads *)

(** The threads in the order in which they are served; the first is inside if [inside]. *)
Record queue := mk_queue { line : list nat; inside : bool }.
Inductive queue_step (q : queue) : list event → queue → Prop :=
  | queue_stay : queue_step q [] q
  | queue_ask t : t ∉ line q → queue_step q [Asks t] (mk_queue (line q ++ [t]) (inside q))
  | queue_enter t l : line q = t :: l → inside q = false → queue_step q [Enters t] (mk_queue (line q) true)
  | queue_leave t l : line q = t :: l → inside q = true → queue_step q [Leaves t] (mk_queue l false).
(** The thread inside, and the threads that wait. *)
Definition owner (q : queue) : option nat := if inside q then head (line q) else None.
Definition waiting (q : queue) : list nat := if inside q then tail (line q) else line q.
(** A history that leads to [q]. *)
Definition queue_history (h : list event) (q : queue) : Prop :=
  asked h = left_by h ++ line q ∧ entered h = left_by h ++ option_list (owner q).

(** The thread is between [lock] and the end of [unlock]. *)
Definition in_section (x : pc) : Prop :=
  match x with Held | UnlockTest _ | UnlockLoad | UnlockStore _ => True | _ => False end.

Section ticket.
Context (n : nat) (Hn : Z.of_nat n < 2 ^ 64).

(** [a] counts the unlocks without wrapping around. *)
Definition pc_ok (a : Z) (q : queue) (t : nat) (x : pc) : Prop :=
  match x with
  | Out | TryTest _ | TryGo => t ∉ line q
  | Spin k => ∃ i, line q !! i = Some t ∧ k = w64 (a + Z.of_nat i) ∧ (inside q = true → i ≠ 0%nat)
  | Held | UnlockLoad => inside q = true ∧ line q !! 0%nat = Some t
  | UnlockTest cur | UnlockStore cur => inside q = true ∧ line q !! 0%nat = Some t ∧ cur = w64 a
  end.
Record lock_rep (a : Z) (s : spinlock) (q : queue) : Prop := {
  lr_serving : serving_ticket s = w64 a;
  lr_next : next_ticket s = w64 (a + Z.of_nat (length (line q)));
  lr_nodup : NoDup (line q);
  lr_below t : t ∈ line q → (t < n)%nat;
  lr_empty : line q = [] → inside q = false;
  lr_pc t : pc_ok a q t (pc_of s t) }.

Lemma pc_of_set t x s u : pc_of (set_pc t x s) u = if decide (u = t) then x else pc_of s u.
Proof. unfold pc_of. simpl. case_decide; [by subst; rewrite lookup_insert_eq|by rewrite lookup_insert_ne]. Qed.
Lemma pc_of_take t s u : pc_of (take_ticket t s) u = if decide (u = t) then Spin (next_ticket s) else pc_of s u.
Proof. unfold pc_of. simpl. case_decide; [by subst; rewrite lookup_insert_eq|by rewrite lookup_insert_ne]. Qed.

Lemma rep_length a s q : lock_rep a s q → (length (line q) ≤ n)%nat.
Proof.
  intros [_ _ Hnd Hb _ _]. rewrite <-(length_seq n 0). apply NoDup_incl_length; [by apply NoDup_ListNoDup|].
  intros t Ht. apply in_seq. apply list_elem_of_In, Hb in Ht. lia.
Qed.
(** Tickets of the threads in the line are different. *)
Lemma ticket_ne a i j : (i < n)%nat → (j ≤ n)%nat → i ≠ j → w64 (a + Z.of_nat i) ≠ w64 (a + Z.of_nat j).
Proof.
  intros Hi Hj Hij E. unfold w64 in E. assert ((Z.of_nat i - Z.of_nat j) mod 2 ^ 64 = 0) as Hm.
  { replace (Z.of_nat i - Z.of_nat j) with (a + Z.of_nat i - (a + Z.of_nat j)) by lia. by rewrite Zminus_mod, E, Z.sub_diag. }
  apply Z.mod_divide in Hm as [k Hk]; [|lia]. destruct (decide (k = 0)) as [->|]; [lia|]. nia.
Qed.

Lemma lock_rep_set a s q t x : lock_rep a s q → pc_ok a q t x → lock_rep a (set_pc t x s) q.
Proof. intros [] Hx. split; try done. intros u. rewrite pc_of_set. by case_decide; [subst|]. Qed.

Lemma lock_rep_take a s q t : lock_rep a s q → (t < n)%nat → t ∉ line q →
  lock_rep a (take_ticket t s) (mk_queue (line q ++ [t]) (inside q)).
Proof.
  intros [Hs Hx Hnd Hb He Hp] Ht Hq. split; simpl.
  - done.
  - rewrite Hx, length_app. unfold w64. rewrite Zplus_mod_idemp_l. f_equal. simpl. lia.
  - apply NoDup_app. split; [done|]. split; [|apply NoDup_singleton]. intros u Hu. rewrite list_elem_of_singleton. by intros ->.
  - intros u [Hu| ->%list_elem_of_singleton]%elem_of_app; [by apply Hb|done].
  - by intros [_ ?]%app_eq_nil.
  - intros u. rewrite pc_of_take. case_decide; [subst u|].
    + exists (length (line q)). simpl. rewrite list_lookup_middle by done. split; [done|]. split; [done|].
      intros Hin Hl. apply length_zero_iff_nil in Hl. by rewrite (He Hl) in Hin.
    + specialize (Hp u). destruct (pc_of s u); simpl in *.
      all: try (rewrite not_elem_of_app, list_elem_of_singleton; by split).
      * destruct Hp as (i & Hi & ? & ?). exists i. by rewrite lookup_app_l by by eapply lookup_lt_Some.
      * destruct Hp as [? Hi]. by rewrite lookup_app_l by by eapply lookup_lt_Some.
      * destruct Hp as (? & Hi & ?). by rewrite lookup_app_l by by eapply lookup_lt_Some.
      * destruct Hp as [? Hi]. by rewrite lookup_app_l by by eapply lookup_lt_Some.
      * destruct Hp as (? & Hi & ?). by rewrite lookup_app_l by by eapply lookup_lt_Some.
Qed.

Lemma rep_enter a s q t k : lock_rep a s q → pc_of s t = Spin k → serving_ticket s = k →
  ∃ l, line q = t :: l ∧ inside q = false ∧ lock_rep a (set_pc t Held s) (mk_queue (line q) true).
Proof.
  intros Hr Ht Hk. pose proof (rep_length a s q Hr) as Hlen. pose proof Hr as [Hs Hx Hnd Hb He Hp].
  pose proof (Hp t) as Hpt. rewrite Ht in Hpt. destruct Hpt as (i & Hi & Hki & Hin).
  assert (i = 0%nat) as ->.
  { apply lookup_lt_Some in Hi. destruct (decide (i = 0%nat)) as [|Hne]; [done|].
    destruct (ticket_ne a i 0); [lia..|done|]. rewrite Z.add_0_r. congruence. }
  destruct (inside q) eqn:Ein; [by destruct (Hin eq_refl)|].
  destruct (line q) as [|t' l] eqn:El; [done|]. injection Hi as ->. exists l. split; [done|]. split; [done|].
  split; simpl; try done; try (by rewrite <-El).
  intros u. rewrite pc_of_set. case_decide; [subst u; by split|]. specialize (Hp u). unfold pc_ok in *. rewrite El, Ein in Hp.
  destruct (pc_of s u); simpl; try done; try (by destruct Hp).
  destruct Hp as (i & Hi & Hku & _). exists i. split; [done|]. split; [done|]. intros _ ->. simpl in Hi. congruence.
Qed.

Lemma rep_leave a s q t cur : lock_rep a s q → pc_of s t = UnlockStore cur →
  ∃ l, line q = t :: l ∧ inside q = true ∧
    lock_rep (a + 1) (set_pc t Out (mk_spinlock (next_ticket s) (w64 (cur + 1)) (pcs s))) (mk_queue l false).
Proof.
  intros Hr Ht. pose proof Hr as [Hs Hx Hnd Hb He Hp]. pose proof (Hp t) as Hpt. rewrite Ht in Hpt.
  destruct Hpt as (Ein & Hi & ->). destruct (line q) as [|t' l] eqn:El; [done|]. injection Hi as ->.
  exists l. split; [done|]. split; [done|]. apply NoDup_cons in Hnd as [Htl Hnd]. split; simpl; try done.
  - unfold w64. by rewrite Zplus_mod_idemp_l.
  - rewrite Hx. f_equal. simpl. lia.
  - intros u Hu. apply Hb. by right.
  - intros u. rewrite pc_of_set. case_decide; [subst u; done|]. specialize (Hp u). unfold pc_ok in *. rewrite El, Ein in Hp.
    change (pc_of _ u) with (pc_of s u). destruct (pc_of s u); simpl; try (by apply not_elem_of_cons in Hp as [_ ?]).
    + destruct Hp as (i & Hi & Hku & Hi0). destruct i as [|i]; [by destruct (Hi0 eq_refl)|]. exists i. split; [done|].
      split; [|done]. rewrite Hku. f_equal. lia.
    + destruct Hp as [_ Hi]. simpl in Hi. congruence.
    + destruct Hp as (_ & Hi & _). simpl in Hi. congruence.
    + destruct Hp as [_ Hi]. simpl in Hi. congruence.
    + destruct Hp as (_ & Hi & _). simpl in Hi. congruence.
Qed.

(** An unlock finds the lock taken. *)
Lemma rep_locked a s q t cur : lock_rep a s q → pc_of s t = UnlockTest cur → (cur =? next_ticket s) = false.
Proof.
  intros Hr Ht. pose proof (rep_length a s q Hr) as Hlen. pose proof Hr as [_ Hx _ _ _ Hp]. specialize (Hp t).
  rewrite Ht in Hp. destruct Hp as (_ & Hi & ->). apply Z.eqb_neq. rewrite Hx. apply lookup_lt_Some in Hi.
  intros E. apply (ticket_ne a 0 (length (line q))); [lia..|]. by rewrite Z.add_0_r.
Qed.

(** The events of an access are steps of the queue. *)
Lemma begin_sim a s q c t s' : lock_rep a s q → (t < n)%nat → begin_call c t s = Some s' →
  ∃ q', lock_rep a s' q' ∧ queue_step q (event_of t (pc_of s t) (pc_of s' t)) q'.
Proof.
  intros Hr Ht E. pose proof (lr_pc _ _ _ Hr t) as Hp. unfold begin_call in E. destruct c, (pc_of s t) eqn:Ept; simplify_eq.
  - rewrite pc_of_take, decide_True by done. eexists. split; [by apply lock_rep_take|by constructor].
  - rewrite pc_of_set, decide_True by done. exists q. split; [|constructor]. apply lock_rep_set; [done|].
    destruct Hp. split_and!; [done..|]. apply (lr_serving _ _ _ Hr).
  - rewrite pc_of_set, decide_True by done. exists q. split; [|constructor]. by apply lock_rep_set.
Qed.
Lemma continue_sim a s q t s' : lock_rep a s q → (t < n)%nat → continue_call t s = Some s' →
  ∃ a' q', lock_rep a' s' q' ∧ queue_step q (event_of t (pc_of s t) (pc_of s' t)) q'.
Proof.
  intros Hr Ht E. pose proof (lr_pc _ _ _ Hr t) as Hp. unfold continue_call in E. destruct (pc_of s t) eqn:Ept; simplify_eq.
  - destruct (Z.eqb_spec (serving_ticket s) ticket) as [Hk|]; [|exists a, q; rewrite Ept; split; [done|constructor]].
    destruct (rep_enter a s q t ticket Hr Ept Hk) as (l & El & Ein & Hr'). rewrite pc_of_set, decide_True by done.
    exists a. eexists. split; [exact Hr'|by eapply queue_enter].
  - rewrite (rep_locked a s q t current Hr Ept), pc_of_set, decide_True by done. exists a, q. split; [|constructor].
    destruct Hp as (? & ? & _). by apply lock_rep_set.
  - rewrite pc_of_set, decide_True by done. exists a, q. split; [|constructor]. destruct Hp. apply lock_rep_set; [done|].
    split_and!; [done..|]. apply (lr_serving _ _ _ Hr).
  - destruct (rep_leave a s q t current Hr Ept) as (l & El & Ein & Hr'). rewrite pc_of_set, decide_True by done.
    exists (a + 1). eexists. split; [exact Hr'|by eapply queue_leave].
  - rewrite pc_of_set, decide_True by done. exists a, q. split; [|destruct (_ =? _); constructor].
    apply lock_rep_set; [done|]. by destruct (_ =? _).
  - rewrite pc_of_take, decide_True by done. exists a. eexists. split; [by apply lock_rep_take|by constructor].
Qed.
Lemma lock_sim a s q e s' : lock_rep a s q → lock_step n s e s' → ∃ a' q', lock_rep a' s' q' ∧ queue_step q e q'.
Proof.
  intros Hr [c t s1 Ht E|t s1 Ht E]; [|by eapply continue_sim].
  exists a. by apply (begin_sim a s q c t).
Qed.

(** Histories of the queue. *)
Lemma queue_history_step h q e q' : (line q = [] → inside q = false) → queue_history h q → queue_step q e q' → queue_history (h ++ e) q'.
Proof.
  intros Hemp [Ha He] Hq. unfold queue_history, asked, entered, left_by in *. rewrite !omap_app, Ha, He.
  destruct Hq as [|t Ht|t l Hl Hi|t l Hl Hi]; unfold owner; simpl.
  - by rewrite !app_nil_r.
  - rewrite !app_nil_r, <-app_assoc. split; [done|]. destruct (inside q) eqn:Ei; [|done].
    destruct (line q); [by specialize (Hemp eq_refl)|done].
  - rewrite !app_nil_r, Hl, Hi. split; [done|]. simpl. by rewrite app_nil_r.
  - rewrite !app_nil_r, Hl, Hi. simpl. by rewrite <-app_assoc.
Qed.
Lemma lock_rep_new : lock_rep 0 new_spinlock (mk_queue [] false).
Proof.
  split; try done.
  - constructor.
  - set_solver.
  - intros t. unfold pc_of. simpl. rewrite lookup_empty. simpl. set_solver.
Qed.
Lemma lock_trace_rep h s : lock_trace n h s →
  ∃ a q, lock_rep a s q ∧ queue_history h q.
Proof.
  intros Htr. induction Htr as [|h s e s' _ (a & q & Hr & Hh) Hst].
  - exists 0, (mk_queue [] false). split; [apply lock_rep_new|done].
  - destruct (lock_sim a s q e s' Hr Hst) as (a' & q' & Hr' & Hq). exists a', q'. split; [done|].
    eapply queue_history_step; [apply (lr_empty _ _ _ Hr)|done..].
Qed.

End ticket.

(** What the program counters say about the queue. *)
Lemma rep_owner n a s q t : lock_rep n a s q → in_section (pc_of s t) → owner q = Some t.
Proof.
  intros Hr Ht. pose proof (lr_pc _ _ _ _ Hr t) as Hp. unfold owner, pc_ok in *. rewrite head_lookup.
  destruct (pc_of s t); try done; destruct Hp as [-> Hp]; try done; by destruct Hp.
Qed.

Lemma rep_waiting n a s q t : lock_rep n a s q → (∃ k, pc_of s t = Spin k) ↔ t ∈ waiting q.
Proof.
  intros Hr. pose proof (lr_nodup _ _ _ _ Hr) as Hnd. pose proof (lr_pc _ _ _ _ Hr t) as Hp. unfold waiting. split.
  - intros [k Hk]. rewrite Hk in Hp. destruct Hp as (i & Hi & _ & Hi0). destruct (inside q); [|by eapply list_elem_of_lookup_2].
    destruct i as [|i]; [by destruct (Hi0 eq_refl)|]. destruct (line q); [done|]. by eapply (list_elem_of_lookup_2 _ i).
  - intros Hw. assert (t ∈ line q ∧ (inside q = true → line q !! 0%nat ≠ Some t)) as [Hl Hne].
    { destruct (inside q); [|done]. destruct (line q) as [|u l]; [by apply elem_of_nil in Hw|].
      apply NoDup_cons in Hnd as [Hu _]. split; [by right|]. intros _ [= ->]. done. }
    unfold pc_ok in Hp. destruct (pc_of s t); try done; [by eexists|..]; destruct Hp as [Hi Hp]; destruct (Hne Hi); try done; by destruct Hp.
Qed.
Lemma rep_served n a s q t : Z.of_nat n < 2 ^ 64 → lock_rep n a s q → inside q = false → head (line q) = Some t →
  ∃ s', continue_call t s = Some s' ∧ pc_of s' t = Held.
Proof.
  intros Hn Hr Ein Hhd. pose proof (lr_pc _ _ _ _ Hr t) as Hp. rewrite head_lookup in Hhd. unfold continue_call.
  pose proof (list_elem_of_lookup_2 _ _ _ Hhd) as Hel. unfold pc_ok in Hp.
  destruct (pc_of s t) eqn:Ept; try done; try (destruct Hp; congruence).
  destruct Hp as (i & Hi & Hk & _). assert (i = 0%nat) as -> by by eapply NoDup_lookup; [apply (lr_nodup _ _ _ _ Hr)|..].
  rewrite (lr_serving _ _ _ _ Hr), Hk, Z.add_0_r, Z.eqb_refl. eexists. split; [done|]. rewrite pc_of_set. by case_decide.
Qed.

(** C6: the ticket lock serves the threads in the order in which they asked for it.  For every
    history of single accesses, in any interleaving, of fewer than 2^64 threads, and although
    the counters wrap around: the threads that have entered are the first of those that have
    asked, in the same order, and the others are the ones that still spin; the threads that
    have left are those that have entered, in the same order, apart from at most one, which is
    the one thread between the return of [lock] and the end of [unlock]; an [unlock] finds the
    lock taken; and when nobody is inside, the next access of the thread that has waited
    longest takes the lock. *)
Theorem ticket_lock_fifo n h s : Z.of_nat n < 2 ^ 64 → lock_trace n h s →
  ∃ who wait, asked h = entered h ++ wait ∧ entered h = left_by h ++ option_list who ∧
    (∀ t, in_section (pc_of s t) ↔ who = Some t) ∧
    (∀ t, (∃ k, pc_of s t = Spin k) ↔ t ∈ wait) ∧ NoDup wait ∧
    (∀ t cur, pc_of s t = UnlockTest cur → cur ≠ next_ticket s) ∧
    (who = None → ∀ t, head wait = Some t → ∃ s', continue_call t s = Some s' ∧ pc_of s' t = Held).
Proof.
  intros Hn Hs. destruct (lock_trace_rep n Hn h s Hs) as (a & q & Hr & Ha & He).
  pose proof (lr_nodup _ _ _ _ Hr) as Hnd. exists (owner q), (waiting q).
  assert (line q = option_list (owner q) ++ waiting q) as Hline.
  { pose proof (lr_empty _ _ _ _ Hr). unfold owner, waiting. destruct (inside q); [|done]. by destruct (line q). }
  split; [by rewrite Ha, He, Hline, <-app_assoc|]. split; [done|]. split; [|split; [|split; [|split]]].
  - intros t. split; [by apply (rep_owner n a)|]. intros Ho. pose proof (lr_pc _ _ _ _ Hr t) as Hp.
    unfold owner in Ho. destruct (inside q) eqn:Ei; [|done]. rewrite head_lookup in Ho.
    pose proof (list_elem_of_lookup_2 _ _ _ Ho). unfold pc_ok in Hp. destruct (pc_of s t); simpl; try done.
    destruct Hp as (i & Hi & _ & Hi0). by destruct (Hi0 Ei), (NoDup_lookup _ i 0%nat t Hnd Hi Ho).
  - intros t. by rewrite (rep_waiting n a).
  - rewrite Hline in Hnd. by apply NoDup_app in Hnd as (_ & _ & ?).
  - intros t cur Ht. apply Z.eqb_neq. by apply (rep_locked n Hn a s q t).
  - intros Ho t Hhd. rewrite Ho in Hline. simpl in Hline. apply (rep_served n a s q); [done|done| |by rewrite Hline].
    destruct (inside q) eqn:Ei; [|done]. unfold owner in Ho. rewrite Ei in Ho. destruct (line q) eqn:El; [|done].
    by rewrite (lr_empty _ _ _ _ Hr El) in Ei.
Qed.

(** * Runs *)
Inductive action := Call (c : call) (t : nat) | Continue (t : nat).
Definition do_action (a : action) (s : spinlock) : option spinlock :=
  match a with Call c t => begin_call c t s | Continue t => continue_call t s end.
Definition thread_of (a : action) : nat := match a with Call _ t | Continue t => t end.
Definition act_events (a : action) (s s' : spinlock) : list event :=
  event_of (thread_of a) (pc_of s (thread_of a)) (pc_of s' (thread_of a)).
(** The state at the end and the history. *)
Fixpoint run_lock (l : list action) (s : spinlock) : option (list event * spinlock) :=
  match l with
  | [] => Some ([], s)
  | a :: l => s1 ← do_action a s; '(h, s2) ← run_lock l s1; Some (act_events a s s1 ++ h, s2)
  end.
Lemma run_lock_trace n l : ∀ h0 s h s', forallb (λ a, bool_decide (thread_of a < n)%nat) l = true → lock_trace n h0 s →
  run_lock l s = Some (h, s') → lock_trace n (h0 ++ h) s'.
Proof.
  induction l as [|a l IH]; intros h0 s h s' Hl H0 E; cbn [run_lock] in E; [injection E as <- <-; by rewrite app_nil_r|].
  apply andb_true_iff in Hl as [Ha%bool_decide_eq_true Hl]. destruct (do_action a s) as [s1|] eqn:E1; [|done].
  cbn [mbind option_bind] in E. destruct (run_lock l s1) as [[h1 s2]|] eqn:E2; [|done]. injection E as <- <-.
  rewrite app_assoc. apply (IH _ s1); [done| |done]. apply (trace_step n h0 s); [done|].
  destruct a as [c t|t]; [by apply (step_begin _ _ c t)|by apply (step_continue _ _ t)].
Qed.
Definition ran (l : list action) : list event * spinlock := default ([], new_spinlock) (run_lock l new_spinlock).

Definition ex_lock : list action :=
  [Call Lock 1; Call Lock 0; Continue 0; Continue 1; Call Lock 2; Continue 2; Call Unlock 1; Continue 1; Continue 1;
   Continue 1; Continue 2; Continue 0].
Lemma ticket_lock_fifo_witness : ∃ wait, asked (ran ex_lock).1 = [1; 0; 2]%nat ∧ entered (ran ex_lock).1 = [1; 0]%nat ∧
  left_by (ran ex_lock).1 = [1]%nat ∧ asked (ran ex_lock).1 = entered (ran ex_lock).1 ++ wait ∧ 2%nat ∈ wait.
Proof.
  destruct (ticket_lock_fifo 3 (ran ex_lock).1 (ran ex_lock).2) as (who & wait & Ha & He & _ & Hw & _).
  - vm_compute. reflexivity.
  - apply (run_lock_trace 3 ex_lock [] new_spinlock); [vm_compute; reflexivity|constructor|vm_compute; reflexivity].
  - exists wait. split; [vm_compute; reflexivity|]. split; [vm_compute; reflexivity|]. split; [vm_compute; reflexivity|].
    split; [exact Ha|]. apply Hw. eexists. vm_compute. reflexivity.
Defined.

(** [try_lock] is a test and then a call of [lock]: it waits when another thread comes in
    between. *)
Theorem try_lock_waits : ∃ h s k, lock_trace 2 h s ∧ pc_of s 0 = Held ∧
  run_lock [Call TryLock 1; Continue 1; Call Lock 0; Continue 0; Continue 1] new_spinlock = Some (h, s) ∧
  pc_of s 1 = Spin k ∧ continue_call 1 s = Some s.
Proof.
  set (l := [Call TryLock 1; Continue 1; Call Lock 0; Continue 0; Continue 1]). exists (ran l).1, (ran l).2, 1.
  split; [apply (run_lock_trace 2 l [] new_spinlock); [vm_compute; reflexivity|constructor|vm_compute; reflexivity]|].
  split_and!; vm_compute; reflexivity.
Qed.

(** * The interrupt flag *)

(** One processor: [cpu::local::available], [cpu::self()->in_interrupt], [irq_depth] and the
    interrupt flag. *)
Record irqstate := mk_irq { available : bool; in_interrupt : bool; irq_depth : Z; int_status : bool }.
Definition set_irq (d : Z) (i : bool) (c : irqstate) : irqstate := mk_irq (available c) (in_interrupt c) d i.

Definition acquire_irq (c : irqstate) : bool * irqstate :=
  let ret := int_status c in
  if negb (available c) then (ret, c) else
  if in_interrupt c then (ret, c) else
  (ret, set_irq (w64 (irq_depth c + 1)) (if irq_depth c =? 0 then false else int_status c) c).
Definition release_irq (old : bool) (c : irqstate) : irqstate :=
  if negb (available c) then set_irq (irq_depth c) old c else
  if in_interrupt c then c else
  set_irq (w64 (irq_depth c - 1)) (if irq_depth c =? 1 then old else int_status c) c.

(** Critical sections, nested and one after the other: [Enclose x y] takes a lock, does [x],
    releases the lock and goes on with [y]. *)
Inductive sections := Nothing | Enclose (x y : sections).
Fixpoint depth_of (x : sections) : Z :=
  match x with Nothing => 0 | Enclose x y => Z.max (1 + depth_of x) (depth_of y) end.
(** The state at the end, and the interrupt flag after every lock, and after every unlock if
    another lock is held. *)
Fixpoint run_sections (held : bool) (x : sections) (c : irqstate) : irqstate * list bool :=
  match x with
  | Nothing => (c, [])
  | Enclose x y =>
      let '(old, c1) := acquire_irq c in
      let '(c2, seen) := run_sections true x c1 in
      let c3 := release_irq old c2 in
      let '(c4, seen') := run_sections held y c3 in
      (c4, int_status c1 :: seen ++ (if held then [int_status c3] else []) ++ seen')
  end.

Lemma acquire_release c : available c = true → in_interrupt c = false → 0 ≤ irq_depth c < 2 ^ 64 - 1 →
  (0 < irq_depth c → int_status c = false) →
  let '(old, c1) := acquire_irq c in c1 = set_irq (irq_depth c + 1) false c ∧ release_irq old c1 = c.
Proof.
  intros Ha Hi Hd Hz. unfold acquire_irq. rewrite Ha, Hi. cbn [negb].
  assert (w64 (irq_depth c + 1) = irq_depth c + 1) as -> by (unfold w64; rewrite Z.mod_small; lia).
  assert ((if irq_depth c =? 0 then false else int_status c) = false) as ->.
  { destruct (Z.eqb_spec (irq_depth c) 0); [done|]. apply Hz. lia. }
  split; [done|]. unfold release_irq. simpl. rewrite Ha, Hi. simpl.
  replace (irq_depth c + 1 - 1) with (irq_depth c) by lia.
  assert (w64 (irq_depth c) = irq_depth c) as -> by (unfold w64; rewrite Z.mod_small; lia).
  destruct c as [av ii d b]; simpl in *. unfold set_irq. simpl. destruct (Z.eqb_spec (d + 1) 1); [done|]. by rewrite Hz by lia.
Qed.

Lemma sections_ok x : ∀ held c, available c = true → in_interrupt c = false → 0 ≤ irq_depth c → irq_depth c + depth_of x < 2 ^ 64 →
  (held = true ↔ 0 < irq_depth c) → (held = true → int_status c = false) →
  (run_sections held x c).1 = c ∧ Forall (λ b, b = false) (run_sections held x c).2.
Proof.
  assert (∀ x, 0 ≤ depth_of x) as Hpos by (induction x0; simpl; lia).
  induction x as [|x IHx y IHy]; intros held c Ha Hi Hd Hlt Hheld Hint; cbn [run_sections]; [by split; [|constructor]|].
  cbn [depth_of] in Hlt. pose proof (Hpos x). pose proof (acquire_release c Ha Hi) as Har.
  destruct (acquire_irq c) as [old c1]. destruct Har as [-> Hrel]; [lia|intros; by apply Hint, Hheld|].
  destruct (IHx true (set_irq (irq_depth c + 1) false c)) as [E1 F1]; simpl; try done; try lia.
  destruct (run_sections true x _) as [c2 seen]. simpl in E1, F1. subst c2. rewrite Hrel.
  destruct (IHy held c) as [E2 F2]; try done; try lia. destruct (run_sections held y c) as [c4 seen']. simpl in *. subst c4.
  split; [done|]. constructor; [done|]. rewrite !Forall_app. split; [done|]. split; [|done].
  destruct held; constructor; [by apply Hint|constructor].
Qed.

(** Critical sections that are properly nested, to any depth, leave the interrupt flag of
    their processor as it was, and interrupts are disabled at every point where a lock is
    held. *)
Theorem irq_sections_ok x c : available c = true → in_interrupt c = false → irq_depth c = 0 → depth_of x < 2 ^ 64 →
  (run_sections false x c).1 = c ∧ Forall (λ b, b = false) (run_sections false x c).2.
Proof. intros Ha Hi Hd Hx. apply sections_ok; rewrite ?Hd; try done; lia. Qed.
Definition ex_sections : sections := Enclose (Enclose Nothing (Enclose Nothing Nothing)) (Enclose Nothing Nothing).
Lemma irq_sections_ok_witness : (run_sections false ex_sections (mk_irq true false 0 true)).1 = mk_irq true false 0 true.
Proof. apply (irq_sections_ok ex_sections (mk_irq true false 0 true)); vm_compute; reflexivity. Defined.

(** Locks that are released in the order in which they were taken leave interrupts disabled. *)
Theorem irq_release_order c : available c = true → in_interrupt c = false → irq_depth c = 0 → int_status c = true →
  let '(old1, c1) := acquire_irq c in let '(old2, c2) := acquire_irq c1 in
  release_irq old2 (release_irq old1 c2) = set_irq 0 false c.
Proof.
  intros Ha Hi Hd Hs. destruct c as [av ii d b]; simpl in *; subst. vm_compute. reflexivity.
Qed.

(** * [spinlock_base<lock_type::irq>] *)

(** The lock with its member [_interrupts]; thread [t] runs on processor [t]. *)
Record spinlock_irq := mk_spinlock_irq { base : spinlock; interrupts : bool; irqs : nat → irqstate }.
Definition set_irqs (t : nat) (c : irqstate) (s : spinlock_irq) : spinlock_irq :=
  mk_spinlock_irq (base s) (interrupts s) (λ u, if decide (u = t) then c else irqs s u).
(** [_interrupts = acquire_irq()], before the lock of the base class. *)
Definition irq_enter (t : nat) (s : spinlock_irq) : spinlock_irq :=
  let '(old, c) := acquire_irq (irqs s t) in set_irqs t c (mk_spinlock_irq (base s) old (irqs s)).
(** [release_irq(_interrupts)], after the unlock of the base class. *)
Definition irq_exit (t : nat) (s : spinlock_irq) : spinlock_irq :=
  set_irqs t (release_irq (interrupts s) (irqs s t)) s.
Definition irq_base (a : action) (s : spinlock_irq) : option spinlock_irq :=
  b ← do_action a (base s); Some (mk_spinlock_irq b (interrupts s) (irqs s)).
Definition irq_lock (t : nat) (s : spinlock_irq) : option spinlock_irq :=
  s ← irq_base (Call Lock t) (irq_enter t s); irq_base (Continue t) s.
Definition irq_unlock (t : nat) (s : spinlock_irq) : option spinlock_irq :=
  s ← irq_base (Call Unlock t) s; s ← irq_base (Continue t) s; s ← irq_base (Continue t) s; s ← irq_base (Continue t) s;
  Some (irq_exit t s).

(** The interrupt state that [spinlock_irq] remembers belongs to whoever called [lock]
    last, also while that processor still waits: a processor that took the lock with
    interrupts enabled comes out of [unlock] with interrupts disabled when another processor
    whose interrupts are disabled has started to wait meanwhile. *)
Theorem irq_lock_race : ∃ s1 s2 s3,
  irq_lock 0 (mk_spinlock_irq new_spinlock false (λ t, mk_irq true false 0 (bool_decide (t = 0%nat)))) = Some s1 ∧
  irq_base (Call Lock 1) (irq_enter 1 s1) = Some s2 ∧ irq_unlock 0 s2 = Some s3 ∧
  irqs s3 0 = mk_irq true false 0 false.
Proof.
  eexists _, _, _. split; [vm_compute; reflexivity|]. split; [vm_compute; reflexivity|].
  split; [vm_compute; reflexivity|]. vm_compute. reflexivity.
Qed.
