(* ===== verification/RwLock.v ===== *)
(** The reader-writer lock (kernel/interfaces/lib/rwlock.cppm), on top of two locks of which
    only one thread can hold each ([Lock.v]). *)

From S2P Require Import Prelude Math.

(** Where a thread is: before [readers.lock()], before the increment, before [global.lock()]
    or before [readers.unlock()] of [read_lock], and so on. *)
Inductive rwpc :=
  | Away
  | RlWait | RlCount | RlGlobal | RlLeave | Reading
  | RuWait | RuCount | RuGlobal | RuLeave
  | WlWait | Writing | WuGlobal
  | UpWait | UpCount | UpLeave (last : bool).
#[export] Instance rwpc_eq_dec : EqDecision rwpc.
Proof. solve_decision. Defined.

Record rwlock := mk_rwlock { counter : Z; readers : bool; global : bool; rwpcs : gmap nat rwpc }.
Definition new_rwlock : rwlock := mk_rwlock 0 false false ∅.
Definition rwpc_of (s : rwlock) (t : nat) : rwpc := default Away (rwpcs s !! t).
Definition rw_set (t : nat) (x : rwpc) (n : Z) (r g : bool) (s : rwlock) : rwlock := mk_rwlock n r g (<[t := x]> (rwpcs s)).
(** The thread goes on without touching the lock. *)
Definition rw_goto (t : nat) (x : rwpc) (s : rwlock) : rwlock := rw_set t x (counter s) (readers s) (global s) s.

Definition is_read_locked (s : rwlock) : bool := global s && (0 <? counter s).
Definition is_write_locked (s : rwlock) : bool := global s && (counter s =? 0).

Inductive rwcall := ReadLock | ReadUnlock | WriteLock | WriteUnlock | Upgrade.
Definition rw_begin (c : rwcall) (t : nat) (s : rwlock) : outcome rwlock :=
  match c, rwpc_of s t with
  | ReadLock, Away => Done (rw_goto t RlWait s)
  | WriteLock, Away => Done (rw_goto t WlWait s)
  | ReadUnlock, Reading => _ ← bug_on (negb (is_read_locked s)); Done (rw_goto t RuWait s)
  | WriteUnlock, Writing => _ ← bug_on (negb (is_write_locked s)); Done (rw_goto t WuGlobal s)
  | Upgrade, Reading => _ ← bug_on (negb (is_read_locked s)); Done (rw_goto t UpWait s)
  | _, _ => Hang
  end.
(** [Hang]: the thread waits for a lock, or has nothing to do. *)
Definition rw_continue (t : nat) (s : rwlock) : outcome rwlock :=
  match rwpc_of s t with
  | RlWait => if readers s then Hang else Done (rw_set t RlCount (counter s) true (global s) s)
  | RlCount =>
      let n := w64 (counter s + 1) in
      Done (rw_set t (if n =? 1 then RlGlobal else RlLeave) n (readers s) (global s) s)
  | RlGlobal => if global s then Hang else Done (rw_set t RlLeave (counter s) (readers s) true s)
  | RlLeave => Done (rw_set t Reading (counter s) false (global s) s)
  | RuWait => if readers s then Hang else Done (rw_set t RuCount (counter s) true (global s) s)
  | RuCount =>
      let n := w64 (counter s - 1) in
      Done (rw_set t (if n =? 0 then RuGlobal else RuLeave) n (readers s) (global s) s)
  | RuGlobal => Done (rw_set t RuLeave (counter s) (readers s) false s)
  | RuLeave => Done (rw_set t Away (counter s) false (global s) s)
  | WlWait => if global s then Hang else Done (rw_set t Writing (counter s) (readers s) true s)
  | WuGlobal => Done (rw_set t Away (counter s) (readers s) false s)
  | UpWait => if readers s then Hang else Done (rw_set t UpCount (counter s) true (global s) s)
  | UpCount =>
      let n := w64 (counter s - 1) in
      Done (rw_set t (UpLeave (n =? 0)) n (readers s) (global s) s)
  | UpLeave last => Done (rw_set t (if last then Writing else WlWait) (counter s) false (global s) s)
  | Away | Reading | Writing => Hang
  end.

Inductive rw_step (n : nat) (s : rwlock) : rwlock → Prop :=
  | rw_step_begin c t s' : (t < n)%nat → rw_begin c t s = Done s' → rw_step n s s'
  | rw_step_continue t s' : (t < n)%nat → rw_continue t s = Done s' → rw_step n s s'.

(** * Who holds what *)
Inductive owner := Nobody | Writer (t : nat) | Group.
Definition owned (o : owner) : bool := match o with Nobody => false | _ => true end.
Definition taken (rp : option nat) : bool := match rp with None => false | _ => true end.

Section rwlock.
Context (n : nat) (Hn : Z.of_nat n < 2 ^ 64).

(** [rp] holds [readers], the threads [cs] are counted, [o] owns [global]. *)
Definition rwpc_ok (rp : option nat) (cs : gset nat) (o : owner) (t : nat) (x : rwpc) : Prop :=
  match x with
  | Away | RlWait | WlWait => (t ∉ cs) ∧ rp ≠ Some t ∧ o ≠ Writer t
  | RlCount | RuLeave => (t ∉ cs) ∧ rp = Some t ∧ o ≠ Writer t
  | RlGlobal => cs = {[t]} ∧ rp = Some t ∧ o ≠ Group ∧ o ≠ Writer t
  | RlLeave | RuCount | UpCount => t ∈ cs ∧ rp = Some t ∧ o = Group
  | Reading | RuWait | UpWait => t ∈ cs ∧ rp ≠ Some t ∧ o = Group
  | RuGlobal => cs = ∅ ∧ rp = Some t ∧ o = Group
  | UpLeave last => (t ∉ cs) ∧ rp = Some t ∧ if last then o = Writer t else o ≠ Writer t
  | Writing | WuGlobal => (t ∉ cs) ∧ rp ≠ Some t ∧ o = Writer t
  end.
Record rw_rep (rp : option nat) (cs : gset nat) (o : owner) (s : rwlock) : Prop := {
  rw_counter : counter s = Z.of_nat (size cs);
  rw_readers : readers s = taken rp;
  rw_global : global s = owned o;
  rw_below t : t ∈ cs → (t < n)%nat;
  rw_group : o = Group → cs ≠ ∅ ∨ ∃ t, rp = Some t ∧ rwpc_of s t = RuGlobal;
  rw_counted : cs ≠ ∅ → o = Group ∨ ∃ t, rp = Some t ∧ rwpc_of s t = RlGlobal;
  rw_pc t : rwpc_ok rp cs o t (rwpc_of s t) }.

Lemma rwpc_of_set t x k r g s u : rwpc_of (rw_set t x k r g s) u = if decide (u = t) then x else rwpc_of s u.
Proof. unfold rwpc_of. simpl. case_decide; [by subst; rewrite lookup_insert_eq|by rewrite lookup_insert_ne]. Qed.

Lemma size_below (cs : gset nat) : (∀ t, t ∈ cs → (t < n)%nat) → (size cs ≤ n)%nat.
Proof.
  intros Hb. trans (size (list_to_set (seq 0 n) : gset nat)).
  - apply subseteq_size. intros t Ht. apply elem_of_list_to_set, elem_of_seq. specialize (Hb t Ht). lia.
  - rewrite size_list_to_set by apply NoDup_seq. by rewrite length_seq.
Qed.

Lemma rw_rep_new : rw_rep None ∅ Nobody new_rwlock.
Proof. by split. Qed.

Lemma rw_begin_sim rp cs o s c t s' : rw_rep rp cs o s → rw_begin c t s = Done s' → rw_rep rp cs o s'.
Proof.
  intros Hr E. pose proof (rw_pc _ _ _ _ Hr t) as Hp. pose proof Hr as [].
  assert (∀ x, rwpc_ok rp cs o t x → rwpc_of s t ≠ RuGlobal → rwpc_of s t ≠ RlGlobal → rw_rep rp cs o (rw_goto t x s)) as Hgo.
  { intros x Hx H1 H2. split; try done.
    - intros Ho. destruct (rw_group0 Ho) as [?|(u & ? & ?)]; [by left|right]. exists u. unfold rw_goto. rewrite rwpc_of_set. split; [done|]. destruct (decide (u = t)); congruence.
    - intros Ho. destruct (rw_counted0 Ho) as [?|(u & ? & ?)]; [by left|right]. exists u. unfold rw_goto. rewrite rwpc_of_set. split; [done|]. destruct (decide (u = t)); congruence.
    - intros u. unfold rw_goto. rewrite rwpc_of_set. destruct (decide (u = t)); [by subst|done]. }
  unfold rw_begin in E. destruct c, (rwpc_of s t) eqn:Ept; try done; done_steps; by apply Hgo.
Qed.

(** One thread moves and with it what is held. *)
Lemma rw_move rp cs o s t x k r g rp' cs' o' : rw_rep rp cs o s →
  k = Z.of_nat (size cs') → r = taken rp' → g = owned o' → (∀ u, u ∈ cs' → (u < n)%nat) →
  rwpc_ok rp' cs' o' t x →
  (∀ u, u ≠ t → rwpc_ok rp cs o u (rwpc_of s u) → rwpc_ok rp' cs' o' u (rwpc_of s u)) →
  (o' = Group → cs' ≠ ∅ ∨ ∃ u, rp' = Some u ∧ (if decide (u = t) then x else rwpc_of s u) = RuGlobal) →
  (cs' ≠ ∅ → o' = Group ∨ ∃ u, rp' = Some u ∧ (if decide (u = t) then x else rwpc_of s u) = RlGlobal) →
  rw_rep rp' cs' o' (rw_set t x k r g s).
Proof.
  intros [] -> -> -> Hb Hx Hoth Hg Hc. split; try done.
  - intros Ho. destruct (Hg Ho) as [?|(u & ? & ?)]; [by left|right]. exists u. by rewrite rwpc_of_set.
  - intros Ho. destruct (Hc Ho) as [?|(u & ? & ?)]; [by left|right]. exists u. by rewrite rwpc_of_set.
  - intros u. rewrite rwpc_of_set. destruct (decide (u = t)); [by subst|by apply Hoth].
Qed.

Lemma readers_free rp cs o s : rw_rep rp cs o s → readers s = false → rp = None.
Proof. intros Hr E. rewrite (rw_readers _ _ _ _ Hr) in E. by destruct rp. Qed.
Lemma global_free rp cs o s : rw_rep rp cs o s → global s = false → o = Nobody.
Proof. intros Hr E. rewrite (rw_global _ _ _ _ Hr) in E. by destruct o. Qed.
Lemma count_up rp cs o s t : rw_rep rp cs o s → (t < n)%nat → t ∉ cs → w64 (counter s + 1) = Z.of_nat (size ({[t]} ∪ cs)).
Proof.
  intros [Hc _ _ Hb _ _ _] Ht Hn'. assert (size ({[t]} ∪ cs) = S (size cs)) as Hs.
  { rewrite size_union by set_solver. by rewrite size_singleton. }
  assert (size ({[t]} ∪ cs) ≤ n)%nat by (apply size_below; set_solver). rewrite Hc, Hs, w64_small; lia.
Qed.
Lemma count_down rp cs o s t : rw_rep rp cs o s → t ∈ cs → w64 (counter s - 1) = Z.of_nat (size (cs ∖ {[t]})).
Proof.
  intros [Hc _ _ Hb _ _ _] Ht. assert (size cs = S (size (cs ∖ {[t]}))) as Hs.
  { rewrite (union_difference_L {[t]} cs) at 1 by set_solver. rewrite size_union by set_solver. by rewrite size_singleton. }
  pose proof (size_below cs Hb). rewrite Hc, Hs, w64_small; lia.
Qed.
Lemma size_test (cs : gset nat) k : (Z.of_nat (size cs) =? k) = bool_decide (Z.of_nat (size cs) = k).
Proof. case_bool_decide; [by apply Z.eqb_eq|by apply Z.eqb_neq]. Qed.

(** The other threads do not notice. *)
Ltac others := let u := fresh "u" in let Hu := fresh "Hu" in let Hpu := fresh "Hpu" in
  intros u Hu Hpu; destruct (rwpc_of _ u); simpl in *; repeat case_match; destruct_and?; split_and?;
  first [done|congruence|set_solver].

Lemma rw_continue_sim rp cs o s t s' : rw_rep rp cs o s → (t < n)%nat → rw_continue t s = Done s' →
  ∃ rp' cs' o', rw_rep rp' cs' o' s'.
Proof.
  intros Hr Ht E. pose proof (rw_pc _ _ _ _ Hr t) as Hp. pose proof Hr as [Hcnt Hrd Hgl Hb Hg Hc _].
  unfold rw_continue in E. destruct (rwpc_of s t) eqn:Ept; simpl in Hp; try done.
  - destruct (readers s) eqn:Er; [done|]. injection E as <-. pose proof (readers_free _ _ _ _ Hr Er) as ->.
    exists (Some t), cs, o. apply (rw_move None cs o s t); try done; try solve [others].
    + simpl. tauto.
    + intros Ho. destruct (Hg Ho) as [?|(u & ? & _)]; [by left|done].
    + intros Ho. destruct (Hc Ho) as [?|(u & ? & _)]; [by left|done].
  - injection E as <-. destruct Hp as (Htc & -> & Ho). rewrite (count_up _ _ _ _ t Hr Ht Htc), size_test.
    assert (∀ u, u ∈ {[t]} ∪ cs → (u < n)%nat) as Hb' by set_solver.
    assert (size ({[t]} ∪ cs) = S (size cs)) as Hs by (rewrite size_union by set_solver; by rewrite size_singleton).
    assert (cs ≠ ∅ → o = Group) as Hgrp by (intros Hne; destruct (Hc Hne) as [?|(u & [= <-] & ?)]; [done|congruence]).
    exists (Some t), ({[t]} ∪ cs), o. apply (rw_move (Some t) cs o s t); try done; try solve [others].
    + case_bool_decide as E; simpl.
      * assert (cs = ∅) as -> by (apply leibniz_equiv, size_empty_inv; lia). split; [set_solver|]. split; [done|]. split; [|done].
        intros ->. destruct (Hg eq_refl) as [?|(u & [= <-] & ?)]; [done|congruence].
      * split; [set_solver|]. split; [done|]. apply Hgrp. intros ->. rewrite size_empty in Hs. lia.
    + intros _. left. set_solver.
    + intros _. case_bool_decide as E; [right; exists t; by rewrite decide_True|left].
      apply Hgrp. intros ->. rewrite size_empty in Hs. lia.
  - destruct (global s) eqn:Eg; [done|]. injection E as <-. pose proof (global_free _ _ _ _ Hr Eg) as ->. destruct Hp as (-> & -> & _ & _).
    exists (Some t), {[t]}, Group. apply (rw_move (Some t) {[t]} Nobody s t); try done; try solve [others]; try (by left); set_solver.
  - injection E as <-. destruct Hp as (Htc & -> & ->).
    exists None, cs, Group. apply (rw_move (Some t) cs Group s t); try done; try solve [others]; try (by left); set_solver.
  - destruct (readers s) eqn:Er; [done|]. injection E as <-. pose proof (readers_free _ _ _ _ Hr Er) as ->.
    exists (Some t), cs, o. apply (rw_move None cs o s t); try done; try solve [others].
    + simpl. tauto.
    + intros Ho. destruct (Hg Ho) as [?|(u & ? & _)]; [by left|done].
    + intros Ho. destruct (Hc Ho) as [?|(u & ? & _)]; [by left|done].
  - injection E as <-. destruct Hp as (Htc & -> & ->). rewrite (count_down _ _ _ _ t Hr Htc), size_test.
    exists (Some t), (cs ∖ {[t]}), Group. apply (rw_move (Some t) cs Group s t); try done; try solve [others]; try (by left).
    + set_solver.
    + case_bool_decide as E; simpl; [|set_solver]. split; [|done]. apply leibniz_equiv, size_empty_inv. lia.
    + intros _. case_bool_decide as E; [right; exists t; by rewrite decide_True|left]. intros Hemp. by rewrite Hemp, size_empty in E.
  - injection E as <-. destruct Hp as (-> & -> & ->).
    exists (Some t), ∅, Nobody. apply (rw_move (Some t) ∅ Group s t); try done; try solve [others].
  - injection E as <-. destruct Hp as (Htc & -> & Ho).
    exists None, cs, o. apply (rw_move (Some t) cs o s t); try done; try solve [others].
    + intros Hgr. left. destruct (Hg Hgr) as [?|(u & [= <-] & ?)]; [done|congruence].
    + intros Hne. left. destruct (Hc Hne) as [?|(u & [= <-] & ?)]; [done|congruence].
  - destruct (global s) eqn:Eg; [done|]. injection E as <-. pose proof (global_free _ _ _ _ Hr Eg) as ->. destruct Hp as (Htc & Hrp & _).
    exists rp, cs, (Writer t). apply (rw_move rp cs Nobody s t); try done; try solve [others].
    intros Hne. destruct (Hc Hne) as [?|(u & ? & ?)]; [done|]. right. exists u. destruct (decide (u = t)); [congruence|done].
  - injection E as <-. destruct Hp as (Htc & Hrp & ->).
    exists rp, cs, Nobody. apply (rw_move rp cs (Writer t) s t); try done; try solve [others].
    intros Hne. destruct (Hc Hne) as [?|(u & ? & ?)]; [done|]. right. exists u. destruct (decide (u = t)); [congruence|done].
  - destruct (readers s) eqn:Er; [done|]. injection E as <-. pose proof (readers_free _ _ _ _ Hr Er) as ->.
    exists (Some t), cs, o. apply (rw_move None cs o s t); try done; try solve [others].
    + simpl. tauto.
    + intros Ho. destruct (Hg Ho) as [?|(u & ? & _)]; [by left|done].
    + intros Ho. destruct (Hc Ho) as [?|(u & ? & _)]; [by left|done].
  - injection E as <-. destruct Hp as (Htc & -> & ->). rewrite (count_down _ _ _ _ t Hr Htc), size_test.
    exists (Some t), (cs ∖ {[t]}), (if bool_decide (Z.of_nat (size (cs ∖ {[t]})) = 0) then Writer t else Group).
    assert (bool_decide (Z.of_nat (size (cs ∖ {[t]})) = 0) = true → cs ∖ {[t]} = ∅) as Hemp.
    { intros E%bool_decide_eq_true. apply leibniz_equiv, size_empty_inv. lia. }
    apply (rw_move (Some t) cs Group s t); try done.
    + rewrite Hgl. by case_bool_decide.
    + set_solver.
    + case_bool_decide; simpl; set_solver.
    + destruct (bool_decide _); [specialize (Hemp eq_refl)|]; others.
    + intros Heq. case_bool_decide as E; [done|left]. intros Hemp'. by rewrite Hemp', size_empty in E.
    + intros Hne. destruct (bool_decide _); [by specialize (Hemp eq_refl)|by left].
  - injection E as <-. destruct Hp as (Htc & -> & Ho).
    exists None, cs, o. apply (rw_move (Some t) cs o s t); try done; try solve [others].
    + destruct last0; simpl; split_and!; done.
    + intros Hgr. left. destruct (Hg Hgr) as [?|(u & [= <-] & ?)]; [done|congruence].
    + intros Hne. left. destruct (Hc Hne) as [?|(u & [= <-] & ?)]; [done|congruence].
Qed.
End rwlock.

(** The thread holds the lock for writing, or for reading. *)
Definition writes (x : rwpc) : Prop := match x with Writing | WuGlobal | UpLeave true => True | _ => False end.
Definition reads (x : rwpc) : Prop :=
  match x with Reading | RuWait | RuCount | UpWait | UpCount => True | _ => False end.

(** C36: as long as no assertion fails, at most one thread holds the reader-writer lock for
    writing, nobody reads meanwhile, and the assertions of [read_unlock] and [upgrade] hold;
    for any interleaving of fewer than 2^64 threads. *)
Theorem rwlock_exclusive n s : Z.of_nat n < 2 ^ 64 → rtc (rw_step n) new_rwlock s →
  (∀ t u, writes (rwpc_of s t) → writes (rwpc_of s u) → t = u) ∧
  (∀ t u, writes (rwpc_of s t) → ¬ reads (rwpc_of s u)) ∧
  ∀ t, rwpc_of s t = Reading → is_read_locked s = true.
Proof.
  intros Hn Hs. assert (∃ rp cs o, rw_rep n rp cs o s) as (rp & cs & o & Hr).
  { revert Hs. apply (rtc_ind_r (λ s, ∃ rp cs o, rw_rep n rp cs o s)).
    - exists None, ∅, Nobody. apply rw_rep_new.
    - intros s1 s2 _ [c t s3 Ht E|t s3 Ht E] (rp & cs & o & Hr).
      + exists rp, cs, o. by eapply rw_begin_sim.
      + by eapply rw_continue_sim. }
  assert (∀ t, writes (rwpc_of s t) → o = Writer t) as Hw.
  { intros t Ht. pose proof (rw_pc _ _ _ _ _ Hr t) as Hp. destruct (rwpc_of s t) as [| | | | | | | | | | | | | | |[]]; simpl in *; tauto. }
  assert (∀ t, reads (rwpc_of s t) → t ∈ cs ∧ o = Group) as Hrd.
  { intros t Ht. pose proof (rw_pc _ _ _ _ _ Hr t) as Hp. destruct (rwpc_of s t); simpl in *; tauto. }
  split_and!.
  - intros t u Ht Hu. apply Hw in Ht, Hu. congruence.
  - intros t u Ht [_ Hu]%Hrd. apply Hw in Ht. congruence.
  - intros t Ht. destruct (Hrd t) as [Hin ->]; [by rewrite Ht|]. unfold is_read_locked.
    rewrite (rw_global _ _ _ _ _ Hr), (rw_counter _ _ _ _ _ Hr). apply andb_true_iff. split; [done|]. apply Z.ltb_lt.
    destruct (size cs) eqn:E; [|lia]. apply size_empty_inv in E. set_solver.
Qed.

(** * Runs *)
Inductive rwaction := RwCall (c : rwcall) (t : nat) | RwContinue (t : nat).
Definition rw_do (a : rwaction) (s : rwlock) : outcome rwlock :=
  match a with RwCall c t => rw_begin c t s | RwContinue t => rw_continue t s end.
Definition rw_thread (a : rwaction) : nat := match a with RwCall _ t | RwContinue t => t end.
Fixpoint rw_run (l : list rwaction) (s : rwlock) : outcome rwlock :=
  match l with [] => Done s | a :: l => s ← rw_do a s; rw_run l s end.
Lemma rw_run_steps n l : ∀ s s', forallb (λ a, bool_decide (rw_thread a < n)%nat) l = true → rw_run l s = Done s' →
  rtc (rw_step n) s s'.
Proof.
  induction l as [|a l IH]; intros s s' Hl E; cbn [rw_run] in E; [by injection E as <-|].
  apply andb_true_iff in Hl as [Ha%bool_decide_eq_true Hl]. apply bind_Done_inv in E as (s1 & E1 & E).
  apply (rtc_l _ _ s1); [|by apply IH]. destruct a as [c t|t]; [by apply (rw_step_begin _ _ c t)|by apply (rw_step_continue _ _ t)].
Qed.
Definition rw_ran (l : list rwaction) : rwlock := match rw_run l new_rwlock with Done s => s | _ => new_rwlock end.

(** A thread writes and another one waits to read. *)
Definition ex_contended : list rwaction :=
  [RwCall WriteLock 0; RwContinue 0; RwCall ReadLock 1; RwContinue 1; RwContinue 1].
Lemma rwlock_exclusive_witness : ¬ reads (rwpc_of (rw_ran ex_contended) 1).
Proof.
  assert (rtc (rw_step 2) new_rwlock (rw_ran ex_contended)) as Hs by (apply (rw_run_steps 2 ex_contended); vm_compute; reflexivity).
  destruct (rwlock_exclusive 2 (rw_ran ex_contended)) as (_ & H & _); [vm_compute; reflexivity|exact Hs|].
  apply (H 0%nat 1%nat). vm_compute. exact I.
Defined.

(** A writer that unlocks while another thread waits to read fails its assertion, because
    the waiting reader has already counted itself: a debug kernel panics on this contention. *)
Theorem rwlock_writer_panics : ∃ s, rtc (rw_step 2) new_rwlock s ∧
  rwpc_of s 0 = Writing ∧ rwpc_of s 1 = RlGlobal ∧ rw_continue 1 s = Hang ∧ rw_begin WriteUnlock 0 s = Panic.
Proof.
  exists (rw_ran ex_contended). split; [apply (rw_run_steps 2 ex_contended); vm_compute; reflexivity|].
  split_and!; vm_compute; reflexivity.
Qed.
