(* ===== verification/Semaphore.v ===== *)
(** Semaphores (kernel/source/lib/semaphore.cpp) and the mutexes built from them
    (kernel/interfaces/lib/mutex.cppm).

    What the functions of a semaphore do between [lock.lock()] and [lock.unlock()] is one step
    ([Lock.v]), a function of its own; the functions that sleep are composed of these steps
    and of the operations of the scheduler. *)

From S2P Require Import Prelude Math Pmm PmmBlocks Frames Pagemap PagemapTree PagemapSpec Objects Vmm Vfs Process ProcessSpec Sched SchedInv SchedSpec SchedSteps SchedReach SchedSleep.

Record semaphore := mk_semaphore { signals : Z; sleepers : list Z }.
Definition new_semaphore : semaphore := mk_semaphore 0 [].

(** [test] *)
Definition sem_test (m : semaphore) : bool * semaphore :=
  if 0 <? signals m then (true, mk_semaphore (s64 (signals m - 1)) (sleepers m)) else (false, m).
(** The first part of [wait]: whether thread [me] has to sleep. *)
Definition sem_down (me : Z) (m : semaphore) : bool * semaphore :=
  let n := s64 (signals m - 1) in
  if n <? 0 then (true, mk_semaphore n (sleepers m ++ [me])) else (false, mk_semaphore n (sleepers m)).
(** The part of [wait] after a [yield] that has not returned [success]. *)
Definition sem_cancel (me : Z) (m : semaphore) : semaphore :=
  if decide (me ∈ sleepers m) then mk_semaphore (s64 (signals m + 1)) (filter (λ t, t ≠ me) (sleepers m)) else m.
(** [signal] up to the call of [wake_up]. *)
Definition sem_up (drop : bool) (m : semaphore) : outcome (option Z * semaphore) :=
  if drop && bool_decide (sleepers m = []) then Done (None, m) else
  let n := s64 (signals m + 1) in
  if 0 <? n then Done (None, mk_semaphore n (sleepers m)) else
  _ ← bug_on (bool_decide (sleepers m = []));
  match sleepers m with
  | t :: l => Done (Some t, mk_semaphore n l)
  | [] => Panic
  end.

(** [wait_for]: the threads of the kernel leave the semaphore as [later] says between two
    tests; the result and the times slept. *)
Fixpoint wait_for (fuel : nat) (ms : Z) (later : Z → semaphore → semaphore) (m : semaphore)
    : outcome (bool * list Z * semaphore) :=
  match fuel with
  | O => Hang
  | S fuel =>
      let '(b, m) := sem_test m in
      if b then Done (true, [], m) else
      let eep := Z.min (s64 ms) 10 in
      let ms := w64 (ms - eep) in
      let '(eeps, m) := if eep =? 0 then ([], m) else ([eep], later eep m) in
      if ms =? 0 then Done (false, eeps, m) else
      '(b, l, m) ← wait_for fuel ms later m;
      Done (b, eeps ++ l, m)
  end.

Section calls.
Context {St PM H : Type} `{FrameAllocator St, PageMapOps PM, KernelHeap H}.
Implicit Types s : sched St PM H.

(** [wait] until the thread yields, or to its end; the interrupt flag is returned when the
    thread has to yield. *)
Definition sem_wait (c : nat) (m : semaphore) s : outcome (option bool * semaphore * sched St PM H) :=
  p ← get_cpu c s;
  let old := ints p in
  let s := put_cpu c (int_switch false p) s in
  me ← this_thread c s;
  match sem_down me m with
  | (true, m) => s ← prepare_sleep c me 0 s; Done (Some old, m, s)
  | (false, m) => s ← upd_cpu c (int_switch old) s; Done (None, m, s)
  end.
(** [wait] after [yield] has returned [reason]. *)
Definition sem_resume (c : nat) (old : bool) (reason : Z) (m : semaphore) s : outcome (semaphore * sched St PM H) :=
  me ← this_thread c s;
  let m := if reason =? wake_success then m else sem_cancel me m in
  s ← upd_cpu c (int_switch old) s;
  Done (m, s).
Definition sem_signal (drop : bool) (m : semaphore) s : outcome (semaphore * sched St PM H) :=
  '(t, m) ← sem_up drop m;
  match t with
  | Some t => '(_, s) ← wake_up t wake_success s; Done (m, s)
  | None => Done (m, s)
  end.
End calls.

(** * Mutexes *)

(** Where a thread is: it has found the mutex locked, sleeps in [_sem.wait()], is before or in
    [_lock.lock()], holds the mutex, is between [_lock.unlock()] and [_sem.signal()], in
    [_sem.wait_for] or before [try_lock] of [try_lock_until]. *)
Inductive mpc := Outside | Found | Asleep | Locking | Owning | Signalling | Polling | Trying.
#[export] Instance mpc_eq_dec : EqDecision mpc.
Proof. solve_decision. Defined.
Record mutex := mk_mutex { taken : bool; sem : semaphore; mpcs : gmap Z mpc }.
Definition new_mutex : mutex := mk_mutex false new_semaphore ∅.
Definition mpc_of (s : mutex) (t : Z) : mpc := default Outside (mpcs s !! t).
Definition mutex_set (b : bool) (m : semaphore) (t : Z) (x : mpc) (s : mutex) : mutex := mk_mutex b m (<[t := x]> (mpcs s)).
Definition mutex_goto (t : Z) (x : mpc) (s : mutex) : mutex := mutex_set (taken s) (sem s) t x s.

Inductive maction :=
  | MLock | MWait | MCancel | MAcquire | MUnlock | MSignal | MTryLock | MTryLockUntil | MPoll (b : bool) | MRetry.
(** The two halves of [_sem.signal()]: what happens under the lock of the semaphore, and the
    [wake_up] of the thread that was taken from the list, after the lock is released. *)
Definition mutex_pop (t : Z) (s : mutex) : outcome (option Z * mutex) :=
  '(u, m) ← sem_up false (sem s);
  Done (u, mutex_set (taken s) m t Outside s).
Definition mutex_wake (u : option Z) (s : mutex) : mutex :=
  match u with Some u => mutex_goto u Locking s | None => s end.
(** [Hang]: the thread does not get that far.  [MSignal] is one step of the interleavings
    below; [stale_wake_up] shows what can come between its halves. *)
Definition mutex_do (a : maction) (t : Z) (s : mutex) : outcome mutex :=
  match a, mpc_of s t with
  | MLock, Outside => Done (mutex_goto t (if taken s then Found else Locking) s)
  | MWait, Found =>
      let '(b, m) := sem_down t (sem s) in
      Done (mutex_set (taken s) m t (if b then Asleep else Locking) s)
  | MCancel, Asleep => Done (mutex_set (taken s) (sem_cancel t (sem s)) t Locking s)
  | MAcquire, Locking => if taken s then Hang else Done (mutex_set true (sem s) t Owning s)
  | MUnlock, Owning => if taken s then Done (mutex_set false (sem s) t Signalling s) else Done (mutex_goto t Outside s)
  | MSignal, Signalling =>
      '(u, s) ← mutex_pop t s;
      Done (mutex_wake u s)
  | MTryLock, Outside => Done (mutex_goto t (if taken s then Outside else Locking) s)
  | MTryLockUntil, Outside => Done (mutex_goto t (if taken s then Polling else Trying) s)
  | MPoll true, Polling =>
      let '(b, m) := sem_test (sem s) in
      if b then Done (mutex_set (taken s) m t Trying s) else Hang
  | MPoll false, Polling => Done (mutex_goto t Trying s)
  | MRetry, Trying => Done (mutex_goto t (if taken s then Outside else Locking) s)
  | _, _ => Hang
  end.
(** One of the threads 0, ..., [n - 1] does something. *)
Definition mutex_step (n : Z) (s s' : mutex) : Prop := ∃ a t, 0 ≤ t < n ∧ mutex_do a t s = Done s'.

(** * Semaphores *)

(** The number below zero is the number of threads asleep, each once. *)
Definition sem_ok (m : semaphore) : Prop := Z.of_nat (length (sleepers m)) = Z.max 0 (- signals m) ∧ NoDup (sleepers m).
Lemma sem_ok_new : sem_ok new_semaphore.
Proof. split; [done|constructor]. Qed.

Lemma sem_test_ok m b m' : sem_ok m → signals m < 2 ^ 63 → sem_test m = (b, m') →
  sem_ok m' ∧ sleepers m' = sleepers m ∧ b = (0 <? signals m) ∧ signals m' = signals m - (if b then 1 else 0).
Proof.
  intros [Hl Hn] Hs. unfold sem_test. destruct (Z.ltb_spec 0 (signals m)); intros [= <- <-]; simpl.
  - rewrite s64_small by lia. split_and!; [split; simpl; [lia|done]|done..].
  - split_and!; [done..|lia].
Qed.
Lemma sem_down_ok m t b m' : sem_ok m → - (2 ^ 63) < signals m < 2 ^ 63 → t ∉ sleepers m → sem_down t m = (b, m') →
  sem_ok m' ∧ signals m' = signals m - 1 ∧ b = (signals m <=? 0) ∧ sleepers m' = sleepers m ++ (if b then [t] else []).
Proof.
  intros [Hl Hn] Hs Ht. unfold sem_down. rewrite s64_small by lia.
  destruct (Z.ltb_spec (signals m - 1) 0); intros [= <- <-]; simpl; destruct (Z.leb_spec (signals m) 0); try lia; split_and!; try done.
  - split; simpl; [rewrite length_app; simpl; lia|]. apply NoDup_app. split; [done|]. split; [set_solver|apply NoDup_singleton].
  - split; simpl; [lia|done].
  - by rewrite app_nil_r.
Qed.
Lemma filter_absent (t : Z) (l : list Z) : t ∉ l → filter (λ u, u ≠ t) l = l.
Proof.
  induction l as [|u l IH]; intros Ht; [done|]. rewrite filter_cons, decide_True, IH; set_solver.
Qed.
Lemma length_filter_ne (t : Z) (l : list Z) : NoDup l → t ∈ l → length l = S (length (filter (λ u, u ≠ t) l)).
Proof.
  induction l as [|u l IH]; intros Hn Ht; [set_solver|]. apply NoDup_cons in Hn as [Hu Hn]. rewrite filter_cons. simpl.
  destruct (decide (u = t)) as [->|Hne].
  - rewrite decide_False by tauto. f_equal. by rewrite filter_absent.
  - rewrite decide_True by done. simpl. rewrite <-IH; [done|done|set_solver].
Qed.
Lemma sem_cancel_ok m t : sem_ok m → t ∈ sleepers m → - (2 ^ 63) < signals m → sem_ok (sem_cancel t m) ∧
  signals (sem_cancel t m) = signals m + 1 ∧ ∀ u, u ∈ sleepers (sem_cancel t m) ↔ u ≠ t ∧ u ∈ sleepers m.
Proof.
  intros [Hl Hn] Ht Hs. unfold sem_cancel. rewrite decide_True by done. simpl.
  pose proof (length_filter_ne t _ Hn Ht) as Hf.
  rewrite s64_small by lia. split_and!; [|done|intros u; by rewrite list_elem_of_filter].
  split; simpl; [lia|]. by apply NoDup_filter.
Qed.
(** Every signal is counted or wakes the thread that has slept longest; the assertion holds. *)
Lemma sem_up_ok m : sem_ok m → - (2 ^ 63) < signals m < 2 ^ 63 - 1 →
  ∃ t m', sem_up false m = Done (t, m') ∧ sem_ok m' ∧ signals m' = signals m + 1 ∧
    sleepers m = match t with Some t => [t] | None => [] end ++ sleepers m' ∧ (t = None → 0 < signals m').
Proof.
  intros [Hl Hn] Hs. unfold sem_up. simpl. rewrite s64_small by lia. destruct (Z.ltb_spec 0 (signals m + 1)).
  - exists None, (mk_semaphore (signals m + 1) (sleepers m)). split_and!; [done| |done..|]; [split; simpl; [lia|done]|simpl; lia].
  - destruct (sleepers m) as [|t l]; [simpl in *; lia|]. simpl in *. apply NoDup_cons in Hn as [Ht Hn].
    exists (Some t), (mk_semaphore (signals m + 1) l). split_and!; [done| |done..]. split; simpl; [lia|done].
Qed.
Lemma sem_up_drop m : sem_ok m → - (2 ^ 63) < signals m < 2 ^ 63 - 1 →
  sem_up true m = if decide (sleepers m = []) then Done (None, m) else sem_up false m.
Proof. intros _ _. unfold sem_up. simpl. by destruct (sleepers m). Qed.

(** [wait_for] ends, never sleeps longer than it was told, and gives up only after it has
    slept for exactly that time, whatever happens to the semaphore meanwhile. *)
Theorem wait_for_ends later m ms fuel : 0 ≤ ms < 2 ^ 63 → (Z.to_nat (ms / 10) + 1 < fuel)%nat →
  ∃ b l m', wait_for fuel ms later m = Done (b, l, m') ∧ Forall (λ x, 0 < x ≤ 10) l ∧
    if b then foldr Z.add 0 l ≤ ms else foldr Z.add 0 l = ms.
Proof.
  revert ms m. induction fuel as [|fuel IH]; intros ms m Hms Hf; [lia|]. simpl.
  destruct (sem_test m) as [[] m1]; [exists true, [], m1; split; [done|]; split; [constructor|simpl; lia]|].
  rewrite s64_small by lia. rewrite (w64_small (ms - Z.min ms 10)) by lia.
  destruct (Z.eqb_spec (Z.min ms 10) 0).
  - assert (ms = 0) as -> by lia. simpl. exists false, [], m1. split; [done|]. split; [constructor|done].
  - destruct (Z.eqb_spec (ms - Z.min ms 10) 0).
    + eexists false, _, _. split; [done|]. split; [constructor; [lia|constructor]|simpl; lia].
    + rewrite Z.min_r by lia.
      destruct (IH (ms - 10) (later 10 m1)) as (b & l & m' & -> & Hl & Hsum); [lia| |].
      { replace (ms - 10) with (ms + (-1) * 10) by lia. rewrite Z.div_add by lia. assert (1 ≤ ms / 10) by (apply Z.div_le_lower_bound; lia). lia. }
      exists b, (10 :: l), m'. split; [done|]. split; [constructor; [lia|done]|]. destruct b; simpl; lia.
Qed.
Lemma wait_for_ends_witness : ∃ l m', wait_for 10 25 (λ _ m, m) new_semaphore = Done (false, l, m') ∧ foldr Z.add 0 l = 25.
Proof.
  destruct (wait_for_ends (λ _ m, m) new_semaphore 25 10) as (b & l & m' & E & _ & Hs); [lia|vm_compute; lia|].
  exists l, m'. assert (b = false) as -> by (vm_compute in E; by injection E). split; [exact E|exact Hs].
Defined.
(** A signal that comes while [wait_for] sleeps for the last time is not noticed. *)
Theorem wait_for_misses : ∃ m, wait_for 2 10 (λ _ m, match sem_up false m with Done (_, m) => m | _ => m end) new_semaphore = Done (false, [10], m) ∧
  signals m = 1.
Proof. eexists. split; vm_compute; reflexivity. Qed.

(** * Mutexes *)

(** The thread holds the mutex, is going to hold it or is about to signal. *)
Definition busy (x : mpc) : Prop := match x with Locking | Owning | Signalling | Trying => True | _ => False end.
(** The thread is going to sleep, or sleeps. *)
Definition waits (x : mpc) : Prop := match x with Found | Asleep => True | _ => False end.

Record mutex_rep (n k : Z) (o : option Z) (s : mutex) : Prop := {
  mx_sem : sem_ok (sem s);
  mx_high : signals (sem s) ≤ k;
  mx_taken : taken s = bool_decide (is_Some o);
  mx_owner t : mpc_of s t = Owning ↔ o = Some t;
  mx_asleep t : t ∈ sleepers (sem s) ↔ mpc_of s t = Asleep;
  mx_range t : mpc_of s t ≠ Outside → 0 ≤ t < n;
  mx_busy t : waits (mpc_of s t) → 0 < signals (sem s) ∨ ∃ u, busy (mpc_of s u) }.

Lemma mpc_of_set b m t x s u : mpc_of (mutex_set b m t x s) u = if decide (u = t) then x else mpc_of s u.
Proof. unfold mpc_of. simpl. destruct (decide (u = t)) as [->|]; [by rewrite lookup_insert_eq|by rewrite lookup_insert_ne]. Qed.
Lemma mutex_rep_new n : mutex_rep n 0 None new_mutex.
Proof. split; try done; [apply sem_ok_new|]. intros t. split; [intros Ht; inversion Ht|done]. Qed.

Lemma mutex_rep_low n k o s : 0 ≤ n → mutex_rep n k o s → - n ≤ signals (sem s).
Proof.
  intros Hn Hr. destruct (mx_sem _ _ _ _ Hr) as [Hl Hnd].
  assert (length (sleepers (sem s)) ≤ Z.to_nat n)%nat; [|lia].
  rewrite <-(length_fmap Z.to_nat), <-(length_seq (Z.to_nat n) 0).
  apply submseteq_length, NoDup_submseteq.
  - apply (NoDup_fmap_2_strong Z.to_nat); [|done]. intros a b Ha Hb E.
    apply (mx_asleep _ _ _ _ Hr) in Ha, Hb. pose proof (mx_range _ _ _ _ Hr a ltac:(congruence)).
    pose proof (mx_range _ _ _ _ Hr b ltac:(congruence)). lia.
  - intros i (a & -> & Ha)%list_elem_of_fmap. apply (mx_asleep _ _ _ _ Hr) in Ha.
    pose proof (mx_range _ _ _ _ Hr a ltac:(congruence)). apply elem_of_seq. lia.
Qed.

(** Thread [t] goes on to [x]; whoever waits has a signal left or somebody busy. *)
Lemma mutex_move n k k' o s t x m o' b : mutex_rep n k o s → 0 ≤ t < n →
  sem_ok m → signals m ≤ k' → b = bool_decide (is_Some o') →
  (∀ u, u ≠ t → o' = Some u ↔ o = Some u) → (x = Owning ↔ o' = Some t) →
  (∀ u, u ≠ t → u ∈ sleepers m ↔ u ∈ sleepers (sem s)) → (t ∈ sleepers m ↔ x = Asleep) →
  (∀ u, waits (if decide (u = t) then x else mpc_of s u) → 0 < signals m ∨ busy x ∨ ∃ v, v ≠ t ∧ busy (mpc_of s v)) →
  mutex_rep n k' o' (mutex_set b m t x s).
Proof.
  intros [] Ht Hm Hk -> Ho Hot Ha Hat Hb. split; simpl; try done.
  - intros u. rewrite mpc_of_set. destruct (decide (u = t)) as [->|]; [done|]. rewrite Ho by done. apply mx_owner0.
  - intros u. rewrite mpc_of_set. destruct (decide (u = t)) as [->|]; [done|]. rewrite Ha by done. apply mx_asleep0.
  - intros u. rewrite mpc_of_set. destruct (decide (u = t)) as [->|]; [done|]. apply mx_range0.
  - intros u. rewrite mpc_of_set. intros Hu. destruct (Hb u Hu) as [?|[Hx|(v & Hv & Hbv)]]; [by left|right..].
    + exists t. by rewrite mpc_of_set, decide_True.
    + exists v. by rewrite mpc_of_set, decide_False.
Qed.

(** Whoever finds the mutex locked knows that somebody is busy. *)
Lemma taken_busy n k o s t : mutex_rep n k o s → taken s = true → mpc_of s t ≠ Owning → ∃ u, u ≠ t ∧ busy (mpc_of s u).
Proof.
  intros Hr. rewrite (mx_taken _ _ _ _ Hr). intros [u ->]%bool_decide_eq_true Ht. exists u.
  assert (mpc_of s u = Owning) as E by by apply (mx_owner _ _ _ _ Hr). split; [congruence|by rewrite E].
Qed.
Lemma free_owner n k o s : mutex_rep n k o s → taken s = false → o = None.
Proof. intros Hr. rewrite (mx_taken _ _ _ _ Hr), bool_decide_eq_false. destruct o; [|done]. intros []. by eexists. Qed.

(** A thread that was not busy leaves the others as they were. *)
Lemma busy_others n k o s t m : mutex_rep n k o s → ¬ busy (mpc_of s t) → signals (sem s) ≤ signals m →
  ∀ u, waits (mpc_of s u) → 0 < signals m ∨ ∃ v, v ≠ t ∧ busy (mpc_of s v).
Proof.
  intros Hr Ht Hm u Hu. destruct (mx_busy _ _ _ _ Hr u Hu) as [?|(v & Hv)]; [left; lia|right]. exists v. split; [by intros ->|done].
Qed.
(** A thread goes on without the semaphore. *)
Lemma mutex_move_pc n k k' o s t x : mutex_rep n k o s → k ≤ k' → 0 ≤ t < n → mpc_of s t ≠ Owning → mpc_of s t ≠ Asleep → x ≠ Owning → x ≠ Asleep →
  (¬ busy (mpc_of s t) → waits x → ∃ v, v ≠ t ∧ busy (mpc_of s v)) → (busy (mpc_of s t) → busy x ∨ ∃ v, v ≠ t ∧ busy (mpc_of s v)) →
  mutex_rep n k' o (mutex_goto t x s).
Proof.
  intros Hr Hk Ht Hno Hna Hxo Hxa Hb1 Hb2. pose proof (mx_high _ _ _ _ Hr).
  apply (mutex_move n k _ o s t x); try done; [apply Hr|lia|apply Hr| | |].
  - split; [done|]. intros E. by apply (mx_owner _ _ _ _ Hr) in E.
  - by rewrite (mx_asleep _ _ _ _ Hr).
  - intros u Hu. assert (busy (mpc_of s t) ∨ ¬ busy (mpc_of s t)) as [Hbt|Hbt] by (destruct (mpc_of s t); simpl; tauto).
    + destruct (Hb2 Hbt); [by right; left|by right; right].
    + destruct (decide (u = t)); [right; right; by apply Hb1|].
      destruct (busy_others n k o s t (sem s) Hr Hbt ltac:(lia) u Hu); [by left|by right; right].
Qed.

Lemma mutex_do_sim n k o s a t s' : 0 ≤ n → n + k < 2 ^ 63 - 1 → 0 ≤ k → mutex_rep n k o s → 0 ≤ t < n → mutex_do a t s = Done s' →
  ∃ o', mutex_rep n (k + 1) o' s'.
Proof.
  intros Hn Hk Hk0 Hr Ht E. pose proof (mutex_rep_low n k o s Hn Hr) as Hlow. pose proof Hr as [Hsem Hhigh Htk Hown Hasl _ Hbusy].
  unfold mutex_do in E. destruct a as [| | | | | | | |[]|], (mpc_of s t) eqn:Ept; try done.
  - injection E as <-. exists o. apply (mutex_move_pc n k); [done|lia|..]; rewrite ?Ept; try done; destruct (taken s) eqn:Etk; try done.
    intros _ _. apply (taken_busy n k o); [done|done|congruence].
  - destruct (sem_down t (sem s)) as [b m] eqn:Ed. injection E as <-.
    destruct (sem_down_ok (sem s) t b m) as (Hm & Hs & Hb & Hl); [done|lia|rewrite Hasl; congruence|done|].
    exists o. apply (mutex_move n k _ o s t); try done; [lia| | | |].
    + rewrite <-Hown. rewrite Ept. by destruct b.
    + intros u Hu. rewrite Hl. destruct b; set_solver.
    + rewrite Hl, elem_of_app, Hasl, Ept. destruct b; set_solver.
    + intros u Hu. destruct b; [|right; by left]. symmetry in Hb. apply Z.leb_le in Hb. right; right.
      destruct (Hbusy t) as [?|(v & Hv)]; [by rewrite Ept|lia|]. exists v. split; [|done]. intros ->. by rewrite Ept in Hv.
  - injection E as <-. destruct (sem_cancel_ok (sem s) t) as (Hm & Hs & Hl); [done|by apply Hasl|lia|].
    exists o. apply (mutex_move n k _ o s t); try done; [lia| | | |].
    + rewrite <-Hown. by rewrite Ept.
    + intros u Hu. rewrite Hl. tauto.
    + rewrite Hl. naive_solver.
    + intros u _. right. by left.
  - destruct (taken s) eqn:Etk; [done|]. injection E as <-. pose proof (free_owner n k o s Hr Etk) as ->.
    exists (Some t). apply (mutex_move n k _ None s t); try done; [lia|naive_solver| |intros u _; right; by left].
    rewrite Hasl, Ept. done.
  - assert (o = Some t) as -> by by apply Hown. rewrite Htk, bool_decide_eq_true_2 in E by by eexists. injection E as <-.
    exists None. apply (mutex_move n k _ (Some t) s t); try done; [lia|naive_solver| |intros u _; right; by left].
    rewrite Hasl, Ept. done.
  - destruct (sem_up_ok (sem s)) as (u & m & Eu & Hm & Hs & Hl & Hu); [done|lia|]. unfold mutex_pop in E. rewrite Eu in E. cbn [mbind outcome_bind] in E. injection E as <-.
    unfold mutex_wake. exists o. destruct u as [u|]; simpl in Hl.
    + assert (mpc_of s u = Asleep) as Epu by (apply Hasl; rewrite Hl; by left). assert (u ≠ t) as Hut by congruence.
      pose proof (proj2 Hsem) as Hnd. rewrite Hl in Hnd. apply NoDup_cons in Hnd as [Hum _].
      assert (mutex_rep n (k + 1) o (mutex_set (taken s) m u Locking s)) as Hr1.
      { apply (mutex_move n k _ o s u); try done; [apply (mx_range _ _ _ _ Hr); congruence|lia| | |intros v _; right; by left].
        - rewrite <-Hown. by rewrite Epu.
        - intros v Hv. rewrite Hl. set_solver. }
      assert (mutex_goto u Locking (mutex_set (taken s) m t Outside s) = mutex_goto t Outside (mutex_set (taken s) m u Locking s)) as ->.
      { unfold mutex_goto, mutex_set. simpl. by rewrite insert_insert_ne. }
      apply (mutex_move_pc n (k + 1)); rewrite ?mpc_of_set; try done; rewrite ?decide_False, ?Ept by done; try done.
      intros _. right. exists u. by rewrite mpc_of_set, decide_True.
    + apply (mutex_move n k _ o s t); try done; [lia| | | |].
      * rewrite <-Hown. by rewrite Ept.
      * intros v Hv. by rewrite Hl.
      * rewrite <-Hl, Hasl. by rewrite Ept.
      * intros _ _. left. by apply Hu.
  - injection E as <-. exists o. apply (mutex_move_pc n k); [done|lia|..]; rewrite ?Ept; try done; destruct (taken s) eqn:Etk; try done.
  - injection E as <-. exists o. apply (mutex_move_pc n k); [done|lia|..]; rewrite ?Ept; try done; destruct (taken s) eqn:Etk; try done.
  - destruct (sem_test (sem s)) as [b m] eqn:Et. destruct b; [|done]. injection E as <-.
    destruct (sem_test_ok (sem s) true m) as (Hm & Hl & Hb & Hs); [done|lia|done|].
    exists o. apply (mutex_move n k _ o s t); try done; [lia| | | |].
    + rewrite <-Hown. by rewrite Ept.
    + intros v Hv. by rewrite Hl.
    + rewrite Hl, Hasl. by rewrite Ept.
    + intros v _. right. by left.
  - injection E as <-. exists o. apply (mutex_move_pc n k); [done|lia|..]; rewrite ?Ept; simpl; auto; done.
  - injection E as <-. exists o. apply (mutex_move_pc n k); [done|lia|..]; rewrite ?Ept; try done; destruct (taken s) eqn:Etk; try done.
    + intros _. right. apply (taken_busy n k o); [done|done|congruence].
    + intros _. by left.
Qed.

(** C12: A mutex, for any interleaving of fewer than 2^63 threads and steps: one thread owns it
    at a time; the threads asleep are those its semaphore counts; the assertion of [signal]
    holds; and no wake-up is lost: while a thread sleeps, another one owns the mutex, is going
    to lock it or is about to signal. *)
Theorem mutex_no_lost_wakeup n k s : 0 ≤ n → n + Z.of_nat k < 2 ^ 63 - 1 → nsteps (mutex_step n) k new_mutex s →
  (∀ t u, mpc_of s t = Owning → mpc_of s u = Owning → t = u) ∧
  (∀ t, t ∈ sleepers (sem s) ↔ mpc_of s t = Asleep) ∧
  (∀ t, mpc_of s t = Signalling → ∃ s', mutex_do MSignal t s = Done s') ∧
  ∀ t, mpc_of s t = Asleep → ∃ u, busy (mpc_of s u).
Proof.
  intros Hn Hk Hs. assert (∃ o, mutex_rep n (Z.of_nat k) o s) as [o Hr].
  { revert s Hs. induction k as [|k IH]; intros s Hs.
    - inversion Hs; subst. exists None. apply mutex_rep_new.
    - apply nsteps_inv_r in Hs as (s1 & Hs & a & t & Ht & E). destruct (IH ltac:(lia) s1 Hs) as [o Hr].
      destruct (mutex_do_sim n (Z.of_nat k) o s1 a t s) as [o' Hr']; try done; [lia..|]. exists o'.
      by replace (Z.of_nat (S k)) with (Z.of_nat k + 1) by lia. }
  pose proof (mutex_rep_low n _ o s Hn Hr). destruct Hr as [Hsem Hhigh _ Hown Hasl _ Hbusy]. split_and!; [|done| |].
  - intros t u Ht%Hown Hu%Hown. congruence.
  - intros t Ht. destruct (sem_up_ok (sem s)) as (u & m & Eu & _); [done|lia|]. unfold mutex_do, mutex_pop. rewrite Ht, Eu. by eexists.
  - intros t Ht. destruct (Hbusy t) as [Hpos|?]; [by rewrite Ht| |done]. apply Hasl in Ht. destruct Hsem as [Hl _].
    destruct (sleepers (sem s)); [inversion Ht|simpl in *; lia].
Qed.

Fixpoint mutex_run (l : list (maction * Z)) (s : mutex) : outcome mutex :=
  match l with [] => Done s | (a, t) :: l => s ← mutex_do a t s; mutex_run l s end.
Definition mutex_ran (l : list (maction * Z)) : mutex := match mutex_run l new_mutex with Done s => s | _ => new_mutex end.
Lemma mutex_run_steps n l : ∀ s s', forallb (λ x, (0 <=? x.2) && (x.2 <? n)) l = true → mutex_run l s = Done s' →
  nsteps (mutex_step n) (length l) s s'.
Proof.
  induction l as [|[a t] l IH]; intros s s' Hl E; cbn [mutex_run] in E; [injection E as <-; constructor|].
  apply andb_true_iff in Hl as [[Ha%Z.leb_le Hb%Z.ltb_lt]%andb_true_iff Hl]. apply bind_Done_inv in E as (s1 & E1 & E).
  simpl in *. econstructor; [|by apply IH]. exists a, t. by split.
Qed.
Definition ex_mutex : list (maction * Z) :=
  [(MLock, 0); (MAcquire, 0); (MLock, 1); (MWait, 1); (MLock, 2); (MWait, 2); (MUnlock, 0)].
Lemma mutex_no_lost_wakeup_witness : ∃ u, busy (mpc_of (mutex_ran ex_mutex) u).
Proof.
  apply (proj2 (proj2 (proj2 (mutex_no_lost_wakeup 3 7 (mutex_ran ex_mutex) ltac:(lia) ltac:(lia)
    (mutex_run_steps 3 ex_mutex new_mutex (mutex_ran ex_mutex) ltac:(vm_compute; reflexivity) ltac:(vm_compute; reflexivity)))))
    1%Z). vm_compute. reflexivity.
Defined.
(** Every [unlock] is a signal, also when nobody waits; a thread that finds the mutex locked
    later takes the signal and does not sleep but spins. *)
Theorem mutex_spins : ∃ s, nsteps (mutex_step 2) 7 new_mutex s ∧ mpc_of s 0 = Owning ∧ mpc_of s 1 = Found ∧ signals (sem s) = 1 ∧
  ∃ s', mutex_do MWait 1 s = Done s' ∧ mpc_of s' 1 = Locking ∧ mutex_do MAcquire 1 s' = Hang.
Proof.
  exists (mutex_ran [(MLock, 0); (MAcquire, 0); (MUnlock, 0); (MSignal, 0); (MLock, 0); (MAcquire, 0); (MLock, 1)]). split.
  - apply (mutex_run_steps 2 [(MLock, 0); (MAcquire, 0); (MUnlock, 0); (MSignal, 0); (MLock, 0); (MAcquire, 0); (MLock, 1)]); vm_compute; reflexivity.
  - split_and!; [vm_compute; reflexivity..|]. eexists. split_and!; vm_compute; reflexivity.
Qed.

(** Between the halves of [signal] the thread that was taken from the list can be woken for
    another reason, lock and unlock the mutex, and go to sleep in it again.  The [wake_up]
    that comes then ends the new wait with [success] although the thread is in the list: it
    stays there, and the next [signal] is spent on it. *)
Definition ex_stale : list (maction * Z) :=
  [(MCancel, 1); (MAcquire, 1); (MUnlock, 1); (MSignal, 1); (MLock, 2); (MAcquire, 2); (MLock, 3); (MWait, 3); (MLock, 1); (MWait, 1)].
Theorem stale_wake_up : ∃ s1 s2 s3, mutex_run [(MLock, 0); (MAcquire, 0); (MLock, 1); (MWait, 1); (MUnlock, 0)] new_mutex = Done s1 ∧
  mutex_pop 0 s1 = Done (Some 1, s2) ∧ mutex_run ex_stale s2 = Done s3 ∧ mpc_of s3 1 = Asleep ∧
  mpc_of (mutex_wake (Some 1) s3) 1 = Locking ∧ sleepers (sem (mutex_wake (Some 1) s3)) = [1].
Proof.
  eexists _, _, _. split; [vm_compute; reflexivity|]. split; [vm_compute; reflexivity|]. split; [vm_compute; reflexivity|].
  split_and!; vm_compute; reflexivity.
Qed.

(** * With the scheduler *)
Section wakes.
Context {St PM H : Type} `{FrameAllocator St, PageMapOps PM, KernelHeap H}.
Implicit Types s : sched St PM H.

(** C23: A signal on a semaphore with sleepers takes the one that has waited longest, the
    front [t] of the list, from the list, leaves the others there in their order, counts one
    up, and wakes that thread: it is ready, its [yield] returns [success], and after the next
    pass of the sleeper of its processor it is in the run queue.  A thread that has gone to
    sleep in [sem_wait] is not [dozing], as it holds its [sleep_lock] on a processor. *)
Theorem signal_wakes_front m s t l m' s1 c p th : sched_ok s → sem_ok m → - (2 ^ 63) ≤ signals m → sleepers m = t :: l →
  threads s !! t = Some th → state th = Sleeping → sleep_until (slp th) = None →
  ¬ dozing s t → cpus s !! c = Some p → t ∈ sleep_queue p → sem_signal false m s = Done (m', s1) →
  m' = mk_semaphore (signals m + 1) l ∧
  (∃ th1, threads s1 !! t = Some th1 ∧ state th1 = Ready ∧ wake_reason (slp th1) = wake_success) ∧
  (∀ u, u ≠ t → threads s1 !! u = threads s !! u) ∧
  ∀ time s2, sleeper_pass c time s1 = Done s2 → ∃ p2, cpus s2 !! c = Some p2 ∧ t ∈ queue p2 ∧ t ∉ sleep_queue p2.
Proof.
  intros Hok [Hlen _] Hlow Hm Hth Hst Hsl Hdz Hc Hq E. unfold sem_signal in E. apply bind_Done_inv in E as ([u m1] & Eu & E).
  assert (u = Some t ∧ m1 = mk_semaphore (signals m + 1) l) as [-> ->].
  { rewrite Hm in Hlen. cbn [length] in Hlen. unfold sem_up in Eu. rewrite Hm in Eu. cbn [andb] in Eu. rewrite s64_small in Eu by lia.
    destruct (Z.ltb_spec 0 (signals m + 1)); [lia|]. by injection Eu as <- <-. }
  apply bind_Done_inv in E as ([b s3] & Ew & E). injection E as <- ->. pose proof (sched_step_ok s s1 Hok (step_wake_up s t wake_success b s1 Hdz Ew)) as Hok1.
  unfold wake_up, get_thread in Ew. rewrite Hth in Ew. cbn [deref mbind outcome_bind] in Ew. destruct (sleep_lock (slp th)); [done|].
  rewrite (bool_decide_true (state th = Sleeping)) in Ew by done. simpl in Ew. injection Ew as <- <-.
  set (th1 := set_wake_reason wake_success (set_state Ready th)) in *.
  assert (threads (put_thread t th1 s) !! t = Some th1) as Hth1 by (simpl; by rewrite lookup_insert_eq).
  split; [done|]. split; [by exists th1|]. split; [intros u Hu; simpl; by rewrite lookup_insert_ne|].
  intros time s2 E2. destruct (sleep_queue p) as [|first q] eqn:Eq; [set_solver|].
  destruct (sleeper_pass_spec _ c p time first q s2 Hok1 Hc Eq E2) as (p2 & Hc2 & Hall & _).
  exists p2. split; [done|]. rewrite Eq in Hall. specialize (Hall t th1 Hq Hth1). unfold after_pass in Hall.
  change (sleep_until (slp th1)) with (sleep_until (slp th)) in Hall. rewrite Hsl in Hall. simpl in Hall. tauto.
Qed.
End wakes.

(** * Example: a thread waits for a semaphore and is signalled *)
Section example.
#[local] Existing Instances idle_pages bump_heap.
Definition ex_down : semaphore := snd (sem_down 2 new_semaphore).
(** Another thread waits behind thread 2. *)
Definition ex_down2 : semaphore := snd (sem_down 7 ex_down).
Definition ex_wait : sched Z Z Z := ex_step (λ s, '(_, _, s) ← sem_wait 0 new_semaphore s; Done s) ex_ticked.
Definition ex_waiting : sched Z Z Z :=
  ex_step (λ s, '(_, _, s) ← yield_enter 0 2000 s; '(_, s) ← schedule 0 2000 2001 zero_regs s; Done s) ex_wait.
Definition ex_signalled : sched Z Z Z := ex_step (λ s, '(_, s) ← sem_signal false ex_down2 s; Done s) ex_waiting.
Lemma ex_waiting_ok : sched_ok ex_waiting.
Proof.
  set (s0 := ex_step (λ s, '(_, s) ← yield_leave 0 false false s; Done s) ex_ticked).
  set (s2 := ex_step (λ s, '(_, _, s) ← yield_enter 0 2000 s; Done s) ex_wait).
  assert (sched_ok s0) as H0.
  { apply (sched_step_ok ex_ticked); [exact ex_ticked_ok|].
    apply (step_yield_leave _ 0 2 false false 0); [|vm_compute; reflexivity]. eexists _, _. vm_compute. by repeat split. }
  assert (sched_ok ex_wait) as H1.
  { apply (sched_step_ok s0); [exact H0|].
    apply (step_prepare_sleep _ 0 2 0); [|vm_compute; reflexivity]. eexists _, _. vm_compute. by repeat split. }
  assert (sched_ok s2) as H2.
  { apply (sched_step_ok ex_wait); [exact H1|]. eapply (step_yield_enter _ 0 (ex_cpu 0 ex_wait) 2 2000 true); vm_compute; (reflexivity || (intros ?; by simplify_eq) || idtac).
    all: intros Hin; inversion Hin. }
  apply (sched_step_ok s2); [exact H2|]. eapply (step_interrupt _ 0 (ex_cpu 0 s2) 0 2000 2001 zero_regs); vm_compute; reflexivity.
Qed.
Lemma signal_wakes_front_witness : sleepers ex_down2 = [2; 7] ∧
  ∃ p2, cpus (ex_pass 3000 ex_signalled) !! 0%nat = Some p2 ∧ 2 ∈ queue p2.
Proof.
  assert (sem_ok ex_down2) as Hm.
  { split; [vm_compute; reflexivity|]. apply (bool_decide_unpack _). vm_compute. reflexivity. }
  split; [vm_compute; reflexivity|].
  destruct (proj2 (proj2 (proj2 (signal_wakes_front ex_down2 ex_waiting 2 [7] (mk_semaphore (-1) [7]) ex_signalled 0 (ex_cpu 0 ex_waiting) (ex_thread 2 ex_waiting)
    ex_waiting_ok Hm ltac:(vm_compute; discriminate) ltac:(vm_compute; reflexivity) ltac:(vm_compute; reflexivity) ltac:(vm_compute; reflexivity)
    ltac:(vm_compute; reflexivity) ltac:(apply idle_not_dozing; vm_compute; reflexivity) ltac:(vm_compute; reflexivity) ltac:(vm_compute; by left) ltac:(vm_compute; reflexivity))))
    3000 (ex_pass 3000 ex_signalled) ltac:(vm_compute; reflexivity)) as (p2 & Hc & Hq & _).
  exists p2. split; [exact Hc|exact Hq].
Defined.
End example.
