(* ===== verification/SysProc.v ===== *)
(** The system calls on processes, memory, clocks and the processor
    (kernel/source/system/syscall/proc.cpp, memory.cpp, time.cpp, misc.cpp and
    kernel/source/arch/x86_64/system/arch-syscall.cpp).

    They run in the state of the file system calls ([SysVfs.sys]: files, descriptors of the
    process, user memory and [errno]) together with the tables of processes and address
    spaces ([Process.procs]), the calling thread and the registers of its processor. *)

From Stdlib Require Import Strings.Ascii.
From S2P Require Import Prelude Math Pmm Frames Pagemap Objects Vmm LibC Vfs Files SysVfs Process Sched.
#[local] Open Scope Z_scope.

Definition ESRCH : Z := 3.
Definition ENOMEM : Z := 12.
Definition FD_SETSIZE : Z := 1024.
(** [reinterpret_cast<void *>(-1)] *)
Definition invalid_addr : Z := 2 ^ 64 - 1.

(** What the clock and the build of the kernel provide: the reading of the main clock, if
    there is one, the time of the boot loader, and the [version] of [uname]. *)
Class SysClock := { main_ns : option Z; boot_time : Z; build_time : string }.

Definition popcount8 (x : Z) : Z := foldr (λ i n, n + Z.b2z (Z.testbit x i)) 0 [0; 1; 2; 3; 4; 5; 6; 7].
(** [FD_CLR], [FD_ISSET] and [FD_SET] on the bytes of a set; [fd] is an [int]. *)
Definition fd_byte (fd : Z) (set : list Z) : outcome Z :=
  _ ← bug_on (FD_SETSIZE <=? fd);
  if fd <? 0 then Hang else deref (set !! Z.to_nat (fd / 8)).
Definition FD_CLR (fd : Z) (set : list Z) : outcome (list Z) :=
  b ← fd_byte fd set; Done (<[Z.to_nat (fd / 8) := Z.land b (Z.lnot (Z.shiftl 1 (fd mod 8)))]> set).
Definition FD_ISSET (fd : Z) (set : list Z) : outcome bool :=
  b ← fd_byte fd set; Done (negb (Z.land b (Z.shiftl 1 (fd mod 8)) =? 0)).
Definition FD_SET (fd : Z) (set : list Z) : outcome (list Z) :=
  b ← fd_byte fd set; Done (<[Z.to_nat (fd / 8) := Z.lor b (Z.shiftl 1 (fd mod 8))]> set).
Definition FD_ZERO : list Z := replicate 128 0.
Definition count_bits (set : option (list Z)) : Z :=
  match set with None => 0 | Some l => foldr (λ b n, popcount8 b + n) 0 l end.

(** A field of [utsname]. *)
Definition name_field (x : string) : list Z :=
  let l := bytes_of_string x in l ++ replicate (65 - length l) 0.

Section calls.
Context `{PathOps} `{FrameAllocator St} `{RandomSource} `{SysParams} `{SysClock} {PM : Type} `{PageMapOps PM}.

Record psys := mk_psys { base : sys St; tabs : procs PM; me_thread : thread; idle : option Z; phw : cpuhw }.
Definition P (A : Type) : Type := psys → outcome (A * psys).
#[export] Instance P_ret : MRet P := λ A a s, Done (a, s).
#[export] Instance P_bind : MBind P := λ A B f m s, '(a, s) ← m s; f a s.
Definition with_base {A} (m : M A) : P A :=
  λ s, '(a, b) ← m (base s); Done (a, mk_psys b (tabs s) (me_thread s) (idle s) (phw s)).
Definition with_tabs {A} (f : procs PM → outcome (A * procs PM)) : P A :=
  λ s, '(a, t) ← f (tabs s); Done (a, mk_psys (base s) t (me_thread s) (idle s) (phw s)).
Definition read_tabs {A} (f : procs PM → outcome A) : P A := λ s, a ← f (tabs s); Done (a, s).
(** [return (errno = e, r)] *)
Definition pfail {A} (e : Z) (r : A) : P A := with_base (fail e r).
Definition user_bytes (dest : Z) (l : list Z) : P unit := with_base (copy_to_user dest l).

Definition get_thread : P thread := λ s, Done (me_thread s, s).
Definition set_thread (t : thread) : P unit := λ s, Done ((), mk_psys (base s) (tabs s) t (idle s) (phw s)).
Definition get_phw : P cpuhw := λ s, Done (phw s, s).
Definition set_phw (h : cpuhw) : P unit := λ s, Done ((), mk_psys (base s) (tabs s) (me_thread s) (idle s) h).
(** [sched::this_thread()->parent] *)
Definition this_proc : P Process.process := t ← get_thread; read_tabs (get_process (parent t)).
(** [sched::proc_for] *)
Definition find_proc (n : Z) : P (option Z) := λ s, Done (proc_for (idle s) n (tabs s), s).
(** [proc->vmspace->...] *)
Definition with_space {A} (f : vmspace PM → outcome (A * vmspace PM)) : P A :=
  p ← this_proc;
  with_tabs (λ s, i ← deref (vspace p); v ← deref (spaces s !! i); '(a, v) ← f v; Done (a, put_space i v s)).

(** * Processes *)
Definition gettid : P Z := t ← get_thread; mret (tid t).
Definition getpid : P Z := p ← this_proc; mret (pid p).
Definition getppid : P Z :=
  p ← this_proc;
  match pparent p with
  | Some i => q ← read_tabs (get_process i); mret (pid q)
  | None => mret 0
  end.
Definition getuid : P Z := p ← this_proc; mret (ruid (ids p)).
Definition geteuid : P Z := p ← this_proc; mret (euid (ids p)).
Definition getgid : P Z := p ← this_proc; mret (rgid (ids p)).
Definition getegid : P Z := p ← this_proc; mret (egid (ids p)).

Definition copy_id (dest x : Z) : P unit := if dest =? 0 then mret () else user_bytes dest (le_bytes 4 x).
Definition getresuid (r e s : Z) : P Z :=
  p ← this_proc;
  _ ← copy_id r (ruid (ids p));
  _ ← copy_id e (euid (ids p));
  _ ← copy_id s (suid (ids p));
  mret 0.
Definition getresgid (r e s : Z) : P Z :=
  p ← this_proc;
  _ ← copy_id r (rgid (ids p));
  _ ← copy_id e (egid (ids p));
  _ ← copy_id s (sgid (ids p));
  mret 0.

Definition getpgid (n : Z) : P Z :=
  t ← find_proc n;
  match t with
  | None => pfail ESRCH (-1)
  | Some i => q ← read_tabs (get_process i); mret (pgid q)
  end.

(** What [setpgid] requires of the target [q] with the number [n]; [p] is the caller. *)
Definition may_move (p q : Process.process) (n : Z) : expected Z unit :=
  if n =? sid q then Unexpected EPERM else
  if bool_decide (is_Some (children p !! n)) then
    if has_execved q then Unexpected EACCES else if negb (sid p =? sid q) then Unexpected EPERM else Value ()
  else if negb (n =? pid p) then Unexpected ESRCH else Value ().
Definition setpgid (n g : Z) : P Z :=
  if g <? 0 then pfail EINVAL (-1) else
  p ← this_proc;
  let n := if n =? 0 then pid p else n in
  let g := if g =? 0 then n else g in
  t ← find_proc n;
  match t with
  | None => pfail ESRCH (-1)
  | Some i =>
      q ← read_tabs (get_process i);
      match may_move p q n with
      | Unexpected e => pfail e (-1)
      | Value _ =>
          target ← read_tabs (λ s, Done (group_for g s));
          match target with
          | None => pfail EPERM (-1)
          | Some gi =>
              grp ← read_tabs (get_group gi);
              if negb (g_sid grp =? sid q) then pfail EPERM (-1) else
              b ← with_tabs (change_group i gi);
              if (b : bool) then pfail 0 0 else pfail EINVAL (-1)
          end
      end
  end.

Definition not_implemented : P Z := pfail ENOSYS (-1).
Definition futex : P Z := mret 0.
Definition exit_group : P Z := λ _, Panic.

(** [copy_from] and [copy_to] of a set of descriptors. *)
Definition copy_from (ptr len : Z) : P (option (list Z)) :=
  if ptr =? 0 then mret None else l ← with_base (copy_from_user ptr len); mret (Some l).
Definition copy_back (ptr : Z) (set : option (list Z)) : P unit :=
  match set with Some l => user_bytes ptr l | None => mret () end.
(** [pselect] on kernel sets counts their elements. *)
Definition pselect_count (r w x : option (list Z)) : Z := s32 (count_bits r + count_bits w + count_bits x).
Definition pselect_user (r w x sigmask : Z) : P Z :=
  kr ← copy_from r (FD_SETSIZE / 8);
  kw ← copy_from w (FD_SETSIZE / 8);
  kx ← copy_from x (FD_SETSIZE / 8);
  _ ← copy_from sigmask 128;
  _ ← copy_back r kr;
  _ ← copy_back w kw;
  _ ← copy_back x kx;
  mret (pselect_count kr kw kx).
Definition select (r w x timeout : Z) : P Z := _ ← copy_from timeout 16; pselect_user r w x 0.
Definition pselect (r w x timeout sigmask : Z) : P Z := _ ← copy_from timeout 16; pselect_user r w x sigmask.

(** * Memory *)
(** The object to map: that of a file, or a new one. *)
Definition mmap_object (anon : bool) (priv : bool) (fd offset : Z) : P (expected Z Z) :=
  if negb anon then
    d ← with_base (p ← get_proc; mret (fd_get (w64 fd) (p_fdt p)));
    match d with
    | None => mret (Unexpected EBADF)
    | Some d =>
        '(f, _) ← with_base (file_at d);
        o ← with_base (with_fs (file_map f priv));
        mret (match o with Some o => Value o | None => Unexpected ENODEV end)
    end
  else if negb (offset =? 0) then mret (Unexpected EINVAL) else
  o ← with_base (with_fs (λ s, let '(o, m) := new_memobject (mem (fvfs s)) in Done (o, set_objects m s)));
  mret (Value o).
(** Where to map it. *)
Definition mmap_address (fixed : bool) (addr length : Z) : P (expected Z Z) :=
  if fixed then
    if (addr =? 0) || negb (addr mod page_size =? 0) then mret (Unexpected EINVAL) else
    m ← with_space (λ v, Done (is_mapped addr length v, v));
    if (m : bool) then
      r ← with_space (vm_unmap addr length);
      mret (match r with Value _ => Value addr | Unexpected _ => Unexpected EINVAL end)
    else mret (Value addr)
  else
    a ← with_space (λ v, Done (find_free_region length v, v));
    mret (if a =? 0 then Unexpected ENOMEM else Value a).
Definition mmap_flags_error (length flags fd offset : Z) : option Z :=
  let priv := bit_of flags fl_private in
  let shared := bit_of flags fl_shared in
  let anon := bit_of flags fl_anonymous in
  if (priv && shared) || (negb priv && negb shared) || ((0 <=? fd) && anon) || (length =? 0) then Some EINVAL else
  if negb (length mod page_size =? 0) || negb (w64 offset mod page_size =? 0) then Some EINVAL else
  if anon && negb (fd =? -1) then Some EINVAL else
  if negb anon && (fd <? 0) then Some EBADF else None.
Definition mmap (addr length prot flags fd offset : Z) : P Z :=
  match mmap_flags_error length flags fd offset with
  | Some e => pfail e invalid_addr
  | None =>
      a ← mmap_address (bit_of flags fl_fixed) addr length;
      match a with
      | Unexpected e => pfail e invalid_addr
      | Value address =>
          if w64 (address + length) <? address then pfail EINVAL invalid_addr else
          o ← mmap_object (bit_of flags fl_anonymous) (bit_of flags fl_private) fd offset;
          match o with
          | Unexpected e => pfail e invalid_addr
          | Value o =>
              r ← with_space (vm_map address length (w8 prot) (w8 flags) o offset);
              match r with Value _ => mret address | Unexpected _ => pfail ENOMEM invalid_addr end
          end
      end
  end.
Definition munmap (addr length : Z) : P Z :=
  r ← with_space (vm_unmap addr length);
  match r with Value _ => mret 0 | Unexpected _ => pfail EINVAL (-1) end.
Definition mprotect (addr len prot : Z) : P Z :=
  r ← with_space (vm_protect addr len (w8 prot));
  match r with Value _ => mret 0 | Unexpected _ => pfail ENOMEM (-1) end.

(** * Clocks, names, segments *)
Definition now : Z * Z :=
  match main_ns with
  | None => (0, 0)
  | Some ns => (s64 (w64 (boot_time + ns / 1000000000)), ns mod 1000000000)
  end.
Definition clock_gettime (tp : Z) : P Z :=
  let '(sec, nsec) := now in
  _ ← user_bytes tp (le_bytes 8 sec ++ le_bytes 8 nsec);
  mret 0.
Definition uname (buf : Z) : P Z :=
  _ ← user_bytes buf (concat (List.map name_field ["Ilobilix"; "ilobilix"; "0.0.1"; build_time; "x86_64"; "(none)"]%string));
  mret 0.
Definition set_bases (gs fs : Z) (t : thread) : thread := set_ctx (mk_context (regs (ctx t)) gs fs (fpu (ctx t))) t.
Definition arch_prctl (op addr : Z) : P Z :=
  t ← get_thread;
  h ← get_phw;
  match op with
  | 0x1001 =>
      _ ← set_thread (set_bases addr (fs_base (ctx t)) t);
      _ ← set_phw (mk_hw (h_gs_user h) addr (h_fs h) (h_fpu h) (h_pmap h) (h_rsp0 h));
      mret 0
  | 0x1002 =>
      _ ← set_thread (set_bases (gs_base (ctx t)) addr t);
      _ ← set_phw (mk_hw (h_gs_user h) (h_gs_kernel h) addr (h_fpu h) (h_pmap h) (h_rsp0 h));
      mret 0
  | 0x1003 => _ ← user_bytes addr (le_bytes 8 (fs_base (ctx t))); mret 0
  | 0x1004 => _ ← user_bytes addr (le_bytes 8 (gs_base (ctx t))); mret 0
  | _ => mret (- EINVAL)
  end.

(** * The table of system calls *)
Definition pinvoke (handler : P Z) : P Z :=
  _ ← pfail 0 ();
  ret ← handler;
  let uptr_ret := w64 ret in
  e ← with_base (read_fs (λ s, Done (errno s)));
  mret (if errno_known e && default_checker uptr_ret then w64 (- e) else uptr_ret).
(** The arguments are the registers rdi, rsi, rdx, r10, r8 and r9. *)
Definition proc_call (idx a b c d e f : Z) : option (P Z) :=
  match idx with
  | 9 => Some (mmap a b (to_int c) (to_int d) (to_int e) (s64 f))
  | 10 => Some (mprotect a b (to_int c))
  | 11 => Some (munmap a b)
  | 13 | 14 | 302 => Some not_implemented
  | 23 => Some (select b c d e)
  | 39 => Some getpid
  | 63 => Some (uname a)
  | 102 => Some getuid
  | 104 => Some getgid
  | 107 => Some geteuid
  | 108 => Some getegid
  | 109 => Some (setpgid (to_int a) (to_int b))
  | 110 => Some getppid
  | 118 => Some (getresuid a b c)
  | 120 => Some (getresgid a b c)
  | 121 => Some (getpgid (to_int a))
  | 158 => Some (arch_prctl (to_int a) b)
  | 186 => Some gettid
  | 202 => Some futex
  | 228 => Some (clock_gettime b)
  | 231 => Some exit_group
  | 270 => Some (pselect b c d e f)
  | _ => None
  end.
(** [syscall_handler]: the number of a call that does not exist is a panic. *)
Definition syscall_handler (fuel : nat) (idx a b c d e f : Z) : P Z :=
  match vfs_syscall fuel idx a b c d with
  | Some m => with_base m
  | None => match proc_call idx a b c d e f with Some m => pinvoke m | None => λ _, Panic end
  end.
End calls.
