(* ===== verification/SysProcSpec.v ===== *)
(** What the system calls on processes and memory do. *)

From S2P Require Import Prelude Math Pmm PmmBlocks PmmSpec Frames Pagemap PagemapTree PagemapSpec Objects Vmm VmmSpec VmmFault LibC Vfs VfsBoot Files SysVfs SysBoot Process ProcessSpec Sched SysProc.
#[local] Open Scope Z_scope.

Section state.
Context {St PM : Type}.
Implicit Types s : psys (St := St) (PM := PM).

Definition perrno s : Z := errno (sfs (base s)).
Definition store_of s : objstore St := mem (fvfs (sfs (base s))).
(** The calling process and its address space. *)
Definition caller_of s : option Process.process := ptab (tabs s) !! parent (me_thread s).
Definition space_id s : option Z := p ← caller_of s; vspace p.
Definition space_of s : option (vmspace PM) := i ← space_id s; spaces (tabs s) !! i.

Definition set_tabs (t : procs PM) s : psys := mk_psys (base s) t (me_thread s) (idle s) (phw s).
Definition set_base (b : sys St) s : psys := mk_psys b (tabs s) (me_thread s) (idle s) (phw s).
Definition set_perrno (e : Z) s : psys := set_base (mk_sys (set_errno e (sfs (base s))) (proc (base s)) (umem (base s))) s.
Definition set_space (v : vmspace PM) s : psys :=
  match space_id s with Some i => set_tabs (put_space i v (tabs s)) s | None => s end.
Definition set_store (m : objstore St) s : psys :=
  set_base (mk_sys (set_objects m (sfs (base s))) (proc (base s)) (umem (base s))) s.

Lemma space_of_set s v v' : space_of s = Some v → space_of (set_space v' s) = Some v'.
Proof.
  unfold space_of, set_space, space_id, caller_of. destruct (ptab (tabs s) !! _) as [p|] eqn:Ep; [|done]. simpl.
  destruct (vspace p) as [i|] eqn:Ev; [|done]. simpl. rewrite Ep. simpl. rewrite Ev. simpl. intros _. apply lookup_insert_eq.
Qed.
Lemma space_of_base s b : space_of (set_base b s) = space_of s.
Proof. done. Qed.
Lemma store_of_space s v : store_of (set_space v s) = store_of s.
Proof. unfold set_space. by destruct (space_id s). Qed.
Lemma perrno_set e s : perrno (set_perrno e s) = e.
Proof. done. Qed.

Lemma pfail_eq {A} e (r : A) s : pfail e r s = Done (r, set_perrno e s).
Proof. done. Qed.
Lemma bind_P {A B} (m : P A) (f : A → P B) s a s' : m s = Done (a, s') → (m ≫= f) s = f a s'.
Proof. intros E. unfold mbind, P_bind. by rewrite E. Qed.
Lemma this_proc_eq s p : caller_of s = Some p → this_proc s = Done (p, s).
Proof. unfold caller_of. intros E. unfold this_proc, get_thread, read_tabs, get_process, mbind, P_bind. cbn. by rewrite E. Qed.
(** The calling process works on its own address space. *)
Lemma with_space_eq {A} (f : vmspace PM → outcome (A * vmspace PM)) s v a v' :
  space_of s = Some v → f v = Done (a, v') → with_space f s = Done (a, set_space v' s).
Proof.
  unfold space_of, set_space, space_id. intros Hs Hf. destruct (caller_of s) as [p|] eqn:Ep; [|done].
  cbn in Hs. destruct (vspace p) as [i|] eqn:Ev; [|done]. cbn in Hs.
  unfold with_space. rewrite (bind_P _ _ s p s) by by apply this_proc_eq. unfold with_tabs. rewrite Ev. cbn [deref mbind outcome_bind]. rewrite Hs. cbn [deref mbind outcome_bind].
  rewrite Hf. cbn [option_bind mbind outcome_bind]. by rewrite Ev.
Qed.
Lemma set_space_same s v : space_of s = Some v → set_space v s = s.
Proof.
  unfold space_of, set_space. destruct (space_id s) as [i|] eqn:Ei; [|done]. simpl. intros Hs. destruct s as [b t m d h]. unfold set_tabs, put_space. simpl in *.
  f_equal. destruct t. simpl in *. f_equal. by apply insert_id.
Qed.
(** Looking at the address space. *)
Lemma read_space_eq {A} (f : vmspace PM → A) s v : space_of s = Some v → with_space (λ v, Done (f v, v)) s = Done (f v, s).
Proof. intros Hs. rewrite (with_space_eq _ s v (f v) v Hs); [|done]. by rewrite set_space_same. Qed.
End state.

Section mmap.
Context `{PathOps} `{FrameAllocatorLaws St} `{RandomSource} `{SysParams} {PM : Type} `{PageMapLaws PM}.
Implicit Types s : psys (St := St) (PM := PM).

(** No mapping shows a page of the range. *)
Definition range_free (a length : Z) (t : list mapping) : Prop :=
  ∀ e, e ∈ t → endp e ≤ a / page_size ∨ (a + length + 4095) / page_size ≤ startp e.

(** [vm_map] where nothing is mapped. *)
Lemma vm_map_free (v : vmspace PM) a length pr fl o : vm_ok v → locked v = false → a mod page_size = 0 → 0 ≤ a → 0 < length →
  a + length ≤ 2 ^ 48 → range_free a length (tree v) →
  ∃ v', vm_map a length pr fl o 0 v = Done (Value (), v') ∧ vm_ok v' ∧ locked v' = false ∧
    ∀ p x, shows (tree v') p x ↔
      if decide (a / page_size ≤ p < (a + length + 4095) / page_size) then x = (o, p - a / page_size, pr, fl) else shows (tree v) p x.
Proof.
  intros Hv Hlk Ha Ha0 Hl Hb Hfree.
  destruct (vm_map_spec v a length pr fl o 0) as (v' & E & Hv' & Hsh); try done; try lia.
  { intros e He ??. destruct (Hfree e He); lia. }
  exists v'. split; [done|]. split; [done|]. split; [|intros p x; rewrite Hsh; case_decide; [|done]; by rewrite Z.add_0_l].
  unfold vm_map in E. rewrite Ha in E. change (negb (0 =? 0)) with false in E. cbv iota zeta in E.
  change (negb (w64 0 mod page_size =? 0)) with false in E. cbv iota in E.
  destruct (page_range a length Ha0 ltac:(lia) Hb Ha) as (x & y & Epr & Ex & Hxy & Hy & Ely). rewrite Epr in E. unfold write_lock in E. rewrite Hlk in E.
  cbn [mbind outcome_bind] in E.
  assert (overlapping x y (tree v) = []) as Hov.
  { destruct (overlapping x y (tree v)) as [|e l] eqn:Eo; [done|].
    assert (e ∈ overlapping x y (tree v)) as He by (rewrite Eo; by left). apply overlapping_spec in He as (He & ? & ?).
    destruct (Hfree e He); unfold page_size in *; Z.to_euclidean_division_equations; lia. }
  rewrite Hov in E. simpl in E. injection E as <-. exact Hlk.
Qed.

Lemma mmap_object_anonymous priv fd s o m : new_memobject (store_of s) = (o, m) →
  mmap_object true priv fd 0 s = Done (Value o, set_store m s).
Proof. unfold store_of, new_memobject. by intros [= <- <-]. Qed.

(** The arguments of an anonymous mapping at any address. *)
Definition anonymous_args (length flags fd : Z) : Prop :=
  0 < length ≤ 2 ^ 47 ∧ length mod page_size = 0 ∧ fd = -1 ∧
  bit_of flags fl_anonymous = true ∧ bit_of flags fl_fixed = false ∧
  xorb (bit_of flags fl_private) (bit_of flags fl_shared) = true.
Lemma anonymous_ok length flags fd : anonymous_args length flags fd → mmap_flags_error length flags fd 0 = None.
Proof.
  intros (Hl & Hm & -> & Ha & _ & Hx). unfold mmap_flags_error. rewrite Ha, Hm.
  destruct (bit_of flags fl_private), (bit_of flags fl_shared); try done; destruct (Z.eqb_spec length 0); (lia || done).
Qed.

(** An address space of user programs: everything is mapped below 2^47. *)
Definition user_space (v : vmspace PM) : Prop := vm_ok v ∧ locked v = false ∧ ∀ e, e ∈ tree v → endp e ≤ 2 ^ 35.

Lemma mmap_anonymous_spec addr length prot flags fd s v : anonymous_args length flags fd → space_of s = Some v → user_space v →
  if decide (Forall (λ e, length / page_size ≤ startp e) (tree v))
  then mmap addr length prot flags fd 0 s = Done (invalid_addr, set_perrno ENOMEM s)
  else ∃ a o m v', new_memobject (store_of s) = (o, m) ∧
    mmap addr length prot flags fd 0 s = Done (a, set_space v' (set_store m s)) ∧
    0 < a ∧ a + length ≤ 2 ^ 48 ∧ a mod page_size = 0 ∧ range_free a length (tree v) ∧
    vm_ok v' ∧ locked v' = false ∧
    ∀ p x, shows (tree v') p x ↔
      if decide (a / page_size ≤ p < (a + length) / page_size) then x = (o, p - a / page_size, w8 prot, w8 flags) else shows (tree v) p x.
Proof.
  intros Hargs Hs (Hv & Hlk & Hend). pose proof (anonymous_ok _ _ _ Hargs) as Hf. destruct Hargs as (Hl & Hm & -> & Ha & Hfix & _).
  unfold mmap. rewrite Hf, Hfix, Ha. unfold mmap_address.
  rewrite (bind_P _ _ s _ s) by (rewrite (bind_P _ _ s _ s) by (by apply read_space_eq); reflexivity).
  destruct (find_free_region_correct v length Hv Hl) as (p & -> & Hp & Hfree & Hpe & Hlow).
  replace ((length + 4095) / page_size) with (length / page_size) in * by (unfold page_size in *; Z.to_euclidean_division_equations; lia).
  rewrite <-Forall_forall in Hlow. destruct (decide _) as [Hdec|Hdec].
  - rewrite (Hlow Hdec). done.
  - assert (p ≠ 0) as Hp0.
    { intros ->. apply Hdec, Forall_forall. intros e He. destruct (to_entry _ (vo_tree _ Hv) e He). destruct (Hfree e He); lia. }
    assert (p ≤ 2 ^ 35) as Hp35 by (destruct Hpe as [->|(e & He & ->)]; [lia|by apply Hend]).
    destruct (new_memobject (store_of s)) as [o m] eqn:Eo.
    assert (p * page_size / page_size = p) as Hpp by by rewrite Z.div_mul.
    assert ((p * page_size) mod page_size = 0) as Hpm by by rewrite Z.mod_mul.
    assert ((p * page_size + length + 4095) / page_size = (p * page_size + length) / page_size) as Hup
      by (unfold page_size in *; Z.to_euclidean_division_equations; lia).
    destruct (vm_map_free v (p * page_size) length (w8 prot) (w8 flags) o) as (v' & Ev & Hv' & Hlk' & Hsh); try done; try (unfold page_size in *; lia).
    { intros e He. rewrite Hpp, Hup. destruct (Hfree e He) as [?|?]; [by left|right]. unfold page_size in *. Z.to_euclidean_division_equations; lia. }
    exists (p * page_size), o, m, v'. split_and!; try done; try (unfold page_size in *; lia).
    + destruct (Z.eqb_spec (p * page_size) 0); [unfold page_size in *; lia|].
      rewrite w64_small by (unfold page_size in *; lia). destruct (Z.ltb_spec (p * page_size + length) (p * page_size)); [lia|].
      rewrite (bind_P _ _ s _ (set_store m s)) by by apply mmap_object_anonymous. cbv beta iota.
      by rewrite (bind_P _ _ _ (Value ()) (set_space v' (set_store m s))) by by eapply with_space_eq.
    + intros e He. rewrite Hpp, Hup. destruct (Hfree e He) as [?|?]; [by left|right]. unfold page_size in *. Z.to_euclidean_division_equations; lia.
    + intros q x. by rewrite Hsh, Hup.
Qed.

(** An anonymous mapping without [fl_fixed], of whole pages, in an address space of user
    programs: when nothing is mapped in the lowest [length] bytes the call fails with
    [ENOMEM], since [find_free_region] returns 0 for them; otherwise it returns a page
    address where nothing was mapped, the range shows a new object with the protection and
    flags of the call, and everything else is mapped as before. *)
Theorem mmap_anonymous_correct addr length prot flags fd s v : anonymous_args length flags fd → space_of s = Some v → user_space v →
  if decide (Forall (λ e, length / page_size ≤ startp e) (tree v))
  then mmap addr length prot flags fd 0 s = Done (invalid_addr, set_perrno ENOMEM s)
  else ∃ a o m v', new_memobject (store_of s) = (o, m) ∧
    mmap addr length prot flags fd 0 s = Done (a, set_space v' (set_store m s)) ∧
    0 < a ∧ a + length ≤ 2 ^ 48 ∧ a mod page_size = 0 ∧ range_free a length (tree v) ∧
    vm_ok v' ∧ locked v' = false ∧
    ∀ p x, shows (tree v') p x ↔
      if decide (a / page_size ≤ p < (a + length) / page_size) then x = (o, p - a / page_size, w8 prot, w8 flags) else shows (tree v) p x.
Proof. apply mmap_anonymous_spec. Qed.

(** [munmap] on the calling process. *)
Lemma munmap_spec a length s v : space_of s = Some v → vm_ok v → locked v = false → a mod page_size = 0 → 0 ≤ a → 0 ≤ length → a + length ≤ 2 ^ 48 →
  ∃ v', munmap a length s = Done (0, set_space v' s) ∧ vm_ok v' ∧
    ∀ p o i pr fl, shows (tree v') p (o, i, pr, fl) ↔
      shows (tree v) p (o, i, pr, fl) ∧ ¬ (a / page_size ≤ p < (a + length + 4095) / page_size ∧ Z.land fl fl_untouchable = 0).
Proof.
  intros Hs Hv Hlk Ha Ha0 Hl Hb. destruct (vm_unmap_spec v a length Hv Hlk Ha Ha0 Hl Hb) as (v' & E & Hv' & Hsh & _).
  exists v'. split; [|done]. unfold munmap. by rewrite (bind_P _ _ s (Value ()) (set_space v' s)) by by eapply with_space_eq.
Qed.
Lemma range_pages a length : a mod page_size = 0 → length mod page_size = 0 → (a + length + 4095) / page_size = (a + length) / page_size.
Proof. unfold page_size. intros ??. Z.to_euclidean_division_equations; lia. Qed.
Lemma free_shows a length t p x : range_free a length t → a / page_size ≤ p < (a + length + 4095) / page_size → ¬ shows t p x.
Proof. intros Hf Hp (e & He & Hpe & _). destruct (Hf e He); lia. Qed.

(** [munmap] undoes [mmap]: afterwards every page of the address space shows what it showed. *)
Theorem mmap_munmap addr length prot flags fd s v : anonymous_args length flags fd → Z.land (w8 flags) fl_untouchable = 0 →
  space_of s = Some v → user_space v → ¬ Forall (λ e, length / page_size ≤ startp e) (tree v) →
  ∃ a s1 s2 v2, mmap addr length prot flags fd 0 s = Done (a, s1) ∧ munmap a length s1 = Done (0, s2) ∧
    space_of s2 = Some v2 ∧ vm_ok v2 ∧ ∀ p x, shows (tree v2) p x ↔ shows (tree v) p x.
Proof.
  intros Hargs Hut Hs Hu Hlow. pose proof (mmap_anonymous_spec addr length prot flags fd s v Hargs Hs Hu) as Hm.
  rewrite decide_False in Hm by done. destruct Hm as (a & o & m & v1 & _ & E & Ha & Hb & Hmod & Hfree & Hv1 & Hlk1 & Hsh).
  assert (space_of (set_space v1 (set_store m s)) = Some v1) as Hs1 by by apply (space_of_set _ v).
  destruct Hargs as (Hl & Hlm & _).
  destruct (munmap_spec a length _ v1 Hs1) as (v2 & E2 & Hv2 & Hsh2); try done; try lia.
  exists a, (set_space v1 (set_store m s)), (set_space v2 (set_space v1 (set_store m s))), v2.
  split_and!; [done|done|by apply (space_of_set _ v1)|done|]. intros p [[[o' i] pr] fl]. rewrite Hsh2, Hsh.
  pose proof (range_pages a length Hmod Hlm) as Er. rewrite Er. destruct (decide _) as [Hp|Hp]; [|tauto]. split.
  - intros [[= -> -> -> ->] Hn]. exfalso. by apply Hn.
  - intros Hold. exfalso. revert Hold. apply (free_shows a length); [done|lia].
Qed.
(** The flags of the call become flags of the mapping: the bit 0x40, which Linux programs know
    as MAP_32BIT, makes it untouchable, and [munmap] reports success and leaves it mapped. *)
Theorem mmap_untouchable addr length prot flags fd s v : anonymous_args length flags fd → Z.land (w8 flags) fl_untouchable ≠ 0 →
  space_of s = Some v → user_space v → ¬ Forall (λ e, length / page_size ≤ startp e) (tree v) →
  ∃ a o s1 s2 v2, mmap addr length prot flags fd 0 s = Done (a, s1) ∧ munmap a length s1 = Done (0, s2) ∧
    space_of s2 = Some v2 ∧ ∀ p, a / page_size ≤ p < (a + length) / page_size → shows (tree v2) p (o, p - a / page_size, w8 prot, w8 flags).
Proof.
  intros Hargs Hut Hs Hu Hlow. pose proof (mmap_anonymous_spec addr length prot flags fd s v Hargs Hs Hu) as Hm.
  rewrite decide_False in Hm by done. destruct Hm as (a & o & m & v1 & _ & E & Ha & Hb & Hmod & Hfree & Hv1 & Hlk1 & Hsh).
  assert (space_of (set_space v1 (set_store m s)) = Some v1) as Hs1 by by apply (space_of_set _ v).
  destruct Hargs as (Hl & Hlm & _).
  destruct (munmap_spec a length _ v1 Hs1) as (v2 & E2 & Hv2 & Hsh2); try done; try lia.
  exists a, o, (set_space v1 (set_store m s)), (set_space v2 (set_space v1 (set_store m s))), v2.
  split_and!; [done|done|by apply (space_of_set _ v1)|]. intros p Hp. rewrite Hsh2, Hsh, decide_True by done. split; [done|]. tauto.
Qed.
End mmap.

(** C13: from [mmap] to the memory: a page fault anywhere in a new anonymous mapping makes the page
    translate to a frame of the new object, all of whose bytes are zero, and changes no byte
    of any other object; or the kernel panics, as it does when it is out of memory.  The
    mapping is made without MAP_FIXED in a space whose lowest pages are not free. *)
Theorem mmap_fault_zero `{PathOps} `{FrameAllocatorLaws OSt} `{RandomSource} `{SysParams} `{FrameAllocatorLaws St}
    hhdm large_pages use_lowmem table addr length prot flags fd (s : psys (St := OSt) (PM := pagemaps St)) v :
  let ops := pagemap_ops hhdm large_pages use_lowmem table in
  let laws := pagemap_laws hhdm large_pages use_lowmem table in
  hhdm_ok hhdm → obj_inv (store_of s) → anonymous_args length flags fd → space_of s = Some v → user_space v →
  ¬ Forall (λ e, length / page_size ≤ startp e) (tree v) →
  ∃ a o m v1, mmap addr length prot flags fd 0 s = Done (a, set_space v1 (set_store m s)) ∧
    ∀ va on_write shared_obj, a ≤ va < a + length → shared_obj o = false →
      handle_pfault va on_write shared_obj v1 m = Panic ∨
      ∃ r v2 m2 pages p, handle_pfault va on_write shared_obj v1 m = Done (r, v2, m2) ∧ tree v2 = tree v1 ∧
        objects m2 !! o = Some pages ∧ pages !! ((va - a) / page_size) = Some p ∧
        pm_translate (va / page_size * page_size) (pmap v2) = Done (Value p, pmap v2) ∧
        (∀ off, byte_at m2 o off = 0) ∧ ∀ o' off, o' ≠ o → byte_at m2 o' off = byte_at (store_of s) o' off.
Proof.
  intros ops laws Hh Hi Hargs Hs Hu Hlow. pose proof (mmap_anonymous_spec addr length prot flags fd s v Hargs Hs Hu) as Hm.
  rewrite decide_False in Hm by done. destruct Hm as (a & o & m & v1 & Eo & E & Ha & Hb & Hmod & Hfree & Hv1 & Hlk1 & Hsh).
  destruct (new_memobject_spec (store_of s) o m Hi Eo) as (Hnew & Hi' & Hobj). destruct Hargs as (Hl & Hlm & _).
  exists a, o, m, v1. split; [done|]. intros va on_write shared_obj Hva Hshd.
  assert (∃ e, e ∈ tree v1 ∧ startp e ≤ va / page_size < endp e ∧ obj e = o ∧ offsetp e + (va / page_size - startp e) = va / page_size - a / page_size) as (e & He & Hp & Heo & Hei).
  { destruct (proj2 (Hsh (va / page_size) (o, va / page_size - a / page_size, w8 prot, w8 flags))) as (e & He & Hp & Hx).
    - rewrite decide_True; [done|]. unfold page_size in *. Z.to_euclidean_division_equations; lia.
    - exists e. injection Hx as -> -> _ _. done. }
  destruct (pfault_spec hhdm large_pages use_lowmem table v1 m va on_write shared_obj e) as [?|(r & v2 & m2 & pages & p & Ef & _ & Ht & _ & _ & Hby & Hpg & Hpp & Htr)];
    try done; [lia|rewrite Heo, Hobj; eexists; apply lookup_insert_eq|rewrite Heo, Hshd; by rewrite !andb_false_r|by left|right].
  exists r, v2, m2, pages, p. rewrite Heo in Hpg. split_and!; try done.
  - replace ((va - a) / page_size) with (va / page_size - startp e + offsetp e); [done|].
    rewrite <-Z.add_comm, Z.add_comm, Z.add_comm. replace (va / page_size - startp e + offsetp e) with (va / page_size - a / page_size) by lia.
    unfold page_size in *. Z.to_euclidean_division_equations; lia.
  - intros off. rewrite Hby. unfold byte_at. rewrite Hobj, lookup_insert_eq. done.
  - intros o' off Hne. rewrite Hby. unfold byte_at, new_memobject in *. injection Eo as <- <-. simpl. by rewrite lookup_insert_ne by congruence.
Qed.

(** * Process groups *)
Section setpgid.
Context `{PathOps} `{FrameAllocator St} `{RandomSource} `{SysParams} {PM : Type} `{PageMapOps PM}.
Implicit Types s : psys (St := St) (PM := PM).

Lemma find_proc_none s n : -1 ≠ n → processes (tabs s) !! w64 n = None → find_proc n s = Done (None, s).
Proof. intros Hn E. unfold find_proc, proc_for. destruct (Z.eqb_spec n (-1)); [lia|]. by rewrite E. Qed.
Lemma find_proc_at s n i q : procs_ok (tabs s) → proc_at (tabs s) n i q → find_proc n s = Done (Some i, s).
Proof.
  intros Hok Hq. destruct (proc_pid _ n i q Hok Hq) as [_ Hn]. unfold find_proc, proc_for.
  destruct (Z.eqb_spec n (-1)); [lia|]. rewrite w64_small by lia. by rewrite (proj1 Hq).
Qed.
Lemma read_process s i q : ptab (tabs s) !! i = Some q → read_tabs (get_process i) s = Done (q, s).
Proof. intros E. unfold read_tabs, get_process. by rewrite E. Qed.
(** The numbers that are not those of processes, except -1, which stands for the idle process. *)
Lemma no_process s n : procs_ok (tabs s) → - 2 ^ 31 ≤ n < 2 ^ 31 → n ≠ -1 → (∀ i q, ¬ proc_at (tabs s) n i q) →
  processes (tabs s) !! w64 n = None.
Proof.
  intros Hok Hn Hn1 Hno. destruct (processes (tabs s) !! w64 n) as [i|] eqn:E; [|done].
  destruct (po_proc _ Hok _ _ E) as (q & Hq & _ & Hr). pose proof (po_next _ Hok).
  destruct (decide (0 ≤ n)).
  - rewrite w64_small in E by lia. by destruct (Hno i q).
  - unfold w64 in Hr. revert Hr. rewrite <-(Z.mod_add _ 1) by done. rewrite Z.mod_small by lia. lia.
Qed.

(** Why a process may not move another: it leads its session, it is neither the caller nor a
    child of it, or it is a child that has executed a program or is in another session. *)
Definition move_error (p q : Process.process) (n : Z) : Z :=
  let child := bool_decide (is_Some (children p !! n)) in
  if sid q =? n then EPERM
  else if negb child && negb (pid p =? n) then ESRCH
  else if child && has_execved q then EACCES
  else if child && negb (sid q =? sid p) then EPERM
  else 0.
Lemma may_move_error (p q : Process.process) n :
  may_move p q n = if move_error p q n =? 0 then Value () else Unexpected (move_error p q n).
Proof.
  unfold may_move, move_error. rewrite (Z.eqb_sym (sid q) n), (Z.eqb_sym (pid p) n), (Z.eqb_sym (sid q) (sid p)).
  by destruct (n =? sid q), (bool_decide (is_Some (children p !! n))), (has_execved q), (sid p =? sid q), (n =? pid p).
Qed.

(** What the call requires and what it answers, as one number: 0 for success.  The number -1
    names the idle process of the processor, if there is one. *)
Definition setpgid_answer (idl : option Z) (t : procs PM) (p : Process.process) (n g : Z) : Z :=
  let n := if n =? 0 then pid p else n in
  let g' := if g =? 0 then n else g in
  if g <? 0 then EINVAL else
  match (if n =? -1 then idl else processes t !! n) with
  | None => ESRCH
  | Some i =>
      match ptab t !! i with
      | None => ESRCH
      | Some q =>
          if negb (move_error p q n =? 0) then move_error p q n else
          match groups t !! g' with
          | None => EPERM
          | Some gi =>
              match gtab t !! gi with
              | None => EPERM
              | Some grp => if negb (g_sid grp =? sid q) then EPERM else if pgid q =? g' then EINVAL else 0
              end
          end
      end
  end.

Lemma change_group_answer (t : procs PM) m i q g gi grp : procs_ok t → proc_at t m i q → group_at t g gi grp →
  ∃ t', change_group i gi t = Done (negb (pgid q =? g), t') ∧ procs_ok t' ∧
    if pgid q =? g then t' = t else moved t t' m i g ∧ replaced t t' i (set_sid (g_sid grp) (set_pgid g q)).
Proof.
  intros Hok Hq Hg. pose proof (change_group_spec t m i q g gi grp Hok Hq Hg) as Hc.
  destruct (Z.eqb_spec (pgid q) g).
  - rewrite decide_True in Hc by done. by exists t.
  - rewrite decide_False in Hc by done. destruct Hc as (t' & Ec & Hmv & Hr & Est & Ess). exists t'.
    split; [done|]. split; [|done]. by apply (change_group_ok t t' m i q g gi grp).
Qed.

(** The idle process is neither the caller nor one of its children. *)
Lemma move_error_idle (t : procs PM) p q i : procs_ok t → proc_at t (pid p) i p → move_error p q (-1) ≠ 0.
Proof.
  intros Hok Hp. destruct (proc_pid _ _ _ _ Hok Hp) as [_ Hpid]. unfold move_error.
  assert (children p !! (-1) = None) as ->.
  { destruct (children p !! (-1)) as [j|] eqn:E; [|done]. apply (po_children _ Hok _ _ _ _ _ Hp) in E as (q' & Hq & _).
    destruct (proc_pid _ _ _ _ Hok Hq) as [_ ?]. lia. }
  rewrite (proj2 (Z.eqb_neq (pid p) (-1))) by lia. by destruct (sid q =? -1).
Qed.
Lemma setpgid_spec n g s p i : procs_ok (tabs s) → caller_of s = Some p → proc_at (tabs s) (pid p) i p →
  - 2 ^ 31 ≤ n < 2 ^ 31 → g < 2 ^ 31 → (∀ j, idle s = Some j → is_Some (ptab (tabs s) !! j)) →
  ∃ s', let e := setpgid_answer (idle s) (tabs s) p n g in
    setpgid n g s = Done (if e =? 0 then 0 else -1, s') ∧ perrno s' = e ∧ procs_ok (tabs s') ∧
    if e =? 0 then
      let m := if n =? 0 then pid p else n in
      let g := if g =? 0 then m else g in
      ∃ j q grp gi, proc_at (tabs s) m j q ∧ group_at (tabs s) g gi grp ∧
        moved (tabs s) (tabs s') m j g ∧ replaced (tabs s) (tabs s') j (set_sid (g_sid grp) (set_pgid g q))
    else tabs s' = tabs s.
Proof.
  intros Hok Hp Hpi Hn Hg Hidle. cbv zeta. unfold setpgid, setpgid_answer.
  destruct (Z.ltb_spec g 0); [exists (set_perrno EINVAL s); by split_and!|].
  rewrite (bind_P _ _ s p s) by by apply this_proc_eq.
  destruct (proc_pid _ _ _ _ Hok Hpi) as [_ Hpid].
  set (m := if n =? 0 then pid p else n). set (g' := if g =? 0 then m else g).
  assert (- 2 ^ 31 ≤ m < 2 ^ 31) as Hm by (unfold m; destruct (Z.eqb_spec n 0); lia).
  destruct (Z.eqb_spec m (-1)) as [->|Hm1].
  { rewrite (bind_P _ _ s (idle s) s) by done. destruct (idle s) as [j|]; [|exists (set_perrno ESRCH s); by split_and!].
    destruct (Hidle j eq_refl) as [q Hq]. rewrite Hq. cbv beta iota. rewrite (bind_P _ _ s q s) by by apply read_process.
    pose proof (move_error_idle (tabs s) p q i Hok Hpi) as He. rewrite may_move_error. rewrite (proj2 (Z.eqb_neq _ _) He). cbn [negb].
    rewrite (proj2 (Z.eqb_neq _ _) He). exists (set_perrno (move_error p q (-1)) s). by split_and!. }
  destruct (processes (tabs s) !! m) as [j|] eqn:Ej.
  2: { rewrite (bind_P _ _ s None s).
       - exists (set_perrno ESRCH s). by split_and!.
       - apply find_proc_none; [done|]. apply no_process; try done. intros i' q' [E _]. congruence. }
  destruct (po_proc _ Hok _ _ Ej) as (q & Eq & _). rewrite Eq. assert (proc_at (tabs s) m j q) as Hq by done.
  destruct (proc_pid _ _ _ _ Hok Hq) as [_ Hm0].
  rewrite (bind_P _ _ s (Some j) s) by by eapply find_proc_at. cbv beta iota. rewrite (bind_P _ _ s q s) by by apply read_process.
  rewrite may_move_error. destruct (Z.eqb_spec (move_error p q m) 0) as [_|He]; cbn [negb].
  2: { destruct (Z.eqb_spec (move_error p q m) 0); [done|]. exists (set_perrno (move_error p q m) s). by split_and!. }
  assert (0 ≤ g' < 2 ^ 31) as Hg' by (unfold g'; destruct (Z.eqb_spec g 0); lia).
  rewrite (bind_P _ _ s (groups (tabs s) !! g') s) by (unfold read_tabs, group_for; cbn; by rewrite w64_small by lia).
  destruct (groups (tabs s) !! g') as [gi|] eqn:Eg; [|exists (set_perrno EPERM s); by split_and!].
  destruct (po_group _ Hok _ _ Eg) as (grp & Egrp & _). rewrite Egrp. assert (group_at (tabs s) g' gi grp) as Hgrp by done.
  rewrite (bind_P _ _ s grp s) by (unfold read_tabs, get_group; by rewrite Egrp).
  destruct (negb (g_sid grp =? sid q)); [exists (set_perrno EPERM s); by split_and!|].
  destruct (change_group_answer (tabs s) m j q g' gi grp Hok Hq Hgrp) as (t' & Ec & Hok' & Hch).
  rewrite (bind_P _ _ s (negb (pgid q =? g')) (set_tabs t' s)) by (unfold with_tabs; by rewrite Ec).
  revert Hch. destruct (pgid q =? g'); simpl; intros Hch.
  - exists (set_perrno EINVAL (set_tabs t' s)). by split_and!.
  - exists (set_perrno 0 (set_tabs t' s)). split; [done|]. split; [done|]. split; [done|].
    destruct Hch as [Hmv Hr]. exists j, q, grp, gi. split; [done|]. split; [done|]. split; [exact Hmv|exact Hr].
Qed.

(** C14: [setpgid] with any arguments, in any consistent state: it neither panics nor hangs, the
    tables stay consistent, the error is the one of [setpgid_answer], and the tables change
    only when it is 0, by moving the process to the group.  (The number -1 stands for the
    idle process of the processor, which is not in the tables; it can not be moved.) *)
Theorem setpgid_correct n g s p i : procs_ok (tabs s) → caller_of s = Some p → proc_at (tabs s) (pid p) i p →
  - 2 ^ 31 ≤ n < 2 ^ 31 → g < 2 ^ 31 → (∀ j, idle s = Some j → is_Some (ptab (tabs s) !! j)) →
  ∃ s', let e := setpgid_answer (idle s) (tabs s) p n g in
    setpgid n g s = Done (if e =? 0 then 0 else -1, s') ∧ perrno s' = e ∧ procs_ok (tabs s') ∧
    if e =? 0 then
      let m := if n =? 0 then pid p else n in
      let g := if g =? 0 then m else g in
      ∃ j q grp gi, proc_at (tabs s) m j q ∧ group_at (tabs s) g gi grp ∧
        moved (tabs s) (tabs s') m j g ∧ replaced (tabs s) (tabs s') j (set_sid (g_sid grp) (set_pgid g q))
    else tabs s' = tabs s.
Proof. apply setpgid_spec. Qed.

(** The only group a process is ever given a number for is that of process 1. *)
Definition one_group (t : procs PM) : Prop := ∀ k, is_Some (groups t !! k) → k = 1.
Lemma change_group_groups (t t' : procs PM) i g b : change_group i g t = Done (b, t') → groups t' = groups t.
Proof. unfold change_group, leave_group. intros E. repeat (case_match || case_decide); done_steps; by repeat case_match; done_steps. Qed.
Lemma change_session_groups (t t' : procs PM) g x b : change_session g x t = Done (b, t') → groups t' = groups t.
Proof.
  assert (∀ l y (t1 t2 : procs PM), set_sids l y t1 = Done t2 → groups t2 = groups t1) as Hsids.
  { induction l as [|[k j] l IH]; intros y t1 t2 E; simpl in E; done_steps; subst; [done|]. by apply IH in E. }
  unfold change_session, leave_session. intros E. repeat (case_match || case_decide); done_steps; simplify_eq; try done.
  all: repeat case_match; done_steps; simplify_eq; try done.
  all: repeat match goal with H : set_sids _ _ _ = Done _ |- _ => apply Hsids in H; simpl in H end; congruence.
Qed.
Lemma process_create_one parent pm root i (t t' : procs PM) : one_group t → process_create parent pm root t = Done (i, t') → one_group t'.
Proof.
  intros Hone. unfold process_create. set (j := fresh _). destruct (alloc_pid j _) as [n t1] eqn:Ea.
  assert (groups t1 = groups t) as Et1 by (injection Ea as _ <-; done). cbv zeta. intros E.
  apply bind_Done_inv in E as (t2 & E2 & E).
  assert (one_group t2) as H2'.
  { revert E2. unfold enrol. destruct (Z.eqb_spec (pid_of n) 0); [intros [= <-]; by unfold one_group; simpl; rewrite Et1|].
    destruct (Z.eqb_spec (pid_of n) 1) as [Hn|].
    - intros E2. apply bind_Done_inv in E2 as ([] & _ & E2). unfold lead_session in E2.
      apply bind_Done_inv in E2 as ([g ta] & Eg & E2). apply bind_Done_inv in E2 as ([x tb] & Ex & E2). done_steps. subst.
      unfold create_group, get_process in Eg. simpl in Eg. rewrite lookup_insert_eq in Eg. cbn in Eg. injection Eg as <- <-.
      unfold create_session in Ex. apply bind_Done_inv in Ex as (grp & _ & Ex). injection Ex as _ <-. unfold one_group. simpl.
      rewrite Hn, Et1. intros k [y Hk]. apply lookup_insert_Some in Hk as [[<- _]|[_ Hk]]; [done|]. apply Hone. by eexists.
    - destruct parent; [|done]. intros E2. unfold join_parent in E2. done_steps. subst. unfold one_group. simpl. by rewrite Et1. }
  revert E. unfold process_finish. intros E. destruct parent; done_steps; simplify_eq; exact H2'.
Qed.
Lemma reachable_one_group t : rtc procs_step no_procs t → one_group t.
Proof.
  revert t. assert (one_group no_procs) as Hno by by intros k []. apply (rtc_ind_r one_group no_procs Hno).
  intros t1 t2 _ [t0 parent pm root i t3 _ E|t0 m i p n g grp b t3 _ _ E|t0 m g grp n x sess b t3 _ _ E] Hone.
  - by eapply process_create_one.
  - unfold one_group. by rewrite (change_group_groups _ _ _ _ _ E).
  - unfold one_group. by rewrite (change_session_groups _ _ _ _ _ E).
Qed.

(** No process but the first ones can change its group or that of a child: in every state
    reached by the operations on processes, [setpgid] fails for every caller but process 0.
    There is no call that makes a group. *)
Theorem setpgid_never n g s p i : rtc procs_step no_procs (tabs s) → caller_of s = Some p → proc_at (tabs s) (pid p) i p → pid p ≠ 0 →
  - 2 ^ 31 ≤ n < 2 ^ 31 → g < 2 ^ 31 → (∀ j, idle s = Some j → is_Some (ptab (tabs s) !! j)) →
  ∃ s', setpgid n g s = Done (-1, s') ∧ perrno s' ≠ 0 ∧ tabs s' = tabs s.
Proof.
  intros Hs Hp Hpi Hp0 Hn Hg Hidle. pose proof (procs_reachable_sound _ Hs) as Hok. pose proof (reachable_one_group _ Hs) as Hone.
  destruct (setpgid_spec n g s p i Hok Hp Hpi Hn Hg Hidle) as (s' & E & Ee & _ & Ht).
  destruct (Z.eqb_spec (setpgid_answer (idle s) (tabs s) p n g) 0) as [E0|]; [exfalso|exists s'; split; [done|by rewrite Ee]].
  destruct Ht as (j & q & grp & gi & Hq & Hgrp & _). set (m := if n =? 0 then pid p else n) in *. set (g' := if g =? 0 then m else g) in *.
  assert (g' = 1) as Hg1 by (apply Hone; eexists; apply Hgrp).
  revert E0. unfold setpgid_answer. destruct (g <? 0); [done|]. fold m. fold g'.
  destruct (proc_pid _ _ _ _ Hok Hq) as [_ Hm0]. rewrite (proj2 (Z.eqb_neq m (-1))) by lia. rewrite (proj1 Hq), (proj2 Hq), (proj1 Hgrp), (proj2 Hgrp).
  destruct (Z.eqb_spec (move_error p q m) 0) as [_|He]; cbn [negb]; [|done].
  destruct (negb (g_sid grp =? sid q)); [done|]. destruct (Z.eqb_spec (pgid q) g') as [|Hne]; [done|]. intros _.
  destruct (po_in_group _ Hok m j q Hq) as [[Hm1 _]|(g1 & grp1 & Hg1' & _)].
  - unfold m in Hm1. destruct (Z.eqb_spec n 0); lia.
  - apply Hne. rewrite Hg1. apply Hone. eexists. apply Hg1'.
Qed.
End setpgid.

(** * What the table makes of it *)
Section table.
Context `{PathOps} `{FrameAllocator St} `{RandomSource} `{SysParams} `{SysClock} {PM : Type} `{PageMapOps PM}.
Implicit Types s : psys (St := St) (PM := PM).

(** [arch_prctl] returns -EINVAL for an operation it does not know and does not set [errno];
    the wrapper then replaces the negative result by the negation of [errno], and the program
    sees success. *)
Theorem arch_prctl_unknown fuel op addr s : errno_known 0 = true → 0 ≤ op < 2 ^ 31 → op ≠ 0x1001 → op ≠ 0x1002 → op ≠ 0x1003 → op ≠ 0x1004 →
  syscall_handler fuel 158 op addr 0 0 0 0 s = Done (0, set_perrno 0 s).
Proof.
  intros Hk Hop Hn1 Hn2 Hn3 Hn4. unfold syscall_handler. change (vfs_syscall (St := St) fuel 158 op addr 0 0) with (@None (M (St := St) Z)). cbv iota.
  unfold proc_call, pinvoke. rewrite (bind_P _ _ s () (set_perrno 0 s)) by done.
  assert (to_int op = op) as -> by (apply s32_small; lia).
  rewrite (bind_P _ _ _ (- EINVAL) (set_perrno 0 s)).
  - unfold with_base, read_fs, mbind, P_bind. cbn. by rewrite Hk.
  - unfold arch_prctl. rewrite (bind_P _ _ _ (me_thread s) (set_perrno 0 s)) by done. rewrite (bind_P _ _ _ (phw s) (set_perrno 0 s)) by done.
    destruct op as [|op|op]; [done| |lia]. do 13 (destruct op as [op|op|]; try done).
Qed.
(** [getpgid(0)] asks for the group of process 0, the kernel, not for that of the caller. *)
Theorem getpgid_zero s q i : procs_ok (tabs s) → proc_at (tabs s) 0 i q → getpgid 0 s = Done (pgid q, s).
Proof.
  intros Hok Hq. unfold getpgid. rewrite (bind_P _ _ s (Some i) s) by by eapply find_proc_at. cbv beta iota.
  by rewrite (bind_P _ _ s q s) by (apply read_process, Hq).
Qed.
End table.

(** * Examples *)
Section example.
#[local] Instance no_clock : SysClock := {| main_ns := None; boot_time := 0; build_time := "" |}.
#[local] Instance ex_page_ops : PageMapOps (pagemaps Z) := pagemap_ops ex_hhdm true false PagemapSpec.ex_root.
#[local] Instance ex_page_laws : PageMapLaws (pagemaps Z) := pagemap_laws ex_hhdm true false PagemapSpec.ex_root.

(** The kernel, the first process and its child, which makes the calls. *)
Definition table_of (o : outcome (Z * procs (pagemaps Z))) : procs (pagemaps Z) := match o with Done (_, t) => t | _ => no_procs end.
Definition ex_t0 : procs (pagemaps Z) := table_of (process_create None ex_maps no_path no_procs).
Definition ex_t1 : procs (pagemaps Z) := table_of (process_create None ex_maps no_path ex_t0).
Definition ex_t2 : procs (pagemaps Z) := table_of (process_create (Some 1) ex_maps no_path ex_t1).
Lemma ex_t2_reachable : rtc procs_step no_procs ex_t2.
Proof.
  apply (rtc_l _ _ ex_t0).
  { apply (step_create _ None ex_maps no_path 0); [|vm_compute; reflexivity]. vm_compute. split; [reflexivity|discriminate]. }
  apply (rtc_l _ _ ex_t1).
  { apply (step_create _ None ex_maps no_path 1); [|vm_compute; reflexivity]. vm_compute. split; [reflexivity|discriminate]. }
  apply (rtc_l _ _ ex_t2); [|apply rtc_refl].
  apply (step_create _ (Some 1) ex_maps no_path 2); [|vm_compute; reflexivity].
  split; [vm_compute; reflexivity|]. split; [vm_compute; reflexivity|].
  exists 1, (default (blank_process 0) (ptab ex_t1 !! 1)). vm_compute. repeat split; discriminate.
Qed.
Definition ex_caller (i : Z) : thread :=
  mk_thread 1 i Running true (mk_account 0 0 0) (mk_slumber false false 0 None None) (mk_context zero_regs 0 0 zero_fp) (mk_stacks 0 0 None 0) None.
Definition ex_psys (i : Z) (t : procs (pagemaps Z)) : psys := mk_psys ex_sys t (ex_caller i) None first_hw.
Definition ex_process (i : Z) : Process.process := default (blank_process 0) (ptab ex_t2 !! i).

Lemma setpgid_correct_witness : ∃ s', setpgid 0 1 (ex_psys 2 ex_t2) = Done (-1, s') ∧ perrno s' = EINVAL ∧ tabs s' = tabs (ex_psys 2 ex_t2).
Proof.
  destruct (setpgid_correct 0 1 (ex_psys 2 ex_t2) (ex_process 2) 2) as (s' & E & Ee & _ & Ht);
    [apply procs_reachable_sound, ex_t2_reachable|vm_compute; reflexivity|vm_compute; split; reflexivity|lia|lia|discriminate|].
  assert (setpgid_answer (idle (ex_psys 2 ex_t2)) (tabs (ex_psys 2 ex_t2)) (ex_process 2) 0 1 = EINVAL) as Ea by (vm_compute; reflexivity).
  rewrite Ea in E, Ee, Ht. change (EINVAL =? 0) with false in E, Ht. cbv iota in E, Ht.
  exists s'. split; [exact E|]. split; [exact Ee|exact Ht].
Defined.
Lemma setpgid_never_witness : ∃ s', setpgid 0 0 (ex_psys 2 ex_t2) = Done (-1, s') ∧ perrno s' ≠ 0 ∧ tabs s' = tabs (ex_psys 2 ex_t2).
Proof.
  apply (setpgid_never 0 0 (ex_psys 2 ex_t2) (ex_process 2) 2);
    [exact ex_t2_reachable|vm_compute; reflexivity|vm_compute; split; reflexivity|vm_compute; discriminate|lia|lia|discriminate].
Defined.
Lemma getpgid_zero_witness : getpgid 0 (ex_psys 2 ex_t2) = Done (0, ex_psys 2 ex_t2).
Proof.
  apply (getpgid_zero (ex_psys 2 ex_t2) (ex_process 0) 0); [apply procs_reachable_sound, ex_t2_reachable|vm_compute; split; reflexivity].
Defined.
Lemma arch_prctl_unknown_witness : syscall_handler 9 158 7 0 0 0 0 0 (ex_psys 2 ex_t2) = Done (0, set_perrno 0 (ex_psys 2 ex_t2)).
Proof. apply arch_prctl_unknown; [reflexivity|lia|discriminate..]. Defined.

(** Sixteen pages are mapped, from page 1 or from page 0x40000. *)
Definition ex_pages (p : Z) : vmspace (pagemaps Z) := mk_vmspace [mk_mapping p (p + 16) 1 0 3 fl_private] ex_maps false.
Lemma ex_pages_ok p : 0 < p < 2 ^ 35 - 16 → user_space (ex_pages p).
Proof.
  intros Hp. split; [split|split; [done|]].
  - split.
    + intros e ->%list_elem_of_singleton. unfold entry_ok. simpl. lia.
    + intros e1 e2 ->%list_elem_of_singleton ->%list_elem_of_singleton []. done.
  - by repeat constructor.
  - exists {[ [] := tohh ex_hhdm PagemapSpec.ex_root ]}. apply ex_maps_rep.
  - intros e ->%list_elem_of_singleton. simpl. lia.
Qed.
Definition ex_low : psys := ex_psys 2 (put_space 2 (ex_pages 1) ex_t2).
Definition ex_high : psys := ex_psys 2 (put_space 2 (ex_pages 0x40000) ex_t2).
Definition ex_flags : Z := fl_private + fl_anonymous.
Lemma ex_args : anonymous_args 0x2000 ex_flags (-1).
Proof. split; [lia|]. vm_compute. repeat split. Qed.
Lemma ex_low_used : ¬ Forall (λ e, 0x2000 / page_size ≤ startp e) (tree (ex_pages 1)).
Proof. intros Hl. apply Forall_cons in Hl as [Hl _]. vm_compute in Hl. by apply Hl. Qed.

Lemma mmap_anonymous_correct_witness : mmap 0 0x2000 3 ex_flags (-1) 0 ex_high = Done (invalid_addr, set_perrno ENOMEM ex_high).
Proof.
  pose proof (mmap_anonymous_correct 0 0x2000 3 ex_flags (-1) ex_high (ex_pages 0x40000) ex_args ltac:(vm_compute; reflexivity)
    (ex_pages_ok 0x40000 ltac:(lia))) as Hm.
  destruct (decide _) as [Hf|Hf]; [exact Hm|]. exfalso. apply Hf. apply Forall_cons. split; [vm_compute; discriminate|constructor].
Defined.
Lemma mmap_munmap_witness : ∃ a s1 s2, mmap 0 0x2000 3 ex_flags (-1) 0 ex_low = Done (a, s1) ∧ munmap a 0x2000 s1 = Done (0, s2).
Proof.
  destruct (mmap_munmap 0 0x2000 3 ex_flags (-1) ex_low (ex_pages 1) ex_args ltac:(reflexivity) ltac:(vm_compute; reflexivity)
    (ex_pages_ok 1 ltac:(lia)) ex_low_used) as (a & s1 & s2 & _ & E1 & E2 & _).
  exists a, s1, s2. split; [exact E1|exact E2].
Defined.
Lemma mmap_untouchable_witness : ∃ a s1 s2, mmap 0 0x2000 3 (ex_flags + 0x40) (-1) 0 ex_low = Done (a, s1) ∧ munmap a 0x2000 s1 = Done (0, s2).
Proof.
  destruct (mmap_untouchable 0 0x2000 3 (ex_flags + 0x40) (-1) ex_low (ex_pages 1)) as (a & o & s1 & s2 & v2 & E1 & E2 & _);
    [split; [lia|vm_compute; repeat split]|discriminate|vm_compute; reflexivity|exact (ex_pages_ok 1 ltac:(lia))|exact ex_low_used|].
  exists a, s1, s2. split; [exact E1|exact E2].
Defined.
Lemma mmap_fault_zero_witness : ∃ a s1, mmap 0 0x2000 3 ex_flags (-1) 0 ex_low = Done (a, s1).
Proof.
  destruct (mmap_fault_zero ex_hhdm true false PagemapSpec.ex_root 0 0x2000 3 ex_flags (-1) ex_low (ex_pages 1)) as (a & o & m & v1 & E & _);
    [exact ex_hhdm_ok|apply empty_objects_inv; vm_compute; reflexivity|exact ex_args|vm_compute; reflexivity|exact (ex_pages_ok 1 ltac:(lia))|exact ex_low_used|].
  exists a, (set_space v1 (set_store m ex_low)). exact E.
Defined.
End example.
