(* ===== verification/Rbtree.v ===== *)
(** The intrusive red-black tree (kernel/interfaces/lib/rbtree.cppm), as it works on its nodes.

    A node is known by its address, [nil] is 0.  The hooks of all objects are a function of
    their addresses; the hook of [nil] is the local variable [nh] of the public functions,
    which a call of [hook(nh, nil())] reads and writes.  The functions for the two directions
    mirror each other in the source; here the direction is an argument. *)

From S2P Require Import Prelude Math.

Inductive colour := Red | Black.
#[export] Instance colour_eq_dec : EqDecision colour.
Proof. solve_decision. Defined.
Inductive side := L | R.
#[export] Instance side_eq_dec : EqDecision side.
Proof. solve_decision. Defined.
Definition flip (d : side) : side := match d with L => R | R => L end.

Definition nil : Z := 0.
Record rbtree_hook := mk_hook
  { h_parent : Z; h_left : Z; h_right : Z; h_successor : Z; h_predecessor : Z; h_colour : colour }.
Definition new_hook : rbtree_hook := mk_hook nil nil nil nil nil Black.
Definition h_kid (d : side) (h : rbtree_hook) : Z := match d with L => h_left h | R => h_right h end.

Record rbtree := mk_rbtree { root : Z; head : Z; size : Z; hooks : Z → rbtree_hook }.
Definition new_rbtree (h : Z → rbtree_hook) : rbtree := mk_rbtree nil nil 0 h.
Definition parent (x : Z) (s : rbtree) : Z := h_parent (hooks s x).
Definition kid (d : side) (x : Z) (s : rbtree) : Z := h_kid d (hooks s x).
Definition successor (x : Z) (s : rbtree) : Z := h_successor (hooks s x).
Definition predecessor (x : Z) (s : rbtree) : Z := h_predecessor (hooks s x).
Definition colour_of (x : Z) (s : rbtree) : colour := h_colour (hooks s x).

Definition set_root (x : Z) (s : rbtree) : rbtree := mk_rbtree x (head s) (size s) (hooks s).
Definition set_head (x : Z) (s : rbtree) : rbtree := mk_rbtree (root s) x (size s) (hooks s).
Definition set_size (n : Z) (s : rbtree) : rbtree := mk_rbtree (root s) (head s) n (hooks s).
Definition set_hook (x : Z) (h : rbtree_hook) (s : rbtree) : rbtree :=
  mk_rbtree (root s) (head s) (size s) (λ y, if decide (y = x) then h else hooks s y).
Definition set_parent (x p : Z) (s : rbtree) : rbtree :=
  let h := hooks s x in set_hook x (mk_hook p (h_left h) (h_right h) (h_successor h) (h_predecessor h) (h_colour h)) s.
Definition set_kid (d : side) (x p : Z) (s : rbtree) : rbtree :=
  let h := hooks s x in
  set_hook x (match d with
              | L => mk_hook (h_parent h) p (h_right h) (h_successor h) (h_predecessor h) (h_colour h)
              | R => mk_hook (h_parent h) (h_left h) p (h_successor h) (h_predecessor h) (h_colour h)
              end) s.
Definition set_successor (x p : Z) (s : rbtree) : rbtree :=
  let h := hooks s x in set_hook x (mk_hook (h_parent h) (h_left h) (h_right h) p (h_predecessor h) (h_colour h)) s.
Definition set_predecessor (x p : Z) (s : rbtree) : rbtree :=
  let h := hooks s x in set_hook x (mk_hook (h_parent h) (h_left h) (h_right h) (h_successor h) p (h_colour h)) s.
Definition set_colour (x : Z) (c : colour) (s : rbtree) : rbtree :=
  let h := hooks s x in set_hook x (mk_hook (h_parent h) (h_left h) (h_right h) (h_successor h) (h_predecessor h) c) s.
Definition is_red (x : Z) (s : rbtree) : bool := bool_decide (colour_of x s = Red).

(** The parent of [x], or the tree, gets [y] in place of [x]. *)
Definition replace_child (d : side) (x y : Z) (s : rbtree) : rbtree :=
  if parent x s =? nil then set_root y s
  else if x =? kid d (parent x s) s then set_kid d (parent x s) y s
  else set_kid (flip d) (parent x s) y s.
(** [rotate_left] for [d = L], [rotate_right] for [d = R]. *)
Definition rotate (d : side) (x : Z) (s : rbtree) : outcome rbtree :=
  _ ← bug_on ((kid (flip d) x s =? nil) || negb (parent (root s) s =? nil));
  let y := kid (flip d) x s in
  let b := kid d y s in
  let s := set_kid (flip d) x b s in
  let s := if b =? nil then s else set_parent (kid d y s) x s in
  let s := set_parent y (parent x s) s in
  let s := replace_child d x y s in
  let s := set_kid d y x s in
  Done (set_parent x y s).

(** The loop of [insert_fixup]. *)
Fixpoint insert_fixup_loop (fuel : nat) (z : Z) (s : rbtree) : outcome rbtree :=
  match fuel with
  | O => Hang
  | S fuel =>
      if negb (is_red (parent z s) s) then Done s else
      let d := if parent z s =? kid L (parent (parent z s) s) s then L else R in
      let y := kid (flip d) (parent (parent z s) s) s in
      if is_red y s then
        let s := set_colour (parent z s) Black s in
        let s := set_colour y Black s in
        let s := set_colour (parent (parent z s) s) Red s in
        insert_fixup_loop fuel (parent (parent z s) s) s
      else
        '(z, s) ← (if z =? kid (flip d) (parent z s) s
                   then let z := parent z s in s ← rotate d z s; Done (z, s)
                   else Done (z, s));
        let s := set_colour (parent z s) Black s in
        let s := set_colour (parent (parent z s) s) Red s in
        s ← rotate (flip d) (parent (parent z s) s) s;
        insert_fixup_loop fuel z s
  end.
Definition insert_fixup (fuel : nat) (z : Z) (s : rbtree) : outcome rbtree :=
  s ← insert_fixup_loop fuel z s; Done (set_colour (root s) Black s).

Section order.
(** [_less] on the objects at two addresses *)
Context (less : Z → Z → bool).

(** The walk of [_insert]: the node below which [z] goes. *)
Fixpoint find_place (fuel : nat) (z x y : Z) (s : rbtree) : outcome Z :=
  match fuel with
  | O => Hang
  | S fuel => if x =? nil then Done y else find_place fuel z (kid (if less z x then L else R) x s) x s
  end.
(** [z] becomes the child of [y] on side [d] and its neighbour in the list. *)
Definition link_before (z y : Z) (s : rbtree) : rbtree :=
  let s := set_kid L y z s in
  let s := set_successor z y s in
  let prev := predecessor y s in
  let s := set_predecessor z prev s in
  let s := if prev =? nil then s else set_successor prev z s in
  set_predecessor y z s.
Definition link_after (z y : Z) (s : rbtree) : rbtree :=
  let s := set_kid R y z s in
  let s := set_predecessor z y s in
  let succ := successor y s in
  let s := set_successor z succ s in
  let s := if succ =? nil then s else set_predecessor succ z s in
  set_successor y z s.
Definition _insert (fuel : nat) (z : Z) (s : rbtree) : outcome rbtree :=
  _ ← bug_on (z =? nil);
  y ← find_place fuel z (root s) nil s;
  let s := set_parent z y s in
  let s := if y =? nil then set_root z s else if less z y then link_before z y s else link_after z y s in
  let s := set_kid L z nil s in
  let s := set_kid R z nil s in
  let s := set_colour z Red s in
  let s := if (head s =? nil) || less z (head s) then set_head z s else s in
  insert_fixup fuel z s.
Definition insert (fuel : nat) (z : Z) (s : rbtree) : outcome rbtree :=
  _ ← bug_on (z =? nil);
  let s := set_hook nil new_hook s in
  let s := set_hook z new_hook s in
  s ← (if root s =? nil then Done (set_head z (set_root z s)) else _insert fuel z s);
  Done (set_size (w64 (size s + 1)) s).

(** [contains] for the object at [x], of which only the order is used. *)
Fixpoint contains_loop (fuel : nat) (x current : Z) (s : rbtree) : outcome bool :=
  match fuel with
  | O => Hang
  | S fuel =>
      if current =? nil then Done false else
      if negb (less current x) && negb (less x current) then Done true else
      contains_loop fuel x (kid (if less x current then L else R) current s) s
  end.
Definition contains (fuel : nat) (x : Z) (s : rbtree) : outcome bool := contains_loop fuel x (root s) s.
End order.

Definition transplant (u v : Z) (s : rbtree) : rbtree :=
  let s := replace_child L u v s in
  set_parent v (parent u s) s.

(** [minimum] for [d = L], [maximum] for [d = R] *)
Fixpoint extreme (fuel : nat) (d : side) (x : Z) (s : rbtree) : outcome Z :=
  match fuel with
  | O => Hang
  | S fuel => if kid d x s =? nil then Done x else extreme fuel d (kid d x s) s
  end.
Definition minimum (fuel : nat) (x : Z) (s : rbtree) : outcome Z := _ ← bug_on (x =? nil); extreme fuel L x s.
Definition maximum (fuel : nat) (x : Z) (s : rbtree) : outcome Z := _ ← bug_on (x =? nil); extreme fuel R x s.

(** The loop of [_remove_fixup]; the node it stops at. *)
Fixpoint remove_fixup_loop (fuel : nat) (x : Z) (s : rbtree) : outcome (Z * rbtree) :=
  match fuel with
  | O => Hang
  | S fuel =>
      if (x =? root s) || is_red x s then Done (x, s) else
      let d := if x =? kid L (parent x s) s then L else R in
      let w := kid (flip d) (parent x s) s in
      '(w, s) ← (if is_red w s
                 then let s := set_colour w Black s in
                      let s := set_colour (parent x s) Red s in
                      s ← rotate d (parent x s) s;
                      Done (kid (flip d) (parent x s) s, s)
                 else Done (w, s));
      if negb (is_red (kid d w s) s) && negb (is_red (kid (flip d) w s) s) then
        let s := set_colour w Red s in
        remove_fixup_loop fuel (parent x s) s
      else
        '(w, s) ← (if negb (is_red (kid (flip d) w s) s)
                   then let s := set_colour (kid d w s) Black s in
                        let s := set_colour w Red s in
                        s ← rotate (flip d) w s;
                        Done (kid (flip d) (parent x s) s, s)
                   else Done (w, s));
        let s := set_colour w (colour_of (parent x s) s) s in
        let s := set_colour (parent x s) Black s in
        let s := set_colour (kid (flip d) w s) Black s in
        s ← rotate d (parent x s) s;
        remove_fixup_loop fuel (root s) s
  end.
Definition _remove_fixup (fuel : nat) (x : Z) (s : rbtree) : outcome rbtree :=
  '(x, s) ← remove_fixup_loop fuel x s; Done (set_colour x Black s).

(** The first part of [_remove]: [z] leaves the list. *)
Definition unlink_neighbours (z : Z) (s : rbtree) : outcome rbtree :=
  let pred := predecessor z s in
  let succ := successor z s in
  _ ← bug_on (negb (pred =? nil) && negb (successor pred s =? z));
  _ ← bug_on (negb (succ =? nil) && negb (predecessor succ s =? z));
  let s := if pred =? nil then set_head succ s else set_successor pred succ s in
  let s := if succ =? nil then s else set_predecessor succ pred s in
  let s := if head s =? z then set_head (if succ =? nil then pred else succ) s else s in
  Done (set_successor z nil (set_predecessor z nil s)).
(** [z] leaves the tree: the node that takes the place of the one that is gone, the colour
    that is gone. *)
Definition detach (fuel : nat) (z : Z) (s : rbtree) : outcome (Z * colour * rbtree) :=
  if kid L z s =? nil then
    let x := kid R z s in let c := colour_of z s in Done (x, c, transplant z (kid R z s) s)
  else if kid R z s =? nil then
    let x := kid L z s in let c := colour_of z s in Done (x, c, transplant z (kid L z s) s)
  else
    y ← minimum fuel (kid R z s) s;
    let c := colour_of y s in
    let x := kid R y s in
    let s := if negb (y =? kid R z s) then
               let s := transplant y (kid R y s) s in
               let s := set_kid R y (kid R z s) s in
               set_parent (kid R y s) y s
             else set_parent x y s in
    let s := transplant z y s in
    let s := set_kid L y (kid L z s) s in
    let s := set_parent (kid L y s) y s in
    Done (x, c, set_colour y (colour_of z s) s).
Definition _remove (fuel : nat) (z : Z) (s : rbtree) : outcome rbtree :=
  _ ← bug_on (z =? nil);
  s ← unlink_neighbours z s;
  '(x, c, s) ← detach fuel z s;
  s ← (if bool_decide (c = Black) then _remove_fixup fuel x s else Done s);
  if root s =? nil then Done (set_head nil s) else
  _ ← bug_on ((head s =? nil) || negb (predecessor (head s) s =? nil));
  Done s.
Definition remove (fuel : nat) (x : Z) (s : rbtree) : outcome rbtree :=
  _ ← bug_on (x =? nil);
  s ← _remove fuel x (set_hook nil new_hook s);
  _ ← bug_on (size s =? 0);
  Done (set_size (w64 (size s - 1)) s).

Definition first (s : rbtree) : Z := head s.
Definition last (fuel : nat) (s : rbtree) : outcome Z :=
  if root s =? nil then Done nil else maximum fuel (root s) (set_hook nil new_hook s).
(** From [begin] to [end], and from a node back to the first. *)
Fixpoint iterate (fuel : nat) (x : Z) (s : rbtree) : outcome (list Z) :=
  match fuel with
  | O => Hang
  | S fuel => if x =? nil then Done [] else l ← iterate fuel (successor x s) s; Done (x :: l)
  end.
Definition empty (s : rbtree) : bool := size s =? 0.
