(* ===== verification/RbTrees.v ===== *)
(** Red-black trees as values: the paths from the root, what the loops of [Rbtree.v] do to a
    tree seen from the node they stand at, and that this keeps the order and the balance. *)

From S2P Require Import Prelude Math Rbtree.

Inductive tree := Leaf | Node (c : colour) (l : tree) (x : Z) (r : tree).
#[export] Instance tree_eq_dec : EqDecision tree.
Proof. solve_decision. Defined.
Definition ptr (t : tree) : Z := match t with Leaf => nil | Node _ _ x _ => x end.
Definition colour_at (t : tree) : colour := match t with Leaf => Black | Node c _ _ _ => c end.
Fixpoint inorder (t : tree) : list Z := match t with Leaf => [] | Node _ l x r => inorder l ++ x :: inorder r end.
Definition paint (c : colour) (t : tree) : tree := match t with Leaf => Leaf | Node _ l x r => Node c l x r end.
Fixpoint height (t : tree) : nat := match t with Leaf => O | Node _ l _ r => S (Nat.max (height l) (height r)) end.

(** The node [x] with the subtree [a] on side [d] and [b] on the other. *)
Definition mk (d : side) (c : colour) (a : tree) (x : Z) (b : tree) : tree :=
  match d with L => Node c a x b | R => Node c b x a end.
Definition kid_of (d : side) (t : tree) : tree :=
  match t with Leaf => Leaf | Node _ l _ r => match d with L => l | R => r end end.

(** The way from a subtree to the root: on which side of which node it is, and the other
    subtree of that node. *)
Record frame := mk_frame { f_side : side; f_colour : colour; f_key : Z; f_other : tree }.
Abbreviation ctx := (list frame).
Definition plug1 (f : frame) (t : tree) : tree := mk (f_side f) (f_colour f) t (f_key f) (f_other f).
Fixpoint plug (k : ctx) (t : tree) : tree := match k with [] => t | f :: k => plug k (plug1 f t) end.

Lemma flip_flip d : flip (flip d) = d.
Proof. by destruct d. Qed.
Lemma flip_ne d : flip d ≠ d.
Proof. by destruct d. Qed.
Lemma other_side d d' : d' ≠ d → d' = flip d.
Proof. by destruct d, d'. Qed.
Lemma mk_flip d c a x b : mk (flip d) c a x b = mk d c b x a.
Proof. by destruct d. Qed.
Lemma node_mk d c l x r : Node c l x r = mk d c (kid_of d (Node c l x r)) x (kid_of (flip d) (Node c l x r)).
Proof. by destruct d. Qed.
Lemma ptr_mk d c a x b : ptr (mk d c a x b) = x.
Proof. by destruct d. Qed.
Lemma colour_mk d c a x b : colour_at (mk d c a x b) = c.
Proof. by destruct d. Qed.
Lemma paint_mk d c c' a x b : paint c' (mk d c a x b) = mk d c' a x b.
Proof. by destruct d. Qed.
Lemma other_colour c : c ≠ Red → c = Black.
Proof. by destruct c. Qed.
Lemma mk_not_leaf d c a x b : mk d c a x b ≠ Leaf.
Proof. by destruct d. Qed.
Lemma tree_cases d t : t = Leaf ∨ ∃ c a x b, t = mk d c a x b.
Proof. destruct t as [|c l x r]; [by left|right]. destruct d; [by exists c, l, x, r|by exists c, r, x, l]. Qed.
Lemma plug_app k k' t : plug (k ++ k') t = plug k' (plug k t).
Proof. revert t. induction k as [|f k IH]; intros t; [done|]. simpl. apply IH. Qed.

(** * Order *)
Definition before (f : frame) : list Z := match f_side f with L => [] | R => inorder (f_other f) ++ [f_key f] end.
Definition after (f : frame) : list Z := match f_side f with L => f_key f :: inorder (f_other f) | R => [] end.
Fixpoint all_before (k : ctx) : list Z := match k with [] => [] | f :: k => all_before k ++ before f end.
Fixpoint all_after (k : ctx) : list Z := match k with [] => [] | f :: k => after f ++ all_after k end.
Lemma inorder_plug1 f t : inorder (plug1 f t) = before f ++ inorder t ++ after f.
Proof. destruct f as [[] c x s]; unfold before, after; simpl; [done|]. by rewrite app_nil_r, <-app_assoc. Qed.
Lemma inorder_plug k t : inorder (plug k t) = all_before k ++ inorder t ++ all_after k.
Proof.
  revert t. induction k as [|f k IH]; intros t; simpl; [by rewrite app_nil_r|]. rewrite IH, inorder_plug1. by rewrite <-!app_assoc.
Qed.
Lemma inorder_plug_eq k t t' : inorder t = inorder t' → inorder (plug k t) = inorder (plug k t').
Proof. intros E. by rewrite !inorder_plug, E. Qed.
Lemma inorder_paint c t : inorder (paint c t) = inorder t.
Proof. by destruct t. Qed.
Lemma inorder_rotate d c c' c1 c2 a x b y e : inorder (mk d c a x (mk d c' b y e)) = inorder (mk d c1 (mk d c2 a x b) y e).
Proof. destruct d; simpl; by rewrite <-!app_assoc. Qed.

(** * Balance *)

(** [rbt t c n]: a red-black tree with a root of colour [c] and [n] black nodes on every way. *)
Inductive rbt : tree → colour → nat → Prop :=
  | rbt_leaf : rbt Leaf Black 0
  | rbt_red l x r n : rbt l Black n → rbt r Black n → rbt (Node Red l x r) Red n
  | rbt_black l x r c c' n : rbt l c n → rbt r c' n → rbt (Node Black l x r) Black (S n).
(** Where a tree of height [n] with a root of colour [c] can be put. *)
Inductive crb : ctx → colour → nat → Prop :=
  | crb_top n : crb [] Black n
  | crb_red d x s k n : rbt s Black n → crb k Red n → crb (mk_frame d Red x s :: k) Black n
  | crb_black d x s k c a n : rbt s c n → crb k a (S n) → crb (mk_frame d Black x s :: k) Red n.
#[local] Hint Constructors rbt crb : core.

Lemma crb_inv_red d x s k a n : crb (mk_frame d Red x s :: k) a n → a = Black ∧ rbt s Black n ∧ crb k Red n.
Proof. intros Hk; by inversion Hk. Qed.
Lemma crb_inv_black d x s k a n : crb (mk_frame d Black x s :: k) a n → a = Red ∧ ∃ c a', rbt s c n ∧ crb k a' (S n).
Proof. intros Hk; inversion Hk; subst; eauto. Qed.
Lemma crb_red_parent f k n : crb (f :: k) Red n → f_colour f = Black.
Proof. intros Hk; by inversion Hk. Qed.
Lemma rbt_colour t c n : rbt t c n → c = colour_at t.
Proof. by intros []. Qed.
Lemma rbt_mk_red d a x b n : rbt a Black n → rbt b Black n → rbt (mk d Red a x b) Red n.
Proof. destruct d; simpl; eauto. Qed.
Lemma rbt_mk_black d a x b c c' n : rbt a c n → rbt b c' n → rbt (mk d Black a x b) Black (S n).
Proof. destruct d; simpl; eauto. Qed.
#[local] Hint Resolve rbt_mk_red rbt_mk_black : core.
Lemma rbt_inv_red d a x b c n : rbt (mk d Red a x b) c n → c = Red ∧ rbt a Black n ∧ rbt b Black n.
Proof. destruct d; simpl; intros Ht; inversion Ht; eauto. Qed.
Lemma rbt_inv_black d a x b c n : rbt (mk d Black a x b) c n → ∃ m c1 c2, c = Black ∧ n = S m ∧ rbt a c1 m ∧ rbt b c2 m.
Proof. destruct d; simpl; intros Ht; inversion Ht; subst; eauto 9. Qed.
Lemma rbt_paint t c n : rbt t c n → ∃ m, rbt (paint Black t) Black m.
Proof. intros []; simpl; eauto. Qed.

(** A tree that fits makes a tree; where red fits, black does. *)
Lemma crb_plug k : ∀ a n t c, crb k a n → rbt t c n → (c = Red → a = Red) → ∃ m, rbt (plug k t) Black m.
Proof.
  induction k as [|f k IH]; intros a n t c Hk Ht Hc; inversion Hk; subst; simpl.
  - destruct c; [by specialize (Hc eq_refl)|eauto].
  - apply (IH Red n _ Red); [done| |done]. destruct c; [by specialize (Hc eq_refl)|]. unfold plug1. simpl. eauto.
  - eapply (IH a0 (S n) _ Black); [done| |done]. unfold plug1. simpl. eauto.
Qed.
(** Where a tree hangs in a red-black tree. *)
Lemma rbt_plug k : ∀ t n, rbt (plug k t) Black n → ∃ a c m, rbt t c m ∧ crb k a m ∧ (c = Red → a = Red).
Proof.
  induction k as [|f k IH]; intros t n Ht; simpl in Ht; [exists Black, Black, n; eauto|].
  destruct (IH _ _ Ht) as (a & c & m & Hf & Hk & Hc). destruct f as [d [] x s]; unfold plug1 in Hf; simpl in Hf.
  - apply rbt_inv_red in Hf as (-> & Ha & Hb). rewrite Hc in Hk by done. exists Black, Black, m. eauto.
  - apply rbt_inv_black in Hf as (m' & c1 & c2 & -> & -> & Ha & Hb). exists Red, c1, m'. eauto.
Qed.

(** * Insertion *)

(** The grandparent [g] of the red node [t] below the red node [p] after the rotations; [u] is
    black. *)
Definition rebalance (d1 d2 : side) (t : tree) (p : Z) (s1 : tree) (g : Z) (u : tree) : tree :=
  if decide (d1 = d2) then mk d2 Black t p (mk d2 Red s1 g u)
  else match t with
       | Leaf => mk d2 Black (mk d1 Red t p s1) g u
       | Node ct _ z _ => mk d2 Black (mk d2 Red s1 p (kid_of d2 t)) z (mk d2 Red (kid_of (flip d2) t) g u)
       end.
(** The loop of [insert_fixup] from the red node [t]. *)
Fixpoint fix_up (k : ctx) (t : tree) : tree :=
  match k with
  | f1 :: ((f2 :: k) as k1) =>
      if decide (f_colour f1 = Red) then
        if decide (colour_at (f_other f2) = Red)
        then fix_up k (mk (f_side f2) Red (mk (f_side f1) Black t (f_key f1) (f_other f1)) (f_key f2) (paint Black (f_other f2)))
        else plug k (rebalance (f_side f1) (f_side f2) t (f_key f1) (f_other f1) (f_key f2) (f_other f2))
      else plug (f1 :: k1) t
  | _ => plug k t
  end.

Lemma inorder_rebalance d1 c1 p s1 d2 c2 g u t :
  inorder (rebalance d1 d2 t p s1 g u) = inorder (plug [mk_frame d1 c1 p s1; mk_frame d2 c2 g u] t).
Proof.
  unfold rebalance. destruct t; destruct d1, d2; simpl; unfold plug1; simpl; rewrite <-?app_assoc; simpl; by rewrite <-?app_assoc.
Qed.
Lemma inorder_fix_up n : ∀ k t, (length k ≤ n)%nat → inorder (fix_up k t) = inorder (plug k t).
Proof.
  induction n as [|n IH]; intros k t Hn; [by destruct k; [|simpl in Hn; lia]|].
  destruct k as [|f1 [|f2 k]]; [done..|]. simpl in Hn. cbn [fix_up]. destruct (decide _); [|done]. destruct (decide _).
  - rewrite IH by lia. apply (inorder_plug_eq k). destruct f1 as [[] c1 p s1], f2 as [[] c2 g u]; unfold plug1; simpl; by rewrite inorder_paint.
  - apply (inorder_plug_eq k). destruct f1 as [d1 c1 p s1], f2 as [d2 c2 g u]. simpl. apply (inorder_rebalance d1 c1 p s1 d2 c2 g u t).
Qed.

Definition red_node (t : tree) (n : nat) : Prop := ∃ d a x b, t = mk d Red a x b ∧ rbt a Black n ∧ rbt b Black n.
Lemma red_node_rbt t n : red_node t n → rbt t Red n.
Proof. intros (d & a & x & b & -> & ? & ?). eauto. Qed.
Lemma rbt_red_node t n : rbt t Red n → red_node t n.
Proof. intros Ht. inversion Ht; subst. by exists L, l, x, r. Qed.

Lemma rebalance_ok d1 d2 t p s1 g u n c : c = Black → rbt t Red n → rbt s1 Black n → rbt u c n →
  rbt (rebalance d1 d2 t p s1 g u) Black (S n).
Proof.
  intros -> Ht Hs Hu. unfold rebalance. destruct (decide _); [eauto|].
  destruct (rbt_red_node t n Ht) as (d & a & z & b & -> & Ha & Hb). destruct d, d2; simpl; eauto 9.
Qed.
(** Insertion keeps the tree red-black, whatever colour the root ends up with. *)
Lemma fix_up_ok m : ∀ k t a n, (length k ≤ m)%nat → crb k a n → rbt t Red n → ∃ n', rbt (paint Black (fix_up k t)) Black n'.
Proof.
  induction m as [|m IH]; intros k t a n Hm Hk Ht.
  { destruct k; [|simpl in Hm; lia]. simpl. eapply rbt_paint, Ht. }
  assert (a = Red → ∃ n', rbt (paint Black (plug k t)) Black n') as Hdone.
  { intros ->. destruct (crb_plug k Red n t Red Hk Ht) as [n' Hn']; [done|]. by eapply rbt_paint. }
  destruct k as [|f1 k]; [simpl; eapply rbt_paint, Ht|]. inversion Hk as [|d x s k1 n1 Hs Hk1|d x s k1 c a1 n1 Hs Hk1]; subst.
  2: { specialize (Hdone eq_refl). destruct k as [|f2 k]; exact Hdone. }
  inversion Hk1 as [| |d2 g u k2 c a2 n1 Hu Hk2]; subst. cbn [fix_up f_colour f_side f_key f_other]. rewrite decide_True by done.
  simpl in Hm. destruct (decide (colour_at u = Red)) as [E|E].
  - rewrite <-(rbt_colour _ _ _ Hu) in E. subst c. eapply (IH _ _ a2 (S n)); [lia|done|].
    apply rbt_mk_red; [eauto|]. inversion Hu; subst. simpl. eauto.
  - rewrite <-(rbt_colour _ _ _ Hu) in E. assert (c = Black) as -> by (by destruct c).
    destruct (crb_plug k2 a2 (S n) (rebalance d d2 t x s g u) Black Hk2) as [n' Hn']; [by eapply rebalance_ok|done|]. by eapply rbt_paint.
Qed.

(** * Removal *)

(** The subtree of the node [p] of colour [c] whose subtree [t] on side [d] lacks a black node,
    for a sibling [w] that is black; whether the new subtree still lacks one. *)
Definition refill (d : side) (c : colour) (t : tree) (p : Z) (w : tree) : tree * bool :=
  let near := kid_of d w in
  let far := kid_of (flip d) w in
  if decide (colour_at far = Red) then (mk d c (mk d Black t p near) (ptr w) (paint Black far), false)
  else if decide (colour_at near = Red) then
    (mk d c (mk d Black t p (kid_of d near)) (ptr near) (mk d Black (kid_of (flip d) near) (ptr w) far), false)
  else (mk d c t p (paint Red w), true).
(** [_remove_fixup] from the subtree [t]. *)
Fixpoint fill_up (k : ctx) (t : tree) : tree :=
  if decide (colour_at t = Red) then plug k (paint Black t) else
  match k with
  | [] => t
  | mk_frame d c p w :: k =>
      if decide (colour_at w = Red) then
        let '(t, up) := refill d Red t p (kid_of d w) in
        plug (mk_frame d Black (ptr w) (kid_of (flip d) w) :: k) (if (up : bool) then paint Black t else t)
      else
        let '(t, up) := refill d c t p w in
        if (up : bool) then fill_up k t else plug k t
  end.

Lemma inorder_refill d c t p w : w ≠ Leaf → inorder (refill d c t p w).1 = inorder (mk d c t p w).
Proof.
  intros Hw. unfold refill. destruct w as [|cw wl x wr]; [done|]. destruct (decide _) as [E|E]; simpl in *.
  - destruct d; simpl; rewrite ?inorder_paint, <-?app_assoc; done.
  - destruct (decide _) as [E'|E']; simpl in *; [|by destruct d].
    destruct d; [destruct wl as [|cn nl y nr]|destruct wr as [|cn nl y nr]]; try done; simpl; rewrite <-?app_assoc; simpl; by rewrite <-?app_assoc.
Qed.

(** The sibling of a subtree that lacks a black node is not empty. *)
Definition sibling_ok (w : tree) : Prop := w ≠ Leaf ∧ (colour_at w = Red → ∀ d, kid_of d w ≠ Leaf).
Lemma rbt_height_not_leaf t c n : rbt t c (S n) → t ≠ Leaf.
Proof. by intros Ht ->; inversion Ht. Qed.
Lemma rbt_sibling_ok w c n : rbt w c (S n) → sibling_ok w.
Proof.
  intros Hw. split; [by eapply rbt_height_not_leaf|]. intros E d. destruct w as [|cw l x r]; [done|]. simpl in E. subst cw.
  inversion Hw; subst. destruct d; by eapply rbt_height_not_leaf.
Qed.
Lemma rbt_kid d c l x r n : rbt (Node Red l x r) c n → rbt (kid_of d (Node Red l x r)) Black n.
Proof. intros Ht; inversion Ht; subst. by destruct d. Qed.
Lemma rbt_kid_black d c l x r n : rbt (Node Black l x r) c n → ∃ m c1, n = S m ∧ rbt (kid_of d (Node Black l x r)) c1 m.
Proof. intros Ht; inversion Ht; subst. destruct d; simpl; eauto. Qed.

(** [refill] below a node of colour [c]: either the tree is whole again, and its root has the
    colour [c], or it lacks a black node. *)
Lemma refill_ok d c t p w n : rbt t Black n → rbt w Black (S n) →
  let '(t', up) := refill d c t p w in
  if up then rbt (paint Black t') Black (S n) ∧ colour_at t' = c
  else match c with Red => rbt t' Red (S n) | Black => rbt t' Black (S (S n)) end.
Proof.
  intros Ht Hw. destruct w as [|[] wl x wr]; [by inversion Hw|by inversion Hw|].
  destruct (rbt_kid_black d _ _ _ _ _ Hw) as (m & c1 & [= <-] & Hn).
  destruct (rbt_kid_black (flip d) _ _ _ _ _ Hw) as (m & c2 & [= <-] & Hf). unfold refill.
  set (near := kid_of d _) in *. set (far := kid_of (flip d) _) in *. destruct (decide _) as [E|E].
  - rewrite <-(rbt_colour _ _ _ Hf) in E. subst c2. assert (rbt (paint Black far) Black (S n)) by (inversion Hf; simpl; eauto).
    destruct c; eauto.
  - destruct (decide _) as [E'|E'].
    + rewrite <-(rbt_colour _ _ _ Hn) in E'. subst c1. assert (c2 = Black) as -> by (rewrite <-(rbt_colour _ _ _ Hf) in E; by destruct c2).
      destruct (rbt_red_node near n Hn) as (d' & a & y & b & -> & Ha & Hb).
      destruct c, d, d'; simpl; eauto 9.
    + rewrite <-(rbt_colour _ _ _ Hn) in E'. rewrite <-(rbt_colour _ _ _ Hf) in E.
      assert (c1 = Black) as -> by (by destruct c1). assert (c2 = Black) as -> by (by destruct c2).
      rewrite paint_mk, colour_mk. split; [|done]. apply rbt_mk_black with (c := Black) (c' := Red); [done|].
      inversion Hw; subst. simpl. destruct d; simpl in *; eauto.
Qed.
Lemma paint_same t : paint (colour_at t) t = t.
Proof. by destruct t. Qed.
(** Removal keeps the tree red-black: [t] has one black node less than its place asks for. *)
Lemma fill_up_ok k : ∀ t a c n, crb k a (S n) → rbt t c n → ∃ m, rbt (fill_up k t) Black m.
Proof.
  induction k as [|[d cf p w] k IH]; intros t a c n Hk Ht; cbn [fill_up]; rewrite <-(rbt_colour _ _ _ Ht).
  - destruct (decide _); [|exists n; by destruct c]. simpl. by eapply rbt_paint.
  - destruct (decide _) as [->|Ec].
    { apply (crb_plug (_ :: k) a (S n) _ Black); [exact Hk| |done]. inversion Ht; subst. simpl. by eapply rbt_black. }
    assert (c = Black) as -> by (by destruct c). inversion Hk as [|? ? ? ? ? Hw Hk'|? ? ? ? cw a1 ? Hw Hk']; subst.
    + rewrite <-(rbt_colour _ _ _ Hw). rewrite decide_False by done.
      pose proof (refill_ok d Red t p w n Ht Hw) as Hr. destruct (refill d Red t p w) as [t' []].
      * destruct Hr as [Hr Hct]. assert (fill_up k t' = plug k (paint Black t')) as ->.
        { destruct k; cbn [fill_up]; by rewrite decide_True. }
        by eapply crb_plug.
      * by eapply crb_plug.
    + rewrite <-(rbt_colour _ _ _ Hw). destruct (decide _) as [->|Ew].
      * destruct w as [|cw wl x wr]; [by inversion Hw|]. inversion Hw; subst.
        assert (rbt (kid_of d (Node Red wl x wr)) Black (S n)) as Hn by (by destruct d).
        assert (rbt (kid_of (flip d) (Node Red wl x wr)) Black (S n)) as Hf by (by destruct d).
        pose proof (refill_ok d Red t p _ n Ht Hn) as Hr. destruct (refill d Red t p _) as [t' up].
        assert (crb (mk_frame d Black x (kid_of (flip d) (Node Red wl x wr)) :: k) Red (S n)) as Hc by eauto.
        destruct up; [apply (crb_plug _ Red (S n) _ Black); [exact Hc|apply Hr|done]|apply (crb_plug _ Red (S n) _ Red); [exact Hc|exact Hr|done]].
      * assert (cw = Black) as -> by (by destruct cw).
        pose proof (refill_ok d Black t p w n Ht Hw) as Hr. destruct (refill d Black t p w) as [t' []].
        -- destruct Hr as [Hr Hct]. rewrite <-Hct, paint_same in Hr. by eapply IH.
        -- by eapply crb_plug.
Qed.
Lemma inorder_fill_up k : ∀ t a c n, crb k a (S n) → rbt t c n → inorder (fill_up k t) = inorder (plug k t).
Proof.
  induction k as [|[d cf p w] k IH]; intros t a c n Hk Ht; cbn [fill_up]; rewrite <-(rbt_colour _ _ _ Ht).
  - destruct (decide _); [|done]. apply inorder_paint.
  - destruct (decide _) as [->|Ec]; [apply (inorder_plug_eq (_ :: k)), inorder_paint|].
    assert (c = Black) as -> by (by destruct c).
    assert (∃ cw, rbt w cw (S n)) as [cw Hw] by (inversion Hk; eauto). destruct (rbt_sibling_ok w cw n Hw) as [Hwl Hwk].
    rewrite <-(rbt_colour _ _ _ Hw). destruct (decide _) as [->|Ew].
    + assert (colour_at w = Red) as Ecw by by rewrite <-(rbt_colour _ _ _ Hw). specialize (Hwk Ecw d).
      pose proof (inorder_refill d Red t p (kid_of d w) Hwk) as Hi. destruct (refill d Red t p (kid_of d w)) as [t' up]. simpl in Hi.
      apply (inorder_plug_eq k). unfold plug1; simpl. destruct w as [|cw wl x wr]; [done|].
      assert (inorder (if up then paint Black t' else t') = inorder t') as Hp by (destruct up; [apply inorder_paint|done]).
      destruct d; simpl in *; rewrite Hp, Hi; by rewrite <-!app_assoc.
    + pose proof (inorder_refill d cf t p w Hwl) as Hi. pose proof (refill_ok d cf t p w n Ht) as Hr.
      rewrite (other_colour cw Ew) in Hw. specialize (Hr Hw). destruct (refill d cf t p w) as [t' []]; simpl in Hi; [|by apply (inorder_plug_eq k)].
      destruct Hr as [Hr Hct]. transitivity (inorder (plug k t')); [|by apply (inorder_plug_eq k)].
      destruct cf.
      * assert (fill_up k t' = plug k (paint Black t')) as ->.
        { destruct k; cbn [fill_up]; by rewrite decide_True. }
        apply inorder_plug_eq, inorder_paint.
      * rewrite <-Hct, paint_same in Hr. inversion Hk; subst. by eapply IH.
Qed.

(** The node of the left end of a tree, its colour and right subtree, and the way to it. *)
Fixpoint leftmost (k : ctx) (c : colour) (l : tree) (x : Z) (r : tree) : ctx * colour * Z * tree :=
  match l with
  | Leaf => (k, c, x, r)
  | Node c' l' x' r' => leftmost (mk_frame L c x r :: k) c' l' x' r'
  end.
Lemma leftmost_plug l : ∀ k c x r k' c' y r', leftmost k c l x r = (k', c', y, r') →
  plug k' (Node c' Leaf y r') = plug k (Node c l x r).
Proof.
  induction l as [|cl ll IH xl rl _]; intros k c x r k' c' y r' E; simpl in E; [by injection E as <- <- <- <-|].
  rewrite (IH _ _ _ _ _ _ _ _ E). done.
Qed.
Lemma leftmost_ctx l : ∀ k c x r k' c' y r', leftmost k c l x r = (k', c', y, r') →
  ∃ k1, k' = k1 ++ k ∧ Forall (λ f, f_side f = L) k1 ∧ (k1 = [] ↔ l = Leaf) ∧
    plug k1 (Node c' Leaf y r') = Node c l x r.
Proof.
  induction l as [|cl ll IH xl rl _]; intros k c x r k' c' y r' E; simpl in E.
  - injection E as <- <- <- <-. exists []. done.
  - destruct (IH _ _ _ _ _ _ _ _ E) as (k1 & -> & Hl & _ & Hp). exists (k1 ++ [mk_frame L c x r]).
    rewrite <-app_assoc. split; [done|]. split; [apply Forall_app; split; [done|by constructor]|].
    split; [split; [intros Heq; by destruct k1|done]|]. rewrite plug_app, Hp. done.
Qed.
