(* ===== verification/RbtreeRep.v ===== *)
(** How the nodes represent a tree, and what a rotation, a change of colour and a
    transplantation do to it. *)

From S2P Require Import Prelude Math Rbtree RbTrees.

Definition same_shape (h h' : rbtree_hook) : Prop :=
  h_parent h' = h_parent h ∧ h_left h' = h_left h ∧ h_right h' = h_right h ∧ h_colour h' = h_colour h.
Lemma same_shape_refl h : same_shape h h.
Proof. done. Qed.
Lemma same_shape_kid d h h' : same_shape h h' → h_kid d h' = h_kid d h.
Proof. intros (_ & ? & ? & _). by destruct d. Qed.

(** The subtree [t] hangs below [par]. *)
Fixpoint rep (h : Z → rbtree_hook) (t : tree) (par : Z) : Prop :=
  match t with
  | Leaf => True
  | Node c l x r => x ≠ nil ∧ h_parent (h x) = par ∧ h_left (h x) = ptr l ∧ h_right (h x) = ptr r ∧ h_colour (h x) = c ∧
      rep h l x ∧ rep h r x
  end.
Definition par_of (k : ctx) : Z := match k with [] => nil | f :: _ => f_key f end.
(** The tree around a subtree with the address [p]. *)
Fixpoint rep_ctx (h : Z → rbtree_hook) (k : ctx) (p rt : Z) : Prop :=
  match k with
  | [] => rt = p
  | f :: k => let x := f_key f in
      x ≠ nil ∧ h_parent (h x) = par_of k ∧ h_kid (f_side f) (h x) = p ∧ h_kid (flip (f_side f)) (h x) = ptr (f_other f) ∧
      h_colour (h x) = f_colour f ∧ rep h (f_other f) x ∧ rep_ctx h k x rt
  end.
Fixpoint ctx_keys (k : ctx) : list Z := match k with [] => [] | f :: k => f_key f :: inorder (f_other f) ++ ctx_keys k end.

Lemma inorder_mk d c a x b : inorder (mk d c a x b) ≡ₚ x :: inorder a ++ inorder b.
Proof. destruct d; simpl; rewrite <-Permutation_middle; [done|]. by rewrite (Permutation_app_comm (inorder b)). Qed.
Lemma plug_keys k : ∀ t, inorder (plug k t) ≡ₚ inorder t ++ ctx_keys k.
Proof.
  induction k as [|f k IH]; intros t; simpl; [by rewrite app_nil_r|]. rewrite IH. unfold plug1. rewrite inorder_mk.
  rewrite <-Permutation_middle, app_assoc. done.
Qed.

Lemma rep_mk h d c a x b par : rep h (mk d c a x b) par ↔
  x ≠ nil ∧ h_parent (h x) = par ∧ h_kid d (h x) = ptr a ∧ h_kid (flip d) (h x) = ptr b ∧ h_colour (h x) = c ∧ rep h a x ∧ rep h b x.
Proof. destruct d; simpl; tauto. Qed.
Lemma rep_plug h k : ∀ t rt, (rep h (plug k t) nil ∧ rt = ptr (plug k t)) ↔ (rep h t (par_of k) ∧ rep_ctx h k (ptr t) rt).
Proof.
  induction k as [|f k IH]; intros t rt; simpl; [done|]. rewrite IH. unfold plug1. rewrite rep_mk, ptr_mk. tauto.
Qed.
Lemma rep_ext h h' t : ∀ par, rep h t par → (∀ x, x ∈ inorder t → same_shape (h x) (h' x)) → rep h' t par.
Proof.
  induction t as [|c l IHl x r IHr]; intros par Hr Hs; [done|]. simpl in *. destruct Hr as (Hx & Hp & Hl & Hrr & Hc & H1 & H2).
  destruct (Hs x) as (E1 & E2 & E3 & E4); [set_solver|]. rewrite E1, E2, E3, E4. split_and!; try done.
  - apply IHl; [done|]. intros y Hy. apply Hs. set_solver.
  - apply IHr; [done|]. intros y Hy. apply Hs. set_solver.
Qed.
Lemma rep_ctx_ext h h' k : ∀ p rt, rep_ctx h k p rt → (∀ x, x ∈ ctx_keys k → same_shape (h x) (h' x)) → rep_ctx h' k p rt.
Proof.
  induction k as [|f k IH]; intros p rt Hr Hs; [done|]. simpl in *. destruct Hr as (Hx & Hp & Ha & Hb & Hc & H1 & H2).
  assert (same_shape (h (f_key f)) (h' (f_key f))) as Hf by (apply Hs; by left).
  rewrite !(same_shape_kid _ _ _ Hf). destruct Hf as (E1 & _ & _ & E4). rewrite E1, E4. split_and!; try done.
  - eapply rep_ext; [done|]. intros y Hy. apply Hs. set_solver.
  - apply IH; [done|]. intros y Hy. apply Hs. set_solver.
Qed.
(** A subtree is hung below another node. *)
Lemma rep_hang h h' t par par' : rep h t par → NoDup (inorder t) →
  (∀ x, x ∈ inorder t → x ≠ ptr t → same_shape (h x) (h' x)) →
  (t ≠ Leaf → h_parent (h' (ptr t)) = par' ∧ h_left (h' (ptr t)) = h_left (h (ptr t)) ∧ h_right (h' (ptr t)) = h_right (h (ptr t)) ∧
     h_colour (h' (ptr t)) = h_colour (h (ptr t))) →
  rep h' t par'.
Proof.
  destruct t as [|c l x r]; [done|]. simpl. intros (Hx & Hp & Hl & Hr & Hc & H1 & H2) Hnd Hs Hk.
  destruct (Hk ltac:(done)) as (E1 & E2 & E3 & E4). rewrite E1, E2, E3, E4. split_and!; try done.
  - eapply rep_ext; [done|]. intros y Hy. apply Hs; [set_solver|]. intros ->. apply NoDup_app in Hnd as (_ & Hd & _). apply (Hd x Hy). by left.
  - eapply rep_ext; [done|]. intros y Hy. apply Hs; [set_solver|]. intros ->. apply NoDup_app in Hnd as (_ & _ & Hn). by apply NoDup_cons in Hn as [? _].
Qed.

(** * States *)

(** [hook] of everything but the links of the tree is kept, and that of [nil]. *)
Record kept (s s' : rbtree) : Prop := {
  kp_head : head s' = head s;
  kp_size : size s' = size s;
  kp_succ x : successor x s' = successor x s;
  kp_pred x : predecessor x s' = predecessor x s }.
#[export] Instance kept_preorder : PreOrder kept.
Proof. split; [by intros s|]. intros s1 s2 s3 [] []. split; congruence. Qed.

Record holds (s : rbtree) (t : tree) : Prop := {
  ho_rep : rep (hooks s) t nil;
  ho_root : root s = ptr t;
  ho_nodup : NoDup (inorder t);
  ho_nil : nil ∉ inorder t }.
Lemma holds_plug s k t : holds s (plug k t) ↔
  rep (hooks s) t (par_of k) ∧ rep_ctx (hooks s) k (ptr t) (root s) ∧ NoDup (inorder t ++ ctx_keys k) ∧ nil ∉ inorder t ++ ctx_keys k.
Proof.
  split.
  - intros []. destruct (proj1 (rep_plug (hooks s) k t (root s))) as [H1 H2]; [done|]. rewrite <-(plug_keys k t). done.
  - intros (H1 & H2 & H3 & H4). destruct (proj2 (rep_plug (hooks s) k t (root s))) as [H5 H6]; [done|].
    rewrite <-(plug_keys k t) in H3, H4. by split.
Qed.

(** What is read at a node. *)
Lemma holds_node s k d c a x b : holds s (plug k (mk d c a x b)) →
  x ≠ nil ∧ parent x s = par_of k ∧ kid d x s = ptr a ∧ kid (flip d) x s = ptr b ∧ colour_of x s = c.
Proof. intros (Hr & _)%holds_plug. apply rep_mk in Hr. unfold parent, kid, colour_of. tauto. Qed.
Lemma holds_leaf_or s k t : holds s (plug k t) → ptr t = nil ↔ t = Leaf.
Proof. intros (Hr & _)%holds_plug. destruct t; simpl in *; [done|]. split; [|done]. intros ->. tauto. Qed.
Lemma holds_colour s k t : holds s (plug k t) → colour_of nil s = Black → colour_of (ptr t) s = colour_at t.
Proof.
  intros Hh Hn. destruct t as [|c l x r]; [done|]. rewrite (node_mk L) in Hh. apply holds_node in Hh as (_ & _ & _ & _ & E). exact E.
Qed.
(** The parent of the root is [nil]. *)
Lemma holds_root_parent s k d c a x b : holds s (plug k (mk d c a x b)) → parent (root s) s = nil.
Proof.
  intros [Hr -> _ _]. destruct (plug k (mk d c a x b)) as [|c' l y r] eqn:E.
  - exfalso. revert E. generalize (mk d c a x b) (mk_not_leaf d c a x b). clear Hr. induction k as [|f k IH]; intros t Ht E; [done|].
    apply (IH (plug1 f t)); [apply mk_not_leaf|done].
  - simpl in Hr. apply Hr.
Qed.

Lemma hooks_set_hook x h s y : hooks (set_hook x h s) y = if decide (y = x) then h else hooks s y.
Proof. done. Qed.

(** A change of colour. *)
Lemma holds_set_colour s k d c c' a x b : holds s (plug k (mk d c a x b)) →
  holds (set_colour x c' s) (plug k (mk d c' a x b)) ∧ kept s (set_colour x c' s) ∧
  (∀ y, colour_of y (set_colour x c' s) = if decide (y = x) then c' else colour_of y s) ∧
  hooks (set_colour x c' s) nil = hooks s nil.
Proof.
  intros Hh. pose proof (holds_node _ _ _ _ _ _ _ Hh) as (Hx & _). apply holds_plug in Hh as (Hr & Hc & Hnd & Hn).
  assert (∀ y, y ≠ x → hooks (set_colour x c' s) y = hooks s y) as Hother.
  { intros y Hy. simpl. by rewrite decide_False. }
  assert (hooks (set_colour x c' s) x = let h := hooks s x in mk_hook (h_parent h) (h_left h) (h_right h) (h_successor h) (h_predecessor h) c') as Hsame.
  { simpl. by rewrite decide_True. }
  assert (NoDup (x :: (inorder a ++ inorder b) ++ ctx_keys k)) as Hnd'.
  { rewrite (inorder_mk d c a x b) in Hnd. done. }
  apply NoDup_cons in Hnd' as [Hxn _].
  split; [apply holds_plug; split_and!|split; [split|split]].
  - apply rep_mk in Hr as (_ & Hp & Ha & Hb & _ & H1 & H2). apply rep_mk. rewrite Hsame. split_and!; try done; [by destruct d..| |].
    + eapply rep_ext; [exact H1|]. intros y Hy. rewrite Hother; [done|]. intros ->. set_solver.
    + eapply rep_ext; [exact H2|]. intros y Hy. rewrite Hother; [done|]. intros ->. set_solver.
  - rewrite ptr_mk in *. eapply rep_ctx_ext; [exact Hc|]. intros y Hy. rewrite Hother; [done|]. intros ->. set_solver.
  - by rewrite (inorder_mk d c' a x b), <-(inorder_mk d c a x b).
  - by rewrite (inorder_mk d c' a x b), <-(inorder_mk d c a x b).
  - done.
  - done.
  - intros y. unfold successor. simpl. by case_decide; subst.
  - intros y. unfold predecessor. simpl. by case_decide; subst.
  - intros y. unfold colour_of. simpl. by case_decide; subst.
  - apply Hother. done.
Qed.

(** * Pointers to a subtree *)
Definition with_kid (d : side) (p : Z) (h : rbtree_hook) : rbtree_hook :=
  match d with
  | L => mk_hook (h_parent h) p (h_right h) (h_successor h) (h_predecessor h) (h_colour h)
  | R => mk_hook (h_parent h) (h_left h) p (h_successor h) (h_predecessor h) (h_colour h)
  end.
Definition with_parent (p : Z) (h : rbtree_hook) : rbtree_hook :=
  mk_hook p (h_left h) (h_right h) (h_successor h) (h_predecessor h) (h_colour h).
Lemma hooks_set_kid d x p s y : hooks (set_kid d x p s) y = if decide (y = x) then with_kid d p (hooks s x) else hooks s y.
Proof. by destruct d. Qed.
Lemma hooks_set_parent x p s y : hooks (set_parent x p s) y = if decide (y = x) then with_parent p (hooks s x) else hooks s y.
Proof. done. Qed.
Lemma with_kid_same d p h : h_kid d (with_kid d p h) = p.
Proof. by destruct d. Qed.
Lemma with_kid_flip d p h : h_kid (flip d) (with_kid d p h) = h_kid (flip d) h.
Proof. by destruct d. Qed.
Lemma with_kid_flip' d p h : h_kid d (with_kid (flip d) p h) = h_kid d h.
Proof. by destruct d. Qed.
Lemma with_kid_parent d p h : h_parent (with_kid d p h) = h_parent h.
Proof. by destruct d. Qed.
Lemma with_kid_colour d p h : h_colour (with_kid d p h) = h_colour h.
Proof. by destruct d. Qed.
Lemma with_parent_kid d p h : h_kid d (with_parent p h) = h_kid d h.
Proof. by destruct d. Qed.
Lemma kept_set_kid d x p s : kept s (set_kid d x p s).
Proof. split; try done; intros y; unfold successor, predecessor; rewrite hooks_set_kid; case_decide; subst; try done; by destruct d. Qed.
Lemma kept_set_parent x p s : kept s (set_parent x p s).
Proof. split; try done; intros y; unfold successor, predecessor; rewrite hooks_set_parent; case_decide; by subst. Qed.
Lemma kept_set_root x s : kept s (set_root x s).
Proof. by split. Qed.
Lemma kept_set_colour x c s : kept s (set_colour x c s).
Proof. split; try done; intros y; unfold successor, predecessor; simpl; case_decide; by subst. Qed.

Lemma ptr_elem t : t ≠ Leaf → ptr t ∈ inorder t.
Proof. destruct t; [done|]. simpl. set_solver. Qed.
Lemma ptr_not x t : x ≠ nil → x ∉ inorder t → x ≠ ptr t.
Proof. intros Hx Hn ->. destruct t; [done|]. apply Hn. by apply ptr_elem. Qed.

Lemma replace_child_spec d s k x y : rep_ctx (hooks s) k x (root s) → x ≠ nil → parent x s = par_of k → NoDup (x :: ctx_keys k) →
  rep_ctx (hooks (replace_child d x y s)) k y (root (replace_child d x y s)) ∧ kept s (replace_child d x y s) ∧
  ∀ z, z ∉ ctx_keys k → hooks (replace_child d x y s) z = hooks s z.
Proof.
  intros Hr Hx Hp [Hxk Hnd]%NoDup_cons. unfold replace_child. rewrite Hp. destruct k as [|f k]; simpl.
  - by split_and!.
  - simpl in Hr. destruct Hr as (Hf & Hfp & Ha & Hb & Hc & H1 & H2). simpl in Hxk, Hnd. apply NoDup_cons in Hnd as [Hfk Hnd].
    rewrite (proj2 (Z.eqb_neq _ _)) by done.
    assert ((if x =? kid d (f_key f) s then set_kid d (f_key f) y s else set_kid (flip d) (f_key f) y s) = set_kid (f_side f) (f_key f) y s) as ->.
    { destruct (decide (d = f_side f)) as [->|Hd].
      - unfold kid. by rewrite Ha, Z.eqb_refl.
      - assert (d = flip (f_side f)) as -> by (by destruct d, (f_side f)). unfold kid. rewrite Hb, flip_flip.
        destruct (Z.eqb_spec x (ptr (f_other f))) as [E|]; [|done]. exfalso. revert E. apply ptr_not; [done|set_solver]. }
    split; [|split; [apply kept_set_kid|]].
    + rewrite hooks_set_kid, decide_True by done. rewrite with_kid_parent, with_kid_same, with_kid_flip, with_kid_colour.
      split_and!; try done.
      * eapply rep_ext; [exact H1|]. intros z Hz. rewrite hooks_set_kid, decide_False; [done|]. intros ->. set_solver.
      * assert (root (set_kid (f_side f) (f_key f) y s) = root s) as -> by by destruct (f_side f).
        eapply rep_ctx_ext; [exact H2|]. intros z Hz. rewrite hooks_set_kid, decide_False; [done|]. intros ->. set_solver.
    + intros z Hz. rewrite hooks_set_kid, decide_False; [done|]. intros ->. apply Hz. by left.
Qed.

(** * Rotations *)
Lemma mk_mk_keys d c a x c' b y e k : inorder (mk d c a x (mk d c' b y e)) ++ ctx_keys k ≡ₚ
  x :: y :: inorder a ++ inorder b ++ inorder e ++ ctx_keys k.
Proof.
  rewrite (inorder_mk d c a x), (inorder_mk d c' b y e). simpl. constructor. rewrite <-!app_assoc. simpl.
  rewrite <-Permutation_middle. by rewrite <-!app_assoc.
Qed.
Section rotation.
Context (d : side) (s : rbtree) (k : ctx) (c : colour) (a : tree) (x : Z) (c' : colour) (b : tree) (y : Z) (e : tree).
Context (Hh : holds s (plug k (mk d c a x (mk d c' b y e)))).

(** The nodes around a rotation are different ones. *)
Lemma rotate_keys : NoDup (x :: y :: inorder a ++ inorder b ++ inorder e ++ ctx_keys k) ∧
  nil ∉ x :: y :: inorder a ++ inorder b ++ inorder e ++ ctx_keys k.
Proof. destruct Hh as [_ _ Hnd Hnil]. by rewrite <-(mk_mk_keys d c a x c' b y e k), <-plug_keys. Qed.

Lemma rotate_apart : y ≠ x ∧ nil ≠ x ∧ nil ≠ y ∧ NoDup (inorder b) ∧ NoDup (x :: ctx_keys k) ∧
  (∀ z, z ∈ inorder a → z ≠ x ∧ z ≠ y ∧ (z ∉ inorder b) ∧ z ∉ ctx_keys k) ∧
  (∀ z, z ∈ inorder b → z ≠ x ∧ z ≠ y ∧ z ≠ nil ∧ z ∉ ctx_keys k) ∧
  (∀ z, z ∈ inorder e → z ≠ x ∧ z ≠ y ∧ (z ∉ inorder b) ∧ z ∉ ctx_keys k) ∧
  (∀ z, z ∈ nil :: ctx_keys k → z ≠ x ∧ z ≠ y ∧ z ∉ inorder b).
Proof.
  destruct rotate_keys as [[Hx [Hy Hnd]%NoDup_cons]%NoDup_cons Hn].
  apply NoDup_app in Hnd as (Hna & Ha & (Hnb & Hb & (Hne & He & Hk)%NoDup_app)%NoDup_app).
  rewrite elem_of_cons, !elem_of_app in Hx. rewrite !elem_of_app in Hy. rewrite !elem_of_cons, !elem_of_app in Hn.
  setoid_rewrite elem_of_app in Ha. setoid_rewrite elem_of_app in Hb. setoid_rewrite elem_of_app in Ha. setoid_rewrite elem_of_cons.
  split; [intros ->; tauto|]. do 2 (split; [intros E; rewrite E in Hn; tauto|]). split; [done|]. split; [constructor; [tauto|done]|]. split_and!.
  - intros z Hz. specialize (Ha z Hz). split_and!; try (intros ->; tauto); tauto.
  - intros z Hz. specialize (Hb z Hz). split_and!; try (intros ->; tauto); tauto.
  - intros z Hz. specialize (He z Hz). split_and!; try (intros ->; tauto); [intros Hz'; destruct (Hb z Hz'); tauto|tauto].
  - intros z [->|Hz]; [split_and!; try (intros ->; tauto); tauto|]. split_and!; try (intros ->; tauto). intros Hz'; destruct (Hb z Hz'); tauto.
Qed.

(** The state before the pointer to the subtree is turned to [y]. *)
Definition half_rotated : rbtree :=
  let s := set_kid (flip d) x (ptr b) s in
  let s := if ptr b =? nil then s else set_parent (ptr b) x s in
  set_parent y (parent x s) s.
Lemma half_rotated_hooks z : hooks half_rotated z =
  if decide (z = y) then with_parent (par_of k) (hooks s y)
  else if decide (z = x) then with_kid (flip d) (ptr b) (hooks s x)
  else if decide (z = ptr b ∧ b ≠ Leaf) then with_parent x (hooks s z) else hooks s z.
Proof.
  destruct rotate_apart as (Hyx & _ & _ & _ & _ & _ & Hb' & _). pose proof (holds_node _ _ _ _ _ _ _ Hh) as (Hx & Hp & _).
  assert (b ≠ Leaf → ptr b ≠ x ∧ ptr b ≠ y ∧ ptr b ≠ nil) as Hb.
  { intros Hb%ptr_elem. destruct (Hb' _ Hb) as (? & ? & ? & _). done. }
  unfold half_rotated. rewrite hooks_set_parent.
  assert (∀ w, hooks (if ptr b =? nil then set_kid (flip d) x (ptr b) s else set_parent (ptr b) x (set_kid (flip d) x (ptr b) s)) w =
    if decide (w = x) then with_kid (flip d) (ptr b) (hooks s x) else if decide (w = ptr b ∧ b ≠ Leaf) then with_parent x (hooks s w) else hooks s w) as Hw.
  { intros w. destruct b as [|cb bl bx br]; simpl ptr.
    - rewrite Z.eqb_refl, hooks_set_kid. destruct (decide (w = x)); [done|]. rewrite decide_False by (intros [_ []]; done). done.
    - destruct (Hb ltac:(done)) as (H1 & H2 & H3). simpl in H1, H2, H3. rewrite (proj2 (Z.eqb_neq _ _)) by done. rewrite hooks_set_parent, !hooks_set_kid.
      destruct (decide (w = bx)) as [->|].
      + rewrite !(decide_False (P := bx = x)) by done. by rewrite decide_True.
      + destruct (decide (w = x)); [done|]. rewrite decide_False by tauto. done. }
  unfold parent at 1. rewrite !Hw. rewrite (decide_True (P := x = x)) by done. rewrite with_kid_parent. unfold parent in Hp. rewrite Hp.
  destruct (decide (z = y)) as [->|]; [|done]. rewrite decide_False by done. rewrite decide_False; [done|]. intros [-> Hbl]. destruct (Hb Hbl). tauto.
Qed.
Lemma half_rotated_kept : kept s half_rotated ∧ root half_rotated = root s.
Proof.
  unfold half_rotated. split.
  - etrans; [|apply kept_set_parent]. destruct (ptr b =? nil); [apply kept_set_kid|]. etrans; [apply kept_set_kid|apply kept_set_parent].
  - destruct (ptr b =? nil); by destruct d.
Qed.

Lemma rotate_spec : ∃ s', rotate d x s = Done s' ∧ holds s' (plug k (mk d c' (mk d c a x b) y e)) ∧ kept s s' ∧ hooks s' nil = hooks s nil.
Proof.
  destruct rotate_apart as (Hyx & Hnx & Hny & Hndb & Hndk & Hax & Hbx & Hex & Hkx). pose proof half_rotated_hooks as Hhr.
  pose proof (holds_node _ _ _ _ _ _ _ Hh) as (Hx & Hp & Hkidx & Hkfx & Hcx).
  pose proof (holds_node s (mk_frame (flip d) c x a :: k) d c' b y e) as Hy. simpl in Hy. unfold plug1 in Hy. simpl in Hy. rewrite mk_flip in Hy.
  destruct (Hy Hh) as (Hyn & Hpy & Hky & Hkfy & Hcy). pose proof (holds_root_parent _ _ _ _ _ _ _ Hh) as Hrp.
  rewrite ptr_mk in Hkfx.
  assert (rotate d x s = Done (set_parent x y (set_kid d y x (replace_child d x y half_rotated)))) as ->.
  { unfold rotate. rewrite Hkfx, Hrp. rewrite (proj2 (Z.eqb_neq y nil)) by done. cbn [orb negb Z.eqb nil bug_on mbind outcome_bind].
    assert (kid d y (set_kid (flip d) x (ptr b) s) = ptr b) as Hkb by (unfold kid in *; rewrite hooks_set_kid, decide_False by done; exact Hky).
    rewrite Hky. cbv zeta. rewrite Hkb. done. }
  destruct half_rotated_kept as [Hk3 Hr3]. set (s3 := half_rotated) in *. set (s4 := replace_child d x y s3). eexists. split; [done|].
  apply holds_plug in Hh as (Hr & Hc & Hnd0 & Hnil0).
  apply rep_mk in Hr as (_ & _ & _ & _ & _ & Ha & Hre). apply rep_mk in Hre as (_ & _ & _ & _ & _ & Hb & He). rewrite ptr_mk in Hc.
  assert (∀ z, z ≠ x → z ≠ y → z ∉ inorder b → hooks s3 z = hooks s z) as H3.
  { intros z Hzx Hzy Hzb. rewrite Hhr, !decide_False; [done| |done|done]. intros [-> Hbl]. by apply Hzb, ptr_elem. }
  assert (hooks s3 x = with_kid (flip d) (ptr b) (hooks s x)) as H3x by (by rewrite Hhr, decide_False, decide_True).
  assert (hooks s3 y = with_parent (par_of k) (hooks s y)) as H3y by (by rewrite Hhr, decide_True).
  destruct (replace_child_spec d s3 k x y) as (H4c & Hk4 & H4); [|done|unfold parent; by rewrite H3x, with_kid_parent|done|].
  { rewrite Hr3. eapply rep_ctx_ext; [exact Hc|]. intros z Hz. destruct (Hkx z) as (? & ? & ?); [by right|]. by rewrite H3. }
  fold s4 in H4c, Hk4, H4. assert (x ∉ ctx_keys k) as Hxk by (by apply NoDup_cons in Hndk as [? _]).
  assert (y ∉ ctx_keys k) as Hyk by (intros E; destruct (Hkx y) as (? & ? & ?); [by right|done]).
  assert (∀ z, z ≠ x → z ≠ y → hooks (set_parent x y (set_kid d y x s4)) z = hooks s4 z) as H6.
  { intros z Hzx Hzy. rewrite hooks_set_parent, decide_False by done. by rewrite hooks_set_kid, decide_False. }
  assert (hooks (set_parent x y (set_kid d y x s4)) x = with_parent y (with_kid (flip d) (ptr b) (hooks s x))) as H6x.
  { rewrite hooks_set_parent, decide_True by done. rewrite hooks_set_kid, decide_False by done. by rewrite H4, H3x. }
  assert (hooks (set_parent x y (set_kid d y x s4)) y = with_kid d x (with_parent (par_of k) (hooks s y))) as H6y.
  { rewrite hooks_set_parent, decide_False by done. rewrite hooks_set_kid, decide_True by done. by rewrite H4, H3y. }
  split; [|split].
  - apply holds_plug. unfold parent, kid, colour_of in *. split_and!.
    + apply rep_mk. rewrite H6y. rewrite with_kid_parent, with_kid_same, with_kid_flip, with_kid_colour, ptr_mk, with_parent_kid. split_and!; try done.
      * apply rep_mk. rewrite H6x. rewrite !with_parent_kid, with_kid_same, with_kid_flip'. cbn [h_parent with_parent h_colour].
        rewrite with_kid_colour. split_and!; try done.
        -- eapply rep_ext; [exact Ha|]. intros z Hz. destruct (Hax z Hz) as (? & ? & ? & ?). by rewrite H6, H4, H3.
        -- eapply rep_hang; [exact Hb|done| |].
           ++ intros z Hz Hzb. destruct (Hbx z Hz) as (? & ? & ? & ?). rewrite H6, H4 by done. rewrite Hhr, !decide_False by tauto. done.
           ++ intros Hbl. destruct (Hbx _ (ptr_elem b Hbl)) as (? & ? & ? & ?).
              rewrite H6, H4 by done. rewrite Hhr, !decide_False, decide_True by done. done.
      * eapply rep_ext; [exact He|]. intros z Hz. destruct (Hex z Hz) as (? & ? & ? & ?). by rewrite H6, H4, H3.
    + rewrite ptr_mk. assert (root (set_parent x y (set_kid d y x s4)) = root s4) as -> by by destruct d.
      eapply rep_ctx_ext; [exact H4c|]. intros z Hz. destruct (Hkx z) as (? & ? & ?); [by right|]. by rewrite H6.
    + rewrite <-(inorder_rotate d c c' c' c a x b y e). done.
    + rewrite <-(inorder_rotate d c c' c' c a x b y e). done.
  - etrans; [exact Hk3|]. etrans; [exact Hk4|]. etrans; [apply kept_set_kid|apply kept_set_parent].
  - destruct (Hkx nil) as (? & ? & ?); [by left|]. rewrite H6, H4, H3; try done. intros E. apply Hnil0. rewrite elem_of_app. by right.
Qed.
End rotation.
