(* ===== verification/RbtreeFix.v ===== *)
(** The two loops that restore the balance, on the nodes: they do to the tree what [fix_up] and
    [fill_up] of [RbTrees.v] do. *)

From S2P Require Import Prelude Math Rbtree RbTrees RbtreeRep.

(** Nothing but the shape of the tree changes. *)
Definition still (s s' : rbtree) : Prop := kept s s' ∧ hooks s' nil = hooks s nil.
#[export] Instance still_preorder : PreOrder still.
Proof. split; [by intros s|]. intros s1 s2 s3 [H1 H2] [H3 H4]. split; [by etrans|congruence]. Qed.
Lemma still_nil s s' : still s s' → colour_of nil s' = colour_of nil s.
Proof. intros [_ E]. unfold colour_of. by rewrite E. Qed.

(** * What the loops read *)
Lemma plug_other d c a x b k : plug (mk_frame (flip d) c x a :: k) b = plug k (mk d c a x b).
Proof. simpl. unfold plug1. simpl. by rewrite mk_flip. Qed.
Lemma parent_set_colour x c s y : parent y (set_colour x c s) = parent y s.
Proof. unfold parent. simpl. by case_decide; subst. Qed.
Lemma kid_set_colour d x c s y : kid d y (set_colour x c s) = kid d y s.
Proof. unfold kid. simpl. by case_decide; subst; destruct d. Qed.
Lemma is_red_spec x s : is_red x s = bool_decide (colour_of x s = Red).
Proof. done. Qed.

Section reads.
Context (s : rbtree) (k : ctx) (d : side) (c : colour) (a : tree) (x : Z) (b : tree).
Context (Hh : holds s (plug k (mk d c a x b))).

Lemma read_kids : kid d x s = ptr a ∧ kid (flip d) x s = ptr b.
Proof. apply holds_node in Hh. tauto. Qed.
Lemma read_colour : colour_of x s = c.
Proof. apply holds_node in Hh. tauto. Qed.
Lemma read_ne : x ≠ nil.
Proof. apply holds_node in Hh. tauto. Qed.
Lemma read_parent : parent x s = par_of k.
Proof. apply holds_node in Hh. tauto. Qed.
Lemma read_parent_kid : a ≠ Leaf → parent (ptr a) s = x.
Proof.
  intros Ha. destruct (tree_cases L a) as [->|(c1 & a1 & y & b1 & ->)]; [done|]. rewrite ptr_mk.
  apply (holds_node s (mk_frame d c x b :: k)) in Hh. tauto.
Qed.
Lemma read_kids_ne : a ≠ Leaf ∨ b ≠ Leaf → ptr a ≠ ptr b.
Proof.
  intros Hab E. apply holds_plug in Hh as (_ & _ & Hnd & Hn). rewrite inorder_mk in Hnd, Hn. rewrite !elem_of_app, elem_of_cons, elem_of_app in Hn.
  destruct (decide (a = Leaf)) as [->|Ha%ptr_elem]; [destruct Hab as [?|Hb%ptr_elem]; [done|]; rewrite <-E in Hb; tauto|].
  destruct (decide (b = Leaf)) as [->|Hb%ptr_elem]; [rewrite E in Ha; tauto|].
  apply NoDup_app in Hnd as (Hnd & _ & _). apply NoDup_cons in Hnd as (_ & Hnd). apply NoDup_app in Hnd as (_ & Hd & _). apply (Hd _ Ha). by rewrite E.
Qed.
Lemma read_side : a ≠ Leaf ∨ b ≠ Leaf → (if ptr a =? kid L x s then L else R) = d.
Proof.
  intros Ha. destruct read_kids as [E1 E2]. pose proof (read_kids_ne Ha) as Hne. destruct d; cbn [flip] in E2.
  - by rewrite E1, Z.eqb_refl.
  - rewrite E2. by rewrite (proj2 (Z.eqb_neq _ _)).
Qed.
Lemma read_near_colour : colour_of nil s = Black → is_red (kid d x s) s = bool_decide (colour_at a = Red).
Proof.
  intros Hn. destruct read_kids as [-> _]. rewrite is_red_spec. by rewrite (holds_colour s (mk_frame d c x b :: k) a Hh Hn).
Qed.
Lemma read_far_colour : colour_of nil s = Black → is_red (kid (flip d) x s) s = bool_decide (colour_at b = Red).
Proof.
  intros Hn. destruct read_kids as [_ ->]. rewrite is_red_spec. rewrite <-plug_other in Hh. by rewrite (holds_colour _ _ _ Hh Hn).
Qed.
End reads.

Lemma read_top s k t : holds s (plug k t) → t ≠ Leaf → parent (ptr t) s = par_of k.
Proof.
  intros Hh Ht. destruct (tree_cases L t) as [->|(c & a & x & b & ->)]; [done|]. rewrite ptr_mk. by eapply read_parent.
Qed.
(** A node is painted. *)
Lemma paint_spec s k d c a x b c' : holds s (plug k (mk d c a x b)) →
  holds (set_colour x c' s) (plug k (mk d c' a x b)) ∧ still s (set_colour x c' s).
Proof. intros Hh. destruct (holds_set_colour s k d c c' a x b Hh) as (? & ? & _ & ?). by split. Qed.
Lemma rotate_still s k d c a x c' b y e : holds s (plug k (mk d c a x (mk d c' b y e))) →
  ∃ s', rotate d x s = Done s' ∧ holds s' (plug k (mk d c' (mk d c a x b) y e)) ∧ still s s'.
Proof. intros Hh. destruct (rotate_spec d s k c a x c' b y e Hh) as (s' & ? & ? & ? & ?). by exists s'. Qed.

(** * Insertion *)

(** The last case: the grandparent is rotated away. *)
Lemma fixup_last fuel k d c a p b g u s : a ≠ Leaf → holds s (plug k (mk d c (mk d Red a p b) g u)) →
  ∃ s', (let s1 := set_colour (parent (ptr a) s) Black s in
         let s2 := set_colour (parent (parent (ptr a) s1) s1) Red s1 in
         s ← rotate (flip d) (parent (parent (ptr a) s2) s2) s2;
         insert_fixup_loop (S fuel) (ptr a) s) = Done s' ∧
        holds s' (plug k (mk d Black a p (mk d Red b g u))) ∧ still s s'.
Proof.
  intros Ha Hh. cbv zeta. rewrite !parent_set_colour.
  assert (parent (ptr a) s = p) as -> by by apply (read_parent_kid _ (mk_frame d c g u :: k) d Red a p b).
  assert (parent p s = g) as Hpg by apply (read_parent _ (mk_frame d c g u :: k) d Red a p b Hh). rewrite Hpg.
  destruct (paint_spec _ (mk_frame d c g u :: k) d Red a p b Black Hh) as [H1 S1]. simpl in H1. unfold plug1 in H1. simpl in H1.
  destruct (paint_spec _ k d c _ g u Red H1) as [H2 S2]. rewrite <-mk_flip, <-(mk_flip d Black) in H2.
  destruct (rotate_still _ _ _ _ _ _ _ _ _ _ H2) as (s3 & -> & H3 & S3). cbn [mbind outcome_bind].
  rewrite !mk_flip in H3. exists s3. split; [|split; [done|by do 2 (etrans; [eassumption|])]].
  cbn [insert_fixup_loop]. rewrite (read_parent_kid _ _ _ _ _ _ _ H3 Ha), is_red_spec, (read_colour _ _ _ _ _ _ _ H3). done.
Qed.

Lemma insert_fixup_loop_spec n : ∀ k t s fuel a m, (length k ≤ n)%nat → (length k < fuel)%nat → crb k a m → rbt t Red m →
  holds s (plug k t) → colour_of nil s = Black →
  ∃ s', insert_fixup_loop fuel (ptr t) s = Done s' ∧ holds s' (fix_up k t) ∧ still s s'.
Proof.
  induction n as [|n IH]; intros k t s fuel a m Hn Hf Hk Ht Hh Hnil.
  all: destruct fuel as [|fuel]; [lia|]; assert (t ≠ Leaf) as Htl by (intros ->; inversion Ht); pose proof (read_top _ _ _ Hh Htl) as Hpar.
  { destruct k; [|simpl in Hn; lia]. cbn [insert_fixup_loop fix_up]. rewrite Hpar. simpl par_of. rewrite is_red_spec, Hnil. by eexists. }
  destruct k as [|[d1 c1 p s1] k].
  { cbn [insert_fixup_loop fix_up]. rewrite Hpar. simpl par_of. rewrite is_red_spec, Hnil. by eexists. }
  simpl in Hpar. pose proof (read_colour s k d1 c1 t p s1 Hh) as Hcp.
  destruct (decide (c1 = Red)) as [->|Hc1]; cbn [insert_fixup_loop]; rewrite Hpar, is_red_spec, Hcp; [|].
  2: { rewrite (other_colour c1 Hc1) in *. exists s. by destruct k. }
  destruct (crb_inv_red _ _ _ _ _ _ Hk) as (-> & Hs1 & Hk1). destruct k as [|[d2 c2 g u] k]; [by inversion Hk1|]. simpl in Hf, Hn.
  assert (parent p s = g) as Hpg by apply (read_parent s (mk_frame d2 c2 g u :: k) d1 Red t p s1 Hh).
  assert (holds s (plug k (mk d2 c2 (mk d1 Red t p s1) g u))) as Hh' by exact Hh. clear Hh.
  cbn [bool_decide negb]. rewrite bool_decide_true by done. cbn [negb]. rewrite Hpg. assert ((if p =? kid L g s then L else R) = d2) as ->.
  { pose proof (read_side s k d2 c2 _ g u Hh') as E. rewrite ptr_mk in E. apply E. left. apply mk_not_leaf. }
  cbv zeta. rewrite (read_far_colour s k d2 c2 _ g u Hh' Hnil). destruct (read_kids s k d2 c2 _ g u Hh') as [_ Hu].
  cbn [fix_up f_colour f_side f_other f_key]. rewrite decide_True by done. destruct (decide (colour_at u = Red)) as [Eu|Eu].
  - rewrite bool_decide_true by done. rewrite !parent_set_colour, Hpar, Hpg, Hu.
    destruct (paint_spec _ (mk_frame d2 c2 g u :: k) d1 Red t p s1 Black Hh') as [H1 S1]. simpl in H1. unfold plug1 in H1. simpl in H1.
    destruct u as [|[] ul y ur]; [done| |done]. rewrite <-plug_other in H1. destruct (paint_spec _ _ L Red ul y ur Black H1) as [H2 S2].
    rewrite plug_other in H2. destruct (paint_spec _ _ _ _ _ _ _ Red H2) as [H3 S3]. simpl ptr.
    pose proof (crb_red_parent _ _ _ Hk1) as E2. simpl in E2. subst c2.
    destruct (crb_inv_black _ _ _ _ _ _ Hk1) as (_ & cu & a2 & Hu' & Hk2). inversion Hu'; subst cu.
    assert (rbt (mk d2 Red (mk d1 Black t p s1) g (mk L Black ul y ur)) Red (S m)) as Ht'.
    { apply rbt_mk_red; [eapply rbt_mk_black; [exact Ht|exact Hs1]|]. eapply rbt_black; eassumption. }
    destruct (IH k _ _ fuel a2 (S m) ltac:(lia) ltac:(lia) Hk2 Ht' H3) as (s' & E & Hs' & St).
    { by rewrite (still_nil _ _ S3), (still_nil _ _ S2), (still_nil _ _ S1). }
    rewrite ptr_mk in E. exists s'. split; [exact E|]. split; [exact Hs'|]. by do 3 (etrans; [eassumption|]).
  - rewrite bool_decide_false by done. unfold rebalance. destruct (read_kids s (mk_frame d2 c2 g u :: k) d1 Red t p s1 Hh') as [E1 E2].
    destruct fuel as [|fuel]; [lia|]. destruct (decide (d1 = d2)) as [<-|Hd].
    + rewrite E2. rewrite (proj2 (Z.eqb_neq (ptr t) (ptr s1))).
      2: { eapply (read_kids_ne s (mk_frame d1 c2 g u :: k)); [exact Hh'|by left]. }
      cbn [mbind outcome_bind]. by apply fixup_last with (c := c2).
    + assert (d1 = flip d2) as -> by by apply other_side. rewrite E1, Z.eqb_refl.
      destruct (tree_cases d2 t) as [?|(c3 & t3 & z & t4 & Et)]; [done|].
      assert (c3 = Red) as -> by (pose proof (rbt_colour _ _ _ Ht) as Hc; by rewrite Et, colour_mk in Hc).
      rewrite mk_flip, Et in Hh'. destruct (rotate_still s (mk_frame d2 c2 g u :: k) d2 Red s1 p Red t3 z t4 Hh') as (s2 & -> & H2 & S2).
      cbn [mbind outcome_bind]. simpl in H2. unfold plug1 in H2. simpl in H2.
      destruct (fixup_last fuel k d2 c2 (mk d2 Red s1 p t3) z t4 g u s2 (mk_not_leaf _ _ _ _ _) H2) as (s' & E & Hs' & St).
      rewrite ptr_mk in E. exists s'. split; [exact E|]. split; [|by etrans]. rewrite Et. by destruct d2.
Qed.

(** The root is painted at the end. *)
Lemma paint_root s t : holds s t → holds (set_colour (root s) Black s) (paint Black t) ∧ kept s (set_colour (root s) Black s).
Proof.
  intros Hh. split; [|apply kept_set_colour]. destruct t as [|c l x r]; [destruct Hh as [_ E ? ?]; by split|].
  pose proof (ho_root _ _ Hh) as E. simpl in E. rewrite E. by apply (paint_spec s [] L c l x r Black Hh).
Qed.
Lemma insert_fixup_spec k t s fuel a m : (length k < fuel)%nat → crb k a m → rbt t Red m → holds s (plug k t) → colour_of nil s = Black →
  ∃ s', insert_fixup fuel (ptr t) s = Done s' ∧ holds s' (paint Black (fix_up k t)) ∧ kept s s'.
Proof.
  intros Hf Hk Ht Hh Hn. destruct (insert_fixup_loop_spec (length k) k t s fuel a m ltac:(lia) Hf Hk Ht Hh Hn) as (s1 & E & H1 & [S1 _]).
  destruct (paint_root s1 _ H1) as [H2 K2]. exists (set_colour (root s1) Black s1). unfold insert_fixup. rewrite E.
  split; [done|]. split; [done|]. by etrans.
Qed.

(** * Removal *)

(** The node the loop stands at is the root of [t]; when that is [nil], its hook says where it
    hangs. *)
Definition stands (s : rbtree) (k : ctx) (t : tree) : Prop := holds s (plug k t) ∧ (t = Leaf → parent nil s = par_of k).
Lemma stands_parent s k t : stands s k t → parent (ptr t) s = par_of k.
Proof. intros [Hh Hl]. destruct (decide (t = Leaf)) as [->|Ht]; [by apply Hl|]. by eapply read_top. Qed.
Lemma stands_still s s' k k' t : stands s k t → still s s' → holds s' (plug k' t) → par_of k' = par_of k → stands s' k' t.
Proof. intros [_ Hl] [_ E] Hh Hp. split; [done|]. intros Ht. rewrite Hp, <-Hl by done. unfold parent. by rewrite E. Qed.
Lemma stands_root s k t : stands s k t → (ptr t =? root s) = bool_decide (k = []).
Proof.
  intros [Hh _]. destruct k as [|f k]; [rewrite (ho_root _ _ Hh); by rewrite Z.eqb_refl|]. rewrite bool_decide_false by done.
  apply Z.eqb_neq. apply holds_plug in Hh as (_ & Hr & Hnd & Hn).
  assert (∀ k p rt, rep_ctx (hooks s) k p rt → rt = p ∨ rt ∈ ctx_keys k) as Hrt.
  { clear. induction k as [|f k IH]; intros p rt Hr; [by left|]. destruct Hr as (_ & _ & _ & _ & _ & _ & Hr). right. simpl.
    destruct (IH _ _ Hr) as [->|]; [by left|]. right. apply elem_of_app. by right. }
  assert (root s ∈ ctx_keys (f :: k)) as Hin.
  { destruct Hr as (_ & _ & _ & _ & _ & _ & Hr). destruct (Hrt _ _ _ Hr) as [->|Hin]; simpl; [by left|]. right. apply elem_of_app. by right. }
  intros E. rewrite <-E in Hin. destruct (decide (t = Leaf)) as [->|Ht%ptr_elem]; [apply Hn, elem_of_app; by right|].
  apply NoDup_app in Hnd as (_ & Hd & _). by apply (Hd _ Ht).
Qed.

(** The last case: the parent is rotated to the side of the missing black node. *)
Lemma fill_last k d c cw t p near w far s : stands s (mk_frame d c p (mk d cw near w far) :: k) t → colour_at far = Red →
  ∃ s', (let s1 := set_colour w (colour_of (parent (ptr t) s) s) s in
         let s2 := set_colour (parent (ptr t) s1) Black s1 in
         let s3 := set_colour (kid (flip d) w s2) Black s2 in
         rotate d (parent (ptr t) s3) s3) = Done s' ∧
        holds s' (plug k (mk d c (mk d Black t p near) w (paint Black far))) ∧ still s s'.
Proof.
  intros Hs Hfar. cbv zeta. rewrite !parent_set_colour, !kid_set_colour. pose proof (stands_parent _ _ _ Hs) as Hp. simpl in Hp. rewrite Hp.
  destruct Hs as [Hh _]. assert (holds s (plug k (mk d c t p (mk d cw near w far)))) as Hh1 by exact Hh.
  rewrite (read_colour _ _ _ _ _ _ _ Hh1). rewrite <-plug_other in Hh1. pose proof (read_kids _ _ _ _ _ _ _ Hh1) as [_ Hf]. rewrite Hf.
  destruct (paint_spec _ _ _ _ _ _ _ c Hh1) as [H1 S1]. rewrite plug_other in H1. destruct (paint_spec _ _ _ _ _ _ _ Black H1) as [H2 S2].
  destruct far as [|[] fl x fr]; [done| |done]. rewrite <-plug_other, <-plug_other in H2.
  destruct (paint_spec _ _ L Red fl x fr Black H2) as [H3 S3]. rewrite !plug_other in H3. simpl ptr.
  destruct (rotate_still _ _ _ _ _ _ _ _ _ _ H3) as (s' & E & H4 & S4). exists s'. split; [exact E|]. split; [exact H4|].
  by do 3 (etrans; [eassumption|]).
Qed.
Lemma refill_spec fuel k d c t p w s : stands s (mk_frame d c p w :: k) t → colour_at w = Black → w ≠ Leaf → colour_of nil s = Black →
  ∃ s', (if negb (is_red (kid d (ptr w) s) s) && negb (is_red (kid (flip d) (ptr w) s) s) then
           let s := set_colour (ptr w) Red s in
           remove_fixup_loop fuel (parent (ptr t) s) s
         else
           '(w, s) ← (if negb (is_red (kid (flip d) (ptr w) s) s)
                      then let s := set_colour (kid d (ptr w) s) Black s in
                           let s := set_colour (ptr w) Red s in
                           s ← rotate (flip d) (ptr w) s;
                           Done (kid (flip d) (parent (ptr t) s) s, s)
                      else Done (ptr w, s));
           let s := set_colour w (colour_of (parent (ptr t) s) s) s in
           let s := set_colour (parent (ptr t) s) Black s in
           let s := set_colour (kid (flip d) w s) Black s in
           s ← rotate d (parent (ptr t) s) s;
           remove_fixup_loop fuel (root s) s)
        = remove_fixup_loop fuel (if (refill d c t p w).2 then p else root s') s' ∧
        holds s' (plug k (refill d c t p w).1) ∧ still s s'.
Proof.
  intros Hs Hw Hwl Hn. destruct (tree_cases d w) as [?|(cw & near & y & far & ->)]; [done|]. rewrite colour_mk in Hw. subst cw.
  rewrite !ptr_mk. pose proof (stands_parent _ _ _ Hs) as Hp. simpl in Hp. pose proof (proj1 Hs) as Hh.
  assert (holds s (plug (mk_frame (flip d) c p t :: k) (mk d Black near y far))) as Hh1 by by rewrite plug_other.
  rewrite (read_near_colour _ _ _ _ _ _ _ Hh1 Hn), (read_far_colour _ _ _ _ _ _ _ Hh1 Hn). unfold refill.
  assert (kid_of d (mk d Black near y far) = near) as -> by by destruct d. assert (kid_of (flip d) (mk d Black near y far) = far) as -> by by destruct d.
  rewrite !ptr_mk. destruct (decide (colour_at far = Red)) as [Ef|Ef].
  { rewrite (bool_decide_true (colour_at far = Red)) by done. rewrite andb_false_r. cbn [negb mbind outcome_bind].
    destruct (fill_last k d c Black t p near y far s Hs Ef) as (s' & E & H1 & S1). cbv zeta in E. rewrite E. by exists s'. }
  rewrite (bool_decide_false (colour_at far = Red)) by done. destruct (decide (colour_at near = Red)) as [En|En].
  - rewrite bool_decide_true by done. cbn [negb andb]. destruct (read_kids _ _ _ _ _ _ _ Hh1) as [Hk _]. rewrite Hk.
    destruct (tree_cases d near) as [->|(cn & na & z & nb & ->)]; [done|]. rewrite colour_mk in En. subst cn. rewrite !ptr_mk in *.
    destruct (paint_spec _ (mk_frame d Black y far :: mk_frame (flip d) c p t :: k) d Red na z nb Black Hh1) as [H1 S1].
    assert (holds (set_colour z Black s) (plug (mk_frame (flip d) c p t :: k) (mk d Black (mk d Black na z nb) y far))) as H1' by exact H1. clear H1.
    destruct (paint_spec _ _ _ _ _ _ _ Red H1') as [H2 S2]. rewrite <-!(mk_flip d) in H2.
    destruct (rotate_still _ _ _ _ _ _ _ _ _ _ H2) as (s3 & -> & H3 & S3). cbn [mbind outcome_bind]. rewrite !mk_flip in H3.
    assert (still s s3) as S by (by do 2 (etrans; [eassumption|])). rewrite plug_other in H3.
    assert (stands s3 (mk_frame d c p (mk d Black na z (mk d Red nb y far)) :: k) t) as Hs3 by by eapply stands_still.
    pose proof (stands_parent _ _ _ Hs3) as Hp3. simpl in Hp3. destruct (read_kids _ _ _ _ _ _ _ H3) as [_ Hk3]. rewrite ptr_mk in Hk3.
    assert (kid (flip d) (parent (ptr t) s3) s3 = z) as -> by (by rewrite Hp3). cbv beta iota.
    destruct (fill_last k d c Black t p na z (mk d Red nb y far) s3 Hs3 (colour_mk _ _ _ _ _)) as (s' & E & H4 & S4). cbv zeta in E. rewrite E.
    exists s'. split; [done|]. split; [|by etrans]. rewrite paint_mk in H4. by destruct d.
  - rewrite bool_decide_false by done. cbn [negb andb]. cbv zeta. rewrite parent_set_colour, Hp.
    destruct (paint_spec _ _ _ _ _ _ _ Red Hh1) as [H1 S1]. rewrite plug_other in H1. exists (set_colour y Red s).
    split; [done|]. split; [|done]. simpl. by rewrite paint_mk.
Qed.

Lemma fill_up_red k t : colour_at t = Red → fill_up k t = plug k (paint Black t).
Proof. intros E. destruct k as [|[d cf p w] k]; cbn [fill_up]; by rewrite decide_True. Qed.
(** The loop stops at a red node and at the root. *)
Lemma remove_loop_red fuel k t s : holds s (plug k t) → colour_at t = Red →
  remove_fixup_loop (S fuel) (ptr t) s = Done (ptr t, s) ∧ holds (set_colour (ptr t) Black s) (plug k (paint Black t)).
Proof.
  intros Hh E. destruct t as [|c l x r]; [done|]. simpl in E. subst c.
  destruct (paint_spec _ _ L _ _ _ _ Black Hh) as [H1 _]. split; [|exact H1].
  cbn [remove_fixup_loop ptr]. rewrite is_red_spec. rewrite (read_colour s k L Red l x r Hh). by rewrite orb_true_r.
Qed.
Lemma remove_loop_root fuel s t m : holds s t → rbt t Black m →
  remove_fixup_loop (S fuel) (root s) s = Done (root s, s) ∧ holds (set_colour (root s) Black s) t.
Proof.
  intros Hh Ht. split; [cbn [remove_fixup_loop]; by rewrite Z.eqb_refl|]. destruct (paint_root s t Hh) as [H1 _].
  pose proof (rbt_colour _ _ _ Ht) as E. by rewrite E, paint_same, <-E in H1.
Qed.
Lemma refill_up d c t p w t' : refill d c t p w = (t', true) → t' ≠ Leaf ∧ ptr t' = p ∧ colour_at t' = c.
Proof.
  unfold refill. intros E. repeat case_decide; try done. injection E as <-. split; [apply mk_not_leaf|]. by rewrite ptr_mk, colour_mk.
Qed.
Lemma remove_fixup_loop_spec k : ∀ t s fuel a c m, (S (length k) < fuel)%nat → crb k a (S m) → rbt t c m →
  stands s k t → colour_of nil s = Black →
  ∃ x s', remove_fixup_loop fuel (ptr t) s = Done (x, s') ∧ holds (set_colour x Black s') (fill_up k t) ∧ kept s s'.
Proof.
  induction k as [|[d cf p w] k IH]; intros t s fuel a c m Hf Hk Ht Hs Hn; destruct (fill_up_ok _ t a c m Hk Ht) as [mf Hok].
  all: destruct fuel as [|fuel]; [lia|]; cbn [remove_fixup_loop]; rewrite (stands_root _ _ _ Hs).
  { rewrite bool_decide_true by done. cbn [orb]. eexists _, _. split; [done|]. split; [|done].
    pose proof (stands_root _ _ _ Hs) as ->%Z.eqb_eq. destruct (paint_root s _ (proj1 Hs)) as [H1 _].
    cbn [fill_up plug] in *. destruct (decide _) as [E|E]; [exact H1|].
    assert (paint Black t = t) as Hp by (rewrite <-(other_colour _ E); apply paint_same). by rewrite Hp in H1. }
  rewrite bool_decide_false by done. cbn [orb]. pose proof (proj1 Hs) as Hh. rewrite is_red_spec, (holds_colour _ _ _ Hh Hn).
  case_bool_decide as Et.
  { destruct (remove_loop_red fuel _ _ _ Hh Et) as [_ H1]. rewrite fill_up_red by done. eexists _, _. by split. }
  assert (∃ cw, rbt w cw (S m)) as [cw Hw] by (inversion Hk; subst; eauto; rewrite (rbt_colour _ _ _ Ht) in *; eauto).
  destruct (rbt_sibling_ok w cw m Hw) as [Hwl Hwk]. pose proof (stands_parent _ _ _ Hs) as Hp. simpl in Hp. rewrite Hp.
  rewrite (read_side s k d cf t p w Hh (or_intror Hwl)), (read_far_colour s k d cf t p w Hh Hn).
  destruct (read_kids s k d cf t p w Hh) as [_ Hkw]. rewrite Hkw. cbn [fill_up] in Hok |- *. rewrite decide_False in Hok |- * by done. simpl in Hf.
  destruct (decide (colour_at w = Red)) as [Ew|Ew].
  - rewrite bool_decide_true by done. assert (cf = Black) as -> by (destruct cf; [|done]; apply crb_inv_red in Hk as (_ & Hb & _); by rewrite <-(rbt_colour _ _ _ Hb) in Ew).
    destruct (tree_cases d w) as [?|(cw' & wa & y & wb & ->)]; [done|]. rewrite colour_mk in Ew. subst cw'. rewrite !ptr_mk in *. rewrite !parent_set_colour, Hp.
    assert (kid_of d (mk d Red wa y wb) = wa) as Ewa by by destruct d. assert (kid_of (flip d) (mk d Red wa y wb) = wb) as Ewb by by destruct d.
    rewrite Ewa, Ewb in *. apply rbt_inv_red in Hw as (_ & Hwa & _).
    assert (holds s (plug (mk_frame (flip d) Black p t :: k) (mk d Red wa y wb))) as Hh1 by by rewrite plug_other.
    destruct (paint_spec _ _ _ _ _ _ _ Black Hh1) as [H1 S1]. rewrite plug_other in H1. destruct (paint_spec _ _ _ _ _ _ _ Red H1) as [H2 S2].
    destruct (rotate_still _ _ _ _ _ _ _ _ _ _ H2) as (s3 & -> & H3 & S3). cbn [mbind outcome_bind].
    assert (still s s3) as S by (by do 2 (etrans; [eassumption|])).
    assert (stands s3 (mk_frame d Red p wa :: mk_frame d Black y wb :: k) t) as Hs3 by by eapply stands_still.
    pose proof (stands_parent _ _ _ Hs3) as Hp3. simpl in Hp3.
    destruct (read_kids _ (mk_frame d Black y wb :: k) _ _ _ _ _ H3) as [_ Hk3]. assert (kid (flip d) (parent (ptr t) s3) s3 = ptr wa) as -> by (by rewrite Hp3).
    destruct (refill_spec fuel (mk_frame d Black y wb :: k) d Red t p wa s3 Hs3) as (s1 & E & H4 & S4);
      [by rewrite <-(rbt_colour _ _ _ Hwa)|by eapply rbt_height_not_leaf|by rewrite (still_nil _ _ S)|]. cbv zeta in E. rewrite E. clear E.
    destruct (refill d Red t p wa) as [t' up] eqn:Er. simpl fst in *. simpl snd in *. destruct fuel as [|fuel]; [lia|]. destruct up.
    + destruct (refill_up _ _ _ _ _ _ Er) as (Hl & <- & Hc). destruct (remove_loop_red fuel _ t' s1 H4 Hc) as [-> H5].
      eexists _, _. split; [done|]. split; [done|]. etrans; [apply S|apply S4].
    + destruct (remove_loop_root fuel s1 _ _ H4 Hok) as [-> H5]. eexists _, _. split; [done|]. split; [done|]. etrans; [apply S|apply S4].
  - rewrite bool_decide_false by done. cbn [mbind outcome_bind].
    destruct (refill_spec fuel k d cf t p w s Hs (other_colour _ Ew) Hwl Hn) as (s1 & E & H1 & S1). cbv zeta in E. rewrite E. clear E.
    pose proof (refill_ok d cf t p w m) as Hr. destruct (refill d cf t p w) as [t' up] eqn:Er. simpl in H1 |- *. destruct up.
    + destruct (refill_up _ _ _ _ _ _ Er) as (Hl & <- & Hc). destruct cf.
      * destruct fuel as [|fuel]; [lia|]. destruct (remove_loop_red fuel k t' s1 H1 Hc) as [-> H2]. rewrite fill_up_red by done.
        eexists _, _. split; [done|]. split; [done|]. apply S1.
      * destruct (crb_inv_black _ _ _ _ _ _ Hk) as (_ & c1 & a' & Hw' & Hk'). rewrite <-(rbt_colour _ _ _ Hw) in Ew.
        rewrite (other_colour _ Ew) in Hw. rewrite <-(rbt_colour _ _ _ Ht) in Et. rewrite (other_colour _ Et) in Ht.
        destruct (Hr Ht Hw) as [Hr1 _]. rewrite <-Hc, paint_same, Hc in Hr1.
        destruct (IH t' s1 fuel a' Black (S m) ltac:(lia) Hk' Hr1) as (x & s' & E & H2 & S2).
        { split; [done|]. intros ->. done. } { by rewrite (still_nil _ _ S1). }
        exists x, s'. split; [done|]. split; [done|]. etrans; [apply S1|done].
    + destruct fuel as [|fuel]; [lia|]. destruct (remove_loop_root fuel s1 _ _ H1 Hok) as [-> H2]. eexists _, _. split; [done|]. split; [done|]. apply S1.
Qed.
