(* ===== verification/RbtreeIns.v ===== *)
(** The list that runs through the nodes in order, and insertion: the node goes where
    [rb_insert] puts it in the list, and the tree stays balanced. *)

From stdpp Require Import sorting.
From S2P Require Import Prelude Math Sched SchedInv Rbtree RbTrees RbtreeRep RbtreeFix.

(** * The list *)
Definition front (n : Z) (l : list Z) : Z := match l with [] => n | x :: _ => x end.
Fixpoint back (p : Z) (l : list Z) : Z := match l with [] => p | x :: l => back x l end.
(** [l] comes after [p] and before [n]. *)
Fixpoint linked (s : rbtree) (p : Z) (l : list Z) (n : Z) : Prop :=
  match l with
  | [] => True
  | x :: l => predecessor x s = p ∧ successor x s = front n l ∧ linked s x l n
  end.
Lemma back_snoc p l x : back p (l ++ [x]) = x.
Proof. revert p. induction l as [|y l IH]; intros p; [done|]. apply IH. Qed.
Lemma front_app n l l' : front n (l ++ l') = front (front n l') l.
Proof. by destruct l. Qed.
Lemma front_cases n l : front n l = n ∧ l = [] ∨ front n l ∈ l.
Proof. destruct l; [by left|]. right. by left. Qed.
Lemma back_cases l : ∀ p, back p l = p ∧ l = [] ∨ back p l ∈ l.
Proof. induction l as [|x l IH]; intros p; [by left|]. right. simpl. destruct (IH x) as [[-> _]|?]; [by left|by right]. Qed.
Lemma back_app p l x l' : back p (l ++ x :: l') = back nil (x :: l').
Proof. revert p. induction l as [|y l IH]; intros p; [done|]. apply IH. Qed.
Lemma linked_app s l l' n : ∀ p, linked s p (l ++ l') n ↔ linked s p l (front n l') ∧ linked s (back p l) l' n.
Proof. induction l as [|x l IH]; intros p; simpl; [tauto|]. rewrite IH, front_app. tauto. Qed.
Lemma linked_ext s s' l n : ∀ p, linked s p l n → (∀ x, x ∈ l → successor x s' = successor x s ∧ predecessor x s' = predecessor x s) → linked s' p l n.
Proof.
  induction l as [|x l IH]; intros p Hl He; [done|]. simpl in *. destruct (He x) as [-> ->]; [by left|].
  destruct Hl as (? & ? & ?). split_and!; try done. apply IH; [done|]. intros y Hy. apply He. by right.
Qed.
Lemma linked_kept s s' l : linked s nil l nil → kept s s' → linked s' nil l nil.
Proof. intros Hl []. eapply linked_ext; [done|]. auto. Qed.
(** The end of a list gets another neighbour, the start of one as well. *)
Lemma linked_end s s' l n n' : ∀ p, linked s p l n → NoDup l → (∀ x, x ∈ l → predecessor x s' = predecessor x s) →
  (∀ x, x ∈ l → x ≠ back p l → successor x s' = successor x s) → (l ≠ [] → successor (back p l) s' = n') → linked s' p l n'.
Proof.
  induction l as [|x l IH]; intros p Hl Hnd Hp Hs Hb; [done|]. simpl in *. destruct Hl as (H1 & H2 & H3). apply NoDup_cons in Hnd as [Hx Hnd].
  split; [rewrite Hp; [done|by left]|]. split.
  - destruct l as [|y l]; [by apply Hb|]. rewrite Hs; [done|by left|]. intros E. apply Hx. rewrite E. destruct (back_cases (y :: l) x) as [[_ ?]|?]; done.
  - apply IH; try done; [intros y Hy; apply Hp; by right|intros y Hy; apply Hs; by right|]. intros _. by apply Hb.
Qed.
Lemma linked_start s s' l n p p' : linked s p l n → NoDup l → (∀ x, x ∈ l → successor x s' = successor x s) →
  (∀ x, x ∈ l → x ≠ front n l → predecessor x s' = predecessor x s) → (l ≠ [] → predecessor (front n l) s' = p') → linked s' p' l n.
Proof.
  destruct l as [|x l]; [done|]. simpl. intros (H1 & H2 & H3) [Hx Hnd]%NoDup_cons Hs Hp Hb. split; [by apply Hb|]. split; [rewrite Hs; [done|by left]|].
  eapply linked_ext; [exact H3|]. intros y Hy. split; [apply Hs; by right|]. apply Hp; [by right|]. by intros ->.
Qed.

Section neighbours.
Context (s s' : rbtree) (l1 l2 : list Z) (z : Z).
Context (Hnd : NoDup (l1 ++ l2)) (Hz : z ∉ l1 ++ l2) (Hn : nil ∉ l1 ++ l2).

Lemma neighbours_apart : (∀ x, x ∈ l1 → x ≠ z ∧ x ≠ front nil l2) ∧ (∀ x, x ∈ l2 → x ≠ z ∧ x ≠ back nil l1) ∧ NoDup l1 ∧ NoDup l2.
Proof.
  rewrite elem_of_app in Hz, Hn. apply NoDup_app in Hnd as (Hn1 & Hd & Hn2).
  split; [|split; [|done]]; intros x Hx; (split; [intros ->; tauto|]); intros E.
  - destruct (front_cases nil l2) as [[Ef _]|Hf]; [rewrite E, Ef in Hx; tauto|]. rewrite <-E in Hf. by apply (Hd x).
  - destruct (back_cases l1 nil) as [[Ef _]|Hf]; [rewrite E, Ef in Hx; tauto|]. rewrite <-E in Hf. by apply (Hd x).
Qed.
(** [z] comes between [l1] and [l2]. *)
Lemma linked_insert : linked s nil (l1 ++ l2) nil → successor z s' = front nil l2 → predecessor z s' = back nil l1 →
  (∀ x, x ≠ z → x ≠ back nil l1 → successor x s' = successor x s) → (l1 ≠ [] → successor (back nil l1) s' = z) →
  (∀ x, x ≠ z → x ≠ front nil l2 → predecessor x s' = predecessor x s) → (l2 ≠ [] → predecessor (front nil l2) s' = z) →
  linked s' nil (l1 ++ z :: l2) nil.
Proof.
  intros [L1 L2]%linked_app Hsz Hpz Hs Hs1 Hp Hp2. destruct neighbours_apart as (H1 & H2 & Hn1 & Hn2).
  apply linked_app. split; [|split; [done|split; [done|]]].
  - eapply linked_end; [exact L1|done| |intros x Hx Hb; apply Hs; [by apply H1|done]|done]. intros x Hx. by apply Hp; apply H1.
  - eapply linked_start; [exact L2|done| |intros x Hx Hb; apply Hp; [by apply H2|done]|done]. intros x Hx. by apply Hs; apply H2.
Qed.
(** [z] goes. *)
Lemma linked_remove : linked s nil (l1 ++ z :: l2) nil →
  (∀ x, x ≠ z → x ≠ back nil l1 → successor x s' = successor x s) → (l1 ≠ [] → successor (back nil l1) s' = front nil l2) →
  (∀ x, x ≠ z → x ≠ front nil l2 → predecessor x s' = predecessor x s) → (l2 ≠ [] → predecessor (front nil l2) s' = back nil l1) →
  linked s' nil (l1 ++ l2) nil.
Proof.
  intros [L1 (Hpz & Hsz & L2)]%linked_app Hs Hs1 Hp Hp2. destruct neighbours_apart as (H1 & H2 & Hn1 & Hn2).
  apply linked_app. split.
  - eapply linked_end; [exact L1|done| |intros x Hx Hb; apply Hs; [by apply H1|done]|done]. intros x Hx. by apply Hp; apply H1.
  - eapply linked_start; [exact L2|done| |intros x Hx Hb; apply Hp; [by apply H2|done]|done]. intros x Hx. by apply Hs; apply H2.
Qed.
End neighbours.

(** * The place of a new node *)
Section place.
Context (less : Z → Z → bool).

Fixpoint place (z : Z) (k : ctx) (t : tree) : ctx :=
  match t with
  | Leaf => k
  | Node c l x r => if less z x then place z (mk_frame L c x r :: k) l else place z (mk_frame R c x l :: k) r
  end.
Lemma place_plug z t : ∀ k, plug (place z k t) Leaf = plug k t.
Proof. induction t as [|c l IHl x r IHr]; intros k; [done|]. simpl. destruct (less z x); [apply IHl|apply IHr]. Qed.
Lemma place_length z t : ∀ k, (length (place z k t) ≤ length k + height t)%nat.
Proof.
  induction t as [|c l IHl x r IHr]; intros k; simpl; [lia|]. destruct (less z x); [specialize (IHl (mk_frame L c x r :: k))|specialize (IHr (mk_frame R c x l :: k))]; simpl in *; lia.
Qed.
Lemma place_side z t : ∀ k, t ≠ Leaf → ∃ f k', place z k t = f :: k' ∧ f_side f = (if less z (f_key f) then L else R).
Proof.
  induction t as [|c l IHl x r IHr]; intros k Ht; [done|]. simpl. destruct (less z x) eqn:E.
  - destruct (decide (l = Leaf)) as [->|Hl]; [simpl; eexists _, _; split; [done|]; simpl; by rewrite E|]. by apply IHl.
  - destruct (decide (r = Leaf)) as [->|Hr]; [simpl; eexists _, _; split; [done|]; simpl; by rewrite E|]. by apply IHr.
Qed.
(** The nodes before it are not greater, those after it are. *)
Lemma place_order z t : weak_order less → ∀ k, ordered less (inorder t) →
  Forall (λ b, less z b = false) (all_before k) → Forall (λ a, less z a = true) (all_after k) →
  Forall (λ b, less z b = false) (all_before (place z k t)) ∧ Forall (λ a, less z a = true) (all_after (place z k t)).
Proof.
  intros [Htr Has]. induction t as [|c l IHl x r IHr]; intros k Ho Hb Ha; [done|]. simpl in *.
  apply StronglySorted_app in Ho as (Hlr & Hl & Hr). apply StronglySorted_inv in Hr as [Hr Hxr]. rewrite Forall_forall in Hxr.
  destruct (less z x) eqn:E; [apply IHl|apply IHr]; try done; simpl.
  - by rewrite app_nil_r.
  - constructor; [done|]. apply Forall_app. split; [|done]. apply Forall_forall. intros y Hy. destruct (less z y) eqn:Ey; [done|].
    specialize (Hxr y Hy). simpl in Hxr. by rewrite (Htr z y x) in E.
  - apply Forall_app. split; [done|]. apply Forall_app. split; [|by constructor]. apply Forall_forall. intros y Hy.
    apply (Htr z x y); [done|]. apply (Hlr y x); [done|by left].
Qed.
Lemma rb_insert_app z l1 l2 : Forall (λ b, less z b = false) l1 → Forall (λ a, less z a = true) l2 → rb_insert less z (l1 ++ l2) = l1 ++ z :: l2.
Proof.
  induction l1 as [|x l1 IH]; simpl.
  - intros _ Ha. destruct l2 as [|y l2]; [done|]. apply Forall_cons in Ha as [E _]. simpl. by rewrite E.
  - intros [E Hb]%Forall_cons Ha. rewrite E. by rewrite IH.
Qed.

Lemma find_place_spec s z t : ∀ k fuel, holds s (plug k t) → (height t < fuel)%nat →
  find_place less fuel z (ptr t) (par_of k) s = Done (par_of (place z k t)).
Proof.
  induction t as [|c l IHl x r IHr]; intros k fuel Hh Hf; (destruct fuel as [|fuel]; [lia|]); cbn [find_place ptr place]; [done|].
  simpl in Hf. pose proof (read_ne _ _ L _ _ _ _ Hh) as Hx. rewrite (proj2 (Z.eqb_neq _ _)) by done.
  destruct (read_kids _ _ L _ _ _ _ Hh) as [E1 E2]. cbn [flip] in E2. destruct (less z x).
  - rewrite E1. apply (IHl (mk_frame L c x r :: k)); [exact Hh|lia].
  - rewrite E2. apply (IHr (mk_frame R c x l :: k)); [exact Hh|lia].
Qed.
End place.

(** * Linking a node in *)
Create Rewrite HintDb rb_reads.
Lemma succ_set_succ x y p s : successor x (set_successor y p s) = if decide (x = y) then p else successor x s.
Proof. unfold successor. simpl. by case_decide. Qed.
Lemma succ_set_pred x y p s : successor x (set_predecessor y p s) = successor x s.
Proof. unfold successor. simpl. by case_decide; subst. Qed.
Lemma pred_set_pred x y p s : predecessor x (set_predecessor y p s) = if decide (x = y) then p else predecessor x s.
Proof. unfold predecessor. simpl. by case_decide. Qed.
Lemma pred_set_succ x y p s : predecessor x (set_successor y p s) = predecessor x s.
Proof. unfold predecessor. simpl. by case_decide; subst. Qed.
Lemma succ_set_kid x d y p s : successor x (set_kid d y p s) = successor x s.
Proof. apply kept_set_kid. Qed.
Lemma pred_set_kid x d y p s : predecessor x (set_kid d y p s) = predecessor x s.
Proof. apply kept_set_kid. Qed.
#[export] Hint Rewrite succ_set_succ succ_set_pred pred_set_pred pred_set_succ succ_set_kid pred_set_kid : rb_reads.

(** The links of the list are no part of the shape. *)
Definition shaped (s s' : rbtree) : Prop := root s' = root s ∧ head s' = head s ∧ size s' = size s ∧ ∀ x, same_shape (hooks s x) (hooks s' x).
Lemma same_shape_trans h1 h2 h3 : same_shape h1 h2 → same_shape h2 h3 → same_shape h1 h3.
Proof. intros (? & ? & ? & ?) (? & ? & ? & ?). split_and!; congruence. Qed.
#[export] Instance shaped_preorder : PreOrder shaped.
Proof.
  split; [by intros s|]. intros s1 s2 s3 (H1 & H2 & H3 & H4) (H5 & H6 & H7 & H8). split_and!; try congruence.
  intros x. by eapply same_shape_trans.
Qed.
Lemma shaped_set_succ x p s : shaped s (set_successor x p s).
Proof. split_and!; try done. intros y. simpl. by case_decide; subst. Qed.
Lemma shaped_set_pred x p s : shaped s (set_predecessor x p s).
Proof. split_and!; try done. intros y. simpl. by case_decide; subst. Qed.
Lemma shaped_if (b : bool) s s1 s2 : shaped s s1 → shaped s s2 → shaped s (if b then s1 else s2).
Proof. by destruct b. Qed.
#[local] Hint Resolve shaped_set_succ shaped_set_pred : core.

Definition link (d : side) : Z → Z → rbtree → rbtree := match d with L => link_before | R => link_after end.
Definition toward (d : side) (x : Z) (s : rbtree) : Z := match d with L => predecessor x s | R => successor x s end.
Lemma link_shape d z y s : shaped (set_kid d y z s) (link d z y s).
Proof.
  destruct d; simpl; unfold link_before, link_after; cbv zeta.
  - etrans; [|apply shaped_set_pred]. apply (shaped_if (_ =? _)); [|etrans; [|apply shaped_set_succ]].
    all: etrans; [apply shaped_set_succ|apply shaped_set_pred].
  - etrans; [|apply shaped_set_succ]. apply (shaped_if (_ =? _)); [|etrans; [|apply shaped_set_pred]].
    all: etrans; [apply shaped_set_pred|apply shaped_set_succ].
Qed.
(** The neighbour of [y] on the side becomes the neighbour of [z]. *)
Lemma link_list d z y s w : z ≠ y → w = toward d y s → w ≠ z → w ≠ y →
  toward (flip d) z (link d z y s) = y ∧ toward d z (link d z y s) = w ∧ toward d y (link d z y s) = z ∧
  (w ≠ nil → toward (flip d) w (link d z y s) = z) ∧
  (∀ x, x ≠ z → x ≠ y → toward d x (link d z y s) = toward d x s) ∧
  (∀ x, x ≠ z → x ≠ w → toward (flip d) x (link d z y s) = toward (flip d) x s).
Proof.
  intros Hzy -> Hwz Hwy. destruct d; simpl in *; unfold link_before, link_after; cbv zeta.
  - split_and!; intros; autorewrite with rb_reads; destruct (Z.eqb_spec (predecessor y s) nil); autorewrite with rb_reads; repeat case_decide; congruence.
  - split_and!; intros; autorewrite with rb_reads; destruct (Z.eqb_spec (successor y s) nil); autorewrite with rb_reads; repeat case_decide; congruence.
Qed.

(** The shape of the tree when [z] hangs at its place. *)
Definition blank (z : Z) (s : rbtree) : rbtree := set_colour z Red (set_kid R z nil (set_kid L z nil s)).
Lemma blank_kept z s : kept s (blank z s) ∧ root (blank z s) = root s.
Proof. split; [|done]. etrans; [apply (kept_set_kid L)|]. etrans; [apply (kept_set_kid R)|apply kept_set_colour]. Qed.
Lemma blank_hooks z s x : hooks (blank z s) x = if decide (x = z) then
  let h := hooks s z in mk_hook (h_parent h) nil nil (h_successor h) (h_predecessor h) Red else hooks s x.
Proof. unfold blank. simpl. repeat (case_decide; subst; try done; simpl). Qed.
Lemma attach_spec s f k z : holds s (plug (f :: k) Leaf) → z ≠ nil → z ∉ inorder (plug (f :: k) Leaf) →
  holds (blank z (link (f_side f) z (f_key f) (set_parent z (f_key f) s))) (plug (f :: k) (Node Red Leaf z Leaf)).
Proof.
  intros Hh Hz Hzt. rewrite plug_keys in Hzt. apply holds_plug in Hh as (_ & Hc & Hnd & Hn). simpl in *.
  rewrite elem_of_cons, elem_of_app in Hzt.
  destruct (link_shape (f_side f) z (f_key f) (set_parent z (f_key f) s)) as (Hr & _ & _ & Hs).
  set (s2 := link (f_side f) z (f_key f) (set_parent z (f_key f) s)) in *. destruct f as [d c y b]; cbn [f_side f_colour f_key f_other] in *.
  destruct Hc as (Hy & Hpy & Hay & Hby & Hcy & Hrb & Hck). assert (y ≠ z) as Hyz by (intros ->; tauto).
  assert (∀ x, x ≠ z → x ≠ y → same_shape (hooks s x) (hooks (blank z s2) x)) as Ho.
  { intros x Hxz Hxy. rewrite blank_hooks, decide_False by done. specialize (Hs x). by rewrite hooks_set_kid, decide_False, hooks_set_parent, decide_False in Hs. }
  pose proof (Hs y) as Hsy. rewrite hooks_set_kid, decide_True, hooks_set_parent, decide_False in Hsy by done.
  pose proof (Hs z) as Hsz. rewrite hooks_set_kid, decide_False, hooks_set_parent, decide_True in Hsz by done.
  apply (proj2 (holds_plug _ (mk_frame d c y b :: k) _)). cbn [par_of rep rep_ctx ctx_keys inorder ptr app f_side f_colour f_key f_other]. split_and!; try done.
  - rewrite blank_hooks, decide_True by done. apply Hsz.
  - by rewrite blank_hooks, decide_True.
  - by rewrite blank_hooks, decide_True.
  - by rewrite blank_hooks, decide_True.
  - rewrite blank_hooks, decide_False by done. destruct Hsy as (-> & _). by rewrite with_kid_parent.
  - rewrite blank_hooks, decide_False by done. rewrite (same_shape_kid _ _ _ Hsy). apply with_kid_same.
  - rewrite blank_hooks, decide_False by done. rewrite (same_shape_kid _ _ _ Hsy). by rewrite with_kid_flip.
  - rewrite blank_hooks, decide_False by done. destruct Hsy as (_ & _ & _ & ->). by rewrite with_kid_colour.
  - apply NoDup_cons in Hnd as [Hyn _]. rewrite elem_of_app in Hyn.
    eapply rep_ext; [exact Hrb|]. intros x Hx. apply Ho; intros ->; tauto.
  - apply NoDup_cons in Hnd as [Hyn _]. rewrite elem_of_app in Hyn.
    assert (root (blank z s2) = root s) as -> by (rewrite (proj2 (blank_kept z s2)), Hr; by destruct d).
    eapply rep_ctx_ext; [exact Hck|]. intros x Hx. apply Ho; intros ->; tauto.
  - constructor; [|done]. rewrite elem_of_cons, elem_of_app. tauto.
  - rewrite elem_of_cons. intros [?|?]; [done|tauto].
Qed.

(** The node comes before [y], or after it. *)
Lemma link_before_linked s l1 y l2 z : linked s nil (l1 ++ y :: l2) nil → NoDup (l1 ++ y :: l2) → z ∉ l1 ++ y :: l2 → nil ∉ l1 ++ y :: l2 → z ≠ nil →
  linked (link_before z y s) nil (l1 ++ z :: y :: l2) nil.
Proof.
  intros Hl Hnd Hz Hn Hzn. destruct (neighbours_apart l1 (y :: l2) z Hnd Hz Hn) as (H1 & H2 & _ & _).
  destruct (H2 y) as [Hyz Hyb]; [by left|]. pose proof (proj1 (linked_app _ _ _ _ _) Hl) as [_ (Hp & _ & _)].
  assert (back nil l1 = nil ∧ l1 = [] ∨ back nil l1 ≠ nil ∧ back nil l1 ≠ z) as Hb.
  { rewrite elem_of_app in Hz, Hn. destruct (back_cases l1 nil) as [?|Hb]; [by left|]. right. split; intros E; rewrite E in Hb; tauto. }
  destruct (link_list L z y s (predecessor y s)) as (E1 & E2 & E3 & E4 & E5 & E6); rewrite ?Hp in *; [done|done|by destruct Hb as [[-> _]|[_ ?]]|done|].
  simpl in *. apply linked_insert with s; try done; intros; by destruct Hb as [[_ ?]|[? _]]; auto.
Qed.
Lemma link_after_linked s l1 y l2 z : linked s nil (l1 ++ y :: l2) nil → NoDup (l1 ++ y :: l2) → z ∉ l1 ++ y :: l2 → nil ∉ l1 ++ y :: l2 → z ≠ nil →
  linked (link_after z y s) nil (l1 ++ y :: z :: l2) nil.
Proof.
  rewrite (app_assoc l1 [y] l2 : l1 ++ y :: l2 = _), (app_assoc l1 [y] (z :: l2) : l1 ++ y :: z :: l2 = _).
  intros Hl Hnd Hz Hn Hzn. destruct (neighbours_apart (l1 ++ [y]) l2 z Hnd Hz Hn) as (H1 & H2 & _ & _).
  destruct (H1 y) as [Hyz Hyf]; [apply elem_of_app; right; by left|]. pose proof (proj1 (linked_app _ _ _ _ _) Hl) as [[_ (_ & Hs & _)]%linked_app _].
  simpl in Hs. assert (front nil l2 = nil ∧ l2 = [] ∨ front nil l2 ≠ nil ∧ front nil l2 ≠ z) as Hf.
  { rewrite elem_of_app in Hz, Hn. destruct (front_cases nil l2) as [?|Hf]; [by left|]. right. split; intros E; rewrite E in Hf; tauto. }
  destruct (link_list R z y s (successor y s)) as (E1 & E2 & E3 & E4 & E5 & E6); rewrite ?Hs in *; [done|done|by destruct Hf as [[-> _]|[_ ?]]|done|].
  simpl in *. apply linked_insert with s; rewrite ?back_snoc; try done; intros; by destruct Hf as [[_ ?]|[? _]]; auto.
Qed.
(** The place of the node in the tree is its place in the list. *)
Lemma attach_links s f k z : linked s nil (all_before (f :: k) ++ all_after (f :: k)) nil → 
  NoDup (all_before (f :: k) ++ all_after (f :: k)) → z ∉ all_before (f :: k) ++ all_after (f :: k) →
  nil ∉ all_before (f :: k) ++ all_after (f :: k) → z ≠ nil →
  linked (blank z (link (f_side f) z (f_key f) (set_parent z (f_key f) s))) nil (all_before (f :: k) ++ z :: all_after (f :: k)) nil.
Proof.
  intros Hl Hnd Hz Hn Hzn. eapply linked_kept; [|apply blank_kept]. set (s1 := set_parent z (f_key f) s).
  assert (linked s1 nil (all_before (f :: k) ++ all_after (f :: k)) nil) as Hl1 by (eapply linked_kept; [exact Hl|apply kept_set_parent]).
  clearbody s1. clear Hl. destruct f as [[] c y b]; unfold before, after in *; cbn [f_side f_key f_other all_before all_after] in *; simpl.
  - by apply link_before_linked.
  - assert (∀ l, (all_before k ++ inorder b ++ [y]) ++ l = (all_before k ++ inorder b) ++ y :: l) as Ha by (intros; by rewrite <-!app_assoc).
    rewrite !Ha in *. by apply link_after_linked.
Qed.

(** * Balance *)
Lemma rbt_height t c n : rbt t c n → (height t ≤ 2 * n + (if decide (c = Red) then 1 else 0))%nat ∧ 2 ^ Z.of_nat n ≤ Z.of_nat (length (inorder t)) + 1.
Proof.
  induction 1 as [|l x r n _ [IH1 IH2] _ [IH3 IH4]|l x r c c' n _ [IH1 IH2] _ [IH3 IH4]]; simpl in *; [split; lia| |].
  all: rewrite length_app; simpl; repeat case_decide; try done; split; try lia.
  all: rewrite Nat2Z.inj_succ, Z.pow_succ_r by lia; lia.
Qed.
Lemma addresses_length l : NoDup l → Forall (λ x : Z, 0 < x < 2 ^ 64) l → Z.of_nat (length l) < 2 ^ 64.
Proof.
  intros Hnd Hf. rewrite Forall_forall in Hf. assert (l ⊆+ seqZ 1 (2 ^ 64 - 1)) as Hs.
  { apply NoDup_submseteq; [done|]. intros x Hx. apply elem_of_seqZ. specialize (Hf x Hx). lia. }
  apply submseteq_length in Hs. rewrite length_seqZ in Hs. lia.
Qed.
(** No path is longer than this. *)
Definition enough : nat := 132.

Record good (s : rbtree) (t : tree) : Prop := {
  gd_holds : holds s t;
  gd_rbt : ∃ n, rbt t Black n;
  gd_links : linked s nil (inorder t) nil;
  gd_head : head s = front nil (inorder t);
  gd_size : size s = Z.of_nat (length (inorder t));
  gd_range : Forall (λ x : Z, 0 < x < 2 ^ 64) (inorder t) }.
Lemma good_length s t : good s t → Z.of_nat (length (inorder t)) < 2 ^ 64.
Proof. intros []. apply addresses_length; [apply gd_holds0|done]. Qed.
Lemma good_height s t : good s t → (height t ≤ 128)%nat.
Proof.
  intros Hg. pose proof (good_length s t Hg) as Hl. destruct (gd_rbt _ _ Hg) as [n [H1 H2]%rbt_height].
  rewrite decide_False in H1 by done. assert (Z.of_nat n < 65) as Hn; [|lia].
  apply (Z.pow_lt_mono_r_iff 2); lia.
Qed.

(** The hooks of a new node and of [nil] are initialised. *)
Lemma good_hook s t x h : good s t → x ∉ inorder t → good (set_hook x h s) t.
Proof.
  intros [[Hr Hrt Hnd Hn] Hb Hl Hh Hs Hra] Hx.
  assert (∀ y, y ∈ inorder t → hooks (set_hook x h s) y = hooks s y) as E by (intros y Hy; simpl; rewrite decide_False; [done|by intros ->]).
  split; try done.
  - split; try done. eapply rep_ext; [exact Hr|]. intros y Hy. by rewrite E.
  - eapply linked_ext; [exact Hl|]. intros y Hy. unfold successor, predecessor. by rewrite E.
Qed.
Lemma good_nil s t : good s t → nil ∉ inorder t.
Proof. intros Hg. apply (gd_holds _ _ Hg). Qed.
Lemma good_root s t : good s t → root s = ptr t.
Proof. intros Hg. apply (gd_holds _ _ Hg). Qed.

Section order.
Context (less : Z → Z → bool).
Lemma rb_insert_length z l : length (rb_insert less z l) = S (length l).
Proof. induction l as [|x l IH]; simpl; [done|]. destruct (less z x); simpl; lia. Qed.

Lemma holds_set_head s t x : holds s t → holds (set_head x s) t.
Proof. by intros []. Qed.
Lemma head_choice s l1 l2 z : head s = front nil (l1 ++ l2) → nil ∉ l1 ++ l2 →
  Forall (λ b, less z b = false) l1 → Forall (λ a, less z a = true) l2 →
  let s' := if (head s =? nil) || less z (head s) then set_head z s else s in
  head s' = front nil (l1 ++ z :: l2) ∧ (s' = s ∨ s' = set_head z s).
Proof.
  intros E Hn Hb Ha. cbv zeta. rewrite E. destruct l1 as [|x l1]; simpl.
  - destruct l2 as [|x l2]; simpl; [by split; [|right]|]. apply Forall_cons in Ha as [-> _]. rewrite orb_true_r. split; [done|by right].
  - apply Forall_cons in Hb as [-> _]. rewrite (proj2 (Z.eqb_neq x nil)) by (intros ->; apply Hn; by left). simpl.
    split; [by rewrite E|by left].
Qed.
(** [_insert] below an existing node. *)
Lemma _insert_spec s t z fuel : weak_order less → ordered less (inorder t) → good s t → t ≠ Leaf → colour_of nil s = Black → z ∉ inorder t → 0 < z < 2 ^ 64 → (enough ≤ fuel)%nat →
  ∃ s' t', _insert less fuel z s = Done s' ∧ holds s' t' ∧ (∃ n, rbt t' Black n) ∧ linked s' nil (inorder t') nil ∧
    head s' = front nil (inorder t') ∧ size s' = size s ∧ inorder t' = rb_insert less z (inorder t).
Proof.
  intros Hw Ho Hg Htl Hnil Hz Hzr Hfuel. pose proof (good_height s t Hg) as Hht. pose proof (gd_holds _ _ Hg) as Hh. pose proof (good_nil _ _ Hg) as Hnt.
  assert (z ≠ nil) as Hzn by (unfold nil; lia). unfold enough in Hfuel.
  unfold _insert. rewrite (proj2 (Z.eqb_neq z nil)) by done. cbn [bug_on mbind outcome_bind].
  rewrite (good_root _ _ Hg). pose proof (find_place_spec less s z t [] fuel Hh ltac:(lia)) as Efp. change (par_of []) with nil in Efp. rewrite Efp. cbn [mbind outcome_bind].
  destruct (place_side less z t [] Htl) as (f & k & Ef & Hside). pose proof (place_plug less z t []) as Hplug.
  pose proof (place_length less z t []) as Hlen. destruct (place_order less z t Hw [] Ho) as [Hb Ha]; [by constructor..|].
  rewrite Ef in *. simpl in Hlen. change (plug [] t) with t in Hplug. simpl par_of.
  assert (inorder t = all_before (f :: k) ++ all_after (f :: k)) as El by (rewrite <-Hplug, inorder_plug; done).
  assert (f_key f ≠ nil) as Hyn. { rewrite <-Hplug in Hh. apply (read_ne _ _ _ _ _ _ _ Hh). }
  rewrite (proj2 (Z.eqb_neq (f_key f) nil)) by done. cbv zeta.
  assert ((if less z (f_key f) then link_before z (f_key f) (set_parent z (f_key f) s) else link_after z (f_key f) (set_parent z (f_key f) s))
    = link (f_side f) z (f_key f) (set_parent z (f_key f) s)) as -> by (rewrite Hside; by destruct (less z (f_key f))).
  fold (blank z (link (f_side f) z (f_key f) (set_parent z (f_key f) s))).
  pose proof Hh as Hh1. rewrite <-Hplug in Hh1, Hz. pose proof (attach_spec s f k z Hh1 Hzn Hz) as H2. rewrite Hplug in Hz.
  rewrite El in Hz, Hnt. pose proof (gd_links _ _ Hg) as Hl. rewrite El in Hl. pose proof (ho_nodup _ _ Hh) as Hnd. rewrite El in Hnd.
  pose proof (attach_links s f k z Hl Hnd Hz Hnt Hzn) as L2. destruct (link_shape (f_side f) z (f_key f) (set_parent z (f_key f) s)) as (_ & Hhd & Hsz & Hss).
  pose proof (Hss nil) as Hsn. rewrite hooks_set_kid, decide_False, hooks_set_parent, decide_False in Hsn by done.
  set (s2 := link (f_side f) z (f_key f) (set_parent z (f_key f) s)) in *.
  destruct (blank_kept z s2) as [[Bh Bs _ _] _].
  assert (head (blank z s2) = front nil (inorder t)) as Hhead by (rewrite Bh, Hhd, <-(gd_head _ _ Hg); by destruct (f_side f)).
  assert (colour_of nil (blank z s2) = Black) as Hn2.
  { unfold colour_of. rewrite blank_hooks, decide_False by done. destruct Hsn as (_ & _ & _ & ->). exact Hnil. }
  assert (size (blank z s2) = size s) as Hsize by (rewrite Bs, Hsz; by destruct (f_side f)).
  cbv zeta. set (s3 := if _ || _ then _ else _).
  assert (holds s3 (plug (f :: k) (Node Red Leaf z Leaf)) ∧ kept (set_head (head s3) (blank z s2)) s3 ∧ hooks s3 = hooks (blank z s2) ∧
    head s3 = front nil (rb_insert less z (inorder t))) as (H3 & K3 & Hk3 & Hd3).
  { assert (head s3 = front nil (rb_insert less z (inorder t)) ∧ (s3 = blank z s2 ∨ s3 = set_head z (blank z s2))) as [Hd [E|E]].
    - rewrite El, rb_insert_app by done. apply head_choice; try done. by rewrite Hhead, El.
    - rewrite E in Hd |- *. done.
    - rewrite E in Hd |- *. split; [by apply holds_set_head|done]. }
  destruct (gd_rbt _ _ Hg) as [n Hn]. rewrite <-Hplug in Hn. apply rbt_plug in Hn as (a & c & m & Hleaf & Hk & _). assert (m = O) as -> by (by inversion Hleaf).
  destruct (insert_fixup_spec (f :: k) (Node Red Leaf z Leaf) s3 fuel a 0) as (s' & E & H4 & K4); [simpl; lia|done|by repeat constructor|done|unfold colour_of; by rewrite Hk3|].
  exists s', (paint Black (fix_up (f :: k) (Node Red Leaf z Leaf))). simpl ptr in E. split; [exact E|].
  assert (inorder (paint Black (fix_up (f :: k) (Node Red Leaf z Leaf))) = rb_insert less z (inorder t)) as Ei.
  { rewrite inorder_paint, (inorder_fix_up (length (f :: k))) by lia. rewrite inorder_plug. rewrite El, rb_insert_app by done. done. }
  split; [done|]. split; [eapply fix_up_ok; [reflexivity|done|by repeat constructor]|]. rewrite Ei. split_and!; try done.
  - eapply linked_kept; [|exact K4]. eapply linked_kept; [|exact K3]. rewrite El, rb_insert_app by done.
    eapply linked_ext; [exact L2|done].
  - rewrite (kp_head _ _ K4). exact Hd3.
  - rewrite (kp_size _ _ K4), (kp_size _ _ K3). exact Hsize.
Qed.
(** Insertion: every loop ends, no assertion fails, and the tree is as it has to be. *)
Lemma insert_good s t z fuel : weak_order less → ordered less (inorder t) → good s t → z ∉ inorder t → 0 < z < 2 ^ 64 → (enough ≤ fuel)%nat →
  ∃ s' t', insert less fuel z s = Done s' ∧ good s' t' ∧ inorder t' = rb_insert less z (inorder t).
Proof.
  intros Hw Ho Hg Hz Hzr Hfuel. unfold insert. assert (z ≠ nil) as Hzn by (unfold nil; lia).
  rewrite (proj2 (Z.eqb_neq z nil)) by done. cbn [bug_on mbind outcome_bind].
  set (s0 := set_hook z new_hook (set_hook nil new_hook s)).
  assert (good s0 t) as Hg0 by (apply good_hook; [apply good_hook; [done|by eapply good_nil]|done]).
  assert (Z.of_nat (length (rb_insert less z (inorder t))) < 2 ^ 64) as Hlen.
  { apply addresses_length; [apply rb_insert_NoDup; [done|apply (gd_holds _ _ Hg)]|]. apply Forall_forall. intros x [->|Hx]%rb_insert_elem; [done|].
    pose proof (gd_range _ _ Hg) as Hr. rewrite Forall_forall in Hr. by apply Hr. }
  rewrite rb_insert_length in Hlen. cbv zeta. pose proof (gd_size _ _ Hg0) as Hsz.
  assert (w64 (size s0 + 1) = size s0 + 1) as Hw64 by (apply w64_small; lia).
  rewrite (good_root _ _ Hg0). destruct (decide (t = Leaf)) as [->|Ht].
  - simpl ptr. rewrite Z.eqb_refl. cbn [mbind outcome_bind]. eexists _, (Node Black Leaf z Leaf). split; [done|]. split; [|done].
    split; simpl.
    + split; simpl; [|done|by apply NoDup_singleton|set_solver]. rewrite decide_True by done. done.
    + exists 1%nat. by repeat econstructor.
    + unfold predecessor, successor. simpl. by rewrite decide_True.
    + done.
    + change (size s) with (size s0). by rewrite Hw64, Hsz.
    + by constructor.
  - rewrite (proj2 (Z.eqb_neq (ptr t) nil)). 2: { intros E. by apply (holds_leaf_or s0 [] t (gd_holds _ _ Hg0)) in E. }
    destruct (_insert_spec s0 t z fuel Hw Ho Hg0 Ht) as (s' & t' & E & H1 & H2 & H3 & H4 & H5 & H6); [unfold colour_of; simpl; by rewrite decide_False|done..|].
    rewrite E. cbn [mbind outcome_bind]. eexists _, t'. split; [done|]. split; [|done].
    split; simpl; try done.
    + by destruct H1.
    + eapply linked_ext; [exact H3|done].
    + rewrite H5, H6, Hw64, Hsz, rb_insert_length. lia.
    + rewrite H6. apply Forall_forall. intros x [->|Hx]%rb_insert_elem; [done|].
      pose proof (gd_range _ _ Hg) as Hr. rewrite Forall_forall in Hr. by apply Hr.
Qed.
End order.
