(* ===== verification/RbtreeDel.v ===== *)
(** Removal: the node leaves the list and the tree, and the tree stays balanced. *)

From S2P Require Import Prelude Math Sched SchedInv Rbtree RbTrees RbtreeRep RbtreeFix RbtreeIns.

Lemma node_at x t : x ∈ inorder t → ∃ k c l r, t = plug k (Node c l x r).
Proof.
  assert (∀ k, x ∈ inorder t → ∃ k' c l r, plug k t = plug k' (Node c l x r)) as Hg; [|apply (Hg [])].
  induction t as [|c l IHl y r IHr]; intros k; [set_solver|]. simpl. rewrite elem_of_app, elem_of_cons. intros [Hx|[->|Hx]].
  - by apply (IHl (mk_frame L c y r :: k)).
  - by exists k, c, l, r.
  - by apply (IHr (mk_frame R c y l :: k)).
Qed.
Lemma holds_shape s s' t : holds s t → root s' = root s → (∀ x, same_shape (hooks s x) (hooks s' x)) → holds s' t.
Proof. intros [Hr Hrt Hnd Hn] E Hs. split; [|congruence|done|done]. eapply rep_ext; [exact Hr|done]. Qed.

(** * The list *)
Lemma linked_back s l n : ∀ p, linked s p l n → l ≠ [] → successor (back p l) s = n.
Proof.
  induction l as [|x l IH]; intros p Hl Hne; [done|]. destruct Hl as (_ & Hs & Hl). destruct l as [|y l]; [done|]. by apply (IH x).
Qed.
Lemma succ_set_head x y s : successor x (set_head y s) = successor x s.
Proof. done. Qed.
Lemma pred_set_head x y s : predecessor x (set_head y s) = predecessor x s.
Proof. done. Qed.
#[local] Hint Rewrite succ_set_head pred_set_head : rb_reads.
Lemma unlink_spec s z l1 l2 : linked s nil (l1 ++ z :: l2) nil → NoDup (l1 ++ z :: l2) → nil ∉ l1 ++ z :: l2 → head s = front nil (l1 ++ z :: l2) →
  ∃ s', unlink_neighbours z s = Done s' ∧ linked s' nil (l1 ++ l2) nil ∧ head s' = front nil (l1 ++ l2) ∧
    root s' = root s ∧ size s' = size s ∧ ∀ x, same_shape (hooks s x) (hooks s' x).
Proof.
  intros Hl Hnd Hn Hh. pose proof (proj1 (linked_app _ _ _ _ _) Hl) as [L1 (Hp & Hs & L2)].
  assert (NoDup (l1 ++ l2) ∧ (z ∉ l1 ++ l2)) as [Hnd' Hz] by (rewrite <-Permutation_middle in Hnd; by apply NoDup_cons in Hnd as [? ?]).
  assert ((nil ∉ l1 ++ l2) ∧ z ≠ nil) as [Hn' Hzn] by (rewrite <-Permutation_middle, elem_of_cons in Hn; split; [tauto|intros ->; tauto]).
  pose proof Hz as Hz0. pose proof Hn' as Hn0. rewrite elem_of_app in Hn', Hz.
  set (pred := back nil l1) in *. set (succ := front nil l2) in *.
  assert (pred = nil ∧ l1 = [] ∨ pred ≠ nil ∧ pred ∈ l1 ∧ successor pred s = z) as Hpred.
  { destruct (back_cases l1 nil) as [?|Hb]; [by left|]. right. split; [intros E; apply Hn'; unfold pred in E; rewrite E in Hb; by left|]. split; [done|].
    apply (linked_back _ _ _ _ L1). intros E. rewrite E in Hb. by apply not_elem_of_nil in Hb. }
  assert (succ = nil ∧ l2 = [] ∨ succ ≠ nil ∧ succ ∈ l2 ∧ predecessor succ s = z) as Hsucc.
  { unfold succ. destruct l2 as [|y l2]; [by left|]. right. simpl in *. destruct L2 as (Hy & _). split; [intros ->; apply Hn'; right; by left|]. split; [by left|done]. }
  assert (l1 ≠ [] → head s ≠ z) as Hhz.
  { intros Hne. rewrite Hh. destruct l1 as [|x l1]; [done|]. simpl. intros ->. apply Hz. left. by left. }
  unfold unlink_neighbours. rewrite Hp, Hs. cbv zeta.
  set (s1 := if pred =? nil then set_head succ s else set_successor pred succ s).
  set (s2 := if succ =? nil then s1 else set_predecessor succ pred s1).
  assert ((negb (pred =? nil) && negb (successor pred s =? z)) = false) as ->.
  { destruct Hpred as [[-> _]|(_ & _ & ->)]; [done|]. by rewrite Z.eqb_refl, andb_false_r. }
  assert ((negb (succ =? nil) && negb (predecessor succ s =? z)) = false) as ->.
  { destruct Hsucc as [[-> _]|(_ & _ & ->)]; [done|]. by rewrite Z.eqb_refl, andb_false_r. }
  cbn [bug_on mbind outcome_bind].
  assert (head s2 = front nil (l1 ++ l2) ∧ head s2 ≠ z) as [Hh2 Hh2z].
  { assert (head s2 = head s1) as -> by (unfold s2; by destruct (succ =? nil)). unfold s1.
    destruct Hpred as [[-> ->]|(Hpn & Hpl & _)]; [rewrite Z.eqb_refl; simpl|].
    - split; [done|]. destruct Hsucc as [[-> _]|(_ & Hsl & _)]; [done|]. intros E. rewrite E in Hsl. tauto.
    - rewrite (proj2 (Z.eqb_neq pred nil)) by done. assert (l1 ≠ []) by (intros E; rewrite E in Hpl; by apply not_elem_of_nil in Hpl).
      simpl. split; [|by apply Hhz]. rewrite Hh. by destruct l1. }
  rewrite (proj2 (Z.eqb_neq (head s2) z)) by done. eexists. split; [done|].
  assert ((∀ x, successor x s2 = if decide (x = pred ∧ pred ≠ nil) then succ else successor x s) ∧
    (∀ x, predecessor x s2 = if decide (x = succ ∧ succ ≠ nil) then pred else predecessor x s)) as [E1 E2].
  { unfold s2, s1. destruct (Z.eqb_spec pred nil), (Z.eqb_spec succ nil); split; intros x; autorewrite with rb_reads; repeat case_decide; try done; tauto. }
  split; [apply (linked_remove s _ l1 l2 z Hnd' Hz0 Hn0 Hl)|].
  - intros x Hx Hxp. autorewrite with rb_reads. rewrite decide_False by done. rewrite E1, decide_False by tauto. done.
  - intros Hne. destruct Hpred as [[_ ?]|(Hpn & Hpl & _)]; [done|]. autorewrite with rb_reads. rewrite decide_False by (intros E; fold pred in E; rewrite E in Hpl; tauto).
    by rewrite E1, decide_True.
  - intros x Hx Hxs. autorewrite with rb_reads. rewrite decide_False by done. rewrite E2, decide_False by tauto. done.
  - intros Hne. destruct Hsucc as [[_ ?]|(Hsn & Hsl & _)]; [done|]. autorewrite with rb_reads. rewrite decide_False by (intros E; fold succ in E; rewrite E in Hsl; tauto).
    by rewrite E2, decide_True.
  - split; [exact Hh2|]. assert (∀ x, same_shape (hooks s x) (hooks s2 x)) as Hsh.
    { intros x. apply same_shape_trans with (hooks s1 x); [unfold s1; destruct (pred =? nil); [done|apply shaped_set_succ]|].
      unfold s2; destruct (succ =? nil); [done|apply shaped_set_pred]. }
    split_and!; try (unfold s2, s1; by destruct (pred =? nil), (succ =? nil)).
    intros x. eapply same_shape_trans; [apply Hsh|]. eapply same_shape_trans; [apply shaped_set_pred|apply shaped_set_succ].
Qed.

(** * The tree *)
Lemma transplant_spec s k u v p : rep_ctx (hooks s) k u (root s) → u ≠ nil → parent u s = par_of k → rep (hooks s) v p →
  NoDup (u :: inorder v ++ ctx_keys k) → nil ∉ u :: inorder v ++ ctx_keys k →
  let s' := transplant u (ptr v) s in
  rep (hooks s') v (par_of k) ∧ rep_ctx (hooks s') k (ptr v) (root s') ∧ kept s s' ∧
  (∀ z, z ∉ ctx_keys k → z ≠ ptr v → hooks s' z = hooks s z) ∧ hooks s' (ptr v) = with_parent (par_of k) (hooks s (ptr v)).
Proof.
  intros Hc Hu Hp Hv Hnd Hn. rewrite elem_of_cons, elem_of_app in Hn. apply NoDup_cons in Hnd as [Huk Hnd]. rewrite elem_of_app in Huk.
  apply NoDup_app in Hnd as (Hnv & Hvk & Hnk). assert (ptr v ∉ ctx_keys k) as Hpv.
  { destruct (decide (v = Leaf)) as [->|Hl%ptr_elem]; [simpl; tauto|by apply Hvk]. }
  destruct (replace_child_spec L s k u (ptr v)) as (H1 & K1 & H2); [done|done|done|constructor; tauto|].
  unfold transplant. cbv zeta. set (s1 := replace_child L u (ptr v) s) in *.
  assert (parent u s1 = par_of k) as -> by (unfold parent in *; rewrite H2 by tauto; done).
  assert (hooks (set_parent (ptr v) (par_of k) s1) (ptr v) = with_parent (par_of k) (hooks s (ptr v))) as Ev.
  { rewrite hooks_set_parent, decide_True by done. by rewrite H2. }
  assert (∀ x, x ∉ ctx_keys k → x ≠ ptr v → hooks (set_parent (ptr v) (par_of k) s1) x = hooks s x) as Eo.
  { intros x Hx Hxv. rewrite hooks_set_parent, decide_False by done. by rewrite H2. }
  split_and!; try done.
  - eapply rep_hang; [exact Hv|done| |].
    + intros x Hx Hxv. rewrite Eo; [done|by apply Hvk|done].
    + intros Hl. by rewrite Ev.
  - eapply rep_ctx_ext; [exact H1|]. intros x Hx. rewrite hooks_set_parent, decide_False; [done|]. by intros ->.
  - etrans; [exact K1|apply kept_set_parent].
Qed.
(** A node with one subtree goes. *)
Lemma splice_spec s k d c z r : holds s (plug k (mk d c Leaf z r)) →
  stands (transplant z (ptr r) s) k r ∧ kept s (transplant z (ptr r) s) ∧ colour_of nil (transplant z (ptr r) s) = colour_of nil s.
Proof.
  intros Hh. pose proof (read_ne _ _ _ _ _ _ _ Hh) as Hz. pose proof (read_parent _ _ _ _ _ _ _ Hh) as Hp.
  apply holds_plug in Hh as (Hr & Hc & Hnd & Hn). rewrite inorder_mk in Hnd, Hn. apply rep_mk in Hr as (_ & _ & _ & _ & _ & _ & Hr).
  rewrite ptr_mk in Hc. simpl in Hnd, Hn.
  destruct (transplant_spec s k z r z Hc Hz Hp Hr Hnd Hn) as (H1 & H2 & H3 & H4 & H5). cbv zeta in *.
  apply NoDup_cons in Hnd as [_ Hnd]. rewrite elem_of_cons in Hn. split; [split|split; [done|]].
  - apply holds_plug. split_and!; try done. tauto.
  - intros ->. unfold parent. cbn [ptr] in *. by rewrite H5.
  - destruct (decide (r = Leaf)) as [->|Hl%ptr_elem]; unfold colour_of; [cbn [ptr] in *; by rewrite H5|].
    rewrite H4; [done| |]; [rewrite elem_of_app in Hn; tauto|]. intros E. rewrite <-E in Hl. rewrite elem_of_app in Hn. tauto.
Qed.

(** The node [y], which has got the right subtree, takes the place of [z]. *)
Definition put_in_place (z y : Z) (s : rbtree) : rbtree :=
  let s := transplant z y s in
  let s := set_kid L y (kid L z s) s in
  let s := set_parent (kid L y s) y s in
  set_colour y (colour_of z s) s.
Lemma put_in_place_spec s k c l z y r : rep_ctx (hooks s) k z (root s) → parent z s = par_of k → kid L z s = ptr l → colour_of z s = c →
  rep (hooks s) l z → rep (hooks s) r y → kid R y s = ptr r → l ≠ Leaf →
  NoDup (y :: z :: inorder l ++ inorder r ++ ctx_keys k) → nil ∉ y :: z :: inorder l ++ inorder r ++ ctx_keys k →
  holds (put_in_place z y s) (plug k (Node c l y r)) ∧ still s (put_in_place z y s).
Proof.
  intros Hc Hp Hkl Hcz Hl Hr Hkr Hll Hnd Hn. rewrite !elem_of_cons, !elem_of_app in Hn.
  pose proof Hnd as Hnd0. apply NoDup_cons in Hnd as [Hy [Hz Hnd]%NoDup_cons]. rewrite elem_of_cons, !elem_of_app in Hy. rewrite !elem_of_app in Hz.
  apply NoDup_app in Hnd as (Hnl & Hlr & (Hnr & Hrk & Hnk)%NoDup_app).
  assert (z ≠ nil) as Hzn by (intros ->; tauto). assert (y ≠ z) as Hyz by (intros ->; tauto). assert (y ≠ nil) as Hyn by (intros ->; tauto).
  destruct (replace_child_spec L s k z y) as (H1 & K1 & H2); [done|done|done|constructor; tauto|].
  unfold put_in_place, transplant. cbv zeta. set (s1 := replace_child L z y s) in *.
  assert (parent z s1 = par_of k) as -> by (unfold parent in *; rewrite H2 by tauto; done).
  set (s2 := set_parent y (par_of k) s1). assert (∀ x, x ≠ y → hooks s2 x = hooks s1 x) as E2 by (intros x Hx; unfold s2; by rewrite hooks_set_parent, decide_False).
  assert (hooks s2 y = with_parent (par_of k) (hooks s y)) as E2y by (unfold s2; rewrite hooks_set_parent, decide_True by done; rewrite H2 by tauto; done).
  assert (kid L z s2 = ptr l) as -> by (unfold kid in *; rewrite E2 by done; rewrite H2 by tauto; done).
  set (s3 := set_kid L y (ptr l) s2). assert (kid L y s3 = ptr l) as -> by (unfold kid, s3; rewrite hooks_set_kid, decide_True by done; apply with_kid_same).
  pose proof (ptr_elem l Hll) as Hpl. assert (ptr l ≠ y) as Hly by (intros E; rewrite E in Hpl; tauto). assert (ptr l ≠ nil) as Hln by (intros E; rewrite E in Hpl; tauto).
  assert (ptr l ≠ z) as Hlz by (intros E; rewrite E in Hpl; tauto).
  set (s4 := set_parent (ptr l) y s3).
  assert (∀ x, x ≠ y → x ≠ ptr l → hooks s4 x = hooks s1 x) as E4.
  { intros x Hx Hxl. unfold s4. rewrite hooks_set_parent, decide_False by done. unfold s3. rewrite hooks_set_kid, decide_False by done. by apply E2. }
  assert (hooks s4 y = with_kid L (ptr l) (with_parent (par_of k) (hooks s y))) as E4y.
  { unfold s4. rewrite hooks_set_parent, decide_False by done. unfold s3. rewrite hooks_set_kid, decide_True by done. by rewrite E2y. }
  assert (ptr l ∉ ctx_keys k) as Hlk by (intros E; apply (Hlr _ Hpl), elem_of_app; by right).
  assert (hooks s4 (ptr l) = with_parent y (hooks s (ptr l))) as E4l.
  { unfold s4. rewrite hooks_set_parent, decide_True by done. unfold s3. rewrite hooks_set_kid, decide_False by done. rewrite E2 by done. by rewrite H2. }
  assert (colour_of z s4 = c) as -> by (unfold colour_of in *; rewrite E4 by done; rewrite H2 by tauto; done).
  assert (∀ x, x ≠ y → hooks (set_colour y c s4) x = hooks s4 x) as E5 by (intros x Hx; simpl; by rewrite decide_False).
  assert (hooks (set_colour y c s4) y = mk_hook (par_of k) (ptr l) (ptr r) (h_successor (hooks s y)) (h_predecessor (hooks s y)) c) as E5y.
  { change (hooks (set_colour y c s4) y) with (if decide (y = y) then mk_hook (h_parent (hooks s4 y)) (h_left (hooks s4 y)) (h_right (hooks s4 y))
      (h_successor (hooks s4 y)) (h_predecessor (hooks s4 y)) c else hooks s4 y). rewrite decide_True by done. rewrite E4y. simpl. unfold kid in Hkr. simpl in Hkr. by rewrite Hkr. }
  assert ((inorder l ++ y :: inorder r) ++ ctx_keys k ≡ₚ y :: inorder l ++ inorder r ++ ctx_keys k) as Hperm.
  { rewrite <-app_assoc. simpl. by rewrite <-Permutation_middle. }
  split.
  - apply holds_plug. cbn [rep ptr inorder]. rewrite E5y. cbn [h_parent h_left h_right h_colour]. split_and!; try done.
    + eapply rep_hang; [exact Hl|done| |].
      * intros x Hx Hxl. rewrite E5, E4; [|by intros ->; tauto|done|by intros ->; tauto]. rewrite H2; [done|]. intros E; apply (Hlr _ Hx), elem_of_app; by right.
      * intros _. rewrite E5, E4l by done. done.
    + eapply rep_ext; [exact Hr|]. intros x Hx. assert (x ≠ y) by (intros ->; tauto).
      assert (x ≠ ptr l) by (intros ->; apply (Hlr _ Hpl), elem_of_app; by left). rewrite E5, E4, H2; [done|by apply Hrk|done..].
    + assert (root (set_colour y c s4) = root s1) as -> by done.
      eapply rep_ctx_ext; [exact H1|]. intros x Hx. rewrite E5, E4; [done|by intros ->; tauto|by intros ->|by intros ->; tauto].
    + rewrite Hperm. apply NoDup_cons in Hnd0 as [Hy0 [_ Hnd0]%NoDup_cons]. constructor; [|done]. intros E. apply Hy0. by right.
    + rewrite Hperm. rewrite elem_of_cons, !elem_of_app. tauto.
  - split.
    + etrans; [exact K1|]. etrans; [apply (kept_set_parent y (par_of k))|]. etrans; [apply (kept_set_kid L y (ptr l))|].
      etrans; [apply (kept_set_parent (ptr l) y)|]. apply kept_set_colour.
    + rewrite E5, E4, H2 by (done || tauto). done.
Qed.

Lemma inorder_not_nil t : t ≠ Leaf → inorder t ≠ [].
Proof. intros Ht%ptr_elem E. rewrite E in Ht. by apply not_elem_of_nil in Ht. Qed.
Lemma front_default a b l : l ≠ [] → front a l = front b l.
Proof. by destruct l. Qed.
Lemma back_default a b l : l ≠ [] → back a l = back b l.
Proof. by destruct l. Qed.
(** The end of a subtree. *)
Lemma extreme_spec d s t : ∀ k fuel, holds s (plug k t) → t ≠ Leaf → (height t ≤ fuel)%nat →
  extreme fuel d (ptr t) s = Done (match d with L => front nil (inorder t) | R => back nil (inorder t) end).
Proof.
  induction t as [|c l IHl x r IHr]; intros k fuel Hh Ht Hf; [done|]. simpl in Hf. destruct fuel as [|fuel]; [lia|]. cbn [extreme ptr].
  destruct (read_kids s k L c l x r Hh) as [E1 E2]. cbn [flip] in E2. destruct d.
  - rewrite E1. destruct (decide (l = Leaf)) as [->|Hl]; [done|].
    rewrite (proj2 (Z.eqb_neq (ptr l) nil)). 2: { intros E. by apply (holds_leaf_or s (mk_frame L c x r :: k) l Hh) in E. }
    rewrite (IHl (mk_frame L c x r :: k) fuel Hh Hl) by lia. cbn [inorder]. f_equal. rewrite front_app. by apply front_default, inorder_not_nil.
  - rewrite E2. destruct (decide (r = Leaf)) as [->|Hr]; [simpl; by rewrite back_snoc|].
    rewrite (proj2 (Z.eqb_neq (ptr r) nil)). 2: { intros E. by apply (holds_leaf_or s (mk_frame R c x l :: k) r Hh) in E. }
    rewrite (IHr (mk_frame R c x l :: k) fuel Hh Hr) by lia. cbn [inorder]. f_equal. rewrite back_app. simpl. by apply back_default, inorder_not_nil.
Qed.

(** * A node with two subtrees *)
Lemma all_left_before k : Forall (λ f, f_side f = L) k → all_before k = [].
Proof. induction 1 as [|f k E _ IH]; simpl; [done|]. rewrite IH. unfold before. by rewrite E. Qed.
Lemma ptr_plug k t : k ≠ [] → ptr (plug k t) ∈ ctx_keys k.
Proof.
  intros Hk. destruct k as [|f k]; [done|]. clear Hk. revert f t. induction k as [|f' k IH]; intros f t; simpl.
  - unfold plug1. rewrite ptr_mk. by left.
  - right. apply elem_of_app. right. apply (IH f').
Qed.
Lemma plug_not_leaf k t : k ≠ [] → plug k t ≠ Leaf.
Proof.
  destruct k as [|f k]; [done|]. intros _. simpl. generalize (mk_not_leaf (f_side f) (f_colour f) t (f_key f) (f_other f)). unfold plug1.
  generalize (mk (f_side f) (f_colour f) t (f_key f) (f_other f)). induction k as [|f' k IH]; intros t' Ht; [done|]. apply IH, mk_not_leaf.
Qed.
Lemma ctx_keys_app k k' : ctx_keys (k ++ k') = ctx_keys k ++ ctx_keys k'.
Proof. induction k as [|f k IH]; simpl; [done|]. by rewrite IH, <-app_assoc. Qed.
Lemma holds_keys s k t : holds s (plug k t) → NoDup (inorder t ++ ctx_keys k) ∧ nil ∉ inorder t ++ ctx_keys k.
Proof. intros (_ & _ & ?)%holds_plug. done. Qed.
Lemma crb_rename k d c x y s k' a n : crb (k ++ mk_frame d c x s :: k') a n → crb (k ++ mk_frame d c y s :: k') a n.
Proof.
  revert a n. induction k as [|f k IH]; intros a n Hk; simpl in *; inversion Hk; subst; econstructor; eauto.
Qed.

(** What [detach] does with the right subtree [r] of [z], whose first node is [y]. *)
Definition take_out (z y : Z) (s : rbtree) : rbtree :=
  let x := kid R y s in
  if negb (y =? kid R z s) then
    let s := transplant y (kid R y s) s in
    let s := set_kid R y (kid R z s) s in
    set_parent (kid R y s) y s
  else set_parent x y s.
Lemma take_out_spec s k c l z k1 cy y ry : let r := plug k1 (Node cy Leaf y ry) in
  Forall (λ f, f_side f = L) k1 → holds s (plug k (Node c l z r)) →
  let s' := take_out z y s in
  rep_ctx (hooks s') k z (root s') ∧ parent z s' = par_of k ∧ kid L z s' = ptr l ∧ colour_of z s' = c ∧
  rep (hooks s') l z ∧ rep (hooks s') (plug k1 ry) y ∧ kid R y s' = ptr (plug k1 ry) ∧ kept s s' ∧
  colour_of nil s' = colour_of nil s ∧ (ry = Leaf → parent nil s' = par_of (k1 ++ mk_frame R c y l :: k)).
Proof.
  intros r Hl Hh s'. set (K := k1 ++ mk_frame R c z l :: k). assert (holds s (plug K (Node cy Leaf y ry))) as Hy by (unfold K; rewrite plug_app; exact Hh).
  pose proof (read_ne _ _ L _ _ _ _ Hy) as Hyn. pose proof (read_parent _ _ L _ _ _ _ Hy) as Hpy. destruct (read_kids _ _ L _ _ _ _ Hy) as [_ Hky]. cbn [flip] in Hky.
  destruct (read_kids _ _ L _ _ _ _ Hh) as [Hlz Hrz]. cbn [flip] in Hrz. pose proof (read_colour _ _ L _ _ _ _ Hh) as Hcz. pose proof (read_parent _ _ L _ _ _ _ Hh) as Hpz.
  pose proof (read_ne _ _ L _ _ _ _ Hh) as Hzn. destruct (holds_keys _ _ _ Hh) as [Hnd Hn].
  assert (y ∈ inorder r) as Hyr by (unfold r; rewrite inorder_plug; simpl; rewrite !elem_of_app, elem_of_cons; tauto).
  cbn [inorder] in Hnd, Hn. rewrite !elem_of_app, elem_of_cons in Hn.
  unfold s', take_out. rewrite Hrz, Hky. cbv zeta. destruct (decide (k1 = [])) as [->|Hk1].
  - simpl in r. subst r. cbn [ptr]. rewrite Z.eqb_refl. cbn [negb].
    assert (∀ x, x ≠ nil → same_shape (hooks s x) (hooks (set_parent (ptr ry) y s) x)) as E.
    { intros x Hx. rewrite hooks_set_parent. destruct (decide (x = ptr ry)) as [->|]; [|done].
      assert (ry ≠ Leaf) as Hry by (by intros ->). unfold same_shape. split; [|done]. symmetry.
      by apply (read_parent_kid s K R cy ry y Leaf Hy). }
    apply holds_plug in Hh as (Hr & Hc & _). cbn [rep ptr] in Hr, Hc. destruct Hr as (_ & _ & _ & _ & _ & Hrl & Hrr).
    destruct (E z Hzn) as (Ep & El & _ & Ec). unfold parent, kid, colour_of in *. cbn [h_kid] in *. split_and!; try (by rewrite ?Ep, ?El, ?Ec).
    + eapply rep_ctx_ext; [exact Hc|]. intros x Hx. apply E. intros ->. tauto.
    + eapply rep_ext; [exact Hrl|]. intros x Hx. apply E. intros ->. tauto.
    + destruct Hrr as (_ & _ & _ & _ & _ & _ & Hrr). eapply rep_ext; [exact Hrr|]. intros x Hx. apply E. intros ->. simpl in Hn. rewrite elem_of_cons in Hn. tauto.
    + destruct (E y Hyn) as (_ & _ & -> & _). exact Hky.
    + apply kept_set_parent.
    + rewrite hooks_set_parent. by case_decide as E'; [rewrite E'|].
    + intros ->. rewrite hooks_set_parent, decide_True by done. done.
  - destruct (holds_keys _ _ _ Hy) as [Hnk Hnn]. simpl in Hnk, Hnn.
    assert (y ≠ ptr r) as Hne.
    { intros E. apply NoDup_cons in Hnk as [Hnk _]. apply Hnk. apply elem_of_app. right. unfold K. rewrite ctx_keys_app.
      apply elem_of_app. left. rewrite E. by apply ptr_plug. }
    rewrite (proj2 (Z.eqb_neq y (ptr r))) by done. cbn [negb].
    apply holds_plug in Hy as (Hr & Hc & _). cbn [rep ptr] in Hr, Hc. destruct Hr as (_ & _ & _ & _ & _ & _ & Hrr).
    destruct (transplant_spec s K y ry y Hc Hyn Hpy Hrr Hnk Hnn) as (T1 & T2 & T3 & T4 & T5). cbv zeta in *.
    set (s1 := transplant y (ptr ry) s) in *. apply NoDup_cons in Hnk as [Hyk Hnk]. rewrite elem_of_cons in Hnn. rewrite elem_of_app in Hyk.
    assert (holds s1 (plug k (Node c l z (plug k1 ry)))) as H1.
    { change (holds s1 (plug (mk_frame R c z l :: k) (plug k1 ry))). rewrite <-plug_app. fold K. apply holds_plug. split_and!; try done. tauto. }
    assert (hooks s1 y = hooks s y) as Ey. { apply T4; [tauto|]. apply ptr_not; [done|]. intros E; apply Hyk; by left. }
    destruct (read_kids _ _ L _ _ _ _ H1) as [Hl1 Hr1]. cbn [flip] in Hr1. rewrite Hr1.
    set (r1 := plug k1 ry) in *. assert (r1 ≠ Leaf) as Hr1l by by apply plug_not_leaf.
    assert (kid R y (set_kid R y (ptr r1) s1) = ptr r1) as -> by (unfold kid; rewrite hooks_set_kid, decide_True by done; apply with_kid_same).
    destruct (holds_keys _ _ _ H1) as [Hnd1 Hn1]. cbn [inorder] in Hnd1, Hn1. rewrite !elem_of_app, elem_of_cons in Hn1.
    assert (Hy1 : ¬ (y ∈ inorder l ∨ y = z ∨ y ∈ inorder r1 ∨ y ∈ ctx_keys k)).
    { intros Hin. apply Hyk. unfold K. rewrite ctx_keys_app. simpl. rewrite !elem_of_app, elem_of_cons, elem_of_app.
      unfold r1 in Hin. rewrite (plug_keys k1 ry), elem_of_app in Hin. tauto. }
    pose proof (ptr_elem r1 Hr1l) as Hp1. assert (ptr r1 ≠ y) as Hr1y by (intros E; rewrite E in Hp1; tauto).
    assert (ptr r1 ≠ nil) as Hr1n by (intros E; rewrite E in Hp1; tauto).
    rewrite <-app_assoc in Hnd1. apply NoDup_app in Hnd1 as (_ & Hlr & [Hzr (Hnr1 & Hrk & _)%NoDup_app]%NoDup_cons). rewrite elem_of_app in Hzr.
    set (s3 := set_parent (ptr r1) y (set_kid R y (ptr r1) s1)).
    assert (∀ x, x ≠ y → x ≠ ptr r1 → hooks s3 x = hooks s1 x) as E3.
    { intros x Hx Hxr. unfold s3. rewrite hooks_set_parent, decide_False by done. by rewrite hooks_set_kid, decide_False. }
    assert (z ≠ ptr r1) by (intros E; rewrite <-E in Hp1; tauto). assert (z ≠ y) by (intros E; symmetry in E; tauto).
    pose proof (read_colour _ _ L _ _ _ _ H1) as Hc1. pose proof (read_parent _ _ L _ _ _ _ H1) as Hp1z.
    apply holds_plug in H1 as (Hr & Hc1x & _). cbn [rep ptr] in Hr, Hc1x. destruct Hr as (_ & _ & _ & _ & _ & Hrl1 & Hrr1).
    unfold parent, kid, colour_of in *. rewrite !(E3 z) by done. rewrite !(E3 nil) by done. split_and!; try done.
    + eapply rep_ctx_ext; [exact Hc1x|]. intros x Hx. rewrite E3; [done|by intros ->; tauto|]. intros ->. by apply (Hrk _ Hp1).
    + eapply rep_ext; [exact Hrl1|]. intros x Hx. rewrite E3; [done|by intros ->; tauto|]. intros ->. apply (Hlr _ Hx). right. apply elem_of_app. by left.
    + eapply rep_hang; [exact Hrr1| | |].
      * done.
      * intros x Hx Hxr. rewrite E3; [done|by intros ->; tauto|done].
      * intros _. unfold s3. rewrite hooks_set_parent, decide_True by done. rewrite hooks_set_kid, decide_False by done. done.
    + unfold s3. rewrite hooks_set_parent, decide_False by done. rewrite hooks_set_kid, decide_True by done. by rewrite with_kid_same.
    + etrans; [exact T3|]. etrans; [apply (kept_set_kid R y (ptr r1))|apply kept_set_parent].
    + destruct (decide (ry = Leaf)) as [->|Hry%ptr_elem]; [cbn [ptr] in *; by rewrite T5|].
      rewrite elem_of_app in Hnn. rewrite T4; [done|tauto|]. intros E. rewrite <-E in Hry. tauto.
    + intros ->. cbn [ptr] in *. rewrite T5. by destruct k1.
Qed.

(** Where a node of colour [c] is gone above [t]. *)
Definition gap (k : ctx) (t : tree) (c : colour) : Prop :=
  match c with Red => ∃ n, crb k Red n ∧ rbt t Black n | Black => ∃ a c n, crb k a (S n) ∧ rbt t c n end.
Lemma gap_spec k d c x t n : rbt (plug k (mk d c Leaf x t)) Black n → gap k t c.
Proof.
  intros Ht. destruct (rbt_plug _ _ _ Ht) as (a & c' & m & Hx & Hk & Hc). destruct c.
  - apply rbt_inv_red in Hx as (-> & _ & Hb). rewrite Hc in Hk by done. by exists m.
  - apply rbt_inv_black in Hx as (m' & c1 & c2 & -> & -> & _ & Hb). by exists a, c2, m'.
Qed.
Lemma gap_rename k d c x y s k' t cg : gap (k ++ mk_frame d c x s :: k') t cg → gap (k ++ mk_frame d c y s :: k') t cg.
Proof.
  destruct cg; [intros (n & Hk & Ht)|intros (a & c' & n & Hk & Ht)].
  - exists n. split; [by eapply crb_rename|done].
  - exists a, c', n. split; [by eapply crb_rename|done].
Qed.
Lemma height_plug k : ∀ t, (length k + height t ≤ height (plug k t))%nat.
Proof.
  induction k as [|f k IH]; intros t; simpl; [lia|]. etrans; [|apply IH]. unfold plug1. destruct (f_side f); simpl; lia.
Qed.

(** The tree that is left, with the gap at [t']. *)
Definition detached (s : rbtree) (t : tree) (z : Z) (t' : tree) (c : colour) (s' : rbtree) : Prop :=
  ∃ k l1 l2, inorder t = l1 ++ z :: l2 ∧ inorder (plug k t') = l1 ++ l2 ∧ stands s' k t' ∧ gap k t' c ∧ (length k < height t)%nat ∧
    kept s s' ∧ colour_of nil s' = colour_of nil s.
Lemma detach_spec fuel s t z n : holds s t → rbt t Black n → z ∈ inorder t → (height t < fuel)%nat →
  ∃ t' c s', detach fuel z s = Done (ptr t', c, s') ∧ detached s t z t' c s'.
Proof.
  intros Hh Ht (k & c & l & r & ->)%node_at Hf. destruct (read_kids s k L c l z r Hh) as [El Er]. cbn [flip] in Er.
  pose proof (read_colour s k L c l z r Hh) as Ec. unfold detach. rewrite El, Er, Ec. pose proof (height_plug k (Node c l z r)) as Hht. simpl height in Hht.
  destruct (decide (l = Leaf)) as [->|Hl].
  { simpl ptr. rewrite Z.eqb_refl. destruct (splice_spec s k L c z r Hh) as (H1 & H2 & H3). eexists r, c, _. split; [done|].
    exists k, (all_before k), (inorder r ++ all_after k). split; [rewrite inorder_plug; simpl; done|]. split; [by rewrite inorder_plug|].
    split; [done|]. split; [by apply (gap_spec k L c z r n)|]. split; [lia|done]. }
  rewrite (proj2 (Z.eqb_neq (ptr l) nil)). 2: { intros E. by apply (holds_leaf_or s (mk_frame L c z r :: k) l Hh) in E. }
  destruct (decide (r = Leaf)) as [->|Hr].
  { simpl ptr. rewrite Z.eqb_refl. destruct (splice_spec s k R c z l Hh) as (H1 & H2 & H3). eexists l, c, _. split; [done|].
    exists k, (all_before k ++ inorder l), (all_after k). split; [rewrite inorder_plug; simpl; by rewrite <-!app_assoc|].
    split; [rewrite inorder_plug; by rewrite <-!app_assoc|]. split; [done|]. split; [by apply (gap_spec k R c z l n)|]. split; [lia|done]. }
  rewrite (proj2 (Z.eqb_neq (ptr r) nil)). 2: { intros E. by apply (holds_leaf_or s (mk_frame R c z l :: k) r Hh) in E. }
  unfold minimum. rewrite (proj2 (Z.eqb_neq (ptr r) nil)). 2: { intros E. by apply (holds_leaf_or s (mk_frame R c z l :: k) r Hh) in E. }
  cbn [bug_on mbind outcome_bind]. rewrite (extreme_spec L s r (mk_frame R c z l :: k) fuel Hh Hr) by lia. cbn [mbind outcome_bind].
  destruct r as [|cr rl xr rr]; [done|]. destruct (leftmost [] cr rl xr rr) as [[[k1 cy] y] ry] eqn:Elm.
  destruct (leftmost_ctx _ _ _ _ _ _ _ _ _ Elm) as (k1' & -> & Hleft & _ & Ep). rewrite app_nil_r in Elm. rename k1' into k1. rewrite <-Ep in *. clear Ep Elm Hr.
  rewrite inorder_plug, (all_left_before k1 Hleft). cbn [app inorder front].
  assert (holds s (plug (k1 ++ mk_frame R c z l :: k) (Node cy Leaf y ry))) as Hy by (rewrite plug_app; exact Hh).
  rewrite (read_colour _ _ L _ _ _ _ Hy). destruct (read_kids _ _ L _ _ _ _ Hy) as [_ Ery]. cbn [flip] in Ery.
  destruct (take_out_spec s k c l z k1 cy y ry Hleft Hh) as (T1 & T2 & T3 & T4 & T5 & T6 & T7 & T8 & T9 & T10).
  destruct (holds_keys _ _ _ Hh) as [Hnd Hn]. cbn [inorder] in Hnd, Hn. rewrite inorder_plug, (all_left_before k1 Hleft) in Hnd, Hn. simpl in Hnd, Hn.
  assert (y :: z :: inorder l ++ inorder (plug k1 ry) ++ ctx_keys k ≡ₚ (inorder l ++ z :: y :: inorder ry ++ all_after k1) ++ ctx_keys k) as Hperm.
  { rewrite inorder_plug, (all_left_before k1 Hleft). simpl. transitivity (z :: y :: inorder l ++ (inorder ry ++ all_after k1) ++ ctx_keys k); [apply perm_swap|].
    rewrite <-(app_assoc (inorder l)). simpl. by rewrite <-!Permutation_middle. }
  destruct (put_in_place_spec (take_out z y s) k c l z y (plug k1 ry) T1 T2 T3 T4 T5 T6 T7 Hl) as [P1 P2].
  { by rewrite Hperm. } { by rewrite Hperm. }
  eexists ry, cy, (put_in_place z y (take_out z y s)). split.
  { unfold put_in_place, take_out. rewrite Er, Ery. done. }
  exists (k1 ++ mk_frame R c y l :: k), (all_before k ++ inorder l), (y :: inorder ry ++ all_after k1 ++ all_after k).
  split.
  { rewrite inorder_plug. cbn [inorder]. rewrite inorder_plug, (all_left_before k1 Hleft). cbn [app inorder]. rewrite <-!app_assoc. simpl. by rewrite <-app_assoc. }
  split.
  { rewrite plug_app. simpl. rewrite inorder_plug. unfold plug1. simpl. rewrite inorder_plug, (all_left_before k1 Hleft). cbn [app inorder].
    rewrite <-!app_assoc. simpl. by rewrite <-app_assoc. }
  split; [split|split; [|split; [|split]]].
  - rewrite plug_app. exact P1.
  - intros E. rewrite <-(T10 E). unfold parent. by rewrite (proj2 P2).
  - apply (gap_rename k1 R c z y l k ry cy). apply (gap_spec _ L cy y ry n). rewrite plug_app. exact Ht.
  - pose proof (height_plug (k1 ++ mk_frame R c z l :: k) (Node cy Leaf y ry)) as Hhk. rewrite plug_app in Hhk. 
    change (plug (mk_frame R c z l :: k) (plug k1 (Node cy Leaf y ry))) with (plug k (Node c l z (plug k1 (Node cy Leaf y ry)))) in Hhk.
    rewrite !length_app in *. cbn [length height] in *. lia.
  - etrans; [exact T8|apply P2].
  - rewrite (still_nil _ _ P2). exact T9.
Qed.

(** * Removal *)
Lemma filter_keep (z : Z) (l : list Z) : z ∉ l → filter (λ y, y ≠ z) l = l.
Proof.
  induction l as [|x l IH]; intros Hz; [done|]. rewrite elem_of_cons in Hz. rewrite filter_cons, decide_True by (intros ->; tauto).
  f_equal. apply IH. tauto.
Qed.
Lemma filter_out (z : Z) (l1 l2 : list Z) : NoDup (l1 ++ z :: l2) → filter (λ y, y ≠ z) (l1 ++ z :: l2) = l1 ++ l2.
Proof.
  intros (_ & Hd & [Hz _]%NoDup_cons)%NoDup_app. rewrite filter_app, filter_cons, decide_False by tauto. f_equal; apply filter_keep; [|done].
  intros Hz1. apply (Hd _ Hz1). by left.
Qed.
Lemma still_outside s s' x : kept s s' → successor x s' = successor x s ∧ predecessor x s' = predecessor x s.
Proof. intros []. auto. Qed.
(** The fix-up after a removal. *)
Lemma gap_fix fuel k t c s : stands s k t → gap k t c → (S (length k) < fuel)%nat → colour_of nil s = Black →
  ∃ s' t', (if bool_decide (c = Black) then _remove_fixup fuel (ptr t) s else Done s) = Done s' ∧
    holds s' t' ∧ (∃ n, rbt t' Black n) ∧ inorder t' = inorder (plug k t) ∧ kept s s'.
Proof.
  intros Hs Hg Hf Hn. destruct c; simpl in Hg.
  - destruct Hg as (n & Hk & Ht). exists s, (plug k t). split; [done|]. split; [apply Hs|]. split; [by eapply crb_plug|done].
  - destruct Hg as (a & c & n & Hk & Ht). destruct (remove_fixup_loop_spec k t s fuel a c n Hf Hk Ht Hs Hn) as (x & s' & E & H1 & H2).
    exists (set_colour x Black s'), (fill_up k t). rewrite bool_decide_true by done. unfold _remove_fixup. rewrite E.
    split; [done|]. split; [done|]. split; [by eapply fill_up_ok|]. split; [by eapply inorder_fill_up|]. etrans; [exact H2|apply kept_set_colour].
Qed.
Lemma remove_good s t z fuel : good s t → z ∈ inorder t → (enough ≤ fuel)%nat →
  ∃ s' t', remove fuel z s = Done s' ∧ good s' t' ∧ inorder t' = filter (λ y, y ≠ z) (inorder t).
Proof.
  intros Hg Hz Hfuel. pose proof (good_height s t Hg) as Hht. unfold enough in Hfuel.
  assert (z ≠ nil) as Hzn by (intros ->; by apply (good_nil s t Hg)).
  unfold remove, _remove. rewrite (proj2 (Z.eqb_neq z nil)) by done. cbn [bug_on mbind outcome_bind].
  pose proof (good_hook s t nil new_hook Hg (good_nil s t Hg)) as Hg0. set (s0 := set_hook nil new_hook s) in *.
  assert (colour_of nil s0 = Black) as Hn0 by done.
  destruct (gd_rbt _ _ Hg0) as [n Hrbt]. pose proof (gd_holds _ _ Hg0) as Hh. pose proof (ho_nodup _ _ Hh) as Hnd.
  destruct (list_elem_of_split _ _ Hz) as (l1 & l2 & El). pose proof (gd_links _ _ Hg0) as Hl. pose proof (gd_head _ _ Hg0) as Hhd.
  pose proof (good_nil s0 t Hg0) as Hnn. pose proof Hnd as Hnd1. rewrite El in Hl, Hhd, Hnn, Hnd1.
  destruct (unlink_spec s0 z l1 l2 Hl Hnd1 Hnn Hhd) as (s1 & -> & L1 & Hd1 & Hr1 & Hsz1 & Hs1). cbn [mbind outcome_bind].
  assert (holds s1 t) as H1 by by apply (holds_shape s0).
  assert (colour_of nil s1 = Black) as Hn1 by (unfold colour_of; by destruct (Hs1 nil) as (_ & _ & _ & ->)).
  destruct (detach_spec fuel s1 t z n H1 Hrbt Hz) as (t' & c & s2 & -> & k & m1 & m2 & Em & Ei & Hst & Hgap & Hk & K2 & Hn2); [lia|].
  cbn [mbind outcome_bind]. destruct (gap_fix fuel k t' c s2 Hst Hgap) as (s3 & t3 & -> & H3 & Hrbt3 & Ei3 & K3); [lia|by rewrite Hn2|].
  cbn [mbind outcome_bind]. rewrite Ei in Ei3. clear Ei. rewrite Em in Hnd. rewrite <-(filter_out z m1 m2 Hnd), <-Em, El, filter_out in Ei3 by done.
  assert (kept s1 s3) as [Kh Ks Ksucc Kpred] by by etrans.
  assert (linked s3 nil (l1 ++ l2) nil) as L3 by (eapply linked_ext; [exact L1|auto]).
  assert (head s3 = front nil (l1 ++ l2)) as Hd3 by congruence.
  assert (size s3 = Z.of_nat (length (inorder t))) as Hsz3 by (rewrite Ks, Hsz1; apply Hg0).
  pose proof (good_length s t Hg) as Hlen.
  assert (∃ s4, (if root s3 =? nil then Done (set_head nil s3)
    else _ ← bug_on ((head s3 =? nil) || negb (predecessor (head s3) s3 =? nil)); Done s3) = Done s4 ∧ holds s4 t3 ∧
    linked s4 nil (l1 ++ l2) nil ∧ head s4 = front nil (l1 ++ l2) ∧ size s4 = size s3) as (s4 & -> & H4 & L4 & Hd4 & Hsz4).
  { rewrite (ho_root _ _ H3). rewrite <-Ei3. rewrite <-Ei3 in L3, Hd3. destruct t3 as [|c3 l3 x3 r3] eqn:Et; simpl ptr.
    - rewrite Z.eqb_refl. eexists. split; [done|]. split; [by apply holds_set_head|done].
    - rewrite (proj2 (Z.eqb_neq x3 nil)) by (intros E; pose proof (ho_rep _ _ H3) as [? _]; done). rewrite <-Et in *.
      assert (head s3 ≠ nil ∧ predecessor (head s3) s3 = nil) as [Hdn Hdp].
      { assert (inorder t3 ≠ []) as Hne by (apply inorder_not_nil; by rewrite Et). rewrite Hd3. destruct (inorder t3) as [|x l] eqn:Ex; [done|]. simpl.
        destruct L3 as (Hp & _). split; [|done]. intros E. apply (ho_nil _ _ H3). rewrite Ex, E. by left. }
      rewrite (proj2 (Z.eqb_neq (head s3) nil)), Hdp by done. exists s3. done. }
  cbn [mbind outcome_bind]. rewrite Hsz4, Hsz3.
  rewrite (proj2 (Z.eqb_neq _ 0)). 2: { rewrite El, length_app. simpl. lia. } cbn [bug_on mbind outcome_bind].
  eexists _, t3. split; [done|]. rewrite El, filter_out, <-Ei3 by done. split; [|done]. split; simpl.
  - by destruct H4.
  - done.
  - rewrite Ei3. eapply linked_ext; [exact L4|done].
  - by rewrite Ei3.
  - assert (length (l1 ++ z :: l2) = S (length (l1 ++ l2))) as E by (rewrite !length_app; simpl; lia). rewrite El in Hlen. rewrite Ei3, w64_small; lia.
  - rewrite Ei3. pose proof (gd_range _ _ Hg) as Hr. rewrite El in Hr. apply Forall_app in Hr as [? [_ ?]%Forall_cons]. by apply Forall_app.
Qed.
