(* ===== verification/RbtreeSpec.v ===== *)
(** The red-black tree refines an ordered list: the list that the scheduler's queues are in
    [Sched.v]. *)

From stdpp Require Import sorting.
From S2P Require Import Prelude Math Sched SchedInv Rbtree RbTrees RbtreeRep RbtreeFix RbtreeIns RbtreeDel.

(** An insertion with the order of that moment: the scheduler's order depends on the run times
    of the threads, which change while they are not in the tree. *)
Inductive op := Insert (less : Z → Z → bool) (x : Z) | Remove (x : Z).
Definition tree_op (o : op) (s : rbtree) : outcome rbtree :=
  match o with Insert less x => insert less enough x s | Remove x => remove enough x s end.
Fixpoint tree_run (os : list op) (s : rbtree) : outcome rbtree :=
  match os with [] => Done s | o :: os => s ← tree_op o s; tree_run os s end.

(** The same on a list: an object that is in the tree is not inserted again, one that is not
    in it is not removed. *)
Inductive list_run : list op → list Z → list Z → Prop :=
  | run_end l : list_run [] l l
  | run_insert less x os l l' : weak_order less → ordered less l → x ∉ l → 0 < x < 2 ^ 64 →
      list_run os (rb_insert less x l) l' → list_run (Insert less x :: os) l l'
  | run_remove x os l l1 l' : rb_remove x l = Done l1 → list_run os l1 l' → list_run (Remove x :: os) l l'.

Lemma tree_run_refines os l l' : list_run os l l' → ∀ s t, good s t → inorder t = l →
  ∃ s' t', tree_run os s = Done s' ∧ good s' t' ∧ inorder t' = l'.
Proof.
  induction 1 as [l|less x os l l' Hw Ho Hx Hr _ IH|x os l l1 l' E _ IH]; intros s t Hg <-; simpl; [by exists s, t| |].
  - destruct (insert_good less s t x enough Hw Ho Hg Hx Hr) as (s1 & t1 & -> & Hg1 & E1); [done|]. by apply (IH s1 t1).
  - destruct (decide (x ∈ inorder t)) as [Hx|Hx]; [|unfold rb_remove in E; by rewrite decide_False in E].
    rewrite rb_remove_spec in E by done. injection E as <-. destruct (remove_good s t x enough Hg Hx) as (s1 & t1 & -> & Hg1 & E1); [done|].
    by apply (IH s1 t1).
Qed.
Lemma good_new h : good (new_rbtree h) Leaf.
Proof.
  assert (nil ∉ ([] : list Z)) as Hn by set_solver. split; simpl; try done; [by split; try constructor|exists O; constructor].
Qed.

Lemma iterate_S fuel x s : iterate (S fuel) x s = if x =? nil then Done [] else l ← iterate fuel (successor x s) s; Done (x :: l).
Proof. done. Qed.
Lemma iterate_spec s l : ∀ p, linked s p l nil → nil ∉ l → iterate (S (length l)) (front nil l) s = Done l.
Proof.
  induction l as [|x l IH]; intros p Hl Hn; [done|]. destruct Hl as (_ & Hs & Hl). rewrite elem_of_cons in Hn.
  cbn [length front]. rewrite iterate_S, (proj2 (Z.eqb_neq x nil)) by (intros ->; tauto). rewrite Hs, (IH x) by tauto. done.
Qed.
Lemma last_spec s t : good s t → last enough s = Done (back nil (inorder t)).
Proof.
  intros Hg. unfold last. rewrite (good_root s t Hg). destruct (decide (t = Leaf)) as [->|Ht]; [done|].
  assert (ptr t ≠ nil) as Hp by (intros E; by apply (holds_leaf_or s [] t (gd_holds _ _ Hg)) in E).
  rewrite (proj2 (Z.eqb_neq (ptr t) nil)) by done. unfold maximum. rewrite (proj2 (Z.eqb_neq (ptr t) nil)) by done. cbn [bug_on mbind outcome_bind].
  pose proof (good_height s t Hg) as Hh. pose proof (gd_holds _ _ (good_hook s t nil new_hook Hg (good_nil s t Hg))) as Hg0.
  rewrite (extreme_spec R _ t [] enough Hg0 Ht); [done|unfold enough; lia].
Qed.
Lemma contains_spec less s x t : weak_order less → ∀ k fuel, holds s (plug k t) → ordered less (inorder t) → (height t < fuel)%nat →
  contains_loop less fuel x (ptr t) s = Done (existsb (λ y, negb (less y x) && negb (less x y)) (inorder t)).
Proof.
  intros [Htr Has]. induction t as [|c l IHl y r IHr]; intros k fuel Hh Ho Hf; (destruct fuel as [|fuel]; [lia|]); cbn [contains_loop ptr inorder]; [done|].
  simpl in Hf. rewrite (proj2 (Z.eqb_neq y nil)) by apply (read_ne _ _ L _ _ _ _ Hh).
  rewrite existsb_app. cbn [existsb]. destruct (negb (less y x) && negb (less x y)) eqn:E; [by rewrite orb_true_l, orb_true_r|].
  destruct (read_kids s k L c l y r Hh) as [El Er]. cbn [flip] in Er. cbn [orb].
  apply StronglySorted_app in Ho as (Hlr & Hl & Hr). apply StronglySorted_inv in Hr as [Hr Hyr]. rewrite Forall_forall in Hyr.
  assert (∀ m, (∀ w, w ∈ m → negb (less w x) && negb (less x w) = false) → existsb (λ y, negb (less y x) && negb (less x y)) m = false) as Hno.
  { intros m Hm. apply not_true_is_false. intros (w & Hw & Ew)%existsb_exists. apply list_elem_of_In in Hw. by rewrite Hm in Ew. }
  destruct (less x y) eqn:Exy.
  - rewrite El, (IHl (mk_frame L c y r :: k)) by (done || lia). rewrite (Hno (inorder r)); [by rewrite orb_false_r|].
    intros w Hw. specialize (Hyr w Hw). simpl in Hyr. destruct (less x w) eqn:Exw; [by rewrite andb_false_r|]. by rewrite (Htr x w y) in Exy.
  - rewrite Er, (IHr (mk_frame R c y l :: k)) by (done || lia). rewrite (Hno (inorder l)); [done|].
    intros w Hw. assert (less y w = false) as Eyw by (apply (Hlr w y); [done|by left]).
    destruct (less y x) eqn:Eyx; [|done]. destruct (less w x) eqn:Ewx; [done|]. by rewrite (Htr y w x) in Eyx.
Qed.

(** C8: the tree is what the scheduler takes it for: whatever is inserted and removed, no assertion
    of the code fails, no loop takes more than [enough] steps, and walking the tree from its
    first node gives the list, in which a node comes after its equals; size, first and last
    node are those of the list. *)
Theorem rbtree_refines_list h os l : list_run os [] l →
  ∃ s, tree_run os (new_rbtree h) = Done s ∧ iterate (S (length l)) (first s) s = Done l ∧
    size s = Z.of_nat (length l) ∧ first s = front nil l ∧ last enough s = Done (back nil l) ∧ NoDup l.
Proof.
  intros E. destruct (tree_run_refines os [] l E _ Leaf (good_new h) eq_refl) as (s & t & Et & Hg & <-).
  exists s. pose proof Hg as [Hh _ Hl Hhd Hsz _]. split; [done|]. unfold first. rewrite Hhd.
  split; [by eapply iterate_spec, good_nil|]. split; [done|]. split; [done|]. split; [by eapply last_spec|apply Hh].
Qed.
Definition ex_insert : Z → op := Insert Z.ltb.
Definition ex_ops : list op :=
  [ex_insert 8; ex_insert 3; ex_insert 5; ex_insert 9; ex_insert 4; Remove 5; ex_insert 7; Remove 8].
Lemma ex_run : list_run ex_ops [] [3; 4; 7; 9].
Proof.
  assert (weak_order Z.ltb) as Hw by apply (ltb_weak_order (λ x, x)).
  repeat first [apply run_end|apply run_insert; [done|by repeat constructor|set_solver|lia|vm_compute rb_insert]|eapply run_remove; [vm_compute; reflexivity|]].
Qed.
Lemma rbtree_refines_list_witness : list_run ex_ops [] [3; 4; 7; 9] ∧
  ∃ s, tree_run ex_ops (new_rbtree (λ _, new_hook)) = Done s ∧ iterate 5 (first s) s = Done [3; 4; 7; 9] ∧
    size s = 4 ∧ first s = 3 ∧ last enough s = Done 9 ∧ NoDup [3; 4; 7; 9].
Proof. split; [apply ex_run|]. apply (rbtree_refines_list (λ _, new_hook) ex_ops [3; 4; 7; 9]), ex_run. Defined.

(** C37: the tree stays balanced: no way from the root is longer than twice the logarithm of the
    number of nodes, and a search finds what the list holds within that many steps. *)
Theorem rbtree_search less h os l x : weak_order less → list_run os [] l → ordered less l →
  ∃ s t, tree_run os (new_rbtree h) = Done s ∧ holds s t ∧ inorder t = l ∧
    Z.of_nat (height t) ≤ 2 * Z.log2 (Z.of_nat (length l) + 1) ∧
    contains less (S (height t)) x s = Done (existsb (λ y, negb (less y x) && negb (less x y)) l).
Proof.
  intros Hw E Ho. destruct (tree_run_refines os [] l E _ Leaf (good_new h) eq_refl) as (s & t & Et & Hg & <-).
  exists s, t. pose proof Hg as [Hh [n Hn] _ _ _ _]. split; [done|]. split; [done|]. split; [done|]. split.
  - apply rbt_height in Hn as [H1 H2]. rewrite decide_False in H1 by done.
    apply Z.log2_le_mono in H2. rewrite Z.log2_pow2 in H2 by lia. lia.
  - unfold contains. rewrite (good_root s t Hg). apply (contains_spec less s x t Hw []); [done|done|lia].
Qed.
Lemma rbtree_search_witness : weak_order Z.ltb ∧ list_run ex_ops [] [3; 4; 7; 9] ∧ ordered Z.ltb [3; 4; 7; 9] ∧
  ∃ s t, tree_run ex_ops (new_rbtree (λ _, new_hook)) = Done s ∧ holds s t ∧ inorder t = [3; 4; 7; 9] ∧
    Z.of_nat (height t) ≤ 2 * Z.log2 (4 + 1) ∧ contains Z.ltb (S (height t)) 7 s = Done true.
Proof.
  assert (weak_order Z.ltb) as Hw by apply (ltb_weak_order (λ x, x)).
  assert (ordered Z.ltb [3; 4; 7; 9]) as Ho by (by repeat constructor). split; [done|]. split; [apply ex_run|]. split; [done|].
  apply (rbtree_search Z.ltb (λ _, new_hook) ex_ops [3; 4; 7; 9] 7 Hw ex_run Ho).
Defined.
