(* ===== verification/Exec.v ===== *)
(** Loading programs: the table of formats (kernel/source/system/bin/exec.cpp), scripts
    (script.cpp) and ELF executables (elf/exec.cpp).

    A program is loaded into the address space of a process: its segments become objects that
    are mapped there, and a thread is made whose stack holds the arguments.  The files, the
    object store and the address spaces are those of [Files.v], [Objects.v] and [Vmm.v]; the
    thread is made by [Sched.thread_create].  The properties are in [ExecSpec.v]. *)

From S2P Require Import Prelude Math Pmm Frames Pagemap Objects Vmm LibC Vfs Files SysVfs Process Sched.
#[local] Open Scope Z_scope.

(** * ELF structures (kernel/include/libc/elf.h), little-endian *)
Definition field (off n : nat) (l : list Z) : Z := of_le (take n (drop off l)).
Record Elf64_Ehdr := mk_ehdr
  { e_ident : list Z; e_type : Z; e_machine : Z; e_entry : Z; e_phoff : Z; e_phentsize : Z; e_phnum : Z }.
Definition ehdr_of (l : list Z) : Elf64_Ehdr :=
  mk_ehdr (take 16 l) (field 16 2 l) (field 18 2 l) (field 24 8 l) (field 32 8 l) (field 54 2 l) (field 56 2 l).
Record Elf64_Phdr := mk_phdr
  { p_type : Z; p_flags : Z; p_offset : Z; p_vaddr : Z; p_filesz : Z; p_memsz : Z }.
Definition phdr_of (l : list Z) : Elf64_Phdr :=
  mk_phdr (field 0 4 l) (field 4 4 l) (field 8 8 l) (field 16 8 l) (field 32 8 l) (field 40 8 l).
Definition ehdr_size : Z := 64.
Definition phdr_size : Z := 56.
Definition ET_DYN : Z := 3.
Definition PT_LOAD : Z := 1.
Definition PT_INTERP : Z := 3.
Definition PT_PHDR : Z := 6.
Definition PF_X : Z := 1.
Definition PF_W : Z := 2.
Definition PF_R : Z := 4.
Definition AT_NULL : Z := 0.
Definition AT_PHDR : Z := 3.
Definition AT_PHENT : Z := 4.
Definition AT_PHNUM : Z := 5.
Definition AT_ENTRY : Z := 9.
Definition AT_SECURE : Z := 23.

(** What [identify] requires of the header: magic, 64 bits, little-endian, System V, version 1,
    x86_64. *)
Definition identified (h : Elf64_Ehdr) : bool :=
  bool_decide (take 4 (e_ident h) = [0x7F; 0x45; 0x4C; 0x46]) && (nth 4 (e_ident h) 0 =? 2) && (nth 5 (e_ident h) 0 =? 1) &&
  (nth 7 (e_ident h) 0 =? 0) && (nth 6 (e_ident h) 0 =? 1) && (e_machine h =? 62).

Definition prot_of (p_flags : Z) : Z :=
  let prot := 0 in
  let prot := if Z.land p_flags PF_R =? 0 then prot else Z.lor prot prot_read in
  let prot := if Z.land p_flags PF_W =? 0 then prot else Z.lor prot prot_write in
  if Z.land p_flags PF_X =? 0 then prot else Z.lor prot prot_exec.

(** [struct auxval] *)
Record auxval := mk_aux { at_entry : Z; at_phdr : Z; at_phent : Z; at_phnum : Z }.
Definition set_at_phdr (x : Z) (a : auxval) : auxval := mk_aux (at_entry a) x (at_phent a) (at_phnum a).

(** * The stack of a new program

    The buffer that is written to the end of the stack, and [offset], counted from the bottom
    of the stack. *)
Record sbuf := mk_sbuf { sb : list Z; offset : Z }.
(** [sptr()] *)
Definition sptr (x : sbuf) : Z := w64 (Z.of_nat (length (sb x)) - w64 (ustack_size - offset x)).
(** [offset -= n] and the [n] bytes [l] there. *)
Definition push (l : list Z) (x : sbuf) : outcome sbuf :=
  let x := mk_sbuf (sb x) (w64 (offset x - Z.of_nat (length l))) in
  let p := sptr x in
  if Z.of_nat (length (sb x)) <? p + Z.of_nat (length l) then Crash else
  Done (mk_sbuf (take (Z.to_nat p) (sb x) ++ l ++ drop (Z.to_nat p + length l) (sb x)) (offset x)).
Definition push_word (v : Z) : sbuf → outcome sbuf := push (le_bytes 8 v).
(** A string with its terminator, and its address. *)
Definition push_string (bottom : Z) (str : list Z) (x : sbuf) : outcome (Z * sbuf) :=
  x ← push (str ++ [0]) x; Done (w64 (bottom + offset x), x).
Fixpoint push_strings (bottom : Z) (l : list (list Z)) (x : sbuf) : outcome (list Z * sbuf) :=
  match l with
  | [] => Done ([], x)
  | str :: l => '(a, x) ← push_string bottom str x; '(r, x) ← push_strings bottom l x; Done (a :: r, x)
  end.
(** Pointers are pushed from the last to the first. *)
Fixpoint push_words (l : list Z) (x : sbuf) : outcome sbuf :=
  match l with [] => Done x | v :: l => x ← push_word v x; push_words l x end.
Definition num_auxvals : Z := 6.
(** [write_auxv], called the [num]-th time. *)
Fixpoint write_auxvs (num : Z) (l : list (Z * Z)) (x : sbuf) : outcome sbuf :=
  match l with
  | [] => Done x
  | (type, value) :: l =>
      _ ← bug_on (num =? num_auxvals);
      x ← push_word value x; x ← push_word type x; write_auxvs (num + 1) l x
  end.
Definition auxvals (a : auxval) : list (Z * Z) :=
  [(AT_NULL, 0); (AT_PHDR, at_phdr a); (AT_PHENT, at_phent a); (AT_PHNUM, at_phnum a); (AT_ENTRY, at_entry a); (AT_SECURE, 0)].

Definition strings_size (l : list (list Z)) : Z := foldr (λ str n, w64 (Z.of_nat (length str) + 1 + n)) 0 l.
Definition count (l : list (list Z)) : Z := Z.of_nat (length l).
Definition one_more (argv envp : list (list Z)) : bool := Z.odd (count argv + count envp + 1).
Definition required_size (argv envp : list (list Z)) : Z :=
  w64 (align_up (w64 (strings_size envp + strings_size argv)) 16 + (if one_more argv envp then 8 else 0) + num_auxvals * 16 + 8 +
    count envp * 8 + 8 + count argv * 8 + 8).
(** The part of [load] that fills the buffer; [bottom] is [addr_bottom]. *)
Definition build_stack (bottom : Z) (argv envp : list (list Z)) (aux : auxval) : outcome sbuf :=
  let size := required_size argv envp in
  _ ← bug_on (negb (size mod 16 =? 0));
  let x := mk_sbuf (replicate (Z.to_nat size) 0) ustack_size in
  '(envp_offsets, x) ← push_strings bottom envp x;
  '(argv_offsets, x) ← push_strings bottom argv x;
  let x := mk_sbuf (sb x) (align_down (offset x) 16) in
  x ← (if one_more argv envp then push_word 0 x else Done x);
  x ← write_auxvs 0 (auxvals aux) x;
  x ← push_word 0 x;
  x ← push_words (rev envp_offsets) x;
  x ← push_word 0 x;
  x ← push_words (rev argv_offsets) x;
  x ← push_word (count argv) x;
  _ ← bug_on (negb (w64 (ustack_size - offset x) =? size));
  Done x.

(** * Formats *)
Inductive format := Elf | Script.
#[export] Instance format_eq_dec : EqDecision format.
Proof. solve_decision. Defined.
Definition name (f : format) : string := match f with Elf => "elf" | Script => "script" end.
(** [register_format] and [get_format]; the order of [formats] is that of the hash table. *)
Definition get_format (n : string) (formats : list format) : option format := snd <$> list_find (λ f, name f = n) formats.
Definition register_format (f : format) (formats : list format) : bool * list format :=
  if bool_decide (get_format (name f) formats = None) then (true, f :: formats) else (false, formats).

Section exec.
Context `{PathOps} `{FrameAllocator St} `{RandomSource} `{SysParams} {PM HP : Type} `{PageMapOps PM, KernelHeap HP}.
Context (fuel : nat) (me : caller).

(** The kernel as the loader sees it: the scheduler with processes and address spaces, and the
    files with the object store, of which the scheduler's functions use the same. *)
Record xsys := mk_xsys { x_sched : sched St PM HP; x_fs : fsys St }.
Definition X (A : Type) : Type := xsys → outcome (A * xsys).
#[export] Instance X_ret : MRet X := λ A a s, Done (a, s).
#[export] Instance X_bind : MBind X := λ A B f m s, '(a, s) ← m s; f a s.
Definition in_files {A} (f : fsys St → outcome (A * fsys St)) : X A :=
  λ s, '(a, fs) ← f (x_fs s); Done (a, mk_xsys (x_sched s) fs).
Definition in_vfs {A} (f : vfs St → outcome (A * vfs St)) : X A :=
  in_files (λ s, '(a, v) ← f (fvfs s); Done (a, set_vfs v s)).
Definition in_store {A} (f : objstore St → outcome (A * objstore St)) : X A :=
  in_files (λ s, '(a, m) ← f (mem (fvfs s)); Done (a, set_objects m s)).
Definition in_sched {A} (f : sched St PM HP → outcome (A * sched St PM HP)) : X A :=
  λ s, '(a, k) ← f (put_memory (mem (fvfs (x_fs s))) (x_sched s)); Done (a, mk_xsys k (set_objects (memory k) (x_fs s))).
Definition in_space {A} (sp : Z) (f : vmspace PM → outcome (A * vmspace PM)) : X A :=
  λ s, v ← deref (spaces (tables (x_sched s)) !! sp);
       '(a, v) ← f v;
       Done (a, mk_xsys (put_tables (put_space sp v (tables (x_sched s))) (x_sched s)) (x_fs s)).
Definition check (c : bool) : X unit := λ s, _ ← bug_on c; Done ((), s).

(** [lib::membuffer { count }]: not initialised; the heap panics when it is exhausted. *)
Definition new_buffer (count : Z) : X (list Z) :=
  λ s, if alloc_max <? count then Panic else Done (replicate (Z.to_nat count) (w8 (junk (fvfs (x_fs s)))), s).
(** A local variable of [count] bytes. *)
Definition local_buffer (count : Z) : X (list Z) :=
  λ s, Done (replicate (Z.to_nat count) (w8 (junk (fvfs (x_fs s)))), s).
(** [pread] into a buffer that has to fill it. *)
Definition read_into (file off : Z) (buffer : list Z) : X (list Z) :=
  '(ret, l) ← in_files (λ s, '(ret, l, s) ← file_pread file off buffer s; Done ((ret, l), s));
  _ ← check (negb (ret =? s64 (Z.of_nat (length buffer))));
  mret l.
Definition read_exactly (file off n : Z) : X (list Z) :=
  buffer ← new_buffer n;
  read_into file off buffer.
Definition read_struct (file off n : Z) : X (list Z) :=
  buffer ← local_buffer n;
  read_into file off buffer.

(** [case PT_LOAD]: the new object of a segment gets the bytes of the file, then zeros. *)
Definition fill_object (file obj misalign : Z) (ph : Elf64_Phdr) : X unit :=
  file_buffer ← read_exactly file (p_offset ph) (p_filesz ph);
  n ← in_store (Objects.write obj misalign file_buffer);
  _ ← check (negb (n =? p_filesz ph));
  if p_filesz ph <? p_memsz ph then
    let zeroes_len := p_memsz ph - p_filesz ph in
    zeroes ← new_buffer zeroes_len;
    n ← in_store (Objects.write obj (w64 (misalign + p_filesz ph)) (replicate (length zeroes) 0));
    check (negb (n =? zeroes_len))
  else mret ().
Definition load_segment (file sp addr : Z) (ph : Elf64_Phdr) : X unit :=
  let misalign := p_vaddr ph mod page_size in
  let address := w64 (w64 (addr + p_vaddr ph) - misalign) in
  obj ← in_store (λ m, Done (new_memobject m));
  _ ← fill_object file obj misalign ph;
  r ← in_space sp (vm_map address (w64 (p_memsz ph + misalign)) (prot_of (p_flags ph)) fl_private obj 0);
  check (match r with Unexpected _ => true | Value _ => false end).

(** [case PT_INTERP]: the file that loads the program, if it is found. *)
Definition open_interp (file : Z) (ph : Elf64_Phdr) : X (option Z) :=
  l ← read_exactly file (p_offset ph) (w64 (p_filesz ph - 1));
  f ← in_files (λ s, f ← file_of file s; Done (f, s));
  ret ← in_vfs (resolve fuel me (Some (f_path f)) (string_of_bytes l));
  match ret with
  | Unexpected _ => mret None
  | Value r =>
      res ← in_vfs (reduce fuel me (r_parent r) (r_target r) symloop_max);
      match res with
      | Unexpected _ => mret None
      | Value p => i ← in_files (λ s, Done (file_create p 0 0 s)); mret (Some i)
      end
  end.

(** The loop over the program headers, from the [i]-th of [n]. *)
Fixpoint phdr_loop (n : nat) (file sp addr : Z) (h : Elf64_Ehdr) (i : Z) (aux : auxval) (interp : option Z)
    : X (option (auxval * option Z)) :=
  match n with
  | O => mret (Some (aux, interp))
  | S n =>
      l ← read_struct file (w64 (e_phoff h + i * e_phentsize h)) phdr_size;
      let ph := phdr_of l in
      if p_type ph =? PT_LOAD then
        _ ← load_segment file sp addr ph;
        phdr_loop n file sp addr h (i + 1) aux interp
      else if p_type ph =? PT_PHDR then
        phdr_loop n file sp addr h (i + 1) (set_at_phdr (w64 (addr + p_vaddr ph)) aux) interp
      else if p_type ph =? PT_INTERP then
        r ← open_interp file ph;
        match r with
        | None => mret None
        | Some f => phdr_loop n file sp addr h (i + 1) aux (Some f)
        end
      else phdr_loop n file sp addr h (i + 1) aux interp
  end.
Definition load_file (file sp addr : Z) : X (option (auxval * option Z)) :=
  l ← read_struct file 0 ehdr_size;
  let h := ehdr_of l in
  let addr := if e_type h =? ET_DYN then addr else 0 in
  let aux := mk_aux (w64 (addr + e_entry h)) (w64 (addr + e_phoff h)) (e_phentsize h) (e_phnum h) in
  phdr_loop (Z.to_nat (e_phnum h)) file sp addr h 0 aux None.

(** [format::identify] *)
Definition identify_format (f : format) (file : Z) : X bool :=
  match f with
  | Elf => l ← read_struct file 0 ehdr_size; mret (identified (ehdr_of l))
  | Script => mret false
  end.
Fixpoint identify (file : Z) (formats : list format) : X (option format) :=
  match formats with
  | [] => mret None
  | f :: formats => b ← identify_format f file; if (b : bool) then mret (Some f) else identify file formats
  end.

(** [exec::request], without the interpreter of scripts. *)
Record request := mk_request { r_file : Z; r_interp : option Z; argv : list (list Z); envp : list (list Z) }.
Definition default_base : Z := 0x400000.
(** The new thread [t] gets its stack. *)
Definition setup_stack (req : request) (t : Z) (aux : auxval) : X unit :=
  th ← in_sched (λ k, th ← Sched.get_thread t k; Done (th, k));
  obj ← (λ s, match ustack_obj (stk th) with Some o => Done (o, s) | None => Panic end);
  let addr_bottom := w64 (ustack_top (stk th) - ustack_size) in
  _ ← new_buffer (required_size (argv req) (envp req));
  x ← (λ s, x ← build_stack addr_bottom (argv req) (envp req) aux; Done (x, s));
  n ← in_store (Objects.write obj (offset x) (sb x));
  _ ← check (negb (n =? Z.of_nat (length (sb x))));
  in_sched (λ k, k ← update_ustack t (w64 (addr_bottom + offset x)) k; Done ((), k)).
(** [format::load] of ELF files, on processor [c]. *)
Definition load_elf (c : nat) (req : request) (proc : Z) : X (option Z) :=
  pr ← in_sched (λ k, p ← get_process proc (tables k); Done (p, k));
  sp ← (λ s, v ← deref (vspace pr); Done (v, s));
  ret ← load_file (r_file req) sp default_base;
  match ret with
  | None => mret None
  | Some (auxv, interp) =>
      _ ← check (bool_decide (is_Some (r_interp req)) && bool_decide (is_Some interp));
      entry ← match interp with
              | None => mret (Some (at_entry auxv))
              | Some f =>
                  ret ← load_file f sp 0;
                  match ret with
                  | None => mret None
                  | Some (a, i) => _ ← check (bool_decide (is_Some i)); mret (Some (at_entry a))
                  end
              end;
      match entry with
      | None => mret None
      | Some entry =>
          t ← in_sched (thread_create c proc entry true);
          _ ← setup_stack req t auxv;
          mret (Some t)
      end
  end.
Definition load (f : format) (c : nat) (req : request) (proc : Z) : X (option Z) :=
  match f with Elf => load_elf c req proc | Script => mret None end.
End exec.
