(* ===== verification/ExecStack.v ===== *)
(** The stack of a new program is what the System V ABI asks for. *)

From S2P Require Import Prelude Math Pmm Frames Pagemap Objects Vmm LibC Vfs Files SysVfs Process Sched Exec.
#[local] Open Scope Z_scope.

(** * The specification *)

(** The bytes [l], a word, words and a string in a memory. *)
Definition bytes_at (m : Z → Z) (a : Z) (l : list Z) : Prop := ∀ i b, l !! i = Some b → m (a + Z.of_nat i) = b.
Definition words (l : list Z) : list Z := l ≫= le_bytes 8.
Definition string_at (m : Z → Z) (a : Z) (str : list Z) : Prop := bytes_at m a (str ++ [0]).
(** What a program finds at its stack pointer: the number of arguments, pointers to them, a null
    pointer, pointers to the environment, a null pointer, pairs of type and value up to the
    type 0. *)
Definition flat_aux (l : list (Z * Z)) : list Z := l ≫= λ p, [p.1; p.2].
Definition initial_stack (m : Z → Z) (sp : Z) (argv envp : list (list Z)) (aux : list (Z * Z)) : Prop :=
  sp mod 16 = 0 ∧ ∃ ap ep,
    Forall2 (string_at m) ap argv ∧ Forall2 (string_at m) ep envp ∧
    bytes_at m sp (words (count argv :: ap ++ [0] ++ ep ++ [0] ++ flat_aux aux)).
(** The memory it takes. *)
Definition total_size (l : list (list Z)) : Z := foldr (λ str n, Z.of_nat (length str) + 1 + n) 0 l.
Definition stack_need (argv envp : list (list Z)) : Z :=
  16 * ((total_size envp + total_size argv + 15) / 16) + (if one_more argv envp then 8 else 0) + 8 * (count argv + count envp) + 120.

(** * The buffer *)
Lemma length_le_bytes n x : length (le_bytes n x) = n.
Proof. revert x. induction n as [|n IH]; intros x; simpl; [done|]. by rewrite IH. Qed.
Lemma length_words l : length (words l) = (8 * length l)%nat.
Proof. induction l as [|v l IH]; [done|]. unfold words in *. rewrite bind_cons, length_app, length_le_bytes, IH. simpl. lia. Qed.
Lemma words_cons v l : words (v :: l) = le_bytes 8 v ++ words l.
Proof. apply bind_cons. Qed.
Lemma words_app l l' : words (l ++ l') = words l ++ words l'.
Proof. apply bind_app. Qed.
Lemma stack_bytes_app m a l l' : bytes_at m a (l ++ l') ↔ bytes_at m a l ∧ bytes_at m (a + Z.of_nat (length l)) l'.
Proof.
  split.
  - intros H. split; intros i b Hi; [apply H; by apply lookup_app_l_Some|].
    rewrite <-Z.add_assoc, <-Nat2Z.inj_add. apply H. by rewrite lookup_app_r, Nat.add_comm, Nat.add_sub by lia.
  - intros [H1 H2] i b [Hi|[Hl Hi]]%lookup_app_Some; [by apply H1|]. rewrite <-(H2 _ _ Hi). f_equal. lia.
Qed.

(** What has been written so far, [c]; below it the buffer is zero. *)
Record filled (size : Z) (c : list Z) (x : sbuf) : Prop := {
  fl_size : size ≤ ustack_size;
  fl_length : Z.of_nat (length c) ≤ size;
  fl_offset : offset x = ustack_size - Z.of_nat (length c);
  fl_bytes : sb x = replicate (Z.to_nat size - length c) 0 ++ c }.
Lemma filled_start size : 0 ≤ size ≤ ustack_size → filled size [] (mk_sbuf (replicate (Z.to_nat size) 0) ustack_size).
Proof. intros Hs. split; simpl; try lia. by rewrite Nat.sub_0_r, app_nil_r. Qed.
Lemma filled_buffer size c x : filled size c x → Z.of_nat (length (sb x)) = size.
Proof. intros []. rewrite fl_bytes0, length_app, length_replicate. lia. Qed.
Lemma push_spec size c x l : filled size c x → Z.of_nat (length l) + Z.of_nat (length c) ≤ size →
  ∃ x', push l x = Done x' ∧ filled size (l ++ c) x'.
Proof.
  intros Hf Hl. pose proof (filled_buffer _ _ _ Hf) as Hb. destruct Hf as [Hs Hc Ho Hbs]. unfold ustack_size in *. unfold push.
  assert (w64 (offset x - Z.of_nat (length l)) = 0x200000 - Z.of_nat (length (l ++ c))) as Eo by (rewrite length_app, w64_small; lia).
  assert (sptr (mk_sbuf (sb x) (w64 (offset x - Z.of_nat (length l)))) = size - Z.of_nat (length (l ++ c))) as Ep.
  { unfold sptr, ustack_size. cbn [sb Exec.offset]. rewrite Eo, Hb. rewrite length_app. rewrite (w64_small (_ - (_ - _))) by lia. rewrite w64_small; lia. }
  cbv zeta. rewrite Ep. cbn [sb Exec.offset]. rewrite Hb, length_app in *. destruct (Z.ltb_spec size (size - Z.of_nat (length l + length c) + Z.of_nat (length l))); [lia|].
  eexists. split; [done|]. split; simpl; unfold ustack_size; rewrite ?length_app; try lia.
  rewrite Hbs. replace (Z.to_nat (size - Z.of_nat (length l + length c))) with (Z.to_nat size - length c - length l)%nat by lia.
  rewrite take_app_le, take_replicate by (rewrite length_replicate; lia).
  rewrite drop_app_ge by (rewrite length_replicate; lia). rewrite length_replicate.
  f_equal; [f_equal; lia|]. f_equal. replace (_ - _)%nat with 0%nat by lia. done.
Qed.
Lemma push_words_spec size l : ∀ c x, filled size c x → 8 * Z.of_nat (length l) + Z.of_nat (length c) ≤ size →
  ∃ x', push_words l x = Done x' ∧ filled size (words (rev l) ++ c) x'.
Proof.
  induction l as [|v l IH]; intros c x Hf Hl; simpl in *; [by exists x|].
  destruct (push_spec size c x (le_bytes 8 v) Hf) as (x1 & E1 & H1); [rewrite length_le_bytes; lia|]. unfold push_word. rewrite E1. cbn [mbind outcome_bind].
  destruct (IH _ _ H1) as (x2 & -> & H2); [rewrite length_app, length_le_bytes; lia|]. exists x2. split; [done|].
  rewrite words_app, words_cons. simpl. by rewrite <-app_assoc.
Qed.
Lemma write_auxvs_spec size l : ∀ num c x, filled size c x → 16 * Z.of_nat (length l) + Z.of_nat (length c) ≤ size →
  num + Z.of_nat (length l) ≤ num_auxvals →
  ∃ x', write_auxvs num l x = Done x' ∧ filled size (words (flat_aux (rev l)) ++ c) x'.
Proof.
  induction l as [|[type value] l IH]; intros num c x Hf Hl Hn; simpl in *; [by exists x|].
  rewrite (proj2 (Z.eqb_neq num num_auxvals)) by lia. cbn [bug_on mbind outcome_bind]. unfold push_word.
  destruct (push_spec size c x (le_bytes 8 value) Hf) as (x1 & E1 & H1); [rewrite length_le_bytes; lia|]. rewrite E1. cbn [mbind outcome_bind].
  destruct (push_spec size _ x1 (le_bytes 8 type) H1) as (x2 & E2 & H2); [rewrite length_app, !length_le_bytes; lia|]. rewrite E2. cbn [mbind outcome_bind].
  destruct (IH (num + 1) _ _ H2) as (x3 & -> & H3); [rewrite !length_app, !length_le_bytes; lia|lia|]. exists x3. split; [done|].
  unfold flat_aux. rewrite bind_app, words_app. cbn [mbind list_bind fst snd app]. rewrite !words_cons. by rewrite <-!app_assoc.
Qed.

(** Where a string is, in memory that ends at [top] with [c]. *)
Definition string_placed (top : Z) (c : list Z) (a : Z) (str : list Z) : Prop :=
  ∃ hi lo, c = hi ++ (str ++ [0]) ++ lo ∧ a = top - Z.of_nat (length ((str ++ [0]) ++ lo)).
Lemma string_placed_app top c c' a str : string_placed top c a str → string_placed top (c' ++ c) a str.
Proof. intros (hi & lo & -> & ->). exists (c' ++ hi), lo. split; [apply app_assoc|done]. Qed.
Lemma strings_placed_app top c c' al l : Forall2 (string_placed top c) al l → Forall2 (string_placed top (c' ++ c)) al l.
Proof. intros Hl. eapply Forall2_impl; [exact Hl|]. intros a str. apply string_placed_app. Qed.
Lemma string_placed_at m top c a str : string_placed top c a str → bytes_at m (top - Z.of_nat (length c)) c → string_at m a str.
Proof.
  intros (hi & lo & -> & ->) [_ [H _]%stack_bytes_app]%stack_bytes_app. unfold string_at.
  eassert (top - Z.of_nat (length ((str ++ [0]) ++ lo)) = _) as ->; [|exact H]. rewrite (length_app hi). lia.
Qed.
Lemma push_strings_spec size bottom l : 0 ≤ bottom → bottom + ustack_size < 2 ^ 64 → ∀ c x, filled size c x →
  total_size l + Z.of_nat (length c) ≤ size →
  ∃ al x' c', push_strings bottom l x = Done (al, x') ∧ filled size (c' ++ c) x' ∧ Z.of_nat (length c') = total_size l ∧
    Forall2 (string_placed (bottom + ustack_size) (c' ++ c)) al l ∧ length al = length l.
Proof.
  intros Hb0 Hb. induction l as [|str l IH]; intros c x Hf Hl; [exists [], x, []; split_and!; (done || constructor)|]. cbn [push_strings]. simpl in Hl. unfold push_string.
  assert (0 ≤ total_size l) as Ht by (clear; induction l; simpl; lia).
  destruct (push_spec size c x (str ++ [0]) Hf) as (x1 & -> & H1); [rewrite length_app; simpl; lia|]. cbn [mbind outcome_bind].
  destruct (IH _ _ H1) as (al & x2 & c' & -> & H2 & Hc & Hp & Hla); [rewrite !length_app; simpl; lia|]. cbn [mbind outcome_bind].
  exists (w64 (bottom + offset x1) :: al), x2, (c' ++ str ++ [0]). split; [done|].
  assert ((c' ++ str ++ [0]) ++ c = c' ++ (str ++ [0]) ++ c) as -> by by rewrite <-!app_assoc.
  split; [exact H2|]. split; [rewrite !length_app; simpl; lia|]. split; [|simpl; by rewrite Hla]. constructor; [|done].
  exists c', c. split; [done|]. destruct H1 as [Hs Hlen -> _]. unfold ustack_size in *. rewrite w64_small; lia.
Qed.

Lemma total_size_strings l : total_size l < 2 ^ 64 → strings_size l = total_size l ∧ 0 ≤ total_size l.
Proof.
  unfold strings_size, total_size. induction l as [|str l IH]; simpl; [done|]. intros Hl.
  destruct IH as [E H0]; [lia|]. rewrite E. split; [apply w64_small; lia|lia].
Qed.
Lemma required_size_eq argv envp : stack_need argv envp ≤ ustack_size →
  required_size argv envp = stack_need argv envp ∧ 0 ≤ total_size argv ∧ 0 ≤ total_size envp ∧
  stack_need argv envp mod 16 = 0.
Proof.
  intros Hn. assert (∀ l, 0 ≤ total_size l) as Ht by (intros l; clear; induction l; simpl; lia).
  pose proof (Ht argv) as Ha. pose proof (Ht envp) as He. unfold stack_need, ustack_size in *.
  assert (0 ≤ (if one_more argv envp then 8 else 0) ≤ 8) as H8 by (destruct (one_more argv envp); lia).
  destruct (total_size_strings argv) as [Ea _]; [unfold count in *; Z.to_euclidean_division_equations; lia|].
  destruct (total_size_strings envp) as [Ee _]; [unfold count in *; Z.to_euclidean_division_equations; lia|].
  assert (total_size envp + total_size argv < 2 ^ 22) as Hlt by (unfold count in *; Z.to_euclidean_division_equations; lia).
  split; [|split_and!; try done].
  - unfold required_size. rewrite Ea, Ee. rewrite (w64_small (total_size envp + total_size argv)) by lia.
    rewrite (align_up_pow2 _ 4) by lia. unfold num_auxvals, count in *.
    rewrite w64_small; Z.to_euclidean_division_equations; lia.
  - unfold one_more. destruct (Z.odd (count argv + count envp + 1)) eqn:E.
    + apply Z.odd_spec in E as [k E]. Z.to_euclidean_division_equations; lia.
    + assert (Z.even (count argv + count envp + 1) = true) as [k Ek]%Z.even_spec by (by rewrite <-Z.negb_odd, E). Z.to_euclidean_division_equations; lia.
Qed.
Lemma align_spec size c x : filled size c x → 16 * ((Z.of_nat (length c) + 15) / 16) ≤ size →
  ∃ k, filled size (replicate k 0 ++ c) (mk_sbuf (sb x) (align_down (offset x) 16)) ∧
    Z.of_nat k + Z.of_nat (length c) = 16 * ((Z.of_nat (length c) + 15) / 16).
Proof.
  intros [Hs Hc Ho Hb] Hsz. set (len := Z.of_nat (length c)) in *. exists (Z.to_nat (16 * ((len + 15) / 16) - len)).
  unfold ustack_size in *. rewrite (align_down_pow2 _ 4) by lia. change (2 ^ 4) with 16.
  split; [|Z.to_euclidean_division_equations; lia].
  split; cbn [sb Exec.offset]; unfold ustack_size; rewrite ?length_app, ?length_replicate; fold len; try (Z.to_euclidean_division_equations; lia).
  rewrite Hb, app_assoc, <-replicate_add. f_equal. f_equal. Z.to_euclidean_division_equations; lia.
Qed.
Lemma push_if_spec size c x (b : bool) : filled size c x → (if b then 8 else 0) + Z.of_nat (length c) ≤ size →
  ∃ x', (if b then push_word 0 x else Done x) = Done x' ∧ filled size (words (if b then [0] else []) ++ c) x'.
Proof.
  intros Hf Hl. destruct b; [|by exists x]. destruct (push_words_spec size [0] c x Hf) as (x' & E & H'); [simpl; lia|].
  exists x'. split; [|exact H']. simpl in E. by destruct (push_word 0 x).
Qed.

Lemma push_word_spec size v c x : filled size c x → 8 + Z.of_nat (length c) ≤ size →
  ∃ x', push_word v x = Done x' ∧ filled size (words [v] ++ c) x'.
Proof.
  intros Hf Hl. destruct (push_spec size c x (le_bytes 8 v) Hf) as (x' & E & H'); [rewrite length_le_bytes; lia|].
  exists x'. split; [exact E|]. rewrite words_cons. change (words []) with ([] : list Z). by rewrite app_nil_r.
Qed.
(** When the buffer is full, the strings and words are in memory. *)
Lemma filled_initial size c x top m argv envp ap ep aux hi lo : filled size c x → Z.of_nat (length c) = size →
  c = words (count argv :: ap ++ [0] ++ ep ++ [0] ++ flat_aux aux) ++ hi ++ lo →
  Forall2 (string_placed top lo) ap argv → Forall2 (string_placed top lo) ep envp →
  (top - size) mod 16 = 0 → bytes_at m (top - size) (sb x) → initial_stack m (top - size) argv envp aux.
Proof.
  intros Hf Hl Hc Ha He H16 Hm. assert (sb x = c) as E.
  { rewrite (fl_bytes _ _ _ Hf). replace (Z.to_nat size - length c)%nat with O by lia. done. }
  rewrite E in Hm. split; [done|]. exists ap, ep. rewrite <-Hl in Hm |- *.
  assert (∀ al l, Forall2 (string_placed top lo) al l → Forall2 (string_at m) al l) as Hs.
  { intros al l Hal. eapply Forall2_impl; [exact Hal|]. intros a str Hp. apply (string_placed_at m top c a str); [|done].
    rewrite Hc, app_assoc. by apply string_placed_app. }
  split; [by apply Hs|]. split; [by apply Hs|]. rewrite Hc in Hm at 2. by apply stack_bytes_app in Hm as [? _].
Qed.

(** The buffer that is written to the stack: all of it is used, and it is the stack that the
    ABI asks for. *)
Lemma build_stack_spec bottom argv envp aux : 0 ≤ bottom → bottom + ustack_size < 2 ^ 64 → bottom mod 16 = 0 →
  stack_need argv envp ≤ ustack_size →
  ∃ x, build_stack bottom argv envp aux = Done x ∧ Z.of_nat (length (sb x)) = stack_need argv envp ∧
    offset x = ustack_size - stack_need argv envp ∧
    ∀ m, bytes_at m (bottom + offset x) (sb x) → initial_stack m (bottom + offset x) argv envp (rev (auxvals aux)).
Proof.
  intros Hb0 Hb Hb16 Hneed. destruct (required_size_eq argv envp Hneed) as (Ereq & Ha & He & Hr16).
  unfold build_stack. rewrite Ereq, Hr16. cbn [negb Z.eqb bug_on mbind outcome_bind]. set (size := stack_need argv envp) in *.
  assert (size = 16 * ((total_size envp + total_size argv + 15) / 16) + (if one_more argv envp then 8 else 0) + 8 * (count argv + count envp) + 120) as Es by done.
  assert (0 ≤ count argv ∧ 0 ≤ count envp) as [Hca Hce] by (unfold count; lia).
  assert (0 ≤ (if one_more argv envp then 8 else 0) ≤ 8) as H8 by (destruct (one_more argv envp); lia).
  assert (total_size envp + total_size argv ≤ 16 * ((total_size envp + total_size argv + 15) / 16)) as Htot by (Z.to_euclidean_division_equations; lia).
  destruct (push_strings_spec size bottom envp Hb0 Hb [] _ (filled_start size ltac:(lia))) as (ep & x1 & c1 & -> & F1 & Hc1 & P1 & Hep); [simpl; lia|].
  cbn [mbind outcome_bind]. rewrite app_nil_r in *.
  destruct (push_strings_spec size bottom argv Hb0 Hb c1 x1 F1) as (ap & x2 & c2 & -> & F2 & Hc2 & P2 & Hap); [lia|]. cbn [mbind outcome_bind].
  assert (Z.of_nat (length (c2 ++ c1)) = total_size envp + total_size argv) as Hlc by (rewrite length_app; lia).
  destruct (align_spec size _ x2 F2) as (k & F3 & Hk); [rewrite Hlc; lia|]. rewrite Hlc in Hk. cbv zeta.
  set (c3 := replicate k 0 ++ c2 ++ c1) in *. assert (Z.of_nat (length c3) = 16 * ((total_size envp + total_size argv + 15) / 16)) as Hl3.
  { unfold c3. rewrite length_app, length_replicate. lia. }
  destruct (push_if_spec size c3 _ (one_more argv envp) F3) as (x4 & -> & F4); [lia|]. cbn [mbind outcome_bind].
  set (c4 := words (if one_more argv envp then [0] else []) ++ c3) in *.
  assert (Z.of_nat (length c4) = (if one_more argv envp then 8 else 0) + Z.of_nat (length c3)) as Hl4.
  { unfold c4. rewrite length_app, length_words. destruct (one_more argv envp); simpl; lia. }
  destruct (write_auxvs_spec size (auxvals aux) 0 c4 x4 F4) as (x5 & -> & F5); [simpl; lia|done|]. cbn [mbind outcome_bind].
  set (c5 := words (flat_aux (rev (auxvals aux))) ++ c4) in *.
  assert (Z.of_nat (length c5) = 96 + Z.of_nat (length c4)) as Hl5 by (unfold c5; rewrite length_app, length_words; simpl; lia).
  assert (count argv = Z.of_nat (length ap) ∧ count envp = Z.of_nat (length ep)) as [Ea Ee] by (unfold count; by rewrite Hap, Hep).
  destruct (push_word_spec size 0 c5 x5 F5) as (x6 & -> & F6); [lia|]. cbn [mbind outcome_bind].
  destruct (push_words_spec size (rev ep) _ x6 F6) as (x7 & -> & F7); [rewrite length_rev, length_app, length_words; simpl; lia|]. cbn [mbind outcome_bind].
  destruct (push_word_spec size 0 _ x7 F7) as (x8 & -> & F8); [rewrite !length_app, !length_words, !length_rev; simpl; lia|]. cbn [mbind outcome_bind].
  destruct (push_words_spec size (rev ap) _ x8 F8) as (x9 & -> & F9); [rewrite !length_app, !length_words, !length_rev; simpl; lia|]. cbn [mbind outcome_bind].
  destruct (push_word_spec size (count argv) _ x9 F9) as (x & -> & F); [rewrite !length_app, !length_words, !length_rev; simpl; lia|]. cbn [mbind outcome_bind].
  rewrite !rev_involutive in F. set (c := words [count argv] ++ _) in F.
  assert (Z.of_nat (length c) = size) as Hlen by (unfold c; rewrite !length_app, !length_words; simpl; lia).
  rewrite (fl_offset _ _ _ F), Hlen. assert (w64 (ustack_size - (ustack_size - size)) = size) as -> by (unfold ustack_size in *; rewrite w64_small; lia).
  rewrite Z.eqb_refl. exists x. split; [done|]. split; [by eapply filled_buffer|].
  split; [by rewrite (fl_offset _ _ _ F), Hlen|]. rewrite (fl_offset _ _ _ F), Hlen.
  replace (bottom + (ustack_size - size)) with (bottom + ustack_size - size) by lia. intros m Hm.
  eapply (filled_initial size c x _ m argv envp ap ep _ (words (if one_more argv envp then [0] else []) ++ replicate k 0) (c2 ++ c1) F Hlen); try done.
  - assert (∀ a b c d f : list Z, words a ++ words b ++ words [0] ++ words c ++ words [0] ++ words d ++ f = words (a ++ b ++ [0] ++ c ++ [0] ++ d) ++ f) as Hw.
    { intros. by rewrite !words_app, <-!app_assoc. }
    unfold c, c5. rewrite Hw. unfold c4, c3. by rewrite <-!app_assoc.
  - by apply strings_placed_app.
  - unfold ustack_size. Z.to_euclidean_division_equations; lia.
Qed.
