(* ===== verification/ExecSpec.v ===== *)
(** What the loader of ELF files does to the address space and the memory of a process. *)

From S2P Require Import Prelude Math Pmm Frames Pagemap Objects Vmm VmmSpec LibC Vfs Files FilesSpec SysVfs Process Sched SysProc SysProcSpec Exec ExecStack.
#[local] Open Scope Z_scope.

Section spec.
Context `{PathOps} `{FrameAllocatorLaws St} `{RandomSource} `{SysParams} {PM HP : Type} `{PageMapLaws PM, KernelHeap HP}.
Implicit Types s : xsys (St := St) (PM := PM) (HP := HP).

Definition xstore s : objstore St := mem (fvfs (x_fs s)).
Definition xspace (sp : Z) s : option (vmspace PM) := spaces (tables (x_sched s)) !! sp.
Definition with_mem (m : objstore St) s : xsys := mk_xsys (x_sched s) (set_objects m (x_fs s)).
Definition with_vm (sp : Z) (v : vmspace PM) s : xsys :=
  mk_xsys (put_tables (put_space sp v (tables (x_sched s))) (x_sched s)) (x_fs s).

(** New objects appear and old ones keep their bytes. *)
Definition grows (m m' : objstore St) : Prop :=
  obj_inv m' ∧ (∀ o, is_Some (objects m !! o) → is_Some (objects m' !! o)) ∧
  ∀ o off, is_Some (objects m !! o) → byte_at m' o off = byte_at m o off.
Lemma mem_grows_refl m : obj_inv m → grows m m.
Proof. done. Qed.
Lemma mem_grows_trans m1 m2 m3 : grows m1 m2 → grows m2 m3 → grows m1 m3.
Proof. intros (H11 & H12 & H13) (H21 & H22 & H23). split; [done|]. split; [auto|]. intros o off Ho. rewrite H23 by auto. auto. Qed.

Lemma bind_X {A B} (m : X A) (f : A → X B) s a s' : m s = Done (a, s') → (m ≫= f) s = f a s'.
Proof. intros E. unfold mbind, X_bind. by rewrite E. Qed.
Lemma bind_X_panic {A B} (m : X A) (f : A → X B) s : m s = Panic → (m ≫= f) s = Panic.
Proof. intros E. unfold mbind, X_bind. by rewrite E. Qed.
Lemma check_false s : check false s = Done ((), s).
Proof. done. Qed.

(** * Reading the file *)

(** [fi] is an open tmpfs file with the bytes [c]. *)
Record opened s (fi : Z) (c : list Z) : Prop := {
  op_file : ∃ f i o n, files (x_fs s) !! fi = Some f ∧ inode_ref (f_path f) (x_fs s) = Done (i, n) ∧ i_op n = Some TmpfsOps ∧
    file_rep (x_fs s) (f_path f) i o c }.
Lemma opened_mem s fi c m : opened s fi c → grows (xstore s) m → opened (with_mem m s) fi c.
Proof.
  intros [(f & i & o & n & Hf & Hi & Hop & Hr)] (Hm & Hex & Hb). split. exists f, i, o, n. split; [done|]. split; [done|]. split; [done|].
  destruct Hr as [Hin Hmem Hobj Hbytes Hsz]. split; [done|done|by apply Hex| |done]. intros off Hoff. rewrite <-Hbytes by done. by apply Hb.
Qed.
Lemma opened_vm s fi c sp v : opened s fi c → opened (with_vm sp v s) fi c.
Proof. by intros [Ho]; split. Qed.
Lemma opened_inv s fi c : opened s fi c → obj_inv (xstore s).
Proof. intros [(f & i & o & n & _ & _ & _ & Hr)]. apply Hr. Qed.

(** [tmpfs_read] changes nothing but the store, and no byte there. *)
Lemma tmpfs_read_grows p off buffer (fs : fsys St) i o c ret l fs' : file_rep fs p i o c → 0 ≤ off →
  off + Z.of_nat (length buffer) < 2 ^ 64 → tmpfs_read p off buffer fs = Done (ret, l, fs') →
  ∃ m, fs' = set_objects m fs ∧ grows (mem (fvfs fs)) m.
Proof.
  intros [(n & Hn & Ho & Hsz) Hmem Hobj Hbytes Hsize] Hoff Hlen. unfold tmpfs_read. rewrite Hn. cbn [mbind outcome_bind]. cbv zeta.
  set (rs := if _ <=? _ then _ else _). destruct (rs =? 0).
  { intros [= <- <- <-]. exists (mem (fvfs fs)). split; [by destruct fs as [[]]|by apply mem_grows_refl]. }
  rewrite Ho. cbn [deref mbind outcome_bind]. case_test; [done|].
  destruct (read_spec (mem (fvfs fs)) o off (take (Z.to_nat rs) buffer) Hmem Hobj) as [->|(m & -> & Hm & Hex & Hb)]; [done|rewrite length_take; lia|done|].
  cbn [mbind outcome_bind]. intros [= <- <- <-]. exists m. split; [done|]. by split_and!.
Qed.
Lemma file_pread_tmpfs s fi c off buffer : opened s fi c → ∃ f i o, file_pread fi off buffer (x_fs s) = tmpfs_read (f_path f) off buffer (x_fs s) ∧
  file_rep (x_fs s) (f_path f) i o c.
Proof.
  intros [(f & i & o & nd & Hf & Hi & Hop & Hr)]. exists f, i, o. split; [|done].
  unfold file_pread, file_of, get_ops. rewrite Hf. cbn [deref mbind outcome_bind]. rewrite Hi. cbn [mbind outcome_bind]. by rewrite Hop.
Qed.
Lemma read_into_spec s fi c off buffer : opened s fi c → 0 ≤ off → off + Z.of_nat (length buffer) ≤ Z.of_nat (length c) →
  read_into fi off buffer s = Panic ∨
  ∃ m, read_into fi off buffer s = Done (take (length buffer) (drop (Z.to_nat off) c), with_mem m s) ∧ grows (xstore s) m.
Proof.
  intros Ho Hoff Hlen. destruct (file_pread_tmpfs s fi c off buffer Ho) as (f & i & o & Ep & Hr). pose proof (fr_size _ _ _ _ _ Hr) as Hsz.
  unfold read_into. destruct (tmpfs_read_spec (x_fs s) (f_path f) i o c (Z.to_nat off) buffer Hr) as
    [E|(ret & l & rest & fs' & E & El & Eret & Ell & Hr' & Honly & _)]; [lia|lia| |]; rewrite Z2Nat.id in E by lia.
  - left. apply bind_X_panic. unfold in_files. by rewrite Ep, E.
  - right. destruct (tmpfs_read_grows (f_path f) off buffer (x_fs s) i o c ret (l ++ rest) fs' Hr Hoff) as (m & -> & Hg); [lia|exact E|].
    exists m. split; [|exact Hg]. rewrite (bind_X _ _ s (ret, l ++ rest) (with_mem m s)) by (unfold in_files; by rewrite Ep, E).
    assert (length l = length buffer) as Hll by (rewrite El, length_take, length_drop; lia).
    assert (rest = []) as -> by (apply length_zero_iff_nil; rewrite length_app in Ell; lia). rewrite app_nil_r.
    rewrite Eret, Hll, s64_small, Z.eqb_refl by lia. by rewrite <-El.
Qed.
(** A file that ends too early. *)
Lemma read_into_short s fi c off buffer : opened s fi c → 0 ≤ off ≤ Z.of_nat (length c) → Z.of_nat (length c) < off + Z.of_nat (length buffer) →
  off + Z.of_nat (length buffer) < 2 ^ 62 → read_into fi off buffer s = Panic.
Proof.
  intros Ho Hoff Hlen Hsum. destruct (file_pread_tmpfs s fi c off buffer Ho) as (f & i & o & Ep & Hr).
  unfold read_into. destruct (tmpfs_read_spec (x_fs s) (f_path f) i o c (Z.to_nat off) buffer Hr) as
    [E|(ret & l & rest & fs' & E & El & Eret & Ell & Hr' & Honly & _)]; [lia|lia| |]; rewrite Z2Nat.id in E by lia.
  - apply bind_X_panic. unfold in_files. by rewrite Ep, E.
  - rewrite (bind_X _ _ s (ret, l ++ rest) (mk_xsys (x_sched s) fs')) by (unfold in_files; by rewrite Ep, E).
    apply bind_X_panic. unfold check. rewrite (proj2 (Z.eqb_neq ret _)); [done|].
    rewrite Eret, s64_small by lia. rewrite El, length_take, length_drop. lia.
Qed.
Lemma read_exactly_spec s fi c off n : opened s fi c → 0 ≤ off → 0 ≤ n → off + n ≤ Z.of_nat (length c) → n ≤ alloc_max →
  read_exactly fi off n s = Panic ∨
  ∃ m, read_exactly fi off n s = Done (take (Z.to_nat n) (drop (Z.to_nat off) c), with_mem m s) ∧ grows (xstore s) m.
Proof.
  intros Ho Hoff Hn Hlen Hmax. unfold read_exactly.
  rewrite (bind_X _ _ s (replicate (Z.to_nat n) (w8 (junk (fvfs (x_fs s))))) s) by (unfold new_buffer; case_test; [lia|done]).
  destruct (read_into_spec s fi c off (replicate (Z.to_nat n) (w8 (junk (fvfs (x_fs s))))) Ho Hoff) as [E|(m & E & Hg)]; rewrite ?length_replicate in *;
    [lia|by left|right; by exists m].
Qed.
Lemma read_struct_spec s fi c off n : opened s fi c → 0 ≤ off → 0 ≤ n → off + n ≤ Z.of_nat (length c) →
  read_struct fi off n s = Panic ∨
  ∃ m, read_struct fi off n s = Done (take (Z.to_nat n) (drop (Z.to_nat off) c), with_mem m s) ∧ grows (xstore s) m.
Proof.
  intros Ho Hoff Hn Hlen. unfold read_struct.
  rewrite (bind_X _ _ s (replicate (Z.to_nat n) (w8 (junk (fvfs (x_fs s))))) s) by done.
  destruct (read_into_spec s fi c off (replicate (Z.to_nat n) (w8 (junk (fvfs (x_fs s))))) Ho Hoff) as [E|(m & E & Hg)]; rewrite ?length_replicate in *;
    [lia|by left|right; by exists m].
Qed.

(** * Writing an object *)
Lemma object_step s o off l : obj_inv (xstore s) → is_Some (objects (xstore s) !! o) → 0 ≤ off → off + Z.of_nat (length l) < 2 ^ 64 →
  in_store (Objects.write o off l) s = Panic ∨
  ∃ m, in_store (Objects.write o off l) s = Done (Z.of_nat (length l), with_mem m s) ∧
    updated (xstore s) o off (Z.of_nat (length l)) (λ x, default 0 (l !! Z.to_nat (x - off))) m.
Proof.
  intros Hi Ho Hoff Hl. unfold in_store, in_files. destruct (write_spec (xstore s) o off l Hi Ho Hoff Hl) as [E|(m & E & Hu)]; unfold xstore in E; rewrite E.
  - by left.
  - right. exists m. split; [done|done].
Qed.

(** * One segment *)
Definition seg_byte (c : list Z) (ph : Elf64_Phdr) (j : Z) : Z :=
  if decide (j < p_filesz ph) then default 0 (c !! Z.to_nat (p_offset ph + j)) else 0.
Record seg_ok (base : Z) (c : list Z) (ph : Elf64_Phdr) : Prop := {
  so_file : 0 ≤ p_filesz ph ≤ p_memsz ph;
  so_mem : 0 < p_memsz ph ≤ alloc_max;
  so_offset : 0 ≤ p_offset ph ∧ p_offset ph + p_filesz ph ≤ Z.of_nat (length c);
  so_addr : 0 ≤ base ∧ base mod page_size = 0 ∧ 0 ≤ p_vaddr ph ∧ base + p_vaddr ph + p_memsz ph ≤ 2 ^ 47 }.
Definition seg_start (base : Z) (ph : Elf64_Phdr) : Z := (base + p_vaddr ph) / page_size.
Definition seg_end (base : Z) (ph : Elf64_Phdr) : Z := (base + p_vaddr ph + p_memsz ph + 4095) / page_size.

Lemma byte_at_none (m : objstore St) o off : objects m !! o = None → byte_at m o off = 0.
Proof. intros E. unfold byte_at. by rewrite E. Qed.
Lemma new_object_step s : obj_inv (xstore s) → ∃ o m, in_store (λ m, Done (new_memobject m)) s = Done (o, with_mem m s) ∧
  objects (xstore s) !! o = None ∧ is_Some (objects m !! o) ∧ grows (xstore s) m ∧ ∀ off, byte_at m o off = 0.
Proof.
  intros Hi. set (o := fresh (dom (objects (xstore s)))). exists o, (with_object (xstore s)). split; [done|].
  pose proof (fresh_object (xstore s)) as Hf. fold o in Hf. split; [done|].
  split; [unfold with_object; simpl; fold o; rewrite lookup_insert_eq; by eexists|]. split; [split; [by apply with_object_inv|split]|].
  - intros o' Ho'. unfold with_object. simpl. destruct (decide (o' = o)) as [->|Hne]; [rewrite lookup_insert_eq; by eexists|].
    by rewrite lookup_insert_ne.
  - intros o' off _. apply with_object_bytes.
  - intros off. rewrite with_object_bytes. by apply byte_at_none.
Qed.
(** A change of a new object. *)
Lemma updated_grows m0 m o off n f m' : grows m0 m → objects m0 !! o = None → updated m o off n f m' → grows m0 m'.
Proof.
  intros (H1' & H2' & H3') Ho (Hi & Hex & Hb). split; [done|]. split; [auto|]. intros o' off' Ho'. rewrite Hb, decide_False; [auto|].
  intros [-> _]. rewrite Ho in Ho'. by destruct Ho'.
Qed.

(** The object of a segment is filled: file bytes, then zeros. *)
Lemma fill_object_spec s fi c o misalign ph base m0 : opened s fi c → seg_ok base c ph → 0 ≤ misalign < 4096 →
  grows m0 (xstore s) → objects m0 !! o = None → is_Some (objects (xstore s) !! o) → (∀ off, byte_at (xstore s) o off = 0) →
  fill_object fi o misalign ph s = Panic ∨
  ∃ m, fill_object fi o misalign ph s = Done ((), with_mem m s) ∧ grows m0 m ∧ is_Some (objects m !! o) ∧
    ∀ j, 0 ≤ j < p_memsz ph → byte_at m o (misalign + j) = seg_byte c ph j.
Proof.
  intros Hop [Hfsz Hmsz [Hoff Hoffl] (Hb0 & _ & Hv0 & Hend)] Hmis Hg0 Ho0 Ho Hz. unfold fill_object.
  destruct (read_exactly_spec s fi c (p_offset ph) (p_filesz ph) Hop) as [E|(m1 & E & Hg1)]; [lia..| |].
  { left. by apply bind_X_panic. }
  rewrite (bind_X _ _ _ _ _ E). set (buf := take _ _).
  assert (Z.of_nat (length buf) = p_filesz ph) as Hbl by (unfold buf; rewrite length_take, length_drop; lia).
  assert (2 ^ 47 < 2 ^ 64) as Hpow by done. destruct (op_file _ _ _ Hop) as (f0 & i0 & o0 & nd0 & _ & _ & _ & Hr). pose proof (fr_size _ _ _ _ _ Hr) as Hcs.
  destruct (object_step (with_mem m1 s) o misalign buf) as [E2|(m2 & E2 & Hu2)]; [apply Hg1|by apply Hg1|lia|lia|left; by apply bind_X_panic|].
  rewrite (bind_X _ _ _ _ _ E2), Hbl, Z.eqb_refl. rewrite (bind_X _ _ _ () _ (check_false _)). cbn [negb].
  assert (grows m0 m2) as Hg2 by (eapply updated_grows; [by eapply mem_grows_trans|done|exact Hu2]).
  assert (∀ x, byte_at m2 o x = if decide (misalign ≤ x < misalign + p_filesz ph) then default 0 (buf !! Z.to_nat (x - misalign)) else 0) as Hb2.
  { intros x. destruct Hu2 as (_ & _ & ->). rewrite Hbl. destruct (decide (misalign ≤ x < misalign + p_filesz ph)); [by rewrite decide_True|].
    rewrite decide_False by tauto. destruct Hg1 as (_ & _ & Hb1). change (byte_at m1 o x = 0). rewrite Hb1 by done. apply Hz. }
  assert (∀ j, 0 ≤ j < p_memsz ph → byte_at m2 o (misalign + j) = seg_byte c ph j) as Hseg.
  { intros j Hj. rewrite Hb2. unfold seg_byte. destruct (decide (j < p_filesz ph)); [|by rewrite decide_False by lia].
    rewrite decide_True by lia. unfold buf. rewrite lookup_take_lt, lookup_drop by lia. do 2 f_equal. lia. }
  assert (is_Some (objects m2 !! o)) as Ho2 by (apply Hu2, Hg1, Ho).
  destruct (Z.ltb_spec (p_filesz ph) (p_memsz ph)); [|right; exists m2; by split_and!].
  rewrite (bind_X _ _ _ (replicate (Z.to_nat (p_memsz ph - p_filesz ph)) (w8 (junk (fvfs (x_fs s))))) (with_mem m2 s)).
  2: { unfold new_buffer. case_test; [lia|done]. }
  rewrite length_replicate, w64_small by lia. set (zs := replicate _ 0).
  assert (Z.of_nat (length zs) = p_memsz ph - p_filesz ph) as Hzl by (unfold zs; rewrite length_replicate; lia).
  destruct (object_step (with_mem m2 s) o (misalign + p_filesz ph) zs) as [E3|(m3 & E3 & Hu3)]; [apply Hg2|done|lia|lia|left; by apply bind_X_panic|].
  rewrite (bind_X _ _ _ _ _ E3), Hzl, Z.eqb_refl. right. exists m3. split; [done|].
  split; [by eapply updated_grows|]. split; [by apply Hu3|]. intros j Hj. destruct Hu3 as (_ & _ & ->). case_decide as Hd; [|by apply Hseg].
  unfold seg_byte. rewrite decide_False by lia. unfold zs. by apply zeros_lookup.
Qed.

Lemma with_vm_mem sp v m s : with_mem m (with_vm sp v s) = with_vm sp v (with_mem m s).
Proof. done. Qed.
Lemma with_mem_mem m m' s : with_mem m (with_mem m' s) = with_mem m s.
Proof. done. Qed.
Lemma with_vm_vm sp v v' s : with_vm sp v (with_vm sp v' s) = with_vm sp v s.
Proof. unfold with_vm, put_space. simpl. by rewrite insert_insert_eq. Qed.
Lemma with_same sp v s : xspace sp s = Some v → with_vm sp v (with_mem (xstore s) s) = s.
Proof.
  intros Hv. unfold xspace in Hv. destruct s as [k [[]]], k as [? ? tb ? ? ?], tb as [pt ? ? sps ? ?]. unfold with_vm, with_mem, put_tables, put_space in *. simpl in *.
  by rewrite insert_id.
Qed.
Lemma xspace_with sp v s : is_Some (xspace sp s) → xspace sp (with_vm sp v s) = Some v.
Proof. intros _. apply lookup_insert_eq. Qed.
Lemma in_space_step {A} sp (f : vmspace PM → outcome (A * vmspace PM)) s v a v' : xspace sp s = Some v → f v = Done (a, v') →
  in_space sp f s = Done (a, with_vm sp v' s).
Proof. unfold xspace, in_space. intros -> Hf. cbn [deref mbind outcome_bind]. by rewrite Hf. Qed.

(** No page of the segment is mapped. *)
Definition pages_free (t : list mapping) (a b : Z) : Prop := ∀ p x, a ≤ p < b → ¬ shows t p x.
Lemma pages_free_range (v : vmspace PM) a length : vm_ok v → a / page_size < (a + length + 4095) / page_size →
  pages_free (tree v) (a / page_size) ((a + length + 4095) / page_size) → range_free a length (tree v).
Proof.
  intros Hv Hab Hf e He. destruct (to_entry _ (vo_tree _ Hv) e He).
  destruct (decide (endp e ≤ a / page_size)); [by left|]. destruct (decide ((a + length + 4095) / page_size ≤ startp e)); [by right|].
  exfalso. eapply (Hf (Z.max (a / page_size) (startp e))); [lia|]. exists e. split_and!; [done|lia|lia|reflexivity].
Qed.

(** A segment is in memory: its pages show an object with its bytes. *)
Definition seg_loaded (t : list mapping) (m : objstore St) (base : Z) (c : list Z) (ph : Elf64_Phdr) : Prop :=
  ∃ o, is_Some (objects m !! o) ∧
    (∀ p, seg_start base ph ≤ p < seg_end base ph → shows t p (o, p - seg_start base ph, prot_of (p_flags ph), fl_private)) ∧
    ∀ j, 0 ≤ j < p_memsz ph → byte_at m o (p_vaddr ph mod page_size + j) = seg_byte c ph j.
Definition in_seg (base : Z) (ph : Elf64_Phdr) (p : Z) : Prop := seg_start base ph ≤ p < seg_end base ph.

Lemma seg_pages base c ph : seg_ok base c ph →
  let misalign := p_vaddr ph mod page_size in let address := w64 (w64 (base + p_vaddr ph) - misalign) in
  0 ≤ misalign < 4096 ∧ address mod page_size = 0 ∧ 0 ≤ address ∧ address + (p_memsz ph + misalign) ≤ 2 ^ 47 ∧
  w64 (p_memsz ph + misalign) = p_memsz ph + misalign ∧
  address / page_size = seg_start base ph ∧ (address + (p_memsz ph + misalign) + 4095) / page_size = seg_end base ph ∧
  seg_start base ph < seg_end base ph.
Proof.
  intros [_ Hm _ (Hb0 & Hb & Hv0 & Hend)] misalign address. unfold seg_start, seg_end, address, misalign, page_size in *.
  rewrite (w64_small (base + _)) by lia.
  assert (0 ≤ base + p_vaddr ph - p_vaddr ph mod 4096 < 2 ^ 64) by (Z.to_euclidean_division_equations; lia).
  rewrite !w64_small by (Z.to_euclidean_division_equations; lia). split_and!; Z.to_euclidean_division_equations; lia.
Qed.

Lemma load_segment_spec s fi c sp base ph v : opened s fi c → seg_ok base c ph → xspace sp s = Some v → vm_ok v → locked v = false →
  pages_free (tree v) (seg_start base ph) (seg_end base ph) →
  load_segment fi sp base ph s = Panic ∨
  ∃ m v', load_segment fi sp base ph s = Done ((), with_vm sp v' (with_mem m s)) ∧ grows (xstore s) m ∧ vm_ok v' ∧ locked v' = false ∧
    seg_loaded (tree v') m base c ph ∧ ∀ p x, ¬ in_seg base ph p → shows (tree v') p x ↔ shows (tree v) p x.
Proof.
  intros Hop Hseg Hsp Hv Hlk Hfree. destruct (seg_pages base c ph Hseg) as (Hmis & Hamod & Ha0 & Haend & Elen & Es & Ee & Hse). unfold load_segment.
  set (misalign := p_vaddr ph mod page_size) in *. set (address := w64 _) in *. cbv zeta.
  destruct (new_object_step s (opened_inv _ _ _ Hop)) as (o & m0 & E0 & Hnew & Ho & Hg0 & Hz). rewrite (bind_X _ _ _ _ _ E0).
  destruct (fill_object_spec (with_mem m0 s) fi c o misalign ph base (xstore s)) as [E1|(m & E1 & Hg & Hom & Hb)];
    [by apply opened_mem|done|done|done|done|done|done|left; by apply bind_X_panic|].
  rewrite (bind_X _ _ _ _ _ E1), with_mem_mem, Elen. destruct Hseg as [_ Hmem _ _].
  destruct (vm_map_free v address (p_memsz ph + misalign) (prot_of (p_flags ph)) fl_private o) as (v' & Ev & Hv' & Hlk' & Hsh);
    [done|done|done|done|lia|lia|apply pages_free_range; [done|by rewrite Es, Ee|by rewrite Es, Ee]|].
  rewrite (bind_X _ _ _ (Value ()) (with_vm sp v' (with_mem m s))) by by apply in_space_step with (v := v).
  right. exists m, v'. split; [done|]. split; [done|]. split; [done|]. split; [done|]. rewrite Es, Ee in Hsh. split.
  - exists o. split; [done|]. split; [|done]. intros p Hp. apply Hsh. by rewrite decide_True.
  - intros p x Hp. rewrite Hsh. unfold in_seg in Hp. by rewrite decide_False.
Qed.

(** * All segments *)

(** The [n] program headers of a file with the bytes [c] from the [i]-th, and what they say of
    AT_PHDR. *)
Definition phdr_at (h : Elf64_Ehdr) (c : list Z) (i : Z) : Elf64_Phdr :=
  phdr_of (take 56 (drop (Z.to_nat (e_phoff h + i * e_phentsize h)) c)).
Definition phdrs (h : Elf64_Ehdr) (c : list Z) (i : Z) (n : nat) : list Elf64_Phdr := phdr_at h c <$> seqZ i (Z.of_nat n).
Definition phdr_addr (base : Z) (phs : list Elf64_Phdr) (aux : auxval) : auxval :=
  foldl (λ aux ph, if p_type ph =? PT_PHDR then set_at_phdr (w64 (base + p_vaddr ph)) aux else aux) aux phs.
Lemma phdrs_cons h c i n : phdrs h c i (S n) = phdr_at h c i :: phdrs h c (i + 1) n.
Proof. unfold phdrs. rewrite seqZ_cons by lia. rewrite fmap_cons. do 3 f_equal; lia. Qed.
Lemma phdr_addr_cons base ph phs aux : phdr_addr base (ph :: phs) aux =
  phdr_addr base phs (if p_type ph =? PT_PHDR then set_at_phdr (w64 (base + p_vaddr ph)) aux else aux).
Proof. done. Qed.
(** Headers that lie in the file. *)
Definition headers_in (h : Elf64_Ehdr) (c : list Z) (i : Z) (n : nat) : Prop :=
  ∀ k, i ≤ k < i + Z.of_nat n → 0 ≤ e_phoff h + k * e_phentsize h ∧ e_phoff h + k * e_phentsize h + 56 ≤ Z.of_nat (length c).

(** The segments of a static executable: they are well-formed, share no page and meet no
    mapping. *)
Inductive loadable (base : Z) (c : list Z) (t : list mapping) : list Elf64_Phdr → Prop :=
| loadable_nil : loadable base c t []
| loadable_skip ph phs : p_type ph ≠ PT_LOAD → p_type ph ≠ PT_INTERP → loadable base c t phs → loadable base c t (ph :: phs)
| loadable_seg ph phs : p_type ph = PT_LOAD → seg_ok base c ph → pages_free t (seg_start base ph) (seg_end base ph) →
    (∀ ph', ph' ∈ phs → p_type ph' = PT_LOAD → ∀ p, in_seg base ph p → ¬ in_seg base ph' p) →
    loadable base c t phs → loadable base c t (ph :: phs).
Lemma loadable_grow base c t t' phs : loadable base c t phs →
  (∀ ph p x, ph ∈ phs → p_type ph = PT_LOAD → in_seg base ph p → shows t' p x → shows t p x) → loadable base c t' phs.
Proof.
  intros Hl. induction Hl as [|ph phs Ht Hi Hl IH|ph phs Ht Hs Hf Hd Hl IH]; intros Hsh; [constructor|constructor; [done|done|]|].
  - apply IH. intros ph' p x Hin. apply Hsh. by right.
  - constructor; [done|done| |done|].
    + intros p x Hp Hx. apply (Hf p x Hp). apply (Hsh ph); [by left|done|done|done].
    + apply IH. intros ph' p x Hin. apply Hsh. by right.
Qed.
Lemma seg_loaded_keep t m t' m' base c ph : seg_loaded t m base c ph → grows m m' →
  (∀ p x, in_seg base ph p → shows t p x → shows t' p x) → seg_loaded t' m' base c ph.
Proof.
  intros (o & Ho & Hs & Hb) (_ & Hex & Hkeep) Hsh. exists o. split; [by apply Hex|]. split; [intros p Hp; apply Hsh; [done|by apply Hs]|].
  intros j Hj. rewrite Hkeep by done. by apply Hb.
Qed.

(** What loading a list of headers does. *)
Record loaded s (sp base : Z) (c : list Z) (phs : list Elf64_Phdr) (v : vmspace PM) (m : objstore St) (v' : vmspace PM) : Prop := {
  ld_grows : grows (xstore s) m;
  ld_ok : vm_ok v';
  ld_unlocked : locked v' = false;
  ld_segs : ∀ ph, ph ∈ phs → p_type ph = PT_LOAD → seg_loaded (tree v') m base c ph;
  ld_others : ∀ p x, (∀ ph, ph ∈ phs → p_type ph = PT_LOAD → ¬ in_seg base ph p) → shows (tree v') p x ↔ shows (tree v) p x }.

Lemma loaded_skip s sp base c ph phs v m1 m2 v2 : grows (xstore s) m1 → p_type ph ≠ PT_LOAD →
  loaded (with_mem m1 s) sp base c phs v m2 v2 → loaded s sp base c (ph :: phs) v m2 v2.
Proof.
  intros Hg Ht [L1 L2 L3 L4 L5]. split; [by eapply mem_grows_trans|done|done| |].
  - intros ph' [->|Hp]%elem_of_cons Ht'; [done|by apply L4].
  - intros p x Hp. apply L5. intros ph' Hp'. apply Hp. by right.
Qed.
Lemma loaded_seg s sp base c ph phs v m v1 m2 v2 : grows (xstore s) m → seg_loaded (tree v1) m base c ph →
  (∀ p x, ¬ in_seg base ph p → shows (tree v1) p x ↔ shows (tree v) p x) → p_type ph = PT_LOAD →
  (∀ ph', ph' ∈ phs → p_type ph' = PT_LOAD → ∀ p, in_seg base ph p → ¬ in_seg base ph' p) →
  loaded (with_vm sp v1 (with_mem m s)) sp base c phs v1 m2 v2 → loaded s sp base c (ph :: phs) v m2 v2.
Proof.
  intros Hg Hseg Hoth Ht Hd [L1 L2 L3 L4 L5]. split; [by eapply mem_grows_trans|done|done| |].
  - intros ph' [->|Hp]%elem_of_cons Ht'; [|by apply L4]. eapply seg_loaded_keep; [exact Hseg|exact L1|].
    intros p x Hp Hx. apply L5; [|done]. intros ph' Hin2 Ht2. by apply Hd.
  - intros p x Hp. rewrite L5 by (intros ph' Hp'; apply Hp; by right). apply Hoth, Hp; [by left|done].
Qed.

Lemma phdr_read s fi h c i n : opened s fi c → headers_in h c i (S n) →
  read_struct fi (w64 (e_phoff h + i * e_phentsize h)) phdr_size s = Panic ∨
  ∃ m l, read_struct fi (w64 (e_phoff h + i * e_phentsize h)) phdr_size s = Done (l, with_mem m s) ∧ grows (xstore s) m ∧ phdr_of l = phdr_at h c i.
Proof.
  intros Hop Hin. destruct (Hin i) as [H0' Hl']; [lia|]. destruct (op_file _ _ _ Hop) as (f0 & i0 & o0 & nd0 & _ & _ & _ & Hr). pose proof (fr_size _ _ _ _ _ Hr) as Hcs.
  rewrite w64_small by lia. unfold phdr_size.
  destruct (read_struct_spec s fi c (e_phoff h + i * e_phentsize h) 56 Hop) as [->|(m & -> & Hg)]; [lia|lia|lia|by left|].
  right. by eexists m, _.
Qed.

Lemma phdr_loop_spec fuel me fi sp base h c interp n : ∀ i aux s v, opened s fi c → headers_in h c i n → xspace sp s = Some v → vm_ok v → locked v = false →
  loadable base c (tree v) (phdrs h c i n) →
  phdr_loop fuel me n fi sp base h i aux interp s = Panic ∨
  ∃ m v', phdr_loop fuel me n fi sp base h i aux interp s = Done (Some (phdr_addr base (phdrs h c i n) aux, interp), with_vm sp v' (with_mem m s)) ∧
    loaded s sp base c (phdrs h c i n) v m v'.
Proof.
  induction n as [|n IH]; intros i aux s v Hop Hin Hsp Hv Hlk Hl.
  { right. exists (xstore s), v. split; [cbn [phdr_loop mret X_ret]; unfold mret, X_ret; by rewrite with_same|].
    split; [apply mem_grows_refl; by eapply opened_inv|done|done| |done]. intros ph Hph. by apply elem_of_nil in Hph. }
  rewrite phdrs_cons in *. cbn [phdr_loop]. destruct (phdr_read s fi h c i n Hop Hin) as [E|(m1 & l & E & Hg1 & El)]; [left; by apply bind_X_panic|].
  rewrite (bind_X _ _ _ _ _ E). cbv zeta. rewrite El. set (ph := phdr_at h c i) in *.
  assert (headers_in h c (i + 1) n) as Hin' by (intros k Hk; apply Hin; lia).
  assert (opened (with_mem m1 s) fi c) as Hop1 by by apply opened_mem.
  assert (∀ aux' s1 v1, opened s1 fi c → xspace sp s1 = Some v1 → vm_ok v1 → locked v1 = false → loadable base c (tree v1) (phdrs h c (i + 1) n) →
    (∀ m2 v2, loaded s1 sp base c (phdrs h c (i + 1) n) v1 m2 v2 → with_vm sp v2 (with_mem m2 s1) = with_vm sp v2 (with_mem m2 s) ∧ loaded s sp base c (ph :: phdrs h c (i + 1) n) v m2 v2) →
    phdr_addr base (phdrs h c (i + 1) n) aux' = phdr_addr base (ph :: phdrs h c (i + 1) n) aux →
    phdr_loop fuel me n fi sp base h (i + 1) aux' interp s1 = Panic ∨
    ∃ m v', phdr_loop fuel me n fi sp base h (i + 1) aux' interp s1 = Done (Some (phdr_addr base (ph :: phdrs h c (i + 1) n) aux, interp), with_vm sp v' (with_mem m s)) ∧
      loaded s sp base c (ph :: phdrs h c (i + 1) n) v m v') as Hrest.
  { intros aux' s1 v1 Ho1 Hs1 Hv1 Hlk1 Hl1 Hld Ha. destruct (IH (i + 1) aux' s1 v1 Ho1 Hin' Hs1 Hv1 Hlk1 Hl1) as [->|(m2 & v2 & -> & Hl2)]; [by left|].
    right. exists m2, v2. destruct (Hld m2 v2 Hl2) as [-> Hl3]. by rewrite Ha. }
  inversion Hl as [|? ? Ht Hi Hl'|? ? Ht Hs Hf Hd Hl']; subst.
  - rewrite (proj2 (Z.eqb_neq (p_type ph) PT_LOAD) Ht). 
    assert (∀ m2 v2, loaded (with_mem m1 s) sp base c (phdrs h c (i + 1) n) v m2 v2 →
      with_vm sp v2 (with_mem m2 (with_mem m1 s)) = with_vm sp v2 (with_mem m2 s) ∧ loaded s sp base c (ph :: phdrs h c (i + 1) n) v m2 v2) as Hld
      by (intros; split; [done|by eapply loaded_skip]).
    destruct (Z.eqb_spec (p_type ph) PT_PHDR) as [Ep|Ep].
    + apply (Hrest _ _ v Hop1 Hsp Hv Hlk Hl' Hld). by rewrite phdr_addr_cons, Ep.
    + rewrite (proj2 (Z.eqb_neq (p_type ph) PT_INTERP) Hi). apply (Hrest _ _ v Hop1 Hsp Hv Hlk Hl' Hld). by rewrite phdr_addr_cons, (proj2 (Z.eqb_neq _ _) Ep).
  - rewrite (proj2 (Z.eqb_eq (p_type ph) PT_LOAD) Ht).
    destruct (load_segment_spec (with_mem m1 s) fi c sp base ph v Hop1 Hs Hsp Hv Hlk Hf) as [E2|(m2 & v2 & E2 & Hg2 & Hv2 & Hlk2 & Hseg & Hoth)].
    { left. by apply bind_X_panic. }
    assert (grows (xstore s) m2) as Hg by by eapply mem_grows_trans.
    rewrite (bind_X _ _ _ _ _ E2). rewrite with_mem_mem. apply (Hrest _ _ v2); try done.
    + by apply opened_vm, opened_mem.
    + by apply xspace_with.
    + eapply loadable_grow; [done|]. intros ph' p x Hin2 Ht2 Hp Hx. apply (Hoth p x); [|done]. intros Hp2. by apply (Hd ph' Hin2 Ht2 p).
    + intros m3 v3 L. split; [by rewrite with_vm_mem, with_vm_vm|]. by eapply loaded_seg.
    + by rewrite phdr_addr_cons, (proj2 (Z.eqb_neq (p_type ph) PT_PHDR)) by (rewrite Ht; done).
Qed.

(** * [load_file] *)
Definition base_of (addr : Z) (h : Elf64_Ehdr) : Z := if e_type h =? ET_DYN then addr else 0.
(** A complete static executable for the address space. *)
Record static_exec (addr : Z) (c : list Z) (t : list mapping) : Prop := {
  se_size : 64 ≤ Z.of_nat (length c);
  se_headers : headers_in (ehdr_of (take 64 c)) c 0 (Z.to_nat (e_phnum (ehdr_of (take 64 c))));
  se_segments : loadable (base_of addr (ehdr_of (take 64 c))) c t
    (phdrs (ehdr_of (take 64 c)) c 0 (Z.to_nat (e_phnum (ehdr_of (take 64 c))))) }.
Definition file_headers (c : list Z) : list Elf64_Phdr :=
  phdrs (ehdr_of (take 64 c)) c 0 (Z.to_nat (e_phnum (ehdr_of (take 64 c)))).
Definition file_aux (addr : Z) (c : list Z) : auxval :=
  let h := ehdr_of (take 64 c) in let base := base_of addr h in
  phdr_addr base (file_headers c) (mk_aux (w64 (base + e_entry h)) (w64 (base + e_phoff h)) (e_phentsize h) (e_phnum h)).
Definition file_base (addr : Z) (c : list Z) : Z := base_of addr (ehdr_of (take 64 c)).

Lemma load_file_spec fuel me fi sp addr s c v : opened s fi c → xspace sp s = Some v → vm_ok v → locked v = false → static_exec addr c (tree v) →
  load_file fuel me fi sp addr s = Panic ∨
  ∃ m v', load_file fuel me fi sp addr s = Done (Some (file_aux addr c, None), with_vm sp v' (with_mem m s)) ∧
    loaded s sp (file_base addr c) c (file_headers c) v m v'.
Proof.
  intros Hop Hsp Hv Hlk [Hsz Hin Hl]. unfold load_file.
  destruct (read_struct_spec s fi c 0 ehdr_size Hop) as [E|(m1 & E & Hg)]; [done|done|done|left; by apply bind_X_panic|].
  rewrite (bind_X _ _ _ _ _ E), drop_0. change (Z.to_nat ehdr_size) with 64%nat. cbv zeta.
  destruct (phdr_loop_spec fuel me fi sp (base_of addr (ehdr_of (take 64 c))) (ehdr_of (take 64 c)) c None (Z.to_nat (e_phnum (ehdr_of (take 64 c)))) 0
    (mk_aux (w64 (base_of addr (ehdr_of (take 64 c)) + e_entry (ehdr_of (take 64 c)))) (w64 (base_of addr (ehdr_of (take 64 c)) + e_phoff (ehdr_of (take 64 c))))
       (e_phentsize (ehdr_of (take 64 c))) (e_phnum (ehdr_of (take 64 c)))) (with_mem m1 s) v) as [E2|(m2 & v2 & E2 & [L1 L2 L3 L4 L5])]; try done.
  - by apply opened_mem.
  - left. exact E2.
  - right. exists m2, v2. split; [exact E2|]. split; [by eapply mem_grows_trans|done..].
Qed.
End spec.
