(* ===== verification/ExecLoad.v ===== *)
(** Loading a static executable: its segments, its thread and the stack of the thread. *)

From S2P Require Import Prelude Math Pmm PmmBlocks PmmSpec Frames Pagemap PagemapTree PagemapSpec Objects Vmm VmmSpec LibC LibCSpec Vfs VfsBoot Files FilesSpec SysVfs SysBoot Process ProcessSpec Sched SchedSpec SchedReach SysProc SysProcSpec Exec ExecStack ExecSpec.
#[local] Open Scope Z_scope.

Section load.
Context `{PathOps} `{FrameAllocatorLaws St} `{RandomSource} `{SysParams} {PM HP : Type} `{PageMapLaws PM, KernelHeap HP}.
Implicit Types s : xsys (St := St) (PM := PM) (HP := HP).

(** A place for the next stack of a process. *)
Record stack_room (top : Z) (t : list mapping) : Prop := {
  sr_page : top mod page_size = 0;
  sr_low : ustack_size ≤ top;
  sr_high : top ≤ 2 ^ 47;
  sr_free : pages_free t ((top - ustack_size) / page_size) (top / page_size) }.
Definition stack_prot : Z := Z.lor prot_read prot_write.
Definition stack_flags : Z := Z.lor fl_private fl_untouchable.

(** [thread::create] of a user thread. *)
Lemma create_user_thread c par ip (k : sched St PM HP) pr sp v a hp b hp' :
  ptab (tables k) !! par = Some pr → vspace pr = Some sp → spaces (tables k) !! sp = Some v → vm_ok v → locked v = false →
  stack_room (next_stack_top pr) (tree v) → is_Some (cpus k !! c) →
  k_alloc kstack_size (heap k) = Done (a, hp) → k_alloc fpu_size hp = Done (b, hp') →
  ∃ t k' th v' o m, thread_create c par ip true k = Done (t, k') ∧ new_memobject (memory k) = (o, m) ∧ memory k' = m ∧
    threads k' = <[t := th]> (threads k) ∧ threads k !! t = None ∧
    spaces (tables k') = <[sp := v']> (spaces (tables k)) ∧
    parent th = par ∧ state th = NotReady ∧ is_user th = true ∧ rip (regs (ctx th)) = ip ∧
    ustack_top (stk th) = next_stack_top pr ∧ ustack_obj (stk th) = Some o ∧
    vm_ok v' ∧ locked v' = false ∧
    ∀ p x, shows (tree v') p x ↔
      if decide ((next_stack_top pr - ustack_size) / page_size ≤ p < next_stack_top pr / page_size)
      then x = (o, p - (next_stack_top pr - ustack_size) / page_size, stack_prot, stack_flags) else shows (tree v) p x.
Proof.
  intros Hp Hv Hsp Hok Hlk [Hpg Hlow Hhigh Hfree] [q Hc] Ea Eb. unfold thread_create, get_process. rewrite Hp. cbn [deref mbind outcome_bind]. cbv zeta. cbn [heap put_tables]. rewrite Ea. cbn [mbind outcome_bind].
  set (top := next_stack_top pr) in *. assert (ustack_size = 512 * page_size) as Hus by done. unfold page_size in *.
  assert (w64 (top - ustack_size) = top - ustack_size) as Ew by (apply w64_small; lia).
  destruct (new_memobject (memory k)) as [o m] eqn:Eo.
  destruct (vm_map_free v (top - ustack_size) ustack_size stack_prot stack_flags o) as (v' & Ev & Hv' & Hlk' & Hsh); try done; try lia.
  { unfold page_size. Z.to_euclidean_division_equations; lia. }
  { apply pages_free_range; [done|unfold page_size; Z.to_euclidean_division_equations; lia|]. unfold page_size.
    intros p x Hpx. apply Hfree. Z.to_euclidean_division_equations; lia. }
  unfold map_stack, get_process. cbn [tables put_tables put_heap put_proc ptab]. simpl. rewrite lookup_insert_eq. cbn [deref mbind outcome_bind].
  cbn [next_stack_top set_threads]. fold top. rewrite Ew. pose proof Eo as Eo'. unfold new_memobject in Eo'. injection Eo' as Eo1 Eo2. rewrite Eo1. cbn [vspace set_threads]. rewrite Hv. cbn [deref mbind outcome_bind]. rewrite Hsp. cbn [deref mbind outcome_bind].
  fold stack_prot stack_flags. rewrite Ev. cbn [mbind outcome_bind]. cbn [heap put_tables put_memory put_heap]. rewrite Eb. cbn [mbind outcome_bind].
  unfold upd_cpu, get_cpu. simpl. rewrite Hc. cbn [deref mbind outcome_bind]. simpl. rewrite lookup_insert_eq. cbn [deref mbind outcome_bind].
  eexists _, _, _, v', o, m. split; [reflexivity|]. split; [done|]. split; [by rewrite <-Eo2, <-Eo1|]. simpl. split; [reflexivity|].
  split; [apply not_elem_of_dom, is_fresh|]. split; [done|]. split; [done|]. split; [done|]. split; [done|]. split; [done|].
  split; [cbn [ustack_top stk]; rewrite Z.sub_add, w64_small; [done|unfold page_size in *; lia]|]. split; [done|]. split; [done|]. split; [done|].
  intros p x. rewrite Hsh. unfold page_size. replace ((top - ustack_size + ustack_size + 4095) / 4096) with (top / 4096); [done|].
  Z.to_euclidean_division_equations; lia.
Qed.

(** * The stack *)
Lemma setup_stack_spec s req t th o aux : threads (x_sched s) !! t = Some th → is_user th = true → ustack_obj (stk th) = Some o →
  ustack_top (stk th) mod page_size = 0 → ustack_size ≤ ustack_top (stk th) ≤ 2 ^ 47 →
  obj_inv (xstore s) → is_Some (objects (xstore s) !! o) →
  stack_need (argv req) (envp req) ≤ ustack_size → stack_need (argv req) (envp req) ≤ alloc_max →
  setup_stack req t aux s = Panic ∨
  ∃ s' f th', setup_stack req t aux s = Done ((), s') ∧
    updated (xstore s) o (ustack_size - stack_need (argv req) (envp req)) (stack_need (argv req) (envp req)) f (xstore s') ∧
    tables (x_sched s') = tables (x_sched s) ∧ threads (x_sched s') = <[t := th']> (threads (x_sched s)) ∧
    rsp (regs (ctx th')) = ustack_top (stk th) - stack_need (argv req) (envp req) ∧ rip (regs (ctx th')) = rip (regs (ctx th)) ∧
    parent th' = parent th ∧ state th' = state th ∧
    ∀ m, (∀ a, ustack_top (stk th) - ustack_size ≤ a < ustack_top (stk th) → m a = byte_at (xstore s') o (a - (ustack_top (stk th) - ustack_size))) →
      initial_stack m (ustack_top (stk th) - stack_need (argv req) (envp req)) (argv req) (envp req) (rev (auxvals aux)).
Proof.
  intros Ht Hu Ho Htm Htop Hi Hio Hneed Hmax. destruct (required_size_eq _ _ Hneed) as (Ereq & Ha0 & He0 & _).
  assert (0 < stack_need (argv req) (envp req)) as Hpos.
  { unfold stack_need, count. destruct (one_more _ _); Z.to_euclidean_division_equations; lia. }
  unfold setup_stack. set (s0 := mk_xsys (put_memory (xstore s) (x_sched s)) (set_objects (xstore s) (x_fs s))).
  rewrite (bind_X _ _ s th s0) by (unfold in_sched, Sched.get_thread; change (threads (put_memory _ _)) with (threads (x_sched s)); by rewrite Ht).
  rewrite (bind_X _ _ s0 o s0) by by rewrite Ho. cbv zeta. set (top := ustack_top (stk th)) in *.
  unfold ustack_size in *. rewrite (w64_small (top - _)) by lia. fold ustack_size in *.
  rewrite (bind_X _ _ s0 (replicate (Z.to_nat (required_size (argv req) (envp req))) (w8 (junk (fvfs (x_fs s0))))) s0) by
    (unfold new_buffer; case_test; [lia|done]).
  destruct (build_stack_spec (top - ustack_size) (argv req) (envp req) aux) as (x & Ex & Hlen & Hoff & Hst);
    [lia|lia|unfold page_size, ustack_size in *; Z.to_euclidean_division_equations; lia|done|].
  rewrite (bind_X _ _ s0 x s0) by by rewrite Ex.
  destruct (object_step s0 o (offset x) (sb x)) as [E|(m & E & Hupd)]; [done|done|lia|unfold ustack_size in *; lia|left; by apply bind_X_panic|].
  rewrite (bind_X _ _ _ _ _ E), Z.eqb_refl. cbn [negb]. rewrite (bind_X _ _ _ () _ (check_false _)).
  right. eexists _, _, _. split.
  { unfold in_sched, update_ustack, Sched.get_thread. cbn [x_sched with_mem threads put_memory s0]. rewrite Ht. cbn [deref mbind outcome_bind].
    rewrite Hu. cbn [negb bug_on mbind outcome_bind]. reflexivity. }
  rewrite Hlen, Hoff in Hupd. split; [exact Hupd|]. split; [done|]. split; [reflexivity|]. cbn [ctx set_ctx regs rsp rip parent state].
  split; [rewrite Hoff, w64_small; unfold ustack_size in *; lia|]. split; [done|]. split; [done|]. split; [done|].
  intros M HM. replace (top - stack_need (argv req) (envp req)) with (top - ustack_size + offset x) by lia. apply Hst.
  intros i y Hy. pose proof (lookup_lt_Some _ _ _ Hy) as Hil. rewrite HM by lia. destruct Hupd as (_ & _ & Hb).
  change (byte_at m o (top - ustack_size + offset x + Z.of_nat i - (top - ustack_size)) = y). rewrite Hb, decide_True by lia.
  replace (Z.to_nat _) with i by lia. by rewrite Hy.
Qed.

(** * The program in memory *)

(** The byte at a user address, seen through the mappings. *)
Definition user_byte (v : vmspace PM) (m : objstore St) (a pr b : Z) : Prop :=
  ∃ o k fl, shows (tree v) (a / page_size) (o, k, pr, fl) ∧ byte_at m o (k * page_size + a mod page_size) = b.
Lemma user_byte_at v m a base o pr fl : base mod page_size = 0 → shows (tree v) (a / page_size) (o, a / page_size - base / page_size, pr, fl) →
  user_byte v m a pr (byte_at m o (a - base)).
Proof.
  intros Hb Hs. eexists o, _, fl. split; [exact Hs|]. f_equal. unfold page_size in *. Z.to_euclidean_division_equations; lia.
Qed.
Lemma segment_bytes v m base c ph : seg_loaded (tree v) m base c ph → seg_ok base c ph → ∀ j, 0 ≤ j < p_memsz ph →
  user_byte v m (base + p_vaddr ph + j) (prot_of (p_flags ph)) (seg_byte c ph j).
Proof.
  intros (o & _ & Hs & Hb) [_ _ _ (Hb0 & Hbm & Hv0 & _)] j Hj. rewrite <-Hb by done.
  replace (p_vaddr ph mod page_size + j) with (base + p_vaddr ph + j - (base + p_vaddr ph - p_vaddr ph mod page_size))
    by (unfold page_size in *; Z.to_euclidean_division_equations; lia).
  eapply user_byte_at; [unfold page_size in *; Z.to_euclidean_division_equations; lia|].
  unfold seg_start, seg_end in Hs.
  replace ((base + p_vaddr ph - p_vaddr ph mod page_size) / page_size) with ((base + p_vaddr ph) / page_size)
    by (unfold page_size in *; Z.to_euclidean_division_equations; lia).
  apply Hs. unfold page_size in *. Z.to_euclidean_division_equations; lia.
Qed.
Lemma loadable_seg_ok base c t phs ph : loadable base c t phs → ph ∈ phs → p_type ph = PT_LOAD → seg_ok base c ph.
Proof.
  intros Hl. induction Hl as [|ph' phs ?? Hl IH|ph' phs ???? Hl IH]; intros Hin Ht.
  - by apply elem_of_nil in Hin.
  - apply elem_of_cons in Hin as [->|Hin]; [done|by apply IH].
  - apply elem_of_cons in Hin as [->|Hin]; [done|by apply IH].
Qed.

(** The pages that loading changes. *)
Definition in_image (addr top : Z) (c : list Z) (p : Z) : Prop :=
  (∃ ph, ph ∈ file_headers c ∧ p_type ph = PT_LOAD ∧ in_seg (file_base addr c) ph p) ∨ (top - ustack_size) / page_size ≤ p < top / page_size.

Definition load_ok s (c : nat) (req : request) (proc : Z) (content : list Z) (pr : Process.process) (sp : Z) (v : vmspace PM) : Prop :=
  opened s (r_file req) content ∧
  ptab (tables (x_sched s)) !! proc = Some pr ∧ vspace pr = Some sp ∧ xspace sp s = Some v ∧ vm_ok v ∧ locked v = false ∧
  static_exec default_base content (tree v) ∧ stack_room (next_stack_top pr) (tree v) ∧
  (∀ ph p, ph ∈ file_headers content → p_type ph = PT_LOAD → in_seg (file_base default_base content) ph p →
     ¬ (next_stack_top pr - ustack_size) / page_size ≤ p < next_stack_top pr / page_size) ∧
  is_Some (cpus (x_sched s) !! c) ∧
  (∃ a hp b hp', k_alloc kstack_size (heap (x_sched s)) = Done (a, hp) ∧ k_alloc fpu_size hp = Done (b, hp')) ∧
  stack_need (argv req) (envp req) ≤ ustack_size ∧ stack_need (argv req) (envp req) ≤ alloc_max.

(** A new thread [t] of process [proc] is about to run the program: it starts at the entry
    point, its stack is what the ABI asks for, and the segments are in memory. *)
Record program_loaded s s' (req : request) (proc : Z) (content : list Z) (pr : Process.process) (sp : Z) (v : vmspace PM) (t : Z) : Prop := {
  pl_thread : threads (x_sched s) !! t = None ∧ ∃ th m v', threads (x_sched s') = <[t := th]> (threads (x_sched s)) ∧
    parent th = proc ∧ state th = NotReady ∧ rip (regs (ctx th)) = at_entry (file_aux default_base content) ∧
    xspace sp s' = Some v' ∧ vm_ok v' ∧
    (∀ ph j, ph ∈ file_headers content → p_type ph = PT_LOAD → 0 ≤ j < p_memsz ph →
       user_byte v' (xstore s') (file_base default_base content + p_vaddr ph + j) (prot_of (p_flags ph)) (seg_byte content ph j)) ∧
    (∀ a, next_stack_top pr - ustack_size ≤ a < next_stack_top pr → user_byte v' (xstore s') a stack_prot (m a)) ∧
    initial_stack m (rsp (regs (ctx th))) (argv req) (envp req) (rev (auxvals (file_aux default_base content))) ∧
    (∀ p x, ¬ in_image default_base (next_stack_top pr) content p → shows (tree v') p x ↔ shows (tree v) p x);
  pl_store : grows (xstore s) (xstore s') }.

Lemma in_sched_step {A} (f : sched St PM HP → outcome (A * sched St PM HP)) s a k : f (put_memory (xstore s) (x_sched s)) = Done (a, k) →
  in_sched f s = Done (a, mk_xsys k (set_objects (memory k) (x_fs s))).
Proof. unfold in_sched, xstore. by intros ->. Qed.
Lemma new_object_spec (m : objstore St) o m' : obj_inv m → new_memobject m = (o, m') → objects m !! o = None ∧ is_Some (objects m' !! o) ∧ grows m m'.
Proof.
  intros Hi [= <- <-]. split; [apply fresh_object|]. split; [simpl; rewrite lookup_insert_eq; by eexists|].
  split; [by apply (with_object_inv m)|]. split; [|intros o' off _; apply (with_object_bytes m)].
  intros o' Ho'. simpl. destruct (decide (o' = fresh (dom (objects m)))) as [->|Hne]; [rewrite lookup_insert_eq; by eexists|by rewrite lookup_insert_ne].
Qed.

(** All of it is in memory once the stack is mapped. *)
Lemma image_in_memory s sp top content v m v1 m' v2 o : static_exec default_base content (tree v) → stack_room top (tree v) →
  (∀ ph p, ph ∈ file_headers content → p_type ph = PT_LOAD → in_seg (file_base default_base content) ph p →
     ¬ (top - ustack_size) / page_size ≤ p < top / page_size) →
  loaded s sp (file_base default_base content) content (file_headers content) v m v1 → grows m m' →
  (∀ p x, shows (tree v2) p x ↔ if decide ((top - ustack_size) / page_size ≤ p < top / page_size)
     then x = (o, p - (top - ustack_size) / page_size, stack_prot, stack_flags) else shows (tree v1) p x) →
  (∀ ph j, ph ∈ file_headers content → p_type ph = PT_LOAD → 0 ≤ j < p_memsz ph →
     user_byte v2 m' (file_base default_base content + p_vaddr ph + j) (prot_of (p_flags ph)) (seg_byte content ph j)) ∧
  (∀ a, top - ustack_size ≤ a < top → user_byte v2 m' a stack_prot (byte_at m' o (a - (top - ustack_size)))) ∧
  (∀ p x, ¬ in_image default_base top content p → shows (tree v2) p x ↔ shows (tree v) p x).
Proof.
  intros Hexec [R1 R2 R3 R4] Hapart [L1 L2 L3 L4 L5] Hg Hsh. split; [|split].
  - intros ph j Hin Ht Hj. apply segment_bytes; [|by eapply loadable_seg_ok; [apply Hexec|..]|done].
    eapply seg_loaded_keep; [by apply L4|exact Hg|]. intros p x Hps Hx. apply Hsh. rewrite decide_False; [done|by eapply Hapart].
  - intros a' Ha. eapply user_byte_at with (fl := stack_flags); [unfold page_size, ustack_size in *; Z.to_euclidean_division_equations; lia|].
    apply Hsh. rewrite decide_True; [done|]. unfold page_size, ustack_size in *. Z.to_euclidean_division_equations; lia.
  - intros p x Hp'. rewrite Hsh, decide_False by (intros ?; apply Hp'; by right). apply L5. intros ph Hin Ht Hps. apply Hp'. left. by exists ph.
Qed.

(** C11: A static executable is loaded: unless the kernel panics, as it does when physical
    memory is exhausted, a new thread is made that is not yet ready, starts at the entry point and
    whose stack pointer points to the argument count, the arguments, the environment and the
    auxiliary vector, as the ABI asks for; every byte of every loadable segment can be seen at
    its address with its protection, the rest of a segment is zero, and no other page of the
    address space and no byte of another memory object changes. *)
Theorem load_elf_correct fuel me s c req proc content pr sp v : load_ok s c req proc content pr sp v →
  load_elf fuel me c req proc s = Panic ∨
  ∃ t s', load_elf fuel me c req proc s = Done (Some t, s') ∧ program_loaded s s' req proc content pr sp v t.
Proof.
  intros (Hop & Hp & Hvs & Hsp & Hv & Hlk & Hexec & Hroom & Hapart & Hc & (a & hp & b & hp' & Ea & Eb) & Hneed & Hmax). unfold load_elf.
  set (s0 := mk_xsys (put_memory (xstore s) (x_sched s)) (set_objects (xstore s) (x_fs s))).
  assert (opened s0 (r_file req) content) as Hop0 by (apply (opened_mem s _ _ (xstore s)) in Hop; [split; exact (op_file _ _ _ Hop)|apply mem_grows_refl; by eapply opened_inv]).
  rewrite (bind_X _ _ s pr s0) by (unfold in_sched, get_process; cbn [tables put_memory]; by rewrite Hp).
  rewrite (bind_X _ _ s0 sp s0) by by rewrite Hvs.
  destruct (load_file_spec fuel me (r_file req) sp default_base s0 content v Hop0 Hsp Hv Hlk Hexec) as [E|(m & v1 & E & Hld)];
    [left; by apply bind_X_panic|].
  rewrite (bind_X _ _ _ _ _ E). rewrite andb_false_r, (bind_X _ _ _ () _ (check_false _)).
  rewrite (bind_X _ _ _ (Some (at_entry (file_aux default_base content))) _) by reflexivity.
  set (s1 := with_vm sp v1 (with_mem m s0)). assert (xspace sp s1 = Some v1) as Hsp1 by by apply xspace_with.
  destruct (create_user_thread c proc (at_entry (file_aux default_base content)) (put_memory (xstore s1) (x_sched s1)) pr sp v1 a hp b hp')
    as (t & k & th & v2 & o & m2 & Ek & Eo & Emem & Ethr & Hfresh & Espc & Hpar & Hst & Hus & Hrip & Htop & Hobj & Hv2 & Hlk2 & Hsh); try done.
  { exact (ld_ok _ _ _ _ _ _ _ _ Hld). }
  { exact (ld_unlocked _ _ _ _ _ _ _ _ Hld). }
  { destruct Hroom as [R1 R2 R3 R4]. split; [done|done|done|]. intros p x Hpx Hx. apply (ld_others _ _ _ _ _ _ _ _ Hld) in Hx; [by eapply R4|].
    intros ph Hin Ht Hps. by apply (Hapart ph p Hin Ht Hps). }
  rewrite (bind_X _ _ s1 t (mk_xsys k (set_objects (memory k) (x_fs s1)))) by by apply in_sched_step.
  assert (grows (xstore s) (xstore s1)) as Hg1 by exact (ld_grows _ _ _ _ _ _ _ _ Hld).
  destruct (new_object_spec (xstore s1) o m2) as (Hon & Hoo & Hg2); [apply Hg1|exact Eo|].
  set (s2 := mk_xsys k _). assert (xstore s2 = m2) as Es2 by exact Emem.
  destruct (setup_stack_spec s2 req t th o (file_aux default_base content)) as [E3|(s' & f & th' & E3 & Hupd & Etab & Ethr' & Ersp & Erip & Epar & Est & Hinit)];
    try rewrite Es2; try done.
  { cbn [x_sched s2]. rewrite Ethr. apply lookup_insert_eq. }
  { rewrite Htop. apply Hroom. }
  { rewrite Htop. split; apply Hroom. }
  { apply Hg2. }
  { left. by apply bind_X_panic. }
  rewrite (bind_X _ _ _ _ _ E3). right. exists t, s'. split; [done|]. rewrite Htop, Es2 in *.
  assert (grows (xstore s1) (xstore s')) as Hg3 by by eapply updated_grows.
  split; [split; [done|]|by eapply mem_grows_trans].
  exists th', (λ a, byte_at (xstore s') o (a - (next_stack_top pr - ustack_size))), v2.
  split; [rewrite Ethr'; cbn [x_sched s2]; rewrite Ethr; apply insert_insert_eq|]. split; [congruence|]. split; [congruence|]. split; [congruence|].
  split; [unfold xspace; rewrite Etab; cbn [x_sched s2]; rewrite Espc; apply lookup_insert_eq|]. split; [done|].
  destruct (image_in_memory s0 sp (next_stack_top pr) content v m v1 (xstore s') v2 o Hexec Hroom Hapart Hld Hg3 Hsh) as (Hi1 & Hi2 & Hi3).
  split; [done|]. split; [done|]. split; [rewrite Ersp; by apply Hinit|done].
Qed.

(** A file that is not an ELF file panics the kernel when it is shorter than an ELF header,
    and so does an ELF file that ends before its first program header does: what [pread] returns
    is only asserted. *)
Theorem exec_truncated fuel me s fi c sp :
  opened s fi c →
  (Z.of_nat (length c) < 64 → identify_format Elf fi s = Panic) ∧
  (64 ≤ Z.of_nat (length c) → let h := ehdr_of (take 64 c) in 0 < e_phnum h → 0 ≤ e_phoff h ≤ Z.of_nat (length c) → e_phoff h < 2 ^ 61 → Z.of_nat (length c) < e_phoff h + 56 →
   load_file fuel me fi sp default_base s = Panic).
Proof.
  intros Hop. destruct (op_file _ _ _ Hop) as (f0 & i0 & o0 & nd0 & _ & _ & _ & Hr). pose proof (fr_size _ _ _ _ _ Hr) as Hcs. split.
  - intros Hl. unfold identify_format, read_struct. apply bind_X_panic.
    rewrite (bind_X _ _ s (replicate 64 (w8 (junk (fvfs (x_fs s))))) s) by done.
    apply (read_into_short s fi c); rewrite ?length_replicate; [done|lia|lia|done].
  - intros Hl h Hn Hoff Hoff1 Hend. unfold load_file.
    destruct (read_struct_spec s fi c 0 ehdr_size Hop) as [E|(m1 & E & Hg)]; [done|done|done|by apply bind_X_panic|].
    rewrite (bind_X _ _ _ _ _ E), drop_0. change (Z.to_nat ehdr_size) with 64%nat. fold h. cbv zeta. destruct (Z.to_nat (e_phnum h)) as [|n] eqn:En; [lia|]. cbn [phdr_loop].
    apply bind_X_panic. rewrite Z.add_0_r, w64_small by lia. unfold read_struct.
    rewrite (bind_X _ _ _ (replicate 56 (w8 (junk (fvfs (x_fs (with_mem m1 s)))))) (with_mem m1 s)) by done.
    apply (read_into_short _ fi c); rewrite ?length_replicate; [by apply opened_mem|lia|lia|lia].
Qed.
End load.

(** * Example: a program of one segment whose last four bytes are not in the file *)
Section example.
#[local] Existing Instances idle_pages bump_heap.
#[local] Instance idle_laws : PageMapLaws Z.
Proof. by refine {| pm_inv := λ _, True; pm_entry := λ _ _, 0 |}; [intros; eexists; split; [done|split; [done|intros; by destruct (_ <? _)]]|intros; eexists _, _]. Defined.

Definition ex_elf : list Z :=
  [0x7F; 0x45; 0x4C; 0x46; 2; 1; 1; 0] ++ replicate 8 0 ++ le_bytes 2 2 ++ le_bytes 2 62 ++ le_bytes 4 1 ++
  le_bytes 8 0x401078 ++ le_bytes 8 64 ++ le_bytes 8 0 ++ le_bytes 4 0 ++ le_bytes 2 64 ++ le_bytes 2 56 ++ le_bytes 2 1 ++ replicate 6 0 ++
  le_bytes 4 PT_LOAD ++ le_bytes 4 (PF_R + PF_X) ++ le_bytes 8 120 ++ le_bytes 8 0x401078 ++ le_bytes 8 0 ++ le_bytes 8 4 ++ le_bytes 8 8 ++ le_bytes 8 4096 ++
  [0xEB; 0xFE; 0x90; 0x90].
(** It is written to the file [f], which is then opened as file 0. *)
Definition ex_file_fs (l : list Z) : fsys Z := match tmpfs_write (ex_entry "f") 0 l (sfs ex_sys) with Done (_, fs) => fs | _ => sfs ex_sys end.
Definition ex_loader (l : list Z) : xsys := mk_xsys ex_power_on (ex_file_fs l).
Lemma ex_loader_opened l : (∃ n fs, tmpfs_write (ex_entry "f") 0 l (sfs ex_sys) = Done (n, fs) ∧ files fs = files (sfs ex_sys)) → Z.of_nat (length l) < 2 ^ 62 → opened (ex_loader l) 0 l.
Proof.
  intros (n & fs & E & Hfs) Hl. unfold ex_loader, ex_file_fs. rewrite E. split.
  destruct (tmpfs_write_spec (sfs ex_sys) (ex_entry "f") 4 3 [] 0 l ex_file_rep) as [E'|(s' & E' & Hr & Ho & _)]; [lia|..]; change (Z.of_nat 0) with 0 in E'; rewrite E in E'; [done|].
  injection E' as _ <-. cbn [x_fs]. rewrite Hfs. unfold splice in Hr. rewrite drop_nil in Hr. cbn in Hr. rewrite app_nil_r in Hr.
  destruct (fr_inode _ _ _ _ _ Hr) as (nd & Hnd & _). exists ex_file, 4, 3, nd. split; [vm_compute; reflexivity|]. split; [exact Hnd|]. split; [|exact Hr].
  destruct Ho as (_ & _ & _ & Hn & _). apply inode_ref_inv in Hnd as (_ & _ & _ & Hnd).
  destruct (inodes (fvfs (sfs ex_sys)) !! 4) as [n0|] eqn:E0; [|vm_compute in E0; discriminate].
  destruct (Hn n0 eq_refl) as (n' & Hn' & Hop & _). rewrite Hnd in Hn'. injection Hn' as <-. rewrite Hop.
  assert (i_op <$> inodes (fvfs (sfs ex_sys)) !! 4 = Some (Some TmpfsOps)) as E1 by (vm_compute; reflexivity). rewrite E0 in E1. by injection E1.
Qed.

Definition ex_req : request := mk_request 0 None [[97]; [98; 99]] [[80; 61; 47]].
Definition ex_prog : process := default (blank_process 0) (ptab ex_kernel !! 0).
Definition ex_prog_space : vmspace Z := default (mk_vmspace [] 0 false) (spaces ex_kernel !! 0).
Lemma ex_space_empty : tree ex_prog_space = [].
Proof. vm_compute. reflexivity. Qed.
Lemma ex_loader_space_ok : vm_ok ex_prog_space.
Proof.
  split; rewrite ?ex_space_empty; [|constructor|done]. split; [intros e He; by apply elem_of_nil in He|intros e1 e2 He; by apply elem_of_nil in He].
Qed.
Lemma ex_elf_static : static_exec default_base ex_elf (tree ex_prog_space).
Proof.
  split.
  - vm_compute. discriminate.
  - intros k Hk. change (0 ≤ k < 0 + 1) in Hk. replace k with 0 by lia. vm_compute. split; discriminate.
  - assert (tree ex_prog_space = []) as -> by (vm_compute; reflexivity).
    set (l := phdrs _ _ _ _). vm_compute in l. unfold l. apply loadable_seg; [reflexivity| | | |constructor].
    + split; vm_compute; repeat split; (reflexivity || discriminate).
    + intros p x _ (e & He & _). by apply elem_of_nil in He.
    + intros ph' Hin. by apply elem_of_nil in Hin.
Qed.
Lemma ex_load_ok : load_ok (ex_loader ex_elf) 0 ex_req 0 ex_elf ex_prog 0 ex_prog_space.
Proof.
  split.
  { apply ex_loader_opened; [eexists _, _; split; vm_compute; reflexivity|vm_compute; reflexivity]. }
  split; [vm_compute; reflexivity|]. split; [vm_compute; reflexivity|]. split; [vm_compute; reflexivity|].
  split; [exact ex_loader_space_ok|]. split; [reflexivity|]. split; [exact ex_elf_static|]. split.
  { split; [reflexivity|vm_compute; discriminate|vm_compute; discriminate|]. intros p x _ (e & He & _). rewrite ex_space_empty in He. by apply elem_of_nil in He. }
  split.
  { intros ph p Hin _. assert (file_headers ex_elf = [mk_phdr 1 5 120 0x401078 4 8]) as Eh by (vm_compute; reflexivity). rewrite Eh in Hin.
    apply list_elem_of_singleton in Hin as ->. unfold in_seg. assert (next_stack_top ex_prog / page_size = 0x7FFFFFFF) as -> by (vm_compute; reflexivity).
    assert ((next_stack_top ex_prog - ustack_size) / page_size = 0x7FFFFDFF) as -> by (vm_compute; reflexivity).
    assert (seg_end (file_base default_base ex_elf) (mk_phdr 1 5 120 0x401078 4 8) = 0x402) as -> by (vm_compute; reflexivity). lia. }
  split; [by eexists|]. split; [by eexists _, _, _, _|]. split; vm_compute; discriminate.
Qed.
(** The program is loaded, and starts at its entry point. *)
Definition ex_load : outcome (option Z * xsys (St := Z) (PM := Z) (HP := Z)) := load_elf 9 ex_me 0 ex_req 0 (ex_loader ex_elf).
Lemma load_elf_correct_witness : ∃ t s', ex_load = Done (Some t, s') ∧ program_loaded (ex_loader ex_elf) s' ex_req 0 ex_elf ex_prog 0 ex_prog_space t.
Proof.
  destruct (load_elf_correct 9 ex_me (ex_loader ex_elf) 0 ex_req 0 ex_elf ex_prog 0 ex_prog_space ex_load_ok) as [E|H]; [|exact H].
  assert (match ex_load with Panic => false | _ => true end = true) as Ep by (vm_compute; reflexivity). unfold ex_load in Ep. rewrite E in Ep. discriminate.
Defined.
Lemma exec_truncated_witness : identify_format Elf 0 (ex_loader [0x7F; 0x45; 0x4C; 0x46]) = Panic.
Proof.
  apply (proj1 (exec_truncated 9 ex_me (ex_loader [0x7F; 0x45; 0x4C; 0x46]) 0 [0x7F; 0x45; 0x4C; 0x46] 0
    ltac:(apply ex_loader_opened; [eexists _, _; split; vm_compute; reflexivity|vm_compute; reflexivity]))). vm_compute. reflexivity.
Defined.
End example.
