(* ===== verification/Initramfs.v ===== *)
(** The initial ramdisk (kernel/source/drivers/initramfs.cpp): unpacking a ustar archive into
    the file system.  The archive is the list of bytes from where the boot loader has put it;
    reading behind it is a crash.  The properties are in [InitramfsSpec.v]. *)

From Stdlib Require Import Strings.Ascii.
From S2P Require Import Prelude Math Pmm Frames Objects Vfs Files SysVfs.
#[local] Open Scope Z_scope.

Section initramfs.
Context `{PathOps} `{FrameAllocator St} `{RandomSource}.
Context (fuel : nat) (me : caller).

(** ** The header: offsets of the fields *)
Definition hd_name : Z := 0.
Definition hd_mode : Z := 100.
Definition hd_size : Z := 124.
Definition hd_mtime : Z := 136.
Definition hd_typeflag : Z := 156.
Definition hd_linkname : Z := 157.
Definition hd_magic : Z := 257.
Definition hd_devmajor : Z := 329.
Definition hd_devminor : Z := 337.
Definition magic : list Z := [117; 115; 116; 97; 114; 0].

(** [enum types] *)
Definition ty_regular : Z := 48.
Definition ty_aregular : Z := 0.
Definition ty_hardlink : Z := 49.
Definition ty_symlink : Z := 50.
Definition ty_chardev : Z := 51.
Definition ty_blockdev : Z := 52.
Definition ty_directory : Z := 53.
Definition ty_fifo : Z := 54.

(** ** Reading the archive *)
Definition get_bytes (arch : list Z) (off n : Z) : outcome (list Z) :=
  if Z.of_nat (length arch) <? off + n then Crash else Done (take (Z.to_nat n) (drop (Z.to_nat off) arch)).
(** A [std::string_view] of a pointer ends at the first zero, wherever the field ends. *)
Fixpoint until_nul (l : list Z) : outcome (list Z) :=
  match l with
  | [] => Crash
  | c :: l => if c =? 0 then Done [] else r ← until_nul l; Done (c :: r)
  end.
Definition c_str (arch : list Z) (off : Z) : outcome (list Z) := until_nul (drop (Z.to_nat off) arch).
(** [lib::oct2int] at the width of [wrap]; characters are signed. *)
Definition char_of (b : Z) : Z := if b <? 128 then b else b - 256.
Definition oct2int (wrap : Z → Z) (str : list Z) : Z := fold_left (λ v c, wrap (v * 8 + (char_of c - 48))) str 0.

(** ** One entry *)
Definition set_mtim (t : Z) (st : stat) : stat :=
  mk_stat (st_dev st) (st_ino st) (st_mode st) (st_nlink st) (st_uid st) (st_gid st) (st_rdev st)
    (st_size st) (st_blksize st) (st_blocks st) (st_atim st) t (st_ctim st).
Definition dentry_inode (p : path) (s : fsys St) : outcome Z := d ← dentry_of (dent p) (fvfs s); Done (d_inode d).
Definition on_vfs {A} (f : vfs St → outcome (A * vfs St)) (s : fsys St) : outcome (A * fsys St) :=
  '(a, v) ← f (fvfs s); Done (a, set_vfs v s).
(** The inode of what an operation has made. *)
Definition made (r : expected error path) (s : fsys St) : outcome (option Z * fsys St) :=
  match r with
  | Unexpected _ => Done (None, s)
  | Value p => i ← dentry_inode p s; Done (Some i, s)
  end.
Definition create_node (name : string) (mode dev : Z) (s : fsys St) : outcome (option Z * fsys St) :=
  '(r, s) ← on_vfs (create fuel me None name mode dev) s; made r s.
(** [data] is only read when the file has been created. *)
Definition extract_file (name : string) (mode : Z) (data : outcome (list Z)) (size : Z) (s : fsys St) : outcome (option Z * fsys St) :=
  '(r, s) ← on_vfs (create fuel me None name mode 0) s;
  match r with
  | Unexpected _ => Done (None, s)
  | Value p =>
      data ← data;
      let '(f, s) := file_create p 0 0 s in
      '(n, s) ← file_pwrite f 0 data s;
      if n =? s64 size then i ← dentry_inode p s; Done (Some i, s)
      else '(_, s) ← on_vfs (unlink fuel me None name) s; Done (None, s)
  end.
Definition extract (name linkname : string) (mode size mtim dev typeflag : Z) (data : outcome (list Z)) (s : fsys St) : outcome (fsys St) :=
  if bool_decide (name = "./"%string) then Done s else
  '(inode, s) ←
    (if (typeflag =? ty_regular) || (typeflag =? ty_aregular) then extract_file name (Z.lor mode s_ifreg) data size s
     else if typeflag =? ty_hardlink then '(r, s) ← on_vfs (link fuel me None name None linkname false) s; made r s
     else if typeflag =? ty_symlink then '(r, s) ← on_vfs (symlink fuel me None name linkname) s; made r s
     else if typeflag =? ty_chardev then create_node name (Z.lor mode s_ifchr) dev s
     else if typeflag =? ty_blockdev then create_node name (Z.lor mode s_ifblk) dev s
     else if typeflag =? ty_directory then create_node name (Z.lor mode s_ifdir) 0 s
     else if typeflag =? ty_fifo then Panic
     else Done (None, s));
  match inode with
  | None => Done s
  | Some i => n ← deref (inodes (fvfs s) !! i); Done (put_stat i n (set_mtim (mtim * 1000000000) (i_stat n)) s)
  end.

(** ** [ustar::load] from the header at [current] *)
Fixpoint load (steps : nat) (arch : list Z) (current : Z) (s : fsys St) : outcome (fsys St) :=
  match steps with
  | O => NoFuel
  | S steps =>
      m ← get_bytes arch (current + hd_magic) 6;
      if negb (bool_decide (m = magic)) then Done s else
      name ← c_str arch (current + hd_name);
      linkname ← c_str arch (current + hd_linkname);
      mode ← c_str arch (current + hd_mode);
      size ← c_str arch (current + hd_size);
      mtime ← c_str arch (current + hd_mtime);
      devmajor ← c_str arch (current + hd_devmajor);
      devminor ← c_str arch (current + hd_devminor);
      typeflag ← get_bytes arch (current + hd_typeflag) 1;
      let size := oct2int w64 size in
      let dev := makedev (w32 (oct2int s64 devmajor)) (w32 (oct2int s64 devminor)) in
      s ← extract (string_of_bytes name) (string_of_bytes linkname) (oct2int w32 mode) size (oct2int s64 mtime) dev
            (hd 0 typeflag) (get_bytes arch (current + 512) size) s;
      load steps arch (w64 (current + 512 + align_up size 512)) s
  end.
End initramfs.
