(* ===== verification/InitramfsSpec.v ===== *)
(** Unpacking what a ustar archive holds: the archive of a list of entries does to the file
    system what the entries say, and an archive of files makes these files. *)

From S2P Require Import Prelude Math Pmm Frames Objects Vfs VfsSpec Files FilesSpec SysVfs Initramfs.
#[local] Open Scope Z_scope.

(** ** The format *)
Fixpoint octal (n : nat) (v : Z) : list Z := match n with O => [] | S n => octal n (v / 8) ++ [48 + v mod 8] end.
Definition pad (n : nat) (l : list Z) : list Z := l ++ replicate (n - length l) 0.

(** An entry; [en_ids], [en_chksum], [en_owner] and [en_prefix] are the fields that are not
    looked at: user and group, checksum, version with the names of user and group, prefix. *)
Record entry := mk_entry
  { en_name : list Z; en_mode : Z; en_ids : list Z; en_mtime : Z; en_chksum : list Z; en_type : Z; en_link : list Z;
    en_owner : list Z; en_major : Z; en_minor : Z; en_prefix : list Z; en_data : list Z }.
Definition en_size (e : entry) : Z := Z.of_nat (length (en_data e)).
Definition header (e : entry) : list Z :=
  pad 100 (en_name e) ++ pad 8 (octal 7 (en_mode e)) ++ en_ids e ++ pad 12 (octal 11 (en_size e)) ++ pad 12 (octal 11 (en_mtime e)) ++
  en_chksum e ++ [en_type e] ++ pad 100 (en_link e) ++ magic ++ en_owner e ++ pad 8 (octal 7 (en_major e)) ++ pad 8 (octal 7 (en_minor e)) ++
  en_prefix e.
Definition encode (e : entry) : list Z := header e ++ en_data e ++ replicate (Z.to_nat (- en_size e mod 512)) 0.
Definition archive (es : list entry) : list Z := es ≫= encode.

Definition text (l : list Z) : Prop := Forall (λ c, c ≠ 0) l ∧ (length l < 100)%nat.
Record entry_ok (e : entry) : Prop := {
  eo_name : text (en_name e);
  eo_link : text (en_link e);
  eo_mode : 0 ≤ en_mode e < 8 ^ 7;
  eo_mtime : 0 ≤ en_mtime e < 8 ^ 11;
  eo_size : en_size e < 8 ^ 11;
  eo_dev : 0 ≤ en_major e < 8 ^ 7 ∧ 0 ≤ en_minor e < 8 ^ 7;
  eo_rest : length (en_ids e) = 16%nat ∧ length (en_chksum e) = 8%nat ∧ length (en_owner e) = 66%nat ∧ length (en_prefix e) = 167%nat }.

(** ** Fields *)
Lemma length_octal n v : length (octal n v) = n.
Proof. revert v. induction n as [|n IH]; intros v; [done|]. simpl. rewrite length_app, IH. simpl. lia. Qed.
Lemma octal_nonzero n v : 0 ≤ v → Forall (λ c, c ≠ 0) (octal n v).
Proof.
  revert v. induction n as [|n IH]; intros v Hv; [constructor|]. simpl. apply Forall_app. split; [apply IH; by apply Z.div_pos|].
  constructor; [|constructor]. pose proof (Z.mod_pos_bound v 8). lia.
Qed.
Lemma oct2int_octal wrap n v : (∀ x, 0 ≤ x < 8 ^ Z.of_nat n → wrap x = x) → 0 ≤ v < 8 ^ Z.of_nat n → oct2int wrap (octal n v) = v.
Proof.
  revert v. induction n as [|n IH]; intros v Hw Hv; [simpl in *; unfold oct2int; simpl; lia|].
  rewrite Nat2Z.inj_succ, Z.pow_succ_r in Hw, Hv by lia. unfold oct2int in *. simpl. rewrite fold_left_app. simpl.
  rewrite IH; [|intros x Hx; apply Hw; lia|Z.to_euclidean_division_equations; lia].
  unfold char_of. pose proof (Z.mod_pos_bound v 8). case_test; [|lia]. rewrite Hw; Z.to_euclidean_division_equations; lia.
Qed.
Lemma length_pad n l : (length l ≤ n)%nat → length (pad n l) = n.
Proof. intros Hl. unfold pad. rewrite length_app, length_replicate. lia. Qed.
Lemma until_nul_app l r : Forall (λ c, c ≠ 0) l → until_nul (l ++ 0 :: r) = Done l.
Proof.
  induction 1 as [|c l Hc _ IH]; [done|]. simpl. destruct (Z.eqb_spec c 0); [done|]. by rewrite IH.
Qed.
(** A padded field in an archive. *)
Lemma c_str_at arch pre n l rest off : arch = pre ++ pad n l ++ rest → off = Z.of_nat (length pre) → (length l < n)%nat →
  Forall (λ c, c ≠ 0) l → c_str arch off = Done l.
Proof.
  intros -> -> Hl Hn. unfold c_str. rewrite Nat2Z.id, drop_app_length. unfold pad.
  destruct (n - length l)%nat as [|k] eqn:Ek; [lia|]. rewrite <-app_assoc. simpl. by apply until_nul_app.
Qed.
Lemma get_bytes_at arch pre l rest off n : arch = pre ++ l ++ rest → off = Z.of_nat (length pre) → n = Z.of_nat (length l) →
  get_bytes arch off n = Done l.
Proof.
  intros -> -> ->. unfold get_bytes. rewrite !length_app. destruct (Z.ltb_spec (Z.of_nat (length pre + (length l + length rest))) (Z.of_nat (length pre) + Z.of_nat (length l))); [lia|].
  by rewrite !Nat2Z.id, drop_app_length, take_app_length.
Qed.
Lemma length_header e : entry_ok e → length (header e) = 512%nat.
Proof.
  intros [[_ Hn] [_ Hl] _ _ _ _ (H1 & H2 & H3 & H4)]. unfold header. rewrite !length_app, !length_pad, H1, H2, H3, H4; [done|rewrite ?length_octal; lia..].
Qed.
Lemma length_encode e : entry_ok e → Z.of_nat (length (encode e)) = 512 + 512 * ((en_size e + 511) / 512).
Proof.
  intros He. unfold encode. rewrite !length_app, length_header, length_replicate by done. unfold en_size. Z.to_euclidean_division_equations; lia.
Qed.

(** All the fields of the header at [length pre], and the data behind it. *)
Lemma header_fields arch pre e rest : arch = pre ++ encode e ++ rest → entry_ok e → let cur := Z.of_nat (length pre) in
  (get_bytes arch (cur + hd_magic) 6 = Done magic ∧ get_bytes arch (cur + hd_typeflag) 1 = Done [en_type e] ∧
   get_bytes arch (cur + 512) (en_size e) = Done (en_data e)) ∧
  (c_str arch (cur + hd_name) = Done (en_name e) ∧ c_str arch (cur + hd_linkname) = Done (en_link e)) ∧
  c_str arch (cur + hd_mode) = Done (octal 7 (en_mode e)) ∧ c_str arch (cur + hd_size) = Done (octal 11 (en_size e)) ∧
  c_str arch (cur + hd_mtime) = Done (octal 11 (en_mtime e)) ∧ c_str arch (cur + hd_devmajor) = Done (octal 7 (en_major e)) ∧
  c_str arch (cur + hd_devminor) = Done (octal 7 (en_minor e)).
Proof.
  intros Harch He cur. pose proof (length_header e He) as Lh.
  destruct He as [[Hn Hnl] [Hk Hkl] Hm Ht Hs [Hma Hmi] (H1' & H2' & H3' & H4')]. assert (0 ≤ en_size e) as Hsz0 by (unfold en_size; lia).
  pose proof Harch as Hdata. unfold encode in Hdata. unfold encode, header in Harch. rewrite <-!app_assoc in Harch.
  set (f1 := pad 100 (en_name e)) in *. set (f2 := pad 8 (octal 7 (en_mode e))) in *. set (f3 := en_ids e) in *. set (f4 := pad 12 (octal 11 (en_size e))) in *.
  set (f5 := pad 12 (octal 11 (en_mtime e))) in *. set (f6 := en_chksum e) in *. set (f7 := [en_type e]) in *. set (f8 := pad 100 (en_link e)) in *.
  set (f9 := en_owner e) in *. set (f10 := pad 8 (octal 7 (en_major e))) in *.
  assert (length f1 = 100%nat ∧ length f2 = 8%nat ∧ length f4 = 12%nat ∧ length f5 = 12%nat ∧ length f7 = 1%nat ∧ length f8 = 100%nat ∧ length f10 = 8%nat)
    as (L1 & L2 & L4 & L5 & L7 & L8 & L10) by (split_and!; try done; apply length_pad; rewrite ?length_octal; lia).
  assert (length magic = 6%nat) as Lm by done.
  split; [split; [|split]|split; [split|split_and!]].
  - eapply (get_bytes_at _ (pre ++ f1 ++ f2 ++ f3 ++ f4 ++ f5 ++ f6 ++ f7 ++ f8)); [rewrite <-!app_assoc; exact Harch|rewrite !length_app; unfold cur, hd_magic; lia|done].
  - eapply (get_bytes_at _ (pre ++ f1 ++ f2 ++ f3 ++ f4 ++ f5 ++ f6)); [rewrite <-!app_assoc; exact Harch|rewrite !length_app; unfold cur, hd_typeflag; lia|done].
  - eapply (get_bytes_at _ (pre ++ header e)); [rewrite Hdata, <-!app_assoc; reflexivity|rewrite length_app; unfold cur; lia|done].
  - eapply (c_str_at _ pre); [exact Harch|unfold cur, hd_name; lia|done|done].
  - eapply (c_str_at _ (pre ++ f1 ++ f2 ++ f3 ++ f4 ++ f5 ++ f6 ++ f7)); [rewrite <-!app_assoc; exact Harch|rewrite !length_app; unfold cur, hd_linkname; lia|done|done].
  - eapply (c_str_at _ (pre ++ f1)); [rewrite <-!app_assoc; exact Harch|rewrite !length_app; unfold cur, hd_mode; lia|rewrite length_octal; lia|apply octal_nonzero; lia].
  - eapply (c_str_at _ (pre ++ f1 ++ f2 ++ f3)); [rewrite <-!app_assoc; exact Harch|rewrite !length_app; unfold cur, hd_size; lia|rewrite length_octal; lia|apply octal_nonzero; lia].
  - eapply (c_str_at _ (pre ++ f1 ++ f2 ++ f3 ++ f4)); [rewrite <-!app_assoc; exact Harch|rewrite !length_app; unfold cur, hd_mtime; lia|rewrite length_octal; lia|apply octal_nonzero; lia].
  - eapply (c_str_at _ (pre ++ f1 ++ f2 ++ f3 ++ f4 ++ f5 ++ f6 ++ f7 ++ f8 ++ magic ++ f9)); [rewrite <-!app_assoc; exact Harch|rewrite !length_app; unfold cur, hd_devmajor; lia|rewrite length_octal; lia|apply octal_nonzero; lia].
  - eapply (c_str_at _ (pre ++ f1 ++ f2 ++ f3 ++ f4 ++ f5 ++ f6 ++ f7 ++ f8 ++ magic ++ f9 ++ f10)); [rewrite <-!app_assoc; exact Harch|rewrite !length_app; unfold cur, hd_devminor; lia|rewrite length_octal; lia|apply octal_nonzero; lia].
Qed.

(** A name that fills its field has no terminator: the mode is read as a part of it. *)
Lemma full_name_runs_on arch pre n mode rest : arch = pre ++ n ++ pad 8 (octal 7 mode) ++ rest → 0 ≤ mode → length n = 100%nat → Forall (λ c, c ≠ 0) n →
  c_str arch (Z.of_nat (length pre) + hd_name) = Done (n ++ octal 7 mode).
Proof.
  intros Harch Hm Hl Hn. unfold pad in Harch. rewrite length_octal in Harch. change (replicate (8 - 7) 0) with [0] in Harch.
  unfold c_str, hd_name. rewrite Z.add_0_r, Nat2Z.id, Harch, drop_app_length, <-!app_assoc. rewrite (app_assoc n). simpl app at 2.
  apply until_nul_app, Forall_app. split; [done|by apply octal_nonzero].
Qed.

Section archive.
Context `{PathOps} `{FrameAllocator St} `{RandomSource}.
Context (fuel : nat) (me : caller).
Implicit Types s : fsys St.

(** What an entry says. *)
Definition extract_entry (e : entry) s : outcome (fsys St) :=
  extract fuel me (string_of_bytes (en_name e)) (string_of_bytes (en_link e)) (en_mode e) (en_size e) (en_mtime e)
    (makedev (en_major e) (en_minor e)) (en_type e) (Done (en_data e)) s.
Fixpoint unpack (es : list entry) s : outcome (fsys St) :=
  match es with [] => Done s | e :: es => s ← extract_entry e s; unpack es s end.

(** The header at [length pre]. *)
Lemma load_header steps arch pre e rest s : arch = pre ++ encode e ++ rest → entry_ok e → Z.of_nat (length arch) < 2 ^ 62 →
  load fuel me (S steps) arch (Z.of_nat (length pre)) s =
  (s ← extract_entry e s; load fuel me steps arch (Z.of_nat (length (pre ++ encode e))) s).
Proof.
  intros Harch He Hlen. pose proof (length_encode e He) as Henc. assert (Z.of_nat (length pre + length (encode e)) < 2 ^ 62) as Hend.
  { rewrite Harch, !length_app in Hlen. lia. }
  assert (0 ≤ en_size e) as Hsz0 by (unfold en_size; lia).
  destruct (header_fields arch pre e rest Harch He) as ((Fm & Ft & Fd) & (Fn & Fl) & F1 & F2 & F3 & F4 & F5). cbn [load]. rewrite Fm. cbn [mbind outcome_bind].
  rewrite bool_decide_eq_true_2 by done. cbn [negb]. rewrite Fn. cbn [mbind outcome_bind]. rewrite Fl. cbn [mbind outcome_bind]. rewrite F1. cbn [mbind outcome_bind].
  rewrite F2. cbn [mbind outcome_bind]. rewrite F3. cbn [mbind outcome_bind]. rewrite F4. cbn [mbind outcome_bind]. rewrite F5. cbn [mbind outcome_bind]. rewrite Ft. cbn [mbind outcome_bind].
  destruct He as [_ _ Hm Ht Hs [Hma Hmi] _].
  rewrite !oct2int_octal by (lia || (intros x Hx; (apply w32_small || apply w64_small || apply s64_small); lia)).
  rewrite !w32_small by lia. rewrite Fd. unfold extract_entry. cbn [hd].
  replace (w64 (Z.of_nat (length pre) + 512 + align_up (en_size e) 512)) with (Z.of_nat (length (pre ++ encode e))); [done|].
  change 512 with (2 ^ 9). rewrite align_up_pow2 by (unfold en_size in *; lia). rewrite length_app, w64_small; Z.to_euclidean_division_equations; lia.
Qed.

(** The archive of a list of entries, followed by something else than a header, does what the
    entries say, one after the other.  One step for every entry and one for the end is
    enough. *)
Lemma load_archive_from es : ∀ steps arch pre tail m s, arch = pre ++ archive es ++ tail → Forall entry_ok es → Z.of_nat (length arch) < 2 ^ 62 →
  get_bytes tail hd_magic 6 = Done m → m ≠ magic → (length es < steps)%nat →
  load fuel me steps arch (Z.of_nat (length pre)) s = unpack es s.
Proof.
  induction es as [|e es IH]; intros steps arch pre tail m s Harch Hes Hlen Htail Hm Hsteps; (destruct steps as [|steps]; [simpl in Hsteps; lia|]).
  - simpl in Harch. cbn [load unpack]. assert (get_bytes arch (Z.of_nat (length pre) + hd_magic) 6 = Done m) as ->.
    { rewrite Harch. unfold get_bytes in *. rewrite length_app. unfold hd_magic in *. destruct (Z.ltb_spec (Z.of_nat (length tail)) (257 + 6)); [done|].
      destruct (Z.ltb_spec (Z.of_nat (length pre + length tail)) (Z.of_nat (length pre) + 257 + 6)); [lia|].
      replace (Z.to_nat (Z.of_nat (length pre) + 257)) with (length pre + Z.to_nat 257)%nat by lia. by rewrite <-drop_drop, drop_app_length. }
    cbn [mbind outcome_bind]. by rewrite bool_decide_eq_false_2.
  - apply Forall_cons in Hes as [He Hes]. unfold archive in Harch. rewrite bind_cons in Harch. fold (archive es) in Harch. rewrite <-app_assoc in Harch.
    rewrite (load_header steps arch pre e (archive es ++ tail)) by done. cbn [unpack].
    destruct (extract_entry e s) as [s1| | | |]; try done. cbn [mbind outcome_bind]. eapply IH; try done; [by rewrite Harch, <-app_assoc|simpl in Hsteps; lia].
Qed.
(** The headers and contents that make up an archive are read back: loading an archive does what
    its entries say, one after the other, and stops behind the last of them. *)
Theorem load_archive es steps tail m s : Forall entry_ok es → Z.of_nat (length (archive es ++ tail)) < 2 ^ 62 →
  get_bytes tail hd_magic 6 = Done m → m ≠ magic → (length es < steps)%nat →
  load fuel me steps (archive es ++ tail) 0 s = unpack es s.
Proof. intros He Hl Ht Hm Hs. by eapply (load_archive_from es steps _ []). Qed.

(** A size field with other characters than digits can stand for a negative number; with -512
    the next header is the same one again. *)
Definition stuck_archive : list Z :=
  pad 100 [46; 47] ++ pad 24 [] ++ pad 12 [240; 48] ++ pad 121 [] ++ magic ++ pad 249 [].
Lemma load_stuck steps s : load fuel me steps stuck_archive 0 s = NoFuel.
Proof.
  induction steps as [|steps IH]; [done|]. cbn [load].
  assert (get_bytes stuck_archive (0 + hd_magic) 6 = Done magic) as -> by (vm_compute; reflexivity). cbn [mbind outcome_bind].
  rewrite bool_decide_eq_true_2 by done. cbn [negb].
  assert (c_str stuck_archive (0 + hd_name) = Done [46; 47]) as -> by (vm_compute; reflexivity).
  assert (c_str stuck_archive (0 + hd_linkname) = Done []) as -> by (vm_compute; reflexivity).
  assert (c_str stuck_archive (0 + hd_mode) = Done []) as -> by (vm_compute; reflexivity).
  assert (c_str stuck_archive (0 + hd_size) = Done [240; 48]) as -> by (vm_compute; reflexivity).
  assert (c_str stuck_archive (0 + hd_mtime) = Done []) as -> by (vm_compute; reflexivity).
  assert (c_str stuck_archive (0 + hd_devmajor) = Done []) as -> by (vm_compute; reflexivity).
  assert (c_str stuck_archive (0 + hd_devminor) = Done []) as -> by (vm_compute; reflexivity).
  assert (get_bytes stuck_archive (0 + hd_typeflag) 1 = Done [0]) as -> by (vm_compute; reflexivity). cbn [mbind outcome_bind]. cbv zeta.
  unfold extract. rewrite bool_decide_eq_true_2 by (vm_compute; reflexivity). cbn [mbind outcome_bind].
  replace (w64 (0 + 512 + align_up (oct2int w64 [240; 48]) 512)) with 0 by (vm_compute; reflexivity). exact IH.
Qed.
End archive.
