(* ===== verification/InitramfsFiles.v ===== *)
(** An archive of regular files makes these files. *)

From Stdlib Require Import Strings.Ascii.
From S2P Require Import Prelude Math Pmm Frames Objects Vfs VfsTables VfsSpec VfsInv VfsBoot Files FilesSpec SysVfs SysSpec SysFiles SysBoot Initramfs InitramfsSpec.
#[local] Open Scope Z_scope.

Section files.
Context `{PathLaws} `{FrameAllocatorLaws St} `{RandomSource}.
Implicit Types v : vfs St.

Lemma finish_rest P n symlink ret v v' r : finish P n symlink ret v = Done (r, v') → mem v' = mem v ∧ instances v' = instances v.
Proof.
  unfold finish. destruct ret as [ino|]; [|by intros [= _ <-]]. intros E. apply bind_Done_inv in E as ([d s1] & E1 & E). injection E as _ <-.
  unfold add_dentry in E1. apply bind_Done_inv in E1 as (de & _ & E1). by injection E1 as _ <-.
Qed.

(** A file created in the root directory of the caller. *)
Lemma create_in_root v me fuel P n mode m mo de :
  vfs_ok v → plain n → c_root me = Some P → mnt P = Some m → mounts v !! m = Some mo → is_Some (instances v !! m_fs mo) →
  dentries v !! dent P = Some de → d_children de !! n = None →
  ∃ d i node v', create (S fuel) me None n mode 0 v = Done (Value (mk_path (mnt P) d), v') ∧ vfs_ok v' ∧
    entry_added v (dent P) n EmptyString i d v' ∧ inodes v !! i = None ∧ inodes v' = <[i := node]> (inodes v) ∧
    mem v' = with_object (mem v) ∧ is_Some (instances v' !! m_fs mo) ∧
    i_op node = Some TmpfsOps ∧ st_mode (i_stat node) = mode ∧ st_size (i_stat node) = 0 ∧ i_mem node = Some (fresh (dom (objects (mem v)))).
Proof.
  intros Hs Hn Hr Hm Hmo [inst Hinst] Hde Hc. assert (path_ok v P) as HP by by exists m, mo.
  assert (create (S fuel) me None n mode 0 v = create (S fuel) me (Some P) n mode 0 v) as ->.
  { destruct (normalise_name n Hn) as [En Ea]. destruct normalise_nil as [Ht Ha]. unfold create, new_place. rewrite En. cbn [Z.eqb]. cbn [resolve].
    rewrite En, Ea, (proj2 (split_name n Hn)), normalise_idem, Ha. unfold get_root. by rewrite Hr. }
  unfold create. rewrite (proj1 (normalise_name n Hn)). cbn [Z.eqb].
  rewrite (new_place_name fuel me v P n de) by done. cbn [mbind outcome_bind]. unfold mount_of. rewrite Hm.
  cbn [deref mbind outcome_bind]. rewrite Hmo. cbn [deref mbind outcome_bind]. unfold dentry_of at 1. rewrite Hde.
  cbn [deref mbind outcome_bind].
  set (i := fresh (dom (inodes v))). assert (inodes v !! i = None) as Hi by apply not_elem_of_dom, is_fresh.
  unfold fs_create, take_ino. rewrite Hinst. cbn [deref mbind outcome_bind]. unfold new_tmpfs_inode. cbn [put_instance set_mem inodes]. fold i.
  rewrite (proj1 (split_name n Hn)), (proj1 (normalise_name n Hn)). cbn [mbind outcome_bind].
  set (v1 := put_inode i _ _). set (node := mk_inode _ _ _) in v1.
  assert (vfs_ok v1) as Hv1 by (eapply vfs_ok_inodes; [exact Hs|done..|intros j Hj; apply lookup_insert_is_Some'; by right]).
  destruct (finish_spec v1 P n EmptyString i Hv1) as (d & v' & E & Hs' & Hadd & Ei); [by eexists|simpl; rewrite lookup_insert_eq; by eexists|].
  exists d, i, node, v'. split; [by rewrite <-Hm|]. destruct (finish_rest _ _ _ _ _ _ _ E) as [Em Einst].
  split; [done|]. split.
  { destruct Hadd as (de' & Hde' & Hd & Ed & Emt & Hino & _). exists de'. split_and!; try done. intros j Hj. rewrite Ei. apply lookup_insert_is_Some'. by right. }
  split; [done|]. split; [exact Ei|]. split; [exact Em|]. split; [|done]. rewrite Einst. simpl. rewrite lookup_insert_eq. by eexists.
Qed.

(** ** The state between two entries *)
Implicit Types s : fsys St.
Definition name_of (e : entry) : string := string_of_bytes (en_name e).
Definition children s (P : path) : gmap string Z := default ∅ (d_children <$> dentries (fvfs s) !! dent P).
(** The caller's root [P] is a directory of a mounted tmpfs. *)
Record ready s (me : caller) (P : path) : Prop := {
  rd_vfs : vfs_ok (fvfs s);
  rd_mem : obj_inv (mem (fvfs s));
  rd_root : c_root me = Some P;
  rd_dir : is_Some (dentries (fvfs s) !! dent P);
  rd_place : ∃ m mo, mnt P = Some m ∧ mounts (fvfs s) !! m = Some mo ∧ is_Some (instances (fvfs s) !! m_fs mo) }.
(** The file of an entry: its name leads to an inode with the mode, the time and the data of
    the entry. *)
Definition file_at s (P : path) (e : entry) (d i o : Z) (node : inode) : Prop :=
  children s P !! name_of e = Some d ∧ d ≠ dent P ∧
  dentries (fvfs s) !! d = Some (mk_dentry (name_of e) EmptyString i (Some (dent P)) ∅ []) ∧
  inodes (fvfs s) !! i = Some node ∧ i_op node = Some TmpfsOps ∧
  st_mode (i_stat node) = Z.lor (en_mode e) s_ifreg ∧ st_mtim (i_stat node) = en_mtime e * 1000000000 ∧
  file_rep s (mk_path (mnt P) d) i o (en_data e).
Definition unpacked s (P : path) (e : entry) : Prop := ∃ d i o node, file_at s P e d i o node.

(** Files whose dentry, inode and object are as before are still there. *)
Lemma unpacked_keep s s' P e : unpacked s P e → (∀ d, children s P !! name_of e = Some d → children s' P !! name_of e = Some d) →
  (∀ d de, d ≠ dent P → dentries (fvfs s) !! d = Some de → dentries (fvfs s') !! d = Some de) →
  (∀ i n, inodes (fvfs s) !! i = Some n → inodes (fvfs s') !! i = Some n) →
  obj_inv (mem (fvfs s')) → (∀ o, is_Some (objects (mem (fvfs s)) !! o) → is_Some (objects (mem (fvfs s')) !! o)) →
  (∀ o off, is_Some (objects (mem (fvfs s)) !! o) → byte_at (mem (fvfs s')) o off = byte_at (mem (fvfs s)) o off) → unpacked s' P e.
Proof.
  intros (d & i & o & node & Hc & Hd & Hde & Hi & Hop & Hmode & Hmt & Hr) Kc Kd Ki Km Ko Kb. exists d, i, o, node.
  split; [by apply Kc|]. split; [done|]. split; [by apply Kd|]. split; [by apply Ki|]. do 3 (split; [done|]).
  destruct Hr as [(n & Hn & Hm & Hsz) Hmem Hobj Hb Hs]. split; [|done|by apply Ko| |done].
  - exists n. split; [|done]. unfold inode_ref, dentry_of in *. cbn [dent] in *. rewrite Hde in Hn. rewrite (Kd d _ Hd Hde). cbn [deref mbind outcome_bind d_inode] in *.
    rewrite Hi in Hn. by rewrite (Ki _ _ Hi).
  - intros off Hoff. rewrite Kb by done. by apply Hb.
Qed.

(** What [tmpfs_write] does not touch. *)
Lemma tmpfs_write_keeps p l s s' i o c r : file_rep s p i o c → Z.of_nat (length l) < 2 ^ 62 → tmpfs_write p 0 l s = Done (r, s') →
  instances (fvfs s') = instances (fvfs s) ∧ (∀ o', is_Some (objects (mem (fvfs s)) !! o') → is_Some (objects (mem (fvfs s')) !! o')) ∧
  ∀ n, inodes (fvfs s) !! i = Some n → ∃ n', inodes (fvfs s') !! i = Some n' ∧ i_op n' = i_op n ∧ st_mode (i_stat n') = st_mode (i_stat n) ∧ i_mem n' = i_mem n.
Proof.
  intros [(n & Hn & Ho & Hsz) Hmem Hobj _ _] Hl. unfold tmpfs_write. pose proof Hn as Hn'. apply inode_ref_inv in Hn' as (_ & _ & _ & Hin).
  rewrite Hn. cbn [mbind outcome_bind]. rewrite Ho. cbn [deref mbind outcome_bind].
  destruct (write_spec (mem (fvfs s)) o 0 l Hmem Hobj) as [->|(m & -> & _ & Hex & _)]; [lia|lia|done|]. cbn [mbind outcome_bind]. intros [= <- <-].
  case_test; (split; [done|split; [exact Hex|]]); intros n0 Hn0; simpl; rewrite ?lookup_insert_eq; simplify_eq; (eexists; split; [done|]); done.
Qed.

(** ** One file *)
Definition regular (e : entry) : Prop := (en_type e = ty_regular ∨ en_type e = ty_aregular) ∧ plain (name_of e).

(** The time of an inode changes. *)
Lemma put_mtim_rep s p i o c n t : file_rep s p i o c → inodes (fvfs s) !! i = Some n →
  file_rep (put_stat i n (set_mtim t (i_stat n)) s) p i o c.
Proof.
  intros [(n0 & Hn & Ho & Hsz) Hmem Hobj Hb Hs] Hi. split; try done.
  pose proof Hn as Hn'. apply inode_ref_inv in Hn' as (d & Hd & Hdi & Hi'). simplify_eq.
  eexists. split; [unfold inode_ref, dentry_of; simpl; rewrite Hd; cbn [deref mbind outcome_bind]; by rewrite lookup_insert_eq|by split].
Qed.
Lemma added_children v v' p n sym i d : entry_added v p n sym i d v' →
  d_children <$> dentries v' !! p = (λ de, <[n := d]> (d_children de)) <$> dentries v !! p.
Proof. intros (de & Hde & _ & E & _). rewrite E, lookup_insert_eq, Hde. done. Qed.
Lemma file_added_ready v' n d i P s s' me m mo : vfs_ok v' → dentries (fvfs s') = dentries v' → mounts (fvfs s') = mounts v' →
  (∀ j, is_Some (inodes v' !! j) → is_Some (inodes (fvfs s') !! j)) → obj_inv (mem (fvfs s')) → instances (fvfs s') = instances v' →
  entry_added (fvfs s) (dent P) n EmptyString i d v' → c_root me = Some P → mnt P = Some m → mounts (fvfs s) !! m = Some mo → is_Some (instances v' !! m_fs mo) →
  ready s' me P.
Proof.
  intros Hv' Ed Em Ei Ho Einst (de & Hde & Hd & E & Em' & _) Hr HP Hmo Hinst. split; [by eapply vfs_ok_inodes|done|done| |].
  - rewrite Ed, E, lookup_insert_eq. by eexists.
  - exists m, mo. by rewrite Em, Em', Einst.
Qed.
Lemma not_dot_slash n : plain n → n ≠ "./"%string.
Proof. intros (_ & _ & _ & Hn) ->. vm_compute in Hn. discriminate. Qed.

Lemma extract_regular fuel me s P e : ready s me P → regular e → en_size e < 2 ^ 62 → children s P !! name_of e = None →
  extract_entry (S fuel) me e s = Panic ∨
  ∃ s', extract_entry (S fuel) me e s = Done s' ∧ ready s' me P ∧ unpacked s' P e ∧
    (∀ n, n ≠ name_of e → children s' P !! n = children s P !! n) ∧
    ∀ e', name_of e' ≠ name_of e → unpacked s P e' → unpacked s' P e'.
Proof.
  intros [Hv Hm Hroot [de Hde] (m & mo & HmP & Hmo & Hinst)] (Hty & Hn) Hsz Hfree.
  unfold children in Hfree. rewrite Hde in Hfree. simpl in Hfree.
  destruct (create_in_root (fvfs s) me fuel P (name_of e) (Z.lor (en_mode e) s_ifreg) m mo de) as (d & i & node & v' & E & Hv' & Hadd & Hi & Ei & Em & Hinst' & Hop & Hmode & Hsize & Hobj); try done.
  unfold extract_entry, extract. fold (name_of e). rewrite bool_decide_eq_false_2 by by apply not_dot_slash.
  assert ((en_type e =? ty_regular) || (en_type e =? ty_aregular) = true) as -> by by destruct Hty as [-> | ->].
  unfold extract_file, on_vfs. rewrite E. cbn [mbind outcome_bind].
  set (q := mk_path (mnt P) d). set (o := fresh (dom (objects (mem (fvfs s))))) in *.
  unfold file_create. set (f := fresh _). set (s1 := put_file f _ _).
  assert (dentries v' !! d = Some (mk_dentry (name_of e) EmptyString i (Some (dent P)) ∅ []) ∧ d ≠ dent P) as [Hd HdP].
  { pose proof Hadd as (de' & Hde' & Hd & Ed & _). split; [|congruence]. rewrite Ed, lookup_insert_ne, lookup_insert_eq; [done|congruence]. }
  assert (inode_ref q s1 = Done (i, node)) as Href.
  { unfold inode_ref, dentry_of. cbn [q dent s1 put_file fvfs set_vfs]. rewrite Hd. cbn [deref mbind outcome_bind d_inode]. rewrite Ei, lookup_insert_eq. done. }
  assert (file_rep s1 q i o []) as Hrep.
  { split; [by exists node|cbn [s1 put_file fvfs set_vfs]; rewrite Em; by apply with_object_inv| | |done].
    - cbn [s1 put_file fvfs set_vfs]. rewrite Em. simpl. fold o. rewrite lookup_insert_eq. by eexists.
    - intros off Hoff. cbn [s1 put_file fvfs set_vfs]. rewrite Em, with_object_bytes. unfold byte_at. by assert (objects (mem (fvfs s)) !! o = None) as -> by apply fresh_object. }
  assert (file_pwrite f 0 (en_data e) s1 = tmpfs_write q 0 (en_data e) s1) as ->.
  { unfold file_pwrite, file_of, get_ops. cbn [s1 put_file files]. rewrite lookup_insert_eq. cbn [deref mbind outcome_bind f_path]. rewrite Href. cbn [mbind outcome_bind]. by rewrite Hop. }
  assert (Z.of_nat (length (en_data e)) < 2 ^ 62) as Hlen by done.
  destruct (tmpfs_write_spec s1 q i o [] 0 (en_data e) Hrep) as [E2|(s2 & E2 & Hrep2 & Honly & _)]; [lia|..]; change (Z.of_nat 0) with 0 in E2; rewrite E2; [by left|right].
  destruct (tmpfs_write_keeps _ _ _ _ _ _ _ _ Hrep Hlen E2) as (Einst & Hobjs & Hnode).
  destruct (Hnode node) as (node2 & Hnode2 & Hop2 & Hmode2 & Hmem2); [cbn [s1 put_file fvfs set_vfs]; rewrite Ei; apply lookup_insert_eq|].
  destruct Honly as (Ed2 & Emt2 & Ei2 & _ & Eb2). cbn [mbind outcome_bind]. unfold en_size at 1. rewrite s64_small, Z.eqb_refl by lia.
  unfold dentry_inode, dentry_of. cbn [q dent]. rewrite Ed2. cbn [s1 put_file fvfs set_vfs]. rewrite Hd. cbn [deref mbind outcome_bind d_inode]. rewrite Hnode2. cbn [deref mbind outcome_bind].
  unfold splice in Hrep2. rewrite drop_nil in Hrep2. cbn in Hrep2. rewrite app_nil_r in Hrep2.
  pose proof (put_mtim_rep s2 q i o (en_data e) node2 (en_mtime e * 1000000000) Hrep2 Hnode2) as Hrep3.
  set (node3 := mk_inode (i_op node2) (set_mtim (en_mtime e * 1000000000) (i_stat node2)) (i_mem node2)).
  set (s3 := put_stat _ _ _ _) in *. exists s3. split; [done|].
  assert (dentries (fvfs s3) = dentries v') as Ed3 by done. assert (mounts (fvfs s3) = mounts v') as Emt3 by done.
  assert (∀ j n, inodes (fvfs s) !! j = Some n → inodes (fvfs s3) !! j = Some n) as Kin.
  { intros j n Hj. assert (j ≠ i) as Hji by congruence. simpl. rewrite lookup_insert_ne by done. rewrite Ei2 by done.
    cbn [s1 put_file fvfs set_vfs]. by rewrite Ei, lookup_insert_ne. }
  assert (objects (mem (fvfs s)) !! o = None) as Hofresh by apply fresh_object.
  assert (children s3 P = <[name_of e := d]> (d_children de)) as Hch.
  { unfold children. rewrite Ed3, (added_children _ _ _ _ _ _ _ Hadd), Hde. done. }
  assert (children s P = d_children de) as Hch0 by (unfold children; by rewrite Hde).
  split; [|split; [|split]].
  - eapply (file_added_ready v' (name_of e) d i P s s3 me m mo); try done; [|apply Hrep3].
    intros j Hj. simpl. apply lookup_insert_is_Some. destruct (decide (i = j)); [by left|right]. split; [done|]. rewrite Ei2 by done. exact Hj.
  - exists d, i, o, node3. split; [by rewrite Hch, lookup_insert_eq|]. split; [done|]. split; [by rewrite Ed3|]. split; [simpl; apply lookup_insert_eq|].
    split; [by rewrite <-Hop, <-Hop2|]. split; [simpl; congruence|]. done.
  - intros n Hne. by rewrite Hch, Hch0, lookup_insert_ne.
  - intros e' Hne Hu. eapply unpacked_keep; [exact Hu| | |exact Kin|apply Hrep3| |].
    + intros d' Hd'. rewrite Hch, lookup_insert_ne by done. by rewrite <-Hch0.
    + intros d' de' Hne' Hd'. rewrite Ed3. by eapply entry_added_frame.
    + intros o' Ho'. apply Hobjs. cbn [s1 put_file fvfs set_vfs]. rewrite Em. simpl. apply lookup_insert_is_Some'. by right.
    + intros o' off Ho'. assert (o' ≠ o) as Hoo by (intros ->; rewrite Hofresh in Ho'; by destruct Ho').
      change (byte_at (mem (fvfs s2)) o' off = byte_at (mem (fvfs s)) o' off). rewrite Eb2 by done. cbn [s1 put_file fvfs set_vfs]. by rewrite Em, with_object_bytes.
Qed.

(** ** All files *)
Lemma file_resolves fuel me s P e d i o node : ready s me P → plain (name_of e) → file_at s P e d i o node →
  resolve (S fuel) me None (name_of e) (fvfs s) = Done (Value (mk_res P (mk_path (mnt P) d)), fvfs s).
Proof.
  intros [_ _ Hr [de Hde] (m & mo & HmP & Hmo & _)] Hn (Hc & _ & Hd & _). destruct (normalise_name _ Hn) as [En Ea].
  assert (resolve (S fuel) me None (name_of e) (fvfs s) = resolve (S fuel) me (Some P) (name_of e) (fvfs s)) as ->.
  { cbn [resolve]. rewrite En, Ea. unfold get_root. by rewrite Hr. }
  apply resolve_found; [done|by exists m, mo|]. exists de, d. split; [done|]. unfold children in Hc. rewrite Hde in Hc. split; [done|].
  cbn [enter_mounts]. unfold dentry_of. by rewrite Hd.
Qed.
Lemma unpack_files fuel me P es : ∀ s, Forall regular es → Forall (λ e, en_size e < 2 ^ 62) es → NoDup (name_of <$> es) → ready s me P →
  Forall (λ e, children s P !! name_of e = None) es →
  unpack (S fuel) me es s = Panic ∨
  ∃ s', unpack (S fuel) me es s = Done s' ∧ ready s' me P ∧ Forall (unpacked s' P) es ∧
    ∀ e, name_of e ∉ name_of <$> es → unpacked s P e → unpacked s' P e.
Proof.
  induction es as [|e es IH]; intros s Hreg Hsz Hnd Hr Hfree; [right; exists s; by split_and!|].
  apply Forall_cons in Hreg as [He Hreg]. apply Forall_cons in Hsz as [Hz Hsz]. apply Forall_cons in Hfree as [Hf Hfree].
  rewrite fmap_cons in Hnd. apply NoDup_cons in Hnd as [Hnew Hnd]. cbn [unpack].
  destruct (extract_regular fuel me s P e Hr He Hz Hf) as [->|(s1 & -> & Hr1 & Hu1 & Hc1 & Hk1)]; [by left|]. cbn [mbind outcome_bind].
  assert (∀ e', e' ∈ es → name_of e' ≠ name_of e) as Hne by (intros e' Hin Heq; apply Hnew; rewrite <-Heq; by apply list_elem_of_fmap_2).
  destruct (IH s1 Hreg Hsz Hnd Hr1) as [->|(s2 & -> & Hr2 & Hu2 & Hk2)]; [|by left|].
  { apply Forall_forall. intros e' Hin. rewrite Hc1 by by apply Hne. by eapply Forall_forall in Hfree. }
  right. exists s2. split; [done|]. split; [done|]. split; [constructor; [by apply Hk2|done]|].
  intros e' Hn Hu. rewrite fmap_cons, not_elem_of_cons in Hn. destruct Hn. apply Hk2; [done|]. by apply Hk1.
Qed.

(** C24: an archive of regular files with different names that are not yet in the root directory
    is unpacked completely: unless the kernel panics, as it does when physical memory is
    exhausted, every name leads to a file with the data, the mode and the time of its entry. *)
Theorem load_files fuel me P steps es tail m s : Forall entry_ok es → Forall regular es → NoDup (name_of <$> es) → ready s me P →
  Forall (λ e, children s P !! name_of e = None) es →
  Z.of_nat (length (archive es ++ tail)) < 2 ^ 62 → get_bytes tail hd_magic 6 = Done m → m ≠ magic → (length es < steps)%nat →
  load (S fuel) me steps (archive es ++ tail) 0 s = Panic ∨
  ∃ s', load (S fuel) me steps (archive es ++ tail) 0 s = Done s' ∧ ready s' me P ∧
    ∀ e, e ∈ es → ∃ d i o node, file_at s' P e d i o node ∧
      resolve (S fuel) me None (name_of e) (fvfs s') = Done (Value (mk_res P (mk_path (mnt P) d)), fvfs s').
Proof.
  intros Hok Hreg Hnd Hr Hfree Hlen Ht Hm Hsteps. erewrite (load_archive_from (S fuel) me es steps _ []) by done.
  destruct (unpack_files fuel me P es s) as [E|(s' & E & Hr' & Hu & _)]; try done; [|by left|].
  - eapply Forall_impl; [exact Hok|]. intros e [_ _ _ _ Hz _ _]. lia.
  - right. exists s'. split; [done|]. split; [done|]. intros e He. rewrite Forall_forall in Hu, Hreg.
    destruct (Hu e He) as (d & i & o & node & Hf). exists d, i, o, node. split; [done|]. eapply file_resolves; [done|by apply Hreg|done].
Qed.
End files.

(** ** Example: an archive of two files *)
Section example.
Definition ex_text (n d : list Z) (mtime : Z) : entry :=
  mk_entry n 0x1A4 (replicate 16 48) mtime (replicate 8 48) ty_regular [] (replicate 66 0) 0 0 (replicate 167 0) d.
Definition ex_entries : list entry := [ex_text [120] [104; 105] 5; ex_text [121] [] 6].
Definition ex_tail : list Z := replicate 1024 0.
Definition ex_before : fsys Z := mk_fsys ex_vfs ∅ ∅ 0 1 [].

Lemma ex_entries_ok : Forall entry_ok ex_entries.
Proof.
  repeat constructor; simpl; try lia; try done; (unfold en_size; simpl; lia).
Qed.
Lemma ex_ready : ready ex_before ex_me ex_root.
Proof.
  split.
  - exact ex_vfs_ok.
  - apply empty_objects_inv. vm_compute. reflexivity.
  - reflexivity.
  - eexists. vm_compute. reflexivity.
  - eexists _, _. split; [vm_compute; reflexivity|]. split; [vm_compute; reflexivity|]. eexists. vm_compute. reflexivity.
Qed.
Lemma ex_entries_regular : Forall regular ex_entries.
Proof.
  assert (∀ n, bool_decide (n ≠ EmptyString) && bool_decide (n ≠ "."%string) && bool_decide (n ≠ ".."%string) && no_slash n = true → plain n) as Hp by apply ex_plain.
  constructor; [|constructor; [|constructor]]; (split; [by left|apply Hp; vm_compute; reflexivity]).
Qed.
Definition ex_unpacked : outcome (fsys Z) := load 9 ex_me 3 (archive ex_entries ++ ex_tail) 0 ex_before.
Lemma load_files_witness : ∃ s', ex_unpacked = Done s' ∧ ready s' ex_me ex_root ∧
  ∀ e, e ∈ ex_entries → ∃ d i o node, file_at s' ex_root e d i o node ∧
    resolve 9 ex_me None (name_of e) (fvfs s') = Done (Value (mk_res ex_root (mk_path (mnt ex_root) d)), fvfs s').
Proof.
  destruct (load_files 8 ex_me ex_root 3 ex_entries ex_tail (replicate 6 0) ex_before ex_entries_ok ex_entries_regular) as [E|H].
  - apply (bool_decide_eq_true_1 (NoDup (name_of <$> ex_entries))). vm_compute. reflexivity.
  - exact ex_ready.
  - repeat constructor; vm_compute; reflexivity.
  - vm_compute. reflexivity.
  - vm_compute. reflexivity.
  - discriminate.
  - simpl. lia.
  - assert (match ex_unpacked with Panic => false | _ => true end = true) as Ep by (vm_compute; reflexivity). unfold ex_unpacked in Ep. rewrite E in Ep. discriminate.
  - exact H.
Defined.
Lemma load_archive_witness : load 9 ex_me 3 (archive ex_entries ++ ex_tail) 0 ex_before = unpack 9 ex_me ex_entries ex_before.
Proof.
  apply (load_archive 9 ex_me ex_entries 3 ex_tail (replicate 6 0) ex_before ex_entries_ok); [vm_compute; reflexivity|vm_compute; reflexivity|discriminate|simpl; lia].
Defined.
End example.
