(* ===== verification/Symbols.v ===== *)
(** Symbols of the kernel and its modules (kernel/source/system/bin/elf/symbols.cpp), and the
    part of the generator that writes the tables of the kernel's symbols
    (dependencies/kallsyms/kallsyms.c).  The properties are in [SymbolsSpec.v]. *)

From Stdlib Require Import Strings.Ascii.
From S2P Require Import Prelude Math LibC SysVfs.
#[local] Open Scope Z_scope.

(** * The tables *)
Record kallsyms := mk_kallsyms
  { offsets : list Z; names : list Z; num_syms : Z; relative_base : Z; token_table : list Z; token_index : list Z;
    markers : list Z; seqs_of_names : list Z; skernel : Z; ekernel : Z }.
(** An element of an array. *)
Definition at_index (l : list Z) (i : Z) : outcome Z := if i <? 0 then Crash else deref (l !! Z.to_nat i).

Section kallsyms.
Context (ks : kallsyms) (KSYM_NAME_LEN : Z).

Definition in_kernel (addr : Z) : bool := (skernel ks <=? addr) && (addr <? ekernel ks).
Definition sym_addr (idx : Z) : outcome Z := o ← at_index (offsets ks) idx; Done (w64 (relative_base ks + w32 o)).
Definition sym_seq (idx : Z) : outcome Z :=
  a ← at_index (seqs_of_names ks) (3 * idx);
  b ← at_index (seqs_of_names ks) (3 * idx + 1);
  c ← at_index (seqs_of_names ks) (3 * idx + 2);
  Done (Z.lor (Z.shiftl (Z.lor (Z.shiftl a 8) b) 8) c).

Fixpoint skip_names (n : nat) (name : Z) : outcome Z :=
  match n with
  | O => Done name
  | S n =>
      len ← at_index (names ks) name;
      len ← (if Z.land len 0x80 =? 0 then Done len else
             b ← at_index (names ks) (name + 1); Done (Z.lor (Z.land len 0x7F) (Z.shiftl b 7) + 1));
      skip_names n (name + len + 1)
  end.
Definition sym_offset (pos : Z) : outcome Z :=
  name ← at_index (markers ks) (Z.shiftr pos 8);
  skip_names (Z.to_nat (Z.land pos 0xFF)) name.

(** The characters of a token go to [out], which has room for [maxlen] more, but for the very
    first one; the result says whether the room was exhausted. *)
Fixpoint copy_token (tptr : list Z) (maxlen : Z) (skipped_first : bool) (out : list Z) : outcome (bool * Z * bool * list Z) :=
  match tptr with
  | [] => Crash
  | c :: tptr =>
      if c =? 0 then Done (false, maxlen, skipped_first, out) else
      if skipped_first then
        if maxlen <=? 1 then Done (true, maxlen, skipped_first, out) else copy_token tptr (maxlen - 1) true (out ++ [c])
      else copy_token tptr maxlen true out
  end.
Fixpoint copy_tokens (len : nat) (data maxlen : Z) (skipped_first : bool) (out : list Z) : outcome (Z * list Z) :=
  match len with
  | O => Done (maxlen, out)
  | S len =>
      d ← at_index (names ks) data;
      i ← at_index (token_index ks) d;
      '(full, maxlen, skipped_first, out) ← copy_token (drop (Z.to_nat i) (token_table ks)) maxlen skipped_first out;
      if (full : bool) then Done (maxlen, out) else copy_tokens len (data + 1) maxlen skipped_first out
  end.
(** The new contents of [namebuf]. *)
Definition expand_symbol (off : Z) (namebuf : list Z) : outcome (list Z) :=
  len ← at_index (names ks) off;
  '(len, data) ← (if Z.land len 0x80 =? 0 then Done (len, off + 1) else
                  b ← at_index (names ks) (off + 1); Done (Z.lor (Z.land len 0x7F) (Z.shiftl b 7), off + 2));
  let maxlen := Z.min (Z.of_nat (length namebuf)) KSYM_NAME_LEN in
  '(maxlen, result) ← copy_tokens (Z.to_nat len) data maxlen false [];
  let result := if maxlen =? 0 then result else result ++ [0] in
  Done (result ++ drop (length result) namebuf).

(** ** By address *)
Fixpoint find_low (fuel : nat) (addr low high : Z) : outcome Z :=
  match fuel with
  | O => NoFuel
  | S fuel =>
      if 1 <? high - low then
        let mid := low + (high - low) / 2 in
        a ← sym_addr mid;
        if a <=? addr then find_low fuel addr mid high else find_low fuel addr low mid
      else Done low
  end.
Fixpoint first_alias (low : nat) : outcome Z :=
  match low with
  | O => Done 0
  | S l =>
      a ← sym_addr (Z.of_nat l); b ← sym_addr (Z.of_nat low);
      if a =? b then first_alias l else Done (Z.of_nat low)
  end.
(** The first of the [n] symbols from [i] whose address is above [sym_start], or 0. *)
Fixpoint find_end (n : nat) (i sym_start : Z) : outcome Z :=
  match n with
  | O => Done 0
  | S n => a ← sym_addr i; if sym_start <? a then Done a else find_end n (i + 1) sym_start
  end.
(** [kallsyms::lookup] by address: the offset in the symbol, and [namebuf] *)
Definition lookup_addr (fuel : nat) (addr : Z) (namebuf : list Z) : outcome (option Z * list Z) :=
  if negb (in_kernel addr) then Done (None, namebuf) else
  low ← find_low fuel addr 0 (num_syms ks);
  low ← first_alias (Z.to_nat low);
  sym_start ← sym_addr low;
  sym_end ← find_end (Z.to_nat (num_syms ks - (low + 1))) (low + 1) sym_start;
  if sym_end =? 0 then Done (None, namebuf) else
  off ← sym_offset low;
  namebuf ← expand_symbol off namebuf;
  Done (Some (w64 (addr - sym_start)), namebuf).

(** ** By name *)
(** [std::string_view::compare] of bytes *)
Fixpoint compare_names (a b : list Z) : comparison :=
  match a, b with
  | [], [] => Eq
  | [], _ => Lt
  | _, [] => Gt
  | x :: a, y :: b => match Z.compare x y with Eq => compare_names a b | c => c end
  end.
Fixpoint c_string (buf : list Z) : outcome (list Z) :=
  match buf with
  | [] => Crash
  | c :: buf => if c =? 0 then Done [] else r ← c_string buf; Done (c :: r)
  end.
(** The name of the [mid]-th symbol in the order of names, with the buffer it is read into. *)
Definition name_at (mid : Z) (namebuf : list Z) : outcome (list Z * list Z) :=
  seq ← sym_seq mid;
  off ← sym_offset seq;
  namebuf ← expand_symbol off namebuf;
  r ← c_string namebuf;
  Done (r, namebuf).
(** [low <= high] on 64-bit words; [None] when the loop ends without a match. *)
Fixpoint search_name (fuel : nat) (name : list Z) (low high : Z) (namebuf : list Z) : outcome (option Z * list Z) :=
  match fuel with
  | O => NoFuel
  | S fuel =>
      if low <=? high then
        let mid := w64 (low + (high - low) / 2) in
        '(r, namebuf) ← name_at mid namebuf;
        match compare_names name r with
        | Gt => search_name fuel name (w64 (mid + 1)) high namebuf
        | Lt => search_name fuel name low (w64 (mid - 1)) namebuf
        | Eq => Done (Some mid, namebuf)
        end
      else Done (None, namebuf)
  end.
Fixpoint first_name (low : nat) (name namebuf : list Z) : outcome Z :=
  match low with
  | O => Done 0
  | S l =>
      '(r, namebuf) ← name_at (Z.of_nat l) namebuf;
      match compare_names name r with Eq => first_name l name namebuf | _ => Done (Z.of_nat low) end
  end.
Definition not_found : Z := 2 ^ 64 - 1.
(** [kallsyms::lookup] by name *)
Definition klookup (fuel : nat) (name : list Z) : outcome Z :=
  '(mid, namebuf) ← search_name fuel name 0 (w64 (num_syms ks - 1)) (replicate (Z.to_nat KSYM_NAME_LEN) 0);
  match mid with
  | None => Done not_found
  | Some mid =>
      low ← first_name (Z.to_nat mid) name namebuf;
      seq ← sym_seq low;
      sym_addr seq
  end.

(** * Symbols of modules *)
Record symbol := mk_symbol { s_name : list Z; s_address : Z; s_size : Z }.
#[export] Instance symbol_eq_dec : EqDecision symbol.
Proof. solve_decision. Defined.
Definition empty : symbol := mk_symbol [] not_found 0.
(** [symbol_table] is a set of symbols that is ordered by address. *)
Definition symbol_table : Type := list symbol.
Fixpoint emplace (x : symbol) (t : symbol_table) : symbol_table :=
  match t with
  | [] => [x]
  | y :: t => if s_address x <? s_address y then x :: y :: t else if s_address x =? s_address y then y :: t else y :: emplace x t
  end.

Definition search_in (addr : Z) (table : symbol_table) : symbol * Z :=
  match list_find (λ s, (s_address s <=? addr) && (addr <=? w64 (s_address s + s_size s)) = true) table with
  | Some (_, s) => (s, w64 (addr - s_address s))
  | None => (empty, not_found)
  end.
Definition copy_name (name namebuf : list Z) : list Z :=
  if 1 <? Z.of_nat (length namebuf)
  then let l := take (length namebuf - 1) name in l ++ [0] ++ drop (S (length l)) namebuf
  else namebuf.
Fixpoint search_modules (addr : Z) (modules : list (string * symbol_table)) (namebuf : list Z) : option (Z * string) * list Z :=
  match modules with
  | [] => (None, namebuf)
  | (name, table) :: modules =>
      let '(sym, offset) := search_in addr table in
      if bool_decide (sym = empty) then search_modules addr modules namebuf
      else (Some (offset, name), copy_name (s_name sym) namebuf)
  end.
(** [sym::lookup] *)
Definition lookup_symbol (fuel : nat) (modules : list (string * symbol_table)) (addr : Z) (namebuf : list Z)
    : outcome (option (Z * string) * list Z) :=
  '(ret, namebuf) ← lookup_addr fuel addr namebuf;
  match ret with
  | Some offset => Done (Some (offset, "kernel"%string), namebuf)
  | None => Done (search_modules addr modules namebuf)
  end.
End kallsyms.

(** [get_symbols]: entries of [Elf64_Sym] in memory, whose names are read with [fuel]. *)
Fixpoint ld_bytes (n : nat) (p : Z) (m : bytemem) : outcome (list Z) :=
  match n with O => Done [] | S n => c ← ld p m; r ← ld_bytes n (p + 1) m; Done (c :: r) end.
Fixpoint ld_string (fuel : nat) (p : Z) (m : bytemem) : outcome (list Z) :=
  match fuel with
  | O => NoFuel
  | S fuel => c ← ld p m; if c =? 0 then Done [] else r ← ld_string fuel (p + 1) m; Done (c :: r)
  end.
Fixpoint get_symbols_loop (n fuel : nat) (strtab symtab syment offset i : Z) (m : bytemem) (symbols : symbol_table) : outcome symbol_table :=
  match n with
  | O => Done symbols
  | S n =>
      sym ← ld_bytes 24 (symtab + i * syment) m;
      name ← ld_string fuel (strtab + of_le (take 4 sym)) m;
      if (of_le (take 2 (drop 6 sym)) =? 0) || bool_decide (name = []) then get_symbols_loop n fuel strtab symtab syment offset (i + 1) m symbols else
      let value := w64 (offset + of_le (take 8 (drop 8 sym))) in
      let size := of_le (take 8 (drop 16 sym)) in
      get_symbols_loop n fuel strtab symtab syment offset (i + 1) m (emplace (mk_symbol name value size) symbols)
  end.
Definition get_symbols (fuel : nat) (strtab symtab syment symsz offset : Z) (m : bytemem) : outcome symbol_table :=
  if syment =? 0 then Crash else
  get_symbols_loop (Z.to_nat (symsz / syment)) fuel strtab symtab syment offset 0 m [].

(** * The generator: [write_src] for symbols in the order of their addresses

    A symbol has its address and the codes of its tokens; [tokens] are the strings of the 256
    codes, [order] the symbols in the order of names. *)
Record sym_entry := mk_sym_entry { e_addr : Z; e_sym : list Z }.
Definition write_name (e : sym_entry) : list Z :=
  let len := Z.of_nat (length (e_sym e)) in
  (if len <=? 0x7F then [len] else [Z.lor (Z.land len 0x7F) 0x80; Z.land (Z.shiftr len 7) 0x7F]) ++ e_sym e.
Fixpoint write_markers (i off : Z) (table : list sym_entry) : list Z :=
  match table with
  | [] => []
  | e :: table =>
      (if Z.land i 0xFF =? 0 then [off] else []) ++ write_markers (i + 1) (off + Z.of_nat (length (write_name e))) table
  end.
Fixpoint write_index (off : Z) (tokens : list (list Z)) : list Z :=
  match tokens with [] => [] | t :: tokens => off :: write_index (off + Z.of_nat (length t) + 1) tokens end.
Definition write_seq (i : Z) : list Z := [Z.land (Z.shiftr i 16) 0xFF; Z.land (Z.shiftr i 8) 0xFF; Z.land i 0xFF].
Definition write_tables (table : list sym_entry) (tokens : list (list Z)) (order : list Z) (relative_base skernel ekernel : Z) : kallsyms :=
  mk_kallsyms ((λ e, s32 (e_addr e - relative_base)) <$> table) (table ≫= write_name) (Z.of_nat (length table)) relative_base
    (tokens ≫= λ t, t ++ [0]) (write_index 0 tokens) (write_markers 0 0 table) (order ≫= write_seq) skernel ekernel.
(** The generator fails for a symbol without a name, for one that is too long and for one that
    is too far from the base. *)
Definition uint_max : Z := 0xFFFFFFFF.
Definition writable (relative_base : Z) (e : sym_entry) : bool :=
  let len := Z.of_nat (length (e_sym e)) in
  let offset := s64 (e_addr e - relative_base) in
  negb (len =? 0) && (len <=? 0x3FFF) && (0 <=? offset) && (offset <=? uint_max).
Definition write_src (table : list sym_entry) (tokens : list (list Z)) (order : list Z) (relative_base skernel ekernel : Z) : option kallsyms :=
  if forallb (writable relative_base) table then Some (write_tables table tokens order relative_base skernel ekernel) else None.
