(* ===== verification/SymbolsSpec.v ===== *)
(** Looking up symbols: the tables are read the way the generator writes them, and the two
    binary searches find what a linear search finds. *)

From S2P Require Import Prelude Math Symbols.
#[local] Open Scope Z_scope.

(** * Arrays *)
Lemma at_index_app pre x post i : i = Z.of_nat (length pre) → at_index (pre ++ x :: post) i = Done x.
Proof.
  intros ->. unfold at_index. destruct (Z.ltb_spec (Z.of_nat (length pre)) 0); [lia|]. by rewrite Nat2Z.id, list_lookup_middle.
Qed.
Lemma at_index_lookup l i x : 0 ≤ i → l !! Z.to_nat i = Some x → at_index l i = Done x.
Proof. intros Hi Hl. unfold at_index. destruct (Z.ltb_spec i 0); [lia|]. by rewrite Hl. Qed.

(** * Names *)
Definition tokens_ok (tokens : list (list Z)) : Prop := Forall (Forall (λ c, c ≠ 0)) tokens.
Definition entry_ok (tokens : list (list Z)) (e : sym_entry) : Prop :=
  (0 < length (e_sym e))%nat ∧ Z.of_nat (length (e_sym e)) ≤ 0x3FFF ∧ Forall (λ c, 0 ≤ c < Z.of_nat (length tokens)) (e_sym e).
(** The string that the codes of a symbol stand for: its type and its name. *)
Definition expansion (tokens : list (list Z)) (e : sym_entry) : list Z := e_sym e ≫= λ c, default [] (tokens !! Z.to_nat c).
Definition sym_name (tokens : list (list Z)) (e : sym_entry) : list Z := tail (expansion tokens e).

(** The length in one or two bytes. *)
Definition encode_len (len : Z) : list Z := if len <=? 0x7F then [len] else [Z.lor (Z.land len 0x7F) 0x80; Z.land (Z.shiftr len 7) 0x7F].
Definition length_decodes (len : Z) : bool :=
  match encode_len len with
  | [a] => (Z.land a 0x80 =? 0) && (a =? len)
  | [a; b] => negb (Z.land a 0x80 =? 0) && (Z.lor (Z.land a 0x7F) (Z.shiftl b 7) =? len)
  | _ => false
  end.
(** The first byte, for every value of its low seven bits. *)
Lemma low_bits_all : forallb (λ x, (Z.land x 0x80 =? 0) && negb (Z.land (Z.lor x 0x80) 0x80 =? 0) && (Z.land (Z.lor x 0x80) 0x7F =? x)) (seqZ 0 128) = true.
Proof. vm_compute. reflexivity. Qed.
Lemma low_bits x : 0 ≤ x < 128 → Z.land x 0x80 = 0 ∧ Z.land (Z.lor x 0x80) 0x80 ≠ 0 ∧ Z.land (Z.lor x 0x80) 0x7F = x.
Proof.
  intros Hx. pose proof low_bits_all as Ha. rewrite forallb_forall in Ha.
  assert (In x (seqZ 0 128)) as Hin by (apply list_elem_of_In, elem_of_seqZ; lia). specialize (Ha x Hin). bool_to_prop. done.
Qed.
Lemma split_bits n : Z.lor (Z.land n 0x7F) (Z.shiftl (Z.shiftr n 7) 7) = n.
Proof.
  apply Z.bits_inj'. intros i Hi. change 0x7F with (Z.ones 7). rewrite Z.lor_spec, Z.land_spec, Z.shiftl_spec, Z.testbit_ones_nonneg by lia.
  destruct (Z.ltb_spec i 7); [by rewrite andb_true_r, (Z.testbit_neg_r _ (i - 7)), orb_false_r by lia|].
  rewrite andb_false_r, Z.shiftr_spec by lia. simpl. f_equal. lia.
Qed.
Lemma length_decodes_ok len : 0 ≤ len ≤ 0x3FFF → length_decodes len = true.
Proof.
  intros Hl. unfold length_decodes, encode_len. destruct (Z.leb_spec len 0x7F).
  - destruct (low_bits len) as (-> & _); [lia|]. by rewrite !Z.eqb_refl.
  - assert (0 ≤ Z.land len 0x7F < 128) as Hx by (change 0x7F with (Z.ones 7); rewrite Z.land_ones by lia; apply Z.mod_pos_bound; lia).
    destruct (low_bits _ Hx) as (_ & H80 & ->). rewrite (proj2 (Z.eqb_neq _ _) H80).
    assert (Z.land (Z.shiftr len 7) 0x7F = Z.shiftr len 7) as ->.
    { change 0x7F with (Z.ones 7). rewrite Z.land_ones, Z.shiftr_div_pow2 by lia. apply Z.mod_small. change (2 ^ 7) with 128. Z.to_euclidean_division_equations; lia. }
    by rewrite split_bits, Z.eqb_refl.
Qed.
Lemma write_name_eq e : write_name e = encode_len (Z.of_nat (length (e_sym e))) ++ e_sym e.
Proof. done. Qed.

Section tables.
Context (tokens : list (list Z)) (table : list sym_entry) (order : list Z) (base sk ek : Z).
Abbreviation ks := (write_tables table tokens order base sk ek).
Hypothesis (Htok : tokens_ok tokens) (Htab : Forall (entry_ok tokens) table).

(** Where the name of symbol [i] is. *)
Definition name_off (i : nat) : Z := Z.of_nat (length (take i table ≫= write_name)).
Lemma name_off_S i e : table !! i = Some e → name_off (S i) = name_off i + Z.of_nat (length (write_name e)).
Proof.
  intros He. unfold name_off. rewrite (take_S_r _ _ _ He), bind_app, length_app, bind_cons. simpl. rewrite app_nil_r. lia.
Qed.
Lemma names_split i e : table !! i = Some e →
  names ks = (take i table ≫= write_name) ++ write_name e ++ (drop (S i) table ≫= write_name).
Proof. intros He. simpl. rewrite <-(take_drop_middle table i e He) at 1. by rewrite bind_app, bind_cons. Qed.

(** The length of symbol [i] and the place of its codes. *)
Lemma read_length i e : table !! i = Some e → ∃ a,
  at_index (names ks) (name_off i) = Done a ∧ ∃ n codes pre post, n = Z.of_nat (length (e_sym e)) ∧ names ks = pre ++ e_sym e ++ post ∧ codes = Z.of_nat (length pre) ∧
  codes + n = name_off (S i) ∧
  if Z.land a 0x80 =? 0 then a = n ∧ codes = name_off i + 1
  else ∃ b, at_index (names ks) (name_off i + 1) = Done b ∧ Z.lor (Z.land a 0x7F) (Z.shiftl b 7) = n ∧ codes = name_off i + 2.
Proof.
  intros He. pose proof (names_split i e He) as Hs. pose proof Htab as Hok. rewrite Forall_lookup in Hok. destruct (Hok i e He) as (Hpos & Hmax & _).
  set (n := Z.of_nat (length (e_sym e))) in *. pose proof (length_decodes_ok n ltac:(lia)) as Hd. rewrite (name_off_S i e He).
  rewrite write_name_eq in *. fold n in Hs |- *. unfold length_decodes, encode_len in *. set (pre := take i table ≫= write_name) in *.
  assert (name_off i = Z.of_nat (length pre)) as Hoff by done.
  destruct (n <=? 0x7F).
  - apply andb_true_iff in Hd as [H80 _]. exists n. split; [rewrite Hs; by apply at_index_app|]. rewrite H80.
    exists n, (name_off i + 1), (pre ++ [n]), (drop (S i) table ≫= write_name). split; [done|]. split; [rewrite Hs; by rewrite <-!app_assoc|].
    split; [rewrite Hoff, length_app; simpl; lia|]. split; [rewrite length_app; simpl; lia|done].
  - set (a := Z.lor (Z.land n 0x7F) 0x80) in *. set (b := Z.land (Z.shiftr n 7) 0x7F) in *. apply andb_true_iff in Hd as [H80 Hn].
    apply negb_true_iff in H80. apply Z.eqb_eq in Hn. exists a. split; [rewrite Hs; by apply at_index_app|]. rewrite H80.
    exists n, (name_off i + 2), (pre ++ [a; b]), (drop (S i) table ≫= write_name). split; [done|]. split; [rewrite Hs; by rewrite <-!app_assoc|].
    split; [rewrite Hoff, length_app; simpl; lia|]. split; [rewrite length_app; simpl; lia|]. exists b. split; [|done].
    rewrite Hs. replace (pre ++ ([a; b] ++ e_sym e) ++ (drop (S i) table ≫= write_name)) with ((pre ++ [a]) ++ b :: e_sym e ++ (drop (S i) table ≫= write_name)) by (by rewrite <-!app_assoc).
    apply at_index_app. rewrite length_app. simpl. lia.
Qed.
Lemma skip_names_spec n : ∀ i, (i + n ≤ length table)%nat → skip_names ks n (name_off i) = Done (name_off (i + n)).
Proof.
  induction n as [|n IH]; intros i Hi; [by rewrite Nat.add_0_r|]. cbn [skip_names].
  destruct (lookup_lt_is_Some_2 table i) as [e He]; [lia|]. destruct (read_length i e He) as (a & -> & m & codes & pre & post & _ & _ & _ & Hend & Hlen). cbn [mbind outcome_bind].
  replace (i + S n)%nat with (S i + n)%nat by lia.
  destruct (Z.land a 0x80 =? 0).
  - destruct Hlen as [-> ->]. cbn [mbind outcome_bind]. rewrite <-IH by lia. f_equal. lia.
  - destruct Hlen as (b & -> & Hm & ->). cbn [mbind outcome_bind]. rewrite Hm, <-IH by lia. f_equal. lia.
Qed.

Lemma write_markers_lookup t : ∀ i off k, 0 ≤ i → 0 ≤ k → let j := 256 * ((i + 255) / 256 + k) - i in j < Z.of_nat (length t) →
  write_markers i off t !! Z.to_nat k = Some (off + Z.of_nat (length (take (Z.to_nat j) t ≫= write_name))).
Proof.
  induction t as [|e t IH]; intros i off k Hi Hk j Hj; [unfold j in Hj; cbn [length] in Hj; Z.to_euclidean_division_equations; lia|].
  cbn [write_markers]. change 0xFF with (Z.ones 8). rewrite Z.land_ones by lia. change (2 ^ 8) with 256.
  cbn [length] in Hj. destruct (Z.eqb_spec (i mod 256) 0) as [E|E].
  - assert ((i + 255) / 256 = i / 256 ∧ (i + 1 + 255) / 256 = i / 256 + 1) as [E1 E2] by (Z.to_euclidean_division_equations; lia).
    destruct (Z.eqb_spec k 0) as [->|Hk0].
    + replace (Z.to_nat j) with 0%nat by (unfold j; Z.to_euclidean_division_equations; lia). simpl. by rewrite Z.add_0_r.
    + replace (Z.to_nat k) with (S (Z.to_nat (k - 1))) by lia. simpl. rewrite IH by (rewrite ?E2; unfold j in Hj; lia).
      replace (Z.to_nat j) with (S (Z.to_nat (256 * ((i + 1 + 255) / 256 + (k - 1)) - (i + 1)))) by (unfold j; Z.to_euclidean_division_equations; lia).
      cbn [take]. rewrite bind_cons, length_app. f_equal. lia.
  - assert ((i + 255) / 256 = (i + 1 + 255) / 256) as E1 by (Z.to_euclidean_division_equations; lia).
    cbn [app]. rewrite IH by (rewrite <-?E1; unfold j in Hj; lia).
    replace (Z.to_nat j) with (S (Z.to_nat (256 * ((i + 1 + 255) / 256 + k) - (i + 1)))) by (unfold j; Z.to_euclidean_division_equations; lia).
    cbn [take]. rewrite bind_cons, length_app. f_equal. lia.
Qed.
Lemma sym_offset_spec pos : (pos < length table)%nat → sym_offset ks (Z.of_nat pos) = Done (name_off pos).
Proof.
  intros Hpos. unfold sym_offset. rewrite Z.shiftr_div_pow2 by lia. change (2 ^ 8) with 256. change 0xFF with (Z.ones 8). rewrite Z.land_ones by lia. change (2 ^ 8) with 256.
  set (k := Z.of_nat pos / 256). assert (0 ≤ k ∧ Z.of_nat pos = 256 * k + Z.of_nat pos mod 256 ∧ 0 ≤ Z.of_nat pos mod 256) as (Hk & Hpk & Hr) by (unfold k; Z.to_euclidean_division_equations; lia).
  cbn [markers write_tables]. rewrite (at_index_lookup _ k (name_off (Z.to_nat (256 * k)))); [|done|].
  - cbn [mbind outcome_bind]. rewrite skip_names_spec by lia. do 2 f_equal. lia.
  - rewrite write_markers_lookup by (try lia; change ((0 + 255) / 256) with 0; lia). change ((0 + 255) / 256) with 0.
    replace (256 * (0 + k) - 0) with (256 * k) by lia. done.
Qed.

(** * Tokens *)
Lemma write_index_lookup ts : ∀ off c t, ts !! c = Some t →
  write_index off ts !! c = Some (off + Z.of_nat (length (take c ts ≫= λ t, t ++ [0]))).
Proof.
  induction ts as [|t0 ts IH]; intros off c t Ht; [done|]. destruct c as [|c]; [simpl in *; f_equal; lia|].
  cbn [write_index lookup list_lookup] in *. rewrite (IH _ c t Ht). cbn [take]. rewrite bind_cons, !length_app. f_equal. simpl length. lia.
Qed.
Lemma token_at c t : tokens !! Z.to_nat c = Some t → 0 ≤ c → ∃ i rest, at_index (token_index ks) c = Done i ∧ drop (Z.to_nat i) (token_table ks) = t ++ 0 :: rest.
Proof.
  intros Ht Hc. exists (0 + Z.of_nat (length (take (Z.to_nat c) tokens ≫= λ t, t ++ [0]))), (drop (S (Z.to_nat c)) tokens ≫= λ t, t ++ [0]).
  split; [apply at_index_lookup; [done|]; by eapply write_index_lookup|]. cbn [token_table write_tables]. rewrite Z.add_0_l, Nat2Z.id.
  assert (∀ f : list Z → list Z, tokens ≫= f = (take (Z.to_nat c) tokens ≫= f) ++ f t ++ (drop (S (Z.to_nat c)) tokens ≫= f)) as ->.
  { intros f. rewrite <-(take_drop_middle tokens _ t Ht) at 1. by rewrite bind_app, bind_cons. }
  by rewrite drop_app_length, <-app_assoc.
Qed.
(** What is left of a string when its first character still has to be skipped. *)
Definition unskipped (skipped : bool) (l : list Z) : list Z := if skipped then l else tail l.
Lemma copy_token_spec rest t : Forall (λ c, c ≠ 0) t → ∀ maxlen skipped out, 1 ≤ maxlen →
  copy_token (t ++ 0 :: rest) maxlen skipped out =
    if Z.of_nat (length (unskipped skipped t)) <=? maxlen - 1
    then Done (false, maxlen - Z.of_nat (length (unskipped skipped t)), skipped || negb (bool_decide (t = [])), out ++ unskipped skipped t)
    else Done (true, 1, true, out ++ take (Z.to_nat (maxlen - 1)) (unskipped skipped t)).
Proof.
  induction 1 as [|c t Hc _ IH]; intros maxlen skipped out Hm.
  { cbn [app copy_token Z.eqb]. assert (unskipped skipped [] = []) as -> by by destruct skipped. case_test; [|simpl in *; lia].
    simpl. by rewrite orb_false_r, app_nil_r, Z.sub_0_r. }
  cbn [app copy_token]. rewrite (proj2 (Z.eqb_neq c 0) Hc). destruct skipped; cbn [unskipped tail].
  - destruct (Z.leb_spec maxlen 1).
    + case_test; [simpl in *; lia|]. replace maxlen with 1 by lia. by rewrite app_nil_r.
    + rewrite IH by lia. cbn [unskipped length]. case_test; case_test; try lia.
      * rewrite <-app_assoc. by replace (maxlen - 1 - Z.of_nat (length t)) with (maxlen - Z.of_nat (S (length t))) by lia.
      * rewrite <-app_assoc. replace (Z.to_nat (maxlen - 1)) with (S (Z.to_nat (maxlen - 1 - 1))) by lia. done.
  - rewrite IH by lia. cbn [unskipped]. by rewrite (bool_decide_eq_false_2 (c :: t = [])) by done.
Qed.
Lemma copy_tokens_spec codes : ∀ data maxlen skipped out pre post, names ks = pre ++ codes ++ post → data = Z.of_nat (length pre) →
  Forall (λ c, 0 ≤ c < Z.of_nat (length tokens)) codes → 1 ≤ maxlen →
  ∃ m, 1 ≤ m ∧ copy_tokens ks (length codes) data maxlen skipped out =
    Done (m, out ++ take (Z.to_nat (maxlen - 1)) (unskipped skipped (codes ≫= λ c, default [] (tokens !! Z.to_nat c)))).
Proof.
  induction codes as [|c codes IH]; intros data maxlen skipped out pre post Hs Hd Hc Hm.
  { exists maxlen. split; [done|]. simpl. assert (unskipped skipped ([] : list Z) = []) as -> by by destruct skipped. by rewrite take_nil, app_nil_r. }
  apply Forall_cons in Hc as [Hc Hcs]. destruct (lookup_lt_is_Some_2 tokens (Z.to_nat c)) as [t Ht]; [lia|].
  destruct (token_at c t Ht) as (i & rest & Ei & Er); [lia|]. cbn [length copy_tokens].
  rewrite Hs, (at_index_app pre c (codes ++ post)) by done. cbn [mbind outcome_bind]. rewrite Ei. cbn [mbind outcome_bind]. rewrite Er.
  assert (Forall (λ c, c ≠ 0) t) as Htz by (by eapply Forall_lookup in Ht).
  rewrite copy_token_spec by done. rewrite bind_cons, Ht. change (default [] (Some t)) with t. set (s := codes ≫= λ c, default [] (tokens !! Z.to_nat c)).
  assert (unskipped skipped (t ++ s) = unskipped skipped t ++ unskipped (skipped || negb (bool_decide (t = []))) s) as ->.
  { destruct skipped; [done|]. destruct t; [by rewrite bool_decide_eq_true_2|by rewrite bool_decide_eq_false_2]. }
  case_test; cbn [mbind outcome_bind].
  - destruct (IH (data + 1) (maxlen - Z.of_nat (length (unskipped skipped t))) (skipped || negb (bool_decide (t = []))) (out ++ unskipped skipped t) (pre ++ [c]) post) as (m & Hm' & ->);
      [by rewrite <-app_assoc|rewrite length_app; simpl; lia|done|lia|].
    exists m. split; [done|]. rewrite <-app_assoc, take_app. do 4 f_equal; [rewrite take_ge by lia; done|]. f_equal. lia.
  - exists 1. split; [done|]. rewrite take_app_le by lia. done.
Qed.
(** The generator and the kernel agree on names: the buffer gets the name of the symbol, cut
    to its room, and a terminator. *)
Lemma expand_symbol_spec KSYM_NAME_LEN pos e namebuf : table !! pos = Some e → 1 ≤ KSYM_NAME_LEN → (0 < length namebuf)%nat →
  let n := take (Z.to_nat (Z.min (Z.of_nat (length namebuf)) KSYM_NAME_LEN - 1)) (sym_name tokens e) in
  expand_symbol ks KSYM_NAME_LEN (name_off pos) namebuf = Done (n ++ [0] ++ drop (S (length n)) namebuf).
Proof.
  intros He Hk Hb n. destruct (read_length pos e He) as (a & Ea & m & codes & pre & post & Hm & Hs & Hcodes & _ & Hlen). unfold expand_symbol. rewrite Ea. cbn [mbind outcome_bind].
  assert ((if Z.land a 0x80 =? 0 then Done (a, name_off pos + 1) else b ← at_index (names ks) (name_off pos + 1); Done (Z.lor (Z.land a 0x7F) (Z.shiftl b 7), name_off pos + 2)) = Done (m, codes)) as ->.
  { destruct (Z.land a 0x80 =? 0); [by destruct Hlen as [-> ->]|]. destruct Hlen as (b & -> & Hl & ->). cbn [mbind outcome_bind]. by rewrite Hl. }
  cbn [mbind outcome_bind]. rewrite Hm, Nat2Z.id. pose proof Htab as Hok. rewrite Forall_lookup in Hok. destruct (Hok pos e He) as (_ & _ & Hc).
  destruct (copy_tokens_spec (e_sym e) codes (Z.min (Z.of_nat (length namebuf)) KSYM_NAME_LEN) false [] pre post Hs Hcodes Hc) as (m' & Hm' & ->); [lia|].
  cbn [mbind outcome_bind]. destruct (Z.eqb_spec m' 0); [lia|]. cbn [app unskipped]. fold (expansion tokens e). fold (sym_name tokens e). fold n.
  rewrite length_app, <-app_assoc. simpl. by rewrite Nat.add_1_r.
Qed.

(** * Lookup by address *)
Record addresses_ok : Prop := {
  ao_base : 0 ≤ base;
  ao_range : Forall (λ e, base ≤ e_addr e < base + 2 ^ 32 ∧ e_addr e < 2 ^ 64) table;
  ao_sorted : ∀ i j e f, (i ≤ j)%nat → table !! i = Some e → table !! j = Some f → e_addr e ≤ e_addr f;
  ao_count : 0 < Z.of_nat (length table) < 2 ^ 32 }.
Hypothesis (Haddr : addresses_ok).

Lemma sym_addr_spec i e : table !! i = Some e → sym_addr ks (Z.of_nat i) = Done (e_addr e).
Proof.
  intros He. unfold sym_addr. rewrite (at_index_lookup _ _ (s32 (e_addr e - base))); [|lia|simpl; by rewrite Nat2Z.id, list_lookup_fmap, He].
  cbn [mbind outcome_bind relative_base write_tables]. destruct Haddr as [Hb Hr _ _]. rewrite Forall_lookup in Hr. destruct (Hr i e He) as [Hr1 Hr2].
  assert (w32 (s32 (e_addr e - base)) = e_addr e - base) as -> by (unfold w32, s32; Z.to_euclidean_division_equations; lia).
  rewrite w64_small by lia. f_equal. lia.
Qed.
Lemma entry_at i : 0 ≤ i < Z.of_nat (length table) → ∃ e, table !! Z.to_nat i = Some e ∧ sym_addr ks i = Done (e_addr e).
Proof.
  intros Hi. destruct (lookup_lt_is_Some_2 table (Z.to_nat i)) as [e He]; [lia|]. exists e. split; [done|].
  rewrite <-(sym_addr_spec _ _ He). f_equal. lia.
Qed.

(** Binary search: [fuel] is one more than the number of halvings. *)
Lemma find_low_spec addr : ∀ k low high, 0 ≤ low < high → high ≤ Z.of_nat (length table) → high - low ≤ 2 ^ Z.of_nat k →
  (∀ e, table !! Z.to_nat low = Some e → e_addr e ≤ addr) → (∀ e, table !! Z.to_nat high = Some e → addr < e_addr e) →
  ∃ r, find_low ks (S k) addr low high = Done r ∧ low ≤ r < high ∧ (∀ e, table !! Z.to_nat r = Some e → e_addr e ≤ addr) ∧
    (∀ e, table !! Z.to_nat (r + 1) = Some e → addr < e_addr e).
Proof.
  induction k as [|k IH]; intros low high Hlow Hhigh Hd Hl Hh.
  { exists low. cbn [find_low]. destruct (Z.ltb_spec 1 (high - low)); [simpl in Hd; lia|]. replace (low + 1) with high by (simpl in Hd; lia). split; [done|]. split; [lia|done]. }
  rewrite Nat2Z.inj_succ, Z.pow_succ_r in Hd by lia. remember (S k) as fuel. cbn [find_low]. case_test; [|exists low; replace (low + 1) with high by lia; split; [done|]; split; [lia|done]].
  assert (low < low + (high - low) / 2 < high) as Hmid by (Z.to_euclidean_division_equations; lia). set (mid := low + (high - low) / 2) in *.
  destruct (entry_at mid) as (e & He & ->); [lia|]. cbn [mbind outcome_bind].
  assert (high - mid ≤ 2 ^ Z.of_nat k ∧ mid - low ≤ 2 ^ Z.of_nat k) as [Hd1 Hd2] by (unfold mid in *; Z.to_euclidean_division_equations; lia).
  case_test; subst fuel.
  - destruct (IH mid high) as (r & -> & Hr & ?); try done; try lia; [intros e' He'; by simplify_eq|]. exists r. split; [done|]. split; [lia|done].
  - destruct (IH low mid) as (r & -> & Hr & ?); try done; try lia; [intros e' He'; by simplify_eq|]. exists r. split; [done|]. split; [lia|done].
Qed.
Lemma first_alias_spec low e : table !! low = Some e → ∃ i, first_alias ks low = Done (Z.of_nat i) ∧ (i ≤ low)%nat ∧
  (∃ f, table !! i = Some f ∧ e_addr f = e_addr e) ∧ ∀ j f, table !! j = Some f → e_addr f = e_addr e → (i ≤ j)%nat.
Proof.
  revert e. induction low as [|l IH]; intros e He; [exists O; split_and!; [done|done|by exists e|lia]|]. cbn [first_alias].
  destruct (lookup_lt_is_Some_2 table l) as [f Hf]; [apply lookup_lt_Some in He; lia|].
  rewrite (sym_addr_spec _ _ Hf). cbn [mbind outcome_bind]. rewrite (sym_addr_spec _ _ He). cbn [mbind outcome_bind].
  destruct (Z.eqb_spec (e_addr f) (e_addr e)) as [Heq|Hne].
  - destruct (IH f Hf) as (i & -> & Hi & (g & Hg & Hge) & Hfirst). exists i. split; [done|]. split; [lia|]. split; [exists g; split; [done|congruence]|].
    intros j h Hj Hh. apply (Hfirst j h Hj). congruence.
  - exists (S l). split; [done|]. split; [done|]. split; [by exists e|]. intros j g Hj Hg. destruct (decide (S l ≤ j)%nat); [done|]. exfalso.
    pose proof (ao_sorted Haddr j l g f ltac:(lia) Hj Hf). pose proof (ao_sorted Haddr l (S l) f e ltac:(lia) Hf He). lia.
Qed.
Lemma find_end_spec start n : ∀ i, 0 ≤ i → i + Z.of_nat n = Z.of_nat (length table) → 0 ≤ start →
  ∃ r, find_end ks n i start = Done r ∧
    (r = 0 ↔ ∀ j e, (Z.to_nat i ≤ j)%nat → table !! j = Some e → e_addr e ≤ start).
Proof.
  induction n as [|n IH]; intros i Hi Hn Hs.
  { exists 0. split; [done|]. split; [|done]. intros _ j e Hj He. apply lookup_lt_Some in He. lia. }
  cbn [find_end]. destruct (entry_at i) as (e & He & ->); [lia|]. cbn [mbind outcome_bind]. case_test.
  - exists (e_addr e). split; [done|]. split; [lia|]. intros Hall. specialize (Hall _ _ ltac:(done) He). lia.
  - destruct (IH (i + 1)) as (r & -> & Hr); [lia..|]. exists r. split; [done|]. rewrite Hr. split; intros Hall j f Hj Hf.
    + destruct (decide (j = Z.to_nat i)) as [->|]; [by simplify_eq|]. apply (Hall j f); [lia|done].
    + apply (Hall j f); [lia|done].
Qed.

(** The symbol an address belongs to: the first of those with the greatest address that is not
    above it. *)
Definition symbol_of (addr : Z) (i : nat) (e : sym_entry) : Prop :=
  table !! i = Some e ∧ e_addr e ≤ addr ∧
  (∀ j f, table !! j = Some f → e_addr f ≤ addr → e_addr f ≤ e_addr e) ∧
  (∀ j f, table !! j = Some f → e_addr f = e_addr e → (i ≤ j)%nat).
Lemma lookup_addr_spec KSYM_NAME_LEN fuel addr namebuf e0 : in_kernel ks addr = true → table !! 0%nat = Some e0 → e_addr e0 ≤ addr < 2 ^ 64 →
  (33 ≤ fuel)%nat → 1 ≤ KSYM_NAME_LEN → (0 < length namebuf)%nat →
  ∃ i e, symbol_of addr i e ∧
    lookup_addr ks KSYM_NAME_LEN fuel addr namebuf =
      if decide (Exists (λ f, e_addr e < e_addr f) table) then
        let n := take (Z.to_nat (Z.min (Z.of_nat (length namebuf)) KSYM_NAME_LEN - 1)) (sym_name tokens e) in
        Done (Some (addr - e_addr e), n ++ [0] ++ drop (S (length n)) namebuf)
      else Done (None, namebuf).
Proof.
  intros Hin H0' Hlow Hfuel Hk Hb. pose proof Haddr as [Hb0 Hr Hsort Hn]. rewrite Forall_lookup in Hr.
  unfold lookup_addr. rewrite Hin. cbn [negb]. cbn [num_syms write_tables].
  destruct (find_low_spec addr (pred fuel) 0 (Z.of_nat (length table))) as (r & E & Hrr & Hle & Hgt); [lia|lia| | | |].
  { trans (2 ^ 32); [lia|]. apply Z.pow_le_mono_r; lia. }
  { intros e He. change (Z.to_nat 0) with 0%nat in He. simplify_eq. lia. }
  { intros e He. apply lookup_lt_Some in He. lia. }
  replace (S (pred fuel)) with fuel in E by lia. rewrite E. cbn [mbind outcome_bind].
  destruct (lookup_lt_is_Some_2 table (Z.to_nat r)) as [er Her]; [lia|].
  destruct (first_alias_spec (Z.to_nat r) er Her) as (i & -> & Hi & (e & He & Hea) & Hfirst). cbn [mbind outcome_bind].
  rewrite (sym_addr_spec _ _ He). cbn [mbind outcome_bind].
  assert (0 ≤ e_addr e) as He0 by (destruct (Hr i e He); lia). pose proof (lookup_lt_Some _ _ _ He) as Hil.
  assert (symbol_of addr i e) as Hsym.
  { split; [done|]. split; [rewrite Hea; by apply Hle|]. split.
    - intros j f Hj Hf. rewrite Hea. destruct (decide (j ≤ Z.to_nat r)%nat); [by eapply Hsort|]. exfalso.
      destruct (lookup_lt_is_Some_2 table (Z.to_nat (r + 1))) as [g Hg]; [apply lookup_lt_Some in Hj; lia|].
      pose proof (Hgt g Hg). pose proof (Hsort (Z.to_nat (r + 1)) j g f ltac:(lia) Hg Hj). lia.
    - intros j f Hj Hf. apply (Hfirst j f Hj). congruence. }
  exists i, e. split; [done|].
  destruct (find_end_spec (e_addr e) (Z.to_nat (Z.of_nat (length table) - (Z.of_nat i + 1))) (Z.of_nat i + 1)) as (x & -> & Hx); [lia|lia|done|]. cbn [mbind outcome_bind].
  destruct (decide (Exists _ table)) as [Hex|Hex].
  - rewrite (proj2 (Z.eqb_neq x 0)).
    + rewrite sym_offset_spec by done. cbn [mbind outcome_bind]. rewrite (expand_symbol_spec KSYM_NAME_LEN i e) by done. cbn [mbind outcome_bind].
      destruct Hsym as (_ & ? & _). rewrite w64_small by lia. done.
    + intros Hx0. pose proof (proj1 Hx Hx0) as Hall. apply Exists_exists in Hex as (f & Hf & Hlt). apply list_elem_of_lookup in Hf as [j Hj].
      destruct (decide (j ≤ i)%nat) as [Hji|]; [pose proof (Hsort j i f e Hji Hj He); lia|]. pose proof (Hall j f ltac:(lia) Hj). lia.
  - rewrite (proj2 (Z.eqb_eq x 0)); [done|]. apply Hx. intros j f Hj Hf. destruct (Z.le_gt_cases (e_addr f) (e_addr e)); [done|].
    exfalso. apply Hex, Exists_exists. exists f. split; [by eapply list_elem_of_lookup_2|lia].
Qed.
End tables.
