(* ===== verification/SymbolsNames.v ===== *)
(** Looking up a symbol by its name, and the theorems on symbols. *)

From S2P Require Import Prelude Math Symbols SymbolsSpec.
#[local] Open Scope Z_scope.

(** * The order of names *)
Lemma compare_names_refl a : compare_names a a = Eq.
Proof. induction a as [|x a IH]; [done|]. simpl. by rewrite Z.compare_refl. Qed.
Lemma compare_names_eq a b : compare_names a b = Eq ↔ a = b.
Proof.
  split; [|intros ->; apply compare_names_refl]. revert b. induction a as [|x a IH]; intros [|y b]; simpl; try done.
  destruct (Z.compare_spec x y) as [->| |]; try done. intros Hc. by rewrite (IH b).
Qed.
Lemma compare_names_antisym a b : compare_names b a = CompOpp (compare_names a b).
Proof.
  revert b. induction a as [|x a IH]; intros [|y b]; simpl; try done. rewrite (Z.compare_antisym x y).
  destruct (Z.compare x y); simpl; [apply IH|done|done].
Qed.
(** [c ≤ b < a] gives [c < a], and [b < a ≤ c] gives [b < c]. *)
Lemma compare_names_le_lt c b a : compare_names c b ≠ Gt → compare_names b a = Lt → compare_names c a = Lt.
Proof.
  revert b a. induction c as [|z c IH]; intros [|y b] [|x a]; simpl; try done.
  destruct (Z.compare_spec z y) as [->| |]; [|intros _|done].
  - destruct (Z.compare y x); [|done..]. apply IH.
  - destruct (Z.compare_spec y x) as [->| |]; [intros _|intros _|done]; by rewrite (proj2 (Z.compare_lt_iff _ _)) by lia.
Qed.
Lemma compare_names_lt_le b a c : compare_names b a = Lt → compare_names a c ≠ Gt → compare_names b c = Lt.
Proof.
  revert a c. induction b as [|y b IH]; intros [|x a] [|z c]; simpl; try done.
  destruct (Z.compare_spec y x) as [->| |]; [|intros _|done].
  - destruct (Z.compare x z); [|done..]. apply IH.
  - destruct (Z.compare_spec x z) as [->| |]; [intros _|intros _|done]; by rewrite (proj2 (Z.compare_lt_iff _ _)) by lia.
Qed.

Lemma seq_bits i : 0 ≤ i < 2 ^ 24 →
  Z.lor (Z.shiftl (Z.lor (Z.shiftl (Z.land (Z.shiftr i 16) 0xFF) 8) (Z.land (Z.shiftr i 8) 0xFF)) 8) (Z.land i 0xFF) = i.
Proof.
  intros Hi. apply Z.bits_inj'. intros k Hk. change 0xFF with (Z.ones 8).
  rewrite Z.lor_spec, Z.shiftl_spec, Z.land_spec, Z.testbit_ones_nonneg by lia.
  destruct (Z.ltb_spec k 8).
  { rewrite andb_true_r, Z.testbit_neg_r by lia. done. }
  rewrite andb_false_r, orb_false_r, Z.lor_spec, Z.land_spec, Z.testbit_ones_nonneg, Z.shiftl_spec by lia.
  destruct (Z.ltb_spec (k - 8) 8).
  { rewrite andb_true_r, Z.testbit_neg_r, Z.shiftr_spec by lia. simpl. f_equal. lia. }
  rewrite andb_false_r, orb_false_r, Z.land_spec, Z.testbit_ones_nonneg, Z.shiftr_spec by lia.
  replace (k - 8 - 8 + 16) with k by lia. destruct (Z.ltb_spec (k - 8 - 8) 8); [by rewrite andb_true_r|].
  rewrite andb_false_r. destruct (Z.eqb_spec i 0) as [->|]; [by rewrite Z.bits_0|]. symmetry. apply Z.bits_above_log2; [lia|].
  apply Z.log2_lt_pow2; [lia|]. apply Z.lt_le_trans with (2 ^ 24); [lia|]. apply Z.pow_le_mono_r; lia.
Qed.

Section names.
Context (tokens : list (list Z)) (table : list sym_entry) (order : list Z) (base sk ek KSYM_NAME_LEN : Z).
Abbreviation ks := (write_tables table tokens order base sk ek).
Hypothesis (Htok : tokens_ok tokens) (Htab : Forall (entry_ok tokens) table) (Haddr : addresses_ok table base).

(** The [j]-th symbol in the order of names. *)
Definition nth_name (j : nat) (e : sym_entry) : Prop := ∃ i, order !! j = Some i ∧ table !! Z.to_nat i = Some e.
Record order_ok : Prop := {
  oo_range : Forall (λ i, 0 ≤ i < Z.of_nat (length table)) order;
  oo_length : length order = length table;
  oo_count : Z.of_nat (length table) < 2 ^ 24;
  oo_fits : Forall (λ e, Z.of_nat (length (sym_name tokens e)) < KSYM_NAME_LEN) table;
  oo_sorted : ∀ i j e f, (i ≤ j)%nat → nth_name i e → nth_name j f → compare_names (sym_name tokens e) (sym_name tokens f) ≠ Gt }.
Hypothesis (Horder : order_ok).

Lemma nth_name_exists j : (j < length table)%nat → ∃ e, nth_name j e.
Proof.
  intros Hj. rewrite <-(oo_length Horder) in Hj. destruct (lookup_lt_is_Some_2 order j Hj) as [i Hi].
  pose proof (oo_range Horder) as Hr. rewrite Forall_lookup in Hr. pose proof (Hr j i Hi). destruct (lookup_lt_is_Some_2 table (Z.to_nat i)) as [e He]; [lia|]. by exists e, i.
Qed.
Lemma nth_name_lt j e : nth_name j e → (j < length table)%nat.
Proof. intros (i & Hi & _). rewrite <-(oo_length Horder). by eapply lookup_lt_Some. Qed.
Lemma nth_name_fun j e f : nth_name j e → nth_name j f → e = f.
Proof. intros (i & Hi & He) (i' & Hi' & Hf). congruence. Qed.

Lemma seqs_lookup l : ∀ j i k, l !! j = Some i → (k < 3)%nat → (l ≫= write_seq) !! (3 * j + k)%nat = write_seq i !! k.
Proof.
  induction l as [|x l IH]; intros j i k Hj Hk; [done|]. rewrite bind_cons. destruct j as [|j]; simpl in Hj; simplify_eq.
  - rewrite lookup_app_l by (simpl; lia). done.
  - rewrite lookup_app_r by (simpl; lia). rewrite <-(IH j i k) by done. f_equal. simpl. lia.
Qed.
Lemma sym_seq_spec j i : order !! j = Some i → sym_seq ks (Z.of_nat j) = Done i.
Proof.
  intros Hj. pose proof (oo_range Horder) as Hr. rewrite Forall_lookup in Hr. pose proof (Hr j i Hj). pose proof (oo_count Horder). unfold sym_seq. cbn [seqs_of_names write_tables].
  assert (∀ k, (k < 3)%nat → at_index (order ≫= write_seq) (3 * Z.of_nat j + Z.of_nat k) = deref (write_seq i !! k)) as Hat.
  { intros k Hk. unfold at_index. destruct (Z.ltb_spec (3 * Z.of_nat j + Z.of_nat k) 0); [lia|].
    replace (Z.to_nat (3 * Z.of_nat j + Z.of_nat k)) with (3 * j + k)%nat by lia. by rewrite (seqs_lookup order j i k). }
  pose proof (Hat 0%nat ltac:(lia)) as H0'. rewrite Z.add_0_r in H0'. rewrite H0'.
  pose proof (Hat 1%nat ltac:(lia)) as H1'. change (Z.of_nat 1) with 1 in H1'. rewrite H1'.
  pose proof (Hat 2%nat ltac:(lia)) as H2'. change (Z.of_nat 2) with 2 in H2'. rewrite H2'. cbn [write_seq lookup list_lookup deref mbind outcome_bind].
  by rewrite seq_bits by lia.
Qed.
Lemma sym_seq_out j : Z.of_nat (length table) ≤ j → sym_seq ks j = Crash.
Proof.
  intros Hj. unfold sym_seq, at_index. cbn [seqs_of_names write_tables]. destruct (Z.ltb_spec (3 * j) 0); [lia|].
  rewrite (lookup_ge_None_2 _ (Z.to_nat (3 * j))); [done|].
  assert (∀ l, length (l ≫= write_seq) = (3 * length l)%nat) as -> by (intros l; induction l as [|x l IH]; [done|]; rewrite bind_cons, length_app, IH; simpl; lia).
  rewrite (oo_length Horder). lia.
Qed.

Lemma c_string_app l r : Forall (λ c, c ≠ 0) l → c_string (l ++ 0 :: r) = Done l.
Proof. induction 1 as [|c l Hc _ IH]; [done|]. simpl. destruct (Z.eqb_spec c 0); [done|]. by rewrite IH. Qed.
Lemma sym_name_nonzero e : Forall (λ c, c ≠ 0) (sym_name tokens e).
Proof.
  unfold sym_name. assert (Forall (λ c, c ≠ 0) (expansion tokens e)) as Hall; [|by destruct Hall].
  unfold expansion. induction (e_sym e) as [|c l IH]; [constructor|]. rewrite bind_cons. apply Forall_app. split; [|done].
  destruct (tokens !! Z.to_nat c) as [t|] eqn:Ht; [by eapply Forall_lookup in Ht|constructor].
Qed.
(** Reading the [j]-th name into a buffer for names. *)
Lemma name_at_spec j e namebuf : nth_name j e → Z.of_nat (length namebuf) = KSYM_NAME_LEN →
  ∃ buf, name_at ks KSYM_NAME_LEN (Z.of_nat j) namebuf = Done (sym_name tokens e, buf) ∧ Z.of_nat (length buf) = KSYM_NAME_LEN.
Proof.
  intros (i & Hj & He) Hb. unfold name_at. rewrite (sym_seq_spec j i Hj). cbn [mbind outcome_bind].
  pose proof (oo_range Horder) as Hr. rewrite Forall_lookup in Hr. pose proof (Hr j i Hj). pose proof (oo_fits Horder) as Hf. rewrite Forall_lookup in Hf. pose proof (Hf _ _ He) as Hfit.
  assert (sym_offset ks i = Done (name_off table (Z.to_nat i))) as ->.
  { rewrite <-(sym_offset_spec tokens table order base sk ek Htab) by lia. f_equal. lia. }
  cbn [mbind outcome_bind].
  rewrite (expand_symbol_spec tokens table order base sk ek Htok Htab KSYM_NAME_LEN _ e namebuf He) by lia. cbn [mbind outcome_bind].
  rewrite take_ge by lia. set (rest := drop _ _). change ([0] ++ rest) with (0 :: rest). rewrite c_string_app by apply sym_name_nonzero. cbn [mbind outcome_bind].
  eexists. split; [done|]. rewrite length_app. cbn [length]. unfold rest. rewrite length_drop. lia.
Qed.

(** ** The search *)
Section search.
Context (name : list Z).
Definition below (j : nat) : Prop := ∀ e, nth_name j e → compare_names name (sym_name tokens e) = Gt.
Definition above (j : nat) : Prop := ∀ e, nth_name j e → compare_names name (sym_name tokens e) = Lt.
Lemma below_le i j : (i ≤ j)%nat → (j < length table)%nat → below j → below i.
Proof.
  intros Hij Hj Hb e He. destruct (nth_name_exists j Hj) as [f Hf]. pose proof (Hb f Hf) as Hc.
  rewrite compare_names_antisym, (compare_names_le_lt _ (sym_name tokens f) name); [done|by apply (oo_sorted Horder i j)|]. by rewrite compare_names_antisym, Hc.
Qed.
Lemma above_le i j : (i ≤ j)%nat → (i < length table)%nat → above i → above j.
Proof.
  intros Hij Hi Ha f Hf. destruct (nth_name_exists i Hi) as [e He]. eapply compare_names_lt_le; [by apply Ha|]. by apply (oo_sorted Horder i j).
Qed.

(** As long as the name is not below all symbols. *)
Lemma search_name_spec k : ¬ above 0 → ∀ low high buf, 0 ≤ low ≤ high + 1 → 0 ≤ high < Z.of_nat (length table) → high - low + 1 < 2 ^ Z.of_nat k →
  (∀ j, Z.of_nat j < low → below j) → (∀ j, high < Z.of_nat j → above j) → Z.of_nat (length buf) = KSYM_NAME_LEN →
  ∃ r buf', search_name ks KSYM_NAME_LEN (S k) name low high buf = Done (r, buf') ∧ Z.of_nat (length buf') = KSYM_NAME_LEN ∧
    match r with
    | Some mid => ∃ j e, mid = Z.of_nat j ∧ nth_name j e ∧ sym_name tokens e = name
    | None => ∀ j e, nth_name j e → sym_name tokens e ≠ name
    end.
Proof.
  intros H0'. pose proof (oo_count Horder) as Hcount. induction k as [|k IH]; intros low high buf Hlow Hhigh Hd Hb Ha Hbuf; cbn [search_name].
  all: destruct (Z.leb_spec low high) as [Hlh|Hlh].
  - simpl in Hd. lia.
  - exists None, buf. split; [done|]. split; [done|]. intros j e He Heq. destruct (Z.lt_ge_cases (Z.of_nat j) low) as [Hj|Hj].
    + pose proof (Hb j Hj e He) as Hc. rewrite Heq, compare_names_refl in Hc. done.
    + pose proof (Ha j ltac:(lia) e He) as Hc. rewrite Heq, compare_names_refl in Hc. done.
  - rewrite Nat2Z.inj_succ, Z.pow_succ_r in Hd by lia.
    assert (low ≤ low + (high - low) / 2 ≤ high) as Hmid by (Z.to_euclidean_division_equations; lia). rewrite (w64_small (low + _)) by lia.
    set (mid := low + (high - low) / 2) in *.
    assert (high - (mid + 1) + 1 < 2 ^ Z.of_nat k ∧ mid - 1 - low + 1 < 2 ^ Z.of_nat k) as [Hd1 Hd2] by (unfold mid in *; Z.to_euclidean_division_equations; lia).
    destruct (nth_name_exists (Z.to_nat mid)) as [e He]; [lia|]. destruct (name_at_spec _ e buf He Hbuf) as (buf1 & En & Hbuf1). rewrite Z2Nat.id in En by lia.
    rewrite En. cbn [mbind outcome_bind]. destruct (compare_names name (sym_name tokens e)) eqn:Ec.
    + exists (Some mid), buf1. split; [done|]. split; [done|]. exists (Z.to_nat mid), e. split; [lia|]. split; [done|]. symmetry. by apply compare_names_eq.
    + assert (above (Z.to_nat mid)) as Hab by (intros f Hf; by rewrite <-(nth_name_fun _ _ _ He Hf)).
      assert (mid ≠ 0) as Hm0 by (intros Hm; apply H0'; by rewrite Hm in Hab). rewrite w64_small by lia.
      apply IH; try done; try lia. intros j Hj. apply (above_le (Z.to_nat mid)); [lia|lia|done].
    + assert (below (Z.to_nat mid)) as Hbe by (intros f Hf; by rewrite <-(nth_name_fun _ _ _ He Hf)).
      rewrite w64_small by lia. apply IH; try done; try lia. intros j Hj. apply (below_le j (Z.to_nat mid)); [lia|lia|done].
  - exists None, buf. split; [done|]. split; [done|]. intros j e He Heq. destruct (Z.lt_ge_cases (Z.of_nat j) low) as [Hj|Hj].
    + pose proof (Hb j Hj e He) as Hc. rewrite Heq, compare_names_refl in Hc. done.
    + pose proof (Ha j ltac:(lia) e He) as Hc. rewrite Heq, compare_names_refl in Hc. done.
Qed.

(** A name that is below all symbols: the upper end goes below zero and wraps around. *)
Lemma search_name_below k : above 0 → ∀ high buf, 0 ≤ high < Z.of_nat (length table) → high + 1 < 2 ^ Z.of_nat k → Z.of_nat (length buf) = KSYM_NAME_LEN →
  search_name ks KSYM_NAME_LEN (S k) name 0 high buf = Crash.
Proof.
  intros Hab. pose proof (oo_count Horder) as Hcount. induction k as [|k IH]; intros high buf Hhigh Hd Hbuf; cbn [search_name].
  { simpl in Hd. lia. }
  destruct (Z.leb_spec 0 high); [|lia]. rewrite Nat2Z.inj_succ, Z.pow_succ_r in Hd by lia. rewrite Z.sub_0_r, Z.add_0_l.
  assert (0 ≤ high / 2 ≤ high) as Hmid by (Z.to_euclidean_division_equations; lia). rewrite (w64_small (high / 2)) by lia. set (mid := high / 2) in *.
  destruct (nth_name_exists (Z.to_nat mid)) as [e He]; [lia|]. destruct (name_at_spec _ e buf He Hbuf) as (buf1 & En & Hbuf1). rewrite Z2Nat.id in En by lia.
  rewrite En. cbn [mbind outcome_bind]. assert (above (Z.to_nat mid)) as Ha by (apply (above_le 0); [lia|lia|done]). rewrite (Ha e He).
  destruct (Z.eqb_spec mid 0) as [Hm|Hm].
  - rewrite Hm. change (w64 (0 - 1)) with (2 ^ 64 - 1). cbn [search_name]. change (0 <=? 2 ^ 64 - 1) with true. cbv iota. change (w64 (0 + (2 ^ 64 - 1 - 0) / 2)) with (2 ^ 63 - 1).
    unfold name_at. rewrite sym_seq_out by lia. done.
  - rewrite w64_small by lia. apply IH; [lia| |done]. unfold mid in *. Z.to_euclidean_division_equations; lia.
Qed.

Lemma first_name_spec j e buf : nth_name j e → sym_name tokens e = name → Z.of_nat (length buf) = KSYM_NAME_LEN →
  ∃ i f, first_name ks KSYM_NAME_LEN j name buf = Done (Z.of_nat i) ∧ nth_name i f ∧ sym_name tokens f = name ∧
    ∀ i' f', nth_name i' f' → sym_name tokens f' = name → (i ≤ i')%nat.
Proof.
  revert e buf. induction j as [|j IH]; intros e buf He Hn Hbuf; [exists O, e; split_and!; [done|done|done|lia]|]. cbn [first_name].
  pose proof (nth_name_lt _ _ He) as Hj. destruct (nth_name_exists j) as [f Hf]; [lia|].
  destruct (name_at_spec j f buf Hf Hbuf) as (buf1 & -> & Hbuf1). cbn [mbind outcome_bind].
  destruct (compare_names name (sym_name tokens f)) eqn:Ec.
  - apply compare_names_eq in Ec. by apply (IH f).
  - pose proof (oo_sorted Horder j (S j) f e ltac:(lia) Hf He) as Hs. rewrite Hn, compare_names_antisym, Ec in Hs. done.
  - exists (S j), e. split; [done|]. split; [done|]. split; [done|]. intros i' f' Hf' Hn'. destruct (decide (S j ≤ i')%nat); [done|]. exfalso.
    assert (below i') as Hbl.
    { apply (below_le i' j); [lia|lia|]. intros g Hg. by rewrite <-(nth_name_fun _ _ _ Hf Hg). }
    pose proof (Hbl f' Hf') as Hc. rewrite Hn', compare_names_refl in Hc. done.
Qed.
End search.

(** The name is below the first one. *)
Definition is_below (name : list Z) : bool :=
  match i ← order !! 0%nat; table !! Z.to_nat i with
  | Some e => bool_decide (compare_names name (sym_name tokens e) = Lt)
  | None => false
  end.
Lemma is_below_spec name : is_below name = true ↔ above name 0.
Proof.
  unfold is_below. pose proof (ao_count _ _ Haddr). destruct (nth_name_exists 0) as [e He]; [lia|]. pose proof He as (i & Hi & Hie).
  rewrite Hi. cbn [mbind option_bind]. rewrite Hie, bool_decide_eq_true. split; [|intros Ha; by apply Ha].
  intros Hlt f Hf. by rewrite <-(nth_name_fun _ _ _ He Hf).
Qed.
(** [klookup]: the address of the first symbol with the name, -1 when there is none, but a
    name that is below all symbols makes the search leave the table. *)
Lemma klookup_spec fuel name : (26 ≤ fuel)%nat →
  (∀ i e, nth_name i e → sym_name tokens e = name → (∀ i' f, nth_name i' f → sym_name tokens f = name → (i ≤ i')%nat) →
     klookup ks KSYM_NAME_LEN fuel name = Done (e_addr e)) ∧
  ((∀ i e, nth_name i e → sym_name tokens e ≠ name) →
     klookup ks KSYM_NAME_LEN fuel name = if is_below name then Crash else Done not_found).
Proof.
  intros Hfuel. pose proof (oo_count Horder) as Hcount. pose proof (ao_count _ _ Haddr) as Hn.
  assert (0 < KSYM_NAME_LEN) as Hk.
  { destruct (nth_name_exists 0) as (e & i & _ & He); [lia|]. pose proof (oo_fits Horder) as Hf. rewrite Forall_lookup in Hf. pose proof (Hf _ _ He). lia. }
  set (buf := replicate (Z.to_nat KSYM_NAME_LEN) 0). assert (Z.of_nat (length buf) = KSYM_NAME_LEN) as Hbuf by (unfold buf; rewrite length_replicate; lia).
  assert (2 ^ 24 ≤ 2 ^ Z.of_nat (pred fuel)) as Hpow by (apply Z.pow_le_mono_r; lia).
  unfold klookup. fold buf. cbn [num_syms write_tables]. rewrite w64_small by lia. replace fuel with (S (pred fuel)) by lia. set (k := pred fuel) in *.
  assert (∀ j, Z.of_nat (length table) - 1 < Z.of_nat j → above name j) as Hend by (intros j Hj e He; apply nth_name_lt in He; lia).
  split.
  - intros i e He Hname Hfirst.
    assert (¬ above name 0) as H0'.
    { intros Ha. pose proof (above_le name 0 i ltac:(lia) ltac:(lia) Ha e He) as Hc. rewrite Hname, compare_names_refl in Hc. done. }
    destruct (search_name_spec name k H0' 0 (Z.of_nat (length table) - 1) buf) as (r & buf' & -> & Hbuf' & Hr); try done; try lia.
    cbn [mbind outcome_bind]. destruct r as [mid|]; [|by destruct (Hr i e He)].
    destruct Hr as (j & f & -> & Hf & Hnf). rewrite Nat2Z.id.
    destruct (first_name_spec name j f buf' Hf Hnf Hbuf') as (i' & g & -> & Hg & Hng & Hmin). cbn [mbind outcome_bind].
    assert (i' = i) as -> by (pose proof (Hmin i e He Hname); pose proof (Hfirst i' g Hg Hng); lia). rewrite <-(nth_name_fun _ _ _ Hg He).
    destruct Hg as (x & Hx & Hgx). rewrite (sym_seq_spec i x Hx). cbn [mbind outcome_bind].
    pose proof (oo_range Horder) as Hr. rewrite Forall_lookup in Hr. pose proof (Hr i x Hx).
    rewrite <-(sym_addr_spec tokens table order base sk ek Haddr _ _ Hgx). f_equal. lia.
  - intros Hnone. destruct (is_below name) eqn:Hb.
    + apply is_below_spec in Hb. by rewrite search_name_below by (done || lia).
    + assert (¬ above name 0) as H0' by (rewrite <-is_below_spec; by rewrite Hb).
      destruct (search_name_spec name k H0' 0 (Z.of_nat (length table) - 1) buf) as (r & buf' & -> & Hbuf' & Hr); try done; try lia.
      cbn [mbind outcome_bind]. destruct r as [mid|]; [|done]. destruct Hr as (j & f & _ & Hf & Hnf). by destruct (Hnone j f Hf).
Qed.
End names.

(** * The theorems *)
Record symbols_ok (tokens : list (list Z)) (table : list sym_entry) (order : list Z) (base KSYM_NAME_LEN : Z) : Prop := {
  so_tokens : tokens_ok tokens;
  so_entries : Forall (entry_ok tokens) table;
  so_addresses : addresses_ok table base;
  so_order : order_ok tokens table order KSYM_NAME_LEN }.

(** The generator writes the tables of such symbols. *)
Lemma write_src_writable tokens table order base sk ek ks : write_src table tokens order base sk ek = Some ks → ks = write_tables table tokens order base sk ek.
Proof. unfold write_src. destruct (forallb _ _); [|done]. by intros [=<-]. Qed.
Lemma write_src_ok tokens table order base sk ek KSYM_NAME_LEN : symbols_ok tokens table order base KSYM_NAME_LEN →
  write_src table tokens order base sk ek = Some (write_tables table tokens order base sk ek).
Proof.
  intros [_ Hent [Hb Hr _ _] _]. unfold write_src. rewrite (proj2 (forallb_forall _ _)); [done|].
  intros e Hin%list_elem_of_In. eapply Forall_forall in Hr as [Hr _]; [|done]. eapply Forall_forall in Hent as (Hl & Hu & _); [|done].
  unfold writable. rewrite s64_small by lia. rewrite !andb_true_iff, negb_true_iff, Z.eqb_neq, !Z.leb_le. unfold uint_max. lia.
Qed.

(** C27: the kernel reads the names that the generator has written: at the offset of symbol [pos]
    it finds its name, which is put into the buffer, cut to its room, with a terminator. *)
Theorem kallsyms_names tokens table order base sk ek ks KSYM_NAME_LEN pos e namebuf :
  write_src table tokens order base sk ek = Some ks → tokens_ok tokens → Forall (entry_ok tokens) table → table !! pos = Some e → 1 ≤ KSYM_NAME_LEN → (0 < length namebuf)%nat →
  let n := take (Z.to_nat (Z.min (Z.of_nat (length namebuf)) KSYM_NAME_LEN - 1)) (sym_name tokens e) in
  (off ← sym_offset ks (Z.of_nat pos); expand_symbol ks KSYM_NAME_LEN off namebuf) = Done (n ++ [0] ++ drop (S (length n)) namebuf).
Proof.
  intros ->%write_src_writable Htok Htab He Hk Hb n. rewrite (sym_offset_spec tokens table order base sk ek Htab) by by eapply lookup_lt_Some.
  by apply expand_symbol_spec.
Qed.

(** C26: the binary search by address ends and finds what a linear search would find: the symbol
    with the greatest address that is not above the given one, and the first of its aliases;
    the last symbol of the kernel is not found, since the loop looks for its end in the
    table. *)
Theorem lookup_addr_correct tokens table order base sk ek ks KSYM_NAME_LEN fuel addr namebuf e0 :
  write_src table tokens order base sk ek = Some ks → symbols_ok tokens table order base KSYM_NAME_LEN → table !! 0%nat = Some e0 → e_addr e0 ≤ addr < 2 ^ 64 → sk ≤ addr < ek →
  (33 ≤ fuel)%nat → (0 < length namebuf)%nat →
  ∃ i e, symbol_of table addr i e ∧
    lookup_addr ks KSYM_NAME_LEN fuel addr namebuf =
      if decide (Exists (λ f, e_addr e < e_addr f) table) then
        let n := take (Z.to_nat (Z.min (Z.of_nat (length namebuf)) KSYM_NAME_LEN - 1)) (sym_name tokens e) in
        Done (Some (addr - e_addr e), n ++ [0] ++ drop (S (length n)) namebuf)
      else Done (None, namebuf).
Proof.
  intros ->%write_src_writable [Htok Htab Haddr Hord] H0' Hlow Hin Hfuel Hb. eapply lookup_addr_spec; try done.
  - unfold in_kernel. simpl. apply andb_true_iff. split; [apply Z.leb_le|apply Z.ltb_lt]; lia.
  - pose proof (oo_fits _ _ _ _ Hord) as Hf. rewrite Forall_lookup in Hf. pose proof (Hf _ _ H0'). lia.
Qed.

(** C25: the binary search by name ends within 26 rounds.  It finds the first symbol with the name
    in the order of names; for a name that no symbol has the result is -1, unless the name is
    below all symbols: then [mid - 1] wraps around and the search reads outside of the
    tables. *)
Theorem klookup_correct tokens table order base sk ek ks KSYM_NAME_LEN fuel name :
  write_src table tokens order base sk ek = Some ks → symbols_ok tokens table order base KSYM_NAME_LEN → (26 ≤ fuel)%nat →
  (∀ i e, nth_name table order i e → sym_name tokens e = name →
     (∀ i' f, nth_name table order i' f → sym_name tokens f = name → (i ≤ i')%nat) →
     klookup ks KSYM_NAME_LEN fuel name = Done (e_addr e)) ∧
  ((∀ i e, nth_name table order i e → sym_name tokens e ≠ name) →
     klookup ks KSYM_NAME_LEN fuel name =
       if is_below tokens table order name then Crash else Done not_found).
Proof. intros ->%write_src_writable [Htok Htab Haddr Hord] Hfuel. by apply klookup_spec. Qed.

(** In the symbols of a module the end of a symbol belongs to it, so the first address of a
    symbol that follows another one directly is reported as the end of that one. *)
Lemma search_in_adjacent a b t : 0 ≤ s_size a → s_address b = w64 (s_address a + s_size a) → s_address a ≤ s_address b →
  search_in (s_address b) (a :: b :: t) = (a, w64 (s_address b - s_address a)).
Proof.
  intros Hs Hb Hle. unfold search_in. cbn [list_find]. rewrite decide_True; [done|].
  apply andb_true_iff. split; [by apply Z.leb_le|]. apply Z.leb_le. lia.
Qed.

(** * Example *)
Definition ex_tokens : list (list Z) := (λ c, if c =? 0 then [] else [c]) <$> seqZ 0 256.
Definition ex_symbols : list sym_entry := [mk_sym_entry 0x1000 [84; 98]; mk_sym_entry 0x1000 [84; 97]; mk_sym_entry 0x1010 [116; 97]; mk_sym_entry 0x1020 [66; 122]].
Definition ex_order : list Z := [1; 2; 0; 3].
Lemma ex_symbols_ok : symbols_ok ex_tokens ex_symbols ex_order 0x1000 16.
Proof.
  split.
  - apply (bool_decide_eq_true_1 (Forall (Forall (λ c, c ≠ 0)) ex_tokens)). vm_compute. reflexivity.
  - repeat constructor; simpl; lia.
  - split; [done|repeat constructor; simpl; lia| |simpl; lia].
    intros i j e f Hij Hi Hj. destruct i as [|[|[|[|?]]]], j as [|[|[|[|?]]]]; simplify_eq/=; lia.
  - split; [repeat constructor; simpl; lia|done|done|apply (bool_decide_eq_true_1 (Forall (λ e, Z.of_nat (length (sym_name ex_tokens e)) < 16) ex_symbols)); vm_compute; reflexivity|].
    intros i j e f Hij (x & Hx & He) (y & Hy & Hf). destruct i as [|[|[|[|?]]]], j as [|[|[|[|?]]]]; simplify_eq/=; try lia; vm_compute; discriminate.
Qed.
Definition ex_ks : kallsyms := write_tables ex_symbols ex_tokens ex_order 0x1000 0x1000 0x2000.
Lemma ex_written : write_src ex_symbols ex_tokens ex_order 0x1000 0x1000 0x2000 = Some ex_ks.
Proof. vm_compute. reflexivity. Qed.
Lemma kallsyms_names_witness : (off ← sym_offset ex_ks 2; expand_symbol ex_ks 16 off (replicate 4 7)) = Done [97; 0; 7; 7].
Proof.
  destruct ex_symbols_ok as [Htok Htab _ _].
  refine (eq_trans (kallsyms_names ex_tokens ex_symbols ex_order 0x1000 0x1000 0x2000 ex_ks 16 2 (mk_sym_entry 0x1010 [116; 97]) (replicate 4 7) ex_written Htok Htab _ _ _) _);
    [reflexivity|lia|simpl; lia|vm_compute; reflexivity].
Defined.
Lemma lookup_addr_correct_witness : ∃ i e, symbol_of ex_symbols 0x1004 i e ∧
  lookup_addr ex_ks 16 33 0x1004 (replicate 4 7) =
    if decide (Exists (λ f, e_addr e < e_addr f) ex_symbols) then
      let n := take (Z.to_nat (Z.min (Z.of_nat (length (replicate 4 7))) 16 - 1)) (sym_name ex_tokens e) in
      Done (Some (0x1004 - e_addr e), n ++ [0] ++ drop (S (length n)) (replicate 4 7))
    else Done (None, replicate 4 7).
Proof.
  apply (lookup_addr_correct ex_tokens ex_symbols ex_order 0x1000 0x1000 0x2000 ex_ks 16 33 0x1004 (replicate 4 7) (mk_sym_entry 0x1000 [84; 98]) ex_written ex_symbols_ok);
    [reflexivity|simpl; lia|lia|lia|simpl; lia].
Defined.
Lemma klookup_correct_witness : klookup ex_ks 16 26 [97] = Done 0x1000 ∧ klookup ex_ks 16 26 [99] = Done not_found ∧ klookup ex_ks 16 26 [65] = Crash.
Proof.
  split; [|split].
  - apply (proj1 (klookup_correct ex_tokens ex_symbols ex_order 0x1000 0x1000 0x2000 ex_ks 16 26 [97] ex_written ex_symbols_ok ltac:(lia)) 0%nat (mk_sym_entry 0x1000 [84; 97])).
    + by exists 1.
    + vm_compute. reflexivity.
    + lia.
  - refine (eq_trans (proj2 (klookup_correct ex_tokens ex_symbols ex_order 0x1000 0x1000 0x2000 ex_ks 16 26 [99] ex_written ex_symbols_ok ltac:(lia)) _) _); [|vm_compute; reflexivity].
    intros i e (x & Hx & He). destruct i as [|[|[|[|?]]]]; simplify_eq/=; vm_compute; discriminate.
  - refine (eq_trans (proj2 (klookup_correct ex_tokens ex_symbols ex_order 0x1000 0x1000 0x2000 ex_ks 16 26 [65] ex_written ex_symbols_ok ltac:(lia)) _) _); [|vm_compute; reflexivity].
    intros i e (x & Hx & He). destruct i as [|[|[|[|?]]]]; simplify_eq/=; vm_compute; discriminate.
Defined.
