(* ===== verification/Pci.v ===== *)
(** PCI (kernel/source/system/pci/pci.cpp, acpi.cpp and kernel/interfaces/system/pci): the
    enumeration of buses, bridges and devices through their configuration registers, their
    capabilities and base address registers, and the routing of interrupts.

    The objects ([bus], [bridge], [device]) live in stores under handles.  Variables that the
    code does not initialise are [None] until they are written; to read one is [Crash]. *)

From S2P Require Import Prelude Math.
#[local] Open Scope Z_scope.

(** [pci::configio]: [read] and [write] with the object, segment, bus, device, function, offset
    and width.  What the registers do is up to the hardware. *)
Class ConfigIo (C : Type) := {
  cio_read : Z → Z → Z → Z → Z → Z → Z → C → outcome (Z * C);
  cio_write : Z → Z → Z → Z → Z → Z → Z → Z → C → outcome C }.

(** * Registers *)
Definition reg_venid : Z := 0x00.
Definition reg_devid : Z := 0x02.
Definition reg_status : Z := 0x06.
Definition reg_progif : Z := 0x09.
Definition reg_subclass : Z := 0x0A.
Definition reg_class : Z := 0x0B.
Definition reg_header : Z := 0x0E.
Definition reg_bar0 : Z := 0x10.
Definition reg_secondary_bus : Z := 0x19.
Definition reg_subordinate_bus : Z := 0x1A.
Definition reg_capabilities : Z := 0x34.
Definition reg_intpin : Z := 0x3D.

(** * Interrupt routing *)
(** [router::model]. *)
Inductive model := model_none | model_root | model_expansion.
Definition fl_edge : Z := 1.
Definition fl_level : Z := 2.
Definition fl_high : Z := 4.
Definition fl_low : Z := 8.
(** [router::entry]. *)
Record entry := mk_entry { gsi : Z; en_dev : Z; en_func : Z; en_pin : Z; en_flags : Z }.
#[export] Instance entry_eq_dec : EqDecision entry.
Proof. solve_decision. Defined.

(** What the routers ask of uACPI: the routing table of a node, the first current resource of a
    link device and the devices below a node with their addresses. *)
Inductive prt (Src : Type) := PrtOk (routes : list (Z * Z * Z * option Src)) | PrtNotFound | PrtError.
Arguments PrtOk {Src} _.
Arguments PrtNotFound {Src}.
Arguments PrtError {Src}.
Inductive resource := Irq (irqs : list Z) (edge high : bool) | OtherResource.
Inductive adr := AdrOk (a : Z) | AdrNotFound | AdrError.
Class Acpi (Nd Src : Type) := {
  get_pci_routing_table : Nd → prt Src;
  get_current_resources : Src → option resource;
  devices_below : Nd → list (Nd * adr) }.

(** [acpi::router]. *)
Record router (Nd : Type) := mk_router { table : list entry; bridge_irq : list (option entry); mod_ : option model; node : option Nd }.
Arguments mk_router {Nd} _ _ _ _.
Arguments table {Nd} _.
Arguments bridge_irq {Nd} _.
Arguments mod_ {Nd} _.
Arguments node {Nd} _.

Section router.
Context `{Acpi Nd Src}.

Definition entry_matches (dev pin func : Z) (e : entry) : bool :=
  (en_dev e =? dev) && (en_pin e =? pin) && (if func =? -1 then true else (en_func e =? -1) || (en_func e =? func)).
Definition resolve (dev pin func : Z) (r : router Nd) : outcome (option entry) :=
  match mod_ r with
  | None => Crash
  | Some model_none => Done None
  | Some model_root => Done (snd <$> list_find (entry_matches dev pin func) (table r))
  | Some model_expansion => deref (bridge_irq r !! Z.to_nat (w64 (w64 (pin - 1) + dev) mod 4))
  end.

Definition route_link (source : option Src) (gsi : Z) : outcome (Z * Z * Z) :=
  match source with
  | None => Done (gsi, fl_level, fl_low)
  | Some src =>
      match get_current_resources src with
      | None => Panic
      | Some OtherResource => Panic
      | Some (Irq [] _ _) => Panic
      | Some (Irq (i :: _) edge high) => Done (i, if edge then fl_edge else fl_level, if high then fl_high else fl_low)
      end
  end.
Definition route_entry (r : Z * Z * Z * option Src) : outcome entry :=
  let '(address, pin, index, source) := r in
  let slot := Z.land (Z.shiftr address 16) 0xFFFF in
  let func := Z.land address 0xFFFF in
  '(gsi, triggering, polarity) ← route_link source index;
  Done (mk_entry gsi slot (if func =? 0xFFFF then -1 else func) (w8 (pin + 1)) (Z.lor triggering polarity)).
Fixpoint route_entries (l : list (Z * Z * Z * option Src)) : outcome (list entry) :=
  match l with [] => Done [] | r :: l => e ← route_entry r; es ← route_entries l; Done (e :: es) end.

Fixpoint parent_irqs (parent : router Nd) (dev : Z) (pins : list Z) : outcome (list (option entry)) :=
  match pins with
  | [] => Done []
  | pin :: pins => i ← resolve dev pin (-1) parent; irqs ← parent_irqs parent dev pins; Done (i :: irqs)
  end.
(** The constructor; [bridge_dev] is the device number of the bridge to the bus. *)
Definition new_router (parent : option (router Nd)) (bridge_dev : outcome Z) (nd : option Nd) : outcome (router Nd) :=
  let behind_bridge :=
    parent ← deref parent; dev ← bridge_dev;
    irqs ← parent_irqs parent dev [1; 2; 3; 4];
    Done (mk_router [] irqs (Some model_expansion) nd) in
  match nd with
  | None => behind_bridge
  | Some n =>
      match get_pci_routing_table n with
      | PrtNotFound => match parent with Some _ => behind_bridge | None => Done (mk_router [] [] None nd) end
      | PrtError => Done (mk_router [] [] None nd)
      | PrtOk routes => es ← route_entries routes; Done (mk_router es [] (Some model_root) nd)
      end
  end.
Definition adr_matches (addr : Z) (x : Nd * adr) : bool :=
  match snd x with AdrOk a => a =? addr | AdrNotFound => 0 =? addr | AdrError => false end.
Definition find_node (addr : Z) (l : list (Nd * adr)) : option Nd := (λ x, fst (snd x)) <$> list_find (adr_matches addr) l.
Definition downstream (me : router Nd) (dev func : Z) : outcome (router Nd) :=
  let dev_handle := n ← node me; find_node (Z.lor (Z.shiftl dev 16) func) (devices_below n) in
  new_router (Some me) (Done dev) dev_handle.
End router.

(** * Entities *)
(** [bar::type]. *)
Inductive bar_type := ty_invalid | ty_io | ty_mem.
Record bar := mk_bar { virt : Z; phys : Z; size : Z; prefetch : bool; bits64 : bool; type : bar_type }.
Record entity := mk_entity
  { parent : Z; dev : Z; func : Z; caps : list (Z * Z); is_pcie : option bool; is_secondary : option bool; bars : list (option bar) }.
Record device := mk_device
  { d_entity : entity; venid : Z; devid : Z; progif : Z; subclass : Z; class_ : Z; route : option (option entry) }.
Record bridge := mk_bridge
  { b_entity : entity; secondary_bus : option Z; subordinate_bus : option Z; associated_bus : option Z }.
Record bus (Nd : Type) := mk_bus
  { seg : Z; id : Z; bus_io : Z; associated_bridge : option Z; bus_router : option (router Nd); devices : list Z; bridges : list Z }.
Arguments mk_bus {Nd} _ _ _ _ _ _ _.
Arguments seg {Nd} _.
Arguments id {Nd} _.
Arguments bus_io {Nd} _.
Arguments associated_bridge {Nd} _.
Arguments bus_router {Nd} _.
Arguments devices {Nd} _.
Arguments bridges {Nd} _.

Definition devidx (seg bus dev func : Z) : Z :=
  w32 (Z.lor (Z.lor (Z.lor (w32 (Z.shiftl seg 24)) (Z.shiftl bus 16)) (Z.shiftl dev 8)) func).

(** * The objects and the configuration space *)
Section pci.
Context {C : Type} `{ConfigIo C} `{Acpi Nd Src}.

(** [ios] maps a bus to the object that accesses it, [rbs] are the root buses, [devs] and
    [brdgs] the maps of the file. *)
Record pci := mk_pci
  { cfg : C; ios : gmap Z Z; rbs : list Z; devs : gmap Z Z; brdgs : gmap Z Z;
    bus_at : gmap Z (bus Nd); device_at : gmap Z device; bridge_at : gmap Z bridge; next : Z }.
Definition set_cfg (c : C) (s : pci) : pci := mk_pci c (ios s) (rbs s) (devs s) (brdgs s) (bus_at s) (device_at s) (bridge_at s) (next s).
Definition put_bus (h : Z) (b : bus Nd) (s : pci) : pci :=
  mk_pci (cfg s) (ios s) (rbs s) (devs s) (brdgs s) (<[h := b]> (bus_at s)) (device_at s) (bridge_at s) (next s).
Definition put_device (h : Z) (d : device) (s : pci) : pci :=
  mk_pci (cfg s) (ios s) (rbs s) (devs s) (brdgs s) (bus_at s) (<[h := d]> (device_at s)) (bridge_at s) (next s).
Definition put_bridge (h : Z) (b : bridge) (s : pci) : pci :=
  mk_pci (cfg s) (ios s) (rbs s) (devs s) (brdgs s) (bus_at s) (device_at s) (<[h := b]> (bridge_at s)) (next s).
Definition put_devs (m : gmap Z Z) (s : pci) : pci := mk_pci (cfg s) (ios s) (rbs s) m (brdgs s) (bus_at s) (device_at s) (bridge_at s) (next s).
Definition put_brdgs (m : gmap Z Z) (s : pci) : pci := mk_pci (cfg s) (ios s) (rbs s) (devs s) m (bus_at s) (device_at s) (bridge_at s) (next s).
Definition put_rbs (l : list Z) (s : pci) : pci := mk_pci (cfg s) (ios s) l (devs s) (brdgs s) (bus_at s) (device_at s) (bridge_at s) (next s).
Definition put_ios (m : gmap Z Z) (s : pci) : pci := mk_pci (cfg s) m (rbs s) (devs s) (brdgs s) (bus_at s) (device_at s) (bridge_at s) (next s).

Definition pciM (A : Type) : Type := pci → outcome (A * pci).
#[export] Instance pciM_ret : MRet pciM := λ A a s, Done (a, s).
#[export] Instance pciM_bind : MBind pciM := λ A B f m s, '(a, s) ← m s; f a s.
Definition lift {A} (m : outcome A) : pciM A := λ s, a ← m; Done (a, s).
Definition update (f : pci → pci) : pciM unit := λ s, Done ((), f s).
(** [std::make_shared]. *)
Definition new_handle : pciM Z :=
  λ s, Done (next s, mk_pci (cfg s) (ios s) (rbs s) (devs s) (brdgs s) (bus_at s) (device_at s) (bridge_at s) (next s + 1)).
Definition get_bus (h : Z) : pciM (bus Nd) := λ s, b ← deref (bus_at s !! h); Done (b, s).
Definition get_bridge (h : Z) : pciM bridge := λ s, b ← deref (bridge_at s !! h); Done (b, s).

(** The object of a bus is alive as long as [ios] owns it. *)
Definition io_alive (io : Z) (s : pci) : bool := bool_decide (map_Exists (λ _ x, x = io) (ios s)).
Definition on_bus {A} (b : Z) (f : bus Nd → C → outcome (A * C)) : pciM A :=
  λ s, bs ← deref (bus_at s !! b);
       _ ← bug_on (negb (io_alive (bus_io bs) s));
       '(a, c) ← f bs (cfg s);
       Done (a, set_cfg c s).
Definition read (b dev func offset width : Z) : pciM Z :=
  on_bus b (λ bs, cio_read (bus_io bs) (seg bs) (id bs) dev func offset width).
Definition write (b dev func offset value width : Z) : pciM unit :=
  on_bus b (λ bs c, c ← cio_write (bus_io bs) (seg bs) (id bs) dev func offset value width c; Done ((), c)).

(** ** The constructor of an entity: its capabilities *)
Fixpoint caps_loop (fuel : nat) (offset : Z) (e : entity) : pciM entity :=
  match fuel with
  | O => λ _, NoFuel
  | S fuel =>
      if offset =? 0 then mret e else
      ent ← read (parent e) (dev e) (func e) offset 2;
      let ty := Z.land ent 0xFF in
      sec ← (if ty =? 0x10 then
               w ← read (parent e) (dev e) (func e) (offset + 2) 2;
               let tp := Z.land (Z.shiftr w 4) 0x0F in
               mret (Some ((tp =? 4) || (tp =? 6) || (tp =? 8)))
             else mret None);
      let e := mk_entity (parent e) (dev e) (func e) (caps e ++ [(ty, offset)])
                 (match sec with Some _ => Some true | None => is_pcie e end)
                 (match sec with Some _ => sec | None => is_secondary e end) (bars e) in
      caps_loop fuel (Z.land (Z.shiftr ent 8) 0xFC) e
  end.
(** A list without a cycle has at most 63 capabilities. *)
Definition caps_fuel : nat := 64.
Definition new_entity (fuel : nat) (b dev func : Z) (nbars : nat) : pciM entity :=
  let e := mk_entity b dev func [] None None (replicate nbars None) in
  status ← read b dev func reg_status 2;
  if Z.land status 0x10 =? 0 then mret e else
  offset ← read b dev func reg_capabilities 2;
  caps_loop fuel (Z.land offset 0xFC) e.

(** ** [read_bars] *)
Definition probe (e : entity) (offset : Z) : pciM (Z * Z) :=
  v ← read (parent e) (dev e) (func e) offset 4;
  _ ← write (parent e) (dev e) (func e) offset 0xFFFFFFFF 4;
  len ← read (parent e) (dev e) (func e) offset 4;
  _ ← write (parent e) (dev e) (func e) offset v 4;
  mret (v, len).
Definition io_bar (v len : Z) : bar :=
  let addr := Z.land v (Z.lnot 3) in
  mk_bar addr addr (Z.land (w32 (- Z.land len (Z.lnot 3))) 0xFFFF) false false ty_io.
Definition mem_bar (v addr length : Z) (bit64 : bool) : bar :=
  mk_bar 0 addr length (negb (Z.land v 8 =? 0)) bit64 (if (addr =? 0) && (length =? 0) then ty_invalid else ty_mem).
(** The [i]-th base address register and those after it, for at most [n] registers. *)
Fixpoint bars_loop (n : nat) (i nbars : Z) (e : entity) (bars : list (option bar)) : pciM (list (option bar)) :=
  match n with
  | O => mret bars
  | S n =>
      if nbars <=? i then mret bars else
      let offset := reg_bar0 + i * 4 in
      '(v, lenlow) ← probe e offset;
      if negb (Z.land v 1 =? 0) then bars_loop n (i + 1) nbars e (<[Z.to_nat i := Some (io_bar v lenlow)]> bars) else
      let ty := Z.land (Z.shiftr v 1) 3 in
      let addr := Z.land v (Z.lnot 15) in
      if ty =? 0 then
        bars_loop n (i + 1) nbars e (<[Z.to_nat i := Some (mem_bar v addr (w32 (- Z.land lenlow (Z.lnot 15))) false)]> bars)
      else if ty =? 2 then
        if i =? nbars - 1 then bars_loop n (i + 1) nbars e bars else
        '(vh, lenhigh) ← probe e (offset + 4);
        let length := w64 (- Z.lor (Z.shiftl lenhigh 32) (Z.land lenlow (Z.lnot 15))) in
        let bars := <[Z.to_nat i := Some (mem_bar v (Z.lor (Z.shiftl vh 32) addr) length true)]> bars in
        bars_loop n (i + 2) nbars e (<[Z.to_nat (i + 1) := Some (mk_bar 0 0 0 false true ty_invalid)]> bars)
      else bars_loop n (i + 1) nbars e (<[Z.to_nat i := Some (mem_bar v 0 0 false)]> bars)
  end.
Definition read_bars (e : entity) : pciM entity :=
  let nbars := length (bars e) in
  l ← bars_loop nbars 0 (Z.of_nat nbars) e (bars e);
  mret (mk_entity (parent e) (dev e) (func e) (caps e) (is_pcie e) (is_secondary e) l).

(** ** Enumeration *)
Definition add_device (b h : Z) : pciM unit :=
  bs ← get_bus b;
  update (put_bus b (mk_bus (seg bs) (id bs) (bus_io bs) (associated_bridge bs) (bus_router bs) (devices bs ++ [h]) (bridges bs))).
Definition add_bridge (b h : Z) : pciM unit :=
  bs ← get_bus b;
  update (put_bus b (mk_bus (seg bs) (id bs) (bus_io bs) (associated_bridge bs) (bus_router bs) (devices bs) (bridges bs ++ [h]))).

Definition enum_device (b dev func venid devid : Z) : pciM unit :=
  progif ← read b dev func reg_progif 1;
  subclass ← read b dev func reg_subclass 1;
  class_ ← read b dev func reg_class 1;
  e ← new_entity caps_fuel b dev func 6;
  e ← read_bars e;
  pin ← read b dev func reg_intpin 1;
  bs ← get_bus b;
  route ← match bus_router bs with
          | Some r => if pin =? 0 then mret None else e ← lift (resolve dev pin (-1) r); mret (Some e)
          | None => mret None
          end;
  h ← new_handle;
  _ ← update (put_device h (mk_device e venid devid progif subclass class_ route));
  _ ← add_device b h;
  bs ← get_bus b;
  update (λ s, put_devs (<[devidx (seg bs) (id bs) dev func := h]> (devs s)) s).

(** A bridge and the bus behind it, which [enum_bus] enumerates. *)
Definition enum_bridge (enum_bus : Z → pciM unit) (b dev func : Z) : pciM unit :=
  e ← new_entity caps_fuel b dev func 2;
  e ← read_bars e;
  h ← new_handle;
  _ ← update (put_bridge h (mk_bridge e None None None));
  secondary_id ← read b dev func reg_secondary_bus 1;
  _ ← (if secondary_id =? 0 then mret () else
    subordinate_id ← read b dev func reg_subordinate_bus 1;
    bs ← get_bus b;
    r ← match bus_router bs with Some r => r' ← lift (downstream r dev func); mret (Some r') | None => mret None end;
    sb ← new_handle;
    _ ← update (put_bus sb (mk_bus (seg bs) secondary_id (bus_io bs) (Some h) r [] []));
    _ ← update (put_bridge h (mk_bridge e (Some secondary_id) (Some subordinate_id) (Some sb)));
    enum_bus sb);
  _ ← add_bridge b h;
  bs ← get_bus b;
  update (λ s, put_brdgs (<[devidx (seg bs) (id bs) dev func := h]> (brdgs s)) s).

Definition enum_func (enum_bus : Z → pciM unit) (b dev func : Z) : pciM unit :=
  venid ← read b dev func reg_venid 2;
  devid ← read b dev func reg_devid 2;
  if (venid =? 0xFFFF) || (devid =? 0xFFFF) then mret () else
  header ← read b dev func reg_header 1;
  let header := Z.land header 0x7F in
  if header =? 0x00 then enum_device b dev func venid devid
  else if header =? 0x01 then enum_bridge enum_bus b dev func
  else λ _, Panic.

Fixpoint for_each (f : Z → pciM unit) (l : list Z) : pciM unit :=
  match l with [] => mret () | i :: l => _ ← f i; for_each f l end.
Definition enum_dev (enum_bus : Z → pciM unit) (b dev : Z) : pciM unit :=
  venid ← read b dev 0 reg_venid 2;
  if venid =? 0xFFFF then mret () else
  header ← read b dev 0 reg_header 1;
  if Z.land header 0x80 =? 0 then enum_func enum_bus b dev 0
  else for_each (enum_func enum_bus b dev) (seqZ 0 8).

(** Whether all 32 devices of a bus are looked at. *)
Definition devs32 (b : Z) : pciM bool :=
  bs ← get_bus b;
  match associated_bridge bs with
  | None => mret true
  | Some h =>
      br ← get_bridge h;
      pcie ← lift (deref (is_pcie (b_entity br)));
      if negb pcie then mret true else
      secondary ← lift (deref (is_secondary (b_entity br)));
      mret (negb secondary)
  end.
Fixpoint enum_bus (fuel : nat) (b : Z) : pciM unit :=
  match fuel with
  | O => λ _, NoFuel
  | S fuel => all ← devs32 b; for_each (enum_dev (enum_bus fuel) b) (seqZ 0 (if all : bool then 32 else 1))
  end.

(** ** Configuration spaces and root buses *)
Definition addio (io seg bus : Z) : pciM unit :=
  let idx := Z.lor (Z.shiftl seg 8) bus in
  λ s, _ ← bug_on (bool_decide (is_Some (ios s !! idx))); Done ((), put_ios (<[idx := io]> (ios s)) s).
Definition getio (seg bus : Z) : pciM Z :=
  λ s, io ← match ios s !! Z.lor (Z.shiftl seg 8) bus with Some io => Done io | None => Panic end; Done (io, s).
Definition addrb (b : Z) : pciM unit := update (λ s, put_rbs (rbs s ++ [b]) s).
(** [std::make_shared<bus>(seg, id, io)]. *)
Definition new_bus (seg id io : Z) (r : option (router Nd)) : pciM Z :=
  h ← new_handle; _ ← update (put_bus h (mk_bus seg id io None r [] [])); mret h.

(** The tasks of acpi.cpp: an entry of the MCFG table with the object made for it, and the host
    bridges with their segment and bus number. *)
Definition add_ecam (io seg start_bus end_bus : Z) : pciM unit :=
  for_each (addio io seg) (seqZ start_bus (end_bus - start_bus + 1)).
Definition acpi_root (x : Nd * Z * Z) : pciM unit :=
  let '(n, seg, bus) := x in
  io ← getio (w16 seg) (w8 bus);
  r ← lift (new_router None Crash (Some n));
  h ← new_bus (w16 seg) (w8 bus) io (Some r);
  addrb h.
(** The tasks of the architecture; [io] is the object that uses the ports. *)
Definition legacy_ios (io : Z) : pciM unit := for_each (addio io 0) (seqZ 0 256).
Definition read_at (io bus dev func offset width : Z) : pciM Z :=
  λ s, '(v, c) ← cio_read io 0 bus dev func offset width (cfg s); Done (v, set_cfg c s).
Fixpoint legacy_roots_loop (io : Z) (l : list Z) (at_least_one : bool) : pciM bool :=
  match l with
  | [] => mret at_least_one
  | i :: l =>
      venid ← read_at io 0 0 i reg_venid 2;
      if venid =? 0xFFFF then legacy_roots_loop io l at_least_one else
      io' ← getio 0 i;
      h ← new_bus 0 i io' None;
      _ ← addrb h;
      legacy_roots_loop io l true
  end.
Definition legacy_roots : pciM unit :=
  io ← getio 0 0;
  header ← read_at io 0 0 0 reg_header 1;
  at_least_one ← (if Z.land header 0x80 =? 0 then mret false else legacy_roots_loop io (seqZ 0 8) false);
  if at_least_one : bool then mret () else h ← new_bus 0 0 io None; addrb h.

(** The task of pci.cpp. *)
Definition enumerate (fuel : nat) : pciM unit :=
  λ s, if bool_decide (ios s = ∅) then Done ((), s) else for_each (enum_bus fuel) (rbs s) s.

(** All tasks in their order, for the entries of the MCFG table with an object each, the object
    for the ports and the host bridges that uACPI finds. *)
Fixpoint ecam_ios (mcfg : list (Z * Z * Z * Z)) : pciM unit :=
  match mcfg with [] => mret () | (io, seg, first, last) :: mcfg => _ ← add_ecam io seg first last; ecam_ios mcfg end.
Fixpoint acpi_roots (l : list (Nd * Z * Z)) : pciM unit :=
  match l with [] => mret () | x :: l => _ ← acpi_root x; acpi_roots l end.
Definition pci_tasks (fuel : nat) (mcfg : list (Z * Z * Z * Z)) (ports : Z) (host_bridges : list (Nd * Z * Z)) : pciM unit :=
  _ ← ecam_ios mcfg;
  _ ← (if forallb (λ '(_, _, first, last), last <? first) mcfg then legacy_ios ports else mret ());
  _ ← acpi_roots host_bridges;
  _ ← (match host_bridges with [] => legacy_roots | _ => mret () end);
  enumerate fuel.
End pci.
Arguments pci C Nd : clear implicits.
Arguments mk_pci {C Nd} _ _ _ _ _ _ _ _ _.
Arguments pciM C Nd A : clear implicits.
