(* ===== verification/PciSpec.v ===== *)
(** What the registers of a PCI function promise, and what the kernel reads from them:
    capabilities and base address registers. *)

From S2P Require Import Prelude Math Pci.
#[local] Open Scope Z_scope.

(** * The hardware *)
Record fn := mk_fn { f_seg : Z; f_bus : Z; f_dev : Z; f_func : Z }.
#[export] Instance fn_eq_dec : EqDecision fn.
Proof. solve_decision. Defined.
Definition valid_fn (f : fn) : Prop := 0 ≤ f_seg f < 2 ^ 16 ∧ 0 ≤ f_bus f < 256 ∧ 0 ≤ f_dev f < 32 ∧ 0 ≤ f_func f < 8.
Definition valid_reg (off : Z) : Prop := 0 ≤ off < 256 ∧ (4 | off).
(** A base address register. *)
Definition bar_reg (off : Z) : Prop := 0x10 ≤ off < 0x28 ∧ (4 | off).

(** A field of the 32-bit registers [R]. *)
Definition field (R : fn → Z → Z) (f : fn) (off width : Z) : Z :=
  (R f (off - off mod 4) / 2 ^ (8 * (off mod 4))) mod 2 ^ (8 * width).
Definition valid_field (off width : Z) : Prop := 0 ≤ off ∧ off + width ≤ 256 ∧ (width | off) ∧ (width = 1 ∨ width = 2 ∨ width = 4).
(** A register of which only the bits [mask] can be written. *)
Definition written (mask old value : Z) : Z := Z.lor (Z.land value mask) (Z.land old (Z.lnot mask)).

(** Reading a configuration register has no effect on the registers; a write to a base address
    register changes the bits that its size leaves open. *)
Class ConfigLaws (C : Type) `{ConfigIo C} := {
  cl_inv : C → Prop;
  cl_reg : C → fn → Z → Z;
  cl_mask : fn → Z → Z;
  cl_serves : Z → Z → Z → Prop;
  cl_range c f off : cl_inv c → 0 ≤ cl_reg c f off < 2 ^ 32;
  cl_mask_range f off : 0 ≤ cl_mask f off < 2 ^ 32;
  cl_read io f off width c : cl_inv c → valid_fn f → cl_serves io (f_seg f) (f_bus f) → valid_field off width →
    ∃ c', cio_read io (f_seg f) (f_bus f) (f_dev f) (f_func f) off width c = Done (field (cl_reg c) f off width, c') ∧
      cl_inv c' ∧ ∀ g o, valid_fn g → valid_reg o → cl_reg c' g o = cl_reg c g o;
  cl_write io f off v c : cl_inv c → valid_fn f → cl_serves io (f_seg f) (f_bus f) → bar_reg off → 0 ≤ v < 2 ^ 32 →
    ∃ c', cio_write io (f_seg f) (f_bus f) (f_dev f) (f_func f) off v 4 c = Done c' ∧
      cl_inv c' ∧ ∀ g o, valid_fn g → valid_reg o →
        cl_reg c' g o = if decide (g = f ∧ o = off) then written (cl_mask f off) (cl_reg c f off) v else cl_reg c g o }.

(** A field at a fixed place. *)
Ltac valid_reg :=
  split_and!; [vm_compute; discriminate|vm_compute; discriminate|apply Z.mod_divide; [done|reflexivity]|lia].
Lemma field_range R f off width : 0 ≤ width → 0 ≤ field R f off width < 2 ^ (8 * width).
Proof. intros Hw. unfold field. apply Z.mod_pos_bound. apply Z.pow_pos_nonneg; lia. Qed.
Lemma field_reg R f off : (4 | off) → 0 ≤ R f off < 2 ^ 32 → field R f off 4 = R f off.
Proof.
  intros [q ->] Hr. unfold field. rewrite Z.mod_mul by lia. rewrite Z.sub_0_r. change (2 ^ (8 * 0)) with 1. rewrite Z.div_1_r. by apply Z.mod_small.
Qed.
Lemma written_twice m v x : written m (written m v x) v = v.
Proof.
  unfold written. apply Z.bits_inj'. intros i Hi. rewrite !Z.lor_spec, !Z.land_spec, Z.lor_spec, !Z.land_spec, !Z.lnot_spec by lia.
  destruct (Z.testbit v i), (Z.testbit m i), (Z.testbit x i); done.
Qed.

Section config.
Context {C : Type} `{ConfigLaws C} `{Acpi Nd Src}.

(** The registers are [R]. *)
Definition holds (R : fn → Z → Z) (s : pci C Nd) : Prop := cl_inv (cfg s) ∧ ∀ f off, valid_fn f → valid_reg off → cl_reg (cfg s) f off = R f off.
(** Function [f] can be reached through bus [b]. *)
Definition usable (s : pci C Nd) (b : Z) (f : fn) : Prop :=
  valid_fn f ∧ ∃ bs, bus_at s !! b = Some bs ∧ seg bs = f_seg f ∧ id bs = f_bus f ∧ io_alive (bus_io bs) s = true ∧
    cl_serves (bus_io bs) (f_seg f) (f_bus f).

Lemma usable_set_cfg (s : pci C Nd) c b f : usable (set_cfg c s) b f ↔ usable s b f.
Proof. done. Qed.
Lemma set_cfg_twice (c c' : C) (s : pci C Nd) : set_cfg c (set_cfg c' s) = set_cfg c s.
Proof. done. Qed.
Lemma field_agree R R' f off width : valid_field off width → valid_fn f → (∀ o, valid_reg o → R f o = R' f o) → field R f off width = field R' f off width.
Proof.
  intros (Ho1 & Ho2 & _ & Hw) Hf Heq. unfold field. rewrite Heq; [done|]. pose proof (Z.mod_pos_bound off 4 ltac:(lia)). pose proof (Z.div_mod off 4 ltac:(lia)).
  split; [destruct Hw as [->|[->| ->]]; lia|exists (off / 4); lia].
Qed.
Lemma holds_range R s f off : holds R s → valid_fn f → valid_reg off → 0 ≤ R f off < 2 ^ 32.
Proof. intros [Hi HR] Hf Ho. rewrite <-HR by done. by apply cl_range. Qed.

Lemma read_holds R s b f off width : holds R s → usable s b f → valid_field off width →
  ∃ c, read b (f_dev f) (f_func f) off width s = Done (field R f off width, set_cfg c s) ∧ holds R (set_cfg c s).
Proof.
  intros [Hi HR] (Hf & bs & Hb & Hs & Hid & Hal & Hsv) Ho. unfold read, on_bus. rewrite Hb. cbn [deref mbind outcome_bind]. rewrite Hal. cbn [negb bug_on mbind outcome_bind].
  rewrite Hs, Hid. destruct (cl_read (bus_io bs) f off width (cfg s)) as (c & -> & Hc & HR'); try done. cbn [mbind outcome_bind]. exists c. split.
  - rewrite (field_agree _ R); [done|done|done|]. intros o Hv. by apply HR.
  - split; [done|]. intros g o Hg Hv. simpl. rewrite HR' by done. by apply HR.
Qed.
Lemma write_holds R s b f off v : holds R s → usable s b f → bar_reg off → 0 ≤ v < 2 ^ 32 →
  ∃ c, write b (f_dev f) (f_func f) off v 4 s = Done ((), set_cfg c s) ∧
    holds (λ g o, if decide (g = f ∧ o = off) then written (cl_mask f off) (R f off) v else R g o) (set_cfg c s).
Proof.
  intros [Hi HR] (Hf & bs & Hb & Hs & Hid & Hal & Hsv) Ho Hv. unfold write, on_bus. rewrite Hb. cbn [deref mbind outcome_bind]. rewrite Hal. cbn [negb bug_on mbind outcome_bind].
  rewrite Hs, Hid. destruct (cl_write (bus_io bs) f off v (cfg s)) as (c & -> & Hc & HR'); try done. cbn [mbind outcome_bind]. exists c. split; [done|].
  split; [done|]. intros g o Hg Hvo. simpl. rewrite HR' by done. destruct Ho as [Ho Hd]. rewrite !HR; [done|done|done|done|split; [lia|done]].
Qed.

(** * Capabilities *)
Definition cap_type (R : fn → Z → Z) (f : fn) (off : Z) : Z := Z.land (field R f off 2) 0xFF.
Definition cap_next (R : fn → Z → Z) (f : fn) (off : Z) : Z := Z.land (Z.shiftr (field R f off 2) 8) 0xFC.
Definition cap_secondary (R : fn → Z → Z) (f : fn) (off : Z) : bool :=
  let tp := Z.land (Z.shiftr (field R f (off + 2) 2) 4) 0x0F in (tp =? 4) || (tp =? 6) || (tp =? 8).
(** The list of capabilities from [off] on has the offsets [l]. *)
Inductive cap_chain (R : fn → Z → Z) (f : fn) : Z → list Z → Prop :=
| chain_end : cap_chain R f 0 []
| chain_next off l : off ≠ 0 → cap_chain R f (cap_next R f off) l → cap_chain R f off (off :: l).
Definition caps_at (R : fn → Z → Z) (f : fn) (l : list Z) : Prop :=
  if Z.land (field R f reg_status 2) 0x10 =? 0 then l = [] else cap_chain R f (Z.land (field R f reg_capabilities 2) 0xFC) l.
(** What a capability adds to an entity. *)
Definition add_cap (R : fn → Z → Z) (f : fn) (e : entity) (off : Z) : entity :=
  let pcie := cap_type R f off =? 0x10 in
  mk_entity (parent e) (dev e) (func e) (caps e ++ [(cap_type R f off, off)])
    (if pcie then Some true else is_pcie e) (if pcie then Some (cap_secondary R f off) else is_secondary e) (bars e).
Definition entity_of (R : fn → Z → Z) (f : fn) (b : Z) (l : list Z) (nbars : nat) : entity :=
  foldl (add_cap R f) (mk_entity b (f_dev f) (f_func f) [] None None (replicate nbars None)) l.

Definition cap_off (off : Z) : Prop := 0 ≤ off < 256 ∧ (4 | off).
Lemma cap_off_land x : cap_off (Z.land x 0xFC).
Proof.
  split.
  - replace (Z.land x 0xFC) with (Z.land (Z.land x 0xFC) (Z.ones 8)) by by rewrite <-Z.land_assoc.
    rewrite Z.land_ones by lia. by apply Z.mod_pos_bound.
  - apply Z.mod_divide; [lia|]. change 4 with (2 ^ 2). rewrite <-Z.land_ones, <-Z.land_assoc by lia. by rewrite Z.land_0_r.
Qed.
Lemma valid_cap off : cap_off off → valid_field off 2 ∧ valid_field (off + 2) 2.
Proof. intros [Ho [q ->]]. unfold valid_field. split_and!; try lia; [by exists (2 * q); lia|by exists (2 * q + 1); lia]. Qed.

Lemma chain_det R f off l l' : cap_chain R f off l → cap_chain R f off l' → l = l'.
Proof. intros Hl. revert l'. induction Hl as [|off l Hz Hl IH]; intros l' Hl'; inversion Hl'; subst; try done. f_equal. by apply IH. Qed.
Lemma chain_from R f off l x : cap_chain R f off l → x ∈ l → ∃ l', cap_chain R f x l' ∧ (length l' ≤ length l)%nat.
Proof.
  induction 1 as [|off l Hz Hl IH]; intros Hx; [by apply not_elem_of_nil in Hx|]. apply elem_of_cons in Hx as [->|Hx].
  - exists (off :: l). split; [by constructor|done].
  - destruct (IH Hx) as (l' & Hl' & Hle). exists l'. simpl. split; [done|lia].
Qed.
Lemma chain_offs R f off l : cap_chain R f off l → cap_off off → Forall (λ o, cap_off o ∧ o ≠ 0) l ∧ NoDup l.
Proof.
  induction 1 as [|off l Hz Hl IH]; intros Ho; [by split; constructor|]. destruct (IH (cap_off_land _)) as [Hf Hn]. split; [by constructor|].
  constructor; [|done]. intros Hin. destruct (chain_from _ _ _ _ _ Hl Hin) as (l' & Hl' & Hle).
  assert (l' = off :: l) as -> by (by eapply chain_det; [|constructor]). simpl in Hle. lia.
Qed.
(** The 63 offsets that are left bound the length. *)
Lemma chain_length R f off l : cap_chain R f off l → cap_off off → (length l ≤ 63)%nat.
Proof.
  intros Hl Ho. destruct (chain_offs _ _ _ _ Hl Ho) as [Hf Hn]. change 63%nat with (length ((λ i, 4 * i) <$> seqZ 1 63)).
  apply submseteq_length, NoDup_submseteq; [done|]. intros o Hin. rewrite Forall_forall in Hf. destruct (Hf o Hin) as [[Hr [q ->]] Hz].
  rewrite Z.mul_comm. apply list_elem_of_fmap_2, elem_of_seqZ. lia.
Qed.

(** One capability. *)
Lemma caps_step R s e f off fuel : holds R s → usable s (parent e) f → dev e = f_dev f → func e = f_func f → cap_off off → off ≠ 0 →
  ∃ c, caps_loop (S fuel) off e s = caps_loop fuel (cap_next R f off) (add_cap R f e off) (set_cfg c s) ∧ holds R (set_cfg c s).
Proof.
  intros HR Hu Hd Hf Ho Hz. destruct (valid_cap off Ho) as [Hv1 Hv2]. cbn [caps_loop]. rewrite (proj2 (Z.eqb_neq off 0) Hz), Hd, Hf.
  destruct (read_holds R s (parent e) f off 2 HR Hu Hv1) as (c & E & HR1). unfold mbind, pciM_bind. rewrite E. cbn [mbind outcome_bind]. clear E.
  unfold add_cap. fold (cap_type R f off). destruct (cap_type R f off =? 0x10).
  - destruct (read_holds R (set_cfg c s) (parent e) f (off + 2) 2 HR1 Hu Hv2) as (c' & E & HR2). rewrite E. cbn [mbind outcome_bind]. rewrite set_cfg_twice in *.
    exists c'. by rewrite <-Hd, <-Hf.
  - exists c. cbn [mret pciM_ret mbind outcome_bind]. by rewrite <-Hd, <-Hf.
Qed.
Lemma caps_loop_chain R f off l : cap_chain R f off l → ∀ fuel e s, holds R s → usable s (parent e) f → dev e = f_dev f → func e = f_func f → cap_off off →
  (length l < fuel)%nat → ∃ c, caps_loop fuel off e s = Done (foldl (add_cap R f) e l, set_cfg c s) ∧ holds R (set_cfg c s).
Proof.
  induction 1 as [|off l Hz Hl IH]; intros fuel e s HR Hu Hd Hf Ho Hfuel; (destruct fuel as [|fuel]; [simpl in Hfuel; lia|]).
  - exists (cfg s). split; [by destruct s|by destruct s].
  - destruct (caps_step R s e f off fuel HR Hu Hd Hf Ho Hz) as (c & -> & HR'). simpl in Hfuel.
    destruct (IH fuel (add_cap R f e off) (set_cfg c s)) as (c' & -> & HR2); try done; [apply cap_off_land|lia|]. exists c'. done.
Qed.
Lemma caps_loop_cyclic R f fuel : ∀ off e s, holds R s → usable s (parent e) f → dev e = f_dev f → func e = f_func f → cap_off off →
  (∀ l, ¬ cap_chain R f off l) → caps_loop fuel off e s = NoFuel.
Proof.
  induction fuel as [|fuel IH]; intros off e s HR Hu Hd Hf Ho Hn; [done|].
  destruct (decide (off = 0)) as [->|Hz]; [by destruct (Hn []); constructor|].
  destruct (caps_step R s e f off fuel HR Hu Hd Hf Ho Hz) as (c & -> & HR'). apply IH; try done; [apply cap_off_land|].
  intros l Hl. apply (Hn (off :: l)). by constructor.
Qed.
(** A list ends, or it has a cycle. *)
Lemma chain_or_cycle R f n : ∀ off, (∃ l, cap_chain R f off l) ∨ ∀ l, cap_chain R f off l → (n ≤ length l)%nat.
Proof.
  induction n as [|n IH]; intros off; [right; lia|]. destruct (decide (off = 0)) as [->|Hz]; [left; eexists; constructor|].
  destruct (IH (cap_next R f off)) as [[l Hl]|Hn]; [left; exists (off :: l); by constructor|].
  right. intros l Hl. inversion Hl; subst; [done|]. simpl. apply le_n_S. by apply Hn.
Qed.
Lemma chain_or_none R f off : cap_off off → (∃ l, cap_chain R f off l) ∨ ∀ l, ¬ cap_chain R f off l.
Proof.
  intros Ho. destruct (chain_or_cycle R f 64 off) as [?|Hn]; [by left|right]. intros l Hl. pose proof (Hn l Hl). pose proof (chain_length _ _ _ _ Hl Ho). lia.
Qed.
Lemma caps_at_length R f l : caps_at R f l → (length l ≤ 63)%nat.
Proof. unfold caps_at. destruct (_ =? 0); [intros ->; simpl; lia|]. intros Hl. by eapply chain_length, cap_off_land. Qed.
Lemma new_entity_caps R s b f nbars l fuel : holds R s → usable s b f → caps_at R f l → (64 ≤ fuel)%nat →
  ∃ c, new_entity fuel b (f_dev f) (f_func f) nbars s = Done (entity_of R f b l nbars, set_cfg c s) ∧ holds R (set_cfg c s).
Proof.
  intros HR Hu Hl Hfuel. pose proof (caps_at_length _ _ _ Hl) as Hle. unfold new_entity. unfold mbind at 1, pciM_bind at 1.
  destruct (read_holds R s b f reg_status 2 HR Hu) as (c & -> & HR1); [by valid_reg|]. cbn [mbind outcome_bind]. unfold caps_at in Hl.
  destruct (_ =? 0); [subst l; by exists c|]. unfold mbind at 1, pciM_bind at 1.
  destruct (read_holds R (set_cfg c s) b f reg_capabilities 2 HR1 Hu) as (c' & -> & HR2); [by valid_reg|]. cbn [mbind outcome_bind].
  rewrite set_cfg_twice in *.
  destruct (caps_loop_chain R f _ _ Hl fuel (mk_entity b (f_dev f) (f_func f) [] None None (replicate nbars None)) (set_cfg c' s)) as (c2 & -> & HR3);
    try done; [apply cap_off_land|lia|]. by exists c2.
Qed.
Lemma new_entity_cyclic R s b f nbars fuel : holds R s → usable s b f → (∀ l, ¬ caps_at R f l) →
  new_entity fuel b (f_dev f) (f_func f) nbars s = NoFuel.
Proof.
  intros HR Hu Hl. unfold new_entity. unfold mbind at 1, pciM_bind at 1.
  destruct (read_holds R s b f reg_status 2 HR Hu) as (c & -> & HR1); [by valid_reg|]. cbn [mbind outcome_bind]. unfold caps_at in Hl.
  destruct (_ =? 0); [by destruct (Hl [])|]. unfold mbind at 1, pciM_bind at 1.
  destruct (read_holds R (set_cfg c s) b f reg_capabilities 2 HR1 Hu) as (c' & -> & HR2); [by valid_reg|]. cbn [mbind outcome_bind].
  by rewrite (caps_loop_cyclic R f fuel) by (done || apply cap_off_land).
Qed.
Lemma caps_or_none R f : (∃ l, caps_at R f l) ∨ ∀ l, ¬ caps_at R f l.
Proof. unfold caps_at. destruct (_ =? 0); [left; by exists []|]. apply chain_or_none, cap_off_land. Qed.
End config.

(** * Registers without side effects
    An implementation of the interface: a map of registers, where absent ones read as ones. *)
Abbreviation regfile := (gmap (Z * Z * Z * Z * Z) Z).
Definition key (f : fn) (off : Z) : Z * Z * Z * Z * Z := (f_seg f, f_bus f, f_dev f, f_func f, off).
Definition file_reg (m : regfile) (f : fn) (off : Z) : Z := default 0xFFFFFFFF (m !! key f off).
Definition file_ok (m : regfile) : Prop := map_Forall (λ _ v, 0 ≤ v < 2 ^ 32) m.
Section register_file.
Context (mask : fn → Z → Z).
Definition file_io : ConfigIo regfile :=
  {| cio_read _ seg bus dev func off width m := Done (field (file_reg m) (mk_fn seg bus dev func) off width, m);
     cio_write _ seg bus dev func off v _ m :=
       let f := mk_fn seg bus dev func in Done (<[key f off := written (mask f off) (file_reg m f off) v]> m) |}.
Lemma written_range m v x : 0 ≤ m < 2 ^ 32 → 0 ≤ v < 2 ^ 32 → 0 ≤ x < 2 ^ 32 → 0 ≤ written m v x < 2 ^ 32.
Proof.
  intros Hm Hv Hx. assert (written m v x = written m v x mod 2 ^ 32) as ->; [|by apply Z.mod_pos_bound].
  rewrite <-Z.land_ones by lia. unfold written. rewrite Z.land_lor_distr_l, <-!Z.land_assoc, (Z.land_ones m), (Z.mod_small m) by lia.
  f_equal. rewrite (Z.land_comm (Z.lnot m)), Z.land_assoc. by rewrite Z.land_ones, Z.mod_small by lia.
Qed.
Lemma file_range c f off : file_ok c → 0 ≤ file_reg c f off < 2 ^ 32.
Proof. intros Hc. unfold file_reg. destruct (c !! _) as [v|] eqn:E; [by apply (Hc _ _ E)|simpl; lia]. Qed.
Lemma file_read (io : Z) f off width c : file_ok c → valid_fn f → True → valid_field off width →
  ∃ c', @cio_read _ file_io io (f_seg f) (f_bus f) (f_dev f) (f_func f) off width c = Done (field (file_reg c) f off width, c') ∧
    file_ok c' ∧ ∀ g o, valid_fn g → valid_reg o → file_reg c' g o = file_reg c g o.
Proof. intros Hc _ _ _. exists c. by destruct f. Qed.
Lemma file_write (Hmask : ∀ f off, 0 ≤ mask f off < 2 ^ 32) (io : Z) f off v c : file_ok c → valid_fn f → True → bar_reg off → 0 ≤ v < 2 ^ 32 →
  ∃ c', @cio_write _ file_io io (f_seg f) (f_bus f) (f_dev f) (f_func f) off v 4 c = Done c' ∧
    file_ok c' ∧ ∀ g o, valid_fn g → valid_reg o →
      file_reg c' g o = if decide (g = f ∧ o = off) then written (mask f off) (file_reg c f off) v else file_reg c g o.
Proof.
  intros Hc _ _ Hoff Hv. eexists. split; [reflexivity|]. destruct f as [a b d e]. simpl. split.
  - apply map_Forall_insert_2; [|done]. apply written_range; [done|by apply file_range|done].
  - intros g o _ _. unfold file_reg. destruct (decide _) as [[Hg ->]|Hn].
    + rewrite Hg. by rewrite lookup_insert_eq.
    + rewrite lookup_insert_ne; [done|]. intros Heq. apply Hn. destruct g. unfold key in Heq. simpl in Heq. split; congruence.
Qed.
Definition file_laws (Hmask : ∀ f off, 0 ≤ mask f off < 2 ^ 32) : @ConfigLaws regfile file_io :=
  @Build_ConfigLaws regfile file_io file_ok file_reg mask (λ _ _ _, True) file_range Hmask file_read (file_write Hmask).
End register_file.
