(* ===== verification/PciBars.v ===== *)
(** Sizing base address registers: the kernel writes ones, reads back and restores, and finds
    the address, the size and the kind of every region. *)

From S2P Require Import Prelude Math Pci PciSpec.
#[local] Open Scope Z_scope.

(** * Regions and their registers *)
Inductive region :=
| Unused
| IoPorts (base k : Z) (wide : bool)
| Mem32 (base k : Z) (pf : bool)
| Mem64 (base k : Z) (pf : bool).
(** A region of [2 ^ k] bytes; the upper half of the register of ports may be read-only. *)
Definition region_ok (r : region) : Prop :=
  match r with
  | Unused => True
  | IoPorts base k wide => 2 ≤ k ≤ 15 ∧ (2 ^ k | base) ∧ 0 ≤ base < if wide then 2 ^ 32 else 2 ^ 16
  | Mem32 base k pf => 4 ≤ k ≤ 31 ∧ (2 ^ k | base) ∧ 0 ≤ base < 2 ^ 32
  | Mem64 base k pf => 4 ≤ k ≤ 63 ∧ (2 ^ k | base) ∧ 0 ≤ base < 2 ^ 64
  end.
(** The values and the writable bits of its registers. *)
Definition region_regs (r : region) : list (Z * Z) :=
  match r with
  | Unused => [(0, 0)]
  | IoPorts base k wide => [(base + 1, (if wide then 2 ^ 32 else 2 ^ 16) - 2 ^ k)]
  | Mem32 base k pf => [(base + (if pf then 8 else 0), 2 ^ 32 - 2 ^ k)]
  | Mem64 base k pf =>
      [(base mod 2 ^ 32 + (4 + if pf then 8 else 0), (2 ^ 64 - 2 ^ k) mod 2 ^ 32); (base / 2 ^ 32, (2 ^ 64 - 2 ^ k) / 2 ^ 32)]
  end.
(** What [read_bars] is meant to find. *)
Definition region_bars (r : region) : list bar :=
  match r with
  | Unused => [mk_bar 0 0 0 false false ty_invalid]
  | IoPorts base k _ => [mk_bar base base (2 ^ k) false false ty_io]
  | Mem32 base k pf => [mk_bar 0 base (2 ^ k) pf false ty_mem]
  | Mem64 base k pf => [mk_bar 0 base (2 ^ k) pf true ty_mem; mk_bar 0 0 0 false true ty_invalid]
  end.
Lemma region_bars_length r : length (region_bars r) = length (region_regs r).
Proof. by destruct r. Qed.

(** * Arithmetic of masks *)
Lemma mul_add_land_low k q r : 0 ≤ k → 0 ≤ r < 2 ^ k → Z.land (2 ^ k * q + r) (Z.lnot (2 ^ k - 1)) = 2 ^ k * q.
Proof. intros Hk Hr. rewrite land_lnot_pow2 by done. rewrite (Z.mul_comm _ q), Z.div_add_l, Z.div_small by lia. lia. Qed.
Lemma land_mul_small k q r : 0 ≤ k → 0 ≤ r < 2 ^ k → Z.land (2 ^ k * q) r = 0.
Proof.
  intros Hk Hr. apply Z.bits_inj'. intros i Hi. rewrite Z.land_spec, Z.bits_0, (Z.mul_comm (2 ^ k)).
  destruct (Z.ltb_spec i k); [by rewrite Z.mul_pow2_bits_low by lia|].
  replace r with (r mod 2 ^ k) by (by apply Z.mod_small). by rewrite Z.mod_pow2_bits_high, andb_false_r by lia.
Qed.
Lemma lor_add k q r : 0 ≤ k → 0 ≤ r < 2 ^ k → Z.lor (2 ^ k * q) r = 2 ^ k * q + r.
Proof. intros Hk Hr. rewrite <-Z.add_lor_land, land_mul_small by done. lia. Qed.
(** The bits below [2 ^ k] are those that a mask of [w] bits leaves. *)
Lemma land_lnot_mask w k v : 0 ≤ k ≤ w → 0 ≤ v < 2 ^ w → Z.land v (Z.lnot (2 ^ w - 2 ^ k)) = v mod 2 ^ k.
Proof.
  intros Hk Hv. replace (2 ^ w - 2 ^ k) with (Z.ones (w - k) * 2 ^ k).
  2: { rewrite Z.ones_equiv, <-Z.sub_1_r, Z.mul_sub_distr_r, <-Z.pow_add_r, Z.mul_1_l by lia. by replace (w - k + k) with w by lia. }
  apply Z.bits_inj'. intros i Hi. rewrite Z.land_spec, Z.lnot_spec by lia. destruct (Z.ltb_spec i k).
  - rewrite Z.mul_pow2_bits_low, Z.mod_pow2_bits_low, andb_true_r by lia. done.
  - rewrite Z.mul_pow2_bits, Z.testbit_ones_nonneg, Z.mod_pow2_bits_high by lia. destruct (Z.ltb_spec (i - k) (w - k)); [by rewrite andb_false_r|].
    replace v with (v mod 2 ^ w) by (by apply Z.mod_small). by rewrite Z.mod_pow2_bits_high by lia.
Qed.
Lemma land_all_ones m : 0 ≤ m < 2 ^ 32 → Z.land 0xFFFFFFFF m = m.
Proof. intros Hm. change 0xFFFFFFFF with (Z.ones 32). rewrite Z.land_comm, Z.land_ones by lia. by apply Z.mod_small. Qed.
(** A register of [w] writable bits from [k] on, after ones have been written. *)
Lemma written_ones w k base r : 0 ≤ k ≤ w → w ≤ 32 → (2 ^ k | base) → 0 ≤ r < 2 ^ k → 0 ≤ base + r < 2 ^ w →
  written (2 ^ w - 2 ^ k) (base + r) 0xFFFFFFFF = (2 ^ w - 2 ^ k) + r.
Proof.
  intros Hk Hw [q ->] Hr Hb. assert (0 < 2 ^ k ≤ 2 ^ w ∧ 2 ^ w ≤ 2 ^ 32) as [? ?].
  { split; [split; [apply pow2_pos; lia|apply pow2_le; lia]|apply (pow2_le w 32); lia]. }
  unfold written. rewrite land_all_ones by lia. rewrite (land_lnot_mask w k) by lia.
  rewrite Z.add_comm, Z.mod_add, Z.mod_small by lia. replace (2 ^ w - 2 ^ k) with (2 ^ k * (2 ^ (w - k) - 1)).
  - apply lor_add; lia.
  - rewrite Z.mul_sub_distr_l, <-Z.pow_add_r by lia. replace (k + (w - k)) with w by lia. lia.
Qed.

(** * The loop *)
Section bars.
Context {C : Type} `{ConfigLaws C} `{Acpi Nd Src}.
Implicit Types s : pci C Nd.

Definition probe_len (R : fn → Z → Z) (f : fn) (off : Z) : Z := written (cl_mask f off) (R f off) 0xFFFFFFFF.
Lemma probe_holds R s e f off : holds R s → usable s (parent e) f → dev e = f_dev f → func e = f_func f → bar_reg off →
  ∃ c, probe e off s = Done ((R f off, probe_len R f off), set_cfg c s) ∧ holds R (set_cfg c s).
Proof.
  intros HR Hu Hd Hf Ho. pose proof Hu as [Hfn _]. assert (valid_reg off) as Hvr by (destruct Ho; split; [lia|done]).
  assert (valid_field off 4) as Hvf by (destruct Ho as [? Hdiv]; split_and!; [lia|destruct Hdiv; lia|done|lia]).
  pose proof (holds_range R s f off HR Hfn Hvr) as Hr. pose proof (cl_mask_range f off) as Hm.
  unfold probe. rewrite Hd, Hf. unfold mbind, pciM_bind. destruct (read_holds R s (parent e) f off 4 HR Hu Hvf) as (c1 & -> & HR1). cbn [mbind outcome_bind].
  rewrite field_reg by (try done; apply Hvr).
  destruct (write_holds R (set_cfg c1 s) (parent e) f off 0xFFFFFFFF HR1 Hu Ho ltac:(lia)) as (c2 & -> & HR2). cbn [mbind outcome_bind].
  destruct (read_holds _ _ (parent e) f off 4 HR2 Hu Hvf) as (c3 & -> & HR3). cbn [mbind outcome_bind].
  rewrite field_reg; [|apply Hvr|]. all: rewrite (decide_True (P := f = f ∧ off = off)) by done. 2: by apply written_range; [..|lia].
  destruct (write_holds _ _ (parent e) f off (R f off) HR3 Hu Ho ltac:(lia)) as (c4 & -> & HR4). cbn [mbind outcome_bind mret pciM_ret].
  rewrite !set_cfg_twice in *. exists c4. split; [done|]. destruct HR4 as [Hi HR4]. split; [done|]. intros g o Hg Hvo. rewrite (HR4 g o Hg Hvo).
  destruct (decide (g = f ∧ o = off)) as [[-> ->]|]; [|done]. rewrite decide_True by done. apply written_twice.
Qed.

(** [bars_loop] on registers that do not change. *)
Fixpoint decode (R : fn → Z → Z) (f : fn) (n : nat) (i nbars : Z) (bars : list (option bar)) : list (option bar) :=
  match n with
  | O => bars
  | S n =>
      if nbars <=? i then bars else
      let offset := reg_bar0 + i * 4 in
      let v := R f offset in
      let lenlow := probe_len R f offset in
      if negb (Z.land v 1 =? 0) then decode R f n (i + 1) nbars (<[Z.to_nat i := Some (io_bar v lenlow)]> bars) else
      let ty := Z.land (Z.shiftr v 1) 3 in
      let addr := Z.land v (Z.lnot 15) in
      if ty =? 0 then
        decode R f n (i + 1) nbars (<[Z.to_nat i := Some (mem_bar v addr (w32 (- Z.land lenlow (Z.lnot 15))) false)]> bars)
      else if ty =? 2 then
        if i =? nbars - 1 then decode R f n (i + 1) nbars bars else
        let vh := R f (offset + 4) in
        let length := w64 (- Z.lor (Z.shiftl (probe_len R f (offset + 4)) 32) (Z.land lenlow (Z.lnot 15))) in
        let bars := <[Z.to_nat i := Some (mem_bar v (Z.lor (Z.shiftl vh 32) addr) length true)]> bars in
        decode R f n (i + 2) nbars (<[Z.to_nat (i + 1) := Some (mk_bar 0 0 0 false true ty_invalid)]> bars)
      else decode R f n (i + 1) nbars (<[Z.to_nat i := Some (mem_bar v 0 0 false)]> bars)
  end.
Lemma bars_loop_decode R f e n : ∀ i nbars bars s, holds R s → usable s (parent e) f → dev e = f_dev f → func e = f_func f → 0 ≤ i → nbars ≤ 6 →
  ∃ c, bars_loop n i nbars e bars s = Done (decode R f n i nbars bars, set_cfg c s) ∧ holds R (set_cfg c s).
Proof.
  induction n as [|n IH]; intros i nbars bars s HR Hu Hd Hf Hi Hn; [exists (cfg s); by destruct s|]. cbn [bars_loop decode].
  destruct (Z.leb_spec nbars i); [exists (cfg s); by destruct s|]. unfold mbind at 1, pciM_bind at 1.
  assert (∀ j, 0 ≤ j < 6 → bar_reg (reg_bar0 + j * 4)) as Hreg by (intros j Hj; unfold bar_reg, reg_bar0; split; [lia|by exists (4 + j); lia]).
  destruct (probe_holds R s e f (reg_bar0 + i * 4) HR Hu Hd Hf (Hreg i ltac:(lia))) as (c & -> & HR1). cbn [mbind outcome_bind].
  assert (∀ i' bars', 0 ≤ i' → ∃ c', bars_loop n i' nbars e bars' (set_cfg c s) = Done (decode R f n i' nbars bars', set_cfg c' s) ∧ holds R (set_cfg c' s)) as Hgo.
  { intros i' bars' Hi'. destruct (IH i' nbars bars' (set_cfg c s) HR1 Hu Hd Hf Hi' Hn) as (c' & -> & HR'). by exists c'. }
  destruct (negb _); [apply Hgo; lia|]. destruct (_ =? 0); [apply Hgo; lia|]. destruct (_ =? 2); [|apply Hgo; lia].
  destruct (Z.eqb_spec i (nbars - 1)); [apply Hgo; lia|]. unfold mbind at 1, pciM_bind at 1.
  replace (reg_bar0 + i * 4 + 4) with (reg_bar0 + (i + 1) * 4) by lia.
  destruct (probe_holds R (set_cfg c s) e f (reg_bar0 + (i + 1) * 4) HR1 Hu Hd Hf (Hreg (i + 1) ltac:(lia))) as (c2 & -> & HR2). cbn [mbind outcome_bind].
  destruct (IH (i + 2) nbars (<[Z.to_nat (i + 1) := Some (mk_bar 0 0 0 false true ty_invalid)]>
    (<[Z.to_nat i := Some (mem_bar (R f (reg_bar0 + i * 4)) (Z.lor (Z.shiftl (R f (reg_bar0 + (i + 1) * 4)) 32) (Z.land (R f (reg_bar0 + i * 4)) (Z.lnot 15)))
       (w64 (- Z.lor (Z.shiftl (probe_len R f (reg_bar0 + (i + 1) * 4)) 32) (Z.land (probe_len R f (reg_bar0 + i * 4)) (Z.lnot 15)))) true)]> bars))
    (set_cfg c2 (set_cfg c s)) HR2 Hu Hd Hf ltac:(lia) Hn) as (c' & -> & HR'). by exists c'.
Qed.
(** The registers of regions one after the other. *)
Definition reg_at (R : fn → Z → Z) (f : fn) (i : Z) (rm : Z * Z) : Prop := R f (reg_bar0 + i * 4) = rm.1 ∧ cl_mask f (reg_bar0 + i * 4) = rm.2.
Definition layout (R : fn → Z → Z) (f : fn) (rs : list region) : Prop :=
  Forall region_ok rs ∧ ∀ j rm, (rs ≫= region_regs) !! j = Some rm → reg_at R f (Z.of_nat j) rm.
Lemma decode_length R f n : ∀ i nbars bars, length (decode R f n i nbars bars) = length bars.
Proof.
  induction n as [|n IH]; intros i nbars bars; [done|]. cbn [decode]. repeat case_match; try done; by rewrite IH, ?length_insert.
Qed.
End bars.

(** * The result for each kind of region *)
Lemma land_low v c : 0 ≤ c < 16 → Z.land v c = Z.land (v mod 16) c.
Proof.
  intros Hc. change 16 with (2 ^ 4) in *. rewrite <-(Z.land_ones v 4) by lia. rewrite <-Z.land_assoc. f_equal.
  rewrite Z.land_comm, Z.land_ones by lia. symmetry. by apply Z.mod_small.
Qed.
Lemma type_bits v : Z.land (Z.shiftr v 1) 3 = Z.shiftr (Z.land (v mod 16) 6) 1.
Proof. rewrite <-land_low by lia. rewrite Z.shiftr_land. done. Qed.
Lemma mod_small_divides k v : 4 ≤ k → (2 ^ k | v) → ∃ q, v = 2 ^ 4 * q.
Proof. intros Hk [q ->]. exists (q * 2 ^ (k - 4)). replace k with ((k - 4) + 4) at 1 by lia. rewrite Z.pow_add_r by lia. lia. Qed.
Lemma below_multiple k w base r : 0 ≤ k ≤ w → (2 ^ k | base) → 0 ≤ base < 2 ^ w → 0 ≤ r < 2 ^ k → 0 ≤ base + r < 2 ^ w.
Proof.
  intros Hk [q ->] Hb Hr. replace w with ((w - k) + k) in * by lia. rewrite Z.pow_add_r in * by lia.
  assert (0 < 2 ^ k) by (apply pow2_pos; lia). assert (q < 2 ^ (w - k)) by nia. nia.
Qed.

Lemma io_bar_region base k (wide : bool) : region_ok (IoPorts base k wide) →
  let m := (if wide then 2 ^ 32 else 2 ^ 16) - 2 ^ k in
  Z.land (base + 1) 1 ≠ 0 ∧ io_bar (base + 1) (written m (base + 1) 0xFFFFFFFF) = mk_bar base base (2 ^ k) false false ty_io.
Proof.
  intros (Hk & Hd & Hb) m. assert (4 ≤ 2 ^ k ≤ 2 ^ 15) as Hp by (split; [apply (pow2_le 2); lia|apply pow2_le; lia]).
  assert (∃ w, (w = 32 ∨ w = 16) ∧ m = 2 ^ w - 2 ^ k ∧ 0 ≤ base < 2 ^ w) as (w & Hw & -> & Hb') by (unfold m; destruct wide; [exists 32|exists 16]; split_and!; try lia).
  rewrite (written_ones w k base 1) by (try done; try lia; apply (below_multiple k); (done || lia)).
  assert (∃ q, base = 2 ^ 2 * q) as [q Hq].
  { destruct Hd as [q ->]. exists (q * 2 ^ (k - 2)). replace k with ((k - 2) + 2) at 1 by lia. rewrite Z.pow_add_r by lia. lia. }
  assert (∃ q', 2 ^ w - 2 ^ k = 2 ^ 2 * q') as [q' Hq'].
  { exists (2 ^ (w - 2) - 2 ^ (k - 2)). replace w with ((w - 2) + 2) at 1 by lia. replace k with ((k - 2) + 2) at 1 by lia. rewrite !Z.pow_add_r by lia. lia. }
  split.
  - rewrite land_low by lia. change 1 with (Z.ones 1) at 2. rewrite Z.land_ones by lia. change (2 ^ 1) with 2. change (2 ^ 2) with 4 in Hq. Z.to_euclidean_division_equations; lia.
  - unfold io_bar. change (Z.lnot 3) with (Z.lnot (2 ^ 2 - 1)). rewrite Hq', Hq, !mul_add_land_low by lia. rewrite <-Hq', <-Hq. f_equal.
    change 0xFFFF with (Z.ones 16). rewrite Z.land_ones by lia. unfold w32. destruct Hw as [-> | ->]; Z.to_euclidean_division_equations; lia.
Qed.

Lemma mem32_region base k (pf : bool) : region_ok (Mem32 base k pf) →
  let v := base + (if pf then 8 else 0) in let m := 2 ^ 32 - 2 ^ k in
  Z.land v 1 = 0 ∧ Z.land (Z.shiftr v 1) 3 = 0 ∧
  mem_bar v (Z.land v (Z.lnot 15)) (w32 (- Z.land (written m v 0xFFFFFFFF) (Z.lnot 15))) false = mk_bar 0 base (2 ^ k) pf false ty_mem.
Proof.
  intros (Hk & Hd & Hb) v m. assert (16 ≤ 2 ^ k ≤ 2 ^ 31) as Hp by (split; [apply (pow2_le 4); lia|apply pow2_le; lia]).
  destruct (mod_small_divides k base) as [q Hq]; [lia|done|]. assert (v mod 16 = if pf then 8 else 0) as Hv.
  { unfold v. rewrite Hq, Z.add_comm, Z.mul_comm, Z.mod_add by lia. by destruct pf. }
  unfold m. assert (written (2 ^ 32 - 2 ^ k) v 0xFFFFFFFF = 2 ^ 32 - 2 ^ k + (if pf then 8 else 0)) as ->.
  { apply written_ones; try done; try lia; [destruct pf; lia|]. apply (below_multiple k); try done; [lia|destruct pf; lia]. }
  destruct (mod_small_divides k (2 ^ 32 - 2 ^ k)) as [q' Hq']; [lia| |].
  { exists (2 ^ (32 - k) - 1). rewrite Z.mul_sub_distr_r, <-Z.pow_add_r by lia. replace (32 - k + k) with 32 by lia. lia. }
  rewrite type_bits, land_low, Hv by lia. split; [by destruct pf|]. split; [by destruct pf|].
  unfold mem_bar. rewrite (land_low v 8), Hv by lia. unfold v. change (Z.lnot 15) with (Z.lnot (2 ^ 4 - 1)).
  rewrite Hq', Hq, !mul_add_land_low by (destruct pf; lia). rewrite <-Hq', <-Hq.
  assert (w32 (- (2 ^ 32 - 2 ^ k)) = 2 ^ k) as -> by (unfold w32; Z.to_euclidean_division_equations; lia).
  rewrite (proj2 (Z.eqb_neq (2 ^ k) 0)), andb_false_r by lia. by destruct pf.
Qed.

(** The writable bits of the two halves. *)
Lemma mask64 k : 4 ≤ k ≤ 63 →
  ((2 ^ 64 - 2 ^ k) mod 2 ^ 32 = 2 ^ 32 - 2 ^ k ∧ (2 ^ 64 - 2 ^ k) / 2 ^ 32 = 2 ^ 32 - 2 ^ 0 ∧ k < 32) ∨
  ((2 ^ 64 - 2 ^ k) mod 2 ^ 32 = 0 ∧ (2 ^ 64 - 2 ^ k) / 2 ^ 32 = 2 ^ 32 - 2 ^ (k - 32) ∧ 32 ≤ k).
Proof.
  intros Hk. destruct (Z.ltb_spec k 32); [left|right].
  - assert (0 < 2 ^ k ≤ 2 ^ 31) by (split; [apply pow2_pos; lia|apply pow2_le; lia]). Z.to_euclidean_division_equations; lia.
  - assert (2 ^ k = 2 ^ (k - 32) * 2 ^ 32) by (rewrite <-Z.pow_add_r by lia; f_equal; lia).
    assert (0 < 2 ^ (k - 32) ≤ 2 ^ 31) by (split; [apply pow2_pos; lia|apply pow2_le; lia]).
    split; [|split; [|done]]; Z.to_euclidean_division_equations; lia.
Qed.
Lemma mem64_low base k t : region_ok (Mem64 base k false) → 0 ≤ t < 16 →
  Z.land (written ((2 ^ 64 - 2 ^ k) mod 2 ^ 32) (base mod 2 ^ 32 + t) 0xFFFFFFFF) (Z.lnot 15) = (2 ^ 64 - 2 ^ k) mod 2 ^ 32.
Proof.
  intros (Hk & Hd & Hb) Ht. destruct (mod_small_divides k base) as [q Hq]; [lia|done|]. change (Z.lnot 15) with (Z.lnot (2 ^ 4 - 1)).
  destruct (mask64 k Hk) as [(-> & _ & Hlt)|(-> & _ & Hge)].
  - assert (16 ≤ 2 ^ k ≤ 2 ^ 31) by (split; [apply (pow2_le 4); lia|apply pow2_le; lia]).
    assert (2 ^ k | base mod 2 ^ 32) as Hd'.
    { apply Z.mod_divide; [lia|]. rewrite Z.mod_mod_divide; [by apply Z.mod_divide; [lia|]|].
      exists (2 ^ (32 - k)). rewrite <-Z.pow_add_r by lia. f_equal. lia. }
    rewrite (written_ones 32 k); try done; try lia; [|apply (below_multiple k); try done; [lia|apply Z.mod_pos_bound; lia|lia]].
    destruct (mod_small_divides k (2 ^ 32 - 2 ^ k)) as [q' Hq']; [lia| |rewrite Hq', mul_add_land_low by lia; done].
    exists (2 ^ (32 - k) - 1). rewrite Z.mul_sub_distr_r, <-Z.pow_add_r by lia. replace (32 - k + k) with 32 by lia. lia.
  - unfold written. rewrite Z.land_0_r, Z.lor_0_l. change (Z.lnot 0) with (-1). rewrite Z.land_m1_r.
    assert (base mod 2 ^ 32 = 0) as ->.
    { apply Z.mod_divide; [lia|]. destruct Hd as [x ->]. exists (x * 2 ^ (k - 32)). replace k with ((k - 32) + 32) at 1 by lia. rewrite Z.pow_add_r by lia. lia. }
    replace (0 + t) with (2 ^ 4 * 0 + t) by lia. rewrite mul_add_land_low by lia. lia.
Qed.
Lemma mem64_high base k : region_ok (Mem64 base k false) →
  written ((2 ^ 64 - 2 ^ k) / 2 ^ 32) (base / 2 ^ 32) 0xFFFFFFFF = (2 ^ 64 - 2 ^ k) / 2 ^ 32.
Proof.
  intros (Hk & Hd & Hb). assert (0 ≤ base / 2 ^ 32 < 2 ^ 32) as Hr by (Z.to_euclidean_division_equations; lia). replace (base / 2 ^ 32) with (base / 2 ^ 32 + 0) by lia.
  destruct (mask64 k Hk) as [(_ & -> & Hlt)|(_ & -> & Hge)].
  - rewrite (written_ones 32 0); try lia. exists (base / 2 ^ 32). lia.
  - assert (0 < 2 ^ (k - 32)) by (apply pow2_pos; lia). rewrite (written_ones 32 (k - 32)); try lia.
    destruct Hd as [x ->]. exists x. replace k with ((k - 32) + 32) at 1 by lia. rewrite Z.pow_add_r, Z.mul_assoc, Z.div_mul by lia. done.
Qed.
Lemma mem64_region base k (pf : bool) : region_ok (Mem64 base k pf) →
  let v := base mod 2 ^ 32 + (4 + if pf then 8 else 0) in let lenlow := written ((2 ^ 64 - 2 ^ k) mod 2 ^ 32) v 0xFFFFFFFF in
  let vh := base / 2 ^ 32 in let lenhigh := written ((2 ^ 64 - 2 ^ k) / 2 ^ 32) vh 0xFFFFFFFF in
  Z.land v 1 = 0 ∧ Z.land (Z.shiftr v 1) 3 = 2 ∧
  mem_bar v (Z.lor (Z.shiftl vh 32) (Z.land v (Z.lnot 15))) (w64 (- Z.lor (Z.shiftl lenhigh 32) (Z.land lenlow (Z.lnot 15)))) true =
    mk_bar 0 base (2 ^ k) pf true ty_mem.
Proof.
  intros Hok v lenlow vh lenhigh. pose proof Hok as (Hk & Hd & Hb). destruct (mod_small_divides k base) as [q Hq]; [lia|done|].
  assert (base mod 2 ^ 32 = 2 ^ 4 * (q mod 2 ^ 28)) as Hlow by (rewrite Hq; change (2 ^ 32) with (2 ^ 4 * 2 ^ 28); apply Z.mul_mod_distr_l; lia).
  assert (v mod 16 = 4 + if pf then 8 else 0) as Hv.
  { unfold v. rewrite Hlow, Z.add_comm, Z.mul_comm, Z.mod_add by lia. by destruct pf. }
  rewrite type_bits, land_low, Hv by lia. split; [by destruct pf|]. split; [by destruct pf|].
  unfold lenlow, lenhigh, vh. rewrite mem64_high by done. unfold v at 3. rewrite mem64_low by (done || destruct pf; lia).
  assert (16 ≤ 2 ^ k ≤ 2 ^ 63) as Hp by (split; [apply (pow2_le 4); lia|apply pow2_le; lia]).
  rewrite !Z.shiftl_mul_pow2, !(Z.mul_comm _ (2 ^ 32)) by lia. rewrite (lor_add 32 ((2 ^ 64 - 2 ^ k) / 2 ^ 32)) by (try apply Z.mod_pos_bound; lia). rewrite <-Z.div_mod by lia.
  assert (w64 (- (2 ^ 64 - 2 ^ k)) = 2 ^ k) as -> by (unfold w64; Z.to_euclidean_division_equations; lia).
  unfold mem_bar. rewrite (land_low v 8), Hv by lia. unfold v. change (Z.lnot 15) with (Z.lnot (2 ^ 4 - 1)). rewrite Hlow, mul_add_land_low by (destruct pf; lia).
  rewrite <-Hlow, (lor_add 32) by (try apply Z.mod_pos_bound; lia). rewrite <-Z.div_mod by lia.
  rewrite (proj2 (Z.eqb_neq (2 ^ k) 0)), andb_false_r by lia. by destruct pf.
Qed.

Section layout.
Context {C : Type} `{ConfigLaws C}.

Lemma insert_slot {A} (pre rest : list A) (x y : A) i : i = Z.of_nat (length pre) → <[Z.to_nat i := y]> (pre ++ x :: rest) = pre ++ y :: rest.
Proof. intros ->. rewrite Nat2Z.id. rewrite insert_app_r_alt by lia. by rewrite Nat.sub_diag. Qed.
Lemma decode_region R f r n i nbars pre old rest : region_ok r → (∀ j rm, region_regs r !! j = Some rm → reg_at R f (i + Z.of_nat j) rm) →
  i = Z.of_nat (length pre) → length old = length (region_regs r) → i + Z.of_nat (length old) ≤ nbars →
  decode R f (S n) i nbars (pre ++ old ++ rest) = decode R f n (i + Z.of_nat (length old)) nbars ((pre ++ (Some <$> region_bars r)) ++ rest).
Proof.
  intros Hok Hregs Hi Hold Hle. cbn [decode]. assert (0 < length old)%nat by (rewrite Hold; by destruct r; simpl; lia). rewrite (proj2 (Z.leb_gt nbars i)) by lia.
  destruct (lookup_lt_is_Some_2 (region_regs r) 0) as [[v m] Hvm]; [lia|]. destruct (Hregs 0%nat _ Hvm) as [Hv Hm]. rewrite Z.add_0_r in Hv, Hm.
  cbv zeta. unfold probe_len. simpl in Hv, Hm. rewrite Hv, Hm. clear Hv Hm. rewrite <-app_assoc.
  destruct r as [|base k wide|base k pf|base k pf]; destruct old as [|x [|y [|]]]; simplify_eq/=.
  - by rewrite insert_slot.
  - destruct (io_bar_region base k wide Hok) as [Ht Hb]. rewrite (proj2 (Z.eqb_neq _ 0) Ht). cbn [negb]. rewrite insert_slot by done. by rewrite Hb.
  - destruct (mem32_region base k pf Hok) as (-> & -> & Hb). cbn [negb Z.eqb]. rewrite insert_slot by done. by rewrite Hb.
  - destruct (Hregs 1%nat _ eq_refl) as [Hvh Hmh]. simpl in Hvh, Hmh. replace (reg_bar0 + Z.of_nat (length pre) * 4 + 4) with (reg_bar0 + (Z.of_nat (length pre) + 1) * 4) by lia.
    change (Z.of_nat 1) with 1 in Hvh, Hmh. rewrite Hvh, Hmh. destruct (mem64_region base k pf Hok) as (-> & -> & Hb). cbn [negb Z.eqb Pos.eqb].
    rewrite (proj2 (Z.eqb_neq (Z.of_nat (length pre)) (nbars - 1))) by lia. rewrite insert_slot, Hb by done. rewrite (cons_middle _ pre), app_assoc, insert_slot; [by rewrite <-app_assoc|].
    rewrite length_app. simpl. lia.
Qed.
Lemma decode_layout R f rs : ∀ n i nbars pre rest, Forall region_ok rs → (∀ j rm, (rs ≫= region_regs) !! j = Some rm → reg_at R f (i + Z.of_nat j) rm) →
  i = Z.of_nat (length pre) → length rest = length (rs ≫= region_regs) → nbars = i + Z.of_nat (length rest) → (length rest ≤ n)%nat →
  decode R f n i nbars (pre ++ rest) = pre ++ (Some <$> (rs ≫= region_bars)).
Proof.
  induction rs as [|r rs IH]; intros n i nbars pre rest Hok Hregs Hi Hrest Hn Hfuel.
  - destruct rest; [|done]. simpl in *. rewrite app_nil_r. destruct n; simpl; [done|]. by rewrite (proj2 (Z.leb_le nbars i)) by lia.
  - apply Forall_cons in Hok as [Hr Hok]. rewrite bind_cons, length_app in Hrest. rewrite <-(take_drop (length (region_regs r)) rest).
    assert (length (take (length (region_regs r)) rest) = length (region_regs r)) as Hlen by (rewrite length_take; lia).
    assert (0 < length (region_regs r))%nat by (destruct r; simpl; lia). destruct n as [|n]; [lia|].
    rewrite (decode_region R f r); [|done|intros j rm Hj; apply Hregs; rewrite bind_cons; by apply lookup_app_l_Some|done|done|rewrite Hlen; lia].
    rewrite (IH n _ nbars); [by rewrite bind_cons, fmap_app, <-app_assoc|done| | | | |].
    + intros j rm Hj. rewrite Hlen, <-Z.add_assoc, <-Nat2Z.inj_add. apply Hregs. rewrite bind_cons, lookup_app_r by lia. by rewrite Nat.add_comm, Nat.add_sub.
    + rewrite length_app, length_fmap, region_bars_length. lia.
    + rewrite length_drop. lia.
    + rewrite length_drop. lia.
    + rewrite length_drop. lia.
Qed.
End layout.

(** * [read_bars] *)
Section read_bars.
Context {C : Type} `{ConfigLaws C} `{Acpi Nd Src}.
Implicit Types s : pci C Nd.

Definition with_bars (e : entity) (l : list (option bar)) : entity := mk_entity (parent e) (dev e) (func e) (caps e) (is_pcie e) (is_secondary e) l.
Lemma read_bars_decode R s e f : holds R s → usable s (parent e) f → dev e = f_dev f → func e = f_func f → (length (bars e) ≤ 6)%nat →
  ∃ c, read_bars e s = Done (with_bars e (decode R f (length (bars e)) 0 (Z.of_nat (length (bars e))) (bars e)), set_cfg c s) ∧ holds R (set_cfg c s).
Proof.
  intros HR Hu Hd Hf Hl. unfold read_bars. unfold mbind, pciM_bind.
  destruct (bars_loop_decode R f e (length (bars e)) 0 (Z.of_nat (length (bars e))) (bars e) s HR Hu Hd Hf) as (c & -> & HR'); [lia|lia|]. by exists c.
Qed.

(** C30: A function whose base address registers describe regions - unused, ports, 32-bit or 64-bit
    memory, of any power of two in size - gets a bar with the address, the size and the kind
    of each of them, and afterwards all registers have their values again. *)
Theorem read_bars_correct R s e f rs : holds R s → usable s (parent e) f → dev e = f_dev f → func e = f_func f →
  layout R f rs → length (bars e) = length (rs ≫= region_regs) → (length (bars e) ≤ 6)%nat →
  ∃ c, read_bars e s = Done (with_bars e (Some <$> (rs ≫= region_bars)), set_cfg c s) ∧ holds R (set_cfg c s).
Proof.
  intros HR Hu Hd Hf [Hok Hregs] Hl H6. destruct (read_bars_decode R s e f HR Hu Hd Hf H6) as (c & -> & HR'). exists c. split; [|done]. do 3 f_equal.
  by apply (decode_layout R f rs _ 0 _ []).
Qed.
(** C31: the list of capabilities of a function is read completely when it ends, within 64 rounds;
    otherwise it has a cycle, and the kernel goes round it for ever. *)
Theorem capabilities_end R s b f nbars : holds R s → usable s b f →
  (∃ l, caps_at R f l ∧ NoDup l ∧ ∀ fuel, (64 ≤ fuel)%nat →
     ∃ c, new_entity fuel b (f_dev f) (f_func f) nbars s = Done (entity_of R f b l nbars, set_cfg c s) ∧ holds R (set_cfg c s)) ∨
  ((∀ l, ¬ caps_at R f l) ∧ ∀ fuel, new_entity fuel b (f_dev f) (f_func f) nbars s = NoFuel).
Proof.
  intros HR Hu. destruct (caps_or_none R f) as [[l Hl]|Hn]; [left|right].
  - exists l. split; [done|]. split; [|intros fuel Hfuel; by apply new_entity_caps]. unfold caps_at in Hl. destruct (_ =? 0); [subst l; constructor|].
    by eapply chain_offs, cap_off_land.
  - split; [done|]. intros fuel. by apply (new_entity_cyclic R).
Qed.
End read_bars.
