(* ===== verification/PciEnum.v ===== *)
(** Enumeration: every function behind the root buses is found, through all bridges, and
    nothing else. *)

From S2P Require Import Prelude Math Pci PciSpec PciBars.
#[local] Open Scope Z_scope.

(** * Interrupt routers *)
Section routers.
Context `{Acpi Nd Src}.

(** The tables of uACPI can be read and describe interrupts. *)
Definition acpi_ok : Prop := ∀ n, match get_pci_routing_table n with
  | PrtOk routes => ∃ es, route_entries routes = Done es
  | PrtNotFound => True
  | PrtError => False
  end.
Definition router_ok (r : router Nd) : Prop :=
  match mod_ r with Some model_none | Some model_root => True | Some model_expansion => length (bridge_irq r) = 4%nat | None => False end.

Lemma resolve_ok r dev pin func : router_ok r → ∃ e, resolve dev pin func r = Done e.
Proof.
  unfold router_ok, resolve. destruct (mod_ r) as [[]|]; intros Hr; [by eexists|by eexists| |done].
  destruct (lookup_lt_is_Some_2 (bridge_irq r) (Z.to_nat (w64 (w64 (pin - 1) + dev) mod 4))) as [e ->]; [|by exists e].
  pose proof (Z.mod_pos_bound (w64 (w64 (pin - 1) + dev)) 4). lia.
Qed.
Lemma parent_irqs_ok r dev pins : router_ok r → ∃ l, parent_irqs r dev pins = Done l ∧ length l = length pins.
Proof.
  intros Hr. induction pins as [|pin pins IH]; [by exists []|]. destruct (resolve_ok r dev pin (-1) Hr) as [e He]. destruct IH as (l & Hl & Hn).
  exists (e :: l). simpl. rewrite He. cbn [mbind outcome_bind]. rewrite Hl. simpl. by rewrite Hn.
Qed.
(** Behind a bridge without a routing table of its own the pins are rotated by the number of
    the device. *)
Lemma expansion_resolve (r r' : router Nd) bdev dev pin : new_router (Some r) (Done bdev) None = Done r' → 1 ≤ pin ≤ 4 → 0 ≤ dev < 32 →
  resolve dev pin (-1) r' = resolve bdev ((pin - 1 + dev) mod 4 + 1) (-1) r.
Proof.
  intros E Hp Hd. unfold new_router in E. cbn [deref mbind outcome_bind parent_irqs] in E. done_steps. simpl in *. unfold resolve at 1. cbn [mod_ bridge_irq].
  rewrite !w64_small by (rewrite ?w64_small; lia). pose proof (Z.mod_pos_bound (pin - 1 + dev) 4).
  assert ((pin - 1 + dev) mod 4 = 0 ∨ (pin - 1 + dev) mod 4 = 1 ∨ (pin - 1 + dev) mod 4 = 2 ∨ (pin - 1 + dev) mod 4 = 3) as [-> | [-> | [-> | ->]]] by lia; done.
Qed.
Lemma downstream_ok r dev func : acpi_ok → router_ok r → ∃ r', downstream r dev func = Done r' ∧ router_ok r'.
Proof.
  intros Ha Hr. unfold downstream, new_router. destruct (parent_irqs_ok r dev [1; 2; 3; 4] Hr) as (l & Hl & Hn).
  assert (∀ nd : option Nd, ∃ r', (parent ← deref (Some r); dv ← Done dev; irqs ← parent_irqs parent dv [1; 2; 3; 4]; Done (mk_router [] irqs (Some model_expansion) nd)) = Done r' ∧ router_ok r') as Hbehind.
  { intros nd. cbn [deref mbind outcome_bind]. rewrite Hl. cbn [mbind outcome_bind]. eexists. by split; [reflexivity|]. }
  cbv zeta. destruct (_ ≫= _) as [n|]; [|apply Hbehind]. pose proof (Ha n) as Hn'. destruct (get_pci_routing_table n) as [routes| |]; [|apply Hbehind|done].
  destruct Hn' as [es ->]. cbn [mbind outcome_bind]. eexists. by split; [reflexivity|].
Qed.
End routers.

(** * What there is to be found *)
Record place := mk_place { p_seg : Z; p_bus : Z; p_one : bool }.
Section topology.
Context (R : fn → Z → Z).

Definition fn_at (x : place) (d f : Z) : fn := mk_fn (p_seg x) (p_bus x) d f.
(** The functions that are looked at, and those that are present. *)
Definition slot (x : place) (d f : Z) : Prop :=
  0 ≤ d < (if p_one x then 1 else 32) ∧ field R (fn_at x d 0) reg_venid 2 ≠ 0xFFFF ∧
  (f = 0 ∨ Z.land (field R (fn_at x d 0) reg_header 1) 0x80 ≠ 0 ∧ 0 ≤ f < 8).
Definition found (x : place) (d f : Z) : Prop :=
  slot x d f ∧ field R (fn_at x d f) reg_venid 2 ≠ 0xFFFF ∧ field R (fn_at x d f) reg_devid 2 ≠ 0xFFFF.
Definition kind (f : fn) : Z := Z.land (field R f reg_header 1) 0x7F.
Definition secondary (f : fn) : Z := field R f reg_secondary_bus 1.
(** The port type of a function with the PCI Express capability. *)
Definition port_of (f : fn) (l : list Z) : option bool :=
  foldl (λ acc o, if cap_type R f o =? 0x10 then Some (cap_secondary R f o) else acc) None l.
(** The bus [y] behind the bridge at [d], [f]. *)
Definition via (x : place) (d f : Z) (y : place) : Prop :=
  found x d f ∧ kind (fn_at x d f) = 1 ∧ secondary (fn_at x d f) ≠ 0 ∧
  ∃ l one, caps_at R (fn_at x d f) l ∧ port_of (fn_at x d f) l = Some one ∧ y = mk_place (p_seg x) (secondary (fn_at x d f)) one.
Definition behind (x y : place) : Prop := ∃ d f, via x d f y.

Lemma foldl_port f l : ∀ e acc, is_pcie e = (λ _, true) <$> acc → is_secondary e = acc →
  let e' := foldl (add_cap R f) e l in let acc' := foldl (λ acc o, if cap_type R f o =? 0x10 then Some (cap_secondary R f o) else acc) acc l in
  is_pcie e' = (λ _, true) <$> acc' ∧ is_secondary e' = acc'.
Proof.
  induction l as [|o l IH]; intros e acc H1 H2; [done|]. simpl. apply IH; unfold add_cap; simpl; by destruct (_ =? 0x10).
Qed.
Lemma entity_of_port f b l n : is_pcie (entity_of R f b l n) = (λ _, true) <$> port_of f l ∧ is_secondary (entity_of R f b l n) = port_of f l.
Proof. by apply foldl_port. Qed.
Lemma foldl_entity f l : ∀ e, let e' := foldl (add_cap R f) e l in parent e' = parent e ∧ dev e' = dev e ∧ func e' = func e ∧ bars e' = bars e.
Proof. induction l as [|o l IH]; intros e; [done|]. simpl. destruct (IH (add_cap R f e o)) as (? & ? & ? & ?). done. Qed.
Lemma caps_at_det f l l' : caps_at R f l → caps_at R f l' → l = l'.
Proof. unfold caps_at. destruct (_ =? 0); [by intros -> ->|apply chain_det]. Qed.
End topology.

(** Distinct functions of the first 256 segments have distinct indices. *)
Lemma devidx_sum sg b d f : 0 ≤ sg < 256 → 0 ≤ b < 256 → 0 ≤ d < 256 → 0 ≤ f < 256 → devidx sg b d f = sg * 2 ^ 24 + b * 2 ^ 16 + d * 2 ^ 8 + f.
Proof.
  intros Hs Hb Hd Hf. unfold devidx. rewrite !Z.shiftl_mul_pow2, (w32_small (sg * 2 ^ 24)) by lia.
  replace (sg * 2 ^ 24) with (2 ^ 24 * sg) by lia. rewrite lor_add by lia.
  replace (2 ^ 24 * sg + b * 2 ^ 16) with (2 ^ 16 * (2 ^ 8 * sg + b)) by lia. rewrite lor_add by lia.
  replace (2 ^ 16 * (2 ^ 8 * sg + b) + d * 2 ^ 8) with (2 ^ 8 * (2 ^ 8 * (2 ^ 8 * sg + b) + d)) by lia. rewrite lor_add by lia.
  rewrite w32_small; lia.
Qed.
Definition fn_idx (f : fn) : Z := devidx (f_seg f) (f_bus f) (f_dev f) (f_func f).
Lemma fn_idx_inj f g : valid_fn f → valid_fn g → f_seg f < 256 → f_seg g < 256 → fn_idx f = fn_idx g → f = g.
Proof.
  intros (? & ? & ? & ?) (? & ? & ? & ?) Hf Hg. unfold fn_idx. rewrite !devidx_sum by lia. intros Heq.
  destruct f, g. simpl in *. f_equal; lia.
Qed.

(** * States *)
Section enum.
Context {C : Type} `{ConfigLaws C} `{Acpi Nd Src}.
Context (R : fn → Z → Z) (V : fn → Prop).
Hypothesis Hacpi : acpi_ok.
(** The object that serves the bus of a bridge serves the bus behind it. *)
Hypothesis Hserves : ∀ io x y, behind R x y → cl_serves io (p_seg x) (p_bus x) → cl_serves io (p_seg y) (p_bus y).
Implicit Types s : pci C Nd.

(** What grows during enumeration. *)
Record ext s s' : Prop := {
  ext_ios : ios s' = ios s;
  ext_rbs : rbs s' = rbs s;
  ext_devs k : is_Some (devs s !! k) → is_Some (devs s' !! k);
  ext_device h dv : device_at s !! h = Some dv → device_at s' !! h = Some dv;
  ext_bridge h br : bridge_at s !! h = Some br → ∃ br', bridge_at s' !! h = Some br' ∧ b_entity br' = b_entity br;
  ext_bus h bs : bus_at s !! h = Some bs → ∃ bs', bus_at s' !! h = Some bs' ∧ seg bs' = seg bs ∧ id bs' = id bs ∧ bus_io bs' = bus_io bs ∧
    associated_bridge bs' = associated_bridge bs ∧ bus_router bs' = bus_router bs ∧ devices bs ⊆ devices bs' }.
#[export] Instance ext_preorder : PreOrder ext.
Proof.
  split.
  - intros s. split; try done; intros h o Ho; by exists o.
  - intros s1 s2 s3 [A1 A2 A3 A4 A5 A6] [B1 B2 B3 B4 B5 B6]. split; [congruence|congruence|auto|auto| |].
    { intros h br Hb. destruct (A5 h br Hb) as (br2 & Hb2 & E2). destruct (B5 h br2 Hb2) as (br3 & Hb3 & E3). exists br3. split; [done|congruence]. }
    intros h bs Hb. destruct (A6 h bs Hb) as (bs2 & Hb2 & ? & ? & ? & ? & ? & ?). destruct (B6 h bs2 Hb2) as (bs3 & Hb3 & ? & ? & ? & ? & ? & ?).
    exists bs3. split_and!; try congruence; by etrans.
Qed.
Lemma ext_set_cfg c s : ext s (set_cfg c s).
Proof. split; try done; intros h o Ho; by exists o. Qed.

(** The device object for a function. *)
Definition device_of (f : fn) (b : Z) (l : list Z) (rt : option (option entry)) : device :=
  mk_device (with_bars (entity_of R f b l 6) (decode R f 6 0 6 (replicate 6 None)))
    (field R f reg_venid 2) (field R f reg_devid 2) (field R f reg_progif 1) (field R f reg_subclass 1) (field R f reg_class 1) rt.
Record listed s (f : fn) (h : Z) : Prop := {
  li_device : ∃ b bs l rt, device_at s !! h = Some (device_of f b l rt) ∧ caps_at R f l ∧
    bus_at s !! b = Some bs ∧ seg bs = f_seg f ∧ id bs = f_bus f ∧ h ∈ devices bs }.
Lemma listed_ext s s' f h : ext s s' → listed s f h → listed s' f h.
Proof.
  intros Hx [(b & bs & l & rt & Hd & Hl & Hb & Hs & Hi & Hin)]. destruct (ext_bus _ _ Hx b bs Hb) as (bs' & Hb' & Hs' & Hi' & _ & _ & _ & Hsub).
  split. exists b, bs', l, rt. split_and!; try done; [by apply (ext_device _ _ Hx)|congruence|congruence|by apply Hsub].
Qed.

Record wf s : Prop := {
  wf_holds : holds R s;
  wf_fresh h : next s ≤ h → bus_at s !! h = None ∧ device_at s !! h = None ∧ bridge_at s !! h = None;
  wf_devs k h : devs s !! k = Some h → ∃ f, V f ∧ k = fn_idx f ∧ listed s f h }.

(** The bus with handle [b] is the place [x]. *)
Definition at_place s (b : Z) (x : place) : Prop :=
  ∃ bs, bus_at s !! b = Some bs ∧ seg bs = p_seg x ∧ id bs = p_bus x ∧ io_alive (bus_io bs) s = true ∧ cl_serves (bus_io bs) (p_seg x) (p_bus x) ∧
    (∀ r, bus_router bs = Some r → router_ok r) ∧
    match associated_bridge bs with
    | None => p_one x = false
    | Some h => ∃ br, bridge_at s !! h = Some br ∧ is_pcie (b_entity br) = Some true ∧ is_secondary (b_entity br) = Some (p_one x)
    end.
Lemma at_place_ext s s' b x : ext s s' → at_place s b x → at_place s' b x.
Proof.
  intros Hx (bs & Hb & Hs & Hi & Ha & Hsv & Hr & Hbr). destruct (ext_bus _ _ Hx b bs Hb) as (bs' & Hb' & Hs' & Hi' & Hio & Hab & Hrt & _).
  exists bs'. rewrite Hs', Hi', Hio, Hab, Hrt. split_and!; try done.
  - unfold io_alive in *. by rewrite (ext_ios _ _ Hx).
  - destruct (associated_bridge bs); [|done]. destruct Hbr as (br & Hbr & Hp & Hs2). destruct (ext_bridge _ _ Hx _ _ Hbr) as (br' & Hbr' & E). exists br'. by rewrite E.
Qed.
Lemma at_place_usable s b x d f : at_place s b x → valid_fn (fn_at x d f) → usable s b (fn_at x d f).
Proof. intros (bs & Hb & Hs & Hi & Ha & Hsv & _) Hv. split; [done|]. by exists bs. Qed.
Lemma at_place_set_cfg c s b x : at_place s b x → at_place (set_cfg c s) b x.
Proof. apply at_place_ext, ext_set_cfg. Qed.
Lemma wf_set_cfg c s : wf s → holds R (set_cfg c s) → wf (set_cfg c s).
Proof.
  intros [_ Hf Hd] HR. split; [done|done|]. intros k h Hk. destruct (Hd k h Hk) as (f & HV & -> & Hl). exists f. split_and!; [done|done|].
  by eapply listed_ext, Hl; apply ext_set_cfg.
Qed.
(** New objects have new handles. *)
Definition fresh_at s (h : Z) : Prop := bus_at s !! h = None ∧ device_at s !! h = None ∧ bridge_at s !! h = None.

(** ** Programs that return *)
Definition runs {A} (m : pciM C Nd A) s (Q : A → pci C Nd → Prop) : Prop := ∃ a s', m s = Done (a, s') ∧ Q a s'.
Lemma runs_ret {A} (a : A) s (Q : A → pci C Nd → Prop) : Q a s → runs (mret a) s Q.
Proof. intros HQ. by exists a, s. Qed.
Lemma runs_bind {A B} (m : pciM C Nd A) (k : A → pciM C Nd B) s Q : runs m s (λ a s', runs (k a) s' Q) → runs (m ≫= k) s Q.
Proof. intros (a & s' & E & b & s2 & Ek & HQ). exists b, s2. split; [|done]. unfold mbind, pciM_bind. by rewrite E. Qed.
Lemma runs_weaken {A} (m : pciM C Nd A) s (Q Q' : A → pci C Nd → Prop) : runs m s Q → (∀ a s', Q a s' → Q' a s') → runs m s Q'.
Proof. intros (a & s' & E & HQ) Hi. exists a, s'. split; [done|]. by apply Hi. Qed.
Lemma runs_read s b x d f off width (Q : Z → pci C Nd → Prop) : wf s → at_place s b x → valid_fn (fn_at x d f) → valid_field off width →
  (∀ s', wf s' → ext s s' → at_place s' b x → bus_at s' = bus_at s → Q (field R (fn_at x d f) off width) s') → runs (read b d f off width) s Q.
Proof.
  intros Hw Ha Hv Ho HQ. destruct (read_holds R s b (fn_at x d f) off width (wf_holds _ Hw) (at_place_usable _ _ _ _ _ Ha Hv) Ho) as (c & E & HR).
  eexists _, _. split; [exact E|]. apply HQ; [by apply wf_set_cfg|apply ext_set_cfg|by apply at_place_set_cfg|done].
Qed.
Lemma runs_get_bus s b x (Q : bus Nd → pci C Nd → Prop) : at_place s b x →
  (∀ bs, bus_at s !! b = Some bs → seg bs = p_seg x → id bs = p_bus x → (∀ r, bus_router bs = Some r → router_ok r) →
     io_alive (bus_io bs) s = true → cl_serves (bus_io bs) (p_seg x) (p_bus x) → Q bs s) → runs (get_bus b) s Q.
Proof. intros (bs & Hb & Hs & Hi & Ha & Hsv & Hr & _) HQ. exists bs, s. unfold get_bus. rewrite Hb. split; [done|]. by apply HQ. Qed.

Definition place_ok (x : place) : Prop := 0 ≤ p_seg x < 256 ∧ 0 ≤ p_bus x < 256.
Lemma slot_valid x d f : place_ok x → slot R x d f → valid_fn (fn_at x d f).
Proof.
  intros [Hs Hb] (Hd & _ & Hf). unfold valid_fn. simpl. assert (0 ≤ d < 32) by (destruct (p_one x); lia).
  assert (0 ≤ f < 8) by (destruct Hf as [->|[_ Hf]]; lia). lia.
Qed.

(** ** A device *)
(** The new object, its entry in the list of its bus and the one in [devs]. *)
Lemma add_device_wf s b bs f l rt : wf s → bus_at s !! b = Some bs → seg bs = f_seg f → id bs = f_bus f → caps_at R f l → V f →
  runs (h ← new_handle; _ ← update (put_device h (device_of f b l rt)); _ ← add_device b h; bs ← get_bus b;
        update (λ s, put_devs (<[devidx (seg bs) (id bs) (f_dev f) (f_func f) := h]> (devs s)) s)) s
    (λ _ s', wf s' ∧ ext s s' ∧ is_Some (devs s' !! fn_idx f)).
Proof.
  intros Hw Hb Hs Hi Hl HV. destruct (wf_fresh _ Hw (next s) ltac:(lia)) as (Hfb & Hfd & Hfr).
  unfold runs. cbv [mbind pciM_bind outcome_bind new_handle update add_device get_bus]. cbn. rewrite Hb. cbn. rewrite lookup_insert_eq. cbn.
  eexists _, _. split; [reflexivity|]. cbn [seg id]. rewrite Hs, Hi. fold (fn_idx f).
  set (s' := put_devs _ _). assert (ext s s') as Hx.
  { split; try done.
    - intros k Hk. simpl. destruct (decide (k = fn_idx f)) as [->|Hne]; [rewrite lookup_insert_eq; by eexists|by rewrite lookup_insert_ne].
    - intros h dv Hdv. simpl. rewrite lookup_insert_ne; [done|]. intros Heq. rewrite <-Heq in Hdv. congruence.
    - intros h br Hbr. simpl. by exists br.
    - intros h bs' Hb'. simpl. destruct (decide (h = b)) as [->|Hne]; [|rewrite lookup_insert_ne by done; by exists bs'].
      rewrite lookup_insert_eq. simplify_eq. eexists. split; [reflexivity|]. simpl. split_and!; try done. set_solver. }
  split; [|split; [done|]]; [|simpl; rewrite lookup_insert_eq; by eexists].
  split; [apply Hw| |].
  - intros h Hh. simpl in *. assert (h ≠ b) by (intros ->; destruct (wf_fresh _ Hw b ltac:(lia)) as (E & _); congruence). rewrite !lookup_insert_ne by lia. apply (wf_fresh _ Hw). lia.
  - intros k h Hk. simpl in Hk. apply lookup_insert_Some in Hk as [[<- <-]|[Hne Hk]].
    + exists f. split; [done|]. split; [done|]. split. eexists b, _, l, rt. simpl. rewrite !lookup_insert_eq. split_and!; try done. simpl. set_solver.
    + destruct (wf_devs _ Hw k h Hk) as (g & HVg & -> & Hlg). exists g. split_and!; [done|done|by eapply listed_ext].
Qed.

(** The entity of a function that is present. *)
Lemma runs_entity s b x d f l n (Q : entity → pci C Nd → Prop) : wf s → at_place s b x → valid_fn (fn_at x d f) → caps_at R (fn_at x d f) l → (n ≤ 6)%nat →
  (∀ s', wf s' → ext s s' → at_place s' b x → bus_at s' = bus_at s →
     Q (with_bars (entity_of R (fn_at x d f) b l n) (decode R (fn_at x d f) n 0 (Z.of_nat n) (replicate n None))) s') →
  runs (e ← new_entity caps_fuel b d f n; read_bars e) s Q.
Proof.
  intros Hw Ha Hv Hl Hn HQ. pose proof (at_place_usable _ _ _ _ _ Ha Hv) as Hu. set (F := fn_at x d f) in *.
  destruct (new_entity_caps R s b F n l caps_fuel (wf_holds _ Hw) Hu Hl ltac:(unfold caps_fuel; lia)) as (c & E & HR).
  destruct (foldl_entity R F l (mk_entity b (f_dev F) (f_func F) [] None None (replicate n None))) as (Hp & Hd & Hf & Hb).
  fold (entity_of R F b l n) in Hp, Hd, Hf, Hb. simpl in Hp, Hd, Hf, Hb. assert (length (bars (entity_of R F b l n)) = n) as Hlen by by rewrite Hb, length_replicate.
  destruct (read_bars_decode R (set_cfg c s) (entity_of R F b l n) F HR) as (c' & E' & HR'); [by rewrite Hp|done|done|by rewrite Hlen|].
  apply runs_bind. eexists _, _. split; [exact E|]. eexists _, _. split; [exact E'|]. rewrite Hlen, Hb, set_cfg_twice in *.
  apply HQ; [by apply wf_set_cfg|apply ext_set_cfg|by apply at_place_set_cfg|done].
Qed.
Lemma runs_assoc {A B D} (m : pciM C Nd A) (g : A → pciM C Nd B) (k : B → pciM C Nd D) s Q :
  runs ((m ≫= g) ≫= k) s Q → runs (m ≫= λ a, g a ≫= k) s Q.
Proof. unfold runs, mbind, pciM_bind, mbind, outcome_bind. intros (a & s' & E & HQ). exists a, s'. split; [|done]. rewrite <-E. by destruct (m s) as [[]| | | |]. Qed.

Lemma enum_device_wf s b x d f l : wf s → at_place s b x → place_ok x → found R x d f → caps_at R (fn_at x d f) l → V (fn_at x d f) →
  runs (enum_device b d f (field R (fn_at x d f) reg_venid 2) (field R (fn_at x d f) reg_devid 2)) s
    (λ _ s', wf s' ∧ ext s s' ∧ is_Some (devs s' !! fn_idx (fn_at x d f))).
Proof.
  intros Hw Ha Hok Hf Hl HV. pose proof (slot_valid x d f Hok (proj1 Hf)) as Hv. unfold enum_device.
  apply runs_bind, (runs_read s b x); [done|done|done|valid_reg|]. intros s1 Hw1 Hx1 Ha1 _.
  apply runs_bind, (runs_read s1 b x); [done|done|done|valid_reg|]. intros s2 Hw2 Hx2 Ha2 _.
  apply runs_bind, (runs_read s2 b x); [done|done|done|valid_reg|]. intros s3 Hw3 Hx3 Ha3 _.
  apply runs_assoc, runs_bind, (runs_entity s3 b x d f l 6); [done|done|done|done|done|]. intros s4 Hw4 Hx4 Ha4 _.
  apply runs_bind, (runs_read s4 b x); [done|done|done|valid_reg|]. intros s5 Hw5 Hx5 Ha5 _.
  apply runs_bind, (runs_get_bus s5 b x); [done|]. intros bs Hb Hs Hi Hr _ _.
  assert (ext s s5) as Hx by (do 4 (etrans; [eassumption|]); done).
  apply runs_bind. set (m := match bus_router bs with Some _ => _ | None => _ end). assert (∃ rt, m s5 = Done (rt, s5)) as [rt Hm].
  { unfold m. destruct (bus_router bs) as [r|] eqn:Er; [|by exists None]. destruct (_ =? 0); [by exists None|].
    destruct (resolve_ok r d (field R (fn_at x d f) reg_intpin 1) (-1) (Hr r eq_refl)) as [e He]. exists (Some e). unfold lift, mbind, pciM_bind. by rewrite He. }
  exists rt, s5. split; [done|]. eapply runs_weaken; [by eapply (add_device_wf s5 b bs (fn_at x d f) l rt)|].
  intros _ s6 (Hw6 & Hx6 & Hd6). split; [done|]. split; [by etrans|done].
Qed.

(** ** A bridge *)
Lemma ext_wf s s' : wf s → ext s s' → holds R s' → devs s' = devs s → (∀ h, next s' ≤ h → fresh_at s' h) → wf s'.
Proof.
  intros Hw Hx HR Hd Hf. split; [done|done|]. rewrite Hd. intros k h Hk. destruct (wf_devs _ Hw k h Hk) as (f & HV & -> & Hl).
  exists f. split_and!; [done|done|]. by eapply listed_ext.
Qed.
Lemma runs_new_handle s (Q : Z → pci C Nd → Prop) : wf s →
  (∀ h s', wf s' → ext s s' → bus_at s' = bus_at s → bridge_at s' = bridge_at s → fresh_at s' h → h < next s' → Q h s') → runs new_handle s Q.
Proof.
  intros Hw HQ. eexists _, _. split; [reflexivity|]. apply HQ; try done; simpl; [|by split; try done; intros h o Ho; exists o|by apply (wf_fresh _ Hw)|lia].
  eapply (ext_wf s); try done; [by split; try done; intros h o Ho; exists o|apply Hw|]. intros h Hh. simpl in *. apply (wf_fresh _ Hw). lia.
Qed.
Lemma put_bridge_wf s h br : wf s → h < next s → (∀ br0, bridge_at s !! h = Some br0 → b_entity br = b_entity br0) →
  wf (put_bridge h br s) ∧ ext s (put_bridge h br s).
Proof.
  intros Hw Hh Hbr. assert (ext s (put_bridge h br s)) as Hx.
  { split; try done; [|intros h' o Ho; by exists o]. intros h' br' Hb. simpl. destruct (decide (h' = h)) as [->|Hne]; [|rewrite lookup_insert_ne by done; by exists br'].
    rewrite lookup_insert_eq. exists br. split; [done|]. by apply Hbr. }
  split; [|done]. eapply (ext_wf s); try done; [apply Hw|]. intros h' Hh'. simpl in *. destruct (wf_fresh _ Hw h' Hh') as (? & ? & ?).
  split_and!; try done. simpl. by rewrite lookup_insert_ne by lia.
Qed.
Lemma put_bus_wf s h bs : wf s → h < next s → bus_at s !! h = None → wf (put_bus h bs s) ∧ ext s (put_bus h bs s).
Proof.
  intros Hw Hh Hbs. assert (ext s (put_bus h bs s)) as Hx.
  { split; try done; [intros h' o Ho; by exists o|]. intros h' bs' Hb. simpl. rewrite lookup_insert_ne by congruence. by exists bs'. }
  split; [|done]. eapply (ext_wf s); try done; [apply Hw|]. intros h' Hh'. simpl in *. destruct (wf_fresh _ Hw h' Hh') as (? & ? & ?).
  split_and!; try done. simpl. by rewrite lookup_insert_ne by lia.
Qed.
(** The last part of [enum_bridge]. *)
Lemma add_bridge_runs s b x h d f : wf s → at_place s b x →
  runs (_ ← add_bridge b h; bs ← get_bus b; update (λ s, put_brdgs (<[devidx (seg bs) (id bs) d f := h]> (brdgs s)) s)) s (λ _ s', wf s' ∧ ext s s').
Proof.
  intros Hw Ha. pose proof Ha as (bs & Hb & _). unfold runs. cbv [mbind pciM_bind outcome_bind update add_bridge get_bus]. cbn. rewrite Hb. cbn. rewrite lookup_insert_eq. cbn.
  eexists _, _. split; [reflexivity|]. set (s' := put_brdgs _ _). assert (ext s s') as Hx.
  { split; try done; [intros h' o Ho; by exists o|]. intros h' bs' Hb'. simpl. destruct (decide (h' = b)) as [->|Hne]; [|rewrite lookup_insert_ne by done; by exists bs'].
    rewrite lookup_insert_eq. simplify_eq. by eexists. }
  split; [|done]. eapply (ext_wf s); try done; [apply Hw|]. intros h' Hh'. simpl in *. destruct (wf_fresh _ Hw h' Hh') as (E & ? & ?).
  split_and!; try done. simpl. rewrite lookup_insert_ne; [done|]. intros ->. congruence.
Qed.
(** All devices behind a place are known. *)
Definition below s (x : place) : Prop := ∀ y, rtc (behind R) x y → ∀ d f, found R y d f → kind R (fn_at y d f) = 0 → is_Some (devs s !! fn_idx (fn_at y d f)).
Lemma below_ext s s' x : ext s s' → below s x → below s' x.
Proof. intros Hx Hb y Hy d f Hf Hk. apply (ext_devs _ _ Hx). by apply Hb. Qed.
Lemma fn_range g off : 0 ≤ field R g off 1 < 256.
Proof. change 256 with (2 ^ (8 * 1)). apply field_range. lia. Qed.

Definition enum_spec (enum : Z → pciM C Nd unit) (x : place) : Prop :=
  ∀ s b, wf s → at_place s b x → runs (enum b) s (λ _ s', wf s' ∧ ext s s' ∧ below s' x).

Lemma enum_bridge_wf enum s b x d f l : wf s → at_place s b x → place_ok x → found R x d f → kind R (fn_at x d f) = 1 → caps_at R (fn_at x d f) l →
  (secondary R (fn_at x d f) ≠ 0 → is_Some (port_of R (fn_at x d f) l)) → (∀ y, via R x d f y → enum_spec enum y) →
  runs (enum_bridge enum b d f) s (λ _ s', wf s' ∧ ext s s' ∧ ∀ y, via R x d f y → below s' y).
Proof.
  intros Hw Ha Hok Hf Hkind Hl Hport Henum. pose proof (slot_valid x d f Hok (proj1 Hf)) as Hv. unfold enum_bridge.
  apply runs_assoc, runs_bind, (runs_entity s b x d f l 2); [done|done|done|done|lia|]. intros s1 Hw1 Hx1 Ha1 _.
  set (e := with_bars _ _). apply runs_bind, runs_new_handle; [done|]. intros h s2 Hw2 Hx2 Hb2 Hr2 (Hfb & Hfd & Hfr) Hh2.
  destruct (put_bridge_wf s2 h (mk_bridge e None None None) Hw2 Hh2) as [Hw3 Hx3]; [by rewrite Hfr|].
  apply runs_bind. eexists _, _. split; [reflexivity|]. set (s3 := put_bridge h (mk_bridge e None None None) s2) in *.
  assert (at_place s3 b x) as Ha3 by (by eapply at_place_ext, at_place_ext, Ha1).
  apply runs_bind, (runs_read s3 b x); [done|done|done|valid_reg|]. intros s4 Hw4 Hx4 Ha4 Hb4.
  assert (ext s s4) as Hx04 by (do 3 (etrans; [eassumption|]); done).
  assert (∀ s', wf s' → ext s4 s' → (∀ y, via R x d f y → below s' y) →
    runs (_ ← add_bridge b h; bs ← get_bus b; update (λ s, put_brdgs (<[devidx (seg bs) (id bs) d f := h]> (brdgs s)) s)) s'
      (λ _ s2, wf s2 ∧ ext s s2 ∧ ∀ y, via R x d f y → below s2 y)) as Hend.
  { intros s' Hw' Hx' Hbel. eapply runs_weaken; [eapply (add_bridge_runs s' b x h d f Hw'); by eapply at_place_ext|]. simpl. intros _ s9 [Hw9 Hx9].
    split; [done|]. split; [by do 2 (etrans; [eassumption|])|]. intros y Hy. by eapply below_ext, Hbel. }
  apply runs_bind. fold (secondary R (fn_at x d f)). destruct (Z.eqb_spec (secondary R (fn_at x d f)) 0) as [Hz|Hz].
  { apply runs_ret, Hend; [done|done|]. intros y (_ & _ & Hnz & _). done. }
  destruct (Hport Hz) as [one Hone]. set (y := mk_place (p_seg x) (secondary R (fn_at x d f)) one).
  assert (via R x d f y) as Hvia by (split_and!; try done; by exists l, one).
  apply runs_bind, (runs_read s4 b x); [done|done|done|valid_reg|]. intros s5 Hw5 Hx5 Ha5 Hb5.
  apply runs_bind, (runs_get_bus s5 b x); [done|]. intros bs Hbs Hs Hi Hr Hal Hsv.
  apply runs_bind. set (m := match bus_router bs with Some _ => _ | None => _ end). assert (∃ r, m s5 = Done (r, s5) ∧ ∀ r', r = Some r' → router_ok r') as (r & Hm & Hr').
  { unfold m. destruct (bus_router bs) as [r|] eqn:Er; [|by exists None].
    destruct (downstream_ok r d f Hacpi (Hr r eq_refl)) as (r' & He & Hr'). exists (Some r'). unfold lift, mbind, pciM_bind. rewrite He. split; [done|]. by intros ? [=<-]. }
  eexists _, _. split; [exact Hm|]. apply runs_bind, runs_new_handle; [done|]. intros sb s6 Hw6 Hx6 Hb6 Hr6 (Hgb & Hgd & Hgr) Hh6.
  set (nb := mk_bus (seg bs) (secondary R (fn_at x d f)) (bus_io bs) (Some h) r [] []).
  destruct (put_bus_wf s6 sb nb Hw6 Hh6 Hgb) as [Hw7 Hx7]. apply runs_bind. eexists _, _. split; [reflexivity|]. set (s7 := put_bus sb nb s6) in *.
  assert (ext s3 s7) as Hx37 by (do 3 (etrans; [eassumption|]); done).
  destruct (ext_bridge _ _ Hx37 h (mk_bridge e None None None)) as (br7 & Hbr7 & He7); [simpl; by rewrite lookup_insert_eq|].
  assert (h < next s7) as Hh7.
  { destruct (Z.ltb_spec h (next s7)) as [?|Hle]; [done|]. destruct (wf_fresh _ Hw7 h Hle) as (_ & _ & E). congruence. }
  set (br := mk_bridge e (Some (secondary R (fn_at x d f))) (Some (field R (fn_at x d f) reg_subordinate_bus 1)) (Some sb)).
  destruct (put_bridge_wf s7 h br Hw7 Hh7) as [Hw8 Hx8]; [intros br0 Hbr0; rewrite Hbr7 in Hbr0; injection Hbr0 as <-; by rewrite He7|].
  apply runs_bind. eexists _, _. split; [reflexivity|]. set (s8 := put_bridge h br s7) in *.
  assert (at_place s8 sb y) as Ha8.
  { exists nb. simpl. rewrite lookup_insert_eq. destruct (entity_of_port R (fn_at x d f) b l 2) as [Hp1 Hp2]. rewrite Hone in Hp1, Hp2. split_and!; try done.
    - unfold io_alive in *. simpl. by rewrite (ext_ios _ _ Hx6).
    - apply (Hserves _ x y); [by exists d, f|done].
    - exists br. simpl. by rewrite lookup_insert_eq. }
  eapply runs_weaken; [by apply (Henum y Hvia s8 sb)|]. simpl. intros _ s9 (Hw9 & Hx9 & Hbel). apply Hend; [done| |].
  - do 4 (etrans; [eassumption|]). done.
  - intros y' (_ & _ & _ & l' & one' & Hl' & Hone' & ->). assert (l' = l) as -> by (by eapply caps_at_det). rewrite Hone in Hone'. by injection Hone' as <-.
Qed.

(** ** Functions, devices, buses *)
(** What firmware promises of a bus: functions are devices or bridges, lists of capabilities
    end, bridges are PCI Express bridges to buses with greater numbers. *)
Record topology_at (x : place) : Prop := {
  ta_place : place_ok x;
  ta_kind d f : found R x d f → kind R (fn_at x d f) = 0 ∨ kind R (fn_at x d f) = 1;
  ta_caps d f : found R x d f → ∃ l, caps_at R (fn_at x d f) l ∧
    (kind R (fn_at x d f) = 1 → secondary R (fn_at x d f) ≠ 0 → is_Some (port_of R (fn_at x d f) l) ∧ p_bus x < secondary R (fn_at x d f)) }.
Definition seen s (x : place) (d f : Z) : Prop :=
  (kind R (fn_at x d f) = 0 → is_Some (devs s !! fn_idx (fn_at x d f))) ∧ ∀ y, via R x d f y → below s y.
Lemma seen_ext s s' x d f : ext s s' → seen s x d f → seen s' x d f.
Proof. intros Hx [Hd Hb]. split; [intros Hk; by apply (ext_devs _ _ Hx), Hd|]. intros y Hy. by eapply below_ext, Hb. Qed.
Definition all_in_V (x : place) : Prop := ∀ d f, found R x d f → kind R (fn_at x d f) = 0 → V (fn_at x d f).

Lemma for_each_runs g (Q : Z → pci C Nd → Prop) b x l : ∀ s,
  (∀ i s, i ∈ l → wf s → at_place s b x → runs (g i) s (λ _ s', wf s' ∧ ext s s' ∧ Q i s')) → (∀ i s s', ext s s' → Q i s → Q i s') →
  wf s → at_place s b x → runs (for_each g l) s (λ _ s', wf s' ∧ ext s s' ∧ ∀ i, i ∈ l → Q i s').
Proof.
  induction l as [|i l IH]; intros s Hg HQ Hw Ha; simpl.
  - apply runs_ret. split; [done|]. split; [done|]. intros i Hi. by apply not_elem_of_nil in Hi.
  - apply runs_bind. eapply runs_weaken; [apply Hg; [left|done|done]|]. simpl. intros _ s1 (Hw1 & Hx1 & HQ1).
    eapply runs_weaken; [apply IH; [intros j s' Hj; apply Hg; by right|done|done|by eapply at_place_ext]|]. simpl. intros _ s2 (Hw2 & Hx2 & HQ2).
    split; [done|]. split; [by etrans|]. intros j [->|Hj]%elem_of_cons; [by eapply HQ|by apply HQ2].
Qed.

Lemma enum_func_wf enum s b x d f : wf s → at_place s b x → topology_at x → all_in_V x → slot R x d f → (∀ y, via R x d f y → enum_spec enum y) →
  runs (enum_func enum b d f) s (λ _ s', wf s' ∧ ext s s' ∧ (found R x d f → seen s' x d f)).
Proof.
  intros Hw Ha [Hok Hkinds Hcaps] HV Hslot Henum. pose proof (slot_valid x d f Hok Hslot) as Hv. unfold enum_func.
  apply runs_bind, (runs_read s b x); [done|done|done|valid_reg|]. intros s1 Hw1 Hx1 Ha1 _.
  apply runs_bind, (runs_read s1 b x); [done|done|done|valid_reg|]. intros s2 Hw2 Hx2 Ha2 _. assert (ext s s2) as Hx by by etrans.
  destruct (Z.eqb_spec (field R (fn_at x d f) reg_venid 2) 0xFFFF) as [E|Hvn]; [by apply runs_ret; split_and!; [..|intros (_ & ? & _)]|].
  destruct (Z.eqb_spec (field R (fn_at x d f) reg_devid 2) 0xFFFF) as [E|Hdn]; [by apply runs_ret; split_and!; [..|intros (_ & _ & ?)]|]. cbn [orb].
  assert (found R x d f) as Hf by done.
  apply runs_bind, (runs_read s2 b x); [done|done|done|valid_reg|]. intros s3 Hw3 Hx3 Ha3 _. fold (kind R (fn_at x d f)).
  destruct (Hcaps d f Hf) as (l & Hl & Hbridge). destruct (Hkinds d f Hf) as [Hk|Hk]; rewrite Hk; cbn [Z.eqb Pos.eqb].
  - eapply runs_weaken; [apply (enum_device_wf s3 b x d f l); [done..|by apply HV]|]. simpl. intros _ s4 (Hw4 & Hx4 & Hd4).
    split; [done|]. split; [by do 2 (etrans; [eassumption|])|]. intros _. split; [done|]. intros y (_ & E & _). by rewrite Hk in E.
  - eapply runs_weaken; [apply (enum_bridge_wf enum s3 b x d f l); try done; by intros Hz; apply Hbridge|]. simpl. intros _ s4 (Hw4 & Hx4 & Hb4).
    split; [done|]. split; [by do 2 (etrans; [eassumption|])|]. intros _. split; [by rewrite Hk|done].
Qed.
Lemma enum_dev_wf enum s b x d : wf s → at_place s b x → topology_at x → all_in_V x → 0 ≤ d < (if p_one x then 1 else 32) →
  (∀ f y, via R x d f y → enum_spec enum y) →
  runs (enum_dev enum b d) s (λ _ s', wf s' ∧ ext s s' ∧ ∀ f, found R x d f → seen s' x d f).
Proof.
  intros Hw Ha Ht HV Hd Henum. pose proof (ta_place _ Ht) as Hok. assert (valid_fn (fn_at x d 0)) as Hv.
  { destruct Hok. unfold valid_fn. simpl. destruct (p_one x); lia. }
  unfold enum_dev. apply runs_bind, (runs_read s b x); [done|done|done|valid_reg|]. intros s1 Hw1 Hx1 Ha1 _.
  destruct (Z.eqb_spec (field R (fn_at x d 0) reg_venid 2) 0xFFFF) as [E|Hvn]; [by apply runs_ret; split_and!; [..|intros f ((_ & ? & _) & _)]|].
  apply runs_bind, (runs_read s1 b x); [done|done|done|valid_reg|]. intros s2 Hw2 Hx2 Ha2 _. assert (ext s s2) as Hx by by etrans.
  destruct (Z.eqb_spec (Z.land (field R (fn_at x d 0) reg_header 1) 0x80) 0) as [Hm|Hm].
  - eapply runs_weaken; [apply (enum_func_wf enum s2 b x d 0); try done; [by split; [done|split; [done|by left]]|apply Henum]|]. simpl. intros _ s3 (Hw3 & Hx3 & Hs3).
    split; [done|]. split; [by etrans|]. intros f Hf. pose proof Hf as ((_ & _ & [-> |[? _]]) & _); [by apply Hs3|done].
  - eapply runs_weaken; [apply (for_each_runs _ (λ f s', found R x d f → seen s' x d f) b x); try done|].
    + intros f s' Hfin Hw' Ha'. apply elem_of_seqZ in Hfin. apply enum_func_wf; try done; [|apply Henum]. split; [done|]. split; [done|]. right. split; [done|lia].
    + intros f s' s'' Hx' Hs Hf. by eapply seen_ext, Hs.
    + simpl. intros _ s3 (Hw3 & Hx3 & Hs3). split; [done|]. split; [by etrans|]. intros f Hf. apply Hs3; [|done].
      pose proof Hf as ((_ & _ & [-> |[_ ?]]) & _); apply elem_of_seqZ; lia.
Qed.
Lemma devs32_runs s b x (Q : bool → pci C Nd → Prop) : at_place s b x → Q (negb (p_one x)) s → runs (devs32 b) s Q.
Proof.
  intros (bs & Hb & _ & _ & _ & _ & _ & Hbr) HQ. unfold devs32. apply runs_bind. exists bs, s. unfold get_bus. rewrite Hb. split; [done|].
  destruct (associated_bridge bs) as [h|]; [|rewrite Hbr in HQ; by apply runs_ret]. destruct Hbr as (br & Hbr & Hp & Hsec).
  apply runs_bind. exists br, s. unfold get_bridge. rewrite Hbr. split; [done|]. rewrite Hp, Hsec. exists (negb (p_one x)), s. by split.
Qed.
Lemma enum_bus_wf fuel : ∀ x, (∀ y, rtc (behind R) x y → topology_at y ∧ all_in_V y) → (Z.to_nat (256 - p_bus x) ≤ fuel)%nat → enum_spec (enum_bus fuel) x.
Proof.
  induction fuel as [|fuel IH]; intros x Htop Hfuel s b Hw Ha; destruct (Htop x (rtc_refl _ _)) as [Ht HV]; pose proof (ta_place _ Ht) as [_ Hbus]; [lia|].
  cbn [enum_bus]. apply runs_bind, (devs32_runs s b x); [done|].
  assert (∀ d f y, via R x d f y → enum_spec (enum_bus fuel) y) as Henum.
  { intros d f y Hy. assert (behind R x y) as Hby by by exists d, f. apply IH; [intros z Hz; apply Htop; by eapply rtc_l|].
    destruct Hy as (Hf & Hk & Hz & l' & one & Hl' & _ & ->). simpl. destruct (ta_caps _ Ht d f Hf) as (l & _ & Hb'). destruct (Hb' Hk Hz) as [_ ?]. lia. }
  eapply runs_weaken; [apply (for_each_runs _ (λ d s', ∀ f, found R x d f → seen s' x d f) b x); try done|].
  - intros d s' Hd Hw' Ha'. apply elem_of_seqZ in Hd. apply enum_dev_wf; try done; [|apply Henum]. destruct (p_one x); simpl in *; lia.
  - intros d s' s'' Hx' Hs f Hf. by eapply seen_ext, Hs.
  - simpl. intros _ s' (Hw' & Hx' & Hs'). split; [done|]. split; [done|]. intros z Hz d f Hf Hk.
    assert (∀ d f, found R x d f → seen s' x d f) as Hall.
    { intros d' f' Hf'. apply (Hs' d'); [|done]. pose proof Hf' as ((Hd' & _) & _). apply elem_of_seqZ. destruct (p_one x); simpl; lia. }
    inversion Hz as [|x' y z' (d' & f' & Hy) Hyz]; subst; [by apply (Hall d f)|]. by apply (proj2 (Hall d' f' (proj1 Hy)) y Hy z Hyz).
Qed.
End enum.

(** * The theorem *)
Section enumerate.
Context {C : Type} `{ConfigLaws C} `{Acpi Nd Src}.
Implicit Types s : pci C Nd.

(** The devices behind the root buses. *)
Definition reachable (R : fn → Z → Z) (roots : list place) (f : fn) : Prop :=
  ∃ x y d fu, x ∈ roots ∧ rtc (behind R) x y ∧ f = fn_at y d fu ∧ found R y d fu ∧ kind R f = 0.
(** The machine before enumeration. *)
Record machine_ok (R : fn → Z → Z) (roots : list place) s : Prop := {
  mo_acpi : acpi_ok;
  mo_serves io x y : behind R x y → cl_serves io (p_seg x) (p_bus x) → cl_serves io (p_seg y) (p_bus y);
  mo_topology x y : x ∈ roots → rtc (behind R) x y → topology_at R y;
  mo_holds : holds R s;
  mo_devs : devs s = ∅;
  mo_fresh h : next s ≤ h → fresh_at s h;
  mo_roots : Forall2 (at_place s) (rbs s) roots }.

Lemma reachable_valid R roots s f : machine_ok R roots s → reachable R roots f → valid_fn f ∧ f_seg f < 256.
Proof.
  intros Hm (x & y & d & fu & Hx & Hy & -> & Hf & _). destruct (ta_place _ _ (mo_topology _ _ _ Hm x y Hx Hy)) as [Hs Hb].
  split; [|simpl; lia]. by apply (slot_valid R y d fu (conj Hs Hb)), Hf.
Qed.
Lemma roots_runs R V roots fuel : acpi_ok → (∀ io x y, behind R x y → cl_serves io (p_seg x) (p_bus x) → cl_serves io (p_seg y) (p_bus y)) →
  ∀ hs s, Forall2 (at_place s) hs roots → (∀ x y, x ∈ roots → rtc (behind R) x y → topology_at R y ∧ all_in_V R V y) → (256 ≤ fuel)%nat → wf R V s →
  runs (for_each (enum_bus fuel) hs) s (λ _ s', wf R V s' ∧ ext s s' ∧ ∀ x, x ∈ roots → below R s' x).
Proof.
  intros Hac Hsv. induction roots as [|x roots IH]; intros hs s Hhs Htop Hfuel Hw.
  - apply Forall2_nil_inv_r in Hhs as ->. apply runs_ret. split; [done|]. split; [done|]. intros x Hx. by apply not_elem_of_nil in Hx.
  - apply Forall2_cons_inv_r in Hhs as (b & hs' & Ha & Hhs & ->). cbn [for_each].
    apply runs_bind. eapply runs_weaken; [apply (enum_bus_wf R V Hac Hsv fuel x); [intros y Hy; apply (Htop x); [by left|done]| |done|done]|].
    { destruct (Htop x x ltac:(by left) (rtc_refl _ _)) as [[[_ Hb] _ _] _]. lia. }
    simpl. intros _ s1 (Hw1 & Hx1 & Hb1). eapply runs_weaken; [apply IH; [|intros y z Hy; apply Htop; by right|done|done]|].
    { eapply Forall2_impl; [exact Hhs|]. intros h y Hy. by eapply at_place_ext. }
    simpl. intros _ s2 (Hw2 & Hx2 & Hb2). split; [done|]. split; [by etrans|]. intros y [->|Hy]%elem_of_cons; [by eapply below_ext|by apply Hb2].
Qed.

(** Enumeration ends and finds exactly the devices behind the root buses, through any number
    of bridges: the map has an entry for the index of each of them and no other, with an
    object that holds the identifiers, classes, capabilities and base addresses of the
    function and is in the list of its bus.  All registers have their values again. *)
Lemma enumerate_correct R roots s fuel : machine_ok R roots s → (256 ≤ fuel)%nat →
  ∃ s', enumerate fuel s = Done ((), s') ∧ holds R s' ∧
    (∀ k, is_Some (devs s' !! k) ↔ ∃ f, reachable R roots f ∧ k = fn_idx f) ∧
    ∀ f h, reachable R roots f → devs s' !! fn_idx f = Some h → listed R s' f h.
Proof.
  intros Hm Hfuel. set (V := reachable R roots). assert (wf R V s) as Hw.
  { split; [apply Hm|apply Hm|]. intros k h. rewrite (mo_devs _ _ _ Hm), lookup_empty. done. }
  assert (∃ s', enumerate fuel s = Done ((), s') ∧ wf R V s' ∧ ∀ x, x ∈ roots → below R s' x) as (s' & E & Hw' & Hb).
  { unfold enumerate. case_bool_decide as Hios.
    - exists s. split; [done|]. split; [done|]. intros x Hx. apply list_elem_of_lookup in Hx as [i Hi]. destruct (Forall2_lookup_r _ _ _ _ _ (mo_roots _ _ _ Hm) Hi) as (b & _ & bs & _ & _ & _ & Ha & _).
      unfold io_alive in Ha. apply bool_decide_eq_true in Ha as (k & io & Hk & _). by rewrite Hios, lookup_empty in Hk.
    - destruct (roots_runs R V roots fuel (mo_acpi _ _ _ Hm) (mo_serves _ _ _ Hm) (rbs s) s (mo_roots _ _ _ Hm)) as ([] & s' & E & Hw' & _ & Hb); try done.
      + intros x y Hx Hy. split; [by eapply mo_topology|]. intros d f Hf Hk. by exists x, y, d, f.
      + by exists s'. }
  exists s'. split; [done|]. split; [apply Hw'|]. split.
  - intros k. split; [intros [h Hh]; destruct (wf_devs _ _ _ Hw' k h Hh) as (f & Hf & -> & _); by exists f|].
    intros (f & Hf & ->). destruct Hf as (x & y & d & fu & Hx & Hy & -> & Hfo & Hk). by apply (Hb x Hx y Hy).
  - intros f h Hf Hh. destruct (wf_devs _ _ _ Hw' _ h Hh) as (g & Hg & Heq & Hl).
    destruct (reachable_valid _ _ _ _ Hm Hf), (reachable_valid _ _ _ _ Hm Hg). by rewrite (fn_idx_inj f g).
Qed.

(** A bus behind a conventional bridge, one without the PCI Express capability, can not be
    enumerated: the flags that are tested have never been written. *)
Lemma devs32_uninitialised s b bs h br : bus_at s !! b = Some bs → associated_bridge bs = Some h → bridge_at s !! h = Some br →
  is_pcie (b_entity br) = None → devs32 b s = Crash.
Proof.
  intros Hb Ha Hbr Hp. unfold devs32, mbind, pciM_bind, get_bus, get_bridge. rewrite Hb. cbn [deref mbind outcome_bind]. rewrite Ha, Hbr. cbn [deref mbind outcome_bind]. by rewrite Hp.
Qed.
End enumerate.
(** Segments from 256 on share the indices of others. *)
Lemma devidx_collides sg b d f : devidx (sg + 256) b d f = devidx sg b d f.
Proof.
  unfold devidx. do 4 f_equal. unfold w32. rewrite !Z.shiftl_mul_pow2 by lia. replace ((sg + 256) * 2 ^ 24) with (sg * 2 ^ 24 + 1 * 2 ^ 32) by lia. apply Z.mod_add. lia.
Qed.
