(* ===== verification/PciLegacy.v ===== *)
(** Access to configuration registers through ports (kernel/source/arch/x86_64/system/pci.cpp):
    the address goes to port 0xCF8, the data is at 0xCFC.  It implements the interface that
    enumeration relies on. *)

From S2P Require Import Prelude Math Pci PciSpec PciBars.
#[local] Open Scope Z_scope.

(** [lib::io::in] and [lib::io::out] with width and port. *)
Class Ports (D : Type) := {
  port_in : Z → Z → D → Z * D;
  port_out : Z → Z → Z → D → D }.

Section legacy.
Context {D : Type} `{Ports D}.

Definition legacy_addr (bus dev func uoff : Z) : Z :=
  Z.lor (Z.lor (Z.lor (Z.lor (Z.shiftl bus 16) (Z.shiftl dev 11)) (Z.shiftl func 8)) (Z.land uoff (Z.lnot 3))) 0x80000000.
Definition legacy_width (width : Z) : bool := (width =? 1) || (width =? 2) || (width =? 4).
Definition legacy_read (seg bus dev func offset width : Z) (d : D) : outcome (Z * D) :=
  _ ← bug_on (negb (seg =? 0));
  let uoff := w32 offset in
  let d := port_out 4 0xCF8 (legacy_addr bus dev func uoff) d in
  if legacy_width width then Done (port_in width (w16 (0xCFC + Z.land uoff 3)) d) else Panic.
Definition legacy_write (seg bus dev func offset value width : Z) (d : D) : outcome D :=
  _ ← bug_on (negb (seg =? 0));
  let uoff := w32 offset in
  let d := port_out 4 0xCF8 (legacy_addr bus dev func uoff) d in
  if legacy_width width then Done (port_out width (w16 (0xCFC + Z.land uoff 3)) (value mod 2 ^ (8 * width)) d) else Panic.
End legacy.
(** The object [legacy]. *)
#[export] Instance legacy_io `{Ports D} : ConfigIo D :=
  {| cio_read _ := legacy_read; cio_write _ := legacy_write |}.

(** * Configuration mechanism 1 *)
(** The register that an address stands for. *)
Definition latched (a : Z) : option (fn * Z) :=
  if Z.testbit a 31 then Some (mk_fn 0 ((a / 2 ^ 16) mod 2 ^ 8) ((a / 2 ^ 11) mod 2 ^ 5) ((a / 2 ^ 8) mod 2 ^ 3), 4 * ((a / 4) mod 2 ^ 6)) else None.
(** The hardware: a write to 0xCF8 selects a register, data at 0xCFC is that of the register. *)
Class PortLaws (D : Type) `{Ports D} := {
  pl_inv : D → Prop;
  pl_addr : D → Z;
  pl_reg : D → fn → Z → Z;
  pl_mask : fn → Z → Z;
  pl_range d f off : pl_inv d → 0 ≤ pl_reg d f off < 2 ^ 32;
  pl_mask_range f off : 0 ≤ pl_mask f off < 2 ^ 32;
  pl_select d a : pl_inv d → 0 ≤ a < 2 ^ 32 →
    let d' := port_out 4 0xCF8 a d in pl_inv d' ∧ pl_addr d' = a ∧ pl_reg d' = pl_reg d;
  pl_in d f off k width : pl_inv d → latched (pl_addr d) = Some (f, off) → 0 ≤ k → valid_field (off + k) width → k + width ≤ 4 →
    ∃ d', port_in width (0xCFC + k) d = (field (pl_reg d) f (off + k) width, d') ∧ pl_inv d' ∧ pl_reg d' = pl_reg d;
  pl_out d f off v : pl_inv d → latched (pl_addr d) = Some (f, off) → bar_reg off → 0 ≤ v < 2 ^ 32 →
    let d' := port_out 4 0xCFC v d in
    pl_inv d' ∧ ∀ g o, pl_reg d' g o = if decide (g = f ∧ o = off) then written (pl_mask f off) (pl_reg d f off) v else pl_reg d g o }.

Lemma legacy_addr_sum bus dev func uoff : 0 ≤ bus < 256 → 0 ≤ dev < 32 → 0 ≤ func < 8 → 0 ≤ uoff < 256 →
  legacy_addr bus dev func uoff = 2 ^ 31 + (2 ^ 16 * bus + (2 ^ 11 * dev + (2 ^ 8 * func + 4 * (uoff / 4)))).
Proof.
  intros Hb Hd Hf Hu. assert (0 ≤ uoff / 4 < 64) by (Z.to_euclidean_division_equations; lia). unfold legacy_addr.
  rewrite !Z.shiftl_mul_pow2 by lia. change (Z.lnot 3) with (Z.lnot (2 ^ 2 - 1)). rewrite land_lnot_pow2 by lia. change (2 ^ 2) with 4.
  rewrite (Z.mul_comm bus). rewrite (lor_add 16) by lia. replace (2 ^ 16 * bus + dev * 2 ^ 11) with (2 ^ 11 * (2 ^ 5 * bus + dev)) by lia.
  rewrite (lor_add 11) by lia. replace (2 ^ 11 * (2 ^ 5 * bus + dev) + func * 2 ^ 8) with (2 ^ 8 * (2 ^ 3 * (2 ^ 5 * bus + dev) + func)) by lia.
  rewrite (lor_add 8) by lia. rewrite Z.lor_comm. change 0x80000000 with (2 ^ 31 * 1). rewrite (lor_add 31) by lia. lia.
Qed.
Lemma latched_legacy bus dev func uoff : 0 ≤ bus < 256 → 0 ≤ dev < 32 → 0 ≤ func < 8 → 0 ≤ uoff < 256 →
  latched (legacy_addr bus dev func uoff) = Some (mk_fn 0 bus dev func, 4 * (uoff / 4)).
Proof.
  intros Hb Hd Hf Hu. rewrite legacy_addr_sum by done. assert (0 ≤ uoff / 4 < 64) by (Z.to_euclidean_division_equations; lia).
  set (q := uoff / 4) in *. set (a := _ + _). unfold latched.
  assert (Z.testbit a 31 = true) as ->. { apply Z.testbit_true; [lia|]. unfold a. Z.to_euclidean_division_equations; lia. }
  do 2 f_equal; [f_equal|]; unfold a; Z.to_euclidean_division_equations; lia.
Qed.

Section laws.
Context {D : Type} `{PortLaws D}.

(** Selecting the register of a field. *)
Lemma legacy_select d f off : pl_inv d → valid_fn f → f_seg f = 0 → 0 ≤ off < 256 →
  let d' := port_out 4 0xCF8 (legacy_addr (f_bus f) (f_dev f) (f_func f) (w32 off)) d in
  pl_inv d' ∧ latched (pl_addr d') = Some (f, 4 * (off / 4)) ∧ pl_reg d' = pl_reg d.
Proof.
  intros Hd (_ & Hb & Hdv & Hf) Hs Hoff. rewrite w32_small by lia. simpl.
  destruct (pl_select d (legacy_addr (f_bus f) (f_dev f) (f_func f) off) Hd) as (Hi & Ha & Hr).
  { rewrite legacy_addr_sum by lia. Z.to_euclidean_division_equations; lia. }
  split; [done|]. rewrite Ha, latched_legacy by lia. split; [|done]. destruct f. simpl in *. by subst.
Qed.
Lemma data_port off : 0 ≤ off < 256 → w16 (0xCFC + Z.land (w32 off) 3) = 0xCFC + off mod 4.
Proof.
  intros Hoff. rewrite w32_small by lia. change 3 with (Z.ones 2). rewrite Z.land_ones by lia. change (2 ^ 2) with 4.
  pose proof (Z.mod_pos_bound off 4). unfold w16. apply Z.mod_small. lia.
Qed.
Lemma legacy_read_ok io f off width d : pl_inv d → valid_fn f → f_seg f = 0 → valid_field off width →
  ∃ d', cio_read io (f_seg f) (f_bus f) (f_dev f) (f_func f) off width d = Done (field (pl_reg d) f off width, d') ∧
    pl_inv d' ∧ ∀ g o, valid_fn g → valid_reg o → pl_reg d' g o = pl_reg d g o.
Proof.
  intros Hd Hf Hs Ho. pose proof Ho as (Ho1 & Ho2 & Ho3 & Hw). assert (0 ≤ off < 256) as Hoff by (destruct Hw as [->|[->| ->]]; lia).
  simpl. unfold legacy_read. rewrite Hs. cbn [Z.eqb negb bug_on mbind outcome_bind].
  assert (legacy_width width = true) as -> by (destruct Hw as [->|[->| ->]]; done). rewrite data_port by done.
  destruct (legacy_select d f off Hd Hf Hs Hoff) as (Hi & Hl & Hr). set (d1 := port_out 4 0xCF8 _ d) in *.
  assert (4 * (off / 4) + off mod 4 = off) as Hsum by (pose proof (Z.div_mod off 4); lia).
  destruct (pl_in d1 f (4 * (off / 4)) (off mod 4) width Hi Hl) as (d2 & -> & Hi2 & Hr2).
  - by apply Z.mod_pos_bound.
  - by rewrite Hsum.
  - destruct Ho3 as [q Hq], Hw as [->|[->| ->]]; Z.to_euclidean_division_equations; lia.
  - rewrite Hsum, Hr. exists d2. split; [done|]. split; [done|]. intros g o _ _. by rewrite Hr2, Hr.
Qed.
Lemma legacy_write_ok io f off v d : pl_inv d → valid_fn f → f_seg f = 0 → bar_reg off → 0 ≤ v < 2 ^ 32 →
  ∃ d', cio_write io (f_seg f) (f_bus f) (f_dev f) (f_func f) off v 4 d = Done d' ∧
    pl_inv d' ∧ ∀ g o, valid_fn g → valid_reg o → pl_reg d' g o = if decide (g = f ∧ o = off) then written (pl_mask f off) (pl_reg d f off) v else pl_reg d g o.
Proof.
  intros Hd Hf Hs Ho Hv. pose proof Ho as [Hoff [q Hq]]. simpl. unfold legacy_write. rewrite Hs. cbn [Z.eqb negb bug_on mbind outcome_bind legacy_width orb Pos.eqb].
  rewrite data_port by lia. destruct (legacy_select d f off Hd Hf Hs ltac:(lia)) as (Hi & Hl & Hr). set (d1 := port_out 4 0xCF8 _ d) in *.
  assert (off mod 4 = 0) as -> by (rewrite Hq; by apply Z.mod_mul). rewrite Z.mod_small by done.
  replace (4 * (off / 4)) with off in Hl by (rewrite Hq, Z.div_mul by lia; lia).
  destruct (pl_out d1 f off v Hi Hl Ho Hv) as [Hi2 Hr2]. eexists. split; [reflexivity|]. split; [done|]. intros g o _ _. by rewrite Hr2, Hr.
Qed.
(** The ports implement the configuration space of segment 0. *)
#[export] Instance legacy_laws : ConfigLaws D :=
  {| cl_inv := pl_inv; cl_reg := pl_reg; cl_mask := pl_mask; cl_serves _ seg _ := seg = 0;
     cl_range c f off := pl_range c f off; cl_mask_range := pl_mask_range;
     cl_read io f off width c := legacy_read_ok io f off width c; cl_write io f off v c := legacy_write_ok io f off v c |}.
End laws.
