(* ===== verification/PciBoot.v ===== *)
(** All tasks of PCI on a machine without ACPI tables: the configuration space is accessed
    through ports, the root buses are those of the host bridges. *)

From S2P Require Import Prelude Math Pci PciSpec PciBars PciEnum PciLegacy.
#[local] Open Scope Z_scope.

(** * The objects for all buses *)
Section ios.
Context {C : Type} `{ConfigIo C} `{Acpi Nd Src}.
Implicit Types s : pci C Nd.

Lemma addio_new io i s : ios s !! i = None → addio io 0 i s = Done ((), put_ios (<[i := io]> (ios s)) s).
Proof. intros Hi. unfold addio. change (Z.lor (Z.shiftl 0 8) i) with i. cbv zeta. rewrite Hi. by rewrite bool_decide_eq_false_2 by apply is_Some_None. Qed.
Lemma for_each_addio io l : ∀ s, NoDup l → Forall (λ i, ios s !! i = None) l →
  ∃ m, for_each (addio io 0) l s = Done ((), put_ios m s) ∧ (∀ i, i ∈ l → m !! i = Some io) ∧ ∀ i, i ∉ l → m !! i = ios s !! i.
Proof.
  induction l as [|i l IH]; intros s Hnd Hnew.
  - exists (ios s). split; [by destruct s|]. split; [|done]. intros i Hi. by apply not_elem_of_nil in Hi.
  - apply NoDup_cons in Hnd as [Hni Hnd]. apply Forall_cons in Hnew as [Hi Hnew]. cbn [for_each]. unfold mbind at 1, pciM_bind at 1.
    rewrite addio_new by done. cbn [mbind outcome_bind].
    destruct (IH (put_ios (<[i := io]> (ios s)) s) Hnd) as (m & -> & Hm & Hn).
    { apply Forall_forall. intros j Hj. simpl. rewrite lookup_insert_ne by (intros ->; done). by eapply Forall_forall in Hnew. }
    exists m. split; [done|]. split.
    + intros j Hj. destruct (decide (j ∈ l)) as [Hjl|Hjl]; [by apply Hm|]. apply elem_of_cons in Hj as [->|]; [|done]. rewrite Hn by done. apply lookup_insert_eq.
    + intros j Hj. apply not_elem_of_cons in Hj as [Hne Hj]. rewrite Hn by done. simpl. by rewrite lookup_insert_ne.
Qed.
End ios.

(** * Root buses *)
Section roots.
Context {C : Type} `{ConfigLaws C} `{Acpi Nd Src}.
Context (R : fn → Z → Z) (io : Z).
Hypothesis Hserves : ∀ b, 0 ≤ b < 256 → cl_serves io 0 b.
Implicit Types s : pci C Nd.

Definition root_at (i : Z) : place := mk_place 0 i false.
(** The buses of the host bridges at device 0 of bus 0, one for each function. *)
Definition legacy_buses : list Z :=
  let present := filter (λ i, field R (mk_fn 0 0 0 i) reg_venid 2 ≠ 0xFFFF) (seqZ 0 8) in
  if (Z.land (field R (mk_fn 0 0 0 0) reg_header 1) 0x80 =? 0) || bool_decide (present = []) then [0] else present.

Record before_enum (roots : list Z) s : Prop := {
  be_holds : holds R s;
  be_ios i : 0 ≤ i < 256 → ios s !! i = Some io;
  be_devs : devs s = ∅;
  be_fresh h : next s ≤ h → fresh_at s h;
  be_roots : Forall2 (at_place s) (rbs s) (root_at <$> roots) }.
Lemma be_alive roots s : before_enum roots s → io_alive io s = true.
Proof. intros Hb. apply bool_decide_eq_true. exists 0, io. split; [by apply (be_ios _ _ Hb)|done]. Qed.

Lemma read_at_runs roots s f off width : before_enum roots s → valid_fn f → f_seg f = 0 → valid_field off width →
  ∃ s', read_at io (f_bus f) (f_dev f) (f_func f) off width s = Done (field R f off width, s') ∧ before_enum roots s'.
Proof.
  intros [[Hi HR] Hio Hd Hf Hr] Hv Hs Ho. pose proof Hv as (_ & Hb & _). unfold read_at.
  destruct (cl_read io f off width (cfg s) Hi Hv) as (c & E & Hc & Hc'); [rewrite Hs; by apply Hserves|done|]. rewrite Hs in E. rewrite E. cbn [mbind outcome_bind].
  exists (set_cfg c s). split.
  - rewrite (field_agree _ R); [done|done|done|]. intros o Hvo. by apply HR.
  - split; try done. split; [done|]. intros g o Hg Hvo. simpl. rewrite Hc' by done. by apply HR.
Qed.
Lemma new_root_runs roots s i : before_enum roots s → 0 ≤ i < 256 →
  ∃ s', (h ← new_bus 0 i io None; addrb h) s = Done ((), s') ∧ before_enum (roots ++ [i]) s'.
Proof.
  intros Hb Hi. pose proof (be_alive _ _ Hb) as Hal. destruct Hb as [HR Hio Hd Hf Hr]. eexists. split; [reflexivity|]. simpl. destruct (Hf (next s) ltac:(lia)) as (Hfb & _ & _).
  match goal with |- before_enum _ ?x => set (s' := x) end.
  assert (∀ h x, at_place s h x → at_place s' h x) as Hkeep.
  { intros h x (bs & Hbs & Hrest). exists bs. unfold s'. simpl. rewrite lookup_insert_ne by congruence. done. }
  split; simpl; [done|done|done| |].
  - intros h Hh. destruct (Hf h ltac:(lia)) as (A & B & D). split_and!; simpl; [by rewrite lookup_insert_ne by lia|done|done].
  - rewrite fmap_app. apply Forall2_app; [eapply Forall2_impl; [exact Hr|done]|]. constructor; [|constructor].
    exists (mk_bus 0 i io None None [] []). simpl. rewrite lookup_insert_eq. split_and!; try done. by apply Hserves.
Qed.
Lemma getio_runs roots s i : before_enum roots s → 0 ≤ i < 256 → getio 0 i s = Done (io, s).
Proof. intros Hb Hi. unfold getio. change (Z.lor (Z.shiftl 0 8) i) with i. by rewrite (be_ios _ _ Hb). Qed.
Lemma roots_loop_runs l : ∀ roots s alo, before_enum roots s → Forall (λ i, 0 ≤ i < 8) l →
  ∃ s', legacy_roots_loop io l alo s = Done (alo || bool_decide (filter (λ i, field R (mk_fn 0 0 0 i) reg_venid 2 ≠ 0xFFFF) l ≠ []), s') ∧
    before_enum (roots ++ filter (λ i, field R (mk_fn 0 0 0 i) reg_venid 2 ≠ 0xFFFF) l) s'.
Proof.
  induction l as [|i l IH]; intros roots s alo Hb Hl; [exists s; rewrite orb_false_r, app_nil_r; done|]. apply Forall_cons in Hl as [Hi Hl]. cbn [legacy_roots_loop].
  destruct (read_at_runs roots s (mk_fn 0 0 0 i) reg_venid 2 Hb) as (s1 & E & Hb1); [unfold valid_fn; simpl; lia|done|valid_reg|].
  unfold mbind at 1, pciM_bind at 1. simpl in E. rewrite E. cbn [mbind outcome_bind]. clear E. rewrite filter_cons.
  destruct (Z.eqb_spec (field R (mk_fn 0 0 0 i) reg_venid 2) 0xFFFF) as [E|E]; [rewrite decide_False by (intros Hn; by apply Hn); by apply IH|]. rewrite decide_True by done.
  unfold mbind at 1, pciM_bind at 1. rewrite (getio_runs roots) by (done || lia). cbn [mbind outcome_bind].
  destruct (new_root_runs roots s1 i Hb1 ltac:(lia)) as (s2 & E2 & Hb2). unfold mbind, pciM_bind in E2. unfold mbind at 1, pciM_bind at 1.
  destruct (new_bus 0 i io None s1) as [[h s3]| | | |]; try discriminate E2. cbn [mbind outcome_bind] in E2 |- *. unfold mbind at 1, pciM_bind at 1. rewrite E2. cbn [mbind outcome_bind].
  destruct (IH (roots ++ [i]) s2 true Hb2 Hl) as (s4 & -> & Hb4). exists s4. cbn [orb]. rewrite bool_decide_eq_true_2 by done. rewrite orb_true_r. split; [done|]. by rewrite <-app_assoc in Hb4.
Qed.
Lemma legacy_roots_runs s : before_enum [] s → ∃ s', legacy_roots s = Done ((), s') ∧ before_enum legacy_buses s'.
Proof.
  intros Hb. unfold legacy_roots, legacy_buses. unfold mbind at 1, pciM_bind at 1. rewrite (getio_runs []) by (done || lia). cbn [mbind outcome_bind].
  destruct (read_at_runs [] s (mk_fn 0 0 0 0) reg_header 1 Hb) as (s1 & E & Hb1); [unfold valid_fn; simpl; lia|done|valid_reg|].
  unfold mbind at 1, pciM_bind at 1. simpl in E. rewrite E. cbn [mbind outcome_bind]. clear E. unfold mbind at 1, pciM_bind at 1.
  destruct (Z.land (field R (mk_fn 0 0 0 0) reg_header 1) 0x80 =? 0); cbn [orb].
  - cbn [mret pciM_ret mbind outcome_bind]. apply (new_root_runs [] s1 0 Hb1). lia.
  - destruct (roots_loop_runs (seqZ 0 8) [] s1 false Hb1) as (s2 & -> & Hb2); [apply Forall_forall; intros i Hi%elem_of_seqZ; lia|]. cbn [mbind outcome_bind orb]. simpl app in Hb2.
    case_bool_decide as Hp; case_bool_decide as Hq; try done; [by exists s2|]. rewrite Hq in Hb2. apply (new_root_runs [] s2 0 Hb2). lia.
Qed.
End roots.

(** * All tasks *)
Section boot.
Context {D : Type} `{PortLaws D} `{Acpi Nd Src}.

Definition boot (d : D) : pci D Nd := mk_pci d ∅ [] ∅ ∅ ∅ ∅ ∅ 0.
Lemma boot_before io d : pl_inv d →
  ∃ s, for_each (addio io 0) (seqZ 0 256) (boot d) = Done ((), s) ∧ before_enum (pl_reg d) io [] s.
Proof.
  intros Hd. destruct (for_each_addio io (seqZ 0 256) (boot d)) as (m & E & Hm & _); [apply NoDup_seqZ|apply Forall_forall; intros i _; apply lookup_empty|].
  exists (put_ios m (boot d)). split; [exact E|]. clear E.
  assert (∀ i, 0 ≤ i < 256 → m !! i = Some io) as Hm' by (intros i Hi; apply Hm, elem_of_seqZ; lia). clear Hm.
  split; [by split|exact Hm'|done|by intros h _|constructor].
Qed.

(** C28: on a machine without ACPI tables the tasks of PCI end, and afterwards the devices are
    exactly those behind the host bridges that answer at device 0 of bus 0, read through the
    ports: each has an object with its identifiers, classes, capabilities and base addresses,
    no other object exists, and all registers have their values again.  The machine is one
    whose firmware did its part ([topology_at] at every bus that is reached): functions have
    header type 0 or 1, their lists of capabilities end, and a bridge that is set up is a PCI
    Express bridge to a bus with a greater number.  (Behind a conventional bridge the kernel
    reads what it never wrote, [devs32_uninitialised]; it follows a list with a cycle for
    ever, C31; and it panics on any other header type.) *)
Theorem pci_boot d io fuel : acpi_ok → pl_inv d → (256 ≤ fuel)%nat → let R := pl_reg d in
  (∀ b y, b ∈ legacy_buses R → rtc (behind R) (root_at b) y → topology_at R y) →
  ∃ s', pci_tasks fuel [] io [] (boot d) = Done ((), s') ∧ holds R s' ∧
    (∀ k, is_Some (devs s' !! k) ↔ ∃ f, reachable R (root_at <$> legacy_buses R) f ∧ k = fn_idx f) ∧
    ∀ f h, reachable R (root_at <$> legacy_buses R) f → devs s' !! fn_idx f = Some h → listed R s' f h.
Proof.
  intros Ha Hd Hfuel R Htop. destruct (boot_before io d Hd) as (s1 & E1 & Hb1).
  assert (∀ b, 0 ≤ b < 256 → cl_serves (C := D) io 0 b) as Hsv by (intros b _; reflexivity).
  destruct (legacy_roots_runs R io Hsv s1 Hb1) as (s2 & E2 & Hb2).
  destruct (enumerate_correct R (root_at <$> legacy_buses R) s2 fuel) as (s3 & E3 & Hs3); [clear E1 E2|exact Hfuel|].
  - destruct Hb2 as [HR Hio Hdv Hf Hr]. split; try done.
    + intros i x y (d' & f & _ & _ & _ & l & one & _ & _ & ->). done.
    + intros x y Hx. apply list_elem_of_fmap in Hx as (b & -> & Hb). by apply Htop.
  - exists s3. split; [|exact Hs3]. unfold pci_tasks. cbn [ecam_ios forallb acpi_roots]. unfold legacy_ios, mbind, pciM_bind, mret, pciM_ret. cbn [mbind outcome_bind].
    rewrite E1. cbn [mbind outcome_bind]. rewrite E2. exact E3.
Qed.
End boot.
