(* ===== verification/PciMachine.v ===== *)
(** An example machine: a host bridge, a PCI Express root port and a device behind it, as
    registers without side effects.  The theorems on PCI are applied to it. *)

From S2P Require Import Prelude Math Pci PciSpec PciBars PciEnum PciLegacy PciBoot.
#[local] Open Scope Z_scope.

(** * What is found, as a list *)
Definition foundb (R : fn → Z → Z) (x : place) (d f : Z) : bool :=
  negb (field R (fn_at x d 0) reg_venid 2 =? 0xFFFF) && ((f =? 0) || negb (Z.land (field R (fn_at x d 0) reg_header 1) 0x80 =? 0)) &&
  negb (field R (fn_at x d f) reg_venid 2 =? 0xFFFF) && negb (field R (fn_at x d f) reg_devid 2 =? 0xFFFF).
Definition found_list (R : fn → Z → Z) (x : place) : list (Z * Z) :=
  d ← seqZ 0 (if p_one x then 1 else 32); f ← seqZ 0 8; if foundb R x d f then [(d, f)] else [].
Lemma found_listed R x d f : found R x d f → (d, f) ∈ found_list R x.
Proof.
  intros ((Hd & Hv0 & Hf) & Hv & Hdv). unfold found_list. apply list_elem_of_bind. exists d. split; [|apply elem_of_seqZ; lia].
  apply list_elem_of_bind. exists f. split; [|apply elem_of_seqZ; destruct Hf as [->|[_ ?]]; lia].
  unfold foundb. rewrite (proj2 (Z.eqb_neq _ _) Hv0), (proj2 (Z.eqb_neq _ _) Hv), (proj2 (Z.eqb_neq _ _) Hdv).
  destruct Hf as [->|[Hm _]]; [by left|]. rewrite (proj2 (Z.eqb_neq _ _) Hm), orb_true_r. by left.
Qed.
Lemma foundb_found R x d f : 0 ≤ d < (if p_one x then 1 else 32) → 0 ≤ f < 8 → foundb R x d f = true → found R x d f.
Proof.
  intros Hd Hf Hb. unfold foundb in Hb. bool_to_prop. unfold found, slot. split; [|done]. split; [done|]. split; [done|].
  apply orb_true_iff in H2 as [Hz%Z.eqb_eq|Hm%negb_true_iff%Z.eqb_neq]; [by left|by right].
Qed.

(** * The machine *)
Definition ex_regs (b d : Z) (l : list (Z * Z)) : list (Z * Z * Z * Z * Z * Z) := (λ '(off, v), (0, b, d, 0, off, v)) <$> l.
Definition ex_file : regfile :=
  list_to_map (ex_regs 0 0 [(0x00, 0x29C08086); (0x04, 0); (0x08, 0x06000000); (0x0C, 0); (0x10, 0); (0x14, 0); (0x18, 0); (0x1C, 0); (0x20, 0); (0x24, 0); (0x3C, 0)] ++
    ex_regs 0 1 [(0x00, 0x000C1B36); (0x04, 0x00100000); (0x08, 0x06040000); (0x0C, 0x00010000); (0x10, 0); (0x14, 0); (0x18, 0x00010100); (0x34, 0x40); (0x40, 0x00420010)] ++
    ex_regs 1 0 [(0x00, 0x10411AF4); (0x04, 0x00100000); (0x08, 0x02000000); (0x0C, 0); (0x10, 0xC001); (0x14, 0xFEB00008); (0x18, 0x4000000C); (0x1C, 0x8); (0x20, 0); (0x24, 0);
      (0x34, 0x80); (0x3C, 0x0100); (0x80, 0x00024010); (0x40, 0x00000005)]).
Definition ex_mask (f : fn) (off : Z) : Z :=
  if decide (f = mk_fn 0 1 0 0) then
    if off =? 0x10 then 0xFFFFFFE0 else if off =? 0x14 then 0xFFFFF000 else if off =? 0x18 then 0xFFFFC000 else if off =? 0x1C then 0xFFFFFFFF else 0
  else 0.
Lemma ex_mask_range f off : 0 ≤ ex_mask f off < 2 ^ 32.
Proof. unfold ex_mask. destruct (decide _); [|lia]. repeat case_match; lia. Qed.
#[local] Instance ex_io : ConfigIo regfile := file_io ex_mask.
#[local] Instance ex_laws : ConfigLaws regfile := file_laws ex_mask ex_mask_range.
#[local] Instance ex_acpi : Acpi Z Z := {| get_pci_routing_table _ := PrtNotFound; get_current_resources _ := None; devices_below _ := [] |}.

Definition ex_bus0 : bus Z := mk_bus 0 0 7 None None [] [].
(** Object 7 uses the ports; bus 0 is the root bus. *)
Definition ex_start : pci regfile Z := mk_pci ex_file {[ 0 := 7 ]} [0] ∅ ∅ {[ 0 := ex_bus0 ]} ∅ ∅ 1.
Definition ex_R : fn → Z → Z := file_reg ex_file.
Definition ex_root : place := mk_place 0 0 false.
Definition ex_bus1 : place := mk_place 0 1 true.
Definition ex_dev : fn := mk_fn 0 1 0 0.

Lemma ex_root_found : found_list ex_R ex_root = [(0, 0); (1, 0)].
Proof. vm_compute. reflexivity. Qed.
Lemma ex_bus1_found : found_list ex_R ex_bus1 = [(0, 0)].
Proof. vm_compute. reflexivity. Qed.
Lemma ex_caps_host : caps_at ex_R (fn_at ex_root 0 0) [].
Proof. unfold caps_at. by assert ((Z.land (field ex_R (fn_at ex_root 0 0) reg_status 2) 0x10 =? 0) = true) as -> by (vm_compute; reflexivity). Qed.
Lemma ex_caps_port : caps_at ex_R (fn_at ex_root 1 0) [0x40].
Proof.
  unfold caps_at. assert ((Z.land (field ex_R (fn_at ex_root 1 0) reg_status 2) 0x10 =? 0) = false) as -> by (vm_compute; reflexivity). cbv iota.
  assert (Z.land (field ex_R (fn_at ex_root 1 0) reg_capabilities 2) 0xFC = 0x40) as -> by (vm_compute; reflexivity). constructor; [done|].
  assert (cap_next ex_R (fn_at ex_root 1 0) 0x40 = 0) as -> by (vm_compute; reflexivity). constructor.
Qed.
Lemma ex_caps_dev : caps_at ex_R ex_dev [0x80; 0x40].
Proof.
  unfold caps_at. assert ((Z.land (field ex_R ex_dev reg_status 2) 0x10 =? 0) = false) as -> by (vm_compute; reflexivity). cbv iota.
  assert (Z.land (field ex_R ex_dev reg_capabilities 2) 0xFC = 0x80) as -> by (vm_compute; reflexivity). constructor; [done|].
  assert (cap_next ex_R ex_dev 0x80 = 0x40) as -> by (vm_compute; reflexivity). constructor; [done|].
  assert (cap_next ex_R ex_dev 0x40 = 0) as -> by (vm_compute; reflexivity). constructor.
Qed.
Lemma ex_topology_root : topology_at ex_R ex_root.
Proof.
  split; [done| |]; intros d f Hf; apply found_listed in Hf; rewrite ex_root_found in Hf; apply elem_of_cons in Hf as [[= -> ->]|Hf%list_elem_of_singleton].
  - by left.
  - injection Hf as -> ->. by right.
  - exists []. split; [exact ex_caps_host|done].
  - injection Hf as -> ->. exists [0x40]. split; [exact ex_caps_port|]. intros _ _. split; [|done]. vm_compute. by eexists.
Qed.
Lemma ex_topology_bus1 : topology_at ex_R ex_bus1.
Proof.
  split; [done| |]; intros d f Hf; apply found_listed in Hf; rewrite ex_bus1_found in Hf; apply list_elem_of_singleton in Hf; injection Hf as -> ->.
  - by left.
  - exists [0x80; 0x40]. split; [exact ex_caps_dev|]. intros Hk. vm_compute in Hk. discriminate Hk.
Qed.
Lemma ex_behind_root y : behind ex_R ex_root y → y = ex_bus1.
Proof.
  intros (d & f & Hf & Hk & Hs & l & one & Hl & Hone & ->). apply found_listed in Hf. rewrite ex_root_found in Hf.
  apply elem_of_cons in Hf as [[= -> ->]|Hf%list_elem_of_singleton]; [vm_compute in Hk; discriminate Hk|]. injection Hf as -> ->.
  assert (l = [0x40]) as -> by (eapply caps_at_det, ex_caps_port; done). vm_compute in Hone. by injection Hone as <-.
Qed.
Lemma ex_behind_bus1 y : ¬ behind ex_R ex_bus1 y.
Proof.
  intros (d & f & Hf & Hk & _). apply found_listed in Hf. rewrite ex_bus1_found in Hf. apply list_elem_of_singleton in Hf. injection Hf as -> ->.
  vm_compute in Hk. discriminate Hk.
Qed.
Lemma ex_places y : rtc (behind ex_R) ex_root y → y = ex_root ∨ y = ex_bus1.
Proof.
  intros Hr. inversion Hr as [|x z y' Hz Hzy]; subst; [by left|]. apply ex_behind_root in Hz as ->. right.
  inversion Hzy as [|x z y' Hz]; subst; [done|]. by apply ex_behind_bus1 in Hz.
Qed.

(** * The theorems *)
Lemma ex_file_ok : file_ok ex_file.
Proof. apply (bool_decide_eq_true_1 (map_Forall (λ _ v, 0 ≤ v < 2 ^ 32) ex_file)). vm_compute. reflexivity. Qed.
Lemma ex_alive : io_alive 7 ex_start = true.
Proof. vm_compute. reflexivity. Qed.
Lemma ex_holds : holds ex_R ex_start.
Proof. split; [exact ex_file_ok|]. intros f off _ _. reflexivity. Qed.
Lemma ex_acpi_ok : acpi_ok (Nd := Z) (Src := Z).
Proof. intros n. exact I. Qed.
Lemma ex_machine_ok : machine_ok ex_R [ex_root] ex_start.
Proof.
  split.
  - exact ex_acpi_ok.
  - intros io x y _ _. exact I.
  - intros x y Hx Hy. apply list_elem_of_singleton in Hx as ->. destruct (ex_places y Hy) as [-> | ->]; [exact ex_topology_root|exact ex_topology_bus1].
  - exact ex_holds.
  - reflexivity.
  - intros h Hh. change (1 ≤ h) in Hh. assert (0 ≠ h) as Hne by (clear -Hh; lia). split; [apply (lookup_singleton_ne 0 h ex_bus0 Hne)|]. split; apply lookup_empty.
  - constructor; [|constructor]. exists ex_bus0. split; [apply lookup_singleton_eq|].
    split; [reflexivity|]. split; [reflexivity|]. split; [exact ex_alive|]. split; [exact I|]. split; [intros r [=]|reflexivity].
Qed.
Lemma ex_via : behind ex_R ex_root ex_bus1.
Proof.
  exists 1, 0. split; [apply foundb_found; [simpl; lia|lia|vm_compute; reflexivity]|]. split; [vm_compute; reflexivity|].
  assert (secondary ex_R (fn_at ex_root 1 0) = 1) as -> by (vm_compute; reflexivity). split; [lia|].
  exists [0x40], true. split; [exact ex_caps_port|]. split; [vm_compute; reflexivity|done].
Qed.
Lemma ex_reachable : reachable ex_R [ex_root] ex_dev.
Proof.
  exists ex_root, ex_bus1, 0, 0. split; [by left|]. split; [apply rtc_once, ex_via|]. split; [done|].
  split; [apply foundb_found; [simpl; lia|lia|vm_compute; reflexivity]|vm_compute; reflexivity].
Qed.

Definition ex_regions : list region := [IoPorts 0xC000 5 true; Mem32 0xFEB00000 12 true; Mem64 0x840000000 14 true; Unused; Unused].
Lemma ex_layout : layout ex_R ex_dev ex_regions.
Proof.
  split; [repeat constructor; simpl; try lia; apply Z.mod_divide; lia || reflexivity|].
  intros j rm Hj. do 6 (destruct j as [|j]; [injection Hj as <-; split; vm_compute; reflexivity|]). discriminate Hj.
Qed.
(** The device on a bus of its own. *)
Definition ex_second : pci regfile Z := put_bus 1 (mk_bus 0 1 7 None None [] []) ex_start.
Lemma ex_usable : usable ex_second 1 ex_dev.
Proof.
  split; [by vm_compute|]. exists (mk_bus 0 1 7 None None [] []). split; [apply lookup_insert_eq|]. split; [reflexivity|]. split; [reflexivity|].
  split; [exact ex_alive|exact I].
Qed.
Lemma ex_second_holds : holds ex_R ex_second.
Proof. split; [exact ex_file_ok|]. intros f off _ _. reflexivity. Qed.

Lemma read_bars_correct_witness : ∃ c, read_bars (mk_entity 1 0 0 [] None None (replicate 6 None)) ex_second =
  Done (mk_entity 1 0 0 [] None None
    [Some (mk_bar 0xC000 0xC000 32 false false ty_io); Some (mk_bar 0 0xFEB00000 4096 true false ty_mem);
     Some (mk_bar 0 0x840000000 16384 true true ty_mem); Some (mk_bar 0 0 0 false true ty_invalid);
     Some (mk_bar 0 0 0 false false ty_invalid); Some (mk_bar 0 0 0 false false ty_invalid)], set_cfg c ex_second) ∧ holds ex_R (set_cfg c ex_second).
Proof.
  refine (read_bars_correct ex_R ex_second (mk_entity 1 0 0 [] None None (replicate 6 None)) ex_dev ex_regions ex_second_holds ex_usable eq_refl eq_refl ex_layout _ _).
  - reflexivity.
  - simpl. lia.
Defined.
Lemma capabilities_end_witness : (∃ l, caps_at ex_R ex_dev l ∧ NoDup l ∧ ∀ fuel, (64 ≤ fuel)%nat →
     ∃ c, new_entity fuel 1 0 0 6 ex_second = Done (entity_of ex_R ex_dev 1 l 6, set_cfg c ex_second) ∧ holds ex_R (set_cfg c ex_second)) ∨
  ((∀ l, ¬ caps_at ex_R ex_dev l) ∧ ∀ fuel, new_entity fuel 1 0 0 6 ex_second = NoFuel).
Proof. exact (capabilities_end ex_R ex_second 1 ex_dev 6 ex_second_holds ex_usable). Defined.
Lemma ex_enumerate : ∃ s', enumerate 256 ex_start = Done ((), s') ∧ is_Some (devs s' !! devidx 0 1 0 0) ∧ holds ex_R s'.
Proof.
  destruct (enumerate_correct ex_R [ex_root] ex_start 256 ex_machine_ok (le_n 256)) as (s' & E & HR & Hk & _). exists s'.
  split; [exact E|]. split; [|exact HR]. apply Hk. exists ex_dev. split; [exact ex_reachable|reflexivity].
Defined.

(** * The same machine behind ports *)
Section port_file.
Context (mask : fn → Z → Z).
(** The selected address and the registers. *)
Definition file_ports : Ports (Z * regfile) :=
  {| port_in width port '(a, m) :=
       match latched a with
       | Some (f, off) => (field (file_reg m) f (off + (port - 0xCFC)) width, (a, m))
       | None => (2 ^ (8 * width) - 1, (a, m))
       end;
     port_out _ port v '(a, m) :=
       if port =? 0xCF8 then (v, m) else
       match latched a with
       | Some (f, off) => (a, <[key f off := written (mask f off) (file_reg m f off) v]> m)
       | None => (a, m)
       end |}.
Lemma file_port_in (d : Z * regfile) f off k width : file_ok (snd d) → latched (fst d) = Some (f, off) → 0 ≤ k → valid_field (off + k) width → k + width ≤ 4 →
  ∃ d', @port_in _ file_ports width (0xCFC + k) d = (field (file_reg (snd d)) f (off + k) width, d') ∧ file_ok (snd d') ∧ file_reg (snd d') = file_reg (snd d).
Proof. destruct d as [a m]. simpl. intros Hm Hl _ _ _. rewrite Hl. exists (a, m). replace (3324 + k - 3324) with k by lia. done. Qed.
Lemma file_port_out (Hmask : ∀ f off, 0 ≤ mask f off < 2 ^ 32) (d : Z * regfile) f off v : file_ok (snd d) → latched (fst d) = Some (f, off) → bar_reg off → 0 ≤ v < 2 ^ 32 →
  let d' := @port_out _ file_ports 4 0xCFC v d in
  file_ok (snd d') ∧ ∀ g o, file_reg (snd d') g o = if decide (g = f ∧ o = off) then written (mask f off) (file_reg (snd d) f off) v else file_reg (snd d) g o.
Proof.
  destruct d as [a m]. simpl. intros Hm Hl _ Hv. rewrite Hl. simpl. split.
  - apply map_Forall_insert_2; [|done]. apply written_range; [done|by apply file_range|done].
  - intros g o. unfold file_reg. destruct (decide _) as [[-> ->]|Hn]; [by rewrite lookup_insert_eq|].
    rewrite lookup_insert_ne; [done|]. intros Heq. apply Hn. destruct f, g. unfold key in Heq. simpl in Heq. split; congruence.
Qed.
Lemma file_select (d : Z * regfile) a : file_ok (snd d) → 0 ≤ a < 2 ^ 32 →
  let d' := @port_out _ file_ports 4 0xCF8 a d in file_ok (snd d') ∧ fst d' = a ∧ file_reg (snd d') = file_reg (snd d).
Proof. by destruct d. Qed.
Definition file_port_laws (Hmask : ∀ f off, 0 ≤ mask f off < 2 ^ 32) : @PortLaws (Z * regfile) file_ports :=
  @Build_PortLaws (Z * regfile) file_ports (λ d, file_ok (snd d)) fst (λ d, file_reg (snd d)) mask (λ d f off, file_range (snd d) f off) Hmask
    file_select file_port_in (file_port_out Hmask).
End port_file.
#[local] Instance ex_ports : Ports (Z * regfile) := file_ports ex_mask.
#[local] Instance ex_port_laws : PortLaws (Z * regfile) := file_port_laws ex_mask ex_mask_range.

Lemma ex_legacy_buses : legacy_buses ex_R = [0].
Proof.
  unfold legacy_buses. assert ((Z.land (field ex_R (mk_fn 0 0 0 0) reg_header 1) 0x80 =? 0) = true) as -> by (vm_compute; reflexivity). reflexivity.
Qed.
Lemma pci_boot_witness : ∃ s' : pci (Z * regfile) Z, pci_tasks 256 [] 7 [] (boot (0, ex_file)) = Done ((), s') ∧
  is_Some (devs s' !! devidx 0 1 0 0) ∧ holds ex_R s'.
Proof.
  destruct (pci_boot (D := Z * regfile) (H0 := ex_port_laws) (Nd := Z) (Src := Z) (0, ex_file) 7 256 ex_acpi_ok ex_file_ok (le_n 256)) as (s' & E & HR & Hk & _).
  - intros b y Hb Hy. change (b ∈ legacy_buses ex_R) in Hb. rewrite ex_legacy_buses in Hb. apply list_elem_of_singleton in Hb as ->.
    destruct (ex_places y Hy) as [-> | ->]; [exact ex_topology_root|exact ex_topology_bus1].
  - exists s'. split; [exact E|]. split; [|exact HR]. apply Hk. exists ex_dev. split; [|reflexivity].
    change (reachable ex_R (root_at <$> legacy_buses ex_R) ex_dev). rewrite ex_legacy_buses. exact ex_reachable.
Defined.
