(* ===== verification/Modules.v ===== *)
(** Kernel modules (kernel/source/system/bin/elf/module.cpp): loading shared objects into the
    kernel, relocating them and finding the drivers in them.

    The memory of the kernel is a map of bytes; a page that is mapped can be accessed, another
    one can not.  A file is given as the list of its bytes.  The properties are in
    [ModulesSpec.v]. *)

From S2P Require Import Prelude Math Pmm Frames Pagemap Vmm LibC SysVfs Exec Symbols.
#[local] Open Scope Z_scope.

(** * ELF structures *)
Definition PT_DYNAMIC : Z := 2.
(** The header of the segment with the modules: [DT_LOOS + 1]. *)
Definition PT_MODULES : Z := 0x60000001.
Definition p_align (l : list Z) : Z := field 48 8 l.
Record Elf64_Rela := mk_rela { r_offset : Z; r_type : Z; r_sym : Z; r_addend : Z }.
Definition rela_of (l : list Z) : Elf64_Rela := mk_rela (field 0 8 l) (field 8 4 l) (field 12 4 l) (field 16 8 l).
Definition R_X86_64_64 : Z := 1.
Definition R_X86_64_GLOB_DAT : Z := 6.
Definition R_X86_64_JUMP_SLOT : Z := 7.
Definition R_X86_64_RELATIVE : Z := 8.
(** The variables that are filled from the dynamic section. *)
Record dynamic := mk_dynamic
  { dt_pltrelsz : Z; dt_strtab : Z; dt_symtab : Z; dt_rela : Z; dt_relasz : Z; dt_relaent : Z; dt_syment : Z; dt_jmprel : Z;
    dt_init_array : Z; dt_fini_array : Z; dt_init_arraysz : Z; dt_fini_arraysz : Z }.
Definition no_dynamic : dynamic := mk_dynamic 0 0 0 0 0 0 0 0 0 0 0 0.
(** One entry of the dynamic section. *)
Definition set_dyn (loaded_at tag val : Z) (d : dynamic) : dynamic :=
  let '(mk_dynamic a b c e f g h i j k l m) := d in
  let ptr := w64 (loaded_at + val) in
  if tag =? 2 then mk_dynamic val b c e f g h i j k l m
  else if tag =? 5 then mk_dynamic a ptr c e f g h i j k l m
  else if tag =? 6 then mk_dynamic a b ptr e f g h i j k l m
  else if tag =? 7 then mk_dynamic a b c ptr f g h i j k l m
  else if tag =? 8 then mk_dynamic a b c e val g h i j k l m
  else if tag =? 9 then mk_dynamic a b c e f val h i j k l m
  else if tag =? 11 then mk_dynamic a b c e f g val i j k l m
  else if tag =? 23 then mk_dynamic a b c e f g h ptr j k l m
  else if tag =? 25 then mk_dynamic a b c e f g h i ptr k l m
  else if tag =? 26 then mk_dynamic a b c e f g h i j ptr l m
  else if tag =? 27 then mk_dynamic a b c e f g h i j k val m
  else if tag =? 28 then mk_dynamic a b c e f g h i j k l val
  else d.

(** A range of the buffer with the file. *)
Definition in_buffer (buffer : list Z) (off n : Z) : outcome (list Z) :=
  if (off <? 0) || (Z.of_nat (length buffer) <? off + n) then Crash else Done (take (Z.to_nat n) (drop (Z.to_nat off) buffer)).
Definition nth_phdr (buffer : list Z) (h : Elf64_Ehdr) (i : Z) : outcome (list Z) :=
  in_buffer buffer (e_phoff h + e_phentsize h * i) phdr_size.

(** * The entries of modules *)
Record initfini := mk_initfini { init_array : Z; fini_array : Z; init_array_size : Z; fini_array_size : Z }.
Record entry := mk_entry
  { internal : bool; pages : list (Z * Z); header : Z; deps : list (list Z); symbols : symbol_table; init_fini : initfini }.

Section modules.
Context `{FrameAllocator St} `{PageMapOps PM}.
Context (ks : kallsyms) (KSYM_NAME_LEN : Z) (fuel : nat).

Record kernel := mk_kernel { kmem : bytemem; kmap : PM; kframes : St; vspace_base : Z; modules : gmap (list Z) entry }.
Definition set_kmem (m : bytemem) (s : kernel) : kernel := mk_kernel m (kmap s) (kframes s) (vspace_base s) (modules s).
Definition put_modules (m : gmap (list Z) entry) (s : kernel) : kernel := mk_kernel (kmem s) (kmap s) (kframes s) (vspace_base s) m.

Definition K (A : Type) : Type := kernel → outcome (A * kernel).
#[export] Instance K_ret : MRet K := λ A a s, Done (a, s).
#[export] Instance K_bind : MBind K := λ A B f m s, '(a, s) ← m s; f a s.
Definition lift {A} (m : outcome A) : K A := λ s, a ← m; Done (a, s).
(** Reading and writing the kernel's memory. *)
Definition look {A} (f : bytemem → outcome A) : K A := λ s, a ← f (kmem s); Done (a, s).
Definition change (f : bytemem → outcome bytemem) : K unit := λ s, m ← f (kmem s); Done ((), set_kmem m s).
Fixpoint put_bytes (p : Z) (l : list Z) (m : bytemem) : outcome bytemem :=
  match l with [] => Done m | x :: l => m ← st p x m; put_bytes (p + 1) l m end.

(** ** Pages *)
Definition page_bytes (va : Z) : bytemem := list_to_map ((λ i, (va + i, 0)) <$> seqZ 0 4096).
Definition alloc_page (va : Z) : K Z :=
  λ s, '(paddr, f) ← fa_alloc Normal 1 true (kframes s);
       '(r, pm) ← pm_map va paddr 4096 (Z.lor (Z.lor pf_read pf_write) pf_global) (kmap s);
       match r with
       | Unexpected _ => Panic
       | Value _ => Done (paddr, mk_kernel (page_bytes va ∪ kmem s) pm f (vspace_base s) (modules s))
       end.
Fixpoint alloc_pages (n : nat) (va : Z) : K (list (Z * Z)) :=
  match n with
  | O => mret []
  | S n => paddr ← alloc_page va; l ← alloc_pages n (va + 4096); mret ((va, paddr) :: l)
  end.
Definition free_page (x : Z * Z) : K unit :=
  λ s, '(r, pm) ← pm_unmap x.1 4096 (kmap s);
       match r with
       | Unexpected _ => Panic
       | Value _ => f ← fa_free x.2 1 (kframes s); Done ((), mk_kernel (kmem s ∖ page_bytes x.1) pm f (vspace_base s) (modules s))
       end.
Fixpoint unmap_all (memory : list (Z * Z)) : K unit :=
  match memory with [] => mret () | x :: memory => _ ← free_page x; unmap_all memory end.
(** [vmm::alloc_vspace], which counts in pages. *)
Definition reserve (npages : Z) : K Z :=
  λ s, Done (vspace_base s, mk_kernel (kmem s) (kmap s) (kframes s) (w64 (vspace_base s + npages * page_size)) (modules s)).

(** ** Segments *)
Definition segment_end (l : list Z) : outcome Z :=
  if p_align l =? 0 then Crash else
  Done (w64 ((w64 (w64 (p_vaddr (phdr_of l) + p_memsz (phdr_of l)) - 1) / p_align l + 1) * p_align l)).
Fixpoint max_size (n : nat) (buffer : list Z) (h : Elf64_Ehdr) (i acc : Z) : outcome Z :=
  match n with
  | O => Done acc
  | S n =>
      l ← nth_phdr buffer h i;
      if p_type (phdr_of l) =? PT_LOAD then e ← segment_end l; max_size n buffer h (i + 1) (if acc <? e then e else acc)
      else max_size n buffer h (i + 1) acc
  end.
Definition load_segment (buffer : list Z) (loaded_at : Z) (ph : Elf64_Phdr) : K unit :=
  let p := w64 (loaded_at + p_vaddr ph) in
  _ ← change (put_bytes (w64 (p + p_filesz ph)) (replicate (Z.to_nat (w64 (p_memsz ph - p_filesz ph))) 0));
  bytes ← lift (in_buffer buffer (p_offset ph) (p_filesz ph));
  change (put_bytes p bytes).
Fixpoint dyn_loop (n : nat) (buffer : list Z) (off loaded_at : Z) (d : dynamic) : outcome dynamic :=
  match n with
  | O => Done d
  | S n =>
      e ← in_buffer buffer off 16;
      if field 0 8 e =? 0 then Done d else dyn_loop n buffer (off + 16) loaded_at (set_dyn loaded_at (field 0 8 e) (field 8 8 e) d)
  end.
Definition read_dynamic (buffer : list Z) (loaded_at : Z) (ph : Elf64_Phdr) (d : dynamic) : outcome dynamic :=
  d ← dyn_loop (Z.to_nat (p_filesz ph / 16)) buffer (p_offset ph) loaded_at d;
  _ ← bug_on ((dt_strtab d =? 0) || (dt_symtab d =? 0) || (dt_rela d =? 0) || (dt_relasz d =? 0) || (dt_relaent d =? 0));
  Done d.
(** The second loop over the program headers, with the place of the modules. *)
Fixpoint segments (n : nat) (buffer : list Z) (loaded_at : Z) (h : Elf64_Ehdr) (i : Z) (d : dynamic) (mods : Z * Z) : K (dynamic * (Z * Z)) :=
  match n with
  | O => mret (d, mods)
  | S n =>
      l ← lift (nth_phdr buffer h i);
      let ph := phdr_of l in
      if p_type ph =? PT_MODULES then
        _ ← load_segment buffer loaded_at ph; segments n buffer loaded_at h (i + 1) d (w64 (loaded_at + p_vaddr ph), p_filesz ph)
      else if p_type ph =? PT_LOAD then _ ← load_segment buffer loaded_at ph; segments n buffer loaded_at h (i + 1) d mods
      else if p_type ph =? PT_DYNAMIC then d ← lift (read_dynamic buffer loaded_at ph d); segments n buffer loaded_at h (i + 1) d mods
      else segments n buffer loaded_at h (i + 1) d mods
  end.

(** ** Relocation *)
(** The address a relocation stands for: [None] when its symbol is not found, [Some None] when
    it has no name. *)
Definition resolve_symbol (loaded_at : Z) (d : dynamic) (rel : Elf64_Rela) (m : bytemem) : outcome (option (option Z)) :=
  sym ← ld_bytes 24 (w64 (dt_symtab d + r_sym rel * dt_syment d)) m;
  if field 6 2 sym =? 0 then
    name ← ld_string fuel (w64 (dt_strtab d + field 0 4 sym)) m;
    if bool_decide (name = []) then Done (Some None) else
    symaddr ← klookup ks KSYM_NAME_LEN fuel name;
    if symaddr =? not_found then Done None else Done (Some (Some symaddr))
  else Done (Some (Some (w64 (loaded_at + field 8 8 sym)))).
Definition reloc (loaded_at : Z) (d : dynamic) (rel : Elf64_Rela) : K bool :=
  let loc := w64 (loaded_at + r_offset rel) in
  if (r_type rel =? R_X86_64_64) || (r_type rel =? R_X86_64_GLOB_DAT) || (r_type rel =? R_X86_64_JUMP_SLOT) then
    r ← look (resolve_symbol loaded_at d rel);
    match r with
    | None => mret false
    | Some None => mret true
    | Some (Some resolved) => _ ← change (put_bytes loc (le_bytes 8 resolved)); mret true
    end
  else if r_type rel =? R_X86_64_RELATIVE then
    _ ← change (put_bytes loc (le_bytes 8 (w64 (loaded_at + r_addend rel)))); mret true
  else mret false.
Fixpoint reloc_loop (n : nat) (table loaded_at : Z) (d : dynamic) (i : Z) : K bool :=
  match n with
  | O => mret true
  | S n =>
      l ← look (ld_bytes 24 (w64 (table + i * dt_relaent d)));
      ok ← reloc loaded_at d (rela_of l);
      if (ok : bool) then reloc_loop n table loaded_at d (i + 1) else mret false
  end.
Definition relocs (table sz loaded_at : Z) (d : dynamic) : K bool :=
  if dt_relaent d =? 0 then λ _, Crash else reloc_loop (Z.to_nat (sz / dt_relaent d)) table loaded_at d 0.

(** ** Protection *)
Definition module_flags (ph : Elf64_Phdr) : Z :=
  let flags := pf_global in
  let flags := if Z.land (p_flags ph) PF_R =? 0 then flags else Z.lor flags pf_read in
  let flags := if Z.land (p_flags ph) PF_W =? 0 then flags else Z.lor flags pf_write in
  if Z.land (p_flags ph) PF_X =? 0 then flags else Z.lor flags pf_exec.
Definition protect_segment (loaded_at : Z) (ph : Elf64_Phdr) : K unit :=
  let start := w64 (loaded_at + p_vaddr ph) in
  let aligned := align_down start page_size in
  let size := align_up (w64 (p_memsz ph + w64 (start - aligned))) page_size in
  λ s, '(r, pm) ← pm_protect aligned size (module_flags ph) (kmap s);
       match r with
       | Unexpected _ => Panic
       | Value _ => Done ((), mk_kernel (kmem s) pm (kframes s) (vspace_base s) (modules s))
       end.
(** From the last program header to the first. *)
Fixpoint protect_loop (n : nat) (buffer : list Z) (loaded_at : Z) (h : Elf64_Ehdr) : K unit :=
  match n with
  | O => mret ()
  | S n =>
      l ← lift (nth_phdr buffer h (Z.of_nat n));
      _ ← (if p_type (phdr_of l) =? PT_LOAD then protect_segment loaded_at (phdr_of l) else mret ());
      protect_loop n buffer loaded_at h
  end.

(** ** Finding modules *)
Definition header_magic : Z := 0x737BDF086B7EF53C.
(** The layout of [::mod::declare<0>]. *)
Definition off_name : Z := 8.
Definition off_ndeps : Z := 48.
Definition base_size : Z := 56.
Fixpoint read_deps (n : nat) (p : Z) (m : bytemem) : outcome (list (list Z)) :=
  match n with
  | O => Done []
  | S n => a ← ld_bytes 8 p m; name ← ld_string fuel (of_le a) m; r ← read_deps n (p + 8) m; Done (name :: r)
  end.
(** The number of modules in the memory between two addresses; [steps] bounds the words that
    are looked at.  The first module gets the pages and the symbols. *)
Fixpoint scan (steps : nat) (internal : bool) (current stop : Z) (pgs : list (Z * Z)) (syms : symbol_table) (fns : initfini) (nmod : Z) : K Z :=
  if stop <=? current then mret nmod else
  match steps with
  | O => λ _, NoFuel
  | S steps =>
      magic ← look (ld_bytes 8 current);
      if negb (of_le magic =? header_magic) then scan steps internal (current + 8) stop pgs syms fns nmod else
      ndeps ← look (ld_bytes 8 (current + off_ndeps));
      np ← look (ld_bytes 8 (current + off_name));
      name ← look (ld_string fuel (of_le np));
      mods ← (λ s, Done (modules s, s));
      _ ← lift (bug_on (bool_decide (is_Some (mods !! name))));
      deps ← look (read_deps (Z.to_nat (of_le ndeps)) (current + base_size));
      _ ← (λ s, Done ((), put_modules (<[name := mk_entry internal pgs current deps syms fns]> (modules s)) s));
      scan steps internal (current + base_size + of_le ndeps * 8) stop [] [] fns (nmod + 1)
  end.
Definition scan_steps (start stop : Z) : nat := Z.to_nat ((stop - start) / 8 + 1).
Definition find_modules (internal : bool) (start stop : Z) (pgs : list (Z * Z)) (syms : symbol_table) (fns : initfini) : K Z :=
  scan (scan_steps start stop) internal start stop pgs syms fns 0.
Definition load_internal (start stop : Z) : K Z := find_modules true start stop [] [] (mk_initfini 0 0 0 0).

(** ** [load] *)
Definition valid_module (h : Elf64_Ehdr) : bool :=
  bool_decide (take 4 (e_ident h) = [0x7F; 0x45; 0x4C; 0x46]) && (nth 4 (e_ident h) 0 =? 2) && (nth 5 (e_ident h) 0 =? 1) &&
  (nth 7 (e_ident h) 0 =? 0) && (e_type h =? ET_DYN).
Definition npages (size : Z) : nat := Z.to_nat ((size + 4095) / 4096).
Definition symbols_of (loaded_at : Z) (d : dynamic) : K symbol_table :=
  look (get_symbols fuel (dt_strtab d) (dt_symtab d) (dt_syment d) (w64 (dt_strtab d - dt_symtab d)) loaded_at).
(** From the relocations on, with the pages of the module in [memory]. *)
Definition link (buffer : list Z) (h : Elf64_Ehdr) (loaded_at : Z) (memory : list (Z * Z)) (d : dynamic) (mods : Z * Z) : K bool :=
  ok ← relocs (dt_rela d) (dt_relasz d) loaded_at d;
  if negb ok then _ ← unmap_all memory; mret false else
  ok ← relocs (dt_jmprel d) (dt_pltrelsz d) loaded_at d;
  if negb ok then _ ← unmap_all memory; mret false else
  symbols ← symbols_of loaded_at d;
  _ ← protect_loop (Z.to_nat (e_phnum h)) buffer loaded_at h;
  nmod ← find_modules false mods.1 (w64 (mods.1 + mods.2)) memory symbols
           (mk_initfini (dt_init_array d) (dt_fini_array d) (dt_init_arraysz d) (dt_fini_arraysz d));
  if nmod =? 0 then _ ← unmap_all memory; mret false else mret true.
Definition load_module (buffer : list Z) : K bool :=
  hd ← lift (in_buffer buffer 0 ehdr_size);
  let h := ehdr_of hd in
  if negb (valid_module h) then mret false else
  size ← lift (max_size (Z.to_nat (e_phnum h)) buffer h 0 0);
  loaded_at ← reserve size;
  memory ← alloc_pages (npages size) loaded_at;
  '(d, mods) ← segments (Z.to_nat (e_phnum h)) buffer loaded_at h 0 no_dynamic (0, 0);
  link buffer h loaded_at memory d mods.
(** The file is read at once; [ret] is what [pread] returns. *)
Definition load_file (st_size ret : Z) (buffer : list Z) : K bool :=
  if negb (ret =? st_size) then mret false else load_module buffer.

(** The files of a directory: name, type and what [load] reads of each. *)
Definition is_module (name : list Z) (type : Z) : bool :=
  bool_decide (drop (length name - 3) name = [46; 107; 111]) && (3 <=? length name)%nat && (type =? 0x8000).
Fixpoint load_from (children : list (list Z * Z * (Z * Z * list Z))) : K unit :=
  match children with
  | [] => mret ()
  | (name, type, (st_size, ret, buffer)) :: children =>
      _ ← (if is_module name type then _ ← load_file st_size ret buffer; mret () else mret ());
      load_from children
  end.

(** ** Constructors and destructors *)
(** The functions that [init] calls, in their order; [call] is their effect. *)
Fixpoint call_array (call : Z → K unit) (n : nat) (arr i : Z) : K unit :=
  match n with
  | O => mret ()
  | S n =>
      f ← look (ld_bytes 8 (arr + i * 8));
      _ ← (if of_le f =? 0 then mret () else call (of_le f));
      call_array call n arr (i + 1)
  end.
Definition initfini_init (call : Z → K unit) (x : initfini) : K unit :=
  if (init_array x =? 0) || (init_array_size x =? 0) then mret () else call_array call (Z.to_nat (init_array_size x / 8)) (init_array x) 0.
Definition initfini_fini (call : Z → K unit) (x : initfini) : K unit :=
  if (fini_array x =? 0) || (fini_array_size x =? 0) then mret () else call_array call (Z.to_nat (fini_array_size x / 8)) (fini_array x) 0.
End modules.
Arguments kernel St PM : clear implicits.
Arguments K St PM A : clear implicits.
