(* ===== verification/ModulesSpec.v ===== *)
(** Relocating a module: every relocation puts the address of its symbol at its place and
    changes nothing else, or a symbol is missing. *)

From S2P Require Import Prelude Math Pmm Frames Pagemap Vmm LibC SysVfs Exec ExecStack Symbols SymbolsSpec SymbolsNames Modules.
#[local] Open Scope Z_scope.

(** * Memory *)
Definition agree (P : Z → Prop) (m m' : bytemem) : Prop := ∀ a, P a → m' !! a = m !! a.
Lemma agree_trans P m1 m2 m3 : agree P m1 m2 → agree P m2 m3 → agree P m1 m3.
Proof. intros H1 H2 a Ha. rewrite H2 by done. by apply H1. Qed.
Lemma ld_bytes_agree P m m' n : ∀ p, agree P m m' → (∀ i, 0 ≤ i < Z.of_nat n → P (p + i)) → ld_bytes n p m' = ld_bytes n p m.
Proof.
  induction n as [|n IH]; intros p Ha Hp; [done|]. cbn [ld_bytes]. unfold ld. rewrite Ha by (rewrite <-(Z.add_0_r p); apply Hp; lia).
  rewrite (IH (p + 1)); [done|done|]. intros i Hi. rewrite <-Z.add_assoc. apply Hp. lia.
Qed.
Lemma ld_string_agree P m m' fuel : ∀ p l, agree P m m' → ld_string fuel p m = Done l → (∀ i, 0 ≤ i ≤ Z.of_nat (length l) → P (p + i)) → ld_string fuel p m' = Done l.
Proof.
  induction fuel as [|fuel IH]; intros p l Ha Hl Hp; [done|]. cbn [ld_string] in *. unfold ld in *. rewrite Ha by (rewrite <-(Z.add_0_r p); apply Hp; lia).
  destruct (m !! p) as [c|]; [|done]. cbn [deref mbind outcome_bind] in *. destruct (c =? 0); [done|].
  destruct (ld_string fuel (p + 1) m) as [r| | | |] eqn:E; simplify_eq/=. rewrite (IH (p + 1) r); [done|done|done|].
  intros i Hi. rewrite <-Z.add_assoc. apply Hp. simpl. lia.
Qed.
(** Numbers and strings as memory shows them. *)
Definition in_memory (m : bytemem) (p : Z) (l : list Z) : Prop := ∀ i x, l !! i = Some x → m !! (p + Z.of_nat i) = Some x.
Lemma of_le_le_bytes n : ∀ x, 0 ≤ x < 256 ^ Z.of_nat n → of_le (le_bytes n x) = x.
Proof.
  induction n as [|n IH]; intros x Hx; [simpl in *; lia|]. cbn [le_bytes of_le]. rewrite Nat2Z.inj_succ, Z.pow_succ_r in Hx by lia.
  rewrite IH; [|split; [apply Z.div_pos; lia|apply Z.div_lt_upper_bound; lia]]. pose proof (Z.div_mod x 256). lia.
Qed.
(** A number in the middle of a structure. *)
Lemma field_app l n x r off : off = length l → 0 ≤ x < 256 ^ Z.of_nat n → field off n (l ++ le_bytes n x ++ r) = x.
Proof.
  intros -> Hx. unfold field. rewrite drop_app_length. rewrite <-(length_le_bytes n x) at 1. rewrite take_app_length. by apply of_le_le_bytes.
Qed.
Lemma field_head n x r : 0 ≤ x < 256 ^ Z.of_nat n → field 0 n (le_bytes n x ++ r) = x.
Proof. intros Hx. by apply (field_app [] n x r). Qed.
Lemma in_memory_agree P m m' p l : agree P m m' → in_memory m p l → (∀ i, 0 ≤ i < Z.of_nat (length l) → P (p + i)) → in_memory m' p l.
Proof.
  intros Ha Hm Hp i x Hi. rewrite Ha; [by apply Hm|]. apply Hp. apply lookup_lt_Some in Hi. lia.
Qed.
Lemma ld_string_in_memory fuel : ∀ m p l, in_memory m p (l ++ [0]) → Forall (λ c, c ≠ 0) l → (length l < fuel)%nat → ld_string fuel p m = Done l.
Proof.
  induction fuel as [|fuel IH]; intros m p l Hm Hl Hf; [lia|]. cbn [ld_string]. unfold ld. destruct l as [|c l].
  - pose proof (Hm 0%nat 0 eq_refl) as H0. rewrite Z.add_0_r in H0. by rewrite H0.
  - pose proof (Hm 0%nat c eq_refl) as H0. rewrite Z.add_0_r in H0. rewrite H0. cbn [deref mbind outcome_bind]. apply Forall_cons in Hl as [Hc Hl].
    rewrite (proj2 (Z.eqb_neq _ _) Hc). rewrite (IH m (p + 1) l); [done| |done|simpl in Hf; lia].
    intros i x Hi. rewrite <-(Hm (S i) x Hi). f_equal. lia.
Qed.
(** Writing bytes to mapped memory. *)
Definition mapped (p n : Z) (m : bytemem) : Prop := ∀ i, 0 ≤ i < n → is_Some (m !! (p + i)).
Lemma put_bytes_ok l : ∀ p m, mapped p (Z.of_nat (length l)) m → ∃ m', put_bytes p l m = Done m' ∧
  (∀ i x, l !! i = Some x → m' !! (p + Z.of_nat i) = Some (x mod 256)) ∧ (∀ a, ¬ (p ≤ a < p + Z.of_nat (length l)) → m' !! a = m !! a).
Proof.
  induction l as [|x l IH]; intros p m Hm; [by exists m|]. cbn [put_bytes]. unfold st, ld. destruct (Hm 0) as [y Hy]; [simpl; lia|]. rewrite Z.add_0_r in Hy.
  rewrite Hy. cbn [deref mbind outcome_bind]. destruct (IH (p + 1) (<[p := x mod 256]> m)) as (m' & -> & Hin & Hout).
  { intros i Hi. rewrite lookup_insert_ne by lia. rewrite <-Z.add_assoc. apply Hm. simpl. lia. }
  exists m'. split; [done|]. split.
  - intros [|i] z Hz; simplify_eq/=.
    + rewrite Z.add_0_r, Hout by lia. apply lookup_insert_eq.
    + rewrite <-(Hin i z Hz). f_equal. lia.
  - intros a Ha. simpl in Ha. rewrite Hout by lia. by rewrite lookup_insert_ne by lia.
Qed.
Lemma put_bytes_mapped p l m m' q n : put_bytes p l m = Done m' → mapped q n m → mapped q n m'.
Proof.
  revert p m. induction l as [|x l IH]; intros p m Hp Hq; simpl in Hp; [by simplify_eq|]. unfold st, ld in Hp. destruct (m !! p) as [y|] eqn:E; [|done]. simpl in Hp.
  apply (IH _ _ Hp). intros i Hi. destruct (decide (p = q + i)) as [->|]; [rewrite lookup_insert_eq; by eexists|rewrite lookup_insert_ne by done; by apply Hq].
Qed.
Lemma le_bytes_range n x i y : le_bytes n x !! i = Some y → 0 ≤ y < 256.
Proof. revert x i. induction n as [|n IH]; intros x [|i] Hy; simplify_eq/=; [by apply Z.mod_pos_bound|by eapply IH]. Qed.
Lemma ld_bytes_list l : ∀ p m, in_memory m p l → ld_bytes (length l) p m = Done l.
Proof.
  induction l as [|x l IH]; intros p m Hl; [done|]. cbn [ld_bytes length]. unfold ld. pose proof (Hl 0%nat x eq_refl) as Hx. rewrite Z.add_0_r in Hx. rewrite Hx.
  cbn [deref mbind outcome_bind]. rewrite (IH (p + 1)); [done|]. intros i y Hy. rewrite <-(Hl (S i) y Hy). f_equal. lia.
Qed.

(** * Relocations *)
(** ** What a module's file says *)
(** [Elf64_Rela] and [Elf64_Sym] as bytes. *)
Definition rela_bytes (rel : Elf64_Rela) : list Z :=
  le_bytes 8 (r_offset rel) ++ le_bytes 4 (r_type rel) ++ le_bytes 4 (r_sym rel) ++ le_bytes 8 (r_addend rel).
Definition rela_fits (rel : Elf64_Rela) : Prop :=
  0 ≤ r_offset rel < 2 ^ 64 ∧ 0 ≤ r_type rel < 2 ^ 32 ∧ 0 ≤ r_sym rel < 2 ^ 32 ∧ 0 ≤ r_addend rel < 2 ^ 64.
Record elf_sym := mk_elf_sym { st_name : Z; st_info : Z; st_other : Z; st_shndx : Z; st_value : Z; st_size : Z }.
Definition sym_bytes (x : elf_sym) : list Z :=
  le_bytes 4 (st_name x) ++ le_bytes 1 (st_info x) ++ le_bytes 1 (st_other x) ++ le_bytes 2 (st_shndx x) ++ le_bytes 8 (st_value x) ++ le_bytes 8 (st_size x).
Definition sym_fits (x : elf_sym) : Prop := 0 ≤ st_name x < 2 ^ 32 ∧ 0 ≤ st_shndx x < 2 ^ 16 ∧ 0 ≤ st_value x < 2 ^ 64.

Lemma length_rela_bytes rel : length (rela_bytes rel) = 24%nat.
Proof. unfold rela_bytes. by rewrite !length_app, !length_le_bytes. Qed.
Lemma length_sym_bytes x : length (sym_bytes x) = 24%nat.
Proof. unfold sym_bytes. by rewrite !length_app, !length_le_bytes. Qed.
Lemma rela_of_bytes rel : rela_fits rel → rela_of (rela_bytes rel) = rel.
Proof.
  intros (Ho & Ht & Hs & Ha). unfold rela_of, rela_bytes. rewrite field_head by (simpl; lia).
  rewrite (field_app (le_bytes 8 (r_offset rel)) 4 (r_type rel)) by (done || simpl; lia).
  rewrite (app_assoc (le_bytes 8 (r_offset rel))), (field_app (le_bytes 8 (r_offset rel) ++ le_bytes 4 (r_type rel)) 4 (r_sym rel)) by (done || simpl; lia).
  rewrite (app_assoc (_ ++ _) (le_bytes 4 (r_sym rel))), <-(app_nil_r (le_bytes 8 (r_addend rel))), (field_app _ 8 (r_addend rel)) by (done || simpl; lia).
  by destruct rel.
Qed.
Lemma sym_bytes_fields x : sym_fits x →
  field 0 4 (sym_bytes x) = st_name x ∧ field 6 2 (sym_bytes x) = st_shndx x ∧ field 8 8 (sym_bytes x) = st_value x.
Proof.
  intros (Hn & Hs & Hv). split; [unfold sym_bytes; by rewrite field_head by (simpl; lia)|].
  set (l6 := le_bytes 4 (st_name x) ++ le_bytes 1 (st_info x) ++ le_bytes 1 (st_other x)).
  assert (sym_bytes x = l6 ++ le_bytes 2 (st_shndx x) ++ le_bytes 8 (st_value x) ++ le_bytes 8 (st_size x)) as ->.
  { unfold sym_bytes, l6. by rewrite <-!app_assoc. }
  split; [by rewrite (field_app l6 2 (st_shndx x)) by (done || simpl; lia)|].
  rewrite app_assoc. by rewrite (field_app (l6 ++ _) 8 (st_value x)) by (done || simpl; lia).
Qed.

Section reloc.
Context `{FrameAllocator St} `{PageMapOps PM}.
Context (tokens : list (list Z)) (table : list sym_entry) (order : list Z) (base sk ek KSYM_NAME_LEN : Z) (fuel : nat) (loaded_at : Z) (d : dynamic).
Abbreviation ks := (write_tables table tokens order base sk ek).
Hypothesis (Hksyms : symbols_ok tokens table order base KSYM_NAME_LEN) (Hfuel : (26 ≤ fuel)%nat).

Definition rel_loc (rel : Elf64_Rela) : Z := w64 (loaded_at + r_offset rel).
Definition symbol_at (rel : Elf64_Rela) : Z := w64 (dt_symtab d + r_sym rel * dt_syment d).
Definition name_of (x : elf_sym) : Z := w64 (dt_strtab d + st_name x).
Definition symbolic (rel : Elf64_Rela) : Prop := r_type rel ∈ [R_X86_64_64; R_X86_64_GLOB_DAT; R_X86_64_JUMP_SLOT].
(** The symbol of a relocation, all of it in the part [P] of the memory; of one that the
    module does not define also its name. *)
Record refers_to (P : Z → Prop) (m : bytemem) (rel : Elf64_Rela) (x : elf_sym) : Prop := {
  rt_fits : sym_fits x;
  rt_memory : in_memory m (symbol_at rel) (sym_bytes x);
  rt_read i : 0 ≤ i < 24 → P (symbol_at rel + i) }.
Record is_named (P : Z → Prop) (m : bytemem) (x : elf_sym) (name : list Z) : Prop := {
  in_bytes : in_memory m (name_of x) (name ++ [0]);
  in_nonzero : Forall (λ c, c ≠ 0) name;
  in_short : (length name < fuel)%nat;
  in_read i : 0 ≤ i ≤ Z.of_nat (length name) → P (name_of x + i) }.
(** The address of the symbol of the kernel with a name: that of the first one in the order of
    names, if there are several. *)
Definition kernel_symbol (name : list Z) (addr : Z) : Prop :=
  ∃ j e, nth_name table order j e ∧ sym_name tokens e = name ∧ addr = e_addr e ∧ addr ≠ not_found ∧
    ∀ i f, nth_name table order i f → sym_name tokens f = name → (j ≤ i)%nat.
Definition no_kernel_symbol (name : list Z) : Prop :=
  (∀ i e, nth_name table order i e → sym_name tokens e ≠ name) ∧ is_below tokens table order name = false.
(** What a relocation stands for: an address; [Some None], no change; or [None], the module can
    not be linked. *)
Inductive stands_for (P : Z → Prop) (m : bytemem) (rel : Elf64_Rela) : option (option Z) → Prop :=
  | sf_kernel x name addr : symbolic rel → refers_to P m rel x → st_shndx x = 0 → is_named P m x name → name ≠ [] →
      kernel_symbol name addr → stands_for P m rel (Some (Some addr))
  | sf_missing x name : symbolic rel → refers_to P m rel x → st_shndx x = 0 → is_named P m x name → name ≠ [] →
      no_kernel_symbol name → stands_for P m rel None
  | sf_unnamed x : symbolic rel → refers_to P m rel x → st_shndx x = 0 → is_named P m x [] → stands_for P m rel (Some None)
  | sf_module x : symbolic rel → refers_to P m rel x → st_shndx x ≠ 0 → stands_for P m rel (Some (Some (w64 (loaded_at + st_value x))))
  | sf_relative : r_type rel = R_X86_64_RELATIVE → stands_for P m rel (Some (Some (w64 (loaded_at + r_addend rel))))
  | sf_unknown : ¬ symbolic rel → r_type rel ≠ R_X86_64_RELATIVE → stands_for P m rel None.

(** What [reloc] computes before it writes. *)
Definition rel_value (rel : Elf64_Rela) (m : bytemem) : outcome (option (option Z)) :=
  if (r_type rel =? R_X86_64_64) || (r_type rel =? R_X86_64_GLOB_DAT) || (r_type rel =? R_X86_64_JUMP_SLOT) then
    resolve_symbol ks KSYM_NAME_LEN fuel loaded_at d rel m
  else if r_type rel =? R_X86_64_RELATIVE then Done (Some (Some (w64 (loaded_at + r_addend rel))))
  else Done None.
Lemma symbolic_test rel : ((r_type rel =? R_X86_64_64) || (r_type rel =? R_X86_64_GLOB_DAT) || (r_type rel =? R_X86_64_JUMP_SLOT)) = true ↔ symbolic rel.
Proof. unfold symbolic. rewrite !orb_true_iff, !Z.eqb_eq. set_solver. Qed.
Lemma kernel_symbol_found name addr : kernel_symbol name addr → klookup ks KSYM_NAME_LEN fuel name = Done addr ∧ addr ≠ not_found.
Proof.
  intros (j & e & He & Hn & -> & Ha & Hfirst). split; [|done]. destruct Hksyms as [Htok Htab Haddr Hord].
  by apply (proj1 (klookup_spec tokens table order base sk ek KSYM_NAME_LEN Htok Htab Haddr Hord fuel name Hfuel) j).
Qed.
Lemma kernel_symbol_missing name : no_kernel_symbol name → klookup ks KSYM_NAME_LEN fuel name = Done not_found.
Proof.
  intros [Hn Hb]. destruct Hksyms as [Htok Htab Haddr Hord].
  rewrite (proj2 (klookup_spec tokens table order base sk ek KSYM_NAME_LEN Htok Htab Haddr Hord fuel name Hfuel)) by done. by rewrite Hb.
Qed.
(** The symbol and its name are found. *)
Lemma resolve_reads P m m' rel x : agree P m m' → refers_to P m rel x → resolve_symbol ks KSYM_NAME_LEN fuel loaded_at d rel m' =
  if st_shndx x =? 0 then
    name ← ld_string fuel (name_of x) m';
    if bool_decide (name = []) then Done (Some None) else
    symaddr ← klookup ks KSYM_NAME_LEN fuel name;
    if symaddr =? not_found then Done None else Done (Some (Some symaddr))
  else Done (Some (Some (w64 (loaded_at + st_value x)))).
Proof.
  intros Ha [Hfits Hm HP]. unfold resolve_symbol. fold (symbol_at rel). destruct (sym_bytes_fields x Hfits) as (E1 & E2 & E3).
  rewrite <-(length_sym_bytes x), ld_bytes_list.
  - cbn [mbind outcome_bind]. by rewrite E1, E2, E3.
  - eapply in_memory_agree; [done..|]. by rewrite length_sym_bytes.
Qed.
Lemma name_reads P m m' x name : agree P m m' → is_named P m x name → ld_string fuel (name_of x) m' = Done name.
Proof.
  intros Ha [Hm Hz Hl HP]. apply ld_string_in_memory; [|done..]. eapply in_memory_agree; [done..|].
  intros i Hi. rewrite length_app in Hi. simpl in Hi. apply HP. lia.
Qed.
Lemma rel_value_spec P m m' rel v : agree P m m' → stands_for P m rel v → rel_value rel m' = Done v.
Proof.
  intros Ha Hv. unfold rel_value. destruct Hv as [x name addr Hs Hx Hu Hn Hne Hk|x name Hs Hx Hu Hn Hne Hk|x Hs Hx Hu Hn|x Hs Hx Hd|Hr|Hs Hr].
  - rewrite (proj2 (symbolic_test rel) Hs), (resolve_reads P m m' rel x Ha Hx), Hu. cbn [Z.eqb].
    rewrite (name_reads P m m' x name Ha Hn). cbn [mbind outcome_bind]. rewrite bool_decide_false by done.
    destruct (kernel_symbol_found name addr Hk) as [-> Hf]. cbn [mbind outcome_bind]. by rewrite (proj2 (Z.eqb_neq _ _) Hf).
  - rewrite (proj2 (symbolic_test rel) Hs), (resolve_reads P m m' rel x Ha Hx), Hu. cbn [Z.eqb].
    rewrite (name_reads P m m' x name Ha Hn). cbn [mbind outcome_bind]. rewrite bool_decide_false by done.
    by rewrite (kernel_symbol_missing name Hk).
  - rewrite (proj2 (symbolic_test rel) Hs), (resolve_reads P m m' rel x Ha Hx), Hu. cbn [Z.eqb].
    by rewrite (name_reads P m m' x [] Ha Hn).
  - rewrite (proj2 (symbolic_test rel) Hs), (resolve_reads P m m' rel x Ha Hx). by rewrite (proj2 (Z.eqb_neq _ _) Hd).
  - by rewrite Hr.
  - destruct (_ || _) eqn:E; [by apply symbolic_test in E|]. by rewrite (proj2 (Z.eqb_neq _ _) Hr).
Qed.

(** One relocation. *)
Lemma reloc_value rel (s : kernel St PM) v : rel_value rel (kmem s) = Done v → mapped (rel_loc rel) 8 (kmem s) →
  ∃ m, reloc ks KSYM_NAME_LEN fuel loaded_at d rel s = Done (match v with None => false | Some _ => true end, set_kmem m s) ∧
    (∀ q n, mapped q n (kmem s) → mapped q n m) ∧
    (∀ x, v = Some (Some x) → ∀ i b, le_bytes 8 x !! i = Some b → m !! (rel_loc rel + Z.of_nat i) = Some b) ∧
    (∀ a, ¬ (rel_loc rel ≤ a < rel_loc rel + 8) → m !! a = kmem s !! a).
Proof.
  intros Hv Hm. unfold rel_value in Hv. unfold reloc. fold (rel_loc rel).
  assert (∀ x, ∃ m, (_ ← change (put_bytes (rel_loc rel) (le_bytes 8 x)); mret true) s = Done (true, set_kmem m s) ∧ (∀ q n, mapped q n (kmem s) → mapped q n m) ∧
    (∀ i b, le_bytes 8 x !! i = Some b → m !! (rel_loc rel + Z.of_nat i) = Some b) ∧ (∀ a, ¬ (rel_loc rel ≤ a < rel_loc rel + 8) → m !! a = kmem s !! a)) as Hput.
  { intros x. destruct (put_bytes_ok (le_bytes 8 x) (rel_loc rel) (kmem s) Hm) as (m & E & Hin & Hout). exists m.
    unfold mbind, K_bind, change. rewrite E. split; [done|]. split; [intros q n; by apply (put_bytes_mapped _ _ _ _ _ _ E)|]. split; [|exact Hout].
    intros i b Hb. rewrite (Hin i b Hb). f_equal. apply Z.mod_small. by eapply le_bytes_range. }
  destruct (_ || _).
  - unfold mbind at 1, K_bind at 1, look. rewrite Hv. cbn [mbind outcome_bind]. destruct v as [[x|]|].
    + destruct (Hput x) as (m & -> & Hk & Hin & Hout). exists m. split; [done|]. split; [done|]. split; [by intros ? [= <-]|done].
    + exists (kmem s). split; [by destruct s|]. done.
    + exists (kmem s). split; [by destruct s|]. done.
  - destruct (r_type rel =? R_X86_64_RELATIVE); simplify_eq.
    + destruct (Hput (w64 (loaded_at + r_addend rel))) as (m & -> & Hk & Hin & Hout). exists m. split; [done|]. split; [done|]. split; [by intros ? [= <-]|done].
    + exists (kmem s). split; [by destruct s|]. done.
Qed.

(** ** A table of relocations *)
Definition at_loc (rel : Elf64_Rela) (a : Z) : Prop := rel_loc rel ≤ a < rel_loc rel + 8.
Definition entry_at (table i : Z) : Z := w64 (table + i * dt_relaent d).
(** The table lists [rels], which stand for [vs]; what is read lies in [P], what is written is
    mapped memory outside of it, and different places do not overlap. *)
Record table_ok (P : Z → Prop) (m : bytemem) (table : Z) (rels : list Elf64_Rela) (vs : list (option (option Z))) : Prop := {
  to_entry i rel : rels !! i = Some rel → rela_fits rel ∧ in_memory m (entry_at table (Z.of_nat i)) (rela_bytes rel) ∧
    ∀ j, 0 ≤ j < 24 → P (entry_at table (Z.of_nat i) + j);
  to_values : Forall2 (stands_for P m) rels vs;
  to_mapped rel : rel ∈ rels → mapped (rel_loc rel) 8 m;
  to_apart rel a : rel ∈ rels → at_loc rel a → ¬ P a;
  to_disjoint i j r1 r2 : (i < j)%nat → rels !! i = Some r1 → rels !! j = Some r2 → rel_loc r1 + 8 ≤ rel_loc r2 ∨ rel_loc r2 + 8 ≤ rel_loc r1 }.

Definition all_found (vs : list (option (option Z))) : bool := forallb (λ v, match v with None => false | Some _ => true end) vs.
Lemma reloc_loop_ok P m0 tbl rels0 vs0 : table_ok P m0 tbl rels0 vs0 → ∀ rels vs k (s : kernel St PM),
  rels = drop k rels0 → vs = drop k vs0 → agree P m0 (kmem s) → (∀ rel, rel ∈ rels → mapped (rel_loc rel) 8 (kmem s)) →
  ∃ m, reloc_loop ks KSYM_NAME_LEN fuel (length rels) tbl loaded_at d (Z.of_nat k) s = Done (all_found vs, set_kmem m s) ∧
    (∀ a, (∀ rel, rel ∈ rels → ¬ at_loc rel a) → m !! a = kmem s !! a) ∧
    (all_found vs = true → ∀ i rel x, rels !! i = Some rel → vs !! i = Some (Some (Some x)) → ld_bytes 8 (rel_loc rel) m = Done (le_bytes 8 x)).
Proof.
  intros Hok rels. induction rels as [|rel rels IH]; intros vs k s Hrels Hvs Ha Hm.
  - assert (vs = []) as ->. { apply length_zero_iff_nil. rewrite Hvs, length_drop, <-(Forall2_length _ _ _ (to_values _ _ _ _ _ Hok)), <-length_drop, <-Hrels. done. }
    exists (kmem s). split; [by destruct s|]. by split.
  - assert (rels0 !! k = Some rel) as Hrel by (rewrite <-(Nat.add_0_r k), <-lookup_drop, <-Hrels; done).
    destruct (Forall2_lookup_l _ _ _ _ _ (to_values _ _ _ _ _ Hok) Hrel) as (v & Hv & Hval).
    assert (vs = v :: drop (S k) vs0) as -> by (rewrite Hvs; by apply drop_S).
    assert (rels = drop (S k) rels0) as Hrels' by (rewrite (drop_S _ _ _ Hrel) in Hrels; by injection Hrels).
    assert (rel ∈ rels0) as Hin by by eapply list_elem_of_lookup_2.
    destruct (to_entry _ _ _ _ _ Hok k rel Hrel) as (Hfits & Hl & HP). cbn [reloc_loop length]. fold (entry_at tbl (Z.of_nat k)).
    unfold mbind at 1, K_bind at 1, look. rewrite <-(length_rela_bytes rel), ld_bytes_list by (eapply in_memory_agree; [done..|]; by rewrite length_rela_bytes).
    cbn [mbind outcome_bind]. rewrite (rela_of_bytes rel Hfits).
    destruct (reloc_value rel s v) as (m1 & E1 & Hmap1 & Hin1 & Hout1); [by eapply rel_value_spec|apply Hm; by left|].
    unfold mbind at 1, K_bind at 1. rewrite E1. cbn [mbind outcome_bind]. destruct v as [v|].
    + destruct (IH (drop (S k) vs0) (S k) (set_kmem m1 s)) as (m2 & E2 & Hout2 & Htgt2); [done|done| | |].
      { simpl. eapply agree_trans; [done|]. intros a HPa. apply Hout1. intros Hat. by eapply (to_apart _ _ _ _ _ Hok). }
      { intros r Hr. apply Hmap1, Hm. by right. }
      replace (Z.of_nat k + 1) with (Z.of_nat (S k)) by lia. rewrite E2. exists m2. split; [done|]. split.
      * intros a Hout. rewrite Hout2 by (intros r Hr; apply Hout; by right). simpl. apply Hout1. apply Hout. by left.
      * intros Hall i r x Hr Hx. destruct i as [|i]; [|exact (Htgt2 Hall i r x Hr Hx)]. injection Hr as <-. injection Hx as ->.
        change 8%nat with (length (le_bytes 8 x)). apply ld_bytes_list. intros i b Hb. rewrite Hout2; [by eapply Hin1|].
        intros r' Hr' Hat. apply list_elem_of_lookup in Hr' as [j Hj]. rewrite Hrels', lookup_drop in Hj.
        pose proof (lookup_lt_Some _ _ _ Hb) as Hlt. rewrite !length_le_bytes in Hlt. unfold at_loc in Hat.
        destruct (to_disjoint _ _ _ _ _ Hok k (S k + j) rel r' ltac:(lia) Hrel Hj); lia.
    + exists m1. split; [done|]. split; [|done]. intros a Hout. apply Hout1, Hout. by left.
Qed.
End reloc.

(** C29: relocating a module.  Its relocations and symbols are what memory shows in the format
    of ELF, and the symbols of the kernel those the generator has written.  If every
    relocation stands for an address, each has put that address to its place: for a symbol
    the module does not define, that of the first symbol of the kernel with its name; for one
    it defines, the load address plus [st_value]; for a relative one, the load address plus
    the addend, which is not looked at otherwise.  If one stands for a symbol that does not
    exist or has an unknown type, the table is given up.  No byte changes outside of the
    places of the relocations.  (A name below those of all symbols of the kernel is left out:
    the search leaves its tables, [klookup_spec].) *)
Theorem relocate_correct {St PM} tokens ktable order base sk ek ks KSYM_NAME_LEN fuel loaded_at d P table sz rels vs (s : kernel St PM) :
  write_src ktable tokens order base sk ek = Some ks → symbols_ok tokens ktable order base KSYM_NAME_LEN → (26 ≤ fuel)%nat →
  table_ok tokens ktable order fuel loaded_at d P (kmem s) table rels vs → dt_relaent d ≠ 0 → sz / dt_relaent d = Z.of_nat (length rels) →
  ∃ m, relocs ks KSYM_NAME_LEN fuel table sz loaded_at d s = Done (all_found vs, set_kmem m s) ∧
    (∀ a, (∀ rel, rel ∈ rels → ¬ at_loc loaded_at rel a) → m !! a = kmem s !! a) ∧
    (all_found vs = true → ∀ i rel x, rels !! i = Some rel → vs !! i = Some (Some (Some x)) →
       ld_bytes 8 (rel_loc loaded_at rel) m = Done (le_bytes 8 x)).
Proof.
  intros ->%write_src_writable Hks Hfuel Hok Hr Hsz. unfold relocs. rewrite (proj2 (Z.eqb_neq _ _) Hr), Hsz, Nat2Z.id.
  apply (reloc_loop_ok tokens ktable order base sk ek KSYM_NAME_LEN fuel loaded_at d Hks Hfuel P (kmem s) table rels vs Hok rels vs 0 s); try done.
  intros rel Hrel. by apply (to_mapped _ _ _ _ _ _ _ _ _ _ _ Hok).
Qed.

(** The addend of a relocation against a symbol is not looked at. *)
Lemma addend_ignored ks KSYM_NAME_LEN fuel loaded_at d off ty sym a b m :
  resolve_symbol ks KSYM_NAME_LEN fuel loaded_at d (mk_rela off ty sym a) m = resolve_symbol ks KSYM_NAME_LEN fuel loaded_at d (mk_rela off ty sym b) m.
Proof. done. Qed.
(** A module without relocations has no [DT_RELA] entry: the kernel panics. *)
Lemma no_relocations_panics buffer loaded_at ph d d' : dyn_loop (Z.to_nat (p_filesz ph / 16)) buffer (p_offset ph) loaded_at d = Done d' → dt_rela d' = 0 →
  read_dynamic buffer loaded_at ph d = Panic.
Proof. intros E Hz. unfold read_dynamic. rewrite E. cbn [mbind outcome_bind]. rewrite Hz. by rewrite orb_true_r. Qed.

(** * Example: a jump slot of a kernel symbol, a relative relocation and a symbol of the module *)
Definition bytes_at (p : Z) (l : list Z) : bytemem := list_to_map (zip (seqZ p (Z.of_nat (length l))) l).
Definition ex_rels : list Elf64_Rela := [mk_rela 0x4000 7 0 0; mk_rela 0x4008 8 0 0x40; mk_rela 0x4010 6 1 5].
Definition ex_sym0 : elf_sym := mk_elf_sym 0 0 0 0 0 0.
Definition ex_sym1 : elf_sym := mk_elf_sym 0 0 0 1 0x123 0.
Definition ex_mem : bytemem :=
  bytes_at 0x11000 (ex_rels ≫= rela_bytes) ∪ bytes_at 0x12000 (sym_bytes ex_sym0 ++ sym_bytes ex_sym1) ∪
  bytes_at 0x13000 [97; 0] ∪ bytes_at 0x14000 (replicate 24 0).
Definition ex_dyn : dynamic := mk_dynamic 0 0x13000 0x12000 0x11000 72 24 24 0 0 0 0 0.
Definition ex_meta (a : Z) : Prop := 0x11000 ≤ a < 0x14000.
Definition ex_kernel : kernel Z Z := mk_kernel ex_mem 0 0 0 ∅.
Definition ex_values : list (option (option Z)) := [Some (Some 0x1000); Some (Some 0x10040); Some (Some 0x10123)].
(** Memory can be looked at by computation. *)
Lemma in_memory_dec m p l : forallb (λ '(i, x), bool_decide (m !! (p + Z.of_nat i) = Some x)) (imap pair l) = true → in_memory m p l.
Proof.
  intros Hall i x Hi. rewrite forallb_forall in Hall. specialize (Hall (i, x)). simpl in Hall.
  apply (bool_decide_eq_true_1 _), Hall, list_elem_of_In, elem_of_lookup_imap. by exists i, x.
Qed.
Lemma ex_page_mapped p : p ∈ [0x14000; 0x14008; 0x14010] → mapped p 8 ex_mem.
Proof.
  intros Hp i Hi. assert (p + i ∈ seqZ 0x14000 24) as Hin by (apply elem_of_seqZ; set_unfold; lia).
  assert (forallb (λ a, bool_decide (is_Some (ex_mem !! a))) (seqZ 0x14000 24) = true) as Hall by (vm_compute; reflexivity).
  rewrite forallb_forall in Hall. by apply (bool_decide_eq_true_1 _), Hall, list_elem_of_In.
Qed.
Lemma ex_refers rel x p : symbol_at ex_dyn rel = p → 0x12000 ≤ p ≤ 0x12018 → sym_fits x → in_memory ex_mem p (sym_bytes x) → refers_to ex_dyn ex_meta ex_mem rel x.
Proof. intros <- Hp Hx Hm. split; [done|done|]. intros i Hi. unfold ex_meta. lia. Qed.
Lemma ex_stands : Forall2 (stands_for ex_tokens ex_symbols ex_order 26 0x10000 ex_dyn ex_meta ex_mem) ex_rels ex_values.
Proof.
  constructor; [|constructor; [|constructor; [|constructor]]].
  - apply (sf_kernel _ _ _ _ _ _ _ _ _ ex_sym0 [97]); [by unfold symbolic; set_solver| |done| |done|].
    + apply (ex_refers _ _ 0x12000); [done|lia|unfold sym_fits; simpl; lia|]. apply in_memory_dec. vm_compute. reflexivity.
    + split; [apply in_memory_dec; vm_compute; reflexivity|repeat constructor; done|simpl; lia|].
      intros i Hi. change (name_of ex_dyn ex_sym0) with 0x13000. unfold ex_meta. simpl in Hi. lia.
    + exists 0%nat, (mk_sym_entry 0x1000 [84; 97]). split; [by exists 1|]. split; [vm_compute; reflexivity|]. split; [done|]. split; [done|]. lia.
  - apply (sf_relative ex_tokens ex_symbols ex_order 26 0x10000 ex_dyn ex_meta ex_mem (mk_rela 0x4008 8 0 0x40)). done.
  - apply (sf_module ex_tokens ex_symbols ex_order 26 0x10000 ex_dyn ex_meta ex_mem (mk_rela 0x4010 6 1 5) ex_sym1); [by unfold symbolic; set_solver| |done].
    apply (ex_refers _ _ 0x12018); [done|lia|unfold sym_fits; simpl; lia|]. apply in_memory_dec. vm_compute. reflexivity.
Qed.
Lemma ex_locs rel : rel ∈ ex_rels → rel_loc 0x10000 rel ∈ [0x14000; 0x14008; 0x14010].
Proof. unfold ex_rels. rewrite !elem_of_cons. intros [-> |[-> |[-> |Hr%elem_of_nil]]]; [vm_compute; by repeat constructor..|done]. Qed.
Lemma ex_table_ok : table_ok ex_tokens ex_symbols ex_order 26 0x10000 ex_dyn ex_meta ex_mem 0x11000 ex_rels ex_values.
Proof.
  split.
  - intros i rel Hi. assert (∃ j, i = j ∧ (j < 3)%nat) as (j & -> & Hj) by (exists i; split; [done|by apply lookup_lt_Some in Hi]).
    assert (entry_at ex_dyn 0x11000 (Z.of_nat j) = 0x11000 + 24 * Z.of_nat j) as -> by (unfold entry_at; simpl; rewrite w64_small; lia).
    split; [|split; [|intros k Hk; unfold ex_meta; lia]]; destruct j as [|[|[|j]]]; simplify_eq/=; try lia.
    1-3: unfold rela_fits; simpl; lia. all: apply in_memory_dec; vm_compute; reflexivity.
  - exact ex_stands.
  - intros rel Hrel. by apply ex_page_mapped, ex_locs.
  - intros rel a Hrel%ex_locs Ha. unfold at_loc in Ha. unfold ex_meta. set_unfold. lia.
  - intros i j r1 r2 Hij H1 H2. destruct i as [|[|[|i]]], j as [|[|[|j]]]; simplify_eq/=; try lia; left; vm_compute; discriminate.
Qed.
Lemma relocate_correct_witness : ∃ m, relocs ex_ks 16 26 0x11000 72 0x10000 ex_dyn ex_kernel = Done (true, set_kmem m ex_kernel) ∧
  ld_bytes 8 0x14000 m = Done [0; 16; 0; 0; 0; 0; 0; 0] ∧ ld_bytes 8 0x14008 m = Done [64; 0; 1; 0; 0; 0; 0; 0] ∧
  ld_bytes 8 0x14010 m = Done [35; 1; 1; 0; 0; 0; 0; 0].
Proof.
  destruct (relocate_correct ex_tokens ex_symbols ex_order 0x1000 0x1000 0x2000 ex_ks 16 26 0x10000 ex_dyn ex_meta 0x11000 72 ex_rels ex_values ex_kernel
    ex_written ex_symbols_ok ltac:(lia) ex_table_ok) as (m & E & _ & Ht); [discriminate|reflexivity|]. exists m. split; [exact E|]. split; [|split].
  - exact (Ht eq_refl 0%nat _ _ eq_refl eq_refl).
  - exact (Ht eq_refl 1%nat _ _ eq_refl eq_refl).
  - exact (Ht eq_refl 2%nat _ _ eq_refl eq_refl).
Defined.
