(* ===== verification/Initgraph.v ===== *)
(** The engines that order the initialisation of the kernel (kernel/interfaces/lib/initgraph.cppm):
    stages and tasks are the nodes of a graph, an edge says that its source is needed before
    its target.

    A node is known by a key, as it is by its address in the source; the lists of edges and
    nodes, which are intrusive there, are lists of edges and keys.  What a task does is a
    function on the rest of the kernel, [W].  The properties are in [InitgraphSpec.v]. *)

From S2P Require Import Prelude.

Inductive node_type := NoType | StageNode | TaskNode.
(** [presched_init_engine] and [postsched_init_engine]. *)
Inductive engine_id := Presched | Postsched.
#[export] Instance engine_id_eq_dec : EqDecision engine_id.
Proof. solve_decision. Defined.

(** Runs a function over a list, from the left; the first failure ends it. *)
Fixpoint each {A S : Type} (f : A → S → outcome S) (l : list A) (s : S) : outcome S :=
  match l with [] => Done s | x :: l => s ← f x s; each f l s end.

Section initgraph.
Context {K : Type} `{Countable K} {W : Type}.

Record edge := mk_edge { source : K; target : K }.
Record node := mk_node
  { n_type : node_type; n_engine : engine_id; outlist : list edge; inlist : list edge;
    wanted : bool; is_done : bool; unsatisfied : Z }.
Record engine := mk_engine { e_nodes : list K; e_pending : list K }.
Record graph := mk_graph { nodes : gmap K node; presched : engine; postsched : engine }.

Definition empty_graph : graph := mk_graph ∅ (mk_engine [] []) (mk_engine [] []).

Definition get_node (k : K) (g : graph) : outcome node := deref (nodes g !! k).
Definition put_node (k : K) (n : node) (g : graph) : graph :=
  mk_graph (<[k := n]> (nodes g)) (presched g) (postsched g).
Definition engine_of (e : engine_id) (g : graph) : engine :=
  match e with Presched => presched g | Postsched => postsched g end.
Definition put_engine (e : engine_id) (x : engine) (g : graph) : graph :=
  match e with Presched => mk_graph (nodes g) x (postsched g) | Postsched => mk_graph (nodes g) (presched g) x end.
Definition set_pending (e : engine_id) (l : list K) (g : graph) : graph :=
  put_engine e (mk_engine (e_nodes (engine_of e g)) l) g.
Definition push_pending (e : engine_id) (k : K) (g : graph) : graph :=
  set_pending e (e_pending (engine_of e g) ++ [k]) g.

Definition set_wanted (b : bool) (n : node) : node :=
  mk_node (n_type n) (n_engine n) (outlist n) (inlist n) b (is_done n) (unsatisfied n).
Definition set_done (b : bool) (n : node) : node :=
  mk_node (n_type n) (n_engine n) (outlist n) (inlist n) (wanted n) b (unsatisfied n).
Definition set_unsatisfied (u : Z) (n : node) : node :=
  mk_node (n_type n) (n_engine n) (outlist n) (inlist n) (wanted n) (is_done n) u.
Definition set_outlist (l : list edge) (n : node) : node :=
  mk_node (n_type n) (n_engine n) l (inlist n) (wanted n) (is_done n) (unsatisfied n).
Definition set_inlist (l : list edge) (n : node) : node :=
  mk_node (n_type n) (n_engine n) (outlist n) l (wanted n) (is_done n) (unsatisfied n).

(** ** Building the graph *)
Definition realise_node (k : K) (e : engine_id) (g : graph) : graph :=
  put_engine e (mk_engine (e_nodes (engine_of e g) ++ [k]) (e_pending (engine_of e g))) g.
(** The constructor of a node. *)
Definition make_node (ty : node_type) (e : engine_id) (k : K) (g : graph) : graph :=
  realise_node k e (put_node k (mk_node ty e [] [] false false 0) g).
Definition realise_edge (e : edge) (g : graph) : outcome graph :=
  n ← get_node (source e) g;
  let g := put_node (source e) (set_outlist (outlist n ++ [e]) n) g in
  n ← get_node (target e) g;
  let g := put_node (target e) (set_inlist (inlist n ++ [e]) n) g in
  n ← get_node (target e) g;
  Done (put_node (target e) (set_unsatisfied (w32 (unsatisfied n + 1)) n) g).

(** A stage is a static variable of the function that returns it: it is made when the
    function is called for the first time. *)
Definition stage_ref (st : K * engine_id) (g : graph) : outcome graph :=
  if bool_decide (is_Some (nodes g !! st.1)) then Done g else Done (make_node StageNode st.2 st.1 g).
(** The constructor of a task, whose base is made first. *)
Definition make_task (k : K) (e : engine_id) (r en : list K) (g : graph) : outcome graph :=
  let g := make_node TaskNode e k g in
  g ← each realise_edge (map (λ s, mk_edge s k) r) g;
  each realise_edge (map (λ t, mk_edge k t) en) g.

(** The definition of a task as a global variable: name, engine, [require] and [entail]. *)
Record task := mk_task
  { t_name : K; t_engine : engine_id; t_require : list (K * engine_id); t_entail : list (K * engine_id) }.
Definition define_task (t : task) (g : graph) : outcome graph :=
  g ← each stage_ref (t_require t) g;
  g ← each stage_ref (t_entail t) g;
  make_task (t_name t) (t_engine t) (map fst (t_require t)) (map fst (t_entail t)) g.
Definition build (ts : list task) : outcome graph := each define_task ts empty_graph.

(** ** Running an engine *)
Section run.
Variable invoke : K → W → outcome W.

Definition activate (k : K) (n : node) (w : W) : outcome W :=
  match n_type n with TaskNode => invoke k w | _ => Done w end.

Definition want (k : K) (g : graph) : outcome graph :=
  n ← get_node k g; Done (put_node k (set_wanted true n) g).
Definition queue_if_ready (e : engine_id) (k : K) (g : graph) : outcome graph :=
  n ← get_node k g;
  if negb (wanted n) || is_done n then Done g else
  if unsatisfied n =? 0 then Done (push_pending e k g) else Done g.
Definition satisfy (e : engine_id) (ed : edge) (g : graph) : outcome graph :=
  successor ← get_node (target ed) g;
  _ ← bug_on (unsatisfied successor =? 0);
  let n := set_unsatisfied (unsatisfied successor - 1) successor in
  let g := put_node (target ed) n g in
  if wanted n && negb (is_done n) && (unsatisfied n =? 0) then Done (push_pending e (target ed) g) else Done g.

(** One round of the loop over the pending nodes. *)
Definition run_one (e : engine_id) (current : K) (g : graph) (w : W) : outcome (graph * W) :=
  n ← get_node current g;
  _ ← bug_on (negb (wanted n) || is_done n);
  w ← activate current n w;
  g ← each (satisfy e) (outlist n) (put_node current (set_done true n) g);
  Done (g, w).
Fixpoint run_pending (fuel : nat) (e : engine_id) (g : graph) (w : W) : outcome (graph * W) :=
  match fuel with
  | O => NoFuel
  | S fuel =>
      match e_pending (engine_of e g) with
      | [] => Done (g, w)
      | current :: rest => '(g, w) ← run_one e current (set_pending e rest g) w; run_pending fuel e g w
      end
  end.

Definition count_unreached (k : K) (x : graph * Z) : outcome (graph * Z) :=
  n ← get_node k x.1;
  if negb (wanted n) || is_done n then Done x else Done (x.1, w32 (x.2 + 1)).
Definition run (e : engine_id) (g : graph) (w : W) : outcome (graph * W) :=
  let ns := e_nodes (engine_of e g) in
  g ← each want ns g;
  g ← each (queue_if_ready e) ns g;
  '(g, w) ← run_pending (S (length ns)) e g w;
  x ← each count_unreached ns (g, 0);
  if negb (x.2 =? 0) then Panic else Done (g, w).

(** [kmain] runs the first engine, [kthread] the second; [between] is what happens from the end of
    the first to the start of [kthread]. *)
Definition boot (between : W → outcome W) (ts : list task) (w : W) : outcome (graph * W) :=
  g ← build ts;
  '(g, w) ← run Presched g w;
  w ← between w;
  run Postsched g w.
End run.
End initgraph.
Arguments edge : clear implicits.
Arguments node : clear implicits.
Arguments engine : clear implicits.
Arguments graph K {_ _}.
Arguments task : clear implicits.
