(* ===== verification/InitgraphSpec.v ===== *)
(** Running an engine runs every node that can be run, once and after what it needs; it ends,
    and it panics exactly when a node depends on itself or on something that is never done. *)

From S2P Require Import Prelude Initgraph.
#[local] Open Scope Z_scope.

Lemma length_filter_zero {A} (P : A → Prop) `{!∀ x, Decision (P x)} (l : list A) :
  length (filter P l) = 0%nat ↔ ∀ x, x ∈ l → ¬ P x.
Proof.
  split.
  - intros E x Hx HP. assert (x ∈ filter P l) as Hin by (by apply list_elem_of_filter).
    destruct (filter P l); [by apply elem_of_nil in Hin|done].
  - intros Hno. destruct (filter P l) as [|x l'] eqn:Ef; [done|]. exfalso.
    assert (x ∈ filter P l) as Hin by (rewrite Ef; by left).
    apply list_elem_of_filter in Hin as [Ht Hed]. by apply (Hno x).
Qed.

Section spec.
Context {K : Type} `{Countable K}.
Implicit Types (k : K) (E R : list (edge K)) (D : gset K) (N o : list K) (g : graph K) (n : node K).

(** The number of edges of a list that lead to a node. *)
Definition incoming k R : Z := Z.of_nat (length (filter (λ ed, target ed = k) R)).
Lemma incoming_cons k ed R : incoming k (ed :: R) = ((if decide (target ed = k) then 1 else 0) + incoming k R)%Z.
Proof. unfold incoming. rewrite filter_cons. destruct (decide _); simpl; lia. Qed.
Lemma incoming_perm k R R' : R ≡ₚ R' → incoming k R = incoming k R'.
Proof. unfold incoming. by intros ->. Qed.
Lemma incoming_zero k R : incoming k R = 0 ↔ ∀ ed, ed ∈ R → target ed ≠ k.
Proof. unfold incoming. rewrite <-(length_filter_zero (λ ed, target ed = k)). lia. Qed.
Lemma incoming_nonneg k R : 0 ≤ incoming k R.
Proof. unfold incoming. lia. Qed.

(** The edges that are not satisfied yet when the nodes of [D] and [o] are done. *)
Definition open_edges D o E : list (edge K) := filter (λ ed, source ed ∉ D ∧ source ed ∉ o) E.

Lemma open_edges_snoc E ed : open_edges ∅ [] (E ++ [ed]) = open_edges ∅ [] E ++ [ed].
Proof. unfold open_edges. by rewrite filter_app. Qed.
Lemma incoming_open_le k D o E : incoming k (open_edges D o E) ≤ Z.of_nat (length E).
Proof. unfold incoming, open_edges. apply inj_le. etrans; apply length_filter. Qed.
Lemma incoming_snoc k R ed : incoming k (R ++ [ed]) = incoming k R + (if decide (target ed = k) then 1 else 0).
Proof. rewrite (incoming_perm k _ (ed :: R)) by (symmetry; apply Permutation_cons_append). rewrite incoming_cons. lia. Qed.

(** What the graph says about the edges [E] while the nodes of [D] are done and no engine runs. *)
Record consistent E D g : Prop := {
  ct_uns : ∀ k n, nodes g !! k = Some n → unsatisfied n = incoming k (open_edges D [] E);
  ct_done : ∀ k n, nodes g !! k = Some n → is_done n = bool_decide (k ∈ D);
  ct_wanted : ∀ k n, nodes g !! k = Some n → wanted n = true → k ∈ D;
  ct_out : ∀ k n, nodes g !! k = Some n → outlist n = filter (λ ed, source ed = k) E;
  ct_ends : ∀ ed, ed ∈ E → is_Some (nodes g !! source ed) ∧ is_Some (nodes g !! target ed);
  ct_nodup : ∀ e, NoDup (e_nodes (engine_of e g));
  ct_nodes : ∀ e k, k ∈ e_nodes (engine_of e g) ↔ ∃ n, nodes g !! k = Some n ∧ n_engine n = e;
  ct_idle : ∀ e, e_pending (engine_of e g) = [] }.

(** A node of an engine that can be run: everything it needs is done before or can be run. *)
Inductive runnable E D (N : list K) : K → Prop :=
| runnable_intro k : k ∈ N → k ∉ D →
    (∀ ed, ed ∈ E → target ed = k → source ed ∉ D → runnable E D N (source ed)) → runnable E D N k.

(** In the order [o] every node comes after all that it needs. *)
Definition in_order E D o : Prop :=
  ∀ i ed, ed ∈ E → o !! i = Some (target ed) → source ed ∈ D ∨ ∃ j, (j < i)%nat ∧ o !! j = Some (source ed).
(** The tasks among some nodes; stages do nothing. *)
Definition is_task g k : bool := match nodes g !! k with Some n => match n_type n with TaskNode => true | _ => false end | None => false end.
Definition tasks_in g o : list K := filter (λ k, is_task g k = true) o.

(** What does not change while an engine runs. *)
Definition same_shape n n' : Prop :=
  n_type n = n_type n' ∧ n_engine n = n_engine n' ∧ outlist n = outlist n' ∧ inlist n = inlist n'.
#[local] Instance same_shape_equiv : Equivalence same_shape.
Proof. unfold same_shape. split; red; naive_solver congruence. Qed.

(** ** The loop
    While engine [e] with the nodes [N] runs, from [g0], the nodes of [o] have been run and the
    edges of [R] are not satisfied. *)
Record running_but_pending e (N : list K) D g0 o R g : Prop := {
  rn_uns : ∀ k n, nodes g !! k = Some n → unsatisfied n = incoming k R;
  rn_done : ∀ k n, nodes g !! k = Some n → is_done n = bool_decide (k ∈ D ∨ k ∈ o);
  rn_wanted : ∀ k n, nodes g !! k = Some n → wanted n && negb (is_done n) = bool_decide (k ∈ N ∧ k ∉ D ∧ k ∉ o);
  rn_shape : ∀ k, option_Forall2 same_shape (nodes g0 !! k) (nodes g !! k);
  rn_engine : ∀ e', e_nodes (engine_of e' g) = e_nodes (engine_of e' g0);
  rn_other : ∀ e', e' ≠ e → e_pending (engine_of e' g) = [] }.
(** The nodes that wait are those that can be run next. *)
Record running e (N : list K) D g0 o R g : Prop := {
  rn_but : running_but_pending e N D g0 o R g;
  rn_nodup : NoDup (e_pending (engine_of e g));
  rn_pending : ∀ k, k ∈ e_pending (engine_of e g) ↔ k ∈ N ∧ k ∉ D ∧ k ∉ o ∧ incoming k R = 0 }.

Lemma pending_set e e' l g : e_pending (engine_of e' (set_pending e l g)) = if decide (e' = e) then l else e_pending (engine_of e' g).
Proof. by destruct e, e'. Qed.
Lemma nodes_set e e' l g : e_nodes (engine_of e' (set_pending e l g)) = e_nodes (engine_of e' g).
Proof. by destruct e, e'. Qed.
Lemma map_set e l g : nodes (set_pending e l g) = nodes g.
Proof. by destruct e. Qed.
Lemma engine_put e k n g : engine_of e (put_node k n g) = engine_of e g.
Proof. by destruct e. Qed.

Lemma running_perm e N D g0 o R R' g : R ≡ₚ R' → running e N D g0 o R g → running e N D g0 o R' g.
Proof.
  intros HR [[H1 H2 H3 H4 H5 H6] H7 H8]. split; [split; try done|done|].
  - intros k n Hn. rewrite <-(incoming_perm k R R' HR). by apply H1.
  - intros k. rewrite <-(incoming_perm k R R' HR). apply H8.
Qed.

(** One edge is satisfied. *)
Lemma satisfy_running e N D g0 o ed R g : running e N D g0 o (ed :: R) g → is_Some (nodes g0 !! target ed) →
  ∃ g', satisfy e ed g = Done g' ∧ running e N D g0 o R g'.
Proof.
  intros [[H1 H2 H3 H4 H5 H6] H7 H8] Hsome. set (t := target ed) in *.
  assert (∃ n, nodes g !! t = Some n) as [n Hn].
  { specialize (H4 t). destruct Hsome as [n0 E0]. rewrite E0 in H4. inversion H4. eauto. }
  assert (unsatisfied n = 1 + incoming t R) as Hu by (rewrite (H1 _ _ Hn), incoming_cons; by rewrite decide_True).
  pose proof (incoming_nonneg t R) as Hge.
  assert (∀ k, k ≠ t → incoming k (ed :: R) = incoming k R) as Hinc by (intros k Hk; rewrite incoming_cons, decide_False; [done|by intros <-]).
  unfold satisfy, get_node. fold t. rewrite Hn. cbn. destruct (Z.eqb_spec (unsatisfied n) 0); [lia|]. cbn.
  set (n' := set_unsatisfied (unsatisfied n - 1) n).
  change (wanted n && negb (is_done n)) with (wanted n' && negb (is_done n')).
  assert (wanted n' && negb (is_done n') = bool_decide (t ∈ N ∧ t ∉ D ∧ t ∉ o)) as Hw by apply (H3 _ _ Hn).
  replace (unsatisfied n - 1) with (incoming t R) by lia. rewrite Hw.
  set (g1 := put_node t n' g).
  assert (running_but_pending e N D g0 o R g1) as Hb.
  { split.
    - intros k m. unfold g1. simpl. destruct (decide (k = t)) as [->|Hk].
      + rewrite lookup_insert_eq. intros [= <-]. simpl. lia.
      + rewrite lookup_insert_ne by done. intros Hm. rewrite (H1 _ _ Hm). by apply Hinc.
    - intros k m. unfold g1. simpl. destruct (decide (k = t)) as [->|Hk].
      + rewrite lookup_insert_eq. intros [= <-]. apply (H2 _ _ Hn).
      + rewrite lookup_insert_ne by done. apply H2.
    - intros k m. unfold g1. simpl. destruct (decide (k = t)) as [->|Hk].
      + rewrite lookup_insert_eq. intros [= <-]. done.
      + rewrite lookup_insert_ne by done. apply H3.
    - intros k. unfold g1. simpl. destruct (decide (k = t)) as [->|Hk].
      + rewrite lookup_insert_eq. specialize (H4 t). rewrite Hn in H4. inversion H4 as [x y Hxy|]; subst. by constructor.
      + rewrite lookup_insert_ne by done. apply H4.
    - intros e'. unfold g1. rewrite engine_put. apply H5.
    - intros e'. unfold g1. rewrite engine_put. apply H6. }
  assert (e_pending (engine_of e g1) = e_pending (engine_of e g)) as Hp by (unfold g1; by rewrite engine_put).
  destruct (Z.eqb_spec (incoming t R) 0) as [E0|E0].
  - destruct (decide (t ∈ N ∧ t ∉ D ∧ t ∉ o)) as [Ht|Ht].
    + rewrite bool_decide_true by done. eexists. split; [reflexivity|]. unfold push_pending. rewrite Hp. split.
      * destruct Hb as [B1 B2 B3 B4 B5 B6]. split; rewrite ?map_set; try done.
        -- intros e'. rewrite nodes_set. apply B5.
        -- intros e' He'. rewrite pending_set, decide_False by done. by apply B6.
      * rewrite pending_set, decide_True by done. apply NoDup_app. split; [done|]. split; [|apply NoDup_singleton].
        intros k Hk ->%list_elem_of_singleton. apply H8 in Hk as (_ & _ & _ & Hz). rewrite incoming_cons, decide_True in Hz by done. lia.
      * intros k. rewrite pending_set, decide_True by done. rewrite elem_of_app, list_elem_of_singleton, H8.
        destruct (decide (k = t)) as [->|Hk].
        -- split; [intros _; by destruct Ht as (? & ? & ?)|by right].
        -- rewrite (Hinc k Hk). split; [by intros [?|?]|by left].
    + rewrite bool_decide_false by done. eexists. split; [reflexivity|]. split; [done|by rewrite Hp|].
      intros k. rewrite Hp, H8. destruct (decide (k = t)) as [->|Hk]; [naive_solver|by rewrite (Hinc k Hk)].
  - rewrite andb_false_r. eexists. split; [reflexivity|]. split; [done|by rewrite Hp|].
    intros k. rewrite Hp, H8. destruct (decide (k = t)) as [->|Hk]; [|by rewrite (Hinc k Hk)].
    rewrite incoming_cons, decide_True by done. split; intros (_ & _ & _ & Hz); lia.
Qed.
Lemma satisfy_all e N D g0 o l R g : running e N D g0 o (l ++ R) g → Forall (λ ed, is_Some (nodes g0 !! target ed)) l →
  ∃ g', each (satisfy e) l g = Done g' ∧ running e N D g0 o R g'.
Proof.
  intros Hr Hl. revert g Hr. induction Hl as [|ed l Hed Hl IH]; intros g Hr; [by exists g|].
  destruct (satisfy_running _ _ _ _ _ _ _ _ Hr Hed) as (g1 & E1 & Hr1). simpl. rewrite E1. by apply IH.
Qed.

Lemma open_edges_step D o k E : k ∉ D → k ∉ o → open_edges D o E ≡ₚ filter (λ ed, source ed = k) E ++ open_edges D (o ++ [k]) E.
Proof.
  intros HD Ho. unfold open_edges. induction E as [|ed E IH]; [done|]. rewrite !filter_cons.
  destruct (decide (source ed = k)) as [->|Hk].
  - rewrite decide_True by done. rewrite decide_False; [simpl; by constructor|]. intros [_ Hno]. apply Hno, elem_of_app. right. by left.
  - destruct (decide (source ed ∉ D ∧ source ed ∉ o)) as [[Hd Hn]|Hn].
    + rewrite decide_True; [rewrite <-Permutation_middle; by constructor|]. split; [done|].
      intros [?|?%list_elem_of_singleton]%elem_of_app; done.
    + rewrite decide_False; [done|]. intros [? Hno]. apply Hn. split; [done|]. intros ?. apply Hno, elem_of_app. by left.
Qed.

(** The first waiting node is marked as done; its edges are still to be satisfied. *)
Lemma pop_running e N D g0 o k rest n g E : k ∈ N → k ∉ D → k ∉ o → e_pending (engine_of e g) = k :: rest →
  running e N D g0 o (open_edges D o E) g → nodes g !! k = Some n →
  running e N D g0 (o ++ [k]) (filter (λ ed, source ed = k) E ++ open_edges D (o ++ [k]) E)
    (put_node k (set_done true n) (set_pending e rest g)).
Proof.
  intros HkN HkD Hko Ep [[H1 H2 H3 H4 H5 H6] Hnd Hpd] Hn. rewrite Ep in Hnd, Hpd. apply NoDup_cons in Hnd as [Hkr Hnd].
  assert (∀ x, x ≠ k → x ∈ o ++ [k] ↔ x ∈ o) as Hin by (intros x Hx; rewrite elem_of_app, list_elem_of_singleton; naive_solver).
  assert (k ∈ o ++ [k]) as Hkk by (apply elem_of_app; right; by left).
  assert (∀ x, incoming x (filter (λ ed, source ed = k) E ++ open_edges D (o ++ [k]) E) = incoming x (open_edges D o E)) as Hinc
    by (intros x; symmetry; by apply incoming_perm, open_edges_step).
  split; [split|..].
  - intros x m. rewrite Hinc. simpl. rewrite map_set. destruct (decide (x = k)) as [->|Hx].
    + rewrite lookup_insert_eq. intros [= <-]. apply (H1 _ _ Hn).
    + rewrite lookup_insert_ne by done. apply H1.
  - intros x m. simpl. rewrite map_set. destruct (decide (x = k)) as [->|Hx].
    + rewrite lookup_insert_eq. intros [= <-]. symmetry. apply bool_decide_eq_true. by right.
    + rewrite lookup_insert_ne by done. intros Hm. rewrite (H2 _ _ Hm). apply bool_decide_ext. by rewrite Hin.
  - intros x m. simpl. rewrite map_set. destruct (decide (x = k)) as [->|Hx].
    + rewrite lookup_insert_eq. intros [= <-]. simpl. rewrite andb_false_r. symmetry. apply bool_decide_eq_false. by intros (_ & _ & ?).
    + rewrite lookup_insert_ne by done. intros Hm. rewrite (H3 _ _ Hm). apply bool_decide_ext. by rewrite Hin.
  - intros x. simpl. rewrite map_set. destruct (decide (x = k)) as [->|Hx].
    + rewrite lookup_insert_eq. specialize (H4 k). rewrite Hn in H4. inversion H4 as [y z Hyz|]; subst. by constructor.
    + rewrite lookup_insert_ne by done. apply H4.
  - intros e'. rewrite engine_put, nodes_set. apply H5.
  - intros e' He'. rewrite engine_put, pending_set, decide_False by done. by apply H6.
  - by rewrite engine_put, pending_set, decide_True.
  - intros x. rewrite engine_put, pending_set, decide_True, Hinc by done. destruct (decide (x = k)) as [->|Hx].
    + split; [done|by intros (_ & _ & ? & _)].
    + rewrite Hin by done. rewrite <-Hpd. rewrite elem_of_cons. naive_solver.
Qed.

(** One node is run: it is new, all it needs has been run, and so is what comes after it. *)
Lemma run_one_running E D g0 e N o k rest g :
  consistent E D g0 → running e N D g0 o (open_edges D o E) g → e_pending (engine_of e g) = k :: rest → N = e_nodes (engine_of e g0) →
  k ∈ N ∧ k ∉ D ∧ k ∉ o ∧ (∀ ed, ed ∈ E → target ed = k → source ed ∈ D ∨ source ed ∈ o) ∧
  ∃ g', running e N D g0 (o ++ [k]) (open_edges D (o ++ [k]) E) g' ∧
    ∀ W (invoke : K → W → outcome W) w, run_one invoke e k (set_pending e rest g) w =
      (w' ← (if is_task g0 k then invoke k w else Done w); Done (g', w')).
Proof.
  intros Hc Hr Ep HN. assert (k ∈ N ∧ k ∉ D ∧ k ∉ o ∧ incoming k (open_edges D o E) = 0) as (HkN & HkD & Hko & Hz).
  { apply (rn_pending _ _ _ _ _ _ _ Hr). rewrite Ep. by left. }
  split; [done|]. split; [done|]. split; [done|]. split.
  { intros ed Hed Ht. destruct (decide (source ed ∈ D)); [by left|]. destruct (decide (source ed ∈ o)); [by right|]. exfalso.
    apply (proj1 (incoming_zero _ _) Hz ed); [|done]. by apply list_elem_of_filter. }
  destruct Hr as [[H1 H2 H3 H4 H5 H6] Hnd Hpd].
  assert (∃ n0, nodes g0 !! k = Some n0) as [n0 Hn0] by (rewrite HN in HkN; apply (ct_nodes _ _ _ Hc) in HkN as (n0 & ? & _); by exists n0).
  assert (∃ n, nodes g !! k = Some n ∧ same_shape n0 n) as (n & Hn & Hsh).
  { specialize (H4 k). rewrite Hn0 in H4. inversion H4; subst. eauto. }
  assert (outlist n = filter (λ ed, source ed = k) E) as Hout by (rewrite <-(proj1 (proj2 (proj2 Hsh))); by apply (ct_out _ _ _ Hc)).
  assert (wanted n && negb (is_done n) = true) as [Hw Hd]%andb_true_iff
    by (rewrite (H3 _ _ Hn); by apply bool_decide_eq_true).
  apply negb_true_iff in Hd.
  assert (Forall (λ ed, is_Some (nodes g0 !! target ed)) (filter (λ ed, source ed = k) E)) as Hall.
  { apply Forall_forall. intros ed [_ Hed]%list_elem_of_filter. by apply (ct_ends _ _ _ Hc). }
  destruct (satisfy_all e N D g0 (o ++ [k]) _ _ _
    (pop_running e N D g0 o k rest n g E HkN HkD Hko Ep (Build_running _ _ _ _ _ _ _ (Build_running_but_pending _ _ _ _ _ _ _ H1 H2 H3 H4 H5 H6) Hnd Hpd) Hn) Hall)
    as (g' & E1 & Hr').
  exists g'. split; [done|]. intros W invoke w. unfold run_one, get_node. rewrite map_set, Hn. cbn. rewrite Hw, Hd. cbn.
  unfold activate, is_task. rewrite Hn0, (proj1 Hsh). rewrite Hout, E1.
  by destruct (n_type n).
Qed.

(** ** A run of an engine *)
Definition good_order E D (N : list K) o : Prop := NoDup o ∧ in_order E D o ∧ ∀ k, k ∈ o → runnable E D N k.
Lemma runnable_new E D N k : runnable E D N k → k ∈ N ∧ k ∉ D.
Proof. by destruct 1. Qed.
Lemma good_order_length E D N o : good_order E D N o → (length o ≤ length N)%nat.
Proof. intros (Hnd & _ & Hr). apply submseteq_length, NoDup_submseteq; [done|]. intros k Hk. by eapply runnable_new, Hr. Qed.
Lemma good_snoc E D N o k : good_order E D N o → k ∈ N → k ∉ D → k ∉ o →
  (∀ ed, ed ∈ E → target ed = k → source ed ∈ D ∨ source ed ∈ o) → good_order E D N (o ++ [k]).
Proof.
  intros (Hnd & Hio & Hr) HkN HkD Hko Hpre. split; [|split].
  - apply NoDup_app. split; [done|]. split; [|apply NoDup_singleton]. by intros x Hx ->%list_elem_of_singleton.
  - intros i ed Hed [[Hi Ho]|[-> Ek]]%lookup_snoc_Some.
    + destruct (Hio i ed Hed Ho) as [?|(j & Hj & Ej)]; [by left|]. right. exists j. split; [done|]. by apply lookup_app_l_Some.
    + destruct (Hpre ed Hed (eq_sym Ek)) as [?|[j Ej]%list_elem_of_lookup]; [by left|]. right. exists j.
      split; [by eapply lookup_lt_Some|by apply lookup_app_l_Some].
  - intros x [Hx| ->%list_elem_of_singleton]%elem_of_app; [by apply Hr|]. split; [done|done|].
    intros ed Hed Ht Hs. destruct (Hpre ed Hed Ht); [done|by apply Hr].
Qed.

Lemma each_app {A S} (f : A → S → outcome S) l l' s : each f (l ++ l') s = (s' ← each f l s; each f l' s').
Proof. revert s. induction l as [|x l IH]; intros s; [done|]. simpl. destruct (f x s); simpl; [apply IH|done..]. Qed.

Lemma run_pending_running E D g0 e fuel : consistent E D g0 → let N := e_nodes (engine_of e g0) in
  ∀ o g, good_order E D N o → running e N D g0 o (open_edges D o E) g → (length N < length o + fuel)%nat →
  ∃ o' g', good_order E D N (o ++ o') ∧ running e N D g0 (o ++ o') (open_edges D (o ++ o') E) g' ∧ e_pending (engine_of e g') = [] ∧
    ∀ W (invoke : K → W → outcome W) w, run_pending invoke fuel e g w = (w' ← each invoke (tasks_in g0 o') w; Done (g', w')).
Proof.
  intros Hc N. induction fuel as [|fuel IH]; intros o g Ho Hr Hf.
  { pose proof (good_order_length _ _ _ _ Ho). lia. }
  destruct (e_pending (engine_of e g)) as [|k rest] eqn:Ep.
  - exists [], g. rewrite app_nil_r. split; [done|]. split; [done|]. split; [done|]. intros W invoke w. simpl. by rewrite Ep.
  - destruct (run_one_running _ _ _ _ _ _ _ _ _ Hc Hr Ep eq_refl) as (HkN & HkD & Hko & Hpre & g1 & Hr1 & E1).
    destruct (IH (o ++ [k]) g1) as (o' & g' & Ho' & Hr' & Ep' & E'); [by apply good_snoc|done|rewrite length_app; simpl; lia|].
    rewrite <-(assoc_L (++)) in Ho', Hr'. exists (k :: o'), g'. split; [done|]. split; [done|]. split; [done|].
    intros W invoke w. simpl. rewrite Ep, E1. unfold tasks_in. rewrite filter_cons.
    destruct (is_task g0 k); simpl.
    + destruct (invoke k w) as [w1| | | |]; simpl; [apply E'|done..].
    + apply E'.
Qed.

(** The two loops before, and the one after. *)
Lemma want_all l g : (∀ k, k ∈ l → is_Some (nodes g !! k)) → ∃ m,
  each want l g = Done (mk_graph m (presched g) (postsched g)) ∧
  ∀ k, m !! k = if decide (k ∈ l) then set_wanted true <$> nodes g !! k else nodes g !! k.
Proof.
  revert g. induction l as [|x l IH]; intros g Hl.
  - exists (nodes g). split; [by destruct g|]. intros k. by rewrite decide_False by apply not_elem_of_nil.
  - destruct (Hl x) as [n Hn]; [by left|].
    assert (want x g = Done (put_node x (set_wanted true n) g)) as E1 by (unfold want, get_node; by rewrite Hn).
    simpl. rewrite E1. cbn.
    destruct (IH (put_node x (set_wanted true n) g)) as (m & Em & Hm).
    { intros k Hk. simpl. destruct (decide (k = x)) as [->|Hkx]; [rewrite lookup_insert_eq; by eexists|].
      rewrite lookup_insert_ne by done. apply Hl. by right. }
    exists m. split; [exact Em|]. intros k. rewrite Hm. simpl. destruct (decide (k = x)) as [->|Hkx].
    + rewrite lookup_insert_eq, Hn. rewrite (decide_True (P := x ∈ x :: l)) by by left. by destruct (decide (x ∈ l)).
    + rewrite lookup_insert_ne by done. destruct (decide (k ∈ l)).
      * by rewrite decide_True by by right.
      * rewrite decide_False; [done|]. by intros [?|?]%elem_of_cons.
Qed.

Definition is_ready (m : gmap K (node K)) k : bool :=
  match m !! k with Some n => wanted n && negb (is_done n) && (unsatisfied n =? 0) | None => false end.
Lemma queue_all e l g : (∀ k, k ∈ l → is_Some (nodes g !! k)) →
  each (queue_if_ready e) l g = Done (set_pending e (e_pending (engine_of e g) ++ filter (λ k, is_ready (nodes g) k = true) l) g).
Proof.
  revert g. induction l as [|x l IH]; intros g Hl.
  - simpl. rewrite app_nil_r. by destruct g as [m [] []], e.
  - destruct (Hl x) as [n Hn]; [by left|].
    assert (queue_if_ready e x g = if negb (wanted n) || is_done n then Done g else
      if unsatisfied n =? 0 then Done (push_pending e x g) else Done g) as E1 by (unfold queue_if_ready, get_node; by rewrite Hn).
    simpl. rewrite E1. clear E1.
    assert (∀ k, k ∈ l → is_Some (nodes g !! k)) as Hl' by (intros k Hk; apply Hl; by right).
    assert (is_ready (nodes g) x = wanted n && negb (is_done n) && (unsatisfied n =? 0)) as Hx by (unfold is_ready; by rewrite Hn).
    rewrite filter_cons. destruct (wanted n), (is_done n); simpl in *;
      try (rewrite decide_False by by rewrite Hx); try by apply IH.
    destruct (unsatisfied n =? 0).
    + rewrite decide_True by done. rewrite outcome_bind_Done. rewrite IH by (unfold push_pending; by rewrite map_set).
      unfold push_pending. rewrite map_set, pending_set, decide_True, <-(assoc_L (++)) by done. by destruct g as [m [] []], e.
    + rewrite decide_False by by rewrite Hx. rewrite outcome_bind_Done. by apply IH.
Qed.

(** After the first two loops the engine is ready to run. *)
Lemma start_running E D g e : consistent E D g → let N := e_nodes (engine_of e g) in
  ∃ g1 g2, each want N g = Done g1 ∧ each (queue_if_ready e) N g1 = Done g2 ∧ running e N D g [] (open_edges D [] E) g2.
Proof.
  intros Hc N. assert (∀ k, k ∈ N → is_Some (nodes g !! k)) as HN.
  { intros k Hk. apply (ct_nodes _ _ _ Hc) in Hk as (n & Hn & _). by exists n. }
  destruct (want_all N g HN) as (m & E1 & Hm). set (g1 := mk_graph m (presched g) (postsched g)) in *.
  assert (∀ e, engine_of e g1 = engine_of e g) as He by by intros [].
  assert (∀ k n, m !! k = Some n → ∃ n0, nodes g !! k = Some n0 ∧ n = if decide (k ∈ N) then set_wanted true n0 else n0) as Hinv.
  { intros k n Hk. rewrite Hm in Hk. case_decide; [|by exists n]. apply fmap_Some in Hk as (n0 & ? & ->). by exists n0. }
  exists g1. eexists. split; [exact E1|]. split.
  { apply queue_all. intros k Hk. simpl. rewrite Hm, decide_True by done. destruct (HN k Hk) as [n ->]. by eexists. }
  rewrite He, (ct_idle _ _ _ Hc). simpl. split; [split|..]; rewrite ?map_set; simpl.
  - intros k n (n0 & Hn0 & ->)%Hinv. rewrite <-(ct_uns _ _ _ Hc _ _ Hn0). by case_decide.
  - intros k n (n0 & Hn0 & ->)%Hinv. transitivity (is_done n0); [by case_decide|]. rewrite (ct_done _ _ _ Hc _ _ Hn0).
    apply bool_decide_ext. split; [by left|]. by intros [?|?%elem_of_nil].
  - intros k n (n0 & Hn0 & ->)%Hinv. pose proof (ct_done _ _ _ Hc _ _ Hn0) as Hd. pose proof (ct_wanted _ _ _ Hc _ _ Hn0) as Hw.
    destruct (decide (k ∈ N)) as [HkN|HkN]; simpl.
    + rewrite Hd. destruct (decide (k ∈ D)).
      * rewrite (bool_decide_true (k ∈ D)) by done. symmetry. apply bool_decide_eq_false. by intros (_ & ? & _).
      * rewrite (bool_decide_false (k ∈ D)) by done. symmetry. apply bool_decide_eq_true. split; [done|]. split; [done|]. apply not_elem_of_nil.
    + rewrite (bool_decide_false (k ∈ N ∧ _)) by by intros (? & _). destruct (wanted n0); [|done].
      rewrite Hd, bool_decide_true by auto. done.
  - intros k. rewrite Hm. destruct (nodes g !! k); simpl; [|case_decide; constructor]. case_decide; by constructor.
  - intros e'. by rewrite nodes_set, He.
  - intros e' He'. rewrite pending_set, decide_False, He by done. apply (ct_idle _ _ _ Hc).
  - rewrite pending_set, decide_True by done. apply NoDup_filter, (ct_nodup _ _ _ Hc).
  - intros k. rewrite pending_set, decide_True by done. rewrite list_elem_of_filter. unfold is_ready. simpl. rewrite Hm.
    destruct (decide (k ∈ N)) as [HkN|HkN]; [|naive_solver]. destruct (HN k HkN) as [n0 Hn0]. rewrite Hn0. simpl.
    rewrite (ct_done _ _ _ Hc _ _ Hn0), (ct_uns _ _ _ Hc _ _ Hn0). rewrite andb_true_iff, negb_true_iff, bool_decide_eq_false, Z.eqb_eq.
    pose proof (not_elem_of_nil k). naive_solver.
Qed.

Lemma count_unreached_all g D o N l c : (∀ k, k ∈ l → k ∈ N ∧ is_Some (nodes g !! k)) →
  (∀ k n, nodes g !! k = Some n → wanted n && negb (is_done n) = bool_decide (k ∈ N ∧ k ∉ D ∧ k ∉ o)) →
  0 ≤ c → c + Z.of_nat (length l) < 2 ^ 32 →
  each count_unreached l (g, c) = Done (g, c + Z.of_nat (length (filter (λ k, k ∉ D ∧ k ∉ o) l))).
Proof.
  intros Hl Hw. revert c. induction l as [|x l IH]; intros c Hc Hlen; [by rewrite Z.add_0_r|].
  destruct (Hl x) as (HxN & n & Hn); [by left|]. cbn [length] in Hlen.
  assert (count_unreached x (g, c) = if bool_decide (x ∈ N ∧ x ∉ D ∧ x ∉ o) then Done (g, w32 (c + 1)) else Done (g, c)) as E1.
  { rewrite <-(Hw x n Hn). unfold count_unreached, get_node. simpl. rewrite Hn. simpl. by destruct (wanted n), (is_done n). }
  simpl each. rewrite E1. clear E1. rewrite filter_cons.
  destruct (decide (x ∉ D ∧ x ∉ o)) as [Hx|Hx].
  - rewrite bool_decide_true by done. rewrite outcome_bind_Done. rewrite w32_small by lia.
    rewrite IH by (lia || (intros; apply Hl; by right)). do 2 f_equal. simpl length. lia.
  - rewrite bool_decide_false by tauto. rewrite outcome_bind_Done. apply IH; [intros; apply Hl; by right|done|lia].
Qed.

(** Another graph with the same nodes and edges. *)
Definition same_graph g g' : Prop :=
  (∀ k, option_Forall2 same_shape (nodes g !! k) (nodes g' !! k)) ∧ ∀ e, e_nodes (engine_of e g') = e_nodes (engine_of e g).
Lemma finished_consistent E D g0 e o g : let N := e_nodes (engine_of e g0) in
  consistent E D g0 → running e N D g0 o (open_edges D o E) g → e_pending (engine_of e g) = [] → (∀ k, k ∈ N → k ∈ D ∨ k ∈ o) →
  consistent E (list_to_set o ∪ D) g.
Proof.
  intros N Hc [[H1 H2 H3 H4 H5 H6] H7 H8] Ep Hall.
  assert (∀ k, k ∈ (list_to_set o ∪ D : gset K) ↔ k ∈ D ∨ k ∈ o) as Hin by (intros k; rewrite elem_of_union, elem_of_list_to_set; tauto).
  assert (∀ k n, nodes g !! k = Some n → ∃ n0, nodes g0 !! k = Some n0 ∧ same_shape n0 n) as Hsh.
  { intros k n Hn. specialize (H4 k). rewrite Hn in H4. inversion H4; subst. eauto. }
  assert (∀ k, is_Some (nodes g0 !! k) → is_Some (nodes g !! k)) as Hsome.
  { intros k [n0 Hn]. specialize (H4 k). rewrite Hn in H4. inversion H4; subst. eauto. }
  split.
  - intros k n Hn. rewrite (H1 _ _ Hn). unfold open_edges. f_equal. apply list_filter_iff. intros ed. rewrite Hin.
    pose proof (not_elem_of_nil (source ed)). tauto.
  - intros k n Hn. rewrite (H2 _ _ Hn). apply bool_decide_ext. by rewrite Hin.
  - intros k n Hn Hw. rewrite Hin. pose proof (H3 _ _ Hn) as E3. rewrite Hw in E3. simpl in E3.
    destruct (is_done n) eqn:Ed; [rewrite (H2 _ _ Hn) in Ed; by apply bool_decide_eq_true in Ed|].
    simpl in E3. symmetry in E3. apply bool_decide_eq_true in E3 as (HN & _). by apply Hall.
  - intros k n Hn. destruct (Hsh _ _ Hn) as (n0 & Hn0 & _ & _ & Ho & _). rewrite <-Ho. by apply (ct_out _ _ _ Hc).
  - intros ed Hed. destruct (ct_ends _ _ _ Hc ed Hed). auto.
  - intros e'. rewrite H5. apply (ct_nodup _ _ _ Hc).
  - intros e' k. rewrite H5, (ct_nodes _ _ _ Hc). split.
    + intros (n0 & Hn0 & <-). specialize (H4 k). rewrite Hn0 in H4. inversion H4 as [x y Hxy Ex Ey|]; subst. exists y. split; [done|]. by destruct Hxy as (_ & -> & _).
    + intros (n & Hn & <-). destruct (Hsh _ _ Hn) as (n0 & Hn0 & _ & He & _). by exists n0.
  - intros e'. destruct (decide (e' = e)) as [->|He]; [done|by apply H6].
Qed.

(** At the end everything that can be run has been run. *)
Lemma finished_runnable E D g0 e o g k : let N := e_nodes (engine_of e g0) in
  running e N D g0 o (open_edges D o E) g → e_pending (engine_of e g) = [] → runnable E D N k → k ∈ o.
Proof.
  intros N Hr Ep. induction 1 as [k HkN HkD _ IH]. destruct (decide (k ∈ o)) as [|Hk]; [done|exfalso].
  assert (k ∈ e_pending (engine_of e g)) as Hp; [|rewrite Ep in Hp; by apply elem_of_nil in Hp].
  apply (rn_pending _ _ _ _ _ _ _ Hr). split; [done|]. split; [done|]. split; [done|]. apply incoming_zero.
  intros ed [[Hs Ho] Hed]%list_elem_of_filter Ht. by apply Ho, (IH ed).
Qed.

(** What running engine [e] does to a consistent graph: it runs, once and in an order that respects
    the edges, exactly the nodes that can be run.  When that is all of them it returns with
    a consistent graph, and otherwise it panics. *)
Lemma run_spec E D g e : consistent E D g → let N := e_nodes (engine_of e g) in Z.of_nat (length N) < 2 ^ 32 →
  ∃ o, NoDup o ∧ (∀ k, k ∈ o ↔ runnable E D N k) ∧ in_order E D o ∧
    ((∀ k, k ∈ N → k ∉ D → runnable E D N k) → ∃ g', consistent E (list_to_set o ∪ D) g' ∧ same_graph g g' ∧
      ∀ W (invoke : K → W → outcome W) w, run invoke e g w = (w' ← each invoke (tasks_in g o) w; Done (g', w'))) ∧
    (∀ k, k ∈ N → k ∉ D → ¬ runnable E D N k →
      ∀ W (invoke : K → W → outcome W) w, run invoke e g w = (w' ← each invoke (tasks_in g o) w; Panic)).
Proof.
  intros Hc N Hlen. destruct (start_running E D g e Hc) as (g1 & g2 & E1 & E2 & Hr). fold N in E1, E2, Hr.
  destruct (run_pending_running E D g e (S (length N)) Hc [] g2) as (o & g' & Ho & Hr' & Ep & E3); [|done|unfold N; simpl; lia|].
  { split; [constructor|]. split; [by intros i ed _|]. by intros k ?%elem_of_nil. }
  fold N in Ho, Hr'. simpl in Ho, Hr'. exists o. destruct Ho as (Hnd & Hio & Hrun). split; [done|].
  assert (∀ k, k ∈ o ↔ runnable E D N k) as Hiff by (intros k; split; [apply Hrun|by eapply finished_runnable]).
  split; [done|]. split; [done|].
  assert (∀ W (invoke : K → W → outcome W) w, run invoke e g w = (w' ← each invoke (tasks_in g o) w;
     if decide (length (filter (λ k, k ∉ D ∧ k ∉ o) N) = 0%nat) then Done (g', w') else Panic)) as Hgo.
  { intros W invoke w. unfold run. fold N. rewrite E1, outcome_bind_Done, E2, outcome_bind_Done, E3.
    destruct (each invoke (tasks_in g o) w) as [w'| | | |]; [|done..]. rewrite !outcome_bind_Done.
    rewrite (count_unreached_all g' D o N N 0).
    - rewrite outcome_bind_Done. simpl snd. destruct (decide _) as [->|Hne]; [done|]. by destruct (Z.eqb_spec (0 + Z.of_nat (length (filter (λ k, k ∉ D ∧ k ∉ o) N))) 0); [lia|].
    - intros k Hk. split; [done|]. apply (ct_nodes _ _ _ Hc) in Hk as (n & Hn & _). pose proof (rn_shape _ _ _ _ _ _ _ (rn_but _ _ _ _ _ _ _ Hr') k) as Hsh.
      rewrite Hn in Hsh. inversion Hsh. eauto.
    - apply (rn_wanted _ _ _ _ _ _ _ (rn_but _ _ _ _ _ _ _ Hr')).
    - done.
    - lia. }
  pose proof (length_filter_zero (λ k, k ∉ D ∧ k ∉ o) N) as Hz. destruct (decide _) as [Hl|Hl].
  - split.
    + intros Hall. exists g'. split; [|split; [|done]]; [|split; apply Hr'].
      eapply finished_consistent; try done. intros k Hk. destruct (decide (k ∈ D)); [by left|]. right. by apply Hiff, Hall.
    + intros k HkN HkD Hno. exfalso. apply (proj1 Hz Hl k HkN). split; [done|]. by rewrite Hiff.
  - split; [|done]. intros Hall. exfalso. apply Hl, Hz. intros k Hk [HkD Hko]. by apply Hko, Hiff, Hall.
Qed.

(** ** Building the graph *)
Definition kind g k : option (node_type * engine_id) := (λ n, (n_type n, n_engine n)) <$> nodes g !! k.
Lemma kind_some g k : is_Some (nodes g !! k) ↔ is_Some (kind g k).
Proof. unfold kind. by rewrite fmap_is_Some. Qed.

Lemma make_node_nodes ty e k g : nodes (make_node ty e k g) = <[k := mk_node ty e [] [] false false 0]> (nodes g).
Proof. by destruct e. Qed.
Lemma make_node_listed ty e k e' g :
  e_nodes (engine_of e' (make_node ty e k g)) = e_nodes (engine_of e' g) ++ if decide (e' = e) then [k] else [].
Proof. destruct e, e'; simpl; by rewrite ?app_nil_r. Qed.
Lemma make_node_pending ty e k e' g : e_pending (engine_of e' (make_node ty e k g)) = e_pending (engine_of e' g).
Proof. by destruct e, e'. Qed.
Lemma make_node_kind ty e k g k' : kind (make_node ty e k g) k' = if decide (k' = k) then Some (ty, e) else kind g k'.
Proof.
  unfold kind. rewrite make_node_nodes. destruct (decide (k' = k)) as [->|]; [by rewrite lookup_insert_eq|by rewrite lookup_insert_ne].
Qed.

Lemma make_node_consistent E ty e k g : consistent E ∅ g → nodes g !! k = None → consistent E ∅ (make_node ty e k g).
Proof.
  intros [H1 H2 H3 H4 H5 H6 H7 H8] Hk.
  assert (∀ ed, ed ∈ E → source ed ≠ k ∧ target ed ≠ k) as Hne.
  { intros ed Hed. destruct (H5 ed Hed) as [[? Hs] [? Ht]]. split; congruence. }
  split; try (intros k' n; rewrite make_node_nodes; destruct (decide (k' = k)) as [->|Hkk];
    [rewrite lookup_insert_eq; intros [= <-]; simpl|rewrite lookup_insert_ne by done; eauto]).
  - symmetry. apply incoming_zero. intros ed [_ Hed]%list_elem_of_filter. by apply Hne.
  - done.
  - done.
  - symmetry. apply length_zero_iff_nil, length_filter_zero. intros ed Hed. by apply Hne.
  - intros ed Hed. rewrite make_node_nodes. destruct (Hne ed Hed). rewrite !lookup_insert_ne by done. by apply H5.
  - intros e'. rewrite make_node_listed. destruct (decide (e' = e)); [|by rewrite app_nil_r].
    apply NoDup_app. split; [done|]. split; [|apply NoDup_singleton]. intros x Hx ->%list_elem_of_singleton. apply H7 in Hx as (n & Hn & _). congruence.
  - intros e' k'. rewrite make_node_listed, make_node_nodes, elem_of_app, H7. destruct (decide (k' = k)) as [->|Hkk].
    + rewrite lookup_insert_eq. split.
      * intros [(n & Hn & _)|Hin]; [congruence|]. eexists. split; [done|]. simpl. destruct (decide (e' = e)); [done|by apply elem_of_nil in Hin].
      * intros (n & [= <-] & He). right. simpl in He. rewrite decide_True by done. by left.
    + rewrite lookup_insert_ne by done. split; [|by left]. intros [?|Hin]; [done|]. destruct (decide (e' = e)); [|by apply elem_of_nil in Hin].
      by apply list_elem_of_singleton in Hin.
  - intros e'. rewrite make_node_pending. apply H8.
Qed.

Lemma stage_ref_spec E st g : consistent E ∅ g → (∀ x, kind g st.1 = Some x → x = (StageNode, st.2)) →
  ∃ g', stage_ref st g = Done g' ∧ consistent E ∅ g' ∧
    ∀ k x, kind g' k = Some x ↔ kind g k = Some x ∨ k = st.1 ∧ x = (StageNode, st.2).
Proof.
  intros Hc Hst. unfold stage_ref. destruct (decide (is_Some (nodes g !! st.1))) as [Hs|Hs].
  - rewrite bool_decide_true by done. exists g. split; [done|]. split; [done|]. intros k x. split; [by left|].
    intros [?|[-> ->]]; [done|]. apply kind_some in Hs as [y Hy]. by rewrite <-(Hst y Hy).
  - rewrite bool_decide_false by done. eexists. split; [done|]. apply eq_None_not_Some in Hs.
    split; [by apply make_node_consistent|]. intros k x. rewrite make_node_kind. destruct (decide (k = st.1)) as [->|Hk].
    + assert (kind g st.1 = None) as -> by (unfold kind; by rewrite Hs). naive_solver.
    + naive_solver.
Qed.
Lemma stage_refs_spec E l g : consistent E ∅ g → (∀ st x, st ∈ l → kind g st.1 = Some x → x = (StageNode, st.2)) →
  (∀ st st', st ∈ l → st' ∈ l → st.1 = st'.1 → st = st') →
  ∃ g', each stage_ref l g = Done g' ∧ consistent E ∅ g' ∧
    ∀ k x, kind g' k = Some x ↔ kind g k = Some x ∨ ∃ st, st ∈ l ∧ k = st.1 ∧ x = (StageNode, st.2).
Proof.
  revert g. induction l as [|st l IH]; intros g Hc Hk Hf.
  - exists g. split; [done|]. split; [done|]. intros k x. split; [by left|]. by intros [?|(st & ?%elem_of_nil & _)].
  - destruct (stage_ref_spec E st g Hc) as (g1 & E1 & Hc1 & Hk1); [intros x; apply Hk; by left|].
    destruct (IH g1 Hc1) as (g2 & E2 & Hc2 & Hk2).
    + intros st' x Hin [Hx|[Es ->]]%Hk1; [apply Hk; [by right|done]|].
      f_equal. rewrite (Hf st st'); [done|by left|by right|done].
    + intros st1 st2 ? ?. apply Hf; by right.
    + exists g2. simpl. rewrite E1. split; [done|]. split; [done|]. intros k x. rewrite Hk2, Hk1. setoid_rewrite elem_of_cons. naive_solver.
Qed.

(** What a new edge does to a node. *)
Definition with_edge ed k n : node K :=
  mk_node (n_type n) (n_engine n) (if decide (source ed = k) then outlist n ++ [ed] else outlist n)
    (if decide (target ed = k) then inlist n ++ [ed] else inlist n) (wanted n) (is_done n)
    (if decide (target ed = k) then w32 (unsatisfied n + 1) else unsatisfied n).
Lemma realise_edge_nodes ed g : is_Some (nodes g !! source ed) → is_Some (nodes g !! target ed) →
  ∃ m, realise_edge ed g = Done (mk_graph m (presched g) (postsched g)) ∧ ∀ k, m !! k = with_edge ed k <$> nodes g !! k.
Proof.
  destruct ed as [a b]. simpl. intros [ns Hs] [nt Ht]. unfold realise_edge, get_node. simpl. rewrite Hs. cbn.
  destruct (decide (b = a)) as [->|Hne].
  - rewrite lookup_insert_eq. cbn. rewrite lookup_insert_eq. cbn. eexists. split; [reflexivity|].
    intros k. cbn [nodes put_node]. destruct (decide (k = a)) as [->|Hk].
    + rewrite lookup_insert_eq, Hs. simpl. unfold with_edge. simpl. rewrite !decide_True by done. by destruct ns.
    + rewrite !lookup_insert_ne by done. destruct (nodes g !! k) as [[]|]; [|done]. unfold with_edge. simpl.
      rewrite !decide_False by congruence. done.
  - rewrite lookup_insert_ne by done. rewrite Ht. cbn. rewrite lookup_insert_eq. cbn. eexists. split; [reflexivity|].
    intros k. cbn [nodes put_node]. destruct (decide (k = b)) as [->|Hk].
    + rewrite lookup_insert_eq, Ht. simpl. unfold with_edge. simpl. rewrite decide_False, !decide_True by congruence. by destruct nt.
    + rewrite !(lookup_insert_ne _ b) by done. destruct (decide (k = a)) as [->|Hk'].
      * rewrite lookup_insert_eq, Hs. simpl. unfold with_edge. simpl. rewrite decide_True, !decide_False by congruence. by destruct ns.
      * rewrite lookup_insert_ne by done. destruct (nodes g !! k) as [[]|]; [|done]. unfold with_edge. simpl.
        rewrite !decide_False by congruence. done.
Qed.

Lemma realise_edge_spec E ed g : consistent E ∅ g → Z.of_nat (length E) + 1 < 2 ^ 32 →
  is_Some (kind g (source ed)) → is_Some (kind g (target ed)) →
  ∃ g', realise_edge ed g = Done g' ∧ consistent (E ++ [ed]) ∅ g' ∧ ∀ k, kind g' k = kind g k.
Proof.
  intros [H1 H2 H3 H4 H5 H6 H7 H8] Hlen Hs%kind_some Ht%kind_some. destruct (realise_edge_nodes ed g Hs Ht) as (m & Em & Hm).
  assert (∀ k n, m !! k = Some n → ∃ n0, nodes g !! k = Some n0 ∧ n = with_edge ed k n0) as Hinv.
  { intros k n Hk. rewrite Hm in Hk. apply fmap_Some in Hk as (n0 & ? & ->). by exists n0. }
  assert (∀ k, is_Some (nodes g !! k) → is_Some (m !! k)) as Hsome by (intros k [n Hn]; rewrite Hm, Hn; by eexists).
  assert (∀ e, engine_of e (mk_graph m (presched g) (postsched g)) = engine_of e g) as He by by intros [].
  eexists. split; [exact Em|]. split.
  - split; simpl; try setoid_rewrite He; try done.
    + intros k n (n0 & Hn0 & ->)%Hinv. simpl. rewrite (H1 _ _ Hn0), open_edges_snoc, incoming_snoc.
      pose proof (incoming_open_le k ∅ [] E). pose proof (incoming_nonneg k (open_edges ∅ [] E)).
      destruct (decide (target ed = k)); [rewrite w32_small|]; lia.
    + intros k n (n0 & Hn0 & ->)%Hinv. simpl. apply (H2 _ _ Hn0).
    + intros k n (n0 & Hn0 & ->)%Hinv. simpl. apply (H3 _ _ Hn0).
    + intros k n (n0 & Hn0 & ->)%Hinv. simpl. rewrite (H4 _ _ Hn0), filter_app, filter_cons. destruct (decide (source ed = k)); [done|by rewrite app_nil_r].
    + intros ed' [Hed'| ->%list_elem_of_singleton]%elem_of_app; [destruct (H5 _ Hed')|]; auto.
    + intros e k. rewrite H7, Hm. destruct (nodes g !! k) as [n|]; simpl; [|naive_solver]. split; intros (n' & [= <-] & <-); by eexists.
  - intros k. unfold kind. simpl. rewrite Hm. by destruct (nodes g !! k).
Qed.
Lemma realise_edges_spec E l g : consistent E ∅ g → Z.of_nat (length (E ++ l)) < 2 ^ 32 →
  (∀ ed, ed ∈ l → is_Some (kind g (source ed)) ∧ is_Some (kind g (target ed))) →
  ∃ g', each realise_edge l g = Done g' ∧ consistent (E ++ l) ∅ g' ∧ ∀ k, kind g' k = kind g k.
Proof.
  revert E g. induction l as [|ed l IH]; intros E g Hc Hlen Hl; [exists g; by rewrite app_nil_r|].
  rewrite length_app in Hlen. simpl in Hlen.
  destruct (realise_edge_spec E ed g Hc) as (g1 & E1 & Hc1 & Hk1); [lia|apply Hl; by left..|].
  destruct (IH (E ++ [ed]) g1 Hc1) as (g2 & E2 & Hc2 & Hk2).
  - rewrite !length_app. simpl. lia.
  - intros ed' Hed'. rewrite !Hk1. apply Hl. by right.
  - exists g2. simpl. rewrite E1. rewrite <-(assoc_L (++)) in Hc2. split; [done|]. split; [done|]. intros k. by rewrite Hk2.
Qed.

(** ** The definitions of tasks *)
Definition task_edges (t : task K) : list (edge K) :=
  map (λ s, mk_edge s (t_name t)) (map fst (t_require t)) ++ map (λ s, mk_edge (t_name t) s) (map fst (t_entail t)).
Definition edges_of (ts : list (task K)) : list (edge K) := concat (map task_edges ts).
Definition stages_of (t : task K) : list (K * engine_id) := t_require t ++ t_entail t.
Definition declared (ts : list (task K)) k (x : node_type * engine_id) : Prop :=
  (∃ t, t ∈ ts ∧ k = t_name t ∧ x = (TaskNode, t_engine t)) ∨
  (∃ t st, t ∈ ts ∧ st ∈ stages_of t ∧ k = st.1 ∧ x = (StageNode, st.2)).

Definition names_of (ts : list (task K)) : list K := concat (map (λ t, t_name t :: map fst (stages_of t)) ts).
(** Names belong to one node. *)
Record valid (ts : list (task K)) : Prop := {
  vl_tasks : NoDup (map t_name ts);
  vl_stages : ∀ t st t' st', t ∈ ts → t' ∈ ts → st ∈ stages_of t → st' ∈ stages_of t' → st.1 = st'.1 → st = st';
  vl_apart : ∀ t t' st, t ∈ ts → t' ∈ ts → st ∈ stages_of t → st.1 ≠ t_name t';
  vl_small : Z.of_nat (length (edges_of ts)) < 2 ^ 32;
  vl_few : Z.of_nat (length (names_of ts)) < 2 ^ 32 }.
Definition built (ts : list (task K)) g : Prop :=
  consistent (edges_of ts) ∅ g ∧ ∀ k x, kind g k = Some x ↔ declared ts k x.

Lemma define_task_spec ts t g : valid (ts ++ [t]) → built ts g → ∃ g', define_task t g = Done g' ∧ built (ts ++ [t]) g'.
Proof.
  intros [Hn Hs Ha Hl _] [Hc Hk]. assert (∀ t', t' ∈ ts → t' ∈ ts ++ [t]) as Hts by (intros; apply elem_of_app; by left).
  assert (t ∈ ts ++ [t]) as Ht by (apply elem_of_app; right; by left).
  assert (∀ t', t' ∈ ts ++ [t] ↔ t' ∈ ts ∨ t' = t) as Hin by (intros; by rewrite elem_of_app, list_elem_of_singleton).
  assert (∀ l, (∀ st, st ∈ l → st ∈ stages_of t) → ∀ g1, consistent (edges_of ts) ∅ g1 →
    (∀ k x, kind g1 k = Some x → declared ts k x ∨ ∃ st, st ∈ stages_of t ∧ k = st.1 ∧ x = (StageNode, st.2)) →
    ∃ g2, each stage_ref l g1 = Done g2 ∧ consistent (edges_of ts) ∅ g2 ∧
      ∀ k x, kind g2 k = Some x ↔ kind g1 k = Some x ∨ ∃ st, st ∈ l ∧ k = st.1 ∧ x = (StageNode, st.2)) as Hrefs.
  { intros l Hsub g1 Hc1 Hk1. apply stage_refs_spec; [done| |].
    - intros st x Hst [[(t' & Ht' & E1 & ->)|(t' & st' & Ht' & Hst' & E1 & ->)]|(st' & Hst' & E1 & ->)]%Hk1.
      + destruct (Ha t t' st); auto.
      + f_equal. f_equal. apply (Hs t' st' t st); auto.
      + f_equal. f_equal. apply (Hs t st' t st); auto.
    - intros st st' ? ?. apply (Hs t st t st'); auto. }
  destruct (Hrefs (t_require t)) with (g1 := g) as (g1 & E1 & Hc1 & Hk1); [intros; apply elem_of_app; by left|done|naive_solver|].
  destruct (Hrefs (t_entail t)) with (g1 := g1) as (g2 & E2 & Hc2 & Hk2); [intros; apply elem_of_app; by right|done| |].
  { intros k x [Hx%Hk|(st & ? & ? & ?)]%Hk1; [by left|]. right. exists st. split; [apply elem_of_app; by left|done]. }
  assert (∀ k x, kind g2 k = Some x ↔ declared ts k x ∨ ∃ st, st ∈ stages_of t ∧ k = st.1 ∧ x = (StageNode, st.2)) as Hk2'.
  { intros k x. rewrite Hk2, Hk1, Hk. unfold stages_of. setoid_rewrite elem_of_app. naive_solver. }
  assert (nodes g2 !! t_name t = None) as Hfresh.
  { apply eq_None_not_Some. intros [[ty e] Hx]%kind_some. apply Hk2' in Hx as [[(t' & Ht' & Et & _)|(t' & st & Ht' & Hst & Et & _)]|(st & Hst & Et & _)].
    - rewrite map_app in Hn. apply NoDup_app in Hn as (_ & Hd & _). apply (Hd (t_name t')); [by apply list_elem_of_fmap_2|rewrite <-Et; by left].
    - by apply (Ha t' t st); auto.
    - by apply (Ha t t st); auto. }
  unfold define_task. rewrite E1, outcome_bind_Done, E2, outcome_bind_Done. unfold make_task. rewrite <-each_app. fold (task_edges t).
  assert (∀ x k, kind (make_node TaskNode (t_engine t) (t_name t) g2) k = Some x ↔ declared (ts ++ [t]) k x) as Hk3.
  { intros x k. rewrite make_node_kind. destruct (decide (k = t_name t)) as [->|Hne].
    - split; [intros [= <-]; left; exists t; auto|]. intros [(t' & Ht' & Et & ->)|(t' & st & Ht' & Hst & Et & _)].
      + apply Hin in Ht' as [Ht'| ->]; [|done]. exfalso. rewrite map_app in Hn. apply NoDup_app in Hn as (_ & Hd & _).
        apply (Hd (t_name t')); [by apply list_elem_of_fmap_2|rewrite <-Et; by left].
      + exfalso. by apply (Ha t' t st).
    - rewrite Hk2'. split.
      + intros [[(t' & ? & ?)|(t' & st & ? & ?)]|(st & ?)]; [left; exists t'|right; exists t', st|right; exists t, st]; auto.
      + intros [(t' & [Ht'| ->]%Hin & Et & ?)|(t' & st & [Ht'| ->]%Hin & ?)]; [|done|..].
        * left. left. by exists t'.
        * left. right. by exists t', st.
        * right. by exists st. }
  destruct (realise_edges_spec (edges_of ts) (task_edges t) (make_node TaskNode (t_engine t) (t_name t) g2)) as (g3 & E3 & Hc3 & Hk4).
  - by apply make_node_consistent.
  - unfold edges_of in Hl. rewrite map_app, concat_app in Hl. simpl in Hl. by rewrite app_nil_r in Hl.
  - intros ed Hed. assert (∀ st, st ∈ stages_of t → is_Some (kind (make_node TaskNode (t_engine t) (t_name t) g2) st.1)) as Hst.
    { intros st Hst. exists (StageNode, st.2). apply Hk3. right. exists t, st. auto. }
    assert (is_Some (kind (make_node TaskNode (t_engine t) (t_name t) g2) (t_name t))) as Hself.
    { rewrite make_node_kind, decide_True by done. by eexists. }
    unfold task_edges in Hed. rewrite !map_map in Hed. apply elem_of_app in Hed as [(st & -> & Hi)%list_elem_of_fmap|(st & -> & Hi)%list_elem_of_fmap]; simpl;
      (split; [|done]) || (split; [done|]); apply Hst, elem_of_app; auto.
  - exists g3. split; [done|]. split.
    + unfold edges_of. rewrite map_app, concat_app. simpl. by rewrite app_nil_r.
    + intros k x. rewrite Hk4. apply Hk3.
Qed.
Lemma valid_prefix ts t : valid (ts ++ [t]) → valid ts.
Proof.
  intros [Hn Hs Ha Hl Hf]. assert (∀ t', t' ∈ ts → t' ∈ ts ++ [t]) as Hts by (intros; apply elem_of_app; by left). split.
  - rewrite map_app in Hn. by apply NoDup_app in Hn as (? & _).
  - intros t1 st t2 st' ? ? ? ?. apply (Hs t1 st t2 st'); auto.
  - intros t1 t2 st ? ? ?. apply (Ha t1 t2 st); auto.
  - unfold edges_of in *. rewrite map_app, concat_app, length_app in Hl. lia.
  - unfold names_of in *. rewrite map_app, concat_app, length_app in Hf. lia.
Qed.
Lemma build_spec ts : valid ts → ∃ g, build ts = Done g ∧ built ts g.
Proof.
  induction ts as [|t ts IH] using rev_ind; intros Hv.
  - exists empty_graph. split; [done|]. split.
    + split; try (intros k n; simpl; by rewrite lookup_empty); [by intros ed ?%elem_of_nil|..].
      * intros []; constructor.
      * intros e k. destruct e; simpl; (split; [by intros ?%elem_of_nil|]); intros (n & Hn & _); by rewrite lookup_empty in Hn.
      * by intros [].
    + intros k x. split; [unfold kind; simpl; by rewrite lookup_empty|]. intros [(t & Ht%elem_of_nil & _)|(t & st & Ht%elem_of_nil & _)]; done.
  - destruct (IH (valid_prefix _ _ Hv)) as (g & E1 & Hb). destruct (define_task_spec ts t g Hv Hb) as (g' & E2 & Hb').
    exists g'. split; [|done]. unfold build. rewrite each_app. unfold build in E1. rewrite E1. simpl. by rewrite E2.
Qed.

(** Nodes whose needs have smaller numbers can be run. *)
Lemma ranked_runnable (rank : K → nat) E D N :
  (∀ ed, ed ∈ E → target ed ∈ N → source ed ∉ D → source ed ∈ N ∧ (rank (source ed) < rank (target ed))%nat) →
  ∀ k, k ∈ N → k ∉ D → runnable E D N k.
Proof.
  intros Hr k. induction (well_founded_ltof _ rank k) as [k _ IH]. intros HkN HkD. split; [done|done|].
  intros ed Hed <- HsD. destruct (Hr ed Hed HkN HsD) as [HsN Hlt]. by apply IH.
Qed.
(** A node that needs itself, or another one that can not be run, can not be run. *)
Lemma cycle_not_runnable E D N (C : K → Prop) : (∀ k, C k → ∃ ed, ed ∈ E ∧ target ed = k ∧ source ed ∉ D ∧ C (source ed)) →
  ∀ k, C k → ¬ runnable E D N k.
Proof. intros HC k Hk Hr. induction Hr as [k _ _ _ IH]. destruct (HC k Hk) as (ed & Hed & Ht & HsD & HsC). by eapply IH. Qed.

(** ** Both engines *)
(** In a list one element comes before another. *)
Definition before o a b : Prop := ∃ l1 l2 l3, o = l1 ++ a :: l2 ++ b :: l3.
Lemma before_lookup o i j a b : o !! i = Some a → o !! j = Some b → (i < j)%nat → before o a b.
Proof.
  intros Ha Hb Hij. exists (take i o), (take (j - S i) (drop (S i) o)), (drop (S (j - S i)) (drop (S i) o)).
  assert (drop (S i) o !! (j - S i)%nat = Some b) as Hb' by (rewrite lookup_drop; by replace (S i + (j - S i))%nat with j by lia).
  rewrite (take_drop_middle _ _ _ Hb'). by rewrite take_drop_middle.
Qed.
Lemma before_filter (P : K → Prop) `{!∀ x, Decision (P x)} o a b : P a → P b → before o a b → before (filter P o) a b.
Proof.
  intros Ha Hb (l1 & l2 & l3 & ->). exists (filter P l1), (filter P l2), (filter P l3).
  by rewrite filter_app, filter_cons_True, filter_app, filter_cons_True.
Qed.

Lemma declared_name ts k x : declared ts k x → k ∈ names_of ts.
Proof.
  intros [(t & Ht & -> & _)|(t & st & Ht & Hst & -> & _)]; unfold names_of; rewrite list_elem_of_In, in_concat;
    exists (t_name t :: map fst (stages_of t)); rewrite <-!list_elem_of_In.
  - split; [by apply (list_elem_of_fmap_2 (λ t, t_name t :: map fst (stages_of t)))|by left].
  - split; [by apply (list_elem_of_fmap_2 (λ t, t_name t :: map fst (stages_of t)))|right; by apply list_elem_of_fmap_2].
Qed.
Lemma listed_declared ts g e k : built ts g → k ∈ e_nodes (engine_of e g) ↔ ∃ ty, declared ts k (ty, e).
Proof.
  intros [Hc Hk]. rewrite (ct_nodes _ _ _ Hc). setoid_rewrite <-Hk. unfold kind. split.
  - intros (n & Hn & <-). exists (n_type n). by rewrite Hn.
  - intros (ty & (n & Hn & [= -> ->])%fmap_Some). by exists n.
Qed.
Lemma few_nodes ts g e : valid ts → built ts g → Z.of_nat (length (e_nodes (engine_of e g))) < 2 ^ 32.
Proof.
  intros Hv Hb. assert (length (e_nodes (engine_of e g)) ≤ length (names_of ts))%nat; [|pose proof (vl_few _ Hv); lia].
  apply submseteq_length, NoDup_submseteq; [apply (ct_nodup _ _ _ (proj1 Hb))|].
  intros k (ty & Hd)%(listed_declared ts g e k Hb). by eapply declared_name.
Qed.
Lemma is_task_declared ts g k : valid ts → built ts g → is_task g k = true ↔ ∃ t, t ∈ ts ∧ k = t_name t.
Proof.
  intros Hv [_ Hk]. split.
  - unfold is_task. destruct (nodes g !! k) as [n|] eqn:En; [|done]. destruct (n_type n) eqn:Et; try done. intros _.
    assert (kind g k = Some (TaskNode, n_engine n)) as [(t & Ht & -> & _)|(t & st & _ & _ & _ & [=])]%Hk by (unfold kind; rewrite En; simpl; by rewrite Et).
    by exists t.
  - intros (t & Ht & ->). assert (kind g (t_name t) = Some (TaskNode, t_engine t)) as Hx by (apply Hk; left; by exists t).
    apply fmap_Some in Hx as (n & Hn & [= Et _]). unfold is_task. by rewrite Hn, <-Et.
Qed.
Lemma task_engine ts g t e : built ts g → valid ts → t ∈ ts → t_name t ∈ e_nodes (engine_of e g) ↔ t_engine t = e.
Proof.
  intros Hb Hv Ht. rewrite (listed_declared _ _ _ _ Hb). split; [|intros <-; exists TaskNode; left; by exists t].
  intros (ty & Hd). assert (declared ts (t_name t) (TaskNode, t_engine t)) as Hd' by (left; by exists t).
  apply (proj2 Hb) in Hd, Hd'. congruence.
Qed.
Lemma tasks_perm ts g o e : valid ts → built ts g → NoDup o → (∀ k, k ∈ o ↔ k ∈ e_nodes (engine_of e g)) →
  tasks_in g o ≡ₚ map t_name (filter (λ t, t_engine t = e) ts).
Proof.
  intros Hv Hb Hnd Hiff. apply NoDup_Permutation.
  - by apply NoDup_filter.
  - pose proof (vl_tasks _ Hv) as Hn. clear -Hn. induction ts as [|t ts IH]; [constructor|]. apply NoDup_cons in Hn as [Ht Hn].
    rewrite filter_cons. destruct (decide _); [|by apply IH]. simpl. apply NoDup_cons. split; [|by apply IH].
    intros (t' & Et & [_ Ht']%list_elem_of_filter)%list_elem_of_fmap. apply Ht, list_elem_of_fmap. by exists t'.
  - intros k. unfold tasks_in. rewrite list_elem_of_filter, (is_task_declared ts g k Hv Hb), Hiff, list_elem_of_fmap.
    setoid_rewrite list_elem_of_filter. split.
    + intros [(t & Ht & ->) He]. exists t. split; [done|]. split; [|done]. by eapply task_engine.
    + intros (t & -> & He & Ht). split; [by exists t|]. by eapply task_engine.
Qed.
Lemma same_graph_task g g' k : same_graph g g' → is_task g' k = is_task g k.
Proof.
  intros [Hs _]. specialize (Hs k). unfold is_task. inversion Hs as [x y (Ht & _) Ex Ey|Ex Ey]; [by rewrite <-Ht|done].
Qed.

(** The numbers of [rank] show that no needs are circular, and no node of the first engine needs one of the second. *)
Definition ranked (rank : K → nat) (ts : list (task K)) : Prop :=
  ∀ ed, ed ∈ edges_of ts → (rank (source ed) < rank (target ed))%nat ∧
    ∀ ty, declared ts (target ed) (ty, Presched) → ∃ ty', declared ts (source ed) (ty', Presched).
Lemma in_order_before E o i a b : in_order E ∅ o → mk_edge a b ∈ E → o !! i = Some b → ∃ j, (j < i)%nat ∧ o !! j = Some a.
Proof. intros Ho Hed Hi. by destruct (Ho i (mk_edge a b) Hed Hi) as [?%not_elem_of_empty|]. Qed.
Lemma in_order_app E o1 o2 : in_order E ∅ o1 → in_order E (list_to_set o1 ∪ ∅) o2 → in_order E ∅ (o1 ++ o2).
Proof.
  intros H1 H2 i ed Hed [Hi|[Hle Hi]]%lookup_app_Some.
  - destruct (H1 i ed Hed Hi) as [?|(j & Hj & Ej)]; [by left|]. right. exists j. split; [done|by apply lookup_app_l_Some].
  - right. destruct (H2 _ ed Hed Hi) as [Hin|(j & Hj & Ej)].
    + apply elem_of_union in Hin as [Hin|?%not_elem_of_empty]; [|done]. apply elem_of_list_to_set, list_elem_of_lookup in Hin as [j Ej].
      exists j. split; [apply lookup_lt_Some in Ej; lia|by apply lookup_app_l_Some].
    + exists (length o1 + j)%nat. split; [lia|]. rewrite lookup_app_r by lia. by replace (length o1 + j - length o1)%nat with j by lia.
Qed.

Lemma edge_required ts t st : t ∈ ts → st ∈ t_require t → mk_edge st.1 (t_name t) ∈ edges_of ts.
Proof.
  intros Ht Hst. unfold edges_of. rewrite list_elem_of_In, in_concat. exists (task_edges t). rewrite <-!list_elem_of_In.
  split; [by apply list_elem_of_fmap_2|]. apply elem_of_app. left. by apply (list_elem_of_fmap_2 (λ s, mk_edge s (t_name t))), list_elem_of_fmap_2.
Qed.
Lemma edge_entailed ts t st : t ∈ ts → st ∈ t_entail t → mk_edge (t_name t) st.1 ∈ edges_of ts.
Proof.
  intros Ht Hst. unfold edges_of. rewrite list_elem_of_In, in_concat. exists (task_edges t). rewrite <-!list_elem_of_In.
  split; [by apply list_elem_of_fmap_2|]. apply elem_of_app. right. by apply (list_elem_of_fmap_2 (λ s, mk_edge (t_name t) s)), list_elem_of_fmap_2.
Qed.

(** Every graph without circular needs boots: both engines run all their tasks, each task after
    those that entail a stage it requires. *)
Lemma boot_spec rank ts : valid ts → ranked rank ts → ∃ o1 o2 g',
  o1 ≡ₚ map t_name (filter (λ t, t_engine t = Presched) ts) ∧
  o2 ≡ₚ map t_name (filter (λ t, t_engine t = Postsched) ts) ∧
  (∀ t t' st, t ∈ ts → t' ∈ ts → st ∈ t_entail t → st ∈ t_require t' → before (o1 ++ o2) (t_name t) (t_name t')) ∧
  ∀ W (invoke : K → W → outcome W) between w, boot invoke between ts w =
    (w ← each invoke o1 w; w ← between w; w ← each invoke o2 w; Done (g', w)).
Proof.
  intros Hv Hrank. destruct (build_spec ts Hv) as (g & Eg & Hb). set (E := edges_of ts). destruct (Hb) as [Hc Hkind].
  destruct (run_spec E ∅ g Presched Hc (few_nodes ts g Presched Hv Hb)) as (n1 & Hnd1 & Hr1 & Ho1 & Hok1 & _).
  assert (∀ k, k ∈ e_nodes (engine_of Presched g) → k ∉ (∅ : gset K) → runnable E ∅ (e_nodes (engine_of Presched g)) k) as Hall1.
  { apply (ranked_runnable rank). intros ed Hed Ht _. destruct (Hrank ed Hed) as [Hlt He]. split; [|done].
    apply (listed_declared _ _ _ _ Hb) in Ht as (ty & Ht). apply (listed_declared _ _ _ _ Hb). by eapply He. }
  destruct (Hok1 Hall1) as (g1 & Hc1 & Hsame & Hrun1).
  assert (∀ k, k ∈ n1 ↔ k ∈ e_nodes (engine_of Presched g)) as Hiff1.
  { intros k. rewrite Hr1. split; [by intros [? _]%runnable_new|]. intros Hk. by apply Hall1, not_elem_of_empty. }
  destruct Hsame as [Hsh Hnodes]. set (D := list_to_set n1 ∪ ∅ : gset K) in *.
  assert (∀ k, k ∈ D ↔ k ∈ n1) as HD by (intros k; unfold D; rewrite elem_of_union, elem_of_list_to_set; pose proof (not_elem_of_empty (C := gset K) k); tauto).
  destruct (run_spec E D g1 Postsched Hc1) as (n2 & Hnd2 & Hr2 & Ho2 & Hok2 & _); [rewrite Hnodes; by eapply few_nodes|].
  rewrite Hnodes in Hr2, Hok2.
  assert (∀ k, k ∈ e_nodes (engine_of Postsched g) → k ∉ D → runnable E D (e_nodes (engine_of Postsched g)) k) as Hall2.
  { apply (ranked_runnable rank). intros ed Hed Ht HsD. destruct (Hrank ed Hed) as [Hlt He]. split; [|done].
    destruct (ct_ends _ _ _ Hc ed Hed) as [[n Hn] _]. apply (ct_nodes _ _ _ Hc). exists n. split; [done|].
    destruct (n_engine n) eqn:En; [|done]. exfalso. apply HsD, HD, Hiff1, (ct_nodes _ _ _ Hc). by exists n. }
  destruct (Hok2 Hall2) as (g2 & _ & _ & Hrun2).
  assert (∀ k, k ∈ n2 ↔ k ∈ e_nodes (engine_of Postsched g)) as Hiff2.
  { intros k. rewrite Hr2. split; [by intros [? _]%runnable_new|]. intros Hk. apply Hall2; [done|]. rewrite HD, Hiff1.
    apply (ct_nodes _ _ _ Hc) in Hk as (n & Hn & En). rewrite (ct_nodes _ _ _ Hc). intros (n' & Hn' & En'). congruence. }
  assert (tasks_in g1 n2 = tasks_in g n2) as Et by (apply list_filter_iff; intros k; by rewrite (same_graph_task g g1)).
  rewrite Et in Hrun2. exists (tasks_in g n1), (tasks_in g n2), g2. split; [by apply tasks_perm|]. split; [by apply tasks_perm|]. split.
  - intros t t' st Ht Ht' Hen Hre. unfold tasks_in. rewrite <-filter_app.
    apply before_filter; [apply (is_task_declared ts g _ Hv Hb); by exists t|apply (is_task_declared ts g _ Hv Hb); by exists t'|].
    pose proof (in_order_app E n1 n2 Ho1 Ho2) as Ho.
    assert (t_name t' ∈ n1 ++ n2) as [i Hi]%list_elem_of_lookup.
    { apply elem_of_app. rewrite Hiff1, Hiff2, !(task_engine ts g t' _ Hb Hv Ht'). destruct (t_engine t'); auto. }
    destruct (in_order_before E _ i st.1 (t_name t') Ho) as (j & Hj & Ej); [by apply edge_required|done|].
    destruct (in_order_before E _ j (t_name t) st.1 Ho) as (l & Hl & El); [by apply edge_entailed|done|].
    eapply before_lookup; [exact El|exact Hi|lia].
  - intros W invoke between w. unfold boot. rewrite Eg, outcome_bind_Done, Hrun1.
    destruct (each invoke (tasks_in g n1) w) as [w1| | | |]; [|done..]. rewrite !outcome_bind_Done.
    destruct (between w1) as [w2| | | |]; [|done..]. by rewrite !outcome_bind_Done, Hrun2.
Qed.
End spec.

(** ** Tests that a graph is sound *)
Section names.
Context {K : Type} `{Countable K}.
Implicit Types (ts : list (task K)) (t : task K).

Lemma concat_map_perm {A B} (f : A → list B) (l l' : list A) : l ≡ₚ l' → concat (map f l) ≡ₚ concat (map f l').
Proof. intros Hp. rewrite <-!flat_map_concat_map. by apply Permutation_flat_map. Qed.
Lemma elem_of_concat_map {A B} (f : A → list B) (l : list A) (y : B) : y ∈ concat (map f l) ↔ ∃ x, x ∈ l ∧ y ∈ f x.
Proof.
  rewrite list_elem_of_In, in_concat. setoid_rewrite in_map_iff. setoid_rewrite <-list_elem_of_In. naive_solver.
Qed.

Lemma valid_perm ts ts' : ts ≡ₚ ts' → valid ts → valid ts'.
Proof.
  intros Hp [Hn Hs Ha Hl Hf]. assert (∀ t, t ∈ ts' → t ∈ ts) as Hin by (intros t; by rewrite Hp). split.
  - rewrite <-(Permutation_map t_name Hp). done.
  - intros t st t' st' Ht Ht'. apply Hs; auto.
  - intros t t' st Ht Ht'. apply Ha; auto.
  - unfold edges_of. by rewrite <-(concat_map_perm task_edges _ _ Hp).
  - unfold names_of. by rewrite <-(concat_map_perm _ _ _ Hp).
Qed.
Lemma declared_perm ts ts' k x : ts ≡ₚ ts' → declared ts k x ↔ declared ts' k x.
Proof. intros Hp. unfold declared. by setoid_rewrite Hp. Qed.
Lemma ranked_perm r ts ts' : ts ≡ₚ ts' → ranked r ts → ranked r ts'.
Proof.
  intros Hp Hr ed Hed. unfold edges_of in Hed. rewrite <-(concat_map_perm task_edges _ _ Hp) in Hed.
  destruct (Hr ed Hed) as [? Hd]. split; [done|]. intros ty. setoid_rewrite <-(declared_perm ts ts' _ _ Hp). apply Hd.
Qed.

(** The same as tests that can be run. *)
Definition all_stages ts : list (K * engine_id) := concat (map stages_of ts).
Definition names_in (e : engine_id) ts : list K :=
  concat (map (λ t, (if decide (t_engine t = e) then [t_name t] else []) ++ map fst (filter (λ st, st.2 = e) (stages_of t))) ts).
Lemma names_in_declared e ts k : k ∈ names_in e ts ↔ ∃ ty, declared ts k (ty, e).
Proof.
  unfold names_in. rewrite elem_of_concat_map. setoid_rewrite elem_of_app. setoid_rewrite list_elem_of_fmap. setoid_rewrite list_elem_of_filter. split.
  - intros (t & Ht & [Hk|(st & -> & He & Hst)]).
    + destruct (decide _) as [He|]; [|by apply elem_of_nil in Hk]. apply list_elem_of_singleton in Hk as ->. exists TaskNode. left. exists t. by rewrite He.
    + exists StageNode. right. exists t, st. by rewrite He.
  - intros (ty & [(t & Ht & -> & [= _ ->])|(t & st & Ht & Hst & -> & [= _ ->])]); exists t; (split; [done|]).
    + left. rewrite decide_True by done. by left.
    + right. by exists st.
Qed.
Definition valid_test ts : bool :=
  bool_decide (NoDup (map t_name ts)) &&
  bool_decide (Forall (λ st, Forall (λ st', st.1 = st'.1 → st = st') (all_stages ts)) (all_stages ts)) &&
  bool_decide (Forall (λ st, st.1 ∉ map t_name ts) (all_stages ts)) &&
  (Z.of_nat (length (edges_of ts)) <? 2 ^ 32)%Z && (Z.of_nat (length (names_of ts)) <? 2 ^ 32)%Z.
Lemma valid_test_ok ts : valid_test ts = true → valid ts.
Proof.
  unfold valid_test. rewrite !andb_true_iff, !bool_decide_eq_true, !Z.ltb_lt, !Forall_forall. intros ((((Hn & Hs) & Ha) & Hl) & Hf).
  assert (∀ t st, t ∈ ts → st ∈ stages_of t → st ∈ all_stages ts) as Hall by (intros t st ? ?; apply elem_of_concat_map; by exists t).
  split; try done.
  - intros t st t' st' Ht Ht' Hst Hst'. pose proof (Hs st (Hall _ _ Ht Hst)) as H1. rewrite Forall_forall in H1. apply H1. by eapply Hall.
  - intros t t' st Ht Ht' Hst E. apply (Ha st (Hall _ _ Ht Hst)). rewrite E. by apply list_elem_of_fmap_2.
Qed.
Definition ranked_test (r : K → nat) ts : bool :=
  forallb (λ ed, (r (source ed) <? r (target ed))%nat &&
    (negb (bool_decide (target ed ∈ names_in Presched ts)) || bool_decide (source ed ∈ names_in Presched ts))) (edges_of ts).
Lemma ranked_test_ok r ts : ranked_test r ts = true → ranked r ts.
Proof.
  unfold ranked_test. rewrite forallb_forall. intros Hall ed Hed%list_elem_of_In. apply Hall in Hed as [Hlt Hp]%andb_true_iff.
  apply Nat.ltb_lt in Hlt. split; [done|]. intros ty Ht. apply names_in_declared. apply orb_true_iff in Hp as [Hp|Hp%bool_decide_eq_true]; [|done].
  exfalso. apply negb_true_iff, bool_decide_eq_false in Hp. apply Hp, names_in_declared. by exists ty.
Qed.
End names.

(** ** Running one engine *)
(** C10: one engine on any consistent graph: it always ends.  It runs every node that can be run
    exactly once, after all that the node needs, and no other.  When these are all its nodes it
    returns with a consistent graph in which they are done; when one depends on itself, or
    on a node of an engine that has not run, it panics after the others have run. *)
Theorem run_correct {K : Type} `{Countable K} (E : list (edge K)) (D : gset K) (g : graph K) (e : engine_id) :
  consistent E D g → let N := e_nodes (engine_of e g) in Z.of_nat (length N) < 2 ^ 32 →
  ∃ o, NoDup o ∧ (∀ k, k ∈ o ↔ runnable E D N k) ∧ in_order E D o ∧
    ((∀ k, k ∈ N → k ∉ D → runnable E D N k) → ∃ g', consistent E (list_to_set o ∪ D) g' ∧ same_graph g g' ∧
      ∀ W (invoke : K → W → outcome W) w, run invoke e g w = (w' ← each invoke (tasks_in g o) w; Done (g', w'))) ∧
    (∀ k, k ∈ N → k ∉ D → ¬ runnable E D N k →
      ∀ W (invoke : K → W → outcome W) w, run invoke e g w = (w' ← each invoke (tasks_in g o) w; Panic)).
Proof. apply run_spec. Qed.

(** Tasks 0 and 1 need each other, task 2 needs nothing. *)
Definition ex_tasks : list (task nat) :=
  [mk_task 0%nat Presched [(10%nat, Presched)] [(11%nat, Presched)]; mk_task 1%nat Presched [(11%nat, Presched)] [(10%nat, Presched)];
   mk_task 2%nat Presched [] [(12%nat, Presched)]].
Lemma ex_tasks_valid : valid ex_tasks.
Proof. apply valid_test_ok. vm_compute. reflexivity. Qed.
Lemma run_correct_witness : ∃ g o, build ex_tasks = Done g ∧
  ∀ (invoke : nat → list nat → outcome (list nat)) w, run invoke Presched g w = (w' ← each invoke (tasks_in g o) w; Panic).
Proof.
  destruct (build_spec ex_tasks ex_tasks_valid) as (g & Eg & Hb).
  destruct (run_correct (edges_of ex_tasks) ∅ g Presched (proj1 Hb)) as (o & _ & _ & _ & _ & Hpanic).
  { apply (few_nodes ex_tasks); [apply ex_tasks_valid|exact Hb]. }
  exists g, o. split; [exact Eg|]. apply (Hpanic 0%nat).
  - apply (listed_declared ex_tasks g Presched 0%nat Hb). apply names_in_declared, list_elem_of_In. vm_compute. auto.
  - apply not_elem_of_empty.
  - apply (cycle_not_runnable _ _ _ (λ k, k ∈ [0; 1; 10; 11]%nat)); [|apply list_elem_of_In; simpl; auto].
    intros k Hk. assert (∃ ed, ed ∈ edges_of ex_tasks ∧ target ed = k ∧ source ed ∈ [0; 1; 10; 11]%nat) as (ed & ? & ? & ?).
    { rewrite !elem_of_cons in Hk. destruct Hk as [->|[->|[->|[->|[]%elem_of_nil]]]];
        [exists (mk_edge 10 0)%nat|exists (mk_edge 11 1)%nat|exists (mk_edge 1 10)%nat|exists (mk_edge 0 11)%nat];
        (split; [apply list_elem_of_In; vm_compute; tauto|split; [reflexivity|apply list_elem_of_In; simpl; tauto]]). }
    exists ed. split; [done|]. split; [done|]. split; [apply not_elem_of_empty|done].
Defined.
