(* ===== verification/KernelTasks.v ===== *)
(** The stages and tasks of the kernel on x86_64, as the files of kernel/source define them, and
    the order in which they run (kernel/source/boot/kernel.cpp).  What a task does is not part
    of this file. *)

From Stdlib Require Import Strings.String.
From S2P Require Import Prelude Initgraph InitgraphSpec.
#[local] Open Scope string_scope.

(** ** Stages *)
Definition base_stage : string * engine_id := ("base-stage", Presched).
Definition output_initialised_stage : string * engine_id := ("output.available", Presched).
Definition acpi_tables_stage : string * engine_id := ("acpi.tables-access", Presched).
Definition acpi_initialised_stage : string * engine_id := ("acpi.initialised", Presched).
Definition acpi_workers_stage : string * engine_id := ("acpi.workers-created", Presched).
Definition arch_bsp_stage : string * engine_id := ("arch.bsp.initialised", Presched).
Definition arch_cpus_stage : string * engine_id := ("arch.cpus.initialised", Presched).
Definition acpipm_initialised_stage : string * engine_id := ("timers.acpipm.initialised", Presched).
Definition arch_can_initialise_stage : string * engine_id := ("timers.arch.can-initialise", Presched).
Definition arch_timers_initialised_stage : string * engine_id := ("timers.arch.initialised", Presched).
Definition pit_initialised_stage : string * engine_id := ("timers.arch.pit.initialised", Presched).
Definition hpet_initialised_stage : string * engine_id := ("timers.arch.hpet.initialised", Presched).
Definition kvm_initialised_stage : string * engine_id := ("timers.arch.kvm.initialised", Presched).
Definition tsc_initialised_stage : string * engine_id := ("timers.arch.tsc.initialised", Presched).
Definition timers_initialised_stage : string * engine_id := ("timers.initialised", Presched).
Definition pid0_initialised_stage : string * engine_id := ("sched.pid0.initialised", Presched).
Definition pci_acpi_ios_discovered_stage : string * engine_id := ("pci.acpi.ios-discovered", Presched).
Definition pci_acpi_rbs_discovered_stage : string * engine_id := ("pci.acpi.rbs-discovered", Presched).
Definition pci_arch_ios_discovered_stage : string * engine_id := ("pci.arch.ios-discovered", Presched).
Definition pci_arch_rbs_discovered_stage : string * engine_id := ("pci.arch.rbs-discovered", Presched).
Definition pci_ios_discovered_stage : string * engine_id := ("pci.ios-discovered", Presched).
Definition pci_rbs_discovered_stage : string * engine_id := ("pci.rbs-discovered", Presched).
Definition pci_enumerated_stage : string * engine_id := ("pci.enumerated", Presched).
Definition tmpfs_registered_stage : string * engine_id := ("vfs.tmpfs.registered", Postsched).
Definition devtmpfs_registered_stage : string * engine_id := ("vfs.devtmpfs.registered", Postsched).
Definition devtmpfs_mounted_stage : string * engine_id := ("vfs.devtmpfs.mounted", Postsched).
Definition fs_registered_stage : string * engine_id := ("vfs.fs.registered", Postsched).
Definition root_mounted_stage : string * engine_id := ("vfs.root-mounted", Postsched).
Definition mem_registered_stage : string * engine_id := ("vfs.dev.memfiles-registered", Postsched).
Definition tty_registered_stage : string * engine_id := ("vfs.dev.tty-registered", Postsched).
Definition dev_registered_stage : string * engine_id := ("vfs.dev.registered", Postsched).
Definition dev_populated_stage : string * engine_id := ("vfs.dev.populated", Postsched).
Definition initramfs_extracted_stage : string * engine_id := ("vfs.initramfs.extracted", Postsched).
Definition modules_loaded_stage : string * engine_id := ("bin.elf.modules-loaded", Postsched).

(** ** Tasks *)
Definition output_task : task string := mk_task "output.init" Presched [] [base_stage; output_initialised_stage].
Definition acpi_early_task : task string := mk_task "acpi.early-tables" Presched [base_stage] [acpi_tables_stage].
Definition acpi_full_task : task string := mk_task "acpi.initialise" Presched [acpi_tables_stage; timers_initialised_stage] [acpi_initialised_stage].
Definition uacpi_task : task string := mk_task "acpi.create-workers" Presched [pid0_initialised_stage; acpi_initialised_stage] [acpi_workers_stage].
Definition arch_bsp_task : task string := mk_task "arch.bsp.initialise" Presched [acpi_tables_stage] [arch_bsp_stage].
Definition arch_cpus_task : task string := mk_task "arch.cpus.initialise" Presched [arch_bsp_stage; timers_initialised_stage] [arch_cpus_stage].
Definition acpipm_task : task string := mk_task "timers.acpipm.initialise" Presched [acpi_tables_stage] [acpipm_initialised_stage].
Definition acpipm_thread_task : task string := mk_task "timers.acpipm.create-thread" Presched [pid0_initialised_stage] [].
Definition can_timers_task : task string := mk_task "timers.arch.set-can-initialise" Presched [arch_bsp_stage; acpipm_initialised_stage] [arch_can_initialise_stage].
Definition arch_timers_task : task string := mk_task "timers.arch.initialise" Presched [pit_initialised_stage; hpet_initialised_stage; kvm_initialised_stage; tsc_initialised_stage] [arch_timers_initialised_stage].
Definition pit_task : task string := mk_task "timers.arch.pit.initialise" Presched [arch_can_initialise_stage] [pit_initialised_stage].
Definition hpet_task : task string := mk_task "timers.arch.hpet.initialise" Presched [arch_can_initialise_stage] [hpet_initialised_stage].
Definition hpet_thread_task : task string := mk_task "timers.arch.hpet.create-thread" Presched [arch_timers_initialised_stage; pid0_initialised_stage] [].
Definition kvmclock_task : task string := mk_task "timers.arch.kvm.initialise" Presched [arch_can_initialise_stage] [kvm_initialised_stage].
Definition tsc_task : task string := mk_task "timers.arch.tsc.initialise" Presched [arch_can_initialise_stage; kvm_initialised_stage] [tsc_initialised_stage].
Definition timers_task : task string := mk_task "timers.initialise" Presched [arch_timers_initialised_stage] [timers_initialised_stage].
Definition pid0_task : task string := mk_task "sched.pid0.initialise" Presched [arch_cpus_stage; timers_initialised_stage] [pid0_initialised_stage].
Definition script_exec_task : task string := mk_task "bin.exec.script.register" Presched [base_stage] [].
Definition elf_exec_task : task string := mk_task "bin.exec.elf.register" Presched [base_stage] [].
Definition pci_acpi_ios_task : task string := mk_task "pci.acpi.discover-ios" Presched [acpi_tables_stage] [pci_acpi_ios_discovered_stage].
Definition pci_acpi_rbs_task : task string := mk_task "pci.acpi.discover-rbs" Presched [acpi_initialised_stage; pci_ios_discovered_stage] [pci_acpi_rbs_discovered_stage].
Definition pci_arch_ios_task : task string := mk_task "pci.arch.discover-ios" Presched [pci_acpi_ios_discovered_stage] [pci_arch_ios_discovered_stage].
Definition pci_arch_rbs_task : task string := mk_task "pci.arch.discover-rbs" Presched [pci_acpi_rbs_discovered_stage] [pci_arch_rbs_discovered_stage].
Definition pci_ios_task : task string := mk_task "pci.discover-ios" Presched [pci_acpi_ios_discovered_stage; pci_arch_ios_discovered_stage] [pci_ios_discovered_stage].
Definition pci_rbs_task : task string := mk_task "pci.discover-rbs" Presched [pci_acpi_rbs_discovered_stage; pci_arch_rbs_discovered_stage] [pci_rbs_discovered_stage].
Definition pci_task : task string := mk_task "pci.enumerate" Presched [pci_ios_discovered_stage; pci_rbs_discovered_stage] [pci_enumerated_stage].
Definition tmpfs_task : task string := mk_task "vfs.tmpfs.register" Postsched [] [tmpfs_registered_stage].
Definition devtmpfs_register_task : task string := mk_task "vfs.devtmpfs.register" Postsched [] [devtmpfs_registered_stage].
Definition devtmpfs_mount_task : task string := mk_task "vfs.devtmpfs.mount" Postsched [root_mounted_stage; devtmpfs_registered_stage] [devtmpfs_mounted_stage].
Definition fs_task : task string := mk_task "vfs.fs.register" Postsched [tmpfs_registered_stage; devtmpfs_registered_stage] [fs_registered_stage].
Definition root_task : task string := mk_task "vfs.mount-root" Postsched [fs_registered_stage] [root_mounted_stage].
Definition memfiles_task : task string := mk_task "vfs.dev.memfiles.register" Postsched [devtmpfs_mounted_stage] [mem_registered_stage].
Definition tty_task : task string := mk_task "vfs.dev.tty.register" Postsched [devtmpfs_mounted_stage] [tty_registered_stage].
Definition dev_task : task string := mk_task "vfs.dev.register" Postsched [mem_registered_stage; tty_registered_stage] [dev_registered_stage].
Definition dev_populate_task : task string := mk_task "vfs.dev.populate" Postsched [dev_registered_stage; initramfs_extracted_stage] [dev_populated_stage].
Definition initramfs_task : task string := mk_task "vfs.initramfs.extract" Postsched [root_mounted_stage; dev_registered_stage] [initramfs_extracted_stage].
Definition modules_load_task : task string := mk_task "bin.elf.load-modules" Postsched [initramfs_extracted_stage] [modules_loaded_stage].

(** All of them; the C++ language leaves the order of definitions in different files open. *)
Definition kernel_tasks : list (task string) :=
  [
   output_task; acpi_early_task; acpi_full_task; uacpi_task; arch_bsp_task; arch_cpus_task; acpipm_task;
   acpipm_thread_task; can_timers_task; arch_timers_task; pit_task; hpet_task; hpet_thread_task;
   kvmclock_task; tsc_task; timers_task; pid0_task; script_exec_task; elf_exec_task; pci_acpi_ios_task;
   pci_acpi_rbs_task; pci_arch_ios_task; pci_arch_rbs_task; pci_ios_task; pci_rbs_task; pci_task; tmpfs_task;
   devtmpfs_register_task; devtmpfs_mount_task; fs_task; root_task; memfiles_task; tty_task; dev_task;
   dev_populate_task; initramfs_task; modules_load_task].

(** An order of all nodes in which the needs of each come first. *)
Definition needs_first : list string :=
  [
   "output.init"; "vfs.tmpfs.register"; "vfs.devtmpfs.register"; "base-stage"; "output.available";
   "vfs.tmpfs.registered"; "vfs.devtmpfs.registered"; "acpi.early-tables"; "bin.exec.script.register";
   "bin.exec.elf.register"; "vfs.fs.register"; "acpi.tables-access"; "vfs.fs.registered";
   "arch.bsp.initialise"; "timers.acpipm.initialise"; "pci.acpi.discover-ios"; "vfs.mount-root";
   "arch.bsp.initialised"; "timers.acpipm.initialised"; "pci.acpi.ios-discovered"; "vfs.root-mounted";
   "timers.arch.set-can-initialise"; "pci.arch.discover-ios"; "vfs.devtmpfs.mount";
   "timers.arch.can-initialise"; "pci.arch.ios-discovered"; "vfs.devtmpfs.mounted";
   "timers.arch.pit.initialise"; "timers.arch.hpet.initialise"; "timers.arch.kvm.initialise";
   "pci.discover-ios"; "vfs.dev.memfiles.register"; "vfs.dev.tty.register"; "timers.arch.pit.initialised";
   "timers.arch.hpet.initialised"; "timers.arch.kvm.initialised"; "pci.ios-discovered";
   "vfs.dev.memfiles-registered"; "vfs.dev.tty-registered"; "timers.arch.tsc.initialise"; "vfs.dev.register";
   "timers.arch.tsc.initialised"; "vfs.dev.registered"; "timers.arch.initialise"; "vfs.initramfs.extract";
   "timers.arch.initialised"; "vfs.initramfs.extracted"; "timers.initialise"; "vfs.dev.populate";
   "bin.elf.load-modules"; "timers.initialised"; "vfs.dev.populated"; "bin.elf.modules-loaded";
   "acpi.initialise"; "arch.cpus.initialise"; "acpi.initialised"; "arch.cpus.initialised";
   "sched.pid0.initialise"; "pci.acpi.discover-rbs"; "sched.pid0.initialised"; "pci.acpi.rbs-discovered";
   "acpi.create-workers"; "timers.acpipm.create-thread"; "timers.arch.hpet.create-thread";
   "pci.arch.discover-rbs"; "acpi.workers-created"; "pci.arch.rbs-discovered"; "pci.discover-rbs";
   "pci.rbs-discovered"; "pci.enumerate"; "pci.enumerated"].
Definition rank (k : string) : nat := match list_find (eq k) needs_first with Some (i, _) => i | None => 0%nat end.

(** ** The graph is sound *)
#[local] Open Scope list_scope.
Lemma kernel_tasks_valid : valid kernel_tasks.
Proof. apply valid_test_ok. vm_compute. reflexivity. Qed.
Lemma kernel_tasks_ranked : ranked rank kernel_tasks.
Proof. apply ranked_test_ok. vm_compute. reflexivity. Qed.

(** C9: the kernel boots: in whatever order its tasks are defined, the engines find no circular
    dependency.  [kmain] runs every task of the first engine once and [kthread] every task of
    the second; each task comes after all those that entail a stage it requires, and when the
    tasks themselves return, so does the engine. *)
Theorem kernel_boots ts : ts ≡ₚ kernel_tasks → ∃ o1 o2 g',
  o1 ≡ₚ map t_name (filter (λ t, t_engine t = Presched) kernel_tasks) ∧
  o2 ≡ₚ map t_name (filter (λ t, t_engine t = Postsched) kernel_tasks) ∧
  (∀ t t' st, t ∈ kernel_tasks → t' ∈ kernel_tasks → st ∈ t_entail t → st ∈ t_require t' → before (o1 ++ o2) (t_name t) (t_name t')) ∧
  ∀ W (invoke : string → W → outcome W) between w, boot invoke between ts w =
    (w ← each invoke o1 w; w ← between w; w ← each invoke o2 w; Done (g', w)).
Proof.
  intros Hp. symmetry in Hp. destruct (boot_spec rank ts) as (o1 & o2 & g' & H1 & H2 & H3 & H4).
  - by eapply valid_perm, kernel_tasks_valid.
  - by eapply ranked_perm, kernel_tasks_ranked.
  - exists o1, o2, g'. assert (∀ e, filter (λ t, t_engine t = e) kernel_tasks ≡ₚ filter (λ t, t_engine t = e) ts) as Hf by (intros e; by rewrite Hp).
    rewrite !(Permutation_map t_name (Hf _)). split; [done|]. split; [done|]. split; [|done].
    intros t t' st Ht Ht'. apply H3; by rewrite <-Hp.
Qed.

Lemma kernel_boots_witness : ∃ o1 o2 g', o1 ≡ₚ map t_name (filter (λ t, t_engine t = Presched) kernel_tasks) ∧
  before (o1 ++ o2) "vfs.mount-root" "vfs.initramfs.extract" ∧
  boot (λ k w, Done (w ++ [k])) Done (reverse kernel_tasks) [] =
    (w ← each (λ k w, Done (w ++ [k])) o1 []; w ← Done w; w ← each (λ k w, Done (w ++ [k])) o2 w; Done (g', w)).
Proof.
  destruct (kernel_boots (reverse kernel_tasks)) as (o1 & o2 & g' & H1 & _ & H3 & H4); [apply reverse_Permutation|].
  exists o1, o2, g'. split; [exact H1|]. split; [|apply (H4 (list string))].
  apply (H3 root_task initramfs_task root_mounted_stage); vm_compute; repeat constructor.
Defined.
