(* ===== verification/Timers.v ===== *)
(** Timers and clocks (kernel/source/system/time.cpp, kernel/source/drivers/timers and
    kernel/source/arch/x86_64/drivers/timers): the ACPI power management timer, the HPET, the
    clock of KVM, the time stamp counter and the interval timer, and the choice among them.

    The registers of the timers are the interface [TimerHw]; the heap of clocks belongs to the
    frigg library and is the interface [ClockHeap].  The variables are those of one processor.
    What several processors do to the shared counters is in the last section.  The properties
    are in [TimersSpec.v]. *)

From S2P Require Import Prelude Math.
#[local] Open Scope Z_scope.

(** What a clock page of KVM holds, read one member at a time. *)
Inductive kvm_field := KVersion | KTimestamp | KSystemTime | KMul | KShift.
Record id_res := mk_id_res { id_a : Z; id_b : Z; id_c : Z; id_d : Z }.

(** [cpuid], the registers, and the tables of the firmware: length and flags of the power
    management timer, space and address of the HPET. *)
Class TimerHw (H : Type) := {
  cpuid : Z → Z → id_res;
  pm_in : H → Z * H;
  hpet_in : Z → H → Z * H;
  hpet_out : Z → Z → H → H;
  rdtsc : H → Z * H;
  kvm_in : kvm_field → H → Z * H;
  fadt : option (Z * Z);
  hpet_table : option (Z * Z) }.

(** ** Clocks (time.cpp) *)
Inductive clock := AcpiPm | Hpet | Kvm | Tsc | Pit.
#[export] Instance clock_eq_dec : EqDecision clock.
Proof. solve_decision. Defined.
Definition priority (c : clock) : Z := match c with AcpiPm => 25 | Hpet => 50 | Kvm => 100 | Tsc => 75 | Pit => 0 end.
(** [higher_priority]. *)
Definition higher_priority (lhs rhs : clock) : bool := priority lhs <? priority rhs.
(** [frg::pairing_heap::top] of the clocks that were pushed. *)
Class ClockHeap := heap_top : list clock → option clock.

(** ** Processor features (interfaces/arch/x86_64/system/cpu.cppm) *)
Section cpu.
Context {H : Type} `{!TimerHw H}.
Definition cpu_id (leaf subleaf : Z) : option id_res :=
  let cached := id_a (cpuid 0x80000000 0) in
  if negb (cached =? 0) && (cached <? leaf) then None else Some (cpuid leaf subleaf).
Definition in_hypervisor : bool :=
  match cpu_id 1 0 with Some res => negb (Z.land (id_c res) (2 ^ 31) =? 0) | None => false end.
(** The twelve bytes "KVMKVMKVM" in the registers. *)
Definition kvm_signature (r : id_res) : bool := (id_b r =? 0x4B4D564B) && (id_c r =? 0x564B4D56) && (id_d r =? 0x4D).
Fixpoint kvm_base_loop (n : nat) (base : Z) : Z :=
  match n with
  | O => 0
  | S n => if kvm_signature (cpuid base 0) then base else kvm_base_loop n (base + 0x100)
  end.
Definition kvm_base : Z := if in_hypervisor then kvm_base_loop 256 0x40000000 else 0.
End cpu.

(** ** State *)
Record pm_timer := mk_pm { pm_last : Z; pm_offset : Z }.
Record hpet_timer := mk_hpet { h_ready : bool; h_64bit : bool; h_last : Z; h_offset : Z; h_freq : freqfrac }.
Record tsc_timer := mk_tsc { t_freq : freqfrac; t_offset : Z; is_calibrated : bool }.
Record pit_timer := mk_pit { p_tick : Z; p_offset : Z; p_ready : bool }.
Record time_state := mk_time { clocks : list clock; main : option clock }.
Record timers {H : Type} := mk_timers
  { hw : H; pm : pm_timer; hpet : hpet_timer; kvm_offset : Z; kvm_registered : bool; tsc : tsc_timer; pit : pit_timer; time : time_state }.
Arguments timers : clear implicits.
(** [lib::freqfrac] before it is set. *)
Definition no_freq : freqfrac := {| ff_p := 0; ff_n := 0; ff_freq := 0 |}.
Definition power_on {H} (h : H) : timers H :=
  mk_timers H h (mk_pm 0 0) (mk_hpet false false 0 0 no_freq) 0 false (mk_tsc no_freq 0 false) (mk_pit 0 0 false) (mk_time [] None).

Section timers.
Context {H : Type} `{!TimerHw H} `{!ClockHeap}.
Notation st := (timers H).

Definition timeM (A : Type) : Type := st → outcome (A * st).
#[export] Instance timeM_ret : MRet timeM := λ A a s, Done (a, s).
#[export] Instance timeM_bind : MBind timeM := λ A B f m s, '(a, s) ← m s; f a s.
Definition lift {A} (m : outcome A) : timeM A := λ s, a ← m; Done (a, s).
Definition gets {A} (f : st → A) : timeM A := λ s, Done (f s, s).
Definition io {A} (f : H → A * H) : timeM A := λ s,
  let '(a, h) := f (hw s) in Done (a, mk_timers H h (pm s) (hpet s) (kvm_offset s) (kvm_registered s) (tsc s) (pit s) (time s)).
Definition put_pm (p : pm_timer) : timeM unit := λ s,
  Done ((), mk_timers H (hw s) p (hpet s) (kvm_offset s) (kvm_registered s) (tsc s) (pit s) (time s)).
Definition put_hpet (p : hpet_timer) : timeM unit := λ s,
  Done ((), mk_timers H (hw s) (pm s) p (kvm_offset s) (kvm_registered s) (tsc s) (pit s) (time s)).
Definition put_kvm (o : Z) (r : bool) : timeM unit := λ s,
  Done ((), mk_timers H (hw s) (pm s) (hpet s) o r (tsc s) (pit s) (time s)).
Definition put_tsc (p : tsc_timer) : timeM unit := λ s,
  Done ((), mk_timers H (hw s) (pm s) (hpet s) (kvm_offset s) (kvm_registered s) p (pit s) (time s)).
Definition put_pit (p : pit_timer) : timeM unit := λ s,
  Done ((), mk_timers H (hw s) (pm s) (hpet s) (kvm_offset s) (kvm_registered s) (tsc s) p (time s)).
Definition put_time (p : time_state) : timeM unit := λ s,
  Done ((), mk_timers H (hw s) (pm s) (hpet s) (kvm_offset s) (kvm_registered s) (tsc s) (pit s) p).

(** ** Counters of fewer than 64 bits
    Both short counters are extended the same way: the upper bits are those of the last
    value, and one more when the counter has gone round. *)
Definition extend (mask value last_val : Z) : Z :=
  let value := Z.lor (Z.land value mask) (Z.land last_val (wnot64 mask)) in
  if value <? last_val then w64 (value + (mask + 1)) else value.
Definition must_store (mask value last_val : Z) : bool := Z.shiftr mask 1 <? w64 (last_val - value).

(** ** The power management timer (acpipm.cpp) *)
Definition pm_supported : bool := match fadt with Some (len, _) => len =? 4 | None => false end.
Definition pm_mask : Z :=
  match fadt with Some (_, flags) => if negb (Z.land flags (2 ^ 8) =? 0) then 0xFFFFFFFF else 0xFFFFFF | None => 0 end.
Definition pm_freq : freqfrac := freqfrac_init 3579545.
Fixpoint pm_read_slow (fuel : nat) : timeM Z :=
  match fuel with
  | O => λ _, NoFuel
  | S fuel =>
      v1 ← io pm_in; v2 ← io pm_in; v3 ← io pm_in;
      let v1 := w32 v1 in let v2 := w32 v2 in let v3 := w32 v3 in
      if ((v2 <? v1) && (v1 <? v3)) || ((v3 <? v2) && (v2 <? v1)) || ((v1 <? v3) && (v3 <? v2)) then pm_read_slow fuel else mret v2
  end.
Definition pm_read_fast : timeM Z := io pm_in.
Definition pm_time_ns (fuel : nat) : timeM Z :=
  _ ← lift (bug_on (negb pm_supported));
  value ← pm_read_slow fuel;
  p ← gets pm;
  let v := extend pm_mask value (pm_last p) in
  _ ← (if must_store pm_mask v (pm_last p) then put_pm (mk_pm v (pm_offset p)) else mret ());
  mret (w64 (nanos pm_freq v - pm_offset p)).
Fixpoint pm_wait (fuel : nat) (start ticks current : Z) : timeM Z :=
  match fuel with
  | O => λ _, NoFuel
  | S fuel =>
      if current <? w64 (start + ticks) then
        current ← pm_read_fast;
        pm_wait fuel start ticks (if current <? start then w64 (current + (pm_mask + 1)) else current)
      else mret current
  end.
Definition pm_calibrate (fuel : nat) (ms : Z) : timeM Z :=
  _ ← lift (bug_on (negb pm_supported));
  let t := ticks pm_freq (w64 (ms * 1000000)) in
  _ ← lift (bug_on (pm_mask <? t));
  start ← pm_read_fast;
  current ← pm_wait fuel start t start;
  mret (nanos pm_freq (w64 (current - start))).

(** ** HPET (hpet.cpp) *)
Definition hpet_cap : Z := 0x00.
Definition hpet_cfg : Z := 0x10.
Definition hpet_cnt : Z := 0xF0.
Definition hpet_supported : bool := match hpet_table with Some (space, _) => space =? 0 | None => false end.
Definition hpet_read : timeM Z :=
  value ← io (hpet_in hpet_cnt);
  p ← gets hpet;
  if h_64bit p then mret value else
  let mask := 0xFFFFFFFF in
  let v := extend mask value (h_last p) in
  _ ← (if must_store mask v (h_last p) then put_hpet (mk_hpet (h_ready p) (h_64bit p) v (h_offset p) (h_freq p)) else mret ());
  mret v.
Definition hpet_time_ns : timeM Z :=
  p ← gets hpet;
  _ ← lift (bug_on (negb (h_ready p)));
  v ← hpet_read;
  mret (w64 (nanos (h_freq p) v - h_offset p)).
Fixpoint hpet_wait (fuel : nat) (target current : Z) : timeM Z :=
  match fuel with
  | O => λ _, NoFuel
  | S fuel => if current <? target then current ← hpet_read; hpet_wait fuel target current else mret current
  end.
Definition hpet_calibrate (fuel : nat) (ms : Z) : timeM Z :=
  p ← gets hpet;
  t ← lift (if ff_n (h_freq p) =? 0 then Crash else Done (ticks (h_freq p) (w64 (ms * 1000000))));
  start ← hpet_read;
  current ← hpet_wait fuel (w64 (start + t)) start;
  mret (nanos (h_freq p) (w64 (current - start))).

(** ** KVM (kvm.cpp) *)
Definition kvm_supported : bool :=
  negb (kvm_base =? 0) && match cpu_id (w32 (kvm_base + 1)) 0 with Some res => negb (Z.land (id_a res) (2 ^ 3) =? 0) | None => false end.
Fixpoint kvm_stable (fuel : nat) : timeM unit :=
  match fuel with
  | O => λ _, NoFuel
  | S fuel => v ← io (kvm_in KVersion); if negb (v mod 2 =? 0) then kvm_stable fuel else mret ()
  end.
Definition kvm_time_ns (fuel : nat) : timeM Z :=
  _ ← kvm_stable fuel;
  now ← io rdtsc; stamp ← io (kvm_in KTimestamp);
  let time := (now - stamp) mod 2 ^ 128 in
  shift ← io (kvm_in KShift);
  time ← (if 0 <=? shift then shift ← io (kvm_in KShift); mret (Z.shiftl time shift mod 2 ^ 128)
          else shift ← io (kvm_in KShift); mret (Z.shiftr time (- shift)));
  mul ← io (kvm_in KMul);
  let time := Z.shiftr ((time * mul) mod 2 ^ 128) 32 in
  base ← io (kvm_in KSystemTime);
  let time := (time + base) mod 2 ^ 128 in
  o ← gets kvm_offset;
  mret (w64 (time - o)).
Definition kvm_tsc_freq : timeM Z :=
  mul ← io (kvm_in KMul);
  _ ← lift (if mul =? 0 then Crash else Done ());
  let freq := Z.shiftl 1000000000 32 / mul in
  shift ← io (kvm_in KShift);
  if shift <? 0 then shift ← io (kvm_in KShift); mret (w64 (Z.shiftl freq (- shift)))
  else shift ← io (kvm_in KShift); mret (Z.shiftr freq shift).

(** ** The interval timer (pit.cpp); an interrupt adds one to [tick] *)
Definition pit_frequency : Z := 1000.
Definition pit_divisor : Z := w16 (1193180 / pit_frequency).
Definition pit_tick : timeM unit := p ← gets pit; put_pit (mk_pit (w64 (p_tick p + 1)) (p_offset p) (p_ready p)).
Definition pit_time_ns : timeM Z :=
  p ← gets pit; mret (w64 (w64 (w64 (p_tick p * 1000) / pit_frequency * 1000000) - p_offset p)).

(** ** The time stamp counter (tsc.cpp) *)
Definition tsc_supported : bool :=
  match cpu_id 0x80000007 0 with Some res => negb (Z.land (id_d res) (2 ^ 8) =? 0) | None => false end.
Definition tsc_time_ns : timeM Z :=
  t ← gets tsc;
  _ ← lift (if is_calibrated t then Done () else Panic);
  v ← io rdtsc;
  mret (w64 (nanos (t_freq t) v - t_offset t)).

(** ** Reading, choosing and registering a clock (time.cpp) *)
Definition clock_ns (fuel : nat) (c : clock) : timeM Z :=
  match c with
  | AcpiPm => pm_time_ns fuel | Hpet => hpet_time_ns | Kvm => kvm_time_ns fuel | Tsc => tsc_time_ns | Pit => pit_time_ns
  end.
Definition register_clock (c : clock) : timeM unit :=
  t ← gets time;
  let l := clocks t ++ [c] in
  top ← lift (deref (heap_top l));
  put_time (mk_time l (Some top)).
Definition main_clock : timeM (option clock) := gets (λ s, main (time s)).
Fixpoint stall_loop (fuel rf : nat) (c : clock) (target : Z) : timeM bool :=
  match fuel with
  | O => λ _, NoFuel
  | S fuel => now ← clock_ns rf c; if now <? target then stall_loop fuel rf c target else mret true
  end.
Definition stall_ns (fuel rf : nat) (ns : Z) : timeM bool :=
  m ← main_clock;
  match m with
  | None => mret false
  | Some c => now ← clock_ns rf c; stall_loop fuel rf c (w64 (now + ns))
  end.
(** [offset = time_ns() - clock->ns()], as a number with a sign. *)
Definition start_offset (fuel : nat) (c : clock) (first : bool) : timeM Z :=
  m ← main_clock;
  match m with
  | Some d => a ← clock_ns fuel c; b ← clock_ns fuel d; mret (s64 (w64 (a - b)))
  | None => if first then a ← clock_ns fuel c; mret (s64 a) else mret 0
  end.

(** ** The tasks that start the timers *)
Definition acpipm_start (fuel : nat) : timeM unit :=
  o ← start_offset fuel AcpiPm true;
  p ← gets pm; _ ← put_pm (mk_pm (pm_last p) o);
  register_clock AcpiPm.
(** [mapped]: the register page could be mapped.  [supported()] is only logged. *)
Definition hpet_start (fuel : nat) (mapped : bool) : timeM unit :=
  _ ← lift (if mapped then Done () else Panic);
  cap ← io (hpet_in hpet_cap);
  p ← gets hpet;
  freq ← lift (if Z.shiftr cap 32 =? 0 then Crash else Done (freqfrac_init (1000000000000000 / Z.shiftr cap 32)));
  _ ← io (λ h, ((), hpet_out hpet_cfg 1 h));
  _ ← put_hpet (mk_hpet true (negb (Z.land cap (2 ^ 13) =? 0)) (h_last p) (h_offset p) freq);
  o ← start_offset fuel Hpet true;
  p ← gets hpet; _ ← put_hpet (mk_hpet (h_ready p) (h_64bit p) (h_last p) o (h_freq p));
  register_clock Hpet.
Definition kvm_init_cpu (fuel : nat) (mapped : bool) : timeM unit :=
  if negb kvm_supported then mret () else
  _ ← lift (if mapped then Done () else Panic);
  r ← gets kvm_registered;
  if (r : bool) then mret () else
  o ← start_offset fuel Kvm true;
  _ ← put_kvm o true;
  register_clock Kvm.
Definition pit_start (fuel : nat) : timeM unit :=
  o ← start_offset fuel Pit false;
  p ← gets pit; m ← main_clock;
  _ ← put_pit (mk_pit (p_tick p) (match m with Some _ => o | None => p_offset p end) (p_ready p));
  _ ← register_clock Pit;
  p ← gets pit; put_pit (mk_pit (p_tick p) (p_offset p) true).

(** ** Calibration *)
Inductive calibrator := CalKvm | CalHpet | CalPm.
Definition arch_calibrator : timeM (option calibrator) :=
  p ← gets hpet;
  mret (if kvm_supported then Some CalKvm else if h_ready p then Some CalHpet else None).
Definition find_calibrator : timeM (option calibrator) :=
  c ← arch_calibrator;
  mret (match c with Some c => Some c | None => if pm_supported then Some CalPm else None end).
Fixpoint use_timer_loop (fuel rf : nat) (c : clock) (until : Z) : timeM unit :=
  match fuel with
  | O => λ _, NoFuel
  | S fuel => now ← clock_ns rf c; if now <? until then use_timer_loop fuel rf c until else mret ()
  end.
Definition use_timer (fuel rf : nat) (c : clock) (ms : Z) : timeM Z :=
  start ← clock_ns rf c;
  _ ← use_timer_loop fuel rf c (w64 (start + w64 (ms * 1000000)));
  now ← clock_ns rf c; mret (w64 (now - start)).
Definition calibrate (fuel rf : nat) (c : calibrator) (ms : Z) : timeM Z :=
  match c with CalKvm => use_timer fuel rf Kvm ms | CalHpet => hpet_calibrate fuel ms | CalPm => pm_calibrate fuel ms end.
Fixpoint tsc_measure (times : nat) (fuel rf : nat) (c : calibrator) (val : Z) : timeM Z :=
  match times with
  | O => mret val
  | S times =>
      start ← io rdtsc; slept ← calibrate fuel rf c 50; stop ← io rdtsc;
      v ← lift (if slept =? 0 then Crash else Done (w64 (w64 (stop - start) * 1000000000) / slept));
      tsc_measure times fuel rf c (w64 (val + v))
  end.
(** The frequency that leaf 0x15 gives: the members are 32 bits wide. *)
Definition leaf_freq (r : id_res) : Z := w32 (id_c r * id_b r) / id_a r.
Definition tsc_frequency (fuel rf : nat) : timeM Z :=
  let measured : timeM Z :=
    if kvm_supported then kvm_tsc_freq else
    c ← find_calibrator;
    match c with Some c => v ← tsc_measure 3 fuel rf c 0; mret (v / 3) | None => mret 0 end in
  match cpu_id 0x15 0 with
  | Some r => if negb (id_a r =? 0) && negb (id_b r =? 0) && negb (id_c r =? 0) then mret (leaf_freq r) else measured
  | None => measured
  end.
(** [bsp]: this is the processor that has started the others. *)
Definition tsc_init_cpu (fuel rf : nat) (bsp : bool) : timeM unit :=
  if negb tsc_supported then mret () else
  _ ← (if bsp then
         val ← tsc_frequency fuel rf;
         t ← gets tsc;
         if val =? 0 then mret () else put_tsc (mk_tsc (freqfrac_init val) (t_offset t) true)
       else mret ());
  t ← gets tsc;
  if is_calibrated t then
    m ← main_clock;
    a ← tsc_time_ns;
    o ← (match m with Some d => b ← clock_ns rf d; mret (s64 (w64 (t_offset t + (a - b)))) | None => mret (s64 a) end);
    t ← gets tsc; put_tsc (mk_tsc (t_freq t) o (is_calibrated t))
  else mret ().
Definition tsc_finalise : timeM unit :=
  t ← gets tsc; if is_calibrated t then register_clock Tsc else mret ().
End timers.

(** ** Several processors
    [last] is shared by all processors.  Reading the counter, loading [last] and storing it are
    single steps, in the order of the source; the counter goes on in between. *)
Inductive reader := Idle | HasValue (v : Z) | HasLast (v last_val : Z) | Returned (v : Z).
Record shared := mk_shared { counted : Z; s_last : Z; readers : nat → reader }.
Definition set_reader (c : nat) (r : reader) (l : Z) (s : shared) : shared :=
  mk_shared (counted s) l (λ d, if decide (d = c) then r else readers s d).
Definition reader_next (mask : Z) (c : nat) (s : shared) : shared :=
  match readers s c with
  | Idle | Returned _ => set_reader c (HasValue (counted s mod (mask + 1))) (s_last s) s
  | HasValue v => set_reader c (HasLast v (s_last s)) (s_last s) s
  | HasLast v last_val =>
      let v := extend mask v last_val in
      set_reader c (Returned v) (if must_store mask v last_val && (s_last s =? last_val) then v else s_last s) s
  end.
Definition ticked (d : Z) (s : shared) : shared := mk_shared (counted s + d) (s_last s) (readers s).
Inductive shared_step (mask : Z) : shared → shared → Prop :=
| step_tick d s : 0 ≤ d → shared_step mask s (ticked d s)
| step_reader c s : shared_step mask s (reader_next mask c s).
Definition shared_start (n : Z) : shared := mk_shared n 0 (λ _, Idle).
