(* ===== verification/TimersSpec.v ===== *)
(** Timers: the short counters are extended to counters that do not go round, as long as they
    are read often enough and by one processor at a time; clocks take over from each other
    without a jump. *)

From S2P Require Import Prelude Math Timers.
#[local] Open Scope Z_scope.

(** ** The extension of a counter of [b] bits *)
Section extend.
Context (b : Z) (Hb : 0 < b < 64).
Notation mask := (2 ^ b - 1).

Lemma counter_low_bits v : Z.land v mask = v mod 2 ^ b.
Proof. rewrite <-Z.land_ones by lia. f_equal. rewrite Z.ones_equiv. lia. Qed.
Lemma high_bits l : 0 ≤ l < 2 ^ 64 → Z.land l (wnot64 mask) = Z.shiftl (l / 2 ^ b) b.
Proof.
  intros Hl. pose proof (pow2_pos b). assert (2 ^ b < 2 ^ 64) by (apply Z.pow_lt_mono_r; lia).
  rewrite land_wnot64, <-Z.ldiff_land by lia.
  replace mask with (Z.ones b) by (rewrite Z.ones_equiv; lia). by rewrite Z.ldiff_ones_r, Z.shiftr_div_pow2 by lia.
Qed.
(** A value that is split into its lower and its upper bits. *)
Lemma join_bits v l : 0 ≤ l < 2 ^ 64 → Z.lor (Z.land v mask) (Z.land l (wnot64 mask)) = l - l mod 2 ^ b + v mod 2 ^ b.
Proof.
  intros Hl. pose proof (pow2_pos b). rewrite counter_low_bits, high_bits by done.
  assert (Z.land (v mod 2 ^ b) (Z.shiftl (l / 2 ^ b) b) = 0) as Hd.
  { apply Z.bits_inj'. intros i Hi. rewrite Z.land_spec, Z.bits_0. destruct (Z.lt_ge_cases i b).
    - rewrite (Z.shiftl_spec_low (l / 2 ^ b)) by lia. apply andb_false_r.
    - by rewrite Z.mod_pow2_bits_high by lia. }
  pose proof (Z.add_lor_land (v mod 2 ^ b) (Z.shiftl (l / 2 ^ b) b)) as Ha. rewrite Hd in Ha.
  rewrite Z.shiftl_mul_pow2 in * by lia. pose proof (Z.div_mod l (2 ^ b)). lia.
Qed.

(** The counter has gone on by [d], less than one round, since the last value was stored. *)
Lemma extend_spec v l d : 0 ≤ l → 0 ≤ d < 2 ^ b → l + d < 2 ^ 64 → v mod 2 ^ b = (l + d) mod 2 ^ b → extend mask v l = l + d.
Proof.
  intros Hl Hd Hmax Hv. pose proof (pow2_pos b). unfold extend. rewrite join_bits, Hv by lia. set (B := 2 ^ b) in *.
  pose proof (Z.mod_pos_bound l B). pose proof (Z.div_mod l B). pose proof (Z.mod_pos_bound (l + d) B). pose proof (Z.div_mod (l + d) B).
  assert ((l + d) / B = l / B ∨ (l + d) / B = l / B + 1) as [Eq|Eq].
  { destruct (Z_lt_le_dec (l mod B + d) B).
    - left. symmetry. apply (Z.div_unique _ _ _ (l mod B + d)); lia.
    - right. symmetry. apply (Z.div_unique _ _ _ (l mod B + d - B)); lia. }
  - rewrite (proj2 (Z.ltb_ge _ _)) by nia. nia.
  - rewrite (proj2 (Z.ltb_lt _ _)) by nia. rewrite w64_small by nia. nia.
Qed.
Lemma must_store_spec l d : 0 ≤ l → 0 ≤ d < 2 ^ b → l + d < 2 ^ 64 → must_store mask (l + d) l = negb (d =? 0).
Proof.
  intros Hl Hd Hmax. unfold must_store. assert (2 ^ b ≤ 2 ^ 63) by (apply Z.pow_le_mono_r; lia).
  rewrite Z.shiftr_div_pow2 by lia. change (2 ^ 1) with 2. replace (l - (l + d)) with (- d) by lia.
  assert ((2 ^ b - 1) / 2 < 2 ^ 63) by (apply Z.div_lt_upper_bound; lia). assert (0 ≤ (2 ^ b - 1) / 2) by (apply Z.div_pos; lia).
  destruct (Z.eqb_spec d 0) as [->|Hd0]; simpl negb.
  - apply Z.ltb_ge. change (w64 (- 0)) with 0. lia.
  - apply Z.ltb_lt. unfold w64. rewrite <-(Z.mod_add _ 1) by lia. rewrite Z.mod_small; lia.
Qed.
End extend.

(** ** The power management timer *)
Section timers.
Context {H : Type} `{!TimerHw H} `{!ClockHeap}.
Implicit Types s : timers H.

(** What the register promises: it shows the lower bits of a count, the upper bits are zero, and
    one access takes less than [2 ^ 20] ticks (a quarter of a second). *)
Definition pm_counts (t : H → Z) : Prop :=
  ∀ h, (pm_in h).1 = t (pm_in h).2 mod (pm_mask + 1) ∧ t h ≤ t (pm_in h).2 ≤ t h + 2 ^ 20.
(** [last] is the count of an earlier time, less a number of rounds. *)
Definition pm_tracks (t : H → Z) (base : Z) s : Prop :=
  base mod (pm_mask + 1) = 0 ∧ 0 ≤ pm_last (pm s) ∧ pm_last (pm s) + base ≤ t (hw s).
Definition with_hw (h : H) s : timers H := mk_timers H h (pm s) (hpet s) (kvm_offset s) (kvm_registered s) (tsc s) (pit s) (time s).
Definition with_pm (l : Z) s : timers H :=
  mk_timers H (hw s) (mk_pm l (pm_offset (pm s))) (hpet s) (kvm_offset s) (kvm_registered s) (tsc s) (pit s) (time s).

Lemma pm_mask_cases : pm_supported = true → ∃ b, pm_mask = 2 ^ b - 1 ∧ 24 ≤ b ≤ 32.
Proof.
  unfold pm_supported, pm_mask. destruct fadt as [[len flags]|]; [|done]. intros _.
  destruct (negb _); [exists 32|exists 24]; split; (reflexivity || lia).
Qed.

(** Three values of a counter that goes round at most once are in order, so they are accepted. *)
Lemma three_reads M t1 t2 t3 v1 v2 v3 : 0 < M → t1 ≤ t2 → t2 ≤ t3 → t3 < t1 + M →
  v1 = t1 mod M → v2 = t2 mod M → v3 = t3 mod M →
  ((v2 <? v1) && (v1 <? v3)) || ((v3 <? v2) && (v2 <? v1)) || ((v1 <? v3) && (v3 <? v2)) = false.
Proof.
  intros HM H12 H23 H31 -> -> ->. pose proof (Z.mod_pos_bound t1 M). pose proof (Z.mod_pos_bound t2 M). pose proof (Z.mod_pos_bound t3 M).
  assert (∀ x y, x ≤ y → y < x + M → y mod M = x mod M + (y - x) ∨ y mod M = x mod M + (y - x) - M) as Hm.
  { intros x y Hxy Hlt. pose proof (Z.mod_pos_bound x M). pose proof (Z.div_mod x M). destruct (Z_lt_le_dec (x mod M + (y - x)) M).
    - left. symmetry. apply (Z.mod_unique _ _ (x / M)); lia.
    - right. symmetry. apply (Z.mod_unique _ _ (x / M + 1)); lia. }
  pose proof (Hm t1 t2). pose proof (Hm t1 t3). pose proof (Hm t2 t3).
  destruct (Z.ltb_spec (t2 mod M) (t1 mod M)), (Z.ltb_spec (t1 mod M) (t3 mod M)), (Z.ltb_spec (t3 mod M) (t2 mod M)); simpl; reflexivity || (exfalso; lia).
Qed.

Lemma pm_read_slow_ok (t : H → Z) fuel s : pm_supported = true → pm_counts t →
  ∃ h2 h3, pm_read_slow (S fuel) s = Done (t h2 mod (pm_mask + 1), with_hw h3 s) ∧ t (hw s) ≤ t h2 ∧ t h2 ≤ t h3 ∧ t h3 ≤ t (hw s) + 3 * 2 ^ 20.
Proof.
  intros Hs Ht. destruct (pm_mask_cases Hs) as (b & Em & Hb). pose proof (Z.pow_le_mono_r 2 24 b). pose proof (Z.pow_le_mono_r 2 b 32).
  destruct (pm_in (hw s)) as [v1 h1] eqn:E1, (pm_in h1) as [v2 h2] eqn:E2, (pm_in h2) as [v3 h3] eqn:E3.
  pose proof (Ht (hw s)) as L1. pose proof (Ht h1) as L2. pose proof (Ht h2) as L3. rewrite E1 in L1. rewrite E2 in L2. rewrite E3 in L3. simpl in L1, L2, L3.
  destruct L1 as [-> ?], L2 as [-> ?], L3 as [-> ?]. exists h2, h3.
  cbn [pm_read_slow]. unfold mbind, timeM_bind, io. cbn. rewrite E1. cbn. rewrite E2. cbn. rewrite E3. cbn.
  pose proof (Z.mod_pos_bound (t h1) (pm_mask + 1)). pose proof (Z.mod_pos_bound (t h2) (pm_mask + 1)). pose proof (Z.mod_pos_bound (t h3) (pm_mask + 1)).
  rewrite !w32_small by lia. erewrite (three_reads (pm_mask + 1) (t h1) (t h2) (t h3)) by (reflexivity || lia). split; [done|lia].
Qed.

(** C32: reading the power management timer: as long as it is read once in every round of its
    counter, and by one processor at a time, the time is that of a counter that never goes
    round; the loop that waits for three readings in order ends at once. *)
Theorem pm_time_exact (t : H → Z) base fuel s : pm_supported = true → pm_counts t → pm_tracks t base s →
  t (hw s) + 2 ^ 22 < pm_last (pm s) + base + pm_mask → t (hw s) + 2 ^ 22 - base < 2 ^ 64 →
  ∃ now s', pm_time_ns (S fuel) s = Done (w64 (nanos pm_freq (now - base) - pm_offset (pm s)), s') ∧
    t (hw s) ≤ now ≤ t (hw s') ∧ pm_tracks t base s' ∧ pm_last (pm s') + base = now ∧ s' = with_pm (now - base) (with_hw (hw s') s).
Proof.
  intros Hs Ht (Hbase & Hl & Hle) Hsoon Hmax. destruct (pm_mask_cases Hs) as (b & Em & Hb).
  pose proof (Z.pow_le_mono_r 2 24 b). assert (0 < b < 64) as Hb' by lia.
  destruct (pm_read_slow_ok t fuel s Hs Ht) as (h2 & h3 & E & L1 & L2 & L3).
  set (l := pm_last (pm s)) in *. set (d := t h2 - base - l).
  assert ((t h2 mod (pm_mask + 1)) mod 2 ^ b = (l + d) mod 2 ^ b) as Hv.
  { replace (pm_mask + 1) with (2 ^ b) in * by lia. rewrite Z.mod_mod by lia. unfold d.
    apply Z.mod_divide in Hbase as [k Hk]; [|lia]. replace (t h2) with (l + (t h2 - base - l) + k * 2 ^ b) at 1 by lia. apply Z.mod_add. lia. }
  exists (t h2), (with_pm (t h2 - base) (with_hw h3 s)).
  unfold pm_time_ns. rewrite Hs. unfold lift, mbind, timeM_bind, gets. cbn -[pm_read_slow]. rewrite E. cbn -[pm_read_slow]. rewrite Em in *. fold l.
  rewrite (extend_spec b Hb' _ l d) by (done || lia). rewrite (must_store_spec b Hb' l d) by lia.
  replace (l + d) with (t h2 - base) by lia. unfold pm_tracks. rewrite Em. cbn. split.
  - destruct (Z.eqb_spec d 0); cbn; [|done]. do 2 f_equal. unfold with_pm, with_hw. simpl. replace (t h2 - base) with l by lia. by destruct s as [? []].
  - repeat split; try lia; done.
Qed.

(** ** Waiting *)
(** In the states of [P] the clock [c] is the main clock and can be read; it never goes
    back, and goes on as long as it shows less than [top]. *)
Definition ticking (rf : nat) (c : clock) (P : timers H → Prop) (f : timers H → Z) (top : Z) : Prop :=
  ∀ s, P s → main (time s) = Some c ∧ ∃ s', clock_ns rf c s = Done (f s, s') ∧ P s' ∧ f s ≤ f s' ∧ (f s < top → f s < f s').
Lemma stall_loop_ok rf c P f target fuel s : ticking rf c P f target → P s → (0 < fuel)%nat → target - f s < Z.of_nat fuel →
  ∃ s' s1, stall_loop fuel rf c target s = Done (true, s') ∧ P s1 ∧ clock_ns rf c s1 = Done (f s1, s') ∧ target ≤ f s1.
Proof.
  intros Ht. revert s. induction fuel as [|fuel IH]; intros s HP Hpos Hf; [lia|].
  destruct (Ht s HP) as (_ & s1 & E1 & HP1 & _ & Hlt). cbn [stall_loop]. unfold mbind, timeM_bind. rewrite E1. cbn [mbind outcome_bind].
  destruct (Z.ltb_spec (f s) target).
  - destruct (IH s1 HP1) as (s' & s2 & E & E2 & ? & ?); [lia|lia|]. by exists s', s2.
  - by exists s1, s.
Qed.

(** C35: waiting on the main clock ends after at most one reading for each nanosecond, and its last
    reading is not before the time is over; without a clock it returns at once and says so. *)
Theorem stall_ns_correct rf fuel ns s : 0 ≤ ns → ns + 1 < Z.of_nat fuel →
  (main (time s) = None → stall_ns fuel rf ns s = Done (false, s)) ∧
  ∀ c P f, ticking rf c P f (f s + ns) → P s → 0 ≤ f s → f s + ns < 2 ^ 64 →
    ∃ s' s1, stall_ns fuel rf ns s = Done (true, s') ∧ P s1 ∧ clock_ns rf c s1 = Done (f s1, s') ∧ f s + ns ≤ f s1.
Proof.
  intros Hns Hf. unfold stall_ns, main_clock, gets, mbind, timeM_bind. cbn [mbind outcome_bind]. split; [by intros ->|].
  intros c P f Ht HP Hs Hmax. destruct (Ht s HP) as (-> & s1 & E1 & HP1 & Hle & Hlt). rewrite E1. cbn [mbind outcome_bind]. rewrite w64_small by lia.
  apply (stall_loop_ok rf c P f (f s + ns) fuel s1 Ht HP1); lia.
Qed.

(** ** Taking over *)
(** With the offset that is stored at [a] on the new clock and [b] on the old one, the new clock
    continues the old one, as numbers modulo [2 ^ 64]. *)
Lemma s64_mod x : s64 x mod 2 ^ 64 = x mod 2 ^ 64.
Proof.
  unfold s64. rewrite Zminus_mod, Z.mod_mod, <-Zminus_mod by lia. f_equal. lia.
Qed.
Lemma offset_continues a b r : w64 (r - s64 (w64 (a - b))) = w64 (b + (r - a)).
Proof.
  unfold w64 at 1. rewrite Zminus_mod, s64_mod. unfold w64. rewrite Z.mod_mod, <-Zminus_mod by lia. f_equal. lia.
Qed.

(** The heap has a clock of the highest priority at its top. *)
Class ClockHeapLaws : Prop := heap_top_max : ∀ l, l ≠ [] → ∃ c, heap_top l = Some c ∧ c ∈ l ∧ ∀ d, d ∈ l → priority d ≤ priority c.
Context `{!ClockHeapLaws}.

Lemma register_clock_spec c s : ∃ m, register_clock c s =
    Done ((), mk_timers H (hw s) (pm s) (hpet s) (kvm_offset s) (kvm_registered s) (tsc s) (pit s) (mk_time (clocks (time s) ++ [c]) (Some m))) ∧
  m ∈ clocks (time s) ++ [c] ∧ ∀ d, d ∈ clocks (time s) ++ [c] → priority d ≤ priority m.
Proof.
  destruct (heap_top_max (clocks (time s) ++ [c])) as (m & Em & Hm & Hmax); [by destruct (clocks (time s))|].
  exists m. unfold register_clock, gets, lift, mbind, timeM_bind. cbn -[heap_top]. by rewrite Em.
Qed.

(** The wide counter of the HPET is read as it is. *)
Lemma hpet_read_wide s : h_64bit (hpet s) = true → hpet_read s = Done ((hpet_in hpet_cnt (hw s)).1, with_hw (hpet_in hpet_cnt (hw s)).2 s).
Proof.
  intros Hw. unfold hpet_read, io, gets, mbind, timeM_bind. destruct (hpet_in hpet_cnt (hw s)) as [v h]. cbn. by rewrite Hw.
Qed.
Lemma hpet_time_wide s : h_ready (hpet s) = true → h_64bit (hpet s) = true →
  hpet_time_ns s = Done (w64 (nanos (h_freq (hpet s)) (hpet_in hpet_cnt (hw s)).1 - h_offset (hpet s)), with_hw (hpet_in hpet_cnt (hw s)).2 s).
Proof.
  intros Hr Hw. pose proof (hpet_read_wide s Hw) as E. unfold hpet_time_ns, gets, lift, mbind, timeM_bind. cbn -[hpet_read]. rewrite Hr. cbn -[hpet_read]. by rewrite E.
Qed.

(** The state after the HPET has been enabled, and the one after its first reading. *)
Definition hpet_enabled (cap : Z) (h1 : H) s : timers H :=
  mk_timers H (hpet_out hpet_cfg 1 h1) (pm s)
    (mk_hpet true (negb (Z.land cap (2 ^ 13) =? 0)) (h_last (hpet s)) (h_offset (hpet s)) (freqfrac_init (1000000000000000 / Z.shiftr cap 32)))
    (kvm_offset s) (kvm_registered s) (tsc s) (pit s) (time s).
Definition hpet_sampled (cap : Z) (h1 : H) s : timers H :=
  with_hw (hpet_in hpet_cnt (hpet_out hpet_cfg 1 h1)).2 (hpet_enabled cap h1 s).
Lemma wide_bit cap : Z.testbit cap 13 = true → negb (Z.land cap (2 ^ 13) =? 0) = true.
Proof.
  intros Hbit. apply negb_true_iff, Z.eqb_neq. intros E0. assert (Z.testbit (Z.land cap (2 ^ 13)) 13 = false) as Hf by (rewrite E0; apply Z.bits_0).
  by rewrite Z.land_spec, Hbit in Hf.
Qed.

(** C34: a 64-bit HPET takes over from the main clock [d].  Starting it succeeds; [d] is read,
    with the result [b], right after the counter of the HPET has shown [v0]; the main clock is
    one of highest priority afterwards; and from then on the HPET, when its counter shows [v],
    tells the time [b] of the old clock plus the nanoseconds from [v0] to [v] (and what its
    offset was before, which is 0 when it is started for the first time). *)
Theorem hpet_takes_over fuel s d cap h1 b s2 : main (time s) = Some d → d ≠ Hpet →
  hpet_in hpet_cap (hw s) = (cap, h1) → Z.shiftr cap 32 ≠ 0 → Z.testbit cap 13 = true →
  clock_ns fuel d (hpet_sampled cap h1 s) = Done (b, s2) → hpet s2 = hpet (hpet_sampled cap h1 s) → time s2 = time s →
  let f := freqfrac_init (1000000000000000 / Z.shiftr cap 32) in
  let v0 := (hpet_in hpet_cnt (hpet_out hpet_cfg 1 h1)).1 in
  ∃ m s', hpet_start fuel true s = Done ((), s') ∧
    time s' = mk_time (clocks (time s) ++ [Hpet]) (Some m) ∧ m ∈ clocks (time s) ++ [Hpet] ∧ (∀ c, c ∈ clocks (time s) ++ [Hpet] → priority c ≤ priority m) ∧
    ∀ s1, hpet s1 = hpet s' → let '(v, h2) := hpet_in hpet_cnt (hw s1) in
      hpet_time_ns s1 = Done (w64 (b + (nanos f v - nanos f v0) + h_offset (hpet s)), with_hw h2 s1).
Proof.
  intros Hm Hd Ecap Hper Hbit Eb Eh Ets f v0. pose proof (wide_bit cap Hbit) as Hwide.
  set (s0 := hpet_enabled cap h1 s). assert (h_64bit (hpet s0) = true) as Hw0 by done.
  pose proof (hpet_time_wide s0 eq_refl Hw0) as Ea. change (hpet_in hpet_cnt (hw s0)).1 with v0 in Ea.
  change (h_freq (hpet s0)) with f in Ea. change (h_offset (hpet s0)) with (h_offset (hpet s)) in Ea.
  change (with_hw _ s0) with (hpet_sampled cap h1 s) in Ea. set (a := w64 (nanos f v0 - h_offset (hpet s))) in Ea.
  set (o := s64 (w64 (a - b))).
  set (s3 := mk_timers H (hw s2) (pm s2) (mk_hpet true true (h_last (hpet s)) o f) (kvm_offset s2) (kvm_registered s2) (tsc s2) (pit s2) (time s2)).
  destruct (register_clock_spec Hpet s3) as (m & Er & Hin & Hmax).
  exists m. eexists. split; [|split; [|split; [|split]]].
  - unfold hpet_start, lift, io, gets, put_hpet, mbind, timeM_bind. cbn -[start_offset register_clock freqfrac_init hpet_time_ns].
    rewrite Ecap. cbn -[start_offset register_clock freqfrac_init].
    destruct (Z.eqb_spec (Z.shiftr cap 32) 0); [done|]. cbn -[start_offset register_clock freqfrac_init]. fold (hpet_enabled cap h1 s). fold s0.
    assert (start_offset fuel Hpet true s0 = Done (o, s2)) as Eo.
    { unfold start_offset, main_clock, gets, mbind, timeM_bind. cbn -[hpet_time_ns]. rewrite Hm. cbn -[hpet_time_ns clock_ns].
      change (clock_ns fuel Hpet s0) with (hpet_time_ns s0). rewrite Ea. cbn -[clock_ns]. by rewrite Eb. }
    rewrite Eo. cbn -[register_clock]. rewrite Eh. cbn -[register_clock freqfrac_init]. rewrite Hwide. fold f. fold s3. exact Er.
  - simpl. by rewrite Ets.
  - simpl in Hin. by rewrite Ets in Hin.
  - intros c Hc. apply Hmax. simpl. by rewrite Ets.
  - intros s4 E4. rewrite (surjective_pairing (hpet_in hpet_cnt (hw s4))). rewrite hpet_time_wide by by rewrite E4. rewrite E4. cbn [hpet s3 h_freq h_offset].
    unfold o. rewrite offset_continues. do 2 f_equal. unfold a, w64. rewrite Zplus_mod, (Zminus_mod _ ((_ - _) mod _)), Z.mod_mod by lia.
    rewrite <-Zminus_mod, <-Zplus_mod. f_equal. lia.
Qed.

(** ** What goes wrong *)
(** Without an HPET the register reads as something with upper half zero, or not at all: the
    code divides by that half whether the table of the firmware has an HPET or not. *)
Lemma hpet_missing fuel s : Z.shiftr (hpet_in hpet_cap (hw s)).1 32 = 0 → hpet_start fuel true s = Crash.
Proof.
  intros E. unfold hpet_start, lift, io, gets, mbind, timeM_bind. cbn -[start_offset register_clock freqfrac_init].
  destruct (hpet_in hpet_cap (hw s)) as [cap h]. cbn -[start_offset register_clock freqfrac_init]. simpl in E. by rewrite E.
Qed.
(** Without a power management timer the assertion of [time_ns] fails. *)
Lemma acpipm_missing fuel s : pm_supported = false → acpipm_start fuel s = Panic.
Proof.
  intros E. assert (∀ s, pm_time_ns fuel s = Panic) as Ep by (intros s'; unfold pm_time_ns; by rewrite E).
  unfold acpipm_start, start_offset, main_clock, gets, mbind, timeM_bind. cbn -[pm_time_ns]. destruct (main (time s)); cbn -[pm_time_ns clock_ns]; cbn [clock_ns]; by rewrite Ep.
Qed.
End timers.

(** A processor whose crystal runs at 24 MHz and whose ratio is 250 to 2 has 3 GHz; the product of
    the numerator needs more than 32 bits and the result is less than 1 GHz. *)
Lemma leaf_freq_wraps : leaf_freq (mk_id_res 2 250 24000000 0) = 852516352 ∧ 24000000 * 250 / 2 = 3000000000.
Proof. split; reflexivity. Qed.

(** ** The shared counters *)
(** No reading of processor [c] is under way. *)
Definition at_rest (s : shared) (c : nat) : Prop := match readers s c with Idle | Returned _ => True | _ => False end.
(** A whole reading by processor [c]: the counter goes on by [d0] before it and by [d1] and
    [d2] between its three accesses; and what it returns. *)
Definition reading (mask : Z) (c : nat) (d0 d1 d2 : Z) (s : shared) : shared :=
  reader_next mask c (ticked d2 (reader_next mask c (ticked d1 (reader_next mask c (ticked d0 s))))).
Definition result (s : shared) (c : nat) : Z := match readers s c with Returned v => v | _ => -1 end.
(** Readings one after the other, by any processors, each less than a round after the one
    before, which was at count [t]: the counts and the results; the last count. *)
Inductive later_readings (mask t : Z) (s : shared) : list (Z * Z) → Z → shared → Prop :=
| later_none : later_readings mask t s [] t s
| later_one c d0 d1 d2 l t' s' : at_rest s c → 0 ≤ d0 → 0 ≤ d1 → 0 ≤ d2 → counted s + d0 < t + (mask + 1) →
    later_readings mask (counted s + d0) (reading mask c d0 d1 d2 s) l t' s' →
    later_readings mask t s ((counted s + d0, result (reading mask c d0 d1 d2 s) c) :: l) t' s'.

Section shared.
Context (b : Z) (Hb : 0 < b < 64).
Notation mask := (2 ^ b - 1).

(** The extension with a [last] that is [base], a number of rounds, ahead of the count [t]. *)
Lemma extend_ahead base t n : base mod 2 ^ b = 0 → 0 ≤ t + base → t ≤ n < t + 2 ^ b → n + base < 2 ^ 64 →
  extend mask (n mod (mask + 1)) (t + base) = n + base ∧ must_store mask (n + base) (t + base) = negb (n - t =? 0).
Proof.
  intros Hbase Ht Hn Hmax. replace (mask + 1) with (2 ^ b) by lia. replace (n + base) with (t + base + (n - t)) by lia. split.
  - apply extend_spec; try lia. rewrite Z.mod_mod by lia. replace (t + base + (n - t)) with (n + base) by lia.
    rewrite Zplus_mod, Hbase, Z.add_0_r, Z.mod_mod by lia. done.
  - apply must_store_spec; lia.
Qed.
(** What the three accesses of a processor do. *)
Lemma next_rest c s : at_rest s c → reader_next mask c s = set_reader c (HasValue (counted s mod (mask + 1))) (s_last s) s.
Proof. unfold at_rest, reader_next. by destruct (readers s c). Qed.
Lemma next_value c s v : readers s c = HasValue v → reader_next mask c s = set_reader c (HasLast v (s_last s)) (s_last s) s.
Proof. intros E. unfold reader_next. by rewrite E. Qed.
Lemma next_last c s v l : readers s c = HasLast v l → reader_next mask c s =
  set_reader c (Returned (extend mask v l)) (if must_store mask (extend mask v l) l && (s_last s =? l) then extend mask v l else s_last s) s.
Proof. intros E. unfold reader_next. by rewrite E. Qed.
Lemma readers_set c r l s e : readers (set_reader c r l s) e = if decide (e = c) then r else readers s e.
Proof. done. Qed.
Lemma reading_spec c d0 d1 d2 s : at_rest s c →
  let v := extend mask ((counted s + d0) mod (mask + 1)) (s_last s) in
  readers (reading mask c d0 d1 d2 s) c = Returned v ∧ counted (reading mask c d0 d1 d2 s) = counted s + d0 + d1 + d2 ∧
  s_last (reading mask c d0 d1 d2 s) = if must_store mask v (s_last s) then v else s_last s.
Proof.
  intros Hr v. unfold reading. rewrite (next_rest c (ticked d0 s)) by done. set (s1 := set_reader c _ _ _).
  rewrite (next_value c (ticked d1 s1) ((counted s + d0) mod (mask + 1))) by (simpl; by rewrite decide_True).
  set (s2 := set_reader c _ _ (ticked d1 s1)).
  rewrite (next_last c (ticked d2 s2) ((counted s + d0) mod (mask + 1)) (s_last s)) by (simpl; by rewrite decide_True).
  rewrite readers_set, decide_True by done. simpl. by rewrite Z.eqb_refl, andb_true_r.
Qed.

Lemma reading_exact base t c d0 d1 d2 s : base mod 2 ^ b = 0 → 0 ≤ t + base → s_last s = t + base → t ≤ counted s →
  at_rest s c → 0 ≤ d0 → counted s + d0 < t + 2 ^ b → counted s + d0 + base < 2 ^ 64 →
  readers (reading mask c d0 d1 d2 s) c = Returned (counted s + d0 + base) ∧ s_last (reading mask c d0 d1 d2 s) = counted s + d0 + base.
Proof.
  intros Hbase Ht Hl Hle Hr Hd Hlt Hmax. destruct (extend_ahead base t (counted s + d0)) as [He Hs]; [done|lia..|].
  destruct (reading_spec c d0 d1 d2 s Hr) as (Hres & _ & Hlast). rewrite Hl, He in Hres, Hlast. rewrite Hs in Hlast.
  rewrite Hres, Hlast. split; [done|]. destruct (Z.eqb_spec (counted s + d0 - t) 0); simpl; lia.
Qed.
Lemma later_readings_mono t s l t' s' : later_readings mask t s l t' s' → counted s ≤ counted s'.
Proof.
  induction 1 as [|t s c d0 d1 d2 l t' s' Hr H0 H1 H2 Hlt _ IH]; [lia|].
  destruct (reading_spec c d0 d1 d2 s Hr) as (_ & Hc & _). lia.
Qed.
(** Readings one after the other keep the distance between the clock and the count. *)
Lemma later_readings_exact base t s l t' s' : base mod 2 ^ b = 0 → 0 ≤ t + base → s_last s = t + base → t ≤ counted s →
  later_readings mask t s l t' s' → counted s' + base < 2 ^ 64 → Forall (λ x, x.2 = x.1 + base) l ∧ s_last s' = t' + base.
Proof.
  intros Hbase Ht Hl Hle Hlater Hmax. induction Hlater as [t s|t s c d0 d1 d2 l t' s' Hr H0 H1 H2 Hlt Hlater IH]; [done|].
  destruct (reading_spec c d0 d1 d2 s Hr) as (_ & Hc & _). pose proof (later_readings_mono _ _ _ _ _ Hlater).
  destruct (reading_exact base t c d0 d1 d2 s) as (Hres & Hlast); try done; [lia..|].
  destruct IH as (IH & ?); [lia|lia|lia|done|]. split; [|done].
  constructor; [|done]. unfold result. by rewrite Hres.
Qed.

(** The interleaving: processor [c1] gets its value from the counter; the counter goes on by
    [d]; processor [c2] reads the clock; then [c1] goes on. *)
Definition raced (c1 c2 : nat) (d : Z) (s : shared) : shared :=
  reader_next mask c1 (reader_next mask c1 (reading mask c2 d 0 0 (reader_next mask c1 s))).
Lemma raced_steps c1 c2 d s : 0 ≤ d → rtc (shared_step mask) s (raced c1 c2 d s).
Proof.
  intros Hd. unfold raced, reading. do 9 (eapply rtc_r; [|apply step_reader || (apply step_tick; lia)]). apply rtc_refl.
Qed.
Lemma reading_other c d0 d1 d2 s e : at_rest s c → e ≠ c → readers (reading mask c d0 d1 d2 s) e = readers s e.
Proof.
  intros Hr He. unfold reading. rewrite (next_rest c (ticked d0 s)) by done. set (s1 := set_reader c _ _ _).
  rewrite (next_value c (ticked d1 s1) ((counted s + d0) mod (mask + 1))) by (simpl; by rewrite decide_True).
  set (s2 := set_reader c _ _ (ticked d1 s1)).
  rewrite (next_last c (ticked d2 s2) ((counted s + d0) mod (mask + 1)) (s_last s)) by (simpl; by rewrite decide_True).
  rewrite readers_set. simpl. by rewrite !decide_False.
Qed.
Lemma raced_spec base t c1 c2 d s : base mod 2 ^ b = 0 → 0 ≤ t + base → s_last s = t + base → t ≤ counted s → c1 ≠ c2 →
  at_rest s c1 → at_rest s c2 → 0 < d → counted s + d < t + 2 ^ b → counted s + base + 2 ^ b < 2 ^ 64 →
  let s1 := raced c1 c2 d s in
  counted s1 = counted s + d ∧ readers s1 c2 = Returned (counted s1 + base) ∧
  readers s1 c1 = Returned (counted s + base + 2 ^ b) ∧ s_last s1 = counted s + base + 2 ^ b.
Proof.
  intros Hbase Ht Hl Hle Hne Hr1 Hr2 Hd Hlt Hmax s1. unfold s1, raced. rewrite (next_rest c1 s) by done.
  set (n := counted s) in *. set (sa := set_reader c1 _ _ s).
  assert (at_rest sa c2) as Hra by (unfold at_rest; simpl; by rewrite decide_False).
  destruct (reading_exact base t c2 d 0 0 sa) as (Hres & Hlast); try done; [lia|simpl; lia|].
  destruct (reading_spec c2 d 0 0 sa Hra) as (_ & Hc & _). pose proof (reading_other c2 d 0 0 sa c1 Hra Hne) as Ho.
  simpl in Ho. rewrite decide_True in Ho by done. change (counted sa) with n in *.
  set (sb := reading mask c2 d 0 0 sa) in *. rewrite (next_value c1 sb _ Ho). set (sc := set_reader c1 _ _ sb).
  assert (readers sc c1 = HasLast (n mod (mask + 1)) (s_last sb)) as Hv by (simpl; by rewrite decide_True).
  rewrite (next_last c1 sc _ _ Hv). change (s_last sc) with (s_last sb). rewrite Hlast.
  destruct (extend_ahead (base + 2 ^ b) (n + d - 2 ^ b) n) as [He Hs]; [|lia..|].
  { rewrite <-Z.add_mod_idemp_r, Z.mod_same, Z.add_0_r by lia. done. }
  replace (n + d - 2 ^ b + (base + 2 ^ b)) with (n + d + base) in * by lia. rewrite He, Hs, Z.eqb_refl.
  rewrite (proj2 (Z.eqb_neq _ _)) by lia. cbn [negb andb].
  rewrite !readers_set, (decide_False (P := c2 = c1)), decide_True by done. simpl. rewrite decide_False, Hres by done.
  change (counted sa) with n in Hc. split_and!; (lia || f_equal; lia).
Qed.
End shared.

(** C33: two processors that read a counter of [b] bits at the same time can put the clock a
    whole round ahead, for good.  Take any state in which the clock is [base] ahead of the
    count (no or some rounds, after [n] such races), was last read at count [t], less than a
    round ago, and no reading by [c1] or [c2] is under way.  Processor [c1] gets its value;
    [d] ticks later [c2] reads the clock, which is still [base] ahead; then [c1] goes on: it
    takes its own older value for one of the next round, returns and stores it.  All later
    readings, however many, by whatever processors one after the other and each less than a
    round after the one before, are [base] and one round ahead, as far as 64 bits reach. *)
Theorem shared_counter_race b base t c1 c2 d s : 0 < b < 64 → base mod 2 ^ b = 0 → 0 ≤ t + base → s_last s = t + base →
  t ≤ counted s → c1 ≠ c2 → at_rest s c1 → at_rest s c2 → 0 < d → counted s + d < t + 2 ^ b → counted s + base + 2 ^ b < 2 ^ 64 →
  ∃ s1, rtc (shared_step (2 ^ b - 1)) s s1 ∧ counted s1 = counted s + d ∧
    readers s1 c2 = Returned (counted s1 + base) ∧ readers s1 c1 = Returned (counted s + base + 2 ^ b) ∧
    ∀ l t' s2, later_readings (2 ^ b - 1) (counted s) s1 l t' s2 → counted s2 + base + 2 ^ b < 2 ^ 64 →
      Forall (λ x, x.2 = x.1 + base + 2 ^ b) l ∧ s_last s2 = t' + base + 2 ^ b.
Proof.
  intros Hb Hbase Ht Hl Hle Hne Hr1 Hr2 Hd Hlt Hmax. exists (raced b c1 c2 d s). split; [apply raced_steps; lia|].
  destruct (raced_spec b Hb base t c1 c2 d s) as (Hc & Hres2 & Hres1 & Hlast); try done.
  repeat (split; [done|]). intros l t' s2 Hlater Hmax2.
  destruct (later_readings_exact b Hb (base + 2 ^ b) (counted s) (raced b c1 c2 d s) l t' s2) as [Hall Hlast2]; try done; try lia.
  - rewrite <-Z.add_mod_idemp_r, Z.mod_same, Z.add_0_r by lia. done.
  - split; [|lia]. eapply Forall_impl; [exact Hall|]. intros x Hx. simpl in Hx. lia.
Qed.

(** ** An example machine: all counters count accesses *)
#[local] Instance ex_hw : TimerHw Z := {
  cpuid _ _ := mk_id_res 0 0 0 0;
  pm_in h := ((h + 1) mod 2 ^ 24, h + 1);
  hpet_in off h := if off =? 0 then (2 ^ 13 + Z.shiftl 10000000 32, h + 1) else (h + 1, h + 1);
  hpet_out _ _ h := h;
  rdtsc h := (h, Z.min (h + 1) (2 ^ 40));
  kvm_in _ h := (0, h);
  fadt := Some (4, 0);
  hpet_table := Some (0, 0xFED00000) }.
Definition better (c : clock) (m : option clock) : option clock :=
  match m with Some d => Some (if higher_priority d c then c else d) | None => Some c end.
#[local] Instance ex_heap : ClockHeap := fold_right better None.
#[local] Instance ex_heap_laws : ClockHeapLaws.
Proof.
  intros l. induction l as [|c l IH]; [done|]. intros _. unfold heap_top, ex_heap in *. simpl. destruct l as [|e l].
  - exists c. split; [done|]. split; [by left|]. intros d Hd%list_elem_of_singleton. by subst.
  - destruct IH as (m & Em & Hm & Hmax); [done|]. rewrite Em. simpl. unfold higher_priority. destruct (Z.ltb_spec (priority m) (priority c)).
    + exists c. split; [done|]. split; [by left|]. intros d [->|Hd]%elem_of_cons; [done|]. specialize (Hmax d Hd). lia.
    + exists m. split; [done|]. split; [by right|]. intros d [->|Hd]%elem_of_cons; [lia|by apply Hmax].
Qed.

Lemma pm_time_exact_witness : ∃ now s', pm_time_ns 5 (power_on 100) = Done (w64 (nanos pm_freq (now - 0) - 0), s') ∧ 100 ≤ now ≤ hw s'.
Proof.
  destruct (pm_time_exact (λ h, h) 0 4 (power_on 100)) as (now & s' & E & Hle & _).
  - reflexivity.
  - intros h. change (pm_mask + 1) with (2 ^ 24). simpl. lia.
  - split; [reflexivity|]. simpl. lia.
  - vm_compute. reflexivity.
  - vm_compute. reflexivity.
  - exists now, s'. split; [exact E|exact Hle].
Defined.

(** The time stamp counter as the main clock, one tick for each nanosecond. *)
Definition ex_tsc_state (h : Z) : timers Z :=
  mk_timers Z h (mk_pm 0 0) (mk_hpet false false 0 0 no_freq) 0 false (mk_tsc (freqfrac_init 1000000000) 0 true) (mk_pit 0 0 false)
    (mk_time [Tsc] (Some Tsc)).
Lemma nanos_giga h : 0 ≤ h < 2 ^ 64 → nanos (freqfrac_init 1000000000) h = h.
Proof.
  intros Hh. unfold nanos. change (ff_n (freqfrac_init 1000000000)) with (2 ^ 29). change (ff_p (freqfrac_init 1000000000)) with 29.
  rewrite Z.mod_small by lia. assert (Z.shiftr (h * 2 ^ 29) 29 = h) as -> by (rewrite Z.shiftr_div_pow2 by lia; apply Z.div_mul; lia).
  by rewrite Z.shiftr_div_pow2, Z.div_small by lia.
Qed.
Lemma stall_ns_correct_witness : ∃ s', stall_ns 1000 1 500 (ex_tsc_state 7) = Done (true, s').
Proof.
  destruct (stall_ns_correct 1 1000 500 (ex_tsc_state 7)) as [_ Hok]; [lia|lia|].
  destruct (Hok Tsc (λ s, ∃ h, 0 ≤ h ≤ 2 ^ 40 ∧ s = ex_tsc_state h) hw) as (s' & s1 & E & _).
  - intros s (h & Hh & ->). split; [reflexivity|]. exists (ex_tsc_state (Z.min (h + 1) (2 ^ 40))). split; [|split; [|split]].
    + cbn. unfold tsc_time_ns, gets, lift, io, mbind, timeM_bind. cbn -[nanos freqfrac_init]. rewrite nanos_giga by lia.
      rewrite Z.sub_0_r, w64_small by lia. reflexivity.
    + exists (Z.min (h + 1) (2 ^ 40)). split; [lia|reflexivity].
    + cbn. lia.
    + cbn. lia.
  - exists 7. split; [lia|reflexivity].
  - cbn. lia.
  - cbn. lia.
  - exists s'. exact E.
Defined.
(** A tick of this HPET takes ten nanoseconds.  It is first read as 9, then the time stamp
    counter as 9; when it is read as 1009 later, the time has gone on by 1000 ticks. *)
Lemma hpet_takes_over_witness : ∃ s', hpet_start 5 true (ex_tsc_state 7) = Done ((), s') ∧ main (time s') = Some Tsc ∧
  ∃ s2, hpet_time_ns (with_hw 1008 s') = Done (w64 (9 + (nanos (freqfrac_init 100000000) 1009 - nanos (freqfrac_init 100000000) 9) + 0), s2).
Proof.
  destruct (hpet_takes_over 5 (ex_tsc_state 7) Tsc (2 ^ 13 + Z.shiftl 10000000 32) 8 9
    (with_hw 10 (hpet_sampled (2 ^ 13 + Z.shiftl 10000000 32) 8 (ex_tsc_state 7)))) as (m & s' & E & Et & Hin & Hmax & Hns);
    [reflexivity|discriminate|reflexivity|discriminate|reflexivity|vm_compute; reflexivity|reflexivity|reflexivity|].
  exists s'. split; [exact E|]. split.
  - rewrite Et. simpl. f_equal.
    assert (75 ≤ priority m) as Hge by (apply (Hmax Tsc); left).
    apply elem_of_cons in Hin as [Hin|Hin]; [exact Hin|]. apply list_elem_of_singleton in Hin. subst m. simpl in Hge. lia.
  - pose proof (Hns (with_hw 1008 s') eq_refl) as H. cbn -[nanos freqfrac_init hpet_time_ns w64] in H. eexists. exact H.
Defined.
(** The 24 bits of a power management timer; a later reading, 90 ticks after the race. *)
Lemma shared_counter_race_witness : ∃ s, rtc (shared_step (2 ^ 24 - 1)) (shared_start 10) s ∧ counted s = 11 ∧
  readers s 0%nat = Returned 0x100000A ∧ result (reading (2 ^ 24 - 1) 1 89 3 5 s) 1 = 100 + 2 ^ 24.
Proof.
  destruct (shared_counter_race 24 0 0 0 1 1 (shared_start 10)) as (s & Hs & Hc & H2 & H1 & Hlater);
    [lia|reflexivity|lia|reflexivity|simpl; lia|lia|exact I|exact I|lia|simpl; lia|simpl; lia|].
  exists s. split; [exact Hs|]. split; [exact Hc|]. split; [exact H1|].
  assert (at_rest s 1) as Hr by (unfold at_rest; rewrite H2; exact I).
  pose proof (reading_spec 24 1 89 3 5 s Hr) as (_ & Hc2 & _). simpl in Hc. rewrite Hc in Hc2.
  destruct (Hlater [(counted s + 89, result (reading (2 ^ 24 - 1) 1 89 3 5 s) 1)] (counted s + 89) (reading (2 ^ 24 - 1) 1 89 3 5 s)) as [Hall _].
  - apply later_one; [exact Hr|lia|lia|lia|simpl; lia|apply later_none].
  - rewrite Hc2. lia.
  - apply Forall_inv in Hall. simpl in Hall. rewrite Hall, Hc. lia.
Defined.
